(* ===== verification/_CoqProject ===== *)
-Q . S2P
Prelude.v
Effects.v
GoOrder.v
GoFloat.v
GoStrings.v
GoNet.v
GoSort.v
GoHeap.v
Sha256.v
Handlers.v
TournamentState.v
TournamentPool.v
TournamentQueue.v
PlacementQueue.v
Health.v
QoE.v
SchedLoad.v
SchedState.v
SchedReserves.v
Scheduling.v
DataPlan.v
DataChange.v
FlowRegistry.v
Gateway.v
FlowRecovery.v
Reconciler.v
ReconcilerSafety.v
ReconcilerRuns.v
PlanningKey.v
Coverage.v
CoverageSearch.v
CoverageRuns.v
CoveragePlan.v
CoveragePlanSafety.v
StoreTables.v
StoreLogic.v
StoreSample.v
RouteRecovery.v
PlanStore.v
PlanStoreSafety.v
RoutingSnapshot.v
PlanStoreRuns.v
PlanStoreMark.v
EnginePublish.v
EngineSample.v
EnginePublishSafety.v
CandidateState.v
Observations.v
Inventory.v
TorProfiles.v
Retirement.v
RetirementRun.v
InventoryRuns.v
RetirementSafety.v
InventorySafety.v
XrayConfig.v
RouteCandidates.v
PlanRendering.v
RenderingSafety.v
Reservations.v
RouteSafety.v
EngineCycle.v
EngineCycleSafety.v
EngineCycleDurable.v
HardFailure.v
HardFailureDurable.v
HardFailureSafety.v
ObservationRuns.v
ObservationSafety.v
FailedRoutes.v
FailureDomainSafety.v
ActiveMonitor.v
ActiveMonitorSafety.v
ActiveMonitorRuns.v
ActiveTargets.v
MonitorTargets.v
MonitorTargetsSafety.v
QualityComparison.v
QualityMonitor.v
QualitySafety.v
