(* ===== verification/Prelude.v ===== *)
(** * Hydrat: decisions and state of the routing controller and its gateway

    Hydrat (src/, Go) gives clients of a gateway an outbound route.  A controller
    imports subscription sources, qualifies the candidate routes they bring by
    probing them, keeps a working pool, watches the quality of the routes in use, and
    schedules each client onto a route per transport.  The result is a desired plan
    that is made durable, that the gateway's data plane applies to a running Xray
    core, including the resets of connections that a failed route has left behind,
    and that is then marked applied.  This library models the parts of the program
    that decide and that keep state, and proves what makes them correct.

    ** How the parts interact

    Sources and their candidates live in the inventory ([Inventory]), whose epoch
    moves with every change of what can be routed.  Probe results move a candidate's
    state (the tournament of [TournamentState], and the one the database keeps,
    [CandidateState]); sequence numbers keep late results out and the circuits of
    failure domains count failures ([Observations]).  The selector turns all states
    into a working pool ([TournamentPool]); discovery and requalification jobs wait
    in a heap ([TournamentQueue]).  Health metrics and availability ([Health]) and
    observations of quality ([QoE]) qualify or degrade a candidate.

    An ordinary cycle ([EngineCycle]) takes a snapshot of the routing evidence
    ([RoutingSnapshot]), makes it into routes ([RouteCandidates]), settles which
    clients are idle and which primaries go on serving ([Reservations]), lets the
    coverage planner choose the candidates that together serve every client
    ([Coverage], [CoverageSearch], [CoveragePlan]), and asks the scheduler
    ([SchedLoad], [SchedState], [Scheduling]), which also answers a hard failure at
    once and keeps reserves ([SchedReserves]); it is triggered by reasons that wait in
    [PlacementQueue].  The placement is rendered as a plan of outbounds and client
    routes ([PlanRendering], [XrayConfig], [DataPlan]), which is published under the
    fence of the snapshot ([PlanStore]), handed to the gateway agent and marked
    applied ([EnginePublish]).  The agent compares it with the
    applied plan ([DataChange]) and installs it ([Gateway], [Reconciler]); the
    connections of a client on a failed outbound are closed by [FlowRecovery] through
    the registry of live flows in the core ([FlowRegistry]).  A confirmed failure of
    a route is a debt until it is repaired ([RouteRecovery]): as long as there is one,
    every cycle is a recovery ([HardFailure]), which changes of the applied plan only
    the routes that failed and falls back to an ordinary cycle when the clients of
    that plan are no longer those of the store.

    What tells failures is the active monitor: the engine names the routes in use and
    those that may replace them ([ActiveTargets]); the runs of the monitor share the
    last list and follow the applied plan with it ([MonitorTargets]), probe the routes
    in turn and judge what the probes bring back ([ActiveMonitor]):
    a confirmed failure goes into the store as an outage and a debt, and as an event
    into the mailbox from which the controller starts the recovery.  What tells routes
    that work badly is the monitor of quality ([QualityMonitor]): its sweeps choose the
    routes to measure, its workers share what they know of the routes, and a failure that
    only the route itself has shown is compared with the measurement of an independent
    one ([QualityComparison]) before [QoE] decides on it.  Candidates that no
    source lists and nothing uses any more are retired ([Retirement]), their bridges
    first leaving the Tor pool ([RetirementRun]).

    The store is the meeting point: every operation on it is a transaction over one
    record of tables ([StoreTables]), so that runs of all writers can be sequenced and
    the theorems of one part hold whatever the others do in between.

    ** Files and the code they model

    - [Prelude], [GoOrder], [GoFloat], [GoStrings], [GoNet], [GoSort], [GoHeap],
      [Sha256], [Effects]: automation and what the program uses of Go: total
      orders, float64 on the kernel's binary64, byte strings and runes, IPv4
      addresses of [net/netip], [sort.Slice], [container/heap] against its
      interface (the class [HeapInterface] with its laws [HeapLaws], through which
      the job queue uses it), SHA-256 as a function, stateful operations with errors
      and their triples.
    - [Handlers] (sources/handler.go, the four readers of handler names, and the egress
      country of sources/country.go).
    - [TournamentState] (tournament/state.go), [TournamentPool]
      (tournament/selector.go), [TournamentQueue] (tournament/queue.go: entries
      behind pointers, since [Push] changes the entry that the heap and the index
      share), [PlacementQueue] (controller/placement_queue.go).
    - [Health] (health/health.go, probetimeout/timeout.go), [QoE] (qoe/qoe.go).
    - [SchedLoad], [SchedState], [SchedReserves], [Scheduling] (scheduler/load.go,
      scheduler/reserves.go, scheduler/scheduler.go).
    - [DataPlan], [DataChange], [Gateway], [FlowRecovery], [Reconciler]
      (dataplane/reconciler.go, dataplane/flow_recovery.go); [ReconcilerSafety],
      [ReconcilerRuns]: its invariants and arbitrary sequences of its operations;
      [FlowRegistry] (xrayflow/protocol.go, xrayflow/registry.go).
    - [PlanningKey], [Coverage], [CoverageSearch], [CoveragePlan]
      (controller/critical_coverage_search.go, controller/engine_capacity.go):
      requirements, evaluation, the resumable search and the planner of a cycle;
      [CoverageRuns], [CoveragePlanSafety]: runs of the search, retained sessions.
    - [StoreTables] (store/clients.go, store/routing_evidence.go, the schema of
      store/migrations.go), [RouteRecovery] (store/route_recovery.go), [PlanStore]
      (store/plans.go, store/assignments.go), [RoutingSnapshot]
      (store/routing_evidence.go), [CandidateState] (store/candidate_state.go,
      store/health.go), [Observations] (store/candidate_observation.go,
      store/failure_domain.go), [Inventory] (store/sources.go,
      store/candidates.go), [TorProfiles] (store/tor_profiles.go), [Retirement]
      (store/retirement.go): one definition per exported method, its transaction's
      body beside it; [StoreLogic]: reasoning about transactions; [StoreSample]: a
      small database for the witnesses.
    - [PlanStoreSafety], [PlanStoreRuns], [PlanStoreMark]: the invariant of persisted
      plans, runs of all operations on plan tables, the path of one plan.
      [ObservationRuns], [ObservationSafety], [FailedRoutes], [FailureDomainSafety]:
      runs of all observations and what they guarantee.
      [InventoryRuns], [InventorySafety], [RetirementSafety]:
      runs of the inventory, the life of a candidate.
    - [EnginePublish] (controller/engine_plan.go, controller/flow_recovery.go, the end
      of [cycleOnce] in controller/engine.go), [EnginePublishSafety],
      [EngineSample]: publishing, applying, marking.
    - [XrayConfig] (xrayconfig/outbounds.go, xrayconfig/identity.go), [RouteCandidates] (controller/engine_candidates.go and the
      freshness of controller/engine.go), [Reservations]
      (controller/client_reservations.go, controller/serving_primaries.go,
      controller/engine_degraded.go), [PlanRendering] (the second half of [cycleOnce],
      [BuildDNSOutbound]), [EngineCycle] (the rest of [cycleOnce], the attempts of
      [CycleForReason]): one ordinary cycle.  [RenderingSafety], [RouteSafety],
      [EngineCycleSafety], [EngineCycleDurable]: what it guarantees.
    - [HardFailure] (controller/engine_hard_failure.go, the whole of [CycleForReason] in
      controller/engine.go, [ActiveCardinalityReady] of controller/engine_capacity.go):
      recoveries from confirmed failures.  [HardFailureDurable]: what a recovery
      publishes and how it ends; [HardFailureSafety]: which routes it moves where.
    - [ActiveTargets] (the other half of controller/engine_candidates.go),
      [MonitorTargets] (controller/active_targets.go, the probes of
      [Run] in controller/active_monitor.go), [ActiveMonitor]
      (controller/active_observations.go, controller/hard_failure_event.go, the results
      of [Run]): the active monitor.  [MonitorTargetsSafety]: the
      shared targets; [ActiveMonitorSafety], [ActiveMonitorRuns]: runs of the monitor
      beside other writers, and the readiness latch (controller/readiness.go).
    - [QualityComparison] (qoe/http_diagnostics.go, controller/qoe_comparison.go),
      [QualityMonitor] (controller/qoe_monitor.go, [compareHTTPFailure] of
      controller/qoe_comparison.go, store/qoe.go, agentapi/probe_failure.go): one probe
      of a worker, from the payload to the diagnostics, and one sweep, from its inputs to
      the jobs and the cursors.  [QualitySafety]: what they guarantee.
    - [RetirementRun] (controller/candidate_retirement.go): the
      collector with the Tor pool.

    ** What the theorems show

    - Gateway: no outbound is drained or removed while installed routes may use
      it; a ready gateway serves its applied plan; an application succeeds as a
      whole or keeps the applied plan; when the adapter answers again, newer
      plans are applied; validation accepts exactly the well-formed plans; the
      semantic digest depends on a plan's meaning only.
    - Flow recovery: no reset without a durable token; no pending recovery is
      lost; the queue is bounded and free of duplicates; a reset closes exactly
      the flows of its scope that its snapshot saw; the engine asks only for resets
      of failures that were confirmed.
    - Plans: a plan reaches the agent only when it is durable and is marked applied
      only when the agent took it; generations are never reused; the tables stay
      well formed and what is stored is never found corrupt; a publish is refused
      when the evidence of its snapshot has changed; what was published can be marked;
      an applied reserve is bound to the assignment it protects.
    - Cycles: a cycle places exactly the clients that are not paused, and moves each
      transport only to a route that the evidence of that cycle proves; the plan it
      renders passes the validator; whole cycles, with their retries and recoveries,
      hand over only durable plans; the identity of a route tells its server apart.
    - Recoveries: only transports that are known to have failed or that have an open
      debt move, onto the installed reserve while it is still good or onto an emergency
      choice, and none stays that could be moved; the answer after three overtaken
      attempts, and the only causes of each other answer.
    - Monitor: every route in use is probed as a critical one, in turn, within the
      limit and at a bounded cost; the targets that runs share have one planner, never
      go back to an older plan and follow the applied one; a failure is recorded only
      when two observations in order confirm it, and is announced at once; the mailbox
      keeps the most urgent failure and loses no wake-up; the latch tells the last
      outage.
    - Monitor of quality: a route is not blamed for a failure over HTTP unless an
      independent and healthy route works at the same time, and evidence from before a
      confirmed failure is fenced; UDP is granted and withdrawn exactly on streaks of
      reports of one generation; a sweep keeps its workers busy, measures no route twice
      at once and starves no class of routes; what is kept in memory is bounded.
    - Route debts: a confirmed failure is owed a replacement, and exactly the debts
      that are still open are read back.
    - Observations: results are applied in the order of their reservations, each at
      most once; what was reserved before a confirmed failure changes nothing; a
      failed route returns only on evidence that was reserved after the failure; a
      circuit opens on three recent failures and not before; the pool is exactly what
      was asked for and granted.
    - Inventory: its tables stay well formed; a candidate drains, is retired and
      deleted in this order, only at its deadlines and only while nothing refers to
      it; an epoch tells what can be routed; due candidates advance; a bridge leaves
      the Tor pool before its candidate does, or comes back.
    - Coverage: evaluation, static impossibility and the check of capacity are exact;
      the search terminates and its answer is exact; the candidates a cycle is given
      cover every client.
    - Scheduling: rounds terminate, answer for every client, move traffic only to
      routes that may take it, plan a bounded number of optional moves, keep
      resting clients, and leave no trace when cancelled; emergency choice is
      sound and complete; reserves are sound and stay; the load counters are
      exact; rendezvous does not depend on listing order; exclusions and previews
      keep their contracts.
    - Tournament, health, quality: qualification and bans refine an abstract
      tournament; the pool is full, hysteretic and order independent; both queues
      refine priority maps; degradation and recovery happen exactly on evidence;
      sanitising, medians, deadlines and quarantine keep their bounds.

    Three statements record where the code departs from its own comments:
    [Scheduling.retained_route_receives_new_tcp],
    [ReconcilerRuns.invalidation_forgotten_by_rehydration] and
    [HardFailureSafety.vision_reserve_never_matches].

    ** Conventions

    - A [time.Time] is the nanoseconds since Go's zero time as [Z], so the zero
      time is 0; a [time.Duration] is an int64 in [Z].  The monotonic clock
      reading is not modelled.  Integers that cannot reach their width in the code are [Z];
      wrap-around and saturation are written out where they can occur (the
      version counter, flow identifiers, deadlines, medians).
    - float64 is the kernel's primitive float: the operations round after each
      step, as on amd64 (no fused multiply-add); the conversion of an
      out-of-range float to an integer gives the amd64 value.
    - Strings are byte strings and are compared bytewise.  A nil slice or map and
      an empty one are identified where the code does not tell them apart.
    - [sort.Slice] is modelled by insertion sort; the package promises only some
      sorted permutation, and the theorems that depend on the result either use a
      comparison under which it is unique or say nothing about equal elements.
    - Iteration over a Go map is iteration in the order of [map_to_list], where
      its result does not depend on the order or only the error named does; in a
      cycle it is the class [MapRange], any permutation, chosen anew for each range.
    - A mutex makes the body of a method one step.  [InvalidateRuntime] stores
      its flag before it takes the lock, and so is two steps of a run; what an
      application read before it waited for the lock is arbitrary.
    - The adapter of the gateway and the state file answer from the whole trace
      of calls so far ([Env]); the trace is part of the state and the safety
      properties speak of it.  A write is done, not done, or done but reported as
      failed.  After [EvRuntimeLost] the core is presumed empty.  The environments of
      the engine and of the collector are of the same kind.
    - A table is a finite map from its primary key, a query a function of the
      database, a statement a change of it.  The single connection of the store makes
      a method one step.  A transaction commits, fails before its end, fails at its
      commit, or commits unreported ([Outcome]); in all but the first and last cases
      the database stays as it was.  Defaults of columns are those of the schema.
    - The steps of the shared targets are what happens under their mutex; the runs of
      the monitor interleave in any order.  The observations of the monitor run under
      one lock, and other writers of the store act between its calls.
    - The workers of the monitor of quality share a history of what was done under the
      mutex; before each step of one worker, the others may have appended anything to it
      and other writers may have changed the store.
    - Other writers may do anything to the tables between two steps of the engine,
      except that plans are written under the engine's cycle gate only, so that the
      others write no plans.  Runs of observations leave out the deletion of rows by
      retirement: a candidate that returns after it starts its sequences anew.
    - The parsers of [net/url] and [net/netip], the JSON texts of outbounds, and the
      text functions of the country rules are classes ([NetLib], [ExtraCodec],
      [DNSCodec], [DNSReader], [ConfigCodec], [TextLib]).
    - The JSON codecs are classes ([Json], [PlanCodec], [RetirementCodec]), the secret
      box is the class [Vault] for opening and an answer per call for sealing.  Where a
      theorem needs their documented behaviour (an encoded plan holds valid
      configurations; what is encoded is decoded), it is a named hypothesis, and the
      witnesses instantiate it.

    ** Bounds and fuel

    The recursion of the model is structural, on the slices the code ranges over,
    with these exceptions.  The two loops of [container/heap] run on fuel, the
    number of elements, which bounds the depth of the sift; the heap theorems are
    proved for that fuel.  Decoding runes runs on the number of bytes, and every
    rune takes at least one.  Decimal formatting runs on the number of binary
    digits, which the decimal ones do not exceed.  The search for a cover runs on
    [turns_left], a measure that every turn decreases, and a slice of it on the 4096
    evaluations the code allows; termination is a theorem.  Compensation makes the
    three attempts of the code.

    ** Not modelled

    The log lines and their rate windows decide nothing; the temporary file,
    rename and directory sync behind [writeAppliedPlan] are the three outcomes of
    a write; adapters, probes, HTTP and process control are input and output.  The
    migrations of older databases are not modelled, the rewriting of legacy plans
    among them; the backup copies a file.  [SaveDesiredPlanWithReason],
    [RecordCandidateProbe] and [tournament.ApplyProbe] are called by tests only and
    are modelled as the other operations are; the exclusions table is only deleted
    from.  Test hooks of the collector and of the engine are left out.
    [rewritePlanDNS] is called by tests only.  The deadline of a recovery is an answer
    of the environment: whether it is over when an attempt has failed.

    Of the active monitor the probes themselves are answers; its local probes
    without an agent only differ in what brings the observations; [WarmTargets] enters
    the shared targets as a run does.

    Of the monitor of quality, the reads of a sweep are its inputs, a worker takes a list
    of jobs where the code hands them over a channel, and the lock that keeps sweeps
    apart is left out; sanitising what the agent's client receives is too.

    The parts that are left are the qualification loops, the routing state, the
    Tor pool, the source parsers and the configuration. *)
From stdpp Require Export base gmap strings list sorting.
From Stdlib Require Export ZArith Lia.

(** The hint database of the development: lemmas that close or rewrite the
    routine goals of every component. *)
Create HintDb hydrat.
Create Rewrite HintDb hydrat.

(** [split_bool] turns boolean connectives in the context and in the goal into
    propositional ones. *)
Ltac split_bool :=
  repeat match goal with
  | H : _ && _ = true |- _ => apply andb_true_iff in H; destruct H
  | H : _ || _ = false |- _ => apply orb_false_iff in H; destruct H
  | H : negb _ = true |- _ => apply negb_true_iff in H
  | H : negb _ = false |- _ => apply negb_false_iff in H
  | |- _ && _ = true => apply andb_true_iff; split
  | |- _ || _ = false => apply orb_false_iff; split
  | |- negb _ = true => apply negb_true_iff
  | |- negb _ = false => apply negb_false_iff
  end.

(** [case_if] destructs the condition of one [if] or [match] on a boolean. *)
Ltac case_if :=
  match goal with
  | |- context [if ?b then _ else _] => destruct b eqn:?
  | H : context [if ?b then _ else _] |- _ => destruct b eqn:?
  end.

(** [z_bool] moves boolean comparisons on [Z] to propositions. *)
Ltac z_bool :=
  repeat match goal with
  | H : Z.ltb _ _ = true |- _ => apply Z.ltb_lt in H
  | H : Z.ltb _ _ = false |- _ => apply Z.ltb_ge in H
  | H : Z.leb _ _ = true |- _ => apply Z.leb_le in H
  | H : Z.leb _ _ = false |- _ => apply Z.leb_gt in H
  | H : Z.eqb _ _ = true |- _ => apply Z.eqb_eq in H
  | H : Z.eqb _ _ = false |- _ => apply Z.eqb_neq in H
  | |- Z.ltb _ _ = true => apply Z.ltb_lt
  | |- Z.ltb _ _ = false => apply Z.ltb_ge
  | |- Z.leb _ _ = true => apply Z.leb_le
  | |- Z.leb _ _ = false => apply Z.leb_gt
  | |- Z.eqb _ _ = true => apply Z.eqb_eq
  | |- Z.eqb _ _ = false => apply Z.eqb_neq
  end.

(** ** Functional update of record fields

    [s <| f := v |>] is Go's assignment [s.f = v] on a copied struct value.  A
    record type gives its eta expansion once; the setter of a field is computed
    from it. *)

Class Eta (R : Type) : Type := eta : R -> R.
Class Setter {R T : Type} (proj : R -> T) : Type := set_field : (T -> T) -> R -> R.
Arguments set_field {R T} proj {_} _ _.

Ltac solve_setter :=
  match goal with
  | |- @Setter ?R ?T ?proj =>
      let e := constr:(_ : Eta R) in
      let f := fresh "f" in let r := fresh "r" in
      intros f r;
      let body := eval hnf in e in
      let body := eval cbv beta in (body r) in
      let body := eval pattern (proj r) in body in
      match body with ?g _ => let b := eval cbv beta in (g (f (proj r))) in exact b end
  end.

#[export] Hint Extern 1 (Setter _) => solve_setter : typeclass_instances.

Notation "s <| proj := v |>" := (set_field proj (fun _ => v) s)
  (at level 1, left associativity, format "s  <| proj  :=  v |>").

#[local] Open Scope Z_scope.

(** ** Go integers, [time.Duration] and [time.Time] *)

(** [time.Duration]: signed 64-bit nanoseconds.  A value is a [Z]; the
    operations that can leave the range wrap explicitly. *)
Abbreviation Duration := Z (only parsing).

Definition max_int64 : Z := 2 ^ 63 - 1.
Definition min_int64 : Z := - 2 ^ 63.

(** Two's complement wrap-around of Go's [int64] arithmetic. *)
Definition wrap64 (z : Z) : Z := (z + 2 ^ 63) `mod` 2 ^ 64 - 2 ^ 63.

Definition nanosecond : Duration := 1.
Definition microsecond : Duration := 1000.
Definition millisecond : Duration := 1000000.
Definition second : Duration := 1000000000.
Definition minute : Duration := 60 * second.
Definition hour : Duration := 60 * minute.

(** [time.Time]: nanoseconds since Go's zero time (1 January of year 1, UTC),
    so that [IsZero] is equality with [0].  Monotonic clock readings are not
    modelled. *)
Abbreviation Time := Z (only parsing).

Definition zero_time : Time := 0.
Definition time_is_zero (t : Time) : bool := t =? 0.
Definition before (t u : Time) : bool := t <? u.
Definition after (t u : Time) : bool := u <? t.
Definition time_equal (t u : Time) : bool := t =? u.
Definition time_add (t : Time) (d : Duration) : Time := t + d.

(** [Time.Sub] saturates at the limits of [Duration]. *)
Definition time_sub (t u : Time) : Duration :=
  Z.max min_int64 (Z.min max_int64 (t - u)).

(** Seconds between Go's zero time and the Unix epoch. *)
Definition unix_epoch : Z := 62135596800.

Definition time_unix (t : Time) : Z := t / second - unix_epoch.
Definition time_unix_milli (t : Time) : Z := t / millisecond - unix_epoch * 1000.
Definition of_unix (seconds : Z) : Time := (seconds + unix_epoch) * second.
Definition of_unix_milli (ms : Z) : Time := (ms + unix_epoch * 1000) * millisecond.

Lemma wrap64_range z : min_int64 <= wrap64 z <= max_int64.
Proof.
  unfold wrap64, min_int64, max_int64.
  pose proof (Z.mod_pos_bound (z + 2 ^ 63) (2 ^ 64) ltac:(lia)). lia.
Qed.

Lemma wrap64_id z : min_int64 <= z <= max_int64 -> wrap64 z = z.
Proof.
  unfold wrap64, min_int64, max_int64. intros H.
  rewrite Z.mod_small by lia. lia.
Qed.

Lemma time_sub_range t u : min_int64 <= time_sub t u <= max_int64.
Proof. unfold time_sub, min_int64, max_int64. lia. Qed.

Lemma time_sub_exact t u :
  min_int64 <= t - u <= max_int64 -> time_sub t u = t - u.
Proof. unfold time_sub. lia. Qed.

Lemma time_unix_of_unix s : time_unix (of_unix s) = s.
Proof.
  unfold time_unix, of_unix. rewrite Z.div_mul by (unfold second; lia). lia.
Qed.

#[export] Hint Rewrite time_unix_of_unix : hydrat.
#[export] Hint Resolve wrap64_range time_sub_range : hydrat.

(** ** Lists *)

#[local] Close Scope Z_scope.

Section Lists.
Context {A : Type}.
Implicit Types (l k : list A) (f g : A -> bool) (x y : A).

Lemma filter_incl f l x : In x (List.filter f l) -> In x l.
Proof. rewrite filter_In. tauto. Qed.

Lemma filter_none f l :
  List.filter f l = [] <-> forall x, In x l -> f x = false.
Proof.
  induction l as [|x l IH]; simpl; [by split|].
  destruct (f x) eqn:E.
  - split; [discriminate|]. intros H. specialize (H x (or_introl eq_refl)). congruence.
  - rewrite IH. split; [|by auto]. intros H y [<-|Hy]; auto.
Qed.

Lemma filter_Permutation f l k : l ≡ₚ k -> List.filter f l ≡ₚ List.filter f k.
Proof.
  induction 1; simpl; repeat case_match; eauto using Permutation.
Qed.

Lemma filter_split_Permutation f l :
  List.filter f l ++ List.filter (fun x => negb (f x)) l ≡ₚ l.
Proof.
  induction l as [|x l IH]; simpl; [done|].
  destruct (f x); simpl; rewrite ?IH; [done|].
  rewrite <- Permutation_middle, IH. done.
Qed.

Lemma filter_ext_In f g l :
  (forall x, In x l -> f x = g x) -> List.filter f l = List.filter g l.
Proof.
  induction l as [|x l IH]; simpl; intros H; [done|].
  rewrite (H x), IH by auto. done.
Qed.

Lemma filter_all f l : (forall x, In x l -> f x = true) -> List.filter f l = l.
Proof.
  induction l as [|x l IH]; simpl; intros H; [done|].
  rewrite (H x), IH by auto. done.
Qed.

Lemma filter_filter f g l :
  List.filter f (List.filter g l) = List.filter (fun x => g x && f x) l.
Proof.
  induction l as [|x l IH]; simpl; [done|].
  destruct (g x); simpl; rewrite IH; done.
Qed.
End Lists.

(** Elements of related lists. *)
Lemma Forall2_In_l {A B : Type} (R : A -> B -> Prop) l k x :
  Forall2 R l k -> In x l -> exists y, In y k /\ R x y.
Proof.
  induction 1 as [|a b l k Hab _ IH]; [done|]. intros [<-|Hx]; [exists b; split; [by left|done]|].
  destruct (IH Hx) as (y & ? & ?). exists y. split; [by right|done].
Qed.

Lemma Forall2_In_r {A B : Type} (R : A -> B -> Prop) l k y :
  Forall2 R l k -> In y k -> exists x, In x l /\ R x y.
Proof. intros H Hy. apply Forall2_flip in H. exact (Forall2_In_l _ _ _ _ H Hy). Qed.

#[export] Hint Resolve filter_incl : hydrat.
