(* ===== verification/Effects.v ===== *)
(** Stateful operations that can fail: a program over a world [W] answers with
    an error or a value and leaves a world in either case, as a Go method with
    a pointer receiver and an [error] result does. *)
From S2P Require Import Prelude.

Definition Prog (W E A : Type) : Type := W -> (E + A) * W.

Declare Scope effect_scope.
Delimit Scope effect_scope with effect.

Section Programs.
Context {W E : Type}.

Definition ret {A : Type} (a : A) : Prog W E A := fun w => (inr a, w).
Definition raise {A : Type} (e : E) : Prog W E A := fun w => (inl e, w).
Definition bind {A B : Type} (m : Prog W E A) (k : A -> Prog W E B) : Prog W E B := fun w =>
  match m w with
  | (inr a, w) => k a w
  | (inl e, w) => (inl e, w)
  end.
Definition get {A : Type} (f : W -> A) : Prog W E A := fun w => (inr (f w), w).
Definition modify (f : W -> W) : Prog W E unit := fun w => (inr tt, f w).

(** [_ = m]: the error is dropped. *)
Definition ignore (m : Prog W E unit) : Prog W E unit := fun w => (inr tt, (m w).2).

Fixpoint filterM {A : Type} (p : A -> Prog W E bool) (l : list A) : Prog W E (list A) :=
  match l with
  | [] => ret []
  | x :: l => bind (p x) (fun b => bind (filterM p l) (fun rest =>
                ret (if b then x :: rest else rest)))
  end.

Fixpoint foldM {A B : Type} (f : B -> A -> Prog W E B) (b : B) (l : list A) : Prog W E B :=
  match l with
  | [] => ret b
  | x :: l => bind (f b x) (fun b => foldM f b l)
  end.

Definition forM {A : Type} (l : list A) (f : A -> Prog W E unit) : Prog W E unit :=
  foldM (fun _ x => f x) tt l.
End Programs.

Notation "x <- m ;; k" := (bind m (fun x => k))
  (at level 100, m at next level, right associativity) : effect_scope.
Notation "m ;;; k" := (bind m (fun _ => k)) (at level 100, right associativity) : effect_scope.

(** Steps that only compute and may fail. *)
Definition attempt {E A B : Type} (m : E + A) (k : A -> E + B) : E + B :=
  match m with inl e => inl e | inr a => k a end.
Notation "x <~ m ;; k" := (attempt m (fun x => k))
  (at level 100, m at next level, right associativity) : effect_scope.

(** ** Triples

    [triple P m Q R]: from a world in [P], a program that returns leaves value
    and world in [Q]; one that fails leaves error and world in [R]. *)

Section Triples.
Context {W E : Type}.
Implicit Types (P : W -> Prop) (R : E -> W -> Prop).

Definition triple {A : Type} P (m : Prog W E A) (Q : A -> W -> Prop) R : Prop :=
  forall w, P w -> match m w with (inr a, w') => Q a w' | (inl e, w') => R e w' end.

Lemma triple_ret {A : Type} (a : A) (Q : A -> W -> Prop) R : triple (Q a) (ret a) Q R.
Proof. by intros w Hw. Qed.

Lemma triple_raise {A : Type} (e : E) (Q : A -> W -> Prop) R : triple (R e) (raise e) Q R.
Proof. by intros w Hw. Qed.

Lemma triple_get {A : Type} (f : W -> A) (Q : A -> W -> Prop) R :
  triple (fun w => Q (f w) w) (get f) Q R.
Proof. by intros w Hw. Qed.

Lemma triple_modify f (Q : unit -> W -> Prop) R : triple (fun w => Q tt (f w)) (modify f) Q R.
Proof. by intros w Hw. Qed.

Lemma triple_bind {A B : Type} P (m : Prog W E A) (k : A -> Prog W E B)
    (S : A -> W -> Prop) (Q : B -> W -> Prop) R :
  triple P m S R -> (forall a, triple (S a) (k a) Q R) -> triple P (bind m k) Q R.
Proof.
  intros Hm Hk w Hw. unfold bind. specialize (Hm w Hw).
  destruct (m w) as [[e|a] w']; [done|]. by apply Hk.
Qed.

Lemma triple_conseq {A : Type} P P' (m : Prog W E A) (Q Q' : A -> W -> Prop) R R' :
  triple P' m Q' R' -> (forall w, P w -> P' w) -> (forall a w, Q' a w -> Q a w) ->
  (forall e w, R' e w -> R e w) -> triple P m Q R.
Proof.
  intros Hm HP HQ HR w Hw. specialize (Hm w (HP w Hw)). destruct (m w) as [[e|a] w']; auto.
Qed.

Lemma triple_pre {A : Type} P P' (m : Prog W E A) (Q : A -> W -> Prop) R :
  triple P' m Q R -> (forall w, P w -> P' w) -> triple P m Q R.
Proof. intros Hm HP. eapply triple_conseq; eauto. Qed.

(** A fact that the precondition entails. *)
Lemma triple_fact {A : Type} P (phi : Prop) (m : Prog W E A) (Q : A -> W -> Prop) R :
  (forall w, P w -> phi) -> (phi -> triple P m Q R) -> triple P m Q R.
Proof. intros Hphi Hm w Hw. by apply (Hm (Hphi w Hw)). Qed.

Lemma triple_if {A : Type} P (b : bool) (m n : Prog W E A) (Q : A -> W -> Prop) R :
  (b = true -> triple P m Q R) -> (b = false -> triple P n Q R) ->
  triple P (if b then m else n) Q R.
Proof. destruct b; auto. Qed.

Lemma triple_ignore P (m : Prog W E unit) (Q : unit -> W -> Prop) R :
  triple P m Q (fun _ => Q tt) -> triple P (ignore m) Q R.
Proof.
  intros Hm w Hw. unfold ignore. specialize (Hm w Hw). by destruct (m w) as [[e|[]] w'].
Qed.

Lemma triple_bind_get {A B : Type} P (f : W -> A) (k : A -> Prog W E B) (Q : B -> W -> Prop) R :
  (forall a, triple (fun w => P w /\ a = f w) (k a) Q R) -> triple P (bind (get f) k) Q R.
Proof. intros Hk w Hw. by apply Hk. Qed.

Lemma triple_bind_modify {B : Type} P f (k : unit -> Prog W E B) (P' : W -> Prop)
    (Q : B -> W -> Prop) R :
  (forall w, P w -> P' (f w)) -> triple P' (k tt) Q R -> triple P (bind (modify f) k) Q R.
Proof. intros Hf Hk w Hw. by apply Hk, Hf. Qed.

(** The invariant of a loop speaks of the elements already visited. *)
Lemma triple_foldM {A B : Type} (f : B -> A -> Prog W E B) (I : list A -> B -> W -> Prop) R
    (l : list A) (b : B) :
  (forall visited x todo b, l = visited ++ x :: todo ->
     triple (I visited b) (f b x) (I (visited ++ [x])) R) ->
  triple (I [] b) (foldM f b l) (I l) R.
Proof.
  intros Hstep.
  assert (forall todo visited b, l = visited ++ todo ->
    triple (I visited b) (foldM f b todo) (I l) R) as H; [|by apply (H l [])].
  intros todo. induction todo as [|x todo IH]; intros visited b' Hl; simpl.
  - rewrite app_nil_r in Hl. subst. by intros w Hw.
  - eapply triple_bind; [by eapply Hstep|]. intros b1. apply IH. by rewrite <- app_assoc.
Qed.

Lemma triple_forM {A : Type} (f : A -> Prog W E unit) (I : list A -> W -> Prop) R (l : list A) :
  (forall visited x todo, l = visited ++ x :: todo ->
     triple (I visited) (f x) (fun _ => I (visited ++ [x])) R) ->
  triple (I []) (forM l f) (fun _ => I l) R.
Proof.
  intros Hstep. apply (triple_foldM (fun _ x => f x) (fun visited _ => I visited)).
  intros visited x todo _. apply Hstep.
Qed.
End Triples.

(** A loop of plain changes is a fold. *)
Lemma run_forM_pure {W E A : Type} (f : A -> Prog W E unit) (g : W -> A -> W) (l : list A) (w : W) :
  (forall x w, f x w = (inr tt, g w x)) -> forM l f w = (inr tt, fold_left g l w).
Proof.
  intros Hf. revert w. unfold forM. induction l as [|x l IH]; intros w; simpl; [done|].
  unfold bind. by rewrite Hf, IH.
Qed.

(** A sequence that succeeds is two that succeed. *)
Lemma prog_bind_inr {W E A B : Type} (m : Prog W E A) (k : A -> Prog W E B) w b w2 :
  bind m k w = (inr b, w2) -> exists a w1, m w = (inr a, w1) /\ k a w1 = (inr b, w2).
Proof. unfold bind. destruct (m w) as [[e|a] w1]; [done|]. eauto. Qed.
