(* ===== verification/GoOrder.v ===== *)
(** Orders of the Go values the program sorts by: a class of total comparison
    functions with instances for integers, booleans, strings (Go compares
    strings bytewise) and lexicographic pairs, and the boolean orders they
    induce. *)
From Stdlib Require Import Ascii String.
From S2P Require Import Prelude.

(** A three-way comparison that is a total order on its carrier. *)
Class TotalCompare {K : Type} (cmp : K -> K -> comparison) : Prop := {
  tc_eq : forall x y, cmp x y = Eq <-> x = y;
  tc_opp : forall x y, cmp y x = CompOpp (cmp x y);
  tc_trans : forall x y z, cmp x y = Lt -> cmp y z = Lt -> cmp x z = Lt
}.

Definition is_lt (c : comparison) : bool :=
  match c with Lt => true | _ => false end.

Lemma is_lt_true c : is_lt c = true <-> c = Lt.
Proof. by destruct c. Qed.

Lemma is_lt_false c : is_lt c = false <-> c <> Lt.
Proof. by destruct c. Qed.

Definition lex (c d : comparison) : comparison :=
  match c with Eq => d | _ => c end.

Definition pair_compare {K L} (ck : K -> K -> comparison)
    (cl : L -> L -> comparison) (x y : K * L) : comparison :=
  lex (ck x.1 y.1) (cl x.2 y.2).

Definition bool_compare (x y : bool) : comparison :=
  match x, y with
  | false, true => Lt
  | true, false => Gt
  | _, _ => Eq
  end.

Section Laws.
Context {K : Type} {cmp : K -> K -> comparison} `{!TotalCompare cmp}.
Implicit Types x y z : K.

Lemma tc_refl x : cmp x x = Eq.
Proof. by apply tc_eq. Qed.

Lemma tc_gt x y : cmp x y = Gt <-> cmp y x = Lt.
Proof.
  pose proof (tc_opp x y) as H.
  destruct (cmp x y), (cmp y x); simpl in H; split; congruence.
Qed.

Lemma tc_lt_irrefl x : cmp x x <> Lt.
Proof. rewrite tc_refl. discriminate. Qed.

Lemma tc_lt_asym x y : cmp x y = Lt -> cmp y x <> Lt.
Proof. rewrite <- tc_gt. congruence. Qed.

Lemma tc_nlt_trans x y z : cmp x y <> Lt -> cmp y z <> Lt -> cmp x z <> Lt.
Proof.
  intros H1 H2 H3.
  destruct (cmp x y) eqn:E1; [apply (proj1 (tc_eq x y)) in E1; by subst|done|].
  destruct (cmp y z) eqn:E2; [apply (proj1 (tc_eq y z)) in E2; by subst; congruence|done|].
  apply (proj1 (tc_gt x y)) in E1. apply (proj1 (tc_gt y z)) in E2.
  eapply tc_lt_asym; [exact H3|]. exact (tc_trans _ _ _ E2 E1).
Qed.
End Laws.

#[export] Instance Z_total_compare : TotalCompare Z.compare.
Proof.
  split.
  - exact Z.compare_eq_iff.
  - intros x y. apply Z.compare_antisym.
  - intros x y z. rewrite !Z.compare_lt_iff. lia.
Qed.

#[export] Instance bool_total_compare : TotalCompare bool_compare.
Proof.
  split.
  - by intros [] [].
  - by intros [] [].
  - by intros [] [] [].
Qed.

#[export] Instance pair_total_compare {K L} (ck : K -> K -> comparison)
    (cl : L -> L -> comparison) :
  TotalCompare ck -> TotalCompare cl -> TotalCompare (pair_compare ck cl).
Proof.
  intros Hk Hl. unfold pair_compare. split.
  - intros [a b] [c d]; simpl. split.
    + destruct (ck a c) eqn:E1; simpl; try discriminate. intros E2.
      apply (tc_eq (cmp := ck)) in E1. apply (tc_eq (cmp := cl)) in E2. by subst.
    + intros [= -> ->]. by rewrite (tc_refl (cmp := ck)), (tc_refl (cmp := cl)).
  - intros [a b] [c d]; simpl.
    rewrite (tc_opp (cmp := ck) a c), (tc_opp (cmp := cl) b d). by destruct (ck a c).
  - intros [a b] [c d] [e f]; simpl.
    destruct (ck a c) eqn:E1; simpl; try discriminate;
      destruct (ck c e) eqn:E2; simpl; try discriminate; intros H1 H2.
    + apply (tc_eq (cmp := ck)) in E1, E2. subst.
      rewrite (tc_refl (cmp := ck)); simpl. exact (tc_trans _ _ _ H1 H2).
    + apply (tc_eq (cmp := ck)) in E1. subst. by rewrite E2.
    + apply (tc_eq (cmp := ck)) in E2. subst. by rewrite E1.
    + by rewrite (tc_trans _ _ _ E1 E2).
Qed.

(** Go's string comparison is bytewise, which is [String.compare]. *)
Lemma ascii_compare_lt a b :
  Ascii.compare a b = Lt <-> (N_of_ascii a < N_of_ascii b)%N.
Proof. unfold Ascii.compare. apply N.compare_lt_iff. Qed.

Lemma ascii_compare_eq a b : Ascii.compare a b = Eq <-> a = b.
Proof.
  unfold Ascii.compare. rewrite N.compare_eq_iff. split; [|by intros ->].
  intros H. by rewrite <- (ascii_N_embedding a), H, ascii_N_embedding.
Qed.

#[export] Instance string_total_compare : TotalCompare String.compare.
Proof.
  split.
  - intros x y. split; [apply String.compare_eq_iff|]. intros ->.
    induction y as [|a s IH]; simpl; [done|].
    by rewrite (proj2 (ascii_compare_eq a a) eq_refl).
  - intros x y. apply String.compare_antisym.
  - intros x. induction x as [|a x IH]; intros [|b y] [|c z]; simpl;
      try discriminate; try done.
    destruct (Ascii.compare a b) eqn:E1; try discriminate;
      destruct (Ascii.compare b c) eqn:E2; try discriminate; intros H1 H2.
    + apply ascii_compare_eq in E1, E2. subst.
      rewrite (proj2 (ascii_compare_eq c c) eq_refl). eauto.
    + apply ascii_compare_eq in E1. subst. by rewrite E2.
    + apply ascii_compare_eq in E2. subst. by rewrite E1.
    + rewrite ascii_compare_lt in E1, E2.
      by rewrite (proj2 (ascii_compare_lt a c) ltac:(lia)).
Qed.

(** Go's [<], [==] and prefix test on strings. *)
Definition str_ltb (x y : string) : bool := is_lt (String.compare x y).
Definition str_eqb (x y : string) : bool := bool_decide (x = y).

Fixpoint has_prefix (prefix s : string) : bool :=
  match prefix, s with
  | EmptyString, _ => true
  | String a p, String b t => Ascii.eqb a b && has_prefix p t
  | String _ _, EmptyString => false
  end.

Lemma str_eqb_eq x y : str_eqb x y = true <-> x = y.
Proof. apply bool_decide_eq_true. Qed.

Lemma str_eqb_neq x y : str_eqb x y = false <-> x <> y.
Proof. apply bool_decide_eq_false. Qed.

Lemma str_eqb_refl x : str_eqb x x = true.
Proof. by apply str_eqb_eq. Qed.

Lemma str_ltb_irrefl x : str_ltb x x = false.
Proof. unfold str_ltb. by rewrite (tc_refl (cmp := String.compare)). Qed.

Lemma str_ltb_trans x y z :
  str_ltb x y = true -> str_ltb y z = true -> str_ltb x z = true.
Proof.
  unfold str_ltb. destruct (String.compare x y) eqn:E1; try discriminate.
  destruct (String.compare y z) eqn:E2; try discriminate.
  by rewrite (tc_trans _ _ _ E1 E2).
Qed.

Lemma str_length_app s t :
  String.length (s ++ t)%string = (String.length s + String.length t)%nat.
Proof. induction s as [|a s IH]; simpl; [done|]. by rewrite IH. Qed.

Lemma has_prefix_app p s : has_prefix p (p ++ s)%string = true.
Proof.
  induction p as [|a p IH]; simpl; [done|]. by rewrite Ascii.eqb_refl, IH.
Qed.

Lemma has_prefix_spec p s :
  has_prefix p s = true <-> exists t, s = (p ++ t)%string.
Proof.
  split.
  - revert s. induction p as [|a p IH]; intros s; simpl; [by eexists|].
    destruct s as [|b s]; [discriminate|]. intros H. split_bool.
    apply Ascii.eqb_eq in H. apply IH in H0 as [t ->]. subst. by exists t.
  - intros [t ->]. apply has_prefix_app.
Qed.

#[export] Hint Rewrite str_eqb_refl str_ltb_irrefl has_prefix_app : hydrat.
#[export] Hint Resolve tc_refl tc_lt_irrefl str_ltb_trans : hydrat.

(** [str_bool] moves boolean string equality to propositions. *)
Ltac str_bool :=
  repeat match goal with
  | H : str_eqb _ _ = true |- _ => apply str_eqb_eq in H
  | H : str_eqb _ _ = false |- _ => apply str_eqb_neq in H
  | |- str_eqb _ _ = true => apply str_eqb_eq
  | |- str_eqb _ _ = false => apply str_eqb_neq
  end.
