(* ===== verification/GoFloat.v ===== *)
(** Go's float64 on the kernel's binary64 floats: the conversions between
    float64 and int64, [math.Max], and the order of the numbers that are not
    NaN, through an integer key that the comparison functions agree with. *)
From Stdlib Require Export PrimFloat.
From Stdlib Require Import FloatOps FloatAxioms SpecFloat.
From S2P Require Import Prelude GoOrder.

#[local] Open Scope Z_scope.

(** [float64(x)] for an integer [x]: round to nearest, ties to even. *)
Definition float_of_Z (z : Z) : float :=
  SF2Prim (binary_normalize prec emax z 0 false).

(** [int64(f)]: truncation towards zero.  A value outside the range of int64
    (or NaN) gives the minimum, as the amd64 conversion instruction does. *)
Definition int64_of_float (f : float) : Z :=
  match Prim2SF f with
  | S754_zero _ => 0
  | S754_finite s m e =>
      let magnitude := if 0 <=? e then Z.pos m * 2 ^ e else Z.pos m / 2 ^ (- e) in
      let z := if s then - magnitude else magnitude in
      if (min_int64 <=? z) && (z <=? max_int64) then z else min_int64
  | _ => min_int64
  end.

(** [Duration.Seconds]. *)
Definition duration_seconds (d : Duration) : float :=
  (float_of_Z (Z.quot d second) +
   float_of_Z (Z.rem d second) / float_of_Z 1000000000)%float.

Definition is_nan (f : float) : bool := PrimFloat.is_nan f.

Definition is_inf (f : float) : bool := PrimFloat.is_infinity f.

(** [math.Max], with its cases for infinities, NaN and the signed zeros. *)
Definition math_max (x y : float) : float :=
  if PrimFloat.eqb x infinity || PrimFloat.eqb y infinity then infinity
  else if is_nan x || is_nan y then nan
  else if PrimFloat.eqb x zero && PrimFloat.eqb x y then
    (if get_sign x then y else x)
  else if PrimFloat.ltb y x then x else y.

(** Go's [>] and [>=]. *)
Definition fgt (x y : float) : bool := PrimFloat.ltb y x.
Definition fge (x y : float) : bool := PrimFloat.leb y x.

(** ** The order of float64 *)

(** The comparison key of a float: kind, exponent and mantissa.  Both signed
    zeros have the same key; NaN has a key of its own. *)
Definition fkey (f : float) : Z * (Z * Z) :=
  match Prim2SF f with
  | S754_nan => (3, (0, 0))
  | S754_infinity true => (-2, (0, 0))
  | S754_finite true m e => (-1, (- e, - Z.pos m))
  | S754_zero _ => (0, (0, 0))
  | S754_finite false m e => (1, (e, Z.pos m))
  | S754_infinity false => (2, (0, 0))
  end.

Definition fkey_compare : Z * (Z * Z) -> Z * (Z * Z) -> comparison :=
  pair_compare Z.compare (pair_compare Z.compare Z.compare).

#[export] Instance fkey_total_compare : TotalCompare fkey_compare.
Proof. unfold fkey_compare. typeclasses eauto. Qed.

(** A number: not NaN. *)
Definition number (f : float) : bool :=
  match Prim2SF f with S754_nan => false | _ => true end.

Lemma compare_key x y :
  number x = true -> number y = true ->
  SFcompare (Prim2SF x) (Prim2SF y) = Some (fkey_compare (fkey x) (fkey y)).
Proof.
  unfold number, fkey, fkey_compare, pair_compare.
  destruct (Prim2SF x) as [sx|sx| |sx mx ex], (Prim2SF y) as [sy|sy| |sy my ey];
    try discriminate; intros _ _; destruct sx; try destruct sy; try reflexivity; simpl.
  all: f_equal; rewrite ?Z.compare_opp.
  all: destruct (Z.compare_spec ex ey), (Z.compare_spec ey ex);
    simpl; try lia; try reflexivity.
Qed.

Lemma ltb_key x y :
  number x = true -> number y = true ->
  PrimFloat.ltb x y = is_lt (fkey_compare (fkey x) (fkey y)).
Proof. intros Hx Hy. rewrite FloatAxioms.ltb_spec. unfold SFltb. by rewrite compare_key. Qed.

Lemma eqb_key x y :
  number x = true -> number y = true ->
  PrimFloat.eqb x y = true <-> fkey x = fkey y.
Proof.
  intros Hx Hy. rewrite FloatAxioms.eqb_spec. unfold SFeqb. rewrite compare_key by done.
  rewrite <- (tc_eq (cmp := fkey_compare)).
  destruct (fkey_compare _ _); split; congruence.
Qed.

Lemma leb_key x y :
  number x = true -> number y = true ->
  PrimFloat.leb x y = negb (is_lt (fkey_compare (fkey y) (fkey x))).
Proof.
  intros Hx Hy. rewrite FloatAxioms.leb_spec. unfold SFleb. rewrite compare_key by done.
  rewrite (tc_opp (cmp := fkey_compare) (fkey x) (fkey y)).
  by destruct (fkey_compare _ _).
Qed.

Lemma ltb_number x y :
  PrimFloat.ltb x y = true -> number x = true /\ number y = true.
Proof.
  rewrite FloatAxioms.ltb_spec. unfold SFltb, SFcompare, number.
  by destruct (Prim2SF x), (Prim2SF y).
Qed.

Lemma leb_number x y :
  PrimFloat.leb x y = true -> number x = true /\ number y = true.
Proof.
  rewrite FloatAxioms.leb_spec. unfold SFleb, SFcompare, number.
  by destruct (Prim2SF x), (Prim2SF y).
Qed.

Lemma fle_refl x : number x = true -> PrimFloat.leb x x = true.
Proof. intros H. by rewrite leb_key, tc_refl. Qed.

Lemma fle_trans x y z :
  PrimFloat.leb x y = true -> PrimFloat.leb y z = true -> PrimFloat.leb x z = true.
Proof.
  intros Hxy Hyz. destruct (leb_number _ _ Hxy), (leb_number _ _ Hyz).
  rewrite leb_key in * by done. split_bool.
  rewrite is_lt_false in *. eapply tc_nlt_trans; eassumption.
Qed.

Lemma flt_trans x y z :
  PrimFloat.ltb x y = true -> PrimFloat.ltb y z = true -> PrimFloat.ltb x z = true.
Proof.
  intros Hxy Hyz. destruct (ltb_number _ _ Hxy), (ltb_number _ _ Hyz).
  rewrite ltb_key in * by done.
  destruct (fkey_compare (fkey x) (fkey y)) eqn:E1; try discriminate.
  destruct (fkey_compare (fkey y) (fkey z)) eqn:E2; try discriminate.
  by rewrite (tc_trans _ _ _ E1 E2).
Qed.

Lemma flt_irrefl x : PrimFloat.ltb x x = false.
Proof.
  destruct (PrimFloat.ltb x x) eqn:E; [|done].
  destruct (ltb_number _ _ E). rewrite ltb_key, tc_refl in E by done. done.
Qed.

(** For numbers, [<] and [>=] are complementary. *)
Lemma nlt_le x y :
  number x = true -> number y = true ->
  PrimFloat.leb y x = negb (PrimFloat.ltb x y).
Proof. intros Hx Hy. by rewrite leb_key, ltb_key. Qed.

Lemma flt_le x y : PrimFloat.ltb x y = true -> PrimFloat.leb x y = true.
Proof.
  intros H. destruct (ltb_number _ _ H) as [Hx Hy].
  rewrite nlt_le by done. destruct (PrimFloat.ltb y x) eqn:E; [|done].
  pose proof (flt_trans _ _ _ H E) as F. by rewrite flt_irrefl in F.
Qed.

#[export] Hint Resolve fle_refl fle_trans flt_trans flt_le : hydrat.
#[export] Hint Rewrite flt_irrefl : hydrat.

(** ** [math.Max] as a maximum *)

(** The key with the sign of zero: it determines the number. *)
Definition fkey_signed (f : float) : (Z * (Z * Z)) * Z :=
  (fkey f, match Prim2SF f with S754_zero false => 1 | _ => 0 end).

Definition fkey_signed_compare : (Z * (Z * Z)) * Z -> (Z * (Z * Z)) * Z -> comparison :=
  pair_compare fkey_compare Z.compare.

#[export] Instance fkey_signed_total_compare : TotalCompare fkey_signed_compare.
Proof. unfold fkey_signed_compare. typeclasses eauto. Qed.

Lemma fkey_signed_inj x y :
  number x = true -> number y = true -> fkey_signed x = fkey_signed y -> x = y.
Proof.
  unfold number, fkey_signed, fkey. intros Hx Hy H. apply Prim2SF_inj. revert H.
  destruct (Prim2SF x) as [[]|[]| |[] mx ex], (Prim2SF y) as [[]|[]| |[] my ey];
    try discriminate; try reflexivity; intros [=]; f_equal; lia.
Qed.

Lemma fkey_inj x y :
  number x = true -> number y = true -> PrimFloat.eqb x zero = false ->
  fkey x = fkey y -> x = y.
Proof.
  intros Hx Hy Hz He. apply fkey_signed_inj; [done|done|].
  unfold fkey_signed. rewrite He. f_equal.
  assert (fkey x <> fkey zero) as Hxz.
  { intros H. apply (eqb_key x zero Hx) in H; [congruence|by vm_compute]. }
  assert (fkey y <> fkey zero) as Hyz by (by rewrite <- He).
  unfold fkey in Hxz, Hyz. by destruct (Prim2SF x), (Prim2SF y).
Qed.

Lemma fkey_infinity_max x : number x = true -> fkey_compare (fkey infinity) (fkey x) <> Lt.
Proof.
  unfold number, fkey. change (Prim2SF infinity) with (S754_infinity false).
  by destruct (Prim2SF x) as [[]|[]| |[] mx ex].
Qed.

Lemma zero_cases x :
  number x = true -> PrimFloat.eqb x zero = true -> x = zero \/ x = neg_zero.
Proof.
  intros Hx Hz. apply (eqb_key x zero Hx) in Hz; [|by vm_compute].
  unfold fkey in Hz. change (Prim2SF zero) with (S754_zero false) in Hz.
  unfold number in Hx. destruct (Prim2SF x) as [[]|[]| |[] mx ex] eqn:E; try discriminate.
  - right. apply Prim2SF_inj. by rewrite E.
  - left. apply Prim2SF_inj. by rewrite E.
Qed.

Definition fmax (x y : float) : float :=
  if is_lt (fkey_signed_compare (fkey_signed x) (fkey_signed y)) then y else x.

Lemma math_max_fmax x y : number x = true -> number y = true -> math_max x y = fmax x y.
Proof.
  intros Hx Hy. unfold math_max, fmax, fkey_signed_compare, pair_compare. simpl fst.
  assert (is_nan x = false /\ is_nan y = false) as [-> ->].
  { unfold is_nan, PrimFloat.is_nan. split; apply negb_false_iff, eqb_key; done. }
  assert (forall z, number z = true -> PrimFloat.eqb z infinity = true -> z = infinity) as Hinf.
  { intros z Hz Hi. apply fkey_inj; [done|by vm_compute| |].
    - apply not_true_iff_false. intros Hzz. destruct (zero_cases z Hz Hzz); by subst.
    - apply (eqb_key z infinity Hz) in Hi; [done|by vm_compute]. }
  destruct (fkey_compare (fkey x) (fkey y)) eqn:C; simpl lex.
  - apply (tc_eq (cmp := fkey_compare)) in C.
    destruct (PrimFloat.eqb x zero) eqn:Z0.
    + assert (PrimFloat.eqb y zero = true) as Z1.
      { apply eqb_key; [done|by vm_compute|]. rewrite <- C.
        by apply eqb_key; [|by vm_compute|]. }
      destruct (zero_cases x Hx Z0), (zero_cases y Hy Z1); subst; by vm_compute.
    + pose proof (fkey_inj x y Hx Hy Z0 C) as <-.
      rewrite orb_diag. cbn [orb andb]. rewrite flt_irrefl.
      destruct (PrimFloat.eqb x infinity) eqn:E; [apply Hinf in E; [|done]; by subst|].
      by case_match.
  - simpl. assert (PrimFloat.eqb x infinity = false) as ->.
    { apply not_true_iff_false. intros Hi%Hinf; [|done]. subst.
      by apply (fkey_infinity_max y Hy). }
    destruct (PrimFloat.eqb y infinity) eqn:E; [by apply Hinf in E|]. cbn [orb].
    assert (PrimFloat.eqb x y = false) as ->.
    { apply not_true_iff_false. rewrite eqb_key by done. intros He. rewrite He in C.
      by rewrite (tc_refl (cmp := fkey_compare)) in C. }
    rewrite andb_false_r, ltb_key by done.
    by rewrite (tc_opp (cmp := fkey_compare) (fkey x) (fkey y)), C.
  - simpl. destruct (PrimFloat.eqb x infinity) eqn:E; [by apply Hinf in E|].
    apply (tc_gt (cmp := fkey_compare)) in C.
    assert (PrimFloat.eqb y infinity = false) as ->.
    { apply not_true_iff_false. intros Hi%Hinf; [|done]. subst.
      by apply (fkey_infinity_max x Hx). }
    cbn [orb]. assert (PrimFloat.eqb x y = false) as ->.
    { apply not_true_iff_false. rewrite eqb_key by done. intros He. rewrite He in C.
      by rewrite (tc_refl (cmp := fkey_compare)) in C. }
    rewrite andb_false_r, ltb_key by done. by rewrite C.
Qed.

Lemma fmax_number x y : number x = true -> number y = true -> number (fmax x y) = true.
Proof. unfold fmax. by case_if. Qed.

Lemma fmax_swap a x y :
  number a = true -> number x = true -> number y = true ->
  fmax (fmax a x) y = fmax (fmax a y) x.
Proof.
  intros Ha Hx Hy. unfold fmax. set (k := fkey_signed_compare).
  set (ka := fkey_signed a). set (kx := fkey_signed x). set (ky := fkey_signed y).
  assert (forall u v, is_lt (k u v) = true -> is_lt (k v u) = false) as Hasym.
  { intros u v. rewrite is_lt_true, is_lt_false. apply (tc_lt_asym (cmp := k)). }
  assert (forall u v w, is_lt (k u v) = false -> is_lt (k v w) = false ->
    is_lt (k u w) = false) as Htr.
  { intros u v w. rewrite !is_lt_false. apply (tc_nlt_trans (cmp := k)). }
  destruct (is_lt (k ka kx)) eqn:E1, (is_lt (k ka ky)) eqn:E2;
    fold ka kx ky; rewrite ?E1, ?E2.
  - destruct (is_lt (k kx ky)) eqn:E3, (is_lt (k ky kx)) eqn:E4; try done.
    + by rewrite (Hasym _ _ E3) in E4.
    + apply fkey_signed_inj; [done|done|]. fold kx ky.
      apply (tc_eq (cmp := k)). apply is_lt_false in E3, E4.
      destruct (k kx ky) eqn:E; [done|done|]. by apply (tc_gt (cmp := k)) in E.
  - assert (is_lt (k kx ky) = false) as ->; [|done].
    apply (Htr _ ka); [by apply Hasym|done].
  - assert (is_lt (k ky kx) = false) as ->; [|done].
    apply (Htr _ ka); [by apply Hasym|done].
  - done.
Qed.

Lemma fold_max_Permutation {A} (f : A -> float) (l m : list A) a :
  number a = true -> (forall x, In x l -> number (f x) = true) -> l ≡ₚ m ->
  fold_left (fun b x => math_max b (f x)) l a = fold_left (fun b x => math_max b (f x)) m a.
Proof.
  intros Ha Hl Hp. revert a Ha Hl. induction Hp as [|x l m Hp IH|x y l|l m n H1 IH1 H2 IH2];
    intros a Ha Hl; simpl.
  - done.
  - rewrite math_max_fmax by (try done; apply Hl; by left).
    apply IH; [apply fmax_number; [done|apply Hl; by left]|]. intros z Hz. apply Hl. by right.
  - assert (number (f x) = true) by (apply Hl; right; by left).
    assert (number (f y) = true) by (apply Hl; by left).
    rewrite (math_max_fmax a (f x)), (math_max_fmax a (f y)) by done.
    rewrite !math_max_fmax by auto using fmax_number. by rewrite fmax_swap.
  - rewrite IH1 by done. apply IH2; [done|]. intros z Hz. apply Hl. by rewrite H1.
Qed.

(** ** Higher score first, then by name *)

Definition score_compare (x y : (Z * (Z * Z)) * string) : comparison :=
  pair_compare (fun a b => fkey_compare b a) String.compare x y.

#[export] Instance score_total_compare : TotalCompare score_compare.
Proof.
  apply pair_total_compare; [|apply _]. split.
  - intros x y. rewrite (tc_eq (cmp := fkey_compare)). naive_solver.
  - intros x y. apply (tc_opp (cmp := fkey_compare)).
  - intros x y z H1 H2. by apply (tc_trans (cmp := fkey_compare) z y x).
Qed.

Lemma score_compare_spec x y a b :
  number x = true -> number y = true ->
  is_lt (score_compare (fkey x, a) (fkey y, b)) =
  fgt x y || (PrimFloat.eqb x y && str_ltb a b).
Proof.
  intros Hx Hy. unfold score_compare, pair_compare, fgt, str_ltb. cbn [fst snd].
  rewrite ltb_key by done. destruct (PrimFloat.eqb x y) eqn:E.
  - rewrite eqb_key in E by done. by rewrite E, !(tc_refl (cmp := fkey_compare)).
  - assert (fkey x <> fkey y) as Hne.
    { rewrite <- eqb_key by done. by rewrite E. }
    destruct (fkey_compare (fkey y) (fkey x)) eqn:C; try done.
    by apply (tc_eq (cmp := fkey_compare)) in C.
Qed.
