(* ===== verification/GoStrings.v ===== *)
(** Go strings as byte sequences: the runes that [range] decodes (UTF-8), and
    decimal formatting of integers. *)
From Stdlib Require Import Ascii String.
From S2P Require Import Prelude GoOrder.

#[local] Open Scope Z_scope.

(** [[]byte(s)]. *)
Definition bytes_of (s : string) : list Z :=
  map (fun c => Z.of_N (N_of_ascii c)) (list_ascii_of_string s).

Definition string_of_bytes (bytes : list Z) : string :=
  string_of_list_ascii (map (fun b => ascii_of_N (Z.to_N b)) bytes).

(** ** Decoding *)

Definition rune_error : Z := 0xFFFD.

Definition between (low high b : Z) : bool := (low <=? b) && (b <=? high).
Definition continuation (b : Z) : bool := between 0x80 0xBF b.

(** The range of the second byte after each leading byte of a longer rune, with
    the length of the rune; none for a byte that cannot lead. *)
Definition lead (b : Z) : option (nat * Z * Z) :=
  if between 0xC2 0xDF b then Some (2%nat, 0x80, 0xBF)
  else if b =? 0xE0 then Some (3%nat, 0xA0, 0xBF)
  else if between 0xE1 0xEC b || between 0xEE 0xEF b then Some (3%nat, 0x80, 0xBF)
  else if b =? 0xED then Some (3%nat, 0x80, 0x9F)
  else if b =? 0xF0 then Some (4%nat, 0x90, 0xBF)
  else if between 0xF1 0xF3 b then Some (4%nat, 0x80, 0xBF)
  else if b =? 0xF4 then Some (4%nat, 0x80, 0x8F)
  else None.

(** [utf8.DecodeRune]: the first rune and its width; an invalid encoding is
    the error rune with width one. *)
Definition decode_rune (bytes : list Z) : Z * nat :=
  match bytes with
  | [] => (rune_error, 0%nat)
  | b0 :: rest =>
      if b0 <? 0x80 then (b0, 1%nat)
      else
        match lead b0, rest with
        | Some (2%nat, low, high), b1 :: _ =>
            if between low high b1
            then (Z.shiftl (Z.land b0 0x1F) 6 + Z.land b1 0x3F, 2%nat)
            else (rune_error, 1%nat)
        | Some (3%nat, low, high), b1 :: b2 :: _ =>
            if between low high b1 && continuation b2
            then (Z.shiftl (Z.land b0 0x0F) 12 + Z.shiftl (Z.land b1 0x3F) 6 +
                  Z.land b2 0x3F, 3%nat)
            else (rune_error, 1%nat)
        | Some (4%nat, low, high), b1 :: b2 :: b3 :: _ =>
            if between low high b1 && continuation b2 && continuation b3
            then (Z.shiftl (Z.land b0 0x07) 18 + Z.shiftl (Z.land b1 0x3F) 12 +
                  Z.shiftl (Z.land b2 0x3F) 6 + Z.land b3 0x3F, 4%nat)
            else (rune_error, 1%nat)
        | _, _ => (rune_error, 1%nat)
        end
  end.

(** The runes of [for _, r := range s].  Every rune takes at least one byte, so
    the number of bytes is enough fuel. *)
Fixpoint runes_loop (fuel : nat) (bytes : list Z) : list Z :=
  match fuel, bytes with
  | S fuel, _ :: _ =>
      let '(r, width) := decode_rune bytes in r :: runes_loop fuel (drop width bytes)
  | _, _ => []
  end.

Definition runes (s : string) : list Z :=
  let bytes := bytes_of s in runes_loop (length bytes) bytes.

(** [strings.Join]. *)
Fixpoint join (sep : string) (parts : list string) : string :=
  match parts with
  | [] => EmptyString
  | [p] => p
  | p :: rest => (p ++ sep ++ join sep rest)%string
  end.

(** [%d]: digits of a non-negative number, most significant first. *)
Fixpoint digits_loop (fuel : nat) (z : Z) (acc : string) : string :=
  match fuel with
  | O => acc
  | S fuel =>
      let acc := String (ascii_of_N (Z.to_N (48 + z `mod` 10))) acc in
      if z <? 10 then acc else digits_loop fuel (z / 10) acc
  end.

(** A number below [2^n] has at most [n] decimal digits. *)
Definition decimal (z : Z) : string :=
  let magnitude := digits_loop (S (Z.to_nat (Z.log2 (Z.abs z)))) (Z.abs z) EmptyString in
  if z <? 0 then ("-" ++ magnitude)%string else magnitude.

Example decimal_values :
  map decimal [0; 7; 10; -42; 9223372036854775807] =
  ["0"; "7"; "10"; "-42"; "9223372036854775807"]%string.
Proof. vm_compute. reflexivity. Qed.

(** A two-byte rune, a stray continuation byte and a truncated rune. *)
Example runes_values :
  runes (string_of_bytes [97; 0xC3; 0xA9; 0x80; 0xE2; 0x82]) =
  [97; 0xE9; rune_error; rune_error; rune_error].
Proof. vm_compute. reflexivity. Qed.

(** ** Facts *)

Lemma decode_rune_width bytes :
  bytes <> [] -> (1 <= (decode_rune bytes).2)%nat.
Proof.
  destruct bytes as [|b0 rest]; [done|]. intros _. unfold decode_rune.
  repeat case_match; simpl; lia.
Qed.

(** ASCII text is its own sequence of runes. *)
Lemma runes_loop_ascii fuel bytes :
  Forall (fun b => 0 <= b < 128) bytes -> (length bytes <= fuel)%nat ->
  runes_loop fuel bytes = bytes.
Proof.
  intros H. revert fuel. induction H as [|b bytes Hb H IH]; intros [|fuel] Hf;
    simpl in Hf |- *; [done|done|lia|].
  rewrite (proj2 (Z.ltb_lt _ _)) by lia. simpl. rewrite drop_0, IH by lia. done.
Qed.

Lemma bytes_of_length s : length (bytes_of s) = String.length s.
Proof. unfold bytes_of. rewrite length_map. induction s; simpl; congruence. Qed.

Lemma bytes_of_of_bytes bytes :
  Forall (fun b => 0 <= b < 256) bytes -> bytes_of (string_of_bytes bytes) = bytes.
Proof.
  intros H. unfold bytes_of, string_of_bytes.
  rewrite list_ascii_of_string_of_list_ascii, map_map.
  induction H as [|b bytes Hb H IH]; simpl; [done|].
  rewrite N_ascii_embedding, Z2N.id, IH by lia. done.
Qed.

Lemma string_of_bytes_of s : string_of_bytes (bytes_of s) = s.
Proof.
  unfold bytes_of, string_of_bytes. rewrite map_map.
  erewrite map_ext_in.
  - rewrite map_id. apply string_of_list_ascii_of_string.
  - intros c _. simpl. by rewrite N2Z.id, ascii_N_embedding.
Qed.

Lemma bytes_of_inj s t : bytes_of s = bytes_of t -> s = t.
Proof. intros E. by rewrite <- (string_of_bytes_of s), E, string_of_bytes_of. Qed.

#[export] Hint Rewrite bytes_of_length string_of_bytes_of : hydrat.

(** ** Trimming, splitting and searching *)

(** [unicode.IsSpace]. *)
Definition is_space (r : Z) : bool :=
  between 0x09 0x0D r || (r =? 0x20) || (r =? 0x85) || (r =? 0xA0) || (r =? 0x1680) ||
  between 0x2000 0x200A r || (r =? 0x2028) || (r =? 0x2029) || (r =? 0x202F) ||
  (r =? 0x205F) || (r =? 0x3000).

(** The runes with the bytes each was decoded from. *)
Fixpoint chunks_loop (fuel : nat) (bytes : list Z) : list (Z * list Z) :=
  match fuel, bytes with
  | S fuel, _ :: _ =>
      let '(r, width) := decode_rune bytes in
      (r, take width bytes) :: chunks_loop fuel (drop width bytes)
  | _, _ => []
  end.

Fixpoint drop_while {A : Type} (p : A -> bool) (l : list A) : list A :=
  match l with
  | x :: rest => if p x then drop_while p rest else l
  | [] => []
  end.

(** [strings.TrimSpace]. *)
Definition trim_space (s : string) : string :=
  let bytes := bytes_of s in
  let space (chunk : Z * list Z) := is_space chunk.1 in
  let left := drop_while space (chunks_loop (length bytes) bytes) in
  string_of_bytes (flat_map snd (reverse (drop_while space (reverse left)))).

(** [strings.Contains]. *)
Fixpoint contains (s part : string) : bool :=
  has_prefix part s ||
  match s with EmptyString => false | String _ rest => contains rest part end.

Definition contains_char (c : ascii) (s : string) : bool :=
  existsb (Ascii.eqb c) (list_ascii_of_string s).

(** [strings.Split] at a one-byte separator. *)
Fixpoint split_at (c : ascii) (s : string) : list string :=
  match s with
  | EmptyString => [EmptyString]
  | String a rest =>
      if Ascii.eqb a c then EmptyString :: split_at c rest
      else match split_at c rest with
           | part :: parts => String a part :: parts
           | [] => [String a EmptyString]
           end
  end.

Lemma split_at_cons c s : exists part parts, split_at c s = part :: parts.
Proof.
  destruct s as [|a s]; simpl; [eauto|]. destruct (Ascii.eqb a c); [eauto|].
  destruct (split_at c s); eauto.
Qed.

Lemma join_cons2 sep x y l : join sep (x :: y :: l) = (x ++ sep ++ join sep (y :: l))%string.
Proof. reflexivity. Qed.

Lemma join_split_at c s : join (String c EmptyString) (split_at c s) = s.
Proof.
  induction s as [|a s IH]; [done|]. cbn [split_at].
  destruct (split_at_cons c s) as (part & parts & E). rewrite E in IH |- *.
  destruct (Ascii.eqb a c) eqn:Ea.
  - apply Ascii.eqb_eq in Ea as ->. rewrite join_cons2, IH. reflexivity.
  - destruct parts; [|rewrite join_cons2 in IH |- *]; simpl in *; by rewrite <- IH.
Qed.

Lemma split_at_none c s :
  contains_char c s = false -> split_at c s = [s].
Proof.
  unfold contains_char. induction s as [|a s IH]; simpl; [done|].
  rewrite orb_false_iff. intros [Ha Hs]. rewrite Ascii.eqb_sym, Ha. by rewrite (IH Hs).
Qed.

Lemma split_at_app c s t :
  contains_char c s = false ->
  split_at c (s ++ String c t)%string = s :: split_at c t.
Proof.
  unfold contains_char. induction s as [|a s IH]; simpl.
  - intros _. by rewrite Ascii.eqb_refl.
  - rewrite orb_false_iff. intros [Ha Hs]. rewrite Ascii.eqb_sym, Ha. by rewrite (IH Hs).
Qed.

Example trim_space_values :
  map trim_space [" .ru"; "a b "; "   "; EmptyString]%string = [".ru"; "a b"; EmptyString; EmptyString]%string /\
  trim_space (string_of_bytes [0xC2; 0xA0; 46; 97; 0xE3; 0x80; 0x80]) = ".a"%string.
Proof. vm_compute. split; reflexivity. Qed.

(** *** Decimal digits *)

Definition is_digit (c : ascii) : bool :=
  let n := Z.of_N (N_of_ascii c) in (48 <=? n) && (n <? 58).

Fixpoint all_digits (s : string) : bool :=
  match s with EmptyString => true | String c s => is_digit c && all_digits s end.

(** The number that digits denote, after those that denote [v]. *)
Fixpoint digits_value (s : string) (v : Z) : Z :=
  match s with
  | EmptyString => v
  | String c s => digits_value s (10 * v + (Z.of_N (N_of_ascii c) - 48))
  end.

Lemma digits_loop_spec fuel z acc :
  0 <= z < 2 ^ Z.of_nat fuel -> (0 < fuel)%nat -> all_digits acc = true ->
  all_digits (digits_loop fuel z acc) = true /\
  digits_value (digits_loop fuel z acc) 0 = digits_value acc z.
Proof.
  revert z acc. induction fuel as [|fuel IH]; intros z acc Hz Hf Hacc; [lia|].
  cbn [digits_loop]. set (c := ascii_of_N (Z.to_N (48 + z `mod` 10))).
  pose proof (Z.mod_pos_bound z 10) as Hm.
  assert (Z.of_N (N_of_ascii c) = 48 + z `mod` 10) as Hc.
  { unfold c. rewrite N_ascii_embedding; lia. }
  assert (all_digits (String c acc) = true) as Hacc'.
  { cbn [all_digits]. unfold is_digit. rewrite Hc, Hacc. z_bool.
    rewrite !andb_true_iff. repeat split; z_bool; lia. }
  destruct (z <? 10) eqn:E; z_bool.
  - split; [done|]. cbn [digits_value]. rewrite Hc, Z.mod_small by lia. f_equal. lia.
  - rewrite Nat2Z.inj_succ, Z.pow_succ_r in Hz by lia.
    assert (0 <= z / 10 < 2 ^ Z.of_nat fuel) as Hq.
    { split; [apply Z.div_pos; lia|]. apply Z.div_lt_upper_bound; lia. }
    destruct fuel as [|fuel]; [simpl in Hz; lia|].
    destruct (IH (z / 10) (String c acc)) as [H1 H2]; [done|lia|done|].
    split; [done|]. rewrite H2. cbn [digits_value]. rewrite Hc. f_equal.
    pose proof (Z.div_mod z 10). lia.
Qed.

Lemma decimal_spec z : 0 <= z -> all_digits (decimal z) = true /\ digits_value (decimal z) 0 = z.
Proof.
  intros Hz. unfold decimal. destruct (z <? 0) eqn:E; z_bool; [lia|]. rewrite Z.abs_eq by done.
  apply (digits_loop_spec _ z EmptyString); [|lia|done]. split; [done|].
  pose proof (Z.log2_nonneg z). rewrite Nat2Z.inj_succ, Z2Nat.id by done.
  destruct (decide (z = 0)) as [->|]; [done|]. apply Z.log2_spec. lia.
Qed.

Lemma decimal_inj z z' : 0 <= z -> 0 <= z' -> decimal z = decimal z' -> z = z'.
Proof.
  intros H H' E. destruct (decimal_spec z H) as [_ <-], (decimal_spec z' H') as [_ <-].
  by rewrite E.
Qed.

(** Digits end at the first character that is none. *)
Lemma digits_cut a b c s t :
  all_digits a = true -> all_digits b = true -> is_digit c = false ->
  (a ++ String c s)%string = (b ++ String c t)%string -> a = b /\ s = t.
Proof.
  revert b. induction a as [|x a IH]; intros [|y b] Ha Hb Hc E.
  - change (String c s = String c t) in E. by injection E as ->.
  - change (String c s = String y (b ++ String c t)) in E. injection E as <- _.
    cbn [all_digits] in Hb. by rewrite Hc in Hb.
  - change (String x (a ++ String c s) = String c t) in E. injection E as -> _.
    cbn [all_digits] in Ha. by rewrite Hc in Ha.
  - change (String x (a ++ String c s) = String y (b ++ String c t)) in E. injection E as -> E.
    cbn [all_digits] in Ha, Hb. apply andb_true_iff in Ha as [_ Ha], Hb as [_ Hb].
    by destruct (IH b Ha Hb Hc E) as [-> ->].
Qed.

(** ** Cutting and trimming *)

Fixpoint str_drop (n : nat) (s : string) : string :=
  match n, s with
  | S n, String _ s => str_drop n s
  | _, _ => s
  end.

(** [strings.Cut]: around the first instance of a separator, if there is one. *)
Fixpoint cut (sep s : string) : option (string * string) :=
  if has_prefix sep s then Some (EmptyString, str_drop (String.length sep) s)
  else match s with
       | EmptyString => None
       | String a rest => option_map (fun '(before, after) => (String a before, after)) (cut sep rest)
       end.

(** [strings.TrimSuffix]. *)
Fixpoint trim_suffix (suffix s : string) : string :=
  if str_eqb s suffix then EmptyString
  else match s with
       | EmptyString => EmptyString
       | String a rest => String a (trim_suffix suffix rest)
       end.

(** [strconv.ParseUint] in base 10 with [bits] bits. *)
Definition parse_uint (bits : Z) (s : string) : option Z :=
  if negb (str_eqb s EmptyString) && all_digits s && (digits_value s 0 <? 2 ^ bits)
  then Some (digits_value s 0) else None.

Example cut_values :
  cut "-p-" "a-p-b-p-c" = Some ("a", "b-p-c")%string /\ cut "-p-" "a-p" = None /\
  trim_suffix "-v1" "x-v1-v1" = "x-v1"%string /\ trim_suffix "-v1" "x" = "x"%string /\
  map (parse_uint 31) ["007"; EmptyString; "2147483648"; "-1"]%string = [Some 7; None; None; None].
Proof. vm_compute. auto. Qed.

Lemma str_app_assoc a b c : ((a ++ b) ++ c)%string = (a ++ b ++ c)%string.
Proof.
  induction a as [|x a IH]; [done|].
  change (String x ((a ++ b) ++ c) = String x (a ++ b ++ c)). by rewrite IH.
Qed.

Lemma str_app_nil_r s : (s ++ EmptyString)%string = s.
Proof. induction s as [|x s IH]; [done|]. change (String x (s ++ EmptyString) = String x s). by rewrite IH. Qed.

Lemma str_drop_app s t : str_drop (String.length s) (s ++ t)%string = t.
Proof. by induction s. Qed.

Lemma cut_here sep t : cut sep (sep ++ t) = Some (EmptyString, t).
Proof.
  destruct sep as [|a sep]; [by destruct t|].
  change (String a sep ++ t)%string with (String a (sep ++ t)). cbn [cut].
  change (String a (sep ++ t)) with (String a sep ++ t)%string.
  by rewrite has_prefix_app, str_drop_app.
Qed.

Lemma cut_next sep a s : has_prefix sep (String a s) = false ->
  cut sep (String a s) = option_map (fun '(before, after) => (String a before, after)) (cut sep s).
Proof. intros H. cbn [cut]. by rewrite H. Qed.

(** A text without the first character of the separator is skipped. *)
Lemma cut_skip c sep s t : contains_char c s = false ->
  cut (String c sep) (s ++ t) =
    option_map (fun '(before, after) => ((s ++ before)%string, after)) (cut (String c sep) t).
Proof.
  unfold contains_char. induction s as [|a s IH]; cbn [list_ascii_of_string existsb].
  - intros _. change (EmptyString ++ t)%string with t.
    destruct (cut (String c sep) t) as [[b u]|]; reflexivity.
  - rewrite orb_false_iff. intros [Ha Hs]. change (String a s ++ t)%string with (String a (s ++ t)).
    rewrite cut_next; [|cbn [has_prefix]; by rewrite Ha]. rewrite (IH Hs).
    destruct (cut (String c sep) t) as [[b u]|]; reflexivity.
Qed.

Lemma cut_spec sep s b t : cut sep s = Some (b, t) -> s = (b ++ sep ++ t)%string.
Proof.
  assert (forall s, has_prefix sep s = true -> s = (sep ++ str_drop (String.length sep) s)%string)
    as Hhere.
  { intros u [v ->]%has_prefix_spec. by rewrite str_drop_app. }
  revert b t. induction s as [|a s IH]; intros b t; cbn [cut]; destruct (has_prefix sep _) eqn:E.
  - intros [= <- <-]. by apply Hhere.
  - discriminate.
  - intros [= <- <-]. by apply Hhere.
  - destruct (cut sep s) as [[b' t']|]; [|discriminate]. intros [= <- <-].
    by rewrite (IH _ _ eq_refl).
Qed.
