(* ===== verification/GoNet.v ===== *)
(** IPv4 addresses and prefixes of the [net/netip] package, as far as the code
    uses them: strict parsing, canonical text, and special-purpose blocks. *)
From Stdlib Require Import Ascii String.
From S2P Require Import Prelude GoOrder GoStrings.

#[local] Open Scope Z_scope.

(** ** Addresses *)

Record Addr4 := {
  octet1 : Z;
  octet2 : Z;
  octet3 : Z;
  octet4 : Z
}.

Definition octet (z : Z) : Prop := 0 <= z < 256.

Definition addr_ok (a : Addr4) : Prop :=
  octet (octet1 a) /\ octet (octet2 a) /\ octet (octet3 a) /\ octet (octet4 a).

Definition addr_value (a : Addr4) : Z :=
  ((octet1 a * 256 + octet2 a) * 256 + octet3 a) * 256 + octet4 a.

(** [Addr.String]. *)
Definition dot : ascii := "."%char.
Definition addr_string (a : Addr4) : string :=
  join (String dot EmptyString) (map decimal [octet1 a; octet2 a; octet3 a; octet4 a]).

(** A field is a decimal number below 256 without leading zeros. *)
Definition octets : list Z := map Z.of_nat (seq 0 256).
Definition parse_octet (field : string) : option Z :=
  List.find (fun n => str_eqb (decimal n) field) octets.

(** [ParseAddr], with [Is4]: the result is none unless it is an IPv4 address. *)
Definition parse_addr4 (s : string) : option Addr4 :=
  match map parse_octet (split_at dot s) with
  | [Some a; Some b; Some c; Some d] =>
      Some {| octet1 := a; octet2 := b; octet3 := c; octet4 := d |}
  | _ => None
  end.

(** ** Prefixes *)

Record Prefix4 := {
  prefix_addr : Addr4;
  prefix_bits : Z
}.

Definition slash : ascii := "/"%char.

(** [Prefix.Contains]. *)
Definition prefix_contains (p : Prefix4) (a : Addr4) : bool :=
  Z.shiftr (addr_value (prefix_addr p)) (32 - prefix_bits p) =?
  Z.shiftr (addr_value a) (32 - prefix_bits p).

Definition lengths : list Z := map Z.of_nat (seq 0 33).

(** [ParsePrefix], for IPv4. *)
Definition parse_prefix4 (s : string) : option Prefix4 :=
  match split_at slash s with
  | [address; bits] =>
      match parse_addr4 address, List.find (fun n => str_eqb (decimal n) bits) lengths with
      | Some a, Some n => Some {| prefix_addr := a; prefix_bits := n |}
      | _, _ => None
      end
  | _ => None
  end.

Definition prefix_string (p : Prefix4) : string :=
  (addr_string (prefix_addr p) ++ String slash (decimal (prefix_bits p)))%string.

(** [Prefix.IsSingleIP]. *)
Definition is_single_ip (p : Prefix4) : bool := prefix_bits p =? 32.

(** ** Classes of addresses *)

Definition is_unspecified (a : Addr4) : bool := addr_value a =? 0.
Definition is_loopback (a : Addr4) : bool := octet1 a =? 127.
Definition is_multicast (a : Addr4) : bool := Z.land (octet1 a) 0xF0 =? 0xE0.
Definition is_link_local_unicast (a : Addr4) : bool := (octet1 a =? 169) && (octet2 a =? 254).
Definition is_private (a : Addr4) : bool :=
  (octet1 a =? 10) || ((octet1 a =? 172) && (Z.land (octet2 a) 0xF0 =? 16)) ||
  ((octet1 a =? 192) && (octet2 a =? 168)).
Definition is_global_unicast (a : Addr4) : bool :=
  negb (addr_value a =? 2 ^ 32 - 1) && negb (is_unspecified a) && negb (is_loopback a) &&
  negb (is_multicast a) && negb (is_link_local_unicast a).

(** ** Text and addresses *)

Lemma octets_spec n : In n octets <-> octet n.
Proof.
  unfold octets, octet. rewrite in_map_iff. setoid_rewrite in_seq. split.
  - intros (k & <- & Hk). lia.
  - intros H. exists (Z.to_nat n). lia.
Qed.

Definition octet_round_trips (n : Z) : bool :=
  bool_decide (parse_octet (decimal n) = Some n) && negb (contains_char dot (decimal n)) &&
  negb (contains_char slash (decimal n)).

Lemma octets_round_trip : forallb octet_round_trips octets = true.
Proof. vm_compute. reflexivity. Qed.

Lemma decimal_octet n : octet n ->
  parse_octet (decimal n) = Some n /\ contains_char dot (decimal n) = false /\
  contains_char slash (decimal n) = false.
Proof.
  intros Hn%octets_spec. pose proof octets_round_trip as H. rewrite forallb_forall in H.
  apply H in Hn as Hn'. unfold octet_round_trips in Hn'.
  rewrite !andb_true_iff, !negb_true_iff, bool_decide_eq_true in Hn'. tauto.
Qed.

Lemma parse_octet_spec field n :
  parse_octet field = Some n -> octet n /\ field = decimal n.
Proof.
  intros [Hin Heq]%find_some. str_bool. by apply octets_spec in Hin.
Qed.

Lemma parse_addr_string a : addr_ok a -> parse_addr4 (addr_string a) = Some a.
Proof.
  destruct a as [p q r s]. intros (Hp & Hq & Hr & Hs). simpl in *.
  apply decimal_octet in Hp as (P1 & P2 & _), Hq as (Q1 & Q2 & _), Hr as (R1 & R2 & _),
    Hs as (S1 & S2 & _).
  assert (addr_string {| octet1 := p; octet2 := q; octet3 := r; octet4 := s |} =
    decimal p ++ String dot (decimal q ++ String dot (decimal r ++ String dot (decimal s))))%string
    as -> by reflexivity.
  unfold parse_addr4. rewrite !split_at_app, split_at_none by done. cbn [map].
  by rewrite P1, Q1, R1, S1.
Qed.

Lemma parse_addr4_spec s a : parse_addr4 s = Some a <-> addr_ok a /\ addr_string a = s.
Proof.
  split.
  - unfold parse_addr4. intros H. repeat case_match; simplify_eq.
    destruct (split_at dot s) as [|f1 [|f2 [|f3 [|f4 [|]]]]] eqn:E; simplify_eq/=.
    repeat match goal with
    | H : parse_octet _ = Some _ |- _ => apply parse_octet_spec in H as [? ->]
    end.
    split; [done|]. unfold addr_string. cbn [map octet1 octet2 octet3 octet4].
    by rewrite <- (join_split_at dot s), E.
  - intros [Hok <-]. by apply parse_addr_string.
Qed.

(** Canonical text determines the address. *)
Lemma addr_string_inj a b : addr_ok a -> addr_ok b -> addr_string a = addr_string b -> a = b.
Proof.
  intros Ha Hb E. apply parse_addr_string in Ha, Hb. rewrite E in Ha. congruence.
Qed.

Lemma contains_char_app c s t :
  contains_char c (s ++ t)%string = contains_char c s || contains_char c t.
Proof.
  unfold contains_char. induction s as [|a s IH]; simpl; [done|]. by rewrite IH, orb_assoc.
Qed.

Lemma addr_string_no_slash a : addr_ok a -> contains_char slash (addr_string a) = false.
Proof.
  intros (H1 & H2 & H3 & H4). unfold addr_string. cbn [map join].
  apply decimal_octet in H1 as (_ & _ & H1), H2 as (_ & _ & H2), H3 as (_ & _ & H3),
    H4 as (_ & _ & H4).
  rewrite !contains_char_app, H1, H2, H3, H4. reflexivity.
Qed.

(** A single address in CIDR notation. *)
Lemma parse_prefix4_single s p :
  parse_prefix4 s = Some p -> is_single_ip p = true ->
  addr_ok (prefix_addr p) /\ s = (addr_string (prefix_addr p) ++ "/32")%string.
Proof.
  unfold parse_prefix4, is_single_ip. pose proof (join_split_at slash s) as Hj.
  destruct (split_at slash s) as [|address [|bits [|]]]; try discriminate.
  destruct (parse_addr4 address) as [a|] eqn:Ea; [|discriminate].
  destruct (List.find _ lengths) as [n|] eqn:En; [|discriminate].
  intros [= <-] Hn. cbn [prefix_addr prefix_bits] in *. z_bool. subst n.
  apply parse_addr4_spec in Ea as [Hok Ha]. split; [done|].
  apply find_some in En as [_ En]. str_bool. rewrite <- Hj, Ha, <- En. reflexivity.
Qed.
