(* ===== verification/GoSort.v ===== *)
(** Go's [sort.Slice], [sort.SliceStable] and [sort.Strings].

    The model is insertion sort as the sort package runs it on short slices.
    The package promises only some sorted permutation on longer ones;
    [sorted_Permutation_unique] shows that, for an order that separates the
    elements, there is one sorted permutation, so the choice of algorithm does
    not matter there. *)
From S2P Require Import Prelude GoOrder.

(** ** Insertion sort *)

Section Sort.
Context {A : Type} (less : A -> A -> bool).
Implicit Types (x y z : A) (l k acc : list A).

(** [acc] holds the sorted prefix of the slice, last element first; the new
    element moves left past every element it is less than. *)
Fixpoint insert_back x acc : list A :=
  match acc with
  | [] => [x]
  | y :: rest => if less x y then y :: insert_back x rest else x :: acc
  end.

Definition sort_slice l : list A :=
  rev (fold_left (fun acc x => insert_back x acc) l []).

Lemma insert_back_Permutation x acc : insert_back x acc ≡ₚ x :: acc.
Proof.
  induction acc as [|y acc IH]; simpl; [done|].
  destruct (less x y); [|done]. rewrite IH. apply Permutation_swap.
Qed.

Lemma insert_all_Permutation l acc :
  fold_left (fun acc x => insert_back x acc) l acc ≡ₚ l ++ acc.
Proof.
  revert acc. induction l as [|x l IH]; intros acc; simpl; [done|].
  rewrite IH, insert_back_Permutation. by rewrite Permutation_middle.
Qed.

Lemma sort_slice_Permutation l : sort_slice l ≡ₚ l.
Proof.
  unfold sort_slice. rewrite <- Permutation_rev, insert_all_Permutation.
  by rewrite app_nil_r.
Qed.

Lemma sort_slice_In x l : In x (sort_slice l) <-> In x l.
Proof.
  split; apply Permutation_in;
    [|symmetry]; apply sort_slice_Permutation.
Qed.

Lemma sort_slice_length l : length (sort_slice l) = length l.
Proof. apply Permutation_length, sort_slice_Permutation. Qed.
End Sort.

(** Lists that correspond element by element are sorted alike. *)
Lemma sort_slice_Forall2 {A B : Type} (R : A -> B -> Prop) (less : A -> A -> bool)
    (less' : B -> B -> bool) l k :
  (forall x y x' y', R x x' -> R y y' -> less x y = less' x' y') ->
  Forall2 R l k -> Forall2 R (sort_slice less l) (sort_slice less' k).
Proof.
  intros Hless. assert (forall x x' acc acc', R x x' -> Forall2 R acc acc' ->
    Forall2 R (insert_back less x acc) (insert_back less' x' acc')) as Hins.
  { intros x x' acc acc' Hx. induction 1 as [|y y' acc acc' Hy Hacc IH]; simpl; [by repeat constructor|].
    rewrite <- (Hless x y x' y') by done. destruct (less x y); repeat (constructor; try done). }
  assert (forall a b, Forall2 R a b -> Forall2 R (rev a) (rev b)) as Hrev.
  { induction 1; simpl; [constructor|]. by apply Forall2_app; [|repeat constructor]. }
  intros Hl. unfold sort_slice. apply Hrev.
  assert (Forall2 R [] []) as Hacc by constructor. revert Hacc. generalize (@nil A) (@nil B).
  induction Hl as [|x x' l k Hx Hl IH]; intros acc acc' Hacc; simpl; [done|]. apply IH. auto.
Qed.

(** ** Sortedness *)

(** [less] is a strict weak order on the elements that satisfy [P]. *)
Class StrictWeak {A : Type} (P : A -> Prop) (less : A -> A -> bool) : Prop := {
  sw_asym : forall x y, P x -> P y -> less x y = true -> less y x = false;
  sw_ntrans : forall x y z, P x -> P y -> P z ->
    less y x = false -> less z y = false -> less z x = false
}.

(** Not out of order: [x] may stand before [y]. *)
Definition ordered {A} (less : A -> A -> bool) (x y : A) : Prop := less y x = false.

(** An order given by comparing keys is a strict weak order. *)
Lemma key_strict_weak {A K} (P : A -> Prop) (less : A -> A -> bool) (key : A -> K)
    (cmp : K -> K -> comparison) `{!TotalCompare cmp} :
  (forall x y, P x -> P y -> less x y = is_lt (cmp (key x) (key y))) ->
  StrictWeak P less.
Proof.
  intros H. split.
  - intros x y Hx Hy. rewrite !H, is_lt_true, is_lt_false by done.
    apply tc_lt_asym.
  - intros x y z Hx Hy Hz. rewrite !H by done. rewrite !is_lt_false.
    intros. eapply tc_nlt_trans; eassumption.
Qed.

(** Elements a key order does not separate have equal keys. *)
Lemma key_antisym {A K} (P : A -> Prop) (less : A -> A -> bool) (key : A -> K)
    (cmp : K -> K -> comparison) `{!TotalCompare cmp} :
  (forall x y, P x -> P y -> less x y = is_lt (cmp (key x) (key y))) ->
  forall x y, P x -> P y -> ordered less x y -> ordered less y x -> key x = key y.
Proof.
  unfold ordered. intros H x y Hx Hy. rewrite !H, !is_lt_false by done.
  intros H1 H2. apply (tc_eq (cmp := cmp)).
  destruct (cmp (key x) (key y)) eqn:E; [done|done|].
  apply (tc_gt (cmp := cmp)) in E. congruence.
Qed.

Section Sorted.
Context {A : Type} (P : A -> Prop) (less : A -> A -> bool) `{!StrictWeak P less}.
Implicit Types (x y z : A) (l k acc : list A).

Let rev_ordered x y := ordered less y x.

Lemma insert_back_sorted x acc :
  P x -> Forall P acc -> StronglySorted rev_ordered acc ->
  StronglySorted rev_ordered (insert_back less x acc).
Proof.
  intros Hx HP Hs. induction Hs as [|y acc Hs IH Hall]; simpl.
  - repeat constructor.
  - inversion HP as [|? ? Hy HP']; subst.
    destruct (less x y) eqn:E.
    + constructor; [by auto|]. rewrite insert_back_Permutation. constructor; [|done].
      unfold rev_ordered, ordered. by apply sw_asym.
    + constructor; [by constructor|]. constructor; [done|].
      rewrite Forall_forall in *. intros z Hz.
      unfold rev_ordered, ordered in *.
      apply (sw_ntrans z y x); auto.
Qed.

Lemma sort_slice_sorted l :
  Forall P l -> StronglySorted (ordered less) (sort_slice less l).
Proof.
  intros HP. unfold sort_slice.
  assert (forall acc, Forall P acc -> StronglySorted rev_ordered acc ->
    StronglySorted rev_ordered (fold_left (fun acc x => insert_back less x acc) l acc)) as H.
  { induction HP as [|x l Hx HP IH]; simpl; [done|]. intros acc Ha Hs. apply IH.
    - rewrite insert_back_Permutation. by constructor.
    - by apply insert_back_sorted. }
  specialize (H [] (Forall_nil_2 _) (SSorted_nil _)).
  induction H as [|x k Hk IH Hall]; simpl; [constructor|].
  apply StronglySorted_app_2; [|done|by repeat constructor].
  intros y z Hy Hz. apply list_elem_of_singleton in Hz. subst.
  rewrite List.Forall_forall in Hall. apply Hall.
  by rewrite in_rev, <- list_elem_of_In.
Qed.

(** Two sorted permutations agree when the order separates their elements:
    the result of the sort does not depend on the algorithm. *)
Lemma sorted_Permutation_unique l k :
  (forall x y, In x l -> In y l -> ordered less x y -> ordered less y x -> x = y) ->
  StronglySorted (ordered less) l -> StronglySorted (ordered less) k ->
  l ≡ₚ k -> l = k.
Proof.
  intros Hanti Hl. revert k. induction Hl as [|x l Hl IH Hx]; intros k Hk Hp.
  { by apply Permutation_nil_l in Hp. }
  destruct Hk as [|y k Hk Hy]; [by apply Permutation_nil_r in Hp|].
  rewrite List.Forall_forall in Hx, Hy.
  assert (x = y) as <-.
  { assert (In y (x :: l)) as Hyl by (rewrite Hp; left; done).
    assert (In x (y :: k)) as Hxk by (rewrite <- Hp; left; done).
    destruct Hyl as [|Hyl]; [done|]. destruct Hxk as [|Hxk]; [done|].
    apply Hanti; simpl; auto. }
  f_equal. apply IH; [|done|by apply Permutation_cons_inv in Hp].
  intros a b Ha Hb. apply Hanti; simpl; auto.
Qed.

(** Sorting does not depend on the order of its input. *)
Lemma sort_slice_Permutation_eq l k :
  Forall P l ->
  (forall x y, In x l -> In y l -> ordered less x y -> ordered less y x -> x = y) ->
  l ≡ₚ k -> sort_slice less l = sort_slice less k.
Proof.
  intros HP Hanti Hp. apply sorted_Permutation_unique.
  - intros x y. rewrite !sort_slice_In. apply Hanti.
  - by apply sort_slice_sorted.
  - apply sort_slice_sorted. by rewrite <- Hp.
  - rewrite !sort_slice_Permutation. done.
Qed.

(** Sorting a sorted list changes nothing. *)
Lemma sort_slice_id l :
  Forall P l ->
  (forall x y, In x l -> In y l -> ordered less x y -> ordered less y x -> x = y) ->
  StronglySorted (ordered less) l -> sort_slice less l = l.
Proof.
  intros HP Hanti Hl. symmetry. apply sorted_Permutation_unique; [done|done| |].
  - by apply sort_slice_sorted.
  - by rewrite sort_slice_Permutation.
Qed.
End Sorted.

(** ** [sort.Strings] *)

Definition sort_strings (l : list string) : list string := sort_slice str_ltb l.

#[export] Instance str_ltb_strict_weak P : StrictWeak P str_ltb.
Proof. by apply (key_strict_weak _ _ id String.compare). Qed.

Lemma str_ltb_antisym x y : ordered str_ltb x y -> ordered str_ltb y x -> x = y.
Proof. by apply (key_antisym (fun _ => True) str_ltb id String.compare). Qed.

Lemma sort_strings_In x l : In x (sort_strings l) <-> In x l.
Proof. apply sort_slice_In. Qed.

Lemma sort_strings_Permutation l : sort_strings l ≡ₚ l.
Proof. apply sort_slice_Permutation. Qed.

Lemma sort_strings_sorted l : StronglySorted (ordered str_ltb) (sort_strings l).
Proof.
  apply (sort_slice_sorted (fun _ => True) str_ltb). by apply List.Forall_forall.
Qed.

Lemma sort_strings_Permutation_eq l k : l ≡ₚ k -> sort_strings l = sort_strings k.
Proof.
  apply (sort_slice_Permutation_eq (fun _ => True) str_ltb).
  - by apply List.Forall_forall.
  - intros x y _ _. apply str_ltb_antisym.
Qed.

#[export] Hint Resolve sort_slice_Permutation sort_strings_Permutation : hydrat.
#[export] Hint Rewrite @sort_slice_In @sort_slice_length sort_strings_In : hydrat.
#[export] Hint Extern 0 (StrictWeak _ _) => typeclasses eauto : core.
