(* ===== verification/GoHeap.v ===== *)
(** Go's [container/heap], against its interface.

    [HeapInterface] is the [heap.Interface] the package calls: [Len], [Less]
    and [Swap] on positions.  [up], [down], [fix], ... are the package's
    functions over any such type.  [HeapLaws] says that a type shows a list of
    keys and that its operations act on that list; a client that proves the
    laws gets the heap theorems, which are proved once, on lists. *)
From S2P Require Import Prelude GoOrder GoSort.

Class HeapInterface (S : Type) : Type := {
  heap_len : S -> nat;
  heap_less : S -> nat -> nat -> bool;
  heap_swap : S -> nat -> nat -> S
}.

Definition parent (j : nat) : nat := (j - 1) / 2.

(** ** The functions of the package *)

Section Functions.
Context {S : Type} `{HeapInterface S}.
Implicit Types (h : S) (i j n fuel : nat).

(** [up]: the loop runs at most [j] times, since the position halves. *)
Fixpoint up_loop fuel h j : S :=
  match fuel with
  | 0 => h
  | Datatypes.S fuel =>
      let i := parent j in
      if (i =? j) || negb (heap_less h j i) then h
      else up_loop fuel (heap_swap h i j) i
  end.

Definition up h j : S := up_loop j h j.

(** [down]: the final position is returned with the heap; the position at
    least doubles, so [n] rounds are enough. *)
Fixpoint down_loop fuel h i n : S * nat :=
  match fuel with
  | 0 => (h, i)
  | Datatypes.S fuel =>
      let j1 := 2 * i + 1 in
      if n <=? j1 then (h, i)
      else
        let j2 := j1 + 1 in
        let j := if (j2 <? n) && heap_less h j2 j1 then j2 else j1 in
        if negb (heap_less h j i) then (h, i)
        else down_loop fuel (heap_swap h i j) j n
  end.

Definition down h i0 n : S * bool :=
  let '(h', i) := down_loop n h i0 n in (h', i0 <? i).

Definition heap_fix h i : S :=
  let '(h', moved) := down h i (heap_len h) in if moved then h' else up h' i.

(** The package's [Pop] and [Remove] up to the final call of the type's own
    [Pop], which drops the last position. *)
Definition heap_pop_prepare h : S :=
  let n := heap_len h - 1 in (down (heap_swap h 0 n) 0 n).1.

Definition heap_remove_prepare h i : S :=
  let n := heap_len h - 1 in
  if n =? i then h
  else
    let '(h', moved) := down (heap_swap h i n) i n in
    if moved then h' else up h' i.
End Functions.

(** ** Lists as heaps *)

Definition swap_list {K} (l : list K) (i j : nat) : list K :=
  match l !! i, l !! j with
  | Some a, Some b => <[i := b]> (<[j := a]> l)
  | _, _ => l
  end.

Definition list_less {K} (less : K -> K -> bool) (l : list K) (i j : nat) : bool :=
  match l !! i, l !! j with
  | Some a, Some b => less a b
  | _, _ => false
  end.

Definition list_heap {K} (less : K -> K -> bool) : HeapInterface (list K) := {|
  heap_len := length;
  heap_less := list_less less;
  heap_swap := swap_list
|}.

Section SwapList.
Context {K : Type}.
Implicit Types (l : list K) (i j k : nat).

Lemma swap_list_length l i j : length (swap_list l i j) = length l.
Proof. unfold swap_list. repeat case_match; rewrite ?length_insert; done. Qed.

Lemma swap_list_lookup l i j k :
  i < length l -> j < length l ->
  swap_list l i j !! k =
    if decide (k = i) then l !! j else if decide (k = j) then l !! i else l !! k.
Proof.
  intros [a Ha]%lookup_lt_is_Some_2 [b Hb]%lookup_lt_is_Some_2.
  unfold swap_list. rewrite Ha, Hb.
  pose proof (lookup_lt_Some _ _ _ Ha). pose proof (lookup_lt_Some _ _ _ Hb).
  repeat case_decide; subst.
  - by rewrite list_lookup_insert_eq by (rewrite length_insert; done).
  - rewrite list_lookup_insert_ne by done. by rewrite list_lookup_insert_eq.
  - by rewrite !list_lookup_insert_ne by done.
Qed.

Lemma swap_list_eq l i : swap_list l i i = l.
Proof.
  unfold swap_list. destruct (l !! i) eqn:E; [|done].
  rewrite list_insert_insert_eq. by apply list_insert_id.
Qed.

Lemma list_delete_insert_eq l i (x : K) : delete i (<[i:=x]> l) = delete i l.
Proof.
  revert i. induction l as [|y l IH]; intros [|i]; simpl; [done|done|done|].
  f_equal. apply IH.
Qed.

Lemma swap_list_Permutation l i j : swap_list l i j ≡ₚ l.
Proof.
  unfold swap_list. destruct (l !! i) as [a|] eqn:Hi; [|done].
  destruct (l !! j) as [b|] eqn:Hj; [|done].
  destruct (decide (i = j)) as [->|Hne].
  { simplify_eq. rewrite list_insert_insert_eq, list_insert_id by done. done. }
  pose proof (lookup_lt_Some _ _ _ Hi). pose proof (lookup_lt_Some _ _ _ Hj).
  assert (<[j:=a]> l !! i = Some a) as Hi' by (by rewrite list_lookup_insert_ne).
  assert (<[j:=a]> l ≡ₚ a :: delete j l) as H1.
  { rewrite (delete_Permutation (<[j:=a]> l) j a)
      by (by rewrite list_lookup_insert_eq).
    by rewrite list_delete_insert_eq. }
  apply (Permutation_cons_inv (a := a)).
  rewrite (delete_Permutation (<[i:=b]> (<[j:=a]> l)) i b)
    by (rewrite list_lookup_insert_eq; [done|by rewrite length_insert]).
  rewrite list_delete_insert_eq, Permutation_swap.
  rewrite <- (delete_Permutation (<[j:=a]> l) i a) by done.
  rewrite H1, Permutation_swap. by rewrite <- (delete_Permutation l j b).
Qed.
End SwapList.

(** ** Heap order on lists *)

Section HeapOrder.
Context {K : Type} (less : K -> K -> bool) `{!StrictWeak (fun _ => True) less}.
Implicit Types (l : list K) (i j k n c : nat) (a b x : K).

#[local] Instance list_heap_instance : HeapInterface (list K) := list_heap less.

Abbreviation R := (ordered less).

Lemma heap_less_list l i j : heap_less l i j = list_less less l i j.
Proof. done. Qed.

Lemma R_refl a : R a a.
Proof.
  unfold ordered. destruct (less a a) eqn:E; [|done].
  by rewrite (sw_asym a a) in E.
Qed.

Lemma R_trans a b x : R a b -> R b x -> R a x.
Proof. unfold ordered. by apply (sw_ntrans (P := fun _ => True)). Qed.

Lemma R_less a b : less a b = true -> R a b.
Proof. unfold ordered. by apply (sw_asym (P := fun _ => True)). Qed.

(** The edge from [i] to its child [k] is in order. *)
Definition edge l i k : Prop :=
  forall a b, l !! i = Some a -> l !! k = Some b -> R a b.

(** The prefix of length [n] is a heap. *)
Definition heap_prefix l n : Prop :=
  forall k, 0 < k < n -> edge l (parent k) k.

Definition is_heap l : Prop := heap_prefix l (length l).

(** Grandparent edges around [i]. *)
Definition bypass l i n : Prop :=
  forall c, 0 < c < n -> parent c = i -> 0 < i -> edge l (parent i) c.

(** Everything is in order but the edge into [i] ([up] repairs it), the edges
    out of [i] ([down] repairs them), or both. *)
Definition except_up l i n : Prop :=
  (forall k, 0 < k < n -> k <> i -> edge l (parent k) k) /\ bypass l i n.

Definition except_down l i n : Prop :=
  (forall k, 0 < k < n -> parent k <> i -> edge l (parent k) k) /\ bypass l i n.

Definition except_both l i n : Prop :=
  (forall k, 0 < k < n -> parent k <> i -> k <> i -> edge l (parent k) k) /\
  bypass l i n.

Lemma parent_lt k : 0 < k -> parent k < k.
Proof. unfold parent. intros. apply Nat.Div0.div_lt_upper_bound; lia. Qed.

Lemma parent_child k i : 0 < k -> parent k = i <-> k = 2 * i + 1 \/ k = 2 * i + 2.
Proof.
  unfold parent. intros Hk. pose proof (Nat.div_mod_eq (k - 1) 2).
  pose proof (Nat.mod_upper_bound (k - 1) 2 ltac:(lia)). lia.
Qed.

Lemma edge_swap l i j p q :
  i < length l -> j < length l -> p <> i -> p <> j -> q <> i -> q <> j ->
  edge l p q -> edge (swap_list l i j) p q.
Proof.
  unfold edge. intros Hi Hj H1 H2 H3 H4 He a b.
  rewrite !swap_list_lookup by done. repeat case_decide; try done. apply He.
Qed.

(** [up] makes a heap of a prefix with one edge out of order. *)
Lemma up_loop_heap fuel l j n :
  j < n -> n <= length l -> j <= fuel -> except_up l j n ->
  heap_prefix (up_loop fuel l j) n.
Proof.
  intros Hj Hn Hfuel. revert l j Hj Hn Hfuel. induction fuel as [|fuel IH]; intros l j Hj Hn Hfuel [Ha Hb].
  { intros k Hk. apply Ha; lia. }
  cbn [up_loop]. destruct (parent j =? j) eqn:E0.
  { apply Nat.eqb_eq in E0. intros k Hk. apply Ha; [done|]. intros ->.
    pose proof (parent_lt j). lia. }
  apply Nat.eqb_neq in E0. cbn [orb].
  assert (0 < j) as Hj0 by (destruct j; [by cbn in E0|lia]).
  pose proof (parent_lt j Hj0) as Hp.
  destruct (lookup_lt_is_Some_2 l j ltac:(lia)) as [x Hx].
  destruct (lookup_lt_is_Some_2 l (parent j) ltac:(lia)) as [y Hy].
  rewrite heap_less_list. unfold list_less. rewrite Hx, Hy.
  destruct (less x y) eqn:E; simpl.
  2:{ intros k Hk. destruct (decide (k = j)) as [->|]; [|by apply Ha].
      intros a b ??. by simplify_eq. }
  apply IH; [lia|by rewrite swap_list_length|lia|].
  set (i := parent j) in *. split.
  - intros k Hk Hki. destruct (decide (k = j)) as [->|Hkj].
    { fold i. intros a b. rewrite !swap_list_lookup by lia.
      repeat case_decide; try lia. intros. simplify_eq. by apply R_less. }
    destruct (decide (parent k = i)) as [Hpk|Hpk].
    { rewrite Hpk. intros a b. rewrite !swap_list_lookup by lia.
      repeat case_decide; try lia. intros. simplify_eq.
      apply (R_trans _ y); [by apply R_less|]. apply (Ha k); [done|done|by rewrite Hpk|done]. }
    destruct (decide (parent k = j)) as [Hpk'|Hpk'].
    { rewrite Hpk'. intros a b. rewrite !swap_list_lookup by lia.
      repeat case_decide; try lia. intros. simplify_eq. apply (Hb k); done. }
    apply edge_swap; try done; try lia. by apply Ha.
  - intros c Hc Hpc Hi. pose proof (parent_lt i Hi). intros a b.
    rewrite !swap_list_lookup by lia. repeat case_decide; try lia; intros; simplify_eq.
    + apply (Ha (parent j)); try done; lia.
    + apply (R_trans _ y); [apply (Ha (parent j)); try done; lia|].
      apply (Ha c); [done|done|by rewrite Hpc|done].
Qed.

Lemma up_list_heap l j n :
  j < n -> n <= length l -> except_up l j n -> heap_prefix (up l j) n.
Proof. intros. by apply up_loop_heap. Qed.

(** The child [down] compares with: the smaller one. *)
Definition small_child l i n : nat :=
  if (2 * i + 1 + 1 <? n) && heap_less l (2 * i + 1 + 1) (2 * i + 1)
  then 2 * i + 1 + 1 else 2 * i + 1.

Lemma small_child_spec l i n :
  2 * i + 1 < n -> n <= length l ->
  0 < small_child l i n < n /\ parent (small_child l i n) = i /\
  forall k, 0 < k < n -> parent k = i -> edge l (small_child l i n) k.
Proof.
  intros Hi Hn. unfold small_child.
  destruct (2 * i + 1 + 1 <? n) eqn:E1; cbn [andb].
  - apply Nat.ltb_lt in E1.
    destruct (lookup_lt_is_Some_2 l (2 * i + 1) ltac:(lia)) as [x Hx].
    destruct (lookup_lt_is_Some_2 l (2 * i + 1 + 1) ltac:(lia)) as [y Hy].
    rewrite heap_less_list. unfold list_less. rewrite Hx, Hy.
    destruct (less y x) eqn:E2;
      (split; [lia|]; split; [apply parent_child; lia|]);
      intros k Hk Hpk a b Ha Hb;
      (apply parent_child in Hpk as [Hpk|Hpk]; [| |lia]); rewrite Hpk in Hb;
      try replace (2 * i + 2) with (2 * i + 1 + 1) in Hb by lia; simplify_eq;
      solve [done|apply R_refl|by apply R_less].
  - apply Nat.ltb_ge in E1. split; [lia|]. split; [apply parent_child; lia|].
    intros k Hk Hpk a b Ha Hb.
    apply parent_child in Hpk as [->|Hpk]; [|lia|lia]. simplify_eq. apply R_refl.
Qed.

(** One round of [down]: the element moves to the smaller child, and only
    the edges below its new position can be out of order. *)
Lemma down_step l i n :
  n <= length l -> 2 * i + 1 < n ->
  heap_less l (small_child l i n) i = true -> except_both l i n ->
  except_down (swap_list l i (small_child l i n)) (small_child l i n) n.
Proof.
  intros Hn Hi Hless [Ha Hb].
  destruct (small_child_spec l i n) as (Hj & Hpj & Hmin); [done|done|].
  set (j := small_child l i n) in *.
  destruct (lookup_lt_is_Some_2 l i ltac:(lia)) as [x Hx].
  destruct (lookup_lt_is_Some_2 l j ltac:(lia)) as [y Hy].
  rewrite heap_less_list in Hless. unfold list_less in Hless.
  rewrite Hx, Hy in Hless.
  assert (i < j) as Hij by (apply parent_child in Hpj; lia).
  split.
  - intros k Hk Hpk. pose proof (parent_lt k ltac:(lia)).
    destruct (decide (parent k = i)) as [Hpi|Hpi].
    + rewrite Hpi. intros a b. rewrite !swap_list_lookup by lia.
      repeat case_decide; try lia; intros; simplify_eq; [by apply R_less|].
      apply (Hmin k); done.
    + destruct (decide (k = i)) as [->|Hki].
      * intros a b. rewrite !swap_list_lookup by lia.
        repeat case_decide; try lia; intros; simplify_eq. apply (Hb j); try done; lia.
      * apply edge_swap; try done; try lia; [congruence|by apply Ha].
  - intros c Hc Hpc Hj0. rewrite Hpj. intros a b.
    pose proof (parent_lt c ltac:(lia)).
    rewrite !swap_list_lookup by lia. repeat case_decide; try lia; intros; simplify_eq.
    apply (Ha c); [lia|lia|lia|by rewrite Hpc|done].
Qed.

(** When the element stays, the edges below it are in order. *)
Lemma down_stop l i n :
  n <= length l ->
  (n <= 2 * i + 1 \/ heap_less l (small_child l i n) i = false) ->
  except_both l i n -> except_up l i n.
Proof.
  intros Hn Hstop [Ha Hb]. split; [|done]. intros k Hk Hki.
  destruct (decide (parent k = i)) as [Hpi|Hpi]; [|by apply Ha].
  apply parent_child in Hpi as Hk2; [|lia].
  destruct Hstop as [|Hless]; [lia|].
  destruct (small_child_spec l i n) as (Hj & Hpj & Hmin); [lia|done|].
  set (j := small_child l i n) in *.
  destruct (lookup_lt_is_Some_2 l j ltac:(lia)) as [y Hy].
  rewrite Hpi. intros a b Hia Hkb. rewrite heap_less_list in Hless.
  unfold list_less in Hless. rewrite Hy, Hia in Hless.
  apply (R_trans _ y); [done|]. by apply (Hmin k).
Qed.

Lemma except_down_both l i n : except_down l i n -> except_both l i n.
Proof. intros [H1 H2]. split; auto. Qed.

Lemma except_down_up_heap l i n :
  except_down l i n -> except_up l i n -> heap_prefix l n.
Proof.
  intros [Hd _] [Hu _] k Hk. destruct (decide (k = i)) as [->|]; [|by apply Hu].
  apply Hd; [done|]. pose proof (parent_lt i). lia.
Qed.

Lemma down_loop_unfold fuel l i n :
  down_loop (S fuel) l i n =
    if n <=? 2 * i + 1 then (l, i)
    else if negb (heap_less l (small_child l i n) i) then (l, i)
    else down_loop fuel (swap_list l i (small_child l i n)) (small_child l i n) n.
Proof. reflexivity. Qed.

Lemma down_loop_heap fuel l i n :
  n <= length l -> n <= i + fuel -> except_down l i n ->
  heap_prefix (down_loop fuel l i n).1 n /\ i <= (down_loop fuel l i n).2.
Proof.
  revert l i. induction fuel as [|fuel IH]; intros l i Hn Hf Hd.
  { simpl. split; [|done]. intros k Hk. apply Hd; [done|]. pose proof (parent_lt k). lia. }
  rewrite down_loop_unfold. destruct (n <=? 2 * i + 1) eqn:E1; cbn [fst snd].
  { apply Nat.leb_le in E1. split; [|done]. eapply except_down_up_heap; [done|].
    apply down_stop; [done|by left|by apply except_down_both]. }
  apply Nat.leb_gt in E1. destruct (heap_less l (small_child l i n) i) eqn:E2; cbn [negb fst snd].
  - destruct (small_child_spec l i n) as (Hj & Hpj & _); [done|done|].
    apply parent_child in Hpj; [|lia].
    destruct (IH (swap_list l i (small_child l i n)) (small_child l i n)) as [H1 H2];
      [by rewrite swap_list_length|lia|by apply down_step, except_down_both|].
    split; [done|lia].
  - split; [|done]. eapply except_down_up_heap; [done|].
    apply down_stop; [done|by right|by apply except_down_both].
Qed.

(** [down] on a position whose edges are out of order: if the element moved,
    the prefix is a heap; otherwise it is one up to the edge into [i]. *)
Lemma down_list_heap l i n :
  n <= length l -> i < n -> except_both l i n ->
  if (down l i n).2 then heap_prefix (down l i n).1 n
  else (down l i n).1 = l /\ except_up l i n.
Proof.
  intros Hn Hi Hb. unfold down. destruct n as [|m]; [lia|].
  rewrite down_loop_unfold. destruct (S m <=? 2 * i + 1) eqn:E1.
  { cbn [fst snd]. rewrite Nat.ltb_irrefl. split; [done|].
    apply down_stop; [done|left; by apply Nat.leb_le|done]. }
  apply Nat.leb_gt in E1.
  destruct (heap_less l (small_child l i (S m)) i) eqn:E2; cbn [negb].
  - destruct (small_child_spec l i (S m)) as (Hj & Hpj & _); [done|done|].
    apply parent_child in Hpj; [|lia].
    destruct (down_loop_heap m (swap_list l i (small_child l i (S m)))
      (small_child l i (S m)) (S m)) as [H1 H2];
      [by rewrite swap_list_length|lia|by apply down_step|].
    destruct (down_loop _ _ _ _) as [h' i'] eqn:E3. simpl in *.
    by rewrite (proj2 (Nat.ltb_lt i i')) by lia.
  - cbn [fst snd]. rewrite Nat.ltb_irrefl. split; [done|]. apply down_stop; [done|by right|done].
Qed.

(** *** Permutation, length and untouched positions *)

Lemma up_loop_Permutation fuel l j : up_loop fuel l j ≡ₚ l.
Proof.
  revert l j. induction fuel as [|fuel IH]; intros l j; [done|].
  cbn [up_loop]. case_match; [done|]. rewrite IH. apply swap_list_Permutation.
Qed.

Lemma down_loop_Permutation fuel l i n : (down_loop fuel l i n).1 ≡ₚ l.
Proof.
  revert l i. induction fuel as [|fuel IH]; intros l i; [done|].
  rewrite down_loop_unfold. repeat case_match; [done|done|].
  rewrite IH. apply swap_list_Permutation.
Qed.

Lemma up_Permutation l j : up l j ≡ₚ l.
Proof. apply up_loop_Permutation. Qed.

Lemma down_Permutation l i n : (down l i n).1 ≡ₚ l.
Proof.
  unfold down. pose proof (down_loop_Permutation n l i n). by case_match.
Qed.

Lemma up_length l j : length (up l j) = length l.
Proof. apply Permutation_length, up_Permutation. Qed.

Lemma down_length l i n : length (down l i n).1 = length l.
Proof. apply Permutation_length, down_Permutation. Qed.

Lemma up_loop_untouched fuel l j k :
  j < k -> j < length l -> up_loop fuel l j !! k = l !! k.
Proof.
  revert l j. induction fuel as [|fuel IH]; intros l j Hj Hl; [done|].
  cbn [up_loop]. destruct (parent j =? j) eqn:E; [done|]. cbn [orb].
  apply Nat.eqb_neq in E.
  assert (parent j < j) by (apply parent_lt; destruct j; [by cbn in E|lia]).
  destruct (heap_less l j (parent j)); cbn [negb]; [|done].
  change (heap_swap l (parent j) j) with (swap_list l (parent j) j).
  rewrite IH by (rewrite ?swap_list_length; lia).
  rewrite swap_list_lookup by lia. repeat case_decide; [lia|lia|done].
Qed.

Lemma down_loop_untouched fuel l i n k :
  i < n -> n <= k -> n <= length l -> (down_loop fuel l i n).1 !! k = l !! k.
Proof.
  revert l i. induction fuel as [|fuel IH]; intros l i Hi Hk Hl; [done|].
  rewrite down_loop_unfold. destruct (n <=? 2 * i + 1) eqn:E1; [done|].
  apply Nat.leb_gt in E1. destruct (heap_less _ _ _) eqn:E2; cbn [negb]; [|done].
  destruct (small_child_spec l i n) as (Hj & _); [done|done|].
  rewrite IH by (rewrite ?swap_list_length; lia).
  rewrite swap_list_lookup by lia. repeat case_decide; [lia|lia|done].
Qed.

Lemma down_untouched l i n k :
  i < n -> n <= k -> n <= length l -> (down l i n).1 !! k = l !! k.
Proof.
  intros. unfold down. pose proof (down_loop_untouched n l i n k). case_match. auto.
Qed.

(** *** The package's operations on list heaps *)

Lemma heap_prefix_take l n : n <= length l -> heap_prefix l n -> is_heap (take n l).
Proof.
  intros Hn Hh k. rewrite length_take_le by done. intros Hk a b.
  pose proof (parent_lt k ltac:(lia)).
  rewrite !lookup_take_lt by lia. by apply Hh.
Qed.

Lemma heap_prefix_le l m n : m <= n -> heap_prefix l n -> heap_prefix l m.
Proof. intros Hm Hh k Hk. apply Hh. lia. Qed.

(** The root is a least element. *)
Lemma heap_root_least l i a b :
  is_heap l -> l !! 0 = Some a -> l !! i = Some b -> R a b.
Proof.
  intros Hh Ha. revert b. induction (lt_wf i) as [i _ IH]. intros b Hb.
  destruct (decide (i = 0)) as [->|Hi]; [simplify_eq; apply R_refl|].
  pose proof (lookup_lt_Some _ _ _ Hb) as Hl.
  pose proof (parent_lt i ltac:(lia)) as Hp.
  destruct (lookup_lt_is_Some_2 l (parent i) ltac:(lia)) as [c Hc].
  apply (R_trans _ c); [by apply (IH (parent i))|]. apply (Hh i); [lia|done|done].
Qed.

Lemma push_heap l x : is_heap l -> is_heap (up (l ++ [x]) (length l)).
Proof.
  intros Hh. unfold is_heap. rewrite up_length, length_app. simpl.
  apply up_list_heap; rewrite ?length_app; simpl; [lia|lia|]. split.
  - intros k Hk Hkl. pose proof (parent_lt k ltac:(lia)). intros a b.
    rewrite !lookup_app_l by lia. apply Hh. lia.
  - intros c Hc Hpc. pose proof (parent_lt c ltac:(lia)). lia.
Qed.

Lemma pop_heap l :
  l <> [] -> is_heap l ->
  is_heap (take (length l - 1) (heap_pop_prepare l)) /\
  heap_pop_prepare l !! (length l - 1) = l !! 0.
Proof.
  intros Hne Hh. assert (0 < length l) as Hl by (destruct l; simpl; [done|lia]).
  unfold heap_pop_prepare.
  change (heap_len l) with (length l). change (heap_swap l 0 (length l - 1))
    with (swap_list l 0 (length l - 1)).
  set (n := length l - 1). set (l' := swap_list l 0 n).
  assert (length l' = length l) as Hlen by apply swap_list_length.
  assert (l' !! n = l !! 0) as Hlast.
  { unfold l'. rewrite swap_list_lookup by lia. repeat case_decide; [|done|done].
    by f_equal. }
  destruct (decide (n = 0)) as [Hn0|Hn0].
  { rewrite Hn0. cbn. split; [|by rewrite Hn0 in Hlast].
    intros k Hk. unfold is_heap in Hk. simpl in Hk. lia. }
  split; [|by rewrite down_untouched by lia].
  apply heap_prefix_take; [rewrite down_length; lia|].
  assert (except_both l' 0 n) as Hb.
  { split; [|intros c Hc Hpc; lia]. intros k Hk Hpk Hk0.
    pose proof (parent_lt k ltac:(lia)).
    apply edge_swap; try lia. apply Hh. lia. }
  pose proof (down_list_heap l' 0 n ltac:(lia) ltac:(lia) Hb) as Hd.
  destruct ((down l' 0 n).2); [done|]. destruct Hd as [-> [Hu _]].
  intros k Hk. apply Hu; lia.
Qed.

Lemma fix_heap l i :
  i < length l -> except_both l i (length l) -> is_heap (heap_fix l i).
Proof.
  intros Hi Hb. unfold heap_fix. change (heap_len l) with (length l).
  pose proof (down_list_heap l i (length l) ltac:(done) Hi Hb) as Hd.
  pose proof (down_length l i (length l)) as Hp.
  destruct (down l i (length l)) as [h [|]]; simpl in *.
  - unfold is_heap. by rewrite Hp.
  - destruct Hd as [-> Hu]. unfold is_heap. rewrite up_length.
    by apply up_list_heap.
Qed.

(** Replacing one key of a heap leaves it out of order only at that key. *)
Lemma insert_except_both l i x :
  i < length l -> is_heap l -> except_both (<[i:=x]> l) i (length l).
Proof.
  intros Hi Hh. split.
  - intros k Hk Hpk Hki a b. rewrite !list_lookup_insert_ne by done. by apply Hh.
  - intros c Hc Hpc Hi0. pose proof (parent_lt i Hi0). pose proof (parent_lt c ltac:(lia)).
    intros a b. rewrite !list_lookup_insert_ne by lia. intros Ha Hb.
    destruct (lookup_lt_is_Some_2 l i Hi) as [y Hy].
    apply (R_trans _ y); [by apply (Hh i)|].
    apply (Hh c); [done|by rewrite Hpc|done].
Qed.

Lemma heap_fix_Permutation l i : heap_fix l i ≡ₚ l.
Proof.
  unfold heap_fix. pose proof (down_Permutation l i (heap_len l)).
  destruct (down _ _ _) as [h [|]]; simpl in *; [done|]. by rewrite up_Permutation.
Qed.

Lemma remove_heap l i :
  i < length l -> is_heap l ->
  is_heap (take (length l - 1) (heap_remove_prepare l i)) /\
  heap_remove_prepare l i !! (length l - 1) = l !! i.
Proof.
  intros Hi Hh. unfold heap_remove_prepare. change (heap_len l) with (length l).
  destruct (length l - 1 =? i) eqn:E.
  { apply Nat.eqb_eq in E. rewrite E. split; [|done].
    apply heap_prefix_take; [lia|]. by eapply heap_prefix_le; [|exact Hh]; lia. }
  apply Nat.eqb_neq in E. set (n := length l - 1) in *.
  change (heap_swap l i n) with (swap_list l i n). set (l' := swap_list l i n).
  assert (length l' = length l) as Hlen by apply swap_list_length.
  assert (l' !! n = l !! i) as Hlast.
  { unfold l'. rewrite swap_list_lookup by lia. by repeat case_decide; [lia| |]. }
  assert (except_both l' i n) as Hb.
  { split.
    - intros k Hk Hpk Hki. pose proof (parent_lt k ltac:(lia)).
      apply edge_swap; try lia. apply Hh. lia.
    - intros c Hc Hpc Hi0. pose proof (parent_lt i Hi0). pose proof (parent_lt c ltac:(lia)).
      apply edge_swap; try lia. intros a b Ha Hb.
      destruct (lookup_lt_is_Some_2 l i Hi) as [y Hy].
      apply (R_trans _ y); [apply (Hh i); try done; lia|].
      apply (Hh c); [lia|by rewrite Hpc|done]. }
  pose proof (down_list_heap l' i n ltac:(lia) ltac:(lia) Hb) as Hd.
  pose proof (down_length l' i n) as Hp.
  pose proof (down_untouched l' i n n ltac:(lia) ltac:(lia) ltac:(lia)) as Hu.
  destruct (down l' i n) as [h [|]]; simpl in *.
  - split; [|congruence]. apply heap_prefix_take; [rewrite Hp; lia|done].
  - destruct Hd as [-> Hx]. split.
    + apply heap_prefix_take; [rewrite up_length; lia|]. apply up_list_heap; lia || done.
    + unfold up. rewrite up_loop_untouched by lia. done.
Qed.
(** The root is what sorting the elements puts first, in any order they are
    given: the specification of [Pop] for a priority queue. *)
Lemma heap_root_head_sort l (m : list K) :
  is_heap l -> l ≡ₚ m ->
  (forall x y, In x l -> In y l -> ordered less x y -> ordered less y x -> x = y) ->
  head (sort_slice less m) = l !! 0.
Proof.
  intros Hh Hp Hanti.
  assert (Forall (fun _ : K => True) m) as HT by (by apply List.Forall_forall).
  pose proof (sort_slice_sorted (fun _ => True) less m HT) as Hs.
  pose proof (Permutation_trans (sort_slice_Permutation less m) (Permutation_sym Hp)) as Hk.
  destruct (sort_slice less m) as [|x rest].
  { apply Permutation_nil_l in Hk. by subst. }
  destruct l as [|a l]; [by apply Permutation_nil_r in Hk|].
  simpl. f_equal.
  assert (In x (a :: l)) as Hx by (rewrite <- Hk; by left).
  assert (In a (x :: rest)) as Ha by (rewrite Hk; by left).
  apply Hanti; [done|by left| |].
  - destruct Ha as [->|Ha]; [apply R_refl|].
    inversion Hs as [|? ? _ Hall]; subst. rewrite List.Forall_forall in Hall. auto.
  - apply list_elem_of_In, list_elem_of_lookup in Hx as [i Hi].
    by apply (heap_root_least (a :: l) i a x).
Qed.

End HeapOrder.

(** ** Any implementation of the interface *)

(** The laws of an implementation: on the states that satisfy [ok], [view] is
    the list of keys by position, and the operations act on it. *)
Class HeapLaws {S K : Type} `{HeapInterface S} (ok : S -> Prop) (view : S -> list K)
    (less : K -> K -> bool) : Prop := {
  hl_len : forall h, ok h -> heap_len h = length (view h);
  hl_less : forall h i j, ok h -> i < length (view h) -> j < length (view h) ->
    heap_less h i j = list_less less (view h) i j;
  hl_swap : forall h i j, ok h -> i < length (view h) -> j < length (view h) ->
    ok (heap_swap h i j) /\ view (heap_swap h i j) = swap_list (view h) i j
}.

Section View.
Context {S K : Type} `{!HeapInterface S} (ok : S -> Prop) (view : S -> list K)
  (less : K -> K -> bool) `{!HeapLaws ok view less}.
Implicit Types (h : S) (i j n : nat).

Abbreviation lup := (up (H := list_heap less)).
Abbreviation ldown := (down (H := list_heap less)).

Lemma up_loop_view fuel h j :
  ok h -> j < length (view h) ->
  ok (up_loop fuel h j) /\
  view (up_loop fuel h j) = up_loop (H := list_heap less) fuel (view h) j.
Proof.
  revert h j. induction fuel as [|fuel IH]; intros h j Hok Hj; [done|].
  cbn [up_loop]. assert (parent j < length (view h)) as Hp.
  { destruct j; [done|]. pose proof (parent_lt (Datatypes.S j)). lia. }
  rewrite hl_less by done. change (heap_less (HeapInterface := list_heap less))
    with (list_less less).
  destruct ((parent j =? j) || negb (list_less less (view h) j (parent j))); [done|].
  destruct (hl_swap h (parent j) j Hok Hp Hj) as [Hok' Hv].
  destruct (IH (heap_swap h (parent j) j) (parent j)) as [H1 H2];
    [done|by rewrite Hv, swap_list_length|].
  split; [done|]. by rewrite H2, Hv.
Qed.

Lemma up_view h j :
  ok h -> j < length (view h) -> ok (up h j) /\ view (up h j) = lup (view h) j.
Proof. apply up_loop_view. Qed.

Lemma down_loop_view fuel h i n :
  ok h -> i < n -> n <= length (view h) ->
  ok (down_loop fuel h i n).1 /\
  down_loop (H := list_heap less) fuel (view h) i n =
    (view (down_loop fuel h i n).1, (down_loop fuel h i n).2).
Proof.
  revert h i. induction fuel as [|fuel IH]; intros h i Hok Hi Hn; [done|].
  cbn [down_loop]. destruct (n <=? 2 * i + 1) eqn:E1; [done|]. apply Nat.leb_gt in E1.
  change (heap_less (HeapInterface := list_heap less)) with (list_less less).
  assert ((2 * i + 1 + 1 <? n) && heap_less h (2 * i + 1 + 1) (2 * i + 1) =
    (2 * i + 1 + 1 <? n) && list_less less (view h) (2 * i + 1 + 1) (2 * i + 1)) as ->.
  { destruct (2 * i + 1 + 1 <? n) eqn:E2; [|done]. apply Nat.ltb_lt in E2.
    by rewrite hl_less by (done || lia). }
  set (j := if _ && _ then _ else _).
  assert (j < n) as Hj.
  { unfold j. destruct (2 * i + 1 + 1 <? n) eqn:E2; cbn [andb]; [|lia].
    apply Nat.ltb_lt in E2. case_match; lia. }
  rewrite hl_less by (done || lia).
  destruct (negb (list_less less (view h) j i)); [done|].
  destruct (hl_swap h i j Hok ltac:(lia) ltac:(lia)) as [Hok' Hv].
  destruct (IH (heap_swap h i j) j) as [H1 H2]; [done|done|by rewrite Hv, swap_list_length|].
  split; [done|]. rewrite <- H2, Hv. done.
Qed.

Lemma down_view h i n :
  ok h -> i < n -> n <= length (view h) ->
  ok (down h i n).1 /\ ldown (view h) i n = (view (down h i n).1, (down h i n).2).
Proof.
  intros Hok Hi Hn. destruct (down_loop_view n h i n Hok Hi Hn) as [H1 H2].
  unfold down. rewrite H2. by destruct (down_loop n h i n).
Qed.

Lemma heap_fix_view h i :
  ok h -> i < length (view h) ->
  ok (heap_fix h i) /\ view (heap_fix h i) = heap_fix (H := list_heap less) (view h) i.
Proof.
  intros Hok Hi. unfold heap_fix. rewrite hl_len by done.
  change (heap_len (HeapInterface := list_heap less) (view h)) with (length (view h)).
  destruct (down_view h i (length (view h)) Hok Hi ltac:(done)) as [H1 H2].
  rewrite H2. assert (length (view (down h i (length (view h))).1) = length (view h)) as Hl.
  { pose proof (down_length less (view h) i (length (view h))) as Hd.
    unfold list_heap_instance in Hd. by rewrite H2 in Hd. }
  destruct (down h i (length (view h))) as [h' [|]]; simpl in *; [done|].
  apply up_view; [done|lia].
Qed.

Lemma heap_pop_prepare_view h :
  ok h -> 1 < length (view h) ->
  ok (heap_pop_prepare h) /\
  view (heap_pop_prepare h) = heap_pop_prepare (H := list_heap less) (view h).
Proof.
  intros Hok Hl. unfold heap_pop_prepare. rewrite hl_len by done.
  change (heap_len (HeapInterface := list_heap less) (view h)) with (length (view h)).
  change (heap_swap (HeapInterface := list_heap less)) with (@swap_list K).
  destruct (hl_swap h 0 (length (view h) - 1) Hok ltac:(lia) ltac:(lia)) as [H1 H2].
  destruct (down_view (heap_swap h 0 (length (view h) - 1)) 0 (length (view h) - 1))
    as [H3 H4]; [done|lia|rewrite H2, swap_list_length; lia|].
  split; [done|]. rewrite <- H2, H4. done.
Qed.
End View.
