(* ===== verification/Sha256.v ===== *)
(** SHA-256 and the big-endian readings of its digest, as the program uses
    [crypto/sha256] and [encoding/binary] for rendezvous placement, resolver
    selection and plan digests. *)
From Stdlib Require Import Ascii String.
From S2P Require Import Prelude GoStrings.

#[local] Open Scope Z_scope.

Definition word32 (z : Z) : Z := z `mod` 2 ^ 32.
Definition rotr (x n : Z) : Z :=
  Z.lor (Z.shiftr x n) (word32 (Z.shiftl x (32 - n))).

(** The tables of the standard are the leading 32 bits of the fractional parts
    of cube roots (round constants) and square roots (initial hash) of the first
    primes; they are computed here from that description. *)
Fixpoint cube_root_bits (n : nat) (target root : Z) : Z :=
  match n with
  | O => root
  | S n =>
      let r := root + 2 ^ Z.of_nat n in
      cube_root_bits n target (if r * r * r <=? target then r else root)
  end.

Definition primes (n : nat) : list Z :=
  List.filter
    (fun p => forallb (fun d => negb (p `mod` (Z.of_nat d) =? 0))
                      (seq 2 (Z.to_nat (p - 2))))
    (map Z.of_nat (seq 2 n)).

Definition round_constants : list Z :=
  Eval vm_compute in
    map (fun p => word32 (cube_root_bits 36 (p * 2 ^ 96) 0)) (primes 310).

Definition initial_hash : list Z :=
  Eval vm_compute in
    map (fun p => word32 (Z.sqrt (p * 2 ^ 64))) (primes 18).

Definition small_sigma0 x := Z.lxor (Z.lxor (rotr x 7) (rotr x 18)) (Z.shiftr x 3).
Definition small_sigma1 x := Z.lxor (Z.lxor (rotr x 17) (rotr x 19)) (Z.shiftr x 10).
Definition big_sigma0 x := Z.lxor (Z.lxor (rotr x 2) (rotr x 13)) (rotr x 22).
Definition big_sigma1 x := Z.lxor (Z.lxor (rotr x 6) (rotr x 11)) (rotr x 25).
Definition choice x y z := Z.lxor (Z.land x y) (Z.land (Z.lxor x 0xffffffff) z).
Definition majority x y z :=
  Z.lxor (Z.lxor (Z.land x y) (Z.land x z)) (Z.land y z).

(** The message schedule, most recent word first: sixteen words of the block
    and [n] expanded ones. *)
Fixpoint expand (n : nat) (w : list Z) : list Z :=
  match n with
  | O => w
  | S n =>
      let at_ i := nth i w 0 in
      expand n (word32 (small_sigma1 (at_ 1%nat) + at_ 6%nat +
                        small_sigma0 (at_ 14%nat) + at_ 15%nat) :: w)
  end.

Definition sha_round (h : list Z) (kw : Z * Z) : list Z :=
  match h with
  | [a; b; c; d; e; f; g; i] =>
      let t1 := i + big_sigma1 e + choice e f g + kw.1 + kw.2 in
      let t2 := big_sigma0 a + majority a b c in
      [word32 (t1 + t2); a; b; c; word32 (d + t1); e; f; g]
  | _ => h
  end.

Fixpoint big_endian (bytes : list Z) : Z :=
  match bytes with
  | [] => 0
  | b :: rest => b * 256 ^ Z.of_nat (length rest) + big_endian rest
  end.

Fixpoint to_big_endian (n : nat) (z : Z) : list Z :=
  match n with
  | O => []
  | S n => (z / 256 ^ Z.of_nat n) `mod` 256 :: to_big_endian n z
  end.

Fixpoint words_of (n : nat) (bytes : list Z) : list Z :=
  match n with
  | O => []
  | S n => big_endian (take 4 bytes) :: words_of n (drop 4 bytes)
  end.

Definition compress (h : list Z) (block : list Z) : list Z :=
  let w := rev (expand 48 (rev (words_of 16 block))) in
  let h' := fold_left sha_round (combine round_constants w) h in
  zip_with (fun x y => word32 (x + y)) h h'.

Fixpoint compress_blocks (n : nat) (h bytes : list Z) : list Z :=
  match n with
  | O => h
  | S n => compress_blocks n (compress h (take 64 bytes)) (drop 64 bytes)
  end.

Definition pad (bytes : list Z) : list Z :=
  let len := Z.of_nat (length bytes) in
  bytes ++ 128 :: repeat 0 (Z.to_nat ((55 - len) `mod` 64)) ++ to_big_endian 8 (8 * len).

(** [sha256.Sum256]. *)
Definition sha256 (bytes : list Z) : list Z :=
  let padded := pad bytes in
  flat_map (to_big_endian 4)
    (compress_blocks (length padded / 64) initial_hash padded).

(** [hex.EncodeToString]. *)
Definition hex_digit (d : Z) : ascii :=
  ascii_of_N (Z.to_N (if d <? 10 then 48 + d else 87 + d)).

Definition hex_encode (bytes : list Z) : string :=
  string_of_list_ascii
    (flat_map (fun b => [hex_digit (b / 16); hex_digit (b `mod` 16)]) bytes).

(** [binary.BigEndian.Uint64(digest[:8])]. *)
Definition digest_uint64 (digest : list Z) : Z := big_endian (take 8 digest).

Example sha256_abc :
  hex_encode (sha256 (bytes_of "abc")) =
  "ba7816bf8f01cfea414140de5dae2223b00361a396177a9cb410ff61f20015ad"%string.
Proof. vm_compute. reflexivity. Qed.

Lemma round_constants_length : length round_constants = 64%nat.
Proof. reflexivity. Qed.

Lemma to_big_endian_length n z : length (to_big_endian n z) = n.
Proof. revert z. induction n as [|n IH]; intros z; simpl; [done|]. by rewrite IH. Qed.

Lemma to_big_endian_range n z : Forall (fun b => 0 <= b < 256) (to_big_endian n z).
Proof.
  induction n as [|n IH]; simpl; constructor; [|done].
  apply Z.mod_pos_bound. lia.
Qed.

Lemma big_endian_range bytes :
  Forall (fun b => 0 <= b < 256) bytes ->
  0 <= big_endian bytes < 256 ^ Z.of_nat (length bytes).
Proof.
  induction 1 as [|b bytes Hb _ IH]; cbn [big_endian length]; [lia|].
  rewrite Nat2Z.inj_succ, Z.pow_succ_r by lia. nia.
Qed.

(** The digest is made of bytes, so its leading eight make a uint64. *)
Lemma sha256_range bytes : Forall (fun b => 0 <= b < 256) (sha256 bytes).
Proof.
  unfold sha256. apply Forall_flat_map, List.Forall_forall.
  intros w _. apply to_big_endian_range.
Qed.

Lemma digest_uint64_range bytes : 0 <= digest_uint64 (sha256 bytes) < 2 ^ 64.
Proof.
  unfold digest_uint64.
  pose proof (big_endian_range (take 8 (sha256 bytes))
    (Forall_take _ 8 _ (sha256_range bytes))) as H.
  pose proof (length_take (sha256 bytes) 8).
  split; [lia|]. eapply Z.lt_le_trans; [apply H|].
  change (2 ^ 64) with (256 ^ 8). apply Z.pow_le_mono_r; lia.
Qed.

(** The digest has 32 bytes. *)
Lemma sha_round_length h kw : length (sha_round h kw) = length h.
Proof. unfold sha_round. by destruct h as [|? [|? [|? [|? [|? [|? [|? [|? [|? ?]]]]]]]]]. Qed.

Lemma compress_length h block : length (compress h block) = length h.
Proof.
  unfold compress. rewrite length_zip_with.
  assert (forall l g, length (fold_left sha_round l g) = length g) as Hfold.
  { induction l as [|kw l IH]; intros g; simpl; [done|]. by rewrite IH, sha_round_length. }
  rewrite Hfold. lia.
Qed.

Lemma sha256_length bytes : length (sha256 bytes) = 32%nat.
Proof.
  unfold sha256. rewrite (List.flat_map_constant_length (c := 4%nat)) by (intros; apply to_big_endian_length).
  assert (forall n h l, length (compress_blocks n h l) = length h) as Hblocks.
  { induction n as [|n IH]; intros h l; simpl; [done|]. by rewrite IH, compress_length. }
  by rewrite Hblocks.
Qed.

(** ** Inputs with digests of their own *)

(** Among these inputs, no two share a digest. *)
Definition tells_apart (inputs : list (list Z)) : Prop :=
  forall a b, a ∈ inputs -> b ∈ inputs -> sha256 a = sha256 b -> a = b.

Definition tells_apartb (inputs : list (list Z)) : bool :=
  let digests := map (fun a => (sha256 a, a)) inputs in
  forallb (fun x => forallb (fun y => implb (bool_decide (x.1 = y.1)) (bool_decide (x.2 = y.2)))
                      digests) digests.

Lemma tells_apartb_spec inputs : tells_apartb inputs = true -> tells_apart inputs.
Proof.
  unfold tells_apartb. intros H a b Ha Hb E. rewrite forallb_forall in H.
  specialize (H (sha256 a, a)). rewrite forallb_forall in H.
  specialize (H ltac:(by apply list_elem_of_In, (list_elem_of_fmap_2 (fun a => (sha256 a, a)))) (sha256 b, b)
    ltac:(by apply list_elem_of_In, (list_elem_of_fmap_2 (fun a => (sha256 a, a))))).
  cbn in H. rewrite bool_decide_eq_true_2 in H by done. by apply bool_decide_eq_true in H.
Qed.
