(* ===== verification/Handlers.v ===== *)
(** The names of outbound handlers: how a candidate, and for a Tor profile the
    slot and the client, are written into the identifier of an outbound
    (sources/handler.go, [torProfileOutboundID] of controller/engine_plan.go), and
    the four places that read them back (store/plans.go, store/retirement.go,
    store/route_recovery.go, controller/engine_hard_failure.go). *)
From Stdlib Require Import Ascii String.
From S2P Require Import Prelude GoOrder GoStrings Sha256.

#[local] Open Scope Z_scope.

(** ** Candidates and profiles *)

Definition KindVLESS : string := "vless".
Definition KindTorBridge : string := "tor_bridge".

Record Profile := {
  p_Slot : Z;
  p_Role : string;
  p_CandidateID : string;
  p_SocksAddr : string;
  p_DataDir : string;
  p_Retiring : bool
}.

(** [net/url]: the first value of [flow] in the query of a link, empty when it
    has none; none when the link does not parse. *)
Class Links : Type := flow_of : string -> option string.

(** ** Writing *)

Definition visionUDP443HandlerSuffix : string := "-vision-udp443-v1".
Definition visionStandardHandlerSuffix : string := "-vision-standard-v2".

Definition VLESSHandlerID `{Links} (candidateID payload : string) : string :=
  match flow_of payload with
  | Some flow =>
      if str_eqb (trim_space flow) "xtls-rprx-vision"
      then (candidateID ++ visionStandardHandlerSuffix)%string else candidateID
  | None => candidateID
  end.

Definition torProfileOutboundID (candidateID : string) (profile : Profile) (clientID : string) :
    string :=
  let identity := sha256 (bytes_of (decimal (p_Slot profile) ++
                    String "000"%char (p_SocksAddr profile))) in
  (candidateID ++ "-profile-" ++ decimal (p_Slot profile) ++ "-" ++
     hex_encode (take 6 identity) ++ "-client-" ++ clientID)%string.

(** ** Reading *)

Definition CandidateIDFromVLESSHandler (handlerID : string) : string :=
  trim_suffix visionStandardHandlerSuffix (trim_suffix visionUDP443HandlerSuffix handlerID).

(** The store admits a Tor handler only with a slot, a profile identity and a
    client. *)
Definition parseTorPlanHandler (outboundID : string) : option (string * string) :=
  match cut "-profile-" outboundID with
  | Some (candidateID, suffix) =>
      if str_eqb candidateID EmptyString then None
      else match cut "-client-" suffix with
           | Some (profileIdentity, clientID) =>
               if str_eqb profileIdentity EmptyString || str_eqb clientID EmptyString then None
               else let slotText := match cut "-" profileIdentity with
                                    | Some (slot, _) => slot | None => profileIdentity end in
                    match parse_uint 31 slotText with
                    | Some _ => Some (candidateID, clientID)
                    | None => None
                    end
           | None => None
           end
  | None => None
  end.

Definition recoveryCandidateID (outbound : string) : string :=
  match cut "-profile-" outbound with
  | Some (candidate, _) => candidate
  | None => CandidateIDFromVLESSHandler outbound
  end.

(** The marker must not come first. *)
Definition normalizePersistedCandidateID (outboundID : string) : string :=
  match cut "-profile-" outboundID with
  | Some (candidate, _) =>
      if str_eqb candidate EmptyString then CandidateIDFromVLESSHandler outboundID else candidate
  | None => CandidateIDFromVLESSHandler outboundID
  end.

(** An empty [clientID] accepts the handler of any client. *)
Definition candidateIDFromHandler (handlerID clientID : string) : string :=
  if str_eqb handlerID EmptyString then EmptyString
  else match cut "-profile-" handlerID with
       | None => CandidateIDFromVLESSHandler handlerID
       | Some (candidateID, suffix) =>
           match cut "-client-" suffix with
           | Some (_, boundClientID) =>
               if str_eqb candidateID EmptyString || str_eqb boundClientID EmptyString ||
                  (negb (str_eqb clientID EmptyString) && negb (str_eqb boundClientID clientID))
               then EmptyString else candidateID
           | None => EmptyString
           end
       end.

(** ** Round trip *)

Lemma hex_text c bytes : In c ["l"; "-"]%char -> Forall (fun b => 0 <= b < 256) bytes ->
  contains_char c (hex_encode bytes) = false /\
  String.length (hex_encode bytes) = (2 * length bytes)%nat.
Proof.
  intros Hc. unfold contains_char, hex_encode. rewrite list_ascii_of_string_of_list_ascii.
  induction 1 as [|b bytes Hb _ [IH1 IH2]]; [done|].
  assert (forall d, 0 <= d < 16 -> Ascii.eqb c (hex_digit d) = false) as Hd.
  { intros d Hd. assert (In d (map Z.of_nat (seq 0 16))) as Hin.
    { apply in_map_iff. exists (Z.to_nat d). split; [lia|]. apply in_seq. lia. }
    destruct Hc as [<-|[<-|[]]]; cbn in Hin; destruct_or? Hin; try done; subst; reflexivity. }
  pose proof (Z.mod_pos_bound b 16 ltac:(lia)).
  pose proof (Z.div_lt_upper_bound b 16 16 ltac:(lia) ltac:(lia)).
  pose proof (Z.div_pos b 16 ltac:(lia) ltac:(lia)).
  cbn [flat_map app existsb string_of_list_ascii String.length length].
  rewrite (Hd (b / 16)), (Hd (b `mod` 16)), IH1, IH2 by lia. split; [done|lia].
Qed.

Lemma decimal_no_dash z : 0 <= z -> contains_char "-" (decimal z) = false.
Proof.
  intros Hz. destruct (decimal_spec z Hz) as [Hd _]. revert Hd. unfold contains_char.
  induction (decimal z) as [|c s IH]; [done|]. cbn [all_digits list_ascii_of_string existsb].
  intros [Hc Hs]%andb_true_iff. rewrite (IH Hs), orb_false_r.
  destruct (Ascii.eqb "-" c) eqn:E; [|done]. apply Ascii.eqb_eq in E. by subst.
Qed.

Lemma decimal_nonempty z : 0 <= z -> decimal z <> EmptyString.
Proof.
  intros Hz E. pose proof (decimal_inj 0 z) as H0.
  destruct (decide (z = 0)) as [->|Hn]; [discriminate E|].
  destruct (decimal_spec z Hz) as [_ Hv]. rewrite E in Hv. simpl in Hv. lia.
Qed.

(** The client begins after the profile identity, whatever follows. *)
Lemma cut_client z h client : 0 <= z -> contains_char "l" h = false ->
  (2 <= String.length h)%nat -> contains_char "-" h = false ->
  cut "-client-" (decimal z ++ "-" ++ h ++ "-client-" ++ client) =
    Some ((decimal z ++ "-" ++ h)%string, client).
Proof.
  intros Hz Hl Hlen Hd.
  rewrite (cut_skip "-" "client-" (decimal z) _ (decimal_no_dash z Hz)).
  destruct h as [|x [|y h]]; [simpl in Hlen; lia|simpl in Hlen; lia|].
  change ("-" ++ String x (String y h) ++ "-client-" ++ client)%string
    with (String "-" (String x (String y h) ++ "-client-" ++ client))%string.
  rewrite cut_next.
  - rewrite (cut_skip "-" "client-" (String x (String y h)) _ Hd), cut_here. cbn [option_map].
    by rewrite str_app_nil_r.
  - unfold contains_char in Hl. cbn [list_ascii_of_string existsb] in Hl.
    rewrite !orb_false_iff in Hl. destruct Hl as (_ & Hy & _).
    change (has_prefix "-client-" _) with
      (Ascii.eqb "c" x && (Ascii.eqb "l" y && has_prefix "ient-" (h ++ "-client-" ++ client))).
    rewrite Hy. apply andb_false_r.
Qed.

Lemma trim_skip c suffix s t : contains_char c s = false ->
  trim_suffix (String c suffix) (s ++ t) = (s ++ trim_suffix (String c suffix) t)%string.
Proof.
  unfold contains_char. induction s as [|a s IH]; [done|]. cbn [list_ascii_of_string existsb].
  rewrite orb_false_iff. intros [Ha Hs].
  change (String a s ++ t)%string with (String a (s ++ t)). cbn [trim_suffix].
  destruct (str_eqb _ _) eqn:E.
  - str_bool. injection E as -> _. by rewrite Ascii.eqb_refl in Ha.
  - rewrite (IH Hs). reflexivity.
Qed.

Lemma cut_profile candidate t : contains_char "-" candidate = false ->
  cut "-profile-" (candidate ++ "-profile-" ++ t) = Some (candidate, t).
Proof.
  intros Hc. rewrite (cut_skip "-" "profile-" candidate _ Hc), cut_here. cbn [option_map].
  by rewrite str_app_nil_r.
Qed.

Lemma tor_handler_parts candidate profile client :
  contains_char "-" candidate = false -> 0 <= p_Slot profile ->
  exists h, contains_char "-" h = false /\
    cut "-profile-" (torProfileOutboundID candidate profile client) =
      Some (candidate, (decimal (p_Slot profile) ++ "-" ++ h ++ "-client-" ++ client)%string) /\
    cut "-client-" (decimal (p_Slot profile) ++ "-" ++ h ++ "-client-" ++ client) =
      Some ((decimal (p_Slot profile) ++ "-" ++ h)%string, client).
Proof.
  intros Hc Hz. unfold torProfileOutboundID.
  set (identity := sha256 _). exists (hex_encode (take 6 identity)).
  assert (Forall (fun b => 0 <= b < 256) (take 6 identity)) as Hr
    by apply Forall_take, sha256_range.
  destruct (hex_text "-" _ ltac:(simpl; auto) Hr) as [Hd Hlen].
  destruct (hex_text "l" _ ltac:(simpl; auto) Hr) as [Hl _].
  split; [done|]. split; [by apply cut_profile|]. apply cut_client; [done..| |done].
  rewrite Hlen, length_take. unfold identity. rewrite sha256_length. simpl. lia.
Qed.

Lemma vless_handler_parts `{Links} candidate payload : contains_char "-" candidate = false ->
  CandidateIDFromVLESSHandler (VLESSHandlerID candidate payload) = candidate /\
  cut "-profile-" (VLESSHandlerID candidate payload) = None.
Proof.
  intros Hc. assert (exists t, VLESSHandlerID candidate payload = (candidate ++ t)%string /\
    In t [EmptyString; visionStandardHandlerSuffix]) as (t & -> & Ht).
  { unfold VLESSHandlerID. destruct (flow_of payload) as [flow|]; [destruct (str_eqb _ _)|].
    - eexists. split; [reflexivity|]. simpl. auto.
    - exists EmptyString. rewrite str_app_nil_r. simpl. auto.
    - exists EmptyString. rewrite str_app_nil_r. simpl. auto. }
  unfold CandidateIDFromVLESSHandler, visionUDP443HandlerSuffix, visionStandardHandlerSuffix.
  rewrite !(trim_skip "-" _ candidate _ Hc), (cut_skip "-" "profile-" candidate _ Hc).
  destruct Ht as [<-|[<-|[]]]; (split; [|reflexivity]); apply str_app_nil_r.
Qed.

(** C29.  The names of handlers can be read back, by every component in the same
    way.  For a candidate identifier without a dash (the store's are [cand_]
    and hexadecimal digits), a slot of 31 bits and a named client: the handler of a
    link gives back its candidate and is no Tor handler; the handler of a Tor
    profile is admitted by the store with its candidate and client, gives the
    candidate to the recovery ledger, to retirement and to the controller, and
    gives the controller nothing when it asks for another client. *)
Theorem handler_names_round_trip `{Links} candidate payload profile client :
  contains_char "-" candidate = false -> candidate <> EmptyString ->
  0 <= p_Slot profile < 2 ^ 31 -> client <> EmptyString ->
  let link := VLESSHandlerID candidate payload in
  let tor := torProfileOutboundID candidate profile client in
  (CandidateIDFromVLESSHandler link = candidate /\ recoveryCandidateID link = candidate /\
   normalizePersistedCandidateID link = candidate /\ parseTorPlanHandler link = None /\
   forall c, candidateIDFromHandler link c = candidate) /\
  parseTorPlanHandler tor = Some (candidate, client) /\ recoveryCandidateID tor = candidate /\
  normalizePersistedCandidateID tor = candidate /\
  forall c, candidateIDFromHandler tor c =
    if str_eqb c EmptyString || str_eqb client c then candidate else EmptyString.
Proof.
  intros Hc Hne Hslot Hcl link tor.
  destruct (vless_handler_parts candidate payload Hc) as [H1 H2].
  destruct (tor_handler_parts candidate profile client Hc ltac:(lia)) as (h & Hh & H3 & H4).
  fold link in H1, H2. fold tor in H3.
  apply str_eqb_neq in Hne, Hcl. pose proof (decimal_spec (p_Slot profile) ltac:(lia)) as [Hd Hv].
  unfold recoveryCandidateID, normalizePersistedCandidateID, parseTorPlanHandler,
    candidateIDFromHandler.
  rewrite H2, H3, H4, Hne, Hcl. split.
  - split_and!; try done. intros c. destruct (str_eqb link EmptyString) eqn:E; [|done].
    str_bool. rewrite E in H1. by rewrite <- H1 in Hne.
  - assert (str_eqb tor EmptyString = false) as ->.
    { apply str_eqb_neq. intros E. rewrite E in H3. discriminate. }
    rewrite (cut_skip "-" EmptyString _ _ (decimal_no_dash (p_Slot profile) ltac:(lia))).
    change ("-" ++ h)%string with (String "-" EmptyString ++ h)%string. rewrite cut_here.
    cbn [option_map]. rewrite str_app_nil_r.
    destruct (str_eqb (decimal _ ++ _) EmptyString) eqn:E.
    { str_bool. destruct (decimal (p_Slot profile)) eqn:Ed; [|discriminate].
      by apply decimal_nonempty in Ed; [|lia]. }
    unfold parse_uint. rewrite Hd, Hv.
    destruct (str_eqb (decimal (p_Slot profile)) EmptyString) eqn:E'.
    { str_bool. by apply decimal_nonempty in E'; [|lia]. }
    destruct (p_Slot profile <? 2 ^ 31) eqn:Eb; z_bool; [|lia].
    split_and!; try done. intros c. cbn [orb].
    destruct (str_eqb c EmptyString), (str_eqb client c); done.
Qed.

Definition sample_links : Links := fun payload =>
  if contains payload "flow=vision" then Some "xtls-rprx-vision"%string else Some EmptyString.

Definition sample_profile : Profile := {|
  p_Slot := 2; p_Role := "warm"; p_CandidateID := "cand_b"; p_SocksAddr := "127.0.0.1:9050";
  p_DataDir := "/data"; p_Retiring := false |}.

Lemma handler_names_round_trip_witness :
  parseTorPlanHandler (torProfileOutboundID "cand_b" sample_profile "alice") =
    Some ("cand_b", "alice")%string.
Proof.
  apply (@handler_names_round_trip sample_links "cand_b" "vless://a?flow=vision" sample_profile
           "alice"); try discriminate; [reflexivity|split; [discriminate|reflexivity]].
Defined.

(** * Egress country

    Where a route leaves the Internet (sources/country.go): the text of a label and
    the host of a link tell a Russian egress. *)

#[local] Open Scope string_scope.

(** What the text matching uses of the standard library: [strings.ToLower], the
    removal of [(?i)sni-[^\s|]+], and the host of a link ([net/url]), none when the
    link does not parse. *)
Class TextLib : Type := {
  to_lower : string -> string;
  without_sni : string -> string;
  hostname : string -> option string
}.

Definition ruCIDRMarkers : list string := [
  "cidr-yandex"; "cidr-vk"; "cidr-regru"; "cidr-ihc"; "cidr-selectel"; "cidr-mts";
  "cidr-megafon"; "cidr-beeline"; "cidr-rostelecom"; "cidr-vdsina"; "cidr-timeweb"; "cidr-sweb"].

Definition ruProviders : list string := [
  "selectel"; "timeweb"; "vdsina"; "firstvds"; "ihc.ru"; "rostelecom"; "ростелеком"; "reg.ru";
  "beget"; "sweb.ru"].

Definition ruCities : list string := [
  "moscow"; "москва"; "saint petersburg"; "st. petersburg"; "санкт-петербург"; "питер";
  "novosibirsk"; "новосибирск"; "ekaterinburg"; "yekaterinburg"; "екатеринбург"; "kazan"; "казань";
  "nizhny novgorod"; "нижний новгород"; "samara"; "самара"; "omsk"; "омск"; "chelyabinsk";
  "челябинск"; "rostov"; "ростов"; "ufa"; "уфа"; "krasnoyarsk"; "красноярск"; "voronezh";
  "воронеж"; "perm"; "пермь"; "volgograd"; "волгоград"; "krasnodar"; "краснодар"].

Definition country_names : list string := ["russia"; "россия"; "российская"].

Definition country_codes : list string := [
  " ru "; " ru|"; "|ru|"; "| ru |"; "[ru]"; "(ru)"; " ru-"; "-ru-"; " ru/"; "/ru/"; " ru_"; "_ru_";
  " ru:"; ":ru:"; "ru /"; "ru / "; "ru - "].

Definition code_prefixes : list string := ["ru "; "ru-"; "ru|"; "ru/"].
Definition code_suffixes : list string := [" ru"; "|ru"; "-ru"; "[ru]"].

Definition host_suffixes : list string := [".ru"; ".su"; ".xn--p1ai"].
Definition host_providers : list string := [
  "beget"; "selectel"; "timeweb"; "reg.ru"; "sweb.ru"; "vdsina"; "firstvds"; "ihc.ru"; "rostelecom";
  "megafon"; "mts.ru"; "yandex"; "yccdn"; "ya.ru"; "vk.com"; "vkcloud"; "mail.ru"; "mcufa.pro"].

Definition isWordDelimiter (c : ascii) : bool := contains_char c " |_-/,.:;()[]".

(** [strings.HasSuffix]. *)
Definition has_suffix (suffix s : string) : bool :=
  (String.length suffix <=? String.length s)%nat &&
  str_eqb (str_drop (String.length s - String.length suffix) s) suffix.

Definition any_in (s : string) (parts : list string) : bool := existsb (contains s) parts.

Definition first_delimits (s : string) : bool :=
  match s with EmptyString => true | String c _ => isWordDelimiter c end.

Fixpoint last_char (s : string) (c : option ascii) : option ascii :=
  match s with EmptyString => c | String c s => last_char s (Some c) end.

Definition last_delimits (s : string) (prev : option ascii) : bool :=
  match last_char s prev with None => true | Some c => isWordDelimiter c end.

(** The loop over the places of a city, one after the end of the other; [prev] is the
    byte before the rest that is searched. *)
Fixpoint city_loop (fuel : nat) (city : string) (prev : option ascii) (rest : string) : bool :=
  match fuel with
  | O => false
  | S fuel =>
      match cut city rest with
      | None => false
      | Some (pre, post) =>
          last_delimits pre prev && first_delimits post ||
          city_loop fuel city (last_char city None) post
      end
  end.

(** A city takes at least one byte, and so the loop at most one turn per byte. *)
Definition city_in (label city : string) : bool :=
  city_loop (S (String.length label)) city None label.

Section Egress.
Context `{TextLib}.

Definition label_tells (label lower : string) : bool :=
  contains label "🇷🇺" || any_in lower country_names || any_in lower country_codes ||
  existsb (fun p => has_prefix p lower) code_prefixes ||
  existsb (fun p => has_suffix p lower) code_suffixes ||
  any_in lower ruCIDRMarkers || any_in (without_sni lower) ruProviders ||
  existsb (city_in lower) ruCities.

Definition payload_tells (payload : string) : bool :=
  if has_prefix "vless://" payload then
    match hostname payload with
    | Some host =>
        let host := to_lower host in
        existsb (fun p => has_suffix p host) host_suffixes || any_in host host_providers
    | None => false
    end
  else false.

Definition IsRussianEgress (label payload : string) : bool :=
  label_tells label (to_lower label) || payload_tells payload.
End Egress.
