(* ===== verification/TournamentState.v ===== *)
(** The probe state of one candidate in the tournament
    (internal/tournament/state.go): how a fast or full probe result moves its
    status, streaks, ban and scores, and the expiry of the observation window. *)
From S2P Require Import Prelude GoOrder GoFloat.

#[local] Open Scope Z_scope.

Inductive Status :=
| StatusUnknown | StatusPreflight | StatusProbing | StatusQualified
| StatusBanned | StatusDraining.

Inductive ProbeStage := ProbeFast | ProbeFull.

Inductive ProbeOutcome :=
| ProbeSuccess | ProbeCandidateFailure | ProbeInfrastructureFailure.

#[export] Instance Status_eq_dec : EqDecision Status.
Proof. solve_decision. Defined.
#[export] Instance ProbeStage_eq_dec : EqDecision ProbeStage.
Proof. solve_decision. Defined.
#[export] Instance ProbeOutcome_eq_dec : EqDecision ProbeOutcome.
Proof. solve_decision. Defined.

Record ProbeResult := {
  r_Stage : ProbeStage;
  r_Outcome : ProbeOutcome;
  r_Score : float;
  r_ErrorCode : string;
  r_ErrorMessage : string
}.

Record State := {
  s_Fingerprint : string;
  s_Status : Status;
  s_FailureStreak : Z;
  s_FullSuccessStreak : Z;
  s_WindowStartedAt : Time;
  s_BannedUntil : Time;
  s_LastFastProbeAt : Time;
  s_LastFullProbeAt : Time;
  s_LastSuccessAt : Time;
  s_LastFailureAt : Time;
  s_LastErrorCode : string;
  s_LastErrorMessage : string;
  s_LastScore : float;
  s_ConservativeScore : float;
  s_Stale : bool;
  s_UpdatedAt : Time
}.

#[export] Instance State_eta : Eta State := fun s =>
  Build_State (s_Fingerprint s) (s_Status s) (s_FailureStreak s)
    (s_FullSuccessStreak s) (s_WindowStartedAt s) (s_BannedUntil s)
    (s_LastFastProbeAt s) (s_LastFullProbeAt s) (s_LastSuccessAt s)
    (s_LastFailureAt s) (s_LastErrorCode s) (s_LastErrorMessage s)
    (s_LastScore s) (s_ConservativeScore s) (s_Stale s) (s_UpdatedAt s).

Definition minimum (left right : float) : float :=
  if PrimFloat.ltb left right then left else right.

Definition ResetIfExpired (state : State) (now : Time) (window : Duration) : State :=
  if (window <=? 0) || time_is_zero (s_WindowStartedAt state) ||
     before now (time_add (s_WindowStartedAt state) window)
  then state
  else
    let state := state <| s_FailureStreak := 0 |>
                       <| s_WindowStartedAt := now |>
                       <| s_BannedUntil := zero_time |> in
    let state :=
      if decide (s_Status state = StatusQualified) then state
      else state <| s_Status := StatusUnknown |>
                 <| s_FullSuccessStreak := 0 |>
                 <| s_Stale := true |> in
    state <| s_UpdatedAt := now |>.

(** The three outcomes of [ApplyProbe]. *)
Definition apply_infrastructure (state : State) (result : ProbeResult) (now : Time) : State :=
  let state :=
    match r_Stage result with
    | ProbeFull => state <| s_LastFullProbeAt := now |>
    | ProbeFast => state <| s_LastFastProbeAt := now |>
    end in
  state <| s_LastErrorCode := r_ErrorCode result |>
        <| s_LastErrorMessage := r_ErrorMessage result |>
        <| s_UpdatedAt := now |>.

Definition apply_candidate_failure (state : State) (result : ProbeResult)
    (now : Time) (window : Duration) : State :=
  let state :=
    match r_Stage result with
    | ProbeFast => state <| s_LastFastProbeAt := now |>
    | ProbeFull => state <| s_LastFullProbeAt := now |>
    end in
  let state := state <| s_FailureStreak := s_FailureStreak state + 1 |>
                     <| s_FullSuccessStreak := 0 |>
                     <| s_LastFailureAt := now |>
                     <| s_LastErrorCode := r_ErrorCode result |>
                     <| s_LastErrorMessage := r_ErrorMessage result |>
                     <| s_Stale := true |> in
  let state :=
    if 3 <=? s_FailureStreak state
    then state <| s_Status := StatusBanned |>
               <| s_BannedUntil := time_add (s_WindowStartedAt state) window |>
    else state <| s_Status := StatusUnknown |> in
  state <| s_UpdatedAt := now |>.

Definition apply_success (state : State) (result : ProbeResult) (now : Time) : State :=
  let state := state <| s_LastSuccessAt := now |>
                     <| s_LastErrorCode := EmptyString |>
                     <| s_LastErrorMessage := EmptyString |> in
  match r_Stage result with
  | ProbeFast =>
      let state := state <| s_LastFastProbeAt := now |> in
      let state :=
        if decide (s_Status state = StatusQualified) then state
        else state <| s_Status := StatusPreflight |> in
      state <| s_UpdatedAt := now |>
  | ProbeFull =>
      let previousScore := s_LastScore state in
      let previousSuccesses := s_FullSuccessStreak state in
      let state := state <| s_FailureStreak := 0 |>
                         <| s_FullSuccessStreak := s_FullSuccessStreak state + 1 |>
                         <| s_LastFullProbeAt := now |>
                         <| s_LastScore := r_Score result |>
                         <| s_Stale := false |> in
      let state :=
        if 0 <? previousSuccesses
        then state <| s_ConservativeScore := minimum previousScore (r_Score result) |>
        else state in
      let state :=
        if 2 <=? s_FullSuccessStreak state
        then state <| s_Status := StatusQualified |>
        else state <| s_Status := StatusPreflight |> in
      state <| s_UpdatedAt := now |>
  end.

Definition ApplyProbe (state : State) (result : ProbeResult) (now : Time)
    (window : Duration) : State :=
  match r_Outcome result with
  | ProbeInfrastructureFailure => apply_infrastructure state result now
  | outcome =>
      let state := ResetIfExpired state now window in
      let state :=
        if time_is_zero (s_WindowStartedAt state)
        then state <| s_WindowStartedAt := now |> else state in
      match outcome with
      | ProbeCandidateFailure => apply_candidate_failure state result now window
      | _ => apply_success state result now
      end
  end.

(** ** Histories

    A history lists the probe results with their times, newest first. *)

Definition initial (s : State) : Prop :=
  s_Status s = StatusUnknown /\ s_FailureStreak s = 0 /\ s_FullSuccessStreak s = 0.

Fixpoint run (window : Duration) (s0 : State) (history : list (ProbeResult * Time)) : State :=
  match history with
  | [] => s0
  | (result, now) :: earlier => ApplyProbe (run window s0 earlier) result now window
  end.

(** Full successes since the last candidate failure. *)
Fixpoint full_streak (history : list (ProbeResult * Time)) : Z :=
  match history with
  | [] => 0
  | (result, _) :: earlier =>
      match r_Outcome result, r_Stage result with
      | ProbeCandidateFailure, _ => 0
      | ProbeSuccess, ProbeFull => full_streak earlier + 1
      | _, _ => full_streak earlier
      end
  end.

(** Candidate failures since the last full success. *)
Fixpoint failure_streak (history : list (ProbeResult * Time)) : Z :=
  match history with
  | [] => 0
  | (result, _) :: earlier =>
      match r_Outcome result, r_Stage result with
      | ProbeCandidateFailure, _ => failure_streak earlier + 1
      | ProbeSuccess, ProbeFull => 0
      | _, _ => failure_streak earlier
      end
  end.

(** The invariant of a probe state under a history. *)
Record state_ok (window : Duration) (history : list (ProbeResult * Time))
    (s : State) : Prop := {
  ok_failures : 0 <= s_FailureStreak s <= failure_streak history;
  ok_successes : 0 <= s_FullSuccessStreak s <= full_streak history;
  ok_qualified : s_Status s = StatusQualified ->
    2 <= s_FullSuccessStreak s /\ s_FailureStreak s = 0 /\ s_Stale s = false;
  ok_banned : s_Status s = StatusBanned ->
    3 <= s_FailureStreak s /\ s_FullSuccessStreak s = 0 /\ s_Stale s = true /\
    s_BannedUntil s = time_add (s_WindowStartedAt s) window
}.

Lemma streaks_nonneg history : 0 <= failure_streak history /\ 0 <= full_streak history.
Proof.
  induction history as [|[[[] [] ? ? ?] t] l IH]; simpl; lia.
Qed.

(** [solve_state] splits the branches of a transition and closes the record
    obligations. *)
Ltac solve_state :=
  repeat (simpl in *; case_decide || case_match);
  simpl in *; z_bool; constructor; simpl in *; intuition (congruence || lia).

Lemma ResetIfExpired_ok window history s now :
  state_ok window history s -> state_ok window history (ResetIfExpired s now window).
Proof.
  pose proof (streaks_nonneg history). intros [? ? ? ?]. unfold ResetIfExpired. solve_state.
Qed.

Lemma ApplyProbe_ok window history s result now :
  state_ok window history s ->
  state_ok window ((result, now) :: history) (ApplyProbe s result now window).
Proof.
  intros Hok. pose proof (streaks_nonneg history).
  destruct result as [stage outcome score code msg].
  pose proof (ResetIfExpired_ok window history s now Hok) as Hr.
  unfold ApplyProbe. cbn [r_Outcome].
  destruct outcome; [| |destruct Hok, stage; constructor; simpl; auto; lia];
    set (s1 := ResetIfExpired s now window) in *; clearbody s1; destruct Hr as [? ? ? ?];
    unfold apply_candidate_failure, apply_success; cbn [r_Stage r_Score];
    destruct stage; solve_state.
Qed.

Lemma run_ok window s0 history :
  initial s0 -> state_ok window history (run window s0 history).
Proof.
  intros (Hs & Hf & Hc). induction history as [|[result now] history IH].
  - constructor; simpl; [lia|lia|congruence|congruence].
  - by apply ApplyProbe_ok.
Qed.

(** ** Scores *)

(** Scores of the full successes since the last candidate failure. *)
Fixpoint full_scores (history : list (ProbeResult * Time)) : list float :=
  match history with
  | [] => []
  | (result, _) :: earlier =>
      match r_Outcome result, r_Stage result with
      | ProbeCandidateFailure, _ => []
      | ProbeSuccess, ProbeFull => r_Score result :: full_scores earlier
      | _, _ => full_scores earlier
      end
  end.

Lemma full_scores_length history :
  Z.of_nat (length (full_scores history)) = full_streak history.
Proof. induction history as [|[[[] [] ? ? ?] t] l IH]; simpl; lia. Qed.

(** The scores a state keeps are those of its latest full successes. *)
Definition scores_ok (history : list (ProbeResult * Time)) (s : State) : Prop :=
  match full_scores history with
  | [] => True
  | last :: previous =>
      (0 < s_FullSuccessStreak s -> s_LastScore s = last) /\
      (2 <= s_FullSuccessStreak s ->
       exists score rest, previous = score :: rest /\
         s_ConservativeScore s = minimum score last)
  end.

Lemma ResetIfExpired_scores history s now window :
  0 <= s_FullSuccessStreak s ->
  scores_ok history s -> scores_ok history (ResetIfExpired s now window).
Proof.
  unfold scores_ok, ResetIfExpired. intros Hs Hok.
  destruct (full_scores history); [done|].
  case_match; [done|]. simpl. case_decide; simpl; [done|]. split; lia.
Qed.

Lemma ResetIfExpired_streak s now window :
  s_FullSuccessStreak (ResetIfExpired s now window) = s_FullSuccessStreak s \/
  s_FullSuccessStreak (ResetIfExpired s now window) = 0.
Proof. unfold ResetIfExpired. case_match; [by left|]. simpl. case_decide; auto. Qed.

Lemma apply_success_scores history s result now :
  r_Outcome result = ProbeSuccess -> 0 <= s_FullSuccessStreak s <= full_streak history ->
  scores_ok history s -> scores_ok ((result, now) :: history) (apply_success s result now).
Proof.
  rewrite <- full_scores_length.
  intros Ho Hs Hok. unfold scores_ok, apply_success in *. simpl. rewrite Ho.
  destruct (r_Stage result).
  - destruct (full_scores history); [done|]. simpl. by case_decide.
  - destruct (0 <? s_FullSuccessStreak s) eqn:E; simpl; z_bool;
      destruct (2 <=? s_FullSuccessStreak s + 1); simpl; (split; [done|intros]); try lia.
    all: destruct (full_scores history) as [|prev rest]; simpl in *; try lia.
    all: exists prev, rest; split; [done|]; by destruct Hok as [-> _].
Qed.

Lemma ApplyProbe_scores window history s result now :
  state_ok window history s -> scores_ok history s ->
  scores_ok ((result, now) :: history) (ApplyProbe s result now window).
Proof.
  intros Hok Hsc.
  pose proof (ResetIfExpired_scores history s now window (proj1 (ok_successes _ _ _ Hok)) Hsc).
  pose proof (ResetIfExpired_ok window history s now Hok) as [_ Hlen _ _].
  unfold ApplyProbe. destruct (r_Outcome result) eqn:Ho.
  - apply apply_success_scores; [done| |]; by destruct (time_is_zero _).
  - unfold scores_ok. cbn [full_scores]. rewrite Ho. exact I.
  - unfold scores_ok in *. cbn [full_scores]. rewrite Ho. unfold apply_infrastructure.
    destruct (full_scores history); [exact I|]. by destruct (r_Stage result).
Qed.

Lemma run_scores window s0 history :
  initial s0 -> scores_ok history (run window s0 history).
Proof.
  intros Hi. induction history as [|[result now] history IH]; [done|].
  apply ApplyProbe_scores; [by apply run_ok|done].
Qed.

(** A candidate is qualified only on evidence: since its last candidate
    failure it has at least two full successes, it is not stale, it carries no
    failure, and the conservative score is the lower of the latest two
    full-probe scores, whatever fast probes, infrastructure failures and window
    expiries lie between. *)
Theorem qualified_on_two_full_successes window s0 history :
  initial s0 ->
  s_Status (run window s0 history) = StatusQualified ->
  s_FailureStreak (run window s0 history) = 0 /\
  s_Stale (run window s0 history) = false /\
  exists last score rest,
    full_scores history = last :: score :: rest /\
    s_LastScore (run window s0 history) = last /\
    s_ConservativeScore (run window s0 history) = minimum score last.
Proof.
  intros Hi Hq. destruct (run_ok window s0 history Hi) as [_ Hs Hqual _].
  destruct (Hqual Hq) as (H2 & Hf & Hst). split; [done|]. split; [done|].
  pose proof (run_scores window s0 history Hi) as Hsc. unfold scores_ok in Hsc.
  pose proof (full_scores_length history) as Hl.
  destruct (full_scores history) as [|last previous]; simpl in Hl; [lia|].
  destruct Hsc as [Hlast Hcons]. destruct (Hcons H2) as (score & rest & -> & Hc).
  exists last, score, rest. split; [done|]. split; [apply Hlast; lia|done].
Qed.

(** ** Inside one window *)

(** The abstract tournament machine of a window: what the status is after a
    history, from the counts alone. *)
Fixpoint status_of (history : list (ProbeResult * Time)) : Status :=
  match history with
  | [] => StatusUnknown
  | (result, _) :: earlier =>
      match r_Outcome result, r_Stage result with
      | ProbeInfrastructureFailure, _ => status_of earlier
      | ProbeCandidateFailure, _ =>
          if 3 <=? failure_streak history then StatusBanned else StatusUnknown
      | ProbeSuccess, ProbeFull =>
          if 2 <=? full_streak history then StatusQualified else StatusPreflight
      | ProbeSuccess, ProbeFast =>
          if decide (status_of earlier = StatusQualified) then StatusQualified
          else StatusPreflight
      end
  end.

Definition within (start : Time) (window : Duration)
    (history : list (ProbeResult * Time)) : Prop :=
  Forall (fun e => start <= e.2 < start + window) history.

Lemma ResetIfExpired_within s start window now :
  s_WindowStartedAt s = start -> now < start + window ->
  ResetIfExpired s now window = s.
Proof.
  intros <- Hn. unfold ResetIfExpired, before, time_add.
  rewrite (proj2 (Z.ltb_lt now (s_WindowStartedAt s + window)) Hn). by rewrite orb_true_r.
Qed.

(** Inside one observation window the state machine implements the
    abstract tournament: the streaks are the counts of the history, the status
    is [status_of] the history (three candidate failures with no full success
    between them ban, two full successes with no failure between them
    qualify), and a banned candidate is banned exactly until the window ends. *)
Theorem window_refines_tournament window start s0 history :
  initial s0 -> s_WindowStartedAt s0 = start -> 0 < start ->
  within start window history ->
  let s := run window s0 history in
  s_Status s = status_of history /\
  s_FailureStreak s = failure_streak history /\
  s_FullSuccessStreak s = full_streak history /\
  s_WindowStartedAt s = start /\
  (s_Status s = StatusBanned -> s_BannedUntil s = start + window).
Proof.
  intros Hi Hstart Hpos. induction 1 as [|[result now] history Ht Hw IH].
  { destruct Hi as (H1 & H2 & H3). simpl. rewrite H1, H2, H3. done. }
  cbn [run]. cbn zeta in *. simpl in Ht.
  pose proof (run_ok window s0 ((result, now) :: history) Hi) as [_ _ _ Hban].
  cbn [run] in Hban. unfold time_add in Hban.
  set (s := run window s0 history) in *. clearbody s.
  destruct IH as (Hst & Hf & Hc & Hwin & _).
  assert (s_WindowStartedAt (ApplyProbe s result now window) = start /\
    s_Status (ApplyProbe s result now window) = status_of ((result, now) :: history) /\
    s_FailureStreak (ApplyProbe s result now window) = failure_streak ((result, now) :: history) /\
    s_FullSuccessStreak (ApplyProbe s result now window) = full_streak ((result, now) :: history))
    as (H1 & H2 & H3 & H4).
  { clear Hban. unfold ApplyProbe.
    rewrite (ResetIfExpired_within s start) by (done || lia).
    unfold time_is_zero. rewrite (proj2 (Z.eqb_neq (s_WindowStartedAt s) 0)) by lia.
    destruct result as [[] [] ? ? ?]; unfold apply_infrastructure,
      apply_candidate_failure, apply_success; simpl; rewrite ?Hst, ?Hf, ?Hc;
      repeat (case_match || case_decide); simpl in *; z_bool; split_and!;
      (done || lia || congruence). }
  split_and!; try done. intros Hb. destruct (Hban Hb) as (_ & _ & _ & ->). by rewrite H1.
Qed.

(** ** Concrete histories *)

Definition sample_state : State :=
  {| s_Fingerprint := "vless-a"; s_Status := StatusUnknown; s_FailureStreak := 0;
     s_FullSuccessStreak := 0; s_WindowStartedAt := 1000; s_BannedUntil := 0;
     s_LastFastProbeAt := 0; s_LastFullProbeAt := 0; s_LastSuccessAt := 0;
     s_LastFailureAt := 0; s_LastErrorCode := EmptyString; s_LastErrorMessage := EmptyString;
     s_LastScore := 0; s_ConservativeScore := 0; s_Stale := false; s_UpdatedAt := 0 |}.

Definition sample_probe (stage : ProbeStage) (outcome : ProbeOutcome) (score : float) :
    ProbeResult :=
  {| r_Stage := stage; r_Outcome := outcome; r_Score := score;
     r_ErrorCode := "timeout"; r_ErrorMessage := "probe timed out" |}.

(** A failure, a fast success, a full success, a lost probe and a second full
    success with a lower score. *)
Definition sample_recovery : list (ProbeResult * Time) :=
  [ (sample_probe ProbeFull ProbeSuccess 84, 1050);
    (sample_probe ProbeFull ProbeInfrastructureFailure 0, 1040);
    (sample_probe ProbeFull ProbeSuccess 91, 1030);
    (sample_probe ProbeFast ProbeSuccess 0, 1020);
    (sample_probe ProbeFast ProbeCandidateFailure 0, 1010) ].

Definition sample_failures : list (ProbeResult * Time) :=
  [ (sample_probe ProbeFull ProbeCandidateFailure 0, 1030);
    (sample_probe ProbeFast ProbeCandidateFailure 0, 1020);
    (sample_probe ProbeFast ProbeSuccess 0, 1010);
    (sample_probe ProbeFast ProbeCandidateFailure 0, 1000) ].

Lemma qualified_on_two_full_successes_witness :
  s_Status (run 500 sample_state sample_recovery) = StatusQualified /\
  exists last score rest,
    full_scores sample_recovery = last :: score :: rest /\
    s_LastScore (run 500 sample_state sample_recovery) = last /\
    s_ConservativeScore (run 500 sample_state sample_recovery) = minimum score last.
Proof.
  split; [vm_compute; reflexivity|].
  apply (qualified_on_two_full_successes 500 sample_state sample_recovery).
  - split_and!; reflexivity.
  - vm_compute; reflexivity.
Defined.

Lemma window_refines_tournament_witness :
  s_Status (run 500 sample_state sample_failures) = StatusBanned /\
  s_BannedUntil (run 500 sample_state sample_failures) = 1500.
Proof.
  pose proof (window_refines_tournament 500 1000 sample_state sample_failures) as H.
  destruct H as (Hs & _ & _ & _ & Hb).
  - split_and!; reflexivity.
  - reflexivity.
  - reflexivity.
  - repeat constructor; simpl; lia.
  - split; [exact Hs|]. apply Hb. exact Hs.
Defined.
