(* ===== verification/TournamentPool.v ===== *)
(** Selection of the working pool (internal/tournament/selector.go): which
    candidates are active, which assigned ones drain, and the promotion ratio
    a challenger must beat to replace the worst member. *)
From S2P Require Import Prelude GoOrder GoFloat GoSort TournamentState.

#[local] Open Scope Z_scope.

Record Candidate := {
  c_Fingerprint : string;
  c_Status : Status;
  c_FullSuccessStreak : Z;
  c_ConservativeScore : float;
  c_InWorkingPool : bool;
  c_Assigned : bool;
  c_Draining : bool;
  c_Stale : bool;
  c_NearBoundary : bool;
  c_BannedUntil : Time;
  c_WindowStartedAt : Time;
  c_LastFastProbeAt : Time;
  c_LastFullProbeAt : Time
}.

Record SelectionPolicy := {
  PoolSize : Z;
  PromotionRatio : float;
  Now : Time
}.

Record Selection := {
  Active : list string;
  Draining : list string
}.

Definition score_less (left right : Candidate) : bool :=
  if PrimFloat.eqb (c_ConservativeScore left) (c_ConservativeScore right)
  then str_ltb (c_Fingerprint left) (c_Fingerprint right)
  else fgt (c_ConservativeScore left) (c_ConservativeScore right).

Definition sortByScoreDescending (candidates : list Candidate) : list Candidate :=
  sort_slice score_less candidates.

Definition pool_eligible (policy : SelectionPolicy) (candidate : Candidate) : bool :=
  bool_decide (c_Status candidate = StatusQualified) &&
  (2 <=? c_FullSuccessStreak candidate) &&
  (time_is_zero (c_BannedUntil candidate) ||
   negb (before (Now policy) (c_BannedUntil candidate))).

(** The three collections the selection builds: the pool, the challengers and
    the set of draining fingerprints. *)
Record Pool := {
  current : list Candidate;
  challengers : list Candidate;
  draining : gset string
}.

(** The first loop: sort the candidates into members, challengers and draining
    assigned members. *)
Definition classify (policy : SelectionPolicy) (p : Pool) (candidate : Candidate) : Pool :=
  let eligible := pool_eligible policy candidate in
  if c_InWorkingPool candidate && eligible then
    {| current := current p ++ [candidate]; challengers := challengers p;
       draining := draining p |}
  else
    {| current := current p;
       challengers :=
         if eligible then challengers p ++ [candidate] else challengers p;
       draining :=
         if c_InWorkingPool candidate && c_Assigned candidate
         then {[c_Fingerprint candidate]} ∪ draining p else draining p |}.

Definition drain_assigned (d : gset string) (candidates : list Candidate) : gset string :=
  fold_left
    (fun d candidate =>
       if c_Assigned candidate then {[c_Fingerprint candidate]} ∪ d else d)
    candidates d.

(** Members beyond the pool size are cut off. *)
Definition cut (size : nat) (p : Pool) : Pool :=
  if (size <? length (current p))%nat then
    {| current := take size (current p); challengers := challengers p;
       draining := drain_assigned (draining p) (drop size (current p)) |}
  else p.

(** Free places go to the best challengers. *)
Fixpoint fill (size : nat) (members queue : list Candidate) :
    list Candidate * list Candidate :=
  match queue with
  | challenger :: rest =>
      if (length members <? size)%nat
      then fill size (sortByScoreDescending (members ++ [challenger])) rest
      else (members, queue)
  | [] => (members, [])
  end.

(** A full pool: each remaining challenger replaces the worst member if it
    beats it by the promotion ratio. *)
Definition promote (policy : SelectionPolicy)
    (acc : list Candidate * gset string) (challenger : Candidate) :
    list Candidate * gset string :=
  let '(members, d) := acc in
  match last members with
  | None => acc
  | Some worst =>
      let required := (c_ConservativeScore worst * (1 + PromotionRatio policy))%float in
      if PrimFloat.ltb (c_ConservativeScore challenger) required then acc
      else
        (sortByScoreDescending (take (length members - 1) members ++ [challenger]),
         if c_Assigned worst then {[c_Fingerprint worst]} ∪ d else d)
  end.

(** The pool after the selection loops. *)
Definition select (candidates : list Candidate) (policy : SelectionPolicy) :
    list Candidate * gset string :=
  let size := Z.to_nat (PoolSize policy) in
  let p := fold_left (classify policy) candidates
             {| current := []; challengers := []; draining := ∅ |} in
  let p := cut size {| current := sortByScoreDescending (current p);
                       challengers := sortByScoreDescending (challengers p);
                       draining := draining p |} in
  let '(members, queue) := fill size (current p) (challengers p) in
  fold_left (promote policy) queue (members, draining p).

Definition SelectWorkingPool (candidates : list Candidate) (policy : SelectionPolicy) :
    Selection :=
  if PoolSize policy <=? 0 then {| Active := []; Draining := [] |}
  else
    let '(members, d) := select candidates policy in
    {| Active := sort_strings (map c_Fingerprint members);
       Draining := sort_strings (elements d) |}.

(** ** Laws of the sort *)

Definition scored (c : Candidate) : Prop := number (c_ConservativeScore c) = true.

Definition score_key (c : Candidate) : (Z * (Z * Z)) * string :=
  (fkey (c_ConservativeScore c), c_Fingerprint c).

Lemma score_less_key x y :
  scored x -> scored y -> score_less x y = is_lt (score_compare (score_key x) (score_key y)).
Proof.
  unfold scored, score_less, score_compare, pair_compare, fgt. intros Hx Hy. simpl.
  destruct (PrimFloat.eqb _ _) eqn:E.
  - rewrite eqb_key in E by done. by rewrite E, (tc_refl (cmp := fkey_compare)).
  - rewrite ltb_key by done.
    destruct (fkey_compare (fkey (c_ConservativeScore y)) _) eqn:C; try done.
    apply (tc_eq (cmp := fkey_compare)) in C. symmetry in C.
    apply (eqb_key _ _ Hx Hy) in C. congruence.
Qed.

#[export] Instance score_less_weak : StrictWeak scored score_less.
Proof. apply (key_strict_weak _ _ score_key score_compare), score_less_key. Qed.

(** Distinct fingerprints: the candidates are those of one snapshot. *)
Definition distinct (l : list Candidate) : Prop := NoDup (map c_Fingerprint l).

Lemma distinct_eq l x y :
  distinct l -> In x l -> In y l -> c_Fingerprint x = c_Fingerprint y -> x = y.
Proof.
  unfold distinct. intros Hd Hx Hy He. induction l as [|z l IH]; [done|].
  simpl in *. apply NoDup_cons in Hd as [Hz Hd]. rewrite list_elem_of_In, in_map_iff in Hz.
  destruct Hx as [->|Hx], Hy as [->|Hy]; eauto; exfalso; apply Hz; eauto.
Qed.

Lemma sortByScore_In x l : In x (sortByScoreDescending l) <-> In x l.
Proof. apply sort_slice_In. Qed.

Lemma sortByScore_length l : length (sortByScoreDescending l) = length l.
Proof. apply sort_slice_length. Qed.

Lemma sortByScore_Permutation l : sortByScoreDescending l ≡ₚ l.
Proof. apply sort_slice_Permutation. Qed.

Lemma sortByScore_Permutation_eq l k :
  distinct l -> Forall scored l -> l ≡ₚ k ->
  sortByScoreDescending l = sortByScoreDescending k.
Proof.
  intros Hd Hs. apply (sort_slice_Permutation_eq scored); [apply _|done|].
  intros x y Hx Hy H1 H2. rewrite List.Forall_forall in Hs.
  pose proof (key_antisym scored score_less score_key score_compare score_less_key
    x y (Hs x Hx) (Hs y Hy) H1 H2) as [=]. eauto using distinct_eq.
Qed.

#[export] Hint Rewrite sortByScore_In sortByScore_length : hydrat.

(** ** The classification *)

Definition is_member policy c := c_InWorkingPool c && pool_eligible policy c.
Definition is_challenger policy c := negb (c_InWorkingPool c) && pool_eligible policy c.
Definition is_draining policy c :=
  c_InWorkingPool c && c_Assigned c && negb (pool_eligible policy c).

Definition fingerprints (l : list Candidate) : gset string :=
  list_to_set (map c_Fingerprint l).

Lemma elem_of_fingerprints l fp :
  fp ∈ fingerprints l <-> exists c, In c l /\ c_Fingerprint c = fp.
Proof.
  unfold fingerprints. rewrite elem_of_list_to_set, list_elem_of_In, in_map_iff. naive_solver.
Qed.

Lemma classify_fold policy l p :
  fold_left (classify policy) l p =
    {| current := current p ++ List.filter (is_member policy) l;
       challengers := challengers p ++ List.filter (is_challenger policy) l;
       draining := fingerprints (List.filter (is_draining policy) l) ∪ draining p |}.
Proof.
  revert p. induction l as [|c l IH]; intros p; simpl.
  - rewrite !app_nil_r. unfold fingerprints. simpl. rewrite (left_id_L ∅ (∪)). by destruct p.
  - rewrite IH. unfold classify, is_member, is_challenger, is_draining, fingerprints.
    destruct (c_InWorkingPool c), (pool_eligible policy c), (c_Assigned c); simpl;
      rewrite <- ?app_assoc; f_equal; set_solver.
Qed.

Lemma drain_assigned_spec d l :
  drain_assigned d l = fingerprints (List.filter c_Assigned l) ∪ d.
Proof.
  unfold drain_assigned. revert d. induction l as [|c l IH]; intros d; simpl.
  - unfold fingerprints. set_solver.
  - rewrite IH. destruct (c_Assigned c); unfold fingerprints; simpl; set_solver.
Qed.

(** ** The loops as one relation

    The state of a loop is the members, the candidates still queued and the
    draining set; [removed] are the candidates that left the pool or were passed
    over. *)
Lemma fill_spec size members queue :
  let '(m, q) := fill size members queue in
  exists taken, queue = taken ++ q /\ m ≡ₚ members ++ taken /\
    (q <> [] -> size <= length m)%nat /\
    (taken <> [] -> length m <= size)%nat.
Proof.
  revert members. induction queue as [|c queue IH]; intros members; simpl.
  { exists []. rewrite !app_nil_r. split_and!; done || (intros H; by destruct H). }
  destruct (length members <? size)%nat eqn:E.
  - specialize (IH (sortByScoreDescending (members ++ [c]))).
    destruct (fill _ _ _) as [m q]. destruct IH as (taken & -> & H2 & H3 & H4).
    apply Nat.ltb_lt in E. exists (c :: taken). split_and!; [done| |done|].
    + rewrite H2, sortByScore_Permutation, <- app_assoc. done.
    + intros _. destruct taken as [|x taken]; [|by apply H4].
      rewrite H2, app_nil_r, sortByScore_length, length_app. simpl. lia.
  - apply Nat.ltb_ge in E. exists []. rewrite !app_nil_r. split_and!; [done|done|done|intros H; by destruct H].
Qed.

(** What holds in every round: [out] are the eligible candidates that left the
    pool or were passed over. *)
Record loop_ok (candidates : list Candidate) (policy : SelectionPolicy)
    (m q out : list Candidate) (d : gset string) : Prop := {
  lo_split : m ++ q ++ out ≡ₚ List.filter (pool_eligible policy) candidates;
  lo_queue : forall c, In c q -> c_InWorkingPool c = false;
  lo_size : length m = Nat.min (Z.to_nat (PoolSize policy))
                         (length (List.filter (pool_eligible policy) candidates));
  lo_drained : forall fp, fp ∈ d -> exists c, c_Fingerprint c = fp /\
    c_Assigned c = true /\ (In c out \/ In c (List.filter (is_draining policy) candidates));
  lo_protect : forall c, In c candidates -> is_draining policy c = true \/ In c out ->
    c_InWorkingPool c = true -> c_Assigned c = true -> c_Fingerprint c ∈ d;
  lo_beaten : (length (List.filter (is_member policy) candidates) <=
               Z.to_nat (PoolSize policy))%nat ->
    forall c, In c out -> c_InWorkingPool c = true ->
    exists by_whom, In by_whom (List.filter (is_challenger policy) candidates) /\
      PrimFloat.ltb (c_ConservativeScore by_whom)
        (c_ConservativeScore c * (1 + PromotionRatio policy)) = false
}.

Lemma eligible_split policy l :
  List.filter (is_member policy) l ++ List.filter (is_challenger policy) l
  ≡ₚ List.filter (pool_eligible policy) l.
Proof.
  rewrite <- (filter_split_Permutation c_InWorkingPool (List.filter (pool_eligible policy) l)).
  rewrite !filter_filter. unfold is_member, is_challenger.
  rewrite (filter_ext_In (fun c => c_InWorkingPool c && _)
             (fun c => pool_eligible policy c && c_InWorkingPool c))
    by (intros; apply andb_comm).
  rewrite (filter_ext_In (fun c => negb _ && _)
             (fun c => pool_eligible policy c && negb (c_InWorkingPool c)))
    by (intros; apply andb_comm).
  done.
Qed.

Lemma last_split {A} (l : list A) x :
  last l = Some x -> l = take (length l - 1) l ++ [x].
Proof.
  intros H. destruct (last_Some l x) as [Hx _]. destruct (Hx H) as [k ->].
  rewrite length_app. simpl. by rewrite Nat.add_sub, take_app_length.
Qed.

(** The pool before the promotions. *)
Definition select_filled (candidates : list Candidate) (policy : SelectionPolicy) :
    (list Candidate * list Candidate) * gset string :=
  let size := Z.to_nat (PoolSize policy) in
  let p := cut size
    {| current := sortByScoreDescending (List.filter (is_member policy) candidates);
       challengers := sortByScoreDescending (List.filter (is_challenger policy) candidates);
       draining := fingerprints (List.filter (is_draining policy) candidates) |} in
  (fill size (current p) (challengers p), draining p).

Lemma select_unfold candidates policy :
  select candidates policy =
    let '(members, queue, d) := select_filled candidates policy in
    fold_left (promote policy) queue (members, d).
Proof.
  unfold select, select_filled. rewrite classify_fold. cbn [current challengers draining app].
  rewrite (right_id_L ∅ (∪)). by destruct (fill _ _ _).
Qed.

Lemma filled_ok candidates policy :
  let '(m, q, d) := select_filled candidates policy in
  exists out, loop_ok candidates policy m q out d /\
    ((length m < Z.to_nat (PoolSize policy))%nat -> q = []).
Proof.
  unfold select_filled. set (size := Z.to_nat (PoolSize policy)).
  set (cur := sortByScoreDescending _). set (ch := sortByScoreDescending _).
  set (dr := fingerprints _).
  assert (cur ++ ch ≡ₚ List.filter (pool_eligible policy) candidates) as Hsplit.
  { unfold cur, ch. rewrite !sortByScore_Permutation. apply eligible_split. }
  pose proof (Permutation_length Hsplit) as Hlen. rewrite length_app in Hlen.
  assert (current (cut size {| current := cur; challengers := ch; draining := dr |})
          = take size cur /\
          challengers (cut size {| current := cur; challengers := ch; draining := dr |}) = ch /\
          draining (cut size {| current := cur; challengers := ch; draining := dr |})
          = fingerprints (List.filter c_Assigned (drop size cur)) ∪ dr) as (-> & -> & ->).
  { unfold cut. simpl. destruct (size <? length cur)%nat eqn:E; simpl.
    - by rewrite drain_assigned_spec.
    - apply Nat.ltb_ge in E. rewrite take_ge, drop_ge by done. simpl.
      unfold fingerprints at 1. simpl. by rewrite (left_id_L ∅ (∪)). }
  pose proof (fill_spec size (take size cur) ch) as Hf.
  destruct (fill size (take size cur) ch) as [m q]. destruct Hf as (taken & Hq & Hm & Hfull & Hle).
  exists (drop size cur).
  assert (forall c, In c ch -> is_challenger policy c = true) as Hch.
  { intros c. unfold ch. rewrite sortByScore_In, filter_In. tauto. }
  assert (forall c, In c (drop size cur) -> In c cur) as Hdrop.
  { intros c Hc. rewrite <- (take_drop size cur). apply in_or_app. auto. }
  assert (length m = length (take size cur) + length taken)%nat as Hlm
    by (by rewrite Hm, length_app).
  rewrite length_take in Hlm.
  assert (length ch = length taken + length q)%nat as Hlc by (by rewrite Hq, length_app).
  split; [split|].
  - rewrite Hm, <- Hsplit, Hq. rewrite <- (take_drop size cur) at 3.
    rewrite <- !app_assoc. f_equiv. rewrite !(app_assoc taken q).
    apply Permutation_app_comm.
  - intros c Hc. assert (is_challenger policy c = true) as H.
    { apply Hch. rewrite Hq. apply in_or_app. auto. }
    unfold is_challenger in H. by split_bool.
  - fold size. rewrite <- Hlen. destruct q as [|x q]; [|specialize (Hfull ltac:(done))];
      (destruct taken as [|y taken]; [|specialize (Hle ltac:(done))]); simpl in *; lia.
  - intros fp. unfold dr. rewrite elem_of_union, !elem_of_fingerprints.
    intros [(c & Hc & <-)|(c & Hc & <-)]; exists c; (split; [done|]).
    + apply filter_In in Hc as []. auto.
    + split; [|by right]. apply filter_In in Hc as [_ Hc]. unfold is_draining in Hc. by split_bool.
  - intros c Hc [Hd|Ho] _ Ha; unfold dr; rewrite elem_of_union, !elem_of_fingerprints.
    + right. exists c. by rewrite filter_In.
    + left. exists c. by rewrite filter_In.
  - fold size. intros Hsz. rewrite drop_ge by (unfold cur; by rewrite sortByScore_length).
    done.
  - intros Hlt. destruct q; [done|]. specialize (Hfull ltac:(done)). lia.
Qed.

Lemma loop_queue_challenger candidates policy m c q out d :
  loop_ok candidates policy m (c :: q) out d ->
  In c (List.filter (is_challenger policy) candidates).
Proof.
  intros Hok. pose proof (lo_queue _ _ _ _ _ _ Hok c (or_introl eq_refl)) as Hw.
  assert (In c (List.filter (pool_eligible policy) candidates)) as Hc.
  { rewrite <- (lo_split _ _ _ _ _ _ Hok). apply in_or_app. right. by left. }
  rewrite filter_In in *. unfold is_challenger. rewrite Hw. naive_solver.
Qed.

(** A challenger that is passed over. *)
Lemma pass_ok candidates policy m c q out d :
  loop_ok candidates policy m (c :: q) out d -> loop_ok candidates policy m q (c :: out) d.
Proof.
  intros [Hs Hq Hl Hd Hp Hb]. pose proof (Hq c (or_introl eq_refl)) as Hc. split.
  - rewrite <- Hs. f_equiv. by rewrite <- Permutation_middle.
  - intros x Hx. apply Hq. by right.
  - done.
  - intros fp H. destruct (Hd fp H) as (x & ? & ? & [?|?]); exists x; simpl; auto.
  - intros x Hx [?|[<-|?]]; [by auto|congruence|by auto].
  - intros Hle x [<-|Hx]; [congruence|by auto].
Qed.

(** A challenger that replaces the worst member. *)
Lemma replace_ok candidates policy init w c q out d :
  PrimFloat.ltb (c_ConservativeScore c)
    (c_ConservativeScore w * (1 + PromotionRatio policy)) = false ->
  loop_ok candidates policy (init ++ [w]) (c :: q) out d ->
  loop_ok candidates policy (sortByScoreDescending (init ++ [c])) q (w :: out)
    (if c_Assigned w then {[c_Fingerprint w]} ∪ d else d).
Proof.
  intros Hbeat Hok. pose proof (loop_queue_challenger _ _ _ _ _ _ _ Hok) as Hc.
  destruct Hok as [Hs Hq Hl Hd Hp Hb]. split.
  - rewrite <- Hs, sortByScore_Permutation, <- !app_assoc. f_equiv. simpl.
    rewrite <- Permutation_middle. by rewrite Permutation_swap.
  - intros x Hx. apply Hq. by right.
  - rewrite sortByScore_length, <- Hl, !length_app. done.
  - intros fp Hfp. destruct (c_Assigned w) eqn:Ha.
    + apply elem_of_union in Hfp as [->%elem_of_singleton|Hfp].
      * exists w. simpl. auto.
      * destruct (Hd fp Hfp) as (x & ? & ? & [?|?]); exists x; simpl; auto.
    + destruct (Hd fp Hfp) as (x & ? & ? & [?|?]); exists x; simpl; auto.
  - intros x Hx Hout Hw Ha.
    assert (c_Fingerprint x ∈ d \/ x = w) as [?|<-].
    { destruct Hout as [?|[<-|?]]; auto. }
    + destruct (c_Assigned w); set_solver.
    + rewrite Ha. set_solver.
  - intros Hle x [<-|Hx] Hw; [|by auto]. by exists c.
Qed.

Lemma promote_ok candidates policy m c q out d :
  loop_ok candidates policy m (c :: q) out d ->
  exists out', loop_ok candidates policy (promote policy (m, d) c).1 q out'
                 (promote policy (m, d) c).2.
Proof.
  intros Hok. unfold promote. destruct (last m) as [w|] eqn:El.
  - apply last_split in El. set (init := take (length m - 1) m) in *. clearbody init. subst m.
    destruct (PrimFloat.ltb _ _) eqn:Eb; simpl.
    + exists (c :: out). by apply pass_ok.
    + exists (w :: out). by apply replace_ok.
  - exists (c :: out). by apply pass_ok.
Qed.

Lemma promotions_ok candidates policy q m out d :
  loop_ok candidates policy m q out d ->
  let '(m', d') := fold_left (promote policy) q (m, d) in
  exists out', loop_ok candidates policy m' [] out' d'.
Proof.
  revert m out d. induction q as [|c q IH]; intros m out d Hok; [by eexists|]. cbn [fold_left].
  destruct (promote_ok _ _ _ _ _ _ _ Hok) as [out' Hok'].
  destruct (promote policy (m, d) c) as [m' d'] eqn:E. by eapply IH.
Qed.

Lemma select_ok candidates policy :
  let '(m, d) := select candidates policy in
  exists out, loop_ok candidates policy m [] out d.
Proof.
  rewrite select_unfold. pose proof (filled_ok candidates policy) as H.
  destruct (select_filled candidates policy) as [[m q] d]. destruct H as (out & H & _).
  by eapply promotions_ok.
Qed.

(** ** Properties *)

(** The fields of a selection with a positive pool size. *)
Lemma SelectWorkingPool_fields candidates policy :
  0 < PoolSize policy ->
  exists m d out, loop_ok candidates policy m [] out d /\
    Active (SelectWorkingPool candidates policy) ≡ₚ map c_Fingerprint m /\
    (forall fp, In fp (Draining (SelectWorkingPool candidates policy)) <-> fp ∈ d).
Proof.
  intros Hp. unfold SelectWorkingPool. pose proof (select_ok candidates policy) as H.
  destruct (select candidates policy) as [m d]. destruct H as [out H].
  rewrite (proj2 (Z.leb_gt _ _)) by lia. exists m, d, out. simpl. split; [done|].
  rewrite sort_strings_Permutation. split; [done|].
  intros fp. by rewrite sort_strings_In, <- list_elem_of_In, elem_of_elements.
Qed.

(** What may be served. *)
Definition servable (policy : SelectionPolicy) (c : Candidate) : Prop :=
  c_Status c = StatusQualified /\ 2 <= c_FullSuccessStreak c /\
  (c_BannedUntil c = 0 \/ c_BannedUntil c <= Now policy).

Lemma pool_eligible_servable policy c : pool_eligible policy c = true <-> servable policy c.
Proof.
  unfold pool_eligible, servable, time_is_zero, before.
  rewrite !andb_true_iff, orb_true_iff, negb_true_iff, bool_decide_eq_true, Z.leb_le, Z.eqb_eq,
    Z.ltb_ge. tauto.
Qed.

(** The working pool is as large as it can be and holds only what may be
    served: its size is the policy's, or the number of eligible candidates if
    there are fewer, and every member is an eligible candidate (qualified, two
    full successes, not banned). *)
Theorem working_pool_size_and_members candidates policy :
  length (Active (SelectWorkingPool candidates policy)) =
    Nat.min (Z.to_nat (PoolSize policy))
            (length (List.filter (pool_eligible policy) candidates)) /\
  forall fp, In fp (Active (SelectWorkingPool candidates policy)) ->
  exists c, In c candidates /\ c_Fingerprint c = fp /\ servable policy c.
Proof.
  destruct (decide (0 < PoolSize policy)) as [Hp|Hp].
  - destruct (SelectWorkingPool_fields candidates policy Hp) as (m & d & out & H & HA & _).
    split.
    + by rewrite HA, length_map, (lo_size _ _ _ _ _ _ H).
    + intros fp. rewrite HA, in_map_iff. intros (c & Hc & Hin). exists c.
      assert (In c (List.filter (pool_eligible policy) candidates)) as Hf.
      { rewrite <- (lo_split _ _ _ _ _ _ H). apply in_or_app. auto. }
      apply filter_In in Hf as [? ?%pool_eligible_servable]. done.
  - unfold SelectWorkingPool. rewrite (proj2 (Z.leb_le _ _)) by lia.
    rewrite Z2Nat.nonpos by lia. done.
Qed.

(** A candidate that serves clients never falls out of the pool unseen: an
    assigned candidate of the working pool is either active or draining in the
    new selection, never both. *)
Theorem assigned_member_active_or_draining candidates policy c :
  distinct candidates -> 0 < PoolSize policy ->
  In c candidates -> c_InWorkingPool c = true -> c_Assigned c = true ->
  (In (c_Fingerprint c) (Active (SelectWorkingPool candidates policy)) <->
   ~ In (c_Fingerprint c) (Draining (SelectWorkingPool candidates policy))).
Proof.
  intros Hd Hp Hc Hw Ha.
  destruct (SelectWorkingPool_fields candidates policy Hp) as (m & d & out & H & HA & HD).
  rewrite HA, HD, in_map_iff. pose proof (lo_split _ _ _ _ _ _ H) as Hs. simpl in Hs.
  assert (forall x, In x m \/ In x out <-> In x candidates /\ pool_eligible policy x = true)
    as Hin. { intros x. by rewrite <- filter_In, <- Hs, in_app_iff. }
  assert (NoDup (m ++ out)) as Hnd.
  { rewrite Hs. apply NoDup_ListNoDup. apply List.NoDup_filter. apply NoDup_ListNoDup.
    by eapply NoDup_fmap_1. }
  split.
  - intros (x & Hx & Hm) Hdr. destruct (lo_drained _ _ _ _ _ _ H _ Hdr) as (y & Hy & _ & Hyo).
    assert (In x candidates /\ pool_eligible policy x = true) as [Hxc Hxe] by (apply Hin; auto).
    assert (In y candidates) as Hyc.
    { destruct Hyo as [Hyo|Hyo]; [by apply (Hin y); auto|]. by apply filter_incl in Hyo. }
    assert (x = y) as <- by (eapply distinct_eq; eauto; congruence).
    destruct Hyo as [Hyo|Hyo].
    + apply NoDup_app in Hnd as (_ & Hnd & _). apply (Hnd x); by apply list_elem_of_In.
    + apply filter_In in Hyo as [_ Hyo]. unfold is_draining in Hyo.
      rewrite Hxe, andb_false_r in Hyo. done.
  - intros Hdr. destruct (pool_eligible policy c) eqn:He.
    + destruct (proj2 (Hin c) (conj Hc He)) as [?|Ho]; [by exists c|].
      exfalso. apply Hdr. by apply (lo_protect _ _ _ _ _ _ H); auto.
    + exfalso. apply Hdr. apply (lo_protect _ _ _ _ _ _ H); auto. left.
      unfold is_draining. by rewrite Hw, Ha, He.
Qed.

(** Hysteresis: in a pool that is not over its size, an eligible member
    loses its place only if some eligible challenger from outside the pool
    reaches its score raised by the promotion ratio. *)
Theorem member_displaced_only_by_better candidates policy c :
  distinct candidates -> 0 < PoolSize policy ->
  Z.of_nat (length (List.filter (is_member policy) candidates)) <= PoolSize policy ->
  In c candidates -> is_member policy c = true ->
  ~ In (c_Fingerprint c) (Active (SelectWorkingPool candidates policy)) ->
  exists challenger, In challenger candidates /\ is_challenger policy challenger = true /\
    PrimFloat.ltb (c_ConservativeScore challenger)
      (c_ConservativeScore c * (1 + PromotionRatio policy)) = false.
Proof.
  intros Hd Hp Hsz Hc Hm Hna.
  destruct (SelectWorkingPool_fields candidates policy Hp) as (m & d & out & H & HA & _).
  unfold is_member in Hm. split_bool.
  assert (In c out) as Ho.
  { assert (In c (m ++ [] ++ out)) as Hin
      by (by rewrite (lo_split _ _ _ _ _ _ H), filter_In).
    apply in_app_iff in Hin as [Hin|]; [|done]. exfalso. apply Hna.
    rewrite HA. by apply in_map. }
  destruct (lo_beaten _ _ _ _ _ _ H ltac:(lia) c Ho ltac:(done)) as (x & Hx & Hb).
  exists x. apply filter_In in Hx. naive_solver.
Qed.

Lemma distinct_filter f l : distinct l -> distinct (List.filter f l).
Proof.
  unfold distinct. induction l as [|x l IH]; simpl; [done|].
  intros [Hx Hd]%NoDup_cons. destruct (f x); simpl; [|auto].
  apply NoDup_cons. split; [|auto]. rewrite !list_elem_of_In, !in_map_iff in *.
  intros (y & Hy & Hin). apply Hx. exists y. split; [done|]. by apply filter_incl in Hin.
Qed.

Lemma scored_filter f l : Forall scored l -> Forall scored (List.filter f l).
Proof.
  rewrite !List.Forall_forall. intros H x Hx. apply H. by apply filter_incl in Hx.
Qed.

(** The selection is a function of the set of candidates: in a snapshot
    with distinct fingerprints and no NaN score, the order in which the store
    lists the candidates changes neither the active nor the draining list. *)
Theorem selection_order_independent candidates candidates' policy :
  distinct candidates -> Forall scored candidates -> candidates ≡ₚ candidates' ->
  SelectWorkingPool candidates policy = SelectWorkingPool candidates' policy.
Proof.
  intros Hd Hs Hp. unfold SelectWorkingPool. case_if; [done|].
  rewrite !select_unfold. unfold select_filled.
  rewrite (sortByScore_Permutation_eq (List.filter (is_member policy) candidates)
             (List.filter (is_member policy) candidates')),
          (sortByScore_Permutation_eq (List.filter (is_challenger policy) candidates)
             (List.filter (is_challenger policy) candidates'))
    by auto using distinct_filter, scored_filter, filter_Permutation.
  assert (fingerprints (List.filter (is_draining policy) candidates) =
          fingerprints (List.filter (is_draining policy) candidates')) as ->; [|done].
  unfold fingerprints. by rewrite (filter_Permutation _ _ _ Hp).
Qed.

(** ** Witnesses *)

Definition sample (fp : string) (score : float) (pool assigned : bool) : Candidate := {|
  c_Fingerprint := fp; c_Status := StatusQualified; c_FullSuccessStreak := 2;
  c_ConservativeScore := score; c_InWorkingPool := pool; c_Assigned := assigned;
  c_Draining := false; c_Stale := false; c_NearBoundary := false;
  c_BannedUntil := 0; c_WindowStartedAt := 1; c_LastFastProbeAt := 1;
  c_LastFullProbeAt := 1
|}.

Definition sample_candidates : list Candidate :=
  [sample "a" 10 true true; sample "b" 20 true false; sample "c" 11 false false;
   sample "d" 30 false false].

Definition sample_policy : SelectionPolicy :=
  {| PoolSize := 2; PromotionRatio := 0.25; Now := 5 |}.

Lemma sample_distinct : distinct sample_candidates.
Proof. unfold distinct. apply (bool_decide_eq_true_1 _). vm_compute. reflexivity. Defined.

Lemma assigned_member_active_or_draining_witness :
  In "a"%string (Active (SelectWorkingPool sample_candidates sample_policy)) <->
  ~ In "a"%string (Draining (SelectWorkingPool sample_candidates sample_policy)).
Proof.
  apply (assigned_member_active_or_draining sample_candidates sample_policy
           (sample "a" 10 true true)); [exact sample_distinct|reflexivity|left; reflexivity|
           reflexivity|reflexivity].
Defined.

Lemma member_displaced_only_by_better_witness :
  exists challenger, In challenger sample_candidates /\
    is_challenger sample_policy challenger = true /\
    PrimFloat.ltb (c_ConservativeScore challenger) (10 * (1 + 0.25)) = false.
Proof.
  apply (member_displaced_only_by_better sample_candidates sample_policy
           (sample "a" 10 true true)); [exact sample_distinct|reflexivity|
           vm_compute; discriminate|left; reflexivity|reflexivity|].
  vm_compute. intros [H|[H|H]]; [discriminate H|discriminate H|exact H].
Defined.

Lemma selection_order_independent_witness :
  SelectWorkingPool sample_candidates sample_policy =
  SelectWorkingPool (rev sample_candidates) sample_policy.
Proof.
  apply (selection_order_independent sample_candidates (rev sample_candidates)
           sample_policy); [exact sample_distinct| |apply Permutation_rev].
  repeat constructor.
Defined.
