(* ===== verification/TournamentQueue.v ===== *)
(** Probe jobs of the tournament (internal/tournament/queue.go): the discovery
    order, and the job queue, a heap of shared entries that know their
    position. *)
From S2P Require Import Prelude GoOrder GoSort GoHeap GoFloat TournamentState TournamentPool.

#[local] Open Scope Z_scope.

Inductive Priority :=
| PriorityUnseen | PriorityResetExpired | PriorityBoundaryStale
| PriorityOneSuccess | PriorityOther | PriorityWorkingPool | PriorityAssigned.

#[export] Instance Priority_eq_dec : EqDecision Priority.
Proof. solve_decision. Defined.

(** The constants' [iota] values. *)
Definition priority_int (p : Priority) : Z :=
  match p with
  | PriorityUnseen => 0
  | PriorityResetExpired => 1
  | PriorityBoundaryStale => 2
  | PriorityOneSuccess => 3
  | PriorityOther => 4
  | PriorityWorkingPool => 5
  | PriorityAssigned => 6
  end.

Definition stage_string (stage : ProbeStage) : string :=
  match stage with ProbeFast => "fast" | ProbeFull => "full" end.

Record Job := {
  j_Fingerprint : string;
  j_CandidateID : string;
  j_Stage : ProbeStage;
  j_Priority : Priority;
  j_Generation : Z
}.

#[export] Instance Job_eta : Eta Job := fun j =>
  Build_Job (j_Fingerprint j) (j_CandidateID j) (j_Stage j) (j_Priority j) (j_Generation j).

Record QueuePolicy := {
  q_Now : Time;
  q_ResetWindow : Duration;
  q_PreferWorking : bool
}.

(** ** The discovery queue *)

Definition skipped (policy : QueuePolicy) (candidate : Candidate) : bool :=
  bool_decide (c_Status candidate = StatusBanned) &&
  before (q_Now policy) (c_BannedUntil candidate).

(** The first [switch]: stage and priority by the candidate's history. *)
Definition classify_job (policy : QueuePolicy) (candidate : Candidate) :
    Priority * ProbeStage :=
  if time_is_zero (c_LastFastProbeAt candidate) && time_is_zero (c_LastFullProbeAt candidate)
  then (PriorityUnseen, ProbeFast)
  else if negb (time_is_zero (c_WindowStartedAt candidate)) &&
          negb (before (q_Now policy)
                  (time_add (c_WindowStartedAt candidate) (q_ResetWindow policy)))
  then (PriorityResetExpired, ProbeFast)
  else if bool_decide (c_Status candidate = StatusUnknown) &&
          time_is_zero (c_LastFullProbeAt candidate)
  then (PriorityOther, ProbeFast)
  else if c_Stale candidate && c_NearBoundary candidate
  then (PriorityBoundaryStale, ProbeFull)
  else if c_FullSuccessStreak candidate =? 1 then (PriorityOneSuccess, ProbeFull)
  else if c_InWorkingPool candidate then (PriorityWorkingPool, ProbeFull)
  else (PriorityOther, ProbeFull).

(** The second one: what a working controller prefers. *)
Definition prefer (policy : QueuePolicy) (candidate : Candidate) (priority : Priority) :
    Priority :=
  if q_PreferWorking policy then
    if c_Assigned candidate then PriorityAssigned
    else if c_InWorkingPool candidate then PriorityWorkingPool
    else if c_FullSuccessStreak candidate =? 1 then PriorityOneSuccess
    else priority
  else priority.

Definition discovery_job (policy : QueuePolicy) (candidate : Candidate) : Job :=
  let '(priority, stage) := classify_job policy candidate in
  {| j_Fingerprint := c_Fingerprint candidate; j_CandidateID := EmptyString;
     j_Stage := stage; j_Priority := prefer policy candidate priority;
     j_Generation := 0 |}.

Definition last_probe (policy : QueuePolicy) (candidate : Candidate) : Time :=
  match j_Stage (discovery_job policy candidate) with
  | ProbeFast => c_LastFastProbeAt candidate
  | ProbeFull => c_LastFullProbeAt candidate
  end.

Definition discoveryPriorityRank (priority : Priority) (preferWorking : bool) : Z :=
  if negb preferWorking then priority_int priority
  else
    match priority with
    | PriorityAssigned => 0
    | PriorityWorkingPool => 1
    | PriorityOneSuccess => 2
    | PriorityBoundaryStale => 3
    | PriorityUnseen => 4
    | PriorityResetExpired => 5
    | _ => 6
    end.

Definition job_before (policy : QueuePolicy) (lastProbeByFingerprint : gmap string Time)
    (left right : Job) : bool :=
  if decide (j_Priority left = j_Priority right) then
    let leftAt := default zero_time (lastProbeByFingerprint !! j_Fingerprint left) in
    let rightAt := default zero_time (lastProbeByFingerprint !! j_Fingerprint right) in
    if negb (time_equal leftAt rightAt) then before leftAt rightAt
    else str_ltb (j_Fingerprint left) (j_Fingerprint right)
  else
    discoveryPriorityRank (j_Priority left) (q_PreferWorking policy) <?
    discoveryPriorityRank (j_Priority right) (q_PreferWorking policy).

(** The loop over the candidates: the jobs and the times the sort reads. *)
Definition discover_step (policy : QueuePolicy) (acc : list Job * gmap string Time)
    (candidate : Candidate) : list Job * gmap string Time :=
  let '(jobs, lastProbe) := acc in
  if skipped policy candidate then (jobs, lastProbe)
  else
    (jobs ++ [discovery_job policy candidate],
     <[c_Fingerprint candidate := last_probe policy candidate]> lastProbe).

Definition discover (policy : QueuePolicy) (candidates : list Candidate) :
    list Job * gmap string Time :=
  fold_left (discover_step policy) candidates ([], ∅).

Definition BuildDiscoveryQueue (candidates : list Candidate) (policy : QueuePolicy) :
    list Job :=
  let '(jobs, lastProbe) := discover policy candidates in
  sort_slice (job_before policy lastProbe) jobs.

(** ** The job queue

    [*queuedJob] values are addresses into [cells]: the heap and the key index
    share them, and [Swap] writes the entries' positions. *)

Record queuedJob := {
  job : Job;
  index : Z
}.

Record Queue := {
  cells : gmap nat queuedJob;
  next : nat;
  items : list nat;
  byKey : gmap string nat
}.

#[export] Instance queuedJob_eta : Eta queuedJob := fun e => Build_queuedJob (job e) (index e).
#[export] Instance Queue_eta : Eta Queue := fun q =>
  Build_Queue (cells q) (next q) (items q) (byKey q).

Definition job_less (left right : Job) : bool :=
  if decide (j_Priority left = j_Priority right) then
    if str_eqb (j_Fingerprint left) (j_Fingerprint right) then
      str_ltb (stage_string (j_Stage left)) (stage_string (j_Stage right))
    else str_ltb (j_Fingerprint left) (j_Fingerprint right)
  else priority_int (j_Priority left) <? priority_int (j_Priority right).

Definition entry_at (q : Queue) (i : nat) : option queuedJob :=
  a ← items q !! i; cells q !! a.

Definition heap_Less (q : Queue) (left right : nat) : bool :=
  match entry_at q left, entry_at q right with
  | Some l, Some r => job_less (job l) (job r)
  | _, _ => false
  end.

Definition set_index (i : nat) (e : queuedJob) : queuedJob := e <| index := Z.of_nat i |>.

Definition heap_Swap (q : Queue) (left right : nat) : Queue :=
  match items q !! left, items q !! right with
  | Some a, Some b =>
      q <| items := swap_list (items q) left right |>
        <| cells := alter (set_index right) a (alter (set_index left) b (cells q)) |>
  | _, _ => q
  end.

#[export] Instance jobHeap : HeapInterface Queue := {|
  heap_len := fun q => length (items q);
  heap_less := heap_Less;
  heap_swap := heap_Swap
|}.

(** [jobHeap.Push] of a new entry and [jobHeap.Pop]. *)
Definition heap_Push (q : Queue) (value : nat) : Queue :=
  q <| cells := alter (set_index (length (items q))) value (cells q) |>
    <| items := items q ++ [value] |>.

Definition heap_Pop (q : Queue) : option (nat * Queue) :=
  let n := (length (items q) - 1)%nat in
  last ← items q !! n;
  Some (last,
        q <| cells := alter (fun e => e <| index := -1 |>) last (cells q) |>
          <| items := take n (items q) |>).

Definition nul : string := String (Ascii.ascii_of_N 0) EmptyString.

Definition queueKey (j : Job) : string :=
  (j_Fingerprint j ++ nul ++ stage_string (j_Stage j))%string.

Definition NewQueue : Queue := {| cells := ∅; next := 0; items := []; byKey := ∅ |}.

Definition Len (q : Queue) : nat := length (items q).

(** What a second [Push] of a queued job changes. *)
Definition merge_job (j current : Job) : Job :=
  let current :=
    if priority_int (j_Priority j) <? priority_int (j_Priority current)
    then current <| j_Priority := j_Priority j |> else current in
  if j_Generation current <? j_Generation j
  then current <| j_Generation := j_Generation j |> else current.

Definition Push (q : Queue) (j : Job) : Queue :=
  let key := queueKey j in
  match byKey q !! key with
  | Some current =>
      let q := q <| cells := alter (fun e => e <| job := merge_job j (job e) |>)
                               current (cells q) |> in
      match cells q !! current with
      | Some e => heap_fix q (Z.to_nat (index e))
      | None => q
      end
  | None =>
      let entry := next q in
      let q := q <| cells := <[entry := {| job := j; index := 0 |}]> (cells q) |>
                 <| next := S entry |>
                 <| byKey := <[key := entry]> (byKey q) |> in
      let q := heap_Push q entry in
      up q (length (items q) - 1)
  end.

Definition Pop (q : Queue) : option Job * Queue :=
  if (length (items q) =? 0)%nat then (None, q)
  else
    match heap_Pop (heap_pop_prepare q) with
    | Some (last, q) =>
        match cells q !! last with
        | Some e => (Some (job e), q <| byKey := delete (queueKey (job e)) (byKey q) |>)
        | None => (None, q)
        end
    | None => (None, q)
    end.

(** ** The order of jobs *)

Definition job_key (j : Job) : Z * (string * string) :=
  (priority_int (j_Priority j), (j_Fingerprint j, stage_string (j_Stage j))).

Definition job_compare : Z * (string * string) -> Z * (string * string) -> comparison :=
  pair_compare Z.compare (pair_compare String.compare String.compare).

#[export] Instance job_total_compare : TotalCompare job_compare.
Proof. unfold job_compare. typeclasses eauto. Qed.

Lemma priority_int_inj p q : priority_int p = priority_int q -> p = q.
Proof. by destruct p, q. Qed.

Lemma job_less_key x y : job_less x y = is_lt (job_compare (job_key x) (job_key y)).
Proof.
  unfold job_less, job_compare, pair_compare, job_key, str_ltb. simpl.
  case_decide as E.
  - rewrite E, (tc_refl (cmp := Z.compare)). simpl.
    case_if; str_bool; [by rewrite Heqb, (tc_refl (cmp := String.compare))|].
    destruct (String.compare (j_Fingerprint x) (j_Fingerprint y)) eqn:C; [|done|done].
    by apply (tc_eq (cmp := String.compare)) in C.
  - assert (priority_int (j_Priority x) <> priority_int (j_Priority y))
      by (intros ?%priority_int_inj; done).
    destruct (Z.compare_spec (priority_int (j_Priority x)) (priority_int (j_Priority y)));
      [done| |]; simpl; [by apply Z.ltb_lt|apply Z.ltb_ge; lia].
Qed.

(** Entries of the heap with their addresses. *)
Definition entry_less (x y : nat * Job) : bool := job_less x.2 y.2.

#[export] Instance entry_less_weak : StrictWeak (fun _ => True) entry_less.
Proof.
  apply (key_strict_weak _ _ (fun x => job_key x.2) job_compare).
  intros x y _ _. apply job_less_key.
Qed.

#[export] Instance job_less_weak : StrictWeak (fun _ => True) job_less.
Proof.
  apply (key_strict_weak _ _ job_key job_compare). intros x y _ _. apply job_less_key.
Qed.

Lemma queueKey_inj x y :
  queueKey x = queueKey y -> j_Fingerprint x = j_Fingerprint y /\ j_Stage x = j_Stage y.
Proof.
  unfold queueKey. generalize (j_Fingerprint x) (j_Fingerprint y). intros f.
  induction f as [|a f IH]; intros [|b g]; simpl.
  - destruct (j_Stage x), (j_Stage y); done.
  - intros [= <- H]. exfalso. apply (f_equal String.length) in H.
    rewrite !str_length_app in H. unfold nul in H.
    destruct (j_Stage x), (j_Stage y); simpl in H; lia.
  - intros [= -> H]. exfalso. apply (f_equal String.length) in H.
    rewrite !str_length_app in H. unfold nul in H.
    destruct (j_Stage x), (j_Stage y); simpl in H; lia.
  - intros [= -> H]. apply IH in H as [-> ->]. done.
Qed.

(** ** The heap laws of the shared entries *)

Definition zero_job : Job :=
  {| j_Fingerprint := EmptyString; j_CandidateID := EmptyString; j_Stage := ProbeFast;
     j_Priority := PriorityUnseen; j_Generation := 0 |}.

Definition job_at (q : Queue) (a : nat) : Job := default zero_job (job <$> cells q !! a).

Definition view (q : Queue) : list (nat * Job) := (fun a => (a, job_at q a)) <$> items q.

(** Every position holds an entry of its own that records the position; the
    operations of the heap leave the key index and the allocator alone. *)
Record linked (keys : gmap string nat) (n : nat) (q : Queue) : Prop := {
  li_keys : byKey q = keys;
  li_next : next q = n;
  li_nodup : NoDup (items q);
  li_bound : forall i a, items q !! i = Some a -> (a < next q)%nat;
  li_index : forall i a, items q !! i = Some a ->
    exists e, cells q !! a = Some e /\ index e = Z.of_nat i
}.

Lemma view_length q : length (view q) = length (items q).
Proof. apply length_fmap. Qed.

Lemma view_lookup q i : view q !! i = (fun a => (a, job_at q a)) <$> items q !! i.
Proof. apply list_lookup_fmap. Qed.

Lemma swap_list_fmap {A B} (f : A -> B) l i j :
  f <$> swap_list l i j = swap_list (f <$> l) i j.
Proof.
  unfold swap_list. rewrite !list_lookup_fmap.
  destruct (l !! i), (l !! j); simpl; rewrite ?list_fmap_insert; done.
Qed.

Lemma heap_Swap_ok keys n q i j :
  linked keys n q -> (i < length (items q))%nat -> (j < length (items q))%nat ->
  linked keys n (heap_Swap q i j) /\ view (heap_Swap q i j) = swap_list (view q) i j.
Proof.
  intros [Hk Hn Hnd Hb Hi] [a Ha]%lookup_lt_is_Some_2 [b Hj]%lookup_lt_is_Some_2.
  unfold heap_Swap. rewrite Ha, Hj.
  pose proof (lookup_lt_Some _ _ _ Ha) as Hil. pose proof (lookup_lt_Some _ _ _ Hj) as Hjl.
  set (c := alter (set_index j) a (alter (set_index i) b (cells q))).
  assert (forall x, job <$> c !! x = job <$> cells q !! x) as Hjob.
  { intros x. unfold c. rewrite !lookup_alter. repeat case_decide; subst; by destruct (cells q !! _). }
  split.
  - split; simpl; [done|done| | |].
    + by rewrite swap_list_Permutation.
    + intros k x. rewrite swap_list_lookup by done. repeat case_decide; eauto.
    + intros k x. rewrite swap_list_lookup by done.
      assert (forall y e, cells q !! y = Some e -> y <> a -> y <> b -> c !! y = Some e) as Hne.
      { intros y e He ??. unfold c. by rewrite !lookup_alter_ne by done. }
      repeat case_decide; subst.
      * rewrite Hj. intros [= <-]. destruct (Hi _ _ Hj) as (e & He & _).
        unfold c. destruct (decide (a = b)) as [->|Hab].
        -- rewrite lookup_alter_eq, lookup_alter_eq, He. simpl. eexists. split; [done|]. simpl.
           f_equal. by apply (NoDup_lookup (items q) j i b).
        -- rewrite lookup_alter_ne, lookup_alter_eq, He by done. by eexists.
      * rewrite Ha. intros [= <-]. destruct (Hi _ _ Ha) as (e & He & _).
        unfold c. rewrite lookup_alter_eq.
        destruct (decide (a = b)) as [->|Hab].
        -- rewrite lookup_alter_eq, He. by eexists.
        -- rewrite lookup_alter_ne, He by done. by eexists.
      * intros Hx. destruct (Hi _ _ Hx) as (e & He & Hie). exists e. split; [|done].
        apply Hne; [done| |]; intros ->.
        -- by pose proof (proj1 (NoDup_alt (items q)) Hnd _ _ _ Hx Ha).
        -- by pose proof (proj1 (NoDup_alt (items q)) Hnd _ _ _ Hx Hj).
  - unfold view. simpl. rewrite <- swap_list_fmap. apply list_fmap_ext.
    intros k x _. unfold job_at. simpl. by rewrite Hjob.
Qed.

#[export] Instance jobHeap_laws keys n : HeapLaws (linked keys n) view entry_less.
Proof.
  split.
  - intros q _. by rewrite view_length.
  - intros q i j Hq. rewrite view_length. intros Hi Hj.
    unfold list_less. rewrite !view_lookup. simpl. unfold heap_Less, entry_at.
    apply lookup_lt_is_Some_2 in Hi as [a Ha], Hj as [b Hb]. rewrite Ha, Hb.
    destruct (li_index _ _ _ Hq _ _ Ha) as (x & Hx & _), (li_index _ _ _ Hq _ _ Hb) as (y & Hy & _).
    simpl. unfold entry_less, job_at. simpl. by rewrite Hx, Hy.
  - intros q i j Hq. rewrite !view_length. apply heap_Swap_ok, Hq.
Qed.

(** ** The invariant and the abstract queue *)

Definition keyed (q : Queue) : Prop :=
  forall k a, byKey q !! k = Some a <-> exists j, (a, j) ∈ view q /\ queueKey j = k.

Record queue_ok (q : Queue) : Prop := {
  qo_linked : linked (byKey q) (next q) q;
  qo_heap : is_heap entry_less (view q);
  qo_keyed : keyed q
}.

(** The jobs waiting, by key. *)
Definition pending (q : Queue) : gmap string Job :=
  omap (fun a => job <$> cells q !! a) (byKey q).

Lemma elem_of_view q a j : (a, j) ∈ view q <-> a ∈ items q /\ j = job_at q a.
Proof. unfold view. rewrite list_elem_of_fmap. naive_solver. Qed.

Lemma linked_job q keys n a :
  linked keys n q -> a ∈ items q -> job <$> cells q !! a = Some (job_at q a).
Proof.
  intros Hl [i Hi]%list_elem_of_lookup. destruct (li_index _ _ _ Hl _ _ Hi) as (e & He & _).
  unfold job_at. by rewrite He.
Qed.

Lemma pending_lookup q k j :
  linked (byKey q) (next q) q -> keyed q ->
  pending q !! k = Some j <-> exists a, (a, j) ∈ view q /\ queueKey j = k.
Proof.
  intros Hl Hk. unfold pending. rewrite lookup_omap. split.
  - destruct (byKey q !! k) as [a|] eqn:E; [|done]. simpl. intros Hj.
    apply Hk in E as (j' & Hin & Hkey). pose proof Hin as [Hi ->]%elem_of_view.
    rewrite (linked_job q _ _ a Hl Hi) in Hj. simplify_eq. by exists a.
  - intros (a & Hin & Hkey). rewrite (proj2 (Hk k a)) by eauto. simpl.
    apply elem_of_view in Hin as [Hi ->]. by eapply linked_job.
Qed.

(** Queued jobs with one key are one entry. *)
Lemma view_key_unique q a b i j :
  keyed q -> (a, i) ∈ view q -> (b, j) ∈ view q -> queueKey i = queueKey j -> a = b /\ i = j.
Proof.
  intros Hk Hi Hj He. assert (Some a = Some b) as [= <-].
  { rewrite <- (proj2 (Hk (queueKey i) a)), <- (proj2 (Hk (queueKey i) b)); eauto. }
  split; [done|]. apply elem_of_view in Hi as [_ ->], Hj as [_ ->]. done.
Qed.

Lemma keyed_Permutation q q' :
  byKey q' = byKey q -> view q' ≡ₚ view q -> keyed q -> keyed q'.
Proof. intros Hb Hv Hk k a. rewrite Hb, (Hk k a). by setoid_rewrite Hv. Qed.

Lemma pending_Permutation q q' :
  queue_ok q' -> linked (byKey q) (next q) q -> keyed q ->
  view q' ≡ₚ view q -> pending q' = pending q.
Proof.
  intros Hok' Hl Hk Hv. apply map_eq. intros k. apply option_eq. intros j.
  rewrite !pending_lookup by (done || apply Hok'). by setoid_rewrite Hv.
Qed.

Lemma new_ok : queue_ok NewQueue.
Proof.
  split.
  - split; try done. constructor.
  - intros k Hk. simpl in Hk. lia.
  - intros k a. simpl. rewrite lookup_empty. split; [done|]. intros (j & Hj & _). set_solver.
Qed.

(** *** Push *)

Lemma queueKey_merge j j0 : queueKey (merge_job j j0) = queueKey j0.
Proof. unfold queueKey, merge_job. by repeat case_if. Qed.

Lemma heap_fix_ok q i x :
  linked (byKey q) (next q) q -> keyed q ->
  (exists l, is_heap entry_less l /\ (i < length l)%nat /\ view q = <[i := x]> l) ->
  queue_ok (heap_fix q i) /\ view (heap_fix q i) ≡ₚ view q /\ byKey (heap_fix q i) = byKey q.
Proof.
  intros Hl Hk (l & Hh & Hi & Hv).
  assert (i < length (view q))%nat as Hil by (by rewrite Hv, length_insert).
  destruct (heap_fix_view (linked (byKey q) (next q)) view entry_less q i Hl Hil) as [Hl' Hv'].
  assert (view (heap_fix q i) ≡ₚ view q) as Hp.
  { rewrite Hv'. apply (heap_fix_Permutation entry_less). }
  pose proof (li_keys _ _ _ Hl') as Hb. pose proof (li_next _ _ _ Hl') as Hn.
  split; [|done]. split.
  - by rewrite Hb, Hn.
  - rewrite Hv'. apply (fix_heap entry_less); [done|]. rewrite Hv, length_insert.
    by apply insert_except_both.
  - by apply (keyed_Permutation q).
Qed.

(** Rewriting the job of a queued entry, with its key. *)
Section SetJob.
Context (q : Queue) (i a : nat) (e : queuedJob) (j : Job).
Hypothesis Hl : linked (byKey q) (next q) q.
Hypothesis Hi : items q !! i = Some a.
Hypothesis He : cells q !! a = Some e.
Hypothesis Hj : queueKey j = queueKey (job e).

Let q1 := q <| cells := <[a := e <| job := j |>]> (cells q) |>.

Lemma set_job_at b : job_at q1 b = if decide (a = b) then j else job_at q b.
Proof.
  unfold job_at, q1. simpl. case_decide; subst.
  - by rewrite lookup_insert_eq.
  - by rewrite lookup_insert_ne.
Qed.

Lemma set_job_view : view q1 = <[i := (a, j)]> (view q).
Proof.
  apply list_eq. intros x. rewrite !view_lookup. change (items q1) with (items q).
  destruct (decide (x = i)) as [->|Hx].
  - rewrite list_lookup_insert_eq by (rewrite view_length; by apply lookup_lt_Some in Hi).
    rewrite Hi. simpl. rewrite set_job_at. by rewrite decide_True.
  - rewrite list_lookup_insert_ne, view_lookup by done.
    destruct (items q !! x) as [b|] eqn:Eb; [|done]. simpl.
    rewrite set_job_at, decide_False; [done|]. intros ->.
    apply Hx. symmetry. by eapply NoDup_lookup; [apply Hl| |].
Qed.

Lemma set_job_linked : linked (byKey q1) (next q1) q1.
Proof.
  pose proof Hl as [_ _ Hnd Hb Hix]. split; [done|done|done|done|].
  intros x b Hx. destruct (Hix x b Hx) as (e' & He' & Hie'). simpl.
  destruct (decide (a = b)) as [<-|Hab].
  - rewrite lookup_insert_eq. eexists. split; [done|]. simpl. congruence.
  - rewrite lookup_insert_ne by done. eauto.
Qed.

Lemma set_job_keyed : keyed q -> keyed q1.
Proof.
  intros Hk k b. change (byKey q1) with (byKey q). rewrite (Hk k b).
  setoid_rewrite elem_of_view. change (items q1) with (items q). rewrite set_job_at.
  case_decide as Hab; [|done]. subst b.
  assert (job_at q a = job e) as -> by (unfold job_at; by rewrite He).
  split; intros (j' & [Hin ->] & <-); eauto.
Qed.

Lemma set_job_pending :
  keyed q -> pending q1 = <[queueKey j := j]> (pending q).
Proof.
  intros Hk. assert (byKey q !! queueKey j = Some a) as Ha.
  { apply Hk. exists (job e). split; [|done]. apply elem_of_view. split.
    - by eapply list_elem_of_lookup_2.
    - unfold job_at. by rewrite He. }
  apply map_eq. intros k. unfold pending. change (byKey q1) with (byKey q). simpl.
  destruct (decide (k = queueKey j)) as [->|Hkj].
  - rewrite lookup_insert_eq, lookup_omap, Ha. simpl. by rewrite lookup_insert_eq.
  - rewrite lookup_insert_ne, !lookup_omap by done.
    destruct (byKey q !! k) as [b|] eqn:Eb; [|done]. simpl.
    rewrite lookup_insert_ne; [done|]. intros <-.
    apply Hk in Eb as (j' & [_ ->]%elem_of_view & Hk'). apply Hkj.
    rewrite Hj, <- Hk'. unfold job_at. by rewrite He.
Qed.
End SetJob.

Lemma Push_present q j a :
  queue_ok q -> byKey q !! queueKey j = Some a ->
  queue_ok (Push q j) /\
  exists j0, pending q !! queueKey j = Some j0 /\
    pending (Push q j) = <[queueKey j := merge_job j j0]> (pending q).
Proof.
  intros [Hl Hh Hk] Ha. unfold Push. rewrite Ha.
  pose proof Ha as (j0 & Hin & Hkey)%Hk. pose proof Hin as [Hi Hj0]%elem_of_view.
  apply list_elem_of_lookup in Hi as [i Hi].
  destruct (li_index _ _ _ Hl _ _ Hi) as (e & He & Hie).
  assert (j0 = job e) as -> by (rewrite Hj0; unfold job_at; by rewrite He).
  assert (alter (fun e => e <| job := merge_job j (job e) |>) a (cells q) =
          <[a := e <| job := merge_job j (job e) |>]> (cells q)) as ->.
  { apply map_eq. intros b. rewrite lookup_alter, lookup_insert.
    case_decide; [|done]. subst. by rewrite He. }
  assert (queueKey (merge_job j (job e)) = queueKey (job e)) as Hm by apply queueKey_merge.
  set (q1 := q <| cells := _ |>).
  assert (cells q1 !! a = Some (e <| job := merge_job j (job e) |>)) as ->
    by apply lookup_insert_eq.
  change (index (e <| job := _ |>)) with (index e). rewrite Hie, Nat2Z.id.
  assert (linked (byKey q1) (next q1) q1) as Hl1 by (by eapply set_job_linked).
  assert (keyed q1) as Hk1 by (by eapply set_job_keyed).
  destruct (heap_fix_ok q1 i (a, merge_job j (job e)) Hl1 Hk1) as (Hok & Hp & Hb).
  { exists (view q). rewrite view_length.
    split_and!; [done|by eapply lookup_lt_Some|by apply set_job_view]. }
  split; [done|]. exists (job e). split; [apply pending_lookup; eauto|].
  rewrite (pending_Permutation q1) by done.
  unfold q1. erewrite set_job_pending by done. by rewrite Hm, Hkey.
Qed.

Lemma job_at_ext q q' a : cells q' !! a = cells q !! a -> job_at q' a = job_at q a.
Proof. unfold job_at. by intros ->. Qed.

(** Appending a fresh entry. *)
Section NewEntry.
Context (q : Queue) (j : Job).
Hypothesis Hl : linked (byKey q) (next q) q.
Hypothesis Hk : keyed q.
Hypothesis Hn : byKey q !! queueKey j = None.

Let q1 : Queue :=
  heap_Push (q <| cells := <[next q := {| job := j; index := 0 |}]> (cells q) |>
               <| next := S (next q) |>
               <| byKey := <[queueKey j := next q]> (byKey q) |>) (next q).

Lemma new_entry_old a : a ∈ items q -> cells q1 !! a = cells q !! a.
Proof.
  intros [i Hi]%list_elem_of_lookup. pose proof (li_bound _ _ _ Hl _ _ Hi). simpl.
  by rewrite lookup_alter_ne, lookup_insert_ne by lia.
Qed.

Lemma new_entry_new :
  cells q1 !! next q = Some {| job := j; index := Z.of_nat (length (items q)) |}.
Proof. simpl. by rewrite lookup_alter_eq, lookup_insert_eq. Qed.

Lemma new_entry_view : view q1 = view q ++ [(next q, j)].
Proof.
  unfold view. change (items q1) with (items q ++ [next q]). rewrite fmap_app. f_equal.
  - apply list_fmap_ext. intros i a Hi. f_equal.
    apply job_at_ext, new_entry_old. by eapply list_elem_of_lookup_2.
  - cbn [fmap list_fmap]. unfold job_at. by rewrite new_entry_new.
Qed.

Lemma new_entry_linked : linked (byKey q1) (next q1) q1.
Proof.
  pose proof Hl as [_ _ Hnd Hb Hix].
  split; [done|done| | |]; change (items q1) with (items q ++ [next q]).
  - apply NoDup_app. split_and!; [done| |apply NoDup_singleton].
    intros a [i Hi]%list_elem_of_lookup ->%list_elem_of_singleton.
    specialize (Hb _ _ Hi). lia.
  - intros i a [Hi|[_ Hi]]%lookup_app_Some; simpl.
    + specialize (Hb _ _ Hi). lia.
    + apply list_lookup_singleton_Some in Hi as [_ <-]. lia.
  - intros i a [Hi|[Hge Hi]]%lookup_app_Some.
    + rewrite new_entry_old by (by eapply list_elem_of_lookup_2). eauto.
    + apply list_lookup_singleton_Some in Hi as [Hi <-]. rewrite new_entry_new.
      eexists. split; [done|]. simpl. f_equal. lia.
Qed.

Lemma key_unused a j' : (a, j') ∈ view q -> queueKey j' <> queueKey j.
Proof.
  intros Hin Hj'. assert (byKey q !! queueKey j = Some a) by (apply Hk; eauto). congruence.
Qed.

Lemma new_entry_keyed : keyed q1.
Proof.
  intros k a. change (byKey q1) with (<[queueKey j := next q]> (byKey q)).
  rewrite new_entry_view. setoid_rewrite elem_of_app. setoid_rewrite list_elem_of_singleton.
  destruct (decide (k = queueKey j)) as [->|Hkj].
  - rewrite lookup_insert_eq. split; [intros [= <-]; eauto|].
    intros (j' & [Hin|[= <- _]] & Hj'); [|done]. by apply key_unused in Hin.
  - rewrite lookup_insert_ne, (Hk k a) by done. naive_solver.
Qed.

Lemma new_entry_pending : pending q1 = <[queueKey j := j]> (pending q).
Proof.
  apply map_eq. intros k. apply option_eq. intros j'.
  rewrite pending_lookup, new_entry_view
    by (apply new_entry_linked || apply new_entry_keyed).
  setoid_rewrite elem_of_app. setoid_rewrite list_elem_of_singleton.
  destruct (decide (k = queueKey j)) as [->|Hkj].
  - rewrite lookup_insert_eq. split; [|intros [= <-]; eauto].
    intros (a & [Hin|[= _ ->]] & Hj'); [|done]. by apply key_unused in Hin.
  - rewrite lookup_insert_ne, pending_lookup by done. naive_solver.
Qed.

Lemma new_entry_pushed :
  is_heap entry_less (view q) ->
  queue_ok (up q1 (length (items q))) /\
  pending (up q1 (length (items q))) = <[queueKey j := j]> (pending q).
Proof.
  intros Hh.
  assert (length (items q) < length (view q1))%nat as Hlen.
  { rewrite new_entry_view, length_app, view_length. simpl. lia. }
  destruct (up_view (linked (byKey q1) (next q1)) view entry_less q1 _ new_entry_linked Hlen)
    as [Hl2 Hv2].
  assert (view (up q1 (length (items q))) ≡ₚ view q1) as Hp.
  { rewrite Hv2. apply (up_Permutation entry_less). }
  assert (queue_ok (up q1 (length (items q)))) as Hok.
  { split.
    - by rewrite (li_keys _ _ _ Hl2), (li_next _ _ _ Hl2).
    - rewrite Hv2, new_entry_view, <- view_length. by apply (push_heap entry_less).
    - apply (keyed_Permutation q1); [by apply Hl2|done|apply new_entry_keyed]. }
  split; [done|]. rewrite <- new_entry_pending.
  by apply pending_Permutation; [|apply new_entry_linked|apply new_entry_keyed|].
Qed.
End NewEntry.

Lemma Push_absent q j :
  queue_ok q -> byKey q !! queueKey j = None ->
  queue_ok (Push q j) /\ pending (Push q j) = <[queueKey j := j]> (pending q).
Proof.
  intros [Hl Hh Hk] Hn. unfold Push. rewrite Hn. set (q1 := heap_Push _ _).
  assert (length (items q1) - 1 = length (items q))%nat as ->.
  { unfold q1, heap_Push. simpl. rewrite length_app. simpl. lia. }
  by apply new_entry_pushed.
Qed.

(** *** Pop *)

Lemma pop_prepare_ok keys n q :
  linked keys n q -> (0 < length (items q))%nat ->
  linked keys n (heap_pop_prepare q) /\
  view (heap_pop_prepare q) = heap_pop_prepare (H := list_heap entry_less) (view q).
Proof.
  intros Hl H0. destruct (decide (length (items q) = 1%nat)) as [H1|H1].
  - unfold heap_pop_prepare. simpl. rewrite view_length, H1. cbn.
    apply heap_Swap_ok; [done|lia|lia].
  - apply (heap_pop_prepare_view (linked keys n) view entry_less); [done|].
    rewrite view_length. lia.
Qed.

(** The queue after the last entry of a prepared heap is dropped. *)
Section DropLast.
Context (q : Queue) (a : nat) (j : Job).
Hypothesis Hl : linked (byKey q) (next q) q.
Hypothesis Hk : keyed q.
Hypothesis Ha : view q !! (length (items q) - 1)%nat = Some (a, j).

Let n := (length (items q) - 1)%nat.
Let q1 := q <| cells := alter (fun e => e <| index := -1 |>) a (cells q) |>
            <| items := take n (items q) |>
            <| byKey := delete (queueKey j) (byKey q) |>.

Lemma view_split : view q = take n (view q) ++ [(a, j)].
Proof.
  rewrite <- (take_drop n (view q)) at 1. f_equal.
  unfold n. rewrite (drop_S _ _ _ Ha). f_equal. apply drop_ge. rewrite view_length. lia.
Qed.

Lemma elem_of_split x : x ∈ view q <-> x ∈ take n (view q) \/ x = (a, j).
Proof.
  pose proof (elem_of_app (take n (view q)) [(a, j)] x) as E.
  by rewrite <- view_split, list_elem_of_singleton in E.
Qed.

Lemma dropped_item : items q !! n = Some a /\ j = job_at q a.
Proof.
  unfold n. rewrite view_lookup in Ha.
  destruct (items q !! _) as [b|]; simpl in Ha; [|done]. by simplify_eq.
Qed.

Lemma dropped_view : view q1 = take n (view q).
Proof.
  unfold view. simpl. rewrite fmap_take. f_equal. apply list_fmap_ext. intros i b _. f_equal.
  unfold job_at, q1. simpl. rewrite lookup_alter. case_decide; [|done].
  subst. by destruct (cells q !! b).
Qed.

Lemma dropped_linked : linked (byKey q1) (next q1) q1.
Proof.
  pose proof Hl as [_ _ Hnd Hb Hix]. pose proof dropped_item as [Hi _].
  split; [done|done| | |]; simpl.
  - by eapply sublist_NoDup; [|apply sublist_take].
  - intros i b [Hib _]%lookup_take_Some. eauto.
  - intros i b [Hib Hin]%lookup_take_Some. destruct (Hix _ _ Hib) as (e & He & Hie).
    rewrite lookup_alter_ne; [eauto|]. intros ->.
    pose proof (NoDup_lookup (items q) i n b Hnd Hib Hi). lia.
Qed.

Lemma dropped_keyed : keyed q1.
Proof.
  intros k b. rewrite dropped_view. change (byKey q1) with (delete (queueKey j) (byKey q)).
  assert ((a, j) ∈ view q) as Hin by (by eapply list_elem_of_lookup_2).
  assert (NoDup (view q)) as Hnd.
  { apply (NoDup_fmap_1 fst). unfold view. rewrite <- list_fmap_compose.
    rewrite list_fmap_id. apply Hl. }
  rewrite view_split in Hnd. apply NoDup_app in Hnd as (_ & Hnd & _).
  destruct (decide (k = queueKey j)) as [->|Hkj].
  - rewrite lookup_delete_eq. split; [done|]. intros (j' & Hj' & Hkey).
    assert ((b, j') ∈ view q) as Hj'' by (apply elem_of_split; auto).
    destruct (view_key_unique q b a j' j Hk Hj'' Hin Hkey) as [-> ->].
    exfalso. apply (Hnd _ Hj'). by apply list_elem_of_singleton.
  - rewrite lookup_delete_ne, (Hk k b) by done. setoid_rewrite elem_of_split. naive_solver.
Qed.

Lemma dropped_pending : pending q1 = delete (queueKey j) (pending q).
Proof.
  apply map_eq. intros k. unfold pending. rewrite lookup_omap. simpl.
  destruct (decide (k = queueKey j)) as [->|Hkj]; [by rewrite !lookup_delete_eq|].
  rewrite !lookup_delete_ne, lookup_omap by done.
  destruct (byKey q !! k) as [b|]; [|done]. simpl.
  rewrite lookup_alter. case_decide; [|done]. subst. by destruct (cells q !! b).
Qed.
End DropLast.

(** The job a priority map serves first: the least of its jobs. *)
Definition first_job (m : gmap string Job) : option Job :=
  head (sort_slice job_less (map snd (map_to_list m))).

Lemma is_heap_jobs l : is_heap entry_less l -> is_heap job_less (snd <$> l).
Proof.
  intros Hh k. rewrite length_fmap. intros Hk x y.
  rewrite !list_lookup_fmap. intros Hx Hy.
  apply fmap_Some in Hx as ([a x'] & Hx & ->), Hy as ([b y'] & Hy & ->).
  by apply (Hh k Hk (a, x') (b, y')).
Qed.

Lemma first_job_root q :
  queue_ok q -> first_job (pending q) = snd <$> view q !! 0%nat.
Proof.
  intros [Hl Hh Hk]. unfold first_job.
  rewrite (heap_root_head_sort job_less (snd <$> view q)); [by rewrite list_lookup_fmap| | |].
  - by apply is_heap_jobs.
  - assert (forall k j, (k, j) ∈ map_to_list (pending q) -> queueKey j = k) as Hkey.
    { intros k j Hj. apply elem_of_map_to_list in Hj.
      by apply pending_lookup in Hj as (a & _ & ?). }
    apply NoDup_Permutation.
    + unfold view. rewrite <- list_fmap_compose. apply NoDup_fmap_2_strong; [|apply Hl].
      intros a b Ha Hb He. simpl in He.
      eapply (view_key_unique q a b (job_at q a) (job_at q b)); rewrite ?elem_of_view; auto.
      by rewrite He.
    + change (map snd) with (fmap (M := list) (snd (A := string) (B := Job))).
      apply NoDup_fmap_2_strong; [|apply NoDup_map_to_list].
      intros [k i] [k' j] Hi Hj He. simpl in He. subst.
      by rewrite <- (Hkey _ _ Hi), <- (Hkey _ _ Hj).
    + intros j. change (map snd) with (fmap (M := list) (snd (A := string) (B := Job))).
      rewrite !list_elem_of_fmap. split.
      * intros ([a i] & -> & Hin). exists (queueKey i, i). split; [done|].
        apply elem_of_map_to_list, pending_lookup; eauto.
      * intros ([k i] & -> & Hin). apply elem_of_map_to_list in Hin.
        apply pending_lookup in Hin as (a & Hin & _); [|done|done]. by exists (a, i).
  - intros x y Hx Hy H1 H2.
    pose proof (key_antisym (fun _ => True) job_less job_key job_compare
      (fun x y _ _ => job_less_key x y) x y I I H1 H2) as [= Hp Hf Hs].
    rewrite <- list_elem_of_In in *. apply list_elem_of_fmap in Hx as ([a i] & -> & Hi).
    apply list_elem_of_fmap in Hy as ([b j] & -> & Hj). simpl in *.
    apply (view_key_unique q a b i j Hk Hi Hj). unfold queueKey. by rewrite Hf, Hs.
Qed.

Lemma Pop_spec q :
  queue_ok q ->
  (Pop q).1 = first_job (pending q) /\
  queue_ok (Pop q).2 /\
  pending (Pop q).2 =
    match first_job (pending q) with
    | Some j => delete (queueKey j) (pending q)
    | None => pending q
    end.
Proof.
  intros Hok. rewrite (first_job_root q Hok). unfold Pop.
  destruct (length (items q) =? 0)%nat eqn:E.
  { apply Nat.eqb_eq in E. rewrite (proj2 (lookup_ge_None (view q) 0%nat)) by (rewrite view_length; lia).
    done. }
  apply Nat.eqb_neq in E. destruct Hok as [Hl Hh Hk].
  destruct (pop_prepare_ok _ _ q Hl ltac:(lia)) as [Hl1 Hv1].
  set (q1 := heap_pop_prepare q) in *.
  assert (view q <> []) as Hne by (intros Hv; apply E; by rewrite <- view_length, Hv).
  destruct (pop_heap entry_less (view q) Hne Hh) as [Hheap Hlast].
  unfold list_heap_instance in *. rewrite <- Hv1 in Hheap, Hlast.
  assert (view q1 ≡ₚ view q) as Hp.
  { rewrite Hv1. unfold heap_pop_prepare. rewrite (down_Permutation entry_less).
    apply swap_list_Permutation. }
  assert (length (view q) = length (items q1)) as Hlen
    by (by rewrite <- (view_length q1), Hp).
  assert (keyed q1) as Hk1 by (apply (keyed_Permutation q); [apply Hl1|done|done]).
  assert (linked (byKey q1) (next q1) q1) as Hl1'
    by (by rewrite (li_keys _ _ _ Hl1), (li_next _ _ _ Hl1)).
  rewrite Hlen in Hheap, Hlast.
  destruct (view q !! 0%nat) as [[a j]|] eqn:H0;
    [|apply lookup_ge_None in H0; rewrite view_length in H0; lia].
  destruct (dropped_item q1 a j Hlast) as [Hi Hj].
  unfold heap_Pop. rewrite Hi. simpl.
  destruct (li_index _ _ _ Hl1 _ _ Hi) as (e & He & _).
  rewrite lookup_alter_eq, He. simpl.
  assert (j = job e) as -> by (rewrite Hj; unfold job_at; by rewrite He).
  split; [done|]. split.
  - split.
    + by apply (dropped_linked q1 a (job e)).
    + by rewrite (dropped_view q1 a (job e)) by done.
    + by apply dropped_keyed.
  - rewrite (dropped_pending q1 a (job e)) by done. f_equal.
    apply map_eq. intros k. apply option_eq. intros j'.
    rewrite !pending_lookup by done. by setoid_rewrite Hp.
Qed.

(** *** Runs *)

Inductive Operation := OpPush (j : Job) | OpPop | OpLen.
Inductive Result := Pushed | Popped (j : option Job) | Length (n : nat).

Definition queue_step (q : Queue) (op : Operation) : Result * Queue :=
  match op with
  | OpPush j => (Pushed, Push q j)
  | OpPop => let '(j, q) := Pop q in (Popped j, q)
  | OpLen => (Length (Len q), q)
  end.

(** A job pushed again: the more urgent priority, the later generation. *)
Definition combined (j current : Job) : Job :=
  current <| j_Priority := if bool_decide (priority_int (j_Priority current) <=
                                           priority_int (j_Priority j))
                           then j_Priority current else j_Priority j |>
          <| j_Generation := Z.max (j_Generation current) (j_Generation j) |>.

Lemma merge_combined j current : merge_job j current = combined j current.
Proof.
  unfold merge_job, combined. destruct current as [f cid st p g]. cbn.
  destruct (Z.ltb_spec (priority_int (j_Priority j)) (priority_int p)) as [H|H];
    case_bool_decide; try lia; cbn;
    destruct (Z.ltb_spec g (j_Generation j)); unfold set_field; cbn; f_equal; lia.
Qed.

Definition map_step (m : gmap string Job) (op : Operation) : Result * gmap string Job :=
  match op with
  | OpPush j =>
      (Pushed, <[queueKey j := match m !! queueKey j with
                               | Some current => combined j current
                               | None => j
                               end]> m)
  | OpPop =>
      (Popped (first_job m),
       match first_job m with Some j => delete (queueKey j) m | None => m end)
  | OpLen => (Length (size m), m)
  end.

Fixpoint run_queue {S} (step : S -> Operation -> Result * S) (s : S) (ops : list Operation) :
    list Result :=
  match ops with
  | [] => []
  | op :: ops => let '(r, s) := step s op in r :: run_queue step s ops
  end.

Lemma Len_pending q : queue_ok q -> Len q = size (pending q).
Proof.
  intros [Hl Hh Hk]. unfold Len. rewrite <- view_length.
  assert (dom (pending q) = list_to_set ((fun x => queueKey x.2) <$> view q)) as Hd.
  { apply set_eq. intros k. rewrite elem_of_dom, elem_of_list_to_set, list_elem_of_fmap. split.
    - intros [j Hj]. apply pending_lookup in Hj as (a & Hin & <-); [|done|done].
      by exists (a, j).
    - intros ([a j] & -> & Hin). exists j. apply pending_lookup; eauto. }
  rewrite <- size_dom, Hd, size_list_to_set, length_fmap; [done|].
  apply NoDup_fmap_2_strong.
  - intros [a i] [b j] Hi Hj He. simpl in He.
    by destruct (view_key_unique q a b i j Hk Hi Hj He) as [-> ->].
  - apply (NoDup_fmap_1 fst). unfold view. rewrite <- list_fmap_compose.
    rewrite list_fmap_id. apply Hl.
Qed.

Lemma queue_step_refines q op :
  queue_ok q ->
  (queue_step q op).1 = (map_step (pending q) op).1 /\
  queue_ok (queue_step q op).2 /\
  pending (queue_step q op).2 = (map_step (pending q) op).2.
Proof.
  intros Hok. destruct op as [j| |]; cbn [queue_step map_step fst snd].
  - split; [done|]. destruct (byKey q !! queueKey j) as [a|] eqn:E.
    + destruct (Push_present q j a Hok E) as (H1 & j0 & H2 & H3). by rewrite H2, <- merge_combined.
    + destruct (Push_absent q j Hok E) as [H1 H2]. split; [done|].
      assert (pending q !! queueKey j = None) as ->
        by (unfold pending; by rewrite lookup_omap, E).
      done.
  - pose proof (Pop_spec q Hok) as (H1 & H2 & H3).
    destruct (Pop q) as [r q']. simpl in *. by subst.
  - split; [by rewrite Len_pending|done].
Qed.

(** The job queue is a map from candidate and stage to one waiting job:
    for every sequence of pushes and pops its answers are those of the map.  A
    job pushed again stays one job, with the more urgent priority and the later
    generation; [Pop] yields the most urgent job, by fingerprint and stage among
    equals, and every job leaves exactly once.  The shared heap entries, their
    positions and the key index stay consistent throughout. *)
Theorem job_queue_refines_priority_map ops :
  run_queue queue_step NewQueue ops = run_queue map_step ∅ ops.
Proof.
  assert (∅ = pending NewQueue) as -> by done.
  generalize NewQueue new_ok. induction ops as [|op ops IH]; intros q Hok; [done|].
  cbn [run_queue]. destruct (queue_step_refines q op Hok) as (H1 & H2 & H3).
  destruct (queue_step q op) as [r q'], (map_step (pending q) op) as [r' m].
  simpl in *. subst. f_equal. by apply IH.
Qed.

(** ** The discovery order *)

Lemma discover_jobs policy candidates acc :
  (fold_left (discover_step policy) candidates acc).1 =
  acc.1 ++ map (discovery_job policy)
            (List.filter (fun c => negb (skipped policy c)) candidates).
Proof.
  revert acc. induction candidates as [|c l IH]; intros [jobs lastProbe]; simpl.
  { by rewrite app_nil_r. }
  rewrite IH. destruct (skipped policy c); simpl; [done|]. by rewrite <- app_assoc.
Qed.

Lemma discover_last_other policy candidates acc fp :
  fp ∉ map c_Fingerprint candidates ->
  (fold_left (discover_step policy) candidates acc).2 !! fp = acc.2 !! fp.
Proof.
  revert acc. induction candidates as [|c l IH]; intros [jobs lastProbe]; [done|].
  cbn [map fold_left]. rewrite not_elem_of_cons. intros [Hne Hl]. rewrite IH by done. simpl.
  destruct (skipped policy c); simpl; [done|]. by rewrite lookup_insert_ne.
Qed.

Lemma discover_last policy candidates acc c :
  distinct candidates -> In c candidates -> skipped policy c = false ->
  (fold_left (discover_step policy) candidates acc).2 !! c_Fingerprint c =
  Some (last_probe policy c).
Proof.
  revert acc. induction candidates as [|x l IH]; intros [jobs lastProbe] Hd Hin Hs; [done|].
  cbn [fold_left]. unfold distinct in Hd. cbn [map] in Hd. apply NoDup_cons in Hd as [Hx Hd].
  destruct Hin as [->|Hin]; [|by apply IH].
  rewrite discover_last_other by done. simpl. rewrite Hs. simpl. by rewrite lookup_insert_eq.
Qed.

Definition rank_key (policy : QueuePolicy) (lastProbe : gmap string Time) (j : Job) :
    Z * (Z * string) :=
  (discoveryPriorityRank (j_Priority j) (q_PreferWorking policy),
   (default zero_time (lastProbe !! j_Fingerprint j), j_Fingerprint j)).

Definition rank_compare : Z * (Z * string) -> Z * (Z * string) -> comparison :=
  pair_compare Z.compare (pair_compare Z.compare String.compare).

#[export] Instance rank_total_compare : TotalCompare rank_compare.
Proof. unfold rank_compare. typeclasses eauto. Qed.

Lemma discoveryPriorityRank_inj p q preferWorking :
  discoveryPriorityRank p preferWorking = discoveryPriorityRank q preferWorking -> p = q.
Proof. by destruct preferWorking, p, q. Qed.

Lemma job_before_key policy lastProbe x y :
  job_before policy lastProbe x y =
  is_lt (rank_compare (rank_key policy lastProbe x) (rank_key policy lastProbe y)).
Proof.
  unfold job_before, rank_compare, pair_compare, rank_key, str_ltb, time_equal, before. simpl.
  case_decide as E.
  - rewrite E, (tc_refl (cmp := Z.compare)). simpl.
    destruct (Z.compare_spec (default zero_time (lastProbe !! j_Fingerprint x))
                (default zero_time (lastProbe !! j_Fingerprint y))) as [H|H|H].
    + by rewrite (proj2 (Z.eqb_eq _ _) H).
    + rewrite (proj2 (Z.eqb_neq _ _)) by lia. by apply Z.ltb_lt.
    + rewrite (proj2 (Z.eqb_neq _ _)) by lia. apply Z.ltb_ge. lia.
  - assert (discoveryPriorityRank (j_Priority x) (q_PreferWorking policy) <>
            discoveryPriorityRank (j_Priority y) (q_PreferWorking policy))
      by (intros ?%discoveryPriorityRank_inj; done).
    destruct (Z.compare_spec (discoveryPriorityRank (j_Priority x) (q_PreferWorking policy))
                (discoveryPriorityRank (j_Priority y) (q_PreferWorking policy)));
      [done| |]; simpl; [by apply Z.ltb_lt|apply Z.ltb_ge; lia].
Qed.

#[export] Instance job_before_weak policy lastProbe :
  StrictWeak (fun _ => True) (job_before policy lastProbe).
Proof.
  apply (key_strict_weak _ _ (rank_key policy lastProbe) rank_compare).
  intros x y _ _. apply job_before_key.
Qed.

(** Discovery probes every candidate that is not banned exactly once: the
    queue holds one job per such candidate, a candidate whose ban lies ahead has
    none, and the jobs come by priority rank, the candidate probed longest ago
    first and by fingerprint among equals. *)
Theorem discovery_queue_complete_sorted candidates policy :
  BuildDiscoveryQueue candidates policy ≡ₚ
    map (discovery_job policy)
      (List.filter (fun c => negb (skipped policy c)) candidates) /\
  exists lastProbe,
    StronglySorted (ordered (job_before policy lastProbe))
      (BuildDiscoveryQueue candidates policy) /\
    (distinct candidates -> forall c, In c candidates -> skipped policy c = false ->
       lastProbe !! c_Fingerprint c = Some (last_probe policy c)).
Proof.
  unfold BuildDiscoveryQueue. destruct (discover policy candidates) as [jobs lastProbe] eqn:E.
  pose proof (discover_jobs policy candidates ([], ∅)) as Hj.
  fold (discover policy candidates) in Hj. rewrite E in Hj. simpl in Hj. subst jobs.
  split; [apply sort_slice_Permutation|]. exists lastProbe. split.
  - apply (sort_slice_sorted (fun _ => True)); [done|by apply List.Forall_forall].
  - intros Hd c Hc Hs.
    replace lastProbe with (discover policy candidates).2 by (by rewrite E).
    by apply discover_last.
Qed.

Example boundary_before_pool :
  map j_Fingerprint
    (BuildDiscoveryQueue
       [sample "a" 10 true true; sample "b" 20 false false]
       {| q_Now := 2; q_ResetWindow := 10; q_PreferWorking := false |}) = ["b"; "a"]%string.
Proof. vm_compute. reflexivity. Qed.

Example merged_job_pops_once :
  let j p g := {| j_Fingerprint := "a"; j_CandidateID := "id"; j_Stage := ProbeFull;
                  j_Priority := p; j_Generation := g |} in
  run_queue queue_step NewQueue
    [OpPush (j PriorityOther 1); OpPush (j PriorityAssigned 7); OpPush (j PriorityUnseen 3);
     OpLen; OpPop; OpPop] =
  [Pushed; Pushed; Pushed; Length 1; Popped (Some (j PriorityUnseen 7)); Popped None].
Proof. vm_compute. reflexivity. Qed.
