(* ===== verification/PlacementQueue.v ===== *)
(** The controller's queue of placement reasons
    (internal/controller/placement_queue.go): a heap of distinct reasons with a
    pending set, popped by priority. *)
From S2P Require Import Prelude GoOrder GoSort GoHeap.

#[local] Open Scope Z_scope.

Abbreviation PlacementReason := string (only parsing).

Definition PlacementHardFailure : PlacementReason := "hard_failure".
Definition PlacementQoEDegraded : PlacementReason := "qoe_degraded".
Definition PlacementManual : PlacementReason := "manual_reassign".
Definition PlacementClientLifecycle : PlacementReason := "client_lifecycle".
Definition PlacementPromotion : PlacementReason := "pool_promotion".
Definition PlacementStartupNormalization : PlacementReason := "startup_normalization".
Definition PlacementPeriodic : PlacementReason := "periodic".

Definition placementPriority (reason : PlacementReason) : Z :=
  if str_eqb reason PlacementHardFailure then 0
  else if str_eqb reason PlacementQoEDegraded then 1
  else if str_eqb reason PlacementManual then 2
  else if str_eqb reason PlacementClientLifecycle then 3
  else if str_eqb reason PlacementPromotion then 4
  else 5.

Definition reason_less (left right : PlacementReason) : bool :=
  let leftPriority := placementPriority left in
  let rightPriority := placementPriority right in
  if leftPriority =? rightPriority then str_ltb left right
  else leftPriority <? rightPriority.

(** [placementHeap] is a slice, so [Len], [Less] and [Swap] are those of lists. *)
#[export] Instance placementHeap : HeapInterface (list PlacementReason) :=
  list_heap_instance reason_less.

Definition heap_push (items : list PlacementReason) (value : PlacementReason) :
    list PlacementReason :=
  up (items ++ [value]) (length items).

Definition heap_pop (items : list PlacementReason) :
    option (PlacementReason * list PlacementReason) :=
  let h := heap_pop_prepare items in
  let n := (length items - 1)%nat in
  reason ← h !! n; Some (reason, take n h).

Definition heap_remove (items : list PlacementReason) (index : nat) :
    list PlacementReason :=
  take (length items - 1) (heap_remove_prepare items index).

Record PlacementQueue := {
  items : list PlacementReason;
  pending : gset PlacementReason
}.

Definition NewPlacementQueue : PlacementQueue := {| items := []; pending := ∅ |}.

Definition Enqueue (queue : PlacementQueue) (reason : PlacementReason) : PlacementQueue :=
  if bool_decide (reason ∈ pending queue) then queue
  else {| items := heap_push (items queue) reason;
          pending := {[reason]} ∪ pending queue |}.

Definition Pop (queue : PlacementQueue) : option PlacementReason * PlacementQueue :=
  if (length (items queue) =? 0)%nat then (None, queue)
  else
    match heap_pop (items queue) with
    | Some (reason, rest) =>
        (Some reason, {| items := rest; pending := pending queue ∖ {[reason]} |})
    | None => (None, queue)
    end.

(** Position of the first item equal to the reason. *)
Fixpoint index_of (reason : PlacementReason) (l : list PlacementReason) : option nat :=
  match l with
  | [] => None
  | item :: rest =>
      if str_eqb item reason then Some 0%nat else S <$> index_of reason rest
  end.

Definition Take (queue : PlacementQueue) (reason : PlacementReason) :
    bool * PlacementQueue :=
  if negb (bool_decide (reason ∈ pending queue)) then (false, queue)
  else
    match index_of reason (items queue) with
    | Some index =>
        (true, {| items := heap_remove (items queue) index;
                  pending := pending queue ∖ {[reason]} |})
    | None => (false, queue)
    end.

Definition Len (queue : PlacementQueue) : nat := length (items queue).

(** ** Order *)

Definition reason_key (reason : PlacementReason) : Z * string :=
  (placementPriority reason, reason).

Lemma reason_less_key x y :
  reason_less x y = is_lt (pair_compare Z.compare String.compare (reason_key x) (reason_key y)).
Proof.
  unfold reason_less, pair_compare, reason_key, str_ltb. simpl.
  destruct (Z.compare_spec (placementPriority x) (placementPriority y)) as [E|E|E].
  - by rewrite (proj2 (Z.eqb_eq _ _) E).
  - rewrite (proj2 (Z.eqb_neq _ _)) by lia. by apply Z.ltb_lt.
  - rewrite (proj2 (Z.eqb_neq _ _)) by lia. apply Z.ltb_ge. lia.
Qed.

#[export] Instance reason_less_weak : StrictWeak (fun _ => True) reason_less.
Proof.
  apply (key_strict_weak _ _ reason_key (pair_compare Z.compare String.compare)).
  intros x y _ _. apply reason_less_key.
Qed.

Lemma reason_less_antisym x y : ordered reason_less x y -> ordered reason_less y x -> x = y.
Proof.
  intros H1 H2.
  pose proof (key_antisym (fun _ => True) reason_less reason_key
    (pair_compare Z.compare String.compare) (fun x y _ _ => reason_less_key x y)
    x y I I H1 H2) as [=]. done.
Qed.

(** ** The invariant *)

Record queue_ok (queue : PlacementQueue) : Prop := {
  qo_heap : is_heap reason_less (items queue);
  qo_nodup : NoDup (items queue);
  qo_pending : forall reason, reason ∈ pending queue <-> reason ∈ items queue
}.

Lemma placement_new_ok : queue_ok NewPlacementQueue.
Proof. split; [|constructor|set_solver]. intros k Hk. simpl in Hk. lia. Qed.

Lemma index_of_spec reason l :
  reason ∈ l -> exists i, index_of reason l = Some i /\ l !! i = Some reason.
Proof.
  induction l as [|x l IH]; [set_solver|]. intros Hin. simpl.
  case_if; str_bool; [subst; by exists 0%nat|].
  destruct IH as (i & -> & Hi); [set_solver|]. by exists (S i).
Qed.

(** The remaining items after the last one of a prepared heap is dropped. *)
Lemma drop_last_ok (l h : list PlacementReason) (x : PlacementReason) :
  h ≡ₚ l -> NoDup l -> (h !! (length l - 1)%nat = Some x) ->
  x ∈ l /\ NoDup (take (length l - 1) h) /\
  (forall y, y ∈ take (length l - 1) h <-> y ∈ l /\ y <> x).
Proof.
  intros Hp Hnd Hx. pose proof (lookup_lt_Some _ _ _ Hx) as Hlt.
  pose proof (Permutation_length Hp) as Hlen.
  assert (h = take (length l - 1) h ++ [x]) as Hh.
  { rewrite <- (take_drop (length l - 1) h) at 1. f_equal.
    rewrite (drop_S _ _ _ Hx), drop_ge by lia. done. }
  assert (forall y, y ∈ l <-> y ∈ take (length l - 1) h \/ y = x) as Hin.
  { intros y. transitivity (y ∈ h); [by rewrite Hp|].
    pose proof (elem_of_app (take (length l - 1) h) [x] y) as E.
    rewrite <- Hh, list_elem_of_singleton in E. exact E. }
  assert (NoDup h) as Hnd' by (by rewrite Hp). rewrite Hh in Hnd'. apply NoDup_app in Hnd' as (H1 & H2 & _).
  split; [by apply Hin; right|]. split; [done|].
  intros y. rewrite Hin. specialize (H2 y). rewrite list_elem_of_singleton in H2. naive_solver.
Qed.

Lemma Enqueue_ok queue reason : queue_ok queue -> queue_ok (Enqueue queue reason).
Proof.
  intros [Hh Hnd Hp]. unfold Enqueue. case_bool_decide as Hin; [done|].
  rewrite Hp in Hin. unfold heap_push.
  pose proof (up_Permutation reason_less (items queue ++ [reason]) (length (items queue))) as Hu.
  split; simpl.
  - by apply (push_heap reason_less).
  - unfold placementHeap. rewrite Hu.
    rewrite NoDup_app. split_and!; [done|set_solver|apply NoDup_singleton].
  - intros x. unfold placementHeap. rewrite Hu.
    rewrite elem_of_union, Hp. set_solver.
Qed.

Lemma heap_remove_prepare_Permutation l i :
  (i < length l)%nat -> heap_remove_prepare l i ≡ₚ l.
Proof.
  intros Hi. unfold heap_remove_prepare.
  change (heap_len l) with (length l). case_if; [done|].
  change (heap_swap l i (length l - 1)) with (swap_list l i (length l - 1)).
  pose proof (down_Permutation reason_less (swap_list l i (length l - 1)) i (length l - 1)) as Hd.
  pose proof (swap_list_Permutation l i (length l - 1)) as Hs.
  unfold placementHeap.
  destruct (down _ _ _) as [h [|]]; simpl in *; [|rewrite up_Permutation]; by rewrite Hd.
Qed.

Lemma heap_pop_prepare_Permutation l : heap_pop_prepare l ≡ₚ l.
Proof.
  unfold heap_pop_prepare. unfold placementHeap. rewrite down_Permutation.
  apply swap_list_Permutation.
Qed.

(** ** The specification

    A set of reasons; [Pop] yields the one of the highest priority, by name
    among equals. *)

Definition highest (s : gset PlacementReason) : option PlacementReason :=
  head (sort_slice reason_less (elements s)).

Lemma placement_Pop_spec queue :
  queue_ok queue ->
  (Pop queue).1 = highest (pending queue) /\
  queue_ok (Pop queue).2 /\
  pending (Pop queue).2 =
    match highest (pending queue) with
    | Some reason => pending queue ∖ {[reason]}
    | None => pending queue
    end.
Proof.
  intros Hok. pose proof Hok as [Hh Hnd Hp].
  assert (items queue ≡ₚ elements (pending queue)) as Hperm.
  { apply NoDup_Permutation; [done|apply NoDup_elements|]. intros x.
    by rewrite elem_of_elements, Hp. }
  assert (highest (pending queue) = items queue !! 0%nat) as ->.
  { apply (heap_root_head_sort reason_less); [done|done|].
    intros x y _ _. apply reason_less_antisym. }
  unfold Pop. destruct (items queue) as [|a l] eqn:El.
  { simpl. split_and!; [done|exact Hok|done]. }
  rewrite <- El in *.
  assert ((length (items queue) =? 0)%nat = false) as -> by (by rewrite El).
  assert (items queue <> []) as Hne by (by rewrite El).
  destruct (pop_heap reason_less (items queue) Hne Hh) as [Hheap Hlast].
  assert (items queue !! 0%nat = Some a) as H0 by (by rewrite El). rewrite H0 in Hlast.
  unfold heap_pop. unfold placementHeap. rewrite Hlast. rewrite H0. simpl.
  destruct (drop_last_ok (items queue) _ a (heap_pop_prepare_Permutation _) Hnd Hlast)
    as (Hin & Hnd' & Hrest).
  split_and!; [done| |done]. split; [done|done|]. simpl. intros x.
  unfold placementHeap in Hrest. rewrite Hrest, elem_of_difference, Hp. set_solver.
Qed.

Lemma Take_spec queue reason :
  queue_ok queue ->
  (Take queue reason).1 = bool_decide (reason ∈ pending queue) /\
  queue_ok (Take queue reason).2 /\
  pending (Take queue reason).2 = pending queue ∖ {[reason]}.
Proof.
  intros [Hh Hnd Hp]. unfold Take. case_bool_decide as Hin; cbn [negb].
  - destruct (index_of_spec reason (items queue) (proj1 (Hp _) Hin)) as (i & -> & Hi).
    simpl. pose proof (lookup_lt_Some _ _ _ Hi) as Hlt.
    destruct (remove_heap reason_less (items queue) i Hlt Hh) as [Hheap Hlast].
    rewrite Hi in Hlast.
    destruct (drop_last_ok (items queue) _ reason
      (heap_remove_prepare_Permutation _ _ Hlt) Hnd Hlast) as (_ & Hnd' & Hrest).
    split_and!; [done| |done]. split; [done|done|]. simpl. intros x.
    unfold heap_remove. rewrite Hrest, elem_of_difference, Hp. set_solver.
  - split_and!; [done|by split|]. simpl. set_solver.
Qed.

(** *** Runs *)

Inductive Operation := OpEnqueue (reason : PlacementReason) | OpPop
  | OpTake (reason : PlacementReason) | OpLen.

Inductive Result := Done | Popped (reason : option PlacementReason)
  | Taken (found : bool) | Length (n : nat).

Definition step (queue : PlacementQueue) (op : Operation) : Result * PlacementQueue :=
  match op with
  | OpEnqueue reason => (Done, Enqueue queue reason)
  | OpPop => let '(reason, queue) := Pop queue in (Popped reason, queue)
  | OpTake reason => let '(found, queue) := Take queue reason in (Taken found, queue)
  | OpLen => (Length (Len queue), queue)
  end.

Definition spec_step (s : gset PlacementReason) (op : Operation) :
    Result * gset PlacementReason :=
  match op with
  | OpEnqueue reason => (Done, {[reason]} ∪ s)
  | OpPop =>
      (Popped (highest s),
       match highest s with Some reason => s ∖ {[reason]} | None => s end)
  | OpTake reason => (Taken (bool_decide (reason ∈ s)), s ∖ {[reason]})
  | OpLen => (Length (size s), s)
  end.

Fixpoint run {S} (step : S -> Operation -> Result * S) (s : S) (ops : list Operation) :
    list Result :=
  match ops with
  | [] => []
  | op :: ops => let '(result, s) := step s op in result :: run step s ops
  end.

Lemma step_refines queue op :
  queue_ok queue ->
  (step queue op).1 = (spec_step (pending queue) op).1 /\
  queue_ok (step queue op).2 /\
  pending (step queue op).2 = (spec_step (pending queue) op).2.
Proof.
  intros Hok. destruct op as [reason| |reason|]; simpl.
  - split; [done|]. split; [by apply Enqueue_ok|].
    unfold Enqueue. case_bool_decide; simpl; set_solver.
  - pose proof (placement_Pop_spec queue Hok) as (H1 & H2 & H3).
    destruct (Pop queue) as [r q]. simpl in *. by subst.
  - pose proof (Take_spec queue reason Hok) as (H1 & H2 & H3).
    destruct (Take queue reason) as [r q]. simpl in *. by subst.
  - split_and!; [|done|done]. f_equal. unfold Len.
    rewrite <- (size_list_to_set (C := gset string) (items queue)) by apply Hok.
    f_equal. apply set_eq. intros x. rewrite elem_of_list_to_set. by rewrite (qo_pending _ Hok).
Qed.

(** The placement queue is a set of reasons ordered by priority: whatever
    reasons are enqueued, taken and popped, in any order, every call answers as
    the set does.  A reason waits at most once, [Pop] yields the pending reason
    of the highest priority (by name among reasons of one priority), [Take]
    removes exactly the reason asked for and says whether it was pending. *)
Theorem placement_queue_refines_priority_set ops :
  run step NewPlacementQueue ops = run spec_step ∅ ops.
Proof.
  change (∅ : gset PlacementReason) with (pending NewPlacementQueue).
  generalize NewPlacementQueue placement_new_ok. induction ops as [|op ops IH]; intros queue Hok; [done|].
  cbn [run]. destruct (step_refines queue op Hok) as (H1 & H2 & H3).
  destruct (step queue op) as [r q], (spec_step (pending queue) op) as [r' s'].
  simpl in *. subst. f_equal. by apply IH.
Qed.

Example hard_failure_overtakes :
  run step NewPlacementQueue
    [OpEnqueue PlacementPeriodic; OpEnqueue PlacementManual; OpEnqueue PlacementHardFailure;
     OpEnqueue PlacementManual; OpTake PlacementPeriodic; OpPop; OpLen; OpPop; OpPop] =
  [Done; Done; Done; Done; Taken true; Popped (Some PlacementHardFailure); Length 1;
   Popped (Some PlacementManual); Popped None].
Proof. vm_compute. reflexivity. Qed.
