(* ===== verification/Health.v ===== *)
(** Candidate health (internal/health/health.go) and the timeout of probe
    requests (internal/probetimeout/timeout.go): the score and its gates, the
    quarantine tracker, and the client deadline of a probe. *)
From S2P Require Import Prelude GoOrder GoFloat.

#[local] Open Scope Z_scope.

(** ** Evaluation *)

Definition ProtocolVLESS : string := "vless".
Definition ProtocolTor : string := "tor".

Record Metrics := {
  SuccessRatio : float;
  PacketDropRatio : float;
  Latency : Duration;
  ThroughputMbps : float;
  ActiveLoad : float;
  ChatGPTWeb : bool;
  OpenAI401 : bool;
  TelegramWeb : bool;
  TelegramMTProto : bool;
  YouTubeWeb : bool;
  InstagramWeb : bool;
  UDP : bool;
  CustomGates : gmap string bool
}.

Record Evaluation := {
  Score : float;
  TCPQualified : bool;
  UDPQualified : bool
}.

Definition clamp (value : float) : float :=
  if PrimFloat.ltb value 0 then 0%float
  else if fgt value 1 then 1%float
  else value.

Definition health_score (metrics : Metrics) : float :=
  let stability := (clamp (SuccessRatio metrics) * (1 - clamp (PacketDropRatio metrics)))%float in
  let latency :=
    (1 - clamp (float_of_Z (Latency metrics) / (2 * float_of_Z second)))%float in
  let throughput := clamp (ThroughputMbps metrics / 50)%float in
  let load := (1 - clamp (ActiveLoad metrics))%float in
  (100 * (0.50 * stability + 0.25 * latency + 0.15 * throughput + 0.10 * load))%float.

Definition gates (metrics : Metrics) : bool :=
  ChatGPTWeb metrics && OpenAI401 metrics && TelegramWeb metrics &&
  TelegramMTProto metrics && YouTubeWeb metrics && InstagramWeb metrics.

Definition Evaluate (metrics : Metrics) (protocol : string) : Evaluation :=
  let score := health_score metrics in
  let tcp := gates metrics && (str_eqb protocol ProtocolTor || fge score 80) in
  let udp := tcp && str_eqb protocol ProtocolVLESS && UDP metrics in
  {| Score := score; TCPQualified := tcp; UDPQualified := udp |}.

Definition QualificationFailureCode (metrics : Metrics) (evaluation : Evaluation) : string :=
  if negb (ChatGPTWeb metrics) then "chatgpt_web_failed"
  else if negb (OpenAI401 metrics) then "openai_api_failed"
  else if negb (TelegramWeb metrics) then "telegram_web_failed"
  else if negb (TelegramMTProto metrics) then "telegram_mtproto_failed"
  else if negb (YouTubeWeb metrics) then "youtube_web_failed"
  else if negb (InstagramWeb metrics) then "instagram_web_failed"
  else if negb (TCPQualified evaluation) then "score_too_low"
  else EmptyString.

(** ** The tracker *)

Record Observation := {
  PrimaryOK : bool;
  ConfirmationOK : bool;
  PrimaryFailure : string;
  ConfirmationFailure : string;
  PrimaryElapsedMS : Z;
  ConfirmationElapsedMS : Z
}.

Record State := {
  Available : bool;
  Degraded : bool;
  QuarantinedUntil : Time;
  RecoverySuccesses : Z
}.

Record Tracker := {
  quarantine : Duration;
  recoveries : Z;
  state : State
}.

#[export] Instance State_eta : Eta State := fun s =>
  Build_State (Available s) (Degraded s) (QuarantinedUntil s) (RecoverySuccesses s).
#[export] Instance Tracker_eta : Eta Tracker := fun t =>
  Build_Tracker (quarantine t) (recoveries t) (state t).

Definition NewTracker (quarantine : Duration) (recoveries : Z) : Tracker :=
  let quarantine := if quarantine <=? 0 then 5 * minute else quarantine in
  let recoveries := if recoveries <=? 0 then 3 else recoveries in
  {| quarantine := quarantine; recoveries := recoveries;
     state := {| Available := true; Degraded := false;
                 QuarantinedUntil := zero_time; RecoverySuccesses := 0 |} |}.

Definition refreshAvailability (tracker : Tracker) (now : Time) : Tracker :=
  let s := state tracker in
  if time_is_zero (QuarantinedUntil s) then tracker
  else if negb (before now (QuarantinedUntil s)) &&
          (recoveries tracker <=? RecoverySuccesses s)
  then tracker <| state := s <| Available := true |>
                             <| QuarantinedUntil := zero_time |>
                             <| RecoverySuccesses := 0 |> |>
  else tracker.

Definition Observe (tracker : Tracker) (now : Time) (observation : Observation) : Tracker :=
  let s := state tracker in
  let s :=
    if negb (PrimaryOK observation) && negb (ConfirmationOK observation) then
      s <| Available := false |>
        <| Degraded := false |>
        <| QuarantinedUntil := time_add now (quarantine tracker) |>
        <| RecoverySuccesses := 0 |>
    else if PrimaryOK observation && ConfirmationOK observation then
      let s := s <| Degraded := false |> in
      if negb (time_is_zero (QuarantinedUntil s))
      then s <| RecoverySuccesses := RecoverySuccesses s + 1 |> else s
    else
      let s := s <| Degraded := true |> in
      if negb (time_is_zero (QuarantinedUntil s))
      then s <| RecoverySuccesses := 0 |> else s in
  refreshAvailability (tracker <| state := s |>) now.

(** [Tracker.State]: reading refreshes too. *)
Definition ReadState (tracker : Tracker) (now : Time) : State * Tracker :=
  let tracker := refreshAvailability tracker now in (state tracker, tracker).

(** ** Probe request timeouts *)

Definition ProbeResponseSlack : Duration := 5 * second.
Definition MaxProbeServerDeadline : Duration := max_int64 - ProbeResponseSlack.

Definition RequestTimeout (serverDeadline : Duration) : Duration :=
  if serverDeadline <=? 0 then ProbeResponseSlack
  else if MaxProbeServerDeadline <? serverDeadline then max_int64
  else wrap64 (serverDeadline + ProbeResponseSlack).

(** ** Properties of the evaluation *)

Lemma clamp_unit value :
  number value = true ->
  PrimFloat.leb 0 (clamp value) = true /\ PrimFloat.leb (clamp value) 1 = true.
Proof.
  intros Hn. unfold clamp, fgt.
  destruct (PrimFloat.ltb value 0) eqn:E0; [by vm_compute|].
  destruct (PrimFloat.ltb 1 value) eqn:E1; [by vm_compute|].
  by rewrite !nlt_le, ?E0, ?E1 by done.
Qed.

(** Qualification, its failure code and UDP agree: a candidate is
    TCP-qualified exactly if the failure code of its own evaluation is empty, a
    failing application gate is named before a low score, and UDP is offered
    only by a TCP-qualified VLESS candidate whose UDP probe passed. *)
Theorem evaluation_codes_agree metrics protocol :
  (TCPQualified (Evaluate metrics protocol) = true <->
   QualificationFailureCode metrics (Evaluate metrics protocol) = EmptyString) /\
  (QualificationFailureCode metrics (Evaluate metrics protocol) = "score_too_low"%string <->
   gates metrics = true /\ protocol <> ProtocolTor /\ fge (health_score metrics) 80 = false) /\
  (UDPQualified (Evaluate metrics protocol) = true <->
   TCPQualified (Evaluate metrics protocol) = true /\ protocol = ProtocolVLESS /\
   UDP metrics = true).
Proof.
  unfold QualificationFailureCode, Evaluate, gates. cbn [TCPQualified UDPQualified].
  pose proof (str_eqb_eq protocol ProtocolTor) as Ht.
  pose proof (str_eqb_eq protocol ProtocolVLESS) as Hv.
  destruct (ChatGPTWeb metrics), (OpenAI401 metrics), (TelegramWeb metrics),
    (TelegramMTProto metrics), (YouTubeWeb metrics), (InstagramWeb metrics);
    cbn [andb negb]; try (split_and!; [by split| |]; naive_solver).
  destruct (str_eqb protocol ProtocolTor), (fge (health_score metrics) 80),
    (str_eqb protocol ProtocolVLESS), (UDP metrics); cbn [andb orb negb];
    naive_solver.
Qed.

(** ** Properties of the tracker *)

Definition all_ok (o : Observation) : bool := PrimaryOK o && ConfirmationOK o.
Definition outage (o : Observation) : bool := negb (PrimaryOK o) && negb (ConfirmationOK o).

(** Observations with their times, newest first. *)
Fixpoint observe_all (tracker : Tracker) (history : list (Observation * Time)) : Tracker :=
  match history with
  | [] => tracker
  | (o, now) :: earlier => Observe (observe_all tracker earlier) now o
  end.

Lemma Observe_params tracker now o :
  quarantine (Observe tracker now o) = quarantine tracker /\
  recoveries (Observe tracker now o) = recoveries tracker.
Proof. unfold Observe, refreshAvailability. repeat case_match; done. Qed.

Lemma observe_all_params tracker history :
  quarantine (observe_all tracker history) = quarantine tracker /\
  recoveries (observe_all tracker history) = recoveries tracker.
Proof.
  induction history as [|[o now] history [IH1 IH2]]; [done|].
  cbn [observe_all]. destruct (Observe_params (observe_all tracker history) now o) as [-> ->].
  done.
Qed.

(** A recovery streak: the latest [n] observations are all good. *)
Definition streak (n : Z) (history : list (Observation * Time)) : Prop :=
  0 <= n <= Z.of_nat (length history) /\
  Forall (fun e => all_ok e.1 = true) (take (Z.to_nat n) history).

Lemma streak_cons n o now history :
  streak n history -> all_ok o = true -> streak (n + 1) ((o, now) :: history).
Proof.
  intros [Hn Hf] Ho. split; [cbn [length]; lia|].
  replace (Z.to_nat (n + 1)) with (S (Z.to_nat n)) by lia. cbn [take]. by constructor.
Qed.

Lemma streak_le n m history : streak n history -> 0 <= m <= n -> streak m history.
Proof.
  intros [Hn Hf] Hm. split; [lia|].
  replace (take (Z.to_nat m) history) with (take (Z.to_nat m) (take (Z.to_nat n) history))
    by (rewrite take_take; f_equal; lia).
  by apply Forall_take.
Qed.

Lemma streak_0 history : streak 0 history.
Proof. split; [lia|constructor]. Qed.

(** The state after an outage at [t0] and the later observations [newer]: still
    in quarantine with a streak of good observations, or recovered at some
    earlier point after a full streak and the whole quarantine. *)
Definition recovered (t0 : Time) (tracker : Tracker) (newer : list (Observation * Time)) : Prop :=
  exists later at_ earlier,
    newer = later ++ at_ :: earlier /\
    t0 + quarantine tracker <= at_.2 /\
    streak (recoveries tracker) (at_ :: earlier).

Definition after_outage (t0 : Time) (tracker0 : Tracker)
    (newer : list (Observation * Time)) (tracker : Tracker) : Prop :=
  (Available (state tracker) = false /\
   QuarantinedUntil (state tracker) = t0 + quarantine tracker0 /\
   streak (RecoverySuccesses (state tracker)) newer) \/
  (QuarantinedUntil (state tracker) = 0 /\ recovered t0 tracker0 newer).

Lemma recovered_cons t0 tracker e newer :
  recovered t0 tracker newer -> recovered t0 tracker (e :: newer).
Proof.
  intros (later & x & earlier & -> & H1 & H2). by exists (e :: later), x, earlier.
Qed.

Lemma Observe_outage tracker now o :
  outage o = true -> 0 < now -> 0 < quarantine tracker -> 0 < recoveries tracker ->
  after_outage now tracker [] (Observe tracker now o).
Proof.
  unfold outage. intros Ho Hn Hq Hr. left. unfold Observe. rewrite Ho.
  unfold refreshAvailability, time_is_zero, before, time_add. simpl.
  rewrite (proj2 (Z.eqb_neq _ _)), (proj2 (Z.leb_gt _ _)), andb_false_r by lia.
  split_and!; [done|done|apply streak_0].
Qed.

Lemma Observe_after t0 tracker0 newer tracker now o :
  0 < t0 -> 0 < quarantine tracker0 -> 0 < recoveries tracker0 ->
  quarantine tracker = quarantine tracker0 -> recoveries tracker = recoveries tracker0 ->
  outage o = false ->
  after_outage t0 tracker0 newer tracker ->
  after_outage t0 tracker0 ((o, now) :: newer) (Observe tracker now o).
Proof.
  unfold outage. intros Ht Hq Hr Eq Er Ho [(Ha & Hu & Hs)|[Hu Hrec]].
  - unfold Observe. rewrite Ho. unfold time_is_zero.
    destruct (PrimaryOK o && ConfirmationOK o) eqn:Hok; simpl; rewrite Hu;
      rewrite (proj2 (Z.eqb_neq _ _)) by lia; cbn [negb];
      unfold refreshAvailability, time_is_zero, before; simpl; rewrite Hu;
      rewrite (proj2 (Z.eqb_neq _ _)) by lia; rewrite Er.
    + pose proof (streak_cons _ o now _ Hs Hok) as Hs'.
      destruct (negb (now <? _) && _) eqn:Eb; [right|left; simpl; by split_and!]. split; [done|].
      split_bool. z_bool. exists [], (o, now), newer. split; [done|]. split; [simpl; lia|].
      eapply streak_le; [exact Hs'|lia].
    + rewrite (proj2 (Z.leb_gt _ _)), andb_false_r by lia. left.
      split_and!; [done|done|apply streak_0].
  - right. split; [|by apply recovered_cons].
    unfold Observe. rewrite Ho. unfold time_is_zero.
    destruct (PrimaryOK o && ConfirmationOK o); simpl; rewrite Hu; simpl;
      unfold refreshAvailability; simpl; by rewrite Hu.
Qed.

(** Quarantine holds: after an observation with both probes failed, the
    tracker is available again only once the whole quarantine has passed and the
    required number of observations in a row, all after the outage, had both
    probes succeed. *)
Theorem quarantine_requires_recovery_streak tracker older o t0 newer :
  0 < quarantine tracker -> 0 < recoveries tracker -> 0 < t0 ->
  outage o = true -> Forall (fun e => outage e.1 = false) newer ->
  Available (state (observe_all tracker (newer ++ (o, t0) :: older))) = true ->
  recovered t0 tracker newer.
Proof.
  intros Hq Hr Ht Ho Hn.
  assert (after_outage t0 tracker newer (observe_all tracker (newer ++ (o, t0) :: older)))
    as [(Ha & _)|[_ Hrec]]; [|congruence|done].
  pose proof (observe_all_params tracker older) as [Eq Er].
  induction Hn as [|[o' now] newer Ho' Hn IH].
  - cbn [app observe_all].
    pose proof (Observe_outage (observe_all tracker older) t0 o Ho Ht ltac:(lia) ltac:(lia)) as H.
    unfold after_outage in *. rewrite Eq in H. destruct H as [H|[_ H]]; [by left|].
    destruct H as (later & x & earlier & H & _). by destruct later.
  - cbn [app observe_all].
    pose proof (observe_all_params tracker (newer ++ (o, t0) :: older)) as [Eq' Er'].
    by apply Observe_after.
Qed.

(** The deadline a client waits for a probe leaves the server its whole
    deadline plus the response slack, never wraps around and never exceeds the
    largest duration, for every server deadline. *)
Theorem request_timeout_bounds serverDeadline :
  min_int64 <= serverDeadline <= max_int64 ->
  ProbeResponseSlack <= RequestTimeout serverDeadline <= max_int64 /\
  serverDeadline <= RequestTimeout serverDeadline /\
  (0 <= serverDeadline <= MaxProbeServerDeadline ->
   RequestTimeout serverDeadline = serverDeadline + ProbeResponseSlack).
Proof.
  unfold RequestTimeout, MaxProbeServerDeadline, ProbeResponseSlack, second, max_int64,
    min_int64. intros H.
  repeat case_if; z_bool; try lia.
  rewrite wrap64_id by (unfold min_int64, max_int64; lia). lia.
Qed.

Definition good : Observation :=
  {| PrimaryOK := true; ConfirmationOK := true; PrimaryFailure := EmptyString;
     ConfirmationFailure := EmptyString; PrimaryElapsedMS := 1; ConfirmationElapsedMS := 1 |}.
Definition failed : Observation :=
  {| PrimaryOK := false; ConfirmationOK := false; PrimaryFailure := "timeout";
     ConfirmationFailure := "timeout"; PrimaryElapsedMS := 1; ConfirmationElapsedMS := 1 |}.

Lemma quarantine_requires_recovery_streak_witness :
  recovered 100 (NewTracker 10 2) [(good, 130); (good, 115); (good, 105)].
Proof.
  apply (quarantine_requires_recovery_streak (NewTracker 10 2) [(good, 50)] failed 100
           [(good, 130); (good, 115); (good, 105)]);
    [reflexivity|reflexivity|reflexivity|reflexivity|repeat constructor|reflexivity].
Defined.

Lemma request_timeout_bounds_witness :
  ProbeResponseSlack <= RequestTimeout max_int64 <= max_int64 /\
  max_int64 <= RequestTimeout max_int64 /\
  (0 <= max_int64 <= MaxProbeServerDeadline ->
   RequestTimeout max_int64 = max_int64 + ProbeResponseSlack).
Proof. apply (request_timeout_bounds max_int64). vm_compute. split; discriminate. Defined.
