(* ===== verification/QoE.v ===== *)
(** Quality of experience (internal/qoe/qoe.go): how one observation of a
    candidate becomes a sample, moves the windows, the learned baseline and the
    status. *)
From Stdlib Require Import Ascii String.
From S2P Require Import Prelude GoOrder GoFloat GoStrings GoSort.

#[local] Open Scope Z_scope.

(** ** Data *)

Definition EvidenceMaxAge : Duration := 10 * minute.
Definition MaxWindowSize : Z := 100.
Definition MinimumAlternativeSpeedup : float := 1.3.

Definition ReasonApplicationGates : string := "qoe_application_gates".
Definition ReasonDNSRoute : string := "qoe_dns_route".
Definition ReasonRouteTimeout : string := "qoe_route_timeout".
Definition ReasonRouteTLS : string := "qoe_route_tls".
Definition ReasonRouteTransport : string := "qoe_route_transport".
Definition ReasonSustainedThroughput : string := "qoe_sustained_throughput".

(** The status of a state that was never observed is the empty string. *)
Inductive Status := StatusUnset | StatusLearning | StatusHealthy | StatusDegraded.

#[export] Instance Status_eq_dec : EqDecision Status.
Proof. solve_decision. Defined.

Record Policy := {
  WindowSize : Z;
  BadSamples : Z;
  RecoveryGoodSamples : Z;
  AvailabilityWindow : Z;
  AvailabilityFailures : Z;
  SampleBytes : Z;
  Deadline : Duration;
  InitialTTFBLimit : Duration;
  TTFBFloor : Duration;
  TTFBMultiplier : float;
  InitialThroughputMbps : float;
  ThroughputRatio : float;
  EWMAWeight : float
}.

Record HTTPCheck := {
  h_Service : string;
  h_Path : string;
  h_Phase : string;
  h_Code : string;
  h_Status : Z;
  h_ElapsedMS : Z;
  h_OK : bool
}.

Record Observation := {
  o_At : Time;
  o_Success : bool;
  o_Infrastructure : bool;
  o_ErrorCode : string;
  o_TTFB : Duration;
  o_TransferDuration : Duration;
  o_Bytes : Z;
  o_ThroughputMbps : float;
  o_ApplicationChecks : list HTTPCheck;
  o_UnconfirmedHTTP : bool;
  o_ComparisonPolicy : string;
  o_UDPReachable : option bool
}.

Record Sample := {
  m_At : Time;
  m_Valid : bool;
  m_Success : bool;
  m_Bad : bool;
  m_Reason : string;
  m_TTFB : Duration;
  m_TransferDuration : Duration;
  m_Bytes : Z;
  m_ThroughputMbps : float;
  m_EffectiveTime : Duration
}.

Record State := {
  CandidateID : string;
  status : Status;
  BaselineTTFB : Duration;
  BaselineThroughputMbps : float;
  BaselineSamples : Z;
  CurrentTTFB : Duration;
  CurrentThroughputMbps : float;
  WindowValid : Z;
  WindowBad : Z;
  WindowStartedAt : Time;
  WindowMaxGap : Duration;
  MedianEffectiveTime : Duration;
  MedianTTFB : Duration;
  MedianThroughputMbps : float;
  LastValidAt : Time;
  LastReason : string;
  DegradedAt : Time;
  RecoveredAt : Time;
  UpdatedAt : Time
}.

#[export] Instance Sample_eta : Eta Sample := fun s =>
  Build_Sample (m_At s) (m_Valid s) (m_Success s) (m_Bad s) (m_Reason s) (m_TTFB s)
    (m_TransferDuration s) (m_Bytes s) (m_ThroughputMbps s) (m_EffectiveTime s).
#[export] Instance State_eta : Eta State := fun s =>
  Build_State (CandidateID s) (status s) (BaselineTTFB s) (BaselineThroughputMbps s)
    (BaselineSamples s) (CurrentTTFB s) (CurrentThroughputMbps s) (WindowValid s)
    (WindowBad s) (WindowStartedAt s) (WindowMaxGap s) (MedianEffectiveTime s)
    (MedianTTFB s) (MedianThroughputMbps s) (LastValidAt s) (LastReason s)
    (DegradedAt s) (RecoveredAt s) (UpdatedAt s).

Record Transition := {
  From_ : Status;
  To : Status
}.

Definition Changed (transition : Transition) : bool :=
  bool_decide (From_ transition <> To transition).

Record Decision := {
  d_State : State;
  d_Sample : option Sample;
  d_Transition : Transition
}.

Definition DefaultPolicy : Policy := {|
  WindowSize := 5; BadSamples := 3; RecoveryGoodSamples := 4;
  AvailabilityWindow := 20; AvailabilityFailures := 3; SampleBytes := 262144;
  Deadline := 10 * second; InitialTTFBLimit := 3 * second;
  TTFBFloor := 1500 * millisecond; TTFBMultiplier := 2.5;
  InitialThroughputMbps := 1.0; ThroughputRatio := 0.35; EWMAWeight := 0.1
|}.

(** ** Scores and reasons *)

Definition Quality (state : State) : float :=
  if PrimFloat.leb (MedianThroughputMbps state) 0 ||
     is_nan (MedianThroughputMbps state) || is_inf (MedianThroughputMbps state)
  then 0%float
  else PrimFloat.sqrt
         (MedianThroughputMbps state /
          duration_seconds (Z.max (MedianTTFB state) (50 * millisecond))).

Definition AvailabilityFailure (reason : string) : bool :=
  str_eqb reason ReasonApplicationGates || str_eqb reason ReasonDNSRoute ||
  str_eqb reason ReasonRouteTimeout || str_eqb reason ReasonRouteTLS ||
  str_eqb reason ReasonRouteTransport.

Definition RequiresEvacuation (reason : string) : bool :=
  AvailabilityFailure reason || str_eqb reason ReasonSustainedThroughput.

Definition EffectiveTime (ttfb : Duration) (throughputMbps : float) (bytes : Z) : Duration :=
  if PrimFloat.leb throughputMbps 0 || (bytes <=? 0) then ttfb
  else
    let transfer :=
      (float_of_Z (wrap64 (bytes * 8)) / (throughputMbps * 1000000) *
       float_of_Z second)%float in
    wrap64 (ttfb + int64_of_float transfer).

(** [safeReason]: the letters, digits and [_-.] of the reason, any other rune
    as [_], at most 64 bytes. *)
Definition safe_byte (r : Z) : bool :=
  between 97 122 r || between 65 90 r || between 48 57 r ||
  (r =? 95) || (r =? 45) || (r =? 46).

Definition safe_rune (r : Z) : Z := if safe_byte r then r else 95.

Definition safeReason (reason : string) : string :=
  string_of_bytes (take 64 (map safe_rune (runes reason))).

(** ** Medians and averages *)

Definition medianDuration (values : list Duration) : Duration :=
  match values with
  | [] => 0
  | _ =>
      let sorted := sort_slice Z.ltb values in
      let middle := (length sorted / 2)%nat in
      if (length sorted mod 2 =? 1)%nat then nth middle sorted 0
      else wrap64 (Z.quot (nth (middle - 1) sorted 0) 2 + Z.quot (nth middle sorted 0) 2)
  end.

(** [sort.Float64s] puts NaN values first. *)
Definition float_less (x y : float) : bool :=
  PrimFloat.ltb x y || (is_nan x && negb (is_nan y)).

Definition medianFloat (values : list float) : float :=
  match values with
  | [] => 0%float
  | _ =>
      let sorted := sort_slice float_less values in
      let middle := (length sorted / 2)%nat in
      if (length sorted mod 2 =? 1)%nat then nth middle sorted 0%float
      else ((nth (middle - 1) sorted 0 + nth middle sorted 0) / 2)%float
  end.

Definition ewmaDuration (previous current : Duration) (weight : float) : Duration :=
  int64_of_float ((1 - weight) * float_of_Z previous + weight * float_of_Z current)%float.

Definition ewmaFloat (previous current weight : float) : float :=
  ((1 - weight) * previous + weight * current)%float.

(** ** Windows *)

Definition last_n {A} (n : nat) (l : list A) : list A := drop (length l - n) l.

Definition latestWindow (size : Z) (recent : list Sample) (sample : Sample) : list Sample :=
  let window := List.filter m_Valid recent ++ (if m_Valid sample then [sample] else []) in
  if size <=? 0 then []
  else last_n (Z.to_nat size) window.

Definition windowCounts (window : list Sample) : Z * Z :=
  (Z.of_nat (length window), Z.of_nat (length (List.filter m_Bad window))).

(** The largest gap between neighbours; the largest duration if time ran
    backwards. *)
Fixpoint gap_loop (maximum : Duration) (window : list Sample) : Duration :=
  match window with
  | previous :: ((current :: _) as rest) =>
      let gap := time_sub (m_At current) (m_At previous) in
      if gap <? 0 then max_int64
      else gap_loop (if maximum <? gap then gap else maximum) rest
  | _ => maximum
  end.

Definition maxSampleGap (window : list Sample) : Duration := gap_loop 0 window.

Definition WindowMedians (window : list Sample) : Duration * float :=
  let successes := List.filter m_Success window in
  (medianDuration (map m_TTFB successes), medianFloat (map m_ThroughputMbps successes)).

Definition medianEffectiveTime (window : list Sample) : Duration :=
  medianDuration (map m_EffectiveTime window).

Definition outage_after (recoveredAt : Time) (sample : Sample) : bool :=
  m_Bad sample && AvailabilityFailure (m_Reason sample) &&
  (time_is_zero recoveredAt || after (m_At sample) recoveredAt).

(** The loops below run from the end of the window; the model walks the
    reversed list. *)
Fixpoint leading (p : Sample -> bool) (l : list Sample) : nat :=
  match l with
  | x :: rest => if p x then S (leading p rest) else 0
  | [] => 0
  end.

Definition countAvailabilityFailures (window : list Sample) (recoveredAt : Time) : Z :=
  Z.of_nat (leading (outage_after recoveredAt) (rev window)).

Definition latestAvailabilityFailureReason (window : list Sample) : string :=
  match List.find (fun s => m_Bad s && AvailabilityFailure (m_Reason s)) (rev window) with
  | Some s => m_Reason s
  | None => EmptyString
  end.

Definition latestBadReason (window : list Sample) : string :=
  match List.find (fun s => m_Bad s && negb (str_eqb (m_Reason s) EmptyString)) (rev window) with
  | Some s => m_Reason s
  | None => EmptyString
  end.

(** ** The sample of an observation *)

Definition sampleFromObservation (policy : Policy) (state : State)
    (observation : Observation) : Sample :=
  let sample := {|
    m_At := o_At observation; m_Valid := true; m_Success := o_Success observation;
    m_Bad := false; m_Reason := EmptyString; m_TTFB := o_TTFB observation;
    m_TransferDuration := o_TransferDuration observation; m_Bytes := o_Bytes observation;
    m_ThroughputMbps := o_ThroughputMbps observation; m_EffectiveTime := 0 |} in
  let bad reason sample := sample <| m_Bad := true |> <| m_Reason := reason |> in
  if negb (o_Success observation) then
    bad (safeReason (o_ErrorCode observation)) sample <| m_EffectiveTime := Deadline policy |>
  else
    let sample := sample <| m_EffectiveTime :=
      EffectiveTime (m_TTFB sample) (m_ThroughputMbps sample) (m_Bytes sample) |> in
    if BaselineSamples state <? WindowSize policy then
      if InitialTTFBLimit policy <? m_TTFB sample then bad "qoe_ttfb"%string sample
      else if PrimFloat.ltb (m_ThroughputMbps sample) (InitialThroughputMbps policy)
      then bad ReasonSustainedThroughput sample
      else sample
    else
      let slowTTFB :=
        (TTFBFloor policy <? m_TTFB sample) &&
        fgt (float_of_Z (m_TTFB sample))
            (float_of_Z (BaselineTTFB state) * TTFBMultiplier policy)%float in
      let sustainedSlow :=
        PrimFloat.ltb (m_ThroughputMbps sample) (InitialThroughputMbps policy) in
      let slowThroughput :=
        PrimFloat.ltb (m_ThroughputMbps sample)
          (BaselineThroughputMbps state * ThroughputRatio policy)%float in
      if sustainedSlow then bad ReasonSustainedThroughput sample
      else if slowTTFB then bad "qoe_ttfb"%string sample
      else if slowThroughput then bad "qoe_throughput"%string sample
      else sample.

Definition learnBaseline (policy : Policy) (state : State)
    (learningSuccesses : list Sample) (sample : Sample) : State :=
  let successes :=
    List.filter (fun s => m_Valid s && m_Success s) learningSuccesses ++
    (if m_Valid sample && m_Success sample then [sample] else []) in
  let successes :=
    if WindowSize policy <? Z.of_nat (length successes)
    then take (Z.to_nat (WindowSize policy)) successes else successes in
  let state := state <| BaselineSamples := Z.of_nat (length successes) |> in
  if negb (Z.of_nat (length successes) =? WindowSize policy) || (WindowSize policy =? 0)
  then state
  else state <| BaselineTTFB := medianDuration (map m_TTFB successes) |>
             <| BaselineThroughputMbps := medianFloat (map m_ThroughputMbps successes) |>.

(** ** [Apply] *)

(** The window fields of the state. *)
Definition with_windows (policy : Policy) (current : State) (window : list Sample)
    (sample : Sample) : State :=
  let '(valid, bad) := windowCounts window in
  let '(medianTTFB, medianThroughput) := WindowMedians window in
  current <| WindowValid := valid |>
          <| WindowBad := bad |>
          <| WindowStartedAt := match window with s :: _ => m_At s | [] => zero_time end |>
          <| WindowMaxGap := maxSampleGap window |>
          <| MedianEffectiveTime := medianEffectiveTime window |>
          <| MedianTTFB := medianTTFB |>
          <| MedianThroughputMbps := medianThroughput |>
          <| CurrentTTFB := m_TTFB sample |>
          <| CurrentThroughputMbps := m_ThroughputMbps sample |>
          <| LastValidAt := m_At sample |>
          <| UpdatedAt := m_At sample |>.

(** The status that follows from the windows. *)
Definition window_status (policy : Policy) (current : State) (previousStatus : Status)
    (availabilityDegraded : bool) : Status :=
  if bool_decide (previousStatus = StatusDegraded) &&
     (RecoveryGoodSamples policy <=? WindowValid current - WindowBad current) &&
     (WindowBad current <? BadSamples policy)
  then if WindowSize policy <=? BaselineSamples current then StatusHealthy else StatusLearning
  else if (BadSamples policy <=? WindowBad current) || availabilityDegraded
  then StatusDegraded
  else previousStatus.

(** Learning, or following, the baseline. *)
Definition follow_baseline (policy : Policy) (current : State)
    (previousStatus nextStatus : Status) (learningSuccesses : list Sample)
    (sample : Sample) : State * Status :=
  if bool_decide (previousStatus <> StatusDegraded) &&
     bool_decide (nextStatus <> StatusDegraded) then
    if BaselineSamples current <? WindowSize policy then
      let current := learnBaseline policy current learningSuccesses sample in
      (current,
       if WindowSize policy <=? BaselineSamples current then StatusHealthy else nextStatus)
    else if m_Success sample && negb (m_Bad sample) then
      (current <| BaselineTTFB :=
                    ewmaDuration (BaselineTTFB current) (m_TTFB sample) (EWMAWeight policy) |>
               <| BaselineThroughputMbps :=
                    ewmaFloat (BaselineThroughputMbps current) (m_ThroughputMbps sample)
                      (EWMAWeight policy) |>, nextStatus)
    else (current, nextStatus)
  else (current, nextStatus).

(** The reason and the times of the transition. *)
Definition stamp (current : State) (previousStatus nextStatus : Status)
    (window availabilityWindow : list Sample) (availabilityDegraded : bool)
    (sample : Sample) (at_ : Time) : State :=
  let current := current <| status := nextStatus |> in
  let current :=
    if decide (nextStatus = StatusDegraded) then
      let reason :=
        if availabilityDegraded then latestAvailabilityFailureReason availabilityWindow
        else latestBadReason window in
      if str_eqb reason EmptyString then current else current <| LastReason := reason |>
    else current <| LastReason := m_Reason sample |> in
  let current :=
    if bool_decide (previousStatus <> StatusDegraded) &&
       bool_decide (nextStatus = StatusDegraded)
    then current <| DegradedAt := at_ |> else current in
  if bool_decide (previousStatus = StatusDegraded) &&
     bool_decide (nextStatus <> StatusDegraded)
  then current <| RecoveredAt := at_ |> else current.

Definition availability_degraded (policy : Policy) (current : State) (recent : list Sample)
    (sample : Sample) : bool :=
  (0 <? AvailabilityFailures policy) &&
  (AvailabilityFailures policy <=?
   countAvailabilityFailures (latestWindow (AvailabilityWindow policy) recent sample)
     (RecoveredAt current)).

Definition Apply (policy : Policy) (current : State) (recent learningSuccesses : list Sample)
    (observation : Observation) : Decision :=
  if o_Infrastructure observation then
    {| d_State := current; d_Sample := None;
       d_Transition := {| From_ := status current; To := status current |} |}
  else
    let current :=
      if decide (status current = StatusUnset)
      then current <| status := StatusLearning |> else current in
    let previousStatus := status current in
    let sample := sampleFromObservation policy current observation in
    let window := latestWindow (WindowSize policy) recent sample in
    let availabilityWindow := latestWindow (AvailabilityWindow policy) recent sample in
    let availabilityDegraded := availability_degraded policy current recent sample in
    let current := with_windows policy current window sample in
    let nextStatus := window_status policy current previousStatus availabilityDegraded in
    let '(current, nextStatus) :=
      follow_baseline policy current previousStatus nextStatus learningSuccesses sample in
    let current := stamp current previousStatus nextStatus window availabilityWindow
                     availabilityDegraded sample (o_At observation) in
    {| d_State := current; d_Sample := Some sample;
       d_Transition := {| From_ := previousStatus; To := nextStatus |} |}.

(** ** Windows *)

Lemma last_n_length {A} n (l : list A) : length (last_n n l) = Nat.min n (length l).
Proof. unfold last_n. rewrite length_drop. lia. Qed.

Lemma rev_last_n {A} n (l : list A) : rev (last_n n l) = take n (rev l).
Proof. unfold last_n. symmetry. apply firstn_rev. Qed.

Lemma leading_take p n l : leading p (take n l) = Nat.min n (leading p l).
Proof.
  revert n. induction l as [|x l IH]; intros [|n]; simpl; try lia.
  destruct (p x); [rewrite IH|]; lia.
Qed.

Lemma leading_ge p n l :
  (n <= leading p l)%nat <-> (n <= length l)%nat /\ Forall (fun x => p x = true) (take n l).
Proof.
  revert n. induction l as [|x l IH]; intros [|n]; simpl.
  - split; [split; [lia|constructor]|lia].
  - split; [lia|intros [? _]; lia].
  - split; [split; [lia|constructor]|lia].
  - destruct (p x) eqn:E.
    + specialize (IH n). split.
      * intros H. destruct (proj1 IH ltac:(lia)). split; [lia|by constructor].
      * intros [H1 H2]. inversion H2; subst. assert (n <= leading p l)%nat; [|lia].
        apply IH. split; [lia|done].
    + split; [lia|]. intros [_ H]. inversion H; congruence.
Qed.

(** The samples that count, newest last. *)
Definition evidence (recent : list Sample) (sample : Sample) : list Sample :=
  List.filter m_Valid recent ++ [sample].

Lemma latestWindow_evidence size recent sample :
  0 < size -> m_Valid sample = true ->
  latestWindow size recent sample = last_n (Z.to_nat size) (evidence recent sample).
Proof.
  intros Hs Hv. unfold latestWindow, evidence. rewrite Hv.
  by rewrite (proj2 (Z.leb_gt _ _)) by lia.
Qed.

Lemma sample_valid policy state observation :
  m_Valid (sampleFromObservation policy state observation) = true.
Proof. unfold sampleFromObservation. repeat case_if; done. Qed.

Lemma newest_in n recent sample : (0 < n)%nat -> In sample (last_n n (evidence recent sample)).
Proof.
  intros Hn. unfold last_n, evidence. rewrite drop_app. apply in_or_app. right.
  rewrite length_app. simpl. replace (_ - _ - _)%nat with 0%nat by lia. by left.
Qed.

(** [n] samples in a row, up to the newest, satisfy [p]. *)
Definition run_of (p : Sample -> bool) (n : Z) (l : list Sample) : Prop :=
  n <= Z.of_nat (length l) /\ Forall (fun x => p x = true) (last_n (Z.to_nat n) l).

Lemma Forall_rev_iff {A} (P : A -> Prop) (l : list A) : Forall P (rev l) <-> Forall P l.
Proof. by rewrite <- Permutation_rev. Qed.

Lemma availability_degraded_run policy current recent sample :
  m_Valid sample = true ->
  0 < AvailabilityFailures policy <= AvailabilityWindow policy ->
  availability_degraded policy current recent sample = true <->
  run_of (outage_after (RecoveredAt current)) (AvailabilityFailures policy)
    (evidence recent sample).
Proof.
  intros Hv Haf. unfold availability_degraded, countAvailabilityFailures, run_of.
  rewrite latestWindow_evidence by (done || lia).
  rewrite rev_last_n, leading_take, (proj2 (Z.ltb_lt _ _)) by lia. cbn [andb].
  set (l := evidence recent sample). rewrite Z.leb_le.
  rewrite <- (Forall_rev_iff _ (last_n _ _)), rev_last_n.
  pose proof (leading_ge (outage_after (RecoveredAt current))
    (Z.to_nat (AvailabilityFailures policy)) (rev l)) as H.
  rewrite length_rev in H. split.
  - intros Hc. destruct (proj1 H ltac:(lia)). split; [lia|done].
  - intros [H1 H2]. assert (Z.to_nat (AvailabilityFailures policy) <=
      leading (outage_after (RecoveredAt current)) (rev l))%nat; [|lia].
    apply H. split; [lia|done].
Qed.

(** ** The branches of [Apply] *)

(** The status [Apply] starts from. *)
Definition previous (current : State) : Status :=
  if decide (status current = StatusUnset) then StatusLearning else status current.

Definition started (current : State) : State :=
  if decide (status current = StatusUnset)
  then current <| status := StatusLearning |> else current.

Definition sample_of (policy : Policy) (current : State) (observation : Observation) : Sample :=
  sampleFromObservation policy current observation.

Lemma started_same current :
  BaselineTTFB (started current) = BaselineTTFB current /\
  BaselineThroughputMbps (started current) = BaselineThroughputMbps current /\
  BaselineSamples (started current) = BaselineSamples current /\
  RecoveredAt (started current) = RecoveredAt current /\
  status (started current) = previous current.
Proof. unfold started, previous. by case_decide. Qed.

Lemma sample_started policy current observation :
  sampleFromObservation policy (started current) observation =
  sampleFromObservation policy current observation.
Proof.
  unfold sampleFromObservation. destruct (started_same current) as (-> & -> & -> & _). done.
Qed.

Lemma with_windows_same policy current window sample :
  let s := with_windows policy current window sample in
  BaselineTTFB s = BaselineTTFB current /\
  BaselineThroughputMbps s = BaselineThroughputMbps current /\
  BaselineSamples s = BaselineSamples current /\
  WindowValid s = Z.of_nat (length window) /\
  WindowBad s = Z.of_nat (length (List.filter m_Bad window)).
Proof. done. Qed.

Lemma stamp_same current p n window awindow degraded sample at_ :
  let s := stamp current p n window awindow degraded sample at_ in
  BaselineTTFB s = BaselineTTFB current /\
  BaselineThroughputMbps s = BaselineThroughputMbps current /\
  BaselineSamples s = BaselineSamples current /\
  WindowValid s = WindowValid current /\ WindowBad s = WindowBad current /\
  status s = n.
Proof.
  unfold stamp. cbv zeta. case_decide; repeat case_if; done.
Qed.

Lemma follow_baseline_status policy current p n learning sample :
  n = StatusDegraded <-> (follow_baseline policy current p n learning sample).2 = StatusDegraded.
Proof.
  unfold follow_baseline. repeat case_if; split_bool; simpl; try done.
  all: case_bool_decide; case_bool_decide; simpl in *; try done.
Qed.

Lemma follow_baseline_frozen policy current p n learning sample :
  p = StatusDegraded \/ n = StatusDegraded ->
  follow_baseline policy current p n learning sample = (current, n).
Proof.
  intros H. unfold follow_baseline.
  destruct H as [->| ->]; rewrite (bool_decide_eq_false_2 (StatusDegraded <> StatusDegraded)) by
    (intros H; by apply H); rewrite ?andb_false_r; done.
Qed.

(** [Apply] on a counted observation. *)
Definition next_status (policy : Policy) (current : State) (recent : list Sample)
    (observation : Observation) : Status :=
  let sample := sampleFromObservation policy current observation in
  window_status policy
    (with_windows policy (started current)
       (latestWindow (WindowSize policy) recent sample) sample)
    (previous current)
    (availability_degraded policy (started current) recent sample).

Lemma Apply_status policy current recent learning observation :
  o_Infrastructure observation = false ->
  let d := Apply policy current recent learning observation in
  From_ (d_Transition d) = previous current /\
  status (d_State d) = To (d_Transition d) /\
  (status (d_State d) = StatusDegraded <->
   next_status policy current recent observation = StatusDegraded).
Proof.
  intros Hi. unfold Apply, next_status. rewrite Hi. fold (started current).
  rewrite sample_started. destruct (started_same current) as (_ & _ & _ & _ & ->).
  set (sample := sampleFromObservation policy current observation). cbv zeta.
  set (w := with_windows _ _ _ _). set (n := window_status _ _ _ _).
  destruct (follow_baseline policy w (previous current) n learning sample) as [c n'] eqn:E.
  cbn [d_State d_Transition From_ To].
  set (s := stamp _ _ _ _ _ _ _ _).
  assert (status s = n') as -> by apply stamp_same.
  split_and!; [done|done|].
  rewrite (follow_baseline_status policy w (previous current) n learning sample), E. done.
Qed.

Lemma previous_degraded current :
  previous current = StatusDegraded <-> status current = StatusDegraded.
Proof. unfold previous. case_decide; split; congruence. Qed.

(** ** Properties *)

(** A policy whose windows hold the samples its thresholds ask for. *)
Definition policy_ok (policy : Policy) : Prop :=
  0 < BadSamples policy /\
  0 < RecoveryGoodSamples policy <= WindowSize policy /\
  0 < AvailabilityFailures policy <= AvailabilityWindow policy.

Lemma default_policy_ok : policy_ok DefaultPolicy.
Proof. unfold policy_ok, DefaultPolicy. simpl. lia. Qed.

(** C37.  A candidate degrades on evidence and only on evidence: from any other
    status an observation makes it degraded exactly if, counting the new sample,
    [BadSamples] of the last [WindowSize] valid samples are bad, or the last
    [AvailabilityFailures] samples are all outages of the route since its last
    recovery.  Isolated failures between healthy samples do not add up. *)
Theorem degrades_exactly_on_evidence policy current recent learning observation :
  policy_ok policy -> o_Infrastructure observation = false ->
  status current <> StatusDegraded ->
  let sample := sampleFromObservation policy current observation in
  let all := evidence recent sample in
  status (d_State (Apply policy current recent learning observation)) = StatusDegraded <->
  BadSamples policy <=
    Z.of_nat (length (List.filter m_Bad (last_n (Z.to_nat (WindowSize policy)) all))) \/
  run_of (outage_after (RecoveredAt current)) (AvailabilityFailures policy) all.
Proof.
  intros (Hb & Hr & Ha) Hi Hs sample all.
  destruct (Apply_status policy current recent learning observation Hi) as (_ & _ & ->).
  unfold next_status, window_status. fold sample.
  rewrite (bool_decide_eq_false_2 (previous current = StatusDegraded))
    by (by rewrite previous_degraded). cbn [andb].
  rewrite latestWindow_evidence by (lia || apply sample_valid). fold all.
  cbn [with_windows windowCounts WindowBad].
  pose proof (availability_degraded_run policy (started current) recent sample
    (sample_valid _ _ _) Ha) as Hav.
  assert (RecoveredAt (started current) = RecoveredAt current) as Hrec
    by apply started_same.
  rewrite Hrec in Hav. fold all in Hav. rewrite <- Hav.
  change (WindowBad (with_windows policy (started current)
    (last_n (Z.to_nat (WindowSize policy)) all) sample)) with
    (Z.of_nat (length (List.filter m_Bad (last_n (Z.to_nat (WindowSize policy)) all)))).
  rewrite <- Z.leb_le, <- orb_true_iff.
  destruct (_ || _); [done|]. rewrite previous_degraded. split; [done|discriminate].
Qed.

(** Recovery is reachable: once the last [WindowSize] samples are all good,
    the candidate is not degraded, whatever it was before. *)
Theorem good_window_ends_degradation policy current recent learning observation :
  policy_ok policy -> o_Infrastructure observation = false ->
  run_of (fun s => negb (m_Bad s)) (WindowSize policy)
    (evidence recent (sampleFromObservation policy current observation)) ->
  status (d_State (Apply policy current recent learning observation)) <> StatusDegraded.
Proof.
  intros (Hb & Hr & Ha) Hi [Hlen Hgood] Hdeg.
  destruct (Apply_status policy current recent learning observation Hi) as (_ & _ & Hn).
  apply Hn in Hdeg. clear Hn. unfold next_status, window_status in Hdeg.
  set (sample := sampleFromObservation policy current observation) in *.
  rewrite latestWindow_evidence in Hdeg by (lia || apply sample_valid).
  set (all := evidence recent sample) in *.
  set (window := last_n (Z.to_nat (WindowSize policy)) all) in *.
  destruct (with_windows_same policy (started current) window sample)
    as (_ & _ & _ & Hv & Hbad).
  assert (List.filter m_Bad window = []) as Hnone.
  { apply filter_none. intros x Hx. rewrite List.Forall_forall in Hgood.
    specialize (Hgood x Hx). by apply negb_true_iff in Hgood. }
  rewrite Hnone in Hbad. simpl length in Hbad.
  assert (length window = Z.to_nat (WindowSize policy)) as Hwl
    by (unfold window; rewrite last_n_length; lia).
  assert (availability_degraded policy (started current) recent sample = false) as Hav.
  { apply not_true_is_false. rewrite availability_degraded_run by (done || apply sample_valid).
    intros [_ Hout]. rewrite List.Forall_forall in Hout, Hgood.
    specialize (Hout sample (newest_in (Z.to_nat (AvailabilityFailures policy)) recent sample
      ltac:(lia))).
    specialize (Hgood sample (newest_in (Z.to_nat (WindowSize policy)) recent sample ltac:(lia))).
    unfold outage_after in Hout. split_bool. congruence. }
  rewrite Hav, Hv, Hbad in Hdeg.
  rewrite (proj2 (Z.leb_le (RecoveryGoodSamples policy) _)), (proj2 (Z.ltb_lt _ _)),
    (proj2 (Z.leb_gt (BadSamples policy) _)) in Hdeg by lia.
  case_bool_decide as Hp; simpl in Hdeg; [by case_if|done].
Qed.

(** A bad route cannot lower its own bar: while a candidate is degraded,
    and on the observation that degrades it or ends the degradation, the learned
    baseline stays as it was; an infrastructure failure changes nothing at all
    and leaves no sample. *)
Theorem baseline_frozen_while_degraded policy current recent learning observation :
  let d := Apply policy current recent learning observation in
  (o_Infrastructure observation = true -> d_State d = current /\ d_Sample d = None) /\
  (status current = StatusDegraded \/ status (d_State d) = StatusDegraded ->
   BaselineTTFB (d_State d) = BaselineTTFB current /\
   BaselineThroughputMbps (d_State d) = BaselineThroughputMbps current /\
   BaselineSamples (d_State d) = BaselineSamples current).
Proof.
  cbv zeta. destruct (o_Infrastructure observation) eqn:Hi.
  { unfold Apply. rewrite Hi. done. }
  split; [done|]. intros Hd.
  destruct (Apply_status policy current recent learning observation Hi) as (_ & _ & Hn).
  rewrite Hn, <- previous_degraded in Hd. clear Hn. revert Hd.
  unfold Apply, next_status. rewrite Hi. fold (started current). rewrite sample_started.
  destruct (started_same current) as (Hb1 & Hb2 & Hb3 & _ & Hp). rewrite Hp.
  set (sample := sampleFromObservation policy current observation). cbv zeta.
  set (w := with_windows _ _ _ _). set (n := window_status _ _ _ _). intros Hd.
  rewrite follow_baseline_frozen by done. cbn [d_State].
  edestruct stamp_same as (-> & -> & -> & _). done.
Qed.

(** *** Reasons *)

Definition safe_text (s : string) : Prop :=
  (String.length s <= 64)%nat /\ Forall (fun b => safe_byte b = true) (bytes_of s).

Lemma safe_byte_ascii b : safe_byte b = true -> 0 <= b < 128.
Proof.
  unfold safe_byte, between. rewrite !orb_true_iff, !andb_true_iff, !Z.leb_le, !Z.eqb_eq. lia.
Qed.

Lemma safe_rune_safe r : safe_byte (safe_rune r) = true.
Proof. unfold safe_rune. by destruct (safe_byte r) eqn:E. Qed.

Lemma safeReason_id s : safe_text s -> safeReason s = s.
Proof.
  intros [Hl Hs]. unfold safeReason, runes.
  rewrite runes_loop_ascii; [|eapply Forall_impl; [exact Hs|]; apply safe_byte_ascii|done].
  rewrite (map_ext_in safe_rune id), map_id, take_ge.
  - apply string_of_bytes_of.
  - by rewrite bytes_of_length.
  - intros b Hb. unfold safe_rune, id. rewrite List.Forall_forall in Hs. by rewrite Hs.
Qed.

Lemma safeReason_bytes s : bytes_of (safeReason s) = take 64 (map safe_rune (runes s)).
Proof.
  apply bytes_of_of_bytes, Forall_take, List.Forall_forall. intros b Hb.
  apply in_map_iff in Hb as (r & <- & _). pose proof (safe_byte_ascii _ (safe_rune_safe r)). lia.
Qed.

Lemma safeReason_safe s : safe_text (safeReason s).
Proof.
  split.
  - rewrite <- bytes_of_length, safeReason_bytes, length_take. lia.
  - rewrite safeReason_bytes. apply Forall_take, List.Forall_forall. intros b Hb.
    apply in_map_iff in Hb as (r & <- & _). apply safe_rune_safe.
Qed.

(** What a remote agent reports as an error code is stored only in a
    bounded alphabet: whatever bytes it sends (invalid UTF-8 included), the kept
    reason has at most 64 bytes, all letters, digits, [_], [-] or [.]; a reason
    that is already of that form is kept unchanged, so sanitising twice is
    sanitising once. *)
Theorem safe_reason_bounded_idempotent reason :
  safe_text (safeReason reason) /\
  safeReason (safeReason reason) = safeReason reason /\
  (safeReason reason = reason <-> safe_text reason).
Proof.
  split_and!.
  - apply safeReason_safe.
  - apply safeReason_id, safeReason_safe.
  - split; [intros <-; apply safeReason_safe|apply safeReason_id].
Qed.

(** *** Medians *)

#[export] Instance Z_ltb_weak : StrictWeak (fun _ => True) Z.ltb.
Proof. by apply (key_strict_weak _ _ id Z.compare). Qed.

Lemma sort_Z_Permutation_eq (l k : list Z) :
  l ≡ₚ k -> sort_slice Z.ltb l = sort_slice Z.ltb k.
Proof.
  apply (sort_slice_Permutation_eq (fun _ => True)); [done|by apply List.Forall_forall|].
  intros x y _ _. unfold ordered. rewrite !Z.ltb_ge. lia.
Qed.

(** The two middle elements. *)
Definition lower_median (l : list Z) : Z := nth ((length l - 1) / 2) (sort_slice Z.ltb l) 0.
Definition upper_median (l : list Z) : Z := nth (length l / 2) (sort_slice Z.ltb l) 0.

Lemma nth_sorted (l : list Z) i j :
  (i <= j < length l)%nat ->
  nth i (sort_slice Z.ltb l) 0 <= nth j (sort_slice Z.ltb l) 0.
Proof.
  intros Hij. rewrite <- (sort_slice_length Z.ltb l) in Hij.
  pose proof (sort_slice_sorted (fun _ => True) Z.ltb l
    ltac:(by apply List.Forall_forall)) as Hs.
  revert i j Hij. induction Hs as [|x k Hk IH Hx]; intros i j Hij; simpl in Hij; [lia|].
  destruct i as [|i], j as [|j]; simpl; [lia| |lia|apply IH; lia].
  rewrite List.Forall_forall in Hx. assert (In (nth j k 0) k) as Hin by (apply nth_In; lia).
  specialize (Hx _ Hin). unfold ordered in Hx. apply Z.ltb_ge in Hx. lia.
Qed.

Lemma middle_indices n :
  (0 < n)%nat ->
  if (n mod 2 =? 1)%nat then ((n - 1) / 2 = n / 2)%nat
  else ((n - 1) / 2 = n / 2 - 1 /\ 0 < n / 2)%nat.
Proof.
  intros Hn. pose proof (Nat.div_mod_eq n 2). pose proof (Nat.div_mod_eq (n - 1) 2).
  pose proof (Nat.mod_upper_bound n 2 ltac:(lia)).
  pose proof (Nat.mod_upper_bound (n - 1) 2 ltac:(lia)).
  destruct (n mod 2 =? 1)%nat eqn:E; [apply Nat.eqb_eq in E|apply Nat.eqb_neq in E]; lia.
Qed.

(** The median of durations is order independent, never overflows, and is
    exact up to the two halvings: for durations that are not negative it lies
    between the two middle elements, at most one nanosecond below their mean. *)
Theorem median_duration_bounds values :
  values <> [] -> Forall (fun d => 0 <= d <= max_int64) values ->
  (forall values', values ≡ₚ values' -> medianDuration values' = medianDuration values) /\
  In (lower_median values) values /\ In (upper_median values) values /\
  lower_median values <= upper_median values /\
  2 * medianDuration values <= lower_median values + upper_median values /\
  lower_median values + upper_median values <= 2 * medianDuration values + 2 /\
  0 <= medianDuration values <= max_int64.
Proof.
  intros Hne Hf. assert (0 < length values)%nat as Hlen by (destruct values; simpl; [done|lia]).
  assert (forall i, (i < length values)%nat ->
    In (nth i (sort_slice Z.ltb values) 0) values /\
    0 <= nth i (sort_slice Z.ltb values) 0 <= max_int64) as Hin.
  { intros i Hi. assert (In (nth i (sort_slice Z.ltb values) 0) values) as H.
    { rewrite <- (sort_slice_In Z.ltb). apply nth_In. by rewrite sort_slice_length. }
    split; [done|]. rewrite List.Forall_forall in Hf. by apply Hf. }
  pose proof (Nat.div_lt (length values) 2 Hlen ltac:(lia)) as Hhalf.
  assert ((length values - 1) / 2 <= length values / 2)%nat as Hmid
    by (apply Nat.Div0.div_le_mono; lia).
  unfold lower_median, upper_median.
  destruct (Hin _ Hhalf) as [Hu Hur]. destruct (Hin ((length values - 1) / 2)%nat) as [Hl Hlr];
    [lia|].
  pose proof (nth_sorted values _ _ (conj Hmid Hhalf)) as Hord.
  split_and!; [|done|done|done| | |  | ].
  { intros k Hk. unfold medianDuration. rewrite (sort_Z_Permutation_eq values k) by done.
    destruct values as [|a l]; [done|]. destruct k as [|b k']; [|done].
    by apply Permutation_nil_r in Hk. }
  all: unfold medianDuration; destruct values as [|a l] eqn:Ev; [done|];
    rewrite <- Ev in *; rewrite !sort_slice_length;
    pose proof (middle_indices (length values) Hlen) as Hm;
    destruct (length values mod 2 =? 1)%nat;
    [rewrite Hm in *; lia|destruct Hm as [Hm Hpos]; rewrite Hm in *].
  all: set (x := nth (length values / 2 - 1) _ 0) in *;
    set (y := nth (length values / 2) _ 0) in *;
    pose proof (Z.quot_div_nonneg x 2 ltac:(lia) ltac:(lia)) as Hx;
    pose proof (Z.quot_div_nonneg y 2 ltac:(lia) ltac:(lia)) as Hy;
    rewrite Hx, Hy;
    pose proof (Z.div_mod x 2); pose proof (Z.div_mod y 2);
    pose proof (Z.mod_pos_bound x 2); pose proof (Z.mod_pos_bound y 2);
    rewrite wrap64_id by (unfold min_int64, max_int64 in *; lia); lia.
Qed.

(** ** Witnesses *)

Definition sample_state (st : Status) : State := {|
  CandidateID := "vless-a"; status := st; BaselineTTFB := 200 * millisecond;
  BaselineThroughputMbps := 20; BaselineSamples := 5; CurrentTTFB := 0;
  CurrentThroughputMbps := 0; WindowValid := 0; WindowBad := 0; WindowStartedAt := 0;
  WindowMaxGap := 0; MedianEffectiveTime := 0; MedianTTFB := 0; MedianThroughputMbps := 0;
  LastValidAt := 0; LastReason := EmptyString; DegradedAt := 0; RecoveredAt := 0;
  UpdatedAt := 0 |}.

Definition sample_observation (at_ : Time) (ok : bool) (code : string) : Observation := {|
  o_At := at_; o_Success := ok; o_Infrastructure := false; o_ErrorCode := code;
  o_TTFB := 150 * millisecond; o_TransferDuration := second; o_Bytes := 262144;
  o_ThroughputMbps := 25; o_ApplicationChecks := []; o_UnconfirmedHTTP := false;
  o_ComparisonPolicy := EmptyString; o_UDPReachable := None |}.

Definition sample_at (at_ : Time) (ok : bool) (code : string) : Sample :=
  sampleFromObservation DefaultPolicy (sample_state StatusHealthy)
    (sample_observation at_ ok code).

(** Two routed timeouts after good samples, and the third. *)
Definition sample_outages : list Sample :=
  [sample_at 1 true EmptyString; sample_at 2 true EmptyString;
   sample_at 3 false ReasonRouteTimeout; sample_at 4 false ReasonRouteTimeout].

Lemma degrades_exactly_on_evidence_witness :
  status (d_State (Apply DefaultPolicy (sample_state StatusHealthy) sample_outages []
    (sample_observation 5 false ReasonRouteTimeout))) = StatusDegraded <->
  BadSamples DefaultPolicy <=
    Z.of_nat (length (List.filter m_Bad (last_n 5
      (evidence sample_outages (sample_at 5 false ReasonRouteTimeout))))) \/
  run_of (outage_after 0) 3
    (evidence sample_outages (sample_at 5 false ReasonRouteTimeout)).
Proof.
  apply (degrades_exactly_on_evidence DefaultPolicy (sample_state StatusHealthy)
    sample_outages [] (sample_observation 5 false ReasonRouteTimeout));
    [exact default_policy_ok|reflexivity|discriminate].
Defined.

Example three_timeouts_degrade :
  let d := Apply DefaultPolicy (sample_state StatusHealthy) sample_outages []
             (sample_observation 5 false ReasonRouteTimeout) in
  status (d_State d) = StatusDegraded /\ LastReason (d_State d) = ReasonRouteTimeout.
Proof. vm_compute. done. Qed.

Definition sample_good : list Sample :=
  [sample_at 1 false ReasonRouteTimeout; sample_at 2 true EmptyString;
   sample_at 3 true EmptyString; sample_at 4 true EmptyString; sample_at 5 true EmptyString].

Lemma good_window_ends_degradation_witness :
  status (d_State (Apply DefaultPolicy (sample_state StatusDegraded) sample_good []
    (sample_observation 6 true EmptyString))) <> StatusDegraded.
Proof.
  apply (good_window_ends_degradation DefaultPolicy (sample_state StatusDegraded)
    sample_good [] (sample_observation 6 true EmptyString));
    [exact default_policy_ok|reflexivity|].
  vm_compute. split; [discriminate|repeat constructor].
Defined.

Lemma median_duration_bounds_witness :
  (forall values', [5; 2; 9; 4] ≡ₚ values' ->
     medianDuration values' = medianDuration [5; 2; 9; 4]) /\
  In (lower_median [5; 2; 9; 4]) [5; 2; 9; 4] /\ In (upper_median [5; 2; 9; 4]) [5; 2; 9; 4] /\
  lower_median [5; 2; 9; 4] <= upper_median [5; 2; 9; 4] /\
  2 * medianDuration [5; 2; 9; 4] <= lower_median [5; 2; 9; 4] + upper_median [5; 2; 9; 4] /\
  lower_median [5; 2; 9; 4] + upper_median [5; 2; 9; 4] <=
    2 * medianDuration [5; 2; 9; 4] + 2 /\
  0 <= medianDuration [5; 2; 9; 4] <= max_int64.
Proof.
  apply (median_duration_bounds [5; 2; 9; 4]);
    [discriminate|repeat constructor; vm_compute; discriminate].
Defined.
