(* ===== verification/SchedLoad.v ===== *)
(** Routes, clients and load of the scheduler (internal/scheduler/load.go and
    the data of internal/scheduler/scheduler.go): route identity, failure
    domains, selection quality, the soft capacity of a physical route, and
    rendezvous placement. *)
From S2P Require Import Prelude GoOrder GoFloat GoStrings GoSort Sha256 QoE.

#[local] Open Scope Z_scope.

(** ** Data *)

(** The zero value of the string type is neither protocol. *)
Inductive Protocol := ProtocolVLESS | ProtocolTor | ProtocolNone.

#[export] Instance Protocol_eq_dec : EqDecision Protocol.
Proof. solve_decision. Defined.

Record Candidate := {
  ID : string;
  proto : Protocol;
  RouteKey : string;
  ProfileID : string;
  Score : float;
  TCPQualified : bool;
  UDPQualified : bool;
  ReserveEligible : bool;
  ActiveEligible : bool;
  ActiveFresh : bool;
  Warm : bool;
  Retiring : bool;
  ServingOnly : bool;
  FailureDomain : string;
  CircuitOpen : bool;
  QoEStatus : QoE.Status;
  QoEEffective : Duration;
  QoEQuality : float;
  QoEFresh : bool;
  QoEReason : string;
  QoETracked : bool;
  QoEPromotionReady : bool
}.

#[export] Instance Candidate_eta : Eta Candidate := fun c =>
  Build_Candidate (ID c) (proto c) (RouteKey c) (ProfileID c) (Score c) (TCPQualified c)
    (UDPQualified c) (ReserveEligible c) (ActiveEligible c) (ActiveFresh c) (Warm c)
    (Retiring c) (ServingOnly c) (FailureDomain c) (CircuitOpen c) (QoEStatus c)
    (QoEEffective c) (QoEQuality c) (QoEFresh c) (QoEReason c) (QoETracked c)
    (QoEPromotionReady c).

(** Go's zero value, which a lookup of an unknown route yields. *)
Definition zero_candidate : Candidate := {|
  ID := EmptyString; proto := ProtocolNone; RouteKey := EmptyString;
  ProfileID := EmptyString; Score := 0; TCPQualified := false; UDPQualified := false;
  ReserveEligible := false; ActiveEligible := false; ActiveFresh := false; Warm := false;
  Retiring := false; ServingOnly := false; FailureDomain := EmptyString;
  CircuitOpen := false; QoEStatus := StatusUnset; QoEEffective := 0; QoEQuality := 0;
  QoEFresh := false; QoEReason := EmptyString; QoETracked := false;
  QoEPromotionReady := false |}.

(** [byID]: the last candidate of an identifier wins. *)
Definition index_by_id (candidates : list Candidate) : gmap string Candidate :=
  fold_left (fun m c => <[ID c := c]> m) candidates ∅.

Definition get_candidate (byID : gmap string Candidate) (id : string) : Candidate :=
  default zero_candidate (byID !! id).

Record Assignment := {
  TCP : string;
  UDP : string;
  TCPSince : Time;
  UDPSince : Time
}.

#[export] Instance Assignment_eta : Eta Assignment := fun a =>
  Build_Assignment (TCP a) (UDP a) (TCPSince a) (UDPSince a).

Definition no_assignment : Assignment :=
  {| TCP := EmptyString; UDP := EmptyString; TCPSince := zero_time; UDPSince := zero_time |}.

Record ReserveSelection := {
  rs_TCP : string;
  rs_UDP : string
}.

Record Client := {
  Dormant : bool;
  PreserveTCP : bool;
  PreserveUDP : bool;
  AppliedReserve : ReserveSelection;
  clientID : string;
  LastTraffic : Time;
  assignment : Assignment
}.

(** Counters by route or domain; a missing key reads as zero. *)
Abbreviation Load := (gmap string Z) (only parsing).

Definition at_key (load : Load) (key : string) : Z := default 0 (load !! key).
Definition add_at (key : string) (delta : Z) (load : Load) : Load :=
  <[key := at_key load key + delta]> load.

(** ** Identity, domains and quality *)

Definition sameRouteIdentity (primary candidate : Candidate) : bool :=
  if str_eqb (ID primary) (ID candidate) then true
  else if negb (str_eqb (RouteKey primary) EmptyString) &&
          str_eqb (RouteKey primary) (RouteKey candidate) then true
  else negb (str_eqb (ProfileID primary) EmptyString) &&
       str_eqb (ProfileID primary) (ProfileID candidate).

Definition legacyCandidateDomain (candidateID : string) : string :=
  (String (Ascii.ascii_of_N 0) "legacy-candidate:" ++ candidateID)%string.

Definition candidateDomain (candidate : Candidate) : string :=
  if negb (str_eqb (FailureDomain candidate) EmptyString) then FailureDomain candidate
  else legacyCandidateDomain (ID candidate).

Definition candidateIDDomain (candidateID : string) (byID : gmap string Candidate) : string :=
  match byID !! candidateID with
  | Some candidate => candidateDomain candidate
  | None => legacyCandidateDomain candidateID
  end.

Definition selectionQuality (candidate : Candidate) : float :=
  if fgt (QoEQuality candidate) 0 then QoEQuality candidate
  else if 0 <? QoEEffective candidate
  then (1 / duration_seconds (QoEEffective candidate))%float
  else Score candidate.

Definition ComparableQuality (candidate incumbent : Candidate) : bool :=
  if fgt (QoEQuality candidate) 0 && fgt (QoEQuality incumbent) 0
  then fge (QoEQuality candidate) (QoEQuality incumbent * 0.8)%float
  else fge (Score candidate) (Score incumbent * 0.8)%float.

Definition RouteLoad (candidate : Candidate) (inventory : list Candidate) (load : Load) : Z :=
  fold_left
    (fun count other =>
       if negb (str_eqb (ID other) (ID candidate)) && sameRouteIdentity candidate other
       then count + at_key load (ID other) else count)
    inventory (at_key load (ID candidate)).

Definition best_quality (candidates : list Candidate) : float :=
  fold_left (fun best c => math_max best (selectionQuality c)) candidates 0%float.

Definition spare (best : float) (inventory : list Candidate) (load : Load)
    (candidate : Candidate) : bool :=
  fge (selectionQuality candidate) (best * 0.8)%float &&
  (RouteLoad candidate inventory load <? 2).

(** [if len(l) > 0 { return l }; return fallback]. *)
Definition or_else {A} (l fallback : list A) : list A :=
  match l with [] => fallback | _ => l end.

Definition preferSpareCapacity (eligible inventory : list Candidate) (load : Load) :
    list Candidate :=
  or_else (List.filter (spare (best_quality eligible) inventory load) eligible) eligible.

(** ** Rendezvous placement *)

Definition placement_score (key : string) (load domainLoad : Load)
    (candidate : Candidate) : float :=
  let candidateLoad := at_key load (ID candidate) in
  let cDomainLoad := at_key domainLoad (candidateDomain candidate) in
  let effectiveScore :=
    (math_max (selectionQuality candidate) 0.001 /
     (1 + 0.05 * float_of_Z candidateLoad + 0.02 * float_of_Z cDomainLoad))%float in
  let digest := sha256 (bytes_of (key ++ String (Ascii.ascii_of_N 0) (ID candidate))) in
  let raw := digest_uint64 digest in
  let uniform := ((float_of_Z raw + 1) / (float_of_Z (2 ^ 64 - 1) + 1))%float in
  (effectiveScore * (1 + 0.01 * uniform))%float.

Definition rendezvous_step (key : string) (load domainLoad : Load)
    (acc : string * float) (candidate : Candidate) : string * float :=
  let '(selected, bestScore) := acc in
  let scoreWithHash := placement_score key load domainLoad candidate in
  if fgt scoreWithHash bestScore ||
     (PrimFloat.eqb scoreWithHash bestScore && str_ltb (ID candidate) selected)
  then (ID candidate, scoreWithHash) else acc.

Definition rendezvous (key : string) (candidates : list Candidate)
    (load domainLoad : Load) : string :=
  match candidates with
  | [] => EmptyString
  | _ =>
      let candidates := preferSpareCapacity candidates candidates load in
      (fold_left (rendezvous_step key load domainLoad) candidates
         (EmptyString, (-1)%float)).1
  end.

(** ** Open failure domains *)

Definition open_domains (candidates : list Candidate) : gset string :=
  list_to_set (map FailureDomain
    (List.filter (fun c => CircuitOpen c && negb (str_eqb (FailureDomain c) EmptyString))
       candidates)).

Definition normalizeOpenDomains (candidates : list Candidate) : list Candidate :=
  let openDomains := open_domains candidates in
  map (fun c => if bool_decide (FailureDomain c ∈ openDomains)
                then c <| CircuitOpen := true |> else c) candidates.

Definition assignmentUsesOpenDomain (a : Assignment) (byID : gmap string Candidate) : bool :=
  let open_ candidateID :=
    match byID !! candidateID with Some c => CircuitOpen c | None => false end in
  open_ (TCP a) || open_ (UDP a).

(** ** Load *)

Definition is_active (now : Time) (inactiveAfter : Duration) (client : Client) : bool :=
  negb (time_is_zero (LastTraffic client)) &&
  (time_sub now (LastTraffic client) <=? inactiveAfter).

Definition activeDomainLoad (now : Time) (clients : list Client)
    (byID : gmap string Candidate) (inactiveAfter : Duration) : Load :=
  fold_left
    (fun result client =>
       if negb (is_active now inactiveAfter client) then result
       else
         let tcpID := TCP (assignment client) in
         let udpID := UDP (assignment client) in
         let domainTCP := if str_eqb tcpID EmptyString then EmptyString
                          else candidateIDDomain tcpID byID in
         let result := if negb (str_eqb tcpID EmptyString)
                       then add_at domainTCP 1 result else result in
         if negb (str_eqb udpID EmptyString) then
           let domainUDP := candidateIDDomain udpID byID in
           if str_eqb tcpID EmptyString || negb (str_eqb domainUDP domainTCP)
           then add_at domainUDP 1 result else result
         else result)
    clients ∅.

Definition adjustAssignmentLoad (load domainLoad : Load) (a : Assignment)
    (byID : gmap string Candidate) (delta : Z) : Load * Load :=
  let tcpID := TCP a in
  let udpID := UDP a in
  let '(load, domainLoad) :=
    if negb (str_eqb tcpID EmptyString)
    then (add_at tcpID delta load,
          add_at (candidateIDDomain tcpID byID) delta domainLoad)
    else (load, domainLoad) in
  let load :=
    if negb (str_eqb udpID EmptyString) && negb (str_eqb udpID tcpID)
    then add_at udpID delta load else load in
  let domainLoad :=
    if negb (str_eqb udpID EmptyString) then
      let domainUDP := candidateIDDomain udpID byID in
      if str_eqb tcpID EmptyString ||
         negb (str_eqb domainUDP (candidateIDDomain tcpID byID))
      then add_at domainUDP delta domainLoad else domainLoad
    else domainLoad in
  (load, domainLoad).

Definition loadFromAssignments (now : Time) (clients : list Client)
    (assignments : gmap string Assignment) (inactiveAfter : Duration) : Load :=
  fold_left
    (fun result client =>
       if negb (is_active now inactiveAfter client) then result
       else
         let a := default no_assignment (assignments !! clientID client) in
         let tcpID := TCP a in
         let udpID := UDP a in
         let result := if negb (str_eqb tcpID EmptyString)
                       then add_at tcpID 1 result else result in
         if negb (str_eqb udpID EmptyString) && negb (str_eqb udpID tcpID)
         then add_at udpID 1 result else result)
    clients ∅.

Definition activeLoad (now : Time) (clients : list Client) (inactiveAfter : Duration) : Load :=
  let assignments :=
    fold_left (fun m client => <[clientID client := assignment client]> m) clients ∅ in
  loadFromAssignments now clients assignments inactiveAfter.

(** ** Counters *)

Lemma at_key_add key delta load k :
  at_key (add_at key delta load) k = at_key load k + (if decide (key = k) then delta else 0).
Proof.
  unfold add_at, at_key. case_decide as E; subst.
  - by rewrite lookup_insert_eq.
  - rewrite lookup_insert_ne by done. lia.
Qed.

(** Equal as counters: a missing key and a zero are the same. *)
Definition load_equiv (a b : Load) : Prop := forall k, at_key a k = at_key b k.

#[export] Instance load_equiv_equivalence : Equivalence load_equiv.
Proof.
  split; unfold load_equiv; [done|by intros a b H k; rewrite H|].
  intros a b c H1 H2 k. by rewrite H1.
Qed.

#[export] Instance add_at_proper key delta : Proper (load_equiv ==> load_equiv) (add_at key delta).
Proof. intros a b H k. rewrite !at_key_add. by rewrite H. Qed.

(** What one assignment adds to the counter of a route and of a domain. *)
Definition route_share (a : Assignment) (k : string) : Z :=
  (if negb (str_eqb (TCP a) EmptyString) && str_eqb (TCP a) k then 1 else 0) +
  (if negb (str_eqb (UDP a) EmptyString) && negb (str_eqb (UDP a) (TCP a)) &&
      str_eqb (UDP a) k then 1 else 0).

Definition domain_share (byID : gmap string Candidate) (a : Assignment) (k : string) : Z :=
  (if negb (str_eqb (TCP a) EmptyString) && str_eqb (candidateIDDomain (TCP a) byID) k
   then 1 else 0) +
  (if negb (str_eqb (UDP a) EmptyString) &&
      (str_eqb (TCP a) EmptyString ||
       negb (str_eqb (candidateIDDomain (UDP a) byID) (candidateIDDomain (TCP a) byID))) &&
      str_eqb (candidateIDDomain (UDP a) byID) k then 1 else 0).

Lemma str_eqb_decide x y : str_eqb x y = if decide (x = y) then true else false.
Proof. unfold str_eqb. case_bool_decide; by case_decide. Qed.

(** Case analysis on the identifiers of an assignment. *)
Ltac count_shares :=
  rewrite ?str_eqb_decide;
  repeat (case_decide; subst; cbn [negb andb orb fst snd] in *; rewrite ?at_key_add);
  try lia; try congruence.

Lemma adjustAssignmentLoad_shares load domainLoad a byID delta k :
  at_key (adjustAssignmentLoad load domainLoad a byID delta).1 k =
    at_key load k + delta * route_share a k /\
  at_key (adjustAssignmentLoad load domainLoad a byID delta).2 k =
    at_key domainLoad k + delta * domain_share byID a k.
Proof.
  unfold adjustAssignmentLoad, route_share, domain_share.
  destruct a as [tcp udp ? ?]; cbn [TCP UDP].
  split; count_shares.
Qed.

(** Sums of shares over the active clients. *)
Fixpoint sum_over {A} (f : A -> Z) (l : list A) : Z :=
  match l with [] => 0 | x :: l => f x + sum_over f l end.

Definition client_share (now : Time) (inactiveAfter : Duration)
    (share : Assignment -> string -> Z) (assigned : Client -> Assignment)
    (k : string) (client : Client) : Z :=
  if is_active now inactiveAfter client then share (assigned client) k else 0.

Lemma fold_left_at_key (step : Load -> Client -> Load) (f : Client -> Z) k clients acc :
  (forall acc c, at_key (step acc c) k = at_key acc k + f c) ->
  at_key (fold_left step clients acc) k = at_key acc k + sum_over f clients.
Proof.
  intros H. revert acc. induction clients as [|c l IH]; intros acc; simpl; [lia|].
  rewrite IH, H. lia.
Qed.

Lemma loadFromAssignments_sum now clients assignments inactiveAfter k :
  at_key (loadFromAssignments now clients assignments inactiveAfter) k =
  sum_over (client_share now inactiveAfter route_share
    (fun c => default no_assignment (assignments !! clientID c)) k) clients.
Proof.
  unfold loadFromAssignments. erewrite fold_left_at_key; [reflexivity|].
  intros acc c. unfold client_share, route_share.
  destruct (is_active now inactiveAfter c); cbn [negb]; [|lia].
  destruct (default no_assignment (assignments !! clientID c)) as [tcp udp ? ?].
  cbn [TCP UDP]. count_shares.
Qed.

Lemma activeDomainLoad_sum now clients byID inactiveAfter k :
  at_key (activeDomainLoad now clients byID inactiveAfter) k =
  sum_over (client_share now inactiveAfter (domain_share byID) assignment k) clients.
Proof.
  unfold activeDomainLoad. erewrite fold_left_at_key; [reflexivity|].
  intros acc c. unfold client_share, domain_share.
  destruct (is_active now inactiveAfter c); cbn [negb]; [|lia].
  destruct (assignment c) as [tcp udp ? ?]. cbn [TCP UDP]. count_shares.
Qed.

Lemma sum_over_ext {A} (f g : A -> Z) l :
  (forall x, In x l -> f x = g x) -> sum_over f l = sum_over g l.
Proof.
  induction l as [|x l IH]; simpl; intros H; [done|]. rewrite (H x), IH by auto. done.
Qed.

Lemma sum_over_app {A} (f : A -> Z) l k : sum_over f (l ++ k) = sum_over f l + sum_over f k.
Proof. induction l as [|x l IH]; simpl; lia. Qed.

(** The assignments [activeLoad] reads: each client's own. *)
Lemma assignments_lookup clients c :
  NoDup (map clientID clients) -> In c clients ->
  fold_left (fun m client => <[clientID client := assignment client]> m) clients
    (∅ : gmap string Assignment) !! clientID c = Some (assignment c).
Proof.
  assert (forall m : gmap string Assignment, NoDup (map clientID clients) ->
    (clientID c ∉ map clientID clients ->
      fold_left (fun m client => <[clientID client := assignment client]> m) clients m
        !! clientID c = m !! clientID c) /\
    (In c clients ->
      fold_left (fun m client => <[clientID client := assignment client]> m) clients m
        !! clientID c = Some (assignment c))) as H.
  { induction clients as [|x l IH]; intros m Hnd; cbn [map fold_left]; [done|].
    apply NoDup_cons in Hnd as [Hx Hnd]. destruct (IH (<[clientID x := assignment x]> m) Hnd)
      as [IH1 IH2]. split.
    - rewrite not_elem_of_cons. intros [Hne Hl]. rewrite IH1 by done.
      by rewrite lookup_insert_ne.
    - intros [->|Hin]; [|by apply IH2]. rewrite IH1 by done. by rewrite lookup_insert_eq. }
  intros Hnd Hin. by apply H.
Qed.

Lemma activeLoad_sum now clients inactiveAfter k :
  NoDup (map clientID clients) ->
  at_key (activeLoad now clients inactiveAfter) k =
  sum_over (client_share now inactiveAfter route_share assignment k) clients.
Proof.
  intros Hnd. unfold activeLoad. rewrite loadFromAssignments_sum. apply sum_over_ext.
  intros c Hc. unfold client_share. by rewrite assignments_lookup.
Qed.

(** Replacing the assignment of one client. *)
Definition reassign (c : Client) (a : Assignment) : Client :=
  {| Dormant := Dormant c; PreserveTCP := PreserveTCP c; PreserveUDP := PreserveUDP c;
     AppliedReserve := AppliedReserve c; clientID := clientID c;
     LastTraffic := LastTraffic c; assignment := a |}.

(** The scheduler's incremental accounting is exact: taking an active
    client's old assignment out of the route and domain counters and putting the
    new one in yields, for every route and every failure domain, the counters a
    recomputation from the updated clients would give. *)
Theorem incremental_load_is_recomputed now inactiveAfter byID before_ c a' after_ :
  let clients := before_ ++ c :: after_ in
  let clients' := before_ ++ reassign c a' :: after_ in
  NoDup (map clientID clients) -> is_active now inactiveAfter c = true ->
  let old := adjustAssignmentLoad (activeLoad now clients inactiveAfter)
               (activeDomainLoad now clients byID inactiveAfter) (assignment c) byID (-1) in
  let new := adjustAssignmentLoad old.1 old.2 a' byID 1 in
  load_equiv new.1 (activeLoad now clients' inactiveAfter) /\
  load_equiv new.2 (activeDomainLoad now clients' byID inactiveAfter).
Proof.
  intros clients clients' Hnd Ha old new.
  assert (NoDup (map clientID clients')) as Hnd'.
  { unfold clients', clients in *. rewrite map_app in *. exact Hnd. }
  assert (is_active now inactiveAfter (reassign c a') = true) as Ha' by exact Ha.
  split; intros k; unfold new, old.
  - rewrite (proj1 (adjustAssignmentLoad_shares _ _ a' byID 1 k)).
    rewrite (proj1 (adjustAssignmentLoad_shares _ _ (assignment c) byID (-1) k)).
    rewrite !activeLoad_sum by done. unfold clients, clients'.
    rewrite !sum_over_app. cbn [sum_over]. unfold client_share at 2 5. rewrite Ha, Ha'.
    simpl. lia.
  - rewrite (proj2 (adjustAssignmentLoad_shares _ _ a' byID 1 k)).
    rewrite (proj2 (adjustAssignmentLoad_shares _ _ (assignment c) byID (-1) k)).
    rewrite !activeDomainLoad_sum. unfold clients, clients'.
    rewrite !sum_over_app. cbn [sum_over]. unfold client_share at 2 5. rewrite Ha, Ha'.
    simpl. lia.
Qed.

(** ** Rendezvous placement *)

Lemma or_else_nil {A} (l k : list A) : or_else l k = [] <-> l = [] /\ k = [].
Proof. destruct l; simpl; naive_solver. Qed.

Lemma or_else_In {A} (l k : list A) x : In x (or_else l k) -> In x l \/ In x k.
Proof. destruct l; simpl; tauto. Qed.

Lemma or_else_Permutation {A} (l l' k k' : list A) :
  l ≡ₚ l' -> k ≡ₚ k' -> or_else l k ≡ₚ or_else l' k'.
Proof.
  intros Hl Hk. destruct l as [|x l], l' as [|y l']; simpl; [done| | |done].
  - by apply Permutation_nil_l in Hl.
  - by apply Permutation_nil_r in Hl.
Qed.

Lemma preferSpareCapacity_incl eligible inventory load c :
  In c (preferSpareCapacity eligible inventory load) -> In c eligible.
Proof. intros [H%filter_incl|H]%or_else_In; done. Qed.

Lemma preferSpareCapacity_nil eligible inventory load :
  preferSpareCapacity eligible inventory load = [] <-> eligible = [].
Proof.
  unfold preferSpareCapacity. rewrite or_else_nil. split; [tauto|]. by intros ->.
Qed.

(** A choice has spare capacity if any comparable route has. *)
Lemma preferSpareCapacity_spare eligible inventory load c x :
  In c (preferSpareCapacity eligible inventory load) -> In x eligible ->
  spare (best_quality eligible) inventory load x = true ->
  spare (best_quality eligible) inventory load c = true.
Proof.
  unfold preferSpareCapacity.
  destruct (List.filter _ eligible) as [|y l] eqn:E.
  - intros _ Hx Hs. by rewrite (proj1 (filter_none _ _) E x Hx) in Hs.
  - simpl or_else. rewrite <- E, filter_In. tauto.
Qed.

Section Fold.
Context (key : string) (load domainLoad : Load).
Implicit Types (l : list Candidate) (c x : Candidate).

Abbreviation score := (placement_score key load domainLoad).
Abbreviation step := (rendezvous_step key load domainLoad).

(** [x] is chosen before [c]. *)
Definition chosen_before x c : bool :=
  fgt (score x) (score c) || (PrimFloat.eqb (score x) (score c) && str_ltb (ID x) (ID c)).

Lemma rendezvous_fold_In l acc :
  (fold_left step l acc).1 = acc.1 \/ exists c, In c l /\ ID c = (fold_left step l acc).1.
Proof.
  revert acc. induction l as [|c l IH]; intros acc; cbn [fold_left]; [by left|].
  destruct (IH (step acc c)) as [->|(x & Hx & Hsel)];
    [|right; exists x; split; [by right|done]].
  destruct acc as [sel best]. unfold rendezvous_step.
  case_if; [right; exists c; split; [by left|done]|by left].
Qed.

(** A winner: a candidate of the list that none of them is chosen before. *)
Definition winner l c : Prop := In c l /\ forall x, In x l -> chosen_before x c = false.

Lemma chosen_before_key x c :
  number (score x) = true -> number (score c) = true ->
  chosen_before x c =
  is_lt (score_compare (fkey (score x), ID x) (fkey (score c), ID c)).
Proof. intros. unfold chosen_before. by rewrite score_compare_spec. Qed.

Lemma rendezvous_fold_winner l c :
  (forall x, In x (c :: l) -> number (score x) = true) ->
  exists w, winner (c :: l) w /\ (fold_left step l (ID c, score c)).1 = ID w.
Proof.
  revert c. induction l as [|y l IH]; intros c Hn.
  { exists c. split; [|done]. split; [by left|]. intros x [->|[]].
    rewrite chosen_before_key by (apply Hn; by left). by rewrite tc_refl. }
  assert (number (score c) = true) as Hc by (apply Hn; by left).
  assert (number (score y) = true) as Hy by (apply Hn; right; by left).
  cbn [fold_left]. unfold rendezvous_step at 2. fold (chosen_before y c).
  destruct (chosen_before y c) eqn:E.
  - destruct (IH y) as (w & [Hw Hmax] & ->); [intros x Hx; apply Hn; by right|].
    exists w. split; [|done]. split; [by right|]. intros x [->|Hx]; [|by apply Hmax].
    assert (number (score w) = true) as Hwn by (apply Hn; by right).
    pose proof (Hmax y (or_introl eq_refl)) as Hyw.
    rewrite chosen_before_key in E, Hyw |- * by done.
    rewrite is_lt_true in E. rewrite is_lt_false in Hyw |- *. intros Hxw. apply Hyw.
    exact (tc_trans _ _ _ E Hxw).
  - destruct (IH c) as (w & [Hw Hmax] & ->).
    { intros x [->|Hx]; [done|]. apply Hn. right. by right. }
    exists w. split; [|done]. split; [destruct Hw; simpl; auto|].
    intros x [->|[->|Hx]]; [apply Hmax; by left| |apply Hmax; by right].
    assert (number (score w) = true) as Hwn by (apply Hn; destruct Hw; simpl; auto).
    pose proof (Hmax c (or_introl eq_refl)) as Hcw.
    rewrite chosen_before_key in E, Hcw |- * by done. rewrite is_lt_false in *.
    by apply (tc_nlt_trans _ (fkey (score c), ID c)).
Qed.

Lemma winner_unique l c d :
  (forall x, In x l -> number (score x) = true) -> winner l c -> winner l d -> ID c = ID d.
Proof.
  intros Hn [Hc Hcm] [Hd Hdm]. specialize (Hcm d Hd). specialize (Hdm c Hc).
  rewrite chosen_before_key in Hcm, Hdm by auto. rewrite is_lt_false in *.
  destruct (score_compare (fkey (score c), ID c) (fkey (score d), ID d)) eqn:E.
  - apply (tc_eq (cmp := score_compare)) in E. congruence.
  - done.
  - by apply (tc_gt (cmp := score_compare)) in E.
Qed.

(** Every score beats the initial one. *)
Definition placeable l : Prop := forall c, In c l -> PrimFloat.ltb (-1)%float (score c) = true.

Lemma placeable_number l c : placeable l -> In c l -> number (score c) = true.
Proof. intros H Hc. by apply H, ltb_number in Hc as [_ ?]. Qed.

Lemma rendezvous_winner l :
  l <> [] -> placeable l ->
  exists w, winner l w /\ (fold_left step l (EmptyString, (-1)%float)).1 = ID w.
Proof.
  intros Hne Hp. destruct l as [|c l]; [done|]. cbn [fold_left].
  unfold rendezvous_step at 2. unfold fgt. rewrite (Hp c) by (by left). cbn [orb].
  apply rendezvous_fold_winner. intros x Hx. by eapply placeable_number.
Qed.
End Fold.

Lemma RouteLoad_Permutation c inventory inventory' load :
  inventory ≡ₚ inventory' -> RouteLoad c inventory load = RouteLoad c inventory' load.
Proof.
  unfold RouteLoad. intros Hp. generalize (at_key load (ID c)).
  induction Hp as [|x l m Hp IH|x y l|l m n H1 IH1 H2 IH2]; intros a; simpl.
  - done.
  - apply IH.
  - f_equal. repeat case_if; lia.
  - by rewrite IH1.
Qed.

Definition qualities_ok (l : list Candidate) : Prop :=
  forall c, In c l -> number (selectionQuality c) = true.

Lemma preferSpareCapacity_Permutation l m load :
  qualities_ok l -> l ≡ₚ m ->
  preferSpareCapacity l l load ≡ₚ preferSpareCapacity m m load.
Proof.
  intros Hq Hp. unfold preferSpareCapacity. apply or_else_Permutation; [|done].
  assert (best_quality l = best_quality m) as ->.
  { by apply fold_max_Permutation; [by vm_compute| |]. }
  rewrite (filter_Permutation _ _ _ Hp).
  erewrite filter_ext_In; [done|]. intros c _. unfold spare.
  by rewrite (RouteLoad_Permutation c l m).
Qed.

(** Placement is a rendezvous: it does not depend on the order in which
    the routes are listed, it picks one of them, and the pick keeps to the soft
    capacity: it is a comparable route with fewer than two clients whenever
    there is one. *)
Theorem rendezvous_placement key candidates candidates' load domainLoad :
  candidates <> [] -> candidates ≡ₚ candidates' ->
  qualities_ok candidates -> placeable key load domainLoad candidates ->
  rendezvous key candidates load domainLoad = rendezvous key candidates' load domainLoad /\
  exists c, In c candidates /\ rendezvous key candidates load domainLoad = ID c /\
    ((exists x, In x candidates /\
        spare (best_quality candidates) candidates load x = true) ->
     spare (best_quality candidates) candidates load c = true).
Proof.
  intros Hne Hp Hq Hpl.
  assert (forall l, l <> [] -> rendezvous key l load domainLoad =
    (fold_left (rendezvous_step key load domainLoad) (preferSpareCapacity l l load)
       (EmptyString, (-1)%float)).1) as Hr by (by intros []).
  assert (candidates' <> []) as Hne'.
  { intros ->. by apply Permutation_nil_r in Hp. }
  rewrite !Hr by done.
  pose proof (preferSpareCapacity_Permutation _ _ load Hq Hp) as Hpp.
  set (l := preferSpareCapacity candidates candidates load) in *.
  set (l' := preferSpareCapacity candidates' candidates' load) in *.
  assert (l <> []) as Hl by (unfold l; by rewrite preferSpareCapacity_nil).
  assert (l' <> []) as Hl' by (unfold l'; by rewrite preferSpareCapacity_nil).
  assert (placeable key load domainLoad l) as Hpl1.
  { intros c Hc. apply Hpl. by apply preferSpareCapacity_incl in Hc. }
  assert (placeable key load domainLoad l') as Hpl2.
  { intros c Hc. apply Hpl1. by rewrite Hpp. }
  destruct (rendezvous_winner key load domainLoad l Hl Hpl1) as (w & Hw & ->).
  destruct (rendezvous_winner key load domainLoad l' Hl' Hpl2) as (w' & Hw' & ->).
  split.
  - apply (winner_unique key load domainLoad l);
      [by intros x Hx; apply (placeable_number _ _ _ l)|done|].
    destruct Hw' as [H1 H2]. split; [by rewrite Hpp|]. intros x Hx. apply H2. by rewrite <- Hpp.
  - exists w. destruct Hw as [Hin _].
    split; [by apply preferSpareCapacity_incl in Hin|]. split; [done|].
    intros (x & Hx & Hs). by eapply preferSpareCapacity_spare.
Qed.

(** ** Witnesses *)

Definition sample_route (id route : string) (quality : float) : Candidate := {|
  ID := id; proto := ProtocolVLESS; RouteKey := route; ProfileID := EmptyString;
  Score := 90; TCPQualified := true; UDPQualified := true; ReserveEligible := true;
  ActiveEligible := true; ActiveFresh := true; Warm := false; Retiring := false;
  ServingOnly := false; FailureDomain := route; CircuitOpen := false;
  QoEStatus := StatusHealthy; QoEEffective := 500 * millisecond; QoEQuality := quality;
  QoEFresh := true; QoEReason := EmptyString; QoETracked := true;
  QoEPromotionReady := true |}.

Definition sample_routes : list Candidate :=
  [sample_route "vless-a" "a" 5; sample_route "vless-b" "b" 4.5; sample_route "vless-c" "c" 1].

(** The best route is full; a comparable one is not. *)
Definition sample_load : gmap string Z := {["vless-a"%string := 2]}.

Lemma rendezvous_placement_witness :
  rendezvous "client:tcp" sample_routes sample_load ∅ =
    rendezvous "client:tcp" (rev sample_routes) sample_load ∅ /\
  exists c, In c sample_routes /\ rendezvous "client:tcp" sample_routes sample_load ∅ = ID c /\
    ((exists x, In x sample_routes /\
        spare (best_quality sample_routes) sample_routes sample_load x = true) ->
     spare (best_quality sample_routes) sample_routes sample_load c = true).
Proof.
  apply (rendezvous_placement "client:tcp" sample_routes (rev sample_routes) sample_load ∅).
  - discriminate.
  - apply Permutation_rev.
  - intros c [<-|[<-|[<-|[]]]]; vm_compute; reflexivity.
  - intros c [<-|[<-|[<-|[]]]]; vm_compute; reflexivity.
Defined.

Example full_route_is_avoided :
  rendezvous "client:tcp" sample_routes sample_load ∅ = "vless-b"%string.
Proof. vm_compute. reflexivity. Qed.

Definition sample_client (id tcp udp : string) : Client := {|
  Dormant := false; PreserveTCP := false; PreserveUDP := false;
  AppliedReserve := {| rs_TCP := EmptyString; rs_UDP := EmptyString |};
  clientID := id; LastTraffic := 1000;
  assignment := {| TCP := tcp; UDP := udp; TCPSince := 500; UDPSince := 500 |} |}.

Lemma incremental_load_is_recomputed_witness :
  let byID := {["vless-a"%string := sample_route "vless-a" "a" 5]} in
  let c := sample_client "alice" "vless-a" "vless-b" in
  let a' := {| TCP := "vless-b"; UDP := "vless-b"; TCPSince := 0; UDPSince := 0 |} in
  let clients := [sample_client "bob" "vless-a" "vless-a"; c] in
  let clients' := [sample_client "bob" "vless-a" "vless-a"; reassign c a'] in
  let old := adjustAssignmentLoad (activeLoad 1010 clients 60)
               (activeDomainLoad 1010 clients byID 60) (assignment c) byID (-1) in
  let new := adjustAssignmentLoad old.1 old.2 a' byID 1 in
  load_equiv new.1 (activeLoad 1010 clients' 60) /\
  load_equiv new.2 (activeDomainLoad 1010 clients' byID 60).
Proof.
  intros byID c a' clients clients'.
  apply (incremental_load_is_recomputed 1010 60 byID
           [sample_client "bob" "vless-a" "vless-a"] c a' []).
  - apply (bool_decide_eq_true_1 _). vm_compute. reflexivity.
  - vm_compute. reflexivity.
Defined.
