(* ===== verification/SchedState.v ===== *)
(** The scheduler's own state (internal/scheduler/scheduler.go): policy,
    exclusions, streaks, and previews that are committed against a version.

    Operations run in a small monad: state of the scheduler, the context (how
    many more checks pass before it is cancelled, if ever), and errors. *)
From S2P Require Import Prelude Effects GoOrder GoFloat GoSort QoE SchedLoad.

#[local] Open Scope Z_scope.

(** ** Data *)

Record Policy := {
  InactiveAfter : Duration;
  MinimumDwell : Duration;
  MinimumImprovement : float;
  RequiredSnapshots : Z;
  MaxPlannedMoves : Z;
  QualityTier : float;
  QoEAlternativeSpeedup : float
}.

Definition PolicyDefaults : Policy := {|
  InactiveAfter := 2 * minute; MinimumDwell := 30 * minute;
  MinimumImprovement := 0.30; RequiredSnapshots := 3;
  MaxPlannedMoves := 1; QualityTier := 0.80;
  QoEAlternativeSpeedup := MinimumAlternativeSpeedup
|}.

Record exclusion := {
  x_CandidateID : string;
  x_Until : Time
}.

Record Scheduler := {
  policy : Policy;
  streaks : gmap string Z;
  exclusions : gmap string (list exclusion);
  version : Z
}.

#[export] Instance Scheduler_eta : Eta Scheduler := fun s =>
  Build_Scheduler (policy s) (streaks s) (exclusions s) (version s).

(** [version++] on a uint64. *)
Definition bump (s : Scheduler) : Scheduler := s <| version := (version s + 1) `mod` 2 ^ 64 |>.

Definition New (p : Policy) : Scheduler :=
  let d := PolicyDefaults in
  {| policy := {|
       InactiveAfter := if InactiveAfter p <=? 0 then InactiveAfter d else InactiveAfter p;
       MinimumDwell := if MinimumDwell p <=? 0 then MinimumDwell d else MinimumDwell p;
       MinimumImprovement :=
         if PrimFloat.leb (MinimumImprovement p) 0 then MinimumImprovement d
         else MinimumImprovement p;
       RequiredSnapshots :=
         if RequiredSnapshots p <=? 0 then RequiredSnapshots d else RequiredSnapshots p;
       MaxPlannedMoves :=
         if MaxPlannedMoves p <=? 0 then MaxPlannedMoves d else MaxPlannedMoves p;
       QualityTier :=
         if PrimFloat.leb (QualityTier p) 0 || fgt (QualityTier p) 1 then QualityTier d
         else QualityTier p;
       QoEAlternativeSpeedup :=
         if is_nan (QoEAlternativeSpeedup p) || is_inf (QoEAlternativeSpeedup p) ||
            PrimFloat.ltb (QoEAlternativeSpeedup p) MinimumAlternativeSpeedup
         then QoEAlternativeSpeedup d else QoEAlternativeSpeedup p |};
     streaks := ∅; exclusions := ∅; version := 0 |}.

(** ** Exclusions *)

Definition compact_step (now : Time) (m : gmap string Time) (item : exclusion) :
    gmap string Time :=
  if str_eqb (x_CandidateID item) EmptyString ||
     (negb (time_is_zero now) && negb (after (x_Until item) now))
  then m
  else
    match m !! x_CandidateID item with
    | Some current =>
        if after (x_Until item) current
        then <[x_CandidateID item := x_Until item]> m else m
    | None => <[x_CandidateID item := x_Until item]> m
    end.

Definition compactExclusions (items : list exclusion) (now : Time) : list exclusion :=
  let untilByCandidate := fold_left (compact_step now) items ∅ in
  let ids := sort_strings (map fst (map_to_list untilByCandidate)) in
  map (fun id => {| x_CandidateID := id;
                    x_Until := default zero_time (untilByCandidate !! id) |}) ids.

Definition compactExclusionsLocked (s : Scheduler) (now : Time) : Scheduler :=
  s <| exclusions :=
    omap (fun items =>
            match compactExclusions items now with
            | [] => None
            | compacted => Some compacted
            end) (exclusions s) |>.

Definition exclusions_of (s : Scheduler) (client : string) : list exclusion :=
  default [] (exclusions s !! client).

Definition Exclude (s : Scheduler) (client candidateID : string) (until : Time) : Scheduler :=
  bump (s <| exclusions :=
    <[client := compactExclusions
                  (exclusions_of s client ++
                   [{| x_CandidateID := candidateID; x_Until := until |}]) zero_time]>
      (exclusions s) |>).

(** [excluded] answers and drops the client's expired exclusions. *)
Definition excluded (s : Scheduler) (now : Time) (client candidateID : string) :
    bool * Scheduler :=
  let kept := List.filter (fun item => before now (x_Until item)) (exclusions_of s client) in
  (existsb (fun item => str_eqb (x_CandidateID item) candidateID) kept,
   s <| exclusions :=
     match kept with
     | [] => delete client (exclusions s)
     | _ => <[client := kept]> (exclusions s)
     end |>).

Definition IsExcluded (s : Scheduler) (now : Time) (client candidateID : string) :
    bool * Scheduler :=
  excluded s now client candidateID.

(** ** Streaks *)

Definition streak_prefix (client network : string) : string :=
  (client ++ ":" ++ network ++ ":")%string.

Definition resetStreak (s : Scheduler) (client network : string) : Scheduler :=
  s <| streaks :=
    filter (fun kv : string * Z => has_prefix (streak_prefix client network) kv.1 = false)
      (streaks s) |>.

(** ** Previews *)

Record Preview := {
  p_scheduler : Scheduler;
  p_baseVersion : Z;
  p_done : bool
}.

#[export] Instance Preview_eta : Eta Preview := fun p =>
  Build_Preview (p_scheduler p) (p_baseVersion p) (p_done p).

Inductive Error := ContextCancelled | PreviewClosed | ErrPreviewChanged
  | PublishFailed (message : string).

(** [cloneLocked] copies every component. *)
Definition BeginPreview (owner : Scheduler) : Preview :=
  {| p_scheduler := owner; p_baseVersion := version owner; p_done := false |}.

(** [publish] is the callback: absent, or what it returns.  The result is the
    error, whether the callback ran, and the new owner and preview. *)
Definition CommitAfter (owner : Scheduler) (preview : Preview)
    (publish : option (option string)) :
    option Error * bool * Scheduler * Preview :=
  if p_done preview then (Some PreviewClosed, false, owner, preview)
  else
    let preview := preview <| p_done := true |> in
    if negb (version owner =? p_baseVersion preview)
    then (Some ErrPreviewChanged, false, owner, preview)
    else
      let commit := bump (owner <| streaks := streaks (p_scheduler preview) |>
                                <| exclusions := exclusions (p_scheduler preview) |>) in
      match publish with
      | Some (Some message) => (Some (PublishFailed message), true, owner, preview)
      | Some None => (None, true, commit, preview)
      | None => (None, false, commit, preview)
      end.

Definition Commit (owner : Scheduler) (preview : Preview) :
    option Error * bool * Scheduler * Preview :=
  CommitAfter owner preview None.

Definition Discard (preview : Preview) : Preview :=
  if p_done preview then preview else preview <| p_done := true |>.

(** ** The monad *)

Record World := {
  sched : Scheduler;
  budget : option nat
}.

#[export] Instance World_eta : Eta World := fun w => Build_World (sched w) (budget w).

Definition M (A : Type) : Type := Prog World Error A.

#[local] Open Scope effect_scope.

(** [checkContext]: the context's error once its checks are used up. *)
Definition checkContext : M unit := fun w =>
  match budget w with
  | None => (inr tt, w)
  | Some O => (inl ContextCancelled, w)
  | Some (S n) => (inr tt, w <| budget := Some n |>)
  end.

Definition excludedM (now : Time) (client candidateID : string) : M bool := fun w =>
  let '(b, s) := excluded (sched w) now client candidateID in (inr b, w <| sched := s |>).

Definition resetStreakM (client network : string) : M unit := fun w =>
  (inr tt, w <| sched := resetStreak (sched w) client network |>).

(** [streaks[key]++], with the new value. *)
Definition incrementStreak (key : string) : M Z := fun w =>
  let n := default 0 (streaks (sched w) !! key) + 1 in
  (inr n, w <| sched := (sched w) <| streaks := <[key := n]> (streaks (sched w)) |> |>).

Definition askPolicy : M Policy := fun w => (inr (policy (sched w)), w).

(** ** What exclusions say at a time *)

Definition seen (now : Time) (s : Scheduler) (client candidateID : string) : bool :=
  (excluded s now client candidateID).1.

Lemma seen_spec now s client c :
  seen now s client c = true <->
  exists item, In item (exclusions_of s client) /\ x_CandidateID item = c /\ now < x_Until item.
Proof.
  unfold seen, excluded. simpl. rewrite existsb_exists. setoid_rewrite filter_In.
  unfold before. setoid_rewrite Z.ltb_lt. setoid_rewrite str_eqb_eq. naive_solver.
Qed.

Lemma seen_false now s client c :
  seen now s client c = false <->
  forall item, In item (exclusions_of s client) -> x_CandidateID item = c -> x_Until item <= now.
Proof.
  rewrite <- not_true_iff_false, seen_spec. split.
  - intros H item Hin Hc. apply Z.nlt_ge. intros Hlt. apply H. eauto.
  - intros H (item & Hin & Hc & Hlt). specialize (H item Hin Hc). lia.
Qed.

Definition live (now : Time) (item : exclusion) : Prop :=
  x_CandidateID item <> EmptyString /\ (now = zero_time \/ now < x_Until item).

Lemma live_test now item :
  str_eqb (x_CandidateID item) EmptyString ||
    (negb (time_is_zero now) && negb (after (x_Until item) now)) = false <-> live now item.
Proof.
  unfold live, time_is_zero, after.
  rewrite orb_false_iff, andb_false_iff, !negb_false_iff, str_eqb_neq, Z.eqb_eq, Z.ltb_lt.
  done.
Qed.

Lemma compact_fold now items m id t :
  (exists u, fold_left (compact_step now) items m !! id = Some u /\ t < u) <->
  (exists u, m !! id = Some u /\ t < u) \/
  (exists item, In item items /\ live now item /\ x_CandidateID item = id /\ t < x_Until item).
Proof.
  revert m. induction items as [|item items IH]; intros m; cbn [fold_left].
  { split; [by left|]. intros [H|(? & [] & _)]. done. }
  rewrite IH. unfold compact_step.
  destruct (_ || _) eqn:E.
  - assert (~ live now item) by (rewrite <- live_test; congruence).
    split; [naive_solver|]. intros [H'|(x & [->|Hx] & H')]; naive_solver.
  - apply live_test in E.
    destruct (m !! x_CandidateID item) as [cur|] eqn:Em;
      [destruct (after (x_Until item) cur) eqn:Ea; unfold after in Ea; z_bool|];
      destruct (decide (id = x_CandidateID item)) as [->|Hne];
      rewrite ?lookup_insert_eq, ?lookup_insert_ne by done; split;
      try (intros [(u & Hu & Ht)|(x & Hx & H')]; simplify_eq; [|right; exists x; simpl; tauto]);
      try (intros [(u & Hu & Ht)|(x & [->|Hx] & Hl & Hc & Ht)]; simplify_eq);
      eauto 10; try (left; eexists; split; [done|lia]); try (right; naive_solver).
Qed.

Lemma compactExclusions_lookup items now :
  exists m : gmap string Time,
    m = fold_left (compact_step now) items ∅ /\
    (forall item, In item (compactExclusions items now) <->
       m !! x_CandidateID item = Some (x_Until item)) /\
    NoDup (map x_CandidateID (compactExclusions items now)) /\
    StronglySorted (ordered str_ltb) (map x_CandidateID (compactExclusions items now)).
Proof.
  eexists. split; [reflexivity|]. unfold compactExclusions.
  set (m := fold_left _ _ _). set (ids := sort_strings _).
  assert (map x_CandidateID (map (fun id => {| x_CandidateID := id;
    x_Until := default zero_time (m !! id) |}) ids) = ids) as ->
    by (rewrite map_map; simpl; apply map_id).
  assert (forall id, In id ids <-> is_Some (m !! id)) as Hids.
  { intros id. unfold ids. rewrite sort_strings_In, in_map_iff. split.
    - intros ([k u] & <- & Hin). apply list_elem_of_In, elem_of_map_to_list in Hin. by eexists.
    - intros [u Hu]. exists (id, u). split; [done|].
      by apply list_elem_of_In, elem_of_map_to_list. }
  split_and!.
  - intros [id u]. rewrite in_map_iff. simpl. split.
    + intros (k & [= <- <-] & Hk). apply Hids in Hk as [v Hv]. by rewrite Hv.
    + intros Hu. exists id. rewrite Hu. split; [done|]. apply Hids. by eexists.
  - unfold ids. rewrite sort_strings_Permutation. apply NoDup_fst_map_to_list.
  - apply sort_strings_sorted.
Qed.

(** Compaction keeps every live exclusion, with its latest end. *)
Lemma compactExclusions_seen items now c t :
  (exists item, In item (compactExclusions items now) /\ x_CandidateID item = c /\
     t < x_Until item) <->
  (exists item, In item items /\ live now item /\ x_CandidateID item = c /\ t < x_Until item).
Proof.
  destruct (compactExclusions_lookup items now) as (m & Hm & Hin & _).
  pose proof (compact_fold now items ∅ c t) as Hf. rewrite <- Hm in Hf.
  transitivity (exists u, m !! c = Some u /\ t < u).
  - split.
    + intros (item & Hi & <- & Ht). apply Hin in Hi. eauto.
    + intros (u & Hu & Ht). exists {| x_CandidateID := c; x_Until := u |}. by rewrite Hin.
  - rewrite Hf. split; [|by right]. intros [(u & Hu & _)|H]; [by rewrite lookup_empty in Hu|done].
Qed.

Lemma bool_iff (b c : bool) : (b = true <-> c = true) -> b = c.
Proof. destruct b, c; naive_solver. Qed.

(** Compacting by [now] changes no answer from [now] on. *)
Lemma compactExclusionsLocked_seen s now client c t :
  c <> EmptyString -> now <= t ->
  seen t (compactExclusionsLocked s now) client c = seen t s client c.
Proof.
  intros Hc Ht. apply bool_iff. rewrite !seen_spec.
  unfold exclusions_of at 1. simpl. rewrite lookup_omap.
  unfold exclusions_of. destruct (exclusions s !! client) as [items|]; simpl; [|done].
  set (l := default [] _). assert (l = compactExclusions items now) as ->
    by (unfold l; by destruct (compactExclusions items now)).
  rewrite compactExclusions_seen. unfold live. split; [naive_solver|].
  intros (item & Hin & Hi & Hu). exists item. split_and!; auto with lia. naive_solver lia.
Qed.

(** An exclusion holds until exactly its end: after [Exclude], a route is
    excluded for a client at a time if it already was, or if it is the excluded
    pair and its end lies ahead; no other client and no other route is touched.
    Dropping what has expired by [now], as scheduling does first, changes no
    answer from [now] on and leaves one entry per route. *)
Theorem exclusions_hold_until_their_end s client c until now :
  c <> EmptyString ->
  (forall client' c' t, c' <> EmptyString ->
     seen t (Exclude s client c until) client' c' =
     bool_decide (client' = client /\ c' = c /\ t < until) || seen t s client' c') /\
  (forall client' c' t, c' <> EmptyString -> now <= t ->
     seen t (compactExclusionsLocked s now) client' c' = seen t s client' c') /\
  (forall client', NoDup (map x_CandidateID
     (exclusions_of (compactExclusionsLocked s now) client'))).
Proof.
  intros Hc. split_and!.
  - intros client' c' t Hc'. apply bool_iff. rewrite orb_true_iff, bool_decide_eq_true, !seen_spec.
    unfold exclusions_of at 1. simpl. destruct (decide (client = client')) as [<-|Hne].
    + rewrite lookup_insert_eq. simpl. rewrite compactExclusions_seen.
      setoid_rewrite in_app_iff. unfold live. split.
      * intros (item & [Hin|[<-|[]]] & _ & Hi & Ht); simpl in *; naive_solver.
      * intros [(_ & -> & Ht)|(item & Hin & Hi & Ht)].
        -- eexists. split; [right; by left|]. simpl. auto.
        -- exists item. subst. auto.
    + rewrite lookup_insert_ne by done. fold (exclusions_of s client'). naive_solver.
  - intros client' c' t. apply compactExclusionsLocked_seen.
  - intros client'. unfold exclusions_of. simpl. rewrite lookup_omap.
    destruct (exclusions s !! client') as [items|]; simpl; [|constructor].
    destruct (compactExclusions_lookup items now) as (_ & _ & _ & Hnd & _).
    by destruct (compactExclusions items now).
Qed.

(** ** Committing a preview *)

(** A preview commits only against the scheduler it was taken from: the
    callback runs and the owner takes over the preview's streaks and exclusions
    exactly if the owner's version is still the preview's and the callback does
    not fail; in every other case the owner is left as it was.  A preview is
    spent by the attempt, a committed version never equals the one it replaced,
    and readers of the owner do not invalidate a preview. *)
Theorem preview_commit_linearizes owner preview publish :
  0 <= version owner < 2 ^ 64 ->
  let '(err, called, owner', preview') := CommitAfter owner preview publish in
  p_done preview' = true /\
  (err = None <-> p_done preview = false /\ version owner = p_baseVersion preview /\
     (publish = None \/ publish = Some None)) /\
  (called = true <-> p_done preview = false /\ version owner = p_baseVersion preview /\
     publish <> None) /\
  (err = None -> streaks owner' = streaks (p_scheduler preview) /\
     exclusions owner' = exclusions (p_scheduler preview) /\
     policy owner' = policy owner /\ version owner' <> version owner) /\
  (err <> None -> owner' = owner) /\
  (forall now client c, version (excluded owner now client c).2 = version owner).
Proof.
  intros Hv. unfold CommitAfter. destruct (p_done preview) eqn:Hd.
  { split_and!; try done; naive_solver. }
  change (p_baseVersion (preview <| p_done := true |>)) with (p_baseVersion preview).
  destruct (version owner =? p_baseVersion preview) eqn:E; z_bool; cbn [negb].
  - assert ((version owner + 1) `mod` 2 ^ 64 <> version owner) as Hne.
    { destruct (decide (version owner + 1 = 2 ^ 64)) as [E'|].
      - rewrite E', Z.mod_same; lia.
      - rewrite Z.mod_small; lia. }
    destruct publish as [[message|]|]; split_and!; try done; naive_solver.
  - split_and!; try done; naive_solver.
Qed.

(** *** Reading exclusions *)

(** The excluded pairs at a time, as a set: what the placement code reads. *)
Definition excl_set (now : Time) (s : Scheduler) : gset (string * string) :=
  list_to_set
    (flat_map
       (fun kv => map (fun item => (kv.1, x_CandidateID item))
          (List.filter (fun item => before now (x_Until item)) kv.2))
       (map_to_list (exclusions s))).

Lemma elem_of_excl_set now s client c :
  (client, c) ∈ excl_set now s <-> seen now s client c = true.
Proof.
  unfold excl_set. rewrite elem_of_list_to_set, list_elem_of_In, in_flat_map, seen_spec.
  unfold before, exclusions_of. split.
  - intros ([k items] & Hk & Hin). apply list_elem_of_In, elem_of_map_to_list in Hk.
    apply in_map_iff in Hin as (item & [= -> <-] & Hi). apply filter_In in Hi as [Hi Hb].
    z_bool. rewrite Hk. simpl. eauto.
  - intros (item & Hin & <- & Ht). destruct (exclusions s !! client) as [items|] eqn:E;
      [|done]. exists (client, items). split; [by apply list_elem_of_In, elem_of_map_to_list|].
    apply in_map_iff. exists item. split; [done|]. apply filter_In. split; [done|]. by z_bool.
Qed.

(** A reader leaves everything but expired exclusions as it was. *)
Record pruned (now : Time) (s s' : Scheduler) : Prop := {
  pr_policy : policy s' = policy s;
  pr_streaks : streaks s' = streaks s;
  pr_version : version s' = version s;
  pr_seen : excl_set now s' = excl_set now s
}.

Lemma pruned_refl now s : pruned now s s.
Proof. done. Qed.

Lemma pruned_trans now s1 s2 s3 : pruned now s1 s2 -> pruned now s2 s3 -> pruned now s1 s3.
Proof. intros [? ? ? ?] [? ? ? ?]. split; congruence. Qed.

Lemma excluded_pruned now s client c : pruned now s (excluded s now client c).2.
Proof.
  split; [done|done|done|]. apply set_eq. intros [cl x]. rewrite !elem_of_excl_set, !seen_spec.
  unfold excluded, exclusions_of. simpl.
  set (kept := List.filter _ _).
  assert (default [] ((match kept with [] => delete client (exclusions s)
    | _ => <[client := kept]> (exclusions s) end) !! cl) =
    if decide (cl = client) then kept else default [] (exclusions s !! cl)) as ->.
  { case_decide as Hcl; [subst cl|].
    - destruct kept; [by rewrite lookup_delete_eq|by rewrite lookup_insert_eq].
    - destruct kept; [by rewrite lookup_delete_ne|by rewrite lookup_insert_ne]. }
  case_decide; [subst|done]. unfold kept. setoid_rewrite filter_In. unfold before.
  setoid_rewrite Z.ltb_lt. naive_solver.
Qed.

(** [reads now m f]: unless the context is cancelled, [m] yields [f] of the
    policy and the excluded pairs and changes nothing else. *)
Definition reads {A} (now : Time) (m : M A) (f : Policy -> gset (string * string) -> A) : Prop :=
  forall w, budget w = None -> exists s,
    m w = (inr (f (policy (sched w)) (excl_set now (sched w))), w <| sched := s |>) /\
    pruned now (sched w) s.

Lemma world_eta w : w <| sched := sched w |> = w.
Proof. by destruct w. Qed.

Lemma reads_pure {A} now (m : M A) f :
  (forall w, budget w = None -> m w = (inr (f (policy (sched w)) (excl_set now (sched w))), w)) ->
  reads now m f.
Proof.
  intros H w Hb. exists (sched w). rewrite world_eta. split; [by apply H|apply pruned_refl].
Qed.

Lemma reads_ret {A} now (a : A) : reads now (ret a) (fun _ _ => a).
Proof. by apply reads_pure. Qed.

Lemma reads_check now : reads now checkContext (fun _ _ => tt).
Proof. apply reads_pure. intros w Hb. unfold checkContext. by rewrite Hb. Qed.

Lemma reads_policy now : reads now askPolicy (fun p _ => p).
Proof. by apply reads_pure. Qed.

Lemma reads_bind {A B} now (m : M A) (k : A -> M B) f g :
  reads now m f -> (forall a, reads now (k a) (g a)) ->
  reads now (bind m k) (fun p X => g (f p X) p X).
Proof.
  intros Hm Hk w Hb. destruct (Hm w Hb) as (s & Em & Hp). unfold bind. rewrite Em.
  set (w1 := w <| sched := s |>). assert (budget w1 = None) as Hb1 by exact Hb.
  destruct (Hk (f (policy (sched w)) (excl_set now (sched w))) w1 Hb1) as (s' & Ek & Hp').
  exists s'. split; [|by eapply pruned_trans].
  etransitivity; [exact Ek|]. change (sched w1) with s.
  by rewrite (pr_seen _ _ _ Hp), (pr_policy _ _ _ Hp).
Qed.

Lemma reads_excluded now client c :
  reads now (excludedM now client c) (fun _ X => bool_decide ((client, c) ∈ X)).
Proof.
  intros w _. unfold excludedM. pose proof (excluded_pruned now (sched w) client c) as Hp.
  assert (bool_decide ((client, c) ∈ excl_set now (sched w)) =
          (excluded (sched w) now client c).1) as ->.
  { apply bool_iff. rewrite bool_decide_eq_true. apply elem_of_excl_set. }
  destruct (excluded (sched w) now client c) as [b s]. by exists s.
Qed.

Lemma reads_ext {A} now (m : M A) f g :
  reads now m f -> (forall p X, f p X = g p X) -> reads now m g.
Proof. intros Hm H w Hb. rewrite <- H. by apply Hm. Qed.

Lemma reads_if {A} now (b : bool) (m n : M A) f g :
  reads now m f -> reads now n g ->
  reads now (if b then m else n) (fun p X => if b then f p X else g p X).
Proof. by destruct b. Qed.

Lemma reads_filterM {A} now (p : A -> M bool) q (l : list A) :
  (forall x, reads now (p x) (q x)) ->
  reads now (filterM p l) (fun pol X => List.filter (fun x => q x pol X) l).
Proof.
  intros Hp. induction l as [|x l IH]; simpl; [apply reads_ret|].
  set (g (b : bool) pol X := let rest := List.filter (fun x => q x pol X) l in
                             if b then x :: rest else rest).
  apply (reads_bind now (p x) _ (q x) g); [done|]. intros b.
  apply (reads_bind now (filterM p l) _ (fun pol X => List.filter (fun x => q x pol X) l)
    (fun rest _ _ => if b then x :: rest else rest)); [done|]. intros rest. apply reads_ret.
Qed.

Lemma reads_foldM_unit {A} now (f : unit -> A -> M unit) (l : list A) :
  (forall x, reads now (f tt x) (fun _ _ => tt)) ->
  reads now (foldM f tt l) (fun _ _ => tt).
Proof.
  intros Hf. induction l as [|x l IH]; simpl; [apply reads_ret|].
  apply (reads_bind now (f tt x) _ (fun _ _ => tt) (fun _ _ _ => tt)); [done|]. by intros [].
Qed.

(** ** Witnesses *)

Definition sample_scheduler : Scheduler := New PolicyDefaults.

Lemma exclusions_hold_until_their_end_witness :
  (forall client' c' t, c' <> EmptyString ->
     seen t (Exclude sample_scheduler "alice" "vless-a" 50) client' c' =
     bool_decide (client' = "alice"%string /\ c' = "vless-a"%string /\ t < 50) ||
     seen t sample_scheduler client' c') /\
  (forall client' c' t, c' <> EmptyString -> 10 <= t ->
     seen t (compactExclusionsLocked sample_scheduler 10) client' c' =
     seen t sample_scheduler client' c') /\
  (forall client', NoDup (map x_CandidateID
     (exclusions_of (compactExclusionsLocked sample_scheduler 10) client'))).
Proof.
  apply (exclusions_hold_until_their_end sample_scheduler "alice" "vless-a" 50 10).
  discriminate.
Defined.

Definition sample_changed : Scheduler := Exclude sample_scheduler "alice" "vless-a" 50.

Lemma preview_commit_linearizes_witness :
  let '(err, called, owner', preview') :=
    CommitAfter sample_changed (BeginPreview sample_scheduler) (Some None) in
  p_done preview' = true /\
  (err = None <-> false = false /\ version sample_changed = version sample_scheduler /\
     (Some (@None string) = None \/ Some (@None string) = Some None)) /\
  (called = true <-> false = false /\ version sample_changed = version sample_scheduler /\
     Some (@None string) <> None) /\
  (err = None -> streaks owner' = streaks sample_scheduler /\
     exclusions owner' = exclusions sample_scheduler /\
     policy owner' = policy sample_changed /\ version owner' <> version sample_changed) /\
  (err <> None -> owner' = sample_changed) /\
  (forall now client c, version (excluded sample_changed now client c).2 =
     version sample_changed).
Proof.
  apply (preview_commit_linearizes sample_changed (BeginPreview sample_scheduler) (Some None)).
  vm_compute. split; [discriminate|reflexivity].
Defined.
