(* ===== verification/SchedReserves.v ===== *)
(** Reserves and emergencies (internal/scheduler/reserves.go): which routes may
    replace a failed or a degraded one, and which stand by for a client. *)
From S2P Require Import Prelude Effects GoOrder GoFloat GoSort QoE SchedLoad SchedState.

#[local] Open Scope Z_scope.
#[local] Open Scope effect_scope.

Definition tcp : string := "tcp".
Definition udp : string := "udp".

Record ReserveValidation := {
  rv_TCP : bool;
  rv_UDP : bool
}.

Definition is_vless (c : Candidate) : bool := bool_decide (proto c = ProtocolVLESS).
Definition degraded (c : Candidate) : bool := bool_decide (QoEStatus c = StatusDegraded).

(** The qualification a network asks for. *)
Definition qualified (network : string) (c : Candidate) : bool :=
  if str_eqb network udp then is_vless c && UDPQualified c else TCPQualified c.

Definition stable_qoe (c : Candidate) : bool :=
  negb (QoETracked c) ||
  (bool_decide (QoEStatus c = StatusHealthy) && QoEFresh c && (0 <? QoEEffective c)).

Definition preferStableQoE (candidates : list Candidate) : list Candidate :=
  or_else (List.filter stable_qoe candidates) candidates.

Definition preferProtocolVLESS (candidates : list Candidate) : list Candidate :=
  if existsb is_vless candidates then List.filter is_vless candidates else candidates.

Definition proved (c : Candidate) : bool := ActiveEligible c && ActiveFresh c.

Definition preferProved (candidates : list Candidate) : list Candidate :=
  or_else (List.filter proved candidates) candidates.

(** Candidates near the best score. *)
Definition quality_tier (tier : float) (candidates : list Candidate) : list Candidate :=
  let best :=
    fold_left (fun best c => if fgt (Score c) best then Score c else best)
      candidates 0%float in
  let threshold := (best * tier)%float in
  List.filter (fun c => fge (Score c) threshold) candidates.

(** ** Emergencies *)

Definition emergency_step (load domainLoad : gmap string Z)
    (acc : string * Z * Z * float) (c : Candidate) : string * Z * Z * float :=
  let '(selected, selectedDomainLoad, selectedLoad, selectedScore) := acc in
  let candidateDomainLoad := at_key domainLoad (candidateDomain c) in
  let candidateLoad := at_key load (ID c) in
  let quality := selectionQuality c in
  if str_eqb selected EmptyString ||
     (candidateDomainLoad <? selectedDomainLoad) ||
     ((candidateDomainLoad =? selectedDomainLoad) && (candidateLoad <? selectedLoad)) ||
     ((candidateDomainLoad =? selectedDomainLoad) && (candidateLoad =? selectedLoad) &&
      (fgt quality selectedScore ||
       (PrimFloat.eqb quality selectedScore && str_ltb (ID c) selected)))
  then (ID c, candidateDomainLoad, candidateLoad, quality)
  else acc.

Definition emergency_select (candidates : list Candidate) (load domainLoad : gmap string Z) :
    string :=
  (fold_left (emergency_step load domainLoad) candidates (EmptyString, 0, 0, 0%float)).1.1.1.

(** Candidates barred before their exclusions are read. *)
Definition emergency_barred (failedID : string) (failed c : Candidate) : bool :=
  ServingOnly c || str_eqb (ID c) failedID || sameRouteIdentity failed c ||
  Retiring c || CircuitOpen c || degraded c.

(** The preferences after the filter: proved, another domain, stable quality,
    spare capacity. *)
Definition emergency_prefer (failed : Candidate) (eligible candidates : list Candidate)
    (load : gmap string Z) : list Candidate :=
  let eligible := preferProved eligible in
  let eligible :=
    if negb (str_eqb (FailureDomain failed) EmptyString) then
      or_else (List.filter
        (fun c => negb (str_eqb (candidateDomain c) (candidateDomain failed))) eligible)
        eligible
    else eligible in
  let eligible := preferStableQoE eligible in
  preferSpareCapacity eligible candidates load.

Definition SelectEmergency (now : Time) (client network failedID : string)
    (candidates : list Candidate) (load domainLoad : gmap string Z) : M string :=
  let failed := get_candidate (index_by_id candidates) failedID in
  eligible <- filterM (fun c =>
    if emergency_barred failedID failed c then ret false
    else (x <- excludedM now client (ID c) ;;
          ret (if x then false else qualified network c))) candidates ;;
  match eligible with
  | [] => ret EmptyString
  | _ => ret (emergency_select (emergency_prefer failed eligible candidates load)
                load domainLoad)
  end.

(** ** Alternatives to a degraded or slower route *)

Definition candidateUsable (now : Time) (client network : string) (c : Candidate) : M bool :=
  if CircuitOpen c then ret false
  else (x <- excludedM now client (ID c) ;;
        ret (if x then false else qualified network c)).

Definition openCurrentUsable (now : Time) (client network : string) (c : Candidate) : M bool :=
  if Retiring c || degraded c then ret false
  else (x <- excludedM now client (ID c) ;;
        ret (if x then false else qualified network c)).

Definition alternative_step (domainLoad : gmap string Z) (acc : string * float * Z)
    (c : Candidate) : string * float * Z :=
  let '(selected, selectedQuality, selectedDomainLoad) := acc in
  let candidateDomainLoad := at_key domainLoad (candidateDomain c) in
  let quality := selectionQuality c in
  if str_eqb selected EmptyString || fgt quality selectedQuality ||
     (PrimFloat.eqb quality selectedQuality &&
      ((candidateDomainLoad <? selectedDomainLoad) ||
       ((candidateDomainLoad =? selectedDomainLoad) && str_ltb (ID c) selected)))
  then (ID c, quality, candidateDomainLoad)
  else acc.

(** Preferences and choice among the qualified alternatives. *)
Definition alternative_select (current : Candidate) (found candidates : list Candidate)
    (load domainLoad : gmap string Z) (preferDistinctDomain : bool) : string :=
  let found := preferProved found in
  let distinct c := negb (str_eqb (candidateDomain c) (candidateDomain current)) in
  let hasDistinctDomain := preferDistinctDomain && existsb distinct found in
  let found := if hasDistinctDomain then List.filter distinct found else found in
  let found := preferSpareCapacity found candidates load in
  let found := List.filter (fun c => negb hasDistinctDomain || distinct c) found in
  (fold_left (alternative_step domainLoad) found (EmptyString, 0%float, 0)).1.1.

Definition qoeAlternative (now : Time) (client network : string) (current : Candidate)
    (candidates : list Candidate) (load domainLoad : gmap string Z)
    (requireSpeedup preferDistinctDomain : bool) : M string :=
  p <- askPolicy ;;
  found <- filterM (fun c =>
    if ServingOnly c || Retiring c || negb (bool_decide (QoEStatus c = StatusHealthy)) ||
       negb (QoEFresh c) || (QoEEffective c <=? 0)
    then ret false
    else (usable <- candidateUsable now client network c ;;
          ret (usable &&
               negb (requireSpeedup &&
                     PrimFloat.ltb (selectionQuality c)
                       (selectionQuality current * QoEAlternativeSpeedup p)%float))))
    candidates ;;
  ret (alternative_select current found candidates load domainLoad preferDistinctDomain).

(** ** Reserves *)

(** A loop over the list that only checks the context. *)
Definition check_each (l : list Candidate) : M unit := foldM (fun _ _ => checkContext) tt l.

Definition reserve_barred (primary : Candidate) (requireActiveProof : bool) (c : Candidate) :
    bool :=
  ServingOnly c || sameRouteIdentity primary c || negb (ReserveEligible c) ||
  (requireActiveProof && (negb (ActiveEligible c) || negb (ActiveFresh c))) ||
  Retiring c || CircuitOpen c || degraded c.

Definition reserve_qualified (network : string) (c : Candidate) : bool :=
  if str_eqb network udp then is_vless c && UDPQualified c
  else TCPQualified c && (negb (bool_decide (proto c = ProtocolTor)) || Warm c).

(** Another failure domain is preferred, and within it, for a VLESS primary on
    TCP, another VLESS route. *)
Definition prefer_distinct (network : string) (primary : Candidate)
    (eligible : list Candidate) : list Candidate :=
  let distinct c := negb (str_eqb (candidateDomain c) (candidateDomain primary)) in
  let preferDifferentVLESS := str_eqb network tcp && is_vless primary in
  let hasDifferentDomain := existsb distinct eligible in
  let hasDifferentVLESS := existsb (fun c => distinct c && is_vless c) eligible in
  if hasDifferentDomain then
    List.filter
      (fun c => distinct c && negb (preferDifferentVLESS && hasDifferentVLESS &&
                                    negb (is_vless c))) eligible
  else eligible.

Definition eligibleReserveCandidates (now : Time) (client network primaryID : string)
    (candidates : list Candidate) (byID : gmap string Candidate)
    (requireActiveProof preferQuality : bool) : M (list Candidate) :=
  match byID !! primaryID with
  | None => ret []
  | Some primary =>
      if str_eqb primaryID EmptyString then ret []
      else
        eligible <- filterM (fun c =>
          checkContext ;;;
          (if reserve_barred primary requireActiveProof c then ret false
           else (x <- excludedM now client (ID c) ;;
                 ret (if x then false else reserve_qualified network c)))) candidates ;;
        if negb preferQuality then ret eligible
        else
          check_each eligible ;;;
          (if existsb (fun c => negb (str_eqb (candidateDomain c) (candidateDomain primary)))
                eligible
           then check_each eligible else ret tt) ;;;
          let eligible := preferStableQoE (prefer_distinct network primary eligible) in
          check_each eligible ;;;
          check_each eligible ;;;
          p <- askPolicy ;;
          ret (quality_tier (QualityTier p) eligible)
  end.

Definition selectReserve (now : Time) (client network primaryID : string)
    (candidates : list Candidate) (byID : gmap string Candidate)
    (requireActiveProof : bool) (applied : string) : M string :=
  installed <-
    (if str_eqb applied EmptyString then ret []
     else eligibleReserveCandidates now client network primaryID candidates byID
            requireActiveProof false) ;;
  if existsb (fun c => str_eqb (ID c) applied) installed then ret applied
  else
    eligible <- eligibleReserveCandidates now client network primaryID candidates byID
                  requireActiveProof true ;;
    ret (rendezvous (client ++ ":" ++ network ++ ":reserve")%string eligible ∅ ∅).

Definition bumpM : M unit := fun w => (inr tt, w <| sched := bump (sched w) |>).

(** [selectReservesContext]; a client without an applied selection passes the
    empty one. *)
Definition selectReserves (now : Time) (client : string) (a : Assignment)
    (candidates : list Candidate) (requireActiveProof : bool)
    (applied : ReserveSelection) : M ReserveSelection :=
  check_each candidates ;;;
  let byID := index_by_id candidates in
  tcp_id <- selectReserve now client tcp (TCP a) candidates byID requireActiveProof
              (rs_TCP applied) ;;
  udp_id <- selectReserve now client udp (UDP a) candidates byID requireActiveProof
              (rs_UDP applied) ;;
  bumpM ;;;
  ret {| rs_TCP := tcp_id; rs_UDP := udp_id |}.

Definition SelectReservesContext (now : Time) (client : string) (a : Assignment)
    (candidates : list Candidate) (applied : ReserveSelection) : M ReserveSelection :=
  selectReserves now client a candidates true applied.

Definition SelectProspectiveReservesContext (now : Time) (client : string) (a : Assignment)
    (candidates : list Candidate) (applied : ReserveSelection) : M ReserveSelection :=
  selectReserves now client a candidates false applied.

Definition ValidateReserveSelectionContext (now : Time) (client : string) (a : Assignment)
    (applied : ReserveSelection) (candidates : list Candidate) : M ReserveValidation :=
  check_each candidates ;;;
  let byID := index_by_id candidates in
  tcpEligible <- eligibleReserveCandidates now client tcp (TCP a) candidates byID true false ;;
  udpEligible <- eligibleReserveCandidates now client udp (UDP a) candidates byID true false ;;
  check_each tcpEligible ;;;
  check_each udpEligible ;;;
  let has id l := negb (str_eqb id EmptyString) && existsb (fun c => str_eqb id (ID c)) l in
  ret {| rv_TCP := has (rs_TCP applied) tcpEligible;
         rv_UDP := has (rs_UDP applied) udpEligible |}.

(** ** What the operations read *)

Abbreviation Pairs := (gset (string * string)) (only parsing).

(** Usable by a client, as a predicate on the excluded pairs. *)
Definition allowed (X : Pairs) (client : string) (c : Candidate) : bool :=
  negb (bool_decide ((client, ID c) ∈ X)).

Lemma reads_guarded now client (b : bool) (c : Candidate) (q : bool) :
  reads now (if b then ret false
             else (x <- excludedM now client (ID c) ;; ret (if x then false else q)))
    (fun _ X => negb b && allowed X client c && q).
Proof.
  destruct b; [exact (reads_ret now false)|].
  eapply reads_ext.
  - eapply (reads_bind now _ _ _ (fun (x : bool) _ _ => if x then false else q));
      [apply reads_excluded|]. intros x. apply reads_ret.
  - intros p X. unfold allowed. simpl. by case_bool_decide.
Qed.

Lemma reads_candidateUsable now client network c :
  reads now (candidateUsable now client network c)
    (fun _ X => negb (CircuitOpen c) && allowed X client c && qualified network c).
Proof. apply reads_guarded. Qed.

Lemma reads_openCurrentUsable now client network c :
  reads now (openCurrentUsable now client network c)
    (fun _ X => negb (Retiring c || degraded c) && allowed X client c && qualified network c).
Proof. apply reads_guarded. Qed.

Lemma reads_check_each now l : reads now (check_each l) (fun _ _ => tt).
Proof. apply reads_foldM_unit. intros x. apply reads_check. Qed.

(** Sequencing after a step that yields nothing. *)
Lemma reads_then {A} now (m : M unit) (k : M A) f :
  reads now m (fun _ _ => tt) -> reads now k f -> reads now (m ;;; k) f.
Proof. intros Hm Hk. by apply (reads_bind now m _ (fun _ _ => tt) (fun _ => f)). Qed.

(** ** Emergencies *)

Definition emergency_ok (X : Pairs) (client network failedID : string) (failed c : Candidate) :
    bool :=
  negb (emergency_barred failedID failed c) && allowed X client c && qualified network c.

Definition emergency_choice (X : Pairs) (client network failedID : string)
    (candidates : list Candidate) (load domainLoad : gmap string Z) : string :=
  let failed := get_candidate (index_by_id candidates) failedID in
  match List.filter (emergency_ok X client network failedID failed) candidates with
  | [] => EmptyString
  | eligible => emergency_select (emergency_prefer failed eligible candidates load)
                  load domainLoad
  end.

Lemma reads_SelectEmergency now client network failedID candidates load domainLoad :
  reads now (SelectEmergency now client network failedID candidates load domainLoad)
    (fun _ X => emergency_choice X client network failedID candidates load domainLoad).
Proof.
  unfold SelectEmergency, emergency_choice.
  set (failed := get_candidate _ _). cbv zeta.
  apply (reads_ext now _
    (fun _ X => match List.filter (emergency_ok X client network failedID failed) candidates with
       | [] => EmptyString
       | c :: l => emergency_select (emergency_prefer failed (c :: l) candidates load)
                     load domainLoad end)); [|done].
  apply (reads_bind now _ _
    (fun _ X => List.filter (emergency_ok X client network failedID failed) candidates)
    (fun eligible _ _ => match eligible with
       | [] => EmptyString
       | c :: l => emergency_select (emergency_prefer failed (c :: l) candidates load)
                     load domainLoad end)).
  - apply (reads_filterM now _
      (fun c _ X => emergency_ok X client network failedID failed c)).
    intros c. apply reads_guarded.
  - intros [|c l]; apply reads_ret.
Qed.

(** The selection loops pick from their list, and pick something. *)
Lemma selection_In {Acc} (step : Acc -> Candidate -> Acc) (name : Acc -> string) l acc :
  (forall acc c, name (step acc c) = name acc \/ name (step acc c) = ID c) ->
  name (fold_left step l acc) = name acc \/
  exists c, In c l /\ name (fold_left step l acc) = ID c.
Proof.
  intros Hs. revert acc. induction l as [|c l IH]; intros acc; simpl; [by left|].
  destruct (IH (step acc c)) as [->|(x & Hx & ->)]; [|right; eauto].
  destruct (Hs acc c) as [->| ->]; [by left|right; eauto].
Qed.

Lemma selection_nonempty {Acc} (step : Acc -> Candidate -> Acc) (name : Acc -> string) l acc :
  (forall acc c, name acc = EmptyString -> name (step acc c) = ID c) ->
  (forall acc c, name (step acc c) = name acc \/ name (step acc c) = ID c) ->
  (forall c, In c l -> ID c <> EmptyString) ->
  name acc <> EmptyString \/ l <> [] -> name (fold_left step l acc) <> EmptyString.
Proof.
  intros He Hs. revert acc. induction l as [|c l IH]; intros acc Hids Hne; simpl.
  - by destruct Hne.
  - apply IH; [intros x Hx; apply Hids; by right|]. left.
    destruct (decide (name acc = EmptyString)) as [E|E].
    + rewrite He by done. apply Hids. by left.
    + destruct (Hs acc c) as [->| ->]; [done|apply Hids; by left].
Qed.

Lemma emergency_step_name load domainLoad acc c :
  (emergency_step load domainLoad acc c).1.1.1 = acc.1.1.1 \/
  (emergency_step load domainLoad acc c).1.1.1 = ID c.
Proof. destruct acc as [[[s d] l] q]. unfold emergency_step. case_if; auto. Qed.

Lemma emergency_step_empty load domainLoad acc c :
  acc.1.1.1 = EmptyString -> (emergency_step load domainLoad acc c).1.1.1 = ID c.
Proof.
  destruct acc as [[[s d] l] q]. simpl. intros ->. unfold emergency_step.
  by rewrite str_eqb_refl.
Qed.

Lemma or_else_filter_In {A} (f : A -> bool) l x : In x (or_else (List.filter f l) l) -> In x l.
Proof. intros [H%filter_incl|H]%or_else_In; done. Qed.

Lemma prefer_In failed eligible candidates load c :
  In c (emergency_prefer failed eligible candidates load) -> In c eligible.
Proof.
  unfold emergency_prefer. intros H%preferSpareCapacity_incl%or_else_filter_In.
  case_if; repeat apply or_else_filter_In in H; done.
Qed.

Lemma or_else_not_nil {A} (l k : list A) : k <> [] -> or_else l k <> [].
Proof. rewrite or_else_nil. naive_solver. Qed.

Lemma prefer_not_nil failed eligible candidates load :
  eligible <> [] -> emergency_prefer failed eligible candidates load <> [].
Proof.
  intros Hne. unfold emergency_prefer. rewrite preferSpareCapacity_nil.
  apply or_else_not_nil. case_if; repeat apply or_else_not_nil; done.
Qed.

(** ** What failover promises

    The requirements in their own words; the definitions above decide them. *)

(** Another identifier, and no shared subscription route or profile. *)
Definition distinct_route (a c : Candidate) : Prop :=
  ID c <> ID a /\ (RouteKey a = EmptyString \/ RouteKey c <> RouteKey a) /\
  (ProfileID a = EmptyString \/ ProfileID c <> ProfileID a).

(** Nothing holds new work off the route. *)
Definition open_for_work (c : Candidate) : Prop :=
  ServingOnly c = false /\ Retiring c = false /\ CircuitOpen c = false /\
  QoEStatus c <> StatusDegraded.

Definition carries (network : string) (c : Candidate) : Prop :=
  if decide (network = udp) then proto c = ProtocolVLESS /\ UDPQualified c = true
  else TCPQualified c = true.

Lemma sameRouteIdentity_spec a c : sameRouteIdentity a c = false <-> distinct_route a c.
Proof.
  unfold sameRouteIdentity, distinct_route.
  destruct (str_eqb (ID a) (ID c)) eqn:E1, (str_eqb (RouteKey a) EmptyString) eqn:E2,
    (str_eqb (RouteKey a) (RouteKey c)) eqn:E3, (str_eqb (ProfileID a) EmptyString) eqn:E4,
    (str_eqb (ProfileID a) (ProfileID c)) eqn:E5; str_bool; simpl; naive_solver.
Qed.

Lemma open_for_work_spec c :
  ServingOnly c || Retiring c || CircuitOpen c || degraded c = false <-> open_for_work c.
Proof.
  unfold open_for_work, degraded. rewrite !orb_false_iff, bool_decide_eq_false. tauto.
Qed.

Lemma qualified_spec network c : qualified network c = true <-> carries network c.
Proof.
  unfold qualified, carries, is_vless. destruct (str_eqb network udp) eqn:E; str_bool.
  - rewrite decide_True by done. by rewrite andb_true_iff, bool_decide_eq_true.
  - by rewrite decide_False.
Qed.

Lemma emergency_ok_fit now s client network failedID failed c :
  emergency_ok (excl_set now s) client network failedID failed c = true <->
  open_for_work c /\ ID c <> failedID /\ distinct_route failed c /\
  seen now s client (ID c) = false /\ carries network c.
Proof.
  rewrite <- sameRouteIdentity_spec, <- open_for_work_spec, <- qualified_spec.
  unfold emergency_ok, emergency_barred, allowed.
  rewrite !andb_true_iff, !negb_true_iff, !orb_false_iff, bool_decide_eq_false, elem_of_excl_set,
    not_true_iff_false. destruct (str_eqb (ID c) failedID) eqn:E; str_bool; intuition congruence.
Qed.

(** An emergency choice, on the scheduler it is asked of. *)
Lemma emergency_run now client network failedID candidates load domainLoad w :
  budget w = None -> (forall c, In c candidates -> ID c <> EmptyString) ->
  let failed := get_candidate (index_by_id candidates) failedID in
  let fit c :=
    open_for_work c /\ ID c <> failedID /\ distinct_route failed c /\
    seen now (sched w) client (ID c) = false /\ carries network c in
  exists id s,
    SelectEmergency now client network failedID candidates load domainLoad w =
      (inr id, w <| sched := s |>) /\ pruned now (sched w) s /\
    (id = EmptyString -> forall c, In c candidates -> ~ fit c) /\
    (id <> EmptyString -> exists c, In c candidates /\ ID c = id /\ fit c).
Proof.
  intros Hb Hids failed fit.
  destruct (reads_SelectEmergency now client network failedID candidates load domainLoad w Hb)
    as (s & -> & Hp). eexists _, s. split; [done|]. split; [done|].
  set (X := excl_set now (sched w)).
  assert (forall c, emergency_ok X client network failedID failed c = true <-> fit c) as Hfit.
  { intros c. apply emergency_ok_fit. }
  unfold emergency_choice. fold failed.
  destruct (List.filter _ candidates) as [|x l] eqn:E.
  { split; [|done]. intros _ c Hc. rewrite <- Hfit.
    by rewrite (proj1 (filter_none _ _) E c Hc). }
  rewrite <- E. set (el := List.filter _ candidates) in *.
  assert (el <> []) as Hne by (by rewrite E).
  assert (forall c, In c (emergency_prefer failed el candidates load) ->
    In c candidates /\ fit c) as Hin.
  { intros c Hc%prefer_In. unfold el in Hc. rewrite filter_In, Hfit in Hc. done. }
  split.
  - intros Hemp. exfalso. revert Hemp. unfold emergency_select.
    apply (selection_nonempty _ (fun acc => acc.1.1.1));
      [apply emergency_step_empty|apply emergency_step_name| |].
    + intros c Hc. by apply Hids, Hin.
    + right. by apply prefer_not_nil.
  - intros Hid. unfold emergency_select in *.
    destruct (selection_In (emergency_step load domainLoad) (fun acc => acc.1.1.1)
      (emergency_prefer failed el candidates load) (EmptyString, 0, 0, 0%float)
      (emergency_step_name load domainLoad)) as [H|(c & Hc & H)]; [by rewrite H in Hid|].
    apply Hin in Hc as [Hc Hf]. by exists c.
Qed.

(** Emergency failover is sound and complete: with the context still open,
    the choice is a listed route that is not the failed one nor shares its
    subscription route or profile, is not retiring, open, degraded, serving only
    or excluded for the client, and is qualified for the network (UDP only on a
    UDP-qualified VLESS route); and there is a choice whenever such a route
    exists. *)
Theorem emergency_sound_and_complete now client network failedID candidates load domainLoad w :
  budget w = None -> (forall c, In c candidates -> ID c <> EmptyString) ->
  let failed := get_candidate (index_by_id candidates) failedID in
  let fit c :=
    open_for_work c /\ ID c <> failedID /\ distinct_route failed c /\
    seen now (sched w) client (ID c) = false /\ carries network c in
  exists id s,
    SelectEmergency now client network failedID candidates load domainLoad w =
      (inr id, w <| sched := s |>) /\ pruned now (sched w) s /\
    (id = EmptyString -> forall c, In c candidates -> ~ fit c) /\
    (id <> EmptyString -> exists c, In c candidates /\ ID c = id /\ fit c).
Proof. apply emergency_run. Qed.

(** ** Reserves *)

Definition reserve_ok (X : Pairs) (client network : string) (primary : Candidate)
    (requireActiveProof : bool) (c : Candidate) : bool :=
  negb (reserve_barred primary requireActiveProof c) && allowed X client c &&
  reserve_qualified network c.

Definition reserve_list (p : Policy) (X : Pairs) (client network primaryID : string)
    (candidates : list Candidate) (byID : gmap string Candidate)
    (requireActiveProof preferQuality : bool) : list Candidate :=
  match byID !! primaryID with
  | None => []
  | Some primary =>
      if str_eqb primaryID EmptyString then []
      else
        let eligible :=
          List.filter (reserve_ok X client network primary requireActiveProof) candidates in
        if negb preferQuality then eligible
        else quality_tier (QualityTier p)
               (preferStableQoE (prefer_distinct network primary eligible))
  end.

Lemma reads_eligibleReserveCandidates now client network primaryID candidates byID
    requireActiveProof preferQuality :
  reads now (eligibleReserveCandidates now client network primaryID candidates byID
               requireActiveProof preferQuality)
    (fun p X => reserve_list p X client network primaryID candidates byID
                  requireActiveProof preferQuality).
Proof.
  unfold eligibleReserveCandidates, reserve_list.
  destruct (byID !! primaryID) as [primary|]; [|apply reads_ret].
  apply reads_if; [apply reads_ret|].
  apply (reads_bind now _ _
    (fun _ X => List.filter (reserve_ok X client network primary requireActiveProof) candidates)
    (fun eligible p _ => if negb preferQuality then eligible
       else quality_tier (QualityTier p)
              (preferStableQoE (prefer_distinct network primary eligible)))).
  - apply (reads_filterM now _
      (fun c _ X => reserve_ok X client network primary requireActiveProof c)).
    intros c. apply reads_then; [apply reads_check|apply reads_guarded].
  - intros eligible. apply reads_if; [apply reads_ret|].
    apply reads_then; [apply reads_check_each|].
    apply reads_then.
    { destruct (existsb _ eligible); [apply reads_check_each|apply reads_ret]. }
    cbv zeta. do 2 (apply reads_then; [apply reads_check_each|]).
    apply (reads_bind now _ _ (fun p _ => p)
      (fun p _ _ => quality_tier (QualityTier p)
                      (preferStableQoE (prefer_distinct network primary eligible))));
      [apply reads_policy|]. intros p. apply reads_ret.
Qed.

Definition reserve_choice (p : Policy) (X : Pairs) (client network primaryID : string)
    (candidates : list Candidate) (byID : gmap string Candidate)
    (requireActiveProof : bool) (applied : string) : string :=
  if negb (str_eqb applied EmptyString) &&
     existsb (fun c => str_eqb (ID c) applied)
       (reserve_list p X client network primaryID candidates byID requireActiveProof false)
  then applied
  else rendezvous (client ++ ":" ++ network ++ ":reserve")%string
         (reserve_list p X client network primaryID candidates byID requireActiveProof true) ∅ ∅.

Lemma reads_selectReserve now client network primaryID candidates byID proof applied :
  reads now (selectReserve now client network primaryID candidates byID proof applied)
    (fun p X => reserve_choice p X client network primaryID candidates byID proof applied).
Proof.
  unfold selectReserve.
  eapply reads_ext.
  - eapply (reads_bind now _ _
      (fun p X => if str_eqb applied EmptyString then [] else
         reserve_list p X client network primaryID candidates byID proof false)
      (fun installed p X => if existsb (fun c => str_eqb (ID c) applied) installed
         then applied else rendezvous (client ++ ":" ++ network ++ ":reserve")%string
           (reserve_list p X client network primaryID candidates byID proof true) ∅ ∅)).
    + apply reads_if; [apply reads_ret|apply reads_eligibleReserveCandidates].
    + intros installed. apply reads_if; [apply reads_ret|].
      eapply (reads_bind now _ _ _ (fun eligible _ _ =>
        rendezvous (client ++ ":" ++ network ++ ":reserve")%string eligible ∅ ∅)).
      * apply reads_eligibleReserveCandidates.
      * intros eligible. apply reads_ret.
  - intros p X. unfold reserve_choice. by destruct (str_eqb applied EmptyString).
Qed.

(** What a reserve must be, in terms of the scheduler before the call. *)
Definition reserve_fit (now : Time) (s : Scheduler) (client network : string)
    (primary : Candidate) (requireActiveProof : bool) (c : Candidate) : Prop :=
  open_for_work c /\ distinct_route primary c /\ ReserveEligible c = true /\
  (requireActiveProof = true -> ActiveEligible c = true /\ ActiveFresh c = true) /\
  seen now s client (ID c) = false /\ carries network c /\
  (network <> udp -> proto c = ProtocolTor -> Warm c = true).

Lemma reserve_ok_fit now s client network primary proof c :
  reserve_ok (excl_set now s) client network primary proof c = true <->
  reserve_fit now s client network primary proof c.
Proof.
  unfold reserve_ok, reserve_fit, allowed, reserve_barred, reserve_qualified.
  rewrite <- sameRouteIdentity_spec, <- open_for_work_spec, <- qualified_spec.
  unfold qualified, is_vless.
  assert (proof && (negb (ActiveEligible c) || negb (ActiveFresh c)) = false <->
    (proof = true -> ActiveEligible c = true /\ ActiveFresh c = true)) as <-
    by (destruct proof, (ActiveEligible c), (ActiveFresh c); simpl; intuition congruence).
  assert (forall q, q && (negb (bool_decide (proto c = ProtocolTor)) || Warm c) = true <->
    q = true /\ (proto c = ProtocolTor -> Warm c = true)) as Hwarm
    by (intros q; case_bool_decide; destruct q, (Warm c); simpl; intuition congruence).
  rewrite !andb_true_iff, !negb_true_iff, !orb_false_iff, !negb_false_iff, bool_decide_eq_false,
    elem_of_excl_set, not_true_iff_false.
  destruct (str_eqb network udp) eqn:E; str_bool; [|rewrite Hwarm]; intuition.
Qed.

Lemma prefer_distinct_In network primary l c :
  In c (prefer_distinct network primary l) -> In c l.
Proof. unfold prefer_distinct. case_if; [apply filter_incl|done]. Qed.

Lemma reserve_list_In p X client network primaryID candidates byID proof prefer c :
  In c (reserve_list p X client network primaryID candidates byID proof prefer) ->
  exists primary, byID !! primaryID = Some primary /\ primaryID <> EmptyString /\
    In c candidates /\ reserve_ok X client network primary proof c = true.
Proof.
  unfold reserve_list. destruct (byID !! primaryID) as [primary|]; [|done].
  destruct (str_eqb primaryID EmptyString) eqn:E; [done|]. str_bool. intros Hc.
  exists primary. split; [done|]. split; [done|]. rewrite <- filter_In.
  destruct prefer; cbn [negb] in Hc; [|done].
  unfold quality_tier in Hc. apply filter_incl, or_else_filter_In, prefer_distinct_In in Hc. done.
Qed.

Lemma rendezvous_In key l load domainLoad :
  rendezvous key l load domainLoad = EmptyString \/
  exists c, In c l /\ ID c = rendezvous key l load domainLoad.
Proof.
  unfold rendezvous. destruct l as [|x l]; [by left|].
  destruct (rendezvous_fold_In key load domainLoad (preferSpareCapacity (x :: l) (x :: l) load)
    (EmptyString, (-1)%float)) as [->|(c & Hc & <-)]; [by left|].
  right. exists c. split; [|done]. by apply preferSpareCapacity_incl in Hc.
Qed.

Lemma reserve_choice_sound p now s client network primaryID candidates byID proof applied :
  let id := reserve_choice p (excl_set now s) client network primaryID candidates byID proof
              applied in
  (id <> EmptyString -> exists primary c, byID !! primaryID = Some primary /\
     In c candidates /\ ID c = id /\ reserve_fit now s client network primary proof c) /\
  (forall primary c, byID !! primaryID = Some primary -> primaryID <> EmptyString ->
     applied <> EmptyString -> In c candidates -> ID c = applied ->
     reserve_fit now s client network primary proof c -> id = applied).
Proof.
  intros id. set (X := excl_set now s) in *. split.
  - intros Hid. unfold id, reserve_choice in *.
    destruct (negb _ && _) eqn:E.
    + apply andb_true_iff in E as [_ E]. apply existsb_exists in E as (c & Hc & Heq). str_bool.
      apply reserve_list_In in Hc as (primary & Hp & _ & Hin & Hok).
      exists primary, c. by rewrite <- reserve_ok_fit.
    + destruct (rendezvous_In (client ++ ":" ++ network ++ ":reserve")%string
        (reserve_list p X client network primaryID candidates byID proof true) ∅ ∅)
        as [H|(c & Hc & Heq)]; [congruence|].
      apply reserve_list_In in Hc as (primary & Hp & _ & Hin & Hok).
      exists primary, c. by rewrite <- reserve_ok_fit.
  - intros primary c Hp Hne Ha Hc Hid Hfit. unfold id, reserve_choice.
    apply str_eqb_neq in Ha. rewrite Ha. cbn [negb andb].
    assert (existsb (fun c => str_eqb (ID c) applied)
      (reserve_list p X client network primaryID candidates byID proof false) = true) as ->; [|done].
    apply existsb_exists. exists c. split; [|by apply str_eqb_eq].
    unfold reserve_list. rewrite Hp. apply str_eqb_neq in Hne. rewrite Hne. cbn [negb].
    apply filter_In. split; [done|]. by apply reserve_ok_fit.
Qed.

(** The selection of both networks. *)
Lemma selectReserves_run now client a candidates proof applied w :
  budget w = None ->
  let byID := index_by_id candidates in
  let choice network primaryID applied :=
    reserve_choice (policy (sched w)) (excl_set now (sched w)) client network primaryID
      candidates byID proof applied in
  exists s, pruned now (sched w) s /\
    selectReserves now client a candidates proof applied w =
      (inr {| rs_TCP := choice tcp (TCP a) (rs_TCP applied);
              rs_UDP := choice udp (UDP a) (rs_UDP applied) |},
       w <| sched := bump s |>).
Proof.
  intros Hb byID choice. unfold selectReserves. unfold bind at 1.
  destruct (reads_check_each now candidates w Hb) as (s0 & -> & H0).
  cbv zeta. fold byID. set (w0 := w <| sched := s0 |>).
  assert (budget w0 = None) as Hb0 by exact Hb. unfold bind at 1.
  destruct (reads_selectReserve now client tcp (TCP a) candidates byID proof (rs_TCP applied)
    w0 Hb0) as (s1 & -> & H1).
  set (w1 := w0 <| sched := s1 |>). assert (budget w1 = None) as Hb1 by exact Hb.
  unfold bind at 1.
  destruct (reads_selectReserve now client udp (UDP a) candidates byID proof (rs_UDP applied)
    w1 Hb1) as (s2 & -> & H2).
  change (sched w1) with s1 in *. change (sched w0) with s0 in *.
  assert (pruned now (sched w) s1) as H01 by (by eapply pruned_trans).
  exists s2. split; [by eapply pruned_trans|].
  unfold bind, bumpM, ret, choice.
  rewrite (pr_policy _ _ _ H01), (pr_seen _ _ _ H01), (pr_policy _ _ _ H0), (pr_seen _ _ _ H0).
  done.
Qed.

(** A reserve can take over: with the context open, selection always
    answers, and each reserve it names is a listed route, known to differ from
    the client's primary in identifier, subscription route and profile, eligible
    as a reserve, closed, not retiring, degraded or excluded, freshly proved
    where proof is asked for, a warm profile if it is Tor, and UDP-qualified
    VLESS for UDP.  A reserve that is installed and still admissible stays. *)
Theorem reserves_sound_and_sticky now client a candidates proof applied w :
  budget w = None ->
  let byID := index_by_id candidates in
  exists r s, pruned now (sched w) s /\
    selectReserves now client a candidates proof applied w = (inr r, w <| sched := bump s |>) /\
    (rs_TCP r <> EmptyString -> exists primary c, byID !! TCP a = Some primary /\
       In c candidates /\ ID c = rs_TCP r /\
       reserve_fit now (sched w) client tcp primary proof c) /\
    (rs_UDP r <> EmptyString -> exists primary c, byID !! UDP a = Some primary /\
       In c candidates /\ ID c = rs_UDP r /\
       reserve_fit now (sched w) client udp primary proof c) /\
    (forall primary c, byID !! TCP a = Some primary -> TCP a <> EmptyString ->
       rs_TCP applied <> EmptyString -> In c candidates -> ID c = rs_TCP applied ->
       reserve_fit now (sched w) client tcp primary proof c -> rs_TCP r = rs_TCP applied) /\
    (forall primary c, byID !! UDP a = Some primary -> UDP a <> EmptyString ->
       rs_UDP applied <> EmptyString -> In c candidates -> ID c = rs_UDP applied ->
       reserve_fit now (sched w) client udp primary proof c -> rs_UDP r = rs_UDP applied).
Proof.
  intros Hb byID.
  destruct (selectReserves_run now client a candidates proof applied w Hb) as (s & Hp & E).
  eexists _, s. split; [exact Hp|]. split; [exact E|]. cbn [rs_TCP rs_UDP].
  pose proof (reserve_choice_sound (policy (sched w)) now (sched w) client tcp (TCP a) candidates
    byID proof (rs_TCP applied)) as [H1 H2].
  pose proof (reserve_choice_sound (policy (sched w)) now (sched w) client udp (UDP a) candidates
    byID proof (rs_UDP applied)) as [H3 H4].
  split_and!; [exact H1|exact H3|exact H2|exact H4].
Qed.

(** ** Witnesses *)

Definition sample_world : World := {| sched := sample_scheduler; budget := None |}.

Lemma emergency_sound_and_complete_witness :
  let failed := get_candidate (index_by_id sample_routes) "vless-a" in
  let fit c :=
    open_for_work c /\ ID c <> "vless-a"%string /\ distinct_route failed c /\
    seen 100 sample_scheduler "alice" (ID c) = false /\ carries udp c in
  exists id s,
    SelectEmergency 100 "alice" udp "vless-a" sample_routes sample_load ∅ sample_world =
      (inr id, sample_world <| sched := s |>) /\ pruned 100 sample_scheduler s /\
    (id = EmptyString -> forall c, In c sample_routes -> ~ fit c) /\
    (id <> EmptyString -> exists c, In c sample_routes /\ ID c = id /\ fit c).
Proof.
  apply (emergency_sound_and_complete 100 "alice" udp "vless-a" sample_routes sample_load ∅
           sample_world); [reflexivity|].
  intros c [<-|[<-|[<-|[]]]]; discriminate.
Defined.

Definition sample_assignment : Assignment :=
  {| TCP := "vless-a"; UDP := "vless-a"; TCPSince := 0; UDPSince := 0 |}.
Definition sample_reserve : ReserveSelection := {| rs_TCP := "vless-c"; rs_UDP := EmptyString |}.

Lemma reserves_sound_and_sticky_witness :
  let byID := index_by_id sample_routes in
  exists r s, pruned 100 sample_scheduler s /\
    selectReserves 100 "alice" sample_assignment sample_routes true sample_reserve sample_world =
      (inr r, sample_world <| sched := bump s |>) /\
    (rs_TCP r <> EmptyString -> exists primary c, byID !! TCP sample_assignment = Some primary /\
       In c sample_routes /\ ID c = rs_TCP r /\
       reserve_fit 100 sample_scheduler "alice" tcp primary true c) /\
    (rs_UDP r <> EmptyString -> exists primary c, byID !! UDP sample_assignment = Some primary /\
       In c sample_routes /\ ID c = rs_UDP r /\
       reserve_fit 100 sample_scheduler "alice" udp primary true c) /\
    (forall primary c, byID !! TCP sample_assignment = Some primary ->
       TCP sample_assignment <> EmptyString ->
       rs_TCP sample_reserve <> EmptyString -> In c sample_routes ->
       ID c = rs_TCP sample_reserve ->
       reserve_fit 100 sample_scheduler "alice" tcp primary true c ->
       rs_TCP r = rs_TCP sample_reserve) /\
    (forall primary c, byID !! UDP sample_assignment = Some primary ->
       UDP sample_assignment <> EmptyString ->
       rs_UDP sample_reserve <> EmptyString -> In c sample_routes ->
       ID c = rs_UDP sample_reserve ->
       reserve_fit 100 sample_scheduler "alice" udp primary true c ->
       rs_UDP r = rs_UDP sample_reserve).
Proof.
  apply (reserves_sound_and_sticky 100 "alice" sample_assignment sample_routes true
           sample_reserve sample_world). reflexivity.
Defined.

(** The lowest-ranked route stays because it is installed; UDP goes by rank. *)
Example installed_reserve_stays :
  (selectReserves 100 "alice" sample_assignment sample_routes true sample_reserve
     sample_world).1 = inr {| rs_TCP := "vless-c"; rs_UDP := "vless-b" |}.
Proof. vm_compute. reflexivity. Qed.
