(* ===== verification/Scheduling.v ===== *)
(** Ordinary placement (internal/scheduler/scheduler.go): the choice of a route
    for one client and network, and one scheduling round over all clients. *)
From S2P Require Import Prelude Effects GoOrder GoFloat GoSort.
From S2P Require Import QoE SchedLoad SchedState SchedReserves.

#[local] Open Scope Z_scope.
#[local] Open Scope effect_scope.

(** ** Data *)

Record Counters := {
  PlannedMoves : Z;
  HardMoves : Z;
  QoEMoves : Z
}.

#[export] Instance Counters_eta : Eta Counters := fun r =>
  Build_Counters (PlannedMoves r) (HardMoves r) (QoEMoves r).

Record Result := {
  Assignments : gmap string Assignment;
  ActiveLoad : gmap string Z;
  Moves : Counters
}.

Record ScheduleOptions := {
  SuppressQualityMoves : bool
}.

Definition planned (r : Counters) : Counters := r <| PlannedMoves := PlannedMoves r + 1 |>.
Definition hard (r : Counters) : Counters := r <| HardMoves := HardMoves r + 1 |>.
Definition qoe_move (r : Counters) : Counters := r <| QoEMoves := QoEMoves r + 1 |>.

(** ** The choice *)

Definition circuit_barred (circuitOpen : bool) (c : Candidate) : bool :=
  ServingOnly c || Retiring c || negb (Bool.eqb (CircuitOpen c) circuitOpen) || degraded c.

Definition rank_eligible (p : Policy) (filtered : list Candidate) : list Candidate :=
  quality_tier (QualityTier p) (preferStableQoE (preferProved (preferProtocolVLESS filtered))).

Definition eligibleCircuitState (now : Time) (client network : string)
    (candidates : list Candidate) (circuitOpen : bool) : M (list Candidate) :=
  filtered <- filterM (fun c =>
    if circuit_barred circuitOpen c then ret false
    else if qualified network c
    then (x <- excludedM now client (ID c) ;; ret (negb x))
    else ret false) candidates ;;
  p <- askPolicy ;;
  ret (rank_eligible p filtered).

Definition eligible (now : Time) (client network : string) (candidates : list Candidate) :
    M (list Candidate) := eligibleCircuitState now client network candidates false.

Definition openFallback (now : Time) (client network : string) (candidates : list Candidate) :
    M (list Candidate) := eligibleCircuitState now client network candidates true.

Definition measuredAlternative (now : Time) (client network : string) (current : Candidate)
    (eligible : list Candidate) (load domainLoad : gmap string Z) : M string :=
  p <- askPolicy ;;
  if negb (bool_decide (QoEStatus current = StatusHealthy)) || negb (QoEFresh current) ||
     (QoEEffective current <=? 0)
  then ret EmptyString
  else
    let measured :=
      List.filter
        (fun c => QoEPromotionReady c && ActiveEligible c && ActiveFresh c &&
                  fge (Score c) (Score current * QualityTier p)%float) eligible in
    qoeAlternative now client network current measured load domainLoad true false.

Definition promotable (c : Candidate) : bool :=
  negb (QoETracked c &&
        (negb (bool_decide (QoEStatus c = StatusHealthy)) || negb (QoEFresh c) ||
         negb (QoEPromotionReady c))).

Section Choose.
Context (now : Time) (client : Client) (network currentID : string) (since : Time)
  (active : bool) (candidates : list Candidate) (byID : gmap string Candidate)
  (load domainLoad : gmap string Z) (share suppress : bool).

Let cid := clientID client.
Let key : string := (cid ++ ":" ++ network)%string.
Let current := get_candidate byID currentID.
Let isNone (id : string) := str_eqb id EmptyString.

(** The client has no route yet. *)
Definition choose_first (eligible : list Candidate) (preferred preferredOpen : string)
    (r : Counters) : M (string * Counters) :=
  if negb (isNone preferred) then
    alternative <- measuredAlternative now cid network (get_candidate byID preferred)
                     eligible load domainLoad ;;
    ret (if negb (isNone alternative) then alternative else preferred, r)
  else ret (preferredOpen, r).

(** The current route is in an open failure domain. *)
Definition choose_open (p : Policy) (preferred preferredOpen : string) (r : Counters) :
    M (string * Counters) :=
  keep <- (if isNone preferred then openCurrentUsable now cid network current else ret false) ;;
  if keep then resetStreakM cid network ;;; ret (currentID, r)
  else
    let preferred := if isNone preferred then preferredOpen else preferred in
    if str_eqb preferred currentID then resetStreakM cid network ;;; ret (currentID, r)
    else if MaxPlannedMoves p <=? PlannedMoves r then ret (currentID, r)
    else if isNone preferred then ret (EmptyString, planned (hard r))
    else resetStreakM cid network ;;; ret (preferred, planned (hard r)).

(** The current route cannot be used. *)
Definition choose_unusable (p : Policy) (preferred preferredOpen : string) (r : Counters) :
    M (string * Counters) :=
  let openDomainMove := isNone preferred && negb (isNone preferredOpen) in
  let preferred := if openDomainMove then preferredOpen else preferred in
  if isNone preferred then ret (EmptyString, r)
  else if openDomainMove && (MaxPlannedMoves p <=? PlannedMoves r) then ret (currentID, r)
  else
    let r := if negb (isNone currentID) then hard r else r in
    let r := if openDomainMove then planned r else r in
    resetStreakM cid network ;;; ret (preferred, r).

(** The current route is confirmed degraded. *)
Definition choose_degraded (p : Policy) (r : Counters) : M (string * Counters) :=
  let requiresEvacuation := RequiresEvacuation (QoEReason current) in
  alternative <- qoeAlternative now cid network current candidates load domainLoad
                   (negb requiresEvacuation) true ;;
  let moved := qoe_move (if negb share then planned r else r) in
  if isNone alternative then resetStreakM cid network ;;; ret (currentID, r)
  else if requiresEvacuation then resetStreakM cid network ;;; ret (alternative, moved)
  else if time_sub now since <? MinimumDwell p
  then resetStreakM cid network ;;; ret (currentID, r)
  else
    streak <- incrementStreak (key ++ ":" ++ alternative)%string ;;
    if (streak <? RequiredSnapshots p) ||
       ((MaxPlannedMoves p <=? PlannedMoves r) && negb share)
    then ret (currentID, r)
    else resetStreakM cid network ;;; ret (alternative, moved).

(** A better route, an optional move. *)
Definition choose_quality (p : Policy) (eligible : list Candidate) (r : Counters) :
    M (string * Counters) :=
  let qualityEligible :=
    preferSpareCapacity (List.filter promotable eligible) candidates load in
  let preferred := rendezvous key qualityEligible load domainLoad in
  alternative <- measuredAlternative now cid network current qualityEligible load domainLoad ;;
  let measuredImprovement := negb (isNone alternative) in
  let preferred := if measuredImprovement then alternative else preferred in
  if isNone preferred then resetStreakM cid network ;;; ret (currentID, r)
  else if str_eqb currentID preferred || negb active
  then resetStreakM cid network ;;; ret (currentID, r)
  else
    let target := get_candidate byID preferred in
    let rebalancesLoad :=
      (2 <=? RouteLoad current candidates load) &&
      (RouteLoad target candidates load <? 2) &&
      fge (selectionQuality target) (selectionQuality current * QualityTier p)%float in
    if (negb measuredImprovement && negb rebalancesLoad &&
        (PrimFloat.leb (Score current) 0 ||
         PrimFloat.ltb (Score target) (Score current * (1 + MinimumImprovement p))%float)) ||
       (time_sub now since <? MinimumDwell p)
    then resetStreakM cid network ;;; ret (currentID, r)
    else
      streak <- incrementStreak (key ++ ":" ++ preferred)%string ;;
      if (streak <? RequiredSnapshots p) ||
         ((MaxPlannedMoves p <=? PlannedMoves r) && negb share)
      then ret (currentID, r)
      else resetStreakM cid network ;;;
           ret (preferred, if negb share then planned r else r).

Definition choose (r : Counters) : M (string * Counters) :=
  p <- askPolicy ;;
  eligible <- eligible now cid network candidates ;;
  let eligible := preferSpareCapacity eligible candidates load in
  let preferred := rendezvous key eligible load domainLoad in
  fallback <- openFallback now cid network candidates ;;
  let preferredOpen := rendezvous key fallback load domainLoad in
  let currentExists := bool_decide (is_Some (byID !! currentID)) in
  usable <- (if currentExists then candidateUsable now cid network current else ret false) ;;
  let currentUsable :=
    if bool_decide (proto current = ProtocolTor) && existsb is_vless eligible
    then false else usable in
  if isNone currentID then choose_first eligible preferred preferredOpen r
  else if currentExists && CircuitOpen current then choose_open p preferred preferredOpen r
  else if negb currentUsable then choose_unusable p preferred preferredOpen r
  else if Retiring current then
    (if isNone preferred then resetStreakM cid network ;;; ret (currentID, r)
     else resetStreakM cid network ;;; ret (preferred, hard r))
  else if degraded current then choose_degraded p r
  else if suppress then ret (currentID, r)
  else choose_quality p eligible r.
End Choose.

(** ** One round *)

(** What the loop over the clients carries. *)
Record Round := {
  rd_assignments : gmap string Assignment;
  rd_load : gmap string Z;
  rd_domainLoad : gmap string Z;
  rd_moves : Counters
}.

(** TCP and UDP of one client, before the load is put back. *)
Definition place_client (now : Time) (options : ScheduleOptions) (candidates : list Candidate)
    (byID : gmap string Candidate) (load domainLoad : gmap string Z) (active : bool)
    (client : Client) (r0 : Counters) : M (Assignment * Counters) :=
  let cid := clientID client in
  let old := assignment client in
  chosen <-
    (if PreserveTCP client then resetStreakM cid tcp ;;; ret (TCP old, r0)
     else choose now client tcp (TCP old) (TCPSince old) active candidates byID load
            domainLoad false (SuppressQualityMoves options) r0) ;;
  let '(tcpID, r) := chosen in
  let a := old <| TCP := tcpID |> in
  let a := if negb (str_eqb (TCP a) (TCP old)) then a <| TCPSince := now |> else a in
  let share := negb (str_eqb (TCP a) (TCP old)) &&
               (PlannedMoves r0 <? PlannedMoves r) && (HardMoves r =? HardMoves r0) in
  let tcpCandidate := get_candidate byID (TCP a) in
  tcpCanUDP <-
    (if bool_decide (is_Some (byID !! TCP a)) &&
        (negb (ServingOnly tcpCandidate) || str_eqb (UDP a) (TCP a)) &&
        is_vless tcpCandidate && UDPQualified tcpCandidate
     then (usable <- candidateUsable now cid udp tcpCandidate ;;
           ret (usable && negb (Retiring tcpCandidate) && negb (CircuitOpen tcpCandidate) &&
                negb (degraded tcpCandidate)))
     else ret false) ;;
  let currentUDP := get_candidate byID (UDP old) in
  if PreserveUDP client then resetStreakM cid udp ;;; ret (a, r)
  else if tcpCanUDP then
    ret (if negb (str_eqb (UDP a) (TCP a)) then
           (a <| UDP := TCP a |> <| UDPSince := now |>,
            if bool_decide (is_Some (byID !! UDP old)) && degraded currentUDP
            then qoe_move r else r)
         else (a, r))
  else
    chosen <- choose now client udp (UDP a) (UDPSince a) active candidates byID load
                domainLoad share (SuppressQualityMoves options) r ;;
    let '(udpID, r) := chosen in
    let a := a <| UDP := udpID |> in
    let a := if negb (str_eqb (UDP a) (UDP old)) then a <| UDPSince := now |> else a in
    let udpCandidate := get_candidate byID (UDP a) in
    align <-
      (if negb (PreserveTCP client) && bool_decide (is_Some (byID !! UDP a)) &&
          is_vless udpCandidate && TCPQualified udpCandidate && UDPQualified udpCandidate
       then (usable <- candidateUsable now cid tcp udpCandidate ;;
             ret (usable && negb (Retiring udpCandidate) && negb (CircuitOpen udpCandidate) &&
                  negb (degraded udpCandidate)))
       else ret false) ;;
    ret (if align then a <| TCP := UDP a |> <| TCPSince := now |> else a, r).

Definition schedule_client (now : Time) (options : ScheduleOptions)
    (candidates : list Candidate) (byID : gmap string Candidate) (rd : Round)
    (client : Client) : M Round :=
  checkContext ;;;
  p <- askPolicy ;;
  let active := is_active now (InactiveAfter p) client in
  let '(load, domainLoad) :=
    if active
    then adjustAssignmentLoad (rd_load rd) (rd_domainLoad rd) (assignment client) byID (-1)
    else (rd_load rd, rd_domainLoad rd) in
  placed <- place_client now options candidates byID load domainLoad active client
              (rd_moves rd) ;;
  let '(a, r) := placed in
  let '(load, domainLoad) :=
    if active then adjustAssignmentLoad load domainLoad a byID 1 else (load, domainLoad) in
  ret {| rd_assignments := <[clientID client := a]> (rd_assignments rd);
         rd_load := load; rd_domainLoad := domainLoad; rd_moves := r |}.

(** Clients in open domains first, then by identifier. *)
Definition client_less (byID : gmap string Candidate) (left right : Client) : bool :=
  let leftOpen := assignmentUsesOpenDomain (assignment left) byID in
  let rightOpen := assignmentUsesOpenDomain (assignment right) byID in
  if negb (Bool.eqb leftOpen rightOpen) then leftOpen
  else str_ltb (clientID left) (clientID right).

Definition scheduleContext (now : Time) (clients : list Client) (candidates : list Candidate)
    (options : ScheduleOptions) : M Result :=
  checkContext ;;;
  let candidates := normalizeOpenDomains candidates in
  check_each candidates ;;;
  let byID := index_by_id candidates in
  let orderedClients := sort_slice (client_less byID) clients in
  p <- askPolicy ;;
  rd <- foldM (schedule_client now options candidates byID)
          {| rd_assignments := ∅;
             rd_load := activeLoad now orderedClients (InactiveAfter p);
             rd_domainLoad := activeDomainLoad now orderedClients byID (InactiveAfter p);
             rd_moves := {| PlannedMoves := 0; HardMoves := 0; QoEMoves := 0 |} |}
          orderedClients ;;
  ret {| Assignments := rd_assignments rd;
         ActiveLoad := loadFromAssignments now orderedClients (rd_assignments rd)
                         (InactiveAfter p);
         Moves := rd_moves rd |}.

(** The locked entry point: expired exclusions go first; a cancelled round puts
    the streaks back; a finished one moves the version. *)
Definition ScheduleContextWithOptions (now : Time) (clients : list Client)
    (candidates : list Candidate) (options : ScheduleOptions) : M Result := fun w =>
  let w := w <| sched := compactExclusionsLocked (sched w) now |> in
  let previousStreaks := streaks (sched w) in
  match scheduleContext now clients candidates options w with
  | (inl e, w) => (inl e, w <| sched := (sched w) <| streaks := previousStreaks |> |>)
  | (inr result, w) => (inr result, w <| sched := bump (sched w) |>)
  end.

Definition ScheduleContext (now : Time) (clients : list Client) (candidates : list Candidate) :
    M Result :=
  ScheduleContextWithOptions now clients candidates {| SuppressQualityMoves := false |}.

(** [Preview.ScheduleContext]: a round on the preview's copy. *)
Definition PreviewSchedule (preview : Preview) (budget : option nat) (now : Time)
    (clients : list Client) (candidates : list Candidate) : (Error + Result) * Preview :=
  if p_done preview then (inl PreviewClosed, preview)
  else
    let '(result, w) := ScheduleContext now clients candidates
                          {| sched := p_scheduler preview; budget := budget |} in
    (result, preview <| p_scheduler := sched w |>).

(** ** Running the monad

    [run]: from a state with policy [p], excluded pairs [X] and version [v], and
    an open context, the program answers with a value that satisfies [Q] and
    keeps all of these. *)

Record keeps (now : Time) (p : Policy) (X : gset (string * string)) (v : Z) (w : World) :
    Prop := {
  kp_budget : budget w = None;
  kp_policy : policy (sched w) = p;
  kp_seen : excl_set now (sched w) = X;
  kp_version : version (sched w) = v
}.

Definition run {A : Type} (now : Time) (p : Policy) (X : gset (string * string)) (v : Z)
    (m : M A) (Q : A -> Prop) : Prop :=
  forall w, keeps now p X v w -> exists a w', m w = (inr a, w') /\ keeps now p X v w' /\ Q a.

Section Rules.
Context (now : Time) (p : Policy) (X : gset (string * string)) (v : Z).
Abbreviation run_ := (run now p X v).

Lemma run_ret {A : Type} (a : A) (Q : A -> Prop) : Q a -> run_ (ret a) Q.
Proof. intros H w Hw. by exists a, w. Qed.

Lemma run_bind {A B : Type} (m : M A) (k : A -> M B) (P : A -> Prop) (Q : B -> Prop) :
  run_ m P -> (forall a, P a -> run_ (k a) Q) -> run_ (bind m k) Q.
Proof.
  intros Hm Hk w Hw. destruct (Hm w Hw) as (a & w1 & E & Hw1 & Ha).
  unfold bind. rewrite E. by apply Hk.
Qed.

Lemma run_mono {A : Type} (m : M A) (P Q : A -> Prop) :
  run_ m P -> (forall a, P a -> Q a) -> run_ m Q.
Proof. intros Hm H w Hw. destruct (Hm w Hw) as (a & w1 & E & Hw1 & Ha). eauto 6. Qed.

Lemma run_reads {A : Type} (m : M A) f (Q : A -> Prop) : reads now m f -> Q (f p X) -> run_ m Q.
Proof.
  intros Hm HQ w [Hb Hp HX Hv]. destruct (Hm w Hb) as (s & E & Hpr).
  exists (f p X), (w <| sched := s |>). split; [by rewrite E, Hp, HX|]. split; [|done].
  destruct Hpr as [H1 H2 H3 H4]. split; simpl; congruence.
Qed.

Lemma run_if {A : Type} (b : bool) (m n : M A) (Q : A -> Prop) :
  (b = true -> run_ m Q) -> (b = false -> run_ n Q) -> run_ (if b then m else n) Q.
Proof. destruct b; auto. Qed.

Lemma run_policy (Q : Policy -> Prop) : Q p -> run_ askPolicy Q.
Proof. intros HQ. by apply (run_reads _ (fun p _ => p)); [apply reads_policy|]. Qed.

Lemma run_check (Q : unit -> Prop) : Q tt -> run_ checkContext Q.
Proof. intros HQ. by apply (run_reads _ (fun _ _ => tt)); [apply reads_check|]. Qed.

Lemma run_reset client network (Q : unit -> Prop) : Q tt -> run_ (resetStreakM client network) Q.
Proof. intros HQ w [Hb Hp HX Hv]. by exists tt, (w <| sched := resetStreak (sched w) client network |>). Qed.

Lemma run_increment key (Q : Z -> Prop) : (forall n, Q n) -> run_ (incrementStreak key) Q.
Proof. intros HQ w [Hb Hp HX Hv]. unfold incrementStreak. by eexists _, _. Qed.

Lemma run_foldM {A B : Type} (f : B -> A -> M B) (I : list A -> B -> Prop) l b :
  I [] b ->
  (forall done_ x todo b, l = done_ ++ x :: todo -> I done_ b ->
     run_ (f b x) (I (done_ ++ [x]))) ->
  run_ (foldM f b l) (I l).
Proof.
  intros H0 Hstep.
  assert (forall todo done_ b, l = done_ ++ todo -> I done_ b -> run_ (foldM f b todo) (I l)) as H.
  { intros todo. induction todo as [|x todo IH]; intros done_ b' Hl Hb; simpl.
    - rewrite app_nil_r in Hl. subst. by apply run_ret.
    - eapply run_bind; [by eapply Hstep|]. intros b1 Hb1.
      apply (IH (done_ ++ [x])); [by rewrite <- app_assoc|done]. }
  by apply (H l []).
Qed.

(** *** Candidates that may be moved to *)

(** A route that may receive a client's traffic: [circuitOpen] says whether its
    failure domain is closed or open. *)
Definition fit (client network : string) (circuitOpen : bool) (c : Candidate) : Prop :=
  ServingOnly c = false /\ Retiring c = false /\ CircuitOpen c = circuitOpen /\
  degraded c = false /\ qualified network c = true /\ (client, ID c) ∉ X.

Lemma fit_test client network b c :
  negb (circuit_barred b c) && qualified network c && allowed X client c = true <->
  fit client network b c.
Proof.
  unfold circuit_barred, allowed, fit.
  rewrite !andb_true_iff, !negb_true_iff, !orb_false_iff, negb_false_iff, Bool.eqb_true_iff,
    bool_decide_eq_false. tauto.
Qed.

Lemma reads_eligibleCircuitState client network candidates b :
  reads now (eligibleCircuitState now client network candidates b)
    (fun p X => rank_eligible p
       (List.filter (fun c => negb (circuit_barred b c) && qualified network c &&
                              allowed X client c) candidates)).
Proof.
  unfold eligibleCircuitState.
  apply (reads_bind now _ _
    (fun _ X => List.filter (fun c => negb (circuit_barred b c) && qualified network c &&
                                      allowed X client c) candidates)
    (fun filtered p _ => rank_eligible p filtered)).
  - apply (reads_filterM now _
      (fun c _ X => negb (circuit_barred b c) && qualified network c && allowed X client c)).
    intros c. destruct (circuit_barred b c); [exact (reads_ret now false)|].
    destruct (qualified network c); [|exact (reads_ret now false)].
    apply (reads_bind now _ _ (fun _ X => bool_decide ((client, ID c) ∈ X))
      (fun x _ _ => negb x)); [apply reads_excluded|]. intros x. apply reads_ret.
  - intros filtered.
    apply (reads_bind now _ _ (fun p _ => p) (fun p _ _ => rank_eligible p filtered));
      [apply reads_policy|]. intros q. apply reads_ret.
Qed.

Lemma preferProtocolVLESS_In l c : In c (preferProtocolVLESS l) -> In c l.
Proof. unfold preferProtocolVLESS. case_if; [apply filter_incl|done]. Qed.

Lemma rank_eligible_In q l c : In c (rank_eligible q l) -> In c l.
Proof.
  unfold rank_eligible, quality_tier. intros H%filter_incl%or_else_filter_In%or_else_filter_In.
  by apply preferProtocolVLESS_In.
Qed.

(** The identifiers an operation may answer with. *)
Definition among (client network : string) (b : bool) (candidates : list Candidate)
    (id : string) : Prop :=
  exists c, In c candidates /\ ID c = id /\ fit client network b c.

Lemma run_eligible client network candidates b (Q : list Candidate -> Prop) :
  (forall l, (forall c, In c l -> In c candidates /\ fit client network b c) -> Q l) ->
  run_ (eligibleCircuitState now client network candidates b) Q.
Proof.
  intros HQ. eapply run_reads; [apply reads_eligibleCircuitState|]. apply HQ.
  intros c Hc%rank_eligible_In. apply filter_In in Hc as [Hc Hf]. by rewrite fit_test in Hf.
Qed.

Lemma rendezvous_among client network b candidates key l load domainLoad :
  (forall c, In c l -> In c candidates /\ fit client network b c) ->
  rendezvous key l load domainLoad = EmptyString \/
  among client network b candidates (rendezvous key l load domainLoad).
Proof.
  intros Hl. destruct (rendezvous_In key l load domainLoad) as [?|(c & Hc & He)]; [by left|].
  right. apply Hl in Hc as [Hc Hf]. by exists c.
Qed.

Lemma alternative_step_name domainLoad acc c :
  (alternative_step domainLoad acc c).1.1 = acc.1.1 \/
  (alternative_step domainLoad acc c).1.1 = ID c.
Proof. destruct acc as [[s q] d]. unfold alternative_step. case_if; auto. Qed.

Lemma alternative_select_In current found candidates load domainLoad prefer :
  alternative_select current found candidates load domainLoad prefer = EmptyString \/
  exists c, In c found /\
    ID c = alternative_select current found candidates load domainLoad prefer.
Proof.
  unfold alternative_select. set (l := List.filter _ (preferSpareCapacity _ _ _)).
  destruct (selection_In (alternative_step domainLoad) (fun acc => acc.1.1) l
    (EmptyString, 0%float, 0) (alternative_step_name domainLoad)) as [->|(c & Hc & ->)];
    [by left|]. right. exists c. split; [|done].
  unfold l in Hc. apply filter_incl, preferSpareCapacity_incl in Hc.
  revert Hc. case_if; [intros Hc%filter_incl|intros Hc]; by apply or_else_filter_In in Hc.
Qed.

Lemma run_qoeAlternative client network current l candidates load domainLoad speedup prefer
    (Q : string -> Prop) :
  incl l candidates ->
  Q EmptyString -> (forall id, among client network false candidates id -> Q id) ->
  run_ (qoeAlternative now client network current l load domainLoad speedup prefer) Q.
Proof.
  intros Hl H0 HQ. unfold qoeAlternative. apply (run_bind _ _ (fun q => q = p)); [by apply run_policy|]. intros q ->.
  eapply (run_bind _ _ (fun found => forall c, In c found ->
    In c candidates /\ fit client network false c)).
  - eapply run_reads.
    + apply (reads_filterM now _ (fun c _ X =>
        negb (ServingOnly c || Retiring c || negb (bool_decide (QoEStatus c = StatusHealthy)) ||
              negb (QoEFresh c) || (QoEEffective c <=? 0)) &&
        (negb (CircuitOpen c) && allowed X client c && qualified network c &&
         negb (speedup && PrimFloat.ltb (selectionQuality c)
                 (selectionQuality current * QoEAlternativeSpeedup p)%float)))).
      intros c. destruct (_ || _); [exact (reads_ret now false)|].
      apply (reads_bind now _ _
        (fun _ X => negb (CircuitOpen c) && allowed X client c && qualified network c)
        (fun usable _ _ => usable && negb (speedup && PrimFloat.ltb (selectionQuality c)
                 (selectionQuality current * QoEAlternativeSpeedup p)%float)));
        [apply reads_candidateUsable|]. intros x. apply reads_ret.
    + intros c Hc. apply filter_In in Hc as [Hc Hf]. split; [by apply Hl|].
      unfold allowed in Hf. unfold fit, degraded.
      rewrite !andb_true_iff, !negb_true_iff, !orb_false_iff, !negb_false_iff,
        bool_decide_eq_false, bool_decide_eq_true in Hf.
      destruct Hf as (((((Hs & Hr) & Hh) & _) & _) & ((Hc' & HX) & Hq) & _).
      rewrite bool_decide_eq_false. rewrite Hh. done.
  - intros found Hfound. apply run_ret.
    destruct (alternative_select_In current found l load domainLoad prefer) as [->|(c & Hc & <-)];
      [done|]. apply HQ. apply Hfound in Hc as [Hc Hf]. by exists c.
Qed.

Lemma run_measuredAlternative client network current l candidates load domainLoad
    (Q : string -> Prop) :
  incl l candidates ->
  Q EmptyString -> (forall id, among client network false candidates id -> Q id) ->
  run_ (measuredAlternative now client network current l load domainLoad) Q.
Proof.
  intros Hl H0 HQ. unfold measuredAlternative. apply (run_bind _ _ (fun q => q = p)); [by apply run_policy|]. intros q ->.
  apply run_if; intros _; [by apply run_ret|]. eapply run_qoeAlternative; [|done|done].
  intros c Hc. apply Hl. by apply filter_incl in Hc.
Qed.
End Rules.

(** ** The choice, specified *)

Section ChooseSpec.
Context (now : Time) (p : Policy) (X : gset (string * string)) (v : Z).
Context (client : Client) (network currentID : string) (since : Time)
  (active : bool) (candidates : list Candidate) (byID : gmap string Candidate)
  (load domainLoad : gmap string Z) (share suppress : bool) (r : Counters).

Abbreviation run_ := (run now p X v).
Abbreviation cid := (clientID client).

Let current := get_candidate byID currentID.

(** A confirmed outage or sustained throttling of the current route. *)
Definition evacuates : bool := degraded current && RequiresEvacuation (QoEReason current).

(** Nothing is wrong with the current route. *)
Definition settled : Prop :=
  currentID <> EmptyString /\ byID !! currentID = Some current /\
  proto current <> ProtocolTor /\ CircuitOpen current = false /\ Retiring current = false /\
  degraded current = false /\ qualified network current = true /\ (cid, ID current) ∉ X.

(** A route the choice may name: the current one, none, or a fit one. *)
Definition target (id : string) : Prop :=
  id = currentID \/ id = EmptyString \/ exists b, among X cid network b candidates id.

Record choice_ok (res : string * Counters) : Prop := {
  co_target : target res.1;
  co_planned : evacuates = false -> PlannedMoves r <= MaxPlannedMoves p ->
    PlannedMoves res.2 <= MaxPlannedMoves p;
  co_stable : suppress = true -> settled -> res = (currentID, r)
}.

(** The same without the stability clause. *)
Definition moves_ok (res : string * Counters) : Prop :=
  target res.1 /\
  (evacuates = false -> PlannedMoves r <= MaxPlannedMoves p ->
   PlannedMoves res.2 <= MaxPlannedMoves p).

Lemma moves_stay : moves_ok (currentID, r).
Proof. split; [by left|done]. Qed.

Lemma run_reset_ret {A : Type} (a : A) (Q : A -> Prop) :
  Q a -> run_ (resetStreakM cid network ;;; ret a) Q.
Proof.
  intros HQ. apply (run_bind _ _ _ _ _ _ (fun _ => True)); [by apply run_reset|].
  intros _ _. by apply run_ret.
Qed.

(** [id] is a possible choice among the closed or the open routes. *)
Definition proposed (b : bool) (id : string) : Prop :=
  id = EmptyString \/ among X cid network b candidates id.

Lemma proposed_target b id : proposed b id -> target id.
Proof. intros [->|H]; [right; by left|right; right; by exists b]. Qed.

Lemma run_choose_first el preferred preferredOpen :
  (forall c, In c el -> In c candidates /\ fit X cid network false c) ->
  proposed false preferred -> proposed true preferredOpen ->
  run_ (choose_first now client network byID load domainLoad el preferred preferredOpen r)
    moves_ok.
Proof.
  intros Hel Hp Ho. unfold choose_first. apply run_if; intros _.
  - apply (run_bind _ _ _ _ _ _ (proposed false)).
    + apply (run_measuredAlternative _ _ _ _ _ _ _ _ candidates); [|by left|by right].
      intros c Hc. by apply Hel.
    + intros a Ha. apply run_ret. split; [|done]. cbn [fst].
      case_if; by eapply proposed_target.
  - apply run_ret. split; [|done]. by eapply proposed_target.
Qed.

Lemma run_choose_open preferred preferredOpen :
  proposed false preferred -> proposed true preferredOpen ->
  run_ (choose_open now client network currentID byID p preferred preferredOpen r) moves_ok.
Proof.
  intros Hp Ho. unfold choose_open. apply (run_bind _ _ _ _ _ _ (fun _ => True)).
  { apply run_if; intros _; [|by apply run_ret].
    by eapply run_reads; [apply reads_openCurrentUsable|]. }
  intros keep _. apply run_if; intros _; [apply run_reset_ret, moves_stay|].
  cbv zeta. set (q := if str_eqb preferred EmptyString then preferredOpen else preferred).
  assert (target q) as Hq by (unfold q; case_if; by eapply proposed_target).
  apply run_if; intros _; [apply run_reset_ret, moves_stay|].
  apply run_if; intros E; [apply run_ret, moves_stay|]. z_bool.
  apply run_if; intros _; [apply run_ret|apply run_reset_ret];
    (split; [first [exact Hq|by right; left]|intros; simpl; lia]).
Qed.

Lemma run_choose_unusable preferred preferredOpen :
  proposed false preferred -> proposed true preferredOpen ->
  run_ (choose_unusable client network currentID p preferred preferredOpen r) moves_ok.
Proof.
  intros Hp Ho. unfold choose_unusable. cbv zeta.
  set (o := str_eqb preferred EmptyString && _).
  set (q := if o then preferredOpen else preferred).
  assert (target q) as Hq by (unfold q; case_if; by eapply proposed_target).
  apply run_if; intros _; [apply run_ret; split; [by right; left|done]|].
  apply run_if; intros E; [apply run_ret, moves_stay|].
  apply run_reset_ret. split; [done|]. intros _ Hle.
  destruct o; cbn [andb] in E; z_bool; case_if; simpl; lia.
Qed.

Lemma run_choose_degraded :
  degraded current = true ->
  run_ (choose_degraded now client network currentID since candidates byID load domainLoad
          share p r) moves_ok.
Proof.
  intros Hd. unfold choose_degraded. fold current. cbv zeta.
  apply (run_bind _ _ _ _ _ _ (proposed false)).
  { apply (run_qoeAlternative _ _ _ _ _ _ _ _ candidates); [apply incl_refl|by left|by right]. }
  intros a Ha. apply proposed_target in Ha.
  apply run_if; intros _; [apply run_reset_ret, moves_stay|].
  apply run_if; intros Ev.
  { apply run_reset_ret. split; [done|]. unfold evacuates. rewrite Hd, Ev. done. }
  apply run_if; intros _; [apply run_reset_ret, moves_stay|].
  apply (run_bind _ _ _ _ _ _ (fun _ => True)); [by apply run_increment|]. intros n _.
  apply run_if; intros E; [apply run_ret, moves_stay|]. apply orb_false_iff in E as [_ E].
  apply run_reset_ret. split; [done|]. intros _ Hle.
  destruct share; simpl in *; [lia|]. rewrite andb_true_r in E. z_bool. simpl. lia.
Qed.

Lemma run_choose_quality el :
  (forall c, In c el -> In c candidates /\ fit X cid network false c) ->
  run_ (choose_quality now client network currentID since active candidates byID load
          domainLoad share p el r) moves_ok.
Proof.
  intros Hel. unfold choose_quality. fold current. cbv zeta.
  set (ql := preferSpareCapacity _ _ _).
  assert (forall c, In c ql -> In c candidates /\ fit X cid network false c) as Hql.
  { intros c Hc. apply preferSpareCapacity_incl, filter_incl in Hc. by apply Hel. }
  apply (run_bind _ _ _ _ _ _ (proposed false)).
  { apply (run_measuredAlternative _ _ _ _ _ _ _ _ candidates); [|by left|by right].
    intros c Hc. by apply Hql. }
  intros a Ha. set (q := if negb (str_eqb a EmptyString) then a else _).
  assert (target q) as Hq.
  { unfold q. case_if; [by eapply proposed_target|].
    eapply (proposed_target false), rendezvous_among. done. }
  apply run_if; intros _; [apply run_reset_ret, moves_stay|].
  apply run_if; intros _; [apply run_reset_ret, moves_stay|].
  apply run_if; intros _; [apply run_reset_ret, moves_stay|].
  apply (run_bind _ _ _ _ _ _ (fun _ => True)); [by apply run_increment|]. intros n _.
  apply run_if; intros E; [apply run_ret, moves_stay|]. apply orb_false_iff in E as [_ E].
  apply run_reset_ret. split; [done|]. intros _ Hle.
  destruct share; simpl in *; [lia|]. rewrite andb_true_r in E. z_bool. simpl. lia.
Qed.

Lemma run_choose :
  run_ (choose now client network currentID since active candidates byID load domainLoad
          share suppress r) choice_ok.
Proof.
  unfold choose. fold current. apply (run_bind _ _ _ _ _ _ (fun q => q = p)).
  { by apply run_policy. }
  intros q ->. apply (run_bind _ _ _ _ _ _ (fun l => forall c, In c l ->
    In c candidates /\ fit X cid network false c)); [by apply run_eligible|].
  intros el0 Hel0. cbv zeta. set (el := preferSpareCapacity el0 candidates load).
  assert (forall c, In c el -> In c candidates /\ fit X cid network false c) as Hel.
  { intros c Hc. apply Hel0. by apply preferSpareCapacity_incl in Hc. }
  apply (run_bind _ _ _ _ _ _ (fun l => forall c, In c l ->
    In c candidates /\ fit X cid network true c)); [by apply run_eligible|].
  intros fb Hfb. set (key := (cid ++ ":" ++ network)%string).
  set (preferred := rendezvous key el load domainLoad).
  set (preferredOpen := rendezvous key fb load domainLoad).
  assert (proposed false preferred) as Hp by exact (rendezvous_among _ _ _ _ _ _ _ _ _ Hel).
  assert (proposed true preferredOpen) as Ho by exact (rendezvous_among _ _ _ _ _ _ _ _ _ Hfb).
  apply (run_bind _ _ _ _ _ _ (fun b => settled -> b = true)).
  { apply run_if; intros E.
    - eapply run_reads; [apply reads_candidateUsable|].
      intros (_ & _ & _ & Hc & _ & _ & Hq & HX). unfold allowed.
      by rewrite Hc, Hq, bool_decide_eq_false_2.
    - apply run_ret. intros (_ & Hs & _). apply bool_decide_eq_false in E. destruct E. by eexists. }
  intros usable Hu.
  assert (forall m : M (string * Counters),
    run_ m moves_ok -> (settled -> False) -> run_ m choice_ok) as Hun.
  { intros m Hm Hf. eapply run_mono; [exact Hm|]. intros res [H1 H2]. by split. }
  apply run_if; intros E1.
  { apply Hun; [by apply run_choose_first|]. str_bool. by intros (? & _). }
  str_bool. apply run_if; intros E2.
  { apply Hun; [by apply run_choose_open|]. apply andb_true_iff in E2 as [_ E2].
    intros (_ & _ & _ & Hc & _). congruence. }
  apply run_if; intros E3.
  { apply Hun; [by apply run_choose_unusable|]. intros Hs. pose proof (Hu Hs) as ->.
    destruct Hs as (_ & _ & Ht & _). rewrite bool_decide_eq_false_2 in E3 by done. done. }
  apply run_if; intros E4.
  { apply Hun; [|intros (_ & _ & _ & _ & Hr & _); congruence].
    apply run_if; intros _; apply run_reset_ret; [apply moves_stay|].
    split; [by eapply proposed_target|done]. }
  apply run_if; intros E5.
  { apply Hun; [by apply run_choose_degraded|].
    intros (_ & _ & _ & _ & _ & Hd & _). congruence. }
  apply run_if; intros E6.
  { apply run_ret. destruct moves_stay. by split. }
  eapply run_mono; [by apply run_choose_quality|]. intros res [H1 H2]. split; [done|done|].
  congruence.
Qed.
End ChooseSpec.

(** ** One client *)

(** Identifiers name candidates. *)
Definition well_identified (candidates : list Candidate) : Prop :=
  NoDup (map ID candidates) /\ forall c, In c candidates -> ID c <> EmptyString.

Lemma index_by_id_lookup candidates id c :
  index_by_id candidates !! id = Some c -> In c candidates /\ ID c = id.
Proof.
  unfold index_by_id.
  assert (forall m : gmap string Candidate,
    (forall id c, m !! id = Some c -> In c candidates /\ ID c = id) ->
    forall l, incl l candidates -> forall id (c : Candidate),
    fold_left (fun m c => <[ID c := c]> m) l m !! id = Some c -> In c candidates /\ ID c = id)
    as H.
  { intros m Hm l. revert m Hm. induction l as [|x l IH]; intros m Hm Hl i y; simpl; [apply Hm|].
    apply IH; [|intros z Hz; apply Hl; by right].
    intros i' y' [[<- <-]|[_ H]]%lookup_insert_Some; [|by apply Hm].
    split; [|done]. apply Hl. by left. }
  apply (H ∅); [intros ? ? Hx; by rewrite lookup_empty in Hx|apply incl_refl].
Qed.

Lemma get_candidate_known candidates id :
  bool_decide (is_Some (index_by_id candidates !! id)) = true ->
  let c := get_candidate (index_by_id candidates) id in
  In c candidates /\ ID c = id /\ index_by_id candidates !! id = Some c.
Proof.
  intros [c Hc]%bool_decide_eq_true. unfold get_candidate. rewrite Hc. simpl.
  apply index_by_id_lookup in Hc as HH. naive_solver.
Qed.

Lemma well_identified_eq candidates c d :
  well_identified candidates -> In c candidates -> In d candidates -> ID c = ID d -> c = d.
Proof.
  intros [Hnd _]. induction candidates as [|x l IH]; [done|]. cbn [map] in Hnd.
  apply NoDup_cons in Hnd as [Hx Hnd]. rewrite list_elem_of_In, in_map_iff in Hx.
  intros [->|Hc] [->|Hd] He; eauto; exfalso; apply Hx; eauto.
Qed.

(** What a round needs of them: one identifier names one candidate. *)
Definition identified (candidates : list Candidate) : Prop :=
  (forall c d, In c candidates -> In d candidates -> ID c = ID d -> c = d) /\
  forall c, In c candidates -> ID c <> EmptyString.

Lemma well_identified_identified candidates : well_identified candidates -> identified candidates.
Proof. intros Hw. split; [|apply Hw]. intros c d. by apply well_identified_eq. Qed.

Lemma identified_incl l candidates : identified candidates -> incl l candidates -> identified l.
Proof. intros [H1 H2] Hl. split; eauto. Qed.

Section PlaceSpec.
Context (now : Time) (p : Policy) (X : gset (string * string)) (v : Z).
Context (options : ScheduleOptions) (candidates : list Candidate) (client : Client).

Abbreviation run_ := (run now p X v).
Abbreviation cid := (clientID client).
Abbreviation byID := (index_by_id candidates).
Abbreviation old := (assignment client).

(** What any route must satisfy to receive a client's traffic. *)
Definition admitted (network : string) (c : Candidate) : Prop :=
  Retiring c = false /\ degraded c = false /\ qualified network c = true /\
  (cid, ID c) ∉ X.

Lemma fit_admitted network b c : fit X cid network b c -> admitted network c.
Proof. unfold fit, admitted. tauto. Qed.

(** A new TCP route is admitted; it serves only (retained, closed to new work)
    only if it was the client's UDP route already.  A new UDP route never serves
    only. *)
Definition tcp_ok (id : string) : Prop :=
  id = TCP old \/ id = EmptyString \/
  exists c, In c candidates /\ ID c = id /\ admitted tcp c /\
    (ServingOnly c = true -> id = UDP old).

Definition udp_ok (id : string) : Prop :=
  id = UDP old \/ id = EmptyString \/
  exists c, In c candidates /\ ID c = id /\ admitted udp c /\ ServingOnly c = false.

(** No known route must be evacuated. *)
Definition calm : Prop := forall c, In c candidates ->
  degraded c && RequiresEvacuation (QoEReason c) = false.

(** Both transports on one sound VLESS route. *)
Definition at_rest : Prop :=
  UDP old = TCP old /\ settled X client tcp (TCP old) byID /\
  settled X client udp (TCP old) byID.

Record place_ok (r0 : Counters) (res : Assignment * Counters) : Prop := {
  pk_tcp : tcp_ok (TCP res.1);
  pk_udp : udp_ok (UDP res.1);
  pk_preserve_tcp : PreserveTCP client = true -> TCP res.1 = TCP old;
  pk_preserve_udp : PreserveUDP client = true -> UDP res.1 = UDP old;
  pk_planned : calm -> PlannedMoves r0 <= MaxPlannedMoves p ->
    PlannedMoves res.2 <= MaxPlannedMoves p;
  pk_stable : SuppressQualityMoves options = true -> at_rest -> res = (old, r0)
}.

Lemma target_tcp id :
  target X client tcp (TCP old) candidates id -> tcp_ok id.
Proof.
  intros [->|[->|(b & c & Hc & He & Hf)]]; [by left|right; by left|].
  right; right. exists c. split_and!; [done|done|by eapply fit_admitted|].
  destruct Hf as (Hs & _). congruence.
Qed.

Lemma target_udp id : target X client udp (UDP old) candidates id -> udp_ok id.
Proof.
  intros [->|[->|(b & c & Hc & He & Hf)]]; [by left|right; by left|].
  right; right. exists c. split_and!; [done|done|by eapply fit_admitted|]. apply Hf.
Qed.

Lemma calm_evacuates id : calm -> evacuates id byID = false.
Proof.
  intros Hc. unfold evacuates. destruct (byID !! id) as [c|] eqn:E.
  - unfold get_candidate. rewrite E. simpl. apply Hc. by apply index_by_id_lookup in E as [? _].
  - unfold get_candidate. by rewrite E.
Qed.

(** A known candidate that passes the checks of an alignment. *)
Lemma run_align network (b : bool) (c : Candidate) (Q : bool -> Prop) :
  (b = true -> Q (negb (CircuitOpen c) && allowed X cid c && qualified network c &&
                  negb (Retiring c) && negb (CircuitOpen c) && negb (degraded c))) ->
  (b = false -> Q false) ->
  run_ (if b then
          (usable <- candidateUsable now cid network c ;;
           ret (usable && negb (Retiring c) && negb (CircuitOpen c) && negb (degraded c)))
        else ret false) Q.
Proof.
  intros Ht Hf. apply run_if; intros Hb; [|apply run_ret; auto].
  eapply run_reads.
  - apply (reads_bind now _ _
      (fun _ X => negb (CircuitOpen c) && allowed X cid c && qualified network c)
      (fun usable _ _ => usable && negb (Retiring c) && negb (CircuitOpen c) &&
                         negb (degraded c)));
      [apply reads_candidateUsable|]. intros u. apply reads_ret.
  - auto.
Qed.

Lemma align_admitted network c :
  negb (CircuitOpen c) && allowed X cid c && qualified network c &&
    negb (Retiring c) && negb (CircuitOpen c) && negb (degraded c) = true ->
  admitted network c.
Proof.
  unfold allowed, admitted.
  rewrite !andb_true_iff, !negb_true_iff, bool_decide_eq_false. tauto.
Qed.

(** A known route named by [tcp_ok] or [udp_ok]. *)
Lemma udp_ok_serving c :
  identified candidates -> In c candidates -> udp_ok (ID c) ->
  ServingOnly c = true -> ID c = UDP old.
Proof.
  intros Hw Hc [Hu|[Hu|(d & Hd & He & _ & Hs)]] Hsrv; [done| |].
  - destruct Hw as [_ Hw]. by apply Hw in Hc.
  - rewrite (proj1 Hw d c Hd Hc He) in Hs. congruence.
Qed.

Lemma stay_tcp : tcp_ok (TCP old).
Proof. by left. Qed.

Lemma stay_udp : udp_ok (UDP old).
Proof. by left. Qed.

Lemma run_choose_planned network id since active load domainLoad share r
    (Q : string * Counters -> Prop) :
  (forall q, target X client network id candidates q.1 ->
     (calm -> PlannedMoves r <= MaxPlannedMoves p -> PlannedMoves q.2 <= MaxPlannedMoves p) ->
     (SuppressQualityMoves options = true -> settled X client network id byID -> q = (id, r)) ->
     Q q) ->
  run_ (choose now client network id since active candidates byID load domainLoad share
          (SuppressQualityMoves options) r) Q.
Proof.
  intros HQ. eapply run_mono; [apply run_choose|]. intros q [H1 H2 H3].
  apply HQ; [done| |done]. intros Hc. apply H2. by apply calm_evacuates.
Qed.

(** The UDP half, for a TCP half [a] that satisfies its clauses. *)
Lemma run_place_udp load domainLoad active share (a : Assignment) r0 r
    (tcpCanUDP : bool) :
  identified candidates ->
  UDP a = UDP old -> tcp_ok (TCP a) ->
  (PreserveTCP client = true -> TCP a = TCP old) ->
  (calm -> PlannedMoves r0 <= MaxPlannedMoves p -> PlannedMoves r <= MaxPlannedMoves p) ->
  (SuppressQualityMoves options = true -> at_rest -> (a, r) = (old, r0)) ->
  (tcpCanUDP = true -> exists c, byID !! TCP a = Some c /\ In c candidates /\ ID c = TCP a /\
     admitted udp c /\ (ServingOnly c = true -> UDP a = TCP a)) ->
  (tcpCanUDP = false -> SuppressQualityMoves options = true -> at_rest ->
     is_vless (get_candidate byID (TCP old)) && UDPQualified (get_candidate byID (TCP old)) = false) ->
  run_ (if PreserveUDP client then resetStreakM cid udp ;;; ret (a, r)
        else if tcpCanUDP then
          ret (if negb (str_eqb (UDP a) (TCP a)) then
                 (a <| UDP := TCP a |> <| UDPSince := now |>,
                  if bool_decide (is_Some (byID !! UDP old)) &&
                     degraded (get_candidate byID (UDP old))
                  then qoe_move r else r)
               else (a, r))
        else
          chosen <- choose now client udp (UDP a) (UDPSince a) active candidates byID load
                      domainLoad share (SuppressQualityMoves options) r ;;
          let '(udpID, r) := chosen in
          let a := a <| UDP := udpID |> in
          let a := if negb (str_eqb (UDP a) (UDP old)) then a <| UDPSince := now |> else a in
          let udpCandidate := get_candidate byID (UDP a) in
          align <-
            (if negb (PreserveTCP client) && bool_decide (is_Some (byID !! UDP a)) &&
                is_vless udpCandidate && TCPQualified udpCandidate && UDPQualified udpCandidate
             then (usable <- candidateUsable now cid tcp udpCandidate ;;
                   ret (usable && negb (Retiring udpCandidate) &&
                        negb (CircuitOpen udpCandidate) && negb (degraded udpCandidate)))
             else ret false) ;;
          ret (if align then a <| TCP := UDP a |> <| TCPSince := now |> else a, r))
    (place_ok r0).
Proof.
  intros Hw Hu Ht Hpt Hpl Hst Hcan Hcannot.
  apply run_if; intros E1.
  { apply run_reset_ret. split; simpl; rewrite ?Hu; auto using stay_udp. }
  apply run_if; intros E2.
  - apply run_ret. destruct (Hcan E2) as (c & Hl & Hc & He & Hadm & Hsrv).
    destruct (str_eqb (UDP a) (TCP a)) eqn:E3; simpl.
    + split; simpl; rewrite ?Hu; auto using stay_udp.
    + str_bool. split; simpl; try done.
      * right; right. exists c. split_and!; [done|done|done|].
        destruct (ServingOnly c); [|done]. by destruct E3; auto.
      * congruence.
      * intros Hc'. specialize (Hpl Hc'). case_if; simpl; done.
      * intros Hs Hr. specialize (Hst Hs Hr). destruct Hr as (Hr & _).
        injection Hst as -> _. congruence.
  - apply (run_bind _ _ _ _ _ _ (fun q => target X client udp (UDP old) candidates q.1 /\
      (calm -> PlannedMoves r <= MaxPlannedMoves p -> PlannedMoves q.2 <= MaxPlannedMoves p) /\
      (SuppressQualityMoves options = true -> settled X client udp (UDP old) byID ->
       q = (UDP old, r)))).
    { rewrite Hu. by apply run_choose_planned. }
    intros [id r1] (Hid & Hpl1 & Hst1). cbn [fst snd] in *. cbv zeta.
    set (a1 := a <| UDP := id |>).
    set (a2 := if negb (str_eqb (UDP a1) (UDP old)) then a1 <| UDPSince := now |> else a1).
    assert (UDP a2 = id) as HU by (unfold a2; by case_if).
    assert (TCP a2 = TCP a) as HT by (unfold a2; by case_if).
    assert (SuppressQualityMoves options = true -> at_rest -> (a2, r1) = (old, r0)) as Hst2.
    { intros Hs Hr. specialize (Hst Hs Hr). injection Hst as Ha Hrr.
      destruct Hr as (Hr & _ & Hset). rewrite Hr in Hst1. specialize (Hst1 Hs Hset).
      injection Hst1 as H1 H2. unfold a2, a1. rewrite H1, H2, Hrr, Ha. simpl.
      rewrite <- Hr, str_eqb_refl. simpl. by destruct (assignment client). }
    clearbody a2. clear a1. rewrite HU.
    apply target_udp in Hid as Hudp.
    eapply run_bind.
    { apply (run_align tcp _ _ (fun align => align = true ->
        (exists c, In c candidates /\ ID c = id /\ admitted tcp c) /\
        PreserveTCP client = false /\
        is_vless (get_candidate byID id) && UDPQualified (get_candidate byID id) = true)).
      - intros Hb Hal. rewrite !andb_true_iff, negb_true_iff in Hb.
        destruct Hb as ((((Hb0 & Hb1) & Hb2) & Hb3) & Hb4).
        apply get_candidate_known in Hb1 as (Hc & He & _). apply align_admitted in Hal.
        rewrite Hb2, Hb4. split_and!; [by eexists|done|done].
      - done. }
    intros align Hal. apply run_ret. destruct align.
    + destruct (Hal eq_refl) as ((c & Hc & He & Hadm) & Hnp & Hvu).
      split; simpl; rewrite ?HU; try done.
      * right; right. exists c. split_and!; [done|done|done|]. rewrite <- He in Hudp |- *.
        by apply udp_ok_serving.
      * congruence.
      * congruence.
      * auto.
      * intros Hs Hr. exfalso. specialize (Hcannot E2 Hs Hr). specialize (Hst2 Hs Hr).
        injection Hst2 as Ha2 _. rewrite Ha2 in HU. destruct Hr as (Hr & _).
        rewrite <- HU, Hr in Hvu. congruence.
    + split; simpl; rewrite ?HU, ?HT; try done.
      * congruence.
      * auto.
Qed.

Lemma run_place_client load domainLoad active r0 :
  identified candidates ->
  run_ (place_client now options candidates byID load domainLoad active client r0)
    (place_ok r0).
Proof.
  intros Hw. unfold place_client. cbv zeta.
  apply (run_bind _ _ _ _ _ _ (fun q => tcp_ok q.1 /\
    (PreserveTCP client = true -> q.1 = TCP old) /\
    (calm -> PlannedMoves r0 <= MaxPlannedMoves p -> PlannedMoves q.2 <= MaxPlannedMoves p) /\
    (SuppressQualityMoves options = true -> at_rest -> q = (TCP old, r0)))).
  { apply run_if; intros E.
    - apply run_reset_ret. simpl. split_and!; auto using stay_tcp.
    - apply run_choose_planned. intros q H1 H2 H3. split_and!; [by apply target_tcp|congruence|done|].
      intros Hs (_ & Hr & _). auto. }
  intros [id r1] (Hid & Hpr & Hpl & Hst). cbn [fst snd] in *.
  set (a1 := old <| TCP := id |>).
  set (a2 := if negb (str_eqb (TCP a1) (TCP old)) then a1 <| TCPSince := now |> else a1).
  assert (UDP a2 = UDP old) as HU by (unfold a2; by case_if).
  assert (TCP a2 = id) as HT by (unfold a2; by case_if).
  assert (SuppressQualityMoves options = true -> at_rest -> (a2, r1) = (old, r0)) as Hst2.
  { intros Hs Hr. specialize (Hst Hs Hr). injection Hst as H1 H2. unfold a2, a1.
    rewrite H1, H2. simpl. rewrite str_eqb_refl. simpl. by destruct (assignment client). }
  clearbody a2. clear a1.
  eapply run_bind.
  { apply (run_align udp _ _ (fun can =>
      (can = true -> exists c, byID !! TCP a2 = Some c /\ In c candidates /\ ID c = TCP a2 /\
         admitted udp c /\ (ServingOnly c = true -> UDP a2 = TCP a2)) /\
      (can = false -> SuppressQualityMoves options = true -> at_rest ->
         is_vless (get_candidate byID (TCP old)) &&
         UDPQualified (get_candidate byID (TCP old)) = false))).
    - intros Hb. rewrite !andb_true_iff in Hb. destruct Hb as (((Hb1 & Hb2) & Hb3) & Hb4).
      apply get_candidate_known in Hb1 as (Hc & He & Hl). split.
      + intros Hal%align_admitted. eexists. split_and!; [done|done|done|done|].
        intros Hs. rewrite Hs in Hb2. simpl in Hb2. by str_bool.
      + intros Hal Hs Hr. exfalso. specialize (Hst2 Hs Hr). injection Hst2 as Ha2 _.
        rewrite Ha2 in Hal. destruct Hr as (_ & _ & (_ & _ & _ & H1 & H2 & H3 & H4 & H5)).
        unfold allowed in Hal. rewrite H1, H2, H3, H4, bool_decide_eq_false_2 in Hal; done.
    - intros Hb. split; [done|]. intros _ Hs Hr. specialize (Hst2 Hs Hr).
      injection Hst2 as Ha2 _. rewrite Ha2 in Hb. destruct Hr as (Hr & (_ & Hl & _) & _).
      rewrite Hl, bool_decide_eq_true_2, Hr, str_eqb_refl, orb_true_r in Hb by eauto. done. }
  intros can [Hcan Hcannot].
  apply run_place_udp; rewrite ?HT; auto. intros Hc. rewrite <- HT. auto.
Qed.
End PlaceSpec.

(** ** One round over all clients *)

Lemma normalized_incl candidates c :
  In c (normalizeOpenDomains candidates) ->
  exists c0, In c0 candidates /\ (c = c0 \/ c = c0 <| CircuitOpen := true |>).
Proof.
  unfold normalizeOpenDomains. rewrite in_map_iff. intros (c0 & <- & Hc). exists c0.
  case_if; auto.
Qed.

Lemma normalized_ids candidates : map ID (normalizeOpenDomains candidates) = map ID candidates.
Proof.
  unfold normalizeOpenDomains. rewrite map_map. apply map_ext. intros c. by case_if.
Qed.

Lemma normalized_identified candidates :
  identified candidates -> identified (normalizeOpenDomains candidates).
Proof.
  intros [Hnd Hne]. split.
  { unfold normalizeOpenDomains.
    intros c d (c0 & <- & Hc)%in_map_iff (d0 & <- & Hd)%in_map_iff E.
    rewrite (Hnd c0 d0 Hc Hd); [done|]. revert E. by do 2 case_if. }
  intros c (c0 & Hc & [-> | ->])%normalized_incl; simpl; auto.
Qed.

Lemma normalized_calm candidates : calm candidates -> calm (normalizeOpenDomains candidates).
Proof. intros H c (c0 & Hc & [-> | ->])%normalized_incl; apply (H _ Hc). Qed.

(** What a client may be given, in terms of the inventory and of the exclusions
    the scheduler holds. *)
Record sound_move (now : Time) (s : Scheduler) (candidates : list Candidate)
    (client : Client) (a : Assignment) : Prop := {
  sm_tcp : tcp_ok (excl_set now s) candidates client (TCP a);
  sm_udp : udp_ok (excl_set now s) candidates client (UDP a);
  sm_preserve_tcp : PreserveTCP client = true -> TCP a = TCP (assignment client);
  sm_preserve_udp : PreserveUDP client = true -> UDP a = UDP (assignment client)
}.

Lemma excl_set_compacted now s cid (c : Candidate) :
  ID c <> EmptyString ->
  (cid, ID c) ∉ excl_set now (compactExclusionsLocked s now) <-> (cid, ID c) ∉ excl_set now s.
Proof.
  intros Hc. rewrite !elem_of_excl_set, compactExclusionsLocked_seen; [done|done|lia].
Qed.

Section RoundSpec.
Context (now : Time) (options : ScheduleOptions) (clients : list Client)
  (candidates : list Candidate) (s : Scheduler).
Hypothesis Hclients : NoDup (map clientID clients).
Hypothesis Hcandidates : identified candidates.

Let s' := compactExclusionsLocked s now.
Let X := excl_set now s'.
Let p := policy s.
Let normalized := normalizeOpenDomains candidates.

Lemma admitted_normalized client network c :
  In c normalized -> admitted X client network c ->
  exists c0, In c0 candidates /\ ID c0 = ID c /\ ServingOnly c0 = ServingOnly c /\
    admitted (excl_set now s) client network c0.
Proof.
  intros (c0 & Hc & Heq)%normalized_incl (H1 & H2 & H3 & H4). exists c0.
  assert (ID c = ID c0 /\ ServingOnly c = ServingOnly c0 /\ Retiring c = Retiring c0 /\
    degraded c = degraded c0 /\ qualified network c = qualified network c0)
    as (E1 & E2 & E3 & E4 & E5) by (by destruct Heq as [-> | ->]).
  split_and!; [done|done|done|]. rewrite E1 in H4. unfold admitted.
  split_and!; [congruence|congruence|congruence|]. unfold X, s' in H4.
  rewrite excl_set_compacted in H4; [done|by apply Hcandidates].
Qed.

Lemma place_sound client r0 res :
  place_ok p X options normalized client r0 res ->
  sound_move now s candidates client res.1.
Proof.
  intros [Ht Hu Hpt Hpu _ _]. split; [| |done|done].
  - destruct Ht as [?|[?|(c & Hc & He & Ha & Hs)]]; [by left|right; by left|]. right; right.
    destruct (admitted_normalized _ _ _ Hc Ha) as (c0 & Hc0 & E & Es & Ha').
    exists c0. rewrite E, Es. done.
  - destruct Hu as [?|[?|(c & Hc & He & Ha & Hs)]]; [by left|right; by left|]. right; right.
    destruct (admitted_normalized _ _ _ Hc Ha) as (c0 & Hc0 & E & Es & Ha').
    exists c0. rewrite E, Es. done.
Qed.

Definition resting (client : Client) : Prop := at_rest X normalized client.

Record round_ok (done_ : list Client) (rd : Round) : Prop := {
  ro_dom : forall id, is_Some (rd_assignments rd !! id) <-> In id (map clientID done_);
  ro_sound : forall client, In client done_ -> exists a,
    rd_assignments rd !! clientID client = Some a /\
    sound_move now s candidates client a /\
    (SuppressQualityMoves options = true -> resting client -> a = assignment client);
  ro_planned : calm candidates -> 0 <= MaxPlannedMoves p ->
    PlannedMoves (rd_moves rd) <= MaxPlannedMoves p
}.

Lemma run_round_step v done_ client rd :
  NoDup (map clientID (done_ ++ [client])) -> round_ok done_ rd ->
  run now p X v (schedule_client now options normalized (index_by_id normalized) rd client)
    (round_ok (done_ ++ [client])).
Proof.
  intros Hnd Hrd. unfold schedule_client.
  apply (run_bind _ _ _ _ _ _ (fun _ => True)); [by apply run_check|]. intros _ _.
  apply (run_bind _ _ _ _ _ _ (fun q => q = p)); [by apply run_policy|]. intros q ->.
  cbv zeta. destruct (if is_active now _ client then _ else _) as [load domainLoad].
  eapply run_bind; [apply run_place_client, normalized_identified, Hcandidates|].
  intros [a r] Ha. destruct (if is_active now _ client then _ else _) as [load' domainLoad'].
  apply run_ret. destruct Hrd as [Hdom Hsnd Hpl]. rewrite map_app in Hnd. simpl in Hnd.
  apply NoDup_app in Hnd as (_ & Hdisj & _).
  split; simpl.
  - intros id. rewrite map_app, in_app_iff, <- Hdom, lookup_insert_is_Some. simpl.
    destruct (decide (clientID client = id)); naive_solver.
  - intros c Hc%in_app_iff. destruct Hc as [Hc|[<-|[]]].
    + destruct (Hsnd c Hc) as (b & Hb & Hrest). exists b. split; [|done].
      rewrite lookup_insert_ne; [done|]. intros E. apply (Hdisj (clientID c)).
      * apply list_elem_of_In, in_map_iff. eauto.
      * rewrite E. set_solver.
    + exists a. rewrite lookup_insert_eq. split_and!; [done| |].
      * by apply place_sound in Ha.
      * intros Hs Hr. by injection (pk_stable _ _ _ _ _ _ _ Ha Hs Hr).
  - intros Hc H0. apply (pk_planned _ _ _ _ _ _ _ Ha); [by apply normalized_calm|]. simpl. auto.
Qed.

Definition result_ok (result : Result) : Prop := exists rd,
  Assignments result = rd_assignments rd /\ Moves result = rd_moves rd /\ round_ok clients rd.

Lemma run_scheduleContext v :
  run now p X v (scheduleContext now clients candidates options) result_ok.
Proof.
  unfold scheduleContext. apply (run_bind _ _ _ _ _ _ (fun _ => True)); [by apply run_check|].
  intros _ _. apply (run_bind _ _ _ _ _ _ (fun _ => True)).
  { eapply run_reads; [|done]. apply reads_foldM_unit. intros ?. apply reads_check. }
  intros _ _. cbv zeta. apply (run_bind _ _ _ _ _ _ (fun q => q = p)); [by apply run_policy|].
  intros q ->. set (ordered := sort_slice _ clients).
  assert (ordered ≡ₚ clients) as Hperm by apply sort_slice_Permutation.
  eapply run_bind.
  { apply (run_foldM _ _ _ _ _ round_ok).
    - split; simpl; [|done|intros _ ?; done].
      intros id. rewrite lookup_empty. split; [by intros [??]|done].
    - intros done_ x todo rd E Hrd. apply run_round_step; [|done].
      assert (NoDup (map clientID ordered)) as Hnd by by rewrite Hperm.
      rewrite E in Hnd. rewrite cons_middle, app_assoc, map_app in Hnd.
      by apply NoDup_app in Hnd as (? & _). }
  intros rd [H1 H2 H3]. apply run_ret. exists rd. split_and!; [done|done|]. split; [| |done].
  - intros id. by rewrite H1, Hperm.
  - intros client Hc. apply H2. by rewrite Hperm.
Qed.

Lemma entry_returns w :
  sched w = s -> budget w = None ->
  exists result w', ScheduleContextWithOptions now clients candidates options w = (inr result, w') /\
    result_ok result.
Proof.
  intros Hs Hb. unfold ScheduleContextWithOptions. rewrite Hs. fold s'.
  set (w1 := w <| sched := s' |>).
  destruct (run_scheduleContext (version s') w1) as (result & w2 & E & _ & Hok); [done|].
  rewrite E. eauto.
Qed.
End RoundSpec.

(** ** Cancelled rounds *)

(** Whatever its result, an operation keeps the policy, the version and the
    pairs excluded at the time; its only error is the context's. *)
Record kept (now : Time) (s s' : Scheduler) : Prop := {
  ke_policy : policy s' = policy s;
  ke_version : version s' = version s;
  ke_seen : excl_set now s' = excl_set now s
}.

Lemma kept_trans now s1 s2 s3 : kept now s1 s2 -> kept now s2 s3 -> kept now s1 s3.
Proof. intros [? ? ?] [? ? ?]. split; congruence. Qed.

Definition careful {A : Type} (now : Time) (m : M A) : Prop := forall w,
  kept now (sched w) (sched (m w).2) /\ (forall e, (m w).1 = inl e -> e = ContextCancelled).

Section Careful.
Context (now : Time).

Lemma careful_ret {A : Type} (a : A) : careful now (ret a).
Proof. by intros w. Qed.

Lemma careful_bind {A B : Type} (m : M A) (k : A -> M B) :
  careful now m -> (forall a, careful now (k a)) -> careful now (bind m k).
Proof.
  intros Hm Hk w. unfold bind. destruct (Hm w) as [H1 H2], (m w) as [[e|a] w1]; simpl in *.
  - split; [done|]. intros ? [= <-]. auto.
  - destruct (Hk a w1) as [H3 H4]. split; [by eapply kept_trans|done].
Qed.

Lemma careful_if {A : Type} (b : bool) (m n : M A) :
  careful now m -> careful now n -> careful now (if b then m else n).
Proof. by destruct b. Qed.

Lemma careful_check : careful now checkContext.
Proof.
  intros w. unfold checkContext. destruct (budget w) as [[|n]|]; simpl; split; try done.
  by intros e [= <-].
Qed.

Lemma careful_policy : careful now askPolicy.
Proof. by intros w. Qed.

Lemma careful_excluded client c : careful now (excludedM now client c).
Proof.
  intros w. unfold excludedM. destruct (excluded_pruned now (sched w) client c) as [H1 _ H2 H3].
  destruct (excluded (sched w) now client c) as [b s]. by split.
Qed.

Lemma careful_reset client network : careful now (resetStreakM client network).
Proof. by intros w. Qed.

Lemma careful_increment key : careful now (incrementStreak key).
Proof. by intros w. Qed.

Lemma careful_filterM {A : Type} (f : A -> M bool) l :
  (forall x, careful now (f x)) -> careful now (filterM f l).
Proof.
  intros Hf. induction l as [|x l IH]; simpl; [apply careful_ret|].
  apply careful_bind; [done|]. intros b. apply careful_bind; [done|]. intros ?. apply careful_ret.
Qed.

Lemma careful_foldM {A B : Type} (f : B -> A -> M B) b l :
  (forall b x, careful now (f b x)) -> careful now (foldM f b l).
Proof.
  intros Hf. revert b. induction l as [|x l IH]; intros b; simpl; [apply careful_ret|].
  by apply careful_bind.
Qed.
End Careful.

(** [careful] follows the program's structure down to the operations. *)
Ltac careful := cbv zeta; repeat first
  [ apply careful_ret | apply careful_check | apply careful_policy | apply careful_excluded
  | apply careful_reset | apply careful_increment
  | apply careful_bind; [|intros ?; cbv zeta]
  | apply careful_if
  | apply careful_filterM; intros ?
  | apply careful_foldM; intros ? ?
  | case_match ].

Lemma careful_scheduleContext now clients candidates options :
  careful now (scheduleContext now clients candidates options).
Proof. unfold scheduleContext, check_each. careful. Qed.

(** ** Properties *)

(** C32.  A scheduling round under a live context always returns, answers for
    exactly the clients it was given, and moves traffic only to routes that may
    take it: each client's route per transport is its old one, none, or a listed
    route that is not retiring, not degraded, qualified for that transport and
    not excluded for the client; no UDP moves to a route that is kept for
    existing work only, and TCP does only if the client's UDP is already there;
    a pinned transport does not move. *)
Theorem schedule_moves_sound now options clients candidates w :
  budget w = None -> NoDup (map clientID clients) -> well_identified candidates ->
  exists result w',
    ScheduleContextWithOptions now clients candidates options w = (inr result, w') /\
    (forall id, is_Some (Assignments result !! id) <-> In id (map clientID clients)) /\
    (forall client, In client clients -> exists a,
       Assignments result !! clientID client = Some a /\
       sound_move now (sched w) candidates client a).
Proof.
  intros Hb Hnd Hw.
  destruct (entry_returns now options clients candidates (sched w) Hnd
    (well_identified_identified _ Hw) w eq_refl Hb)
    as (result & w' & E & rd & HA & _ & [H1 H2 _]).
  exists result, w'. rewrite HA. split_and!; [done|done|].
  intros client Hc. destruct (H2 client Hc) as (a & ? & ? & _). eauto.
Qed.

(** Unless some listed route has to be evacuated, a round plans at most
    [MaxPlannedMoves] optional moves, however many clients it places. *)
Theorem planned_moves_bounded now options clients candidates w :
  budget w = None -> NoDup (map clientID clients) -> well_identified candidates ->
  calm candidates -> 0 <= MaxPlannedMoves (policy (sched w)) ->
  exists result w',
    ScheduleContextWithOptions now clients candidates options w = (inr result, w') /\
    PlannedMoves (Moves result) <= MaxPlannedMoves (policy (sched w)).
Proof.
  intros Hb Hnd Hw Hcalm H0.
  destruct (entry_returns now options clients candidates (sched w) Hnd
    (well_identified_identified _ Hw) w eq_refl Hb)
    as (result & w' & E & rd & _ & HM & [_ _ H3]).
  exists result, w'. rewrite HM. auto.
Qed.

(** While quality moves are suppressed, a client whose TCP and UDP share a
    sound route keeps its whole assignment, start times included: neither a
    better route nor the load of others displaces it. *)
Theorem suppressed_round_keeps_resting_clients now options clients candidates w :
  budget w = None -> NoDup (map clientID clients) -> well_identified candidates ->
  SuppressQualityMoves options = true ->
  exists result w',
    ScheduleContextWithOptions now clients candidates options w = (inr result, w') /\
    (forall client, In client clients -> resting now candidates (sched w) client ->
       Assignments result !! clientID client = Some (assignment client)).
Proof.
  intros Hb Hnd Hw Hs.
  destruct (entry_returns now options clients candidates (sched w) Hnd
    (well_identified_identified _ Hw) w eq_refl Hb)
    as (result & w' & E & rd & HA & _ & [_ H2 _]).
  exists result, w'. split; [done|]. intros client Hc Hr. rewrite HA.
  destruct (H2 client Hc) as (a & -> & _ & Ha). by rewrite Ha.
Qed.

(** A cancelled round leaves no trace: whenever the entry point fails, for
    any number of context checks that passed first, the failure is the
    cancellation, and streaks, policy, version and every exclusion that has not
    expired are those of before the call, so no preview is invalidated. *)
Theorem cancelled_round_leaves_no_trace now options clients candidates w e w' :
  ScheduleContextWithOptions now clients candidates options w = (inl e, w') ->
  e = ContextCancelled /\
  streaks (sched w') = streaks (sched w) /\
  policy (sched w') = policy (sched w) /\
  version (sched w') = version (sched w) /\
  (forall client c, c <> EmptyString ->
     seen now (sched w') client c = seen now (sched w) client c).
Proof.
  unfold ScheduleContextWithOptions.
  set (w1 := w <| sched := compactExclusionsLocked (sched w) now |>).
  destruct (careful_scheduleContext now clients candidates options w1) as [[H1 H2 H3] H4].
  destruct (scheduleContext now clients candidates options w1) as [[e1|r] w2]; [|done].
  simpl in *. intros [= <- <-]. split_and!; simpl; [auto|done|done|done|].
  intros client c Hc. transitivity (seen now (sched w1) client c).
  - apply bool_iff. change (seen now (sched w2) client c = true <->
      seen now (sched w1) client c = true). rewrite <- !elem_of_excl_set. simpl.
    by rewrite H3.
  - apply compactExclusionsLocked_seen; [done|lia].
Qed.

(** ** Witnesses *)

Definition sample_client (id route : string) : Client := {|
  Dormant := false; PreserveTCP := false; PreserveUDP := false;
  AppliedReserve := {| rs_TCP := EmptyString; rs_UDP := EmptyString |};
  clientID := id; LastTraffic := 1000 * second;
  assignment := {| TCP := route; UDP := route; TCPSince := 10 * second;
                   UDPSince := 10 * second |} |}.

Definition sample_clients : list Client :=
  [sample_client "bob" "vless-b"; sample_client "alice" EmptyString].
Definition sample_now : Time := 1010 * second.
Definition quiet : ScheduleOptions := {| SuppressQualityMoves := true |}.

Lemma sample_clients_distinct : NoDup (map clientID sample_clients).
Proof. apply (bool_decide_unpack _). vm_compute. exact I. Qed.

Lemma sample_routes_identified : well_identified sample_routes.
Proof.
  split; [apply (bool_decide_unpack _); vm_compute; exact I|].
  intros c [<-|[<-|[<-|[]]]]; discriminate.
Qed.

Lemma schedule_moves_sound_witness : exists result w',
  ScheduleContextWithOptions sample_now sample_clients sample_routes quiet sample_world =
    (inr result, w') /\
  (forall id, is_Some (Assignments result !! id) <-> In id (map clientID sample_clients)) /\
  (forall client, In client sample_clients -> exists a,
     Assignments result !! clientID client = Some a /\
     sound_move sample_now sample_scheduler sample_routes client a).
Proof.
  apply (schedule_moves_sound sample_now quiet sample_clients sample_routes sample_world);
    [reflexivity|apply sample_clients_distinct|apply sample_routes_identified].
Defined.

Lemma planned_moves_bounded_witness : exists result w',
  ScheduleContextWithOptions sample_now sample_clients sample_routes quiet sample_world =
    (inr result, w') /\
  PlannedMoves (Moves result) <= MaxPlannedMoves (policy sample_scheduler).
Proof.
  apply (planned_moves_bounded sample_now quiet sample_clients sample_routes sample_world);
    [reflexivity|apply sample_clients_distinct|apply sample_routes_identified| |].
  - intros c [<-|[<-|[<-|[]]]]; reflexivity.
  - vm_compute. discriminate.
Defined.

(** The resting client's hypothesis holds for a client of the round. *)
Lemma suppressed_round_keeps_resting_clients_witness :
  resting sample_now sample_routes sample_scheduler (sample_client "bob" "vless-b") /\
  exists result w',
    ScheduleContextWithOptions sample_now sample_clients sample_routes quiet sample_world =
      (inr result, w') /\
    (forall client, In client sample_clients ->
       resting sample_now sample_routes sample_scheduler client ->
       Assignments result !! clientID client = Some (assignment client)).
Proof.
  split.
  - split; [reflexivity|]. split; split_and!; try reflexivity; try discriminate;
      apply (bool_decide_unpack _); vm_compute; exact I.
  - apply (suppressed_round_keeps_resting_clients sample_now quiet sample_clients sample_routes
             sample_world);
      [reflexivity|apply sample_clients_distinct|apply sample_routes_identified|reflexivity].
Defined.

(** A round whose context is cancelled after three checks. *)
Definition cancelled_world : World := {| sched := sample_scheduler; budget := Some 3%nat |}.

Lemma cancelled_round_leaves_no_trace_witness :
  let w' := (ScheduleContextWithOptions sample_now sample_clients sample_routes quiet
               cancelled_world).2 in
  ContextCancelled = ContextCancelled /\
  streaks (sched w') = streaks sample_scheduler /\
  policy (sched w') = policy sample_scheduler /\
  version (sched w') = version sample_scheduler /\
  (forall client c, c <> EmptyString ->
     seen sample_now (sched w') client c = seen sample_now sample_scheduler client c).
Proof.
  intros w'. apply (cancelled_round_leaves_no_trace sample_now quiet sample_clients sample_routes
    cancelled_world ContextCancelled w').
  rewrite (surjective_pairing (ScheduleContextWithOptions _ _ _ _ _)). f_equal.
Defined.

(** A client on a TCP-only route whose UDP is still served by a route that is
    kept for existing work only. *)
Definition tcp_only : Candidate :=
  (sample_route "vless-t" "t" 5) <| UDPQualified := false |>.
Definition retained : Candidate := (sample_route "vless-r" "r" 4) <| ServingOnly := true |>.
Definition split_client : Client := {|
  Dormant := false; PreserveTCP := false; PreserveUDP := false;
  AppliedReserve := {| rs_TCP := EmptyString; rs_UDP := EmptyString |};
  clientID := "carol"; LastTraffic := 1000 * second;
  assignment := {| TCP := "vless-t"; UDP := "vless-r"; TCPSince := 10 * second;
                   UDPSince := 10 * second |} |}.

(** Aligning TCP with UDP gives the retained route new TCP traffic. *)
Example retained_route_receives_new_tcp :
  match (ScheduleContext sample_now [split_client] [tcp_only; retained] sample_world).1 with
  | inr result => option_map TCP (Assignments result !! "carol") = Some "vless-r"%string
  | inl _ => False
  end.
Proof. vm_compute. reflexivity. Qed.
