(* ===== verification/DataPlan.v ===== *)
(** The gateway's desired plan (internal/dataplane/reconciler.go): its data,
    validation, DNS resolvers, digests, and the comparison of outbounds and
    routes that decides what a change touches. *)
From Stdlib Require Import Ascii String.
From S2P Require Import Prelude GoOrder GoStrings GoNet GoSort Sha256.

#[local] Open Scope Z_scope.

(** ** Data *)

Definition ProtocolVLESS : string := "vless".
Definition ProtocolTor : string := "tor".
Definition ProtocolDNS : string := "dns".

Record Outbound := {
  ID : string;
  Protocol : string;
  Config : string
}.

#[export] Instance Outbound_eta : Eta Outbound := fun o =>
  Build_Outbound (ID o) (Protocol o) (Config o).
#[export] Instance Outbound_eq_dec : EqDecision Outbound.
Proof. solve_decision. Defined.

Record ClientRoute := {
  Dormant : bool;
  ClientID : string;
  SourceCIDR : string;
  TCPOutbound : string;
  UDPOutbound : string;
  DNSOutbound : string;
  TCPReserveOutbound : string;
  UDPReserveOutbound : string;
  BlockTCP : bool;
  BlockUDP : bool
}.

#[export] Instance ClientRoute_eq_dec : EqDecision ClientRoute.
Proof. solve_decision. Defined.

Record DesiredPlan := {
  Generation : Z;
  Outbounds : list Outbound;
  Clients : list ClientRoute;
  DirectSuffixes : list string;
  DirectDomains : list string;
  FailClosed : bool
}.

#[export] Instance DesiredPlan_eta : Eta DesiredPlan := fun p =>
  Build_DesiredPlan (Generation p) (Outbounds p) (Clients p) (DirectSuffixes p)
    (DirectDomains p) (FailClosed p).

(** The configuration of a DNS handler, as it is decoded. *)
Record dnsSettings := {
  RewriteNetwork : string;
  RewriteAddress : string;
  RewritePort : Z
}.

Record dnsConfig := {
  dns_Protocol : string;
  Settings : option dnsSettings;
  (** [streamSettings], its [sockopt], and the [dialerProxy] in it *)
  StreamSettings : option (option string);
  (** [proxySettings] and its [tag] *)
  ProxySettings : option string
}.

(** What the code uses of [encoding/json]; raw messages are strings. *)
Class Json : Type := {
  json : Type;
  json_eq_dec :: EqDecision json;
  (** [Unmarshal] into an [any]; none is an error *)
  unmarshal : string -> option json;
  (** the strict decoder into a [*dnsConfig]: none is an error or a nil
      pointer; the flag says that something follows the value *)
  decode_dns : string -> option (dnsConfig * bool);
  (** decoding with [UseNumber], nothing following, and encoding again *)
  reencode : string -> option string;
  (** [Marshal] of a plan; none is an error *)
  marshal_plan : DesiredPlan -> option string
}.

Inductive PlanError :=
  | GenerationNotPositive | FailOpen | NoSuffix | BadSuffix (suffix : string)
  | EmptyDomain | BadDomain (domain : string)
  | InvalidOutbound (id : string) | DuplicateOutbound (id : string)
  | DNSConfigRequired | DNSConfigMalformed | DNSConfigTrailing | DNSProtocol | DNSSettings
  | DNSAddress | DNSTwoProxies | DNSNoProxy
  | DNSSelfReference (id : string) | DNSUnknownProxy (id : string) | DNSProxyNotTCP (id : string)
  | EmptyClient | DuplicateClient (id : string)
  | TCPSelection (id : string) | UDPSelection (id : string)
  | UnknownTCP (id : string) | InvalidTCP (id : string)
  | UnknownUDP (id : string) | InvalidUDP (id : string)
  | UnknownDNS (id : string) | InvalidDNS (id : string) | DNSMismatch (id : string)
  | TCPReserveNoPrimary (id : string) | TCPReserveEqual (id : string)
  | UnknownTCPReserve (id : string) | InvalidTCPReserve (id : string)
  | UDPReserveNoPrimary (id : string) | UDPReserveEqual (id : string)
  | UnknownUDPReserve (id : string) | InvalidUDPReserve (id : string)
  | NotPublicResolver | NoResolver | DuplicateResolver (resolver : string) | NoCandidateID
  | InvalidConfigJSON (id : string) | ImmutableOutbound (id : string) | MarshalFailed.

(** A check: the error it reports, if any.  Checks run in sequence. *)
Definition refuse (b : bool) (e : PlanError) : option PlanError := if b then Some e else None.
Definition also (first second : option PlanError) : option PlanError :=
  match first with Some e => Some e | None => second end.

Declare Scope check_scope.
Infix ">>" := also (at level 85, right associativity) : check_scope.
#[local] Open Scope check_scope.

(** The first error of a loop. *)
Fixpoint check_all {A : Type} (f : A -> option PlanError) (l : list A) : option PlanError :=
  match l with
  | [] => None
  | x :: l => f x >> check_all f l
  end.

(** ** DNS resolvers *)

Definition block (a b c d bits : Z) : Prefix4 := {|
  prefix_addr := {| octet1 := a; octet2 := b; octet3 := c; octet4 := d |};
  prefix_bits := bits |}.

Definition nonPublicDNSPrefixes : list Prefix4 :=
  [block 0 0 0 0 8; block 10 0 0 0 8; block 100 64 0 0 10; block 127 0 0 0 8;
   block 169 254 0 0 16; block 172 16 0 0 12; block 192 0 0 0 24; block 192 0 2 0 24;
   block 192 31 196 0 24; block 192 52 193 0 24; block 192 88 99 0 24; block 192 168 0 0 16;
   block 192 175 48 0 24; block 198 18 0 0 15; block 198 51 100 0 24; block 203 0 113 0 24;
   block 224 0 0 0 4; block 240 0 0 0 4].

Definition ValidatePublicDNSResolver (value : string) : option PlanError :=
  match parse_addr4 value with
  | None => Some NotPublicResolver
  | Some resolver =>
      refuse (negb (str_eqb (addr_string resolver) value) ||
              negb (is_global_unicast resolver) || is_private resolver ||
              is_loopback resolver || is_unspecified resolver ||
              is_link_local_unicast resolver || is_multicast resolver) NotPublicResolver >>
      refuse (existsb (fun prefix => prefix_contains prefix resolver) nonPublicDNSPrefixes)
        NotPublicResolver
  end.

Fixpoint resolver_loop (seen : gset string) (resolvers : list string) : option PlanError :=
  match resolvers with
  | [] => None
  | resolver :: rest =>
      ValidatePublicDNSResolver resolver >>
      refuse (bool_decide (resolver ∈ seen)) (DuplicateResolver resolver) >>
      resolver_loop ({[resolver]} ∪ seen) rest
  end.

Definition ValidateDNSResolverPool (resolvers : list string) : option PlanError :=
  refuse (bool_decide (resolvers = [])) NoResolver >> resolver_loop ∅ resolvers.

Definition SelectDNSResolver (candidateID : string) (resolvers : list string) :
    PlanError + string :=
  match refuse (str_eqb candidateID EmptyString) NoCandidateID >>
        ValidateDNSResolverPool resolvers with
  | Some e => inl e
  | None =>
      let digest := sha256 (bytes_of candidateID) in
      let index := digest_uint64 digest `mod` Z.of_nat (length resolvers) in
      inr (nth (Z.to_nat index) resolvers EmptyString)
  end.

(** ** Validation *)

Section Validation.
Context `{Json}.

Definition validateDNSOutboundConfig (encoded : string) : PlanError + string :=
  if str_eqb (trim_space encoded) EmptyString then inl DNSConfigRequired
  else
    match decode_dns encoded with
    | None => inl DNSConfigMalformed
    | Some (config, trailing) =>
        if trailing then inl DNSConfigTrailing
        else if negb (str_eqb (dns_Protocol config) ProtocolDNS) then inl DNSProtocol
        else
          match Settings config with
          | None => inl DNSSettings
          | Some settings =>
              if negb (str_eqb (RewriteNetwork settings) "tcp") ||
                 negb (RewritePort settings =? 53) then inl DNSSettings
              else
                match ValidatePublicDNSResolver (RewriteAddress settings) with
                | Some _ => inl DNSAddress
                | None =>
                    let dialerProxy :=
                      match StreamSettings config with
                      | Some (Some proxy) => proxy
                      | _ => EmptyString
                      end in
                    match ProxySettings config with
                    | Some tag =>
                        if negb (str_eqb dialerProxy EmptyString) then inl DNSTwoProxies
                        else if str_eqb tag EmptyString then inl DNSNoProxy else inr tag
                    | None =>
                        if str_eqb dialerProxy EmptyString then inl DNSNoProxy
                        else inr dialerProxy
                    end
                end
          end
    end.

Definition tcp_capable (o : Outbound) : bool :=
  str_eqb (Protocol o) ProtocolVLESS || str_eqb (Protocol o) ProtocolTor.
Definition is_dns (o : Outbound) : bool := str_eqb (Protocol o) ProtocolDNS.
Definition is_vless (o : Outbound) : bool := str_eqb (Protocol o) ProtocolVLESS.

Definition check_suffix (suffix : string) : option PlanError :=
  let s := trim_space suffix in
  refuse (str_eqb s EmptyString || negb (has_prefix "." s) ||
          (Z.of_nat (String.length s) <? 2)) (BadSuffix suffix).

Definition check_domain (domain : string) : option PlanError :=
  let d := trim_space domain in
  refuse (str_eqb d EmptyString) EmptyDomain >>
  refuse (contains d "://" || contains d "/" || contains d ":") (BadDomain domain).

(** The loop that indexes the outbounds. *)
Fixpoint index_outbounds (outbounds : gmap string Outbound) (l : list Outbound) :
    PlanError + gmap string Outbound :=
  match l with
  | [] => inr outbounds
  | o :: rest =>
      if str_eqb (ID o) EmptyString || negb (tcp_capable o || is_dns o)
      then inl (InvalidOutbound (ID o))
      else if bool_decide (is_Some (outbounds !! ID o)) then inl (DuplicateOutbound (ID o))
      else index_outbounds (<[ID o := o]> outbounds) rest
  end.

(** The loop that checks the DNS handlers and collects their proxies. *)
Fixpoint index_proxies (outbounds : gmap string Outbound) (dnsProxies : gmap string string)
    (l : list Outbound) : PlanError + gmap string string :=
  match l with
  | [] => inr dnsProxies
  | o :: rest =>
      if negb (is_dns o) then index_proxies outbounds dnsProxies rest
      else
        match validateDNSOutboundConfig (Config o) with
        | inl e => inl e
        | inr proxy =>
            if str_eqb proxy (ID o) then inl (DNSSelfReference (ID o))
            else
              match outbounds !! proxy with
              | None => inl (DNSUnknownProxy (ID o))
              | Some target =>
                  if negb (tcp_capable target) then inl (DNSProxyNotTCP (ID o))
                  else index_proxies outbounds (<[ID o := proxy]> dnsProxies) rest
              end
        end
  end.

(** A reference to an outbound of the plan, which must satisfy [ok]. *)
Definition check_reference (outbounds : gmap string Outbound) (id : string)
    (ok : Outbound -> bool) (unknown invalid : PlanError) : option PlanError :=
  match outbounds !! id with
  | None => Some unknown
  | Some o => refuse (negb (ok o)) invalid
  end.

Definition check_route (outbounds : gmap string Outbound) (dnsProxies : gmap string string)
    (route : ClientRoute) : option PlanError :=
  let id := ClientID route in
  let none s := str_eqb s EmptyString in
  refuse (Bool.eqb (none (TCPOutbound route)) (negb (BlockTCP route))) (TCPSelection id) >>
  refuse (Bool.eqb (none (UDPOutbound route)) (negb (BlockUDP route))) (UDPSelection id) >>
  (if BlockTCP route then None
   else check_reference outbounds (TCPOutbound route) tcp_capable (UnknownTCP id)
          (InvalidTCP id)) >>
  (if BlockUDP route then None
   else check_reference outbounds (UDPOutbound route) is_vless (UnknownUDP id)
          (InvalidUDP id)) >>
  (if none (DNSOutbound route) then None
   else check_reference outbounds (DNSOutbound route) is_dns (UnknownDNS id) (InvalidDNS id) >>
        refuse (negb (str_eqb (default EmptyString (dnsProxies !! DNSOutbound route))
                        (TCPOutbound route))) (DNSMismatch id)) >>
  (if none (TCPReserveOutbound route) then None
   else refuse (BlockTCP route || none (TCPOutbound route)) (TCPReserveNoPrimary id) >>
        refuse (str_eqb (TCPReserveOutbound route) (TCPOutbound route)) (TCPReserveEqual id) >>
        check_reference outbounds (TCPReserveOutbound route) tcp_capable
          (UnknownTCPReserve id) (InvalidTCPReserve id)) >>
  (if none (UDPReserveOutbound route) then None
   else refuse (BlockUDP route || none (UDPOutbound route)) (UDPReserveNoPrimary id) >>
        refuse (str_eqb (UDPReserveOutbound route) (UDPOutbound route)) (UDPReserveEqual id) >>
        check_reference outbounds (UDPReserveOutbound route) is_vless
          (UnknownUDPReserve id) (InvalidUDPReserve id)).

Fixpoint check_clients (outbounds : gmap string Outbound) (dnsProxies : gmap string string)
    (clients : gset string) (l : list ClientRoute) : option PlanError :=
  match l with
  | [] => None
  | route :: rest =>
      refuse (str_eqb (ClientID route) EmptyString) EmptyClient >>
      refuse (bool_decide (ClientID route ∈ clients)) (DuplicateClient (ClientID route)) >>
      check_route outbounds dnsProxies route >>
      check_clients outbounds dnsProxies ({[ClientID route]} ∪ clients) rest
  end.

Definition Validate (plan : DesiredPlan) : option PlanError :=
  refuse (Generation plan <=? 0) GenerationNotPositive >>
  refuse (negb (FailClosed plan)) FailOpen >>
  refuse (bool_decide (DirectSuffixes plan = [])) NoSuffix >>
  check_all check_suffix (DirectSuffixes plan) >>
  check_all check_domain (DirectDomains plan) >>
  match index_outbounds ∅ (Outbounds plan) with
  | inl e => Some e
  | inr outbounds =>
      match index_proxies outbounds ∅ (Outbounds plan) with
      | inl e => Some e
      | inr dnsProxies => check_clients outbounds dnsProxies ∅ (Clients plan)
      end
  end.
End Validation.

(** ** Checks, declaratively *)

Lemma refuse_none b e : refuse b e = None <-> b = false.
Proof. by destruct b. Qed.

Lemma also_none a b : (a >> b) = None <-> a = None /\ b = None.
Proof. destruct a; naive_solver. Qed.

Lemma check_all_none {A : Type} (f : A -> option PlanError) l :
  check_all f l = None <-> forall x, In x l -> f x = None.
Proof.
  induction l as [|x l IH]; simpl; [naive_solver|]. rewrite also_none, IH. naive_solver.
Qed.

(** A canonical literal outside every special-purpose block. *)
Definition public_resolver (value : string) : Prop := exists a,
  addr_ok a /\ value = addr_string a /\
  forall prefix, In prefix nonPublicDNSPrefixes -> prefix_contains prefix a = false.

Lemma prefix_contains_range prefix x low high :
  0 <= prefix_bits prefix <= 32 -> prefix_contains prefix x = false ->
  addr_value (prefix_addr prefix) / 2 ^ (32 - prefix_bits prefix) *
    2 ^ (32 - prefix_bits prefix) = low ->
  low + 2 ^ (32 - prefix_bits prefix) = high ->
  addr_value x < low \/ high <= addr_value x.
Proof.
  intros Hn. unfold prefix_contains. rewrite !Z.shiftr_div_pow2 by lia.
  intros H <- <-. z_bool.
  pose proof (Z.pow_pos_nonneg 2 (32 - prefix_bits prefix) ltac:(lia) ltac:(lia)).
  set (m := 2 ^ (32 - prefix_bits prefix)) in *. set (q := addr_value (prefix_addr _) / m) in *.
  pose proof (Z.div_mod (addr_value x) m ltac:(lia)).
  pose proof (Z.mod_pos_bound (addr_value x) m ltac:(lia)).
  destruct (Z.lt_total (addr_value x / m) q) as [Hlt|[Heq|Hgt]]; [left|congruence|right]; nia.
Qed.

Lemma land_high x : 0 <= x < 256 -> Z.land x 0xF0 = x / 16 * 16.
Proof.
  intros Hx. change 0xF0 with (Z.land 0xFF (Z.lnot (Z.ones 4))). rewrite Z.land_assoc.
  change 0xFF with (Z.ones 8). rewrite Z.land_ones, Z.mod_small by lia.
  rewrite <- Z.ldiff_land, Z.ldiff_ones_r by lia.
  rewrite Z.shiftr_div_pow2, Z.shiftl_mul_pow2 by lia. done.
Qed.

(** Every class that the first test bars lies in one of the blocks. *)
Lemma classes_in_blocks a :
  addr_ok a ->
  (forall prefix, In prefix nonPublicDNSPrefixes -> prefix_contains prefix a = false) ->
  is_global_unicast a = true /\ is_private a = false /\ is_loopback a = false /\
  is_unspecified a = false /\ is_link_local_unicast a = false /\ is_multicast a = false.
Proof.
  intros (H1 & H2 & H3 & H4) Hp.
  assert (forall prefix low high, In prefix nonPublicDNSPrefixes ->
    0 <= prefix_bits prefix <= 32 ->
    addr_value (prefix_addr prefix) / 2 ^ (32 - prefix_bits prefix) *
      2 ^ (32 - prefix_bits prefix) = low ->
    low + 2 ^ (32 - prefix_bits prefix) = high ->
    addr_value a < low \/ high <= addr_value a) as Hb
    by (intros prefix low high Hin Hn; apply prefix_contains_range; auto).
  pose proof (Hb (block 0 0 0 0 8) 0 16777216) as B0.
  pose proof (Hb (block 10 0 0 0 8) 167772160 184549376) as B10.
  pose proof (Hb (block 127 0 0 0 8) 2130706432 2147483648) as B127.
  pose proof (Hb (block 169 254 0 0 16) 2851995648 2852061184) as B169.
  pose proof (Hb (block 172 16 0 0 12) 2886729728 2887778304) as B172.
  pose proof (Hb (block 192 168 0 0 16) 3232235520 3232301056) as B192.
  pose proof (Hb (block 224 0 0 0 4) 3758096384 4026531840) as B224.
  pose proof (Hb (block 240 0 0 0 4) 4026531840 4294967296) as B240.
  clear Hb Hp.
  repeat match goal with
  | H : In _ _ -> _ -> _ -> _ -> _ |- _ =>
      specialize (H ltac:(simpl; tauto) ltac:(simpl; lia) eq_refl eq_refl)
  end.
  unfold octet, addr_value in *.
  unfold is_global_unicast, is_private, is_loopback, is_unspecified, is_link_local_unicast,
    is_multicast, addr_value. rewrite !land_high by done.
  rewrite !andb_true_iff, !negb_true_iff, !orb_false_iff, !andb_false_iff, !Z.eqb_neq.
  pose proof (Z.div_mod (octet1 a) 16 ltac:(lia)).
  pose proof (Z.mod_pos_bound (octet1 a) 16 ltac:(lia)).
  pose proof (Z.div_mod (octet2 a) 16 ltac:(lia)).
  pose proof (Z.mod_pos_bound (octet2 a) 16 ltac:(lia)).
  change (2 ^ 32 - 1) with 4294967295. split_and!; lia.
Qed.

Lemma public_resolver_accepts value :
  ValidatePublicDNSResolver value = None <-> public_resolver value.
Proof.
  unfold ValidatePublicDNSResolver, public_resolver. split.
  - destruct (parse_addr4 value) as [a|] eqn:E; [|discriminate].
    rewrite also_none, !refuse_none. intros [_ Hp].
    apply parse_addr4_spec in E as [Hok <-]. exists a. split_and!; [done|done|].
    intros prefix Hin. apply not_true_iff_false. intros Hc.
    apply not_true_iff_false in Hp. apply Hp, existsb_exists. eauto.
  - intros (a & Hok & -> & Hp). rewrite parse_addr_string by done.
    rewrite also_none, !refuse_none. split.
    + destruct (classes_in_blocks a Hok Hp) as (-> & -> & -> & -> & -> & ->).
      by rewrite str_eqb_refl.
    + apply not_true_iff_false. rewrite existsb_exists. intros (prefix & Hin & Hc).
      rewrite Hp in Hc; done.
Qed.

Lemma resolver_loop_none seen l :
  resolver_loop seen l = None <->
  Forall public_resolver l /\ NoDup l /\ forall r, r ∈ seen -> r ∉ l.
Proof.
  revert seen. induction l as [|r l IH]; intros seen; cbn [resolver_loop].
  { split; [|done]. intros _. split_and!; [done|constructor|]. intros ? _ ?%elem_of_nil. done. }
  rewrite !also_none, refuse_none, bool_decide_eq_false, public_resolver_accepts, IH,
    Forall_cons, NoDup_cons.
  setoid_rewrite elem_of_union. setoid_rewrite elem_of_singleton.
  setoid_rewrite not_elem_of_cons. split.
  - intros (H1 & H2 & H3 & H4 & H5). split_and!; auto. intros x Hx. split; [|by auto].
    intros ->. done.
  - intros ((H1 & H2) & (H3 & H4) & H5). split_and!; auto.
    + intros Hr. by destruct (H5 r Hr).
    + intros x [->|Hx]; [done|]. by apply H5.
Qed.

(** The gateway sends DNS only to public resolvers: a resolver is accepted
    exactly if it is the canonical text of an IPv4 address outside the eighteen
    special-purpose blocks, a pool exactly if it is non-empty, without
    duplicates, and all its members are; and from an accepted pool every
    non-empty candidate identifier selects a member, the same one each time. *)
Theorem resolver_selection resolvers :
  (forall value, ValidatePublicDNSResolver value = None <-> public_resolver value) /\
  (ValidateDNSResolverPool resolvers = None <->
     resolvers <> [] /\ NoDup resolvers /\ Forall public_resolver resolvers) /\
  (forall id,
     (id <> EmptyString /\ ValidateDNSResolverPool resolvers = None <->
        exists r, SelectDNSResolver id resolvers = inr r) /\
     (forall r, SelectDNSResolver id resolvers = inr r -> In r resolvers)).
Proof.
  split; [exact public_resolver_accepts|].
  assert (ValidateDNSResolverPool resolvers = None <->
    resolvers <> [] /\ NoDup resolvers /\ Forall public_resolver resolvers) as Hpool.
  { unfold ValidateDNSResolverPool.
    rewrite also_none, refuse_none, bool_decide_eq_false, resolver_loop_none. set_solver. }
  split; [done|]. intros id. unfold SelectDNSResolver. split.
  - destruct (refuse _ _ >> _) as [e|] eqn:E.
    + split; [|by intros [r Hr]]. intros [Hid Hp].
      rewrite Hp in E. unfold refuse in E. rewrite (proj2 (str_eqb_neq _ _)) in E by done.
      discriminate.
    + rewrite also_none, refuse_none in E. destruct E as [E1 E2]. str_bool. split; eauto.
  - destruct (refuse _ _ >> _) as [e|] eqn:E; [discriminate|].
    rewrite also_none in E. destruct E as [_ E]. apply Hpool in E as [Hne _].
    intros r [= <-]. apply nth_In.
    assert (0 < Z.of_nat (length resolvers)) by (destruct resolvers; simpl; [done|lia]).
    pose proof (Z.mod_pos_bound (digest_uint64 (sha256 (bytes_of id)))
      (Z.of_nat (length resolvers)) ltac:(lia)). lia.
Qed.

(** ** Well-formed plans *)

Section WellFormed.
Context `{Json}.

(** An outbound of the plan, by its identifier. *)
Definition names (plan : DesiredPlan) (id : string) (ok : Outbound -> Prop) : Prop :=
  exists o, In o (Outbounds plan) /\ ID o = id /\ ok o.

Definition serves_tcp (o : Outbound) : Prop := tcp_capable o = true.
Definition serves_udp (o : Outbound) : Prop := is_vless o = true.

(** A DNS handler that dials through [proxy]. *)
Definition dials_through (proxy : string) (o : Outbound) : Prop :=
  is_dns o = true /\ validateDNSOutboundConfig (Config o) = inr proxy.

Record route_ok (plan : DesiredPlan) (route : ClientRoute) : Prop := {
  ro_client : ClientID route <> EmptyString;
  ro_tcp_choice : BlockTCP route = true <-> TCPOutbound route = EmptyString;
  ro_udp_choice : BlockUDP route = true <-> UDPOutbound route = EmptyString;
  ro_tcp : BlockTCP route = false -> names plan (TCPOutbound route) serves_tcp;
  ro_udp : BlockUDP route = false -> names plan (UDPOutbound route) serves_udp;
  ro_dns : DNSOutbound route <> EmptyString ->
    names plan (DNSOutbound route) (dials_through (TCPOutbound route));
  ro_tcp_reserve : TCPReserveOutbound route <> EmptyString ->
    BlockTCP route = false /\ TCPReserveOutbound route <> TCPOutbound route /\
    names plan (TCPReserveOutbound route) serves_tcp;
  ro_udp_reserve : UDPReserveOutbound route <> EmptyString ->
    BlockUDP route = false /\ UDPReserveOutbound route <> UDPOutbound route /\
    names plan (UDPReserveOutbound route) serves_udp
}.

Record well_formed (plan : DesiredPlan) : Prop := {
  wf_generation : 0 < Generation plan;
  wf_closed : FailClosed plan = true;
  wf_suffixes : DirectSuffixes plan <> [];
  wf_suffix : forall suffix, In suffix (DirectSuffixes plan) ->
    has_prefix "." (trim_space suffix) = true /\
    (2 <= String.length (trim_space suffix))%nat;
  wf_domain : forall domain, In domain (DirectDomains plan) ->
    trim_space domain <> EmptyString /\
    contains (trim_space domain) "/" = false /\ contains (trim_space domain) ":" = false;
  wf_ids : NoDup (map ID (Outbounds plan));
  wf_outbound : forall o, In o (Outbounds plan) ->
    ID o <> EmptyString /\ (tcp_capable o || is_dns o) = true;
  wf_dns : forall o, In o (Outbounds plan) -> is_dns o = true ->
    exists proxy, validateDNSOutboundConfig (Config o) = inr proxy /\
      names plan proxy serves_tcp;
  wf_clients : NoDup (map ClientID (Clients plan));
  wf_route : forall route, In route (Clients plan) -> route_ok plan route
}.

Lemma index_outbounds_spec l outbounds out :
  index_outbounds outbounds l = inr out <->
  (forall o, In o l -> ID o <> EmptyString /\ (tcp_capable o || is_dns o) = true) /\
  NoDup (map ID l) /\ (forall o, In o l -> outbounds !! ID o = None) /\
  out = fold_left (fun m o => <[ID o := o]> m) l outbounds.
Proof.
  revert outbounds. induction l as [|o l IH]; intros outbounds; cbn [index_outbounds].
  { cbn [map fold_left]. split; [intros [= <-]|intros (_ & _ & _ & ->)]; [|done].
    split_and!; try done. constructor. }
  destruct (str_eqb (ID o) EmptyString || negb (tcp_capable o || is_dns o)) eqn:E1.
  { split; [discriminate|]. intros [Hv _]. destruct (Hv o) as [Hn Ho]; [by left|].
    rewrite Ho, orb_false_r in E1. str_bool. done. }
  rewrite orb_false_iff, negb_false_iff in E1. destruct E1 as [E1 E2]. str_bool.
  destruct (bool_decide _) eqn:E3.
  { apply bool_decide_eq_true in E3. split; [discriminate|]. intros (_ & _ & Hf & _).
    rewrite Hf in E3 by (by left). by destruct E3. }
  apply bool_decide_eq_false in E3.
  rewrite IH. cbn [map fold_left]. rewrite NoDup_cons, list_elem_of_In, in_map_iff.
  split.
  - intros (H1 & H2 & H3 & ->). split_and!; try done.
    + intros x [<-|Hx]; auto.
    + intros (x & Hx & Hin). specialize (H3 x Hin). rewrite Hx, lookup_insert_eq in H3. done.
    + intros x [<-|Hx]; [by apply eq_None_not_Some|]. specialize (H3 x Hx).
      by apply lookup_insert_None in H3 as [? _].
  - intros (H1 & [H2 H2'] & H3 & ->). split_and!; auto.
    + intros x Hx. apply H1. by right.
    + intros x Hx. rewrite lookup_insert_ne; [apply H3; by right|].
      intros E. apply H2. eauto.
Qed.

Definition proxied (outbounds : gmap string Outbound) (o : Outbound) (proxy : string) : Prop :=
  validateDNSOutboundConfig (Config o) = inr proxy /\ proxy <> ID o /\
  exists target, outbounds !! proxy = Some target /\ tcp_capable target = true.

Lemma index_proxies_ok outbounds proxies l :
  (forall o, In o l -> is_dns o = true -> exists proxy, proxied outbounds o proxy) ->
  exists out, index_proxies outbounds proxies l = inr out.
Proof.
  revert proxies. induction l as [|o l IH]; intros proxies Hl; cbn [index_proxies]; [eauto|].
  destruct (is_dns o) eqn:Ed; cbn [negb].
  - destruct (Hl o (or_introl eq_refl) Ed) as (proxy & -> & Hne & target & -> & ->).
    rewrite (proj2 (str_eqb_neq _ _) Hne). apply IH. intros x Hx. apply Hl. by right.
  - apply IH. intros x Hx. apply Hl. by right.
Qed.

Lemma index_proxies_spec outbounds proxies l out :
  index_proxies outbounds proxies l = inr out -> NoDup (map ID l) ->
  (forall o, In o l -> is_dns o = true ->
     exists proxy, proxied outbounds o proxy /\ out !! ID o = Some proxy) /\
  (forall id, (forall o, In o l -> is_dns o = true -> ID o <> id) -> out !! id = proxies !! id).
Proof.
  revert proxies. induction l as [|o l IH]; intros proxies; cbn [index_proxies map].
  { intros [= <-] _. by split. }
  intros Hr [Hn Hnd]%NoDup_cons. rewrite list_elem_of_In, in_map_iff in Hn.
  destruct (is_dns o) eqn:Ed; cbn [negb] in Hr.
  - destruct (validateDNSOutboundConfig (Config o)) as [e|proxy] eqn:Ev; [done|].
    destruct (str_eqb proxy (ID o)) eqn:E1; [done|].
    destruct (outbounds !! proxy) as [target|] eqn:E2; [|done].
    destruct (tcp_capable target) eqn:E3; [|done]. cbn [negb] in Hr. str_bool.
    destruct (IH _ Hr Hnd) as [H1 H2]. split.
    + intros x [<-|Hx] Hd; [|by apply H1]. exists proxy. split; [by repeat (split || eexists)|].
      rewrite H2, lookup_insert_eq; [done|]. intros x Hx _ Ex. apply Hn. eauto.
    + intros id Hid. rewrite H2 by (intros x Hx; apply Hid; by right).
      rewrite lookup_insert_ne; [done|]. apply Hid; [by left|done].
  - destruct (IH _ Hr Hnd) as [H1 H2]. split.
    + intros x [<-|Hx] Hd; [congruence|by apply H1].
    + intros id Hid. apply H2. intros x Hx. apply Hid. by right.
Qed.

(** The index agrees with the list. *)
Lemma fold_index_lookup l (m : gmap string Outbound) id o :
  NoDup (map ID l) -> (forall x, In x l -> m !! ID x = None) ->
  fold_left (fun m o => <[ID o := o]> m) l m !! id = Some o <->
  (In o l /\ ID o = id) \/ m !! id = Some o.
Proof.
  revert m. induction l as [|x l IH]; intros m; cbn [map fold_left]; [naive_solver|].
  intros [Hn Hnd]%NoDup_cons Hm. rewrite list_elem_of_In, in_map_iff in Hn.
  rewrite IH; [|done|].
  - rewrite lookup_insert_Some. split; [naive_solver|].
    intros [[[<-|Hin] Hid]|Hl]; [right; by left|by left; split|].
    right; right. split; [|done]. intros <-. rewrite Hm in Hl; [done|by left].
  - intros y Hy. rewrite lookup_insert_ne; [apply Hm; by right|]. intros E. apply Hn. eauto.
Qed.

Definition index_of (plan : DesiredPlan) : gmap string Outbound :=
  fold_left (fun m o => <[ID o := o]> m) (Outbounds plan) ∅.

Lemma index_of_lookup plan id o :
  NoDup (map ID (Outbounds plan)) ->
  index_of plan !! id = Some o <-> In o (Outbounds plan) /\ ID o = id.
Proof.
  intros Hnd. unfold index_of. rewrite fold_index_lookup by done. rewrite lookup_empty.
  naive_solver.
Qed.

Lemma check_reference_none plan id ok unknown invalid :
  NoDup (map ID (Outbounds plan)) ->
  check_reference (index_of plan) id ok unknown invalid = None <->
  names plan id (fun o => ok o = true).
Proof.
  intros Hnd. unfold check_reference, names.
  destruct (index_of plan !! id) as [o|] eqn:E.
  - rewrite index_of_lookup in E by done. rewrite refuse_none, negb_false_iff.
    split; [naive_solver|]. intros (o' & Hin & Hid & Ho).
    assert (index_of plan !! id = Some o /\ index_of plan !! id = Some o') as [E1 E2]
      by (rewrite !index_of_lookup; naive_solver). congruence.
  - split; [done|]. intros (o' & Hin & Hid & Ho).
    assert (index_of plan !! id = Some o') as E1 by by rewrite index_of_lookup. congruence.
Qed.

(** The proxies agree with the handlers. *)
Definition proxies_of (plan : DesiredPlan) (dnsProxies : gmap string string) : Prop :=
  forall o, In o (Outbounds plan) -> is_dns o = true ->
    exists proxy, validateDNSOutboundConfig (Config o) = inr proxy /\
      dnsProxies !! ID o = Some proxy.

Lemma check_dns_none plan dnsProxies route e1 e2 e3 :
  NoDup (map ID (Outbounds plan)) -> proxies_of plan dnsProxies ->
  (check_reference (index_of plan) (DNSOutbound route) is_dns e1 e2 >>
   refuse (negb (str_eqb (default EmptyString (dnsProxies !! DNSOutbound route))
                   (TCPOutbound route))) e3) = None <->
  names plan (DNSOutbound route) (dials_through (TCPOutbound route)).
Proof.
  intros Hnd Hp. rewrite also_none, check_reference_none, refuse_none, negb_false_iff, str_eqb_eq
    by done. unfold names, dials_through. split.
  - intros [(o & Hin & Hid & Ho) Hd]. exists o. split_and!; [done|done|done|].
    destruct (Hp o Hin Ho) as (proxy & Hv & Hl). rewrite Hid in Hl. rewrite Hl in Hd.
    simpl in Hd. congruence.
  - intros (o & Hin & Hid & Ho & Hv). split; [eauto|].
    destruct (Hp o Hin Ho) as (proxy & Hv' & Hl). rewrite <- Hid, Hl. simpl. congruence.
Qed.

Lemma choice_none (none blocked : bool) e :
  refuse (Bool.eqb none (negb blocked)) e = None <-> (blocked = true <-> none = true).
Proof. rewrite refuse_none. destruct none, blocked; simpl; naive_solver. Qed.

Lemma check_route_none plan dnsProxies route :
  NoDup (map ID (Outbounds plan)) -> proxies_of plan dnsProxies ->
  ClientID route <> EmptyString ->
  check_route (index_of plan) dnsProxies route = None <-> route_ok plan route.
Proof.
  intros Hnd Hp Hc. unfold check_route. cbv zeta.
  rewrite !also_none, !choice_none, !str_eqb_eq.
  assert (forall b (x : option PlanError), (if b : bool then None else x) = None <->
    (b = false -> x = None)) as Hif by (intros [] x; naive_solver).
  rewrite !Hif, check_dns_none by done.
  rewrite !also_none, !refuse_none, !orb_false_iff, !str_eqb_neq, !check_reference_none by done.
  split.
  - intros (H1 & H2 & H3 & H4 & H5 & H6 & H7). split; auto.
    + intros Hr. destruct (H6 Hr) as ([? ?] & ? & ?). auto.
    + intros Hr. destruct (H7 Hr) as ([? ?] & ? & ?). auto.
  - intros [_ H1 H2 H3 H4 H5 H6 H7]. split_and!; auto.
    + intros Hr. destruct (H6 Hr) as (? & ? & ?). split_and!; auto.
      intros E. apply H1 in E. congruence.
    + intros Hr. destruct (H7 Hr) as (? & ? & ?). split_and!; auto.
      intros E. apply H2 in E. congruence.
Qed.

Lemma check_clients_none plan dnsProxies seen l :
  NoDup (map ID (Outbounds plan)) -> proxies_of plan dnsProxies ->
  check_clients (index_of plan) dnsProxies seen l = None <->
  NoDup (map ClientID l) /\ (forall route, In route l -> route_ok plan route) /\
  (forall route, In route l -> ClientID route ∉ seen).
Proof.
  intros Hnd Hp. revert seen. induction l as [|r l IH]; intros seen; cbn [check_clients map].
  { split; [|done]. intros _. split_and!; [constructor|done|done]. }
  rewrite !also_none, !refuse_none, str_eqb_neq, bool_decide_eq_false, IH, NoDup_cons.
  setoid_rewrite elem_of_union. setoid_rewrite elem_of_singleton.
  rewrite list_elem_of_In, in_map_iff. split.
  - intros (H1 & H2 & H3 & H4 & H5 & H6). apply check_route_none in H3; [|done..].
    split_and!; [|done| |].
    + intros (x & Hx & Hin). destruct (H6 x Hin). by left.
    + intros x [<-|Hx]; auto.
    + intros x [<-|Hx]; [done|]. intros Hs. destruct (H6 x Hx). by right.
  - intros ((H1 & H2) & H3 & H4).
    assert (route_ok plan r) as Hr by (apply H3; by left).
    pose proof (ro_client _ _ Hr). split_and!; auto.
    + apply H4. by left.
    + by apply check_route_none.
    + intros x Hx. apply H3. by right.
    + intros x Hx [E|Hs]; [apply H1; eauto|]. apply (H4 x); [by right|done].
Qed.

Lemma check_suffix_none suffix :
  check_suffix suffix = None <->
  has_prefix "." (trim_space suffix) = true /\ (2 <= String.length (trim_space suffix))%nat.
Proof.
  unfold check_suffix. rewrite refuse_none, !orb_false_iff, negb_false_iff, Z.ltb_ge, str_eqb_neq.
  split; [intros ((_ & ?) & ?); split; [done|lia]|]. intros [Hp Hl]. split_and!; [|done|lia].
  intros E. rewrite E in Hl. simpl in Hl. lia.
Qed.

Lemma contains_tail a p s : contains s (String a p) = true -> contains s p = true.
Proof.
  induction s as [|b s IH]; cbn [contains has_prefix]; [discriminate|].
  rewrite !orb_true_iff, andb_true_iff. intros [[_ Hp]|Hs]; right; [|by apply IH].
  destruct s as [|c s]; cbn [contains]; rewrite Hp; done.
Qed.

Lemma contains_scheme d : contains d "/" = false -> contains d "://" = false.
Proof. rewrite <- !not_true_iff_false. intros Hd Hc. apply Hd. by do 2 apply contains_tail in Hc. Qed.

Lemma check_domain_none domain :
  check_domain domain = None <->
  trim_space domain <> EmptyString /\
  contains (trim_space domain) "/" = false /\ contains (trim_space domain) ":" = false.
Proof.
  unfold check_domain. rewrite also_none, !refuse_none, !orb_false_iff, str_eqb_neq.
  split; [tauto|]. intros (H1 & H2 & H3). auto using contains_scheme.
Qed.

Lemma index_outbounds_plan plan out :
  index_outbounds ∅ (Outbounds plan) = inr out <->
  (forall o, In o (Outbounds plan) -> ID o <> EmptyString /\ (tcp_capable o || is_dns o) = true) /\
  NoDup (map ID (Outbounds plan)) /\ out = index_of plan.
Proof.
  rewrite index_outbounds_spec. unfold index_of. split; [tauto|].
  intros (H1 & H2 & H3). split_and!; try done.
Qed.

Lemma serves_tcp_not_dns o : serves_tcp o -> is_dns o = false.
Proof.
  unfold serves_tcp, tcp_capable, is_dns. intros [E|E]%orb_true_iff; str_bool; by rewrite E.
Qed.

Lemma proxied_names plan o :
  NoDup (map ID (Outbounds plan)) -> In o (Outbounds plan) -> is_dns o = true ->
  (exists proxy, proxied (index_of plan) o proxy) <->
  (exists proxy, validateDNSOutboundConfig (Config o) = inr proxy /\ names plan proxy serves_tcp).
Proof.
  intros Hnd Hin Hd. split.
  - intros (proxy & Hv & _ & target & Hl & Ht). exists proxy. split; [done|].
    apply index_of_lookup in Hl as [? ?]; [|done]. by exists target.
  - intros (proxy & Hv & target & Ht & Hid & Hs). exists proxy. split_and!; [done| |].
    + intros E. assert (index_of plan !! proxy = Some target /\ index_of plan !! proxy = Some o)
        as [E1 E2] by (rewrite !index_of_lookup; naive_solver).
      apply serves_tcp_not_dns in Hs. congruence.
    + exists target. by rewrite index_of_lookup.
Qed.

Lemma Validate_none plan : Validate plan = None <-> well_formed plan.
Proof.
  unfold Validate. rewrite !also_none, !refuse_none, !check_all_none, bool_decide_eq_false,
    negb_false_iff, Z.leb_gt.
  setoid_rewrite check_suffix_none. setoid_rewrite check_domain_none. split.
  - intros (H1 & H2 & H3 & H4 & H5 & H6).
    destruct (index_outbounds ∅ (Outbounds plan)) as [e|out] eqn:E; [done|].
    apply index_outbounds_plan in E as (Ho & Hnd & ->).
    destruct (index_proxies (index_of plan) ∅ (Outbounds plan)) as [e|proxies] eqn:Ep; [done|].
    destruct (index_proxies_spec _ _ _ _ Ep Hnd) as [Hp _].
    apply check_clients_none in H6 as (Hc & Hr & _); [|done|].
    + split; try done. intros o Hin Hd. apply proxied_names; [done..|].
      destruct (Hp o Hin Hd) as (proxy & ? & _). eauto.
    + intros o Hin Hd. destruct (Hp o Hin Hd) as (proxy & [? _] & ?). eauto.
  - intros [H1 H2 H3 H4 H5 H6 H7 H8 H9 H10]. split_and!; try done.
    rewrite (proj2 (index_outbounds_plan plan (index_of plan))) by done.
    destruct (index_proxies_ok (index_of plan) ∅ (Outbounds plan)) as [proxies Ep].
    { intros o Hin Hd. apply proxied_names; auto. }
    rewrite Ep. destruct (index_proxies_spec _ _ _ _ Ep H6) as [Hp _].
    apply check_clients_none; [done| |].
    + intros o Hin Hd. destruct (Hp o Hin Hd) as (proxy & [? _] & ?). eauto.
    + split_and!; [done|done|]. intros r _. apply not_elem_of_empty.
Qed.

(** C40.  Validation accepts exactly the well-formed plans: a positive generation
    and a fail-closed default, clean direct suffixes and domains, distinct
    outbounds of a known protocol, DNS handlers whose strict configuration
    dials a TCP-capable outbound of the plan, distinct clients that select or
    block each transport, and references (routes, DNS handler, reserves) that
    name outbounds able to carry them; a client's DNS follows its TCP route and
    a reserve differs from its primary. *)
Theorem validate_iff_well_formed plan : Validate plan = None <-> well_formed plan.
Proof. apply Validate_none. Qed.
End WellFormed.

(** ** A small codec and plan *)

(** Documents are their own values; [dns:<proxy>] configures a DNS handler. *)
Definition sample_decode (s : string) : option (dnsConfig * bool) :=
  if has_prefix "dns:" s then
    Some ({| dns_Protocol := ProtocolDNS;
             Settings := Some {| RewriteNetwork := "tcp"; RewriteAddress := "1.1.1.1";
                                 RewritePort := 53 |};
             StreamSettings := Some (Some (String.substring 4 (String.length s) s));
             ProxySettings := None |}, false)
  else None.

Definition sample_marshal (p : DesiredPlan) : option string :=
  Some (join "," (decimal (Generation p) :: map ID (Outbounds p) ++ map Config (Outbounds p) ++
                  map ClientID (Clients p) ++ map TCPOutbound (Clients p))).

Definition sample_json : Json := {|
  json := string; json_eq_dec := _; unmarshal := Some; decode_dns := sample_decode;
  reencode := Some; marshal_plan := sample_marshal |}.

Definition sample_outbound (id : string) : Outbound :=
  {| ID := id; Protocol := ProtocolVLESS; Config := "{}" |}.
Definition sample_dns (id proxy : string) : Outbound :=
  {| ID := id; Protocol := ProtocolDNS; Config := ("dns:" ++ proxy)%string |}.
Definition sample_route (client outbound dns : string) : ClientRoute := {|
  Dormant := false; ClientID := client; SourceCIDR := "10.44.0.2/32";
  TCPOutbound := outbound; UDPOutbound := outbound; DNSOutbound := dns;
  TCPReserveOutbound := EmptyString; UDPReserveOutbound := EmptyString;
  BlockTCP := false; BlockUDP := false |}.

Definition sample_plan (generation : Z) (outbound dns : string) : DesiredPlan := {|
  Generation := generation;
  Outbounds := [sample_outbound outbound; sample_dns dns outbound];
  Clients := [sample_route "alice" outbound dns];
  DirectSuffixes := [".ru"%string]; DirectDomains := []; FailClosed := true |}.

Example sample_plan_valid : @Validate sample_json (sample_plan 1 "vless-a" "dns-a") = None.
Proof. vm_compute. reflexivity. Qed.

(** A DNS handler may not dial through another one. *)
Example sample_plan_invalid :
  @Validate sample_json ((sample_plan 1 "vless-a" "dns-a") <| Outbounds :=
    [sample_outbound "vless-a"; sample_dns "dns-a" "dns-b"; sample_dns "dns-b" "vless-a"] |>) =
  Some (DNSProxyNotTCP "dns-a").
Proof. vm_compute. reflexivity. Qed.
