(* ===== verification/DataChange.v ===== *)
(** What a new plan changes on the gateway (internal/dataplane/reconciler.go):
    digests of plans, semantic equality of outbounds, the orders of additions
    and removals, and the routes a change affects. *)
From Stdlib Require Import Ascii String.
From S2P Require Import Prelude GoOrder GoStrings GoSort Sha256 DataPlan.

#[local] Open Scope Z_scope.

(** ** Digests *)

(** [bytes.Compare(left, right) < 0] and [<] on strings agree. *)
Definition outbound_less (left right : Outbound) : bool :=
  if negb (str_eqb (ID left) (ID right)) then str_ltb (ID left) (ID right)
  else if negb (str_eqb (Protocol left) (Protocol right))
  then str_ltb (Protocol left) (Protocol right)
  else str_ltb (Config left) (Config right).

Definition route_less (left right : ClientRoute) : bool :=
  if negb (str_eqb (ClientID left) (ClientID right))
  then str_ltb (ClientID left) (ClientID right)
  else if negb (str_eqb (SourceCIDR left) (SourceCIDR right))
  then str_ltb (SourceCIDR left) (SourceCIDR right)
  else if negb (str_eqb (TCPOutbound left) (TCPOutbound right))
  then str_ltb (TCPOutbound left) (TCPOutbound right)
  else if negb (str_eqb (UDPOutbound left) (UDPOutbound right))
  then str_ltb (UDPOutbound left) (UDPOutbound right)
  else if negb (str_eqb (DNSOutbound left) (DNSOutbound right))
  then str_ltb (DNSOutbound left) (DNSOutbound right)
  else if negb (str_eqb (TCPReserveOutbound left) (TCPReserveOutbound right))
  then str_ltb (TCPReserveOutbound left) (TCPReserveOutbound right)
  else if negb (str_eqb (UDPReserveOutbound left) (UDPReserveOutbound right))
  then str_ltb (UDPReserveOutbound left) (UDPReserveOutbound right)
  else if negb (Bool.eqb (BlockTCP left) (BlockTCP right)) then negb (BlockTCP left)
  else negb (BlockUDP left) && BlockUDP right.

Section Digests.
Context `{Json}.

Definition canonicalOutboundJSON (encoded : string) : option string :=
  if str_eqb (trim_space encoded) EmptyString then Some EmptyString else reencode encoded.

Fixpoint canonical_outbounds (l : list Outbound) : PlanError + list Outbound :=
  match l with
  | [] => inr []
  | o :: l =>
      match canonicalOutboundJSON (Config o) with
      | None => inl (InvalidConfigJSON (ID o))
      | Some canonical =>
          match canonical_outbounds l with
          | inl e => inl e
          | inr rest => inr (o <| Config := canonical |> :: rest)
          end
      end
  end.

Definition digest (plan : DesiredPlan) : PlanError + string :=
  match marshal_plan plan with
  | None => inl MarshalFailed
  | Some data => inr (hex_encode (sha256 (bytes_of data)))
  end.

Definition SemanticDigest (plan : DesiredPlan) : PlanError + string :=
  match canonical_outbounds (Outbounds plan) with
  | inl e => inl e
  | inr outbounds =>
      digest {| Generation := 0;
                Outbounds := sort_slice outbound_less outbounds;
                Clients := sort_slice route_less (Clients plan);
                DirectSuffixes := sort_strings (DirectSuffixes plan);
                DirectDomains := sort_strings (DirectDomains plan);
                FailClosed := FailClosed plan |}
  end.

(** ** Outbounds *)

Definition semanticallyEqualOutbound (left right : Outbound) : option bool :=
  if negb (str_eqb (ID left) (ID right)) || negb (str_eqb (Protocol left) (Protocol right))
  then Some false
  else if str_eqb (Config left) EmptyString || str_eqb (Config right) EmptyString
  then Some (str_eqb (Config left) EmptyString && str_eqb (Config right) EmptyString)
  else
    match unmarshal (Config left), unmarshal (Config right) with
    | Some leftConfig, Some rightConfig => Some (bool_decide (leftConfig = rightConfig))
    | _, _ => None
    end.

Definition equalOutbound (left right : Outbound) : bool :=
  default false (semanticallyEqualOutbound left right).

Definition outboundsByID (items : list Outbound) : gmap string Outbound :=
  fold_left (fun m o => <[ID o := o]> m) items ∅.

Definition immutable_error (desired : gmap string Outbound) (id : string)
    (currentOutbound : Outbound) : option PlanError :=
  match desired !! id with
  | None => None
  | Some desiredOutbound =>
      match semanticallyEqualOutbound currentOutbound desiredOutbound with
      | None => Some (InvalidConfigJSON id)
      | Some equal => refuse (negb equal) (ImmutableOutbound id)
      end
  end.

(** The loop over the map reports the first violation it meets. *)
Definition validateImmutableOutboundIDs (current desired : gmap string Outbound) :
    option PlanError :=
  check_all (fun entry : string * Outbound => immutable_error desired entry.1 entry.2)
    (map_to_list current).

(** DNS handlers are added last and removed first. *)
Definition addLayer (o : Outbound) : Z := if str_eqb (Protocol o) ProtocolDNS then 1 else 0.
Definition removalLayer (o : Outbound) : Z := if str_eqb (Protocol o) ProtocolDNS then 0 else 1.

Definition layer_less (layer : Outbound -> Z) (left right : Outbound) : bool :=
  if negb (layer left =? layer right) then layer left <? layer right
  else str_ltb (ID left) (ID right).

Definition sortedOutboundsForAdd (items : list Outbound) : list Outbound :=
  sort_slice (layer_less addLayer) items.
Definition sortOutboundsForRemoval (items : list Outbound) : list Outbound :=
  sort_slice (layer_less removalLayer) items.
Definition sortedRoutes (items : list ClientRoute) : list ClientRoute :=
  sort_slice (fun left right => str_ltb (ClientID left) (ClientID right)) items.

(** ** Affected routes *)

Definition routeUsesChangedOutbound (route : ClientRoute) (changed : gset string) : bool :=
  existsb (fun id => bool_decide (id ∈ changed))
    [TCPOutbound route; UDPOutbound route; DNSOutbound route; TCPReserveOutbound route;
     UDPReserveOutbound route].

(** The keys of [m] whose entry is missing in [other] or differs. *)
Definition differing (m other : gmap string Outbound) : gset string :=
  dom (filter (fun entry : string * Outbound =>
    match other !! entry.1 with
    | None => true
    | Some o => negb (equalOutbound entry.2 o)
    end = true) m).

Definition changed_outbounds (currentOutbounds desiredOutbounds : gmap string Outbound) :
    gset string :=
  differing currentOutbounds desiredOutbounds ∪
  dom (filter (fun entry : string * Outbound =>
    match currentOutbounds !! entry.1 with
    | None => true
    | Some current => negb (equalOutbound current entry.2)
    end = true) desiredOutbounds).

Definition routes_by_client (routes : list ClientRoute) : gmap string ClientRoute :=
  fold_left (fun m route => <[ClientID route := route]> m) routes ∅.

Definition affected_in (changed : gset string) (m other : gmap string ClientRoute) :
    gset string :=
  dom (filter (fun entry : string * ClientRoute =>
    (negb (bool_decide (other !! entry.1 = Some entry.2)) ||
     routeUsesChangedOutbound entry.2 changed) = true) m).

Definition affected_clients (currentRoutes desiredRoutes : list ClientRoute)
    (changed : gset string) : gset string :=
  let currentByClient := routes_by_client currentRoutes in
  let desiredByClient := routes_by_client desiredRoutes in
  affected_in changed currentByClient desiredByClient ∪
  affected_in changed desiredByClient currentByClient.

Definition route_key (route : ClientRoute) : string :=
  (ClientID route ++ String (ascii_of_N 0) (SourceCIDR route))%string.

(** [appendAffected]. *)
Definition append_affected (affected : gset string)
    (acc : gset string * list ClientRoute) (route : ClientRoute) :
    gset string * list ClientRoute :=
  let '(seen, result) := acc in
  if negb (bool_decide (ClientID route ∈ affected)) then acc
  else if bool_decide (route_key route ∈ seen) then acc
  else ({[route_key route]} ∪ seen, result ++ [route]).

Definition affectedRoutes (currentRoutes desiredRoutes : list ClientRoute)
    (currentOutbounds desiredOutbounds : gmap string Outbound) : list ClientRoute :=
  let changed := changed_outbounds currentOutbounds desiredOutbounds in
  let affected := affected_clients currentRoutes desiredRoutes changed in
  sortedRoutes
    (fold_left (append_affected affected) (currentRoutes ++ desiredRoutes) (∅, [])).2.
End Digests.

(** ** The orders are total on their keys *)

Lemma str_lex a b r c :
  r = is_lt c ->
  (if negb (str_eqb a b) then str_ltb a b else r) = is_lt (lex (String.compare a b) c).
Proof.
  intros ->. unfold str_ltb. destruct (str_eqb a b) eqn:E; str_bool; cbn [negb].
  - by rewrite E, (tc_refl (cmp := String.compare)).
  - destruct (String.compare a b) eqn:Ec; [|done|done].
    by apply (tc_eq (cmp := String.compare)) in Ec.
Qed.

Definition outbound_key (o : Outbound) : string * (string * string) :=
  (ID o, (Protocol o, Config o)).
Definition outbound_compare : string * (string * string) -> string * (string * string) ->
    comparison :=
  pair_compare String.compare (pair_compare String.compare String.compare).

#[export] Instance outbound_total_compare : TotalCompare outbound_compare.
Proof. unfold outbound_compare. typeclasses eauto. Qed.

Lemma outbound_less_key x y :
  outbound_less x y = is_lt (outbound_compare (outbound_key x) (outbound_key y)).
Proof. unfold outbound_less, outbound_compare, pair_compare. simpl. by do 2 apply str_lex. Qed.

#[export] Instance outbound_less_weak : StrictWeak (fun _ => True) outbound_less.
Proof.
  apply (key_strict_weak _ _ outbound_key outbound_compare). intros. apply outbound_less_key.
Qed.

Lemma outbound_less_antisym x y :
  ordered outbound_less x y -> ordered outbound_less y x -> x = y.
Proof.
  intros H1 H2.
  assert (outbound_key x = outbound_key y) as [= ? ? ?].
  { apply (key_antisym (fun _ => True) outbound_less outbound_key outbound_compare); auto.
    intros. apply outbound_less_key. }
  destruct x, y; simpl in *; congruence.
Qed.

Definition route_sort_key (r : ClientRoute) :=
  (ClientID r, (SourceCIDR r, (TCPOutbound r, (UDPOutbound r, (DNSOutbound r,
    (TCPReserveOutbound r, (UDPReserveOutbound r, (BlockTCP r, BlockUDP r)))))))).
Definition route_compare :=
  let s := String.compare in
  pair_compare s (pair_compare s (pair_compare s (pair_compare s (pair_compare s
    (pair_compare s (pair_compare s (pair_compare bool_compare bool_compare))))))).

#[export] Instance route_total_compare : TotalCompare route_compare.
Proof. unfold route_compare. typeclasses eauto. Qed.

Lemma route_less_key x y :
  route_less x y = is_lt (route_compare (route_sort_key x) (route_sort_key y)).
Proof.
  unfold route_less, route_compare, pair_compare. simpl. do 7 apply str_lex.
  by destruct (BlockTCP x), (BlockTCP y), (BlockUDP x), (BlockUDP y).
Qed.

#[export] Instance route_less_weak : StrictWeak (fun _ => True) route_less.
Proof.
  apply (key_strict_weak _ _ route_sort_key route_compare). intros. apply route_less_key.
Qed.

(** Distinct clients have distinct routes. *)
Lemma nodup_by_client l x y :
  NoDup (map ClientID l) -> In x l -> In y l -> ClientID x = ClientID y -> x = y.
Proof.
  induction l as [|r l IH]; [done|]. cbn [map]. intros [Hr Hnd]%NoDup_cons.
  rewrite list_elem_of_In, in_map_iff in Hr.
  intros [<-|Hx] [<-|Hy] E; [done| | |by apply IH]; exfalso; apply Hr; eauto.
Qed.

Lemma sort_routes_Permutation_eq l k :
  NoDup (map ClientID l) -> l ≡ₚ k -> sort_slice route_less l = sort_slice route_less k.
Proof.
  intros Hnd. apply (sort_slice_Permutation_eq (fun _ => True) route_less).
  - by apply List.Forall_forall.
  - intros x y Hx Hy H1 H2. apply (nodup_by_client l); [done..|].
    assert (route_sort_key x = route_sort_key y) as E; [|by injection E].
    apply (key_antisym (fun _ => True) route_less route_sort_key route_compare); auto.
    intros. apply route_less_key.
Qed.

Section DigestFacts.
Context `{Json}.

Definition canonical_form (o : Outbound) : string * string * option string :=
  (ID o, Protocol o, canonicalOutboundJSON (Config o)).

Lemma canonical_outbounds_spec l out :
  canonical_outbounds l = inr out <->
  map (fun o => (ID o, Protocol o, Some (Config o))) out = map canonical_form l.
Proof.
  revert out. induction l as [|o l IH]; intros out; simpl.
  { split; [by intros [= <-]|]. by destruct out. }
  unfold canonical_form at 1. destruct (canonicalOutboundJSON (Config o)) as [c|].
  - destruct (canonical_outbounds l) as [e|rest].
    + split; [done|]. destruct out as [|x out]; [done|]. simpl. intros [= ? ? ? Hl].
      by apply IH in Hl.
    + split.
      * intros [= <-]. simpl. f_equal. by apply IH.
      * destruct out as [|x out]; [done|]. simpl. intros [= H1 H2 H3 Hl].
        apply IH in Hl. injection Hl as ->. f_equal. f_equal.
        destruct x, o; simpl in *; by subst.
  - split; [done|]. by destruct out.
Qed.

Lemma canonical_Permutation l k out :
  map canonical_form l ≡ₚ map canonical_form k -> canonical_outbounds l = inr out ->
  exists out', canonical_outbounds k = inr out' /\ out ≡ₚ out'.
Proof.
  intros Hp Hl%canonical_outbounds_spec. rewrite <- Hl in Hp. symmetry in Hp.
  apply Permutation_map_inv in Hp as (out' & Hk & Hp).
  exists out'. split; [|by symmetry]. by apply canonical_outbounds_spec.
Qed.

(** The semantic digest depends only on what a plan means: plans whose
    outbounds agree up to order and JSON spelling, and whose clients, suffixes
    and domains agree up to order, have the same digest whatever their
    generations. *)
Theorem semantic_digest_order_independent p q d :
  map canonical_form (Outbounds p) ≡ₚ map canonical_form (Outbounds q) ->
  Clients p ≡ₚ Clients q -> NoDup (map ClientID (Clients p)) ->
  DirectSuffixes p ≡ₚ DirectSuffixes q -> DirectDomains p ≡ₚ DirectDomains q ->
  FailClosed p = FailClosed q ->
  SemanticDigest p = inr d -> SemanticDigest q = inr d.
Proof.
  intros Ho Hc Hnd Hs Hd Hf. unfold SemanticDigest.
  destruct (canonical_outbounds (Outbounds p)) as [e|out] eqn:E; [done|].
  destruct (canonical_Permutation _ _ _ Ho E) as (out' & -> & Hp).
  rewrite (sort_slice_Permutation_eq (fun _ => True) outbound_less out out'),
    (sort_routes_Permutation_eq _ _ Hnd Hc), (sort_strings_Permutation_eq _ _ Hs),
    (sort_strings_Permutation_eq _ _ Hd), Hf; [done| | |done].
  - by apply List.Forall_forall.
  - intros x y _ _. apply outbound_less_antisym.
Qed.
End DigestFacts.

(** The order of the outbounds and the generation do not matter. *)
Lemma semantic_digest_order_independent_witness :
  let p := sample_plan 1 "vless-a" "dns-a" in
  let q := (sample_plan 7 "vless-a" "dns-a") <| Outbounds := rev (Outbounds p) |> in
  Outbounds p <> Outbounds q /\
  exists d, @SemanticDigest sample_json p = inr d /\ @SemanticDigest sample_json q = inr d.
Proof.
  split; [done|].
  destruct (@SemanticDigest sample_json (sample_plan 1 "vless-a" "dns-a")) as [e|d] eqn:E;
    [exfalso; vm_compute in E; discriminate|].
  exists d. split; [done|].
  eapply (@semantic_digest_order_independent sample_json (sample_plan 1 "vless-a" "dns-a"));
    [apply Permutation_swap|done| |done|done|done|exact E].
  apply (bool_decide_unpack _). by vm_compute.
Defined.
