(* ===== verification/FlowRegistry.v ===== *)
(** The flow recovery protocol of the Xray build (internal/xrayflow): snapshots,
    reset requests, and the registry of live TCP flows. *)
From Stdlib Require Import Ascii String.
From S2P Require Import Prelude GoOrder GoStrings GoNet.

#[local] Open Scope Z_scope.

(** ** Protocol *)

Record Snapshot := {
  Instance_ : string;
  BeforeID : Z;
  Active : Z
}.

#[export] Instance Snapshot_eq_dec : EqDecision Snapshot.
Proof. solve_decision. Defined.

Record ResetRequest := {
  rr_Snapshot : Snapshot;
  rr_Outbound : string;
  rr_Source : string
}.

Definition tag_rune (ch : Z) : bool :=
  between 97 122 ch || between 65 90 ch || between 48 57 ch ||
  (ch =? 45) || (ch =? 95) || (ch =? 46).

Definition validTag (value : string) : bool :=
  negb (str_eqb value EmptyString) && (Z.of_nat (String.length value) <=? 256) &&
  forallb tag_rune (runes value).

(** Whether [Validate] accepts the request. *)
Definition valid_request (q : ResetRequest) : bool :=
  match parse_addr4 (rr_Source q) with
  | None => false
  | Some address =>
      negb (is_unspecified address) && str_eqb (rr_Source q) (addr_string address) &&
      validTag (rr_Outbound q) &&
      (Z.of_nat (String.length (Instance_ (rr_Snapshot q))) =? 32)
  end.

(** ** The registry *)

Record flow := {
  outbound : string;
  source : string
}.

Record Registry := {
  instance_ : string;
  next : Z;
  flows : gmap Z flow
}.

#[export] Instance Registry_eta : Eta Registry := fun r =>
  Build_Registry (instance_ r) (next r) (flows r).

(** [nonce] is the hexadecimal text of the sixteen random bytes. *)
Definition NewRegistry (nonce : string) : Registry :=
  {| instance_ := nonce; next := 0; flows := ∅ |}.

Definition take_snapshot (r : Registry) : Snapshot :=
  {| Instance_ := instance_ r; BeforeID := next r; Active := Z.of_nat (size (flows r)) |}.

(** The flow's identifier, if it is tracked. *)
Definition Track (r : Registry) (cancelled : bool) (outbound_ source_ network : string)
    (interruptible : bool) : option Z * Registry :=
  match parse_addr4 source_ with
  | None => (None, r)
  | Some address =>
      if negb (str_eqb network "tcp") || negb (validTag outbound_) || negb interruptible ||
         cancelled then (None, r)
      else
        let id := (next r + 1) `mod` 2 ^ 64 in
        (Some id,
         r <| next := id |>
           <| flows := <[id := {| outbound := outbound_; source := addr_string address |}]>
                         (flows r) |>)
  end.

(** The function [Track] returns with a tracked flow. *)
Definition finish (r : Registry) (id : Z) : Registry := r <| flows := delete id (flows r) |>.

Inductive ResetReply := Closed (ids : gset Z) | InvalidRequest | StaleInstance | Cancelled.

Definition scoped (q : ResetRequest) (entry : Z * flow) : Prop :=
  entry.1 <= BeforeID (rr_Snapshot q) /\ outbound entry.2 = rr_Outbound q /\
  source entry.2 = rr_Source q.

#[export] Instance scoped_dec q entry : Decision (scoped q entry).
Proof. unfold scoped. apply _. Defined.

Definition Reset_ (r : Registry) (cancelled : bool) (q : ResetRequest) : ResetReply * Registry :=
  if negb (valid_request q) then (InvalidRequest, r)
  else if cancelled then (Cancelled, r)
  else if negb (str_eqb (Instance_ (rr_Snapshot q)) (instance_ r)) then (StaleInstance, r)
  else if next r <? BeforeID (rr_Snapshot q) then (InvalidRequest, r)
  else
    (Closed (dom (filter (scoped q) (flows r))),
     r <| flows := filter (fun entry => ~ scoped q entry) (flows r) |>).

(** ** Runs *)

Inductive step : Registry -> Registry -> Prop :=
  | step_track r c o s n i : step r (Track r c o s n i).2
  | step_finish r id : step r (finish r id)
  | step_reset r c q : step r (Reset_ r c q).2.

(** A run in which the 64-bit counter has room for every flow. *)
Definition roomy (r r' : Registry) : Prop := step r r' /\ next r + 1 < 2 ^ 64.
Definition run_of : Registry -> Registry -> Prop := rtc roomy.

(** Identifiers are handed out in order and have not wrapped around. *)
Record sound (r : Registry) : Prop := {
  so_range : 0 <= next r < 2 ^ 64;
  so_flows : forall id f, flows r !! id = Some f -> 0 < id <= next r
}.

Lemma sound_new nonce : sound (NewRegistry nonce).
Proof. split; [simpl; lia|]. simpl. intros id f Hf. by rewrite lookup_empty in Hf. Qed.

Lemma track_cases r c o s n i :
  Track r c o s n i = (None, r) \/
  exists f, Track r c o s n i =
    (Some ((next r + 1) `mod` 2 ^ 64),
     r <| next := (next r + 1) `mod` 2 ^ 64 |>
       <| flows := <[(next r + 1) `mod` 2 ^ 64 := f]> (flows r) |>).
Proof.
  unfold Track. destruct (parse_addr4 s); [|by left]. case_if; [by left|right; by eexists].
Qed.

(** A step neither reuses an identifier nor moves the counter back, and drops
    flows or adds one above it. *)
Lemma roomy_sound r r' :
  sound r -> roomy r r' ->
  sound r' /\ next r <= next r' /\ instance_ r' = instance_ r /\
  (forall id f, flows r' !! id = Some f -> flows r !! id = Some f \/ next r < id).
Proof.
  intros [Hr Hf] [Hs Hw]. destruct Hs as [r c o s n i|r id|r c q].
  - destruct (track_cases r c o s n i) as [E|[f E]]; rewrite E; simpl.
    { split; [by split|]. split_and!; [lia|done|auto]. }
    set (id := (next r + 1) `mod` 2 ^ 64) in *.
    assert (id = next r + 1) as Hid.
    { unfold id. rewrite Z.mod_small; lia. }
    split; [split; simpl|split_and!; simpl; [lia|done|]].
    + unfold id. apply Z.mod_pos_bound. lia.
    + intros x g [[<- _]|[_ Hx]]%lookup_insert_Some; [lia|]. apply Hf in Hx. lia.
    + intros x g [[<- _]|[_ Hx]]%lookup_insert_Some; [right; lia|by left].
  - split; [split; simpl; [done|]|split_and!; simpl; [lia|done|]].
    + intros x g [_ Hx]%lookup_delete_Some. by eapply Hf.
    + intros x g [_ Hx]%lookup_delete_Some. by left.
  - unfold Reset_. repeat case_if; simpl;
      try (split; [by split|]; split_and!; [lia|done|auto]).
    split; [split; simpl; [done|]|split_and!; simpl; [lia|done|]].
    + intros x g [Hx _]%map_lookup_filter_Some. by eapply Hf.
    + intros x g [Hx _]%map_lookup_filter_Some. by left.
Qed.

Lemma run_sound r r' :
  sound r -> run_of r r' ->
  sound r' /\ next r <= next r' /\ instance_ r' = instance_ r /\
  (forall id f, flows r' !! id = Some f -> flows r !! id = Some f \/ next r < id).
Proof.
  intros Hr. induction 1 as [r|r r1 r2 Hs _ IH]; [split_and!; auto; lia|].
  destruct (roomy_sound r r1 Hr Hs) as (H1 & H2 & H3 & H4).
  destruct (IH H1) as (H5 & H6 & H7 & H8). split_and!; [done|lia|congruence|].
  intros id f Hf. destruct (H8 id f Hf) as [Hf'|]; [|right; lia].
  destruct (H4 id f Hf') as [|]; [by left|by right].
Qed.

(** C39.  A reset is scoped, fenced and idempotent.  From a snapshot of the
    registry, after any further activity, a valid reset with that snapshot
    closes exactly the live flows of its outbound and source that were already
    live when the snapshot was taken; every other flow, in particular every
    later one, stays; a second reset finds nothing; a snapshot of another
    instance is refused and closes nothing. *)
Theorem reset_scoped_and_fenced r r' q :
  sound r -> run_of r r' -> valid_request q = true ->
  (rr_Snapshot q = take_snapshot r ->
     exists r'', Reset_ r' false q = (Closed (dom (filter (scoped q) (flows r'))), r'') /\
       (forall id f, flows r' !! id = Some f ->
          flows r'' !! id = (if bool_decide (is_Some (flows r !! id) /\
                                  outbound f = rr_Outbound q /\ source f = rr_Source q)
                             then None else Some f)) /\
       (forall id, flows r' !! id = None -> flows r'' !! id = None) /\
       Reset_ r'' false q = (Closed ∅, r'')) /\
  (Instance_ (rr_Snapshot q) <> instance_ r -> Reset_ r' false q = (StaleInstance, r')).
Proof.
  intros Hr Hrun Hq. destruct (run_sound r r' Hr Hrun) as ([H1 H2] & H3 & H4 & H5).
  assert (forall r0, rr_Snapshot q = take_snapshot r -> instance_ r0 = instance_ r ->
    next r <= next r0 -> Reset_ r0 false q =
      (Closed (dom (filter (scoped q) (flows r0))),
       r0 <| flows := filter (fun entry => ~ scoped q entry) (flows r0) |>)) as Hreset.
  { intros r0 Hs Hi Hn. unfold Reset_. rewrite Hq, Hs. simpl. rewrite Hi, str_eqb_refl. simpl.
    rewrite (proj2 (Z.ltb_ge _ _)) by lia. done. }
  split.
  - intros Hs. eexists. split; [by apply Hreset|]. split_and!.
    + intros id f Hf. simpl.
      assert (is_Some (flows r !! id) <-> id <= next r) as Hold.
      { split; [intros [g Hg]; apply (so_flows _ Hr) in Hg; lia|]. intros Hle.
        destruct (H5 id f Hf); [by eexists|lia]. }
      destruct (bool_decide _) eqn:E.
      * apply bool_decide_eq_true in E as (E1 & E2 & E3). apply map_lookup_filter_None. right.
        intros g Hg. assert (g = f) as -> by congruence. intros []. split_and!; [|done|done].
        rewrite Hs. by apply Hold.
      * apply bool_decide_eq_false in E. apply map_lookup_filter_Some. split; [done|].
        intros (E1 & E2 & E3). rewrite Hs in E1. apply E. split_and!; [|done|done]. by apply Hold.
    + intros id Hid. simpl. apply map_lookup_filter_None. by left.
    + set (r2 := r' <| flows := _ |>). rewrite (Hreset r2 Hs H4 H3).
      assert (filter (scoped q) (flows r2) = ∅) as E0.
      { apply map_eq. intros id. rewrite lookup_empty, map_lookup_filter_None. right.
        intros f Hf. by apply map_lookup_filter_Some in Hf as [_ ?]. }
      assert (filter (fun entry => ~ scoped q entry) (flows r2) = flows r2) as E1.
      { apply map_filter_id. intros id f Hf. by apply map_lookup_filter_Some in Hf as [_ ?]. }
      rewrite E0, E1, dom_empty_L. f_equal.
  - intros Hi. unfold Reset_. rewrite Hq. simpl. rewrite (proj2 (str_eqb_neq _ _)); [done|].
    congruence.
Qed.

(** ** Witness *)

Definition sample_nonce : string := "0123456789abcdef0123456789abcdef".
Definition sample_registry : Registry :=
  (Track (NewRegistry sample_nonce) false "failed" "10.44.0.2" "tcp" true).2.
Definition sample_later : Registry :=
  (Track sample_registry false "failed" "10.44.0.2" "tcp" true).2.
Definition sample_reset : ResetRequest := {|
  rr_Snapshot := take_snapshot sample_registry; rr_Outbound := "failed";
  rr_Source := "10.44.0.2" |}.

Lemma reset_scoped_and_fenced_witness :
  rr_Snapshot sample_reset = take_snapshot sample_registry /\
  flows sample_registry !! 1 = Some {| outbound := "failed"; source := "10.44.0.2" |} /\
  (rr_Snapshot sample_reset = take_snapshot sample_registry ->
     exists r'', Reset_ sample_later false sample_reset =
         (Closed (dom (filter (scoped sample_reset) (flows sample_later))), r'') /\
       (forall id f, flows sample_later !! id = Some f ->
          flows r'' !! id = (if bool_decide (is_Some (flows sample_registry !! id) /\
                                  outbound f = rr_Outbound sample_reset /\
                                  source f = rr_Source sample_reset)
                             then None else Some f)) /\
       (forall id, flows sample_later !! id = None -> flows r'' !! id = None) /\
       Reset_ r'' false sample_reset = (Closed ∅, r'')) /\
  (Instance_ (rr_Snapshot sample_reset) <> instance_ sample_registry ->
     Reset_ sample_later false sample_reset = (StaleInstance, sample_later)).
Proof.
  split; [reflexivity|]. split; [vm_compute; reflexivity|].
  apply (reset_scoped_and_fenced sample_registry sample_later sample_reset).
  - apply (roomy_sound (NewRegistry sample_nonce)); [apply sound_new|].
    split; [constructor|vm_compute; reflexivity].
  - apply rtc_once. split; [constructor|vm_compute; reflexivity].
  - vm_compute. reflexivity.
Defined.
