(* ===== verification/Gateway.v ===== *)
(** The state of the plan reconciler (internal/dataplane/reconciler.go) and the
    world it acts on: the adapter that talks to Xray and the state file.

    The adapter and the file system are an environment that answers every call,
    possibly with an error, depending on everything that happened before.  A run
    leaves a trace of the calls with their answers. *)
From S2P Require Import Prelude Effects GoOrder DataPlan DataChange FlowRegistry.

#[local] Open Scope Z_scope.
#[local] Open Scope effect_scope.

(** ** Plans that have been applied *)

Record FlowRecovery := {
  fr_ClientID : string;
  fr_SourceCIDR : string;
  FailedOutbound : string;
  ReplacementOutbound : string
}.

Record PendingFlowRecovery := {
  Recovery : FlowRecovery;
  pf_Snapshot : option Snapshot
}.

Record AppliedPlan := {
  plan : DesiredPlan;
  Digest : string;
  PendingFlowRecoveries : list PendingFlowRecovery
}.

#[export] Instance AppliedPlan_eta : Eta AppliedPlan := fun a =>
  Build_AppliedPlan (plan a) (Digest a) (PendingFlowRecoveries a).

Definition zero_plan : DesiredPlan := {|
  Generation := 0; Outbounds := []; Clients := []; DirectSuffixes := [];
  DirectDomains := []; FailClosed := false |}.
Definition zero_applied : AppliedPlan :=
  {| plan := zero_plan; Digest := EmptyString; PendingFlowRecoveries := [] |}.

(** ** Calls and their answers *)

Inductive ResetOutcome := FlowsClosed (n : Z) | FlowsStale | FlowsFailed.

(** Writing the plan can fail before the rename, or after it when the
    directory cannot be synchronised. *)
Inductive WriteOutcome := Written | NotWritten | Unsynced.

Inductive Event :=
  | EvAdd (o : Outbound) (ok : bool)
  | EvRoute (r : ClientRoute) (ok : bool)
  | EvReplace (rs : list ClientRoute) (ok : bool)
  | EvReplaceStaged (previous rs affected : list ClientRoute) (ok : bool)
  | EvDrain (id : string) (ok : bool)
  | EvRemove (id : string) (ok : bool)
  | EvNormalize (o : Outbound) (reply : option Outbound)
  | EvSnapshot (reply : option Snapshot)
  | EvReset (q : ResetRequest) (reply : ResetOutcome)
  | EvWrite (a : AppliedPlan) (reply : WriteOutcome)
  | EvRuntimeLost.

Inductive RouteMode := Staged | Batched | PerClient.

(** The answers may depend on the whole trace so far. *)
Record Env := {
  route_mode : RouteMode;
  normalizes : bool;
  flow_control : bool;
  add_ok : list Event -> Outbound -> bool;
  route_ok : list Event -> ClientRoute -> bool;
  routes_ok : list Event -> list ClientRoute -> bool;
  drain_ok : list Event -> string -> bool;
  remove_ok : list Event -> string -> bool;
  normalize : list Event -> Outbound -> option Outbound;
  cancelled : list Event -> bool;
  snapshot : list Event -> option Snapshot;
  reset : list Event -> ResetRequest -> ResetOutcome;
  write : list Event -> AppliedPlan -> WriteOutcome
}.

#[export] Instance Env_eta : Eta Env := fun e =>
  Build_Env (route_mode e) (normalizes e) (flow_control e) (add_ok e) (route_ok e) (routes_ok e)
    (drain_ok e) (remove_ok e) (normalize e) (cancelled e) (snapshot e) (reset e) (write e).

Inductive RecoveryError :=
  | TooManyScopes | InvalidSource | InvalidScope | DuplicateScope | NoReplacementRoute
  | NoPreviousRoute.

Inductive ApplyError :=
  | RuntimeRecovering | InvalidPlan (e : PlanError) | BadRecovery (e : RecoveryError)
  | StaleGeneration (generation : Z) | ReusedGeneration
  | NormalizeCancelled | NormalizeFailed (id : string) | NormalizeIdentity (id : string)
  | NormalizedInvalid (e : PlanError)
  | PendingAddFailed (id : string) | DiscardFailed (id : string) | PendingRemoveFailed (id : string)
  | AddFailed (id : string) | RoutesFailed | RouteFailed (client : string)
  | DrainFailed (id : string) | RemoveFailed (id : string) | PersistFailed
  | FlowControlUnavailable | SnapshotUnavailable | InvalidPersistedSource | CompletionNotPersisted
  | ResetPending.

(** ** The reconciler *)

Record Gateway := {
  applied : AppliedPlan;
  runtimeOutbounds : gmap string Outbound;
  pendingAdds : gmap string Outbound;
  pendingRemoves : gmap string Outbound;
  runtimeReady : bool;
  recoveryRequired : bool;
  disk : option AppliedPlan;
  trace : list Event
}.

#[export] Instance Gateway_eta : Eta Gateway := fun g =>
  Build_Gateway (applied g) (runtimeOutbounds g) (pendingAdds g) (pendingRemoves g)
    (runtimeReady g) (recoveryRequired g) (disk g) (trace g).

(** The state file is read once; a plan that was applied before has to be
    recovered before another is. *)
Definition NewReconciler (file : option AppliedPlan) : Gateway :=
  let applied_ := default zero_applied file in
  {| applied := applied_; runtimeOutbounds := ∅; pendingAdds := ∅; pendingRemoves := ∅;
     runtimeReady := false;
     recoveryRequired := 0 <? Generation (plan applied_);
     disk := file; trace := [] |}.

Definition Op (A : Type) : Type := Prog Gateway ApplyError A.

Definition record_event (e : Event) (g : Gateway) : Gateway := g <| trace := trace g ++ [e] |>.

(** A call with a yes-or-no answer. *)
Definition call (ok : list Event -> bool) (event : bool -> Event) : Op bool := fun g =>
  let b := ok (trace g) in (inr b, record_event (event b) g).

Section Calls.
Context (env : Env).

Definition AddOutbound (o : Outbound) : Op bool := call (fun t => add_ok env t o) (EvAdd o).
Definition RemoveOutbound (id : string) : Op bool :=
  call (fun t => remove_ok env t id) (EvRemove id).
Definition DrainOutbound (id : string) : Op bool :=
  call (fun t => drain_ok env t id) (EvDrain id).
Definition RouteClient (r : ClientRoute) : Op bool := call (fun t => route_ok env t r) (EvRoute r).
Definition ReplaceRoutes (rs : list ClientRoute) : Op bool :=
  call (fun t => routes_ok env t rs) (EvReplace rs).
Definition ReplaceRoutesStaged (previous rs affected : list ClientRoute) : Op bool :=
  call (fun t => routes_ok env t rs) (EvReplaceStaged previous rs affected).

Definition NormalizeOutbound (o : Outbound) : Op (option Outbound) := fun g =>
  let reply := normalize env (trace g) o in (inr reply, record_event (EvNormalize o reply) g).
Definition FlowSnapshot : Op (option Snapshot) := fun g =>
  let reply := snapshot env (trace g) in (inr reply, record_event (EvSnapshot reply) g).
Definition ResetFlow (q : ResetRequest) : Op ResetOutcome := fun g =>
  let reply := reset env (trace g) q in (inr reply, record_event (EvReset q reply) g).
Definition contextCancelled : Op bool := fun g => (inr (cancelled env (trace g)), g).

(** [writeAppliedPlan]: whether it returned without an error. *)
Definition writeAppliedPlan (a : AppliedPlan) : Op bool := fun g =>
  let reply := write env (trace g) a in
  let g := record_event (EvWrite a reply) g in
  match reply with
  | Written => (inr true, g <| disk := Some a |>)
  | Unsynced => (inr false, g <| disk := Some a |>)
  | NotWritten => (inr false, g)
  end.

Definition require (m : Op bool) (e : ApplyError) : Op unit :=
  ok <- m ;; if ok then ret tt else raise e.
End Calls.

(** ** Sample environments *)

Definition sample_token : Snapshot :=
  {| Instance_ := "0123456789abcdef0123456789abcdef"; BeforeID := 7; Active := 1 |}.

(** Every call succeeds, except those that [broken] names by their position. *)
Definition sample_env (broken : nat -> bool) : Env :=
  let ok {A : Type} (t : list Event) (_ : A) := negb (broken (length t)) in
  {| route_mode := Staged; normalizes := true; flow_control := true;
     add_ok := ok; route_ok := ok; routes_ok := ok; drain_ok := ok; remove_ok := ok;
     normalize := fun _ o => Some o; cancelled := fun _ => false;
     snapshot := fun _ => Some sample_token; reset := fun _ _ => FlowsClosed 1;
     write := fun _ _ => Written |}.

Definition reliable : Env := sample_env (fun _ => false).
