(* ===== verification/FlowRecovery.v ===== *)
(** Flow recovery (internal/dataplane/flow_recovery.go): after a confirmed
    failure the connections of a client that still use the failed outbound are
    reset, each scope once, with a token that is persisted before it is used. *)
From Stdlib Require Import Ascii String.
From S2P Require Import Prelude Effects GoOrder GoNet DataPlan DataChange FlowRegistry Gateway.

#[local] Open Scope Z_scope.
#[local] Open Scope effect_scope.

Definition flowRecoveryBatch : nat := 4.
Definition maxPendingFlowRecoveries : Z := 2048.

(** ** Scopes *)

Definition zero_instance : string := "00000000000000000000000000000000".

(** A TCP route of the client and source of [q]. *)
Definition routes_scope (q : FlowRecovery) (route : ClientRoute) : bool :=
  str_eqb (ClientID route) (fr_ClientID q) && str_eqb (SourceCIDR route) (fr_SourceCIDR q) &&
  negb (BlockTCP route) && negb (str_eqb (TCPOutbound route) EmptyString).

(** The single address of a scope's source. *)
Definition scope_address (q : FlowRecovery) : option Addr4 :=
  match parse_prefix4 (fr_SourceCIDR q) with
  | Some p => if is_single_ip p then Some (prefix_addr p) else None
  | None => None
  end.

Fixpoint recovery_loop (plan : DesiredPlan) (seen : gset string) (recoveries : list FlowRecovery) :
    option RecoveryError :=
  match recoveries with
  | [] => None
  | q :: rest =>
      match parse_prefix4 (fr_SourceCIDR q) with
      | None => Some InvalidSource
      | Some p =>
          if negb (is_single_ip p) || negb (str_eqb (prefix_string p) (fr_SourceCIDR q))
          then Some InvalidSource
          else if negb (valid_request
                    {| rr_Snapshot := {| Instance_ := zero_instance; BeforeID := 0; Active := 0 |};
                       rr_Outbound := FailedOutbound q;
                       rr_Source := addr_string (prefix_addr p) |})
          then Some InvalidScope
          else if bool_decide (fr_ClientID q ∈ seen) ||
                  str_eqb (FailedOutbound q) (ReplacementOutbound q)
          then Some DuplicateScope
          else if existsb (fun route => routes_scope q route &&
                             str_eqb (TCPOutbound route) (ReplacementOutbound q)) (Clients plan)
          then recovery_loop plan ({[fr_ClientID q]} ∪ seen) rest
          else Some NoReplacementRoute
      end
  end.

Definition ValidateFlowRecoveries (plan : DesiredPlan) (recoveries : list FlowRecovery) :
    option RecoveryError :=
  if (length (Clients plan) <? length recoveries)%nat then Some TooManyScopes
  else recovery_loop plan ∅ recoveries.

(** Scopes whose failed outbound the previous plan still served; one that it no
    longer served is dropped, one that it did not know is an error. *)
Fixpoint currentFlowRecoveries (previous : DesiredPlan) (recoveries : list FlowRecovery) :
    RecoveryError + list FlowRecovery :=
  match recoveries with
  | [] => inr []
  | q :: rest =>
      match List.find (routes_scope q) (Clients previous) with
      | None => inl NoPreviousRoute
      | Some route =>
          match currentFlowRecoveries previous rest with
          | inl e => inl e
          | inr current =>
              inr (if str_eqb (TCPOutbound route) (FailedOutbound q)
                   then q :: current else current)
          end
      end
  end.

Definition recoveryStillApplicable (plan : DesiredPlan) (q : FlowRecovery) : bool :=
  match List.find (fun route => str_eqb (ClientID route) (fr_ClientID q)) (Clients plan) with
  | Some route =>
      str_eqb (SourceCIDR route) (fr_SourceCIDR q) && negb (BlockTCP route) &&
      negb (str_eqb (TCPOutbound route) EmptyString) &&
      negb (str_eqb (TCPOutbound route) (FailedOutbound q))
  | None => false
  end.

Definition recovery_key (q : FlowRecovery) : string :=
  (fr_ClientID q ++ String (ascii_of_N 0) (FailedOutbound q))%string.

Definition still_pending (plan : DesiredPlan) (jobs : list PendingFlowRecovery) :
    list PendingFlowRecovery :=
  List.filter (fun job => recoveryStillApplicable plan (Recovery job)) jobs.

(** Queueing one new scope. *)
Definition queue_recovery (token : option Snapshot)
    (acc : list PendingFlowRecovery * gset string) (q : FlowRecovery) :
    list PendingFlowRecovery * gset string :=
  let '(pending, seen) := acc in
  if bool_decide (recovery_key q ∈ seen) then acc
  else if maxPendingFlowRecoveries <=? Z.of_nat (length pending) then acc
  else (pending ++ [{| Recovery := q; pf_Snapshot := token |}], {[recovery_key q]} ∪ seen).

Definition prepareFlowRecoveriesLocked (env : Env) (desired : DesiredPlan)
    (recoveries : list FlowRecovery) (rehydrating : bool) : Op (list PendingFlowRecovery) :=
  applied_ <- get applied ;;
  let pending := still_pending desired (PendingFlowRecoveries applied_) in
  if rehydrating || (Generation desired <=? Generation (plan applied_)) then ret pending
  else
    token <- (if flow_control env && negb (bool_decide (recoveries = []))
              then FlowSnapshot env else ret None) ;;
    let seen : gset string := list_to_set (map (fun job => recovery_key (Recovery job)) pending) in
    ret (fold_left (queue_recovery token) recoveries (pending, seen)).1.

(** ** The maintenance pass *)

(** The batch with its tokens: one snapshot is taken if any is missing. *)
Fixpoint with_tokens (env : Env) (captured : option Snapshot) (batch : list PendingFlowRecovery) :
    Op (list (FlowRecovery * Snapshot)) :=
  match batch with
  | [] => ret []
  | job :: rest =>
      match pf_Snapshot job with
      | Some token =>
          jobs <- with_tokens env captured rest ;; ret ((Recovery job, token) :: jobs)
      | None =>
          match captured with
          | Some token =>
              jobs <- with_tokens env captured rest ;; ret ((Recovery job, token) :: jobs)
          | None =>
              reply <- FlowSnapshot env ;;
              match reply with
              | None => raise SnapshotUnavailable
              | Some token =>
                  jobs <- with_tokens env (Some token) rest ;;
                  ret ((Recovery job, token) :: jobs)
              end
          end
      end
  end.

Definition tokened (job : FlowRecovery * Snapshot) : PendingFlowRecovery :=
  {| Recovery := job.1; pf_Snapshot := Some job.2 |}.

(** One reset: whether the job is done. *)
Definition reset_job (env : Env) (job : FlowRecovery * Snapshot) : Op bool :=
  match scope_address job.1 with
  | None => raise InvalidPersistedSource
  | Some address =>
      reply <- ResetFlow env {| rr_Snapshot := job.2; rr_Outbound := FailedOutbound job.1;
                                rr_Source := addr_string address |} ;;
      ret (match reply with FlowsFailed => false | FlowsClosed _ | FlowsStale => true end)
  end.

(** Whether the job stays pending. *)
Definition reset_one (env : Env) (job : FlowRecovery * Snapshot) : Op bool :=
  finished <- reset_job env job ;; ret (negb finished).

Definition persist (env : Env) (next : AppliedPlan) (e : ApplyError) : Op unit :=
  require (writeAppliedPlan env next) e ;;;
  modify (fun g => g <| applied := next |>).

Definition retryFlowRecoveriesLocked (env : Env) : Op unit :=
  applied_ <- get applied ;;
  if bool_decide (PendingFlowRecoveries applied_ = []) then ret tt
  else if negb (flow_control env) then raise FlowControlUnavailable
  else
    let pending := still_pending (plan applied_) (PendingFlowRecoveries applied_) in
    jobs <- with_tokens env None (take flowRecoveryBatch pending) ;;
    let later := drop flowRecoveryBatch pending in
    let next := applied_ <| PendingFlowRecoveries := map tokened jobs ++ later |> in
    persist env next PersistFailed ;;;
    failed <- filterM (reset_one env) jobs ;;
    persist env (next <| PendingFlowRecoveries := later ++ map tokened failed |>)
      CompletionNotPersisted ;;;
    (if bool_decide (failed = []) then ret tt else raise ResetPending).

(** [RetryFlowRecoveries]. *)
Definition RetryFlowRecoveries (env : Env) : Op unit :=
  ready <- get runtimeReady ;;
  recovering <- get recoveryRequired ;;
  if negb ready || recovering then raise RuntimeRecovering
  else retryFlowRecoveriesLocked env.

(** ** What a pass does *)

Definition keeps_token (job : PendingFlowRecovery) (tokened : FlowRecovery * Snapshot) : Prop :=
  tokened.1 = Recovery job /\ forall t, pf_Snapshot job = Some t -> tokened.2 = t.

Definition is_snapshot (e : Event) : Prop := match e with EvSnapshot _ => True | _ => False end.

Lemma with_tokens_spec env captured batch g :
  let '(r, g') := with_tokens env captured batch g in
  applied g' = applied g /\
  (exists snaps, trace g' = trace g ++ snaps /\ Forall is_snapshot snaps) /\
  forall jobs, r = inr jobs -> Forall2 keeps_token batch jobs.
Proof.
  revert captured g. induction batch as [|job rest IH]; intros captured g; cbn [with_tokens].
  { split_and!; [done|exists []; by rewrite app_nil_r|]. intros jobs [= <-]. constructor. }
  assert (forall token c g1, (forall t, pf_Snapshot job = Some t -> token = t) ->
    let '(r, g') := (jobs <- with_tokens env c rest ;; ret ((Recovery job, token) :: jobs)) g1 in
    applied g' = applied g1 /\
    (exists snaps, trace g' = trace g1 ++ snaps /\ Forall is_snapshot snaps) /\
    forall jobs, r = inr jobs -> Forall2 keeps_token (job :: rest) jobs) as Hstep.
  { intros token c g1 Ht. specialize (IH c g1). unfold bind.
    destruct (with_tokens env c rest g1) as [[e|jobs] g2]; destruct IH as (H1 & H2 & H3);
      split_and!; try done. intros jobs' [= <-]. constructor; [by split|by apply H3]. }
  destruct (pf_Snapshot job) as [token|]; [apply Hstep; congruence|].
  destruct captured as [token|]; [by apply Hstep|].
  unfold FlowSnapshot. unfold bind at 1. destruct (snapshot env (trace g)) as [token|].
  - set (g1 := record_event _ g). specialize (Hstep token (Some token) g1 ltac:(done)).
    match goal with |- let '(r, g') := ?x in _ => destruct x as [r g2] end.
    destruct Hstep as (H1 & (snaps & H2 & H3) & H4). split_and!; [done| |done].
    exists (EvSnapshot (Some token) :: snaps). rewrite H2. unfold g1. simpl.
    rewrite <- app_assoc. split; [done|by constructor].
  - split_and!; [done| |done]. exists [EvSnapshot None]. split; [done|by repeat constructor].
Qed.

Definition reset_request (job : FlowRecovery * Snapshot) (address : Addr4) : ResetRequest :=
  {| rr_Snapshot := job.2; rr_Outbound := FailedOutbound job.1;
     rr_Source := addr_string address |}.

(** A reset of [job] with [reply]. *)
Definition resets (job : FlowRecovery * Snapshot) (reply : ResetOutcome) (e : Event) : Prop :=
  exists address, scope_address job.1 = Some address /\
    e = EvReset (reset_request job address) reply.

Definition reset_all (env : Env) (jobs : list (FlowRecovery * Snapshot)) :
    Op (list (FlowRecovery * Snapshot)) :=
  filterM (fun job => finished <- reset_job env job ;; ret (negb finished)) jobs.

Lemma reset_one_spec env job g :
  let '(r, g') := reset_one env job g in
  applied g' = applied g /\
  ((exists e, r = inl e /\ trace g' = trace g) \/
   (exists b reply event, r = inr b /\ trace g' = trace g ++ [event] /\ resets job reply event /\
      (b = false -> reply <> FlowsFailed))).
Proof.
  unfold reset_one, reset_job, bind, raise, ret.
  destruct (scope_address job.1) as [address|] eqn:Ea; [|split; [done|left; eauto]].
  unfold ResetFlow. set (reply := reset env _ _). split; [done|]. right.
  exists (negb match reply with FlowsFailed => false | _ => true end), reply,
    (EvReset (reset_request job address) reply).
  split_and!; [done|done|by exists address|]. by destruct reply.
Qed.

Lemma reset_all_spec env jobs g :
  let '(r, g') := filterM (reset_one env) jobs g in
  applied g' = applied g /\
  exists evs, trace g' = trace g ++ evs /\ (length evs <= length jobs)%nat /\
    (forall e, In e evs -> exists job reply, In job jobs /\ resets job reply e) /\
    (forall failed, r = inr failed -> forall job, In job jobs ->
       In job failed \/
       exists reply e, In e evs /\ resets job reply e /\ reply <> FlowsFailed).
Proof.
  revert g. induction jobs as [|job jobs IH]; intros g; cbn [filterM].
  { split; [done|]. exists []. rewrite app_nil_r. split_and!; [done|done|done|].
    intros failed _ job []. }
  unfold bind at 1. pose proof (reset_one_spec env job g) as Hone.
  destruct (reset_one env job g) as [r1 g1].
  destruct Hone as [Ha [(e & -> & Ht)|(b & reply & event & -> & Ht & Hr & Hb)]].
  { split; [done|]. exists []. rewrite app_nil_r. split_and!; [done|simpl; lia|done|done]. }
  unfold bind. specialize (IH g1). destruct (filterM (reset_one env) jobs g1) as [r2 g2].
  destruct IH as (H1 & evs & H2 & H3 & H4 & H5).
  assert (forall r : ApplyError + list (FlowRecovery * Snapshot),
    (forall failed, r = inr failed -> exists failed', r2 = inr failed' /\
       failed = (if b : bool then job :: failed' else failed')) ->
    applied g2 = applied g /\
    exists evs, trace g2 = trace g ++ evs /\ (length evs <= length (job :: jobs))%nat /\
      (forall e, In e evs -> exists j reply, In j (job :: jobs) /\ resets j reply e) /\
      (forall failed : list (FlowRecovery * Snapshot), r = inr failed ->
         forall j, In j (job :: jobs) -> In j failed \/
         exists reply e, In e evs /\ resets j reply e /\ reply <> FlowsFailed)) as Hdone.
  { intros r Hf. split; [congruence|]. exists (event :: evs).
    rewrite H2, Ht, <- app_assoc. simpl. split_and!; [done|lia| |].
    - intros e [<-|He]; [eauto 10|]. destruct (H4 e He) as (j & p & Hj & ?). eauto 10.
    - intros failed Hr2 j [<-|Hj].
      + destruct (Hf failed Hr2) as (failed' & _ & ->). destruct b; [left; by left|].
        right. exists reply, event. auto 10.
      + destruct (Hf failed Hr2) as (failed' & Er & ->).
        destruct (H5 failed' Er j Hj) as [Hin|(p & e & He & ?)].
        * left. destruct b; [by right|done].
        * right. exists p, e. auto 10. }
  destruct r2 as [e|rest]; apply Hdone; [done|]. unfold ret. intros failed [= <-]. eauto.
Qed.

Lemma persist_cases env next e g :
  persist env next e g =
  match write env (trace g) next with
  | Written => (inr tt, record_event (EvWrite next Written) g <| disk := Some next |>
                          <| applied := next |>)
  | NotWritten => (inl e, record_event (EvWrite next NotWritten) g)
  | Unsynced => (inl e, record_event (EvWrite next Unsynced) g <| disk := Some next |>)
  end.
Proof.
  unfold persist, require, writeAppliedPlan, bind, modify, ret, raise.
  by destruct (write env (trace g) next).
Qed.

Definition is_reset (e : Event) : bool := match e with EvReset _ _ => true | _ => false end.

(** [covers a q]: the plan [a] records a pending recovery with the token, the
    outbound and the source of [q], whose client no longer uses that outbound. *)
Definition covers (a : AppliedPlan) (q : ResetRequest) : Prop := exists job address,
  In job (PendingFlowRecoveries a) /\ pf_Snapshot job = Some (rr_Snapshot q) /\
  FailedOutbound (Recovery job) = rr_Outbound q /\
  scope_address (Recovery job) = Some address /\ rr_Source q = addr_string address /\
  recoveryStillApplicable (plan a) (Recovery job) = true.

Lemma count_none (evs : list Event) :
  (forall e, In e evs -> is_reset e = false) -> List.filter is_reset evs = [].
Proof. intros He. by apply filter_none. Qed.

Lemma still_pending_In p jobs job :
  In job (still_pending p jobs) <->
  In job jobs /\ recoveryStillApplicable p (Recovery job) = true.
Proof. apply filter_In. Qed.

Lemma take_drop_In {A : Type} n (l : list A) x : In x l <-> In x (take n l) \/ In x (drop n l).
Proof. by rewrite <- in_app_iff, take_drop. Qed.

(** What a pass with its two records looks like, from [g] to [g']. *)
Definition pass_shape (g g' : Gateway) : Prop :=
  let pending := still_pending (plan (applied g)) (PendingFlowRecoveries (applied g)) in
  exists snaps, Forall is_snapshot snaps /\
  ((applied g' = applied g /\ exists writes, trace g' = trace g ++ snaps ++ writes /\
      (writes = [] \/ exists a reply, writes = [EvWrite a reply])) \/
   exists jobs next evs writes,
     Forall2 keeps_token (take flowRecoveryBatch pending) jobs /\
     next = (applied g) <| PendingFlowRecoveries :=
       map tokened jobs ++ drop flowRecoveryBatch pending |> /\
     trace g' = trace g ++ snaps ++ [EvWrite next Written] ++ evs ++ writes /\
     (writes = [] \/ exists a reply, writes = [EvWrite a reply]) /\
     (length evs <= length jobs)%nat /\
     (forall e, In e evs -> exists job reply, In job jobs /\ resets job reply e) /\
     (applied g' = next \/
      exists failed, applied g' = next <| PendingFlowRecoveries :=
          drop flowRecoveryBatch pending ++ map tokened failed |> /\
        forall job, In job jobs -> In job failed \/
          exists reply e, In e evs /\ resets job reply e /\ reply <> FlowsFailed)).

Lemma shape_idle g : pass_shape g g.
Proof.
  exists []. split; [constructor|]. left. split; [done|]. exists []. rewrite !app_nil_r. auto.
Qed.

Lemma retry_shape env g : pass_shape g (retryFlowRecoveriesLocked env g).2.
Proof.
  unfold retryFlowRecoveriesLocked. unfold bind at 1, get at 1.
  destruct (bool_decide _); [apply shape_idle|].
  destruct (negb (flow_control env)); [apply shape_idle|].
  cbv zeta. set (pending := still_pending _ _). unfold bind at 1.
  pose proof (with_tokens_spec env None (take flowRecoveryBatch pending) g) as Hw.
  destruct (with_tokens env None (take flowRecoveryBatch pending) g) as [r g1].
  destruct Hw as (H1 & (snaps & H2 & H3) & H4).
  destruct r as [e|jobs].
  { exists snaps. split; [done|]. left. split; [done|]. exists []. rewrite app_nil_r. auto. }
  specialize (H4 jobs eq_refl).
  set (next := (applied g) <| PendingFlowRecoveries := _ |>).
  unfold bind at 1. rewrite persist_cases.
  assert (forall w reply, w = record_event (EvWrite next reply) g1 \/
    w = record_event (EvWrite next reply) g1 <| disk := Some next |> ->
    pass_shape g w) as Hfail.
  { intros w reply Hw. exists snaps. split; [done|]. left. assert (applied w = applied g1 /\ trace w = trace g1 ++ [EvWrite next reply])
      as [Ew Et] by (by destruct Hw as [-> | ->]). split; [congruence|].
    exists [EvWrite next reply]. rewrite Et, H2, <- app_assoc. split; [done|]. right. eauto. }
  destruct (write env (trace g1) next); [|apply (Hfail _ NotWritten); by left
    |apply (Hfail _ Unsynced); by right].
  set (g2 := record_event _ (_ <| applied := next |>)). unfold bind at 1.
  pose proof (reset_all_spec env jobs g2) as Hr.
  destruct (filterM (reset_one env) jobs g2) as [r g3].
  destruct Hr as (H5 & evs & H6 & H7 & H8 & H9).
  assert (trace g3 = trace g ++ snaps ++ [EvWrite next Written] ++ evs) as Ht.
  { rewrite H6. unfold g2. simpl. rewrite H2, <- !app_assoc. done. }
  destruct r as [e|failed].
  { exists snaps. split; [done|]. right. exists jobs, next, evs, []. rewrite app_nil_r.
    split_and!; auto. }
  unfold bind at 1. rewrite persist_cases. set (last := next <| PendingFlowRecoveries := _ |>).
  assert (forall w reply, trace w = trace g3 ++ [EvWrite last reply] ->
    applied w = next \/ applied w = last -> pass_shape g w) as Hdone.
  { intros w reply Hw Hap. exists snaps. split; [done|]. right.
    exists jobs, next, evs, [EvWrite last reply]. rewrite Hw, Ht, <- !app_assoc.
    split_and!; eauto 10. destruct Hap as [?|Hap]; [by left|right]. exists failed. eauto. }
  destruct (write env (trace g3) last); cbn beta iota.
  - assert (forall q : Op unit, q = ret tt \/ q = raise ResetPending ->
      forall w, (q w).2 = w) as Hq by (by intros q [-> | ->]).
    rewrite Hq by (case_if; auto). apply (Hdone _ Written); [done|by right].
  - apply (Hdone _ NotWritten); [done|by left].
  - apply (Hdone _ Unsynced); [done|by left].
Qed.

(** ** Resets are durable, and no recovery is lost *)

Lemma jobs_covered g jobs next job address :
  let pending := still_pending (plan (applied g)) (PendingFlowRecoveries (applied g)) in
  Forall2 keeps_token (take flowRecoveryBatch pending) jobs ->
  next = (applied g) <| PendingFlowRecoveries :=
    map tokened jobs ++ drop flowRecoveryBatch pending |> ->
  In job jobs -> scope_address job.1 = Some address -> covers next (reset_request job address).
Proof.
  intros pending Hk -> Hj Ha. exists (tokened job), address. simpl.
  split_and!; try done; [apply in_or_app; left; by apply in_map|].
  destruct (Forall2_In_r _ _ _ _ Hk Hj) as (p & Hp & -> & _).
  refine (proj2 (proj1 (still_pending_In _ _ _) _)).
  apply (take_drop_In flowRecoveryBatch). by left.
Qed.

Lemma is_reset_In evs q reply snaps w rest :
  Forall is_snapshot snaps -> is_reset w = false -> snaps ++ w :: rest = evs ->
  forall before after, evs = before ++ EvReset q reply :: after ->
  In w before /\ In (EvReset q reply) rest.
Proof.
  intros Hs Hw. revert evs. induction Hs as [|s snaps Hs Hall IH]; intros evs <- before after Heq.
  - destruct before as [|b before]; simplify_eq/=. split; [by left|].
    apply in_or_app. right. by left.
  - destruct before as [|b before]; simplify_eq/=; [done|].
    destruct (IH _ eq_refl before after) as [? ?]; [done|]. split; [by right|done].
Qed.

Lemma count_resets_app l k : length (List.filter is_reset (l ++ k)) =
  (length (List.filter is_reset l) + length (List.filter is_reset k))%nat.
Proof. by rewrite List.filter_app, length_app. Qed.

Lemma no_resets_in_snapshots snaps : Forall is_snapshot snaps -> List.filter is_reset snaps = [].
Proof. induction 1 as [|[] ? ? ? IH]; done. Qed.

Lemma filter_at_most {A} (p : A -> bool) l : (length (List.filter p l) <= length l)%nat.
Proof. induction l as [|x l IH]; simpl; [done|]. destruct (p x); simpl; lia. Qed.

Definition one_write (writes : list Event) : Prop :=
  writes = [] \/ exists a reply, writes = [EvWrite a reply].

Lemma one_write_no_reset writes : one_write writes -> List.filter is_reset writes = [].
Proof. by intros [->|(a & reply & ->)]. Qed.

(** C33. A maintenance pass resets at most four scopes, and every reset it asks for is durable
    first: before the request goes out, an applied-plan record with the
    unchanged plan has been written without an error, and it holds a pending
    recovery with this very token, outbound and source whose client no longer
    uses that outbound. A crash at any point therefore leaves a token with
    which the reset can be repeated. *)
Theorem resets_are_durable (env : Env) (g : Gateway) :
  let g' := (retryFlowRecoveriesLocked env g).2 in
  exists evs, trace g' = trace g ++ evs /\
  (length (List.filter is_reset evs) <= flowRecoveryBatch)%nat /\
  forall before q reply after, evs = before ++ EvReset q reply :: after ->
  exists a, In (EvWrite a Written) before /\ plan a = plan (applied g) /\ covers a q.
Proof.
  intros g'. destruct (retry_shape env g) as (snaps & Hs & [(_ & writes & Ht & Hw)|H]).
  - exists (snaps ++ writes). split; [done|].
    assert (List.filter is_reset (snaps ++ writes) = []) as Hnone
      by by rewrite List.filter_app, (no_resets_in_snapshots snaps Hs), (one_write_no_reset _ Hw).
    rewrite Hnone. split; [simpl; lia|]. intros before q reply after Heq. exfalso.
    rewrite Heq, List.filter_app in Hnone. by apply app_eq_nil in Hnone as [_ ?].
  - destruct H as (jobs & next & evs & writes & Hk & Hn & Ht & Hw & Hlen & Hev & _).
    exists (snaps ++ [EvWrite next Written] ++ evs ++ writes). split; [done|]. split.
    + rewrite !count_resets_app, (no_resets_in_snapshots snaps Hs), (one_write_no_reset _ Hw).
      pose proof (filter_at_most is_reset evs). apply Forall2_length in Hk.
      rewrite length_take in Hk. simpl. lia.
    + intros before q reply after Heq.
      destruct (is_reset_In _ q reply snaps (EvWrite next Written) (evs ++ writes) Hs eq_refl
        eq_refl before after Heq) as [Hb Hin].
      exists next. split_and!; [done|by rewrite Hn|].
      apply in_app_or in Hin as [Hin|Hin].
      * destruct (Hev _ Hin) as (job & reply' & Hj & address & Ha & [= -> Hr]).
        by eapply jobs_covered.
      * exfalso. destruct Hw as [->|(a & r & ->)]; [done|]. by destruct Hin as [Hin|[]].
Qed.

(** [job'] is [job], with its token if it had one. *)
Definition same_job (job job' : PendingFlowRecovery) : Prop :=
  Recovery job' = Recovery job /\
  forall t, pf_Snapshot job = Some t -> pf_Snapshot job' = Some t.

(** [q] asks for the reset of [job]. *)
Definition asks_for (job : PendingFlowRecovery) (q : ResetRequest) : Prop :=
  rr_Outbound q = FailedOutbound (Recovery job) /\
  (forall t, pf_Snapshot job = Some t -> rr_Snapshot q = t) /\
  exists address, scope_address (Recovery job) = Some address /\ rr_Source q = addr_string address.

Lemma asks_for_reset job tok address :
  keeps_token job tok -> scope_address tok.1 = Some address ->
  asks_for job (reset_request tok address).
Proof.
  intros [Hr Ht] Ha. split_and!; simpl; [by rewrite Hr|done|].
  exists address. by rewrite <- Hr.
Qed.

Lemma same_job_tokened job tok : keeps_token job tok -> same_job job (tokened tok).
Proof. intros [Hr Ht]. split; [done|]. intros t Hj. simpl. by rewrite (Ht t Hj). Qed.

Lemma kept_in_pass job jobs pending :
  Forall2 keeps_token (take flowRecoveryBatch pending) jobs ->
  In job pending ->
  (exists tok, In tok jobs /\ keeps_token job tok) \/ In job (drop flowRecoveryBatch pending).
Proof.
  intros Hk Hj. apply (take_drop_In flowRecoveryBatch) in Hj as [Hj|Hj]; [left|by right].
  destruct (Forall2_In_l _ _ _ _ Hk Hj) as (tok & ? & ?). eauto.
Qed.

(** No pending recovery is lost: after a maintenance pass, however its
    writes, snapshots and resets turned out, a recovery that was pending and
    whose client still does not use the failed outbound is either still pending
    in the applied record, with the token it had, or the pass asked for its
    reset and the runtime answered that the connections are closed or that the
    token is from an earlier instance. *)
Theorem recovery_answered_or_kept (env : Env) (g : Gateway) (job : PendingFlowRecovery)
    (Hpending : In job (PendingFlowRecoveries (applied g)))
    (Happlicable : recoveryStillApplicable (plan (applied g)) (Recovery job) = true) :
  let g' := (retryFlowRecoveriesLocked env g).2 in
  (exists job', In job' (PendingFlowRecoveries (applied g')) /\ same_job job job') \/
  (exists evs q reply, trace g' = trace g ++ evs /\ In (EvReset q reply) evs /\
     asks_for job q /\ reply <> FlowsFailed).
Proof.
  intros g'. assert (In job (still_pending (plan (applied g)) (PendingFlowRecoveries (applied g))))
    as Hj by by apply still_pending_In.
  assert (same_job job job) as Hself by done.
  destruct (retry_shape env g) as (snaps & Hs & [(Ha & _)|H]).
  { left. exists job. by rewrite <- Ha in Hpending. }
  destruct H as (jobs & next & evs & writes & Hk & Hn & Ht & _ & _ & _ & Hap).
  destruct (kept_in_pass _ _ _ Hk Hj) as [(tok & Htok & Hkeep)|Hdrop].
  - destruct Hap as [Hap|(failed & Hap & Hf)].
    + left. exists (tokened tok). split; [|by apply same_job_tokened].
      fold g' in Hap. rewrite Hap, Hn. apply in_or_app. left. by apply in_map.
    + fold g' in Hap. destruct (Hf tok Htok) as [Hin|(reply & e & He & (address & Had & ->) & Hne)].
      * left. exists (tokened tok). split; [|by apply same_job_tokened].
        rewrite Hap. apply in_or_app. right. by apply in_map.
      * right. exists (snaps ++ [EvWrite next Written] ++ evs ++ writes),
          (reset_request tok address), reply.
        split_and!; [done| |by apply asks_for_reset|done].
        rewrite !in_app_iff. right. right. by left.
  - left. exists job. split; [|done]. fold g' in Hap.
    destruct Hap as [Hap|(failed & Hap & _)]; rewrite Hap, ?Hn;
      apply in_or_app; [by right|by left].
Qed.

(** ** What is queued *)

Definition job_key (job : PendingFlowRecovery) : string := recovery_key (Recovery job).

Definition full (jobs : list PendingFlowRecovery) : Prop :=
  maxPendingFlowRecoveries <= Z.of_nat (length jobs).

(** [added] is what the fresh scopes add to the [kept] ones, with [token]. *)
Record queued (token : option Snapshot) (recoveries : list FlowRecovery)
    (kept added : list PendingFlowRecovery) : Prop := {
  queued_from : Forall (fun job => In (Recovery job) recoveries /\ pf_Snapshot job = token) added;
  queued_fresh : NoDup (map job_key added) /\
    forall job, In job added -> job_key job ∉ map job_key kept;
  queued_bound : added = [] \/ Z.of_nat (length (kept ++ added)) <= maxPendingFlowRecoveries;
  queued_all : forall q, In q recoveries ->
    recovery_key q ∈ map job_key (kept ++ added) \/ full (kept ++ added)
}.

Lemma queue_recovery_fold token kept recoveries :
  let '(pending, seen) := fold_left (queue_recovery token) recoveries
    (kept, list_to_set (map job_key kept) : gset string) in
  exists added, pending = kept ++ added /\
    (forall k, k ∈ seen <-> k ∈ map job_key pending) /\ queued token recoveries kept added.
Proof.
  induction recoveries as [|q recoveries IH] using rev_ind.
  { exists []. rewrite app_nil_r. split_and!; [done|intros k; apply elem_of_list_to_set|].
    split; [constructor|split; [constructor|done]|by left|done]. }
  rewrite fold_left_app. simpl.
  destruct (fold_left _ recoveries _) as [pending seen].
  destruct IH as (added & -> & Hseen & Hq). unfold queue_recovery. simpl.
  assert (forall p, recovery_key q ∈ map job_key p \/ full p -> p = kept ++ added ->
    queued token (recoveries ++ [q]) kept added) as Hsame.
  { intros p Hp ->. split; [|apply Hq|apply Hq|].
    - eapply Forall_impl; [apply Hq|]. intros job [Hin Ht]. split; [apply in_or_app; by left|done].
    - intros q' Hq'. apply in_app_or in Hq' as [Hq'|[<-|[]]]; [by apply Hq|done]. }
  case_bool_decide as Hin.
  { exists added. split_and!; [done|done|]. apply (Hsame (kept ++ added)); [|done].
    left. by apply Hseen. }
  destruct (Z.leb_spec maxPendingFlowRecoveries (Z.of_nat (length (kept ++ added)))) as [Hl|Hl].
  { exists added. split_and!; [done|done|]. apply (Hsame (kept ++ added)); [by right|done]. }
  set (job := {| Recovery := q; pf_Snapshot := token |}).
  exists (added ++ [job]). rewrite <- app_assoc. split_and!; [done| |].
  { intros k. rewrite elem_of_union, elem_of_singleton, Hseen, app_assoc, (map_app _ (kept ++ added)).
    rewrite elem_of_app. simpl. rewrite list_elem_of_singleton. unfold job_key at 3. simpl. tauto. }
  assert (recovery_key q ∉ map job_key (kept ++ added)) as Hfresh by by rewrite <- Hseen.
  rewrite map_app, elem_of_app in Hfresh. destruct Hq as [H1 [H2 H3] H4 H5]. split.
  - apply Forall_app. split; [|constructor; [|constructor]].
    + eapply Forall_impl; [apply H1|]. intros j [? ?]. split; [apply in_or_app; by left|done].
    + split; [apply in_or_app; right; by left|done].
  - split.
    + rewrite map_app. apply NoDup_app. split_and!; [done| |constructor; [set_solver|constructor]].
      intros k Hk. simpl. rewrite list_elem_of_singleton. intros ->.
      apply Hfresh. by right.
    + intros j Hj. apply in_app_or in Hj as [Hj|[<-|[]]]; [by apply H3|].
      intros Hk. apply Hfresh. by left.
  - right. rewrite app_assoc, length_app. simpl. lia.
  - intros q' Hq'. apply in_app_or in Hq' as [Hq'|[<-|[]]].
    + destruct (H5 q' Hq') as [?|Hfull]; [left|unfold full in Hfull; lia].
      rewrite app_assoc, map_app, elem_of_app. by left.
    + left. rewrite app_assoc, map_app, elem_of_app. right. by apply list_elem_of_singleton.
Qed.

(** Queueing recoveries with a plan never fails and leaves the applied record alone: the
    queue keeps, in order, the pending scopes that the desired plan still
    supports, and for a newer plan outside a recovery it appends the fresh
    scopes, all with one connection snapshot taken before the routes change,
    each (client, failed outbound) pair at most once, up to 2048 jobs; every
    scope asked for is then queued unless the queue is full. A rehydration or a
    plan of the same generation appends nothing. *)
Theorem recoveries_are_queued (env : Env) (g : Gateway) (desired : DesiredPlan)
    (recoveries : list FlowRecovery) (rehydrating : bool) :
  let kept := still_pending desired (PendingFlowRecoveries (applied g)) in
  exists token added g',
    prepareFlowRecoveriesLocked env desired recoveries rehydrating g = (inr (kept ++ added), g') /\
    applied g' = applied g /\
    (if rehydrating || (Generation desired <=? Generation (plan (applied g)))
     then added = [] /\ g' = g
     else queued token recoveries kept added /\
       (if flow_control env && negb (bool_decide (recoveries = []))
        then token = snapshot env (trace g) /\ trace g' = trace g ++ [EvSnapshot token]
        else token = None /\ g' = g)).
Proof.
  intros kept. unfold prepareFlowRecoveriesLocked. unfold bind at 1, get at 1. cbv zeta.
  fold kept.
  destruct (rehydrating || _).
  { exists None, [], g. rewrite app_nil_r. done. }
  pose proof (fun token => queue_recovery_fold token kept recoveries) as Hq.
  change (map (fun job => recovery_key (Recovery job)) kept) with (map job_key kept).
  destruct (flow_control env && negb _); unfold bind, FlowSnapshot, ret.
  - specialize (Hq (snapshot env (trace g))).
    destruct (fold_left _ recoveries _) as [pending seen]. destruct Hq as (added & -> & _ & Hq).
    by exists (snapshot env (trace g)), added, (record_event (EvSnapshot (snapshot env (trace g))) g).
  - specialize (Hq None).
    destruct (fold_left _ recoveries _) as [pending seen]. destruct Hq as (added & -> & _ & Hq).
    by exists None, added, g.
Qed.

(** ** A pass that loses a reply *)

Definition sample_recovery (outbound : string) : FlowRecovery :=
  {| fr_ClientID := "alice"; fr_SourceCIDR := "10.44.0.2/32"; FailedOutbound := outbound;
     ReplacementOutbound := "vless-b" |}.
Definition sample_job : PendingFlowRecovery :=
  {| Recovery := sample_recovery "vless-a"; pf_Snapshot := None |}.

(** Plan 2 is applied and serves vless-b; the connections on vless-a are still to be reset. *)
Definition recovering_gateway : Gateway :=
  NewReconciler (Some {| plan := sample_plan 2 "vless-b" "dns-b"; Digest := "digest";
                         PendingFlowRecoveries := [sample_job] |}).

Definition deaf : Env := reliable <| reset := fun _ _ => FlowsFailed |>.

(** The runtime does not answer: the job stays, with its token; once the
    runtime answers, it is done. *)
Lemma recovery_answered_or_kept_witness :
  let g' := (retryFlowRecoveriesLocked deaf recovering_gateway).2 in
  (exists job, PendingFlowRecoveries (applied g') = [job] /\
     pf_Snapshot job = Some sample_token) /\
  ((exists job', In job' (PendingFlowRecoveries (applied g')) /\ same_job sample_job job') \/
   (exists evs q reply, trace g' = trace recovering_gateway ++ evs /\ In (EvReset q reply) evs /\
      asks_for sample_job q /\ reply <> FlowsFailed)) /\
  PendingFlowRecoveries (applied (retryFlowRecoveriesLocked reliable recovering_gateway).2) = [].
Proof.
  split_and!; [eexists; split; vm_compute; reflexivity| |by vm_compute].
  apply (recovery_answered_or_kept deaf recovering_gateway sample_job);
    [by left|by vm_compute].
Defined.
