(* ===== verification/Reconciler.v ===== *)
(** Applying plans to the gateway (internal/dataplane/reconciler.go). *)
From S2P Require Import Prelude Effects GoOrder DataPlan DataChange.
From S2P Require Import FlowRegistry Gateway FlowRecovery.

#[local] Open Scope Z_scope.
#[local] Open Scope effect_scope.

Section Reconcile.
Context `{Json} (env : Env).

(** ** Recovery of a persisted plan *)

Fixpoint normalize_each (outbounds : list Outbound) : Op (list Outbound) :=
  match outbounds with
  | [] => ret []
  | o :: rest =>
      stop <- contextCancelled env ;;
      if stop then raise NormalizeCancelled
      else
        reply <- NormalizeOutbound env o ;;
        match reply with
        | None => raise (NormalizeFailed (ID o))
        | Some item =>
            if negb (str_eqb (ID item) (ID o)) || negb (str_eqb (Protocol item) (Protocol o))
            then raise (NormalizeIdentity (ID o))
            else normalized <- normalize_each rest ;; ret (item :: normalized)
        end
  end.

Definition normalizeRecoveryOutbounds (outbounds : list Outbound) : Op (list Outbound) :=
  if normalizes env then normalize_each outbounds else ret outbounds.

(** ** Outbounds *)

Definition add_pending (o : Outbound) : Op unit :=
  modify (fun g => g <| pendingAdds := <[ID o := o]> (pendingAdds g) |>).
Definition added (o : Outbound) : Op unit :=
  modify (fun g => g <| pendingAdds := delete (ID o) (pendingAdds g) |>
                     <| runtimeOutbounds := <[ID o := o]> (runtimeOutbounds g) |>).

(** An addition whose outcome is not yet known is made certain: removed first,
    then added again. *)
Definition retry_add (o : Outbound) : Op unit :=
  _ <- RemoveOutbound env (ID o) ;;
  ok <- AddOutbound env o ;;
  if negb ok then add_pending o ;;; raise (PendingAddFailed (ID o))
  else added o.

(** One that is no longer wanted is restored and removed. *)
Definition discard_add (o : Outbound) : Op unit :=
  _ <- AddOutbound env o ;;
  ok <- RemoveOutbound env (ID o) ;;
  if negb ok then raise (DiscardFailed (ID o))
  else modify (fun g => g <| pendingAdds := delete (ID o) (pendingAdds g) |>
                          <| runtimeOutbounds := delete (ID o) (runtimeOutbounds g) |>).

Definition retry_remove (o : Outbound) : Op unit :=
  _ <- AddOutbound env o ;;
  ok <- RemoveOutbound env (ID o) ;;
  if negb ok then raise (PendingRemoveFailed (ID o))
  else modify (fun g => g <| pendingRemoves := delete (ID o) (pendingRemoves g) |>
                          <| runtimeOutbounds := delete (ID o) (runtimeOutbounds g) |>).

(** The pending additions that the new plan wants, in its version, and those
    it does not. *)
Definition wanted_adds (desired pending : gmap string Outbound) : list Outbound :=
  omap (fun entry : string * Outbound => desired !! entry.1) (map_to_list pending).
Definition obsolete_adds (desired pending : gmap string Outbound) : list Outbound :=
  map snd (List.filter (fun entry : string * Outbound => negb (bool_decide (is_Some (desired !! entry.1))))
             (map_to_list pending)).

Definition normalizePendingOutboundOperations (desired : gmap string Outbound) : Op unit :=
  adds <- get pendingAdds ;;
  forM (sortedOutboundsForAdd (wanted_adds desired adds)) retry_add ;;;
  forM (sortOutboundsForRemoval (obsolete_adds desired adds)) discard_add ;;;
  removes <- get pendingRemoves ;;
  forM (sortOutboundsForRemoval (map snd (map_to_list removes))) retry_remove.

(** Adding what [current] lacks. *)
Definition add_missing (current : gmap string Outbound) (o : Outbound) : Op unit :=
  if match current !! o.(ID) with
     | Some previous => negb (equalOutbound previous o)
     | None => true
     end
  then
    ok <- AddOutbound env o ;;
    if negb ok then add_pending o ;;; raise (AddFailed (ID o)) else added o
  else ret tt.

(** Replacing the routes, by the means the adapter has. *)
Definition replace_routes (runtimeWasReady : bool) (routes : list ClientRoute)
    (current next : gmap string Outbound) : Op unit :=
  match route_mode env with
  | Staged =>
      applied_ <- get applied ;;
      let previousRoutes :=
        if runtimeWasReady then sortedRoutes (Clients (plan applied_)) else [] in
      let affected := affectedRoutes previousRoutes routes current next in
      require (ReplaceRoutesStaged env previousRoutes routes affected) RoutesFailed
  | Batched => require (ReplaceRoutes env routes) RoutesFailed
  | PerClient => forM routes (fun r => require (RouteClient env r) (RouteFailed (ClientID r)))
  end.

Definition removed_outbounds (current next : gmap string Outbound) : list Outbound :=
  map snd (List.filter (fun entry : string * Outbound =>
    match next !! entry.1 with
    | None => true
    | Some replacement => negb (equalOutbound entry.2 replacement)
    end) (map_to_list current)).

Definition remove_obsolete (o : Outbound) : Op unit :=
  require (DrainOutbound env (ID o)) (DrainFailed (ID o)) ;;;
  ok <- RemoveOutbound env (ID o) ;;
  if negb ok then
    modify (fun g => g <| pendingRemoves := <[ID o := o]> (pendingRemoves g) |>) ;;;
    raise (RemoveFailed (ID o))
  else modify (fun g => g <| pendingRemoves := delete (ID o) (pendingRemoves g) |>
                          <| runtimeOutbounds := delete (ID o) (runtimeOutbounds g) |>).

(** ** Applying a plan *)

Inductive Admission := Noop | Proceed (digest : string) (recoveries : list FlowRecovery).

Definition lift_plan (e : option PlanError) : Op unit :=
  match e with Some e => raise (InvalidPlan e) | None => ret tt end.

(** The checks before anything is touched. *)
Definition admit_plan (desired : DesiredPlan) (recovering : bool)
    (recoveries : list FlowRecovery) : Op Admission :=
  lift_plan (Validate desired) ;;;
  match ValidateFlowRecoveries desired recoveries with
  | Some e => raise (BadRecovery e)
  | None =>
      match digest desired with
      | inl e => raise (InvalidPlan e)
      | inr digest =>
          applied_ <- get applied ;;
          ready <- get runtimeReady ;;
          if Generation desired <? Generation (plan applied_)
          then raise (StaleGeneration (Generation desired))
          else
            let same := Generation desired =? Generation (plan applied_) in
            if same && str_eqb (Digest applied_) digest && ready then ret Noop
            else if same && negb (str_eqb (Digest applied_) digest) then raise ReusedGeneration
            else if negb recovering && (Generation (plan applied_) <? Generation desired)
            then
              match currentFlowRecoveries (plan applied_) recoveries with
              | inl e => raise (BadRecovery e)
              | inr current => ret (Proceed digest current)
              end
            else ret (Proceed digest recoveries)
      end
  end.

(** The outbounds to install: in a recovery, their current runtime form. *)
Definition runtime_outbounds (desired : DesiredPlan) (recovering : bool) : Op (list Outbound) :=
  if recovering then
    runtimeDesired <- normalizeRecoveryOutbounds (Outbounds desired) ;;
    match Validate (desired <| Outbounds := runtimeDesired |>) with
    | Some e => raise (NormalizedInvalid e)
    | None => ret runtimeDesired
    end
  else ret (Outbounds desired).

(** The runtime is brought to the plan: missing outbounds, routes, obsolete
    outbounds, in this order. *)
Definition install (desired : DesiredPlan) (runtimeDesired : list Outbound) : Op unit :=
  let next := outboundsByID runtimeDesired in
  runtime <- get runtimeOutbounds ;;
  lift_plan (validateImmutableOutboundIDs runtime next) ;;;
  runtimeWasReady <- get runtimeReady ;;
  modify (fun g => g <| runtimeReady := false |>) ;;;
  normalizePendingOutboundOperations next ;;;
  current <- get runtimeOutbounds ;;
  forM (sortedOutboundsForAdd runtimeDesired) (add_missing current) ;;;
  replace_routes runtimeWasReady (sortedRoutes (Clients desired)) current next ;;;
  forM (sortOutboundsForRemoval (removed_outbounds current next)) remove_obsolete.

Definition applyLocked (desired : DesiredPlan) (recovering : bool)
    (recoveries : list FlowRecovery) : Op unit :=
  admission <- admit_plan desired recovering recoveries ;;
  match admission with
  | Noop => ignore (retryFlowRecoveriesLocked env)
  | Proceed digest recoveries =>
      pending <- prepareFlowRecoveriesLocked env desired recoveries recovering ;;
      runtimeDesired <- runtime_outbounds desired recovering ;;
      install desired runtimeDesired ;;;
      persist env {| plan := desired; Digest := digest; PendingFlowRecoveries := pending |}
        PersistFailed ;;;
      (if negb recovering then
         modify (fun g => g <| runtimeReady := true |>) ;;;
         ignore (retryFlowRecoveriesLocked env)
       else ret tt)
  end.

(** ** Entry points *)

(** [recoveringAtAdmission] is the flag as it was before the lock was taken. *)
Definition ApplyWithRecovery (recoveringAtAdmission : bool) (desired : DesiredPlan)
    (recoveries : list FlowRecovery) : Op unit :=
  recovering <- get recoveryRequired ;;
  if recoveringAtAdmission || recovering then raise RuntimeRecovering
  else applyLocked desired false recoveries.

Definition forget_runtime (g : Gateway) : Gateway :=
  record_event EvRuntimeLost
    (g <| runtimeOutbounds := ∅ |> <| pendingAdds := ∅ |> <| pendingRemoves := ∅ |>
       <| runtimeReady := false |>).

(** [InvalidateRuntime] stores the flag before it takes the lock. *)
Definition InvalidateRuntime_store (g : Gateway) : Gateway := g <| recoveryRequired := true |>.
Definition InvalidateRuntime_locked (g : Gateway) : Gateway := forget_runtime g.

Definition recovered : Op unit :=
  modify (fun g => g <| runtimeReady := true |> <| recoveryRequired := false |>).

Definition Rehydrate : Op unit :=
  required <- get recoveryRequired ;;
  (if negb required
   then modify (fun g => forget_runtime g <| recoveryRequired := true |>) else ret tt) ;;;
  applied_ <- get applied ;;
  if Generation (plan applied_) =? 0 then recovered
  else applyLocked (plan applied_) true [] ;;; recovered.
End Reconcile.
