(* ===== verification/ReconcilerSafety.v ===== *)
(** What the reconciler guarantees for its clients' traffic, whatever the
    adapter answers: outbounds that routes may use are never drained or removed,
    and a gateway that reports readiness serves the plan it has applied. *)
From S2P Require Import Prelude Effects GoOrder GoSort DataPlan DataChange.
From S2P Require Import FlowRegistry Gateway FlowRecovery Reconciler.

#[local] Open Scope Z_scope.
#[local] Open Scope effect_scope.

(** ** What a trace says *)

(** The outbounds a set of routes refers to. *)
Definition route_refs (r : ClientRoute) : list string :=
  List.filter (fun id => negb (str_eqb id EmptyString))
    [TCPOutbound r; UDPOutbound r; DNSOutbound r; TCPReserveOutbound r; UDPReserveOutbound r].
Definition refs (rs : list ClientRoute) : gset string := list_to_set (flat_map route_refs rs).

(** The outbounds that the routes on the gateway may refer to: after a failed
    replacement, those of the old and of the new routes. *)
Definition route_step (S : gset string) (e : Event) : gset string :=
  match e with
  | EvReplace rs ok | EvReplaceStaged _ rs _ ok => if ok then refs rs else S ∪ refs rs
  | EvRoute r _ => S ∪ refs [r]
  | EvRuntimeLost => ∅
  | _ => S
  end.
Definition possibly_routed (t : list Event) : gset string := fold_left route_step t ∅.

Definition safe_event (S : gset string) (e : Event) : Prop :=
  match e with
  | EvDrain id _ | EvRemove id _ => id ∉ S
  | _ => True
  end.

(** No outbound is drained or removed while routes may refer to it. *)
Fixpoint safe_from (S : gset string) (t : list Event) : Prop :=
  match t with
  | [] => True
  | e :: t => safe_event S e /\ safe_from (route_step S e) t
  end.
Definition safe (t : list Event) : Prop := safe_from ∅ t.

(** The routes the gateway is known to have. *)
Definition installed_step (s : option (list ClientRoute)) (e : Event) :
    option (list ClientRoute) :=
  match e with
  | EvReplace rs ok | EvReplaceStaged _ rs _ ok => if ok then Some rs else None
  | EvRoute _ _ | EvRuntimeLost => None
  | _ => s
  end.
Definition installed (t : list Event) : option (list ClientRoute) :=
  fold_left installed_step t None.

Lemma possibly_routed_snoc t e : possibly_routed (t ++ [e]) = route_step (possibly_routed t) e.
Proof. unfold possibly_routed. by rewrite fold_left_app. Qed.

Lemma installed_snoc t e : installed (t ++ [e]) = installed_step (installed t) e.
Proof. unfold installed. by rewrite fold_left_app. Qed.

Lemma safe_snoc t e : safe t -> safe_event (possibly_routed t) e -> safe (t ++ [e]).
Proof.
  unfold safe, possibly_routed. generalize (∅ : gset string).
  induction t as [|x t IH]; intros S; simpl; [by intros _ ?|].
  intros [Hx Ht] He. split; [done|]. by apply IH.
Qed.

(** Calls that touch neither handlers nor routes. *)
Definition quiet (e : Event) : Prop :=
  match e with
  | EvNormalize _ _ | EvSnapshot _ | EvReset _ _ | EvWrite _ _ => True
  | _ => False
  end.

(** ** The invariant *)

Definition keyed (m : gmap string Outbound) : Prop := forall id o, m !! id = Some o -> ID o = id.

(** Additions and removals in doubt concern outbounds that no route may use,
    and outbounds that a route may use are known to be installed. *)
Record guarded (g : Gateway) : Prop := {
  gu_safe : safe (trace g);
  gu_routed : possibly_routed (trace g) ⊆ dom (runtimeOutbounds g);
  gu_adds : possibly_routed (trace g) ## dom (pendingAdds g);
  gu_removes : possibly_routed (trace g) ## dom (pendingRemoves g);
  gu_keyed : keyed (runtimeOutbounds g) /\ keyed (pendingAdds g) /\ keyed (pendingRemoves g)
}.

(** A ready gateway has the routes and the outbounds of the applied plan. *)
Definition serving (g : Gateway) : Prop :=
  runtimeReady g = true -> 0 < Generation (plan (applied g)) ->
  installed (trace g) = Some (sortedRoutes (Clients (plan (applied g)))) /\
  dom (runtimeOutbounds g) = list_to_set (map ID (Outbounds (plan (applied g)))) /\
  pendingAdds g = ∅ /\ pendingRemoves g = ∅.

(** A step over quiet calls that leaves the handlers' state alone. *)
Record quiet_step (g g' : Gateway) : Prop := {
  qs_trace : exists t, trace g' = trace g ++ t /\ Forall quiet t;
  qs_runtime : runtimeOutbounds g' = runtimeOutbounds g;
  qs_adds : pendingAdds g' = pendingAdds g;
  qs_removes : pendingRemoves g' = pendingRemoves g;
  qs_ready : runtimeReady g' = runtimeReady g;
  qs_required : recoveryRequired g' = recoveryRequired g;
  qs_plan : plan (applied g') = plan (applied g);
  qs_disk : disk g' = disk g \/ exists a, disk g' = Some a /\ plan a = plan (applied g)
}.

Lemma quiet_refl g : quiet_step g g.
Proof. split; try done; [|by left]. exists []. by rewrite app_nil_r. Qed.

Lemma quiet_trans g1 g2 g3 : quiet_step g1 g2 -> quiet_step g2 g3 -> quiet_step g1 g3.
Proof.
  intros [(t1 & E1 & F1) ? ? ? ? ? P1 D1] [(t2 & E2 & F2) ? ? ? ? ? P2 D2].
  split; try congruence.
  - exists (t1 ++ t2). split; [by rewrite E2, E1, app_assoc|by apply Forall_app].
  - destruct D2 as [->|(a & -> & Ha)]; [done|]. right. exists a. split; [done|congruence].
Qed.

Lemma quiet_trace t t' :
  Forall quiet t' ->
  possibly_routed (t ++ t') = possibly_routed t /\ installed (t ++ t') = installed t /\
  (safe t -> safe (t ++ t')).
Proof.
  intros Ht. revert t. induction Ht as [|e t' He Ht IH]; intros t; [by rewrite app_nil_r|].
  rewrite cons_middle, app_assoc. destruct (IH (t ++ [e])) as (H1 & H2 & H3).
  rewrite H1, H2, possibly_routed_snoc, installed_snoc.
  split_and!; [by destruct e|by destruct e|]. intros Hs. apply H3, safe_snoc; [done|by destruct e].
Qed.

Lemma quiet_guarded g g' : quiet_step g g' -> guarded g -> guarded g'.
Proof.
  intros [(t & E & F) E1 E2 E3 _ _ _ _] [H1 H2 H3 H4 H5].
  destruct (quiet_trace (trace g) t F) as (P1 & P2 & P3).
  split; rewrite ?E, ?E1, ?E2, ?E3, ?P1; auto.
Qed.

Lemma quiet_serving g g' : quiet_step g g' -> serving g -> serving g'.
Proof.
  intros [(t & E & F) E1 E2 E3 E4 _ E5 _] H.
  destruct (quiet_trace (trace g) t F) as (P1 & P2 & P3).
  unfold serving. by rewrite E, E1, E2, E3, E4, E5, P2.
Qed.

(** ** Quiet programs *)

Definition quietly {A : Type} (m : Op A) : Prop := forall g, quiet_step g (m g).2.

Lemma quietly_ret {A : Type} (a : A) : quietly (ret a).
Proof. intros g. apply quiet_refl. Qed.

Lemma quietly_raise {A : Type} e : quietly (raise e : Op A).
Proof. intros g. apply quiet_refl. Qed.

Lemma quietly_get {A : Type} (f : Gateway -> A) : quietly (get f).
Proof. intros g. apply quiet_refl. Qed.

Lemma quietly_bind {A B : Type} (m : Op A) (k : A -> Op B) :
  quietly m -> (forall a, quietly (k a)) -> quietly (bind m k).
Proof.
  intros Hm Hk g. unfold bind. specialize (Hm g). destruct (m g) as [[e|a] g1]; [done|].
  eapply quiet_trans; [done|apply Hk].
Qed.

Lemma quietly_if {A : Type} (b : bool) (m n : Op A) :
  quietly m -> quietly n -> quietly (if b then m else n).
Proof. by destruct b. Qed.

Lemma quiet_event g e : quiet e -> quiet_step g (record_event e g).
Proof.
  intros He. split; try done; [|by left]. exists [e]. split; [done|by repeat constructor].
Qed.

Lemma quietly_snapshot env : quietly (FlowSnapshot env).
Proof. intros g. by apply quiet_event. Qed.

Lemma quietly_normalize env o : quietly (NormalizeOutbound env o).
Proof. intros g. by apply quiet_event. Qed.

Lemma quietly_reset env q : quietly (ResetFlow env q).
Proof. intros g. by apply quiet_event. Qed.

Lemma quietly_cancelled env : quietly (contextCancelled env).
Proof. intros g. apply quiet_refl. Qed.

Lemma quietly_filterM {A : Type} (f : A -> Op bool) l :
  (forall x, quietly (f x)) -> quietly (filterM f l).
Proof.
  intros Hf. induction l as [|x l IH]; simpl; [apply quietly_ret|].
  apply quietly_bind; [done|]. intros b. apply quietly_bind; [done|]. intros r. apply quietly_ret.
Qed.

Lemma quietly_with_tokens env captured batch : quietly (with_tokens env captured batch).
Proof.
  revert captured. induction batch as [|job batch IH]; intros captured; simpl; [apply quietly_ret|].
  repeat case_match;
    repeat first [apply quietly_bind; [done|intros ?]|apply quietly_ret].
  apply quietly_bind; [apply quietly_snapshot|]. intros [token|]; [|apply quietly_raise].
  apply quietly_bind; [done|]. intros ?. apply quietly_ret.
Qed.

Lemma quietly_reset_job env job : quietly (reset_job env job).
Proof.
  unfold reset_job. case_match; [|apply quietly_raise].
  apply quietly_bind; [apply quietly_reset|]. intros ?. apply quietly_ret.
Qed.

(** From states whose applied plan is [p]. *)
Definition quietly_from {A : Type} (p : DesiredPlan) (m : Op A) : Prop :=
  forall g, plan (applied g) = p -> quiet_step g (m g).2.

Lemma quietly_from_quietly {A : Type} p (m : Op A) : quietly m -> quietly_from p m.
Proof. intros Hm g _. apply Hm. Qed.

Lemma quietly_from_bind {A B : Type} p (m : Op A) (k : A -> Op B) :
  quietly_from p m -> (forall a, quietly_from p (k a)) -> quietly_from p (bind m k).
Proof.
  intros Hm Hk g Hg. unfold bind. specialize (Hm g Hg). destruct (m g) as [[e|a] g1]; [done|].
  eapply quiet_trans; [done|]. apply Hk. rewrite <- Hg. apply Hm.
Qed.

Lemma quietly_from_write env p a : plan a = p -> quietly_from p (writeAppliedPlan env a).
Proof.
  intros Ha g Hg. unfold writeAppliedPlan. set (reply := write env (trace g) a).
  eapply quiet_trans; [by apply (quiet_event g (EvWrite a reply))|].
  destruct reply; split; try done; try (exists []; by rewrite app_nil_r);
    try (by left); right; exists a; (split; [done|]); simpl; congruence.
Qed.

Lemma quietly_from_persist env p next e :
  plan next = p -> quietly_from p (persist env next e).
Proof.
  intros Hn. unfold persist, require. apply quietly_from_bind.
  - apply quietly_from_bind; [by apply quietly_from_write|].
    intros []; apply quietly_from_quietly; [apply quietly_ret|apply quietly_raise].
  - intros _ g Hg. split; try done; [|simpl; congruence|by left].
    exists []. by rewrite app_nil_r.
Qed.

Lemma quietly_retry env : quietly (retryFlowRecoveriesLocked env).
Proof.
  intros g. unfold retryFlowRecoveriesLocked, get. unfold bind at 1.
  match goal with |- quiet_step _ (?m g).2 =>
    enough (quietly_from (plan (applied g)) m) as Hm by by apply Hm end.
  case_if; [apply quietly_from_quietly, quietly_ret|].
  case_if; [apply quietly_from_quietly, quietly_raise|]. cbv zeta.
  apply quietly_from_bind; [apply quietly_from_quietly, quietly_with_tokens|]. intros jobs.
  apply quietly_from_bind; [by apply quietly_from_persist|]. intros _.
  apply quietly_from_bind.
  { apply quietly_from_quietly, quietly_filterM. intros job. unfold reset_one.
    apply quietly_bind; [apply quietly_reset_job|]. intros ?. apply quietly_ret. }
  intros failed. apply quietly_from_bind; [by apply quietly_from_persist|]. intros _.
  apply quietly_from_quietly, quietly_if; [apply quietly_ret|apply quietly_raise].
Qed.

Lemma quietly_prepare env desired recoveries rehydrating :
  quietly (prepareFlowRecoveriesLocked env desired recoveries rehydrating).
Proof.
  unfold prepareFlowRecoveriesLocked. apply quietly_bind; [apply quietly_get|]. intros a.
  apply quietly_if; [apply quietly_ret|]. apply quietly_bind; [|intros ?; apply quietly_ret].
  apply quietly_if; [apply quietly_snapshot|apply quietly_ret].
Qed.

(** ** Installing a plan *)

Section Install.
Context `{Json} (env : Env).

(** A configuration that is empty or valid JSON. *)
Definition config_valid (o : Outbound) : Prop :=
  Config o = EmptyString \/ is_Some (unmarshal (Config o)).

Lemma equal_self o : config_valid o -> equalOutbound o o = true.
Proof.
  intros Ho. unfold equalOutbound, semanticallyEqualOutbound. rewrite !str_eqb_refl. simpl.
  destruct (str_eqb (Config o) EmptyString) eqn:E; simpl; [done|].
  destruct Ho as [Ho|[v Hv]]; [by str_bool|]. rewrite Hv. simpl. by apply bool_decide_eq_true.
Qed.

(** The outbounds to install: distinct, readable, and all that routes refer to. *)
Record installable (clients : list ClientRoute) (items : list Outbound) : Prop := {
  in_nodup : NoDup (map ID items);
  in_valid : forall o, In o items -> config_valid o;
  in_refs : forall id, id ∈ refs clients -> In id (map ID items)
}.

Context (a0 : AppliedPlan) (d0 : option AppliedPlan) (clients : list ClientRoute)
  (items : list Outbound).
Hypothesis Hitems : installable clients items.

Let next := outboundsByID items.

Lemma next_lookup id o : next !! id = Some o <-> In o items /\ ID o = id.
Proof.
  unfold next, outboundsByID. rewrite fold_index_lookup; [|apply Hitems|].
  - rewrite lookup_empty. naive_solver.
  - intros x _. apply lookup_empty.
Qed.

Lemma next_keyed : keyed next.
Proof. intros id o Ho. by apply next_lookup in Ho as [_ ?]. Qed.

Lemma next_self id o : next !! id = Some o -> equalOutbound o o = true.
Proof. intros Ho. apply next_lookup in Ho as [Ho _]. by apply equal_self, Hitems. Qed.

(** What stays the same throughout, and what every known outbound agrees with. *)
Record steady (S : gset string) (g : Gateway) : Prop := {
  st_guarded : guarded g;
  st_applied : applied g = a0;
  st_disk : disk g = d0;
  st_ready : runtimeReady g = false;
  st_routed : possibly_routed (trace g) = S;
  st_agree : forall id o o', runtimeOutbounds g !! id = Some o' -> next !! id = Some o ->
    equalOutbound o' o = true
}.

(** An error leaves the invariant and the applied plan. *)
Definition aborted (g : Gateway) : Prop :=
  guarded g /\ applied g = a0 /\ disk g = d0 /\ runtimeReady g = false.

Lemma steady_aborted S g : steady S g -> aborted g.
Proof. by intros []. Qed.

(** A call about an outbound that no route may use. *)
Lemma steady_event S g e :
  steady S g -> safe_event S e -> route_step S e = S -> steady S (record_event e g).
Proof.
  intros [[H1 H2 H3 H4 H5] ? ? ? <- ?] Hs He.
  split; simpl; rewrite ?possibly_routed_snoc; try done.
  split; simpl; rewrite ?possibly_routed_snoc, ?He; auto. by apply safe_snoc.
Qed.

(** Changes of the handlers' state. *)
Lemma steady_added S g o :
  steady S g -> next !! ID o = Some o ->
  steady S (g <| pendingAdds := delete (ID o) (pendingAdds g) |>
              <| runtimeOutbounds := <[ID o := o]> (runtimeOutbounds g) |>).
Proof.
  intros [[H1 H2 H3 H4 (K1 & K2 & K3)] ? ? ? <- Ha] Ho. split; try done; simpl.
  - split; simpl; [done|set_solver|set_solver|done|]. split_and!; [| |done].
    + intros id x [[<- <-]|[_ Hx]]%lookup_insert_Some; [done|by apply K1].
    + intros id x [_ Hx]%lookup_delete_Some. by apply K2.
  - intros id x x' [[<- <-]|[_ Hx]]%lookup_insert_Some Hn; [|by eapply Ha].
    assert (x = o) as -> by congruence. by eapply next_self.
Qed.

Lemma steady_add_pending S g o :
  steady S g -> ID o ∉ S -> steady S (g <| pendingAdds := <[ID o := o]> (pendingAdds g) |>).
Proof.
  intros [[H1 H2 H3 H4 (K1 & K2 & K3)] ? ? ? <- Ha] Ho. split; try done; simpl.
  split; simpl; [done|done|set_solver|done|]. split_and!; [done| |done].
  intros id x [[<- <-]|[_ Hx]]%lookup_insert_Some; [done|by apply K2].
Qed.

Lemma steady_remove_pending S g o :
  steady S g -> ID o ∉ S -> steady S (g <| pendingRemoves := <[ID o := o]> (pendingRemoves g) |>).
Proof.
  intros [[H1 H2 H3 H4 (K1 & K2 & K3)] ? ? ? <- Ha] Ho. split; try done; simpl.
  split; simpl; [done|done|done|set_solver|]. split_and!; [done|done|].
  intros id x [[<- <-]|[_ Hx]]%lookup_insert_Some; [done|by apply K3].
Qed.

Lemma steady_forget S g o pa pr :
  steady S g -> ID o ∉ S -> pa ⊆ pendingAdds g -> pr ⊆ pendingRemoves g ->
  steady S (g <| pendingAdds := pa |> <| pendingRemoves := pr |>
              <| runtimeOutbounds := delete (ID o) (runtimeOutbounds g) |>).
Proof.
  intros [[H1 H2 H3 H4 (K1 & K2 & K3)] ? ? ? <- Ha] Ho Hpa Hpr. split; try done; simpl.
  - pose proof (subseteq_dom _ _ Hpa). pose proof (subseteq_dom _ _ Hpr).
    split; simpl; [done|set_solver|set_solver|set_solver|]. split_and!.
    + intros id x [_ Hx]%lookup_delete_Some. by apply K1.
    + intros id x Hx. apply K2. by eapply lookup_weaken.
    + intros id x Hx. apply K3. by eapply lookup_weaken.
  - intros id x x' [_ Hx]%lookup_delete_Some. by apply Ha.
Qed.

(** What is left of [m0] once the outbounds of [l] are settled. *)
Definition remaining (l : list Outbound) (m0 m : gmap string Outbound) : Prop :=
  forall id o, m !! id = Some o -> m0 !! id = Some o /\ ~ In id (map ID l).

Lemma remaining_nil m : remaining [] m m.
Proof. intros id o Ho. split; [done|by intros []]. Qed.

Lemma remaining_delete l m0 m o :
  remaining l m0 m -> remaining (l ++ [o]) m0 (delete (ID o) m).
Proof.
  intros Hm id x [Hne Hx]%lookup_delete_Some. apply Hm in Hx as [Hx Hl]. split; [done|].
  rewrite map_app, in_app_iff. simpl. naive_solver.
Qed.

Lemma remaining_none l m0 m :
  remaining l m0 m -> (forall id, is_Some (m0 !! id) -> In id (map ID l)) -> m = ∅.
Proof.
  intros Hm Hl. apply map_eq. intros id. rewrite lookup_empty.
  destruct (m !! id) as [o|] eqn:E; [|done]. apply Hm in E as [E Hn].
  destruct Hn. apply Hl. by eexists.
Qed.

Lemma triple_call (ok : list Event -> bool) event (Q : bool -> Gateway -> Prop)
    (R : ApplyError -> Gateway -> Prop) :
  triple (fun g => forall b, Q b (record_event (event b) g)) (call ok event) Q R.
Proof. intros g Hg. apply Hg. Qed.

(** [phase S adds removes]: steady, with what is known of the pending maps. *)
Definition phase (S : gset string) (adds removes : gmap string Outbound -> Prop) (g : Gateway) :
    Prop := steady S g /\ adds (pendingAdds g) /\ removes (pendingRemoves g).

Lemma phase_event S adds removes g e :
  phase S adds removes g -> safe_event S e -> route_step S e = S ->
  phase S adds removes (record_event e g).
Proof. intros (H1 & H2 & H3) Hs He. split_and!; [by apply steady_event|done|done]. Qed.

Lemma phase_call S adds removes ok event (R : ApplyError -> Gateway -> Prop) :
  (forall b, safe_event S (event b)) -> (forall b, route_step S (event b) = S) ->
  triple (phase S adds removes) (call ok event) (fun _ => phase S adds removes) R.
Proof.
  intros Hs He. eapply triple_pre; [apply triple_call|]. intros g Hg b. by apply phase_event.
Qed.

Lemma retry_add_spec S l m0 removes o :
  ID o ∉ S -> next !! ID o = Some o ->
  triple (phase S (remaining l m0) removes) (retry_add env o)
    (fun _ => phase S (remaining (l ++ [o]) m0) removes) (fun _ => aborted).
Proof.
  intros HS Ho. unfold retry_add. eapply triple_bind.
  { by apply phase_call. }
  intros ?. eapply triple_bind.
  { by apply phase_call. }
  intros ok. apply triple_if; intros _.
  - intros g (Hg & _). simpl. by eapply steady_aborted, steady_add_pending.
  - intros g (Hg & Ha & Hr). split_and!; [by apply steady_added|by apply remaining_delete|done].
Qed.

Lemma discard_add_spec S l m0 removes o :
  ID o ∉ S ->
  triple (phase S (remaining l m0) removes) (discard_add env o)
    (fun _ => phase S (remaining (l ++ [o]) m0) removes) (fun _ => aborted).
Proof.
  intros HS. unfold discard_add. eapply triple_bind.
  { by apply phase_call. }
  intros ?. eapply triple_bind.
  { by apply phase_call. }
  intros ok. apply triple_if; intros _.
  - intros g (Hg & _). by eapply steady_aborted.
  - intros g (Hg & Ha & Hr). split_and!; [|by apply remaining_delete|done].
    apply (steady_forget S g o (delete (ID o) (pendingAdds g)) (pendingRemoves g));
      [done|done|apply delete_subseteq|done].
Qed.

Lemma retry_remove_spec S adds l m0 o :
  ID o ∉ S ->
  triple (phase S adds (remaining l m0)) (retry_remove env o)
    (fun _ => phase S adds (remaining (l ++ [o]) m0)) (fun _ => aborted).
Proof.
  intros HS. unfold retry_remove. eapply triple_bind.
  { by apply phase_call. }
  intros ?. eapply triple_bind.
  { by apply phase_call. }
  intros ok. apply triple_if; intros _.
  - intros g (Hg & _). by eapply steady_aborted.
  - intros g (Hg & Ha & Hr). split_and!; [|done|by apply remaining_delete].
    apply (steady_forget S g o (pendingAdds g) (delete (ID o) (pendingRemoves g)));
      [done|done|done|apply delete_subseteq].
Qed.

(** *** Operations in doubt *)

Lemma wanted_adds_In adds o :
  In o (sortedOutboundsForAdd (wanted_adds next adds)) <->
  is_Some (adds !! ID o) /\ next !! ID o = Some o.
Proof.
  unfold sortedOutboundsForAdd, wanted_adds.
  rewrite sort_slice_In, <- list_elem_of_In, list_elem_of_omap. split.
  - intros ([id x] & Hin%elem_of_map_to_list & Ho). simpl in Ho.
    pose proof (next_keyed _ _ Ho) as <-. by split; [eexists|].
  - intros [[x Hx] Ho]. exists (ID o, x). by rewrite elem_of_map_to_list.
Qed.

Lemma obsolete_adds_In adds o :
  keyed adds ->
  In o (sortOutboundsForRemoval (obsolete_adds next adds)) <->
  adds !! ID o = Some o /\ next !! ID o = None.
Proof.
  intros Hk. unfold sortOutboundsForRemoval, obsolete_adds. rewrite sort_slice_In, in_map_iff.
  setoid_rewrite filter_In. setoid_rewrite <- list_elem_of_In. split.
  - intros ([id x] & Hx & Hin%elem_of_map_to_list & Hn). simpl in *. subst x.
    pose proof (Hk _ _ Hin) as <-. apply negb_true_iff, bool_decide_eq_false in Hn.
    by rewrite eq_None_not_Some.
  - intros [Ho Hn]. exists (ID o, o). rewrite elem_of_map_to_list. simpl.
    rewrite negb_true_iff, bool_decide_eq_false, <- eq_None_not_Some. done.
Qed.

Lemma pending_removes_In removes o :
  keyed removes ->
  In o (sortOutboundsForRemoval (map snd (map_to_list removes))) <-> removes !! ID o = Some o.
Proof.
  intros Hk. unfold sortOutboundsForRemoval. rewrite sort_slice_In, in_map_iff.
  setoid_rewrite <- list_elem_of_In. split.
  - intros ([id x] & Hx & Hin%elem_of_map_to_list). simpl in *. subst x.
    by pose proof (Hk _ _ Hin) as <-.
  - intros Ho. exists (ID o, o). by rewrite elem_of_map_to_list.
Qed.

Definition settled (m : gmap string Outbound) : Prop := m = ∅.

Lemma in_id o l : In o l -> In (ID o) (map ID l).
Proof. apply in_map. Qed.

Lemma pending_adds_settled adds l1 l2 m :
  keyed adds ->
  l1 = sortedOutboundsForAdd (wanted_adds next adds) ->
  l2 = sortOutboundsForRemoval (obsolete_adds next adds) ->
  remaining (l1 ++ l2) adds m -> settled m.
Proof.
  intros Hk -> -> Hm. apply (remaining_none _ _ _ Hm). intros id [o Ho].
  pose proof (Hk _ _ Ho) as <-. rewrite map_app, in_app_iff.
  destruct (next !! ID o) as [x|] eqn:E.
  - left. pose proof (next_keyed _ _ E) as Ex. rewrite <- Ex. apply in_id, wanted_adds_In.
    rewrite Ex. split; [by eexists|done].
  - right. by apply in_id, obsolete_adds_In.
Qed.

Lemma pending_removes_settled removes m :
  keyed removes ->
  remaining (sortOutboundsForRemoval (map snd (map_to_list removes))) removes m -> settled m.
Proof.
  intros Hk Hm. apply (remaining_none _ _ _ Hm). intros id [o Ho].
  pose proof (Hk _ _ Ho) as <-. by apply in_id, pending_removes_In.
Qed.

Lemma normalize_pending_spec S :
  triple (steady S) (normalizePendingOutboundOperations env next)
    (fun _ => phase S settled settled) (fun _ => aborted).
Proof.
  unfold normalizePendingOutboundOperations. eapply triple_bind.
  { eapply triple_pre; [apply (triple_get pendingAdds
      (fun adds g => phase S (remaining [] adds) (fun _ => True) g /\ keyed adds /\ S ## dom adds))|].
    intros g Hg. pose proof Hg as [[H1 H2 H3 H4 H5] ? ? ? Hr ?].
    split; [split_and!; [exact Hg|apply remaining_nil|exact I]|split; [tauto|by rewrite <- Hr]]. }
  intros adds. apply (triple_fact _ (keyed adds /\ S ## dom adds)); [tauto|]. intros [Hk HS].
  eapply triple_bind.
  { eapply triple_pre; [|intros g [Hg _]; exact Hg].
    apply (triple_forM (retry_add env) (fun visited => phase S (remaining visited adds) (fun _ => True))).
    intros visited o todo E. apply retry_add_spec.
    - assert (In o (sortedOutboundsForAdd (wanted_adds next adds))) as [[x Hx] _]%wanted_adds_In
        by (rewrite E; apply in_elt). apply elem_of_dom_2 in Hx. set_solver.
    - assert (In o (sortedOutboundsForAdd (wanted_adds next adds))) as [_ Hx]%wanted_adds_In
        by (rewrite E; apply in_elt). done. }
  intros []. set (l1 := sortedOutboundsForAdd _). eapply triple_bind.
  { eapply triple_pre; [apply (triple_forM (discard_add env)
      (fun visited => phase S (remaining (l1 ++ visited) adds) (fun _ => True)))|].
    - intros visited o todo E. rewrite app_assoc. apply discard_add_spec.
      assert (In o (sortOutboundsForRemoval (obsolete_adds next adds))) as Hin
        by (rewrite E; apply in_elt).
      apply obsolete_adds_In in Hin as [Hx _]; [|done]. apply elem_of_dom_2 in Hx. set_solver.
    - intros g Hg. by rewrite app_nil_r. }
  intros []. eapply triple_bind.
  { eapply triple_pre; [apply (triple_get pendingRemoves
      (fun removes g => phase S settled (remaining [] removes) g /\ keyed removes /\
         S ## dom removes))|].
    intros g (Hg & Ha & _). apply pending_adds_settled in Ha; [|done..].
    pose proof Hg as [[H1 H2 H3 H4 H5] ? ? ? Hr ?].
    split; [split_and!; [exact Hg|exact Ha|apply remaining_nil]|split; [tauto|by rewrite <- Hr]]. }
  intros removes. apply (triple_fact _ (keyed removes /\ S ## dom removes)); [tauto|].
  intros [Hk' HS']. eapply triple_conseq.
  - apply (triple_forM (retry_remove env) (fun visited => phase S settled (remaining visited removes))).
    intros visited o todo E. apply retry_remove_spec.
    assert (In o (sortOutboundsForRemoval (map snd (map_to_list removes)))) as Hin
      by (rewrite E; apply in_elt).
    apply pending_removes_In in Hin as Hx; [|done]. apply elem_of_dom_2 in Hx. set_solver.
  - intros g [Hg _]. exact Hg.
  - intros [] g (Hg & Ha & Hr). split_and!; [done|done|]. by apply pending_removes_settled in Hr.
  - done.
Qed.

(** *** Additions, routes, removals *)

(** The known outbounds outside the plan are those of [current], and those of
    [l] are present. *)
Definition extends (current : gmap string Outbound) (l : list Outbound) (g : Gateway) : Prop :=
  (forall o, In o l -> is_Some (runtimeOutbounds g !! ID o)) /\
  (forall id, is_Some (current !! id) -> is_Some (runtimeOutbounds g !! id)) /\
  (forall id, next !! id = None -> runtimeOutbounds g !! id = current !! id).

Definition agrees (current : gmap string Outbound) : Prop :=
  forall id o o', current !! id = Some o' -> next !! id = Some o -> equalOutbound o' o = true.

Lemma item_next o : In o items -> next !! ID o = Some o.
Proof. intros Ho. by apply next_lookup. Qed.

Lemma add_missing_spec S current visited o :
  agrees current -> S ⊆ dom current -> In o items ->
  triple (fun g => phase S settled settled g /\ extends current visited g)
    (add_missing env current o)
    (fun _ g => phase S settled settled g /\ extends current (visited ++ [o]) g)
    (fun _ => aborted).
Proof.
  intros Hag HS Ho. unfold add_missing. apply item_next in Ho as Hn.
  destruct (current !! ID o) as [previous|] eqn:E.
  - rewrite (Hag _ _ _ E Hn). cbn [negb]. intros g (Hp & H1 & H2 & H3). split; [done|].
    split_and!; [|done|done]. intros x [Hx|[<-|[]]]%in_app_iff; [by apply H1|].
    apply H2. by eexists.
  - assert (ID o ∉ S) as HoS.
    { intros Hin%HS%elem_of_dom. rewrite E in Hin. by destruct Hin. }
    eapply triple_bind.
    { eapply triple_pre; [apply (triple_call _ _ (fun _ g =>
        phase S settled settled g /\ extends current visited g))|].
      intros g [Hp He] b. split; [by apply phase_event|done]. }
    intros ok. apply triple_if; intros _.
    + intros g [(Hg & _) _]. simpl. by eapply steady_aborted, steady_add_pending.
    + intros g [(Hg & Ha & Hr) (H1 & H2 & H3)]. split.
      * split_and!; [by apply steady_added| |done]. simpl. unfold settled in *. rewrite Ha.
        apply delete_empty.
      * split_and!; simpl.
        -- intros x Hx. rewrite lookup_insert_is_Some. rewrite in_app_iff in Hx.
           destruct (decide (ID o = ID x)); [by left|right]. split; [done|]. apply H1.
           destruct Hx as [|[->|[]]]; done.
        -- intros id Hid. rewrite lookup_insert_is_Some.
           destruct (decide (ID o = id)); [by left|right; split; auto].
        -- intros id Hid. rewrite lookup_insert_ne; [by apply H3|]. intros <-. congruence.
Qed.

Lemma add_all_spec S current :
  agrees current -> S ⊆ dom current ->
  triple (fun g => phase S settled settled g /\ runtimeOutbounds g = current)
    (forM (sortedOutboundsForAdd items) (add_missing env current))
    (fun _ g => phase S settled settled g /\ extends current items g) (fun _ => aborted).
Proof.
  intros Hag HS. eapply triple_conseq.
  - apply (triple_forM (add_missing env current)
      (fun visited g => phase S settled settled g /\ extends current visited g)).
    intros visited o todo E. apply add_missing_spec; [done|done|].
    assert (In o (sortedOutboundsForAdd items)) as Hin by (rewrite E; apply in_elt).
    by apply sort_slice_In in Hin.
  - intros g [Hp <-]. split; [done|]. split_and!; [by intros o []|done|done].
  - intros [] g [Hp (H1 & H2 & H3)]. split; [done|]. split_and!; [|done|done].
    intros o Ho. apply H1. by apply sort_slice_In.
  - done.
Qed.

(** Once all outbounds are present, the routes may be replaced. *)
Definition present (g : Gateway) : Prop := refs clients ⊆ dom (runtimeOutbounds g).

Lemma extends_present current g : extends current items g -> present g.
Proof.
  intros (H1 & _ & _) id Hid. apply (in_refs _ _ Hitems), in_map_iff in Hid as (o & <- & Ho).
  by apply elem_of_dom, H1.
Qed.

Lemma refs_sorted l : refs (sortedRoutes l) = refs l.
Proof.
  apply set_eq. intros id. unfold refs.
  rewrite !elem_of_list_to_set, !list_elem_of_In, !in_flat_map. unfold sortedRoutes.
  by setoid_rewrite sort_slice_In.
Qed.

(** [routed current l g]: the new routes are installed. *)
Definition routed (current : gmap string Outbound) (g : Gateway) : Prop :=
  phase (refs clients) settled settled g /\ extends current items g /\
  installed (trace g) = Some (sortedRoutes clients).

Lemma replace_event S current g e ok :
  phase S settled settled g -> extends current items g ->
  safe_event S e -> (route_step S e = if ok : bool then refs clients else S ∪ refs clients) ->
  installed_step (installed (trace g)) e = (if ok then Some (sortedRoutes clients) else None) ->
  if ok then routed current (record_event e g) else aborted (record_event e g).
Proof.
  intros ([[H1 H2 H3 H4 H5] Ha Hd Hy <- Hag] & Hadd & Hrem) He Hs Hr Hi.
  pose proof (extends_present _ _ He) as Hp. unfold present in Hp. unfold settled in *.
  assert (guarded (record_event e g)) as Hg.
  { split; simpl; rewrite ?possibly_routed_snoc, ?Hr, ?Hadd, ?Hrem, ?dom_empty_L;
      [by apply safe_snoc|destruct ok; set_solver|set_solver|set_solver|].
    rewrite Hadd, Hrem in H5. done. }
  destruct ok; [|by split_and!].
  split_and!; [|done|simpl; by rewrite installed_snoc].
  split_and!; [|done|done]. split; try done. simpl. by rewrite possibly_routed_snoc.
Qed.

Lemma replace_routes_spec S current ready :
  route_mode env <> PerClient ->
  triple (fun g => phase S settled settled g /\ extends current items g)
    (replace_routes env ready (sortedRoutes clients) current next)
    (fun _ => routed current) (fun _ => aborted).
Proof.
  intros Hmode. unfold replace_routes.
  assert (forall ok event,
    (forall S b, safe_event S (event b)) ->
    (forall S b, route_step S (event b) = if b : bool then refs clients else S ∪ refs clients) ->
    (forall s b, installed_step s (event b) = if b : bool then Some (sortedRoutes clients) else None) ->
    triple (fun g => phase S settled settled g /\ extends current items g)
      (require (call ok event) RoutesFailed) (fun _ => routed current) (fun _ => aborted)) as H0.
  { intros ok event E1 E2 E3. unfold require. eapply triple_bind.
    - eapply triple_pre; [apply (triple_call _ _ (fun b g => if b then routed current g else aborted g))|].
      intros g [Hp He] b. by apply (replace_event S).
    - by intros [] g Hg. }
  destruct (route_mode env); [| |done].
  - apply (triple_bind _ _ _ (fun _ g => phase S settled settled g /\ extends current items g));
      [by intros g Hg|]. intros a. cbv zeta.
    apply H0; [done| |done]. intros S' []; simpl; by rewrite refs_sorted.
  - apply H0; [done| |done]. intros S' []; simpl; by rewrite refs_sorted.
Qed.

Lemma removed_In current o :
  keyed current -> agrees current ->
  In o (sortOutboundsForRemoval (removed_outbounds current next)) <->
  current !! ID o = Some o /\ next !! ID o = None.
Proof.
  intros Hk Hag. unfold sortOutboundsForRemoval, removed_outbounds.
  rewrite sort_slice_In, in_map_iff. setoid_rewrite filter_In.
  setoid_rewrite <- list_elem_of_In. split.
  - intros ([id x] & Hx & Hin%elem_of_map_to_list & Hn). simpl in *. subst x.
    pose proof (Hk _ _ Hin) as <-. split; [done|].
    destruct (next !! ID o) as [r|] eqn:E; [|done]. by rewrite (Hag _ _ _ Hin E) in Hn.
  - intros [Ho Hn]. exists (ID o, o). rewrite elem_of_map_to_list. simpl. by rewrite Hn.
Qed.

(** [trimmed current visited g]: of the outbounds outside the plan, the visited
    ones are gone. *)
Definition trimmed (current : gmap string Outbound) (visited : list Outbound) (g : Gateway) :
    Prop :=
  phase (refs clients) settled settled g /\
  installed (trace g) = Some (sortedRoutes clients) /\
  (forall o, In o items -> is_Some (runtimeOutbounds g !! ID o)) /\
  (forall id o, next !! id = None -> runtimeOutbounds g !! id = Some o ->
     current !! id = Some o /\ ~ In id (map ID visited)).

Lemma trimmed_event current visited g e :
  trimmed current visited g -> safe_event (refs clients) e ->
  route_step (refs clients) e = refs clients -> installed_step (installed (trace g)) e = installed (trace g) ->
  trimmed current visited (record_event e g).
Proof.
  intros (H1 & H2 & H3 & H4) Hs He Hi. split_and!; [by apply phase_event| |done|done].
  simpl. by rewrite installed_snoc, Hi.
Qed.

Lemma remove_obsolete_spec current visited o :
  next !! ID o = None ->
  triple (trimmed current visited) (remove_obsolete env o)
    (fun _ => trimmed current (visited ++ [o])) (fun _ => aborted).
Proof.
  intros Ho. assert (ID o ∉ refs clients) as HoS.
  { intros Hin%(in_refs _ _ Hitems)%in_map_iff. destruct Hin as (x & E & Hx).
    apply item_next in Hx. congruence. }
  unfold remove_obsolete, require. apply (triple_bind _ _ _ (fun _ => trimmed current visited)).
  { apply (triple_bind _ _ _ (fun _ => trimmed current visited)).
    - eapply triple_pre; [apply (triple_call _ _ (fun _ => trimmed current visited))|].
      intros g Hg b. by apply trimmed_event.
    - intros []; [by intros g Hg|]. intros g ((? & _) & _). by eapply steady_aborted. }
  intros []. apply (triple_bind _ _ _ (fun _ => trimmed current visited)).
  { eapply triple_pre; [apply (triple_call _ _ (fun _ => trimmed current visited))|].
    intros g Hg b. by apply trimmed_event. }
  intros ok. apply triple_if; intros _.
  - intros g ((Hg & _) & _). simpl. by eapply steady_aborted, steady_remove_pending.
  - intros g ((Hg & Ha & Hr) & H2 & H3 & H4). unfold settled in *. split_and!; simpl.
    + split_and!; [|done|simpl; rewrite Hr; apply delete_empty].
      apply (steady_forget (refs clients) g o (pendingAdds g) (delete (ID o) (pendingRemoves g)));
        [done|done|done|apply delete_subseteq].
    + done.
    + intros x Hx. rewrite lookup_delete_ne; [by apply H3|]. intros E.
      apply item_next in Hx. congruence.
    + intros id x Hid [Hne Hx]%lookup_delete_Some. destruct (H4 id x Hid Hx) as [H5 H6].
      split; [done|]. rewrite map_app, in_app_iff. simpl. naive_solver.
Qed.

(** The runtime is what the plan wants. *)
Record complete (g : Gateway) : Prop := {
  cp_steady : steady (refs clients) g;
  cp_settled : pendingAdds g = ∅ /\ pendingRemoves g = ∅;
  cp_routes : installed (trace g) = Some (sortedRoutes clients);
  cp_present : forall id, is_Some (runtimeOutbounds g !! id) <-> In id (map ID items)
}.

Lemma remove_all_spec current :
  keyed current -> agrees current ->
  triple (routed current)
    (forM (sortOutboundsForRemoval (removed_outbounds current next)) (remove_obsolete env))
    (fun _ => complete) (fun _ => aborted).
Proof.
  intros Hk Hag. eapply triple_conseq.
  - apply (triple_forM (remove_obsolete env) (trimmed current)).
    intros visited o todo E. apply remove_obsolete_spec.
    assert (In o (sortOutboundsForRemoval (removed_outbounds current next))) as Hin
      by (rewrite E; apply in_elt). by apply removed_In in Hin as [_ ?].
  - intros g (Hp & (H1 & H2 & H3) & Hi). split_and!; try done.
    intros id o Hid Ho. split; [by rewrite <- H3|by intros []].
  - intros [] g ((Hg & Ha & Hr) & Hi & H3 & H4). split; [done|done|done|].
    intros id. split.
    + intros [o Ho]. destruct (next !! id) as [x|] eqn:E.
      { apply next_lookup in E as [Hx <-]. by apply in_id. }
      destruct (H4 id o E Ho) as [Hc []]. pose proof (Hk _ _ Hc) as <-.
      by apply in_id, removed_In.
    + intros (x & <- & Hx)%in_map_iff. by apply H3.
  - done.
Qed.

Lemma immutable_agrees current :
  validateImmutableOutboundIDs current next = None -> agrees current.
Proof.
  unfold validateImmutableOutboundIDs. rewrite check_all_none. intros Hall id o o' Ho' Ho.
  assert (In (id, o') (map_to_list current)) as Hin
    by by apply list_elem_of_In, elem_of_map_to_list.
  specialize (Hall _ Hin). unfold immutable_error in Hall. simpl in Hall. rewrite Ho in Hall.
  unfold equalOutbound. destruct (semanticallyEqualOutbound o' o) as [b|]; [|done].
  rewrite refuse_none, negb_false_iff in Hall. by subst.
Qed.

Lemma install_spec (desired : DesiredPlan) g0 :
  route_mode env <> PerClient -> Clients desired = clients ->
  guarded g0 -> applied g0 = a0 -> disk g0 = d0 ->
  triple (fun g => g = g0) (install env desired items) (fun _ => complete)
    (fun _ g => g = g0 \/ aborted g).
Proof.
  intros Hmode Hcl Hg0 Ha0 Hd0. unfold install. cbv zeta. fold next. rewrite Hcl.
  apply triple_bind_get. intros runtime. unfold lift_plan.
  destruct (validateImmutableOutboundIDs runtime next) as [e|] eqn:Ev.
  { intros g [-> _]. by left. }
  apply (triple_bind _ _ _ (fun _ g => g = g0 /\ runtime = runtimeOutbounds g)); [by intros g Hg|].
  intros []. apply triple_bind_get. intros ready.
  set (S := possibly_routed (trace g0)).
  apply (triple_bind_modify _ _ _ (steady S)).
  { intros g [[-> ->] _]. apply immutable_agrees in Ev.
    split; [by destruct Hg0; split|done..]. }
  apply (triple_bind _ _ _ (fun _ => phase S settled settled)).
  { eapply triple_conseq; [apply normalize_pending_spec|done|done|by right]. }
  intros []. apply triple_bind_get. intros current.
  apply (triple_fact _ (keyed current /\ agrees current /\ S ⊆ dom current)).
  { intros g [([Hg ? ? ? Hr Hag] & _) ->]. split_and!; [apply Hg|done|].
    rewrite <- Hr. apply Hg. }
  intros (Hk & Hag & HS).
  apply (triple_bind _ _ _ (fun _ g => phase S settled settled g /\ extends current items g)).
  { eapply triple_conseq; [by apply add_all_spec| | |].
    - intros g [Hg ->]. done.
    - done.
    - by right. }
  intros []. apply (triple_bind _ _ _ (fun _ => routed current)).
  { eapply triple_conseq; [by apply (replace_routes_spec S)|done|done|by right]. }
  intros []. eapply triple_conseq; [by apply remove_all_spec|done|done|by right].
Qed.
End Install.
