(* ===== verification/ReconcilerRuns.v ===== *)
(** Whole operations of the reconciler and arbitrary sequences of them. *)
From S2P Require Import Prelude Effects GoOrder GoSort DataPlan DataChange.
From S2P Require Import FlowRegistry Gateway FlowRecovery Reconciler ReconcilerSafety.

#[local] Open Scope Z_scope.
#[local] Open Scope effect_scope.

Section Runs.
Context `{Json} (env : Env).

(** What is used of [encoding/json] and of the adapter: a plan is marshalled
    only if its raw configurations are valid JSON, and the recovery normaliser
    returns valid JSON for valid JSON. *)
Hypothesis marshal_valid : forall p s, marshal_plan p = Some s ->
  forall o, In o (Outbounds p) -> config_valid o.
Hypothesis normalizer_valid : forall t o o', normalize env t o = Some o' ->
  config_valid o -> config_valid o'.
(** Production adapters replace all routes at once. *)
Hypothesis batched : route_mode env <> PerClient.

(** ** Admission *)

Lemma digest_valid desired d o :
  digest desired = inr d -> In o (Outbounds desired) -> config_valid o.
Proof.
  unfold digest. destruct (marshal_plan desired) as [s|] eqn:E; [|done].
  intros _. by eapply marshal_valid.
Qed.

Definition admitted (desired : DesiredPlan) (recovering : bool) (g : Gateway)
    (a : Admission) : Prop :=
  Validate desired = None /\ Generation (plan (applied g)) <= Generation desired /\
  match a with
  | Noop => Generation desired = Generation (plan (applied g)) /\ runtimeReady g = true /\
      digest desired = inr (Digest (applied g))
  | Proceed d _ => digest desired = inr d /\
      (Generation desired = Generation (plan (applied g)) ->
       d = Digest (applied g) /\ runtimeReady g = false)
  end.

(** Admission only reads. *)
Lemma admit_plan_spec desired recovering recoveries g :
  (exists e, admit_plan desired recovering recoveries g = (inl e, g)) \/
  (exists a, admit_plan desired recovering recoveries g = (inr a, g) /\
     admitted desired recovering g a).
Proof.
  unfold admit_plan, lift_plan, bind, raise, ret, get.
  destruct (Validate desired) as [e|] eqn:Ev; [left; eauto|].
  destruct (ValidateFlowRecoveries desired recoveries) as [e|]; [left; eauto|].
  destruct (digest desired) as [e|d] eqn:Ed; [left; eauto|].
  destruct (Generation desired <? Generation (plan (applied g))) eqn:E1; [left; eauto|]. z_bool.
  cbv zeta.
  destruct (Generation desired =? Generation (plan (applied g))) eqn:E2; z_bool; cbn [andb].
  - destruct (str_eqb (Digest (applied g)) d) eqn:E3; str_bool; cbn [andb negb]; [|left; eauto].
    destruct (runtimeReady g) eqn:E4.
    + right. exists Noop. split; [done|]. unfold admitted. rewrite E3. split_and!; done || lia.
    + rewrite (proj2 (Z.ltb_ge _ _)) by lia. rewrite andb_false_r. right. eexists.
      split; [done|]. unfold admitted. split_and!; [done|lia|done|by rewrite E3].
  - case_if.
    + destruct (currentFlowRecoveries _ _); [left; eauto|]. right. eexists.
      split; [done|]. unfold admitted. split_and!; [done|lia|done|intros; lia].
    + right. eexists. split; [done|]. unfold admitted. split_and!; [done|lia|done|intros; lia].
Qed.

(** ** What is installed *)

Lemma names_In p id ok : names p id ok -> In id (map ID (Outbounds p)).
Proof. intros (o & Ho & <- & _). by apply in_map. Qed.

Lemma wf_installable p :
  well_formed p -> (forall o, In o (Outbounds p) -> config_valid o) ->
  installable (Clients p) (Outbounds p).
Proof.
  intros [_ _ _ _ _ Hids _ _ _ Hroutes] Hv. split; [done|done|].
  intros id Hid. unfold refs in Hid.
  rewrite elem_of_list_to_set, list_elem_of_In, in_flat_map in Hid.
  destruct Hid as (r & Hr & Hid). apply Hroutes in Hr. unfold route_refs in Hid.
  apply filter_In in Hid as [Hid Hne]. apply negb_true_iff, str_eqb_neq in Hne.
  destruct Hr as [_ Ht Hu Ht' Hu' Hd Htr Hur].
  destruct Hid as [<-|[<-|[<-|[<-|[<-|[]]]]]]; eapply names_In.
  - apply Ht'. destruct (BlockTCP r); [|done]. by destruct Hne; apply Ht.
  - apply Hu'. destruct (BlockUDP r); [|done]. by destruct Hne; apply Hu.
  - by apply Hd.
  - by apply Htr.
  - by apply Hur.
Qed.

Definition normalized (o o' : Outbound) : Prop :=
  ID o' = ID o /\ Protocol o' = Protocol o /\ (config_valid o -> config_valid o').

Lemma normalize_each_spec l g :
  quiet_step g (normalize_each env l g).2 /\
  forall items, (normalize_each env l g).1 = inr items -> Forall2 normalized l items.
Proof.
  revert g. induction l as [|o l IH]; intros g; cbn [normalize_each].
  { split; [apply quiet_refl|]. intros items [= <-]. constructor. }
  unfold bind, contextCancelled, NormalizeOutbound, raise, ret.
  destruct (cancelled env (trace g)); [split; [apply quiet_refl|done]|].
  destruct (normalize env (trace g) o) as [o'|] eqn:En; [|split; [by apply quiet_event|done]].
  destruct (negb _ || negb _) eqn:E; [split; [by apply quiet_event|done]|].
  apply orb_false_iff in E as [E1 E2]. apply negb_false_iff in E1, E2. str_bool.
  set (g1 := record_event _ g). destruct (IH g1) as [H1 H2]. destruct (normalize_each env l g1) as [[e|rest] g2]; simpl in *.
  - split; [|done]. eapply quiet_trans; [|done]. by apply quiet_event.
  - split; [eapply quiet_trans; [|done]; by apply quiet_event|].
    intros items [= <-]. constructor; [|by apply H2]. split_and!; [done|done|].
    by eapply normalizer_valid.
Qed.

Lemma runtime_outbounds_spec desired recovering d g :
  Validate desired = None -> digest desired = inr d ->
  quiet_step g (runtime_outbounds env desired recovering g).2 /\
  forall items, (runtime_outbounds env desired recovering g).1 = inr items ->
    installable (Clients desired) items /\ map ID items = map ID (Outbounds desired) /\
    (recovering = false -> items = Outbounds desired).
Proof.
  intros Hv Hd. apply Validate_none in Hv as Hw.
  assert (forall o, In o (Outbounds desired) -> config_valid o) as Hc
    by (intros o; by eapply digest_valid).
  unfold runtime_outbounds. destruct recovering.
  2: { split; [apply quiet_refl|]. intros items [= <-]. split; [by apply wf_installable|done]. }
  assert (quiet_step g (normalizeRecoveryOutbounds env (Outbounds desired) g).2 /\
    forall items, (normalizeRecoveryOutbounds env (Outbounds desired) g).1 = inr items ->
      map ID items = map ID (Outbounds desired) /\ forall o, In o items -> config_valid o)
    as [H1 H2].
  { unfold normalizeRecoveryOutbounds. destruct (normalizes env).
    - destruct (normalize_each_spec (Outbounds desired) g) as [Hq Hf]. split; [done|].
      intros items Hi. apply Hf in Hi. clear -Hi Hc. induction Hi as [|o o' l l' Ho Hl IH]; [done|].
      destruct IH as [E Hv]; [intros x Hx; apply Hc; by right|]. destruct Ho as (Hid & _ & Ho).
      simpl. rewrite Hid, E. split; [done|]. intros x [<-|Hx]; [|by apply Hv].
      apply Ho, Hc. by left.
    - split; [apply quiet_refl|]. intros items [= <-]. done. }
  unfold bind. destruct (normalizeRecoveryOutbounds env (Outbounds desired) g) as [[e|items] g1];
    simpl in *; [done|].
  destruct (H2 items eq_refl) as [Hids Hvalid].
  destruct (Validate (desired <| Outbounds := items |>)) as [e|] eqn:E; simpl; [done|].
  split; [done|]. intros items' [= <-]. split_and!; [|done|done].
  apply Validate_none in E. by apply (wf_installable _ E).
Qed.

(** ** Applying *)

Record installed_plan (desired : DesiredPlan) (recovering : bool) (g : Gateway) : Prop := {
  ip_guarded : guarded g;
  ip_plan : plan (applied g) = desired;
  ip_disk : exists a, disk g = Some a /\ plan a = desired;
  ip_settled : pendingAdds g = ∅ /\ pendingRemoves g = ∅;
  ip_routes : installed (trace g) = Some (sortedRoutes (Clients desired));
  ip_outbounds : dom (runtimeOutbounds g) = list_to_set (map ID (Outbounds desired));
  ip_content : recovering = false -> forall o, In o (Outbounds desired) -> exists o',
    runtimeOutbounds g !! ID o = Some o' /\ equalOutbound o' o = true;
  ip_ready : runtimeReady g = negb recovering
}.

Lemma installed_quiet desired recovering g g' :
  quiet_step g g' -> installed_plan desired recovering g -> installed_plan desired recovering g'.
Proof.
  intros Hq [H1 H2 (a & Ha & Hd) [H4 H4'] H5 H6 H7 H8].
  pose proof (quiet_guarded _ _ Hq H1) as Hg.
  destruct Hq as [(t & E & F) E1 E2 E3 E4 _ E5 E6].
  destruct (quiet_trace (trace g) t F) as (_ & P2 & _).
  split; rewrite ?E, ?E1, ?E2, ?E3, ?E4, ?E5, ?P2; try done.
  destruct E6 as [->|(b & -> & Hb)]; eexists; split; try done. congruence.
Qed.

(** An attempt that fails leaves the applied plan; it has touched nothing, or
    the gateway is no longer ready. *)
Definition apply_failed (g0 g : Gateway) : Prop :=
  plan (applied g) = plan (applied g0) /\
  (quiet_step g0 g \/ (guarded g /\ runtimeReady g = false)).

Definition apply_done (desired : DesiredPlan) (recovering : bool) (g0 g : Gateway) : Prop :=
  Validate desired = None /\ Generation (plan (applied g0)) <= Generation desired /\
  ((quiet_step g0 g /\ runtimeReady g0 = true /\
    Generation desired = Generation (plan (applied g0)) /\
    digest desired = inr (Digest (applied g0))) \/
   installed_plan desired recovering g).

Lemma failed_quiet g0 g : quiet_step g0 g -> apply_failed g0 g.
Proof. intros Hq. split; [apply Hq|by left]. Qed.

Lemma guarded_same g g' :
  trace g' = trace g -> runtimeOutbounds g' = runtimeOutbounds g ->
  pendingAdds g' = pendingAdds g -> pendingRemoves g' = pendingRemoves g ->
  guarded g -> guarded g'.
Proof. intros E1 E2 E3 E4 [H1 H2 H3 H4 H5]. by split; rewrite ?E1, ?E2, ?E3, ?E4. Qed.

(** The runtime is complete; only the record of it is missing. *)
Lemma persist_spec desired recovering d pending items a0 d0 g :
  installable (Clients desired) items -> map ID items = map ID (Outbounds desired) ->
  (recovering = false -> items = Outbounds desired) ->
  complete a0 d0 (Clients desired) items g ->
  match (persist env {| plan := desired; Digest := d; PendingFlowRecoveries := pending |}
           PersistFailed ;;;
         (if negb recovering then
            modify (fun g => g <| runtimeReady := true |>) ;;;
            ignore (retryFlowRecoveriesLocked env)
          else ret tt)) g with
  | (inr _, g') => installed_plan desired recovering g'
  | (inl _, g') => plan (applied g') = plan a0 /\ guarded g' /\ runtimeReady g' = false
  end.
Proof.
  intros Hi Hids Hit [[Hg Ha Hd Hr Hp Hag] [Hs1 Hs2] Hro Hpr]. subst a0.
  set (a := {| plan := desired; Digest := d; PendingFlowRecoveries := pending |}).
  unfold persist, require, writeAppliedPlan, bind, raise, ret.
  set (reply := write env (trace g) a).
  assert (quiet_step g (record_event (EvWrite a reply) g)) as Hq by by apply quiet_event.
  assert (guarded (record_event (EvWrite a reply) g)) as Hg' by by eapply quiet_guarded.
  clear Hq. destruct reply; cbn beta iota.
  2: { split; [reflexivity|]. split; [exact Hg'|exact Hr]. }
  2: { split; [reflexivity|]. split; [|exact Hr]. eapply guarded_same, Hg'; reflexivity. }
  set (g1 := (record_event (EvWrite a Written) g) <| disk := Some a |> <| applied := a |>).
  assert (installed_plan desired recovering (g1 <| runtimeReady := negb recovering |>)) as H1.
  { split.
    - eapply guarded_same, Hg'; reflexivity.
    - reflexivity.
    - by exists a.
    - by split.
    - simpl. by rewrite installed_snoc.
    - change (dom (runtimeOutbounds g) = list_to_set (map ID (Outbounds desired))).
      apply set_eq. intros id.
      by rewrite elem_of_dom, Hpr, Hids, elem_of_list_to_set, list_elem_of_In.
    - intros Hrec o Ho. rewrite <- (Hit Hrec) in Ho.
      destruct (proj2 (Hpr (ID o)) (in_map ID _ _ Ho)) as [o' Ho']. exists o'. split; [exact Ho'|].
      eapply Hag; [done|]. by apply (item_next (Clients desired)).
    - reflexivity. }
  destruct recovering; cbn [negb] in *.
  - assert (g1 <| runtimeReady := false |> = g1) as E; [|by rewrite E in H1].
    unfold g1. simpl. rewrite <- Hr. by destruct g.
  - unfold modify, ignore. eapply installed_quiet; [apply quietly_retry|]. exact H1.
Qed.

Lemma apply_spec desired recovering recoveries g0 :
  guarded g0 ->
  match applyLocked env desired recovering recoveries g0 with
  | (inr _, g) => apply_done desired recovering g0 g
  | (inl _, g) => apply_failed g0 g
  end.
Proof.
  intros Hg0. unfold applyLocked. unfold bind at 1.
  destruct (admit_plan_spec desired recovering recoveries g0) as [[e ->]|(a & -> & Hv & Hle & Ha)].
  { apply failed_quiet, quiet_refl. }
  destruct a as [|d current].
  { unfold ignore. destruct Ha as (? & ? & ?). split_and!; [done|done|]. left.
    split_and!; [apply quietly_retry|done..]. }
  destruct Ha as [Hd _]. unfold bind at 1.
  pose proof (quietly_prepare env desired current recovering g0) as Hq1.
  destruct (prepareFlowRecoveriesLocked env desired current recovering g0) as [[e|pending] g1];
    [by apply failed_quiet|]. cbn [snd] in Hq1. unfold bind at 1.
  destruct (runtime_outbounds_spec desired recovering d g1 Hv Hd) as [Hq2 Hitems].
  pose proof (quiet_trans _ _ _ Hq1 Hq2) as Hq.
  destruct (runtime_outbounds env desired recovering g1) as [[e|items] g2];
    [by apply failed_quiet|]. cbn [fst snd] in *.
  destruct (Hitems items eq_refl) as (Hin & Hids & Hit). clear Hitems Hq1 Hq2.
  unfold bind at 1.
  pose proof (install_spec env (applied g2) (disk g2) (Clients desired) items Hin desired g2
    batched eq_refl (quiet_guarded _ _ Hq Hg0) eq_refl eq_refl g2 eq_refl) as Hinst.
  destruct (install env desired items g2) as [[e|[]] g3].
  { destruct Hinst as [->|(H1 & H2 & H3 & H4)]; [by apply failed_quiet|].
    split; [rewrite H2; apply Hq|by right]. }
  pose proof (persist_spec desired recovering d pending items _ _ g3 Hin Hids Hit Hinst) as Hp.
  match goal with |- match ?x with _ => _ end => destruct x as [[e|[]] g4] end.
  - destruct Hp as (H1 & H2 & H3). split; [rewrite H1; apply Hq|by right].
  - split_and!; [done|done|by right].
Qed.

(** ** Sequences of operations *)

(** The entry points, in the order in which they take the lock.  The flag that
    [InvalidateRuntime] stores before it waits for the lock is a step of its
    own; what an application read of the flag before waiting is arbitrary. *)
Inductive Operation :=
  | OpApply (recoveringAtAdmission : bool) (desired : DesiredPlan) (recoveries : list FlowRecovery)
  | OpInvalidateStore
  | OpInvalidateLocked
  | OpRehydrate
  | OpRetry.

Definition perform (g : Gateway) (op : Operation) : Gateway :=
  match op with
  | OpApply admission desired recoveries => (ApplyWithRecovery env admission desired recoveries g).2
  | OpInvalidateStore => InvalidateRuntime_store g
  | OpInvalidateLocked => InvalidateRuntime_locked g
  | OpRehydrate => (Rehydrate env g).2
  | OpRetry => (RetryFlowRecoveries env g).2
  end.

Definition run_all (file : option AppliedPlan) (ops : list Operation) : Gateway :=
  fold_left perform ops (NewReconciler file).

Definition invariant (g : Gateway) : Prop := guarded g /\ serving g.

Lemma invariant_quiet g g' : quiet_step g g' -> invariant g -> invariant g'.
Proof. intros Hq [? ?]. split; [by eapply quiet_guarded|by eapply quiet_serving]. Qed.

Lemma invariant_failed g g' : apply_failed g g' -> invariant g -> invariant g'.
Proof.
  intros [_ [Hq|[Hg Hr]]] Hi; [by eapply invariant_quiet|]. split; [done|]. intros ?. congruence.
Qed.

Lemma installed_serving desired recovering g ready :
  installed_plan desired recovering g ->
  serving (g <| runtimeReady := ready |>) /\ guarded (g <| runtimeReady := ready |>).
Proof.
  intros [H1 H2 H3 [H4 H5] H6 H7 H8 H9]. split; [|by eapply guarded_same, H1].
  intros _ _. simpl. by rewrite H2, H6, H7.
Qed.

Lemma invariant_ready g : invariant g -> runtimeReady g = true \/ Generation (plan (applied g)) = 0 ->
  invariant (g <| runtimeReady := true |> <| recoveryRequired := false |>).
Proof.
  intros [Hg Hs] Hr. split; [by eapply guarded_same, Hg|].
  unfold serving in *. simpl. intros _ H0. destruct Hr as [Hr|Hr]; [by apply Hs|lia].
Qed.

Lemma forget_invariant g required : invariant (forget_runtime g <| recoveryRequired := required |>) <->
  invariant (forget_runtime g).
Proof. split; intros [[H1 H2 H3 H4 H5] Hs]; (split; [by split|exact Hs]). Qed.

Lemma invariant_forget g : invariant g -> invariant (forget_runtime g).
Proof.
  intros [[H1 _ _ _ _] _]. split; [|by intros ?].
  split; simpl; rewrite ?possibly_routed_snoc; simpl.
  - by apply safe_snoc.
  - set_solver.
  - set_solver.
  - set_solver.
  - split_and!; intros id o Ho; by rewrite lookup_empty in Ho.
Qed.

Lemma invariant_apply desired recovering recoveries g :
  invariant g -> invariant (applyLocked env desired recovering recoveries g).2.
Proof.
  intros Hi. pose proof (apply_spec desired recovering recoveries g (proj1 Hi)) as Ha.
  destruct (applyLocked env desired recovering recoveries g) as [[e|[]] g']; simpl.
  - by eapply invariant_failed.
  - destruct Ha as (_ & _ & [[Hq _]|Hp]); [by eapply invariant_quiet|].
    destruct (installed_serving _ _ _ (runtimeReady g') Hp) as [Hs Hg].
    assert (g' <| runtimeReady := runtimeReady g' |> = g') as E by by destruct g'.
    rewrite E in Hs, Hg. by split.
Qed.

Lemma invariant_rehydrate_from g : invariant g ->
  invariant ((applied_ <- get applied ;;
              if Generation (plan applied_) =? 0 then recovered
              else applyLocked env (plan applied_) true [] ;;; recovered) g).2.
Proof.
  intros Hi. unfold bind at 1, get at 1.
  destruct (Generation (plan (applied g)) =? 0) eqn:E; z_bool.
  { apply invariant_ready; [done|by right]. }
  unfold bind. pose proof (apply_spec (plan (applied g)) true [] g (proj1 Hi)) as Ha.
  destruct (applyLocked env (plan (applied g)) true [] g) as [[e|[]] g']; simpl.
  - by eapply invariant_failed.
  - destruct Ha as (_ & _ & [(Hq & Hr & _)|Hp]).
    + apply invariant_ready; [by eapply invariant_quiet|]. left.
      by rewrite (qs_ready _ _ Hq).
    + destruct (installed_serving _ _ _ true Hp) as [Hs Hg].
      split; [by eapply guarded_same, Hg|exact Hs].
Qed.

Lemma invariant_rehydrate g : invariant g -> invariant (Rehydrate env g).2.
Proof.
  intros Hi. unfold Rehydrate. unfold bind at 1, get at 1. unfold bind at 1.
  destruct (recoveryRequired g); cbn [negb]; [by apply invariant_rehydrate_from|].
  apply invariant_rehydrate_from, forget_invariant, invariant_forget, Hi.
Qed.

Lemma invariant_perform g op : invariant g -> invariant (perform g op).
Proof.
  intros Hi. destruct op as [b desired recoveries| | | |]; simpl.
  - unfold ApplyWithRecovery, bind, get. case_if; [done|]. by apply invariant_apply.
  - destruct Hi as [Hg Hs]. split; [by eapply guarded_same, Hg|exact Hs].
  - by apply invariant_forget.
  - by apply invariant_rehydrate.
  - unfold RetryFlowRecoveries, bind, get. case_if; [done|].
    eapply invariant_quiet; [apply quietly_retry|done].
Qed.

Lemma invariant_new file : invariant (NewReconciler file).
Proof.
  split; [|by intros ?]. split; simpl; [done|set_solver|set_solver|set_solver|].
  split_and!; intros id o Ho; by rewrite lookup_empty in Ho.
Qed.

Lemma invariant_run file ops : invariant (run_all file ops).
Proof.
  unfold run_all. generalize (invariant_new file). generalize (NewReconciler file).
  induction ops as [|op ops IH]; intros g Hg; [done|]. by apply IH, invariant_perform.
Qed.

(** ** Properties *)

(** C8.  Make before break.  Over any sequence of applications, rehydrations,
    runtime losses and recovery passes, started from any state file and with
    any answers of the adapter (which replaces all routes in one call), no
    outbound is ever drained or removed while the routes on the gateway may
    refer to it; after a failed replacement, while the old or the new routes
    may. *)
Theorem never_removes_a_routed_outbound file ops : safe (trace (run_all file ops)).
Proof. apply invariant_run. Qed.

(** C31.  A gateway that is ready serves the plan it has applied: the routes
    that were last acknowledged are those of the plan, the outbounds known to
    be installed are exactly the plan's, and no addition or removal is in
    doubt.  So the application that finds nothing to do leaves nothing undone. *)
Theorem ready_gateway_serves_applied_plan file ops :
  let g := run_all file ops in
  runtimeReady g = true -> 0 < Generation (plan (applied g)) ->
  installed (trace g) = Some (sortedRoutes (Clients (plan (applied g)))) /\
  dom (runtimeOutbounds g) = list_to_set (map ID (Outbounds (plan (applied g)))) /\
  pendingAdds g = ∅ /\ pendingRemoves g = ∅.
Proof. apply invariant_run. Qed.

(** C30.  An application succeeds as a whole or changes no commitment.  If it
    returns without an error, the plan is well-formed, its generation is not
    older than the applied one, the gateway is ready at that generation, and a
    newer plan is applied, persisted and installed outbound by outbound.  If it
    returns an error, the applied plan is the one before, and a gateway that
    still claims to be ready has its outbounds and routes untouched. *)
Theorem apply_all_or_keep file ops admission desired recoveries :
  let g := run_all file ops in
  match ApplyWithRecovery env admission desired recoveries g with
  | (inr _, g') =>
      well_formed desired /\ Generation (plan (applied g)) <= Generation desired /\
      Generation (plan (applied g')) = Generation desired /\ runtimeReady g' = true /\
      (Generation (plan (applied g)) < Generation desired ->
         plan (applied g') = desired /\ (exists a, disk g' = Some a /\ plan a = desired) /\
         installed (trace g') = Some (sortedRoutes (Clients desired)) /\
         dom (runtimeOutbounds g') = list_to_set (map ID (Outbounds desired)) /\
         forall o, In o (Outbounds desired) -> exists o',
           runtimeOutbounds g' !! ID o = Some o' /\ equalOutbound o' o = true)
  | (inl _, g') =>
      plan (applied g') = plan (applied g) /\
      (runtimeReady g' = true -> runtimeReady g = true /\
         runtimeOutbounds g' = runtimeOutbounds g /\ installed (trace g') = installed (trace g))
  end.
Proof.
  intros g. pose proof (invariant_run file ops) as [Hg _]. fold g in Hg.
  unfold ApplyWithRecovery, bind at 1, get.
  destruct (admission || recoveryRequired g); [by split|].
  pose proof (apply_spec desired false recoveries g Hg) as Ha.
  destruct (applyLocked env desired false recoveries g) as [[e|[]] g'].
  - destruct Ha as [Hp [Hq|[_ Hr]]]; split; try done; [|congruence].
    destruct Hq as [(t & E & F) E1 _ _ E2 _ _ _]. rewrite E, E1, E2.
    destruct (quiet_trace (trace g) t F) as (_ & -> & _). done.
  - destruct Ha as (Hv & Hle & Ha). apply Validate_none in Hv. split; [done|]. split; [done|].
    destruct Ha as [(Hq & Hr & Hgen & _)|[_ H2 H3 _ H5 H6 H7 H8]].
    + rewrite (qs_plan _ _ Hq), (qs_ready _ _ Hq). split_and!; [done|done|lia].
    + rewrite H2. split_and!; [done|done|]. auto 10.
Qed.

End Runs.

(** ** Progress *)

(** The adapter and the state file answer every call. *)
Record cooperative (env : Env) : Prop := {
  co_add : forall t o, add_ok env t o = true;
  co_route : forall t r, route_ok env t r = true;
  co_routes : forall t rs, routes_ok env t rs = true;
  co_drain : forall t id, drain_ok env t id = true;
  co_remove : forall t id, remove_ok env t id = true;
  co_write : forall t a, write env t a = Written
}.

Definition total {A : Type} (m : Op A) : Prop := forall g, exists a, (m g).1 = inr a.

Lemma total_ret {A : Type} (a : A) : total (ret a).
Proof. intros g. by exists a. Qed.

Lemma total_bind {A B : Type} (m : Op A) (k : A -> Op B) :
  total m -> (forall a, total (k a)) -> total (bind m k).
Proof.
  intros Hm Hk g. unfold bind. destruct (Hm g) as [a E]. destruct (m g) as [r g']. simpl in E.
  subst. apply Hk.
Qed.

(** A call whose answer is always yes. *)
Lemma total_call_then {A : Type} ok event (k : bool -> Op A) :
  (forall t, ok t = true) -> total (k true) -> total (bind (call ok event) k).
Proof. intros Hok Hk g. unfold bind, call. rewrite Hok. apply Hk. Qed.

Lemma total_forM {A : Type} (l : list A) (f : A -> Op unit) :
  (forall x, total (f x)) -> total (forM l f).
Proof.
  intros Hf. unfold forM. induction l as [|x l IH]; simpl; [apply total_ret|].
  apply total_bind; [done|by intros []].
Qed.

Lemma total_modify f : total (modify f : Op unit).
Proof. intros g. by eexists. Qed.

Lemma total_get {A : Type} (f : Gateway -> A) : total (get f).
Proof. intros g. by eexists. Qed.

Lemma total_ignore (m : Op unit) : total (ignore m).
Proof. intros g. by eexists. Qed.

Section Progress.
Context `{Json} (env : Env) (Henv : cooperative env).

Ltac answered := first
  [ apply total_call_then; [intros ?; apply Henv|cbn [negb]] | apply total_bind; [|intros ?] ].

Lemma total_require ok event e : (forall t, ok t = true) -> total (require (call ok event) e).
Proof. intros Hok. unfold require. apply total_call_then; [done|apply total_ret]. Qed.

Lemma total_normalize_pending desired :
  total (normalizePendingOutboundOperations env desired).
Proof.
  unfold normalizePendingOutboundOperations. apply total_bind; [apply total_get|]. intros adds.
  apply total_bind; [|intros _; apply total_bind;
    [|intros _; apply total_bind; [apply total_get|intros removes]]];
  apply total_forM; intros o; unfold retry_add, discard_add, retry_remove; repeat answered;
  apply total_modify.
Qed.

Lemma total_replace_routes ready routes current next :
  total (replace_routes env ready routes current next).
Proof.
  unfold replace_routes. destruct (route_mode env).
  - apply total_bind; [apply total_get|]. intros a. apply total_require. intros t. apply Henv.
  - apply total_require. intros t. apply Henv.
  - apply total_forM. intros r. apply total_require. intros t. apply Henv.
Qed.

Lemma install_returns desired items g :
  validateImmutableOutboundIDs (runtimeOutbounds g) (outboundsByID items) = None ->
  exists a, (install env desired items g).1 = inr a.
Proof.
  intros Hi. unfold install. cbv zeta. unfold bind at 1, get at 1. rewrite Hi.
  revert g Hi. intros g _. cbn [lift_plan].
  match goal with |- exists a, (?m g).1 = inr a => enough (total m) as Hm by apply Hm end.
  apply total_bind; [apply total_ret|]. intros _. apply total_bind; [apply total_get|].
  intros ready. apply total_bind; [apply total_modify|]. intros _.
  apply total_bind; [apply total_normalize_pending|]. intros _.
  apply total_bind; [apply total_get|]. intros current.
  apply total_bind; [|intros _; apply total_bind; [apply total_replace_routes|intros _]].
  - apply total_forM. intros o. unfold add_missing. case_match; [|apply total_ret].
    answered. apply total_modify.
  - apply total_forM. intros o. unfold remove_obsolete, require.
    apply total_bind; [apply total_require; intros t; apply Henv|]. intros _.
    answered. apply total_modify.
Qed.

Lemma total_prepare desired recoveries rehydrating :
  total (prepareFlowRecoveriesLocked env desired recoveries rehydrating).
Proof.
  unfold prepareFlowRecoveriesLocked. apply total_bind; [apply total_get|]. intros a. cbv zeta.
  case_if; [apply total_ret|]. apply total_bind; [|intros ?; apply total_ret].
  case_if; [by intros g; eexists|apply total_ret].
Qed.

Lemma total_persist next e : total (persist env next e).
Proof.
  intros g. unfold persist, require, writeAppliedPlan, bind. rewrite (co_write _ Henv).
  by eexists.
Qed.

Lemma apply_succeeds desired d g :
  recoveryRequired g = false -> well_formed desired -> digest desired = inr d ->
  Generation (plan (applied g)) < Generation desired ->
  validateImmutableOutboundIDs (runtimeOutbounds g) (outboundsByID (Outbounds desired)) = None ->
  exists g', ApplyWithRecovery env false desired [] g = (inr tt, g').
Proof.
  intros Hr Hw Hd Hgen Hi.
  enough (exists a, (ApplyWithRecovery env false desired [] g).1 = inr a) as [[] E].
  { destruct (ApplyWithRecovery env false desired [] g) as [r g']. simpl in E. subst. eauto. }
  unfold ApplyWithRecovery, bind at 1, get at 1. rewrite Hr. cbn [orb].
  unfold applyLocked. unfold bind at 1.
  assert (admit_plan desired false [] g = (inr (Proceed d []), g)) as ->.
  { apply Validate_none in Hw. unfold admit_plan, lift_plan, bind, raise, ret, get.
    rewrite Hw, Hd. unfold ValidateFlowRecoveries. simpl.
    rewrite (proj2 (Z.ltb_ge _ _)), (proj2 (Z.eqb_neq _ _)), (proj2 (Z.ltb_lt _ _)) by lia.
    by destruct (Clients desired). }
  unfold bind at 1. pose proof (quietly_prepare env desired [] false g) as Hq.
  destruct (total_prepare desired [] false g) as [pending Ep].
  destruct (prepareFlowRecoveriesLocked env desired [] false g) as [r g1]. simpl in Ep, Hq.
  subst r. cbn [runtime_outbounds]. unfold bind at 1, ret at 1. unfold bind at 1.
  destruct (install_returns desired (Outbounds desired) g1) as [[] Ei].
  { by rewrite (qs_runtime _ _ Hq). }
  destruct (install env desired (Outbounds desired) g1) as [r g2]. simpl in Ei. subst r.
  match goal with |- exists a, (?m g2).1 = inr a => enough (total m) as Hm by apply Hm end.
  apply total_bind; [apply total_persist|]. intros _. cbn [negb].
  apply total_bind; [apply total_modify|]. intros _. apply total_ignore.
Qed.
End Progress.

(** Applications converge.  Whatever failed before, as soon as the adapter
    and the state file answer, every well-formed plan of a newer generation
    that keeps the meaning of the outbounds already installed is applied. *)
Theorem cooperative_apply_succeeds `{Json} env desired d g :
  cooperative env ->
  recoveryRequired g = false -> well_formed desired -> digest desired = inr d ->
  Generation (plan (applied g)) < Generation desired ->
  validateImmutableOutboundIDs (runtimeOutbounds g) (outboundsByID (Outbounds desired)) = None ->
  exists g', ApplyWithRecovery env false desired [] g = (inr tt, g').
Proof. intros Henv. by apply apply_succeeds. Qed.

(** ** Witnesses *)

#[local] Existing Instance sample_json.

Lemma sample_marshal_valid p s :
  marshal_plan p = Some s -> forall o, In o (Outbounds p) -> config_valid o.
Proof. intros _ o _. right. by eexists. Qed.

Lemma sample_normalizer_valid broken t o o' :
  normalize (sample_env broken) t o = Some o' -> config_valid o -> config_valid o'.
Proof. intros [= <-]. done. Qed.

(** A switch to another outbound whose first removal fails, and its retry. *)
Definition sample_ops : list Operation :=
  [OpApply false (sample_plan 1 "vless-a" "dns-a") [];
   OpApply false (sample_plan 2 "vless-b" "dns-b") [];
   OpApply false (sample_plan 2 "vless-b" "dns-b") []].
Definition flaky : Env := sample_env (fun n => Nat.eqb n 8).

Definition removal_of (id : string) (ok : bool) (e : Event) : bool :=
  match e with EvRemove x b => str_eqb x id && Bool.eqb b ok | _ => false end.

Lemma never_removes_a_routed_outbound_witness :
  existsb (removal_of "dns-a" false) (trace (run_all flaky None sample_ops)) = true /\
  existsb (removal_of "dns-a" true) (trace (run_all flaky None sample_ops)) = true /\
  safe (trace (run_all flaky None sample_ops)).
Proof.
  split; [vm_compute; reflexivity|]. split; [vm_compute; reflexivity|].
  apply (never_removes_a_routed_outbound flaky sample_marshal_valid (sample_normalizer_valid _)).
  discriminate.
Defined.

Lemma ready_gateway_serves_applied_plan_witness :
  let g := run_all flaky None sample_ops in
  installed (trace g) = Some (sortedRoutes (Clients (plan (applied g)))) /\
  dom (runtimeOutbounds g) = list_to_set (map ID (Outbounds (plan (applied g)))) /\
  pendingAdds g = ∅ /\ pendingRemoves g = ∅.
Proof.
  apply (ready_gateway_serves_applied_plan flaky sample_marshal_valid (sample_normalizer_valid _));
    [discriminate|vm_compute; reflexivity|vm_compute; reflexivity].
Defined.

Definition sample_next : DesiredPlan := sample_plan 3 "vless-c" "dns-c".

Lemma apply_all_or_keep_witness :
  let g := run_all flaky None sample_ops in
  match ApplyWithRecovery flaky false sample_next [] g with
  | (inr _, g') =>
      well_formed sample_next /\ Generation (plan (applied g)) <= 3 /\
      Generation (plan (applied g')) = 3 /\ runtimeReady g' = true /\
      (Generation (plan (applied g)) < 3 ->
         plan (applied g') = sample_next /\ (exists a, disk g' = Some a /\ plan a = sample_next) /\
         installed (trace g') = Some (sortedRoutes (Clients sample_next)) /\
         dom (runtimeOutbounds g') = list_to_set (map ID (Outbounds sample_next)) /\
         forall o, In o (Outbounds sample_next) -> exists o',
           runtimeOutbounds g' !! ID o = Some o' /\ equalOutbound o' o = true)
  | (inl _, g') =>
      plan (applied g') = plan (applied g) /\
      (runtimeReady g' = true -> runtimeReady g = true /\
         runtimeOutbounds g' = runtimeOutbounds g /\ installed (trace g') = installed (trace g))
  end.
Proof.
  apply (apply_all_or_keep flaky sample_marshal_valid (sample_normalizer_valid _)).
  discriminate.
Defined.

Lemma reliable_cooperative : cooperative reliable.
Proof. by split. Qed.

(** After the failed switch, with a reliable adapter. *)
Definition sample_failed : Gateway := run_all flaky None (take 2 sample_ops).

Lemma cooperative_apply_succeeds_witness :
  runtimeReady sample_failed = false /\ Generation (plan (applied sample_failed)) = 1 /\
  exists g', ApplyWithRecovery reliable false (sample_plan 2 "vless-b" "dns-b") [] sample_failed =
    (inr tt, g').
Proof.
  split; [vm_compute; reflexivity|]. split; [vm_compute; reflexivity|].
  eapply (cooperative_apply_succeeds reliable (sample_plan 2 "vless-b" "dns-b")).
  - apply reliable_cooperative.
  - vm_compute. reflexivity.
  - apply Validate_none. vm_compute. reflexivity.
  - vm_compute. reflexivity.
  - vm_compute. reflexivity.
  - vm_compute. reflexivity.
Defined.

(** ** A lost invalidation

    [InvalidateRuntime] stores its flag before it waits for the lock.  A
    rehydration that takes the lock in between clears the flag again: the
    gateway has forgotten its outbounds, and yet the next plan is applied as if
    nothing had to be recovered. *)
Example invalidation_forgotten_by_rehydration :
  let g := run_all reliable None
    [OpApply false (sample_plan 1 "vless-a" "dns-a") [];
     OpInvalidateStore; OpRehydrate; OpInvalidateLocked] in
  runtimeOutbounds g = ∅ /\ runtimeReady g = false /\ recoveryRequired g = false /\
  (ApplyWithRecovery reliable false (sample_plan 2 "vless-b" "dns-b") [] g).1 = inr tt.
Proof. vm_compute. split_and!; reflexivity. Qed.
