(* ===== verification/PlanningKey.v ===== *)
(** The key of a retained coverage search (internal/scheduler/scheduler.go,
    [PlanningFingerprint], and internal/controller/critical_coverage_search.go):
    everything that can change a schedule, but not the exact time. *)
From Stdlib Require Import String.
From S2P Require Import Prelude GoOrder GoFloat GoSort GoStrings Sha256 SchedLoad SchedState.

#[local] Open Scope Z_scope.

(** The normalised candidate of a key. *)
Record criticalCoverageCandidateKey := {
  ck_ID : string;
  ck_RouteKey : string;
  ck_ProfileID : string;
  ck_Protocol : string;
  ck_FailureDomain : string;
  ck_ServingOnly : bool
}.

Record KeyPayload := {
  kp_Limit : Z;
  kp_Scheduler : string;
  kp_Candidates : list criticalCoverageCandidateKey
}.

(** What the code uses of [fmt] and [encoding/json]: the text of a policy under
    [%+v] and the encoding of a payload, which has no field that cannot be
    encoded. *)
Class Encoding : Type := {
  policy_text : Policy -> string;
  marshal_payload : KeyPayload -> string
}.

(** [%t]. *)
Definition bool_text (b : bool) : string := if b then "true" else "false".

Definition protocol_text (p : Protocol) : string :=
  match p with ProtocolVLESS => "vless" | ProtocolTor => "tor" | ProtocolNone => EmptyString end.

Definition concat_text (parts : list string) : string :=
  fold_right (fun a b => (a ++ b)%string) EmptyString parts.

Section Keys.
Context `{Encoding}.

Definition client_id_less (left right : Client) : bool := str_ltb (clientID left) (clientID right).

(** [!since.IsZero() && now.Sub(since) >= dwell]. *)
Definition dwelled (now since : Time) (dwell : Duration) : bool :=
  negb (time_is_zero since) && (dwell <=? time_sub now since).

(** The part of one client. *)
Definition client_text (now : Time) (p : Policy) (c : Client) : string :=
  let a := assignment c in
  (clientID c ++ ":" ++ TCP a ++ ":" ++ UDP a ++ ":" ++
   bool_text (is_active now (InactiveAfter p) c) ++ ":" ++
   bool_text (dwelled now (TCPSince a) (MinimumDwell p)) ++ ":" ++
   bool_text (dwelled now (UDPSince a) (MinimumDwell p)) ++ "|" ++
   "preserve:" ++ bool_text (PreserveTCP c) ++ ":" ++ bool_text (PreserveUDP c) ++ "|" ++
   "reserve:" ++ rs_TCP (AppliedReserve c) ++ ":" ++ rs_UDP (AppliedReserve c) ++ "|")%string.

Definition streak_text (streaks_ : gmap string Z) (key : string) : string :=
  ("streak:" ++ key ++ ":" ++ decimal (default 0 (streaks_ !! key)) ++ "|")%string.

(** The excluded candidates of a client, each once, in order. *)
Definition exclusion_text (s : Scheduler) (client : string) : string :=
  let activeSet : gset string := list_to_set (map x_CandidateID (exclusions_of s client)) in
  concat_text (map (fun c => (client ++ ":" ++ c ++ "|")%string) (sort_strings (elements activeSet))).

Definition sorted_keys {A : Type} (m : gmap string A) : list string :=
  sort_strings (map fst (map_to_list m)).

(** What is hashed, once expired exclusions are gone. *)
Definition fingerprint_text (now : Time) (s : Scheduler) (clients : list Client) : string :=
  (policy_text (policy s) ++ "|" ++
   concat_text (map (client_text now (policy s)) (sort_slice client_id_less clients)) ++
   concat_text (map (streak_text (streaks s)) (sorted_keys (streaks s))) ++
   concat_text (map (exclusion_text s) (sorted_keys (exclusions s))))%string.

(** The fingerprint, and the scheduler without its expired exclusions. *)
Definition PlanningFingerprint (s : Scheduler) (now : Time) (clients : list Client) :
    string * Scheduler :=
  let s := compactExclusionsLocked s now in
  (hex_encode (sha256 (bytes_of (fingerprint_text now s clients))), s).

Definition candidate_id_less (left right : Candidate) : bool := str_ltb (ID left) (ID right).

Definition normalizeCriticalCoverageCandidate (c : Candidate) : criticalCoverageCandidateKey := {|
  ck_ID := ID c; ck_RouteKey := RouteKey c; ck_ProfileID := ProfileID c;
  ck_Protocol := protocol_text (proto c); ck_FailureDomain := FailureDomain c;
  ck_ServingOnly := ServingOnly c |}.

(** [criticalCoveragePlanningKeyWithProofMode]; the proof mode is not used. *)
Definition criticalCoveragePlanningKey (now : Time) (placement : Scheduler)
    (clients : list Client) (candidates : list Candidate) (limit : Z) : string * Scheduler :=
  let orderedClients := sort_slice client_id_less clients in
  let orderedCandidates := sort_slice candidate_id_less candidates in
  let '(fingerprint, placement) := PlanningFingerprint placement now orderedClients in
  let payload := {|
    kp_Limit := limit; kp_Scheduler := fingerprint;
    kp_Candidates := map normalizeCriticalCoverageCandidate orderedCandidates |} in
  (hex_encode (sha256 (bytes_of (marshal_payload payload))), placement).

(** ** Facts *)

Lemma sort_by_id_eq {A : Type} (id : A -> string) (l k : list A) :
  NoDup (map id l) -> l ≡ₚ k ->
  sort_slice (fun a b => str_ltb (id a) (id b)) l = sort_slice (fun a b => str_ltb (id a) (id b)) k.
Proof.
  intros Hnd Hp.
  assert (StrictWeak (fun _ : A => True) (fun a b => str_ltb (id a) (id b)))
    by (by apply (key_strict_weak _ _ id String.compare)).
  apply (sort_slice_Permutation_eq (fun _ => True) (fun a b => str_ltb (id a) (id b)) l k);
    [by apply List.Forall_forall| |done].
  intros x y Hx Hy H1 H2.
  assert (id x = id y) as E by (by apply str_ltb_antisym).
  clear -Hnd Hx Hy E. induction l as [|z l IH]; [done|]. cbn [map] in Hnd.
  apply NoDup_cons in Hnd as [Hz Hnd]. rewrite list_elem_of_In, in_map_iff in Hz.
  destruct Hx as [->|Hx], Hy as [->|Hy]; eauto; exfalso; apply Hz; eauto.
Qed.

(** The classes of a client that depend on the time. *)
Definition time_classes (now : Time) (p : Policy) (c : Client) : bool * bool * bool :=
  (is_active now (InactiveAfter p) c, dwelled now (TCPSince (assignment c)) (MinimumDwell p),
   dwelled now (UDPSince (assignment c)) (MinimumDwell p)).

(** A search survives what cannot change a schedule: the planning key is
    the same for any order of clients and candidates, and at any two times
    between which no client changes class (active, dwelled on TCP, dwelled on
    UDP) and no exclusion expires; computing it only drops expired exclusions. *)
Theorem planning_key_stable now now' s clients clients' candidates candidates' limit :
  NoDup (map clientID clients) -> NoDup (map ID candidates) ->
  clients ≡ₚ clients' -> candidates ≡ₚ candidates' ->
  (forall c, In c clients -> time_classes now (policy s) c = time_classes now' (policy s) c) ->
  compactExclusionsLocked s now = compactExclusionsLocked s now' ->
  criticalCoveragePlanningKey now s clients candidates limit =
    criticalCoveragePlanningKey now' s clients' candidates' limit /\
  (criticalCoveragePlanningKey now s clients candidates limit).2 = compactExclusionsLocked s now.
Proof.
  intros Hc Hk Hpc Hpk Htime Hex. unfold criticalCoveragePlanningKey, PlanningFingerprint.
  split; [|done]. rewrite <- Hex. unfold candidate_id_less, client_id_less.
  rewrite (sort_by_id_eq ID candidates candidates' Hk Hpk).
  rewrite (sort_by_id_eq clientID clients clients' Hc Hpc).
  assert (forall c, In c (sort_slice (fun a b => str_ltb (clientID a) (clientID b)) clients') ->
    client_text now (policy s) c = client_text now' (policy s) c) as Htext.
  { intros c Hin. rewrite sort_slice_In, <- list_elem_of_In, <- Hpc, list_elem_of_In in Hin.
    specialize (Htime c Hin). unfold time_classes in Htime. injection Htime as E1 E2 E3.
    unfold client_text. by rewrite E1, E2, E3. }
  set (ordered_ := sort_slice _ clients') in *.
  assert (fingerprint_text now (compactExclusionsLocked s now) ordered_ =
          fingerprint_text now' (compactExclusionsLocked s now) ordered_) as ->; [|done].
  unfold fingerprint_text. do 3 f_equal. simpl.
  rewrite (map_ext_in _ (client_text now' (policy s))); [done|].
  intros c Hin. apply Htext. by apply sort_slice_In in Hin.
Qed.
End Keys.

(** ** Witness *)

Definition sample_encoding : Encoding := {|
  policy_text := fun p => decimal (MinimumDwell p);
  marshal_payload := fun k => (decimal (kp_Limit k) ++ kp_Scheduler k ++
    concat_text (map ck_ID (kp_Candidates k)))%string |}.

Lemma planning_key_stable_witness :
  let clients := [sample_client "bob" "vless-a" "vless-a"; sample_client "alice" "vless-b" "vless-b"] in
  @criticalCoveragePlanningKey sample_encoding 1010 sample_scheduler clients sample_routes 2 =
    @criticalCoveragePlanningKey sample_encoding 1020 sample_scheduler (rev clients)
      (rev sample_routes) 2 /\
  (@criticalCoveragePlanningKey sample_encoding 1010 sample_scheduler clients sample_routes 2).2 =
    compactExclusionsLocked sample_scheduler 1010.
Proof.
  intros clients.
  apply (@planning_key_stable sample_encoding 1010 1020 sample_scheduler clients (rev clients)
    sample_routes (rev sample_routes) 2).
  - apply (bool_decide_unpack _). by vm_compute.
  - apply (bool_decide_unpack _). by vm_compute.
  - apply Permutation_rev.
  - apply Permutation_rev.
  - intros c [<-|[<-|[]]]; reflexivity.
  - reflexivity.
Defined.
