(* ===== verification/Coverage.v ===== *)
(** Critical coverage (internal/controller/critical_coverage_search.go and
    engine_capacity.go): what a set of routes has to provide for every client, the
    evaluation of a set by the scheduler, the static test that no set can, and
    the check of a schedule against the limit of active routes. *)
From Stdlib Require Import Ascii String.
From S2P Require Import Prelude Effects GoOrder GoFloat GoSort GoStrings SchedLoad SchedState.
From S2P Require Import SchedReserves Scheduling.

#[local] Open Scope Z_scope.
#[local] Open Scope effect_scope.

(** ** Requirements *)

Definition tcp_primary (client : string) : string := (client ++ ":tcp:primary")%string.
Definition udp_primary (client : string) : string := (client ++ ":udp:primary")%string.
Definition tcp_reserve (client : string) : string := (client ++ ":tcp:reserve")%string.
Definition udp_reserve (client : string) : string := (client ++ ":udp:reserve")%string.

Definition four_requirements (client : string) : list string :=
  [tcp_primary client; udp_primary client; tcp_reserve client; udp_reserve client].

(** The distinct client identifiers, sorted. *)
Definition distinct_clients (clients : list Client) : list string :=
  sort_strings (elements (list_to_set (map clientID clients) : gset string)).

Definition criticalCoverageRequirements (clients : list Client) : list string :=
  flat_map four_requirements (distinct_clients clients).

(** ** Evaluations *)

Record criticalCoverageEvaluation := {
  satisfied : gset string;
  witnessIDs : list string
}.

Definition zero_evaluation : criticalCoverageEvaluation :=
  {| satisfied := ∅; witnessIDs := [] |}.

Definition coverageComplete (e : criticalCoverageEvaluation) (required : list string) : bool :=
  Nat.eqb (size (satisfied e)) (length required).

Definition missingCoverage (e : criticalCoverageEvaluation) (required : list string) :
    list string :=
  List.filter (fun r => negb (bool_decide (r ∈ satisfied e))) required.

(** [add]: an absent filter admits every requirement. *)
Definition add_requirement (required : list string) (key : string) (present : bool)
    (s : gset string) : gset string :=
  if present && (bool_decide (required = []) || bool_decide (key ∈ required))
  then {[key]} ∪ s else s.

Definition not_empty (id : string) : bool := negb (str_eqb id EmptyString).

(** What one client's assignment and reserves satisfy. *)
Definition add_client (required : list string) (client : string) (a : Assignment)
    (r : ReserveSelection) (s : gset string) : gset string :=
  let s := add_requirement required (tcp_primary client) (not_empty (TCP a)) s in
  let s := add_requirement required (udp_primary client) (not_empty (UDP a)) s in
  let s := add_requirement required (tcp_reserve client)
             (not_empty (rs_TCP r) && negb (str_eqb (rs_TCP r) (TCP a))) s in
  add_requirement required (udp_reserve client)
    (not_empty (rs_UDP r) && negb (str_eqb (rs_UDP r) (UDP a))) s.

Definition witnesses_of (a : Assignment) (r : ReserveSelection) : list string :=
  List.filter not_empty [TCP a; UDP a; rs_TCP r; rs_UDP r].

(** The applied reserves by client; the last client of an identifier wins. *)
Definition applied_reserves (clients : list Client) : gmap string ReserveSelection :=
  fold_left (fun m c => <[clientID c := AppliedReserve c]> m) clients ∅.

Definition no_reserve : ReserveSelection := {| rs_TCP := EmptyString; rs_UDP := EmptyString |}.

(** One client of the schedule. *)
Definition evaluate_client (now : Time) (candidates : list Candidate) (required : list string)
    (requireActiveProof : bool) (assignments : gmap string Assignment)
    (applied : gmap string ReserveSelection) (acc : gset string * gset string)
    (client : string) : M (gset string * gset string) :=
  let a := default no_assignment (assignments !! client) in
  reserves <- selectReserves now client a candidates requireActiveProof
                (default no_reserve (applied !! client)) ;;
  ret (add_client required client a reserves acc.1,
       list_to_set (witnesses_of a reserves) ∪ acc.2).

(** [evaluateCriticalCoverageWithProofMode] on the read view. *)
Definition evaluate_view (now : Time) (clients : list Client) (candidates : list Candidate)
    (required : list string) (requireActiveProof : bool) : M criticalCoverageEvaluation :=
  result <- ScheduleContext now clients candidates ;;
  let ids := sort_strings (map fst (map_to_list (Assignments result))) in
  acc <- foldM (evaluate_client now candidates required requireActiveProof (Assignments result)
                  (applied_reserves clients)) (∅, ∅) ids ;;
  ret {| satisfied := acc.1; witnessIDs := sort_strings (elements acc.2) |}.

(** The view is a copy, so the scheduler itself does not change. *)
Definition evaluateCriticalCoverageWithProofMode (placement : Scheduler)
    (contextBudget : option nat) (now : Time) (clients : list Client)
    (candidates : list Candidate) (required : list string) (requireActiveProof : bool) :
    Error + criticalCoverageEvaluation :=
  (evaluate_view now clients candidates required requireActiveProof
     {| sched := placement; budget := contextBudget |}).1.

Definition evaluateCriticalCoverage placement contextBudget now clients candidates required :=
  evaluateCriticalCoverageWithProofMode placement contextBudget now clients candidates required
    true.
Definition evaluateProspectiveCriticalCoverage placement contextBudget now clients candidates
    required :=
  evaluateCriticalCoverageWithProofMode placement contextBudget now clients candidates required
    false.

(** ** The order of the search *)

Definition incumbent_use (clients : list Client) : gmap string Z :=
  fold_left (fun m c => add_at (UDP (assignment c)) 1 (add_at (TCP (assignment c)) 1 m))
    clients ∅.

Definition coverage_less (use : gmap string Z) (left right : Candidate) : bool :=
  let leftUse := at_key use (ID left) in
  let rightUse := at_key use (ID right) in
  if negb (leftUse =? rightUse) then rightUse <? leftUse
  else
    let leftBoth := TCPQualified left && UDPQualified left in
    let rightBoth := TCPQualified right && UDPQualified right in
    if negb (Bool.eqb leftBoth rightBoth) then leftBoth
    else if negb (PrimFloat.eqb (Score left) (Score right)) then fgt (Score left) (Score right)
    else str_ltb (ID left) (ID right).

Definition orderCriticalCoverageCandidates (clients : list Client)
    (candidates : list Candidate) : list Candidate :=
  sort_slice (coverage_less (incumbent_use clients)) candidates.

Definition coveragePool (ordered : list Candidate) (indices : list nat) : list Candidate :=
  omap (fun i => ordered !! i) indices.

(** [criticalCoveragePoolKey]: the identifiers, each with its length. *)
Definition pool_key_entry (id : string) : string :=
  (decimal (Z.of_nat (String.length id)) ++ ":" ++ id ++ "|")%string.
Definition criticalCoveragePoolKey (pool : list Candidate) : string :=
  fold_right (fun c key => (pool_key_entry (ID c) ++ key)%string) EmptyString pool.

(** ** No set of routes can cover *)

Definition distinctCoverageRoute (left right : Candidate) : bool :=
  if str_eqb (ID left) (ID right) then false
  else if negb (str_eqb (RouteKey left) EmptyString) && str_eqb (RouteKey left) (RouteKey right)
  then false
  else str_eqb (ProfileID left) EmptyString || negb (str_eqb (ProfileID left) (ProfileID right)).

Definition distinctCoverageReservePossible (primaries reserves : list Candidate) : bool :=
  existsb (fun primary => existsb (distinctCoverageRoute primary) reserves) primaries.

Definition udp_carrier (c : Candidate) : bool := is_vless c && UDPQualified c.

(** Eligible as a reserve, whatever the transport. *)
Definition reserve_candidate (requireActiveProof : bool) (c : Candidate) : bool :=
  ReserveEligible c && negb (requireActiveProof && (negb (ActiveEligible c) || negb (ActiveFresh c))).

Record Possible := {
  tcpPrimaryPossible : bool;
  udpPrimaryPossible : bool;
  tcpReservePossible : bool;
  udpReservePossible : bool
}.

Definition possible (candidates : list Candidate) (requireActiveProof : bool) : Possible :=
  let primaryTCP := List.filter TCPQualified candidates in
  let primaryUDP := List.filter udp_carrier candidates in
  let reserves := List.filter (reserve_candidate requireActiveProof) candidates in
  let reserveTCP := List.filter (fun c => TCPQualified c &&
    (negb (bool_decide (proto c = ProtocolTor)) || Warm c)) reserves in
  let reserveUDP := List.filter udp_carrier reserves in
  {| tcpPrimaryPossible := negb (bool_decide (primaryTCP = []));
     udpPrimaryPossible := negb (bool_decide (primaryUDP = []));
     tcpReservePossible := distinctCoverageReservePossible primaryTCP reserveTCP;
     udpReservePossible := distinctCoverageReservePossible primaryUDP reserveUDP |}.

Record PlanError := {
  e_Limit : Z;
  e_Unsatisfied : list string;
  e_SearchExhausted : bool;
  e_Evaluations : Z;
  e_Cause : string;
  e_ReserveIssues : list string
}.

Definition coverageReserveNotReady : string := "reserve_not_ready".
Definition coveragePrimaryUnusable : string := "primary_unusable".
Definition coverageGenerationPending : string := "generation_pending".
Definition coverageCriticalLimit : string := "critical_limit".

(** [Temporary]. *)
Definition Temporary (e : PlanError) : bool :=
  e_SearchExhausted e || str_eqb (e_Cause e) coverageReserveNotReady ||
  str_eqb (e_Cause e) coverageGenerationPending.

Definition cover_error (limit : Z) (missing : list string) (evaluations : Z) : PlanError := {|
  e_Limit := limit; e_Unsatisfied := missing; e_SearchExhausted := false;
  e_Evaluations := evaluations; e_Cause := EmptyString; e_ReserveIssues := [] |}.

Definition unless (b : bool) (requirement : string) : list string := if b then [] else [requirement].

Definition staticallyImpossibleCriticalCoverage (clients : list Client)
    (candidates : list Candidate) (limit : Z) (requireActiveProof : bool) : option PlanError :=
  if (limit <=? 0) || bool_decide (clients = []) then None
  else
    let p := possible candidates requireActiveProof in
    if tcpPrimaryPossible p && udpPrimaryPossible p && tcpReservePossible p &&
       udpReservePossible p
    then None
    else Some (cover_error limit (flat_map (fun client =>
      unless (tcpPrimaryPossible p) (tcp_primary client) ++
      unless (udpPrimaryPossible p) (udp_primary client) ++
      unless (tcpReservePossible p) (tcp_reserve client) ++
      unless (udpReservePossible p) (udp_reserve client)) (distinct_clients clients)) 0).

(** ** Checking a schedule against the limit *)

(** The four routes of a client, without the missing ones. *)
Definition critical_ids (assignments : gmap string Assignment)
    (reserves : gmap string ReserveSelection) (clients : list Client) : gset string :=
  list_to_set (flat_map (fun c =>
    witnesses_of (default no_assignment (assignments !! clientID c))
                 (default no_reserve (reserves !! clientID c))) clients).

(** Why a reserve was rejected. *)
Definition reserve_detail (requireActiveProof : bool) (id prospective : string) : string :=
  if str_eqb id EmptyString then "missing"
  else if requireActiveProof && str_eqb id prospective then "proof_not_fresh"
  else "not_admitted".

Definition add_issue (requireActiveProof : bool) (client network id prospective : string)
    (valid : bool) (issues : list string) : list string :=
  if valid || (8 <=? length issues)%nat then issues
  else issues ++ [(client ++ ":" ++ network ++ ":" ++
                   reserve_detail requireActiveProof id prospective)%string].

Definition limit_issue : string := "active-critical:limit".

(** What the loop over the clients collects. *)
Record Check_ := {
  ck_missing : list string;
  ck_issues : list string;
  ck_cause : string
}.

(** The validation of one client's reserves. *)
Definition validate_reserves (now : Time) (requireActiveProof : bool) (client : string)
    (a : Assignment) (reserve : ReserveSelection) (candidates critical : list Candidate) :
    M ReserveValidation :=
  if requireActiveProof
  then ValidateReserveSelectionContext now client a reserve candidates
  else
    selected <- SelectProspectiveReservesContext now client a critical reserve ;;
    ret {| rv_TCP := not_empty (rs_TCP reserve) && str_eqb (rs_TCP reserve) (rs_TCP selected);
           rv_UDP := not_empty (rs_UDP reserve) && str_eqb (rs_UDP reserve) (rs_UDP selected) |}.

(** The diagnosis of a rejected client, at most eight issues in all. *)
Definition diagnose (now : Time) (requireActiveProof : bool) (client : string)
    (a : Assignment) (reserve : ReserveSelection) (candidates : list Candidate)
    (validation : ReserveValidation) (issues : list string) : M (list string) :=
  if (negb (rv_TCP validation) || negb (rv_UDP validation)) && (length issues <? 8)%nat then
    prospective <-
      (if requireActiveProof
       then SelectProspectiveReservesContext now client a candidates reserve
       else ret no_reserve) ;;
    ret (add_issue requireActiveProof client udp (rs_UDP reserve) (rs_UDP prospective)
           (rv_UDP validation)
          (add_issue requireActiveProof client tcp (rs_TCP reserve) (rs_TCP prospective)
             (rv_TCP validation) issues))
  else ret issues.

Definition check_client (now : Time) (requireActiveProof : bool)
    (assignments : gmap string Assignment) (reserves : gmap string ReserveSelection)
    (candidates critical : list Candidate) (ck : Check_) (c : Client) : M Check_ :=
  checkContext ;;;
  let client := clientID c in
  let a := default no_assignment (assignments !! client) in
  let reserve := default no_reserve (reserves !! client) in
  let unusable := str_eqb (TCP a) EmptyString || str_eqb (UDP a) EmptyString in
  validation <- validate_reserves now requireActiveProof client a reserve candidates critical ;;
  issues <- diagnose now requireActiveProof client a reserve candidates validation
              (ck_issues ck) ;;
  ret {| ck_missing := ck_missing ck ++ unless (not_empty (TCP a)) (tcp_primary client) ++
                       unless (not_empty (UDP a)) (udp_primary client) ++
                       unless (rv_TCP validation) (tcp_reserve client) ++
                       unless (rv_UDP validation) (udp_reserve client);
         ck_issues := issues;
         ck_cause := if unusable then coveragePrimaryUnusable else ck_cause ck |}.

Definition validateScheduledCriticalCapacityWithProofMode (now : Time) (limit : Z)
    (clients : list Client) (candidates : list Candidate)
    (assignments : gmap string Assignment) (reserves : gmap string ReserveSelection)
    (requireActiveProof : bool) : M (option PlanError) :=
  if limit <=? 0 then ret None
  else
    let ids := critical_ids assignments reserves clients in
    let critical := List.filter (fun c => bool_decide (ID c ∈ ids)) candidates in
    ck <- foldM (check_client now requireActiveProof assignments reserves candidates critical)
            {| ck_missing := []; ck_issues := []; ck_cause := coverageReserveNotReady |} clients ;;
    let over := limit <? Z.of_nat (size ids) in
    if bool_decide (ck_missing ck = []) && negb over then ret None
    else ret (Some {|
      e_Limit := limit;
      e_Unsatisfied := sort_strings (ck_missing ck ++
        (if over then [limit_issue] else []));
      e_SearchExhausted := false; e_Evaluations := 0;
      e_Cause := if over then coverageCriticalLimit else ck_cause ck;
      e_ReserveIssues := ck_issues ck |}).

Definition validateScheduledCriticalCapacity now limit clients candidates assignments reserves :=
  validateScheduledCriticalCapacityWithProofMode now limit clients candidates assignments
    reserves true.
Definition validateProspectiveScheduledCriticalCapacity now limit clients candidates assignments
    reserves :=
  validateScheduledCriticalCapacityWithProofMode now limit clients candidates assignments
    reserves false.

(** ** Names of requirements *)

Lemma str_app_inj a b s t :
  (a ++ s)%string = (b ++ t)%string -> String.length s = String.length t -> a = b /\ s = t.
Proof.
  revert b. induction a as [|x a IH]; intros [|y b] H Hl; [done| | |].
  - change (s = String y b ++ t)%string in H. rewrite H, str_length_app in Hl. simpl in Hl. lia.
  - change (String x a ++ s = t)%string in H. rewrite <- H, str_length_app in Hl. simpl in Hl. lia.
  - change (String x (a ++ s) = String y (b ++ t)) in H. injection H as -> H.
    by destruct (IH b H Hl) as [-> ->].
Qed.

(** The four requirements of a client, by kind. *)
Inductive Kind := TCPPrimary | UDPPrimary | TCPReserve | UDPReserve.

#[export] Instance Kind_eq_dec : EqDecision Kind.
Proof. solve_decision. Defined.

Definition requirement (kind : Kind) (client : string) : string :=
  match kind with
  | TCPPrimary => tcp_primary client
  | UDPPrimary => udp_primary client
  | TCPReserve => tcp_reserve client
  | UDPReserve => udp_reserve client
  end.

Lemma requirement_inj k k' c c' : requirement k c = requirement k' c' -> k = k' /\ c = c'.
Proof.
  destruct k, k'; simpl; unfold tcp_primary, udp_primary, tcp_reserve, udp_reserve;
    intros H; apply str_app_inj in H as [? ?]; done.
Qed.

Lemma four_requirements_kinds client :
  four_requirements client = map (fun k => requirement k client)
    [TCPPrimary; UDPPrimary; TCPReserve; UDPReserve].
Proof. done. Qed.

Lemma distinct_clients_NoDup clients : NoDup (distinct_clients clients).
Proof. unfold distinct_clients. rewrite sort_strings_Permutation. apply NoDup_elements. Qed.

Lemma distinct_clients_In clients id :
  In id (distinct_clients clients) <-> In id (map clientID clients).
Proof.
  unfold distinct_clients.
  rewrite sort_strings_In, <- list_elem_of_In, elem_of_elements, elem_of_list_to_set.
  by rewrite list_elem_of_In.
Qed.

Lemma flat_map_NoDup {A B : Type} (f : A -> list B) (l : list A) :
  NoDup l -> (forall x, In x l -> NoDup (f x)) ->
  (forall x y b, In x l -> In y l -> In b (f x) -> In b (f y) -> x = y) -> NoDup (flat_map f l).
Proof.
  induction 1 as [|x l Hx Hl IH]; intros Hf Hinj; simpl; [constructor|].
  apply NoDup_app. split_and!.
  - apply Hf. by left.
  - intros b Hb Hb'. rewrite list_elem_of_In in Hb. rewrite list_elem_of_In in Hb'.
    apply in_flat_map in Hb' as (y & Hy & Hb'). apply Hx. apply list_elem_of_In.
    rewrite (Hinj x y b); [done|by left|by right|done|done].
  - apply IH; [intros y Hy; apply Hf; by right|].
    intros y z b Hy Hz. apply Hinj; by right.
Qed.

Lemma requirements_NoDup clients : NoDup (criticalCoverageRequirements clients).
Proof.
  apply flat_map_NoDup; [apply distinct_clients_NoDup| |].
  - intros c _. rewrite four_requirements_kinds.
    apply (NoDup_fmap_2_strong (fun k => requirement k c)).
    + intros k k' _ _ H. by apply requirement_inj in H as [? _].
    + apply (bool_decide_unpack _). by vm_compute.
  - intros x y b _ _ Hb Hb'. rewrite four_requirements_kinds, in_map_iff in Hb, Hb'.
    destruct Hb as (k & <- & _), Hb' as (k' & H & _). by apply requirement_inj in H as [_ ?].
Qed.

Lemma requirements_In clients key :
  In key (criticalCoverageRequirements clients) <->
  exists k c, In c clients /\ key = requirement k (clientID c).
Proof.
  unfold criticalCoverageRequirements. rewrite in_flat_map. setoid_rewrite distinct_clients_In.
  setoid_rewrite four_requirements_kinds. setoid_rewrite in_map_iff. split.
  - intros (id & (c & <- & Hc) & k & <- & _). eauto.
  - intros (k & c & Hc & ->). exists (clientID c). split; [eauto|]. exists k. split; [done|].
    destruct k; simpl; tauto.
Qed.

(** A set among the requirements is as large as they are only if it has all. *)
Lemma full_subset (s : gset string) (l : list string) :
  NoDup l -> (forall k, k ∈ s -> In k l) ->
  size s = length l <-> (forall k, In k l -> k ∈ s).
Proof.
  intros Hnd Hs. assert (size (list_to_set l : gset string) = length l) as Hl
    by by apply size_list_to_set.
  assert (s ⊆ list_to_set l) as Hsub.
  { intros k Hk. rewrite elem_of_list_to_set, list_elem_of_In. by apply Hs. }
  split.
  - intros Heq k Hk. assert (s = list_to_set l) as ->.
    { apply set_subseteq_size_eq; [done|lia]. }
    by rewrite elem_of_list_to_set, list_elem_of_In.
  - intros Hall. rewrite <- Hl. f_equal. apply set_eq. intros k.
    rewrite elem_of_list_to_set, list_elem_of_In. split; auto.
Qed.

(** ** What an evaluation computes

    Between the calls of an evaluation the policy and the excluded pairs stay. *)

Definition steady (now : Time) (p : Policy) (X : Pairs) (w : World) : Prop :=
  budget w = None /\ policy (sched w) = p /\ excl_set now (sched w) = X.

(** What the route selection of a client in a schedule comes to. *)
Section EvaluationSpec.
Context (now : Time) (p : Policy) (X : Pairs).
Context (candidates : list Candidate) (required : list string) (proof : bool).
Context (assignments : gmap string Assignment) (applied : gmap string ReserveSelection).

Definition planned_assignment (id : string) : Assignment :=
  default no_assignment (assignments !! id).

Definition planned_reserve (id : string) : ReserveSelection :=
  let choice network primaryID := reserve_choice p X id network primaryID candidates
                                    (index_by_id candidates) proof in
  let a := planned_assignment id in
  let installed := default no_reserve (applied !! id) in
  {| rs_TCP := choice tcp (TCP a) (rs_TCP installed);
     rs_UDP := choice udp (UDP a) (rs_UDP installed) |}.

Definition tally (acc : gset string * gset string) (id : string) : gset string * gset string :=
  (add_client required id (planned_assignment id) (planned_reserve id) acc.1,
   list_to_set (witnesses_of (planned_assignment id) (planned_reserve id)) ∪ acc.2).

Lemma evaluate_client_steady acc id w :
  steady now p X w -> exists w', steady now p X w' /\
    evaluate_client now candidates required proof assignments applied acc id w =
      (inr (tally acc id), w').
Proof.
  intros (Hb & Ep & EX). unfold evaluate_client, bind.
  destruct (selectReserves_run now id (planned_assignment id) candidates proof
    (default no_reserve (applied !! id)) w Hb) as (s & [Hp _ _ Hs] & E).
  unfold planned_assignment in E. rewrite E, Ep, EX. eexists. split; [|reflexivity].
  split_and!; [done|by rewrite <- Ep|by rewrite <- EX].
Qed.

Lemma evaluate_clients_steady ids acc w :
  steady now p X w -> exists w',
    foldM (evaluate_client now candidates required proof assignments applied) acc ids w =
      (inr (fold_left tally ids acc), w').
Proof.
  revert acc w. induction ids as [|id ids IH]; intros acc w Hw; simpl; [by eexists|].
  destruct (evaluate_client_steady acc id w Hw) as (w' & Hw' & E). unfold bind. rewrite E. eauto.
Qed.

(** The requirement of a kind is met by an assignment and its reserves. *)
Definition meets (kind : Kind) (a : Assignment) (r : ReserveSelection) : Prop :=
  match kind with
  | TCPPrimary => TCP a <> EmptyString
  | UDPPrimary => UDP a <> EmptyString
  | TCPReserve => rs_TCP r <> EmptyString /\ rs_TCP r <> TCP a
  | UDPReserve => rs_UDP r <> EmptyString /\ rs_UDP r <> UDP a
  end.

Lemma not_empty_spec id : not_empty id = true <-> id <> EmptyString.
Proof. unfold not_empty. by rewrite negb_true_iff, str_eqb_neq. Qed.

Lemma elem_of_add_requirement key name present s :
  key ∈ add_requirement required name present s <->
  key ∈ s \/ key = name /\ present = true /\ (required = [] \/ In name required).
Proof.
  unfold add_requirement. rewrite <- list_elem_of_In.
  destruct present; simpl; [|naive_solver].
  destruct (bool_decide (required = [])) eqn:E1, (bool_decide (name ∈ required)) eqn:E2;
    rewrite ?bool_decide_eq_true, ?bool_decide_eq_false in *; simpl; set_solver.
Qed.

Lemma elem_of_add_client key id a r s :
  key ∈ add_client required id a r s <->
  key ∈ s \/ exists kind, key = requirement kind id /\ meets kind a r /\
    (required = [] \/ In key required).
Proof.
  unfold add_client. rewrite !elem_of_add_requirement, !andb_true_iff, !negb_true_iff,
    !str_eqb_neq, !not_empty_spec.
  split.
  - intros [[[[H|(-> & H1 & H2)]|(-> & H1 & H2)]|(-> & H1 & H2)]|(-> & H1 & H2)];
      [by left| | | |]; right;
      [exists TCPPrimary|exists UDPPrimary|exists TCPReserve|exists UDPReserve]; done.
  - intros [H|([] & -> & Hm & Hr)]; simpl in *; tauto.
Qed.

Lemma elem_of_witnesses id a r :
  In id (witnesses_of a r) <-> In id [TCP a; UDP a; rs_TCP r; rs_UDP r] /\ id <> EmptyString.
Proof. unfold witnesses_of. by rewrite filter_In, not_empty_spec. Qed.

Lemma elem_of_tally ids acc key :
  (key ∈ (fold_left tally ids acc).1 <->
   key ∈ acc.1 \/ exists id kind, In id ids /\ key = requirement kind id /\
     meets kind (planned_assignment id) (planned_reserve id) /\
     (required = [] \/ In key required)) /\
  (key ∈ (fold_left tally ids acc).2 <->
   key ∈ acc.2 \/ exists id, In id ids /\
     In key (witnesses_of (planned_assignment id) (planned_reserve id))).
Proof.
  revert acc. induction ids as [|id ids IH]; intros acc; simpl.
  - naive_solver.
  - destruct (IH (tally acc id)) as [IH1 IH2]. rewrite IH1, IH2. unfold tally at 1 2. cbn [fst snd].
    rewrite elem_of_add_client, elem_of_union, elem_of_list_to_set, list_elem_of_In.
    split; split.
    + intros [[H|(k & H)]|(j & k & H & H')]; [by left|right; exists id, k; naive_solver|].
      right. exists j, k. tauto.
    + intros [H|(j & k & [<-|H] & H')]; [by left; left|left; right; by exists k|].
      right. by exists j, k.
    + intros [[H|H]|(j & H & H')]; [right; exists id; tauto|by left|right; exists j; tauto].
    + intros [H|(j & [<-|H] & H')]; [by left; right|by left; left|right; by exists j].
Qed.
End EvaluationSpec.

(** ** The scheduler's answer, from a view *)

Lemma schedule_steady now clients candidates w :
  budget w = None -> NoDup (map clientID clients) -> well_identified candidates ->
  exists result w',
    ScheduleContext now clients candidates w = (inr result, w') /\
    result_ok now {| SuppressQualityMoves := false |} clients candidates (sched w) result /\
    steady now (policy (sched w)) (excl_set now (compactExclusionsLocked (sched w) now)) w'.
Proof.
  intros Hb Hnd Hw. unfold ScheduleContext, ScheduleContextWithOptions.
  set (s := compactExclusionsLocked (sched w) now). set (w1 := w <| sched := s |>).
  destruct (run_scheduleContext now {| SuppressQualityMoves := false |} clients candidates
    (sched w) Hnd (well_identified_identified _ Hw) (version s) w1) as (result & w2 & E & [K1 K2 K3 _] & Hok); [done|].
  rewrite E. exists result. eexists. split; [reflexivity|]. split; [done|]. by split_and!.
Qed.

(** ** Evaluations are exact *)

Lemma applied_reserves_lookup clients id r :
  applied_reserves clients !! id = Some r ->
  exists c, In c clients /\ clientID c = id /\ AppliedReserve c = r.
Proof.
  unfold applied_reserves.
  assert (forall l (m : gmap string ReserveSelection),
    incl l clients ->
    (forall id r, m !! id = Some r -> exists c, In c clients /\ clientID c = id /\
       AppliedReserve c = r) ->
    forall id r, fold_left (fun m c => <[clientID c := AppliedReserve c]> m) l m !! id = Some r ->
      exists c, In c clients /\ clientID c = id /\ AppliedReserve c = r) as H.
  { intros l. induction l as [|x l IH]; intros m Hl Hm i y; simpl; [apply Hm|].
    apply IH; [intros z Hz; apply Hl; by right|].
    intros i' y' [[<- <-]|[_ H]]%lookup_insert_Some; [|by apply Hm].
    exists x. split; [|done]. apply Hl. by left. }
  apply H; [apply incl_refl|]. intros i y Hy. by rewrite lookup_empty in Hy.
Qed.

(** A reserve of an evaluation, in terms of the scheduler it was asked of. *)
Definition reserve_promise (now : Time) (s : Scheduler) (candidates : list Candidate)
    (proof : bool) (client network primaryID reserveID : string) : Prop :=
  reserveID <> EmptyString -> exists primary c,
    In primary candidates /\ ID primary = primaryID /\
    In c candidates /\ ID c = reserveID /\ reserve_fit now s client network primary proof c.

Lemma reserve_choice_promise p now s client network primaryID candidates proof applied :
  well_identified candidates ->
  reserve_promise now s candidates proof client network primaryID
    (reserve_choice p (excl_set now (compactExclusionsLocked s now)) client network primaryID
       candidates (index_by_id candidates) proof applied).
Proof.
  intros [_ Hne] Hr.
  destruct (reserve_choice_sound p now (compactExclusionsLocked s now) client network primaryID
    candidates (index_by_id candidates) proof applied) as [H _].
  destruct (H Hr) as (primary & c & Hp & Hc & He & Hf).
  apply index_by_id_lookup in Hp as [Hp Hid]. exists primary, c. split_and!; try done.
  unfold reserve_fit in *. rewrite compactExclusionsLocked_seen in Hf by (by auto || lia). done.
Qed.

(** The routes of every client in an evaluation. *)
Definition Plan : Type := string -> Assignment * ReserveSelection.

(** What the plan gives a client is sound. *)
Definition plan_sound (now : Time) (s : Scheduler) (candidates : list Candidate) (proof : bool)
    (plan : Plan) (client : Client) : Prop :=
  let '(a, r) := plan (clientID client) in
  sound_move now s candidates client a /\
  reserve_promise now s candidates proof (clientID client) tcp (TCP a) (rs_TCP r) /\
  reserve_promise now s candidates proof (clientID client) udp (UDP a) (rs_UDP r).

Definition plan_meets (plan : Plan) (client : string) (kind : Kind) : Prop :=
  meets kind (plan client).1 (plan client).2.

Definition plan_uses (plan : Plan) (client id : string) : Prop :=
  In id (witnesses_of (plan client).1 (plan client).2).

Lemma evaluation_plan placement now clients candidates required proof :
  NoDup (map clientID clients) -> well_identified candidates ->
  exists e plan,
    evaluateCriticalCoverageWithProofMode placement None now clients candidates required proof =
      inr e /\
    (forall client, In client clients -> plan_sound now placement candidates proof plan client) /\
    (forall key, key ∈ satisfied e <-> exists client kind, In client clients /\
       key = requirement kind (clientID client) /\ plan_meets plan (clientID client) kind /\
       (required = [] \/ In key required)) /\
    (forall id, In id (witnessIDs e) <-> exists client, In client clients /\
       plan_uses plan (clientID client) id).
Proof.
  intros Hnd Hw.
  unfold evaluateCriticalCoverageWithProofMode, evaluate_view, bind.
  set (w0 := {| sched := placement; budget := None |}).
  destruct (schedule_steady now clients candidates w0 eq_refl Hnd Hw)
    as (result & w1 & -> & (rd & HA & _ & [Hdom Hsnd _]) & Hst).
  cbv beta iota zeta. rewrite HA. set (ids := sort_strings _).
  destruct (evaluate_clients_steady now _ _ candidates required proof (rd_assignments rd)
    (applied_reserves clients) ids (∅, ∅) w1 Hst) as (w2 & ->).
  eexists. exists (fun id => (planned_assignment (rd_assignments rd) id,
    planned_reserve (policy placement)
      (excl_set now (compactExclusionsLocked placement now)) candidates proof
      (rd_assignments rd) (applied_reserves clients) id)).
  split; [reflexivity|].
  assert (forall id, In id ids <-> exists client, In client clients /\ clientID client = id)
    as Hids.
  { intros id. unfold ids. rewrite sort_strings_In, in_map_iff. transitivity
      (is_Some (rd_assignments rd !! id)).
    - split.
      + intros ([k a] & <- & Hk). apply list_elem_of_In, elem_of_map_to_list in Hk. by eexists.
      + intros [a Ha]. exists (id, a). split; [done|].
        by apply list_elem_of_In, elem_of_map_to_list.
    - rewrite Hdom, in_map_iff. naive_solver. }
  split_and!.
  - intros client Hc. unfold plan_sound, planned_reserve.
    destruct (Hsnd client Hc) as (a & Ha & Hm & _). unfold planned_assignment. rewrite Ha.
    split_and!; [done| |]; by apply reserve_choice_promise.
  - intros key. cbn [satisfied]. rewrite (proj1 (elem_of_tally _ _ _ _ _ _ _ _ _ _)).
    unfold plan_meets. cbn [fst snd]. setoid_rewrite Hids. split.
    + intros [H|(id & k & (c & Hc & <-) & H)]; [set_solver|by exists c, k].
    + intros (c & k & Hc & H). right. exists (clientID c), k. eauto.
  - intros id. cbn [witnessIDs]. rewrite sort_strings_In, <- list_elem_of_In, elem_of_elements.
    rewrite (proj2 (elem_of_tally _ _ _ _ _ _ _ _ _ _)).
    unfold plan_uses. cbn [fst snd]. setoid_rewrite Hids. split.
    + intros [H|(i & (c & Hc & <-) & H)]; [set_solver|by exists c].
    + intros (c & Hc & H). right. exists (clientID c). eauto.
Qed.

(** An evaluation of critical coverage answers, and exactly: there is one
    plan (a schedule with reserves) in which every client's primaries are sound
    moves and every reserve is a listed route that could take over from that
    primary (distinct, eligible, open, not excluded, freshly proved when proof is
    asked for); a requirement counts as satisfied exactly when that plan meets
    it, the witnesses are exactly the routes the plan uses, and coverage is
    complete exactly when every client has both primaries and, for each, a
    different reserve. *)
Theorem coverage_evaluation_exact placement now clients candidates proof :
  NoDup (map clientID clients) -> well_identified candidates ->
  exists e plan,
    evaluateCriticalCoverageWithProofMode placement None now clients candidates
      (criticalCoverageRequirements clients) proof = inr e /\
    (forall client, In client clients -> plan_sound now placement candidates proof plan client) /\
    (forall client kind, In client clients ->
       requirement kind (clientID client) ∈ satisfied e <-> plan_meets plan (clientID client) kind) /\
    (forall id, In id (witnessIDs e) <-> exists client, In client clients /\
       plan_uses plan (clientID client) id) /\
    (coverageComplete e (criticalCoverageRequirements clients) = true <->
       forall client kind, In client clients -> plan_meets plan (clientID client) kind).
Proof.
  intros Hnd Hw.
  destruct (evaluation_plan placement now clients candidates
    (criticalCoverageRequirements clients) proof Hnd Hw) as (e & plan & He & Hs & Hsat & Hwit).
  exists e, plan.
  assert (forall client kind, In client clients ->
    requirement kind (clientID client) ∈ satisfied e <->
    plan_meets plan (clientID client) kind) as Hm.
  { intros client kind Hc. rewrite Hsat. split.
    - intros (c & k & _ & [-> ->]%requirement_inj & ? & _). done.
    - intros Hk. exists client, kind. split_and!; try done. right. apply requirements_In. eauto. }
  split_and!; try done. unfold coverageComplete. rewrite Nat.eqb_eq, full_subset.
  - setoid_rewrite requirements_In. split.
    + intros H client kind Hc. apply Hm; [done|]. apply H. eauto.
    + intros H key (kind & c & Hc & ->). apply Hm; auto.
  - apply requirements_NoDup.
  - intros key Hk. apply Hsat in Hk as (c & k & Hc & -> & _). apply requirements_In. eauto.
Qed.

(** ** The static test never rejects a set that covers *)

Lemma distinctCoverageRoute_spec a c : distinctCoverageRoute a c = true <-> distinct_route a c.
Proof.
  unfold distinctCoverageRoute, distinct_route.
  destruct (str_eqb (ID a) (ID c)) eqn:E1, (str_eqb (RouteKey a) EmptyString) eqn:E2,
    (str_eqb (RouteKey a) (RouteKey c)) eqn:E3, (str_eqb (ProfileID a) EmptyString) eqn:E4,
    (str_eqb (ProfileID a) (ProfileID c)) eqn:E5; str_bool; simpl; naive_solver.
Qed.

Lemma distinctCoverageReservePossible_spec primaries reserves :
  distinctCoverageReservePossible primaries reserves = true <->
  exists a c, In a primaries /\ In c reserves /\ distinct_route a c.
Proof.
  unfold distinctCoverageReservePossible. rewrite existsb_exists.
  setoid_rewrite existsb_exists. setoid_rewrite distinctCoverageRoute_spec. naive_solver.
Qed.

Lemma carries_tcp c : carries tcp c <-> TCPQualified c = true.
Proof. done. Qed.

Lemma carries_udp c : carries udp c <-> udp_carrier c = true.
Proof.
  unfold carries, udp_carrier, is_vless. rewrite andb_true_iff, bool_decide_eq_true. done.
Qed.

(** The current route of a client, where it is listed, carries its transport. *)
Definition incumbents_carry (candidates : list Candidate) (clients : list Client) : Prop :=
  forall client c, In client clients -> In c candidates ->
    (ID c = TCP (assignment client) -> carries tcp c) /\
    (ID c = UDP (assignment client) -> carries udp c).

(** What a plan on some of the candidates shows to be possible on all. *)
Section Possible.
Context (now : Time) (s : Scheduler) (candidates pool : list Candidate) (clients : list Client).
Context (requireActiveProof proof : bool).
Hypothesis Hpool : incl pool candidates.
Hypothesis Hproof : requireActiveProof = true -> proof = true.
Hypothesis Hident : well_identified pool.
Hypothesis Hcarry : incumbents_carry pool clients.

Lemma sound_primary client a c :
  In client clients -> sound_move now s pool client a -> In c pool ->
  (ID c = TCP a -> carries tcp c) /\ (ID c = UDP a -> carries udp c).
Proof.
  intros Hcl [Ht Hu _ _] Hc. destruct (Hcarry client c Hcl Hc) as [Hct Hcu]. split; intros He.
  - rewrite <- He in Ht. destruct Ht as [Ht|[Ht|(d & Hd & Hid & (_ & _ & Hq & _) & _)]]; [auto| |].
    + by apply Hident in Hc.
    + apply (well_identified_eq pool d c Hident Hd Hc) in Hid as <-. by apply qualified_spec.
  - rewrite <- He in Hu. destruct Hu as [Hu|[Hu|(d & Hd & Hid & (_ & _ & Hq & _) & _)]]; [auto| |].
    + by apply Hident in Hc.
    + apply (well_identified_eq pool d c Hident Hd Hc) in Hid as <-. by apply qualified_spec.
Qed.

Lemma fit_reserve_candidate network client primary c :
  reserve_fit now s client network primary proof c -> reserve_candidate requireActiveProof c = true.
Proof.
  intros (_ & _ & He & Hp & _). unfold reserve_candidate. rewrite He.
  destruct requireActiveProof; [|done]. destruct (Hp (Hproof eq_refl)) as [-> ->]. done.
Qed.

(** A requirement of a kind that the static test finds impossible. *)
Definition possible_kind (kind : Kind) : bool :=
  let p := possible candidates requireActiveProof in
  match kind with
  | TCPPrimary => tcpPrimaryPossible p
  | UDPPrimary => udpPrimaryPossible p
  | TCPReserve => tcpReservePossible p
  | UDPReserve => udpReservePossible p
  end.

Lemma impossible_unmet plan client kind :
  (forall client, In client clients -> plan_sound now s pool proof plan client) ->
  In client clients -> plan_meets plan (clientID client) TCPReserve ->
  plan_meets plan (clientID client) UDPReserve -> possible_kind kind = true.
Proof.
  intros Hs Hc Ht Hu. specialize (Hs client Hc). unfold plan_sound, plan_meets in *.
  destruct (plan (clientID client)) as [a r]. destruct Hs as (Hm & Hpt & Hpu).
  simpl in *. destruct Ht as [Ht _], Hu as [Hu _].
  destruct (Hpt Ht) as (a1 & c1 & Ha1 & Hi1 & Hc1 & _ & Hf1).
  destruct (Hpu Hu) as (a2 & c2 & Ha2 & Hi2 & Hc2 & _ & Hf2).
  pose proof (proj1 (sound_primary client a a1 Hc Hm Ha1) Hi1) as Hq1.
  pose proof (proj2 (sound_primary client a a2 Hc Hm Ha2) Hi2) as Hq2.
  assert (forall f c, In c pool -> f c = true -> List.filter f candidates <> []) as Hne.
  { intros f c Hin Hfc E. assert (In c (List.filter f candidates)) as H
      by (apply filter_In; auto). by rewrite E in H. }
  apply carries_udp in Hq2. destruct kind; simpl.
  - apply negb_true_iff, bool_decide_eq_false. by apply (Hne _ a1).
  - apply negb_true_iff, bool_decide_eq_false. by apply (Hne _ a2).
  - apply distinctCoverageReservePossible_spec. exists a1, c1.
    rewrite !filter_In, andb_true_iff. pose proof (fit_reserve_candidate _ _ _ _ Hf1).
    destruct Hf1 as (_ & Hd & _ & _ & _ & Hq & Hw). split_and!; auto.
    destruct (bool_decide (proto c1 = ProtocolTor)) eqn:E; [|done].
    apply bool_decide_eq_true in E. by apply Hw.
  - apply distinctCoverageReservePossible_spec. exists a2, c2.
    rewrite !filter_In. pose proof (fit_reserve_candidate _ _ _ _ Hf2).
    destruct Hf2 as (_ & Hd & _ & _ & _ & Hq & Hw). apply carries_udp in Hq. split_and!; auto.
Qed.
End Possible.

(** The static test is sound: when it declares coverage impossible, no set
    of routes taken from the candidates is evaluated as complete, whatever the
    scheduler holds, provided the clients' listed current routes carry their
    transports. *)
Theorem static_impossibility_sound placement now clients candidates pool limit
    requireActiveProof proof err :
  NoDup (map clientID clients) -> well_identified pool -> incl pool candidates ->
  incumbents_carry pool clients -> (requireActiveProof = true -> proof = true) ->
  staticallyImpossibleCriticalCoverage clients candidates limit requireActiveProof = Some err ->
  exists e,
    evaluateCriticalCoverageWithProofMode placement None now clients pool
      (criticalCoverageRequirements clients) proof = inr e /\
    coverageComplete e (criticalCoverageRequirements clients) = false /\
    e_Limit err = limit /\ Temporary err = false.
Proof.
  intros Hnd Hw Hincl Hcarry Hproof. unfold staticallyImpossibleCriticalCoverage.
  destruct ((limit <=? 0) || bool_decide (clients = [])) eqn:E0; [done|].
  apply orb_false_iff in E0 as [_ E0]. apply bool_decide_eq_false in E0.
  destruct (_ && _) eqn:E; [done|]. intros [= <-].
  destruct (evaluation_plan placement now clients pool
    (criticalCoverageRequirements clients) proof Hnd Hw) as (e & plan & He & Hs & Hsat & _).
  exists e. split_and!; [done| |done|done].
  destruct (coverageComplete e (criticalCoverageRequirements clients)) eqn:Ec; [|done].
  unfold coverageComplete in Ec. rewrite Nat.eqb_eq, full_subset in Ec;
    [|apply requirements_NoDup|
     intros key Hk; apply Hsat in Hk as (c & k & Hc & -> & _); apply requirements_In; eauto].
  destruct clients as [|client clients']; [done|].
  assert (forall kind, plan_meets plan (clientID client) kind) as Hm.
  { intros kind. assert (requirement kind (clientID client) ∈ satisfied e) as Hin.
    { apply Ec, requirements_In. exists kind, client. split; [by left|done]. }
    apply Hsat in Hin as (c & k & _ & [-> ->]%requirement_inj & ? & _). done. }
  assert (forall kind, possible_kind candidates requireActiveProof kind = true) as Hp.
  { intros kind. eapply (impossible_unmet now placement candidates pool (client :: clients')
      requireActiveProof proof); eauto. by left. }
  pose proof (Hp TCPPrimary). pose proof (Hp UDPPrimary). pose proof (Hp TCPReserve).
  pose proof (Hp UDPReserve). simpl in *. rewrite !andb_false_iff in E. intuition congruence.
Qed.

(** ** The capacity check admits exactly the covered schedules *)

(** The reserve may take over from the primary. *)
Definition reserve_admissible (now : Time) (s : Scheduler) (candidates : list Candidate)
    (proof : bool) (client network primaryID reserveID : string) : Prop :=
  reserveID <> EmptyString /\
  reserve_promise now s candidates proof client network primaryID reserveID.

Definition admissible (now : Time) (s : Scheduler) (candidates : list Candidate) (proof : bool)
    (client : string) (a : Assignment) (r : ReserveSelection) (kind : Kind) : Prop :=
  match kind with
  | TCPPrimary => TCP a <> EmptyString
  | UDPPrimary => UDP a <> EmptyString
  | TCPReserve => reserve_admissible now s candidates proof client tcp (TCP a) (rs_TCP r)
  | UDPReserve => reserve_admissible now s candidates proof client udp (UDP a) (rs_UDP r)
  end.

Lemma index_by_id_known candidates c :
  well_identified candidates -> In c candidates ->
  index_by_id candidates !! ID c = Some c.
Proof.
  intros Hw Hc. unfold index_by_id.
  assert (forall l (m : gmap string Candidate), NoDup (map ID l) ->
    In c l -> fold_left (fun m c => <[ID c := c]> m) l m !! ID c = Some c) as H.
  { intros l. induction l as [|x l IH]; intros m Hnd Hin; [done|]. cbn [map] in Hnd.
    apply NoDup_cons in Hnd as [Hx Hnd]. simpl. destruct Hin as [->|Hin]; [|by apply IH].
    assert (forall l (m : gmap string Candidate), ~ In (ID c) (map ID l) ->
      fold_left (fun m c => <[ID c := c]> m) l m !! ID c = m !! ID c) as Hout.
    { clear. intros l. induction l as [|x l IH]; intros m Hl; simpl; [done|].
      rewrite IH; [|intros ?; apply Hl; by right].
      rewrite lookup_insert_ne; [done|]. intros E. apply Hl. by left. }
    rewrite Hout; [by rewrite lookup_insert_eq|]. by rewrite <- list_elem_of_In. }
  apply H; [apply Hw|done].
Qed.

(** An identifier of an empty candidate list is never installed. *)
Lemma reserve_list_admissible p now s client network primaryID candidates proof id :
  well_identified candidates ->
  negb (str_eqb id EmptyString) && existsb (fun c => str_eqb id (ID c))
    (reserve_list p (excl_set now s) client network primaryID candidates (index_by_id candidates)
       proof false) = true <->
  reserve_admissible now s candidates proof client network primaryID id.
Proof.
  intros Hw. rewrite andb_true_iff, negb_true_iff, str_eqb_neq, existsb_exists.
  setoid_rewrite str_eqb_eq. unfold reserve_admissible, reserve_promise. split.
  - intros (Hid & c & Hc & ->). split; [done|]. intros _.
    apply reserve_list_In in Hc as (a & Ha & _ & Hc & Hok).
    apply index_by_id_lookup in Ha as [Ha <-]. exists a, c. by rewrite <- reserve_ok_fit.
  - intros [Hid H]. destruct (H Hid) as (a & c & Ha & <- & Hc & <- & Hf). split; [done|].
    exists c. split; [|done]. unfold reserve_list. rewrite index_by_id_known by done.
    destruct Hw as [_ Hne]. apply Hne, str_eqb_neq in Ha. rewrite Ha. cbn [negb].
    apply filter_In. by rewrite reserve_ok_fit.
Qed.

Lemma admissible_dec now s candidates proof client a r kind :
  well_identified candidates ->
  admissible now s candidates proof client a r kind \/
  ~ admissible now s candidates proof client a r kind.
Proof.
  intros Hw. destruct kind; simpl.
  - destruct (decide (TCP a = EmptyString)); [right|left]; naive_solver.
  - destruct (decide (UDP a = EmptyString)); [right|left]; naive_solver.
  - rewrite <- (reserve_list_admissible PolicyDefaults) by done. destruct (_ && _); auto.
  - rewrite <- (reserve_list_admissible PolicyDefaults) by done. destruct (_ && _); auto.
Qed.

(** The selected reserve is the installed one just when that is admissible. *)
Lemma reserve_choice_keeps p now s client network primaryID candidates proof id :
  well_identified candidates ->
  not_empty id && str_eqb id (reserve_choice p (excl_set now s) client network primaryID
    candidates (index_by_id candidates) proof id) = true <->
  reserve_admissible now s candidates proof client network primaryID id.
Proof.
  intros Hw. rewrite andb_true_iff, not_empty_spec, str_eqb_eq.
  destruct (reserve_choice_sound p now s client network primaryID candidates
    (index_by_id candidates) proof id) as [H1 H2].
  unfold reserve_admissible, reserve_promise. split.
  - intros [Hid Heq]. split; [done|]. intros _. rewrite <- Heq in H1.
    destruct (H1 Hid) as (a & c & [Ha Hi]%index_by_id_lookup & Hc & He & Hf). by exists a, c.
  - intros [Hid H]. split; [done|]. destruct (H Hid) as (a & c & Ha & <- & Hc & He & Hf).
    symmetry. apply (H2 a c); auto; [by apply index_by_id_known|by apply Hw in Ha].
Qed.

Lemma well_identified_filter f candidates :
  well_identified candidates -> well_identified (List.filter f candidates).
Proof.
  intros [Hnd Hne]. split; [|intros c [Hc _]%filter_In; auto].
  induction candidates as [|x l IH]; simpl; [constructor|].
  cbn [map] in Hnd. apply NoDup_cons in Hnd as [Hx Hnd].
  assert (NoDup (map ID (List.filter f l))) by (apply IH; [done|intros c Hc; apply Hne; by right]).
  destruct (f x); [|done]. cbn [map]. constructor; [|done].
  rewrite list_elem_of_In, in_map_iff in *. intros (c & He & [Hc _]%filter_In). eauto.
Qed.

(** Only the routes in use matter to a reserve in use. *)
Lemma reserve_admissible_critical now s candidates proof client network primaryID id
    (ids : gset string) :
  (primaryID <> EmptyString -> primaryID ∈ ids) -> (id <> EmptyString -> id ∈ ids) ->
  well_identified candidates ->
  reserve_admissible now s (List.filter (fun c => bool_decide (ID c ∈ ids)) candidates) proof
    client network primaryID id <->
  reserve_admissible now s candidates proof client network primaryID id.
Proof.
  intros Hp Hi [_ Hne]. unfold reserve_admissible, reserve_promise.
  setoid_rewrite filter_In. setoid_rewrite bool_decide_eq_true. split.
  - intros [Hid H]. split; [done|]. intros _. destruct (H Hid) as (a & c & [] & ? & [] & ?). eauto 10.
  - intros [Hid H]. split; [done|]. intros _. destruct (H Hid) as (a & c & Ha & <- & Hc & He & Hf).
    assert (ID c ∈ ids) by (rewrite He; auto). exists a, c. auto 10.
Qed.

Lemma In_unless b key requirement_ : In key (unless b requirement_) <-> b = false /\ key = requirement_.
Proof. unfold unless. destruct b; simpl; naive_solver. Qed.

Lemma add_issue_bound proof client network id prospective valid issues :
  (length issues <= 8)%nat ->
  (length (add_issue proof client network id prospective valid issues) <= 8)%nat.
Proof.
  intros H. unfold add_issue. destruct (valid || (8 <=? length issues)%nat) eqn:E; [done|].
  apply orb_false_iff in E as [_ E]. rewrite length_app. simpl. apply Nat.leb_gt in E. lia.
Qed.

Section Capacity.
Context (now : Time) (s : Scheduler) (p : Policy) (candidates : list Candidate) (proof : bool).
Context (clients : list Client) (assignments : gmap string Assignment).
Context (reserves : gmap string ReserveSelection).
Hypothesis Hw : well_identified candidates.

Abbreviation ids := (critical_ids assignments reserves clients).
Abbreviation critical := (List.filter (fun c => bool_decide (ID c ∈ ids)) candidates).
Abbreviation steady_ := (steady now p (excl_set now s)).
Abbreviation a_of id := (default no_assignment (assignments !! id)).
Abbreviation r_of id := (default no_reserve (reserves !! id)).

Lemma critical_id client id :
  In client clients -> In id [TCP (a_of (clientID client)); UDP (a_of (clientID client));
    rs_TCP (r_of (clientID client)); rs_UDP (r_of (clientID client))] ->
  id <> EmptyString -> id ∈ ids.
Proof.
  intros Hc Hid Hne. unfold critical_ids. rewrite elem_of_list_to_set, list_elem_of_In, in_flat_map.
  exists client. split; [done|]. by rewrite elem_of_witnesses.
Qed.

Lemma validate_reserves_steady client w :
  In client clients -> steady_ w -> exists v w', steady_ w' /\
    validate_reserves now proof (clientID client) (a_of (clientID client))
      (r_of (clientID client)) candidates critical w = (inr v, w') /\
    (rv_TCP v = true <-> admissible now s candidates proof (clientID client)
       (a_of (clientID client)) (r_of (clientID client)) TCPReserve) /\
    (rv_UDP v = true <-> admissible now s candidates proof (clientID client)
       (a_of (clientID client)) (r_of (clientID client)) UDPReserve).
Proof.
  intros Hc (Hb & Hp & HX). unfold validate_reserves. set (cid := clientID client).
  destruct proof eqn:Eproof.
  - unfold ValidateReserveSelectionContext.
    assert (forall w, steady_ w -> forall (A : Type) (m : M A) f, reads now m f ->
      exists w', steady_ w' /\ m w = (inr (f p (excl_set now s)), w')) as Hread.
    { intros w1 (Hb1 & Hp1 & HX1) A m f Hm. destruct (Hm w1 Hb1) as (s1 & E & [P1 _ _ P4]).
      rewrite Hp1, HX1 in E. exists (w1 <| sched := s1 |>). split; [|done].
      split_and!; [done|by simpl; rewrite P1|by simpl; rewrite P4]. }
    assert (steady_ w) as H0 by done.
    unfold bind at 1. destruct (Hread w H0 _ _ _ (reads_check_each now candidates)) as (w1 & H1 & ->).
    cbv zeta. unfold bind at 1.
    destruct (Hread w1 H1 _ _ _ (reads_eligibleReserveCandidates now cid tcp (TCP (a_of cid))
      candidates (index_by_id candidates) true false)) as (w2 & H2 & ->). unfold bind at 1.
    destruct (Hread w2 H2 _ _ _ (reads_eligibleReserveCandidates now cid udp (UDP (a_of cid))
      candidates (index_by_id candidates) true false)) as (w3 & H3 & ->). unfold bind at 1.
    destruct (Hread w3 H3 _ _ _ (reads_check_each now (reserve_list p (excl_set now s) cid tcp
      (TCP (a_of cid)) candidates (index_by_id candidates) true false))) as (w4 & H4 & ->).
    unfold bind at 1.
    destruct (Hread w4 H4 _ _ _ (reads_check_each now (reserve_list p (excl_set now s) cid udp
      (UDP (a_of cid)) candidates (index_by_id candidates) true false))) as (w5 & H5 & ->).
    eexists _, w5. split; [done|]. split; [reflexivity|]. cbn [rv_TCP rv_UDP admissible].
    by rewrite !reserve_list_admissible.
  - unfold SelectProspectiveReservesContext, bind.
    destruct (selectReserves_run now cid (a_of cid) critical false (r_of cid) w Hb)
      as (s1 & [P1 _ _ P4] & E). rewrite E. eexists _, _. split; [|split; [reflexivity|]].
    { split_and!; [done|by simpl; rewrite P1|]. change (excl_set now s1 = excl_set now s). by rewrite P4. }
    cbn [rv_TCP rv_UDP admissible rs_TCP rs_UDP]. rewrite HX.
    rewrite !reserve_choice_keeps by by apply well_identified_filter.
    by rewrite !reserve_admissible_critical by
      (done || (intros; eapply critical_id; eauto; simpl; tauto)).
Qed.

Lemma diagnose_steady client a r v issues w :
  (length issues <= 8)%nat -> steady_ w -> exists issues' w', steady_ w' /\
    diagnose now proof client a r candidates v issues w = (inr issues', w') /\
    (length issues' <= 8)%nat.
Proof.
  intros Hl (Hb & Hp & HX). unfold diagnose. destruct (_ && _); [|by exists issues, w].
  unfold bind. destruct proof.
  - unfold SelectProspectiveReservesContext.
    destruct (selectReserves_run now client a candidates false r w Hb) as (s1 & [P1 _ _ P4] & E).
    rewrite E. eexists _, _. split; [|split; [reflexivity|]].
    { split_and!; [done|by simpl; rewrite P1|]. change (excl_set now s1 = excl_set now s). by rewrite P4. }
    by do 2 apply add_issue_bound.
  - eexists _, w. split; [done|]. split; [reflexivity|]. by do 2 apply add_issue_bound.
Qed.

Definition unmet (client : Client) (key : string) : Prop :=
  exists kind, key = requirement kind (clientID client) /\
    ~ admissible now s candidates proof (clientID client) (a_of (clientID client))
        (r_of (clientID client)) kind.

Lemma check_client_steady ck client w :
  In client clients -> (length (ck_issues ck) <= 8)%nat -> steady_ w ->
  exists ck' w', steady_ w' /\
    check_client now proof assignments reserves candidates critical ck client w = (inr ck', w') /\
    (length (ck_issues ck') <= 8)%nat /\
    (forall key, In key (ck_missing ck') <-> In key (ck_missing ck) \/ unmet client key).
Proof.
  intros Hc Hl Hst. unfold check_client, bind. unfold checkContext at 1.
  destruct Hst as (Hb & Hst). rewrite Hb. cbv zeta beta iota.
  destruct (validate_reserves_steady client w Hc (conj Hb Hst)) as (v & w1 & H1 & -> & Ht & Hu).
  destruct (diagnose_steady (clientID client) (a_of (clientID client)) (r_of (clientID client)) v
    (ck_issues ck) w1 Hl H1) as (issues & w2 & H2 & -> & Hi).
  eexists _, w2. split; [done|]. split; [reflexivity|]. split; [done|].
  intros key. cbn [ck_missing]. rewrite !in_app_iff, !In_unless.
  rewrite <- !not_true_iff_false, !not_empty_spec, Ht, Hu. unfold unmet. split.
  - intros [H|[[H ->]|[[H ->]|[[H ->]|[H ->]]]]]; [by left| | | |]; right;
      [exists TCPPrimary|exists UDPPrimary|exists TCPReserve|exists UDPReserve]; done.
  - intros [H|([] & -> & H)]; simpl in H |- *; tauto.
Qed.

Lemma check_clients_steady l ck w :
  incl l clients -> (length (ck_issues ck) <= 8)%nat -> steady_ w ->
  exists ck' w',
    foldM (check_client now proof assignments reserves candidates critical) ck l w = (inr ck', w') /\
    (length (ck_issues ck') <= 8)%nat /\
    (forall key, In key (ck_missing ck') <->
       In key (ck_missing ck) \/ exists client, In client l /\ unmet client key).
Proof.
  revert ck w. induction l as [|x l IH]; intros ck w Hincl Hl Hst; simpl.
  - eexists _, _. split; [reflexivity|]. naive_solver.
  - destruct (check_client_steady ck x w) as (ck1 & w1 & H1 & E & Hl1 & Hm1);
      [apply Hincl; by left|done|done|].
    unfold bind. rewrite E.
    destruct (IH ck1 w1) as (ck2 & w2 & -> & Hl2 & Hm2); [intros y Hy; apply Hincl; by right|done|
      done|]. eexists _, _. split; [reflexivity|]. split; [done|].
    intros key. rewrite Hm2, Hm1. naive_solver.
Qed.
End Capacity.

(** The capacity check, in both proof modes and with the context open,
    always answers, and admits a schedule exactly when every client has both
    primaries, each with a reserve that may take over from it, on at most
    [limit] routes altogether.  A rejection lists exactly the requirements that
    are not met, and the limit when it is exceeded, with at most eight
    diagnostics; over the limit it is never retried as temporary. *)
Theorem capacity_check_exact now limit clients candidates assignments reserves proof w :
  budget w = None -> 0 < limit -> well_identified candidates ->
  let ids := critical_ids assignments reserves clients in
  exists answer w',
    validateScheduledCriticalCapacityWithProofMode now limit clients candidates assignments
      reserves proof w = (inr answer, w') /\
    match answer with
    | None =>
        (forall client kind, In client clients ->
           admissible now (sched w) candidates proof (clientID client)
             (default no_assignment (assignments !! clientID client))
             (default no_reserve (reserves !! clientID client)) kind) /\
        Z.of_nat (size ids) <= limit
    | Some err =>
        e_Unsatisfied err <> [] /\
        (forall key, In key (e_Unsatisfied err) <->
           (exists client, In client clients /\
              unmet now (sched w) candidates proof assignments reserves client key) \/
           key = limit_issue /\ limit < Z.of_nat (size ids)) /\
        (length (e_ReserveIssues err) <= 8)%nat /\
        (limit < Z.of_nat (size ids) -> Temporary err = false)
    end.
Proof.
  intros Hb Hlim Hw ids. unfold validateScheduledCriticalCapacityWithProofMode.
  destruct (limit <=? 0) eqn:E0; z_bool; [lia|]. fold ids.
  destruct (check_clients_steady now (sched w) (policy (sched w)) candidates proof clients
    assignments reserves Hw clients
    {| ck_missing := []; ck_issues := []; ck_cause := coverageReserveNotReady |} w)
    as (ck & w1 & E & Hl & Hm); [apply incl_refl|simpl; lia|done|].
  unfold bind. fold ids in E. rewrite E.
  assert (forall key, In key (ck_missing ck) <-> exists client, In client clients /\
    unmet now (sched w) candidates proof assignments reserves client key) as Hm'.
  { intros key. rewrite Hm. simpl. tauto. }
  clear Hm E. destruct (limit <? Z.of_nat (size ids)) eqn:Eo; z_bool; cbn [negb];
    rewrite ?andb_false_r, ?andb_true_r.
  - eexists _, _. split; [reflexivity|]. cbn [e_Unsatisfied e_ReserveIssues]. split_and!; [| |done|].
    + intros H. assert (In limit_issue (sort_strings (ck_missing ck ++ [limit_issue]))) as Hin
        by (apply sort_strings_In, in_app_iff; right; by left). by rewrite H in Hin.
    + intros key. rewrite sort_strings_In, in_app_iff, Hm'. simpl. intuition congruence.
    + intros _. reflexivity.
  - destruct (bool_decide (ck_missing ck = [])) eqn:Ek.
    + apply bool_decide_eq_true in Ek. eexists _, _. split; [reflexivity|]. split; [|lia].
      intros client kind Hc.
      destruct (admissible_dec now (sched w) candidates proof (clientID client)
        (default no_assignment (assignments !! clientID client))
        (default no_reserve (reserves !! clientID client)) kind Hw) as [Hn|Hn]; [done|].
      assert (In (requirement kind (clientID client)) (ck_missing ck)) as H.
      { apply Hm'. exists client. split; [done|]. by exists kind. }
      by rewrite Ek in H.
    + apply bool_decide_eq_false in Ek. eexists _, _. split; [reflexivity|].
      cbn [e_Unsatisfied e_ReserveIssues]. rewrite app_nil_r. split_and!; [| |done|lia].
      * intros H. apply Ek. destruct (ck_missing ck) as [|k l] eqn:E; [done|].
        assert (In k (sort_strings (k :: l))) as Hk by (apply sort_strings_In; by left).
        by rewrite H in Hk.
      * intros key. rewrite sort_strings_In, Hm'. split; [tauto|]. intros [H|[_ H]]; [done|lia].
Qed.

(** ** Witnesses *)

(** Of three VLESS routes two are enough for two clients. *)
Example three_routes_cover :
  option_map (fun e => (coverageComplete e (criticalCoverageRequirements sample_clients),
                        witnessIDs e))
    (match evaluateCriticalCoverage sample_scheduler None sample_now sample_clients sample_routes
             (criticalCoverageRequirements sample_clients) with
     | inr e => Some e
     | inl _ => None
     end) = Some (true, ["vless-a"; "vless-b"]%string).
Proof. vm_compute. reflexivity. Qed.

Lemma coverage_evaluation_exact_witness :
  exists e plan,
    evaluateCriticalCoverageWithProofMode sample_scheduler None sample_now sample_clients
      sample_routes (criticalCoverageRequirements sample_clients) true = inr e /\
    (forall client, In client sample_clients ->
       plan_sound sample_now sample_scheduler sample_routes true plan client) /\
    (forall client kind, In client sample_clients ->
       requirement kind (clientID client) ∈ satisfied e <-> plan_meets plan (clientID client) kind) /\
    (forall id, In id (witnessIDs e) <-> exists client, In client sample_clients /\
       plan_uses plan (clientID client) id) /\
    (coverageComplete e (criticalCoverageRequirements sample_clients) = true <->
       forall client kind, In client sample_clients -> plan_meets plan (clientID client) kind).
Proof.
  apply coverage_evaluation_exact; [apply sample_clients_distinct|apply sample_routes_identified].
Defined.

(** Routes that share one profile: no reserve can differ from its primary. *)
Definition one_profile : list Candidate :=
  map (fun c => c <| ProfileID := "provider"%string |>) sample_routes.

Lemma static_impossibility_sound_witness :
  exists err, staticallyImpossibleCriticalCoverage sample_clients one_profile 2 false = Some err /\
  exists e,
    evaluateCriticalCoverageWithProofMode sample_scheduler None sample_now sample_clients
      (take 2 one_profile) (criticalCoverageRequirements sample_clients) true = inr e /\
    coverageComplete e (criticalCoverageRequirements sample_clients) = false /\
    e_Limit err = 2 /\ Temporary err = false.
Proof.
  eexists. split; [reflexivity|].
  apply (static_impossibility_sound sample_scheduler sample_now sample_clients one_profile
    (take 2 one_profile) 2 false true).
  - apply sample_clients_distinct.
  - split; [apply (bool_decide_unpack _); vm_compute; exact I|].
    intros c [<-|[<-|[]]]; discriminate.
  - intros c [<-|[<-|[]]]; simpl; auto.
  - intros client c [<-|[<-|[]]] [<-|[<-|[]]]; split; intros; vm_compute; auto.
  - discriminate.
  - reflexivity.
Defined.

Definition sample_plan_assignments : gmap string Assignment :=
  list_to_map (map (fun c => (clientID c,
    {| TCP := "vless-a"; UDP := "vless-b"; TCPSince := 0; UDPSince := 0 |})) sample_clients).
Definition sample_plan_reserves : gmap string ReserveSelection :=
  list_to_map (map (fun c => (clientID c, {| rs_TCP := "vless-b"; rs_UDP := "vless-a" |}))
    sample_clients).

Example two_routes_back_each_other :
  (validateScheduledCriticalCapacity sample_now 2 sample_clients sample_routes
     sample_plan_assignments sample_plan_reserves sample_world).1 = inr None.
Proof. vm_compute. reflexivity. Qed.

Lemma capacity_check_exact_witness :
  let ids := critical_ids sample_plan_assignments sample_plan_reserves sample_clients in
  exists answer w',
    validateScheduledCriticalCapacityWithProofMode sample_now 2 sample_clients sample_routes
      sample_plan_assignments sample_plan_reserves true sample_world = (inr answer, w') /\
    match answer with
    | None =>
        (forall client kind, In client sample_clients ->
           admissible sample_now sample_scheduler sample_routes true (clientID client)
             (default no_assignment (sample_plan_assignments !! clientID client))
             (default no_reserve (sample_plan_reserves !! clientID client)) kind) /\
        Z.of_nat (size ids) <= 2
    | Some err =>
        e_Unsatisfied err <> [] /\
        (forall key, In key (e_Unsatisfied err) <->
           (exists client, In client sample_clients /\
              unmet sample_now sample_scheduler sample_routes true sample_plan_assignments
                sample_plan_reserves client key) \/
           key = limit_issue /\ 2 < Z.of_nat (size ids)) /\
        (length (e_ReserveIssues err) <= 8)%nat /\
        (2 < Z.of_nat (size ids) -> Temporary err = false)
    end.
Proof.
  apply (capacity_check_exact sample_now 2 sample_clients sample_routes sample_plan_assignments
    sample_plan_reserves true sample_world); [reflexivity|lia|apply sample_routes_identified].
Defined.
