(* ===== verification/CoverageSearch.v ===== *)
(** The search for a critical cover (internal/controller/critical_coverage_search.go
    and the planner of engine_capacity.go): a session that runs in slices,
    first on all routes, then on the witnesses, then greedily, then exhaustively,
    and keeps its cursor, its frames and a pending evaluation between slices.

    A slice is a program over the session, the budget and the moments at which
    the environment may stop it. *)
From Stdlib Require Import Ascii String.
From S2P Require Import Prelude Effects GoOrder GoFloat GoSort GoStrings SchedLoad SchedState.
From S2P Require Import SchedReserves Scheduling Coverage.

#[local] Open Scope Z_scope.
#[local] Open Scope effect_scope.

(** ** Data *)

Record Frame := {
  f_pool : list nat;
  f_next : nat;
  f_evaluated : bool
}.

(** The errors of planning: those of a context, and the planner's own.  [CursorMismatch] and [IndexOutOfRange] (a panic)
    are internal: they are shown not to occur. *)
Inductive ContextError := Canceled | DeadlineExceeded.

Inductive CoverError :=
  | Context_ (e : ContextError)
  | Incomplete (e : PlanError)
  | CursorMismatch
  | IndexOutOfRange
  | CandidateMissing
  | CachedCandidateMissing
  | NotFinished.

Definition internal (e : CoverError) : bool :=
  match e with CursorMismatch | IndexOutOfRange | NotFinished => true | _ => false end.

(** An evaluation under way, with the answer it will give. *)
Record Task := {
  t_pool : list Candidate;
  t_result : ContextError + criticalCoverageEvaluation
}.

Inductive Phase := PhaseFull | PhaseWitness | PhaseGreedy | PhaseSearch.

Record Session := {
  cs_key : string;
  cs_ordered : list Candidate;
  cs_required : list string;
  cs_limit : nat;
  cs_frames : list Frame;
  cs_cached : gmap string criticalCoverageEvaluation;
  cs_phase : Phase;
  cs_fullPool : list Candidate;
  cs_initialFull : option criticalCoverageEvaluation;
  cs_selected : list Candidate;
  cs_selectedIDs : gset string;
  cs_current : criticalCoverageEvaluation;
  cs_greedyCursor : nat;
  cs_greedyBest : criticalCoverageEvaluation;
  cs_greedyBestID : string;
  cs_greedyBestGain : nat;
  cs_pending : option Task;
  cs_completed : bool;
  cs_completedIDs : list string
}.

#[export] Instance Session_eta : Eta Session := fun s =>
  Build_Session (cs_key s) (cs_ordered s) (cs_required s) (cs_limit s) (cs_frames s)
    (cs_cached s) (cs_phase s) (cs_fullPool s) (cs_initialFull s) (cs_selected s)
    (cs_selectedIDs s) (cs_current s) (cs_greedyCursor s) (cs_greedyBest s)
    (cs_greedyBestID s) (cs_greedyBestGain s) (cs_pending s) (cs_completed s)
    (cs_completedIDs s).

(** The session that [cappedCriticalCandidates] opens. *)
Definition newSession (key : string) (limit : nat) (clients : list Client)
    (candidates : list Candidate) (initialFull : option criticalCoverageEvaluation) : Session := {|
  cs_key := key; cs_ordered := orderCriticalCoverageCandidates clients candidates;
  cs_required := criticalCoverageRequirements clients; cs_limit := limit; cs_frames := [];
  cs_cached := ∅; cs_phase := PhaseFull; cs_fullPool := candidates;
  cs_initialFull := initialFull; cs_selected := []; cs_selectedIDs := ∅;
  cs_current := zero_evaluation; cs_greedyCursor := O; cs_greedyBest := zero_evaluation;
  cs_greedyBestID := EmptyString; cs_greedyBestGain := O; cs_pending := None;
  cs_completed := false; cs_completedIDs := [] |}.

(** What the environment does at an evaluation: the slice is over before it
    starts, the wall-clock budget is used up, or the slice ends while the answer
    is awaited. *)
Record Tick := {
  k_over : option ContextError;
  k_wall : bool;
  k_timeout : option ContextError
}.

Definition quiet_tick : Tick := {| k_over := None; k_wall := false; k_timeout := None |}.

Record Slice := {
  ses : Session;
  b_limit : Z;
  b_evaluations : Z;
  ticks : list Tick
}.

#[export] Instance Slice_eta : Eta Slice := fun w =>
  Build_Slice (ses w) (b_limit w) (b_evaluations w) (ticks w).

Definition P_ (A : Type) : Type := Prog Slice CoverError A.

Definition on_session (f : Session -> Session) : P_ unit := modify (fun w => w <| ses := f (ses w) |>).

(** After the recorded ticks nothing interrupts. *)
Definition next_tick : P_ Tick := fun w =>
  (inr (hd quiet_tick (ticks w)), w <| ticks := tl (ticks w) |>).

Definition raise_if (e : option ContextError) : P_ unit :=
  match e with Some e => raise (Context_ e) | None => ret tt end.

(** A result or an error of Go code, and the deferred repair of an error path. *)
Definition lift {A : Type} (r : ContextError + A) : P_ A :=
  match r with inl e => raise (Context_ e) | inr a => ret a end.
Definition on_error {A : Type} (m : P_ A) (repair : Session -> Session) : P_ A := fun w =>
  match m w with
  | (inl e, w) => (inl e, w <| ses := repair (ses w) |>)
  | r => r
  end.

(** A loop, with fuel: [None] when the fuel is used up. *)
Fixpoint loopM {A : Type} (fuel : nat) (turn : P_ (option A)) : P_ (option A) :=
  match fuel with
  | O => ret None
  | S fuel =>
      r <- turn ;;
      match r with
      | Some a => ret (Some a)
      | None => loopM fuel turn
      end
  end.

(** ** One evaluation *)

Definition activeCriticalCoverageEvaluationLimit : Z := 4096.

Definition exhausted_error (limit : Z) (unsatisfied : list string) (evaluations : Z) : PlanError := {|
  e_Limit := limit; e_Unsatisfied := unsatisfied; e_SearchExhausted := true;
  e_Evaluations := evaluations; e_Cause := EmptyString; e_ReserveIssues := [] |}.

Definition exhaustedError (unsatisfied : list string) (w : Slice) : CoverError :=
  Incomplete (exhausted_error (b_limit w) unsatisfied (b_evaluations w)).

(** What the code is called with: a pool and the requirements ([nil] is [[]]). *)
Abbreviation Evaluator := (list Candidate -> list string ->
  ContextError + criticalCoverageEvaluation) (only parsing).

(** The wait for the pending evaluation. *)
Definition await (tick : Tick) (task : Task) : P_ criticalCoverageEvaluation :=
  raise_if (k_timeout tick) ;;;
  on_session (fun s => s <| cs_pending := None |>) ;;;
  lift (t_result task).

Definition evaluatePool (evaluate : Evaluator) (pool : list Candidate) (required : list string) :
    P_ criticalCoverageEvaluation :=
  tick <- next_tick ;;
  pending <- get (fun w => cs_pending (ses w)) ;;
  match pending with
  | None =>
      raise_if (k_over tick) ;;;
      evaluations <- get b_evaluations ;;
      (if (activeCriticalCoverageEvaluationLimit <=? evaluations) || k_wall tick
       then (error <- get (exhaustedError []) ;; raise error)
       else
         modify (fun w => w <| b_evaluations := b_evaluations w + 1 |>) ;;;
         (let task := {| t_pool := pool; t_result := evaluate pool required |} in
          on_session (fun s => s <| cs_pending := Some task |>) ;;;
          await tick task))
  | Some task =>
      if str_eqb (criticalCoveragePoolKey (t_pool task)) (criticalCoveragePoolKey pool)
      then await tick task
      else raise CursorMismatch
  end.

(** ** The exhaustive search *)

(** The evaluation of the top frame: the complete pool, if it is one. *)
Definition evaluate_frame (eval : list Candidate -> P_ criticalCoverageEvaluation) (f : Frame)
    (rest : list Frame) : P_ (option (list Candidate)) :=
  s <- get ses ;;
  if f_evaluated f then ret None
  else
    let pool := coveragePool (cs_ordered s) (f_pool f) in
    evaluation <-
      match cs_cached s !! criticalCoveragePoolKey pool with
      | Some evaluation =>
          on_session (fun s =>
            s <| cs_cached := delete (criticalCoveragePoolKey pool) (cs_cached s) |>) ;;;
          ret evaluation
      | None => eval pool
      end ;;
    on_session (fun s => s <| cs_frames :=
      {| f_pool := f_pool f; f_next := f_next f; f_evaluated := true |} :: rest |>) ;;;
    ret (if coverageComplete evaluation (cs_required s) then Some pool else None).

(** The frames after the top one was evaluated: a child, or one frame less. *)
Definition advance_frames (limit n : nat) (f : Frame) (rest : list Frame) : list Frame :=
  if (length (f_pool f) <? limit)%nat && (f_next f <? n)%nat
  then {| f_pool := f_pool f ++ [f_next f]; f_next := S (f_next f); f_evaluated := false |} ::
       {| f_pool := f_pool f; f_next := S (f_next f); f_evaluated := true |} :: rest
  else rest.

Definition search_turn (eval : list Candidate -> P_ criticalCoverageEvaluation) :
    P_ (option (option (list Candidate))) :=
  s <- get ses ;;
  match cs_frames s with
  | [] => ret (Some None)
  | f :: rest =>
      found <- evaluate_frame eval f rest ;;
      match found with
      | Some pool => ret (Some (Some pool))
      | None =>
          on_session (fun s => s <| cs_frames :=
            advance_frames (cs_limit s) (length (cs_ordered s)) f rest |>) ;;;
          ret None
      end
  end.

(** The turns below a frame with [depth] routes to add out of [m]: one per pool
    and one to leave the frame. *)
Fixpoint subtree (depth m : nat) {struct m} : nat :=
  match depth, m with
  | S d, S m => S (subtree d m + subtree depth m)
  | _, _ => 1
  end.

Definition frame_turns (limit n : nat) (f : Frame) : nat :=
  subtree (limit - length (f_pool f)) (n - f_next f).

Definition turns_left (s : Session) : nat :=
  list_sum (map (frame_turns (cs_limit s) (length (cs_ordered s))) (cs_frames s)).

Definition resumeCriticalCoverageWith (eval : list Candidate -> P_ criticalCoverageEvaluation) :
    P_ (option (option (list Candidate))) :=
  fun w => loopM (S (turns_left (ses w))) (search_turn eval) w.

(** ** The planner *)

Definition initializeCriticalCoverageGreedyState (s : Session) : Session :=
  s <| cs_greedyCursor := O |> <| cs_greedyBest := zero_evaluation |>
    <| cs_greedyBestID := EmptyString |> <| cs_greedyBestGain := size (satisfied (cs_current s)) |>
    <| cs_phase := PhaseGreedy |>.

Definition initializeCriticalCoverageGreedy (s : Session) : Session :=
  initializeCriticalCoverageGreedyState
    (s <| cs_selected := [] |> <| cs_selectedIDs := ∅ |> <| cs_current := zero_evaluation |>).

Definition initializeCriticalCoverageGreedyFromWitness (witness : criticalCoverageEvaluation)
    (s : Session) : Session :=
  initializeCriticalCoverageGreedyState
    (s <| cs_selectedIDs := list_to_set (map ID (cs_selected s)) |> <| cs_current := witness |>).

(** [append([]T(nil), s...)] is [nil] for an empty [s]. *)
Definition copy_of (pool : list Candidate) : option (list Candidate) :=
  match pool with [] => None | _ => Some pool end.

(** What follows from the evaluation of the full pool. *)
Definition after_full (full : criticalCoverageEvaluation) :
    P_ (option (option (list Candidate))) :=
  s <- get ses ;;
  let required :=
    if bool_decide (cs_required s = []) then sort_strings (elements (satisfied full))
    else cs_required s in
  on_session (fun s => s <| cs_required := required |>) ;;;
  if bool_decide (required = []) then ret (Some None)
  else if (0 <? length (witnessIDs full))%nat && (length (witnessIDs full) <=? cs_limit s)%nat then
    let witnessSet : gset string := list_to_set (witnessIDs full) in
    let selected := List.filter (fun c => bool_decide (ID c ∈ witnessSet)) (cs_fullPool s) in
    on_session (fun s => s <| cs_selected := selected |>) ;;;
    (if Nat.eqb (length selected) (size witnessSet)
     then on_session (fun s => s <| cs_phase := PhaseWitness |>) ;;; ret None
     else on_session initializeCriticalCoverageGreedy ;;; ret None)
  else on_session initializeCriticalCoverageGreedy ;;; ret None.

Definition full_turn (evaluate : Evaluator) : P_ (option (option (list Candidate))) :=
  s <- get ses ;;
  full <-
    match cs_initialFull s with
    | Some full => on_session (fun s => s <| cs_initialFull := None |>) ;;; ret full
    | None => evaluatePool evaluate (cs_fullPool s) []
    end ;;
  after_full full.

Definition witness_turn (evaluate : Evaluator) : P_ (option (option (list Candidate))) :=
  s <- get ses ;;
  witness <- evaluatePool evaluate (cs_selected s) (cs_required s) ;;
  if coverageComplete witness (cs_required s) then ret (Some (copy_of (cs_selected s)))
  else on_session (initializeCriticalCoverageGreedyFromWitness witness) ;;; ret None.

(** The end of a greedy pass: the best route joins, or the search begins. *)
Definition greedy_pass_end (s : Session) : Session :=
  if str_eqb (cs_greedyBestID s) EmptyString
  then s <| cs_phase := PhaseSearch |>
         <| cs_frames := [{| f_pool := []; f_next := O; f_evaluated := false |}] |>
  else
    let s :=
      match List.find (fun c => str_eqb (ID c) (cs_greedyBestID s)) (cs_ordered s) with
      | Some c => s <| cs_selected := cs_selected s ++ [c] |>
                    <| cs_selectedIDs := {[ID c]} ∪ cs_selectedIDs s |>
      | None => s
      end in
    s <| cs_current := cs_greedyBest s |> <| cs_greedyCursor := O |>
      <| cs_greedyBestID := EmptyString |> <| cs_greedyBest := zero_evaluation |>
      <| cs_greedyBestGain := size (satisfied (cs_greedyBest s)) |>.

(** A route that adds the most so far. *)
Definition greedy_improve (c : Candidate) (evaluation : criticalCoverageEvaluation)
    (s : Session) : Session :=
  if (cs_greedyBestGain s <? size (satisfied evaluation))%nat
  then s <| cs_greedyBestID := ID c |> <| cs_greedyBestGain := size (satisfied evaluation) |>
         <| cs_greedyBest := evaluation |>
  else s.

Definition greedy_turn (evaluate : Evaluator) : P_ (option (option (list Candidate))) :=
  s <- get ses ;;
  if coverageComplete (cs_current s) (cs_required s) then ret (Some (copy_of (cs_selected s)))
  else if Nat.eqb (length (cs_selected s)) (cs_limit s) ||
          Nat.eqb (cs_greedyCursor s) (length (cs_ordered s))
  then on_session greedy_pass_end ;;; ret None
  else
    match cs_ordered s !! cs_greedyCursor s with
    | None => raise IndexOutOfRange
    | Some c =>
        on_session (fun s => s <| cs_greedyCursor := S (cs_greedyCursor s) |>) ;;;
        (if bool_decide (ID c ∈ cs_selectedIDs s) then ret None
         else
           let trial := cs_selected s ++ [c] in
           evaluation <-
             on_error (evaluatePool evaluate trial (cs_required s))
               (fun s => s <| cs_greedyCursor := pred (cs_greedyCursor s) |>) ;;
           on_session (fun s => s <| cs_cached :=
             <[criticalCoveragePoolKey trial := evaluation]> (cs_cached s) |>) ;;;
           (if coverageComplete evaluation (cs_required s) then ret (Some (Some trial))
            else on_session (greedy_improve c evaluation) ;;; ret None))
    end.

Definition planner_turn (evaluate : Evaluator) : P_ (option (option (list Candidate))) :=
  phase <- get (fun w => cs_phase (ses w)) ;;
  match phase with
  | PhaseFull => full_turn evaluate
  | PhaseWitness => witness_turn evaluate
  | PhaseGreedy => greedy_turn evaluate
  | PhaseSearch =>
      s <- get ses ;;
      resumeCriticalCoverageWith (fun pool => evaluatePool evaluate pool (cs_required s))
  end.

(** Turns of the planner, at most: each pass of the greedy phase adds a route or
    is the last, and the search follows. *)
Definition planner_turns (s : Session) : nat :=
  let n := length (cs_ordered s) in
  match cs_phase s with
  | PhaseFull => S (S (S (cs_limit s * (n + 2) + n))) + subtree (cs_limit s) n
  | PhaseWitness => S (S (cs_limit s * (n + 2) + n)) + subtree (cs_limit s) n
  | PhaseGreedy =>
      S ((cs_limit s - length (cs_selected s)) * (n + 2) + (n - cs_greedyCursor s)) +
      subtree (cs_limit s) n
  | PhaseSearch => turns_left s
  end.

(** The found pool ([None] for [nil]); the search is complete. *)
Definition resumeCriticalCoveragePlanner (evaluate : Evaluator) : P_ (option (list Candidate)) :=
  fun w => (r <- loopM (S (planner_turns (ses w))) (planner_turn evaluate) ;;
            match r with Some found => ret found | None => raise NotFinished end) w.


(** ** The key of a pool *)

(** The key of a pool determines its sequence of identifiers, whatever characters
    they contain. *)
Lemma criticalCoveragePoolKey_inj pool pool' :
  criticalCoveragePoolKey pool = criticalCoveragePoolKey pool' -> map ID pool = map ID pool'.
Proof.
  assert (forall id key, (pool_key_entry id ++ key)%string =
    (decimal (Z.of_nat (String.length id)) ++ String ":"%char (id ++ String "|"%char key))%string) as Hentry.
  { intros id key. unfold pool_key_entry. rewrite !str_app_assoc. done. }
  assert (forall id key, (pool_key_entry id ++ key)%string <> EmptyString) as Hne.
  { intros id key. rewrite Hentry. by destruct (decimal _). }
  revert pool'. induction pool as [|c pool IH]; intros [|c' pool'] E.
  - done.
  - exfalso. by eapply Hne.
  - exfalso. by eapply Hne.
  - change (pool_key_entry (ID c) ++ criticalCoveragePoolKey pool =
            pool_key_entry (ID c') ++ criticalCoveragePoolKey pool')%string in E.
    rewrite !Hentry in E.
    apply digits_cut in E as [Hd E]; [|apply decimal_spec; lia|apply decimal_spec; lia|done].
    apply decimal_inj in Hd; [|lia|lia]. apply Nat2Z.inj in Hd.
    assert (ID c = ID c' /\ String "|"%char (criticalCoveragePoolKey pool) =
      String "|"%char (criticalCoveragePoolKey pool')) as [Ei Ek].
    { revert Hd E. generalize (ID c) (ID c'). intros i. induction i as [|x i IHi];
        intros [|y j] Hl E; try done.
      change (String x (i ++ String "|"%char (criticalCoveragePoolKey pool)) =
              String y (j ++ String "|"%char (criticalCoveragePoolKey pool')))%string in E.
      injection E as -> E. simpl in Hl. injection Hl as Hl. by destruct (IHi j Hl E) as [-> ->]. }
    injection Ek as Ek. cbn [map]. by rewrite Ei, (IH pool' Ek).
Qed.

Lemma ids_determine (l pool pool' : list Candidate) :
  NoDup (map ID l) -> incl pool l -> incl pool' l -> map ID pool = map ID pool' -> pool = pool'.
Proof.
  intros Hnd. revert pool'. induction pool as [|c pool IH]; intros [|c' pool'] Hp Hp' E; try done.
  injection E as Ec E. f_equal.
  - assert (In c l) as Hc by (apply Hp; by left). assert (In c' l) as Hc' by (apply Hp'; by left).
    clear IH Hp Hp' E. induction l as [|x l IH]; [done|]. cbn [map] in Hnd.
    apply NoDup_cons in Hnd as [Hx Hnd]. rewrite list_elem_of_In, in_map_iff in Hx.
    destruct Hc as [->|Hc], Hc' as [->|Hc']; eauto; exfalso; apply Hx; eauto.
  - apply IH; [intros y Hy; apply Hp; by right|intros y Hy; apply Hp'; by right|done].
Qed.

(** ** Loops end *)

(** A loop whose turns either end it or decrease a measure, and keep an
    invariant, ends before its fuel does. *)
Lemma triple_loopM {A : Type} (I : Slice -> Prop) (measure : Slice -> nat)
    (turn : P_ (option A)) (Q : A -> Slice -> Prop) R fuel :
  (forall n, triple (fun w => I w /\ measure w = n) turn
     (fun r w => match r with None => I w /\ (measure w < n)%nat | Some a => Q a w end) R) ->
  triple (fun w => I w /\ (measure w < fuel)%nat) (loopM fuel turn)
    (fun r w => exists a, r = Some a /\ Q a w) R.
Proof.
  intros Hturn. induction fuel as [|fuel IH]; simpl; [intros w [_ H]; lia|].
  intros w [HI Hm]. specialize (Hturn (measure w) w (conj HI eq_refl)). unfold bind.
  destruct (turn w) as [[e|[a|]] w']; [done|unfold ret; eauto|].
  apply IH. split; [apply Hturn|]. destruct Hturn. lia.
Qed.

(** ** The pools of a search *)

(** Strictly increasing indices from [lo] up to, and without, [n]. *)
Fixpoint increasing (lo n : nat) (l : list nat) : Prop :=
  match l with [] => True | i :: l => (lo <= i < n)%nat /\ increasing (S i) n l end.

(** The pools that a stack of frames has still to evaluate. *)
Definition to_come (n : nat) (frames : list Frame) (l : list nat) : Prop :=
  exists f, In f frames /\
    ((f_evaluated f = false /\ l = f_pool f) \/
     exists i rest, l = f_pool f ++ i :: rest /\ increasing (f_next f) n (i :: rest)).

Lemma to_come_start n l : increasing 0 n l ->
  to_come n [{| f_pool := []; f_next := O; f_evaluated := false |}] l.
Proof.
  intros Hl. eexists. split; [by left|]. destruct l as [|i l]; [by left|]. right. by exists i, l.
Qed.

(** Leaving or extending an evaluated frame loses no pool within the limit. *)
Lemma to_come_advance limit n f rest l :
  (length l <= limit)%nat -> f_evaluated f = true \/ l <> f_pool f ->
  to_come n (f :: rest) l -> to_come n (advance_frames limit n f rest) l.
Proof.
  intros Hlen Hne (g & Hg & H). unfold advance_frames.
  destruct (_ && _) eqn:E.
  - destruct Hg as [<-|Hg].
    + destruct H as [[He H]|(i & r & -> & Hi & Hr)]; [intuition congruence|].
      destruct (decide (i = f_next f)) as [->|Hn].
      * eexists. split; [by left|]. destruct r as [|j r]; [by left|]. right. cbn [f_pool f_next].
        exists j, r. by rewrite <- app_assoc.
      * eexists. split; [by right; left|]. right. cbn [f_pool f_next].
        exists i, r. split; [done|]. split; [lia|done].
    + exists g. split; [by right; right|done].
  - destruct Hg as [<-|Hg]; [|by exists g].
    destruct H as [[He H]|(i & r & -> & Hi & Hr)]; [intuition congruence|]. exfalso.
    rewrite length_app in Hlen. simpl in Hlen.
    apply andb_false_iff in E as [E|E]; apply Nat.ltb_ge in E; lia.
Qed.

Lemma advance_turns limit n f rest :
  list_sum (map (frame_turns limit n) (f :: rest)) =
  S (list_sum (map (frame_turns limit n) (advance_frames limit n f rest))).
Proof.
  unfold advance_frames, list_sum. cbn [map fold_right].
  destruct (_ && _) eqn:E.
  - apply andb_true_iff in E as [E1 E2]. apply Nat.ltb_lt in E1, E2.
    cbn [map fold_right]. unfold frame_turns at 1 3 4. cbn [f_pool f_next].
    rewrite length_app. cbn [length].
    replace (limit - length (f_pool f))%nat with (S (limit - (length (f_pool f) + 1))) by lia.
    replace (n - f_next f)%nat with (S (n - S (f_next f))) by lia. cbn [subtree]. lia.
  - unfold frame_turns at 1. apply andb_false_iff in E.
    destruct (limit - length (f_pool f))%nat eqn:E1, (n - f_next f)%nat eqn:E2; try reflexivity.
    exfalso. destruct E as [E|E]; apply Nat.ltb_ge in E; lia.
Qed.

(** ** Sessions *)

(** What evaluations may answer over the life of a session: between slices the
    time and the state of the scheduler change, so it is a relation. *)
Abbreviation Answers := (list Candidate -> list string ->
  ContextError + criticalCoverageEvaluation -> Prop) (only parsing).

Section Sessions.
Context (Ev : Answers).
Context (ev : list Candidate -> list string -> ContextError + criticalCoverageEvaluation).
Context (s0 : Session).
Hypothesis Hev : forall pool required, Ev pool required (ev pool required).
Hypothesis Hids : NoDup (map ID (cs_ordered s0)).
Hypothesis Hfull : incl (cs_fullPool s0) (cs_ordered s0).

(** A pending evaluation, if any, is that of the pool. *)
Definition awaits (s : Session) (pool : list Candidate) (required : list string) : Prop :=
  cs_pending s = None \/
  exists r, cs_pending s = Some {| t_pool := pool; t_result := r |} /\ Ev pool required r.

(** An evaluation of a pool leaves the session as it was, nothing pending; when
    it is stopped, the session awaits that pool. *)
Lemma evaluatePool_spec s pool required :
  awaits s pool required ->
  triple (fun w => ses w = s) (evaluatePool ev pool required)
    (fun e w => ses w = s <| cs_pending := None |> /\ Ev pool required (inr e))
    (fun err w => internal err = false /\ exists pending,
       ses w = s <| cs_pending := pending |> /\ awaits (ses w) pool required).
Proof.
  intros Ha w Hw. unfold evaluatePool, bind at 1, next_tick.
  set (tick := hd quiet_tick (ticks w)). set (w1 := w <| ticks := tl (ticks w) |>).
  assert (ses w1 = s) as H1 by done.
  assert (forall r w2, Ev pool required r ->
    ses w2 = s <| cs_pending := Some {| t_pool := pool; t_result := r |} |> ->
    match await tick {| t_pool := pool; t_result := r |} w2 with
    | (inl err, w') => internal err = false /\ exists pending,
        ses w' = s <| cs_pending := pending |> /\ awaits (ses w') pool required
    | (inr e, w') => ses w' = s <| cs_pending := None |> /\ Ev pool required (inr e)
    end) as Hawait.
  { intros r w2 Hr H2. unfold await, bind, raise_if, on_session, modify, lift. simpl.
    destruct (k_timeout tick) as [err|]; simpl.
    - split; [done|]. eexists. split; [exact H2|]. rewrite H2. right. by exists r.
    - destruct r as [err|e]; simpl; rewrite H2.
      + split; [done|]. exists None. split; [done|by left].
      + done. }
  unfold bind at 1, get. rewrite H1. destruct Ha as [Ha|(r & Ha & Hr)]; rewrite Ha.
  - unfold bind at 1, raise_if. destruct (k_over tick) as [err|]; simpl.
    { split; [done|]. exists None. rewrite Hw. split; [|by left]. destruct s; simpl in Ha |- *.
      by rewrite Ha. }
    unfold bind at 1. destruct (_ || _); simpl.
    { split; [done|]. exists None. rewrite Hw. split; [|by left]. destruct s; simpl in Ha |- *.
      by rewrite Ha. }
    unfold bind at 1, modify, bind at 1, on_session, modify. apply Hawait; [done|]. simpl. by rewrite Hw.
  - simpl. rewrite str_eqb_refl. apply Hawait; [done|]. rewrite H1. destruct s; simpl in Ha |- *.
    by rewrite Ha.
Qed.
(** What no slice changes. *)
Record same (s : Session) : Prop := {
  sa_ordered : cs_ordered s = cs_ordered s0;
  sa_limit : cs_limit s = cs_limit s0;
  sa_fullPool : cs_fullPool s = cs_fullPool s0;
  sa_key : cs_key s = cs_key s0;
  sa_required : cs_required s0 <> [] -> cs_required s = cs_required s0;
  sa_completed : cs_completed s = cs_completed s0
}.

(** An evaluation found that the pool covers what the session requires, or that
    it does not. *)
Definition covers (s : Session) (pool : list Candidate) : Prop :=
  exists e, Ev pool (cs_required s) (inr e) /\ coverageComplete e (cs_required s) = true.
Definition refuted (s : Session) (pool : list Candidate) : Prop :=
  exists e, Ev pool (cs_required s) (inr e) /\ coverageComplete e (cs_required s) = false.

(** Cached evaluations are those of pools that do not cover. *)
Definition cached_ok (s : Session) : Prop :=
  forall key e, cs_cached s !! key = Some e -> exists pool,
    key = criticalCoveragePoolKey pool /\ incl pool (cs_ordered s0) /\
    Ev pool (cs_required s) (inr e) /\ coverageComplete e (cs_required s) = false.

(** In the search: frames within the limit, every pool refuted or still to come,
    and nothing pending but the pool of the top frame. *)
Record search_ok (s : Session) : Prop := {
  se_frames : Forall (fun f => (length (f_pool f) <= cs_limit s0)%nat) (cs_frames s);
  se_remaining : forall l, increasing 0 (length (cs_ordered s0)) l ->
    (length l <= cs_limit s0)%nat ->
    refuted s (coveragePool (cs_ordered s0) l) \/ to_come (length (cs_ordered s0)) (cs_frames s) l;
  se_pending : cs_pending s = None \/ exists f rest,
    cs_frames s = f :: rest /\ f_evaluated f = false /\
    cs_cached s !! criticalCoveragePoolKey (coveragePool (cs_ordered s0) (f_pool f)) = None /\
    awaits s (coveragePool (cs_ordered s0) (f_pool f)) (cs_required s)
}.

(** In the greedy phase: the selected routes and their evaluation, the best
    route of this pass, and nothing pending but the trial at the cursor. *)
Record greedy_ok (s : Session) : Prop := {
  gr_selected : incl (cs_selected s) (cs_ordered s0);
  gr_limit : (length (cs_selected s) <= cs_limit s0)%nat;
  gr_cursor : (cs_greedyCursor s <= length (cs_ordered s0))%nat;
  gr_required : cs_required s <> [];
  gr_current : (cs_selected s = [] /\ cs_current s = zero_evaluation) \/
    (cs_selected s <> [] /\ Ev (cs_selected s) (cs_required s) (inr (cs_current s)));
  gr_best : cs_greedyBestID s <> EmptyString ->
    (length (cs_selected s) < cs_limit s0)%nat /\
    exists c, In c (cs_ordered s0) /\ ID c = cs_greedyBestID s /\
      Ev (cs_selected s ++ [c]) (cs_required s) (inr (cs_greedyBest s));
  gr_pending : cs_pending s = None \/
    (coverageComplete (cs_current s) (cs_required s) = false /\
     (length (cs_selected s) < cs_limit s0)%nat /\ exists c,
       cs_ordered s0 !! cs_greedyCursor s = Some c /\ ID c ∉ cs_selectedIDs s /\
       awaits s (cs_selected s ++ [c]) (cs_required s))
}.

Definition phase_ok (s : Session) : Prop :=
  match cs_phase s with
  | PhaseFull => cs_cached s = ∅ /\
      (cs_pending s = None \/ cs_initialFull s = None /\ awaits s (cs_fullPool s0) [])
  | PhaseWitness =>
      incl (cs_selected s) (cs_ordered s0) /\ (length (cs_selected s) <= cs_limit s0)%nat /\
      cs_selected s <> [] /\ cs_required s <> [] /\ awaits s (cs_selected s) (cs_required s)
  | PhaseGreedy => greedy_ok s
  | PhaseSearch => cs_required s <> [] /\ search_ok s
  end.

Record session_ok (s : Session) : Prop := {
  ok_same : same s;
  ok_cached : cached_ok s;
  ok_phase : phase_ok s
}.

(** The answer of a finished search. *)
Definition answer_ok (found : option (list Candidate)) (s : Session) : Prop :=
  same s /\
  match found with
  | Some pool =>
      incl pool (cs_ordered s0) /\ (length pool <= cs_limit s0)%nat /\ covers s pool
  | None => cs_required s = [] \/
      forall l, increasing 0 (length (cs_ordered s0)) l -> (length l <= cs_limit s0)%nat ->
        refuted s (coveragePool (cs_ordered s0) l)
  end.

(** An error that leaves a session that can be resumed. *)
Definition stopped (err : CoverError) (w : Slice) : Prop :=
  internal err = false /\ session_ok (ses w).

Lemma coveragePool_incl ordered_ l : incl (coveragePool ordered_ l) ordered_.
Proof.
  intros c Hc. unfold coveragePool in Hc. apply list_elem_of_In, list_elem_of_omap in Hc
    as (i & _ & Hi). apply list_elem_of_In. by eapply list_elem_of_lookup_2.
Qed.

(** *** The exhaustive search *)

Definition searching (s : Session) : Prop := session_ok s /\ cs_phase s = PhaseSearch.

(** The cached evaluation of a pool is its evaluation. *)
Lemma cached_pool s pool e :
  same s -> cached_ok s -> incl pool (cs_ordered s0) ->
  cs_cached s !! criticalCoveragePoolKey pool = Some e ->
  Ev pool (cs_required s) (inr e) /\ coverageComplete e (cs_required s) = false.
Proof.
  intros Hs Hc Hp E. destruct (Hc _ _ E) as (pool' & Hk & Hp' & He & Hf).
  apply criticalCoveragePoolKey_inj in Hk. by rewrite (ids_determine _ pool pool' Hids Hp Hp' Hk).
Qed.

Lemma length_coveragePool ordered_ l : (length (coveragePool ordered_ l) <= length l)%nat.
Proof. induction l as [|i l IH]; simpl; [lia|]. destruct (ordered_ !! i); simpl; lia. Qed.

(** The session whose top frame has just been evaluated. *)
Definition evaluated_top (s : Session) (f : Frame) (rest : list Frame) (s' : Session) : Prop :=
  same s' /\ cached_ok s' /\ cs_phase s' = PhaseSearch /\ cs_required s' = cs_required s /\
  cs_pending s' = None /\
  cs_frames s' = {| f_pool := f_pool f; f_next := f_next f; f_evaluated := true |} :: rest.

Lemma evaluate_frame_spec s f rest :
  searching s -> cs_frames s = f :: rest ->
  triple (fun w => ses w = s)
    (evaluate_frame (fun pool => evaluatePool ev pool (cs_required s)) f rest)
    (fun r w => evaluated_top s f rest (ses w) /\
       match r with
       | Some pool => pool = coveragePool (cs_ordered s0) (f_pool f) /\ covers s pool
       | None => f_evaluated f = true \/ refuted s (coveragePool (cs_ordered s0) (f_pool f))
       end)
    stopped.
Proof.
  intros [[Hsame Hc Hph] Hsearch] Hf. pose proof Hph as Hok. unfold phase_ok in Hok.
  rewrite Hsearch in Hok. destruct Hok as [Hr [Hfr Hrem Hpend]].
  pose proof Hsame as [Hord _ _ _ _ _].
  intros w Hw. unfold evaluate_frame, bind at 1, get. rewrite Hw. rewrite Hord.
  destruct (f_evaluated f) eqn:Ef.
  { unfold ret. rewrite Hw. split; [|by left]. unfold evaluated_top. split_and!; try done.
    - destruct Hpend as [|(g & r & E & Hg & _)]; [done|]. rewrite Hf in E.
      injection E as <- <-. congruence.
    - rewrite Hf. destruct f; simpl in Ef |- *. by rewrite Ef. }
  set (pool := coveragePool (cs_ordered s0) (f_pool f)).
  destruct (cs_cached s !! criticalCoveragePoolKey pool) as [e|] eqn:Ec.
  - unfold bind, on_session, modify, ret. simpl. rewrite Hw.
    destruct (cached_pool s pool e Hsame Hc (coveragePool_incl _ _) Ec) as [He Hcomp].
    rewrite Hcomp. split.
    + unfold evaluated_top. split_and!; try done; simpl.
      * by destruct Hsame.
      * intros k e' Hk. simpl in Hk. apply lookup_delete_Some in Hk as [_ Hk]. by apply (Hc k e').
      * destruct Hpend as [|(g & r & E & _ & Hg & _)]; [done|]. rewrite Hf in E.
        injection E as <- <-. fold pool in Hg. by rewrite Ec in Hg.
    + right. by exists e.
  - assert (awaits s pool (cs_required s)) as Haw.
    { destruct Hpend as [|(g & r & E & _ & _ & Hg)]; [by left|]. rewrite Hf in E.
      by injection E as <- <-. }
    pose proof (evaluatePool_spec s pool (cs_required s) Haw w Hw) as Hans.
    unfold bind. destruct (evaluatePool ev pool (cs_required s) w) as [[err|e] w1].
    + destruct Hans as (Hi & p & Hs1 & Ha). split; [done|]. rewrite Hs1 in Ha |- *. split.
      * by destruct Hsame.
      * done.
      * unfold phase_ok. simpl. rewrite Hsearch. split; [done|]. split; simpl; [done|done|].
        right. by exists f, rest.
    + destruct Hans as [Hs1 He]. unfold on_session, modify, ret. simpl. rewrite Hs1. split.
      * unfold evaluated_top. split_and!; try done. by destruct Hsame.
      * destruct (coverageComplete e (cs_required s)) eqn:Ex; [by split; [|exists e]|].
        right. by exists e.
Qed.

(** A turn evaluates at most one pool, and leaves one turn less. *)
Lemma search_turn_spec required n :
  triple (fun w => (searching (ses w) /\ cs_required (ses w) = required) /\
                   turns_left (ses w) = n)
    (search_turn (fun pool => evaluatePool ev pool required))
    (fun r w => match r with
     | None => (searching (ses w) /\ cs_required (ses w) = required) /\
               (turns_left (ses w) < n)%nat
     | Some found => answer_ok found (ses w)
     end)
    stopped.
Proof.
  intros w [[Hs <-] <-]. unfold search_turn, bind at 1, get.
  destruct (cs_frames (ses w)) as [|f rest] eqn:Ef.
  - unfold ret. destruct Hs as [[Hsame Hc Hph] Hsearch]. split; [done|]. right.
    intros l Hl Hlen. unfold phase_ok in Hph. rewrite Hsearch in Hph.
    destruct Hph as [_ [_ Hrem _]]. destruct (Hrem l Hl Hlen) as [|(g & Hg & _)]; [done|].
    by rewrite Ef in Hg.
  - pose proof (evaluate_frame_spec (ses w) f rest Hs Ef w eq_refl) as H. unfold bind.
    destruct (evaluate_frame _ f rest w) as [[err|[pool|]] w1]; [done| |].
    + destruct H as [(Hsame & _ & _ & Hr & _ & _) (-> & e & He & Hx)]. unfold ret.
      destruct Hs as [[_ _ Hph] Hsearch]. unfold phase_ok in Hph. rewrite Hsearch in Hph.
      destruct Hph as [_ [Hfr _ _]]. rewrite Ef in Hfr. inversion Hfr; subst.
      split; [done|]. split_and!.
      * apply coveragePool_incl.
      * etransitivity; [apply length_coveragePool|done].
      * exists e. by rewrite Hr.
    + destruct H as [(Hsame & Hc & Hp & Hr & Hpend & Hfs) Hnot].
      unfold on_session, modify, ret. destruct Hs as [[Hsame0 _ Hph] Hsearch].
      unfold phase_ok in Hph. rewrite Hsearch in Hph. destruct Hph as [Hreq [Hfr Hrem Hpd]].
      rewrite Ef in Hfr, Hrem. inversion Hfr as [|? ? Hlen Hfr']; subst.
      destruct Hsame as [A1 A2 A3 A4 A5 A6] eqn:Hsame'. clear Hsame'. simpl. rewrite A1, A2.
      set (n := length (cs_ordered s0)).
      split; [split; [split; [split|]|]|].
      * by split.
      * done.
      * unfold phase_ok. simpl. rewrite Hp. split; [congruence|]. split; simpl.
        -- unfold advance_frames. destruct (_ && _) eqn:E; [|done].
           apply andb_true_iff in E as [E _]. apply Nat.ltb_lt in E.
           constructor; [|by constructor]. cbn [f_pool]. rewrite length_app. simpl. lia.
        -- intros l Hl Hle. unfold refuted. cbn [cs_required set_field]. rewrite Hr.
           destruct (decide (l = f_pool f)) as [->|Hne].
           ++ destruct Hnot as [He|Hnot]; [|by left].
              destruct (Hrem _ Hl Hle) as [|H]; [by left|right].
              apply to_come_advance; auto.
           ++ destruct (Hrem l Hl Hle) as [|H]; [by left|right].
              apply to_come_advance; auto.
        -- by left.
      * done.
      * done.
      * unfold turns_left. simpl. rewrite A1, A2, Ef, (sa_ordered _ Hsame0), (sa_limit _ Hsame0).
        fold n. rewrite advance_turns. lia.
Qed.

(** The search answers or is stopped; it never runs out of turns. *)
Lemma resumeCriticalCoverageWith_spec s :
  searching s ->
  triple (fun w => ses w = s)
    (resumeCriticalCoverageWith (fun pool => evaluatePool ev pool (cs_required s)))
    (fun r w => exists found, r = Some found /\ answer_ok found (ses w)) stopped.
Proof.
  intros Hs w <-. unfold resumeCriticalCoverageWith.
  apply (triple_loopM (fun w' => searching (ses w') /\ cs_required (ses w') = cs_required (ses w))
    (fun w' => turns_left (ses w')) _ (fun found w' => answer_ok found (ses w'))).
  - intros n. apply search_turn_spec.
  - split; [done|lia].
Qed.
(** *** The phases before the search *)

(** What a turn that started at measure [n] leaves. *)
Definition turn_ok (n : nat) (r : option (option (list Candidate))) (w : Slice) : Prop :=
  match r with
  | None => session_ok (ses w) /\ (planner_turns (ses w) < n)%nat
  | Some found => answer_ok found (ses w)
  end.

(** A greedy phase that starts. *)
Lemma greedy_start s :
  same s -> cached_ok s -> cs_pending s = None -> cs_required s <> [] ->
  incl (cs_selected s) (cs_ordered s0) -> (length (cs_selected s) <= cs_limit s0)%nat ->
  (cs_selected s = [] /\ cs_current s = zero_evaluation) \/
    (cs_selected s <> [] /\ Ev (cs_selected s) (cs_required s) (inr (cs_current s))) ->
  session_ok (initializeCriticalCoverageGreedyState s) /\
  (planner_turns (initializeCriticalCoverageGreedyState s) <=
     S (cs_limit s0 * (length (cs_ordered s0) + 2) + length (cs_ordered s0)) +
     subtree (cs_limit s0) (length (cs_ordered s0)))%nat.
Proof.
  intros Hs Hc Hp Hr Hi Hl He. split.
  - split; [by destruct Hs|done|]. unfold phase_ok. simpl. split; simpl; try done.
    + lia.
    + by left.
  - unfold planner_turns. simpl. rewrite (sa_ordered _ Hs), (sa_limit _ Hs). nia.
Qed.

Lemma after_full_spec full s n :
  same s -> cs_cached s = ∅ -> cs_pending s = None ->
  (S (S (cs_limit s0 * (length (cs_ordered s0) + 2) + length (cs_ordered s0))) +
   subtree (cs_limit s0) (length (cs_ordered s0)) < n)%nat ->
  triple (fun w => ses w = s) (after_full full) (turn_ok n) stopped.
Proof.
  intros Hs Hc Hp Hn w Hw. unfold after_full, bind at 1, get. rewrite Hw. cbv zeta.
  set (required := if bool_decide (cs_required s = []) then _ else cs_required s).
  assert (forall s', same s' -> same (s' <| cs_required := required |>)) as Hsame.
  { intros s' [? ? ? ? ? ?]. split; simpl; try done. intros H0. unfold required.
    rewrite bool_decide_eq_false_2; [by apply Hs|]. by rewrite (sa_required _ Hs). }
  unfold bind at 1, on_session at 1, modify. rewrite Hw.
  set (s1 := s <| cs_required := required |>).
  assert (same s1 /\ cached_ok s1 /\ cs_pending s1 = None) as (H1 & H2 & H3).
  { split_and!; [by apply Hsame| |done]. intros k e Hk. simpl in Hk. by rewrite Hc in Hk. }
  destruct (bool_decide (required = [])) eqn:Er.
  { apply bool_decide_eq_true in Er. unfold ret. split; [done|by left]. }
  apply bool_decide_eq_false in Er.
  assert (forall s2, s2 = s1 <| cs_selected := [] |> <| cs_selectedIDs := ∅ |>
                            <| cs_current := zero_evaluation |> ->
    turn_ok n None (w <| ses := initializeCriticalCoverageGreedyState s2 |>)) as Hgreedy.
  { intros s2 ->. destruct (greedy_start (s1 <| cs_selected := [] |> <| cs_selectedIDs := ∅ |>
      <| cs_current := zero_evaluation |>)) as [Hok Hm];
      [by destruct H1|done|done|done|intros ? []|simpl; lia|by left|].
    split; [exact Hok|]. simpl in Hm |- *. lia. }
  destruct (_ && _) eqn:Ew; [|by apply (Hgreedy _ eq_refl)].
  apply andb_true_iff in Ew as [E1 E2]. apply Nat.ltb_lt in E1. apply Nat.leb_le in E2.
  set (witnessSet := list_to_set (witnessIDs full) : gset string).
  set (selected := List.filter _ _). unfold bind at 1, on_session at 1, modify.
  destruct (Nat.eqb (length selected) (size witnessSet)) eqn:El;
    unfold bind, on_session, modify, ret.
  - apply Nat.eqb_eq in El.
    assert (0 < size witnessSet)%nat as Hpos.
    { destruct (witnessIDs full) as [|i l] eqn:E; [simpl in E1; lia|].
      destruct (decide (size witnessSet = 0%nat)) as [Hz|]; [|lia].
      apply size_empty_inv in Hz. unfold witnessSet in Hz. set_solver. }
    assert (size witnessSet <= length (witnessIDs full))%nat as Hsz.
    { unfold witnessSet. clear. induction (witnessIDs full) as [|i l IH]; [done|].
      cbn [list_to_set length]. rewrite size_union_alt, size_singleton.
      pose proof (subseteq_size (list_to_set l ∖ {[i]}) (list_to_set l : gset string)).
      assert (list_to_set l ∖ {[i]} ⊆ (list_to_set l : gset string)) by set_solver.
      specialize (H H0). lia. }
    rewrite (sa_limit _ Hs) in E2. split.
    + split; [by destruct H1|done|]. unfold phase_ok. simpl. split_and!.
      * intros c Hsel. apply filter_incl in Hsel. rewrite (sa_fullPool _ Hs) in Hsel. by apply Hfull.
      * lia.
      * intros E. rewrite E in El. simpl in El. lia.
      * done.
      * by left.
    + unfold planner_turns. simpl. rewrite (sa_ordered _ Hs), (sa_limit _ Hs). lia.
  - by apply (Hgreedy _ eq_refl).
Qed.
Lemma full_turn_spec n :
  triple (fun w => (session_ok (ses w) /\ cs_phase (ses w) = PhaseFull) /\
                   planner_turns (ses w) = n)
    (full_turn ev) (turn_ok n) stopped.
Proof.
  intros w [[[Hs Hc Hph] Hp] <-]. unfold phase_ok in Hph. rewrite Hp in Hph.
  destruct Hph as [Hca Hpend]. unfold full_turn, bind at 1, get.
  assert (forall full s w', ses w' = s -> same s -> cs_cached s = ∅ -> cs_pending s = None ->
    match after_full full w' with
    | (inl err, w'') => stopped err w''
    | (inr r, w'') => turn_ok (planner_turns (ses w)) r w''
    end) as Hafter.
  { intros full s w' E H1 H2 H3. apply (after_full_spec full s _ H1 H2 H3); [|done].
    unfold planner_turns. rewrite Hp, (sa_ordered _ Hs), (sa_limit _ Hs). lia. }
  destruct (cs_initialFull (ses w)) as [full|] eqn:Ei.
  - unfold bind, on_session, modify, ret.
    eapply Hafter; [reflexivity| | |]; simpl; [by destruct Hs|done|].
    by destruct Hpend as [|[? _]].
  - assert (awaits (ses w) (cs_fullPool (ses w)) []) as Ha.
    { rewrite (sa_fullPool _ Hs). destruct Hpend as [|[_ ?]]; [by left|done]. }
    pose proof (evaluatePool_spec (ses w) _ _ Ha w eq_refl) as H. unfold bind.
    destruct (evaluatePool ev (cs_fullPool (ses w)) [] w) as [[err|full] w1].
    + destruct H as (Hi & pd & Hs1 & Haw). split; [done|]. rewrite Hs1 in Haw |- *.
      split; [by destruct Hs|done|]. unfold phase_ok. simpl. rewrite Hp. split; [done|]. right.
      rewrite <- (sa_fullPool _ Hs). done.
    + destruct H as [Hs1 _]. eapply Hafter; [exact Hs1| | |]; [by destruct Hs|done|done].
Qed.

Lemma copy_of_some pool : pool <> [] -> copy_of pool = Some pool.
Proof. by destruct pool. Qed.

Lemma witness_turn_spec n :
  triple (fun w => (session_ok (ses w) /\ cs_phase (ses w) = PhaseWitness) /\
                   planner_turns (ses w) = n)
    (witness_turn ev) (turn_ok n) stopped.
Proof.
  intros w [[[Hs Hc Hph] Hp] <-]. unfold phase_ok in Hph. rewrite Hp in Hph.
  destruct Hph as (Hsel & Hlen & Hne & Hr & Ha). unfold witness_turn, bind at 1, get.
  pose proof (evaluatePool_spec (ses w) _ _ Ha w eq_refl) as H. unfold bind at 1.
  destruct (evaluatePool ev (cs_selected (ses w)) (cs_required (ses w)) w) as [[err|e] w1].
  - destruct H as (Hi & pd & Hs1 & Haw). split; [done|]. rewrite Hs1 in Haw |- *.
    split; [by destruct Hs|done|]. unfold phase_ok. simpl. by rewrite Hp.
  - destruct H as [Hs1 He]. destruct (coverageComplete e (cs_required (ses w))) eqn:Ex.
    + unfold ret. rewrite copy_of_some by done. split; rewrite Hs1.
      * by destruct Hs.
      * split_and!; [done|done|]. by exists e.
    + unfold bind, on_session, modify, ret. simpl. rewrite Hs1.
      destruct (greedy_start ((ses w) <| cs_pending := None |>
        <| cs_selectedIDs := list_to_set (map ID (cs_selected (ses w))) |> <| cs_current := e |>))
        as [Hok Hm]; [by destruct Hs|done|done|done|done|done|by right|].
      split; [exact Hok|]. eapply Nat.le_lt_trans; [exact Hm|]. unfold planner_turns.
      rewrite Hp, (sa_ordered _ Hs), (sa_limit _ Hs). lia.
Qed.

(** The route named best is the one that was tried. *)
Lemma find_best s :
  (exists c, In c (cs_ordered s0) /\ ID c = cs_greedyBestID s /\
     Ev (cs_selected s ++ [c]) (cs_required s) (inr (cs_greedyBest s))) ->
  exists c, List.find (fun c => str_eqb (ID c) (cs_greedyBestID s)) (cs_ordered s0) = Some c /\
    In c (cs_ordered s0) /\ Ev (cs_selected s ++ [c]) (cs_required s) (inr (cs_greedyBest s)).
Proof.
  intros (c & Hc & Hid & He).
  destruct (List.find _ (cs_ordered s0)) as [d|] eqn:Ed.
  - apply find_some in Ed as [Hd Heq]. str_bool. rewrite <- Hid in Heq.
    assert (d = c) as ->; [|eauto].
    assert ([d] = [c]) as [= ->]; [|done]. apply (ids_determine (cs_ordered s0)); [done| | |].
    + by intros x [<-|[]].
    + by intros x [<-|[]].
    + simpl. by rewrite Heq.
  - exfalso. pose proof (find_none _ _ Ed c Hc) as H. simpl in H. by str_bool.
Qed.

(** The end of a pass joins the best route, or begins the search. *)
Lemma greedy_pass_end_ok s :
  session_ok s -> cs_phase s = PhaseGreedy ->
  (length (cs_selected s) = cs_limit s0 \/ cs_greedyCursor s = length (cs_ordered s0)) ->
  session_ok (greedy_pass_end s) /\ (planner_turns (greedy_pass_end s) < planner_turns s)%nat.
Proof.
  intros [Hs Hc Hph] Hp Hend. unfold phase_ok in Hph. rewrite Hp in Hph.
  destruct Hph as [G1 G2 G3 G4 G5 G6 G7].
  assert (cs_pending s = None) as Hpd.
  { destruct G7 as [|(_ & Hl & c & Hcur & _)]; [done|]. exfalso.
    apply lookup_lt_Some in Hcur. lia. }
  unfold greedy_pass_end. destruct (str_eqb (cs_greedyBestID s) EmptyString) eqn:Eb; str_bool.
  - split.
    + split; [by destruct Hs|done|]. unfold phase_ok. simpl. split; [done|]. split; simpl.
      * constructor; [simpl; lia|done].
      * intros l Hl _. right. by apply to_come_start.
      * by left.
    + unfold planner_turns. rewrite Hp. unfold turns_left. simpl.
      unfold frame_turns. simpl. rewrite (sa_ordered _ Hs), (sa_limit _ Hs), !Nat.sub_0_r. nia.
  - destruct (G6 Eb) as [Hl Hbest]. destruct (find_best s Hbest) as (c & Hf & Hin & He).
    rewrite (sa_ordered _ Hs), Hf. split.
    + split; [by destruct Hs|done|]. unfold phase_ok. simpl. rewrite Hp. split; simpl; try done.
      * intros x [Hx|[<-|[]]]%in_app_iff; auto.
      * rewrite length_app. simpl. lia.
      * lia.
      * right. split; [by destruct (cs_selected s)|done].
      * by left.
    + unfold planner_turns. simpl. rewrite Hp, (sa_ordered _ Hs), (sa_limit _ Hs), length_app.
      simpl. destruct Hend as [He'|He']; [lia|]. nia.
Qed.

Lemma greedy_turn_spec n :
  triple (fun w => (session_ok (ses w) /\ cs_phase (ses w) = PhaseGreedy) /\
                   planner_turns (ses w) = n)
    (greedy_turn ev) (turn_ok n) stopped.
Proof.
  intros w [[Hok Hp] <-]. pose proof Hok as [Hs Hc Hph]. unfold phase_ok in Hph.
  rewrite Hp in Hph. pose proof Hph as [G1 G2 G3 G4 G5 G6 G7].
  unfold greedy_turn, bind at 1, get. set (s := ses w) in *.
  destruct (coverageComplete (cs_current s) (cs_required s)) eqn:Ecur.
  { unfold ret. split; [done|]. destruct G5 as [[_ Hz]|[Hne He]].
    - exfalso. unfold coverageComplete in Ecur. rewrite Hz in Ecur. apply Nat.eqb_eq in Ecur.
      change (satisfied zero_evaluation) with (∅ : gset string) in Ecur.
      rewrite size_empty in Ecur. by destruct (cs_required s).
    - rewrite copy_of_some by done. split_and!; [done|done|by exists (cs_current s)]. }
  destruct (_ || _) eqn:Eend.
  { unfold bind, on_session, modify, ret. apply orb_true_iff in Eend.
    rewrite !Nat.eqb_eq, (sa_limit _ Hs), (sa_ordered _ Hs) in Eend.
    by apply greedy_pass_end_ok. }
  apply orb_false_iff in Eend as [El En].
  rewrite Nat.eqb_neq, (sa_limit _ Hs) in El. rewrite Nat.eqb_neq, (sa_ordered _ Hs) in En.
  rewrite (sa_ordered _ Hs).
  destruct (cs_ordered s0 !! cs_greedyCursor s) as [c|] eqn:Ec;
    [|apply lookup_ge_None in Ec; lia].
  assert (forall s', cs_phase s' = PhaseGreedy -> cs_selected s' = cs_selected s ->
    cs_ordered s' = cs_ordered s -> cs_limit s' = cs_limit s ->
    cs_greedyCursor s' = S (cs_greedyCursor s) ->
    (planner_turns s' < planner_turns s)%nat) as Hless.
  { intros s' E1 E2 E3 E4 E5. unfold planner_turns.
    rewrite E1, E2, E3, E4, E5, Hp, (sa_ordered _ Hs). lia. }
  unfold bind at 1, on_session at 1, modify. fold s.
  destruct (bool_decide (ID c ∈ cs_selectedIDs s)) eqn:Ein.
  { apply bool_decide_eq_true in Ein. unfold ret. split; [|by apply Hless].
    split; [by destruct Hs|done|]. unfold phase_ok. simpl. rewrite Hp. split; simpl; try done; [lia|].
    left. destruct G7 as [|(_ & _ & d & Hd & Hn & _)]; [done|]. assert (d = c) as -> by (apply (inj Some); by rewrite <- Hd, <- Ec).
    done. }
  apply bool_decide_eq_false in Ein. set (s1 := s <| cs_greedyCursor := S (cs_greedyCursor s) |>).
  set (trial := cs_selected s ++ [c]).
  assert (awaits s1 trial (cs_required s)) as Ha.
  { destruct G7 as [|(_ & _ & d & Hd & _ & Hn)]; [by left|]. assert (d = c) as -> by (apply (inj Some); by rewrite <- Hd, <- Ec).
    done. }
  assert (incl trial (cs_ordered s0)) as Htrial.
  { intros x [Hx|[<-|[]]]%in_app_iff; [by apply G1|]. apply list_elem_of_In.
    by eapply list_elem_of_lookup_2. }
  assert (length trial <= cs_limit s0)%nat as Htl
    by (unfold trial; rewrite length_app; simpl; lia).
  pose proof (evaluatePool_spec s1 trial _ Ha (w <| ses := s1 |>) eq_refl) as H.
  unfold bind at 1, on_error. fold s1.
  destruct (evaluatePool ev trial (cs_required s) (w <| ses := s1 |>)) as [[err|e] w1].
  - destruct H as (Hi & pd & Hs1 & Haw). split; [done|]. simpl. rewrite Hs1 in Haw |- *.
    split; [by destruct Hs|done|]. unfold phase_ok. simpl. rewrite Hp. split; simpl; try done.
    right. split; [done|]. split; [lia|]. by exists c.
  - destruct H as [Hs1 He]. unfold bind, on_session, modify. simpl. rewrite Hs1.
    set (s2 := s1 <| cs_pending := None |> <| cs_cached := _ |>).
    destruct (coverageComplete e (cs_required s)) eqn:Ex; unfold ret.
    + split; [by destruct Hs|]. split_and!; [done|done|]. by exists e.
    + assert (cached_ok s2) as Hc2.
      { intros k e' Hk. simpl in Hk. apply lookup_insert_Some in Hk as [[<- <-]|[_ Hk]];
          [by exists trial|by apply (Hc k e')]. }
      cbn [turn_ok set_field]. unfold greedy_improve. destruct (_ <? _)%nat.
      * split; [|by apply Hless]. split; [by destruct Hs|done|]. unfold phase_ok. simpl. rewrite Hp.
        split; simpl; try done; [lia| |by left]. intros _. split; [lia|]. exists c.
        split; [by apply Htrial, in_app_iff; right; left|done].
      * split; [|by apply Hless]. split; [by destruct Hs|done|]. unfold phase_ok. simpl. rewrite Hp.
        split; simpl; try done; [lia|by left].
Qed.

Lemma planner_turn_spec n :
  triple (fun w => session_ok (ses w) /\ planner_turns (ses w) = n)
    (planner_turn ev) (turn_ok n) stopped.
Proof.
  intros w [Hok Hn]. unfold planner_turn, bind at 1, get.
  destruct (cs_phase (ses w)) eqn:Hp.
  - by apply full_turn_spec.
  - by apply witness_turn_spec.
  - by apply greedy_turn_spec.
  - unfold bind. pose proof (resumeCriticalCoverageWith_spec (ses w) (conj Hok Hp) w eq_refl) as H.
    destruct (resumeCriticalCoverageWith _ w) as [[err|r] w1]; [done|].
    destruct H as (found & -> & H). done.
Qed.

(** One slice of the planner. *)
Lemma planner_spec :
  triple (fun w => session_ok (ses w)) (resumeCriticalCoveragePlanner ev)
    (fun found w => answer_ok found (ses w)) stopped.
Proof.
  intros w Hok. unfold resumeCriticalCoveragePlanner, bind.
  pose proof (triple_loopM (fun w => session_ok (ses w)) (fun w => planner_turns (ses w))
    (planner_turn ev) (fun found w => answer_ok found (ses w)) stopped
    (S (planner_turns (ses w))) planner_turn_spec w (conj Hok (Nat.lt_succ_diag_r _))) as H.
  destruct (loopM _ _ w) as [[err|r] w1]; [done|]. destruct H as (found & -> & H). done.
Qed.
End Sessions.
