(* ===== verification/CoverageRuns.v ===== *)
(** Runs of the search for a critical cover (CoverageSearch.v): the progress of an
    undisturbed slice, sessions from their start over any stopped slices to their
    answer, and what the answer means. *)
From Stdlib Require Import Ascii String.
From S2P Require Import Prelude Effects GoOrder GoFloat GoSort GoStrings SchedLoad SchedState.
From S2P Require Import SchedReserves Scheduling Coverage CoverageSearch.

#[local] Open Scope Z_scope.
#[local] Open Scope effect_scope.

(** ** Progress of an undisturbed slice

    When nothing interrupts and evaluations do not fail, a slice stops only at
    the limit of evaluations, and every evaluation is a turn of the search. *)

Section Progress.
Context (Ev : Answers).
Context (ev : list Candidate -> list string -> ContextError + criticalCoverageEvaluation).
Hypothesis Hsub : forall pool required, Ev pool required (ev pool required).
Hypothesis Hev : forall pool required r, Ev pool required r -> exists e, r = inr e.

Definition undisturbed (w : Slice) : Prop := ticks w = [].

Definition at_limit (w : Slice) : Prop :=
  activeCriticalCoverageEvaluationLimit <= b_evaluations w.

(** A session whose pending evaluation, if any, did not fail. *)
Definition sane (s : Session) : Prop :=
  forall task, cs_pending s = Some task -> exists e, t_result task = inr e.

(** Steps without evaluations. *)
Definition free {A : Type} (m : P_ A) : Prop := forall w, undisturbed w -> exists a w',
  m w = (inr a, w') /\ undisturbed w' /\ b_evaluations w' = b_evaluations w.

(** Steps with one evaluation at most, which stop only at the limit, and then
    without a trace. *)
Definition thrifty {A : Type} (m : P_ A) : Prop := forall w,
  undisturbed w -> sane (ses w) ->
  match m w with
  | (inl err, w') => internal err = true \/ (at_limit w /\ ses w' = ses w)
  | (inr _, w') => undisturbed w' /\ b_evaluations w' <= b_evaluations w + 1
  end.

Lemma free_ret {A : Type} (a : A) : free (ret a).
Proof. intros w Hw. by exists a, w. Qed.

Lemma free_get {A : Type} (f : Slice -> A) : free (get f).
Proof. intros w Hw. by exists (f w), w. Qed.

Lemma free_session f : free (on_session f).
Proof. intros w Hw. by eexists _, _. Qed.

Lemma free_bind {A B : Type} (m : P_ A) (k : A -> P_ B) :
  free m -> (forall a, free (k a)) -> free (bind m k).
Proof.
  intros Hm Hk w Hw. destruct (Hm w Hw) as (a & w1 & E1 & H1 & B1).
  destruct (Hk a w1 H1) as (b & w2 & E2 & H2 & B2). exists b, w2.
  unfold bind. rewrite E1, E2. split_and!; [done|done|congruence].
Qed.

Lemma free_thrifty {A : Type} (m : P_ A) : free m -> thrifty m.
Proof. intros Hm w Hw _. destruct (Hm w Hw) as (a & w' & -> & H & E). split; [done|lia]. Qed.

Lemma thrifty_then {A B : Type} (m : P_ A) (k : A -> P_ B) :
  thrifty m -> (forall a, free (k a)) -> thrifty (bind m k).
Proof.
  intros Hm Hk w Hw Hs. specialize (Hm w Hw Hs). unfold bind. destruct (m w) as [[err|a] w1]; [done|].
  destruct Hm as [H1 B1]. destruct (Hk a w1 H1) as (b & w2 & -> & H2 & B2). split; [done|lia].
Qed.

Lemma thrifty_get {A B : Type} (f : Slice -> A) (k : A -> P_ B) :
  (forall a, thrifty (k a)) -> thrifty (bind (get f) k).
Proof. intros Hk w Hw Hs. by apply Hk. Qed.

Lemma thrifty_internal {A : Type} err : internal err = true -> thrifty (raise (A := A) err).
Proof. intros H w _ _. by left. Qed.

Lemma evaluatePool_thrifty pool required : thrifty (evaluatePool ev pool required).
Proof.
  intros w Hw Hs. unfold evaluatePool, bind at 1, next_tick. unfold undisturbed in Hw. rewrite Hw.
  cbn [hd tl]. unfold bind at 1, get. cbn [ses set_field].
  destruct (cs_pending (ses w)) as [task|] eqn:Ep.
  - cbn. destruct (str_eqb _ _); [|by left]. destruct (Hs task Ep) as [e He].
    unfold await, bind, raise_if, on_session, modify, lift. simpl. rewrite He. simpl.
    split; [done|lia].
  - cbn. unfold bind at 1, ret. unfold bind at 1. cbn.
    rewrite orb_false_r.
    destruct (activeCriticalCoverageEvaluationLimit <=? b_evaluations w) eqn:El; z_bool.
    + cbn. right. done.
    + destruct (Hev pool required _ (Hsub pool required)) as [e He]. unfold await, bind, raise_if, on_session, modify,
        lift. simpl. rewrite He. simpl. split; [done|lia].
Qed.

(** Decides the steps of a turn. *)
Ltac thrift := repeat first
  [ progress intros
  | apply free_ret | apply free_get | apply free_session
  | apply evaluatePool_thrifty | by apply thrifty_internal
  | apply free_bind | apply thrifty_get | apply thrifty_then
  | case_match
  | apply free_thrifty ].

Lemma after_full_free full : free (after_full full).
Proof. unfold after_full. thrift. Qed.

Lemma full_turn_thrifty : thrifty (full_turn ev).
Proof.
  unfold full_turn. apply thrifty_get. intros s. apply thrifty_then; [|apply after_full_free].
  destruct (cs_initialFull s); [|apply evaluatePool_thrifty]. apply free_thrifty. thrift.
Qed.

Lemma witness_turn_thrifty : thrifty (witness_turn ev).
Proof. unfold witness_turn. thrift. Qed.

Lemma search_turn_thrifty required :
  thrifty (search_turn (fun pool => evaluatePool ev pool required)).
Proof.
  unfold search_turn. apply thrifty_get. intros s. destruct (cs_frames s) as [|f rest].
  - apply free_thrifty, free_ret.
  - apply thrifty_then; [|thrift]. unfold evaluate_frame. apply thrifty_get. intros s'.
    destruct (f_evaluated f); [apply free_thrifty, free_ret|].
    apply thrifty_then; [|thrift]. destruct (_ !! _); [|apply evaluatePool_thrifty].
    apply free_thrifty. thrift.
Qed.

Lemma greedy_turn_thrifty : thrifty (greedy_turn ev).
Proof.
  unfold greedy_turn. apply thrifty_get. intros s.
  destruct (coverageComplete _ _); [apply free_thrifty, free_ret|].
  destruct (_ || _); [apply free_thrifty; thrift|].
  destruct (cs_ordered s !! _) as [c|]; [|by apply thrifty_internal].
  intros w Hw Hs. unfold bind at 1, on_session at 1, modify.
  set (w1 := w <| ses := (ses w) <| cs_greedyCursor := _ |> |>).
  destruct (bool_decide _); [unfold ret; split; [done|simpl; lia]|].
  set (trial := cs_selected s ++ [c]).
  pose proof (evaluatePool_thrifty trial (cs_required s) w1 Hw Hs) as H.
  unfold bind at 1, on_error.
  destruct (evaluatePool ev trial (cs_required s) w1) as [[err|e] w2].
  - destruct H as [H|[H1 H2]]; [by left|right]. split; [done|]. simpl. rewrite H2. simpl.
    by destruct (ses w).
  - destruct H as [H1 H2]. unfold bind, on_session, modify.
    destruct (coverageComplete e (cs_required s)); unfold ret; simpl; split; try done; simpl in H2;
      lia.
Qed.

(** A turn in a state of [I], of which [measure] bounds the turns to come: turns
    and evaluations stay within [W], and a stop leaves the limit of evaluations
    fewer. *)
Definition quiet_turn {A : Type} (I : Session -> Prop) (measure : Session -> nat)
    (Q : A -> Session -> Prop) (W : Z) (turn : P_ (option A)) : Prop :=
  forall w, I (ses w) -> undisturbed w -> Z.of_nat (measure (ses w)) + b_evaluations w <= W ->
  match turn w with
  | (inr None, w') => I (ses w') /\ undisturbed w' /\ (measure (ses w') < measure (ses w))%nat /\
      Z.of_nat (measure (ses w')) + b_evaluations w' <= W
  | (inr (Some a), w') => Q a (ses w')
  | (inl err, w') => internal err = false /\ I (ses w') /\
      Z.of_nat (measure (ses w')) + activeCriticalCoverageEvaluationLimit <= W
  end.

Lemma quiet_thrifty {A : Type} (I : Session -> Prop) measure (Q : A -> Session -> Prop) W
    (turn : P_ (option A)) w :
  match turn w with
  | (inr None, w') => I (ses w') /\ (measure (ses w') < measure (ses w))%nat
  | (inr (Some a), w') => Q a (ses w')
  | (inl err, _) => internal err = false
  end ->
  thrifty turn -> I (ses w) -> sane (ses w) -> undisturbed w ->
  Z.of_nat (measure (ses w)) + b_evaluations w <= W ->
  match turn w with
  | (inr None, w') => I (ses w') /\ undisturbed w' /\ (measure (ses w') < measure (ses w))%nat /\
      Z.of_nat (measure (ses w')) + b_evaluations w' <= W
  | (inr (Some a), w') => Q a (ses w')
  | (inl err, w') => internal err = false /\ I (ses w') /\
      Z.of_nat (measure (ses w')) + activeCriticalCoverageEvaluationLimit <= W
  end.
Proof.
  intros Hspec Ht HI Hs Hw HW. specialize (Ht w Hw Hs).
  destruct (turn w) as [[err|[a|]] w'].
  - destruct Ht as [?|[Hl E]]; [congruence|]. unfold at_limit in Hl. rewrite E.
    split_and!; [done|done|lia].
  - done.
  - destruct Hspec, Ht. split_and!; [done|done|done|lia].
Qed.

Lemma quiet_loop {A : Type} (I : Session -> Prop) measure (Q : A -> Session -> Prop) W turn fuel w :
  quiet_turn I measure Q W turn ->
  I (ses w) -> undisturbed w -> Z.of_nat (measure (ses w)) + b_evaluations w <= W ->
  (measure (ses w) < fuel)%nat ->
  match loopM fuel turn w with
  | (inr r, w') => exists a, r = Some a /\ Q a (ses w')
  | (inl err, w') => internal err = false /\ I (ses w') /\
      Z.of_nat (measure (ses w')) + activeCriticalCoverageEvaluationLimit <= W
  end.
Proof.
  intros Ht. revert w. induction fuel as [|fuel IH]; intros w HI Hw HW Hf; [lia|]. simpl.
  unfold bind. specialize (Ht w HI Hw HW). destruct (turn w) as [[err|[a|]] w1].
  - done.
  - unfold ret. eauto.
  - destruct Ht as (H1 & H2 & H3 & H4). apply IH; [done|done|done|lia].
Qed.

Section Slices.
Context (s0 : Session).
Hypothesis Hids : NoDup (map ID (cs_ordered s0)).
Hypothesis Hfull : incl (cs_fullPool s0) (cs_ordered s0).

Lemma awaits_sane s pool required : awaits Ev s pool required -> sane s.
Proof.
  intros [H|(r & H & Hr)] task Ht; rewrite H in Ht; [done|]. injection Ht as <-.
  by eapply Hev.
Qed.

Lemma session_sane s : session_ok Ev s0 s -> sane s.
Proof.
  intros [_ _ Hph]. unfold phase_ok in Hph.
  assert (cs_pending s = None -> sane s) as Hno by (intros H task Ht; congruence).
  destruct (cs_phase s).
  - destruct Hph as [_ [?|[_ H]]]; [auto|by eapply awaits_sane].
  - destruct Hph as (_ & _ & _ & _ & H). by eapply awaits_sane.
  - destruct (gr_pending _ _ _ Hph) as [?|(_ & _ & c & _ & _ & H)]; [auto|by eapply awaits_sane].
  - destruct Hph as [_ [_ _ [?|(f & r & _ & _ & _ & H)]]]; [auto|by eapply awaits_sane].
Qed.

Lemma quiet_search required W :
  quiet_turn (fun s => searching Ev s0 s /\ cs_required s = required) turns_left
    (answer_ok Ev s0) W (search_turn (fun pool => evaluatePool ev pool required)).
Proof.
  intros w HI Hw HW. pose proof HI as [[Hok _] _].
  apply (quiet_thrifty (fun s => searching Ev s0 s /\ cs_required s = required) turns_left
    (answer_ok Ev s0)); try done; [|apply search_turn_thrifty|by apply session_sane].
  pose proof (search_turn_spec Ev ev s0 Hsub Hids required (turns_left (ses w)) w (conj HI eq_refl)) as H.
  destruct (search_turn _ w) as [[err|[a|]] w']; [by destruct H|done|done].
Qed.

(** A phase before the search. *)
Lemma quiet_phase W turn phase w :
  (forall n, triple (fun w => (session_ok Ev s0 (ses w) /\ cs_phase (ses w) = phase) /\
                              planner_turns (ses w) = n)
     turn (turn_ok Ev s0 n) (stopped Ev s0)) ->
  thrifty turn -> session_ok Ev s0 (ses w) -> cs_phase (ses w) = phase -> undisturbed w ->
  Z.of_nat (planner_turns (ses w)) + b_evaluations w <= W ->
  match turn w with
  | (inr None, w') => session_ok Ev s0 (ses w') /\ undisturbed w' /\
      (planner_turns (ses w') < planner_turns (ses w))%nat /\
      Z.of_nat (planner_turns (ses w')) + b_evaluations w' <= W
  | (inr (Some a), w') => answer_ok Ev s0 a (ses w')
  | (inl err, w') => internal err = false /\ session_ok Ev s0 (ses w') /\
      Z.of_nat (planner_turns (ses w')) + activeCriticalCoverageEvaluationLimit <= W
  end.
Proof.
  intros Hspec Ht Hok Hp Hw HW.
  apply (quiet_thrifty (session_ok Ev s0) planner_turns (answer_ok Ev s0)); try done; [|by apply session_sane].
  specialize (Hspec (planner_turns (ses w)) w (conj (conj Hok Hp) eq_refl)).
  destruct (turn w) as [[err|[a|]] w']; [by destruct Hspec|done|done].
Qed.

Lemma quiet_planner W :
  quiet_turn (session_ok Ev s0) planner_turns (answer_ok Ev s0) W (planner_turn ev).
Proof.
  intros w Hok Hw HW. unfold planner_turn, bind at 1, get.
  destruct (cs_phase (ses w)) eqn:Hp.
  - apply (quiet_phase W _ PhaseFull); try done; [by apply full_turn_spec|apply full_turn_thrifty].
  - apply (quiet_phase W _ PhaseWitness); try done;
      [by apply witness_turn_spec|apply witness_turn_thrifty].
  - apply (quiet_phase W _ PhaseGreedy); try done;
      [by apply greedy_turn_spec|apply greedy_turn_thrifty].
  - unfold bind, resumeCriticalCoverageWith. unfold planner_turns in HW. rewrite Hp in HW.
    pose proof (quiet_loop _ _ _ W _ (S (turns_left (ses w))) w
      (quiet_search (cs_required (ses w)) W) (conj (conj Hok Hp) eq_refl) Hw HW) as H.
    destruct (loopM _ _ w) as [[err|r] w'].
    + destruct H as (H1 & [[H2 Hp'] _] & H3); [lia|]. unfold planner_turns. by rewrite Hp'.
    + destruct H as (found & -> & H); [lia|done].
Qed.
End Slices.
End Progress.

(** ** A session from its start to its answer *)

(** What a session may become in the slices that were stopped, each with an
    evaluator of its own. *)
Inductive resumed (Ev : Answers) (s0 : Session) : Session -> Prop :=
  | resumed_start : resumed Ev s0 s0
  | resumed_slice ev w err w' :
      (forall pool required, Ev pool required (ev pool required)) ->
      resumed Ev s0 (ses w) -> resumeCriticalCoveragePlanner ev w = (inl err, w') ->
      resumed Ev s0 (ses w').

(** Undisturbed slices, each with a fresh budget, until the answer. *)
Fixpoint slices (ev : list Candidate -> list string ->
    ContextError + criticalCoverageEvaluation) (k : nat) (limit : Z) (s : Session) :
    option (option (list Candidate)) :=
  match k with
  | O => None
  | S k =>
      match resumeCriticalCoveragePlanner ev
              {| ses := s; b_limit := limit; b_evaluations := 0; ticks := [] |} with
      | (inr found, _) => Some found
      | (inl _, w) => slices ev k limit (ses w)
      end
  end.

Lemma order_Permutation clients candidates :
  orderCriticalCoverageCandidates clients candidates ≡ₚ candidates.
Proof. apply sort_slice_Permutation. Qed.

(** Every sublist is the pool of increasing indices. *)
Lemma sublist_indices (l pool pre : list Candidate) :
  pool `sublist_of` l -> exists indices,
    increasing (length pre) (length pre + length l) indices /\
    coveragePool (pre ++ l) indices = pool /\ length indices = length pool.
Proof.
  intros H. revert pre. induction H as [|x pool l H IH|x pool l H IH]; intros pre.
  - by exists [].
  - destruct (IH (pre ++ [x])) as (ix & H1 & H2 & H3). exists (length pre :: ix).
    rewrite length_app in H1. rewrite <- app_assoc in H2. simpl in H1, H2. split_and!.
    + simpl. split; [lia|].
      replace (length pre + S (length l))%nat with (length pre + 1 + length l)%nat by lia.
      by replace (S (length pre)) with (length pre + 1)%nat by lia.
    + unfold coveragePool in *. simpl. rewrite lookup_app_r, Nat.sub_diag by lia. simpl.
      by f_equal.
    + simpl. by f_equal.
  - destruct (IH (pre ++ [x])) as (ix & H1 & H2 & H3). exists ix.
    rewrite length_app in H1. rewrite <- app_assoc in H2. simpl in H1, H2. split_and!; [|done|done].
    destruct ix as [|i ix]; [done|]. simpl in H1 |- *. destruct H1 as [Hi H1].
    split; [lia|].
    by replace (length pre + S (length l))%nat with (length pre + 1 + length l)%nat by lia.
Qed.

Section Runs.
Context (Ev : Answers).
Context (key : string) (limit : nat) (clients : list Client) (candidates : list Candidate).
Context (full : option criticalCoverageEvaluation).
Hypothesis Hids : NoDup (map ID candidates).
Hypothesis Hclients : clients <> [].

Let s0 := newSession key limit clients candidates full.
Let required := criticalCoverageRequirements clients.

Lemma start_ids : NoDup (map ID (cs_ordered s0)).
Proof. simpl. by rewrite order_Permutation. Qed.

Lemma start_full : incl (cs_fullPool s0) (cs_ordered s0).
Proof.
  intros c Hc. simpl in *. rewrite <- list_elem_of_In, order_Permutation. by apply list_elem_of_In.
Qed.

Lemma start_required : cs_required s0 <> [].
Proof.
  simpl. intros H. destruct clients as [|c l]; [done|].
  assert (In (tcp_primary (clientID c)) (criticalCoverageRequirements (c :: l))) as Hin.
  { apply requirements_In. exists TCPPrimary, c. split; [by left|done]. }
  by rewrite H in Hin.
Qed.

Lemma start_ok : session_ok Ev s0 s0.
Proof.
  split; [done| |]; [intros k e Hk; simpl in Hk; by rewrite lookup_empty in Hk|].
  split; [done|by left].
Qed.

Lemma resumed_ok s : resumed Ev s0 s -> session_ok Ev s0 s.
Proof.
  induction 1 as [|ev w err w' Hsub _ IH E]; [apply start_ok|].
  pose proof (planner_spec Ev ev s0 Hsub start_ids start_full w IH) as H. rewrite E in H. apply H.
Qed.

(** An evaluation that the session made found the set complete, or not. *)
Definition is_cover (pool : list Candidate) : Prop :=
  exists e, Ev pool required (inr e) /\ coverageComplete e required = true.
Definition is_no_cover (pool : list Candidate) : Prop :=
  exists e, Ev pool required (inr e) /\ coverageComplete e required = false.

(** What an answer means, in terms of the inventory. *)
Definition right_answer (found : option (list Candidate)) : Prop :=
  match found with
  | Some pool => incl pool candidates /\ (length pool <= limit)%nat /\ is_cover pool
  | None => forall pool, pool `sublist_of` orderCriticalCoverageCandidates clients candidates ->
      (length pool <= limit)%nat -> is_no_cover pool
  end.

Lemma answer_right found s : answer_ok Ev s0 found s -> right_answer found.
Proof.
  intros [Hs H]. pose proof (sa_required _ _ Hs start_required) as Hr. simpl in Hr.
  destruct found as [pool|].
  - destruct H as (Hi & Hl & e & He & Hx). split_and!; [|done|].
    + intros c Hc. apply Hi in Hc. simpl in Hc.
      rewrite <- list_elem_of_In, order_Permutation, list_elem_of_In in Hc. done.
    + exists e. rewrite Hr in He, Hx. done.
  - intros pool Hsub Hl.
    destruct (sublist_indices _ _ [] Hsub) as (ix & H1 & H2 & H3). simpl in H1, H2.
    destruct H as [H|H]; [rewrite Hr in H; exfalso; by apply start_required|].
    destruct (H ix) as (e & He & Hx); [done|simpl; lia|]. simpl in He. rewrite H2, Hr in He.
    rewrite Hr in Hx. by exists e.
Qed.

Lemma slices_end ev k budget_limit s :
  (forall pool req, Ev pool req (ev pool req)) ->
  (forall pool req r, Ev pool req r -> exists e, r = inr e) -> session_ok Ev s0 s ->
  Z.of_nat (planner_turns s) < activeCriticalCoverageEvaluationLimit * Z.of_nat k ->
  exists found, slices ev k budget_limit s = Some found /\ right_answer found.
Proof.
  intros Hsub Hev. revert s. induction k as [|k IH]; intros s Hok Hk; [lia|]. cbn [slices].
  set (w := {| ses := s; b_limit := budget_limit; b_evaluations := 0; ticks := [] |}).
  unfold resumeCriticalCoveragePlanner, bind.
  assert (Z.of_nat (planner_turns (ses w)) + b_evaluations w <= Z.of_nat (planner_turns s)) as Hb
    by (simpl; lia).
  pose proof (quiet_loop _ _ _ _ _ (S (planner_turns s)) w
    (quiet_planner Ev ev Hsub Hev s0 start_ids start_full _) Hok eq_refl Hb (Nat.lt_succ_diag_r _)) as H.
  change (ses w) with s.
  destruct (loopM (S (planner_turns s)) (planner_turn ev) w) as [[err|r] w'].
  - destruct H as (_ & Hok' & Hm). apply IH; [done|].
    unfold activeCriticalCoverageEvaluationLimit in *. lia.
  - destruct H as (found & -> & H). exists found. split; [done|]. by eapply answer_right.
Qed.
End Runs.

(** C35.  The retained search is exact, however it is cut into slices and although
    evaluations may answer differently from slice to slice.  Take any session
    that any sequence of stopped slices (by deadline, cancellation, wall-clock or
    evaluation limit, each at any evaluation) has left.  Its next slice either is
    stopped again, never by a lost cursor, an index out of range or missing fuel,
    and leaves a session that can be resumed; or it answers, with at most [limit]
    listed routes that an evaluation of the session found to cover, or with none
    after every set of at most [limit] routes was found not to. *)
Theorem coverage_search_exact Ev ev key limit clients candidates full w :
  NoDup (map ID candidates) -> clients <> [] ->
  (forall pool required, Ev pool required (ev pool required)) ->
  let s0 := newSession key limit clients candidates full in
  resumed Ev s0 (ses w) ->
  match resumeCriticalCoveragePlanner ev w with
  | (inl err, w') => internal err = false /\ resumed Ev s0 (ses w')
  | (inr found, _) => right_answer Ev limit clients candidates found
  end.
Proof.
  intros Hids Hcl Hsub s0 Hr.
  pose proof (planner_spec Ev ev s0 Hsub (start_ids key limit clients candidates full Hids)
    (start_full key limit clients candidates full) w
    (resumed_ok Ev key limit clients candidates full Hids _ Hr)) as H.
  destruct (resumeCriticalCoveragePlanner ev w) as [[err|found] w'] eqn:E.
  - destruct H as [H _]. split; [done|]. by eapply resumed_slice.
  - by eapply answer_right.
Qed.

(** C36.  Retrying ends: if evaluations do not fail, a session in any reachable
    state answers within as many undisturbed slices as the 4,096 evaluations of a
    slice divide the turns that are left, and the answer is right. *)
Theorem coverage_search_terminates Ev ev key limit clients candidates full s k b :
  NoDup (map ID candidates) -> clients <> [] ->
  (forall pool required, Ev pool required (ev pool required)) ->
  (forall pool required r, Ev pool required r -> exists e, r = inr e) ->
  resumed Ev (newSession key limit clients candidates full) s ->
  Z.of_nat (planner_turns s) < activeCriticalCoverageEvaluationLimit * Z.of_nat k ->
  exists found, slices ev k b s = Some found /\ right_answer Ev limit clients candidates found.
Proof.
  intros Hids Hcl Hsub Hev Hr Hk.
  apply (slices_end Ev key limit clients candidates full Hids Hcl ev k b s Hsub Hev); [|done].
  by apply resumed_ok.
Qed.

(** ** Witnesses *)

(** Every route of a pool meets four requirements. *)
Definition four_each (pool : list Candidate) (required : list string) :
    ContextError + criticalCoverageEvaluation :=
  inr {| satisfied := list_to_set (take (4 * length pool) required); witnessIDs := [] |}.

Definition four_answers : Answers := fun pool required r => r = four_each pool required.

Definition sample_session : Session := newSession "key" 2 sample_clients sample_routes None.

(** The slice ends while the fourth evaluation is awaited. *)
Definition cut_slice : Slice := {|
  ses := sample_session; b_limit := 2; b_evaluations := 0;
  ticks := [quiet_tick; quiet_tick; quiet_tick;
    {| k_over := None; k_wall := false; k_timeout := Some DeadlineExceeded |}] |}.

Definition cut_session : Session := ses (resumeCriticalCoveragePlanner four_each cut_slice).2.

Example cut_then_answered :
  (resumeCriticalCoveragePlanner four_each cut_slice).1 = inl (Context_ DeadlineExceeded) /\
  bool_decide (is_Some (cs_pending cut_session)) = true /\
  option_map (option_map (map ID)) (slices four_each 1 2 cut_session) =
    Some (Some ["vless-b"; "vless-a"]%string).
Proof. vm_compute. auto. Qed.

Lemma sample_routes_NoDup : NoDup (map ID sample_routes).
Proof. apply (bool_decide_unpack _). vm_compute. exact I. Qed.

Lemma cut_session_resumed : resumed four_answers sample_session cut_session.
Proof.
  apply (resumed_slice _ _ four_each cut_slice (Context_ DeadlineExceeded));
    [done|apply resumed_start|].
  unfold cut_session. rewrite (surjective_pairing (resumeCriticalCoveragePlanner _ cut_slice)) at 1.
  f_equal.
Qed.

Definition next_slice : Slice :=
  {| ses := cut_session; b_limit := 2; b_evaluations := 0; ticks := [quiet_tick] |}.

Lemma coverage_search_exact_witness :
  resumed four_answers sample_session (ses next_slice) /\
  match resumeCriticalCoveragePlanner four_each next_slice with
  | (inl err, w') => internal err = false /\ resumed four_answers sample_session (ses w')
  | (inr found, _) => right_answer four_answers 2 sample_clients sample_routes found
  end.
Proof.
  split; [apply cut_session_resumed|].
  apply (coverage_search_exact four_answers four_each "key" 2 sample_clients sample_routes None
           next_slice).
  - apply sample_routes_NoDup.
  - discriminate.
  - reflexivity.
  - apply cut_session_resumed.
Defined.

Lemma coverage_search_terminates_witness :
  exists found, slices four_each 1 2 cut_session = Some found /\
    right_answer four_answers 2 sample_clients sample_routes found.
Proof.
  apply (coverage_search_terminates four_answers four_each "key" 2 sample_clients sample_routes None
           cut_session 1 2).
  - apply sample_routes_NoDup.
  - discriminate.
  - reflexivity.
  - intros pool required r ->. eexists. reflexivity.
  - apply cut_session_resumed.
  - vm_compute. reflexivity.
Defined.
