(* ===== verification/CoveragePlan.v ===== *)
(** The coverage planner of the engine (internal/controller/engine_capacity.go):
    which candidates a scheduling cycle may use, from the full set, the retained
    sessions, the clients' current routes and the bounded search. *)
From Stdlib Require Import String.
From S2P Require Import Prelude Effects GoOrder GoFloat GoSort GoStrings SchedLoad SchedState.
From S2P Require Import SchedReserves Scheduling PlanningKey Coverage CoverageSearch.

#[local] Open Scope Z_scope.
#[local] Open Scope effect_scope.

(** ** State *)

(** What the environment decides at one point: the state of the caller's context,
    how many checks an evaluation passes before its context ends, and with which
    error; the wall-clock budget; the context after an evaluation; the ticks of a
    search slice. *)
Record Moment := {
  m_ctx : option ContextError;
  m_checks : option nat;
  m_kind : ContextError;
  m_wall : bool;
  m_after : option ContextError;
  m_ticks : list Tick
}.

Definition quiet_moment : Moment := {|
  m_ctx := None; m_checks := None; m_kind := Canceled; m_wall := false; m_after := None;
  m_ticks := [] |}.

(** The evaluators of the engine: the scheduler's, or a replacement. *)
Abbreviation Evaluate := (Scheduler -> option nat -> Time -> list Client -> list Candidate ->
  list string -> SchedState.Error + criticalCoverageEvaluation) (only parsing).

Record Engine := {
  activeCriticalRouteLimit : Z;
  coverageSearch : option Session;
  bootstrapCoverageSearch : option Session;
  en_placement : Scheduler;
  moments : list Moment
}.

#[export] Instance Engine_eta : Eta Engine := fun e =>
  Build_Engine (activeCriticalRouteLimit e) (coverageSearch e) (bootstrapCoverageSearch e)
    (en_placement e) (moments e).

Definition E_ (A : Type) : Type := Prog Engine CoverError A.

Definition next_moment : E_ Moment := fun e =>
  (inr (hd quiet_moment (moments e)), e <| moments := tl (moments e) |>).

Definition fail_if (e : option ContextError) : E_ unit :=
  match e with Some e => raise (Context_ e) | None => ret tt end.

(** [if err := ctx.Err(); err != nil]. *)
Definition check_ctx : E_ unit := m <- next_moment ;; fail_if (m_ctx m).

(** The two retained searches, with their locks. *)
Inductive Slot := Active | Bootstrap.

Definition slot_of (slot : Slot) (e : Engine) : option Session :=
  match slot with Active => coverageSearch e | Bootstrap => bootstrapCoverageSearch e end.

Definition set_slot (slot : Slot) (s : option Session) (e : Engine) : Engine :=
  match slot with
  | Active => e <| coverageSearch := s |>
  | Bootstrap => e <| bootstrapCoverageSearch := s |>
  end.

(** [stop] waits for the pending evaluation and drops it. *)
Definition stop (s : Session) : Session := s <| cs_pending := None |>.

Definition resetCriticalCoverageSession (slot : Slot) : E_ unit := modify (set_slot slot None).
Definition clearBootstrapCoverageCache : E_ unit := resetCriticalCoverageSession Bootstrap.

(** A session that only keeps the identifiers of a cover. *)
Definition completed_session (key : string) (ids : list string) : Session := {|
  cs_key := key; cs_ordered := []; cs_required := []; cs_limit := O; cs_frames := [];
  cs_cached := ∅; cs_phase := PhaseFull; cs_fullPool := []; cs_initialFull := None;
  cs_selected := []; cs_selectedIDs := ∅; cs_current := zero_evaluation;
  cs_greedyCursor := O; cs_greedyBest := zero_evaluation; cs_greedyBestID := EmptyString;
  cs_greedyBestGain := O; cs_pending := None; cs_completed := true; cs_completedIDs := ids |}.

Definition retainCompletedCoverage (slot : Slot) (key : string) (candidates : list Candidate) :
    E_ unit :=
  modify (set_slot slot (Some (completed_session key (map ID candidates)))).

Section Planner.
Context `{Encoding}.
(** [engine.coverageEvaluate] and [engine.bootstrapCoverageEvaluate], if set. *)
Context (coverageEvaluate bootstrapCoverageEvaluate : option Evaluate).

Definition active_evaluate : Evaluate :=
  default evaluateCriticalCoverage coverageEvaluate.
Definition bootstrap_evaluate : Evaluate :=
  default evaluateProspectiveCriticalCoverage bootstrapCoverageEvaluate.

(** The planning key; expired exclusions go. *)
Definition planning_key (now : Time) (clients : list Client) (candidates : list Candidate) :
    E_ string := fun e =>
  let '(key, placement) := criticalCoveragePlanningKey now (en_placement e) clients candidates
                             (activeCriticalRouteLimit e) in
  (inr key, e <| en_placement := placement |>).

(** [evaluate(ctx, ...)]. *)
Definition evaluate_in (evaluate : Evaluate) (now : Time) (clients : list Client)
    (pool : list Candidate) (required : list string) : E_ criticalCoverageEvaluation :=
  m <- next_moment ;;
  placement <- get en_placement ;;
  match evaluate placement (m_checks m) now clients pool required with
  | inl _ => raise (Context_ (m_kind m))
  | inr e => ret e
  end.

(** ** Cached covers *)

(** The current candidates of some identifiers; none if one is missing. *)
Definition by_ids (candidates : list Candidate) (ids : list string) : option (list Candidate) :=
  let byID := index_by_id candidates in
  mapM (fun id => byID !! id) ids.

Definition cachedBootstrapCoverageCandidates (now : Time) (clients : list Client)
    (candidates : list Candidate) : E_ (option (list Candidate)) :=
  limit <- get activeCriticalRouteLimit ;;
  if (limit <=? 0) || (Z.of_nat (length candidates) <=? limit) then ret None
  else
    key <- planning_key now clients candidates ;;
    session <- get bootstrapCoverageSearch ;;
    match session with
    | Some s =>
        if negb (cs_completed s) || negb (str_eqb (cs_key s) key) then ret None
        else ret (by_ids candidates (cs_completedIDs s))
    | None => ret None
    end.

Definition retainProspectiveCoverage (now : Time) (clients : list Client)
    (candidates covered : list Candidate) : E_ unit :=
  key <- planning_key now clients candidates ;;
  retainCompletedCoverage Bootstrap key covered.

(** ** Search in slices *)

Definition incomplete (limit : Z) (e : criticalCoverageEvaluation) (required : list string)
    (exhausted : bool) (evaluations : Z) (cause : string) : CoverError :=
  Incomplete {|
    e_Limit := limit; e_Unsatisfied := missingCoverage e required;
    e_SearchExhausted := exhausted; e_Evaluations := evaluations; e_Cause := cause;
    e_ReserveIssues := [] |}.

(** A found set, with the current candidates and evaluated once more. *)
Definition revalidate (evaluate : Evaluate) (now : Time) (clients : list Client)
    (candidates : list Candidate) (session_required : list string) (found : list Candidate) :
    E_ (list Candidate) :=
  limit <- get activeCriticalRouteLimit ;;
  match by_ids candidates (map ID found) with
  | None => raise CandidateMissing
  | Some current =>
      let required := if bool_decide (session_required = [])
                      then criticalCoverageRequirements clients else session_required in
      covered <- evaluate_in evaluate now clients current required ;;
      if coverageComplete covered required then ret current
      else raise (incomplete limit covered required true 1 EmptyString)
  end.

(** On an error the session is dropped. *)
Definition or_drop {A : Type} (slot : Slot) (m : E_ A) : E_ A := fun e =>
  match m e with
  | (inl err, e) => (inl err, set_slot slot None e)
  | r => r
  end.

(** [coverageSliceError]: the deadline of the slice is the budget's. *)
Definition coverageSliceError (parent : option ContextError) (limit evaluations : Z)
    (err : CoverError) (parentDeadlineIsSlice : bool) : CoverError :=
  match err, parent with
  | Context_ DeadlineExceeded, None => Incomplete (exhausted_error limit [] evaluations)
  | Context_ DeadlineExceeded, Some DeadlineExceeded =>
      if parentDeadlineIsSlice then Incomplete (exhausted_error limit [] evaluations) else err
  | _, _ => err
  end.

(** The closure that the planner runs on the session's own context. *)
Definition session_evaluator (evaluate : Evaluate) (placement : Scheduler) (now : Time)
    (clients : list Client) : Evaluator := fun pool required =>
  match evaluate placement None now clients pool required with
  | inl _ => inl Canceled
  | inr e => inr e
  end.

(** One slice on the retained session [s], which changes in place: each branch
    leaves in the slot what the code does. *)
Definition search_slice (slot : Slot) (evaluate : Evaluate) (now : Time) (clients : list Client)
    (candidates : list Candidate) (retainCompleted : bool) (s : Session) : E_ (list Candidate) :=
  limit <- get activeCriticalRouteLimit ;;
  placement <- get en_placement ;;
  m <- next_moment ;;
  let '(result, w) := resumeCriticalCoveragePlanner
    (session_evaluator evaluate placement now clients)
    {| ses := s; b_limit := limit; b_evaluations := 0; ticks := m_ticks m |} in
  match result with
  | inl err =>
      modify (set_slot slot (Some (
        if match m_after m with
           | None => false
           | Some c => negb retainCompleted || match c with Canceled => true | _ => false end
           end
        then stop (ses w) else ses w))) ;;;
      raise (coverageSliceError (m_after m) limit (b_evaluations w) err retainCompleted)
  | inr (Some found) =>
      found <- or_drop slot
        (revalidate evaluate now clients candidates (cs_required (ses w)) found) ;;
      (if retainCompleted
       then modify (set_slot slot (Some (stop (ses w) <| cs_completed := true |>
              <| cs_completedIDs := map ID found |> <| cs_ordered := [] |>
              <| cs_fullPool := [] |> <| cs_cached := ∅ |> <| cs_frames := [] |>)))
       else modify (set_slot slot None)) ;;;
      ret found
  | inr None =>
      modify (set_slot slot None) ;;;
      raise (incomplete limit (cs_current (ses w)) (cs_required (ses w)) false (b_evaluations w)
               EmptyString)
  end.

Definition cappedCriticalCandidates (slot : Slot) (evaluate : Evaluate) (now : Time)
    (clients : list Client) (candidates : list Candidate) (retainCompleted : bool)
    (initialFull : option criticalCoverageEvaluation) : E_ (list Candidate) :=
  check_ctx ;;;
  limit <- get activeCriticalRouteLimit ;;
  if (limit <=? 0) || (Z.of_nat (length candidates) <=? limit) then
    modify (set_slot slot None) ;;; ret candidates
  else
    key <- planning_key now clients candidates ;;
    session <- get (slot_of slot) ;;
    let s :=
      match session with
      | Some s => if str_eqb (cs_key s) key then s
                  else newSession key (Z.to_nat limit) clients candidates initialFull
      | None => newSession key (Z.to_nat limit) clients candidates initialFull
      end in
    modify (set_slot slot (Some s)) ;;;
    if cs_completed s then
      or_drop slot
        (match by_ids candidates (cs_completedIDs s) with
         | None => raise CachedCandidateMissing
         | Some result => revalidate evaluate now clients candidates (cs_required s) result
         end)
    else search_slice slot evaluate now clients candidates retainCompleted s.

(** ** The current routes, with a few more *)

(** An error of the slice, as its caller sees it; [evaluations] were begun. *)
Definition slice_error {A : Type} (limit evaluations : Z) (m : E_ A) : E_ A := fun e =>
  match m e with
  | (inl err, e) =>
      let parent := m_ctx (hd quiet_moment (moments e)) in
      (inl (coverageSliceError parent limit evaluations err true),
       e <| moments := tl (moments e) |>)
  | r => r
  end.

(** [budget.evaluate] on the slice's context, after [evaluations] others. *)
Definition budget_evaluate (limit evaluations : Z) (evaluate : Evaluate) (now : Time)
    (clients : list Client) (pool : list Candidate) (required : list string) :
    E_ criticalCoverageEvaluation :=
  m <- next_moment ;;
  slice_error limit evaluations
    (fail_if (m_ctx m) ;;;
     if (activeCriticalCoverageEvaluationLimit <=? evaluations) || m_wall m
     then raise (Incomplete (exhausted_error limit [] evaluations)) else ret tt) ;;;
  slice_error limit (evaluations + 1)
    (placement <- get en_placement ;;
     match evaluate placement (m_checks m) now clients pool required with
     | inl _ => raise (Context_ (m_kind m))
     | inr e => fail_if (m_after m) ;;; ret e
     end).

(** The best route to add, in one pass over the others. *)
Record Pass := {
  ps_gain : nat;
  ps_best : option (Candidate * criticalCoverageEvaluation);
  ps_evaluations : Z
}.

(** A complete trial ends the pass. *)
Fixpoint incumbent_pass (limit : Z) (evaluate : Evaluate) (now : Time) (clients : list Client)
    (required : list string) (ids : gset string) (incumbent rest : list Candidate) (p : Pass) :
    E_ (list Candidate + Pass) :=
  match rest with
  | [] => ret (inr p)
  | c :: rest =>
      if bool_decide (ID c ∈ ids)
      then incumbent_pass limit evaluate now clients required ids incumbent rest p
      else
        let trial := incumbent ++ [c] in
        e <- budget_evaluate limit (ps_evaluations p) evaluate now clients trial required ;;
        if coverageComplete e required then ret (inl trial)
        else
          let p := if (ps_gain p <? size (satisfied e))%nat
                   then {| ps_gain := size (satisfied e); ps_best := Some (c, e);
                           ps_evaluations := ps_evaluations p + 1 |}
                   else {| ps_gain := ps_gain p; ps_best := ps_best p;
                           ps_evaluations := ps_evaluations p + 1 |} in
          incumbent_pass limit evaluate now clients required ids incumbent rest p
  end.

(** The passes; each adds a route, so the limit bounds them. *)
Fixpoint incumbent_loop (fuel : nat) (limit : Z) (evaluate : Evaluate) (now : Time)
    (clients : list Client) (required : list string) (ordered_ : list Candidate)
    (ids : gset string) (incumbent : list Candidate) (covered : criticalCoverageEvaluation)
    (evaluations : Z) : E_ (option (list Candidate)) :=
  if limit <=? Z.of_nat (length incumbent) then ret None
  else
    match fuel with
    | O => raise NotFinished
    | S fuel =>
        r <- incumbent_pass limit evaluate now clients required ids incumbent ordered_
               {| ps_gain := size (satisfied covered); ps_best := None;
                  ps_evaluations := evaluations |} ;;
        match r with
        | inl trial => ret (Some trial)
        | inr p =>
            match ps_best p with
            | None => ret None
            | Some (c, e) =>
                incumbent_loop fuel limit evaluate now clients required ordered_
                  ({[ID c]} ∪ ids) (incumbent ++ [c]) e (ps_evaluations p)
            end
        end
    end.

Definition incumbent_ids (clients : list Client) : gset string :=
  list_to_set (flat_map (fun c => List.filter not_empty
    [TCP (assignment c); UDP (assignment c)]) clients).

Definition incumbentPlusReserveCoverage (now : Time) (clients : list Client)
    (candidates : list Candidate) (required : list string) (limit : Z) (evaluate : Evaluate) :
    E_ (option (list Candidate)) :=
  let ids := incumbent_ids clients in
  let ordered_ := orderCriticalCoverageCandidates clients candidates in
  let incumbent := List.filter (fun c => bool_decide (ID c ∈ ids)) ordered_ in
  if bool_decide (incumbent = []) || (limit <=? Z.of_nat (length incumbent)) then ret None
  else
    covered <- budget_evaluate limit 0 evaluate now clients incumbent required ;;
    if coverageComplete covered required then ret (Some incumbent)
    else incumbent_loop (Z.to_nat limit) limit evaluate now clients required ordered_ ids
           incumbent covered 1.

(** ** The entry points *)

(** The static test, unless the evaluator is replaced. *)
Definition static_check (slot : Slot) (replaced : bool) (clients : list Client)
    (candidates : list Candidate) (limit : Z) : E_ unit :=
  if replaced then ret tt
  else
    match staticallyImpossibleCriticalCoverage clients candidates limit false with
    | Some err => resetCriticalCoverageSession slot ;;; raise (Incomplete err)
    | None => ret tt
    end.

Definition is_set {A : Type} (o : option A) : bool := match o with Some _ => true | None => false end.

Definition cappedScheduleCandidatesWithFull (now : Time) (clients : list Client)
    (candidates : list Candidate) (full : option criticalCoverageEvaluation) :
    E_ (list Candidate) :=
  limit <- get activeCriticalRouteLimit ;;
  (if limit <? Z.of_nat (length candidates)
   then static_check Active (is_set coverageEvaluate) clients candidates limit else ret tt) ;;;
  cached <- cachedBootstrapCoverageCandidates now clients candidates ;;
  let required := criticalCoverageRequirements clients in
  let search := cappedCriticalCandidates Active active_evaluate now clients candidates false full in
  match cached with
  | Some cached =>
      covered <- evaluate_in active_evaluate now clients cached required ;;
      if coverageComplete covered required then ret cached else search
  | None => search
  end.

Definition cappedScheduleCandidates (now : Time) (clients : list Client)
    (candidates : list Candidate) : E_ (list Candidate) :=
  cappedScheduleCandidatesWithFull now clients candidates None.

Definition resumeScheduleCoverageSession (evaluate : Evaluate) (now : Time)
    (clients : list Client) (candidates : list Candidate) : E_ (option (list Candidate)) :=
  key <- planning_key now clients candidates ;;
  session <- get coverageSearch ;;
  if match session with Some s => str_eqb (cs_key s) key | None => false end
  then found <- cappedCriticalCandidates Active evaluate now clients candidates false None ;;
       ret (Some found)
  else ret None.

(** The witnesses of a complete evaluation, if all are listed and still cover. *)
Definition narrow_to_witness (evaluate : Evaluate) (now : Time) (clients : list Client)
    (preferred : list Candidate) (coverage : criticalCoverageEvaluation)
    (required : list string) : E_ (list Candidate) :=
  let witnessIDs_ : gset string := list_to_set (witnessIDs coverage) in
  let witness := List.filter (fun c => bool_decide (ID c ∈ witnessIDs_)) preferred in
  if negb (bool_decide (witness = [])) && Nat.eqb (length witness) (size witnessIDs_) then
    fun e =>
      match evaluate_in evaluate now clients witness required e with
      | (inr covered, e) =>
          (inr (if coverageComplete covered required then witness else preferred), e)
      | (inl _, e) => (inr preferred, e)
      end
  else ret preferred.

(** The preferred candidates first, then the current routes, then the search. *)
Definition prospective_search (now : Time) (clients : list Client)
    (candidates : list Candidate) (limit : Z) : E_ (list Candidate) :=
  let evaluate := bootstrap_evaluate in
  let required := criticalCoverageRequirements clients in
  let ordered_ := orderCriticalCoverageCandidates clients candidates in
  let preferred := if limit <? Z.of_nat (length ordered_)
                   then take (Z.to_nat limit) ordered_ else ordered_ in
  let search := cappedCriticalCandidates Bootstrap evaluate now clients candidates true None in
  m <- next_moment ;;
  placement <- get en_placement ;;
  match evaluate placement (m_checks m) now clients preferred required with
  | inl _ =>
      match m_kind m, m_after m with
      | DeadlineExceeded, None => search
      | kind, _ => raise (Context_ kind)
      end
  | inr coverage =>
      if coverageComplete coverage required then
        preferred <- narrow_to_witness evaluate now clients preferred coverage required ;;
        retainProspectiveCoverage now clients candidates preferred ;;;
        ret preferred
      else
        incumbent <- incumbentPlusReserveCoverage now clients candidates required limit evaluate ;;
        match incumbent with
        | Some incumbent =>
            retainProspectiveCoverage now clients candidates incumbent ;;; ret incumbent
        | None => search
        end
  end.

Definition cappedProspectiveScheduleCandidates (now : Time) (clients : list Client)
    (candidates : list Candidate) : E_ (list Candidate) :=
  limit <- get activeCriticalRouteLimit ;;
  let evaluate := bootstrap_evaluate in
  let required := criticalCoverageRequirements clients in
  (if limit <? Z.of_nat (length candidates)
   then static_check Bootstrap (is_set bootstrapCoverageEvaluate) clients candidates limit
   else ret tt) ;;;
  cached <- cachedBootstrapCoverageCandidates now clients candidates ;;
  let rest :=
    (session <- get bootstrapCoverageSearch ;;
     if match session with Some s => negb (cs_completed s) | None => false end
     then cappedCriticalCandidates Bootstrap evaluate now clients candidates true None
     else prospective_search now clients candidates limit) in
  match cached with
  | Some cached =>
      covered <- evaluate_in evaluate now clients cached required ;;
      if coverageComplete covered required then ret cached
      else resetCriticalCoverageSession Bootstrap ;;; rest
  | None => rest
  end.

(** What follows once the full set and any cached cover have not settled it. *)
Definition plan_smaller (now : Time) (clients : list Client) (candidates : list Candidate)
    (limit : Z) (full : criticalCoverageEvaluation) : E_ (list Candidate) :=
  let evaluate := active_evaluate in
  let required := criticalCoverageRequirements clients in
  incumbent <- incumbentPlusReserveCoverage now clients candidates required limit evaluate ;;
  match incumbent with
  | Some incumbent => ret incumbent
  | None =>
      if negb (coverageComplete full required) then
        prospective <- cappedProspectiveScheduleCandidates now clients candidates ;;
        covered <- evaluate_in evaluate now clients prospective required ;;
        if coverageComplete covered required then ret prospective
        else raise (incomplete limit covered required false 2 coverageReserveNotReady)
      else cappedScheduleCandidatesWithFull now clients candidates (Some full)
  end.

(** A cached cover: used, awaited while its routes would be admitted without
    proof, or dropped. *)
Definition use_cached (now : Time) (clients : list Client) (candidates cached : list Candidate)
    (limit : Z) (full : criticalCoverageEvaluation) : E_ (list Candidate) :=
  let required := criticalCoverageRequirements clients in
  covered <- evaluate_in active_evaluate now clients cached required ;;
  if coverageComplete covered required then ret cached
  else
    prospective <- evaluate_in evaluateProspectiveCriticalCoverage now clients cached required ;;
    if coverageComplete prospective required
    then raise (incomplete limit covered required false 3 coverageReserveNotReady)
    else
      resetCriticalCoverageSession Bootstrap ;;;
      plan_smaller now clients candidates limit full.

Definition scheduleCandidatesForCycle (now : Time) (clients : list Client)
    (candidates : list Candidate) : E_ (list Candidate) :=
  limit <- get activeCriticalRouteLimit ;;
  if (limit <=? 0) || (Z.of_nat (length candidates) <=? limit) then ret candidates
  else
    static_check Active (is_set coverageEvaluate) clients candidates limit ;;;
    resumed <- resumeScheduleCoverageSession active_evaluate now clients candidates ;;
    match resumed with
    | Some found => ret found
    | None =>
        let required := criticalCoverageRequirements clients in
        full <- evaluate_in active_evaluate now clients candidates required ;;
        if coverageComplete full required &&
           (bool_decide (required = []) ||
            ((0 <? length (witnessIDs full))%nat &&
             (Z.of_nat (length (witnessIDs full)) <=? limit)))
        then ret candidates
        else
          cached <- cachedBootstrapCoverageCandidates now clients candidates ;;
          match cached with
          | Some cached => use_cached now clients candidates cached limit full
          | None => plan_smaller now clients candidates limit full
          end
    end.
End Planner.
