(* ===== verification/CoveragePlanSafety.v ===== *)
(** What the coverage planner of the engine (CoveragePlan.v) may answer: an
    invariant of the retained sessions that every entry point keeps, and the sets
    of candidates a scheduling cycle is given. *)
From Stdlib Require Import String.
From S2P Require Import Prelude Effects GoOrder GoFloat GoSort GoStrings SchedLoad SchedState.
From S2P Require Import SchedReserves Scheduling PlanningKey Coverage CoverageSearch.
From S2P Require Import CoverageRuns CoveragePlan.

#[local] Open Scope Z_scope.
#[local] Open Scope effect_scope.

(** ** Sessions by themselves *)

(** Any evaluation may have been answered. *)
Definition any_answer : Answers := fun _ _ _ => True.

(** A session as its own start. *)
Lemma session_rebase Ev s0 s : session_ok Ev s0 s -> session_ok Ev s s.
Proof.
  intros [Hs Hc Hph]. pose proof Hs as [E1 E2 E3 E4 E5 E6]. split.
  - by split.
  - unfold cached_ok in *. by rewrite E1.
  - unfold phase_ok in *. destruct (cs_phase s).
    + by rewrite E3.
    + by rewrite E1, E2.
    + destruct Hph as [G1 G2 G3 G4 G5 G6 G7]. split; rewrite ?E1, ?E2; done.
    + destruct Hph as [Hr [S1 S2 S3]]. split; [done|]. split; rewrite ?E1, ?E2; done.
Qed.

Section Safety.
Context `{Enc : Encoding}.
Context (coverageEvaluate bootstrapCoverageEvaluate : option Evaluate).
Context (now : Time) (clients : list Client) (candidates : list Candidate) (limit : Z).
Context (placement : Scheduler).
Hypothesis Hids : NoDup (map ID candidates).
Hypothesis Hclients : clients <> [].

Abbreviation R := (criticalCoverageRequirements clients).
Abbreviation key_at p := ((criticalCoveragePlanningKey now p clients candidates limit).1).

(** The placement after some computations of the planning key. *)
Definition compacted (p : Scheduler) : Prop :=
  exists n, p = Nat.iter n (fun s => compactExclusionsLocked s now) placement.

Lemma compacted_key p :
  compacted p -> compacted (criticalCoveragePlanningKey now p clients candidates limit).2.
Proof. intros [n ->]. by exists (S n). Qed.

(** A session within the limit. *)
Definition within (s : Session) : Prop :=
  if cs_completed s then (length (cs_completedIDs s) <= Z.to_nat limit)%nat
  else NoDup (map ID (cs_ordered s)) /\ incl (cs_fullPool s) (cs_ordered s) /\
       cs_limit s = Z.to_nat limit /\ session_ok any_answer s s.

(** It requires what the clients do; a kept cover may have no list. *)
Definition for_clients (s : Session) : Prop :=
  cs_required s = R \/ (cs_completed s = true /\ cs_required s = []).

(** A retained session is within the limit, and if the planning key selects it,
    it is for these clients. *)
Definition slot_ok (o : option Session) : Prop :=
  match o with
  | None => True
  | Some s => within s /\ ((exists p, compacted p /\ cs_key s = key_at p) -> for_clients s)
  end.

Record planner_ok (e : Engine) : Prop := {
  po_limit : activeCriticalRouteLimit e = limit;
  po_placement : compacted (en_placement e);
  po_slots : forall slot, slot_ok (slot_of slot e)
}.

Definition Kept (err : CoverError) (e : Engine) : Prop := internal err = false /\ planner_ok e.

(** An evaluation that was made on the way. *)
Definition evaluated (evaluate : Evaluate) (pool : list Candidate) (required : list string)
    (e : criticalCoverageEvaluation) : Prop :=
  exists p checks, compacted p /\ evaluate p checks now clients pool required = inr e.

(** A set that covers: listed, within the limit, and evaluated as complete. *)
Definition sized (pool : list Candidate) : Prop :=
  incl pool candidates /\ Z.of_nat (length pool) <= limit.
Definition chosen (evaluate : Evaluate) (pool : list Candidate) : Prop :=
  sized pool /\ exists e, evaluated evaluate pool R e /\ coverageComplete e R = true.

(** ** The steps *)

Lemma required_nonempty : R <> [].
Proof.
  intros E. destruct clients as [|c l]; [done|].
  assert (In (tcp_primary (clientID c)) (criticalCoverageRequirements (c :: l))) as Hin.
  { apply requirements_In. exists TCPPrimary, c. split; [by left|done]. }
  by rewrite E in Hin.
Qed.

Lemma step_moment : triple planner_ok next_moment (fun _ e => planner_ok e) Kept.
Proof. intros e He. destruct He. by split. Qed.

Lemma step_ctx : triple planner_ok check_ctx (fun _ e => planner_ok e) Kept.
Proof.
  apply (triple_bind _ _ _ (fun _ e => planner_ok e)); [apply step_moment|].
  intros m e He. unfold fail_if. destruct (m_ctx m); [by split|done].
Qed.

Lemma step_get {A : Type} (f : Engine -> A) (Q : A -> Engine -> Prop) :
  (forall e, planner_ok e -> Q (f e) e) -> triple planner_ok (get f) Q Kept.
Proof. intros HQ e He. by apply HQ. Qed.

Lemma step_limit :
  triple planner_ok (get activeCriticalRouteLimit) (fun l e => planner_ok e /\ l = limit) Kept.
Proof. apply step_get. intros e He. split; [done|by apply po_limit]. Qed.

Lemma step_slot slot :
  triple planner_ok (get (slot_of slot)) (fun o e => planner_ok e /\ slot_ok o) Kept.
Proof. apply step_get. intros e He. split; [done|by apply po_slots]. Qed.

Lemma step_set slot o : slot_ok o ->
  triple planner_ok (modify (set_slot slot o)) (fun _ e => planner_ok e) Kept.
Proof.
  intros Ho e [H1 H2 H3]. destruct slot; split; simpl; try done.
  - intros []; [done|apply (H3 Bootstrap)].
  - intros []; [apply (H3 Active)|done].
Qed.

Lemma step_reset slot :
  triple planner_ok (resetCriticalCoverageSession slot) (fun _ e => planner_ok e) Kept.
Proof. by apply step_set. Qed.

Lemma step_key :
  triple planner_ok (planning_key now clients candidates)
    (fun k e => planner_ok e /\ exists p, compacted p /\ k = key_at p) Kept.
Proof.
  intros e [H1 H2 H3]. unfold planning_key. rewrite H1.
  pose proof (compacted_key _ H2) as Hk.
  destruct (criticalCoveragePlanningKey now (en_placement e) clients candidates limit) as [k p] eqn:E.
  split; [by split|]. exists (en_placement e). split; [done|by rewrite E].
Qed.

Lemma step_raise {A : Type} err (Q : A -> Engine -> Prop) :
  internal err = false -> triple planner_ok (raise err) Q Kept.
Proof. by intros Hi e He. Qed.

Lemma step_evaluate evaluate pool required :
  triple planner_ok (evaluate_in evaluate now clients pool required)
    (fun r e => planner_ok e /\ evaluated evaluate pool required r) Kept.
Proof.
  apply (triple_bind _ _ _ (fun _ e => planner_ok e)); [apply step_moment|].
  intros m e He. unfold bind, get.
  destruct (evaluate (en_placement e) (m_checks m) now clients pool required) as [x|r] eqn:E.
  - by split.
  - split; [done|]. exists (en_placement e), (m_checks m). split; [by apply po_placement|done].
Qed.

Lemma step_or_drop {A : Type} slot (m : E_ A) Q :
  triple planner_ok m Q Kept -> triple planner_ok (or_drop slot m) Q Kept.
Proof.
  intros Hm e He. specialize (Hm e He). unfold or_drop. destruct (m e) as [[err|a] e']; [|done].
  destruct Hm as [Hi He']. split; [done|]. by apply (step_set slot None).
Qed.

(** Sequencing: a step leaves the invariant and a fact about its value. *)
Lemma and_then {A B : Type} (m : E_ A) (k : A -> E_ B) (fact : A -> Prop) Q :
  triple planner_ok m (fun a e => planner_ok e /\ fact a) Kept ->
  (forall a, fact a -> triple planner_ok (k a) Q Kept) -> triple planner_ok (bind m k) Q Kept.
Proof.
  intros Hm Hk. eapply triple_bind; [exact Hm|]. intros a e [He Hf]. by apply Hk.
Qed.

Lemma and_just {A B : Type} (m : E_ A) (k : A -> E_ B) Q :
  triple planner_ok m (fun _ e => planner_ok e) Kept ->
  (forall a, triple planner_ok (k a) Q Kept) -> triple planner_ok (bind m k) Q Kept.
Proof. intros Hm Hk. by eapply triple_bind. Qed.

(** ** Identifiers of listed candidates *)

Lemma by_ids_spec ids result :
  by_ids candidates ids = Some result -> incl result candidates /\ length result = length ids.
Proof.
  unfold by_ids. revert result. induction ids as [|id ids IH]; intros result.
  - intros [= <-]. by split; [intros ? []|].
  - simpl. destruct (index_by_id candidates !! id) as [c|] eqn:Ec; [|done]. simpl.
    destruct (mapM _ ids) as [l|]; [|done]. intros [= <-].
    destruct (IH l eq_refl) as [Hi Hl]. apply index_by_id_lookup in Ec as [Hc _].
    split; [|simpl; by rewrite Hl]. intros x [<-|Hx]; [done|by apply Hi].
Qed.

Lemma step_revalidate evaluate required found :
  required = R \/ required = [] -> (length found <= Z.to_nat limit)%nat -> 0 < limit ->
  triple planner_ok (revalidate evaluate now clients candidates required found)
    (fun pool e => planner_ok e /\ chosen evaluate pool) Kept.
Proof.
  intros Hr Hl H0. unfold revalidate. eapply and_then; [apply step_limit|]. intros ? ->.
  destruct (by_ids candidates (map ID found)) as [current|] eqn:Eb; [|by apply step_raise].
  apply by_ids_spec in Eb as [Hi Hlen]. rewrite length_map in Hlen.
  assert ((if bool_decide (required = []) then R else required) = R) as ->.
  { case_bool_decide; [done|]. by destruct Hr. }
  eapply triple_bind; [apply step_evaluate|]. intros covered e [He Hev].
  destruct (coverageComplete covered R) eqn:Ec; [|by split].
  split; [done|]. split; [split; [done|lia]|]. by exists covered.
Qed.
(** ** The bounded search *)

Lemma new_session_ok key full :
  slot_ok (Some (newSession key (Z.to_nat limit) clients candidates full)).
Proof.
  split.
  - split_and!; simpl; [| |done|].
    + by apply (start_ids key (Z.to_nat limit) clients candidates full).
    + apply (start_full key (Z.to_nat limit) clients candidates full).
    + by apply (start_ok any_answer key (Z.to_nat limit) clients candidates full).
  - intros _. by left.
Qed.

(** A slice keeps a session of these clients that is not complete yet. *)
Lemma planner_slice evaluator w :
  within (ses w) -> cs_completed (ses w) = false -> cs_required (ses w) = R ->
  match resumeCriticalCoveragePlanner evaluator w with
  | (inl err, w') => internal err = false /\ within (ses w') /\
      cs_completed (ses w') = false /\ cs_required (ses w') = R
  | (inr found, w') => cs_required (ses w') = R /\
      match found with Some pool => (length pool <= Z.to_nat limit)%nat | None => True end
  end.
Proof.
  intros Hw Hc Hr. unfold within in Hw. rewrite Hc in Hw. destruct Hw as (H1 & H2 & H3 & H4).
  pose proof (planner_spec any_answer evaluator (ses w) (fun _ _ => I) H1 H2 w H4) as H.
  assert (forall s', same (ses w) s' -> cs_required s' = R) as Hreq.
  { intros s' Hs. rewrite (sa_required _ _ Hs); [done|]. rewrite Hr. by apply required_nonempty. }
  destruct (resumeCriticalCoveragePlanner evaluator w) as [[err|found] w'].
  - destruct H as [Hi Hok]. pose proof (ok_same _ _ _ Hok) as Hs.
    split_and!; [done| |by rewrite (sa_completed _ _ Hs)|by apply Hreq].
    unfold within. rewrite (sa_completed _ _ Hs), Hc, (sa_ordered _ _ Hs), (sa_fullPool _ _ Hs),
      (sa_limit _ _ Hs). split_and!; [done|done|done|by eapply session_rebase].
  - destruct H as [Hs Ha]. split; [by apply Hreq|]. destruct found as [pool|]; [|done].
    destruct Ha as (_ & Hl & _). by rewrite <- H3.
Qed.

Lemma stop_within s : within s -> cs_completed s = false -> within (stop s).
Proof.
  unfold within, stop. simpl. intros Hw Hc. rewrite Hc in *. destruct Hw as (H1 & H2 & H3 & H4).
  split_and!; [done|done|done|]. destruct H4 as [[E1 E2 E3 E4 E5 E6] Hca Hph].
  split; [by split|done|]. unfold phase_ok in *. simpl. destruct (cs_phase s).
  - destruct Hph. split; [done|by left].
  - destruct Hph as (? & ? & ? & ? & ?). split_and!; try done. by left.
  - destruct Hph as [G1 G2 G3 G4 G5 G6 G7]. split; simpl; try done. by left.
  - destruct Hph as [? [? ? ?]]. split; [done|]. split; simpl; try done. by left.
Qed.

Lemma slice_error_internal parent l n err b :
  internal err = false -> internal (coverageSliceError parent l n err b) = false.
Proof. unfold coverageSliceError. repeat case_match; done. Qed.

Lemma step_search_slice slot evaluate retain s :
  0 < limit -> within s -> cs_completed s = false -> cs_required s = R ->
  triple planner_ok (search_slice slot evaluate now clients candidates retain s)
    (fun pool e => planner_ok e /\ chosen evaluate pool) Kept.
Proof.
  intros H0 Hw Hc Hr. unfold search_slice. eapply and_then; [apply step_limit|]. intros ? ->.
  apply and_just; [by apply step_get|]. intros p. apply and_just; [apply step_moment|]. intros m.
  set (w := {| ses := s; b_limit := limit; b_evaluations := 0; ticks := m_ticks m |}).
  pose proof (planner_slice (session_evaluator evaluate p now clients) w Hw Hc Hr) as H.
  destruct (resumeCriticalCoveragePlanner _ w) as [[err|[found|]] w'].
  - destruct H as (Hi & Hw' & Hc' & Hr').
    assert (slot_ok (Some (ses w'))) as Hslot by (split; [done|intros _; by left]).
    assert (slot_ok (Some (stop (ses w')))) as Hstop
      by (split; [by apply stop_within|intros _; by left]).
    apply and_just; [apply step_set; by case_match|]. intros [].
    by apply step_raise, slice_error_internal.
  - destruct H as [Hr' Hl]. eapply and_then.
    { apply step_or_drop, step_revalidate; [by left|done|done]. }
    intros pool Hch. apply and_just; [|intros [] e He; by split].
    destruct retain; apply step_set; [|done]. split; [|intros _; by left].
    unfold within. simpl. rewrite length_map. destruct Hch as [[_ ?] _]. lia.
  - apply and_just; [by apply step_set|]. intros []. by apply step_raise.
Qed.

Lemma step_capped slot evaluate retain full :
  0 < limit -> limit < Z.of_nat (length candidates) ->
  triple planner_ok (cappedCriticalCandidates slot evaluate now clients candidates retain full)
    (fun pool e => planner_ok e /\ chosen evaluate pool) Kept.
Proof.
  intros H0 Hlen. unfold cappedCriticalCandidates.
  apply and_just; [apply step_ctx|]. intros []. eapply and_then; [apply step_limit|]. intros ? ->.
  destruct (_ || _) eqn:E; [apply orb_true_iff in E as [E|E]; z_bool; lia|]. clear E.
  eapply and_then; [apply step_key|]. intros key Hkey.
  eapply and_then; [apply step_slot|]. intros o Ho. cbv zeta.
  set (s := match o with Some s => _ | None => _ end).
  assert (slot_ok (Some s) /\ for_clients s) as [[Hw Hsel] Hfor].
  { unfold s. destruct o as [s'|]; [destruct (str_eqb (cs_key s') key) eqn:Ek|].
    - split; [done|]. apply Ho. str_bool. by rewrite Ek.
    - split; [apply new_session_ok|by left].
    - split; [apply new_session_ok|by left]. }
  apply and_just; [by apply step_set|]. intros [].
  destruct (cs_completed s) eqn:Ec.
  - apply step_or_drop. destruct (by_ids candidates (cs_completedIDs s)) as [result|] eqn:Eb;
      [|by apply step_raise]. apply by_ids_spec in Eb as [_ Hl].
    unfold within in Hw. rewrite Ec in Hw. apply step_revalidate; [|lia|done].
    destruct Hfor as [?|[_ ?]]; [by left|by right].
  - apply step_search_slice; try done. destruct Hfor as [?|[? _]]; [done|congruence].
Qed.
(** ** The current routes, with a few more *)

Lemma step_slice_error {A : Type} n (m : E_ A) Q :
  triple planner_ok m Q Kept -> triple planner_ok (slice_error limit n m) Q Kept.
Proof.
  intros Hm e He. specialize (Hm e He). unfold slice_error.
  destruct (m e) as [[err|a] e']; [|done]. destruct Hm as [Hi [? ? ?]].
  split; [by apply slice_error_internal|by split].
Qed.

Lemma step_budget evaluate n pool required :
  triple planner_ok (budget_evaluate limit n evaluate now clients pool required)
    (fun r e => planner_ok e /\ evaluated evaluate pool required r) Kept.
Proof.
  unfold budget_evaluate. apply and_just; [apply step_moment|]. intros m.
  apply and_just.
  - apply step_slice_error, and_just; [unfold fail_if; case_match; [by apply step_raise|by intros e He]|].
    intros []. case_match; [by apply step_raise|by intros e He].
  - intros []. apply step_slice_error. intros e He. unfold bind, get.
    destruct (evaluate (en_placement e) (m_checks m) now clients pool required) as [x|r] eqn:Er;
      [by split|].
    unfold fail_if. destruct (m_after m); [by split|]. split; [done|].
    exists (en_placement e), (m_checks m). split; [by apply po_placement|done].
Qed.

(** The answer of a pass: a trial that covers, or a route to add. *)
Definition pass_ok (evaluate : Evaluate) (incumbent : list Candidate)
    (r : list Candidate + Pass) : Prop :=
  match r with
  | inl trial => chosen evaluate trial
  | inr p => forall c e, ps_best p = Some (c, e) -> In c candidates
  end.

Lemma step_pass evaluate ids incumbent rest p :
  Z.of_nat (length incumbent) < limit -> incl incumbent candidates -> incl rest candidates ->
  (forall c e, ps_best p = Some (c, e) -> In c candidates) ->
  triple planner_ok (incumbent_pass limit evaluate now clients R ids incumbent rest p)
    (fun r e => planner_ok e /\ pass_ok evaluate incumbent r) Kept.
Proof.
  intros Hl Hi. revert p. induction rest as [|c rest IH]; intros p Hr Hp; simpl.
  - intros e He. by split.
  - assert (incl rest candidates) as Hr' by (intros x Hx; apply Hr; by right).
    destruct (bool_decide _); [by apply IH|].
    eapply and_then; [apply step_budget|]. intros r Hev.
    destruct (coverageComplete r R) eqn:Ec.
    + intros e He. split; [done|]. split; [|by exists r]. split.
      * intros x [Hx|[<-|[]]]%in_app_iff; [by apply Hi|apply Hr; by left].
      * rewrite length_app. simpl. lia.
    + apply IH; [done|]. destruct (_ <? _)%nat; simpl; [|done].
      intros c' e' [= <- <-]. apply Hr. by left.
Qed.

Lemma step_loop evaluate ordered_ fuel ids incumbent covered n :
  incl ordered_ candidates -> incl incumbent candidates ->
  (Z.to_nat limit <= fuel + length incumbent)%nat ->
  triple planner_ok
    (incumbent_loop fuel limit evaluate now clients R ordered_ ids incumbent covered n)
    (fun r e => planner_ok e /\ match r with Some pool => chosen evaluate pool | None => True end)
    Kept.
Proof.
  intros Ho. revert ids incumbent covered n.
  induction fuel as [|fuel IH]; intros ids incumbent covered n Hi Hf; simpl;
    (destruct (limit <=? _) eqn:El; z_bool; [intros e He; by split|]); [lia|].
  eapply and_then; [by apply step_pass|]. intros [trial|p] Hp; [intros e He; by split|].
  destruct (ps_best p) as [[c e]|] eqn:Eb; [|intros e He; by split].
  apply IH.
  - intros x [Hx|[<-|[]]]%in_app_iff; [by apply Hi|by eapply Hp].
  - rewrite length_app. simpl. lia.
Qed.

Lemma ordered_incl : incl (orderCriticalCoverageCandidates clients candidates) candidates.
Proof. intros c Hc. unfold orderCriticalCoverageCandidates in Hc. by rewrite sort_slice_In in Hc. Qed.

Lemma step_incumbent evaluate :
  triple planner_ok (incumbentPlusReserveCoverage now clients candidates R limit evaluate)
    (fun r e => planner_ok e /\ match r with Some pool => chosen evaluate pool | None => True end)
    Kept.
Proof.
  unfold incumbentPlusReserveCoverage. set (incumbent := List.filter _ _).
  assert (incl incumbent candidates) as Hi
    by (intros c Hc; apply filter_incl in Hc; by apply ordered_incl).
  destruct (_ || _) eqn:E; [intros e He; by split|]. apply orb_false_iff in E as [_ E]. z_bool.
  eapply and_then; [apply step_budget|]. intros covered Hev.
  destruct (coverageComplete covered R) eqn:Ec.
  - intros e He. split; [done|]. split; [split; [done|lia]|]. by exists covered.
  - apply step_loop; [apply ordered_incl|done|lia].
Qed.
(** ** The entry points *)

Abbreviation active := (active_evaluate coverageEvaluate).
Abbreviation bootstrap := (bootstrap_evaluate bootstrapCoverageEvaluate).

Lemma step_static slot replaced l :
  triple planner_ok (static_check slot replaced clients candidates l)
    (fun _ e => planner_ok e) Kept.
Proof.
  unfold static_check. destruct replaced; [by intros e He|].
  case_match; [|by intros e He]. apply and_just; [apply step_reset|]. intros []. by apply step_raise.
Qed.

Lemma step_cached :
  triple planner_ok (cachedBootstrapCoverageCandidates now clients candidates)
    (fun r e => planner_ok e /\ match r with Some pool => sized pool | None => True end) Kept.
Proof.
  unfold cachedBootstrapCoverageCandidates. eapply and_then; [apply step_limit|]. intros ? ->.
  destruct (_ || _) eqn:E; [intros e He; by split|]. apply orb_false_iff in E as [E _]. z_bool.
  eapply and_then; [apply step_key|]. intros key Hkey.
  eapply and_then; [apply (step_slot Bootstrap)|]. intros [s|] Hs; [|intros e He; by split].
  destruct (_ || _) eqn:E'; [intros e He; by split|].
  apply orb_false_iff in E' as [E1 _]. apply negb_false_iff in E1.
  intros e He. split; [done|]. destruct (by_ids candidates (cs_completedIDs s)) as [pool|] eqn:Eb;
    [|done]. apply by_ids_spec in Eb as [Hi Hl]. destruct Hs as [Hw _]. unfold within in Hw.
  rewrite E1 in Hw. split; [done|lia].
Qed.

Lemma step_retain pool :
  sized pool ->
  triple planner_ok (retainProspectiveCoverage now clients candidates pool)
    (fun _ e => planner_ok e) Kept.
Proof.
  intros [_ Hl]. unfold retainProspectiveCoverage. eapply and_then; [apply step_key|].
  intros key _. apply step_set. split.
  - unfold within. simpl. rewrite length_map. lia.
  - intros _. by right.
Qed.

Lemma filter_length_le {A : Type} (f : A -> bool) l : (length (List.filter f l) <= length l)%nat.
Proof. induction l as [|x l IH]; simpl; [lia|]. destruct (f x); simpl; lia. Qed.

Lemma step_narrow evaluate pool e0 :
  chosen evaluate pool ->
  triple planner_ok (narrow_to_witness evaluate now clients pool e0 R)
    (fun r e => planner_ok e /\ chosen evaluate r) Kept.
Proof.
  intros Hch. unfold narrow_to_witness. set (witness := List.filter _ pool).
  destruct (_ && _); [|intros e He; by split]. intros e He.
  pose proof (step_evaluate evaluate witness R e He) as Hev.
  destruct (evaluate_in evaluate now clients witness R e) as [[err|r] e'].
  - destruct Hev. by split.
  - destruct Hev as [He' Hev]. split; [done|]. destruct (coverageComplete r R) eqn:Ec; [|done].
    destruct Hch as [[Hi Hl] _]. split; [|by exists r]. split.
    + intros c Hc. apply filter_incl in Hc. by apply Hi.
    + pose proof (filter_length_le (fun c => bool_decide (ID c ∈ (list_to_set (witnessIDs e0) :
        gset string))) pool). unfold witness. lia.
Qed.

Lemma step_prospective_search :
  0 < limit -> limit < Z.of_nat (length candidates) ->
  triple planner_ok
    (prospective_search bootstrapCoverageEvaluate now clients candidates limit)
    (fun pool e => planner_ok e /\ chosen bootstrap pool) Kept.
Proof.
  intros H0 Hlen. unfold prospective_search. set (preferred := if limit <? _ then take _ _ else _).
  assert (sized preferred) as Hpre.
  { unfold preferred. destruct (limit <? _) eqn:El; z_bool; split; try lia.
    - intros c Hc. apply ordered_incl.
      rewrite <- (take_drop (Z.to_nat limit) (orderCriticalCoverageCandidates _ _)).
      apply in_app_iff. by left.
    - rewrite length_take. lia.
    - apply ordered_incl. }
  apply and_just; [apply step_moment|]. intros m. intros e He. unfold bind at 1, get.
  destruct (bootstrap (en_placement e) (m_checks m) now clients preferred R) as [x|coverage] eqn:Eb.
  { destruct (m_kind m), (m_after m); try by apply step_raise. by apply step_capped. }
  destruct (coverageComplete coverage R) eqn:Ec.
  - assert (chosen bootstrap preferred) as Hch.
    { split; [done|]. exists coverage. split; [|done]. exists (en_placement e), (m_checks m).
      split; [by apply po_placement|done]. }
    revert e He Eb. intros e He _. revert e He.
    eapply and_then; [by apply step_narrow|]. intros pool Hp.
    apply and_just; [apply step_retain, Hp|]. intros [] e He. by split.
  - revert e He Eb. intros e He _. revert e He.
    eapply and_then; [apply step_incumbent|]. intros [pool|] Hp; [|by apply step_capped].
    apply and_just; [apply step_retain, Hp|]. intros [] e He. by split.
Qed.

Lemma step_prospective :
  0 < limit -> limit < Z.of_nat (length candidates) ->
  triple planner_ok
    (cappedProspectiveScheduleCandidates bootstrapCoverageEvaluate now clients candidates)
    (fun pool e => planner_ok e /\ chosen bootstrap pool) Kept.
Proof.
  intros H0 Hlen. unfold cappedProspectiveScheduleCandidates.
  eapply and_then; [apply step_limit|]. intros ? ->. cbv zeta.
  apply and_just; [case_match; [apply step_static|by intros e He]|]. intros [].
  eapply and_then; [apply step_cached|]. intros cached Hc.
  assert (triple planner_ok (bind (get bootstrapCoverageSearch) (fun session =>
     if match session with Some s => negb (cs_completed s) | None => false end
     then cappedCriticalCandidates Bootstrap bootstrap now clients candidates true None
     else prospective_search bootstrapCoverageEvaluate now clients candidates limit))
    (fun pool e => planner_ok e /\ chosen bootstrap pool) Kept) as Hrest.
  { apply and_just; [by apply step_get|]. intros session.
    apply triple_if; intros _; [by apply step_capped|by apply step_prospective_search]. }
  destruct cached as [cached|]; [|exact Hrest].
  eapply and_then; [apply step_evaluate|]. intros covered Hev.
  destruct (coverageComplete covered R) eqn:Ec.
  - intros e He. split; [done|]. split; [done|by exists covered].
  - apply and_just; [apply step_reset|]. intros []. exact Hrest.
Qed.

Lemma step_with_full full :
  0 < limit -> limit < Z.of_nat (length candidates) ->
  triple planner_ok
    (cappedScheduleCandidatesWithFull coverageEvaluate now clients candidates full)
    (fun pool e => planner_ok e /\ chosen active pool) Kept.
Proof.
  intros H0 Hlen. unfold cappedScheduleCandidatesWithFull.
  eapply and_then; [apply step_limit|]. intros ? ->.
  apply and_just; [case_match; [apply step_static|by intros e He]|]. intros [].
  eapply and_then; [apply step_cached|]. intros [cached|] Hc; [|by apply step_capped].
  eapply and_then; [apply step_evaluate|]. intros covered Hev.
  destruct (coverageComplete covered R) eqn:Ec; [|by apply step_capped].
  intros e He. split; [done|]. split; [done|by exists covered].
Qed.

Lemma step_smaller full :
  0 < limit -> limit < Z.of_nat (length candidates) ->
  triple planner_ok
    (plan_smaller coverageEvaluate bootstrapCoverageEvaluate now clients candidates limit full)
    (fun pool e => planner_ok e /\ chosen active pool) Kept.
Proof.
  intros H0 Hlen. unfold plan_smaller. eapply and_then; [apply step_incumbent|].
  intros [pool|] Hp; [intros e He; by split|].
  destruct (negb _); [|by apply step_with_full].
  eapply and_then; [by apply step_prospective|]. intros pool [Hsz _].
  eapply and_then; [apply step_evaluate|]. intros covered Hev.
  destruct (coverageComplete covered R) eqn:Ec; [|by apply step_raise].
  intros e He. split; [done|]. split; [done|by exists covered].
Qed.

Lemma step_use_cached cached full :
  0 < limit -> limit < Z.of_nat (length candidates) -> sized cached ->
  triple planner_ok (use_cached coverageEvaluate bootstrapCoverageEvaluate now clients candidates
      cached limit full)
    (fun pool e => planner_ok e /\ chosen active pool) Kept.
Proof.
  intros H0 Hlen Hsz. unfold use_cached. eapply and_then; [apply step_evaluate|].
  intros covered Hev. destruct (coverageComplete covered R) eqn:Ec.
  - intros e He. split; [done|]. split; [done|by exists covered].
  - eapply and_then; [apply step_evaluate|]. intros prospective _.
    destruct (coverageComplete prospective R); [by apply step_raise|].
    apply and_just; [apply step_reset|]. intros []. by apply step_smaller.
Qed.

(** The whole inventory is the answer: nothing limits it, or its own schedule
    covers on at most [limit] routes. *)
Definition whole_ok : Prop :=
  limit <= 0 \/ Z.of_nat (length candidates) <= limit \/
  exists full, evaluated active candidates R full /\ coverageComplete full R = true /\
    (0 < length (witnessIDs full))%nat /\ Z.of_nat (length (witnessIDs full)) <= limit.

Lemma step_cycle :
  triple planner_ok
    (scheduleCandidatesForCycle coverageEvaluate bootstrapCoverageEvaluate now clients candidates)
    (fun pool e => planner_ok e /\ ((pool = candidates /\ whole_ok) \/ chosen active pool)) Kept.
Proof.
  unfold scheduleCandidatesForCycle. eapply and_then; [apply step_limit|]. intros ? ->.
  destruct (_ || _) eqn:E.
  { intros e He. split; [done|]. left. split; [done|].
    apply orb_true_iff in E as [E|E]; z_bool; [by left|by right; left]. }
  apply orb_false_iff in E as [E1 E2]. z_bool.
  apply and_just; [apply step_static|]. intros [].
  assert (triple planner_ok (resumeScheduleCoverageSession active now clients candidates)
    (fun r e => planner_ok e /\ match r with Some pool => chosen active pool | None => True end)
    Kept) as Hresume.
  { unfold resumeScheduleCoverageSession. eapply and_then; [apply step_key|]. intros key _.
    apply and_just; [by apply step_get|]. intros session. apply triple_if; intros _.
    - eapply and_then; [by apply step_capped|]. intros pool Hp e He. by split.
    - intros e He. by split. }
  eapply and_then; [exact Hresume|]. intros [pool|] Hp; [intros e He; split; [done|by right]|].
  eapply and_then; [apply step_evaluate|]. intros full Hev.
  destruct (_ && _) eqn:Ew.
  { intros e He. split; [done|]. left. split; [done|]. right; right. exists full.
    rewrite bool_decide_eq_false_2 in Ew by apply required_nonempty.
    rewrite orb_false_l, !andb_true_iff, Nat.ltb_lt in Ew. destruct Ew as (? & ? & ?). z_bool. done. }
  eapply and_then; [apply step_cached|]. intros cached Hc.
  apply (triple_conseq planner_ok planner_ok _ _
    (fun pool e => planner_ok e /\ chosen active pool) Kept Kept);
    [|done|intros pool e [? ?]; split; [done|by right]|done].
  destruct cached; [by apply step_use_cached|by apply step_smaller].
Qed.
End Safety.

(** An engine without retained sessions satisfies the invariant. *)
Lemma fresh_engine_ok `{Encoding} now clients candidates e :
  coverageSearch e = None -> bootstrapCoverageSearch e = None ->
  planner_ok now clients candidates (activeCriticalRouteLimit e) (en_placement e) e.
Proof.
  intros H1 H2. split; [done|by exists O|]. intros []; simpl; [by rewrite H1|by rewrite H2].
Qed.

(** C34.  What a scheduling cycle may use.  From any engine whose retained searches
    are within the limit and, where the planning key selects them, for these
    clients, and whatever the contexts, clocks and evaluators do: an error is
    never internal; an answer is either the whole inventory, because no limit
    applies or because its own schedule covers every client on at most [limit]
    routes, or a set of at most [limit] listed candidates that the evaluator, in
    this very cycle and on the current candidates, found to cover every client.
    Either way the retained searches stay within the limit and for these
    clients. *)
Theorem cycle_candidates_cover `{Encoding} coverageEvaluate bootstrapCoverageEvaluate now clients
    candidates limit e :
  NoDup (map ID candidates) -> clients <> [] ->
  planner_ok now clients candidates limit (en_placement e) e ->
  match scheduleCandidatesForCycle coverageEvaluate bootstrapCoverageEvaluate now clients
          candidates e with
  | (inl err, e') => internal err = false /\
      planner_ok now clients candidates limit (en_placement e) e'
  | (inr pool, e') => planner_ok now clients candidates limit (en_placement e) e' /\
      ((pool = candidates /\
          whole_ok coverageEvaluate now clients candidates limit (en_placement e)) \/
       chosen now clients candidates limit (en_placement e) (active_evaluate coverageEvaluate) pool)
  end.
Proof.
  intros Hids Hcl Hok.
  pose proof (step_cycle coverageEvaluate bootstrapCoverageEvaluate now clients candidates limit
    (en_placement e) Hids Hcl e Hok) as Hc.
  by destruct (scheduleCandidatesForCycle _ _ _ _ _ e) as [[err|pool] e'].
Qed.

(** ** Witness *)

(** Every route of a pool meets four requirements; all of them are witnesses. *)
Definition four_evaluate : Evaluate := fun _ _ _ _ pool required =>
  inr {| satisfied := list_to_set (take (4 * length pool) required);
         witnessIDs := map ID pool |}.

Definition sample_engine : Engine := {|
  activeCriticalRouteLimit := 2; coverageSearch := None; bootstrapCoverageSearch := None;
  en_placement := sample_scheduler; moments := [] |}.

(** The incumbent route and one more cover both clients. *)
Example cycle_takes_two :
  match (@scheduleCandidatesForCycle sample_encoding (Some four_evaluate) None sample_now
           sample_clients sample_routes sample_engine).1 with
  | inr pool => map ID pool = ["vless-b"; "vless-a"]%string
  | inl _ => False
  end.
Proof. vm_compute. reflexivity. Qed.

Lemma cycle_candidates_cover_witness :
  match @scheduleCandidatesForCycle sample_encoding (Some four_evaluate) None sample_now
          sample_clients sample_routes sample_engine with
  | (inl err, e') => internal err = false /\
      @planner_ok sample_encoding sample_now sample_clients sample_routes 2 sample_scheduler e'
  | (inr pool, e') =>
      @planner_ok sample_encoding sample_now sample_clients sample_routes 2 sample_scheduler e' /\
      ((pool = sample_routes /\
          whole_ok (Some four_evaluate) sample_now sample_clients sample_routes 2
            sample_scheduler) \/
       chosen sample_now sample_clients sample_routes 2 sample_scheduler
         (active_evaluate (Some four_evaluate)) pool)
  end.
Proof.
  apply (@cycle_candidates_cover sample_encoding (Some four_evaluate) None sample_now
    sample_clients sample_routes 2 sample_engine).
  - apply (bool_decide_unpack _). vm_compute. exact I.
  - discriminate.
  - apply (@fresh_engine_ok sample_encoding sample_now sample_clients sample_routes sample_engine);
      reflexivity.
Defined.
