(* ===== verification/StoreTables.v ===== *)
(** The controller's database (internal/store): the rows that placement,
    publishing and recovery read and write, transactions over them, clients
    (clients.go), and the routing evidence of candidates (routing_evidence.go).

    A table is a map from its primary key; a query is a function of the database,
    a statement a change of it.  The single connection of the store makes every
    method one step, and a transaction that fails leaves the database as it was. *)
From Stdlib Require Import Floats.
From S2P Require Import Prelude Effects GoOrder GoStrings GoSort Sha256 QoE DataPlan Handlers.

#[local] Open Scope Z_scope.
#[local] Open Scope effect_scope.

(** ** Rows *)

Definition CandidateLifecycleActive : string := "active".
Definition CandidateLifecycleDraining : string := "draining".
Definition CandidateLifecycleRetired : string := "retired".

Record Candidate := {
  c_ID : string;
  c_SourceID : string;
  c_Kind : string;
  c_Label : string;
  c_Fingerprint : string;
  c_RouteKey : string;
  c_FailureDomain : string;
  c_Enabled : bool;
  c_SourcePosition : Z;
  c_Lifecycle : string;
  c_RetiredAt : option Z;
  c_DrainAfter : option Z;
  c_CreatedAt : Z;
  c_UpdatedAt : Z
}.

(** A candidate with its [encrypted_payload]. *)
Record CandidateRow := { cr_candidate : Candidate; cr_encrypted : string }.

Record SourceRow := {
  so_kind : string;
  so_label : string;
  so_fingerprint : string;
  so_encrypted : string;
  so_enabled : bool;
  so_pending_delete : bool;
  so_created_at : Z;
  so_updated_at : Z;
  so_last_refresh_at : option Z;
  so_last_refresh_error : string;
  so_candidate_count : Z
}.

#[export] Instance SourceRow_eta : Eta SourceRow := fun s =>
  Build_SourceRow (so_kind s) (so_label s) (so_fingerprint s) (so_encrypted s) (so_enabled s)
    (so_pending_delete s) (so_created_at s) (so_updated_at s) (so_last_refresh_at s)
    (so_last_refresh_error s) (so_candidate_count s).

Record ClientRow := {
  cl_name : string;
  cl_address : string;
  cl_public_key : string;
  cl_encrypted_config : string;
  cl_paused : bool;
  cl_created_at : Z;
  cl_updated_at : Z;
  cl_last_traffic_at : option Z;
  cl_activity_seen : bool;
  cl_rx_bytes : Z;
  cl_tx_bytes : Z;
  cl_latest_handshake : option Z
}.

#[export] Instance ClientRow_eta : Eta ClientRow := fun c =>
  Build_ClientRow (cl_name c) (cl_address c) (cl_public_key c) (cl_encrypted_config c)
    (cl_paused c) (cl_created_at c) (cl_updated_at c) (cl_last_traffic_at c)
    (cl_activity_seen c) (cl_rx_bytes c) (cl_tx_bytes c) (cl_latest_handshake c).

Record HealthRow := {
  h_score : float;
  h_tcp_qualified : bool;
  h_udp_qualified : bool;
  h_available : bool;
  h_latency_ms : float;
  h_throughput_mbps : float;
  h_updated_at : Z;
  h_active_observed_at : option Z;
  h_active_success : bool;
  h_active_result_seq : Z;
  h_active_applied_seq : Z;
  h_failure_generation : Z;
  h_active_failure_generation : Z;
  h_active_hard_failure : bool;
  h_full_result_seq : Z;
  h_full_applied_seq : Z;
  h_placeholder : bool
}.

#[export] Instance HealthRow_eta : Eta HealthRow := fun h =>
  Build_HealthRow (h_score h) (h_tcp_qualified h) (h_udp_qualified h) (h_available h)
    (h_latency_ms h) (h_throughput_mbps h) (h_updated_at h) (h_active_observed_at h)
    (h_active_success h) (h_active_result_seq h) (h_active_applied_seq h)
    (h_failure_generation h) (h_active_failure_generation h) (h_active_hard_failure h)
    (h_full_result_seq h) (h_full_applied_seq h) (h_placeholder h).

(** Times are null when they are unset. *)
Record ProbeRow := {
  pr_candidate_id : string;
  pr_source_id : string;
  pr_status : string;
  pr_failure_streak : Z;
  pr_full_success_streak : Z;
  pr_window_started_at : option Z;
  pr_banned_until : option Z;
  pr_last_fast_probe_at : option Z;
  pr_last_full_probe_at : option Z;
  pr_last_success_at : option Z;
  pr_last_failure_at : option Z;
  pr_last_error_code : string;
  pr_last_error_message : string;
  pr_last_score : float;
  pr_conservative_score : float;
  pr_in_working_pool : bool;
  pr_draining : bool;
  pr_stale : bool;
  pr_updated_at : Z;
  pr_fast_result_seq : Z;
  pr_fast_applied_seq : Z;
  pr_placeholder : bool
}.

#[export] Instance ProbeRow_eta : Eta ProbeRow := fun r =>
  Build_ProbeRow (pr_candidate_id r) (pr_source_id r) (pr_status r) (pr_failure_streak r)
    (pr_full_success_streak r) (pr_window_started_at r) (pr_banned_until r)
    (pr_last_fast_probe_at r) (pr_last_full_probe_at r) (pr_last_success_at r)
    (pr_last_failure_at r) (pr_last_error_code r) (pr_last_error_message r) (pr_last_score r)
    (pr_conservative_score r) (pr_in_working_pool r) (pr_draining r) (pr_stale r)
    (pr_updated_at r) (pr_fast_result_seq r) (pr_fast_applied_seq r) (pr_placeholder r).

(** A sample of a probe, its time in seconds. *)
Record SampleRow := {
  sa_candidate_id : string;
  sa_success : bool;
  sa_latency_ms : float;
  sa_throughput_mbps : float;
  sa_packet_drop_ratio : float;
  sa_created_at : Z
}.

(** A circuit: times in seconds, 0 when unset. *)
Record FailureDomainRow := {
  fr_failure_count : Z;
  fr_window_started_at : Z;
  fr_open_until : Z;
  fr_canary_candidate : string;
  fr_updated_at : Z
}.

#[export] Instance FailureDomainRow_eta : Eta FailureDomainRow := fun r =>
  Build_FailureDomainRow (fr_failure_count r) (fr_window_started_at r) (fr_open_until r)
    (fr_canary_candidate r) (fr_updated_at r).

Record FailureDomainState := {
  fd_Domain : string;
  fd_FailureCount : Z;
  fd_WindowStartedAt : Time;
  fd_OpenUntil : Time;
  fd_CanaryCandidate : string;
  fd_UpdatedAt : Time
}.

(** The one row of [plan_state]; a blob is none when it is null. *)
Record PlanRow := {
  desired_generation : Z;
  applied_generation : Z;
  invalidated_generation : Z;
  desired_reason : string;
  desired_plan : option string;
  applied_plan : option string;
  desired_assignments_generation : Z;
  desired_assignments : option string
}.

#[export] Instance PlanRow_eta : Eta PlanRow := fun p =>
  Build_PlanRow (desired_generation p) (applied_generation p) (invalidated_generation p)
    (desired_reason p) (desired_plan p) (applied_plan p) (desired_assignments_generation p)
    (desired_assignments p).

Record RouteReserveMapping := {
  rm_ClientID : string;
  TCPPrimaryCandidateID : string;
  TCPReserveCandidateID : string;
  UDPPrimaryCandidateID : string;
  UDPReserveCandidateID : string
}.

#[export] Instance RouteReserveMapping_eq_dec : EqDecision RouteReserveMapping.
Proof. solve_decision. Defined.

Record AssignmentRecord := {
  as_ClientID : string;
  as_TCPOutbound : string;
  as_UDPOutbound : string;
  as_TCPSince : Time;
  as_UDPSince : Time;
  as_UpdatedAt : Time
}.

(** A row of [assignments]: times in seconds. *)
Record AssignmentRow := {
  ar_tcp_outbound : string;
  ar_udp_outbound : string;
  ar_tcp_since : Z;
  ar_udp_since : Z;
  ar_updated_at : Z
}.

Inductive RouteTransport := RouteTransportTCP | RouteTransportUDP.

#[export] Instance RouteTransport_eq_dec : EqDecision RouteTransport.
Proof. solve_decision. Defined.
#[export] Instance RouteTransport_countable : Countable RouteTransport.
Proof.
  refine (inj_countable' (fun t => match t with RouteTransportTCP => true | RouteTransportUDP => false end)
    (fun b : bool => if b then RouteTransportTCP else RouteTransportUDP) _).
  by intros [].
Defined.

Record RouteRecovery := {
  de_ClientID : string;
  de_Transport : RouteTransport;
  de_SourceCIDR : string;
  de_ClientKey : string;
  de_FailedOutbound : string;
  de_CandidateID : string;
  de_Fingerprint : string;
  de_FailureGeneration : Z;
  de_AppliedGeneration : Z;
  de_ConfirmedAt : Z
}.

(** A row of [events] of kind [assignment.migrated], with its message. *)
Record MigrationEvent := {
  ev_client : string;
  ev_transport : RouteTransport;
  ev_from : string;
  ev_to : string;
  ev_reason : string;
  ev_trigger : string;
  ev_from_dormant : bool;
  ev_dormant : bool;
  ev_previous_age : option Z;
  ev_at : Z
}.

Record Database := {
  plan_state : PlanRow;
  desired_reserves : gmap string (Z * RouteReserveMapping);
  applied_reserves : gmap string (Z * RouteReserveMapping);
  assignments : gmap string AssignmentRow;
  clients : gmap string ClientRow;
  route_recovery : gmap (string * RouteTransport) RouteRecovery;
  events : list MigrationEvent;
  candidates : gmap string CandidateRow;
  sources : gmap string SourceRow;
  candidate_health : gmap string HealthRow;
  candidate_probe_state : gmap string ProbeRow;
  probe_samples : list SampleRow;
  failure_domain_state : gmap string FailureDomainRow;
  failure_domain_evidence : gmap (string * string) Z;
  candidate_qoe_state : gmap string QoE.State;
  inventory_epoch : Z
}.

#[export] Instance Database_eta : Eta Database := fun d =>
  Build_Database (plan_state d) (desired_reserves d) (applied_reserves d) (assignments d)
    (clients d) (route_recovery d) (events d) (candidates d) (sources d) (candidate_health d)
    (candidate_probe_state d) (probe_samples d) (failure_domain_state d)
    (failure_domain_evidence d) (candidate_qoe_state d)
    (inventory_epoch d).

(** The database after its schema is created. *)
Definition new_database : Database := {|
  plan_state := {| desired_generation := 0; applied_generation := 0;
    invalidated_generation := 0; desired_reason := EmptyString; desired_plan := None;
    applied_plan := None; desired_assignments_generation := 0; desired_assignments := None |};
  desired_reserves := ∅; applied_reserves := ∅; assignments := ∅; clients := ∅;
  route_recovery := ∅; events := []; candidates := ∅; sources := ∅; candidate_health := ∅;
  candidate_probe_state := ∅; probe_samples := []; failure_domain_state := ∅;
  failure_domain_evidence := ∅; candidate_qoe_state := ∅;
  inventory_epoch := 0 |}.

(** ** Transactions *)

Inductive StoreError :=
  | SqlFailed | ConstraintFailed | NotFound (resource : string) | DecryptFailed (id : string)
  | DigestFailed | IdentityIncomplete | LifecycleRequired
  | CandidateInventoryChanged | CandidateEvidenceChanged (id : string) | MixedEvidence
  | ClientFieldsRequired
  | ReasonInvalid | PlanEncoding | PlanGenerationMismatch | PlanInvalid
  | VLESSNotBound | TorNotBound | RouteNotBound | RouteOfOtherClient | MappingsMismatch
  | SnapshotIncomplete | SnapshotClient | PausedNotCleared | SnapshotMismatch | SnapshotEncoding
  | SnapshotGeneration | SnapshotPlan
  | ReserveClientRequired | ReserveClientDuplicate | ReserveClientUnknown
  | PairIncomplete (t : RouteTransport) | PairEqual (t : RouteTransport)
  | PairUnknown (t : RouteTransport) | PairNotVLESS | MappingEmpty
  | MappingsNeedSnapshot | AppliedPlanDiffers | ReserveGenerationMismatch
  | RecoveryPlanInvalid | EventPlanInvalid
  | CandidateNoLongerCurrent | FingerprintRequired | HealthIdentity | SampleIdentity
  | HealthResultEmpty | HealthMissing | KindRequired
  | StageInvalid | BatchIdentity | BatchDuplicate | ReservationIdentity | ReservationInvalid
  | ReservationStage | TransitionIdentity | ObservationTimeRequired | FenceChanged
  | DomainRequired | DomainNotOpen
  | NoRows | EncryptFailed (id : string) | LabelRequired | SourcePending | RefreshEmpty
  | InputIncomplete | InputDuplicate | RetirementTime | RetirementRetention | RetirementPage
  | RetirementBatch | RetirementGeneration | RetirementIdentity | PersistedPlanInvalid.

Definition Tx (A : Type) : Type := Prog Database StoreError A.

(** What may happen to a transaction from outside: a statement fails, for
    instance because the context ends; the commit fails; or the commit is done
    and only its answer is lost. *)
Inductive Outcome := Commits | Interrupted | CommitFails | CommitUnreported.

Definition transaction {A : Type} (o : Outcome) (body : Tx A) : Tx A := fun d =>
  match o with
  | Interrupted => (inl SqlFailed, d)
  | Commits | CommitFails | CommitUnreported =>
      match body d with
      | (inl e, _) => (inl e, d)
      | (inr a, d') =>
          match o with
          | Commits => (inr a, d')
          | CommitUnreported => (inl SqlFailed, d')
          | _ => (inl SqlFailed, d)
          end
      end
  end.

(** A query outside a transaction. *)
Definition query {A : Type} (o : Outcome) (f : Database -> A) : Tx A :=
  transaction o (get f).

Definition check {E W : Type} (b : bool) (e : E) : Prog W E unit :=
  if b then ret tt else raise e.
Definition required {E W A : Type} (x : option A) (e : E) : Prog W E A :=
  match x with Some a => ret a | None => raise e end.
Definition lift {E W A : Type} (x : E + A) : Prog W E A :=
  match x with inr a => ret a | inl e => raise e end.

Fixpoint fold_attempt {E A B : Type} (f : B -> A -> E + B) (b : B) (l : list A) : E + B :=
  match l with
  | [] => inr b
  | x :: l => attempt (f b x) (fun b => fold_attempt f b l)
  end.

(** A Go map built by a loop: the last element of a key stays. *)
Definition index_by {A : Type} (key : A -> string) (l : list A) : gmap string A :=
  fold_left (fun m x => <[key x := x]> m) l ∅.

Definition unix_or_nil (t : Time) : option Z := if time_is_zero t then None else Some (time_unix t).
Definition nullable_time (s : option Z) : Time := match s with Some s => of_unix s | None => zero_time end.

(** ** Clients (clients.go) *)

Record ClientRecord := { cli_ID : string; cli_row : ClientRow }.

Definition ClientInactiveAfter : Duration := 5 * minute.

Definition RouteReserved (now : Time) (c : ClientRecord) : bool :=
  negb (cl_paused (cli_row c)) &&
  match cl_last_traffic_at (cli_row c) with
  | Some t => (t <=? time_unix now) && (time_unix now - t <? ClientInactiveAfter / second)
  | None => false
  end.

Definition requireAffected {A : Type} (row : option A) (resource : string) : Tx A :=
  required row (NotFound resource).

(** The address of a client is unique; [sealed] is the answer of the secret box. *)
Definition PutClient (o : Outcome) (now : Time) (sealed : option string) (id name address
    public_key : string) (paused : bool) (wireGuardConfig : string) : Tx unit :=
  check (negb (existsb (fun s => str_eqb s EmptyString) [id; name; address; wireGuardConfig]))
    ClientFieldsRequired ;;;
  encrypted <- required sealed (DecryptFailed id) ;;
  transaction o (fun d =>
    let taken := existsb (fun '(other, c) => negb (str_eqb other id) &&
                                             str_eqb (cl_address c) address)
                   (map_to_list (clients d)) in
    if taken then (inl ConstraintFailed, d)
    else
      let row := match clients d !! id with
                 | Some c => c <| cl_name := name |> <| cl_address := address |>
                     <| cl_public_key := public_key |> <| cl_encrypted_config := encrypted |>
                     <| cl_paused := paused |> <| cl_updated_at := time_unix now |>
                 | None => {| cl_name := name; cl_address := address;
                     cl_public_key := public_key; cl_encrypted_config := encrypted;
                     cl_paused := paused; cl_created_at := time_unix now;
                     cl_updated_at := time_unix now; cl_last_traffic_at := None;
                     cl_activity_seen := false; cl_rx_bytes := 0; cl_tx_bytes := 0;
                     cl_latest_handshake := None |}
                 end in
      (inr tt, d <| clients := <[id := row]> (clients d) |>)).

Definition update_client (o : Outcome) (id : string) (f : ClientRow -> ClientRow) : Tx unit :=
  transaction o (
    row <- get (fun d => clients d !! id) ;;
    c <- requireAffected row "client" ;;
    modify (fun d => d <| clients := <[id := f c]> (clients d) |>)).

Definition UpdateClient (o : Outcome) (now : Time) (id name : string) (paused : bool) : Tx unit :=
  update_client o id (fun c =>
    c <| cl_name := name |> <| cl_paused := paused |> <| cl_updated_at := time_unix now |>).

(** The rows that refer to a client go with it. *)
Definition DeleteClient (o : Outcome) (id : string) : Tx unit :=
  transaction o (
    row <- get (fun d => clients d !! id) ;;
    _ <- requireAffected row "client" ;;
    modify (fun d => d <| clients := delete id (clients d) |>
      <| assignments := delete id (assignments d) |>
      <| desired_reserves := delete id (desired_reserves d) |>
      <| applied_reserves := delete id (applied_reserves d) |>
      <| route_recovery := delete (id, RouteTransportTCP)
                             (delete (id, RouteTransportUDP) (route_recovery d)) |>)).

(** What the gateway reports of a peer. *)
Record PeerActivity := {
  pe_PublicKey : string;
  pe_LatestHandshake : Time;
  pe_LastUserTraffic : Time;
  pe_RXBytes : Z;
  pe_TXBytes : Z
}.

(** Traffic never lies in the future and never goes back. *)
Definition RecordPeerActivity (o : Outcome) (id : string) (at_ : Time) (peer : PeerActivity) :
    Tx unit :=
  let traffic := if after (pe_LastUserTraffic peer) at_ then at_ else pe_LastUserTraffic peer in
  update_client o id (fun c =>
    c <| cl_last_traffic_at := match unix_or_nil traffic with
                               | Some t => Some (Z.max (default 0 (cl_last_traffic_at c)) t)
                               | None => cl_last_traffic_at c
                               end |>
      <| cl_latest_handshake := unix_or_nil (pe_LatestHandshake peer) |>
      <| cl_activity_seen := true |> <| cl_rx_bytes := pe_RXBytes peer |>
      <| cl_tx_bytes := pe_TXBytes peer |> <| cl_updated_at := time_unix at_ |>).

Definition RecordActivity (o : Outcome) (now : Time) (id : string) (at_ : Time) (rx tx : Z) :
    Tx unit :=
  update_client o id (fun c =>
    c <| cl_last_traffic_at :=
           if cl_activity_seen c && (negb (cl_rx_bytes c =? rx) || negb (cl_tx_bytes c =? tx))
           then Some (time_unix at_) else cl_last_traffic_at c |>
      <| cl_activity_seen := true |> <| cl_rx_bytes := rx |> <| cl_tx_bytes := tx |>
      <| cl_updated_at := time_unix now |>).

Definition client_record_less (a b : ClientRecord) : bool :=
  if str_eqb (cl_address (cli_row a)) (cl_address (cli_row b))
  then str_ltb (cli_ID a) (cli_ID b)
  else str_ltb (cl_address (cli_row a)) (cl_address (cli_row b)).

Definition ListClients (o : Outcome) : Tx (list ClientRecord) :=
  query o (fun d => sort_slice client_record_less
    (map (fun '(id, c) => {| cli_ID := id; cli_row := c |}) (map_to_list (clients d)))).

(** ** Routing evidence (routing_evidence.go) *)

Record CandidateHealth := {
  hl_CandidateID : string;
  hl_Score : float;
  hl_TCPQualified : bool;
  hl_UDPQualified : bool;
  hl_Available : bool;
  hl_LatencyMS : float;
  hl_ThroughputMbps : float;
  hl_UpdatedAt : Time;
  hl_ActiveObservedAt : Time;
  hl_ActiveSuccess : bool;
  hl_ActiveCurrent : bool;
  hl_ActiveHardFailure : bool
}.

Definition zero_health : CandidateHealth := {|
  hl_CandidateID := EmptyString; hl_Score := 0%float; hl_TCPQualified := false;
  hl_UDPQualified := false; hl_Available := false; hl_LatencyMS := 0%float;
  hl_ThroughputMbps := 0%float; hl_UpdatedAt := zero_time; hl_ActiveObservedAt := zero_time;
  hl_ActiveSuccess := false; hl_ActiveCurrent := false; hl_ActiveHardFailure := false |}.

Record CandidateProbeState := {
  ps_Fingerprint : string;
  ps_CandidateID : string;
  ps_SourceID : string;
  ps_Status : string;
  ps_FailureStreak : Z;
  ps_FullSuccessStreak : Z;
  ps_WindowStartedAt : Time;
  ps_BannedUntil : Time;
  ps_LastFastProbeAt : Time;
  ps_LastFullProbeAt : Time;
  ps_LastSuccessAt : Time;
  ps_LastFailureAt : Time;
  ps_LastErrorCode : string;
  ps_LastErrorMessage : string;
  ps_LastScore : float;
  ps_ConservativeScore : float;
  ps_InWorkingPool : bool;
  ps_Draining : bool;
  ps_Stale : bool;
  ps_UpdatedAt : Time
}.

Record CandidateRoutingEvidence := {
  e_Candidate : Candidate;
  e_Payload : string;
  e_SourceEnabled : bool;
  e_Health : option CandidateHealth;
  e_ActiveResultSequence : Z;
  e_ActiveAppliedSequence : Z;
  e_FailureGeneration : Z;
  e_ActiveFailureGeneration : Z;
  e_Probe : option CandidateProbeState;
  e_FailureDomain : option FailureDomainState;
  e_QoE : option QoE.State;
  e_Digest : string
}.

(** What the digest of a candidate covers: not its label, position or times, and
    of its health only what decisions read. *)
Record candidateInventoryEvidence := {
  in_ID : string;
  in_SourceID : string;
  in_Kind : string;
  in_Fingerprint : string;
  in_RouteKey : string;
  in_FailureDomain : string;
  in_Enabled : bool;
  in_Lifecycle : string
}.

Record candidateHealthDecisionEvidence := {
  hd_Score : float;
  hd_TCPQualified : bool;
  hd_UDPQualified : bool;
  hd_Available : bool;
  hd_LatencyMS : float;
  hd_ThroughputMbps : float;
  hd_ActiveSuccess : bool;
  hd_ActiveCurrent : bool;
  hd_ActiveHardFailure : bool
}.

Record candidateEvidenceDigest := {
  ed_Inventory : candidateInventoryEvidence;
  ed_SourceEnabled : bool;
  ed_PayloadSHA256 : string;
  ed_Health : candidateHealthDecisionEvidence;
  ed_HasHealth : bool;
  ed_FailureGeneration : Z;
  ed_ActiveFailureGeneration : Z;
  ed_Probe : option CandidateProbeState;
  ed_FailureDomain : option FailureDomainState;
  ed_QoE : option QoE.State
}.

(** What the store uses of [encoding/json] and of its secret box: none is an
    error. *)
Class Vault : Type := {
  marshal_evidence : candidateEvidenceDigest -> option string;
  open_payload : string -> string -> option string
}.

Section Evidence.
Context `{Vault}.

Definition semanticDigest (e : CandidateRoutingEvidence) : StoreError + string :=
  let c := e_Candidate e in
  let h := default zero_health (e_Health e) in
  match marshal_evidence {|
    ed_Inventory := {| in_ID := c_ID c; in_SourceID := c_SourceID c; in_Kind := c_Kind c;
      in_Fingerprint := c_Fingerprint c; in_RouteKey := c_RouteKey c;
      in_FailureDomain := c_FailureDomain c; in_Enabled := c_Enabled c;
      in_Lifecycle := c_Lifecycle c |};
    ed_SourceEnabled := e_SourceEnabled e;
    ed_PayloadSHA256 := hex_encode (sha256 (bytes_of (e_Payload e)));
    ed_Health := {| hd_Score := hl_Score h; hd_TCPQualified := hl_TCPQualified h;
      hd_UDPQualified := hl_UDPQualified h; hd_Available := hl_Available h;
      hd_LatencyMS := hl_LatencyMS h; hd_ThroughputMbps := hl_ThroughputMbps h;
      hd_ActiveSuccess := hl_ActiveSuccess h; hd_ActiveCurrent := hl_ActiveCurrent h;
      hd_ActiveHardFailure := hl_ActiveHardFailure h |};
    ed_HasHealth := bool_decide (is_Some (e_Health e));
    ed_FailureGeneration := e_FailureGeneration e;
    ed_ActiveFailureGeneration := e_ActiveFailureGeneration e;
    ed_Probe := e_Probe e; ed_FailureDomain := e_FailureDomain e; ed_QoE := e_QoE e |} with
  | Some encoded => inr (hex_encode (sha256 (bytes_of encoded)))
  | None => inl DigestFailed
  end.

Definition timeFromUnix (seconds : Z) : Time :=
  if seconds =? 0 then zero_time else of_unix seconds.

Definition active_current (r : HealthRow) : bool :=
  bool_decide (is_Some (h_active_observed_at r)) && (0 <? h_active_applied_seq r) &&
  (h_failure_generation r =? h_active_failure_generation r).

Definition scan_health (id : string) (r : HealthRow) : CandidateHealth := {|
  hl_CandidateID := id; hl_Score := h_score r; hl_TCPQualified := h_tcp_qualified r;
  hl_UDPQualified := h_udp_qualified r; hl_Available := h_available r;
  hl_LatencyMS := h_latency_ms r; hl_ThroughputMbps := h_throughput_mbps r;
  hl_UpdatedAt := timeFromUnix (h_updated_at r);
  hl_ActiveObservedAt := match h_active_observed_at r with
                         | Some ms => of_unix_milli ms | None => zero_time end;
  hl_ActiveSuccess := h_active_success r; hl_ActiveCurrent := active_current r;
  hl_ActiveHardFailure := h_active_hard_failure r |}.

Definition scanCandidateProbeState (fingerprint : string) (r : ProbeRow) : CandidateProbeState := {|
  ps_Fingerprint := fingerprint; ps_CandidateID := pr_candidate_id r;
  ps_SourceID := pr_source_id r; ps_Status := pr_status r;
  ps_FailureStreak := pr_failure_streak r; ps_FullSuccessStreak := pr_full_success_streak r;
  ps_WindowStartedAt := nullable_time (pr_window_started_at r);
  ps_BannedUntil := nullable_time (pr_banned_until r);
  ps_LastFastProbeAt := nullable_time (pr_last_fast_probe_at r);
  ps_LastFullProbeAt := nullable_time (pr_last_full_probe_at r);
  ps_LastSuccessAt := nullable_time (pr_last_success_at r);
  ps_LastFailureAt := nullable_time (pr_last_failure_at r);
  ps_LastErrorCode := pr_last_error_code r; ps_LastErrorMessage := pr_last_error_message r;
  ps_LastScore := pr_last_score r; ps_ConservativeScore := pr_conservative_score r;
  ps_InWorkingPool := pr_in_working_pool r; ps_Draining := pr_draining r;
  ps_Stale := pr_stale r; ps_UpdatedAt := of_unix (pr_updated_at r) |}.

Definition scanFailureDomainState (domain : string) (r : FailureDomainRow) : FailureDomainState := {|
  fd_Domain := domain; fd_FailureCount := fr_failure_count r;
  fd_WindowStartedAt := timeFromUnix (fr_window_started_at r);
  fd_OpenUntil := timeFromUnix (fr_open_until r); fd_CanaryCandidate := fr_canary_candidate r;
  fd_UpdatedAt := timeFromUnix (fr_updated_at r) |}.

Definition health_row (d : Database) (id : string) : option HealthRow :=
  match candidate_health d !! id with
  | Some r => if h_placeholder r then None else Some r
  | None => None
  end.

(** The first probe row of a candidate. *)
Definition probe_row (d : Database) (id : string) : option (string * ProbeRow) :=
  List.find (fun '(_, r) => str_eqb (pr_candidate_id r) id && negb (pr_placeholder r))
    (map_to_list (candidate_probe_state d)).

Definition loadCandidateRoutingEvidenceStateTx (d : Database) (c : Candidate) (payload : string)
    (source_enabled : bool) : CandidateRoutingEvidence :=
  let row := health_row d (c_ID c) in
  let count (f : HealthRow -> Z) := from_option f 0 row in
  {| e_Candidate := c; e_Payload := payload; e_SourceEnabled := source_enabled;
     e_Health := scan_health (c_ID c) <$> row;
     e_ActiveResultSequence := count h_active_result_seq;
     e_ActiveAppliedSequence := count h_active_applied_seq;
     e_FailureGeneration := count h_failure_generation;
     e_ActiveFailureGeneration := count h_active_failure_generation;
     e_Probe := (fun '(f, r) => scanCandidateProbeState f r) <$> probe_row d (c_ID c);
     e_FailureDomain := if str_eqb (c_FailureDomain c) EmptyString then None
                        else scanFailureDomainState (c_FailureDomain c) <$>
                               failure_domain_state d !! c_FailureDomain c;
     e_QoE := candidate_qoe_state d !! c_ID c;
     e_Digest := EmptyString |}.

Definition with_digest (e : CandidateRoutingEvidence) :
    StoreError + CandidateRoutingEvidence :=
  match semanticDigest e with
  | inl err => inl err
  | inr digest => inr {| e_Candidate := e_Candidate e; e_Payload := e_Payload e;
      e_SourceEnabled := e_SourceEnabled e; e_Health := e_Health e;
      e_ActiveResultSequence := e_ActiveResultSequence e;
      e_ActiveAppliedSequence := e_ActiveAppliedSequence e;
      e_FailureGeneration := e_FailureGeneration e;
      e_ActiveFailureGeneration := e_ActiveFailureGeneration e; e_Probe := e_Probe e;
      e_FailureDomain := e_FailureDomain e; e_QoE := e_QoE e; e_Digest := digest |}
  end.

(** None: no such candidate ([sql.ErrNoRows]). *)
Definition loadCandidateRoutingEvidenceTx (d : Database) (id : string) :
    StoreError + option CandidateRoutingEvidence :=
  match candidates d !! id with
  | None => inr None
  | Some row =>
      match sources d !! c_SourceID (cr_candidate row) with
      | None => inr None
      | Some source =>
          match open_payload id (cr_encrypted row) with
          | None => inl (DecryptFailed id)
          | Some payload =>
              match with_digest (loadCandidateRoutingEvidenceStateTx d (cr_candidate row)
                                   payload (so_enabled source)) with
              | inl err => inl err
              | inr e => inr (Some e)
              end
          end
      end
  end.

(** [candidateIdentityCurrentTx] of candidate_state.go: the same candidate of the
    same source, both enabled, in one of the lifecycles. *)
Definition candidateIdentityCurrentTx (lifecycles : list string) (c : Candidate) : Tx bool :=
  check (negb (existsb (fun s => str_eqb s EmptyString) [c_ID c; c_SourceID c; c_Fingerprint c]))
    IdentityIncomplete ;;;
  get (fun d =>
    match candidates d !! c_ID c with
    | Some row =>
        let current := cr_candidate row in
        str_eqb (c_SourceID current) (c_SourceID c) &&
        str_eqb (c_Fingerprint current) (c_Fingerprint c) && c_Enabled current &&
        from_option so_enabled false (sources d !! c_SourceID current) &&
        existsb (str_eqb (c_Lifecycle current)) lifecycles
    | None => false
    end).

Definition candidateCurrentTx : Candidate -> Tx bool :=
  candidateIdentityCurrentTx [CandidateLifecycleActive].
Definition candidateRoutableTx : Candidate -> Tx bool :=
  candidateIdentityCurrentTx [CandidateLifecycleActive; CandidateLifecycleDraining].
End Evidence.

(** ** Persisted plans and snapshots

    What the store and the controller use of [encoding/json] on persisted plans:
    the strict decoder with nothing following, the lenient one, the projection on
    clients that reads who is dormant, and the assignment snapshot, whose decoder
    answers none inside for a null. *)
Class PlanCodec : Type := {
  decode_plan : string -> option DesiredPlan;
  unmarshal_plan : string -> option DesiredPlan;
  unmarshal_dormancy : string -> option (list (string * bool));
  marshal_assignments : list AssignmentRecord -> option string;
  decode_assignments : string -> option (option (list AssignmentRecord))
}.

(** ** Recurring steps *)

Lemma tx_check {E W : Type} (b : bool) (e : E) (w : W) :
  check b e w = if b then (inr tt, w) else (inl e, w).
Proof. by destruct b. Qed.

Lemma index_from_Some {A : Type} (key : A -> string) (l : list A) (m : gmap string A) k x :
  fold_left (fun m x => <[key x := x]> m) l m !! k = Some x ->
  (In x l /\ key x = k) \/ m !! k = Some x.
Proof.
  revert m. induction l as [|y l IH]; intros m; simpl; [auto|]. intros [H|H]%IH; [naive_solver|].
  apply lookup_insert_Some in H. naive_solver.
Qed.

Lemma index_by_Some {A : Type} (key : A -> string) (l : list A) k x :
  index_by key l !! k = Some x -> In x l /\ key x = k.
Proof. intros [H|H]%index_from_Some; [done|]. by rewrite lookup_empty in H. Qed.

Lemma index_from_is_Some {A : Type} (key : A -> string) (l : list A) (m : gmap string A) k :
  is_Some (m !! k) \/ In k (map key l) ->
  is_Some (fold_left (fun m x => <[key x := x]> m) l m !! k).
Proof.
  revert m. induction l as [|y l IH]; intros m; simpl; [naive_solver|]. intros H. apply IH.
  destruct (decide (key y = k)) as [<-|Hn]; [left; rewrite lookup_insert_eq; eauto|].
  rewrite lookup_insert_ne by done. naive_solver.
Qed.

Lemma index_by_is_Some {A : Type} (key : A -> string) (l : list A) k :
  is_Some (index_by key l !! k) <-> In k (map key l).
Proof.
  split; [|intros; apply index_from_is_Some; auto].
  intros [x [Hin <-]%index_by_Some]. by apply in_map.
Qed.

Lemma index_by_unique {A : Type} (key : A -> string) (l : list A) x :
  NoDup (map key l) -> In x l -> index_by key l !! key x = Some x.
Proof.
  intros Hnd Hin. destruct (proj2 (index_by_is_Some key l (key x)) (in_map key l x Hin)) as [y Hy].
  rewrite Hy. apply index_by_Some in Hy as [Hiny Hk]. f_equal.
  revert Hnd Hin Hiny. clear -Hk. induction l as [|z l IH]; [done|]. simpl.
  intros [Hn Hnd]%NoDup_cons. rewrite list_elem_of_In in Hn.
  intros [<-|Hin] [<-|Hiny]; [done| | |by apply IH].
  - exfalso. apply Hn. rewrite <- Hk. by apply in_map.
  - exfalso. apply Hn. rewrite Hk. by apply in_map.
Qed.

Lemma index_by_filter {A : Type} (key : A -> string) (l : list A) k :
  index_by key l !! k = last (filter (fun x => key x = k) l).
Proof.
  unfold index_by. induction l as [|x l IH] using rev_ind; [done|].
  rewrite fold_left_app, filter_app. cbn [fold_left]. rewrite filter_cons, filter_nil.
  destruct (decide (key x = k)) as [<-|Hn].
  - by rewrite lookup_insert_eq, last_snoc.
  - by rewrite lookup_insert_ne, IH, app_nil_r by done.
Qed.
