(* ===== verification/StoreLogic.v ===== *)
(** Reasoning about transactions of the store: what a body leaves when it returns,
    readings, and taking a run apart step by step. *)
From S2P Require Import Prelude Effects StoreTables.

#[local] Open Scope effect_scope.

(** ** Reasoning about transactions

    A failed transaction is rolled back, so of a body only what it leaves when it
    returns matters. *)

Definition returns {A : Type} (P : Database -> Prop) (m : Tx A) (Q : A -> Database -> Prop) : Prop :=
  triple P m Q (fun _ _ => True).

Lemma returns_bind {A B : Type} P (m : Tx A) (k : A -> Tx B) S Q :
  returns P m S -> (forall a, returns (S a) (k a) Q) -> returns P (bind m k) Q.
Proof. apply triple_bind. Qed.

Lemma returns_conseq {A : Type} (P P' : Database -> Prop) (m : Tx A) Q Q' :
  returns P' m Q' -> (forall d, P d -> P' d) -> (forall a d, Q' a d -> Q a d) -> returns P m Q.
Proof. intros. eapply triple_conseq; eauto. Qed.

Lemma returns_ret {A : Type} (P : Database -> Prop) (a : A) Q :
  (forall d, P d -> Q a d) -> returns P (ret a) Q.
Proof. intros HQ d Hd. by apply HQ. Qed.

Lemma returns_check P b e (k : Tx unit) : returns P (check b e) (fun _ d => P d /\ b = true).
Proof. intros d Hd. rewrite tx_check. by destruct b. Qed.

Lemma returns_required {A : Type} P (x : option A) e :
  returns P (required x e) (fun a d => P d /\ x = Some a).
Proof. intros d Hd. by destruct x. Qed.

Lemma returns_lift {A : Type} P (x : StoreError + A) :
  returns P (lift x) (fun a d => P d /\ x = inr a).
Proof. intros d Hd. by destruct x. Qed.

Lemma returns_get {A : Type} P (f : Database -> A) :
  returns P (get f) (fun a d => P d /\ a = f d).
Proof. by intros d Hd. Qed.

Lemma returns_raise {A : Type} P e Q : returns P (raise (A := A) e) Q.
Proof. by intros d Hd. Qed.

Lemma returns_if {A : Type} P (b : bool) (m n : Tx A) Q :
  (b = true -> returns P m Q) -> (b = false -> returns P n Q) -> returns P (if b then m else n) Q.
Proof. apply triple_if. Qed.

(** A reading: it leaves the database alone. *)
Definition steady {A : Type} (m : Tx A) : Prop := forall d, (m d).2 = d.

Lemma steady_returns {A : Type} P (m : Tx A) :
  steady m -> returns P m (fun a d => P d /\ m d = (inr a, d)).
Proof.
  intros Hm d Hd. specialize (Hm d). destruct (m d) as [[e|a] d'] eqn:E; simpl in Hm; [done|].
  subst d'. by split.
Qed.

Lemma steady_ret {A : Type} (a : A) : steady (ret a).
Proof. done. Qed.
Lemma steady_raise {A : Type} e : steady (raise (A := A) e).
Proof. done. Qed.
Lemma steady_get {A : Type} (f : Database -> A) : steady (get f).
Proof. done. Qed.
Lemma steady_check b e : steady (check b e).
Proof. by destruct b. Qed.
Lemma steady_required {A : Type} (x : option A) e : steady (required x e).
Proof. by destruct x. Qed.
Lemma steady_lift {A : Type} (x : StoreError + A) : steady (lift x).
Proof. by destruct x. Qed.
Lemma steady_bind {A B : Type} (m : Tx A) (k : A -> Tx B) :
  steady m -> (forall a, steady (k a)) -> steady (bind m k).
Proof.
  intros Hm Hk d. specialize (Hm d). unfold bind.
  destruct (m d) as [[e|a] d']; simpl in Hm; subst; [done|apply Hk].
Qed.
Lemma steady_if {A : Type} (b : bool) (m n : Tx A) :
  steady m -> steady n -> steady (if b then m else n).
Proof. by destruct b. Qed.
Lemma steady_foldM {A B : Type} (f : B -> A -> Tx B) b l :
  (forall b x, steady (f b x)) -> steady (foldM f b l).
Proof.
  intros Hf. revert b. induction l as [|x l IH]; intros b; cbn [foldM]; [done|].
  apply steady_bind; auto.
Qed.
#[export] Hint Resolve steady_ret steady_raise steady_get steady_check steady_required steady_lift
  : hydrat.

Ltac steady_step := lazymatch goal with
  | |- steady (bind _ _) => apply steady_bind
  | |- steady (if _ then _ else _) => apply steady_if
  | |- steady (foldM _ _ _) => apply steady_foldM
  | |- steady (match ?x with _ => _ end) => destruct x
  end.
Ltac steady := repeat first [progress intros|solve [auto with hydrat]|steady_step].

Lemma keeps_transaction {A : Type} (I : Database -> Prop) (o : Outcome) (body : Tx A) d :
  returns I body (fun _ => I) -> I d -> I (transaction o body d).2.
Proof.
  intros Hb Hd. specialize (Hb d Hd). unfold transaction.
  destruct o; [| |destruct (body d) as [[e|a] d']; done|destruct (body d) as [[e|a] d']; done];
    [destruct (body d) as [[e|a] d']; done|done].
Qed.

Lemma transaction_Commits {A : Type} (body : Tx A) d :
  transaction Commits body d = match body d with (inl e, _) => (inl e, d) | r => r end.
Proof. unfold transaction. by destruct (body d) as [[e|a] d']. Qed.

(** *** Inverting a run that returns *)

Lemma bind_inr {A B : Type} (m : Tx A) (k : A -> Tx B) d b d2 :
  bind m k d = (inr b, d2) -> exists a d1, m d = (inr a, d1) /\ k a d1 = (inr b, d2).
Proof. unfold bind. destruct (m d) as [[e|a] d1]; [done|]. eauto. Qed.

Lemma check_inr b (e : StoreError) (d : Database) (u : unit) d1 : check b e d = (inr u, d1) -> b = true /\ d1 = d.
Proof. rewrite tx_check. destruct b; [by intros [= _ ->]|done]. Qed.

Lemma required_inr {A : Type} (x : option A) (e : StoreError) (d : Database) a d1 :
  required x e d = (inr a, d1) -> x = Some a /\ d1 = d.
Proof. destruct x; [by intros [= -> ->]|done]. Qed.

Lemma lift_inr {A : Type} (x : StoreError + A) (d : Database) a d1 :
  lift x d = (inr a, d1) -> x = inr a /\ d1 = d.
Proof. destruct x; [done|by intros [= -> ->]]. Qed.

Lemma ret_inr {A : Type} (x : A) (d : Database) a d1 :
  @ret Database StoreError A x d = (inr a, d1) -> x = a /\ d1 = d.
Proof. by intros [= -> ->]. Qed.

Lemma get_inr {A : Type} (f : Database -> A) d a d1 :
  @get Database StoreError A f d = (inr a, d1) -> a = f d /\ d1 = d.
Proof. by intros [= -> ->]. Qed.

Lemma modify_inr (f : Database -> Database) d (u : unit) d1 :
  @modify Database StoreError f d = (inr u, d1) -> d1 = f d.
Proof. by intros [= _ ->]. Qed.

Lemma steady_inr {A : Type} (m : Tx A) d a d1 : steady m -> m d = (inr a, d1) -> d1 = d.
Proof. intros Hm E. specialize (Hm d). by rewrite E in Hm. Qed.

Lemma attempt_inr {E A B : Type} (m : E + A) (k : A -> E + B) b :
  attempt m k = inr b -> exists a, m = inr a /\ k a = inr b.
Proof. destruct m; simpl; [done|eauto]. Qed.

Ltac same_world E :=
  lazymatch type of E with ?d = ?d => clear E | ?d1 = _ => subst d1 end.

(** [run_in H] takes the first step of the run [H] apart. *)
Ltac run_in H :=
  lazymatch type of H with
  | bind _ _ _ = _ =>
      let a := fresh "a" in let d := fresh "d" in let H1 := fresh "Hrun" in
      apply bind_inr in H as (a & d & H1 & H); run_in H1
  | check _ _ _ = _ => let H1 := fresh "Hcheck" in let E := fresh in
      apply check_inr in H as [H1 E]; same_world E
  | required _ _ _ = _ => let H1 := fresh "Hget" in let E := fresh in
      apply required_inr in H as [H1 E]; same_world E
  | lift _ _ = _ => let H1 := fresh "Hget" in let E := fresh in
      apply lift_inr in H as [H1 E]; same_world E
  | ret _ _ = _ => let E := fresh in apply ret_inr in H as [<- E]; same_world E
  | get _ _ = _ => let E := fresh in apply get_inr in H as [-> E]; same_world E
  | modify _ _ = _ => apply modify_inr in H as ->
  | ?m ?d = (inr ?a, ?d1) =>
      try (let E := fresh in assert (d1 = d) as E
             by (apply (steady_inr m d a d1); [solve [auto with hydrat]|exact H]); subst d1)
  | _ => idtac
  end.
Ltac run_all H := repeat (progress run_in H).

(** ** What a transaction that returns has done to the database *)

Definition leaves {A : Type} (R : Database -> Database -> Prop) (m : Tx A) : Prop :=
  forall d a d', m d = (inr a, d') -> R d d'.

Section Leaves.
Context (R : Database -> Database -> Prop) `{!PreOrder R}.

Lemma leaves_steady {A : Type} (m : Tx A) : steady m -> leaves R m.
Proof. intros Hm d a d' Hr. rewrite (steady_inr m d a d' Hm Hr). reflexivity. Qed.

Lemma leaves_bind {A B : Type} (m : Tx A) (k : A -> Tx B) :
  leaves R m -> (forall a, leaves R (k a)) -> leaves R (bind m k).
Proof.
  intros Hm Hk d b d' Hr. apply bind_inr in Hr as (a & d1 & H1 & H2).
  transitivity d1; [by eapply Hm|by eapply Hk].
Qed.

Lemma leaves_modify f : (forall d, R d (f d)) -> leaves R (modify f).
Proof. intros Hf d a d' Hr. apply modify_inr in Hr as ->. apply Hf. Qed.

Lemma leaves_if {A : Type} (b : bool) (m n : Tx A) :
  leaves R m -> leaves R n -> leaves R (if b then m else n).
Proof. by destruct b. Qed.

Lemma leaves_foldM {A B : Type} (f : B -> A -> Tx B) b l :
  (forall b x, leaves R (f b x)) -> leaves R (foldM f b l).
Proof.
  intros Hf. revert b. induction l as [|x l IH]; intros b; cbn [foldM].
  - apply leaves_steady, steady_ret.
  - apply leaves_bind; auto.
Qed.

Lemma leaves_filterM {A : Type} (p : A -> Tx bool) l :
  (forall x, leaves R (p x)) -> leaves R (filterM p l).
Proof.
  intros Hp. induction l as [|x l IH]; cbn [filterM]; [apply leaves_steady, steady_ret|].
  apply leaves_bind; [auto|]. intros b. apply leaves_bind; [done|]. intros rest.
  apply leaves_steady, steady_ret.
Qed.
End Leaves.

Ltac leaves_step := lazymatch goal with
  | |- leaves _ (bind _ _) => apply leaves_bind; [typeclasses eauto|..]
  | |- leaves _ (if _ then _ else _) => apply leaves_if
  | |- leaves _ (foldM _ _ _) => apply leaves_foldM; [typeclasses eauto|..]
  | |- leaves _ (filterM _ _) => apply leaves_filterM; [typeclasses eauto|..]
  | |- leaves _ (modify _) => apply leaves_modify
  | |- leaves _ (match ?x with _ => _ end) => destruct x
  end.
Ltac leaves :=
  repeat first [progress intros|solve [auto with hydrat]|
                solve [apply leaves_steady; [typeclasses eauto|auto with hydrat]]|leaves_step].

(** ** What an operation leaves, whatever it answers *)

Definition lands {A : Type} (R : Database -> Database -> Prop) (m : Tx A) : Prop :=
  forall d, R d (m d).2.

Section Lands.
Context (R : Database -> Database -> Prop) `{!PreOrder R}.

Lemma lands_transaction {A : Type} o (m : Tx A) : leaves R m -> lands R (transaction o m).
Proof.
  intros Hm d. unfold transaction. destruct (m d) as [[e|a] d'] eqn:E; destruct o; simpl;
    try reflexivity; by eapply Hm.
Qed.
Lemma lands_steady {A B : Type} (m : Tx A) (k : A -> Tx B) :
  steady m -> (forall a, lands R (k a)) -> lands R (bind m k).
Proof.
  intros Hm Hk d. specialize (Hm d). unfold bind. destruct (m d) as [[e|a] d1]; simpl in *; subst;
    [reflexivity|apply Hk].
Qed.
Lemma lands_lift {A B : Type} (x : StoreError + A) (k : A -> Tx B) :
  (forall a, x = inr a -> lands R (k a)) -> lands R (bind (lift x) k).
Proof. intros Hk d. destruct x as [e|a]; [simpl; reflexivity|by apply Hk]. Qed.
Lemma lands_return {A B : Type} (m : Tx A) (g : A -> B) :
  lands R m -> lands R (bind m (fun a => ret (g a))).
Proof. intros Hm d. specialize (Hm d). unfold bind. by destruct (m d) as [[e|a] d1]. Qed.
Lemma lands_ret {A : Type} (a : A) : lands R (ret a).
Proof. intros d. reflexivity. Qed.
End Lands.

Ltac lands := repeat lazymatch goal with
  | |- lands _ (bind (transaction _ _) _) => apply lands_return
  | |- lands _ (bind (lift _) _) => apply lands_lift; [typeclasses eauto|intros]
  | |- lands _ (bind _ _) => apply lands_steady; [typeclasses eauto|solve [auto with hydrat]|intros]
  | |- lands _ (transaction _ _) => apply lands_transaction; [typeclasses eauto|]
  | |- lands _ (match ?x with _ => _ end) => destruct x
  | |- lands _ (ret _) => apply lands_ret; typeclasses eauto
  end.

(** ** Rows *)

Lemma alter_insert_Some {A : Type} (f : A -> A) (m : gmap string A) k x :
  m !! k = Some x -> alter f k m = <[k := f x]> m.
Proof.
  intros Hk. apply map_eq. intros j. destruct (decide (k = j)) as [<-|Hn].
  - by rewrite lookup_alter_eq, Hk, lookup_insert_eq.
  - by rewrite lookup_alter_ne, lookup_insert_ne.
Qed.

(** A failed operation whose commit is reported has changed nothing. *)
Definition clean {A : Type} (m : Tx A) : Prop := forall d e d', m d = (inl e, d') -> d' = d.

Lemma clean_transaction {A : Type} (m : Tx A) : clean (transaction Commits m).
Proof. intros d e d'. rewrite transaction_Commits. by destruct (m d) as [[e'|a] d1]; intros [= _ ->]. Qed.
Lemma clean_steady {A B : Type} (m : Tx A) (k : A -> Tx B) :
  steady m -> (forall a, clean (k a)) -> clean (bind m k).
Proof.
  intros Hm Hk d e d'. specialize (Hm d). unfold bind. destruct (m d) as [[e'|a] d1]; simpl in *; subst;
    [by intros [= _ ->]|apply Hk].
Qed.

Ltac clean := repeat lazymatch goal with
  | |- clean (transaction _ _) => apply clean_transaction
  | |- clean (bind _ _) => apply clean_steady; [solve [auto with hydrat]|intros]
  end.

(** ** Outcomes *)

Definition durable (o : Outcome) : bool :=
  match o with Commits | CommitUnreported => true | _ => false end.

Lemma transaction_db {A : Type} o (body : Tx A) d :
  (transaction o body d).2 = if durable o then (transaction Commits body d).2 else d.
Proof. unfold transaction. destruct o; simpl; destruct (body d) as [[e|a] d']; done. Qed.

(** A transaction leaves what its body leaves, or nothing. *)
Lemma transaction_cases {A : Type} o (m : Tx A) d :
  (transaction o m d).2 = d \/ exists a d', m d = (inr a, d') /\ (transaction o m d).2 = d'.
Proof.
  unfold transaction. destruct (m d) as [[e|a] d']; destruct o; simpl; eauto.
Qed.

Lemma check_cases {A : Type} b e (m : Tx A) d :
  ((check b e ;;; m) d).2 = d \/ b = true /\ ((check b e ;;; m) d).2 = (m d).2.
Proof. destruct b; [by right|by left]. Qed.

Lemma transaction_inr {A : Type} o (m : Tx A) d a d' :
  transaction o m d = (inr a, d') -> m d = (inr a, d').
Proof. unfold transaction. destruct (m d) as [[e|x] d1]; by destruct o. Qed.
