(* ===== verification/StoreSample.v ===== *)
(** A small database to evaluate the store on: one client, two candidates of one
    source, plans named by their generation, and one assignment snapshot. *)
From Stdlib Require Import Floats.
From S2P Require Import Prelude Effects GoOrder GoStrings GoSort QoE DataPlan Handlers StoreTables.

#[local] Open Scope Z_scope.

#[export] Instance AssignmentRecord_eq_dec : EqDecision AssignmentRecord.
Proof. solve_decision. Defined.

(** The client goes over [cand_a], with [cand_b] in reserve on both transports;
    after a failure it goes over [cand_b]. *)
Definition stored_route : ClientRoute := {|
  Dormant := false; ClientID := "alice"; SourceCIDR := "10.44.0.2/32";
  TCPOutbound := "cand_a"; UDPOutbound := "cand_a"; DNSOutbound := "dns-a";
  TCPReserveOutbound := "cand_b"; UDPReserveOutbound := "cand_b";
  BlockTCP := false; BlockUDP := false |}.

Definition moved_route : ClientRoute := {|
  Dormant := false; ClientID := "alice"; SourceCIDR := "10.44.0.2/32";
  TCPOutbound := "cand_b"; UDPOutbound := "cand_b"; DNSOutbound := "dns-b";
  TCPReserveOutbound := EmptyString; UDPReserveOutbound := EmptyString;
  BlockTCP := false; BlockUDP := false |}.

(** Plans of even generations are those after a failure. *)
Definition stored_plan (generation : Z) : DesiredPlan := {|
  Generation := generation;
  Outbounds := [sample_outbound "cand_a"; sample_outbound "cand_b"; sample_dns "dns-a" "cand_a";
                sample_dns "dns-b" "cand_b"];
  Clients := [if Z.even generation then moved_route else stored_route];
  DirectSuffixes := [".ru"%string]; DirectDomains := []; FailClosed := true |}.

Definition stored_source : SourceRow :=
  {| so_kind := KindVLESS; so_label := "source"; so_fingerprint := "fp"; so_encrypted := "vless://";
     so_enabled := true; so_pending_delete := false; so_created_at := 0; so_updated_at := 0;
     so_last_refresh_at := None; so_last_refresh_error := EmptyString; so_candidate_count := 2 |}.

Definition stored_bytes (generation : Z) : string := ("plan:" ++ decimal generation)%string.

Definition assignments_to (candidate : string) : list AssignmentRecord := [{|
  as_ClientID := "alice"; as_TCPOutbound := candidate; as_UDPOutbound := candidate;
  as_TCPSince := of_unix 100; as_UDPSince := of_unix 100; as_UpdatedAt := of_unix 100 |}].

Definition stored_assignments : list AssignmentRecord := assignments_to "cand_a".
Definition moved_assignments : list AssignmentRecord := assignments_to "cand_b".

Definition decode_stored (s : string) : option DesiredPlan :=
  match cut "plan:" s with
  | Some (_, digits) => stored_plan <$> parse_uint 62 digits
  | None => None
  end.

#[export] Instance stored_codec : PlanCodec := {|
  decode_plan := decode_stored;
  unmarshal_plan := decode_stored;
  unmarshal_dormancy := fun s => (fun p => map (fun r => (ClientID r, Dormant r)) (Clients p)) <$>
                                   decode_stored s;
  marshal_assignments := fun l =>
    if decide (l = stored_assignments) then Some "snapshot"%string
    else if decide (l = moved_assignments) then Some "moved"%string else None;
  decode_assignments := fun s =>
    if str_eqb s "snapshot" then Some (Some stored_assignments)
    else if str_eqb s "moved" then Some (Some moved_assignments) else None
|}.

#[export] Instance open_vault : Vault := {|
  marshal_evidence := fun _ => Some "evidence"%string;
  open_payload := fun _ encrypted => Some encrypted
|}.

Definition stored_candidate (id : string) : Candidate := {|
  c_ID := id; c_SourceID := "s"; c_Kind := KindVLESS; c_Label := id;
  c_Fingerprint := ("fp-" ++ id)%string; c_RouteKey := id; c_FailureDomain := id;
  c_Enabled := true; c_SourcePosition := 0; c_Lifecycle := CandidateLifecycleActive;
  c_RetiredAt := None; c_DrainAfter := None; c_CreatedAt := 0; c_UpdatedAt := 0 |}.

Definition stored_health (failed : bool) : HealthRow := {|
  h_score := 0.9; h_tcp_qualified := true; h_udp_qualified := true; h_available := negb failed;
  h_latency_ms := 40; h_throughput_mbps := 20; h_updated_at := 50;
  h_active_observed_at := Some 50000; h_active_success := negb failed; h_active_result_seq := 2;
  h_active_applied_seq := 2; h_failure_generation := 1; h_active_failure_generation := 1;
  h_active_hard_failure := failed; h_full_result_seq := 1; h_full_applied_seq := 1;
  h_placeholder := false |}.

Definition stored_row (id : string) : CandidateRow :=
  {| cr_candidate := stored_candidate id; cr_encrypted := "vless://" |}.

Definition stored_client : ClientRow := {|
  cl_name := "Alice"; cl_address := "10.44.0.2/32"; cl_public_key := "key";
  cl_encrypted_config := "sealed"; cl_paused := false; cl_created_at := 10; cl_updated_at := 10;
  cl_last_traffic_at := Some 90; cl_activity_seen := true; cl_rx_bytes := 1; cl_tx_bytes := 1;
  cl_latest_handshake := Some 80 |}.

Definition stored_mapping : RouteReserveMapping := {|
  rm_ClientID := "alice"; TCPPrimaryCandidateID := "cand_a"; TCPReserveCandidateID := "cand_b";
  UDPPrimaryCandidateID := "cand_a"; UDPReserveCandidateID := "cand_b" |}.

(** The first plan is applied; the health of [cand_a] is given. *)
Definition stored_database (failed : bool) : Database := {|
  plan_state := {| desired_generation := 1; applied_generation := 1; invalidated_generation := 0;
    desired_reason := "periodic"; desired_plan := Some (stored_bytes 1);
    applied_plan := Some (stored_bytes 1); desired_assignments_generation := 1;
    desired_assignments := Some "snapshot"%string |};
  desired_reserves := {["alice"%string := (1, stored_mapping)]};
  applied_reserves := {["alice"%string := (1, stored_mapping)]};
  assignments := {["alice"%string := {| ar_tcp_outbound := "cand_a"; ar_udp_outbound := "cand_a";
    ar_tcp_since := 100; ar_udp_since := 100; ar_updated_at := 100 |}]};
  clients := {["alice"%string := stored_client]};
  route_recovery := ∅; events := [];
  candidates := {["cand_a"%string := stored_row "cand_a"; "cand_b"%string := stored_row "cand_b"]};
  sources := {["s"%string := stored_source]};
  candidate_health := {["cand_a"%string := stored_health failed]};
  candidate_probe_state := ∅; probe_samples := []; failure_domain_state := ∅;
  failure_domain_evidence := ∅; candidate_qoe_state := ∅;
  inventory_epoch := 0 |}.

