(* ===== verification/RouteRecovery.v ===== *)
(** The debt of confirmed route failures (store/route_recovery.go): a failure of
    a primary that is applied for a client is owed a replacement until the route,
    the client or the candidate changes, or the candidate is seen healthy. *)
From Stdlib Require Import Floats.
From S2P Require Import Prelude Effects GoOrder GoStrings GoSort QoE DataPlan Gateway Handlers StoreTables StoreSample.

#[local] Open Scope Z_scope.
#[local] Open Scope effect_scope.

Section Ledger.
Context `{PlanCodec}.

Definition appliedRecoveryPlanTx : Tx DesiredPlan :=
  p <- get plan_state ;;
  if applied_generation p =? 0 then ret zero_plan
  else
    plan <- required (unmarshal_plan (default EmptyString (applied_plan p))) RecoveryPlanInvalid ;;
    check (Generation plan =? applied_generation p) RecoveryPlanInvalid ;;;
    ret plan.

Definition outbound_of (t : RouteTransport) (r : ClientRoute) : string :=
  match t with RouteTransportTCP => TCPOutbound r | RouteTransportUDP => UDPOutbound r end.
Definition blocked_of (t : RouteTransport) (r : ClientRoute) : bool :=
  match t with RouteTransportTCP => BlockTCP r | RouteTransportUDP => BlockUDP r end.

(** The statement inserts nothing when the client is gone, paused or moved, or
    the candidate has no health row. *)
Definition record_debt (candidate : Candidate) (at_ : Time) (generation : Z) (route : ClientRoute)
    (t : RouteTransport) (d : Database) : Database :=
  match clients d !! ClientID route, candidate_health d !! c_ID candidate with
  | Some client, Some h =>
      if negb (cl_paused client) && str_eqb (cl_address client) (SourceCIDR route)
      then d <| route_recovery := <[(ClientID route, t) := {|
             de_ClientID := ClientID route; de_Transport := t; de_SourceCIDR := SourceCIDR route;
             de_ClientKey := cl_public_key client; de_FailedOutbound := outbound_of t route;
             de_CandidateID := c_ID candidate; de_Fingerprint := c_Fingerprint candidate;
             de_FailureGeneration := h_failure_generation h; de_AppliedGeneration := generation;
             de_ConfirmedAt := time_unix_milli at_ |}]> (route_recovery d) |>
      else d
  | _, _ => d
  end.

Definition record_transport (candidate : Candidate) (at_ : Time) (generation : Z)
    (route : ClientRoute) (t : RouteTransport) : Tx unit :=
  if blocked_of t route ||
     negb (str_eqb (recoveryCandidateID (outbound_of t route)) (c_ID candidate))
  then ret tt else modify (record_debt candidate at_ generation route t).

Definition recordRouteRecoveriesTx (candidate : Candidate) (at_ : Time) : Tx unit :=
  plan <- appliedRecoveryPlanTx ;;
  forM (Clients plan) (fun route =>
    if Dormant route then ret tt
    else forM [RouteTransportTCP; RouteTransportUDP]
           (record_transport candidate at_ (Generation plan) route)).

Definition qualified_for (t : RouteTransport) (h : HealthRow) : bool :=
  match t with RouteTransportTCP => h_tcp_qualified h | RouteTransportUDP => h_udp_qualified h end.

(** Accepted evidence of health for a transport. *)
Definition recovered (t : RouteTransport) (h : HealthRow) : bool :=
  h_available h && negb (h_active_hard_failure h) && h_active_success h && qualified_for t h.

Definition clearRecoveredRouteDebtTx (candidate : Candidate) : Tx unit :=
  modify (fun d => d <| route_recovery := filter (fun '(_, debt) =>
    (str_eqb (de_CandidateID debt) (c_ID candidate) &&
     str_eqb (de_Fingerprint debt) (c_Fingerprint candidate) &&
     from_option (recovered (de_Transport debt)) false
       (candidate_health d !! de_CandidateID debt)) = false) (route_recovery d) |>).

(** [obsolete] of one row, with the columns of the joined rows. *)
Definition obsolete (d : Database) (plan : DesiredPlan) (routes : gmap string ClientRoute)
    (debt : RouteRecovery) : bool :=
  match clients d !! de_ClientID debt with
  | None => false
  | Some client =>
      let candidate := cr_candidate <$> candidates d !! de_CandidateID debt in
      let enabled := from_option c_Enabled false candidate in
      let source_enabled := from_option so_enabled false
        (c ← candidate; sources d !! c_SourceID c) in
      let fingerprint := from_option c_Fingerprint EmptyString candidate in
      let healthy := from_option (recovered (de_Transport debt)) false
        (candidate_health d !! de_CandidateID debt) in
      match routes !! de_ClientID debt with
      | None => true
      | Some route =>
          negb enabled || negb source_enabled ||
          (Generation plan <? de_AppliedGeneration debt) || Dormant route || cl_paused client ||
          blocked_of (de_Transport debt) route ||
          negb (str_eqb (cl_public_key client) (de_ClientKey debt)) ||
          negb (str_eqb (cl_address client) (de_SourceCIDR debt)) ||
          negb (str_eqb (SourceCIDR route) (de_SourceCIDR debt)) ||
          negb (str_eqb (outbound_of (de_Transport debt) route) (de_FailedOutbound debt)) ||
          negb (str_eqb fingerprint (de_Fingerprint debt)) || healthy
      end
  end.

Definition debt_less (a b : RouteRecovery) : bool :=
  if str_eqb (de_ClientID a) (de_ClientID b)
  then match de_Transport a, de_Transport b with
       | RouteTransportTCP, RouteTransportUDP => true | _, _ => false end
  else str_ltb (de_ClientID a) (de_ClientID b).

Definition joined_debts (d : Database) : list RouteRecovery :=
  sort_slice debt_less (List.filter (fun debt => bool_decide (is_Some (clients d !! de_ClientID debt)))
    (map snd (map_to_list (route_recovery d)))).

Definition pendingRouteRecoveriesTx : Tx (list RouteRecovery) :=
  debts <- get route_recovery ;;
  if bool_decide (debts = ∅) then ret []
  else
    plan <- appliedRecoveryPlanTx ;;
    d <- get id ;;
    let routes := index_by ClientID (Clients plan) in
    let rows := joined_debts d in
    forM (List.filter (obsolete d plan routes) rows) (fun debt =>
      modify (fun d => d <| route_recovery :=
        delete (de_ClientID debt, de_Transport debt) (route_recovery d) |>)) ;;;
    ret (List.filter (fun debt => negb (obsolete d plan routes debt)) rows).

Definition PendingRouteRecoveries (o : Outcome) : Tx (list RouteRecovery) :=
  transaction o pendingRouteRecoveriesTx.
End Ledger.

(** ** The ledger is exact *)

Section Exactness.
Context `{PlanCodec}.

(** Every row lies under its key and, as the foreign key demands, has a client. *)
Definition ledger_ok (d : Database) : Prop :=
  forall k debt, route_recovery d !! k = Some debt ->
    k = (de_ClientID debt, de_Transport debt) /\ is_Some (clients d !! de_ClientID debt).

(** Why a failure is still owed a replacement. *)
Record owed (d : Database) (plan : DesiredPlan) (debt : RouteRecovery) : Prop := {
  owed_client : exists c, clients d !! de_ClientID debt = Some c /\ cl_paused c = false /\
    cl_address c = de_SourceCIDR debt /\ cl_public_key c = de_ClientKey debt;
  owed_route : exists r, index_by ClientID (Clients plan) !! de_ClientID debt = Some r /\
    Dormant r = false /\ blocked_of (de_Transport debt) r = false /\
    SourceCIDR r = de_SourceCIDR debt /\ outbound_of (de_Transport debt) r = de_FailedOutbound debt;
  owed_plan : de_AppliedGeneration debt <= Generation plan;
  owed_candidate : exists row source, candidates d !! de_CandidateID debt = Some row /\
    c_Enabled (cr_candidate row) = true /\
    c_Fingerprint (cr_candidate row) = de_Fingerprint debt /\
    sources d !! c_SourceID (cr_candidate row) = Some source /\ so_enabled source = true;
  owed_sick : from_option (recovered (de_Transport debt)) false
    (candidate_health d !! de_CandidateID debt) = false
}.

Lemma obsolete_spec d plan debt : is_Some (clients d !! de_ClientID debt) ->
  obsolete d plan (index_by ClientID (Clients plan)) debt = false <-> owed d plan debt.
Proof.
  intros [c Hc]. unfold obsolete. rewrite Hc. split.
  - destruct (index_by _ _ !! _) as [r|] eqn:Er; [|done]. rewrite !orb_false_iff, !negb_false_iff.
    intros H0. destruct_and! H0. str_bool. z_bool.
    destruct (candidates d !! de_CandidateID debt) as [row|] eqn:Erow; [|done]. simpl in *.
    destruct (sources d !! c_SourceID (cr_candidate row)) as [source|] eqn:Es; [|done].
    split; [by exists c|by exists r|done|by exists row, source|done].
  - intros [(c' & Hc' & Hp & Ha & Hk) (r & -> & Hd & Hb & Hs & Ho) Hg
      (row & source & Hrow & He & Hf & Hso & Hse) Hh].
    simplify_eq. rewrite Hrow. simpl. rewrite Hso. simpl. rewrite He, Hse, Hd, Hp, Hb, Hk, Ha, Hs,
      Ho, Hf, Hh, !str_eqb_refl. simpl. rewrite !orb_false_r. z_bool. done.
Qed.

Definition drop_debt (d : Database) (debt : RouteRecovery) : Database :=
  d <| route_recovery := delete (de_ClientID debt, de_Transport debt) (route_recovery d) |>.

Definition debt_key (debt : RouteRecovery) : string * RouteTransport :=
  (de_ClientID debt, de_Transport debt).

Lemma drop_debts l d :
  fold_left drop_debt l d =
  d <| route_recovery := filter (fun '(k, _) => k ∉ map debt_key l) (route_recovery d) |>.
Proof.
  assert (forall l d k, route_recovery (fold_left drop_debt l d) !! k =
    if decide (k ∈ map debt_key l) then None else route_recovery d !! k) as Hk.
  { clear. induction l as [|x l IH]; intros d k; cbn [fold_left map];
      [by rewrite decide_False by apply not_elem_of_nil|].
    rewrite IH. destruct (decide (k ∈ map debt_key l)) as [Hin|Hn].
    - by rewrite decide_True by (right; done).
    - destruct (decide (k = debt_key x)) as [->|Hx].
      + rewrite decide_True by left. apply lookup_delete_eq.
      + rewrite decide_False by (rewrite elem_of_cons; naive_solver). by apply lookup_delete_ne. }
  assert (forall l d, fold_left drop_debt l d =
    d <| route_recovery := route_recovery (fold_left drop_debt l d) |>) as Hs.
  { clear. induction l as [|x l IH]; intros d; cbn [fold_left]; [by destruct d|].
    rewrite IH at 1. by destruct d. }
  rewrite Hs. destruct d as [? ? ? ? ? debts]. unfold set_field. simpl. f_equal.
  apply map_eq. intros k. rewrite Hk. simpl. apply option_eq. intros debt.
  rewrite map_lookup_filter_Some. destruct (decide _); naive_solver.
Qed.

Lemma joined_debts_In d debt : ledger_ok d ->
  In debt (joined_debts d) <-> route_recovery d !! debt_key debt = Some debt.
Proof.
  intros Hok. unfold joined_debts. rewrite sort_slice_In, filter_In, in_map_iff. split.
  - intros [([k x] & Hx & Hin) _]. simpl in Hx. subst.
    apply list_elem_of_In, elem_of_map_to_list in Hin. by destruct (Hok _ _ Hin) as [-> _].
  - intros Hl. destruct (Hok _ _ Hl) as [_ Hc]. rewrite bool_decide_true by done.
    split; [|done]. exists (debt_key debt, debt). split; [done|].
    by apply list_elem_of_In, elem_of_map_to_list.
Qed.

(** What [PendingRouteRecoveries] answers and leaves. *)
Lemma pending_spec d plan : ledger_ok d -> appliedRecoveryPlanTx d = (inr plan, d) ->
  exists debts, pendingRouteRecoveriesTx d =
    (inr debts, d <| route_recovery := filter (fun '(_, debt) =>
       obsolete d plan (index_by ClientID (Clients plan)) debt = false) (route_recovery d) |>) /\
  forall debt, In debt debts <-> route_recovery d !! debt_key debt = Some debt /\ owed d plan debt.
Proof.
  intros Hok Hplan. unfold pendingRouteRecoveriesTx, bind. cbn [get].
  destruct (bool_decide_reflect (route_recovery d = ∅)) as [He|Hne].
  - exists []. split.
    + unfold ret. f_equal. rewrite He. destruct d; simpl in He; subst. unfold set_field; simpl.
      by rewrite map_filter_empty.
    + intros debt. rewrite He, lookup_empty. naive_solver.
  - rewrite Hplan. set (routes := index_by ClientID (Clients plan)). cbn [get id].
    rewrite (run_forM_pure _ drop_debt) by done.
    eexists. split; [unfold ret; do 2 f_equal|].
    + rewrite drop_debts. destruct d as [? ? ? ? ? debts] eqn:Ed. unfold set_field. simpl. f_equal.
      rewrite <- Ed in *. apply map_filter_ext. intros k debt Hl.
      assert (route_recovery d !! k = Some debt) as Hd by by rewrite Ed.
      destruct (Hok _ _ Hd) as [-> _]. fold (debt_key debt) in Hd |- *. split.
      * intros Hn. apply not_true_iff_false. intros Ho. apply Hn, list_elem_of_In, in_map_iff.
        exists debt. split; [done|]. by apply filter_In; rewrite joined_debts_In.
      * intros Ho Hin. apply list_elem_of_In, in_map_iff in Hin as (x & Hx & Hin).
        apply filter_In in Hin as [Hin Hox]. apply joined_debts_In in Hin; [|done]. congruence.
    + intros debt. rewrite filter_In, negb_true_iff, joined_debts_In by done.
      split; (intros [Hl Ho]; split; [done|]); destruct (Hok _ _ Hl) as [_ Hc];
        by apply (obsolete_spec d plan debt Hc).
Qed.

Lemma appliedRecoveryPlanTx_same d : (appliedRecoveryPlanTx d).2 = d.
Proof.
  unfold appliedRecoveryPlanTx, bind, get, required, check, ret, raise.
  destruct (_ =? 0); [done|]. destruct (unmarshal_plan _); [|done]. by destruct (_ =? _).
Qed.

(** *** Recording *)

Definition affected (candidate : Candidate) (t : RouteTransport) (route : ClientRoute) : bool :=
  negb (Dormant route) && negb (blocked_of t route) &&
  str_eqb (recoveryCandidateID (outbound_of t route)) (c_ID candidate).

Definition record_step (candidate : Candidate) (at_ : Time) (generation : Z) (d : Database)
    (route : ClientRoute) : Database :=
  fold_left (fun d t => if affected candidate t route
                        then record_debt candidate at_ generation route t d else d)
    [RouteTransportTCP; RouteTransportUDP] d.

Lemma record_run candidate at_ d plan : appliedRecoveryPlanTx d = (inr plan, d) ->
  recordRouteRecoveriesTx candidate at_ d =
    (inr tt, fold_left (record_step candidate at_ (Generation plan)) (Clients plan) d).
Proof.
  intros Hp. unfold recordRouteRecoveriesTx, bind. rewrite Hp. apply run_forM_pure.
  intros route w. unfold record_step, affected. destruct (Dormant route); [done|].
  apply run_forM_pure. intros t w'. unfold record_transport, modify, ret. cbn [negb andb].
  destruct (blocked_of t route), (str_eqb _ _); done.
Qed.

(** Recording changes the ledger only. *)
Lemma record_debt_frame candidate at_ g route t d :
  record_debt candidate at_ g route t d =
    d <| route_recovery := route_recovery (record_debt candidate at_ g route t d) |>.
Proof.
  unfold record_debt. destruct (clients d !! ClientID route), (candidate_health d !! c_ID candidate); try (by destruct d).
  destruct (_ && _); by destruct d.
Qed.

Lemma record_step_frame candidate at_ g l d :
  fold_left (record_step candidate at_ g) l d =
    d <| route_recovery := route_recovery (fold_left (record_step candidate at_ g) l d) |>.
Proof.
  revert d. induction l as [|r l IH]; intros d; cbn [fold_left]; [by destruct d|]. rewrite IH.
  assert (record_step candidate at_ g d r =
    d <| route_recovery := route_recovery (record_step candidate at_ g d r) |>) as ->.
  { unfold record_step. cbn [fold_left]. destruct (affected _ RouteTransportTCP r);
      destruct (affected _ RouteTransportUDP r); try (by destruct d);
      [|apply record_debt_frame..].
    rewrite record_debt_frame. rewrite (record_debt_frame _ _ _ _ RouteTransportTCP d) at 1.
    by destruct d. }
  by destruct d.
Qed.

Lemma recoveries_frame candidate at_ d u d' :
  recordRouteRecoveriesTx candidate at_ d = (inr u, d') ->
  d' = d <| route_recovery := route_recovery d' |>.
Proof.
  intros Hr. assert (exists plan, appliedRecoveryPlanTx d = (inr plan, d)) as [plan Hp].
  { pose proof (appliedRecoveryPlanTx_same d) as Hs. unfold recordRouteRecoveriesTx, bind in Hr.
    destruct (appliedRecoveryPlanTx d) as [[e|plan] d1]; [done|]. simpl in Hs. subst. by exists plan. }
  rewrite (record_run _ _ _ _ Hp) in Hr. injection Hr as _ <-. apply record_step_frame.
Qed.

Lemma record_debt_ok candidate at_ g route t d :
  ledger_ok d -> ledger_ok (record_debt candidate at_ g route t d).
Proof.
  intros Hok. unfold record_debt. destruct (clients d !! ClientID route) as [c|] eqn:Ec; [|done].
  destruct (candidate_health d !! c_ID candidate); [|done]. destruct (_ && _); [|done]. intros k debt.
  destruct d; simpl in *. intros [[<- <-]|[_ Hl]]%lookup_insert_Some; [by eauto|by apply Hok].
Qed.

Lemma record_step_ok candidate at_ g l d :
  ledger_ok d -> ledger_ok (fold_left (record_step candidate at_ g) l d).
Proof.
  revert d. induction l as [|r l IH]; intros d Hok; cbn [fold_left]; [done|]. apply IH.
  unfold record_step. cbn [fold_left]. destruct (affected _ RouteTransportTCP r);
    destruct (affected _ RouteTransportUDP r); auto using record_debt_ok.
Qed.

Lemma record_debt_other candidate at_ g route t d k : k <> (ClientID route, t) ->
  route_recovery (record_debt candidate at_ g route t d) !! k = route_recovery d !! k.
Proof.
  intros Hk. unfold record_debt. destruct (clients d !! ClientID route), (candidate_health d !! c_ID candidate); try done.
  destruct (_ && _); [|done]. destruct d; simpl. by apply lookup_insert_ne.
Qed.

Lemma record_step_other candidate at_ g l d client t :
  ~ In client (map ClientID l) ->
  route_recovery (fold_left (record_step candidate at_ g) l d) !! (client, t) =
    route_recovery d !! (client, t).
Proof.
  revert d. induction l as [|r l IH]; intros d; cbn [fold_left map]; [done|]. intros Hn.
  rewrite IH by (intros Hin; apply Hn; by right).
  assert (forall t', (client, t) <> (ClientID r, t')) as Hk
    by (intros t' [= -> _]; apply Hn; by left).
  unfold record_step. cbn [fold_left]. destruct (affected _ RouteTransportTCP r);
    destruct (affected _ RouteTransportUDP r); by rewrite ?record_debt_other by done.
Qed.

Lemma record_debt_lookup candidate at_ g route t d c h :
  clients d !! ClientID route = Some c -> cl_paused c = false ->
  cl_address c = SourceCIDR route -> candidate_health d !! c_ID candidate = Some h ->
  exists debt, route_recovery (record_debt candidate at_ g route t d) !! (ClientID route, t) =
      Some debt /\
    de_ClientID debt = ClientID route /\ de_Transport debt = t /\
    de_SourceCIDR debt = SourceCIDR route /\ de_ClientKey debt = cl_public_key c /\
    de_FailedOutbound debt = outbound_of t route /\ de_CandidateID debt = c_ID candidate /\
    de_Fingerprint debt = c_Fingerprint candidate /\ de_AppliedGeneration debt = g.
Proof.
  intros Hc Hp Ha Hh. unfold record_debt. rewrite Hc, Hh, Hp, Ha, str_eqb_refl.
  destruct d; simpl in *. rewrite lookup_insert_eq. eexists. split; [reflexivity|done].
Qed.

Lemma record_step_here candidate at_ g d route t c h :
  affected candidate t route = true ->
  clients d !! ClientID route = Some c -> cl_paused c = false ->
  cl_address c = SourceCIDR route -> candidate_health d !! c_ID candidate = Some h ->
  exists d0, clients d0 = clients d /\ candidate_health d0 = candidate_health d /\
    route_recovery (record_step candidate at_ g d route) !! (ClientID route, t) =
      route_recovery (record_debt candidate at_ g route t d0) !! (ClientID route, t).
Proof.
  intros Haff Hc Hp Ha Hh. unfold record_step. cbn [fold_left]. destruct t; rewrite Haff.
  - exists d. split_and!; [done..|]. destruct (affected _ RouteTransportUDP route); [|done].
    by apply record_debt_other.
  - eexists (if affected candidate RouteTransportTCP route
             then record_debt candidate at_ g route RouteTransportTCP d else d).
    destruct (affected _ RouteTransportTCP route); [|done].
    rewrite (record_debt_frame candidate at_ g route RouteTransportTCP d). by destruct d.
Qed.

Lemma record_step_tables candidate at_ g d route :
  clients (record_step candidate at_ g d route) = clients d /\
  candidate_health (record_step candidate at_ g d route) = candidate_health d.
Proof.
  pose proof (record_step_frame candidate at_ g [route] d) as Hf. cbn [fold_left] in Hf.
  rewrite Hf. by destruct d.
Qed.

Lemma record_here candidate at_ g l d route t c h :
  NoDup (map ClientID l) -> In route l -> affected candidate t route = true ->
  clients d !! ClientID route = Some c -> cl_paused c = false ->
  cl_address c = SourceCIDR route -> candidate_health d !! c_ID candidate = Some h ->
  exists d0, clients d0 = clients d /\ candidate_health d0 = candidate_health d /\
    route_recovery (fold_left (record_step candidate at_ g) l d) !! (ClientID route, t) =
      route_recovery (record_debt candidate at_ g route t d0) !! (ClientID route, t).
Proof.
  revert d. induction l as [|r l IH]; intros d; [done|]. cbn [map fold_left In].
  intros [Hn Hnd]%NoDup_cons Hin Haff Hc Hp Ha Hh. rewrite list_elem_of_In in Hn.
  destruct Hin as [->|Hin].
  - rewrite record_step_other by done. by eapply record_step_here.
  - destruct (record_step_tables candidate at_ g d r) as [E1 E2]. rewrite <- E1, <- E2 in *.
    by apply IH.
Qed.

(** The ledger forgives nothing by itself.  Reading it answers exactly the
    rows that are still owed: the client is there, unpaused, with the same address
    and key; the applied plan, not older than the debt, still routes it over the
    failed outbound from that address; the candidate and its source are enabled and
    unchanged; and no accepted evidence shows the transport healthy.  It deletes
    exactly the others; and if the transaction is interrupted or its commit lost, no
    row that is owed has gone.  Age alone never clears a debt. *)
Theorem pending_recoveries_exact d plan o :
  ledger_ok d -> appliedRecoveryPlanTx d = (inr plan, d) ->
  match PendingRouteRecoveries o d with
  | (inr debts, d') =>
      (forall debt, In debt debts <->
         route_recovery d !! debt_key debt = Some debt /\ owed d plan debt) /\
      (forall k debt, route_recovery d' !! k = Some debt <-> k = debt_key debt /\ In debt debts) /\
      d' = d <| route_recovery := route_recovery d' |>
  | (inl _, d') => o <> Commits /\ forall debt, owed d plan debt ->
      route_recovery d !! debt_key debt = Some debt -> route_recovery d' !! debt_key debt = Some debt
  end.
Proof.
  intros Hok Hplan. destruct (pending_spec d plan Hok Hplan) as (debts & Hrun & Hin).
  unfold PendingRouteRecoveries, transaction. rewrite Hrun.
  destruct o; cbn beta iota; [|split; [done|auto]..|].
  - split; [done|]. split; [|by destruct d]. intros k debt. rewrite Hin. destruct d; simpl.
    rewrite map_lookup_filter_Some. simpl. split.
    + intros [Hl Ho]. destruct (Hok _ _ Hl) as [-> Hc]. split; [done|]. split; [done|].
      by eapply obsolete_spec.
    + intros [-> [Hl Ho]]. split; [done|]. destruct (Hok _ _ Hl) as [_ Hc].
      by eapply obsolete_spec in Ho.
  - split; [done|]. intros debt Ho Hl. destruct (Hok _ _ Hl) as [_ Hc].
    apply (obsolete_spec d plan debt Hc) in Ho. destruct d; simpl in *.
    by apply map_lookup_filter_Some.
Qed.

(** C19.  A confirmed failure becomes a debt.  When the failure of a candidate is
    recorded, every unpaused client that the applied plan routes over it, on a
    transport that is neither dormant nor blocked, owes a replacement of exactly
    that outbound: the next reading of the ledger answers it, unless accepted
    evidence shows the transport healthy again.  Nothing else of the database
    changes, and the debts of clients that the plan does not route stay as they are. *)
Theorem confirmed_failure_is_owed candidate at_ d plan route t c row source h :
  ledger_ok d -> appliedRecoveryPlanTx d = (inr plan, d) ->
  NoDup (map ClientID (Clients plan)) -> In route (Clients plan) ->
  affected candidate t route = true ->
  clients d !! ClientID route = Some c -> cl_paused c = false ->
  cl_address c = SourceCIDR route ->
  candidates d !! c_ID candidate = Some row -> c_Enabled (cr_candidate row) = true ->
  c_Fingerprint (cr_candidate row) = c_Fingerprint candidate ->
  sources d !! c_SourceID (cr_candidate row) = Some source -> so_enabled source = true ->
  candidate_health d !! c_ID candidate = Some h -> recovered t h = false ->
  exists d', recordRouteRecoveriesTx candidate at_ d = (inr tt, d') /\
    d' = d <| route_recovery := route_recovery d' |> /\
    (forall client t', ~ In client (map ClientID (Clients plan)) ->
       route_recovery d' !! (client, t') = route_recovery d !! (client, t')) /\
    exists debts d'', PendingRouteRecoveries Commits d' = (inr debts, d'') /\
      exists debt, In debt debts /\ de_ClientID debt = ClientID route /\ de_Transport debt = t /\
        de_FailedOutbound debt = outbound_of t route /\ de_CandidateID debt = c_ID candidate.
Proof.
  intros Hok Hplan Hnd Hin Haff Hc Hp Ha Hrow He Hf Hs Hse Hh Hr.
  set (d' := fold_left (record_step candidate at_ (Generation plan)) (Clients plan) d).
  pose proof (record_step_frame candidate at_ (Generation plan) (Clients plan) d) as Hframe.
  fold d' in Hframe.
  exists d'. split; [by apply record_run|]. split; [done|].
  split; [by intros client t' Hn; apply record_step_other|].
  assert (ledger_ok d') as Hok' by by apply record_step_ok.
  assert (appliedRecoveryPlanTx d' = (inr plan, d')) as Hplan'.
  { rewrite Hframe. revert Hplan. unfold appliedRecoveryPlanTx, bind, get, required, check, ret,
      raise. destruct d; simpl. destruct (_ =? 0); [by intros [= ->]|].
    destruct (unmarshal_plan _); [|done]. destruct (_ =? _); [by intros [= ->]|done]. }
  destruct (record_here candidate at_ (Generation plan) (Clients plan) d route t c h)
    as (d0 & E1 & E2 & E3); try done. rewrite <- E1 in Hc. rewrite <- E2 in Hh.
  destruct (record_debt_lookup candidate at_ (Generation plan) route t d0 c h)
    as (debt & Hl & H1 & H2 & H3 & H4 & H5 & H6 & H7 & H8); try done.
  fold d' in E3. rewrite <- E3 in Hl. rewrite E1 in Hc. rewrite E2 in Hh.
  destruct (pending_spec d' plan Hok' Hplan') as (debts & Hrun & Hdebts).
  unfold PendingRouteRecoveries, transaction. rewrite Hrun. do 2 eexists. split; [done|].
  exists debt. split_and!; [|done..]. apply Hdebts. unfold debt_key. rewrite H1, H2.
  split; [done|]. unfold affected in Haff. split_bool.
  assert (clients d' = clients d /\ candidates d' = candidates d /\ sources d' = sources d /\
          candidate_health d' = candidate_health d) as (F1 & F2 & F3 & F4)
    by (rewrite Hframe; by destruct d).
  split.
  - exists c. by rewrite F1, H1, H3, H4.
  - exists route. rewrite H1, H2, H3, H5. split; [by apply index_by_unique|]. by split_and!.
  - lia.
  - exists row, source. by rewrite F2, F3, H6, H7.
  - by rewrite F4, H2, H6, Hh.
Qed.
End Exactness.

(** ** On the small database *)

(** The ledger after the failure of [cand_a] was recorded. *)
Definition failed_database : Database :=
  (recordRouteRecoveriesTx (stored_candidate "cand_a") (of_unix 200) (stored_database true)).2.

Lemma stored_ledger_ok failed : ledger_ok (stored_database failed).
Proof. intros k debt. cbn [route_recovery stored_database]. by rewrite lookup_empty. Qed.

Lemma stored_plan_applied failed :
  appliedRecoveryPlanTx (stored_database failed) = (inr (stored_plan 1), stored_database failed).
Proof. reflexivity. Qed.

Lemma failed_ledger_ok : ledger_ok failed_database.
Proof.
  unfold failed_database. rewrite (record_run _ _ _ (stored_plan 1)) by apply stored_plan_applied.
  apply record_step_ok, stored_ledger_ok.
Qed.

Lemma failed_plan_applied :
  appliedRecoveryPlanTx failed_database = (inr (stored_plan 1), failed_database).
Proof. vm_compute. reflexivity. Qed.

Lemma pending_recoveries_exact_witness :
  match PendingRouteRecoveries Commits failed_database with
  | (inr debts, _) => map debt_key debts =
      [("alice", RouteTransportTCP); ("alice", RouteTransportUDP)]%string /\
      Forall (owed failed_database (stored_plan 1)) debts
  | (inl _, _) => False
  end.
Proof.
  pose proof (pending_recoveries_exact failed_database (stored_plan 1) Commits failed_ledger_ok
    failed_plan_applied) as Hp.
  destruct (PendingRouteRecoveries Commits failed_database) as [[e|debts] d'] eqn:E.
  { by destruct Hp as [[] _]. }
  split.
  - assert (debts = match (PendingRouteRecoveries Commits failed_database).1 with
                    | inr l => l | inl _ => [] end) as -> by (by rewrite E).
    vm_compute. reflexivity.
  - apply List.Forall_forall. intros debt Hin. exact (proj2 (proj1 (proj1 Hp debt) Hin)).
Defined.

Lemma confirmed_failure_is_owed_witness :
  exists d', recordRouteRecoveriesTx (stored_candidate "cand_a") (of_unix 200)
               (stored_database true) = (inr tt, d') /\
    exists debts d'', PendingRouteRecoveries Commits d' = (inr debts, d'') /\
      exists debt, In debt debts /\ de_CandidateID debt = "cand_a"%string.
Proof.
  destruct (confirmed_failure_is_owed (stored_candidate "cand_a") (of_unix 200)
    (stored_database true) (stored_plan 1) stored_route RouteTransportUDP stored_client
    (stored_row "cand_a") stored_source (stored_health true)
    (stored_ledger_ok true) (stored_plan_applied true) (NoDup_singleton "alice"%string)
    (or_introl eq_refl) eq_refl eq_refl eq_refl eq_refl eq_refl eq_refl eq_refl eq_refl eq_refl
    eq_refl eq_refl) as (d' & Hr & _ & _ & debts & d'' & Hp & debt & Hin & _ & _ & _ & Hc).
  exists d'. split; [exact Hr|]. exists debts, d''. split; [exact Hp|]. exists debt.
  split; [exact Hin|exact Hc].
Defined.
