(* ===== verification/PlanStore.v ===== *)
(** The controller's plans in the database (store/plans.go, store/assignments.go,
    [rebaseUnsafeDesiredPlanTx] of store/migrations.go): publishing a desired plan
    with its assignments and reserves, marking it applied, rebasing a pending plan
    that cannot be applied, and what is read back. *)
From Stdlib Require Import Floats.
From S2P Require Import Prelude Effects GoOrder GoStrings GoSort QoE DataPlan Gateway Handlers StoreTables RouteRecovery.

#[local] Open Scope Z_scope.
#[local] Open Scope effect_scope.

Record PlanState := {
  DesiredGeneration : Z;
  AppliedGeneration : Z;
  InvalidatedGeneration : Z;
  DesiredReason : string;
  st_DesiredPlan : string;
  st_AppliedPlan : string
}.

Record CandidatePlanExpectation := {
  x_Candidate : Candidate;
  x_AllowDraining : bool;
  x_EvidenceDigest : string
}.

Record planHandlerBinding := {
  b_candidateID : string;
  b_clientID : string;
  b_protocol : string
}.

#[export] Instance planHandlerBinding_eq_dec : EqDecision planHandlerBinding.
Proof. solve_decision. Defined.

Abbreviation Bindings := (gmap string planHandlerBinding).

(** The bytes of a blob; a null one has none. *)
Definition blob (b : option string) : string := default EmptyString b.

(** ** Bindings of handlers to candidates *)

Section Plans.
Context `{Json} `{PlanCodec} `{Vault}.

Definition expected_candidates (expectations : list CandidatePlanExpectation) :
    gmap string Candidate :=
  index_by c_ID (map x_Candidate expectations).

(** What an outbound is bound to in a plan of the expected candidates; none
    inside: a handler that needs no binding. *)
Definition expected_binding (expected : gmap string Candidate) (o : Outbound) :
    StoreError + option planHandlerBinding :=
  if str_eqb (Protocol o) ProtocolVLESS then
    match expected !! CandidateIDFromVLESSHandler (ID o) with
    | Some c =>
        if str_eqb (c_Kind c) KindVLESS
        then inr (Some {| b_candidateID := c_ID c; b_clientID := EmptyString;
                          b_protocol := Protocol o |})
        else inl VLESSNotBound
    | None => inl VLESSNotBound
    end
  else if str_eqb (Protocol o) ProtocolTor then
    match parseTorPlanHandler (ID o) with
    | Some (candidateID, clientID) =>
        match expected !! candidateID with
        | Some c =>
            if str_eqb (c_Kind c) KindTorBridge
            then inr (Some {| b_candidateID := c_ID c; b_clientID := clientID;
                              b_protocol := Protocol o |})
            else inl TorNotBound
        | None => inl TorNotBound
        end
    | None => inl TorNotBound
    end
  else inr None.

(** What an outbound of a persisted plan says itself. *)
Definition persisted_binding (o : Outbound) : StoreError + option planHandlerBinding :=
  if str_eqb (Protocol o) ProtocolVLESS then
    inr (Some {| b_candidateID := CandidateIDFromVLESSHandler (ID o); b_clientID := EmptyString;
                 b_protocol := Protocol o |})
  else if str_eqb (Protocol o) ProtocolTor then
    match parseTorPlanHandler (ID o) with
    | Some (candidateID, clientID) =>
        inr (Some {| b_candidateID := candidateID; b_clientID := clientID;
                     b_protocol := Protocol o |})
    | None => inl TorNotBound
    end
  else inr None.

(** The loops over outbounds that build the map of handlers. *)
Fixpoint bind_handlers (binding : Outbound -> StoreError + option planHandlerBinding)
    (handlers : Bindings) (l : list Outbound) : StoreError + Bindings :=
  match l with
  | [] => inr handlers
  | o :: l =>
      match binding o with
      | inl e => inl e
      | inr None => bind_handlers binding handlers l
      | inr (Some b) => bind_handlers binding (<[ID o := b]> handlers) l
      end
  end.

Definition persistedPlanHandlers (plan : DesiredPlan) : StoreError + Bindings :=
  bind_handlers persisted_binding ∅ (Outbounds plan).

(** The third loop leaves out what it cannot bind. *)
Definition lenient_handlers (expected : gmap string Candidate) (plan : DesiredPlan) :
    StoreError + Bindings :=
  bind_handlers (fun o => match expected_binding expected o with
                          | inl _ => inr None | inr b => inr b end) ∅ (Outbounds plan).

Definition routeCandidateBinding (clientID outboundID : string) (handlers : Bindings) :
    StoreError + string :=
  if str_eqb outboundID EmptyString then inr EmptyString
  else match handlers !! outboundID with
       | None => inl RouteNotBound
       | Some b =>
           if negb (str_eqb (b_clientID b) EmptyString) && negb (str_eqb (b_clientID b) clientID)
           then inl RouteOfOtherClient else inr (b_candidateID b)
       end.

Definition mapping_of (handlers : Bindings) (route : ClientRoute) :
    StoreError + RouteReserveMapping :=
  let bound outboundID := routeCandidateBinding (ClientID route) outboundID handlers in
  tcp_reserve <~ bound (TCPReserveOutbound route) ;;
  udp_reserve <~ bound (UDPReserveOutbound route) ;;
  tcp_primary <~ (if str_eqb tcp_reserve EmptyString then inr EmptyString
                  else bound (TCPOutbound route)) ;;
  udp_primary <~ (if str_eqb udp_reserve EmptyString then inr EmptyString
                  else bound (UDPOutbound route)) ;;
  inr {| rm_ClientID := ClientID route;
         TCPPrimaryCandidateID := tcp_primary; TCPReserveCandidateID := tcp_reserve;
         UDPPrimaryCandidateID := udp_primary; UDPReserveCandidateID := udp_reserve |}.

Definition has_reserve (m : RouteReserveMapping) : bool :=
  negb (str_eqb (TCPReserveCandidateID m) EmptyString) ||
  negb (str_eqb (UDPReserveCandidateID m) EmptyString).

Definition expectedRouteReserveMappings (plan : DesiredPlan) (handlers : Bindings) :
    StoreError + gmap string RouteReserveMapping :=
  fold_attempt (fun expected route =>
    mapping <~ mapping_of handlers route ;;
    inr (if has_reserve mapping then <[ClientID route := mapping]> expected else expected))
    ∅ (Clients plan).

Definition validateDesiredPlanReserveBindings (encoded : string) (generation : Z)
    (expectations : list CandidatePlanExpectation) (mappings : list RouteReserveMapping) :
    Tx DesiredPlan :=
  plan <- required (decode_plan encoded) PlanEncoding ;;
  check (Generation plan =? generation) PlanGenerationMismatch ;;;
  check (bool_decide (Validate plan = None)) PlanInvalid ;;;
  handlers <- lift (bind_handlers (expected_binding (expected_candidates expectations)) ∅
                      (Outbounds plan)) ;;
  expected <- lift (expectedRouteReserveMappings plan handlers) ;;
  check (bool_decide (index_by rm_ClientID mappings = expected)) MappingsMismatch ;;;
  ret plan.

(** *** Assignments of a plan *)

Definition target_of (handlers : Bindings) (route : ClientRoute) :
    StoreError + (string * string) :=
  tcp <~ routeCandidateBinding (ClientID route) (TCPOutbound route) handlers ;;
  udp <~ routeCandidateBinding (ClientID route) (UDPOutbound route) handlers ;;
  inr (tcp, udp).

Definition route_targets (handlers : Bindings) (plan : DesiredPlan) :
    StoreError + gmap string (string * string) :=
  fold_attempt (fun targets route =>
    target <~ target_of handlers route ;;
    inr (<[ClientID route := target]> targets)) ∅ (Clients plan).

Definition check_assignment (targets : gmap string (string * string)) (seen : gset string)
    (a : AssignmentRecord) : Tx (gset string) :=
  row <- get (fun d => clients d !! as_ClientID a) ;;
  match row with
  | None => raise SnapshotClient
  | Some client =>
      check (negb (bool_decide (as_ClientID a ∈ seen))) SnapshotClient ;;;
      (if cl_paused client
       then check (negb (bool_decide (is_Some (targets !! as_ClientID a))) &&
                   str_eqb (as_TCPOutbound a) EmptyString && str_eqb (as_UDPOutbound a) EmptyString)
              PausedNotCleared
       else check (bool_decide (targets !! as_ClientID a = Some (as_TCPOutbound a, as_UDPOutbound a)))
              SnapshotMismatch) ;;;
      ret ({[as_ClientID a]} ∪ seen)
  end.

(** Every client once, the paused ones without routes, the others as routed. *)
Definition check_snapshot (targets : gmap string (string * string))
    (assignments : list AssignmentRecord) : Tx unit :=
  n <- get (fun d => size (clients d)) ;;
  check (length assignments =? n)%nat SnapshotIncomplete ;;;
  _ <- foldM (check_assignment targets) ∅ assignments ;;
  ret tt.

Definition assignment_less (a b : AssignmentRecord) : bool :=
  str_ltb (as_ClientID a) (as_ClientID b).

Definition validateAndEncodeDesiredAssignmentSnapshotTx (plan : DesiredPlan)
    (expectations : list CandidatePlanExpectation) (assignments : list AssignmentRecord) :
    Tx string :=
  handlers <- lift (lenient_handlers (expected_candidates expectations) plan) ;;
  targets <- lift (route_targets handlers plan) ;;
  check_snapshot targets assignments ;;;
  required (marshal_assignments (sort_slice assignment_less assignments)) SnapshotEncoding.

Definition validatePersistedAssignmentSnapshot (encodedPlan : string)
    (assignments : list AssignmentRecord) : Tx unit :=
  plan <- required (decode_plan encodedPlan) SnapshotPlan ;;
  check (bool_decide (Validate plan = None)) SnapshotPlan ;;;
  handlers <- lift (persistedPlanHandlers plan) ;;
  targets <- lift (route_targets handlers plan) ;;
  check_snapshot targets assignments.

(** ** Publishing *)

Definition expectation_backed (x : CandidatePlanExpectation) : bool :=
  negb (str_eqb (x_EvidenceDigest x) EmptyString).

(** Reading of evidence does not change the database. *)
Definition current_evidence (id : string) : Tx (option CandidateRoutingEvidence) := fun d =>
  (loadCandidateRoutingEvidenceTx d id, d).

Definition validate_expectation (evidenceBacked : bool) (x : CandidatePlanExpectation) : Tx unit :=
  (if evidenceBacked then
     current <- current_evidence (c_ID (x_Candidate x)) ;;
     match current with
     | None => raise (CandidateEvidenceChanged (c_ID (x_Candidate x)))
     | Some e => check (str_eqb (e_Digest e) (x_EvidenceDigest x))
                   (CandidateEvidenceChanged (c_ID (x_Candidate x)))
     end
   else ret tt) ;;;
  current <- (if x_AllowDraining x then candidateRoutableTx (x_Candidate x)
              else candidateCurrentTx (x_Candidate x)) ;;
  check current CandidateInventoryChanged.

Definition validateCandidatePlanTx (expectedEpoch : Z)
    (expectations : list CandidatePlanExpectation) : Tx unit :=
  let evidenceBacked := match expectations with [] => true | x :: _ => expectation_backed x end in
  check (forallb (fun x => Bool.eqb (expectation_backed x) evidenceBacked) expectations)
    MixedEvidence ;;;
  (if evidenceBacked then ret tt
   else epoch <- get inventory_epoch ;; check (epoch =? expectedEpoch) CandidateInventoryChanged) ;;;
  forM expectations (validate_expectation evidenceBacked).

Definition ValidateCandidatePlanSnapshot (o : Outcome) (expectedEpoch : Z)
    (expectations : list CandidatePlanExpectation) : Tx unit :=
  transaction o (validateCandidatePlanTx expectedEpoch expectations).

Definition validate_pair (expected : gmap string Candidate) (t : RouteTransport)
    (primary reserve : string) : Tx bool :=
  if str_eqb primary EmptyString && str_eqb reserve EmptyString then ret false
  else
    check (negb (str_eqb primary EmptyString) && negb (str_eqb reserve EmptyString))
      (PairIncomplete t) ;;;
    check (negb (str_eqb primary reserve)) (PairEqual t) ;;;
    match expected !! primary, expected !! reserve with
    | Some p, Some r =>
        check (match t with
               | RouteTransportTCP => true
               | RouteTransportUDP => str_eqb (c_Kind p) KindVLESS && str_eqb (c_Kind r) KindVLESS
               end) PairNotVLESS ;;;
        ret true
    | _, _ => raise (PairUnknown t)
    end.

Definition validate_mapping (expected : gmap string Candidate) (seen : gset string)
    (m : RouteReserveMapping) : Tx (gset string) :=
  check (negb (str_eqb (rm_ClientID m) EmptyString)) ReserveClientRequired ;;;
  check (negb (bool_decide (rm_ClientID m ∈ seen))) ReserveClientDuplicate ;;;
  client <- get (fun d => clients d !! rm_ClientID m) ;;
  check (bool_decide (is_Some client)) ReserveClientUnknown ;;;
  tcp <- validate_pair expected RouteTransportTCP (TCPPrimaryCandidateID m)
           (TCPReserveCandidateID m) ;;
  udp <- validate_pair expected RouteTransportUDP (UDPPrimaryCandidateID m)
           (UDPReserveCandidateID m) ;;
  check (tcp || udp) MappingEmpty ;;;
  ret ({[rm_ClientID m]} ∪ seen).

Definition validateRouteReserveMappingsTx (mappings : list RouteReserveMapping)
    (expectations : list CandidatePlanExpectation) : Tx unit :=
  _ <- foldM (validate_mapping (expected_candidates expectations)) ∅ mappings ;;
  ret tt.

Definition plan_reasons : list string :=
  ["legacy"; "hard_failure"; "qoe_degraded"; "manual_reassign"; "client_lifecycle";
   "pool_promotion"; "startup_normalization"; "periodic"]%string.

Definition validDesiredPlanReason (reason : string) : bool := existsb (str_eqb reason) plan_reasons.

Definition saveDesiredPlanTx (generation : Z) (plan reason : string) : Tx unit :=
  check (validDesiredPlanReason reason) ReasonInvalid ;;;
  p <- get plan_state ;;
  check ((desired_generation p <? generation) && (invalidated_generation p <? generation))
    (NotFound "new desired generation") ;;;
  modify (fun d => d <| plan_state := {|
    desired_generation := generation; applied_generation := applied_generation p;
    invalidated_generation := 0; desired_reason := reason; desired_plan := Some plan;
    applied_plan := applied_plan p; desired_assignments_generation := 0;
    desired_assignments := None |} |>).

(** The constraints of the table: a positive generation, a client, one row each. *)
Definition insert_reserve (generation : Z) (m : RouteReserveMapping) : Tx unit :=
  d <- get id ;;
  check ((0 <? generation) && bool_decide (is_Some (clients d !! rm_ClientID m)) &&
         negb (bool_decide (is_Some (desired_reserves d !! rm_ClientID m)))) ConstraintFailed ;;;
  modify (fun d => d <| desired_reserves :=
    <[rm_ClientID m := (generation, m)]> (desired_reserves d) |>).

Definition replaceDesiredRouteReservesTx (generation : Z) (mappings : list RouteReserveMapping) :
    Tx unit :=
  modify (fun d => d <| desired_reserves := ∅ |>) ;;;
  forM mappings (insert_reserve generation).

Definition SaveDesiredPlanWithReason (o : Outcome) (generation : Z) (plan reason : string) :
    Tx unit :=
  transaction o (
    saveDesiredPlanTx generation plan reason ;;;
    replaceDesiredRouteReservesTx generation []).

Definition publish_body (generation : Z) (plan reason : string) (expectedEpoch : Z)
    (expectations : list CandidatePlanExpectation) (mappings : list RouteReserveMapping)
    (assignments : option (list AssignmentRecord)) : Tx unit :=
  validateCandidatePlanTx expectedEpoch expectations ;;;
  validateRouteReserveMappingsTx mappings expectations ;;;
  decodedPlan <- validateDesiredPlanReserveBindings plan generation expectations mappings ;;
  encodedAssignments <- match assignments with
                        | Some l => encoded <- validateAndEncodeDesiredAssignmentSnapshotTx
                                                 decodedPlan expectations l ;; ret (Some encoded)
                        | None => ret None
                        end ;;
  saveDesiredPlanTx generation plan reason ;;;
  replaceDesiredRouteReservesTx generation mappings ;;;
  match encodedAssignments with
  | Some encoded => modify (fun d => d <| plan_state := (plan_state d)
      <| desired_assignments_generation := generation |>
      <| desired_assignments := Some encoded |> |>)
  | None => ret tt
  end.

(** With assignments, it is the controller's publish boundary
    ([SaveDesiredPlanSnapshotForCandidatesAndReservesWithReason]). *)
Definition saveDesiredPlanSnapshotForCandidatesAndReserves (o : Outcome) (generation : Z)
    (plan reason : string) (expectedEpoch : Z) (expectations : list CandidatePlanExpectation)
    (mappings : list RouteReserveMapping) (assignments : option (list AssignmentRecord)) : Tx unit :=
  transaction o (publish_body generation plan reason expectedEpoch expectations mappings assignments).

Definition SaveDesiredPlanForCandidatesAndReserves (o : Outcome) (generation : Z) (plan : string)
    (expectedEpoch : Z) (expectations : list CandidatePlanExpectation)
    (mappings : list RouteReserveMapping) : Tx unit :=
  check (bool_decide (mappings = [])) MappingsNeedSnapshot ;;;
  saveDesiredPlanSnapshotForCandidatesAndReserves o generation plan "legacy" expectedEpoch
    expectations mappings None.

(** ** Marking a plan applied *)

Definition assignmentMigrationReason (desiredReason : string) : string :=
  if str_eqb desiredReason "hard_failure" then "hard_failure"
  else if str_eqb desiredReason "manual_reassign" then "manual"
  else if str_eqb desiredReason "qoe_degraded" then "qoe_degraded"
  else if str_eqb desiredReason "periodic" then "quality_30_percent"
  else "capacity".

(** Who is dormant in an encoded plan. *)
Definition dormancy (encoded : string) : StoreError + gmap string bool :=
  if str_eqb encoded EmptyString then inr ∅
  else match unmarshal_dormancy encoded with
       | Some projection =>
           inr (fold_left (fun m '(client, dormant) => <[client := dormant]> m) projection ∅)
       | None => inl EventPlanInvalid
       end.

Definition migration_event (reason trigger : string) (oldDormant newDormant : gmap string bool)
    (at_ : Time) (client : string) (t : RouteTransport) (from to : string) (since : Time) :
    list MigrationEvent :=
  if str_eqb from EmptyString || str_eqb from to then []
  else [{| ev_client := client; ev_transport := t; ev_from := from; ev_to := to;
           ev_reason := reason; ev_trigger := trigger;
           ev_from_dormant := default false (oldDormant !! client);
           ev_dormant := default false (newDormant !! client);
           ev_previous_age := if negb (time_is_zero since) && negb (after since at_)
                              then Some (time_sub at_ since ÷ millisecond) else None;
           ev_at := time_unix at_ |}].

Definition assignment_events (reason trigger : string) (oldDormant newDormant : gmap string bool)
    (at_ : Time) (previous : gmap string AssignmentRecord) (a : AssignmentRecord) :
    list MigrationEvent :=
  match previous !! as_ClientID a with
  | None => []
  | Some old =>
      migration_event reason trigger oldDormant newDormant at_ (as_ClientID a) RouteTransportTCP
        (as_TCPOutbound old) (as_TCPOutbound a) (as_TCPSince old) ++
      migration_event reason trigger oldDormant newDormant at_ (as_ClientID a) RouteTransportUDP
        (as_UDPOutbound old) (as_UDPOutbound a) (as_UDPSince old)
  end.

Definition appendAssignmentMigrationEventsTx (previous : gmap string AssignmentRecord)
    (next : list AssignmentRecord) (desiredReason previousPlan nextPlan : string) (at_ : Time) :
    Tx unit :=
  oldDormant <- lift (dormancy previousPlan) ;;
  newDormant <- lift (dormancy nextPlan) ;;
  modify (fun d => d <| events := events d ++
    flat_map (assignment_events (assignmentMigrationReason desiredReason) desiredReason
                oldDormant newDormant at_ previous) next |>).

Definition setAssignmentTx (now : Time) (a : AssignmentRecord) : Tx unit :=
  client <- get (fun d => clients d !! as_ClientID a) ;;
  check (bool_decide (is_Some client)) ConstraintFailed ;;;
  modify (fun d => d <| assignments := <[as_ClientID a := {|
    ar_tcp_outbound := as_TCPOutbound a; ar_udp_outbound := as_UDPOutbound a;
    ar_tcp_since := time_unix (as_TCPSince a); ar_udp_since := time_unix (as_UDPSince a);
    ar_updated_at := time_unix (if time_is_zero (as_UpdatedAt a) then now else as_UpdatedAt a) |}]>
    (assignments d) |>).

Definition SetAssignment (o : Outcome) (now : Time) (a : AssignmentRecord) : Tx unit :=
  transaction o (setAssignmentTx now a).

Definition scan_assignment (client : string) (r : AssignmentRow) : AssignmentRecord := {|
  as_ClientID := client; as_TCPOutbound := ar_tcp_outbound r; as_UDPOutbound := ar_udp_outbound r;
  as_TCPSince := of_unix (ar_tcp_since r); as_UDPSince := of_unix (ar_udp_since r);
  as_UpdatedAt := of_unix (ar_updated_at r) |}.

(** The persisted snapshot, when it is one. *)
Definition decoded_snapshot (encoded : option string) : option (list AssignmentRecord) :=
  if str_eqb (trim_space (blob encoded)) "null" then None
  else match decode_assignments (blob encoded) with
       | Some (Some l) => Some l
       | _ => None
       end.

Definition previous_assignments (d : Database) : gmap string AssignmentRecord :=
  map_imap (fun c r => Some (scan_assignment c r)) (assignments d).

(** The snapshot of the generation, checked against the current clients, and the
    assignments that it will replace. *)
Definition read_snapshot (generation : Z) (p : PlanRow) :
    Tx (option (list AssignmentRecord * gmap string AssignmentRecord)) :=
  if desired_assignments_generation p =? 0 then ret None
  else
    check (desired_assignments_generation p =? generation) SnapshotGeneration ;;;
    l <- required (decoded_snapshot (desired_assignments p)) SnapshotGeneration ;;
    validatePersistedAssignmentSnapshot (blob (desired_plan p)) l ;;;
    previous <- get previous_assignments ;;
    ret (Some (l, previous)).

Definition take_snapshot (now : Time) (p : PlanRow)
    (snapshot : option (list AssignmentRecord * gmap string AssignmentRecord)) : Tx unit :=
  match snapshot with
  | Some (l, previous) =>
      modify (fun d => d <| assignments := ∅ |>) ;;;
      forM l (setAssignmentTx now) ;;;
      appendAssignmentMigrationEventsTx previous l (desired_reason p) (blob (applied_plan p))
        (blob (desired_plan p)) now
  | None => ret tt
  end.

Definition MarkAppliedPlan_body (now : Time) (generation : Z) (plan : string) : Tx unit :=
  p <- get plan_state ;;
  check (str_eqb (blob (desired_plan p)) plan) AppliedPlanDiffers ;;;
  desired <- get desired_reserves ;;
  check (bool_decide (desired = ∅) || (desired_assignments_generation p =? generation))
    MappingsNeedSnapshot ;;;
  snapshot <- read_snapshot generation p ;;
  check ((desired_generation p =? generation) && (applied_generation p <? generation))
    (NotFound "desired generation") ;;;
  modify (fun d => d <| plan_state := (plan_state d) <| applied_generation := generation |>
                                      <| applied_plan := Some plan |> |>) ;;;
  check (bool_decide (map_Forall (fun _ r => r.1 = generation) desired))
    ReserveGenerationMismatch ;;;
  take_snapshot now p snapshot ;;;
  modify (fun d => d <| applied_reserves :=
    filter (fun '(_, r) => r.1 = generation) (desired_reserves d) |>) ;;;
  _ <- pendingRouteRecoveriesTx ;;
  ret tt.

Definition MarkAppliedPlan (o : Outcome) (now : Time) (generation : Z) (plan : string) : Tx unit :=
  transaction o (MarkAppliedPlan_body now generation plan).

(** ** Rebasing *)

(** Whether a check passes; it leaves no trace. *)
Definition passes {A : Type} (m : Tx A) : Tx bool := fun d =>
  (inr (match m d with (inr _, _) => true | (inl _, _) => false end), d).

Definition exact_snapshot (p : PlanRow) : Tx bool :=
  if desired_assignments_generation p =? desired_generation p then
    match decoded_snapshot (desired_assignments p) with
    | Some l => passes (validatePersistedAssignmentSnapshot (blob (desired_plan p)) l)
    | None => ret false
    end
  else ret false.

Definition rebaseUnsafeDesiredPlanTx (rebaseInvalidPlan : bool) : Tx bool :=
  p <- get plan_state ;;
  if desired_generation p <=? applied_generation p then ret false
  else
    exact <- exact_snapshot p ;;
    let publishable := match decode_plan (blob (desired_plan p)) with
                       | Some plan => (Generation plan =? desired_generation p) &&
                                      bool_decide (Validate plan = None)
                       | None => false
                       end in
    if exact || (negb rebaseInvalidPlan && negb publishable) then ret false
    else
      modify (fun d => d <| plan_state := {|
        desired_generation := applied_generation p; applied_generation := applied_generation p;
        invalidated_generation := Z.max (invalidated_generation p) (desired_generation p);
        desired_reason := desired_reason p; desired_plan := applied_plan p;
        applied_plan := applied_plan p; desired_assignments_generation := 0;
        desired_assignments := None |} |> <| desired_reserves := ∅ |>) ;;;
      ret true.

Definition RebaseUnsafeDesiredPlan (o : Outcome) : Tx bool :=
  transaction o (rebaseUnsafeDesiredPlanTx false).

(** ** Reading back *)

Definition LoadPlanState (o : Outcome) : Tx PlanState :=
  query o (fun d => let p := plan_state d in {|
    DesiredGeneration := desired_generation p; AppliedGeneration := applied_generation p;
    InvalidatedGeneration := invalidated_generation p; DesiredReason := desired_reason p;
    st_DesiredPlan := blob (desired_plan p); st_AppliedPlan := blob (applied_plan p) |}).

Definition PlanGenerations (o : Outcome) : Tx (Z * Z) :=
  query o (fun d => (desired_generation (plan_state d), applied_generation (plan_state d))).

Definition ListAssignments (o : Outcome) : Tx (list AssignmentRecord) :=
  query o (fun d => sort_slice assignment_less
    (map (fun '(c, r) => scan_assignment c r) (map_to_list (assignments d)))).

Definition primary_of (t : RouteTransport) (m : RouteReserveMapping) : string :=
  match t with
  | RouteTransportTCP => TCPPrimaryCandidateID m | RouteTransportUDP => UDPPrimaryCandidateID m end.
Definition reserve_of (t : RouteTransport) (m : RouteReserveMapping) : string :=
  match t with
  | RouteTransportTCP => TCPReserveCandidateID m | RouteTransportUDP => UDPReserveCandidateID m end.
Definition assigned_of (t : RouteTransport) (r : AssignmentRow) : string :=
  match t with RouteTransportTCP => ar_tcp_outbound r | RouteTransportUDP => ar_udp_outbound r end.

(** The reserve of the applied plan for a client whose primary, applied and
    assigned, is the one that failed. *)
Definition applied_reserve (d : Database) (client : string) (t : RouteTransport)
    (primary : string) : option string :=
  match applied_reserves d !! client, assignments d !! client with
  | Some (generation, m), Some row =>
      if (generation =? applied_generation (plan_state d)) && str_eqb (primary_of t m) primary &&
         negb (str_eqb (reserve_of t m) EmptyString) && str_eqb (assigned_of t row) primary
      then Some (reserve_of t m) else None
  | _, _ => None
  end.

Definition AppliedReserveForFailure (o : Outcome) (client : string) (t : RouteTransport)
    (primary : string) : Tx (option string) :=
  if str_eqb client EmptyString || str_eqb primary EmptyString then ret None
  else query o (fun d => applied_reserve d client t primary).

Definition mapping_less (a b : RouteReserveMapping) : bool := str_ltb (rm_ClientID a) (rm_ClientID b).

Definition ListAppliedReserveMappings (o : Outcome) : Tx (Z * list RouteReserveMapping) :=
  transaction o (
    d <- get id ;;
    let generation := applied_generation (plan_state d) in
    check (bool_decide (map_Forall (fun _ r => r.1 = generation) (applied_reserves d)))
      ReserveGenerationMismatch ;;;
    ret (generation, sort_slice mapping_less
           (map (fun '(_, r) => r.2) (map_to_list (applied_reserves d))))).
End Plans.
