(* ===== verification/PlanStoreSafety.v ===== *)
(** The invariant of persisted plans, and what publishing and marking promise. *)
From Stdlib Require Import Floats.
From S2P Require Import Prelude Effects GoOrder GoStrings GoSort QoE DataPlan Gateway Handlers StoreTables StoreLogic RouteRecovery PlanStore.

#[local] Open Scope Z_scope.
#[local] Open Scope effect_scope.

Section Safety.
Context `{Json} `{PlanCodec} `{Vault}.

(** ** Readings of the store *)

Lemma steady_current lifecycles c : steady (candidateIdentityCurrentTx lifecycles c).
Proof. unfold candidateIdentityCurrentTx. steady. Qed.
Lemma steady_evidence id : steady (current_evidence id).
Proof. done. Qed.
#[local] Hint Resolve steady_current steady_evidence : hydrat.

Lemma steady_candidates epoch xs : steady (validateCandidatePlanTx epoch xs).
Proof.
  unfold validateCandidatePlanTx, forM, validate_expectation, candidateCurrentTx, candidateRoutableTx.
  steady.
Qed.

Lemma steady_pair expected t p r : steady (validate_pair expected t p r).
Proof. unfold validate_pair. steady. Qed.
#[local] Hint Resolve steady_pair : hydrat.

Lemma steady_mapping expected seen m : steady (validate_mapping expected seen m).
Proof. unfold validate_mapping. steady. Qed.

Lemma steady_snapshot targets l : steady (check_snapshot targets l).
Proof. unfold check_snapshot, check_assignment. steady. Qed.
#[local] Hint Resolve steady_snapshot : hydrat.

Lemma steady_encode plan xs l : steady (validateAndEncodeDesiredAssignmentSnapshotTx plan xs l).
Proof. unfold validateAndEncodeDesiredAssignmentSnapshotTx. steady. Qed.

Lemma steady_persisted encoded l : steady (validatePersistedAssignmentSnapshot encoded l).
Proof. unfold validatePersistedAssignmentSnapshot. steady. Qed.

(** ** Bindings *)

(** The handlers of a plan that was admitted with its candidates are those that
    its names say. *)
Lemma expected_is_persisted xs o b :
  expected_binding (expected_candidates xs) o = inr b -> persisted_binding o = inr b.
Proof.
  unfold expected_binding, persisted_binding, expected_candidates.
  destruct (str_eqb (Protocol o) ProtocolVLESS).
  - destruct (index_by _ _ !! _) as [c|] eqn:E; [|done].
    apply index_by_Some in E as [_ ->]. by destruct (str_eqb _ _).
  - destruct (str_eqb (Protocol o) ProtocolTor); [|done].
    destruct (parseTorPlanHandler (ID o)) as [[c client]|]; [|done].
    destruct (index_by _ _ !! _) as [row|] eqn:E; [|done].
    apply index_by_Some in E as [_ ->]. by destruct (str_eqb _ _).
Qed.

Lemma bind_handlers_ext binding binding' handlers l h :
  (forall o b, binding o = inr b -> binding' o = inr b) ->
  bind_handlers binding handlers l = inr h -> bind_handlers binding' handlers l = inr h.
Proof.
  intros Hb. revert handlers. induction l as [|o l IH]; intros handlers; cbn [bind_handlers]; [done|].
  destruct (binding o) as [e|b] eqn:E; [done|]. rewrite (Hb _ _ E). destruct b; apply IH.
Qed.

Lemma lenient_same xs plan h :
  bind_handlers (expected_binding (expected_candidates xs)) ∅ (Outbounds plan) = inr h ->
  lenient_handlers (expected_candidates xs) plan = inr h.
Proof. apply bind_handlers_ext. intros o b ->. done. Qed.

(** ** Mappings *)

Definition pair_sane (primary reserve : string) : Prop :=
  (primary = EmptyString /\ reserve = EmptyString) \/
  (primary <> EmptyString /\ reserve <> EmptyString /\ primary <> reserve).

Definition mapping_sane (m : RouteReserveMapping) : Prop :=
  forall t, pair_sane (primary_of t m) (reserve_of t m).

Lemma validate_pair_inr expected t p r d b d1 :
  validate_pair expected t p r d = (inr b, d1) -> pair_sane p r.
Proof.
  unfold validate_pair. destruct (str_eqb p EmptyString) eqn:Ep, (str_eqb r EmptyString) eqn:Er;
    cbn [andb negb]; intros Hr; str_bool.
  1: by left.
  all: run_in Hr; try done. run_in Hr. split_bool. str_bool. right. auto.
Qed.

Lemma validate_mapping_inr expected seen m d seen' d1 :
  validate_mapping expected seen m d = (inr seen', d1) ->
  mapping_sane m /\ rm_ClientID m ∉ seen /\ is_Some (clients d !! rm_ClientID m) /\
  seen' = {[rm_ClientID m]} ∪ seen /\ d1 = d.
Proof.
  intros Hr. pose proof (steady_inr _ _ _ _ (steady_mapping expected seen m) Hr) as ->.
  unfold validate_mapping in Hr. run_all Hr. apply validate_pair_inr in Hrun, Hrun0. split_bool.
  apply bool_decide_eq_true in Hcheck1. apply bool_decide_eq_false in Hcheck0.
  split_and!; try done. by intros [].
Qed.

Lemma validate_mappings_inr mappings xs d u d1 :
  validateRouteReserveMappingsTx mappings xs d = (inr u, d1) ->
  d1 = d /\ Forall mapping_sane mappings /\ NoDup (map rm_ClientID mappings).
Proof.
  unfold validateRouteReserveMappingsTx. intros Hr. apply bind_inr in Hr as (seen & d2 & Hf & Hr).
  run_in Hr. assert (forall l seen seen' d d1,
    foldM (validate_mapping (expected_candidates xs)) seen l d = (inr seen', d1) ->
    d1 = d /\ Forall mapping_sane l /\ NoDup (map rm_ClientID l) /\
    forall c, In c (map rm_ClientID l) -> c ∉ seen) as Hall; [|naive_solver].
  clear. induction l as [|m l IH]; intros seen seen' d d1; cbn [foldM map].
  - intros Hr. run_in Hr. split_and!; [done..|constructor|done].
  - intros Hr. apply bind_inr in Hr as (s & d2 & Hm & Hr).
    apply validate_mapping_inr in Hm as (Hsane & Hnew & _ & -> & ->).
    apply IH in Hr as (-> & Hall & Hnd & Hs). split_and!; [done|by constructor| |].
    + constructor; [|done]. rewrite list_elem_of_In. intros Hin. apply Hs in Hin. set_solver.
    + intros c [<-|Hin]; [done|]. apply Hs in Hin. set_solver.
Qed.

(** What the strict decoder and the validator make of published bytes. *)
Record published (g : Z) (bytes : string) (plan : DesiredPlan) (handlers : Bindings)
    (reserves : gmap string RouteReserveMapping) : Prop := {
  pub_decode : decode_plan bytes = Some plan;
  pub_generation : Generation plan = g;
  pub_valid : Validate plan = None;
  pub_handlers : persistedPlanHandlers plan = inr handlers;
  pub_reserves : expectedRouteReserveMappings plan handlers = inr reserves
}.

Lemma bindings_inr bytes g xs mappings d plan d1 :
  validateDesiredPlanReserveBindings bytes g xs mappings d = (inr plan, d1) ->
  d1 = d /\ exists handlers, published g bytes plan handlers (index_by rm_ClientID mappings) /\
    lenient_handlers (expected_candidates xs) plan = inr handlers.
Proof.
  unfold validateDesiredPlanReserveBindings. intros Hr. run_all Hr. split; [done|].
  apply bool_decide_eq_true in Hcheck0, Hcheck1. z_bool. subst.
  exists a2. split; [|by apply lenient_same]. split; try done.
  unfold persistedPlanHandlers. eapply bind_handlers_ext; [|done].
  intros o b Hb. by eapply expected_is_persisted.
Qed.

Lemma insert_reserves_inr g l d u d1 : forM l (insert_reserve g) d = (inr u, d1) ->
  d1 = d <| desired_reserves := fold_left (fun m x => <[rm_ClientID x := (g, x)]> m) l
                                  (desired_reserves d) |> /\
  Forall (fun m => is_Some (clients d !! rm_ClientID m)) l.
Proof.
  unfold forM. revert d u. induction l as [|m l IH]; intros d u; cbn [foldM fold_left].
  - intros Hr. run_in Hr. by destruct d.
  - intros Hr. apply bind_inr in Hr as (v & d2 & Hm & Hr). unfold insert_reserve in Hm.
    run_all Hm. destruct v. apply IH in Hr as [-> Hall]. split_bool.
    match goal with Hc : bool_decide (is_Some _) = true |- _ => apply bool_decide_eq_true in Hc end.
    split; [by destruct d|]. constructor; [done|]. by destruct d.
Qed.

Lemma reserves_of_list (g : Z) (l : list RouteReserveMapping) :
  fold_left (fun m x => <[rm_ClientID x := (g, x)]> m) l (∅ : gmap string (Z * RouteReserveMapping)) =
  (fun x => (g, x)) <$> index_by rm_ClientID l.
Proof.
  unfold index_by. assert (forall m : gmap string RouteReserveMapping,
    fold_left (fun m x => <[rm_ClientID x := (g, x)]> m) l ((fun x => (g, x)) <$> m) =
    (fun x => (g, x)) <$> fold_left (fun m x => <[rm_ClientID x := x]> m) l m) as Hf.
  { induction l as [|x l IH]; intros m; simpl; [done|]. by rewrite <- fmap_insert, IH. }
  by rewrite <- Hf, fmap_empty.
Qed.

(** *** The publish boundary *)

Definition published_row (p : PlanRow) (g : Z) (bytes reason encoded : string) : PlanRow := {|
  desired_generation := g; applied_generation := applied_generation p;
  invalidated_generation := 0; desired_reason := reason; desired_plan := Some bytes;
  applied_plan := applied_plan p; desired_assignments_generation := g;
  desired_assignments := Some encoded |}.

Lemma publish_inr g bytes reason epoch xs mappings l d u d1 :
  publish_body g bytes reason epoch xs mappings (Some l) d = (inr u, d1) ->
  exists plan handlers targets encoded,
    published g bytes plan handlers (index_by rm_ClientID mappings) /\
    Forall mapping_sane mappings /\
    Forall (fun m => is_Some (clients d !! rm_ClientID m)) mappings /\
    route_targets handlers plan = inr targets /\
    check_snapshot targets l d = (inr tt, d) /\
    marshal_assignments (sort_slice assignment_less l) = Some encoded /\
    desired_generation (plan_state d) < g /\ invalidated_generation (plan_state d) < g /\
    d1 = d <| plan_state := published_row (plan_state d) g bytes reason encoded |>
           <| desired_reserves := (fun x => (g, x)) <$> index_by rm_ClientID mappings |>.
Proof.
  unfold publish_body. intros Hr.
  apply bind_inr in Hr as (? & d2 & Hc & Hr).
  pose proof (steady_inr _ _ _ _ (steady_candidates _ _) Hc) as ->. clear Hc.
  apply bind_inr in Hr as (? & d2 & Hm & Hr).
  apply validate_mappings_inr in Hm as (-> & Hsane & _).
  apply bind_inr in Hr as (plan & d2 & Hb & Hr).
  apply bindings_inr in Hb as (-> & handlers & Hpub & Hlen).
  apply bind_inr in Hr as (enc & d2 & He & Hr). run_in He. run_in He.
  unfold validateAndEncodeDesiredAssignmentSnapshotTx in Hrun. run_all Hrun.
  unfold saveDesiredPlanTx in Hr. apply bind_inr in Hr as (? & d3 & Hs & Hr). run_all Hs.
  split_bool. z_bool. unfold replaceDesiredRouteReservesTx in Hr.
  apply bind_inr in Hr as (? & d4 & Hi & Hr). run_in Hi.
  apply insert_reserves_inr in Hi as [-> Hcl]. run_in Hr.
  rewrite Hlen in Hget. injection Hget as <-.
  exists plan, handlers, a1, a. destruct a2. split_and!; try done.
  rewrite <- reserves_of_list. unfold published_row. by destruct d.
Qed.

(** *** Marking *)

Definition assignment_row (now : Time) (a : AssignmentRecord) : AssignmentRow := {|
  ar_tcp_outbound := as_TCPOutbound a; ar_udp_outbound := as_UDPOutbound a;
  ar_tcp_since := time_unix (as_TCPSince a); ar_udp_since := time_unix (as_UDPSince a);
  ar_updated_at := time_unix (if time_is_zero (as_UpdatedAt a) then now else as_UpdatedAt a) |}.

Definition assignment_rows (now : Time) (l : list AssignmentRecord) (m : gmap string AssignmentRow) :
    gmap string AssignmentRow :=
  fold_left (fun m a => <[as_ClientID a := assignment_row now a]> m) l m.

Lemma set_assignments_inr now l d u d1 : forM l (setAssignmentTx now) d = (inr u, d1) ->
  d1 = d <| assignments := assignment_rows now l (assignments d) |> /\
  Forall (fun a => is_Some (clients d !! as_ClientID a)) l.
Proof.
  unfold forM. revert d u. induction l as [|a l IH]; intros d u; cbn [foldM].
  - intros Hr. run_in Hr. by destruct d.
  - intros Hr. apply bind_inr in Hr as ([] & d2 & Ha & Hr). unfold setAssignmentTx in Ha.
    run_all Ha. apply IH in Hr as [-> Hall]. apply bool_decide_eq_true in Hcheck.
    split; [by destruct d|]. constructor; [done|]. by destruct d.
Qed.

Lemma pending_frame d debts d1 : pendingRouteRecoveriesTx d = (inr debts, d1) ->
  d1 = d <| route_recovery := route_recovery d1 |> /\ route_recovery d1 ⊆ route_recovery d.
Proof.
  unfold pendingRouteRecoveriesTx. intros Hr. apply bind_inr in Hr as (m & d2 & Hg & Hr). run_in Hg.
  destruct (bool_decide _); [run_in Hr; by destruct d|].
  apply bind_inr in Hr as (plan & d2 & Hp & Hr).
  pose proof (appliedRecoveryPlanTx_same d) as Hs. rewrite Hp in Hs. simpl in Hs. subst d2.
  apply bind_inr in Hr as (d2 & d3 & Hg & Hr). run_in Hg.
  apply bind_inr in Hr as ([] & d3 & Hf & Hr). run_in Hr.
  rewrite (run_forM_pure _ drop_debt), drop_debts in Hf by done. injection Hf as <-.
  destruct d; simpl. split; [done|apply map_filter_subseteq].
Qed.

Lemma append_events_inr previous next reason old new now d u d1 :
  appendAssignmentMigrationEventsTx previous next reason old new now d = (inr u, d1) ->
  exists oldDormant newDormant, dormancy old = inr oldDormant /\ dormancy new = inr newDormant /\
    d1 = d <| events := events d ++ flat_map (assignment_events (assignmentMigrationReason reason)
                reason oldDormant newDormant now previous) next |>.
Proof.
  unfold appendAssignmentMigrationEventsTx. intros Hr. run_all Hr. by exists a, a0.
Qed.

(** What the snapshot of a plan changes when the plan is marked applied. *)
Definition snapshot_taken (now : Time) (g : Z) (d d1 : Database) : Prop :=
  let p := plan_state d in
  (desired_assignments_generation p = 0 /\ assignments d1 = assignments d /\ events d1 = events d) \/
  (desired_assignments_generation p = g /\ exists l oldDormant newDormant,
     decoded_snapshot (desired_assignments p) = Some l /\
     dormancy (blob (applied_plan p)) = inr oldDormant /\
     dormancy (blob (desired_plan p)) = inr newDormant /\
     validatePersistedAssignmentSnapshot (blob (desired_plan p)) l d = (inr tt, d) /\
     assignments d1 = assignment_rows now l ∅ /\
     Forall (fun a => is_Some (clients d !! as_ClientID a)) l /\
     events d1 = events d ++ flat_map (assignment_events
       (assignmentMigrationReason (desired_reason p)) (desired_reason p) oldDormant newDormant now
       (previous_assignments d)) l).

Lemma snapshot_inr now g d row snapshot u d1 :
  read_snapshot g (plan_state d) d = (inr snapshot, d) ->
  take_snapshot now (plan_state d) snapshot (d <| plan_state := row |>) = (inr u, d1) ->
  snapshot_taken now g d d1 /\
  d1 = d <| plan_state := row |> <| assignments := assignments d1 |> <| events := events d1 |>.
Proof.
  unfold read_snapshot, take_snapshot, snapshot_taken. intros Hsnap Hset.
  destruct (_ =? 0) eqn:E; z_bool.
  - run_in Hsnap. run_in Hset. split; [left|]; by destruct d.
  - pose proof steady_persisted. run_all Hsnap. z_bool.
    apply bind_inr in Hset as (? & d2 & Hs & Hset); run_in Hs.
    apply bind_inr in Hset as ([] & d2 & Hs & Hset).
    apply set_assignments_inr in Hs as [-> Hall].
    apply append_events_inr in Hset as (o & n & Ho & Hn & ->).
    split; [|by destruct d]. right. split; [done|]. destruct a1.
    exists a0, o, n. split_and!; try done; by destruct d.
Qed.

Lemma mark_inr now g bytes d u d1 : MarkAppliedPlan_body now g bytes d = (inr u, d1) ->
  let p := plan_state d in
  blob (desired_plan p) = bytes /\ desired_generation p = g /\ applied_generation p < g /\
  (forall c r, desired_reserves d !! c = Some r -> r.1 = g) /\ snapshot_taken now g d d1 /\
  route_recovery d1 ⊆ route_recovery d /\
  d1 = d <| plan_state := p <| applied_generation := g |> <| applied_plan := Some bytes |> |>
         <| applied_reserves := desired_reserves d |> <| assignments := assignments d1 |>
         <| events := events d1 |> <| route_recovery := route_recovery d1 |>.
Proof.
  intros Hr p. unfold MarkAppliedPlan_body in Hr.
  apply bind_inr in Hr as (? & d2 & Hs & Hr); run_in Hs.
  apply bind_inr in Hr as (? & d2 & Hs & Hr); run_in Hs.
  apply bind_inr in Hr as (? & d2 & Hs & Hr); run_in Hs.
  apply bind_inr in Hr as (? & d2 & Hs & Hr); run_in Hs.
  apply bind_inr in Hr as (snap & d2 & Hsnap & Hr).
  assert (d2 = d) as ->.
  { revert Hsnap. apply steady_inr. pose proof steady_persisted. unfold read_snapshot. steady. }
  apply bind_inr in Hr as (? & d2 & Hs & Hr); run_in Hs.
  apply bind_inr in Hr as (? & d2 & Hs & Hr); run_in Hs.
  apply bind_inr in Hr as (? & d2 & Hs & Hr); run_in Hs.
  apply bind_inr in Hr as ([] & d3 & Hset & Hr).
  destruct (snapshot_inr _ _ _ _ _ _ _ Hsnap Hset) as [Htaken Hd3]. clear Hset Hsnap.
  apply bind_inr in Hr as (? & d4 & Hs & Hr); run_in Hs.
  apply bind_inr in Hr as (debts & d4 & Hpend & Hr). run_in Hr.
  apply pending_frame in Hpend as [Hf Hsub].
  apply bool_decide_eq_true in Hcheck2. split_bool. z_bool. str_bool.
  assert (filter (fun '(_, r) => r.1 = g) (desired_reserves d3) = desired_reserves d) as Hres.
  { rewrite Hd3. destruct d. simpl in *. apply map_filter_id. intros c r Hl. by apply (Hcheck2 c). }
  rewrite Hres in Hf, Hsub.
  split_and!; [done..|by intros c r Hl; apply (Hcheck2 c)| | |].
  - rewrite Hf. destruct d3. exact Htaken.
  - rewrite Hf in Hsub |- *. rewrite Hd3 in Hsub. destruct d, d3, d4. exact Hsub.
  - rewrite Hf. rewrite Hd3 at 1. destruct d, d3, d4. reflexivity.
Qed.

(** ** The invariant *)

(** One stage of the plan: nothing at generation 0; later bytes that the strict
    decoder and the validator accept at that generation, and reserves that the
    plan itself names, with distinct primary and reserve. *)
Record stage_ok (g : Z) (bytes : option string) (reserves : gmap string (Z * RouteReserveMapping)) :
    Prop := {
  stage_none : g = 0 -> bytes = None /\ reserves = ∅;
  stage_some : g <> 0 -> exists b plan handlers ms, bytes = Some b /\
    published g b plan handlers ms /\
    forall c r, reserves !! c = Some r -> r.1 = g /\ ms !! c = Some r.2 /\ mapping_sane r.2
}.

Record plan_ok (d : Database) : Prop := {
  po_range : 0 <= applied_generation (plan_state d) <= desired_generation (plan_state d);
  po_invalidated : 0 <= invalidated_generation (plan_state d);
  po_rebased : invalidated_generation (plan_state d) <> 0 ->
    desired_generation (plan_state d) = applied_generation (plan_state d) /\
    desired_generation (plan_state d) < invalidated_generation (plan_state d);
  po_desired : stage_ok (desired_generation (plan_state d)) (desired_plan (plan_state d))
    (desired_reserves d);
  po_applied : stage_ok (applied_generation (plan_state d)) (applied_plan (plan_state d))
    (applied_reserves d);
  po_same : desired_generation (plan_state d) = applied_generation (plan_state d) ->
    desired_plan (plan_state d) = applied_plan (plan_state d);
  po_snapshot : desired_assignments_generation (plan_state d) = 0 \/
    desired_assignments_generation (plan_state d) = desired_generation (plan_state d);
  po_ledger : ledger_ok d;
  po_owners : forall c, is_Some (desired_reserves d !! c) \/ is_Some (applied_reserves d !! c) \/
    is_Some (assignments d !! c) -> is_Some (clients d !! c)
}.

Lemma stage_zero : stage_ok 0 None ∅.
Proof. split; [done|lia]. Qed.

Lemma plan_ok_new : plan_ok new_database.
Proof.
  split; simpl; try done; try (apply stage_zero); try lia.
  intros c. rewrite !lookup_empty. intros [[? ?]|[[? ?]|[? ?]]]; done.
Qed.

Lemma stage_subset g bytes reserves reserves' :
  stage_ok g bytes reserves -> reserves' ⊆ reserves -> stage_ok g bytes reserves'.
Proof.
  intros [Hn Hs] Hsub. split.
  - intros Hg. destruct (Hn Hg) as [-> ->]. split; [done|]. by apply map_empty_subseteq_iff || (apply map_eq; intros c; rewrite lookup_empty; destruct (reserves' !! c) eqn:E; [|done]; apply (lookup_weaken _ _ _ _ E) in Hsub; by rewrite lookup_empty in Hsub).
  - intros Hg. destruct (Hs Hg) as (b & plan & h & ms & Hb & Hp & Hr).
    exists b, plan, h, ms. split_and!; [done..|]. intros c r Hl. apply Hr.
    by eapply lookup_weaken.
Qed.

Lemma ledger_subset d d' :
  ledger_ok d -> route_recovery d' ⊆ route_recovery d -> clients d' = clients d -> ledger_ok d'.
Proof. intros Hok Hsub Hc k debt Hl. rewrite Hc. apply Hok. by eapply lookup_weaken. Qed.

Lemma publish_ok g bytes reason epoch xs mappings l :
  returns plan_ok (publish_body g bytes reason epoch xs mappings (Some l)) (fun _ => plan_ok).
Proof.
  intros d Hok. destruct (publish_body _ _ _ _ _ _ _ _) as [[e|u] d1] eqn:Hr; [done|].
  apply publish_inr in Hr as (plan & handlers & targets & encoded & Hpub & Hsane & Hcl & _ & _ & _ &
    Hg & Hi & ->).
  destruct Hok as [Hrange Hinv Hreb Hdes Happ Hsame Hsnap Hled Hown].
  destruct d as [p]; simpl in *. split; simpl; try done.
  - lia.
  - split; [lia|]. intros _. exists bytes, plan, handlers, (index_by rm_ClientID mappings).
    split_and!; [done..|]. intros c r Hl. apply lookup_fmap_Some in Hl as (m & <- & Hm).
    split_and!; [done..|]. apply index_by_Some in Hm as [Hin _].
    eapply List.Forall_forall in Hsane; done.
  - lia.
  - by right.
  - intros c [[r Hr]|Hc]; [|apply Hown; tauto]. apply lookup_fmap_Some in Hr as (m & _ & Hm).
    apply index_by_Some in Hm as [Hin <-]. by eapply List.Forall_forall in Hcl.
Qed.

Lemma mark_ok now g bytes : returns plan_ok (MarkAppliedPlan_body now g bytes) (fun _ => plan_ok).
Proof.
  intros d Hok. destruct (MarkAppliedPlan_body _ _ _ _) as [[e|u] d1] eqn:Hr; [done|].
  apply mark_inr in Hr as (Hb & Hg & Ha & Hgen & Htaken & Hdebts & Hd1).
  destruct Hok as [Hrange Hinv Hreb Hdes Happ Hsame Hsnap Hled Hown].
  assert (g <> 0) as Hg0 by lia. rewrite Hg in *.
  destruct (stage_some _ _ _ Hdes Hg0) as (b & plan & h & ms & Hbytes & Hrest).
  rewrite Hbytes in Hb. simpl in Hb. subst b.
  assert (forall c, is_Some (assignments d1 !! c) -> is_Some (clients d !! c)) as Hasg.
  { intros c [row Hrow]. destruct Htaken as [(_ & E & _)|(_ & l & o & n & _ & _ & _ & _ & E & Hall & _)].
    - rewrite E in Hrow. apply Hown. right; right. eauto.
    - rewrite E in Hrow. unfold assignment_rows in Hrow. revert Hrow Hall. clear.
      assert (forall m : gmap string AssignmentRow,
        fold_left (fun m a => <[as_ClientID a := assignment_row now a]> m) l m !! c = Some row ->
        m !! c = Some row \/ In c (map as_ClientID l)) as Hf.
      { induction l as [|a l IH]; intros m; simpl; [auto|]. intros [Hl|Hl]%IH; [|auto].
        apply lookup_insert_Some in Hl. naive_solver. }
      intros [Hl|Hl]%Hf Hall; [by rewrite lookup_empty in Hl|].
      apply in_map_iff in Hl as (a & <- & Hin). by eapply List.Forall_forall in Hall. }
  assert (clients d1 = clients d) as Hcl by (rewrite Hd1; by destruct d).
  assert (stage_ok g (Some bytes) (desired_reserves d)) as Hstage by (by rewrite <- Hbytes).
  pose proof (ledger_subset d d1 Hled Hdebts Hcl) as Hled1.
  rewrite Hd1. rewrite Hd1 in Hled1. destruct d as [p]; simpl in *.
  destruct p; simpl in *. subst. split; simpl; try done.
  - lia.
  - intros H2. destruct (Hreb H2). lia.
  - intros c Hc. destruct Hc as [Hc|[Hc|Hc]]; [apply Hown; auto..|by apply Hasg].
Qed.
End Safety.
