(* ===== verification/RoutingSnapshot.v ===== *)
(** The snapshot of routing evidence that a placement works on
    ([LoadRoutingEvidenceSnapshot] and [LoadRoutingReferencesSnapshot] of
    store/routing_evidence.go), and how it fences the publish that follows. *)
From Stdlib Require Import Floats.
From S2P Require Import Prelude Effects GoOrder GoStrings GoSort QoE Sha256 DataPlan Handlers StoreTables StoreSample RouteRecovery PlanStore StoreLogic PlanStoreSafety.

#[local] Open Scope Z_scope.
#[local] Open Scope effect_scope.

Record RoutingEvidenceSnapshot := {
  rs_Candidates : list CandidateRoutingEvidence;
  rs_InventoryEpoch : Z
}.

Section Snapshot.
Context `{Vault}.

(** ** The query *)

Definition real_probe (r : ProbeRow) : bool :=
  negb (str_eqb (pr_candidate_id r) EmptyString) && negb (pr_placeholder r).

Definition has_probe_state (d : Database) : bool :=
  existsb (fun '(_, r) => real_probe r) (map_to_list (candidate_probe_state d)).

Definition in_pool (d : Database) (id : string) : bool :=
  existsb (fun '(_, r) => str_eqb (pr_candidate_id r) id && negb (pr_placeholder r) &&
                          (pr_in_working_pool r || pr_draining r))
    (map_to_list (candidate_probe_state d)).

Definition referenced (refs : list string) (c : Candidate) : bool := existsb (str_eqb (c_ID c)) refs.

Definition lifecycle_selected (refs : list string) (references_only : bool) (c : Candidate) : bool :=
  str_eqb (c_Lifecycle c) CandidateLifecycleActive ||
  str_eqb (c_Lifecycle c) CandidateLifecycleDraining && (references_only || referenced refs c).

Definition routing_selected (d : Database) (refs : list string) (references_only : bool)
    (c : Candidate) : bool :=
  if references_only then referenced refs c
  else negb (has_probe_state d) || referenced refs c || in_pool d (c_ID c).

(** A row of the join with the source of the candidate. *)
Record JoinedRow := { jr_row : CandidateRow; jr_source : SourceRow }.

Definition jr_candidate (j : JoinedRow) : Candidate := cr_candidate (jr_row j).

Definition joined (d : Database) : list JoinedRow :=
  omap (fun '(_, row) =>
    (fun s => {| jr_row := row; jr_source := s |}) <$> sources d !! c_SourceID (cr_candidate row))
    (map_to_list (candidates d)).

Definition selected (d : Database) (refs : list string) (references_only : bool) (j : JoinedRow) :
    bool :=
  c_Enabled (jr_candidate j) && so_enabled (jr_source j) &&
  lifecycle_selected refs references_only (jr_candidate j) &&
  routing_selected d refs references_only (jr_candidate j).

(** [ORDER BY s.created_at, s.id, c.source_position, c.id]. *)
Definition joined_less (a b : JoinedRow) : bool :=
  let c := jr_candidate a in
  let e := jr_candidate b in
  if so_created_at (jr_source a) =? so_created_at (jr_source b) then
    if str_eqb (c_SourceID c) (c_SourceID e) then
      if c_SourcePosition c =? c_SourcePosition e then str_ltb (c_ID c) (c_ID e)
      else c_SourcePosition c <? c_SourcePosition e
    else str_ltb (c_SourceID c) (c_SourceID e)
  else so_created_at (jr_source a) <? so_created_at (jr_source b).

(** The first candidate of a fingerprint is taken, and only that is decrypted. *)
Fixpoint take_candidates (seen : gset string) (rows : list JoinedRow) :
    StoreError + list (JoinedRow * string) :=
  match rows with
  | [] => inr []
  | j :: rows =>
      if bool_decide (c_Fingerprint (jr_candidate j) ∈ seen) then take_candidates seen rows
      else
        match open_payload (c_ID (jr_candidate j)) (cr_encrypted (jr_row j)) with
        | None => inl (DecryptFailed (c_ID (jr_candidate j)))
        | Some payload =>
            rest <~ take_candidates ({[c_Fingerprint (jr_candidate j)]} ∪ seen) rows ;;
            inr ((j, payload) :: rest)
        end
  end.

Definition listRoutingEvidenceCandidatesTx (d : Database) (refs : list string)
    (references_only : bool) : StoreError + list (JoinedRow * string) :=
  if references_only && bool_decide (refs = []) then inr []
  else take_candidates ∅
         (sort_slice joined_less (List.filter (selected d refs references_only) (joined d))).

Definition row_evidence (d : Database) (taken : JoinedRow * string) :
    StoreError + CandidateRoutingEvidence :=
  let (j, payload) := taken in
  with_digest (loadCandidateRoutingEvidenceStateTx d (jr_candidate j) payload
                 (so_enabled (jr_source j))).

Fixpoint all_evidence (d : Database) (rows : list (JoinedRow * string)) :
    StoreError + list CandidateRoutingEvidence :=
  match rows with
  | [] => inr []
  | r :: rows => e <~ row_evidence d r ;; rest <~ all_evidence d rows ;; inr (e :: rest)
  end.

Definition loadRoutingEvidenceSnapshot (o : Outcome) (refs : list string) (references_only : bool) :
    Tx RoutingEvidenceSnapshot :=
  transaction o (fun d =>
    (rows <~ listRoutingEvidenceCandidatesTx d refs references_only ;;
     evidence <~ all_evidence d rows ;;
     inr {| rs_Candidates := evidence; rs_InventoryEpoch := inventory_epoch d |}, d)).

Definition LoadRoutingEvidenceSnapshot (o : Outcome) (refs : list string) :
    Tx RoutingEvidenceSnapshot := loadRoutingEvidenceSnapshot o refs false.
Definition LoadRoutingReferencesSnapshot (o : Outcome) (refs : list string) :
    Tx RoutingEvidenceSnapshot := loadRoutingEvidenceSnapshot o refs true.

(** ** What a snapshot holds *)

(** A candidate lies under its identifier. *)
Definition candidates_keyed (d : Database) : Prop :=
  forall id row, candidates d !! id = Some row -> c_ID (cr_candidate row) = id.

Lemma joined_In d j : candidates_keyed d ->
  In j (joined d) <-> candidates d !! c_ID (jr_candidate j) = Some (jr_row j) /\
                      sources d !! c_SourceID (jr_candidate j) = Some (jr_source j).
Proof.
  intros Hk. unfold joined. rewrite <- list_elem_of_In, list_elem_of_omap. split.
  - intros ([id row] & Hin & Hj). apply elem_of_map_to_list in Hin.
    apply fmap_Some in Hj as (s & Hs & ->). unfold jr_candidate. simpl.
    by rewrite (Hk _ _ Hin).
  - intros [Hc Hs]. exists (c_ID (jr_candidate j), jr_row j).
    split; [by apply elem_of_map_to_list|]. fold (jr_candidate j). rewrite Hs. by destruct j.
Qed.

Lemma take_candidates_In seen rows taken j payload :
  take_candidates seen rows = inr taken -> In (j, payload) taken ->
  In j rows /\ open_payload (c_ID (jr_candidate j)) (cr_encrypted (jr_row j)) = Some payload.
Proof.
  revert seen taken. induction rows as [|r rows IH]; intros seen taken; cbn [take_candidates].
  { by intros [= <-]. }
  destruct (bool_decide _); [intros Ht Hin; destruct (IH _ _ Ht Hin); simpl; auto|].
  destruct (open_payload (c_ID (jr_candidate r)) _) as [p|] eqn:Ep; [|done]. intros Ht.
  apply attempt_inr in Ht as (rest & Hrest & [= <-]). intros [[= -> ->]|Hin]; [simpl; auto|].
  destruct (IH _ _ Hrest Hin). simpl. auto.
Qed.

(** One candidate of every fingerprint that was selected. *)
Lemma take_candidates_fingerprints seen rows taken :
  take_candidates seen rows = inr taken ->
  NoDup (map (fun t => c_Fingerprint (jr_candidate t.1)) taken) /\
  forall f, In f (map (fun t => c_Fingerprint (jr_candidate t.1)) taken) <->
            f ∉ seen /\ In f (map (fun j => c_Fingerprint (jr_candidate j)) rows).
Proof.
  revert seen taken. induction rows as [|r rows IH]; intros seen taken; cbn [take_candidates].
  { intros [= <-]. split; [constructor|simpl; naive_solver]. }
  destruct (bool_decide_reflect (c_Fingerprint (jr_candidate r) ∈ seen)) as [Hin|Hn].
  { intros Ht. destruct (IH _ _ Ht) as [Hnd Hf]. split; [done|]. intros f. rewrite Hf. cbn [map In].
    naive_solver. }
  destruct (open_payload _ _) as [p|]; [|done]. intros Ht.
  apply attempt_inr in Ht as (rest & Hrest & [= <-]). destruct (IH _ _ Hrest) as [Hnd Hf].
  cbn [map In fst]. split.
  - constructor; [|done]. rewrite list_elem_of_In, Hf. set_solver.
  - intros f. rewrite Hf. destruct (decide (f = c_Fingerprint (jr_candidate r))); set_solver.
Qed.

Lemma all_evidence_In d rows evidence e : all_evidence d rows = inr evidence -> In e evidence ->
  exists t, In t rows /\ row_evidence d t = inr e.
Proof.
  revert evidence. induction rows as [|r rows IH]; intros evidence; cbn [all_evidence].
  { by intros [= <-]. }
  intros He. apply attempt_inr in He as (e' & He' & He). apply attempt_inr in He as (rest & Hr & [= <-]).
  intros [<-|Hin]; [exists r; simpl; auto|]. destruct (IH _ Hr Hin) as (t & ? & ?).
  exists t. simpl. auto.
Qed.

Lemma all_evidence_map {B : Type} (f : CandidateRoutingEvidence -> B)
    (g : JoinedRow * string -> B) d rows evidence :
  (forall t e, row_evidence d t = inr e -> f e = g t) ->
  all_evidence d rows = inr evidence -> map f evidence = map g rows.
Proof.
  intros Hfg. revert evidence. induction rows as [|r rows IH]; intros evidence; cbn [all_evidence].
  { by intros [= <-]. }
  intros He. apply attempt_inr in He as (e' & He' & He). apply attempt_inr in He as (rest & Hr & [= <-]).
  cbn [map]. by rewrite (Hfg _ _ He'), (IH _ Hr).
Qed.

Lemma row_evidence_candidate d t e : row_evidence d t = inr e -> e_Candidate e = jr_candidate t.1.
Proof.
  destruct t as [j payload]. unfold row_evidence, with_digest. destruct (semanticDigest _); [done|].
  by intros [= <-].
Qed.

Lemma snapshot_rows o refs only d snapshot d' :
  loadRoutingEvidenceSnapshot o refs only d = (inr snapshot, d') ->
  d' = d /\ rs_InventoryEpoch snapshot = inventory_epoch d /\
  exists rows, listRoutingEvidenceCandidatesTx d refs only = inr rows /\
    all_evidence d rows = inr (rs_Candidates snapshot).
Proof.
  unfold loadRoutingEvidenceSnapshot, transaction.
  destruct (listRoutingEvidenceCandidatesTx d refs only) as [e|rows] eqn:El; [by destruct o|].
  cbn [attempt]. destruct (all_evidence d rows) as [e|evidence] eqn:Ee; [by destruct o|].
  cbn [attempt]. destruct o; try discriminate. intros [= <- <-]. split_and!; [done..|]. by exists rows.
Qed.

Lemma listed_rows d refs only rows j payload :
  candidates_keyed d -> listRoutingEvidenceCandidatesTx d refs only = inr rows ->
  In (j, payload) rows ->
  selected d refs only j = true /\ candidates d !! c_ID (jr_candidate j) = Some (jr_row j) /\
  sources d !! c_SourceID (jr_candidate j) = Some (jr_source j) /\
  open_payload (c_ID (jr_candidate j)) (cr_encrypted (jr_row j)) = Some payload.
Proof.
  intros Hk. unfold listRoutingEvidenceCandidatesTx.
  destruct (_ && _); [intros [= <-] []|]. intros Ht Hin.
  destruct (take_candidates_In _ _ _ _ _ Ht Hin) as [Hj Hp].
  rewrite sort_slice_In, filter_In in Hj. destruct Hj as [Hj Hs]. by apply joined_In in Hj as [? ?].
Qed.

(** Evidence in a snapshot is what the store loads of that candidate alone. *)
Lemma snapshot_evidence_current o refs only d snapshot d' e :
  candidates_keyed d -> loadRoutingEvidenceSnapshot o refs only d = (inr snapshot, d') ->
  In e (rs_Candidates snapshot) ->
  loadCandidateRoutingEvidenceTx d (c_ID (e_Candidate e)) = inr (Some e) /\
  exists j, e_Candidate e = jr_candidate j /\ selected d refs only j = true /\
    candidates d !! c_ID (e_Candidate e) = Some (jr_row j) /\
    sources d !! c_SourceID (e_Candidate e) = Some (jr_source j).
Proof.
  intros Hk Hs Hin. apply snapshot_rows in Hs as (_ & _ & rows & Hl & He).
  destruct (all_evidence_In _ _ _ _ He Hin) as ([j payload] & Hj & Hrow).
  destruct (listed_rows _ _ _ _ _ _ Hk Hl Hj) as (Hsel & Hc & Hso & Hp).
  rewrite (row_evidence_candidate _ _ _ Hrow). cbn [fst]. split; [|by exists j].
  unfold loadCandidateRoutingEvidenceTx. rewrite Hc. fold (jr_candidate j). rewrite Hso, Hp.
  unfold row_evidence in Hrow. by rewrite Hrow.
Qed.

(** ** The fence of a publish *)

Lemma hex_nonempty bytes : bytes <> [] -> hex_encode bytes <> EmptyString.
Proof. by destruct bytes. Qed.

Lemma digest_nonempty e digest : semanticDigest e = inr digest -> digest <> EmptyString.
Proof.
  unfold semanticDigest. destruct (marshal_evidence _) as [encoded|]; [|done]. intros [= <-].
  apply hex_nonempty. intros E. apply (f_equal length) in E. by rewrite sha256_length in E.
Qed.

Lemma loaded_digest d id e :
  loadCandidateRoutingEvidenceTx d id = inr (Some e) -> e_Digest e <> EmptyString.
Proof.
  unfold loadCandidateRoutingEvidenceTx. destruct (candidates d !! id); [|done].
  destruct (sources d !! _); [|done]. destruct (open_payload _ _); [|done].
  unfold with_digest. destruct (semanticDigest _) as [err|digest] eqn:E; [done|].
  intros [= <-]. cbn [e_Digest]. by eapply digest_nonempty.
Qed.

(** An expectation that a placement takes from its snapshot. *)
Definition expects (snapshot : RoutingEvidenceSnapshot) (x : CandidatePlanExpectation) : Prop :=
  exists e, In e (rs_Candidates snapshot) /\ x_Candidate x = e_Candidate e /\
    x_EvidenceDigest x = e_Digest e /\
    (x_AllowDraining x = true \/ c_Lifecycle (e_Candidate e) = CandidateLifecycleActive).

Definition identified (c : Candidate) : Prop :=
  c_ID c <> EmptyString /\ c_SourceID c <> EmptyString /\ c_Fingerprint c <> EmptyString.

Lemma identity_check lifecycles c d : identified c ->
  candidateIdentityCurrentTx lifecycles c d =
    (inr match candidates d !! c_ID c with
         | Some row => let current := cr_candidate row in
             str_eqb (c_SourceID current) (c_SourceID c) &&
             str_eqb (c_Fingerprint current) (c_Fingerprint c) && c_Enabled current &&
             from_option so_enabled false (sources d !! c_SourceID current) &&
             existsb (str_eqb (c_Lifecycle current)) lifecycles
         | None => false
         end, d).
Proof.
  intros (Hi & Hs & Hf). apply str_eqb_neq in Hi, Hs, Hf.
  unfold candidateIdentityCurrentTx, bind. rewrite tx_check. cbn [existsb].
  by rewrite Hi, Hs, Hf.
Qed.

Lemma expectation_passes o refs d snapshot d' x :
  candidates_keyed d -> LoadRoutingEvidenceSnapshot o refs d = (inr snapshot, d') ->
  expects snapshot x -> identified (x_Candidate x) ->
  expectation_backed x = true /\ validate_expectation true x d = (inr tt, d).
Proof.
  intros Hk Hs (e & Hin & Hc & Hd & Hl) Hid.
  destruct (snapshot_evidence_current _ _ _ _ _ _ _ Hk Hs Hin) as (Hload & j & Hj & Hsel & Hrow & Hso).
  pose proof (loaded_digest _ _ _ Hload) as Hne. unfold expectation_backed. rewrite Hd.
  apply str_eqb_neq in Hne. rewrite Hne. split; [done|].
  unfold validate_expectation, bind, current_evidence. rewrite Hc, Hload, tx_check, Hd, str_eqb_refl.
  rewrite Hc in Hid. unfold selected in Hsel. rewrite !andb_true_iff in Hsel.
  destruct Hsel as (((He & Hse) & Hlife) & _).
  unfold candidateRoutableTx, candidateCurrentTx.
  destruct (x_AllowDraining x); rewrite identity_check, Hrow by done; cbn zeta;
    fold (jr_candidate j); rewrite <- Hj, !str_eqb_refl, Hso; cbn [from_option];
    rewrite Hj, He, Hse; cbn [andb existsb].
  - unfold lifecycle_selected in Hlife.
    destruct (str_eqb (c_Lifecycle (jr_candidate j)) CandidateLifecycleActive); [done|].
    cbn [orb andb] in *. rewrite andb_true_iff in Hlife. by rewrite (proj1 Hlife).
  - destruct Hl as [|Hl]; [done|]. rewrite <- Hj, Hl. done.
Qed.

Lemma validate_expectation_inr x d u d' : validate_expectation true x d = (inr u, d') ->
  d' = d /\ exists e, loadCandidateRoutingEvidenceTx d (c_ID (x_Candidate x)) = inr (Some e) /\
    e_Digest e = x_EvidenceDigest x.
Proof.
  unfold validate_expectation, bind, current_evidence.
  destruct (loadCandidateRoutingEvidenceTx d _) as [err|[e|]] eqn:El; try done.
  rewrite tx_check. destruct (str_eqb _ _) eqn:E; [|done]. str_bool.
  assert (forall lifecycles, steady (candidateIdentityCurrentTx lifecycles (x_Candidate x))) as Hst
    by (intros lifecycles; unfold candidateIdentityCurrentTx; steady).
  unfold candidateRoutableTx, candidateCurrentTx. intros Hr.
  assert (d' = d) as ->; [|by split; [|exists e]].
  destruct (x_AllowDraining x); [specialize (Hst [CandidateLifecycleActive; CandidateLifecycleDraining] d)
    |specialize (Hst [CandidateLifecycleActive] d)];
    (destruct (candidateIdentityCurrentTx _ _ d) as [[err|b] d1]; [done|]; simpl in Hst; subst d1;
     rewrite tx_check in Hr; destruct b; [by injection Hr|done]).
Qed.

(** Evidence-backed expectations are checked one by one, whatever the epoch. *)
Lemma backed_check epoch xs d : Forall (fun x => expectation_backed x = true) xs ->
  validateCandidatePlanTx epoch xs d = forM xs (validate_expectation true) d.
Proof.
  intros Hb. unfold validateCandidatePlanTx, bind. rewrite tx_check.
  assert ((match xs with [] => true | x :: _ => expectation_backed x end) = true) as ->
    by by destruct Hb.
  assert (forallb (fun x => Bool.eqb (expectation_backed x) true) xs = true) as ->.
  { apply forallb_forall. intros x Hin. eapply List.Forall_forall in Hb; [|done]. by rewrite Hb. }
  done.
Qed.

Lemma forM_passes {A : Type} (f : A -> Tx unit) l d :
  Forall (fun x => f x d = (inr tt, d)) l -> forM l f d = (inr tt, d).
Proof.
  unfold forM. induction 1 as [|x l Hx _ IH]; [done|]. cbn [foldM]. unfold bind. by rewrite Hx.
Qed.

(** A placement is published only on the evidence it was made with.  When
    every candidate that a plan uses is expected as the snapshot showed it, its
    digest included, the check at the publish boundary passes on an unchanged
    database; and on any other database it passes only if each of these candidates
    is still there with evidence of the same digest, and it changes nothing. *)
Theorem snapshot_fences_publish o refs d snapshot d0 xs epoch :
  candidates_keyed d -> LoadRoutingEvidenceSnapshot o refs d = (inr snapshot, d0) ->
  Forall (expects snapshot) xs -> Forall (fun x => identified (x_Candidate x)) xs ->
  ValidateCandidatePlanSnapshot Commits epoch xs d = (inr tt, d) /\
  forall d' o' epoch' u d'', ValidateCandidatePlanSnapshot o' epoch' xs d' = (inr u, d'') ->
    d'' = d' /\ forall x, In x xs -> exists e e',
      In e (rs_Candidates snapshot) /\ x_Candidate x = e_Candidate e /\
      loadCandidateRoutingEvidenceTx d' (c_ID (e_Candidate e)) = inr (Some e') /\
      e_Digest e' = e_Digest e.
Proof.
  intros Hk Hs Hx Hid.
  assert (Forall (fun x => expectation_backed x = true) xs) as Hb.
  { apply List.Forall_forall. intros x Hin. eapply List.Forall_forall in Hx, Hid; [|done..].
    eapply expectation_passes; eauto. }
  split.
  - unfold ValidateCandidatePlanSnapshot. rewrite transaction_Commits, backed_check by done.
    rewrite forM_passes; [done|]. apply List.Forall_forall. intros x Hin.
    eapply List.Forall_forall in Hx, Hid; [|done..]. eapply expectation_passes; eauto.
  - intros d' o' epoch' u d'' Hr. unfold ValidateCandidatePlanSnapshot, transaction in Hr.
    rewrite backed_check in Hr by done.
    destruct (forM xs (validate_expectation true) d') as [[err|v] d1] eqn:E; [by destruct o'|].
    assert (d1 = d' /\ Forall (fun x => exists e',
      loadCandidateRoutingEvidenceTx d' (c_ID (x_Candidate x)) = inr (Some e') /\
      e_Digest e' = x_EvidenceDigest x) xs) as [-> Hall].
    { clear Hx Hid Hb Hr. unfold forM in E. revert v E. induction xs as [|x xs IH]; intros v;
        cbn [foldM]; [intros E; run_in E; split; [done|constructor]|].
      intros E. apply bind_inr in E as ([] & d2 & Hv & E).
      apply validate_expectation_inr in Hv as (-> & e' & ? & ?). destruct (IH _ E) as [-> ?].
      split; [done|]. constructor; [by exists e'|done]. }
    split; [by destruct o'; simplify_eq|]. intros x Hin.
    eapply List.Forall_forall in Hx, Hall; [|done..]. destruct Hx as (e & He & Hc & Hd & _).
    destruct Hall as (e' & Hl & Hd'). exists e, e'. rewrite <- Hc. split_and!; congruence.
Qed.
End Snapshot.

(** ** On the small database *)

Definition stored_snapshot : RoutingEvidenceSnapshot :=
  match (LoadRoutingEvidenceSnapshot Commits [] (stored_database false)).1 with
  | inr s => s
  | inl _ => {| rs_Candidates := []; rs_InventoryEpoch := 0 |}
  end.

Definition expectation_of (e : CandidateRoutingEvidence) : CandidatePlanExpectation :=
  {| x_Candidate := e_Candidate e; x_AllowDraining := true; x_EvidenceDigest := e_Digest e |}.

Definition snapshot_expectations : list CandidatePlanExpectation :=
  map expectation_of (rs_Candidates stored_snapshot).

Lemma expectations_expect snapshot :
  Forall (expects snapshot) (map expectation_of (rs_Candidates snapshot)).
Proof.
  apply List.Forall_forall. intros x (e & <- & Hin)%in_map_iff. exists e. by split_and!; [| | |left].
Qed.

Lemma stored_snapshot_candidates :
  map x_Candidate snapshot_expectations = [stored_candidate "cand_a"; stored_candidate "cand_b"].
Proof. vm_compute. reflexivity. Qed.

Lemma snapshot_fences_publish_witness :
  ValidateCandidatePlanSnapshot Commits 7 snapshot_expectations (stored_database false) =
    (inr tt, stored_database false) /\ length snapshot_expectations = 2%nat.
Proof.
  split; [|by rewrite <- (length_map x_Candidate), stored_snapshot_candidates].
  refine (proj1 (snapshot_fences_publish Commits [] (stored_database false) stored_snapshot
    (stored_database false) snapshot_expectations 7 _ _ _ _)).
  - intros id row Hl. cbn [stored_database candidates] in Hl.
    apply lookup_insert_Some in Hl as [[<- <-]|[_ Hl]]; [reflexivity|].
    apply lookup_singleton_Some in Hl as [<- <-]. reflexivity.
  - vm_compute. reflexivity.
  - exact (expectations_expect stored_snapshot).
  - apply List.Forall_forall. intros x Hin. apply (in_map x_Candidate) in Hin.
    rewrite stored_snapshot_candidates in Hin.
    destruct Hin as [<-|[<-|[]]]; split_and!; discriminate.
Defined.
