(* ===== verification/PlanStoreRuns.v ===== *)
(** Runs of the plan store: every operation that writes clients, plans,
    assignments or debts, in any order and with any outcome, and what holds of the
    database after them. *)
From Stdlib Require Import Floats.
From S2P Require Import Prelude Effects GoOrder GoStrings GoSort QoE DataPlan Gateway Handlers StoreTables StoreSample RouteRecovery PlanStore StoreLogic PlanStoreSafety.

#[local] Open Scope Z_scope.
#[local] Open Scope effect_scope.

(** ** Operations *)

(** The tables of candidates and of their evidence, which the other components
    of the controller write. *)
Record Inventory := {
  iv_candidates : gmap string CandidateRow;
  iv_sources : gmap string SourceRow;
  iv_health : gmap string HealthRow;
  iv_probes : gmap string ProbeRow;
  iv_samples : list SampleRow;
  iv_domains : gmap string FailureDomainRow;
  iv_evidence : gmap (string * string) Z;
  iv_qoe : gmap string QoE.State;
  iv_epoch : Z
}.

Definition set_inventory (i : Inventory) (d : Database) : Database :=
  d <| candidates := iv_candidates i |> <| sources := iv_sources i |>
    <| candidate_health := iv_health i |> <| candidate_probe_state := iv_probes i |>
    <| probe_samples := iv_samples i |> <| failure_domain_state := iv_domains i |>
    <| failure_domain_evidence := iv_evidence i |> <| candidate_qoe_state := iv_qoe i |>
    <| inventory_epoch := iv_epoch i |>.

Inductive StoreOp :=
  | OpPutClient (now : Time) (sealed : option string) (id name address public_key : string)
      (paused : bool) (config : string)
  | OpUpdateClient (now : Time) (id name : string) (paused : bool)
  | OpDeleteClient (id : string)
  | OpPeerActivity (id : string) (at_ : Time) (peer : PeerActivity)
  | OpActivity (now : Time) (id : string) (at_ : Time) (rx tx : Z)
  | OpInventory (i : Inventory)
  | OpPublish (generation : Z) (plan reason : string) (epoch : Z)
      (expectations : list CandidatePlanExpectation) (mappings : list RouteReserveMapping)
      (assignments : list AssignmentRecord)
  | OpMark (now : Time) (generation : Z) (plan : string)
  | OpRebase (invalid_too : bool)
  | OpSetAssignment (now : Time) (a : AssignmentRecord)
  | OpFailure (candidate : Candidate) (at_ : Time)
  | OpRecovered (candidate : Candidate)
  | OpPending.

Section Runs.
Context `{Json} `{PlanCodec} `{Vault}.

(** What an operation leaves, whatever it answers. *)
Definition perform (o : Outcome) (op : StoreOp) (d : Database) : Database :=
  match op with
  | OpPutClient now sealed id name address key paused config =>
      (PutClient o now sealed id name address key paused config d).2
  | OpUpdateClient now id name paused => (UpdateClient o now id name paused d).2
  | OpDeleteClient id => (DeleteClient o id d).2
  | OpPeerActivity id at_ peer => (RecordPeerActivity o id at_ peer d).2
  | OpActivity now id at_ rx tx => (RecordActivity o now id at_ rx tx d).2
  | OpInventory i => (transaction o (modify (set_inventory i)) d).2
  | OpPublish g plan reason epoch xs mappings l =>
      (saveDesiredPlanSnapshotForCandidatesAndReserves o g plan reason epoch xs mappings (Some l) d).2
  | OpMark now g plan => (MarkAppliedPlan o now g plan d).2
  | OpRebase invalid_too => (transaction o (rebaseUnsafeDesiredPlanTx invalid_too) d).2
  | OpSetAssignment now a => (SetAssignment o now a d).2
  | OpFailure candidate at_ => (transaction o (recordRouteRecoveriesTx candidate at_) d).2
  | OpRecovered candidate => (transaction o (clearRecoveredRouteDebtTx candidate) d).2
  | OpPending => (PendingRouteRecoveries o d).2
  end.

Definition run (ops : list (Outcome * StoreOp)) (d : Database) : Database :=
  fold_left (fun d '(o, op) => perform o op d) ops d.

(** ** The invariant is kept *)

(** A change that touches neither plans nor reserves, keeps every client that
    something refers to, and adds no debt under a wrong key. *)
Lemma plan_ok_frame d d' : plan_ok d -> plan_state d' = plan_state d ->
  desired_reserves d' ⊆ desired_reserves d -> applied_reserves d' ⊆ applied_reserves d ->
  ledger_ok d' ->
  (forall c, is_Some (desired_reserves d' !! c) \/ is_Some (applied_reserves d' !! c) \/
     is_Some (assignments d' !! c) -> is_Some (clients d' !! c)) -> plan_ok d'.
Proof.
  intros [Hrange Hinv Hreb Hdes Happ Hsame Hsnap Hled Hown] Hp Hd Ha Hl Ho.
  split; rewrite ?Hp; try done; by eapply stage_subset.
Qed.

(** Changes of a client row. *)
Lemma update_client_ok id f : returns plan_ok (
    row <- get (fun d => clients d !! id) ;;
    c <- requireAffected row "client" ;;
    modify (fun d => d <| clients := <[id := f c]> (clients d) |>)) (fun _ => plan_ok).
Proof.
  intros d Hok. unfold bind, get, requireAffected, required.
  destruct (clients d !! id) as [c|] eqn:E; [|done].
  pose proof (po_ledger _ Hok) as Hl. pose proof (po_owners _ Hok) as Ho.
  assert (forall k, is_Some (clients d !! k) -> is_Some (<[id := f c]> (clients d) !! k)) as Hk
    by (intros k Hs; apply lookup_insert_is_Some'; by right).
  apply (plan_ok_frame d); [done|destruct d; simpl in *..].
  - done.
  - done.
  - done.
  - intros k debt Hd. destruct (Hl _ _ Hd) as [? ?]. split; [done|by apply Hk].
  - intros k Hs. by apply Hk, Ho.
Qed.

Lemma put_client_ok o now sealed id name address key paused config d :
  plan_ok d -> plan_ok (PutClient o now sealed id name address key paused config d).2.
Proof.
  intros Hok. unfold PutClient, bind. rewrite tx_check.
  destruct (negb _); [|done]. destruct sealed as [encrypted|]; [|done]. cbn [required ret].
  apply keeps_transaction; [|done]. clear. intros d Hok. cbn zeta.
  destruct (existsb _ _); [done|].
  pose proof (po_ledger _ Hok) as Hl. pose proof (po_owners _ Hok) as Ho.
  apply (plan_ok_frame d); [done|destruct d; simpl in *..].
  - done.
  - done.
  - done.
  - intros k debt Hd. destruct (Hl _ _ Hd) as [? ?]. split; [done|]. apply lookup_insert_is_Some'. by right.
  - intros k Hs. apply lookup_insert_is_Some'. right. by apply Ho.
Qed.

Lemma delete_client_ok o id d : plan_ok d -> plan_ok (DeleteClient o id d).2.
Proof.
  apply keeps_transaction. clear. intros d Hok. unfold bind, get, requireAffected, required.
  destruct (clients d !! id) as [c|] eqn:E; [|done].
  pose proof (po_ledger _ Hok) as Hl. pose proof (po_owners _ Hok) as Ho.
  apply (plan_ok_frame d); [done|destruct d; simpl in *..].
  - done.
  - apply delete_subseteq.
  - apply delete_subseteq.
  - intros k debt. simpl. rewrite !lookup_delete_Some. intros (H2 & H3 & Hd).
    destruct (Hl _ _ Hd) as [-> Hc]. split; [done|]. apply lookup_delete_is_Some.
    split; [|done]. intros ->. destruct (de_Transport debt); congruence.
  - intros k Hs. rewrite !lookup_delete_is_Some in *. split; [tauto|]. apply Ho. tauto.
Qed.

Lemma rebase_ok b : returns plan_ok (rebaseUnsafeDesiredPlanTx b) (fun _ => plan_ok).
Proof.
  intros d Hok. destruct (rebaseUnsafeDesiredPlanTx b d) as [[e|u] d1] eqn:Hr; [done|].
  unfold rebaseUnsafeDesiredPlanTx in Hr. apply bind_inr in Hr as (p & d2 & Hs & Hr). run_in Hs.
  destruct (_ <=? _) eqn:Hle; [run_in Hr; done|]. z_bool.
  apply bind_inr in Hr as (exact & d2 & Hs & Hr).
  assert (steady (exact_snapshot (plan_state d))) as Hst by (unfold exact_snapshot, passes; steady; done).
  apply (steady_inr _ _ _ _ Hst) in Hs as ->. cbn zeta in Hr.
  destruct (_ || _); [run_in Hr; done|]. run_all Hr.
  destruct Hok as [Hrange Hinv Hreb Hdes Happ Hsame Hsnap Hled Hown]. destruct d as [p]; simpl in *.
  split; simpl; try done.
  - lia.
  - lia.
  - intros _. lia.
  - eapply stage_subset; [done|apply map_empty_subseteq].
  - by left.
  - intros c [[r Hc]|Hc]; [by rewrite lookup_empty in Hc|]. apply Hown. by right.
Qed.

Lemma set_assignment_ok now a : returns plan_ok (setAssignmentTx now a) (fun _ => plan_ok).
Proof.
  intros d Hok. destruct (setAssignmentTx now a d) as [[e|u] d1] eqn:Hr; [done|].
  unfold setAssignmentTx in Hr. run_all Hr. apply bool_decide_eq_true in Hcheck.
  pose proof (po_ledger _ Hok) as Hl. pose proof (po_owners _ Hok) as Ho.
  apply (plan_ok_frame d); [done|destruct d; simpl in *..]; try done.
  intros c [Hc|[Hc|Hc]]; [apply Ho; auto..|]. apply lookup_insert_is_Some' in Hc as [<-|Hc]; [done|].
  apply Ho. auto.
Qed.

(** Operations on the ledger alone. *)
Lemma ledger_frame_ok d d' : plan_ok d -> d' = d <| route_recovery := route_recovery d' |> ->
  ledger_ok d' -> plan_ok d'.
Proof.
  intros Hok Hd Hl. pose proof (po_owners _ Hok) as Ho.
  apply (plan_ok_frame d); [done| | | |done|]; rewrite Hd; by destruct d.
Qed.

Lemma failure_ok candidate at_ :
  returns plan_ok (recordRouteRecoveriesTx candidate at_) (fun _ => plan_ok).
Proof.
  intros d Hok. destruct (recordRouteRecoveriesTx candidate at_ d) as [[e|u] d1] eqn:Hr; [done|].
  destruct (appliedRecoveryPlanTx d) as [[e|plan] d2] eqn:Hp.
  { unfold recordRouteRecoveriesTx, bind in Hr. by rewrite Hp in Hr. }
  pose proof (appliedRecoveryPlanTx_same d) as Hs. rewrite Hp in Hs. simpl in Hs. subst d2.
  rewrite (record_run _ _ _ _ Hp) in Hr. injection Hr as _ <-.
  apply (ledger_frame_ok d); [done|apply record_step_frame|]. apply record_step_ok, Hok.
Qed.

Lemma recovered_ok candidate :
  returns plan_ok (clearRecoveredRouteDebtTx candidate) (fun _ => plan_ok).
Proof.
  intros d Hok. unfold clearRecoveredRouteDebtTx, modify.
  apply (ledger_frame_ok d); [done|by destruct d|].
  apply (ledger_subset d); [apply Hok|destruct d; apply map_filter_subseteq|by destruct d].
Qed.

Lemma pending_ok : returns plan_ok pendingRouteRecoveriesTx (fun _ => plan_ok).
Proof.
  intros d Hok. destruct (pendingRouteRecoveriesTx d) as [[e|u] d1] eqn:Hr; [done|].
  apply pending_frame in Hr as [Hf Hsub]. apply (ledger_frame_ok d); [done..|].
  apply (ledger_subset d); [apply Hok|done|]. rewrite Hf. by destruct d.
Qed.

Lemma inventory_ok i : returns plan_ok (modify (set_inventory i)) (fun _ => plan_ok).
Proof.
  intros d Hok. simpl. pose proof (po_ledger _ Hok) as Hl. pose proof (po_owners _ Hok) as Ho.
  apply (plan_ok_frame d); [done|destruct d; done..].
Qed.

Lemma perform_ok o op d : plan_ok d -> plan_ok (perform o op d).
Proof.
  intros Hok. destruct op; cbn [perform]; [by apply put_client_ok| |by apply delete_client_ok|..];
    unfold UpdateClient, RecordPeerActivity, RecordActivity, update_client,
      saveDesiredPlanSnapshotForCandidatesAndReserves, MarkAppliedPlan, SetAssignment,
      PendingRouteRecoveries; apply keeps_transaction; try done.
  - apply update_client_ok.
  - apply update_client_ok.
  - apply update_client_ok.
  - apply inventory_ok.
  - apply publish_ok.
  - apply mark_ok.
  - apply rebase_ok.
  - apply set_assignment_ok.
  - apply failure_ok.
  - apply recovered_ok.
  - apply pending_ok.
Qed.

Lemma store_run_ok ops d : plan_ok d -> plan_ok (run ops d).
Proof.
  revert d. induction ops as [|[o op] ops IH]; intros d Hok; cbn [run fold_left]; [done|].
  by apply IH, perform_ok.
Qed.

(** C15.  The plan tables stay well formed.  From a new database, after any
    operations on clients, plans, assignments, candidates and debts, each committed,
    interrupted or reported wrongly: the applied generation is not above the desired
    one; each of the two is nothing, or bytes that the strict decoder and the
    validator accept at exactly that generation, whose reserves are named by the
    plan itself and differ from their primaries; equal generations have equal bytes;
    a rebase leaves the desired plan at the applied one and remembers the higher
    generation; an assignment snapshot belongs to the desired generation; and every
    reserve, assignment and debt has its client. *)
Theorem plan_tables_well_formed ops : plan_ok (run ops new_database).
Proof. apply store_run_ok, plan_ok_new. Qed.

(** ** Generations *)

Definition high_water (d : Database) : Z :=
  Z.max (desired_generation (plan_state d)) (invalidated_generation (plan_state d)).

(** Operations that do not write the row of the plan. *)
Definition writes_plan (op : StoreOp) : bool :=
  match op with OpPublish _ _ _ _ _ _ _ | OpMark _ _ _ | OpRebase _ => true | _ => false end.

(** A transaction leaves the database as it was, or as its body did. *)
Lemma transaction_relates {A : Type} (R : Database -> Database -> Prop) o (body : Tx A) d :
  R d d -> (forall u d1, body d = (inr u, d1) -> R d d1) -> R d (transaction o body d).2.
Proof.
  intros HR Hb. unfold transaction. destruct (body d) as [[e|u] d1]; [by destruct o|].
  destruct o; simpl; [by eapply Hb|done|done|by eapply Hb].
Qed.

Definition same_row (d d' : Database) : Prop := plan_state d' = plan_state d.

Lemma update_client_row o id f d : same_row d (update_client o id f d).2.
Proof.
  unfold update_client. apply transaction_relates; [done|]. intros u d1 Hr. unfold requireAffected in Hr. run_all Hr.
  by destruct d.
Qed.

Lemma put_client_row o now sealed id name address key paused config d :
  same_row d (PutClient o now sealed id name address key paused config d).2.
Proof.
  unfold PutClient, bind. rewrite tx_check. destruct (negb _); [|done].
  destruct sealed; [|done]. cbn [required ret]. apply transaction_relates; [done|].
  intros u d1. cbn zeta. destruct (existsb _ _); [done|]. intros [= _ <-]. by destruct d.
Qed.

Lemma failure_row candidate at_ u d d1 :
  recordRouteRecoveriesTx candidate at_ d = (inr u, d1) -> same_row d d1.
Proof.
  intros Hr. destruct (appliedRecoveryPlanTx d) as [[e|plan] d2] eqn:Hp.
  { unfold recordRouteRecoveriesTx, bind in Hr. by rewrite Hp in Hr. }
  pose proof (appliedRecoveryPlanTx_same d) as Hs. rewrite Hp in Hs. simpl in Hs. subst d2.
  rewrite (record_run _ _ _ _ Hp) in Hr. injection Hr as _ <-. unfold same_row.
  rewrite record_step_frame. by destruct d.
Qed.

Lemma perform_row o op d : writes_plan op = false -> same_row d (perform o op d).
Proof.
  destruct op; cbn [writes_plan perform]; intros Hw; try discriminate Hw;
    try apply update_client_row; [apply put_client_row|..];
    unfold DeleteClient, SetAssignment, PendingRouteRecoveries; (apply transaction_relates; [done|]; intros u d1 Hr).
  - unfold requireAffected in Hr. run_all Hr. by destruct d.
  - run_all Hr. by destruct d.
  - unfold setAssignmentTx in Hr. run_all Hr. by destruct d.
  - by eapply failure_row.
  - unfold clearRecoveredRouteDebtTx in Hr. run_all Hr. by destruct d.
  - apply pending_frame in Hr as [-> _]. by destruct d.
Qed.

(** Neither the highest generation ever published nor the applied one goes back. *)
Definition progress (d d' : Database) : Prop :=
  high_water d <= high_water d' /\
  applied_generation (plan_state d) <= applied_generation (plan_state d').

Lemma rebase_inr b d r d1 : rebaseUnsafeDesiredPlanTx b d = (inr r, d1) ->
  d1 = d \/
  applied_generation (plan_state d) < desired_generation (plan_state d) /\
  desired_generation (plan_state d1) = applied_generation (plan_state d) /\
  applied_generation (plan_state d1) = applied_generation (plan_state d) /\
  invalidated_generation (plan_state d1) =
    Z.max (invalidated_generation (plan_state d)) (desired_generation (plan_state d)).
Proof.
  unfold rebaseUnsafeDesiredPlanTx. intros Hr. apply bind_inr in Hr as (p & d2 & Hs & Hr). run_in Hs.
  destruct (_ <=? _) eqn:Hle; [run_in Hr; by left|]. z_bool.
  apply bind_inr in Hr as (exact & d2 & Hs & Hr).
  assert (steady (exact_snapshot (plan_state d))) as Hst
    by (unfold exact_snapshot, passes; steady; done).
  apply (steady_inr _ _ _ _ Hst) in Hs as ->. cbn zeta in Hr.
  destruct (_ || _); [run_in Hr; by left|]. run_all Hr. right. by destruct d.
Qed.

Lemma perform_progress o op d : progress d (perform o op d).
Proof.
  unfold progress, high_water. destruct (writes_plan op) eqn:Hw; [|by rewrite perform_row].
  destruct op; try discriminate Hw; cbn [perform];
    unfold saveDesiredPlanSnapshotForCandidatesAndReserves, MarkAppliedPlan;
    (apply (transaction_relates progress); [done|]; intros u d1 Hr; unfold progress, high_water).
  - apply publish_inr in Hr as (? & ? & ? & ? & _ & _ & _ & _ & _ & _ & Hg & Hi & ->).
    destruct d; simpl in *. lia.
  - apply mark_inr in Hr as (_ & Hd & Ha & _ & _ & _ & ->). destruct d as [[]]; simpl in *. lia.
  - apply rebase_inr in Hr as [->|(? & ? & ? & ?)]; lia.
Qed.

Lemma run_progress ops d : progress d (run ops d).
Proof.
  revert d. induction ops as [|[o op] ops IH]; intros d; cbn [run fold_left]; [done|].
  destruct (perform_progress o op d), (IH (perform o op d)). unfold run in *. split; lia.
Qed.

Lemma publish_raises o g bytes reason epoch xs mappings l d :
  let d1 := perform o (OpPublish g bytes reason epoch xs mappings l) d in
  plan_state d1 <> plan_state d -> high_water d < g /\ g <= high_water d1.
Proof.
  cbn zeta. cbn [perform]. unfold saveDesiredPlanSnapshotForCandidatesAndReserves.
  apply (transaction_relates (fun d d1 =>
    plan_state d1 <> plan_state d -> high_water d < g /\ g <= high_water d1)); [done|].
  intros u d1 Hr. apply publish_inr in Hr as (? & ? & ? & ? & _ & _ & _ & _ & _ & _ & Hg & Hi & ->).
  intros _. unfold high_water. destruct d; simpl in *. lia.
Qed.

(** No generation is used twice.  When one publish took effect, be it reported
    or not, every later one that takes effect has a strictly higher generation,
    whatever happens between them: failed publishes, marking, a rebase that returns
    to the applied plan, changes of clients.  And the applied generation never goes
    back. *)
Theorem generations_never_reused d o g bytes reason epoch xs mappings l ops
    o' g' bytes' reason' epoch' xs' mappings' l' :
  let d1 := perform o (OpPublish g bytes reason epoch xs mappings l) d in
  let d2 := run ops d1 in
  let d3 := perform o' (OpPublish g' bytes' reason' epoch' xs' mappings' l') d2 in
  plan_state d1 <> plan_state d -> plan_state d3 <> plan_state d2 ->
  g < g' /\ applied_generation (plan_state d) <= applied_generation (plan_state d2).
Proof.
  intros d1 d2 d3 H2 H3. apply publish_raises in H2 as [_ H2]. apply publish_raises in H3 as [H3 _].
  destruct (run_progress ops d1) as [H4 H5].
  destruct (perform_progress o (OpPublish g bytes reason epoch xs mappings l) d) as [_ H6].
  fold d1 in H2, H6. fold d2 in H4, H5. lia.
Qed.

(** ** Reserves for a failure *)

Lemma reserves_from_route plan handlers ms c m :
  expectedRouteReserveMappings plan handlers = inr ms -> ms !! c = Some m ->
  exists route, In route (Clients plan) /\ ClientID route = c /\ mapping_of handlers route = inr m.
Proof.
  unfold expectedRouteReserveMappings.
  assert (forall l (acc ms : gmap string RouteReserveMapping),
    fold_attempt (fun expected route => mapping <~ mapping_of handlers route ;;
      inr (if has_reserve mapping then <[ClientID route := mapping]> expected else expected))
      acc l = inr ms -> ms !! c = Some m -> acc !! c = Some m \/
    exists route, In route l /\ ClientID route = c /\ mapping_of handlers route = inr m) as Hf.
  { clear ms. induction l as [|r l IH]; intros acc ms; cbn [fold_attempt].
    - intros [= ->]. auto.
    - intros Hr Hm. apply attempt_inr in Hr as (acc' & Ha & Hr).
      apply attempt_inr in Ha as (m' & Hm' & [= <-]).
      destruct (IH _ _ Hr Hm) as [Hl|(r' & ? & ? & ?)]; [|right; exists r'; simpl; auto].
      destruct (has_reserve m'); [|auto]. apply lookup_insert_Some in Hl as [[Hc <-]|[_ Hl]]; [|auto].
      right. exists r. simpl. auto. }
  intros Hr Hm. destruct (Hf _ _ _ Hr Hm) as [Hl|?]; [by rewrite lookup_empty in Hl|done].
Qed.

(** The candidate behind a route's primary and reserve in a decoded plan. *)
Definition route_candidate (handlers : Bindings) (route : ClientRoute) (outbound : string) :
    StoreError + string := routeCandidateBinding (ClientID route) outbound handlers.

Definition reserve_outbound (t : RouteTransport) (route : ClientRoute) : string :=
  match t with
  | RouteTransportTCP => TCPReserveOutbound route | RouteTransportUDP => UDPReserveOutbound route end.

Lemma mapping_of_inr handlers route m t : mapping_of handlers route = inr m ->
  reserve_of t m <> EmptyString ->
  route_candidate handlers route (outbound_of t route) = inr (primary_of t m) /\
  route_candidate handlers route (reserve_outbound t route) = inr (reserve_of t m).
Proof.
  unfold mapping_of, route_candidate. intros Hr.
  apply attempt_inr in Hr as (tr & H1' & Hr). apply attempt_inr in Hr as (ur & H2 & Hr).
  apply attempt_inr in Hr as (tp & H3 & Hr). apply attempt_inr in Hr as (up & H4 & [= <-]).
  destruct t; simpl; intros Hne; apply str_eqb_neq in Hne; rewrite Hne in *; auto.
Qed.

(** C17.  A failed primary is replaced only by a reserve that was prepared for it.
    After any run of the store, when a reserve is answered for the failure of a
    client's primary, the database is not changed, the client exists and is assigned
    that primary, and the applied plan is valid, at the applied generation, and has
    a route of the client whose outbound on that transport is bound to the primary
    and whose reserve outbound is bound to the reserve, another candidate. *)
Theorem applied_reserve_is_safe ops o client t primary reserve d' :
  let d := run ops new_database in
  AppliedReserveForFailure o client t primary d = (inr (Some reserve), d') ->
  d' = d /\ reserve <> primary /\ reserve <> EmptyString /\ is_Some (clients d !! client) /\
  (exists row, assignments d !! client = Some row /\ assigned_of t row = primary) /\
  exists bytes plan handlers route,
    applied_plan (plan_state d) = Some bytes /\ decode_plan bytes = Some plan /\
    Validate plan = None /\ Generation plan = applied_generation (plan_state d) /\
    persistedPlanHandlers plan = inr handlers /\ In route (Clients plan) /\
    ClientID route = client /\
    route_candidate handlers route (outbound_of t route) = inr primary /\
    route_candidate handlers route (reserve_outbound t route) = inr reserve.
Proof.
  intros d Hr. assert (plan_ok d) as Hok by apply store_run_ok, plan_ok_new.
  unfold AppliedReserveForFailure in Hr.
  destruct (_ || _); [discriminate Hr|].
  assert (applied_reserve d client t primary = Some reserve /\ d' = d) as [Ha ->]
    by (unfold query, transaction, get in Hr; destruct o; by simplify_eq).
  unfold applied_reserve in Ha. destruct (applied_reserves d !! client) as [[g m]|] eqn:Em; [|done].
  destruct (assignments d !! client) as [row|] eqn:Erow; [|done].
  destruct (_ && _) eqn:E in Ha; [|done]. injection Ha as <-. split_bool. z_bool. str_bool. subst.
  destruct (decide (applied_generation (plan_state d) = 0)) as [Hz|Hnz].
  { destruct (stage_none _ _ _ (po_applied _ Hok) Hz) as [_ E]. by rewrite E, lookup_empty in Em. }
  destruct (stage_some _ _ _ (po_applied _ Hok) Hnz) as (b & plan & h & ms & Hb & Hp & Hres).
  destruct (Hres _ _ Em) as (_ & Hms & Hsane). cbn [snd] in *.
  destruct (reserves_from_route plan h ms client m) as (route & Hin & Hc & Hm);
    [apply Hp|done|].
  destruct (mapping_of_inr h route m t Hm) as [H5 H6]; [done|].
  split; [done|]. split; [destruct (Hsane t) as [[? ?]|(? & ? & ?)]; congruence|]. split; [done|].
  split; [apply Hok; eauto|]. split; [eauto|].
  exists b, plan, h, route. destruct Hp. by split_and!.
Qed.
End Runs.

(** ** On the small store *)

Definition stored_inventory : Inventory := {|
  iv_candidates := candidates (stored_database false); iv_sources := sources (stored_database false);
  iv_health := candidate_health (stored_database false); iv_probes := ∅; iv_samples := [];
  iv_domains := ∅; iv_evidence := ∅;
  iv_qoe := ∅; iv_epoch := 0 |}.

Definition stored_expectations : list CandidatePlanExpectation :=
  map (fun id => {| x_Candidate := stored_candidate id; x_AllowDraining := false;
                    x_EvidenceDigest := EmptyString |}) ["cand_a"; "cand_b"]%string.

Definition stored_publish (g : Z) : StoreOp :=
  OpPublish g (stored_bytes g) "periodic" 0
    stored_expectations [stored_mapping] stored_assignments.

(** A client, two candidates, and a first plan that is published and applied. *)
Definition stored_start : list (Outcome * StoreOp) :=
  [(Commits, OpPutClient (of_unix 10) (Some "sealed"%string) "alice" "Alice" "10.44.0.2/32" "key"
               false "config");
   (Commits, OpInventory stored_inventory)].

Definition stored_ops : list (Outcome * StoreOp) :=
  stored_start ++ [(Commits, stored_publish 1); (Commits, OpMark (of_unix 100) 1 (stored_bytes 1))].

#[local] Existing Instance sample_json.

Example stored_run_applies :
  (plan_state (run stored_ops new_database)).(applied_generation) = 1 /\
  assignments (run stored_ops new_database) = assignments (stored_database false).
Proof. vm_compute. split; reflexivity. Qed.

(** A publish whose answer is lost took effect: the next one needs a higher
    generation. *)
Lemma generations_never_reused_witness :
  let d := run stored_ops new_database in
  let d2 := run [(Commits, OpRebase true)] (perform CommitUnreported (stored_publish 5) d) in
  plan_state (perform Commits (stored_publish 7) d2) <> plan_state d2 /\ 5 < 7.
Proof.
  intros d d2. assert (plan_state (perform Commits (stored_publish 7) d2) <> plan_state d2) as H3.
  { intros E. apply (f_equal desired_generation) in E. vm_compute in E. discriminate E. }
  split; [exact H3|].
  apply (generations_never_reused d CommitUnreported 5 (stored_bytes 5) "periodic" 0
    stored_expectations [stored_mapping] stored_assignments
    [(Commits, OpRebase true)] Commits 7 (stored_bytes 7) "periodic" 0
    stored_expectations [stored_mapping] stored_assignments).
  - intros E. apply (f_equal desired_generation) in E. vm_compute in E. discriminate E.
  - exact H3.
Defined.

Lemma applied_reserve_is_safe_witness :
  "cand_b" <> "cand_a" /\ "cand_b" <> EmptyString.
Proof.
  destruct (applied_reserve_is_safe stored_ops Commits "alice" RouteTransportTCP "cand_a" "cand_b"
    (run stored_ops new_database)) as (_ & H1 & H2 & _).
  - vm_compute. reflexivity.
  - split; [exact H1|exact H2].
Defined.
