(* ===== verification/PlanStoreMark.v ===== *)
(** What was published can be marked applied: the whole path of one plan through
    the store, and a small store to evaluate it on. *)
From Stdlib Require Import Floats.
From S2P Require Import Prelude Effects GoOrder GoStrings GoSort QoE DataPlan Gateway Handlers StoreTables StoreSample RouteRecovery PlanStore StoreLogic PlanStoreSafety PlanStoreRuns.

#[local] Open Scope Z_scope.
#[local] Open Scope effect_scope.

(** ** What a snapshot has to be *)

Section Snapshots.
Context `{Json} `{PlanCodec} `{Vault}.

(** An assignment as its client is routed; a paused client has none. *)
Definition assigned_as_routed (d : Database) (targets : gmap string (string * string))
    (a : AssignmentRecord) : Prop :=
  exists c, clients d !! as_ClientID a = Some c /\
    if cl_paused c
    then targets !! as_ClientID a = None /\ as_TCPOutbound a = EmptyString /\
         as_UDPOutbound a = EmptyString
    else targets !! as_ClientID a = Some (as_TCPOutbound a, as_UDPOutbound a).

Definition snapshot_ok (d : Database) (targets : gmap string (string * string))
    (l : list AssignmentRecord) : Prop :=
  length l = size (clients d) /\ NoDup (map as_ClientID l) /\
  Forall (assigned_as_routed d targets) l.

Lemma check_assignment_inr targets seen a d :
  (exists s, check_assignment targets seen a d = (inr s, d)) <->
  assigned_as_routed d targets a /\ as_ClientID a ∉ seen.
Proof.
  unfold check_assignment, assigned_as_routed, bind, get.
  destruct (clients d !! as_ClientID a) as [c|] eqn:Ec; [|split; [by intros [s [=]]|naive_solver]].
  rewrite tx_check. destruct (bool_decide_reflect (as_ClientID a ∈ seen)) as [Hin|Hn]; cbn [negb].
  { split; [by intros [s [=]]|naive_solver]. }
  destruct (cl_paused c) eqn:Ep; rewrite tx_check; split.
  - destruct (_ && _) eqn:E; [|by intros [s [=]]]. split_bool. str_bool.
    match goal with Hb : bool_decide _ = false |- _ => apply bool_decide_eq_false in Hb;
      apply eq_None_not_Some in Hb end. intros _. split; [|done]. exists c. by rewrite Ep.
  - intros [(c' & [= <-] & Hc) _]. rewrite Ep in Hc. destruct Hc as (-> & -> & ->).
    rewrite bool_decide_false by (by intros [? [=]]). simpl. eauto.
  - destruct (bool_decide_reflect (targets !! as_ClientID a =
      Some (as_TCPOutbound a, as_UDPOutbound a))) as [Ht|]; [|by intros [s [=]]].
    intros _. split; [|done]. exists c. by rewrite Ep.
  - intros [(c' & [= <-] & Hc) _]. rewrite Ep in Hc. rewrite bool_decide_true by done.
    simpl. eauto.
Qed.

Lemma check_assignment_value targets seen a d s d' :
  check_assignment targets seen a d = (inr s, d') -> s = {[as_ClientID a]} ∪ seen /\ d' = d.
Proof.
  unfold check_assignment, bind, get. destruct (clients d !! as_ClientID a) as [c|]; [|done].
  rewrite tx_check. destruct (negb _); [|done].
  destruct (cl_paused c); rewrite tx_check; (destruct (_ : bool); [|done]); by intros [= <- <-].
Qed.

Lemma check_assignments_inr targets l seen d :
  (exists s, foldM (check_assignment targets) seen l d = (inr s, d)) <->
  NoDup (map as_ClientID l) /\ Forall (assigned_as_routed d targets) l /\
  forall c, In c (map as_ClientID l) -> c ∉ seen.
Proof.
  revert seen. induction l as [|a l IH]; intros seen; cbn [foldM map].
  { split; [intros _; split_and!; [constructor|constructor|done]|by eexists]. }
  unfold bind. split.
  - intros [s Hs]. destruct (check_assignment targets seen a d) as [[e|s'] d'] eqn:E; [done|].
    destruct (check_assignment_value _ _ _ _ _ _ E) as [-> ->].
    destruct (proj1 (check_assignment_inr targets seen a d)) as [Ha Hn]; [by eexists|].
    destruct (proj1 (IH ({[as_ClientID a]} ∪ seen))) as (Hnd & Hall & Hseen); [by eexists|]. split_and!.
    + constructor; [|done]. rewrite list_elem_of_In. intros Hin. apply Hseen in Hin. set_solver.
    + by constructor.
    + intros c [<-|Hin]; [done|]. apply Hseen in Hin. set_solver.
  - intros (Hnd & Hall & Hseen). inversion Hnd as [|? ? Hn Hnd']; subst.
    inversion Hall as [|? ? Ha Hall']; subst. rewrite list_elem_of_In in Hn.
    destruct (proj2 (check_assignment_inr targets seen a d)) as [s' E].
    { split; [done|]. apply Hseen. by left. }
    rewrite E. destruct (check_assignment_value _ _ _ _ _ _ E) as [-> _]. apply IH.
    split_and!; [done..|]. intros c Hin. specialize (Hseen c (or_intror Hin)).
    assert (c <> as_ClientID a) by (intros ->; done). set_solver.
Qed.

Lemma check_snapshot_iff targets l d :
  check_snapshot targets l d = (inr tt, d) <-> snapshot_ok d targets l.
Proof.
  unfold check_snapshot, snapshot_ok, bind, get. rewrite tx_check.
  destruct (Nat.eqb_spec (length l) (size (clients d))) as [El|Hn]; [|split; [done|by intros [? _]]].
  pose proof (check_assignments_inr targets l ∅ d) as Hf.
  destruct (foldM _ ∅ l d) as [[e|s] d'] eqn:E.
  - split; [done|]. intros (_ & Hnd & Hall). destruct (proj2 Hf) as [s Hs]; [|discriminate Hs].
    split_and!; [done..|]. intros c _. apply not_elem_of_empty.
  - split.
    + intros [= ->]. destruct (proj1 Hf) as (? & ? & _); [by eexists|]. done.
    + intros (_ & Hnd & Hall). destruct (proj2 Hf) as [s' Hs]; [|by injection Hs as _ ->].
      split_and!; [done..|]. intros c _. apply not_elem_of_empty.
Qed.

(** The order of a snapshot does not matter, nor what else the database holds. *)
Lemma snapshot_ok_perm d d' targets l l' : l ≡ₚ l' -> clients d' = clients d ->
  snapshot_ok d targets l -> snapshot_ok d' targets l'.
Proof.
  intros Hp Hc (Hn & Hnd & Hall). unfold snapshot_ok, assigned_as_routed. rewrite Hc, <- Hp. done.
Qed.
End Snapshots.

(** ** Marking after publishing *)

Section Marking.
Context `{Json} `{PlanCodec} `{Vault}.

(** Documented behaviour of [encoding/json]: what the strict decoder accepts the
    lenient ones accept too, with the same plan; and a snapshot that was encoded, a
    list and not null, is decoded to itself. *)
Class PlanCodecLaws : Prop := {
  strict_is_lenient b p : decode_plan b = Some p -> unmarshal_plan b = Some p;
  strict_has_dormancy b p : decode_plan b = Some p -> is_Some (unmarshal_dormancy b);
  snapshot_round_trip l e : marshal_assignments l = Some e ->
    str_eqb (trim_space e) "null" = false /\ decode_assignments e = Some (Some l)
}.
Context `{!PlanCodecLaws}.

Lemma set_assignments_run now l d :
  Forall (fun a => is_Some (clients d !! as_ClientID a)) l ->
  forM l (setAssignmentTx now) d =
    (inr tt, d <| assignments := assignment_rows now l (assignments d) |>).
Proof.
  unfold forM. intros Hl. revert d Hl. induction l as [|a l IH]; intros d Hl; cbn [foldM].
  { by destruct d. }
  inversion Hl as [|? ? Ha Hl']; subst. unfold bind at 1, setAssignmentTx at 1, bind, get.
  rewrite tx_check, bool_decide_true by done. cbn [modify].
  rewrite IH by by destruct d. by destruct d.
Qed.

Lemma assignment_rows_index now l :
  assignment_rows now l ∅ = assignment_row now <$> index_by as_ClientID l.
Proof.
  unfold assignment_rows, index_by. rewrite <- (fmap_empty (assignment_row now)).
  generalize (∅ : gmap string AssignmentRecord). induction l as [|a l IH]; intros m; simpl; [done|].
  by rewrite <- fmap_insert, IH.
Qed.

Lemma dormancy_decoded b p : decode_plan b = Some p -> exists m, dormancy b = inr m.
Proof.
  intros Hb. unfold dormancy. destruct (str_eqb b EmptyString); [by eexists|].
  destruct (strict_has_dormancy _ _ Hb) as [l ->]. by eexists.
Qed.

Lemma stage_dormancy g b r : stage_ok g b r -> exists m, dormancy (blob b) = inr m.
Proof.
  intros [Hn Hs]. destruct (decide (g = 0)) as [Hz|Hz].
  - destruct (Hn Hz) as [-> _]. by eexists.
  - destruct (Hs Hz) as (bytes & p & h & ms & -> & Hp & _). eapply dormancy_decoded, Hp.
Qed.

Lemma validate_snapshot_run bytes plan handlers targets l d :
  decode_plan bytes = Some plan -> Validate plan = None ->
  persistedPlanHandlers plan = inr handlers -> route_targets handlers plan = inr targets ->
  snapshot_ok d targets l -> validatePersistedAssignmentSnapshot bytes l d = (inr tt, d).
Proof.
  intros Hb Hv Hh Ht Hl. unfold validatePersistedAssignmentSnapshot, bind. rewrite Hb.
  cbn [required ret]. rewrite tx_check, bool_decide_true by done. rewrite Hh. cbn [lift ret].
  rewrite Ht. cbn [lift ret]. by apply check_snapshot_iff.
Qed.

Lemma pending_run d plan : ledger_ok d -> applied_generation (plan_state d) <> 0 ->
  unmarshal_plan (blob (applied_plan (plan_state d))) = Some plan ->
  Generation plan = applied_generation (plan_state d) ->
  exists debts d1, pendingRouteRecoveriesTx d = (inr debts, d1).
Proof.
  intros Hl Hz Hu Hg. destruct (pending_spec d plan Hl) as (debts & Hr & _); [|eauto].
  unfold appliedRecoveryPlanTx, bind, get. apply Z.eqb_neq in Hz. rewrite Hz.
  unfold blob in Hu. rewrite Hu. cbn [required ret]. by rewrite tx_check, Hg, Z.eqb_refl.
Qed.

(** The snapshot of a published plan is read back whole. *)
Lemma published_snapshot_read d g bytes reason plan handlers targets l encoded reserves :
  published g bytes plan handlers reserves -> route_targets handlers plan = inr targets ->
  check_snapshot targets l d = (inr tt, d) -> 0 <= desired_generation (plan_state d) < g ->
  marshal_assignments (sort_slice assignment_less l) = Some encoded ->
  forall d1, clients d1 = clients d -> assignments d1 = assignments d ->
  read_snapshot g (published_row (plan_state d) g bytes reason encoded) d1 =
    (inr (Some (sort_slice assignment_less l, previous_assignments d)), d1).
Proof.
  intros Hp Ht Hc Hg He d1 Hcl Ha. unfold read_snapshot, bind. cbn [published_row
    desired_assignments_generation desired_assignments desired_plan blob from_option id].
  destruct (Z.eqb_spec g 0); [lia|]. rewrite tx_check, Z.eqb_refl.
  destruct (snapshot_round_trip _ _ He) as [Hn Hd]. unfold decoded_snapshot. cbn [blob from_option id].
  rewrite Hn, Hd. cbn [required ret].
  rewrite (validate_snapshot_run _ plan handlers targets); try apply Hp; [|done|].
  2: { apply (snapshot_ok_perm d _ _ l); [symmetry; apply sort_slice_Permutation|done|].
       by apply check_snapshot_iff. }
  cbn [get ret]. unfold previous_assignments, ret. by rewrite Ha.
Qed.

Lemma bind_run {A B : Type} (m : Tx A) (k : A -> Tx B) d a d1 :
  m d = (inr a, d1) -> bind m k d = k a d1.
Proof. unfold bind. by intros ->. Qed.

Lemma index_by_perm {A : Type} (key : A -> string) l l' :
  NoDup (map key l) -> l ≡ₚ l' -> index_by key l = index_by key l'.
Proof.
  intros Hnd Hp. apply map_eq. intros k. apply option_eq. intros x.
  assert (NoDup (map key l')) as Hnd' by by rewrite <- Hp.
  split; intros [Hin <-]%index_by_Some; apply index_by_unique; try done;
    [by rewrite <- Hp|by rewrite Hp].
Qed.

Lemma snapshot_covers d targets l : snapshot_ok d targets l ->
  dom (index_by as_ClientID l) = dom (clients d).
Proof.
  intros (Hn & Hnd & Hall).
  assert (dom (index_by as_ClientID l) = list_to_set (map as_ClientID l)) as Hd.
  { apply set_eq. intros c. rewrite elem_of_dom, elem_of_list_to_set, list_elem_of_In.
    apply index_by_is_Some. }
  rewrite Hd. apply set_subseteq_size_eq.
  - intros c. rewrite elem_of_list_to_set, list_elem_of_In, elem_of_dom, in_map_iff.
    intros (a & <- & Hin). eapply List.Forall_forall in Hall; [|done]. destruct Hall as (? & -> & _).
    eauto.
  - rewrite size_list_to_set, size_dom, length_map by done. lia.
Qed.

(** Marking runs through on a database where the plan has just been published. *)
Lemma mark_runs d g bytes reason plan handlers targets l encoded mappings now :
  plan_ok d ->
  published g bytes plan handlers (index_by rm_ClientID mappings) ->
  route_targets handlers plan = inr targets -> check_snapshot targets l d = (inr tt, d) ->
  marshal_assignments (sort_slice assignment_less l) = Some encoded ->
  desired_generation (plan_state d) < g ->
  exists d2, MarkAppliedPlan_body now g bytes
    (d <| plan_state := published_row (plan_state d) g bytes reason encoded |>
       <| desired_reserves := (fun x => (g, x)) <$> index_by rm_ClientID mappings |>) = (inr tt, d2).
Proof.
  intros Hok Hp Ht Hc He Hg. destruct (po_range _ Hok) as [Hr1 Hr2].
  destruct (stage_dormancy _ _ _ (po_applied _ Hok)) as [was Hwas].
  destruct (dormancy_decoded _ _ (pub_decode _ _ _ _ _ Hp)) as [now_dormant Hnow].
  pose proof (published_snapshot_read d g bytes reason plan handlers targets l encoded _ Hp Ht Hc
    ltac:(lia) He) as Hread.
  set (p := published_row (plan_state d) g bytes reason encoded) in *.
  set (reserves := _ <$> _ : gmap string (Z * RouteReserveMapping)).
  set (d1 := d <| plan_state := p |> <| desired_reserves := reserves |>).
  assert (plan_state d1 = p /\ desired_reserves d1 = reserves /\ clients d1 = clients d /\
    assignments d1 = assignments d) as (E1 & E2 & E3 & E4) by by destruct d.
  unfold MarkAppliedPlan_body. rewrite (bind_run _ _ d1 p d1) by (unfold get; by rewrite E1).
  rewrite (bind_run _ _ d1 tt d1)
    by (rewrite tx_check; unfold p; cbn [published_row desired_plan blob from_option id];
        by rewrite str_eqb_refl).
  rewrite (bind_run _ _ d1 reserves d1) by (unfold get; by rewrite E2).
  rewrite (bind_run _ _ d1 tt d1) by (rewrite tx_check; unfold p;
    cbn [published_row desired_assignments_generation]; by rewrite Z.eqb_refl, orb_true_r).
  erewrite (bind_run _ _ d1) by by apply Hread.
  rewrite (bind_run _ _ d1 tt d1).
  2: { rewrite tx_check. unfold p. cbn [published_row desired_generation applied_generation].
       rewrite Z.eqb_refl. by replace (applied_generation (plan_state d) <? g) with true
         by (symmetry; lia). }
  erewrite (bind_run (modify _)) by reflexivity.
  erewrite (bind_run (check _ _)).
  2: { rewrite tx_check, bool_decide_true; [done|]. intros c r Hl. unfold reserves in Hl.
       apply lookup_fmap_Some in Hl as (m & <- & _). done. }
  set (d2 := d1 <| plan_state := _ |>).
  assert (exists d3, take_snapshot now p
    (Some (sort_slice assignment_less l, previous_assignments d)) d2 = (inr tt, d3)) as [d3 Htake].
  { unfold take_snapshot. erewrite (bind_run (modify _)) by reflexivity.
    erewrite (bind_run (forM _ _)).
    2: { apply set_assignments_run. apply check_snapshot_iff in Hc as (_ & _ & Hall).
         rewrite sort_slice_Permutation. eapply Forall_impl; [exact Hall|].
         intros a (c & Hcl & _). unfold d2, d1. destruct d; simpl in *. eauto. }
    unfold appendAssignmentMigrationEventsTx. unfold p. cbn [published_row applied_plan desired_plan
      desired_reason blob from_option id].
    fold (blob (applied_plan (plan_state d))). rewrite Hwas, Hnow. cbn [lift].
    unfold bind, ret, modify. eauto. }
  erewrite (bind_run (take_snapshot _ _ _)) by exact Htake.
  erewrite (bind_run (modify _)) by reflexivity.
  destruct (snapshot_inr now g d1 (plan_state d2) (Some (sort_slice assignment_less l,
    previous_assignments d)) tt d3) as [_ Hd3].
  { rewrite E1. by apply Hread. }
  { rewrite E1. exact Htake. }
  set (d4 := d3 <| applied_reserves := _ |>).
  destruct (pending_run d4 plan) as (debts & d5 & Hpend).
  - unfold d4. rewrite Hd3. unfold d2, d1. intros k debt Hl. apply (po_ledger _ Hok).
    destruct d; exact Hl.
  - unfold d4. rewrite Hd3. unfold d2, d1, p. destruct d. simpl. lia.
  - unfold d4. rewrite Hd3. unfold d2, d1, p. destruct d. simpl.
    apply strict_is_lenient, (pub_decode _ _ _ _ _ Hp).
  - unfold d4. rewrite Hd3. unfold d2, d1, p. destruct d. simpl.
    apply (pub_generation _ _ _ _ _ Hp).
  - erewrite (bind_run pendingRouteRecoveriesTx) by exact Hpend. by eexists.
Qed.

(** C14.  A published plan can be applied, and then it is what was published.  After
    any run of the store, when a plan is published with its reserves and its
    assignment snapshot, marking exactly these bytes and generation succeeds.  Then
    the applied plan is these bytes, the applied reserves are the mappings that were
    given, every client has exactly the assignment of the snapshot, and the log of
    events has gained one event for every assignment that moved from one outbound
    to another, in the order of clients; marking it again is refused. *)
Theorem publish_then_mark ops g bytes reason epoch xs mappings l now d1 :
  let d := run ops new_database in
  publish_body g bytes reason epoch xs mappings (Some l) d = (inr tt, d1) ->
  exists d2 was_dormant is_dormant,
    MarkAppliedPlan Commits now g bytes d1 = (inr tt, d2) /\
    applied_generation (plan_state d2) = g /\ applied_plan (plan_state d2) = Some bytes /\
    applied_reserves d2 = (fun m => (g, m)) <$> index_by rm_ClientID mappings /\
    assignments d2 = assignment_row now <$> index_by as_ClientID l /\
    dom (assignments d2) = dom (clients d2) /\
    dormancy (blob (applied_plan (plan_state d))) = inr was_dormant /\
    dormancy bytes = inr is_dormant /\
    events d2 = events d ++ flat_map (assignment_events (assignmentMigrationReason reason) reason
      was_dormant is_dormant now (previous_assignments d)) (sort_slice assignment_less l) /\
    exists e, (MarkAppliedPlan Commits now g bytes d2).1 = inl e.
Proof.
  intros d Hpub. assert (plan_ok d) as Hok by apply store_run_ok, plan_ok_new.
  destruct (po_range _ Hok) as [Hr1 Hr2].
  destruct (publish_inr _ _ _ _ _ _ _ _ _ _ Hpub) as (plan & handlers & targets & encoded & Hp & _ &
    _ & Ht & Hc & He & Hg & _ & Hd1).
  destruct (mark_runs d g bytes reason plan handlers targets l encoded mappings now)
    as [d2 Hmark]; [done..|]. rewrite <- Hd1 in Hmark.
  destruct (mark_inr _ _ _ _ _ _ Hmark) as (_ & _ & _ & _ & Htaken & _ & Hd2).
  apply check_snapshot_iff in Hc. destruct (snapshot_round_trip _ _ He) as [Hn Hdec].
  destruct Htaken as [(Hz & _)|(_ & l' & was & now_dormant & Hl' & Hwas & Hnow & _ & Ha & _ & Hev)].
  { exfalso. rewrite Hd1 in Hz. destruct d; simpl in *. lia. }
  assert (l' = sort_slice assignment_less l) as ->.
  { rewrite Hd1 in Hl'. destruct d; simpl in Hl'. unfold decoded_snapshot in Hl'.
    cbn [blob from_option id] in Hl'. rewrite Hn, Hdec in Hl'. by injection Hl'. }
  assert (assignments d2 = assignment_row now <$> index_by as_ClientID l) as Ha2.
  { rewrite Ha, assignment_rows_index. f_equal. symmetry.
    apply index_by_perm; [apply Hc|symmetry; apply sort_slice_Permutation]. }
  exists d2, was, now_dormant. unfold MarkAppliedPlan. rewrite !transaction_Commits, Hmark.
  split; [done|]. split; [by rewrite Hd2|]. split; [by rewrite Hd2|].
  split. { rewrite Hd2, Hd1. by destruct d. }
  split; [done|]. split.
  { rewrite Ha2, dom_fmap_L, (snapshot_covers d targets) by done. rewrite Hd2, Hd1. by destruct d. }
  rewrite Hd1 in Hwas, Hnow, Hev. destruct d as [p0]; simpl in *.
  split_and!; [done..|].
  destruct (MarkAppliedPlan_body now g bytes d2) as [[e|u] d3] eqn:E; [by exists e|]. exfalso.
  apply mark_inr in E as (_ & _ & Hlt & _). rewrite Hd2 in Hlt. simpl in Hlt. lia.
Qed.
End Marking.

(** ** On the small store *)

#[local] Existing Instance sample_json.

Lemma stored_codec_laws : PlanCodecLaws.
Proof.
  split; cbn [decode_plan unmarshal_plan unmarshal_dormancy marshal_assignments decode_assignments
              stored_codec].
  - done.
  - intros b p ->. by eexists.
  - intros l e. destruct (decide (l = stored_assignments)) as [->|].
    + intros [= <-]. by split; [vm_compute|].
    + destruct (decide (l = moved_assignments)) as [->|]; [|done].
      intros [= <-]. by split; [vm_compute|].
Qed.

Lemma publish_then_mark_witness :
  exists d2, MarkAppliedPlan Commits (of_unix 100) 1 (stored_bytes 1)
      (run (stored_start ++ [(Commits, stored_publish 1)]) new_database) = (inr tt, d2) /\
    applied_generation (plan_state d2) = 1.
Proof.
  destruct (@publish_then_mark sample_json stored_codec open_vault stored_codec_laws stored_start 1
    (stored_bytes 1) "periodic" 0
    stored_expectations [stored_mapping] stored_assignments (of_unix 100)
    (run (stored_start ++ [(Commits, stored_publish 1)]) new_database))
    as (d2 & was & now_dormant & Hmark & Hg & _).
  - vm_compute. reflexivity.
  - exists d2. split; [exact Hmark|exact Hg].
Defined.
