(* ===== verification/EnginePublish.v ===== *)
(** How the controller's engine makes a plan durable, hands it to the gateway
    agent and marks it applied (controller/engine_plan.go, controller/flow_recovery.go,
    the end of [cycleOnce] in controller/engine.go).

    The engine acts on a world: the database, the scheduler it commits previews to,
    and the calls made so far.  An environment answers: it decides the outcome of
    every transaction, what the agent answers, and what other writers do in between.
    Plans are written under the engine's cycle gate only, so the others write no
    plans. *)
From Stdlib Require Import Floats.
From S2P Require Import Prelude Effects GoOrder GoStrings GoSort QoE DataPlan DataChange Gateway Handlers SchedState StoreTables StoreSample RouteRecovery PlanStore StoreLogic PlanStoreSafety RoutingSnapshot PlanStoreRuns.

#[local] Open Scope Z_scope.
#[local] Open Scope effect_scope.

Inductive EngineError :=
  | StoreFailed (e : StoreError) | CorruptPlanState
  | ActiveCriticalRouteLimitError (planned limit : Z) | PlanRejected (e : PlanError)
  | EncodeFailed | ProfilesChanged | PreviewFailed (e : SchedState.Error) | AgentFailed.

(** The calls that leave the process or its database; an agent call also notes the
    database it was made on. *)
Inductive Call :=
  | CallStore (ok : bool)
  | CallFence (version : Z) (ok : bool)
  | CallAgent (plan : DesiredPlan) (scopes : list FlowRecovery) (seen : Database) (ok : bool).

Record Env := {
  activeCriticalRouteLimit : Z;
  recovering_agent : bool;
  outcome : list Call -> Outcome;
  others : list Call -> list (Outcome * StoreOp);
  owner_now : list Call -> Scheduler -> Scheduler;
  fence_free : list Call -> Z -> bool;
  agent_ok : list Call -> DesiredPlan -> list FlowRecovery -> bool;
  clock : list Call -> Time
}.

Record World := { w_db : Database; w_sched : Scheduler; w_calls : list Call }.

#[export] Instance World_eta : Eta World := fun w =>
  Build_World (w_db w) (w_sched w) (w_calls w).

Abbreviation Engine A := (Prog World EngineError A).

(** The strict decoder of [decodePersistedPlan], which knows a [digest] beside the
    fields of a plan. *)
Class PayloadCodec : Type := decode_payload : string -> option DesiredPlan.

(** ** Persisted plans *)

Section Persisted.
Context `{Json} `{PayloadCodec}.

Definition decodePersistedPlan (generation : Z) (encoded : string) :
    EngineError + (DesiredPlan * string) :=
  if str_eqb encoded EmptyString then inl CorruptPlanState
  else match decode_payload encoded with
       | None => inl CorruptPlanState
       | Some plan =>
           if negb (Generation plan =? generation) then inl CorruptPlanState
           else match Validate plan with
                | Some _ => inl CorruptPlanState
                | None => match SemanticDigest plan with
                          | inr digest => inr (plan, digest)
                          | inl _ => inl CorruptPlanState
                          end
                end
       end.

(** The desired plan with its digest, when there is one. *)
Definition validatePersistedPlanState (state : PlanState) :
    EngineError + option (DesiredPlan * string) :=
  let desired := DesiredGeneration state in
  let applied := AppliedGeneration state in
  let invalidated := InvalidatedGeneration state in
  if (desired <? 0) || (applied <? 0) || (invalidated <? 0) then inl CorruptPlanState
  else if negb (invalidated =? 0) && (negb (desired =? applied) || (invalidated <? desired))
  then inl CorruptPlanState
  else if desired =? 0 then
    if negb (applied =? 0) || negb (str_eqb (st_DesiredPlan state) EmptyString) ||
       negb (str_eqb (st_AppliedPlan state) EmptyString)
    then inl CorruptPlanState else inr None
  else if desired <? applied then inl CorruptPlanState
  else
    plan <~ decodePersistedPlan desired (st_DesiredPlan state) ;;
    if applied =? 0 then
      if str_eqb (st_AppliedPlan state) EmptyString then inr (Some plan) else inl CorruptPlanState
    else
      previous <~ decodePersistedPlan applied (st_AppliedPlan state) ;;
      if (applied =? desired) && negb (str_eqb previous.2 plan.2) then inl CorruptPlanState
      else inr (Some plan).

(** A handler that names no candidate stands for itself. *)
Definition candidate_or_handler (handler client : string) : string :=
  let candidate := candidateIDFromHandler handler client in
  if str_eqb candidate EmptyString && negb (str_eqb handler EmptyString) then handler else candidate.

(** The primaries that are applied for every client, by candidate. *)
Definition appliedPrimaryAssignments (state : PlanState) :
    EngineError + gmap string (string * string) :=
  if (AppliedGeneration state <=? 0) || str_eqb (st_AppliedPlan state) EmptyString then inr ∅
  else
    plan <~ decodePersistedPlan (AppliedGeneration state) (st_AppliedPlan state) ;;
    inr (fold_left (fun m r => <[ClientID r := (candidate_or_handler (TCPOutbound r) (ClientID r),
                                                candidate_or_handler (UDPOutbound r) (ClientID r))]> m)
           (Clients plan.1) ∅).
End Persisted.

Definition candidateReferencesFromPlan `{PlanCodec} (encoded : string) : list string :=
  if str_eqb encoded EmptyString then []
  else match unmarshal_plan encoded with
       | None => []
       | Some plan =>
           List.filter (has_prefix "cand_")
             (map (fun o => candidateIDFromHandler (ID o) EmptyString) (Outbounds plan))
       end.

(** ** Capacity and fences *)

(** The distinct candidates that the routes of a plan need, reserves included. *)
Definition route_handlers (r : ClientRoute) : list string :=
  [TCPOutbound r; UDPOutbound r; TCPReserveOutbound r; UDPReserveOutbound r].

Definition critical_candidates (plan : DesiredPlan) : gset string :=
  list_to_set (List.filter (fun c => negb (str_eqb c EmptyString))
    (flat_map (fun r => map (fun h => candidate_or_handler h (ClientID r)) (route_handlers r))
       (Clients plan))).

Definition activeCriticalPlanCandidateCount (plan : DesiredPlan) : Z :=
  Z.of_nat (size (critical_candidates plan)).

Definition validateActiveCriticalRouteCapacity (limit : Z) (plan : DesiredPlan)
    (ceiling : option Z) : EngineError + unit :=
  if limit <=? 0 then inr tt
  else
    let limit := match ceiling with Some c => if limit <? c then c else limit | None => limit end in
    let planned := activeCriticalPlanCandidateCount plan in
    if limit <? planned then inl (ActiveCriticalRouteLimitError planned limit) else inr tt.

Definition planReferencesTor (plan : DesiredPlan) : bool :=
  existsb (fun o => str_eqb (Protocol o) ProtocolTor) (Outbounds plan).

Record planProfileFence := { pf_version : Z; pf_stable : bool }.

(** ** Flow recoveries *)

Section Recoveries.
Context `{Json} `{PayloadCodec}.

Definition PlacementHardFailure : string := "hard_failure".

(** The clients whose TCP route this plan moves, when it was made for a failure. *)
Definition confirmed_scope (old_routes : gmap string ClientRoute) (route : ClientRoute) :
    list FlowRecovery :=
  match old_routes !! ClientID route with
  | None => []
  | Some old =>
      if negb (str_eqb (SourceCIDR old) (SourceCIDR route)) || BlockTCP old || BlockTCP route ||
         str_eqb (TCPOutbound old) EmptyString || str_eqb (TCPOutbound route) EmptyString ||
         str_eqb (TCPOutbound old) (TCPOutbound route)
      then []
      else [{| fr_ClientID := ClientID route; fr_SourceCIDR := SourceCIDR route;
               FailedOutbound := TCPOutbound old; ReplacementOutbound := TCPOutbound route |}]
  end.

Definition confirmedFlowRecoveries (state : PlanState) (next : DesiredPlan) :
    EngineError + list FlowRecovery :=
  if negb (DesiredGeneration state =? Generation next) || (AppliedGeneration state =? 0) ||
     (Generation next <=? AppliedGeneration state) ||
     negb (str_eqb (DesiredReason state) PlacementHardFailure)
  then inr []
  else
    previous <~ decodePersistedPlan (AppliedGeneration state) (st_AppliedPlan state) ;;
    inr (flat_map (confirmed_scope (index_by ClientID (Clients previous.1))) (Clients next)).

Definition scope_candidate (scope : FlowRecovery) : string :=
  candidateIDFromHandler (FailedOutbound scope) (fr_ClientID scope).

Definition actively_failed (e : CandidateRoutingEvidence) : bool :=
  match e_Health e with
  | Some h => hl_ActiveCurrent h && hl_ActiveHardFailure h
  | None => false
  end.

Definition debt_of_scope (scope : FlowRecovery) (debt : RouteRecovery) : bool :=
  bool_decide (de_Transport debt = RouteTransportTCP) &&
  str_eqb (de_ClientID debt) (fr_ClientID scope) &&
  str_eqb (de_SourceCIDR debt) (fr_SourceCIDR scope) &&
  str_eqb (de_FailedOutbound debt) (FailedOutbound scope).

(** A route that moved in the same generation without having failed keeps its
    sessions. *)
Definition scope_failed (evidence : list CandidateRoutingEvidence) (debts : list RouteRecovery)
    (scope : FlowRecovery) : bool :=
  from_option actively_failed false
    (index_by (fun e => c_ID (e_Candidate e)) evidence !! scope_candidate scope) ||
  existsb (debt_of_scope scope) debts.
End Recoveries.

(** ** The engine *)

Section Publish.
Context `{Json} `{PlanCodec} `{Vault} `{PayloadCodec} (env : Env).

(** Writers that do not hold the cycle gate. *)
Definition intervene (w : World) : Database :=
  run (List.filter (fun '(_, op) => negb (writes_plan op)) (others env (w_calls w))) (w_db w).

Definition store_call {A : Type} (m : Outcome -> Tx A) : Engine A := fun w =>
  match m (outcome env (w_calls w)) (intervene w) with
  | (inl e, d) => (inl (StoreFailed e), w <| w_db := d |> <| w_calls := w_calls w ++ [CallStore false] |>)
  | (inr a, d) => (inr a, w <| w_db := d |> <| w_calls := w_calls w ++ [CallStore true] |>)
  end.

Definition agent_apply (plan : DesiredPlan) (scopes : list FlowRecovery) : Engine unit := fun w =>
  let d := intervene w in
  let sent := if recovering_agent env then scopes else [] in
  let ok := agent_ok env (w_calls w) plan sent in
  (if ok then inr tt else inl AgentFailed,
   w <| w_db := d |> <| w_calls := w_calls w ++ [CallAgent plan sent d ok] |>).

Definition acquireTorPlanFence (plan : DesiredPlan) (fence : option planProfileFence) :
    Engine unit :=
  match fence with
  | None => ret tt
  | Some f =>
      if negb (planReferencesTor plan) then ret tt
      else if negb (pf_stable f) then raise ProfilesChanged
      else fun w =>
        let ok := fence_free env (w_calls w) (pf_version f) in
        (if ok then inr tt else inl ProfilesChanged,
         w <| w_calls := w_calls w ++ [CallFence (pf_version f) ok] |>)
  end.

(** [Preview.CommitAfter]: the publish runs under the lock of the scheduler, and
    only when the preview is still current. *)
Definition commit_preview (preview : Preview) (publish : Engine unit) : Engine unit := fun w =>
  let owner := owner_now env (w_calls w) (w_sched w) in
  match CommitAfter owner preview (Some None) with
  | (Some e, _, _, _) => (inl (PreviewFailed e), w <| w_sched := owner |>)
  | (None, _, committed, _) =>
      match publish (w <| w_sched := owner |>) with
      | (inl e, w') => (inl e, w')
      | (inr _, w') => (inr tt, w' <| w_sched := committed |>)
      end
  end.

Definition fenceFlowRecoveries (scopes : list FlowRecovery) : Engine (list FlowRecovery) :=
  match scopes with
  | [] => ret []
  | _ =>
      debts <- store_call PendingRouteRecoveries ;;
      let references := remove_dups (List.filter (fun c => negb (str_eqb c EmptyString))
                                       (map scope_candidate scopes)) in
      evidence <- store_call (fun o => LoadRoutingReferencesSnapshot o references) ;;
      ret (List.filter (scope_failed (rs_Candidates evidence) debts) scopes)
  end.

Definition applyPlan (plan : DesiredPlan) (encoded : string) : Engine unit :=
  state <- store_call LoadPlanState ;;
  scopes <- lift (confirmedFlowRecoveries state plan) ;;
  scopes <- fenceFlowRecoveries scopes ;;
  agent_apply plan scopes ;;;
  now <- get (fun w => clock env (w_calls w)) ;;
  store_call (fun o => MarkAppliedPlan o now (Generation plan) encoded).

Definition saveApplyAndMark (plan : DesiredPlan) (reason : string)
    (assignmentUpdates : list AssignmentRecord) (inventoryEpoch : Z)
    (expectations : list CandidatePlanExpectation) (mappings : list RouteReserveMapping)
    (preview : option Preview) (fence : option planProfileFence) (capacityCeiling : option Z) :
    Engine unit :=
  lift (validateActiveCriticalRouteCapacity (activeCriticalRouteLimit env) plan capacityCeiling) ;;;
  match Validate plan with Some e => raise (PlanRejected e) | None => ret tt end ;;;
  encoded <- required (marshal_plan plan) EncodeFailed ;;
  match preview with
  | Some _ => store_call (fun o => ValidateCandidatePlanSnapshot o inventoryEpoch expectations)
  | None => ret tt
  end ;;;
  acquireTorPlanFence plan fence ;;;
  let publish := store_call (fun o => saveDesiredPlanSnapshotForCandidatesAndReserves o
    (Generation plan) encoded reason inventoryEpoch expectations mappings
    (Some assignmentUpdates)) in
  match preview with
  | Some p => commit_preview p publish
  | None => publish
  end ;;;
  applyPlan plan encoded.

(** The end of a cycle: the plan that was rendered, without a generation, meets the
    plan that is stored. *)
Definition publish_cycle (plan : DesiredPlan) (state : PlanState) (reason : string)
    (assignmentUpdates : list AssignmentRecord) (inventoryEpoch : Z)
    (expectations : list CandidatePlanExpectation) (mappings : list RouteReserveMapping)
    (preview : Preview) (fence : option planProfileFence) : Engine unit :=
  match SemanticDigest plan with
  | inl e => raise (PlanRejected e)
  | inr candidateDigest =>
      stored <- lift (validatePersistedPlanState state) ;;
      let save generation :=
        saveApplyAndMark (plan <| Generation := generation |>) reason assignmentUpdates
          inventoryEpoch expectations mappings (Some preview) fence None in
      let confirm := commit_preview preview
        (store_call (fun o => ValidateCandidatePlanSnapshot o inventoryEpoch expectations)) in
      let same := match stored with
                  | Some (persisted, digest) => if str_eqb candidateDigest digest then Some persisted
                                                else None
                  | None => None
                  end in
      if negb (InvalidatedGeneration state =? 0) then save (InvalidatedGeneration state + 1)
      else match same with
           | Some persisted =>
               if DesiredGeneration state =? AppliedGeneration state then confirm
               else
                 acquireTorPlanFence persisted fence ;;;
                 confirm ;;;
                 applyPlan persisted (st_DesiredPlan state)
           | None =>
               save (Z.max (DesiredGeneration state) (InvalidatedGeneration state) + 1)
           end
  end.
End Publish.
