(* ===== verification/EngineSample.v ===== *)
(** A small engine to evaluate: the store of StoreSample.v, an agent that takes
    every plan, and a plan that was published for a failure. *)
From Stdlib Require Import Floats.
From S2P Require Import Prelude Effects GoOrder GoStrings GoSort QoE DataPlan DataChange Gateway Handlers SchedState StoreTables StoreSample RouteRecovery PlanStore PlanStoreSafety RoutingSnapshot PlanStoreRuns EnginePublish.

#[local] Open Scope Z_scope.

(** Plans are encoded by their generation. *)
#[export] Instance stored_json : Json := {|
  json := string; json_eq_dec := _; unmarshal := Some; decode_dns := sample_decode;
  reencode := Some; marshal_plan := fun p => Some (stored_bytes (Generation p)) |}.

#[export] Instance stored_payload : PayloadCodec := decode_stored.

Definition calm_env : Env := {|
  activeCriticalRouteLimit := 2; recovering_agent := true; outcome := fun _ => Commits;
  others := fun _ => [(Commits, OpActivity (of_unix 300) "alice" (of_unix 300) 2 2)];
  owner_now := fun _ s => s; fence_free := fun _ _ => true; agent_ok := fun _ _ _ => true;
  clock := fun _ => of_unix 400 |}.

(** A store with candidates and a client, without a plan. *)
Definition engine_start : World := {|
  w_db := run stored_start new_database; w_sched := sample_scheduler; w_calls := [] |}.

Definition failed_inventory : Inventory := {|
  iv_candidates := candidates (stored_database true); iv_sources := sources (stored_database true);
  iv_health := candidate_health (stored_database true); iv_probes := ∅; iv_samples := [];
  iv_domains := ∅; iv_evidence := ∅;
  iv_qoe := ∅; iv_epoch := 0 |}.

(** The first plan is applied, [cand_a] fails, and the second plan is published. *)
Definition failure_ops : list (Outcome * StoreOp) :=
  stored_ops ++
  [(Commits, OpInventory failed_inventory);
   (Commits, OpFailure (stored_candidate "cand_a") (of_unix 200));
   (Commits, OpPublish 2 (stored_bytes 2) "hard_failure" 0 stored_expectations []
               moved_assignments)].

Definition engine_failed : World := {|
  w_db := run failure_ops new_database; w_sched := sample_scheduler; w_calls := [] |}.

Example failure_publishes :
  desired_generation (plan_state (w_db engine_failed)) = 2 /\
  applied_generation (plan_state (w_db engine_failed)) = 1 /\
  size (route_recovery (w_db engine_failed)) = 2%nat.
Proof. vm_compute. repeat split. Qed.
