(* ===== verification/EnginePublishSafety.v ===== *)
(** What the engine guarantees of plans: they are durable before the agent sees
    them, they are marked only when the agent took them, and what is stored is
    never found corrupt. *)
From Stdlib Require Import Floats.
From S2P Require Import Prelude Effects GoOrder GoStrings GoSort QoE DataPlan DataChange Gateway Handlers SchedState StoreTables StoreSample RouteRecovery PlanStore StoreLogic PlanStoreSafety RoutingSnapshot PlanStoreRuns PlanStoreMark EnginePublish EngineSample.

#[local] Open Scope Z_scope.
#[local] Open Scope effect_scope.

(** ** The stored state *)

(** Documented behaviour of [encoding/json]: the decoder of the controller accepts
    what the one of the store does, nothing is no value, and what was decoded can be
    encoded again. *)
Class PayloadLaws `{Json} `{PlanCodec} `{PayloadCodec} : Prop := {
  strict_is_payload b p : decode_plan b = Some p -> decode_payload b = Some p;
  nothing_is_no_plan : decode_plan EmptyString = None;
  decoded_has_digest b p : decode_plan b = Some p -> Validate p = None ->
    exists digest, SemanticDigest p = inr digest
}.

Section Stored.
Context `{Json} `{PlanCodec} `{Vault} `{PayloadCodec} `{!PayloadLaws}.

Lemma published_decodes g b plan handlers ms : published g b plan handlers ms ->
  exists digest, decodePersistedPlan g b = inr (plan, digest).
Proof.
  intros [Hd Hg Hv _ _]. destruct (decoded_has_digest _ _ Hd Hv) as [digest Hs].
  exists digest. unfold decodePersistedPlan.
  destruct (str_eqb b EmptyString) eqn:E.
  { str_bool. subst b. by rewrite nothing_is_no_plan in Hd. }
  by rewrite (strict_is_payload _ _ Hd), Hg, Z.eqb_refl, Hv, Hs.
Qed.

(** What the engine loads. *)
Definition state_of (d : Database) : PlanState := let p := plan_state d in {|
  DesiredGeneration := desired_generation p; AppliedGeneration := applied_generation p;
  InvalidatedGeneration := invalidated_generation p; DesiredReason := desired_reason p;
  st_DesiredPlan := blob (desired_plan p); st_AppliedPlan := blob (applied_plan p) |}.

Lemma stage_decodes g b r : stage_ok g b r -> g <> 0 ->
  exists plan digest, decodePersistedPlan g (blob b) = inr (plan, digest) /\
    decode_plan (blob b) = Some plan.
Proof.
  intros Hs Hg. destruct (stage_some _ _ _ Hs Hg) as (bytes & plan & h & ms & -> & Hp & _).
  destruct (published_decodes _ _ _ _ _ Hp) as [digest Hd]. exists plan, digest.
  split; [done|apply Hp].
Qed.

Lemma plan_ok_validates d : plan_ok d ->
  exists r, validatePersistedPlanState (state_of d) = inr r /\
    match r with
    | None => desired_generation (plan_state d) = 0
    | Some (plan, digest) =>
        desired_generation (plan_state d) <> 0 /\ SemanticDigest plan = inr digest /\
        decode_plan (blob (desired_plan (plan_state d))) = Some plan
    end.
Proof.
  intros [Hrange Hinv Hreb Hdes Happ Hsame _ _ _]. unfold validatePersistedPlanState, state_of.
  cbn [DesiredGeneration AppliedGeneration InvalidatedGeneration st_DesiredPlan st_AppliedPlan].
  destruct (plan_state d) as [g a i why dp ap ag asg].
  cbn [desired_generation applied_generation invalidated_generation desired_plan applied_plan] in *.
  replace ((g <? 0) || (a <? 0) || (i <? 0)) with false by (symmetry; lia).
  assert (negb (i =? 0) && (negb (g =? a) || (i <? g)) = false) as ->.
  { destruct (Z.eqb_spec i 0); [done|]. cbn. lia. }
  destruct (Z.eqb_spec g 0) as [->|Hg].
  { assert (a = 0) as -> by lia. destruct (stage_none _ _ _ Hdes eq_refl) as [-> _].
    destruct (stage_none _ _ _ Happ eq_refl) as [-> _]. by exists None. }
  replace (g <? a) with false by (symmetry; lia).
  destruct (stage_decodes _ _ _ Hdes Hg) as (plan & digest & Hd & Hp). rewrite Hd. cbn [attempt].
  assert (SemanticDigest plan = inr digest) as Hs.
  { unfold decodePersistedPlan in Hd. destruct (str_eqb _ _); [done|].
    destruct (decode_payload _); [|done]. destruct (negb _); [done|].
    destruct (Validate _); [done|]. destruct (SemanticDigest _) eqn:E; [done|]. by simplify_eq. }
  destruct (Z.eqb_spec a 0) as [->|Ha].
  { destruct (stage_none _ _ _ Happ eq_refl) as [-> _]. cbn. by exists (Some (plan, digest)). }
  destruct (stage_decodes _ _ _ Happ Ha) as (plan' & digest' & Hd' & Hp'). rewrite Hd'. cbn [attempt snd].
  assert ((a =? g) && negb (str_eqb digest' digest) = false) as ->.
  { destruct (Z.eqb_spec a g) as [->|]; [|done]. rewrite (Hsame eq_refl) in Hd.
    rewrite Hd in Hd'. simplify_eq. by rewrite str_eqb_refl. }
  by exists (Some (plan, digest)).
Qed.

Lemma plan_ok_assignments d : plan_ok d ->
  exists m, appliedPrimaryAssignments (state_of d) = inr m.
Proof.
  intros Hok. unfold appliedPrimaryAssignments, state_of. cbn [AppliedGeneration st_AppliedPlan].
  destruct (_ || _) eqn:E; [by exists ∅|]. apply orb_false_iff in E as [E _]. z_bool.
  destruct (stage_decodes _ _ _ (po_applied _ Hok)) as (plan & digest & Hd & _); [lia|].
  rewrite Hd. by eexists.
Qed.

(** C16.  The controller never finds its stored plans corrupt.  After any run of the
    store, committed, interrupted or reported wrongly, the state that it loads passes
    all checks: the generations are consistent, the desired plan and, when there is
    one, the applied plan decode, validate and have a digest, and equal generations
    have equal digests.  There is no plan exactly at generation 0, and the primaries
    of the applied plan can be read. *)
Theorem stored_state_never_corrupt ops o state d' :
  let d := run ops new_database in
  LoadPlanState o d = (inr state, d') ->
  d' = d /\ (exists m, appliedPrimaryAssignments state = inr m) /\
  exists r, validatePersistedPlanState state = inr r /\
    match r with
    | None => DesiredGeneration state = 0
    | Some (plan, digest) =>
        DesiredGeneration state <> 0 /\ SemanticDigest plan = inr digest /\
        decode_plan (st_DesiredPlan state) = Some plan
    end.
Proof.
  intros d Hl. assert (plan_ok d) as Hok by apply store_run_ok, plan_ok_new.
  assert (state = state_of d /\ d' = d) as [-> ->]
    by (unfold LoadPlanState, query, transaction, get in Hl; destruct o; by simplify_eq).
  split; [done|]. split; [by apply plan_ok_assignments|].
  destruct (plan_ok_validates d Hok) as (r & Hr & Hm). by exists r.
Qed.
End Stored.

(** ** Durable before the agent, acknowledged before the mark *)

Section Engine.
Context `{Json} `{PlanCodec} `{Vault} `{PayloadCodec} (env : Env).

Lemma intervene_row w : plan_state (intervene env w) = plan_state (w_db w).
Proof.
  unfold intervene. generalize (w_db w). induction (others env (w_calls w)) as [|[o op] ops IH];
    intros d; [done|]. cbn [List.filter]. destruct (negb (writes_plan op)) eqn:E; [|apply IH].
  cbn [run fold_left]. etrans; [apply IH|]. apply perform_row. by destruct (writes_plan op).
Qed.

Lemma intervene_ok w : plan_ok (w_db w) -> plan_ok (intervene env w).
Proof. apply store_run_ok. Qed.

Section One.
Context (plan : DesiredPlan) (encoded : string) (w0 : World).

(** The database on which the agent is called holds the plan. *)
Record handed (seen : Database) : Prop := {
  ha_ok : plan_ok seen;
  ha_generation : desired_generation (plan_state seen) = Generation plan;
  ha_bytes : desired_plan (plan_state seen) = Some encoded;
  ha_newer : applied_generation (plan_state seen) < Generation plan
}.

Definition acked (added : list Call) : Prop :=
  exists scopes seen, In (CallAgent plan scopes seen true) added.

Definition only_handed (added : list Call) : Prop :=
  forall p scopes seen ok, In (CallAgent p scopes seen ok) added -> p = plan /\ handed seen.

(** What holds whenever the engine stops. *)
Record sound (w : World) : Prop := {
  so_db : plan_ok (w_db w);
  so_calls : exists added, w_calls w = w_calls w0 ++ added /\ only_handed added /\
    (applied_generation (plan_state (w_db w)) <> applied_generation (plan_state (w_db w0)) ->
       applied_generation (plan_state (w_db w)) = Generation plan /\ acked added)
}.

(** Stages of the way to the agent: a property of the stored row, and whether the
    agent has taken the plan. *)
Definition stage (Phi : PlanRow -> Prop) (taken : bool) (w : World) : Prop :=
  sound w /\ Phi (plan_state (w_db w)) /\
  (if taken then exists added, w_calls w = w_calls w0 ++ added /\ acked added else True).

Definition unmarked (p : PlanRow) : Prop :=
  applied_generation p = applied_generation (plan_state (w_db w0)).

Definition durable (p : PlanRow) : Prop :=
  unmarked p /\ desired_generation p = Generation plan /\ desired_plan p = Some encoded /\
  applied_generation p < Generation plan.

Definition marked (p : PlanRow) : Prop :=
  applied_generation p = Generation plan /\ desired_generation p = Generation plan.

Lemma only_handed_app a b : only_handed a -> only_handed b -> only_handed (a ++ b).
Proof. intros Ha Hb p scopes seen ok [?|?]%in_app_or; eauto. Qed.

Lemma only_handed_store ok : only_handed [CallStore ok].
Proof. intros p scopes seen ok' [Hc|[]]. discriminate Hc. Qed.

Lemma acked_app a b : acked a -> acked (a ++ b).
Proof. intros (scopes & seen & Hin). exists scopes, seen. apply in_or_app. by left. Qed.

(** One more call that leaves the row alone. *)
Lemma stage_step Phi taken w d call :
  stage Phi taken w -> plan_ok d -> plan_state d = plan_state (w_db w) -> only_handed [call] ->
  stage Phi taken (w <| w_db := d |> <| w_calls := w_calls w ++ [call] |>).
Proof.
  intros ([Hok (added & Hc & Ho & Ha)] & Hphi & Ht) Hd Hrow Hcall. split_and!.
  - split; [by destruct w|]. exists (added ++ [call]). split; [|split].
    + destruct w; simpl in *. by rewrite Hc, app_assoc.
    + by apply only_handed_app.
    + destruct w; simpl in *. rewrite Hrow. intros Hne. destruct (Ha Hne).
      split; [done|by apply acked_app].
  - destruct w; simpl in *. by rewrite Hrow.
  - destruct taken; [|done]. destruct Ht as (a & Hca & Hacked). exists (a ++ [call]).
    split; [destruct w; simpl in *; by rewrite Hca, app_assoc|by apply acked_app].
Qed.

(** Store calls that only read, or write other tables. *)
Lemma quiet_call {A : Type} (m : Outcome -> Tx A) Phi taken :
  (forall o d, plan_ok d -> plan_ok (m o d).2) -> (forall o d, same_row d (m o d).2) ->
  triple (stage Phi taken) (store_call env m) (fun _ => stage Phi taken) (fun _ => sound).
Proof.
  intros Hok Hrow w Hw. unfold store_call.
  pose proof (intervene_ok w (so_db _ (proj1 Hw))) as Hi.
  specialize (Hok (outcome env (w_calls w)) _ Hi). specialize (Hrow (outcome env (w_calls w)) (intervene env w)).
  unfold same_row in Hrow. rewrite intervene_row in Hrow.
  destruct (m _ _) as [[e|a] d]; [|apply stage_step; auto using only_handed_store].
  apply (stage_step Phi taken); auto using only_handed_store.
Qed.

Lemma steady_transaction {A : Type} (m : Tx A) o d : steady m -> (transaction o m d).2 = d.
Proof.
  intros Hm. apply (transaction_relates (fun d d' => d' = d)); [done|].
  intros u d1 Hr. by apply (steady_inr _ _ _ _ Hm) in Hr.
Qed.

Lemma steady_call {A : Type} (m : Outcome -> Tx A) Phi taken :
  (forall o d, (m o d).2 = d) ->
  triple (stage Phi taken) (store_call env m) (fun _ => stage Phi taken) (fun _ => sound).
Proof. intros Hm. apply quiet_call; intros o d; unfold same_row; by rewrite Hm. Qed.

Lemma stage_sound Phi taken w : stage Phi taken w -> sound w.
Proof. by intros [? _]. Qed.

(** *** The agent *)

Lemma agent_call scopes :
  triple (stage durable false) (agent_apply env plan scopes) (fun _ => stage durable true)
    (fun _ => sound).
Proof.
  intros w Hw. pose proof (intervene_ok w (so_db _ (proj1 Hw))) as Hi.
  assert (handed (intervene env w)) as Hh.
  { destruct Hw as (_ & (_ & Hg & Hb & Ha) & _). split; rewrite ?intervene_row; done. }
  unfold agent_apply. set (sent := if recovering_agent env then scopes else []).
  set (call := CallAgent plan sent (intervene env w) _).
  assert (only_handed [call]) as Hcall
    by (intros p s seen ok [Hc|[]]; unfold call in Hc; by simplify_eq).
  pose proof (stage_step durable false w (intervene env w) call Hw Hi (intervene_row w) Hcall) as Hs.
  destruct (agent_ok env (w_calls w) plan sent) eqn:E; [|by destruct Hs].
  destruct Hs as (Hs & Hp & _). split_and!; [done..|].
  destruct Hw as ([_ (added & Hc & _)] & _). exists (added ++ [call]).
  split; [destruct w; simpl in *; by rewrite Hc, app_assoc|].
  exists sent, (intervene env w). apply in_or_app. right. left. done.
Qed.

(** *** Marking *)

Lemma mark_call now : 
  triple (stage durable true)
    (store_call env (fun o => MarkAppliedPlan o now (Generation plan) encoded))
    (fun _ w => sound w /\ marked (plan_state (w_db w)) /\
       exists added, w_calls w = w_calls w0 ++ added /\ acked added)
    (fun _ => sound).
Proof.
  intros w ([Hok (added & Hc & Ho & Ha)] & Hphi & (added' & Hc' & Hack)).
  assert (added' = added) as -> by (rewrite Hc in Hc'; by apply app_inv_head in Hc').
  unfold store_call. set (o := outcome env (w_calls w)).
  pose proof (intervene_ok w Hok) as Hi.
  assert (plan_ok (MarkAppliedPlan o now (Generation plan) encoded (intervene env w)).2 /\
    (applied_generation (plan_state (MarkAppliedPlan o now (Generation plan) encoded
       (intervene env w)).2) = applied_generation (plan_state (w_db w0)) \/
     applied_generation (plan_state (MarkAppliedPlan o now (Generation plan) encoded
       (intervene env w)).2) = Generation plan)) as [Hok' Hap].
  { unfold MarkAppliedPlan. split; [apply keeps_transaction; [apply mark_ok|done]|].
    assert (applied_generation (plan_state (intervene env w)) =
            applied_generation (plan_state (w_db w0))) as Hsame
      by (rewrite intervene_row; apply Hphi).
    apply (transaction_relates (fun _ d1 =>
      applied_generation (plan_state d1) = applied_generation (plan_state (w_db w0)) \/
      applied_generation (plan_state d1) = Generation plan)); [by left|].
    intros u d1 Hr. right. apply mark_inr in Hr as (_ & _ & _ & _ & _ & _ & ->). simpl.
    by destruct (intervene env w) as [[]]. }
  assert (forall ok, sound (w <| w_db := (MarkAppliedPlan o now (Generation plan) encoded
    (intervene env w)).2 |> <| w_calls := w_calls w ++ [CallStore ok] |>)) as Hsound.
  { intros ok. split; [by destruct w|]. exists (added ++ [CallStore ok]). split_and!.
    - destruct w; simpl in *. by rewrite Hc, app_assoc.
    - by apply only_handed_app, only_handed_store.
    - destruct w; simpl in *. intros Hne. split; [naive_solver|by apply acked_app]. }
  destruct (MarkAppliedPlan o now (Generation plan) encoded (intervene env w)) as [[e|u] d] eqn:E;
    [by apply Hsound|].
  split; [by apply Hsound|]. split.
  - unfold MarkAppliedPlan, transaction in E. destruct o; try discriminate E.
    + destruct (MarkAppliedPlan_body _ _ _ _) as [[e|v] d1] eqn:Hr; [done|]. simplify_eq.
      apply mark_inr in Hr as (_ & Hg & _ & _ & _ & _ & Hd). destruct w; simpl. rewrite Hd.
      by destruct (intervene env _) as [[]].
    + by destruct (MarkAppliedPlan_body _ _ _ _) as [[e|v] d1].
    + by destruct (MarkAppliedPlan_body _ _ _ _) as [[e|v] d1].
  - exists (added ++ [CallStore true]). split; [destruct w; simpl in *; by rewrite Hc, app_assoc|].
    by apply acked_app.
Qed.

(** *** The whole way *)

Lemma triple_lift {A : Type} Phi taken (x : EngineError + A) :
  triple (stage Phi taken) (lift x) (fun a w => stage Phi taken w /\ x = inr a) (fun _ => sound).
Proof. intros w Hw. destruct x; [by eapply stage_sound|done]. Qed.

Lemma fence_call scopes :
  triple (stage durable false) (fenceFlowRecoveries env scopes) (fun _ => stage durable false)
    (fun _ => sound).
Proof.
  unfold fenceFlowRecoveries. destruct scopes as [|s scopes]; [by intros w Hw|].
  eapply triple_bind; [apply quiet_call|intros debts].
  - intros o d. unfold PendingRouteRecoveries. apply keeps_transaction, pending_ok.
  - intros o d. unfold PendingRouteRecoveries. apply transaction_relates; [done|].
    intros u d1 Hr. unfold same_row. apply pending_frame in Hr as [-> _]. by destruct d.
  - eapply triple_bind; [apply steady_call|by intros evidence w Hw].
    intros o d. unfold LoadRoutingReferencesSnapshot, loadRoutingEvidenceSnapshot.
    by apply steady_transaction.
Qed.

Lemma apply_ok :
  triple (stage durable false) (applyPlan env plan encoded)
    (fun _ w => sound w /\ marked (plan_state (w_db w)) /\
       exists added, w_calls w = w_calls w0 ++ added /\ acked added) (fun _ => sound).
Proof.
  unfold applyPlan. eapply triple_bind; [apply steady_call|intros state].
  { intros o d. unfold LoadPlanState, query. by apply steady_transaction. }
  eapply triple_bind; [apply triple_lift|intros scopes].
  eapply triple_bind; [|intros sent].
  { eapply triple_pre; [apply fence_call|]. by intros w [Hw _]. }
  eapply triple_bind; [apply agent_call|intros []].
  eapply triple_bind_get. intros now. eapply triple_pre; [apply mark_call|]. by intros w [Hw _].
Qed.

Lemma triple_fence fence Phi :
  triple (stage Phi false) (acquireTorPlanFence env plan fence) (fun _ => stage Phi false)
    (fun _ => sound).
Proof.
  intros w Hw. unfold acquireTorPlanFence. destruct fence as [f|]; [|done].
  destruct (negb _); [done|]. destruct (negb _); [by eapply stage_sound|].
  assert (stage Phi false (w <| w_calls := w_calls w ++
    [CallFence (pf_version f) (fence_free env (w_calls w) (pf_version f))] |>)) as Hs.
  { pose proof (stage_step Phi false w (w_db w) (CallFence (pf_version f)
      (fence_free env (w_calls w) (pf_version f))) Hw (so_db _ (proj1 Hw)) eq_refl) as Hs.
    destruct w. apply Hs. intros p scopes seen ok [Hc|[]]. discriminate Hc. }
  destruct (fence_free env (w_calls w) (pf_version f)); [done|by eapply stage_sound].
Qed.

Lemma stage_sched Phi taken w s : stage Phi taken w -> stage Phi taken (w <| w_sched := s |>).
Proof. intros ([? (added & ?)] & ? & ?). destruct w. split_and!; [split; [done|by exists added]|done..]. Qed.

Lemma triple_preview Phi Psi preview (m : Prog World EngineError unit) :
  triple (stage Phi false) m (fun _ => stage Psi false) (fun _ => sound) ->
  triple (stage Phi false) (commit_preview env preview m) (fun _ => stage Psi false) (fun _ => sound).
Proof.
  intros Hm w Hw. unfold commit_preview.
  destruct (CommitAfter _ preview (Some None)) as [[[e ?] committed] ?].
  destruct e; [by eapply stage_sound, stage_sched|].
  specialize (Hm _ (stage_sched Phi false w (owner_now env (w_calls w) (w_sched w)) Hw)).
  destruct (m _) as [[e|u] w']; [done|by apply stage_sched].
Qed.

Lemma publish_call reason epoch xs mappings l :
  triple (stage unmarked false)
    (store_call env (fun o => saveDesiredPlanSnapshotForCandidatesAndReserves o (Generation plan)
       encoded reason epoch xs mappings (Some l)))
    (fun _ => stage durable false) (fun _ => sound).
Proof.
  intros w ([Hok (added & Hc & Ho & Ha)] & Hphi & _). unfold store_call.
  set (o := outcome env (w_calls w)). pose proof (intervene_ok w Hok) as Hi.
  unfold saveDesiredPlanSnapshotForCandidatesAndReserves.
  set (body := publish_body _ _ _ _ _ _ _).
  assert (plan_ok (transaction o body (intervene env w)).2 /\
    unmarked (plan_state (transaction o body (intervene env w)).2)) as [Hok' Hun].
  { split; [apply keeps_transaction; [apply publish_ok|done]|].
    assert (unmarked (plan_state (intervene env w))) as Hu by by rewrite intervene_row.
    apply (transaction_relates (fun _ d1 => unmarked (plan_state d1))); [done|].
    intros u d1 Hr. apply publish_inr in Hr as (? & ? & ? & ? & _ & _ & _ & _ & _ & _ & _ & _ & ->).
    by destruct (intervene env w). }
  assert (forall ok, sound (w <| w_db := (transaction o body (intervene env w)).2 |>
    <| w_calls := w_calls w ++ [CallStore ok] |>)) as Hsound.
  { intros ok. split; [by destruct w|]. exists (added ++ [CallStore ok]). split_and!.
    - destruct w; simpl in *. by rewrite Hc, app_assoc.
    - by apply only_handed_app, only_handed_store.
    - destruct w; simpl in *. intros Hne. by destruct Hne. }
  destruct (transaction o body (intervene env w)) as [[e|u] d] eqn:E; [by apply Hsound|].
  split; [by apply Hsound|]. split; [|done]. unfold transaction in E.
  assert (o = Commits /\ body (intervene env w) = (inr u, d)) as [_ Hr].
  { destruct o; try discriminate E; destruct (body _) as [[e|v] d1]; by simplify_eq. }
  assert (plan_state d = plan_state (w <| w_db := d |> <| w_calls := w_calls w ++ [CallStore true] |>).(w_db))
    as Hd by by destruct w.
  rewrite <- Hd. apply publish_inr in Hr as (? & ? & ? & ? & _ & _ & _ & _ & _ & _ & Hg & _ & Hpub).
  pose proof (po_range _ Hi) as [_ Hrange].
  split; [exact Hun|]. rewrite Hpub. destruct (intervene env w). simpl in *. split_and!; [done..|lia].
Qed.

(** Saving: what is handed over passed the ceiling and the validator, and is the
    encoding of the plan. *)
Lemma save_ok reason l epoch xs mappings preview fence ceiling :
  marshal_plan plan = Some encoded ->
  triple (stage unmarked false)
    (saveApplyAndMark env plan reason l epoch xs mappings preview fence ceiling)
    (fun _ w => sound w /\ marked (plan_state (w_db w)) /\
       exists added, w_calls w = w_calls w0 ++ added /\ acked added) (fun _ => sound).
Proof.
  intros He. unfold saveApplyAndMark. rewrite He.
  eapply triple_bind; [apply triple_lift|intros []].
  eapply triple_bind; [|intros []].
  { eapply triple_pre with (P' := stage unmarked false) (Q := fun _ => stage unmarked false);
      [|by intros w [Hw _]].
    intros w Hw. destruct (Validate plan); [by eapply stage_sound|done]. }
  eapply triple_bind with (S := fun a w => encoded = a /\ stage unmarked false w);
    [by intros w Hw|intros a]. cbv beta.
  eapply triple_fact; [by intros w [Hx _]; exact Hx|intros <-].
  eapply triple_bind; [|intros []].
  { eapply triple_pre with (P' := stage unmarked false) (Q := fun _ => stage unmarked false);
      [|by intros w [_ Hw]].
    destruct preview; [|by intros w Hw]. apply steady_call. intros o d.
    unfold ValidateCandidatePlanSnapshot. by apply steady_transaction, steady_candidates. }
  eapply triple_bind; [apply triple_fence|intros []].
  eapply triple_bind with (S := fun _ => stage durable false); [|intros []; apply apply_ok].
  destruct preview; [apply triple_preview|]; apply publish_call.
Qed.
End One.

(** A run that stops before the plan is published changes nothing of it. *)
Definition untouched (w0 w : World) : Prop :=
  plan_ok (w_db w) /\ plan_state (w_db w) = plan_state (w_db w0) /\
  exists added, w_calls w = w_calls w0 ++ added /\
    forall p scopes seen ok, ~ In (CallAgent p scopes seen ok) added.

Lemma save_checks plan reason l epoch xs mappings preview fence ceiling w r w' :
  saveApplyAndMark env plan reason l epoch xs mappings preview fence ceiling w = (r, w') ->
  (w' = w /\ r <> inr tt) \/
  validateActiveCriticalRouteCapacity (activeCriticalRouteLimit env) plan ceiling = inr tt /\
  Validate plan = None /\ exists encoded, marshal_plan plan = Some encoded.
Proof.
  unfold saveApplyAndMark, bind.
  destruct (validateActiveCriticalRouteCapacity _ _ _) as [e|[]]; cbn [lift];
    [intros [= <- <-]; by left|cbn [ret]].
  destruct (Validate plan); [intros [= <- <-]; by left|cbn [ret]].
  destruct (marshal_plan plan) as [encoded|]; cbn [required]; [|intros [= <- <-]; by left].
  intros _. right. split_and!; [done..|by exists encoded].
Qed.

Lemma capacity_inr limit plan : validateActiveCriticalRouteCapacity limit plan None = inr tt ->
  0 < limit -> activeCriticalPlanCandidateCount plan <= limit.
Proof.
  unfold validateActiveCriticalRouteCapacity. destruct (limit <=? 0) eqn:E; [z_bool; lia|].
  destruct (limit <? _) eqn:E'; [done|]. z_bool. lia.
Qed.

Lemma confirm_untouched preview (m : Outcome -> Tx unit) w r w' :
  (forall o d, (m o d).2 = d) -> plan_ok (w_db w) ->
  commit_preview env preview (store_call env m) w = (r, w') -> untouched w w'.
Proof.
  intros Hm Hok. unfold commit_preview, store_call.
  assert (forall ok s, untouched w (w <| w_sched := s |> <| w_db := intervene env w |>
    <| w_calls := w_calls w ++ [CallStore ok] |>)) as Hu.
  { intros ok s. split; [destruct w; exact (intervene_ok _ Hok)|].
    split; [rewrite <- (intervene_row w); by destruct w|]. exists [CallStore ok].
    split; [by destruct w|]. by intros p scopes seen ok' [Hc|[]]. }
  destruct (CommitAfter _ preview (Some None)) as [[[[e|] ?] committed] ?].
  { intros [= _ <-]. split; [by destruct w|]. split; [by destruct w|]. exists [].
    split; [destruct w; simpl; by rewrite app_nil_r|]. by intros ???? []. }
  set (s := owner_now env (w_calls w) (w_sched w)).
  assert (intervene env (w <| w_sched := s |>) = intervene env w) as Hi by by destruct w.
  assert (w_calls (w <| w_sched := s |>) = w_calls w) as Hc by by destruct w.
  rewrite Hi, Hc. specialize (Hm (outcome env (w_calls w)) (intervene env w)).
  destruct (m _ _) as [[e|[]] d]; simpl in Hm; subst d; intros [= _ <-];
    [apply Hu|]. specialize (Hu true committed). by destruct w.
Qed.

Context `{!PayloadLaws}.

(** How a plan that the agent sees came about: rendered in this cycle, within the
    ceiling of critical candidates and above every generation ever published, or
    published before and meaning the same. *)
Definition admitted (rendered : DesiredPlan) (d : Database) (p : DesiredPlan) (encoded : string) :
    Prop :=
  Validate p = None /\
  ((exists g, p = rendered <| Generation := g |> /\ high_water d < g /\
      marshal_plan p = Some encoded /\
      (0 < activeCriticalRouteLimit env ->
         activeCriticalPlanCandidateCount p <= activeCriticalRouteLimit env)) \/
   (desired_plan (plan_state d) = Some encoded /\ decode_plan encoded = Some p /\
      SemanticDigest p = SemanticDigest rendered)).

(** The outcome of a cycle from [w]. *)
Definition cycle_sound (rendered : DesiredPlan) (w w' : World) : Prop :=
  plan_ok (w_db w') /\ exists added, w_calls w' = w_calls w ++ added /\
    (forall p scopes seen ok, In (CallAgent p scopes seen ok) added ->
       exists encoded, handed p encoded seen /\ admitted rendered (w_db w) p encoded) /\
    (applied_generation (plan_state (w_db w')) <> applied_generation (plan_state (w_db w)) ->
       exists p scopes seen, In (CallAgent p scopes seen true) added /\
         applied_generation (plan_state (w_db w')) = Generation p).

Lemma untouched_sound rendered w w' : untouched w w' -> cycle_sound rendered w w'.
Proof.
  intros (Hok & Hrow & added & Hc & Hn). split; [done|]. exists added. split; [done|].
  split; [intros p scopes seen ok Hin; by destruct (Hn p scopes seen ok)|]. by rewrite Hrow.
Qed.

Lemma sound_cycle rendered p encoded w w' : sound p encoded w w' ->
  admitted rendered (w_db w) p encoded -> cycle_sound rendered w w'.
Proof.
  intros [Hok (added & Hc & Ho & Ha)] Hadm. split; [done|]. exists added. split; [done|]. split.
  - intros q scopes seen ok Hin. destruct (Ho _ _ _ _ Hin) as [-> Hh]. by exists encoded.
  - intros Hne. destruct (Ha Hne) as (Hg & scopes & seen & Hin). by exists p, scopes, seen.
Qed.

Lemma stage_start p encoded w Phi : plan_ok (w_db w) -> Phi (plan_state (w_db w)) ->
  stage p encoded w Phi false w.
Proof.
  intros Hok Hphi. split_and!; [|done..]. split; [done|]. exists [].
  rewrite app_nil_r. split_and!; [done|by intros ???? []|by intros []].
Qed.

Lemma triple_run {W E A : Type} P (m : Prog W E A) Q R w r w' :
  triple P m Q R -> P w -> m w = (r, w') -> match r with inr a => Q a w' | inl e => R e w' end.
Proof. intros Hm Hw Hr. specialize (Hm w Hw). rewrite Hr in Hm. by destruct r. Qed.

Lemma save_cycle rendered g reason l epoch xs mappings preview fence w r w' :
  plan_ok (w_db w) -> high_water (w_db w) < g ->
  saveApplyAndMark env (rendered <| Generation := g |>) reason l epoch xs mappings preview fence None w
    = (r, w') ->
  cycle_sound rendered w w' /\
  (r = inr tt -> applied_generation (plan_state (w_db w')) = g /\
                 desired_generation (plan_state (w_db w')) = g).
Proof.
  intros Hok Hg Hr. set (p := rendered <| Generation := g |>) in *.
  destruct (save_checks _ _ _ _ _ _ _ _ _ _ _ _ Hr) as [[-> Hne]|(Hcap & Hv & encoded & He)].
  { split; [|done]. apply untouched_sound. split_and!; [done..|]. exists [].
    rewrite app_nil_r. by split; [|intros ???? []]. }
  assert (admitted rendered (w_db w) p encoded) as Hadm.
  { split; [done|]. left. exists g. split_and!; [done..|by apply capacity_inr]. }
  pose proof (triple_run _ _ _ _ _ _ _ (save_ok p encoded w reason l epoch xs mappings preview fence
    None He) (stage_start p encoded w (unmarked w) Hok eq_refl) Hr) as Hs.
  destruct r as [e|[]]; [by split; [eapply sound_cycle|]|]. destruct Hs as (Hs & Hm & _).
  split; [by eapply sound_cycle|]. intros _. exact Hm.
Qed.

(** From any database with well-formed plans. *)
Lemma publish_cycle_sound plan reason l epoch xs mappings preview fence w r w' :
  plan_ok (w_db w) ->
  publish_cycle env plan (state_of (w_db w)) reason l epoch xs mappings preview fence w = (r, w') ->
  cycle_sound plan w w' /\
  (r = inr tt -> applied_generation (plan_state (w_db w')) =
                 desired_generation (plan_state (w_db w'))).
Proof.
  intros Hok Hr.
  assert (cycle_sound plan w w) as Hsame.
  { apply untouched_sound. split_and!; [done..|]. exists []. rewrite app_nil_r.
    by split; [|intros ???? []]. }
  unfold publish_cycle in Hr. destruct (SemanticDigest plan) as [e|digest] eqn:Hdig.
  { by injection Hr as <- <-. }
  destruct (plan_ok_validates _ Hok) as (stored & Hstored & Hstate). unfold bind at 1 in Hr.
  rewrite Hstored in Hr. cbn [lift ret] in Hr. cbn zeta in Hr.
  cbn [state_of InvalidatedGeneration DesiredGeneration AppliedGeneration st_DesiredPlan] in Hr.
  pose proof (po_rebased _ Hok) as Hreb. destruct (po_range _ Hok) as [Hr1 Hr2].
  pose proof (po_invalidated _ Hok) as Hi0.
  assert (forall g, high_water (w_db w) < g ->
    saveApplyAndMark env (plan <| Generation := g |>) reason l epoch xs mappings (Some preview) fence
      None w = (r, w') -> cycle_sound plan w w' /\
    (r = inr tt -> applied_generation (plan_state (w_db w')) =
                   desired_generation (plan_state (w_db w')))) as Hsave.
  { intros g Hg Hs. destruct (save_cycle _ _ _ _ _ _ _ _ _ _ _ _ Hok Hg Hs) as [Hc Hm].
    split; [done|]. intros E. by destruct (Hm E) as [-> ->]. }
  destruct (Z.eqb_spec (invalidated_generation (plan_state (w_db w))) 0) as [Hz|Hnz]; cbn [negb] in Hr.
  2: { eapply Hsave, Hr. unfold high_water. destruct (Hreb Hnz). lia. }
  destruct (match stored with Some _ => _ | None => None end) as [persisted|] eqn:Hmatch.
  2: { eapply Hsave, Hr. unfold high_water. lia. }
  destruct stored as [[q digest']|]; [|done]. destruct (str_eqb digest digest') eqn:Hd; [|done].
  str_bool. subst digest'. injection Hmatch as ->. destruct Hstate as (Hne & Hdig' & Hdec).
  destruct (Z.eqb_spec (desired_generation (plan_state (w_db w)))
              (applied_generation (plan_state (w_db w)))) as [Heq|Hlt].
  - apply confirm_untouched in Hr; [|intros o d; unfold ValidateCandidatePlanSnapshot;
      by apply steady_transaction, steady_candidates|done].
    split; [by apply untouched_sound|]. intros _. destruct Hr as (_ & -> & _). done.
  - destruct (stage_some _ _ _ (po_desired _ Hok) Hne) as (bytes & q & h & ms & Hb & Hp & _).
    rewrite Hb in Hdec, Hr. cbn [blob from_option id] in Hdec, Hr.
    rewrite (pub_decode _ _ _ _ _ Hp) in Hdec. injection Hdec as ->.
    assert (admitted plan (w_db w) persisted bytes) as Hadm.
    { split; [apply Hp|]. right. split_and!; [done|apply Hp|congruence]. }
    assert (stage persisted bytes w (durable persisted bytes w) false w) as Hst.
    { apply stage_start; [done|]. pose proof (pub_generation _ _ _ _ _ Hp) as Hgen.
      split_and!; [done|by rewrite Hgen|done|lia]. }
    eapply triple_run in Hr; [|eapply triple_bind with (S := fun _ => stage persisted bytes w
      (durable persisted bytes w) false); [apply triple_fence|intros []];
      eapply triple_bind with (S := fun _ => stage persisted bytes w (durable persisted bytes w) false);
        [apply triple_preview, steady_call; intros o d; unfold ValidateCandidatePlanSnapshot;
           by apply steady_transaction, steady_candidates|intros []; apply apply_ok]|exact Hst].
    destruct r as [e|[]]; [by split; [eapply sound_cycle|]|]. destruct Hr as (Hs & [E1 E2] & _).
    split; [by eapply sound_cycle|]. congruence.
Qed.
(** C9.  A plan reaches the gateway only when it is durable, and is marked only when
    the gateway took it.  At the end of a cycle, whatever the answers of the store,
    the scheduler and the agent and whatever other writers do in between: every plan
    handed to the agent was at that moment the desired plan of a well-formed
    database, newer than the applied one, valid, and either rendered in this cycle,
    within the configured ceiling of critical candidates and above every generation
    ever published, or published before with the same meaning.  The applied
    generation changes only to that of a plan the agent acknowledged.  When the cycle
    succeeds, nothing remains to be applied. *)
Theorem plan_reaches_agent_durably ops plan reason l epoch xs mappings preview fence w r w' :
  w_db w = run ops new_database ->
  publish_cycle env plan (state_of (w_db w)) reason l epoch xs mappings preview fence w = (r, w') ->
  cycle_sound plan w w' /\
  (r = inr tt -> applied_generation (plan_state (w_db w')) =
                 desired_generation (plan_state (w_db w'))).
Proof.
  intros Hw. apply publish_cycle_sound. rewrite Hw. apply store_run_ok, plan_ok_new.
Qed.
End Engine.

(** ** On the small engine *)

Lemma stored_payload_laws : PayloadLaws.
Proof.
  split.
  - done.
  - reflexivity.
  - intros b p _ _. unfold SemanticDigest.
    assert (forall l, exists out, canonical_outbounds l = inr out) as Hc.
    { induction l as [|o l [out IH]]; [by eexists|]. cbn [canonical_outbounds].
      unfold canonicalOutboundJSON. cbn [reencode stored_json]. rewrite IH.
      destruct (str_eqb _ _); by eexists. }
    destruct (Hc (Outbounds p)) as [out ->]. unfold digest. cbn [marshal_plan stored_json].
    by eexists.
Qed.

Lemma stored_state_never_corrupt_witness :
  exists r, validatePersistedPlanState (state_of (run stored_ops new_database)) = inr r.
Proof.
  destruct (@stored_state_never_corrupt stored_json stored_codec open_vault stored_payload
    stored_payload_laws stored_ops Commits (state_of (run stored_ops new_database))
    (run stored_ops new_database) eq_refl) as (_ & _ & r & Hr & _).
  exists r. exact Hr.
Defined.

Lemma plan_reaches_agent_durably_witness :
  let result := publish_cycle calm_env (stored_plan 1) (state_of (w_db engine_start)) "periodic"
    stored_assignments 0 stored_expectations [stored_mapping] (BeginPreview sample_scheduler) None
    engine_start in
  result.1 = inr tt /\ cycle_sound calm_env (stored_plan 1) engine_start result.2.
Proof.
  intros result. split; [vm_compute; reflexivity|].
  exact (proj1 (@plan_reaches_agent_durably stored_json stored_codec open_vault stored_payload
    calm_env stored_payload_laws stored_start (stored_plan 1) "periodic" stored_assignments 0
    stored_expectations [stored_mapping] (BeginPreview sample_scheduler) None engine_start
    result.1 result.2 eq_refl (surjective_pairing result))).
Defined.

(** * Flow resets of a publication

    Which client sessions the engine asks the gateway to reset
    (controller/flow_recovery.go): only those whose failed route was confirmed. *)

Section Flows.
Context `{Json} `{PlanCodec} `{Vault} `{PayloadCodec} (env : Env).

(** ** Runs, call by call *)

Definition no_agent (added : list Call) : Prop :=
  forall p scopes seen ok, ~ In (CallAgent p scopes seen ok) added.

(** A world that follows [w] on well-formed databases with the same plan row. *)
Definition follows (w w1 : World) : Prop :=
  plan_ok (w_db w1) /\ plan_state (w_db w1) = plan_state (w_db w) /\
  exists added, w_calls w1 = w_calls w ++ added /\ no_agent added.

Lemma follows_refl w : plan_ok (w_db w) -> follows w w.
Proof. intros Hok. split_and!; [done..|]. exists []. rewrite app_nil_r. split; [done|by intros ???? []]. Qed.

Lemma follows_trans w w1 w2 : follows w w1 -> follows w1 w2 -> follows w w2.
Proof.
  intros (_ & E1 & a & Ha & Hna) (Hok & E2 & b & Hb & Hnb). split_and!; [done|congruence|].
  exists (a ++ b). rewrite Hb, Ha, app_assoc. split; [done|].
  intros p scopes seen ok [?|?]%in_app_or; [by eapply Hna|by eapply Hnb].
Qed.

(** One store call that does not write plans. *)
Lemma quiet_call_inv {A : Type} (m : Outcome -> Tx A) w r w1 :
  (forall o d, plan_ok d -> plan_ok (m o d).2) -> (forall o d, same_row d (m o d).2) ->
  plan_ok (w_db w) -> store_call env m w = (r, w1) ->
  follows w w1 /\ match r with
    | inr a => (m (outcome env (w_calls w)) (intervene env w)).1 = inr a
    | inl _ => True
    end.
Proof.
  intros Hok Hrow Hw Hr. unfold store_call in Hr. pose proof (intervene_ok env w Hw) as Hi.
  specialize (Hok (outcome env (w_calls w)) _ Hi).
  specialize (Hrow (outcome env (w_calls w)) (intervene env w)). unfold same_row in Hrow.
  rewrite intervene_row in Hrow.
  assert (forall d ok, plan_ok d -> plan_state d = plan_state (w_db w) ->
    follows w (w <| w_db := d |> <| w_calls := w_calls w ++ [CallStore ok] |>)) as Hf.
  { intros d ok Hd Hp. split_and!; [by destruct w..|]. exists [CallStore ok].
    split; [by destruct w|]. by intros p scopes seen ok' [Hc|[]]. }
  destruct (m _ _) as [[e|a] d] eqn:E; injection Hr as <- <-; (split; [by apply Hf|]); done.
Qed.

(** ** What confirms a failure *)

(** In the run of [applyPlan] from [w]: a debt of the ledger is still owed in the database
    that the second call of the store reads; or the evidence that the third one reads
    shows the candidate as failed hard. *)
Definition failure_confirmed (w : World) (scope : FlowRecovery) : Prop :=
  let w1 := (store_call env LoadPlanState w).2 in
  let w2 := (store_call env PendingRouteRecoveries w1).2 in
  let d1 := intervene env w1 in
  let d2 := intervene env w2 in
  (exists applied debt, appliedRecoveryPlanTx d1 = (inr applied, d1) /\ owed d1 applied debt /\
     route_recovery d1 !! debt_key debt = Some debt /\ debt_of_scope scope debt = true) \/
  (exists refs snapshot e,
     (LoadRoutingReferencesSnapshot (outcome env (w_calls w2)) refs d2).1 = inr snapshot /\
     In e (rs_Candidates snapshot) /\ c_ID (e_Candidate e) = scope_candidate scope /\
     actively_failed e = true).

Lemma pending_debt o d debts d1 debt : ledger_ok d ->
  PendingRouteRecoveries o d = (inr debts, d1) -> In debt debts ->
  exists applied, appliedRecoveryPlanTx d = (inr applied, d) /\ owed d applied debt /\
    route_recovery d !! debt_key debt = Some debt.
Proof.
  intros Hl Hp Hin. unfold PendingRouteRecoveries, transaction in Hp.
  assert (exists d2, pendingRouteRecoveriesTx d = (inr debts, d2)) as [d2 Hr].
  { destruct o; try discriminate Hp; destruct (pendingRouteRecoveriesTx d) as [[e|v] d2];
      simplify_eq; by eexists. }
  destruct (appliedRecoveryPlanTx d) as [[e|plan] d3] eqn:Ha.
  - exfalso. unfold pendingRouteRecoveriesTx, bind in Hr. cbn [get] in Hr.
    destruct (bool_decide _); [by injection Hr as <- _|]. by rewrite Ha in Hr.
  - pose proof (appliedRecoveryPlanTx_same d) as Hs. rewrite Ha in Hs. simpl in Hs. subst d3.
    destruct (pending_spec d plan Hl Ha) as (debts' & Hr' & Hd). rewrite Hr' in Hr.
    injection Hr as Heq _. rewrite <- Heq in Hin. exists plan. by apply Hd in Hin as [? ?].
Qed.

Lemma fence_inv scopes w r w1 : plan_ok (w_db w) ->
  fenceFlowRecoveries env scopes w = (r, w1) ->
  follows w w1 /\ match r with
    | inr sent => forall s, In s sent -> In s scopes /\
        ((exists debts debt, (PendingRouteRecoveries (outcome env (w_calls w)) (intervene env w)).1 = inr debts /\
            In debt debts /\ debt_of_scope s debt = true) \/
         let w2 := (store_call env PendingRouteRecoveries w).2 in
         exists refs snapshot e,
           (LoadRoutingReferencesSnapshot (outcome env (w_calls w2)) refs (intervene env w2)).1 = inr snapshot /\
           In e (rs_Candidates snapshot) /\ c_ID (e_Candidate e) = scope_candidate s /\
           actively_failed e = true)
    | inl _ => True
    end.
Proof.
  intros Hok Hr. unfold fenceFlowRecoveries in Hr. destruct scopes as [|s0 scopes].
  { injection Hr as <- <-. split; [by apply follows_refl|done]. }
  cbn beta iota in Hr. remember (s0 :: scopes) as all eqn:Hall. clear Hall.
  unfold bind in Hr. destruct (store_call env PendingRouteRecoveries w) as [r1 w2] eqn:E1. cbn [snd].
  apply quiet_call_inv in E1 as [Hf1 H1']; [| | |done].
  2: { intros o d. unfold PendingRouteRecoveries. apply keeps_transaction, pending_ok. }
  2: { intros o d. unfold PendingRouteRecoveries. apply transaction_relates; [done|].
       intros u d1 Hp. unfold same_row. apply pending_frame in Hp as [-> _]. by destruct d. }
  destruct r1 as [e|debts]; [by injection Hr as <- <-|].
  destruct (store_call env _ w2) as [r2 w3] eqn:E2.
  assert (forall o refs d, (LoadRoutingReferencesSnapshot o refs d).2 = d) as Hsteady
    by (intros o refs d; unfold LoadRoutingReferencesSnapshot, loadRoutingEvidenceSnapshot;
        by apply steady_transaction).
  apply quiet_call_inv in E2 as [Hf2 H2']; [|intros o d; unfold same_row; by rewrite Hsteady..|apply Hf1].
  destruct r2 as [e|evidence]; injection Hr as <- <-; (split; [by eapply follows_trans|]); [done|].
  intros s Hin. apply filter_In in Hin as [Hin Hs]. split; [done|].
  unfold scope_failed in Hs. apply orb_true_iff in Hs as [Hs|Hs].
  - right. destruct (index_by _ _ !! _) as [e|] eqn:Ei; [|done]. apply index_by_Some in Ei as [Hine Hid].
    eexists _, evidence, e. by split_and!.
  - left. apply existsb_exists in Hs as (debt & Hdebt & Hscope). by exists debts, debt.
Qed.

(** ** The scopes *)

Lemma confirmed_scope_In old_routes route scope : In scope (confirmed_scope old_routes route) ->
  exists old, old_routes !! ClientID route = Some old /\ fr_ClientID scope = ClientID route /\
    fr_SourceCIDR scope = SourceCIDR route /\ SourceCIDR old = SourceCIDR route /\
    BlockTCP old = false /\ BlockTCP route = false /\ FailedOutbound scope = TCPOutbound old /\
    ReplacementOutbound scope = TCPOutbound route /\ TCPOutbound old <> EmptyString /\
    TCPOutbound route <> EmptyString /\ TCPOutbound old <> TCPOutbound route.
Proof.
  unfold confirmed_scope. destruct (old_routes !! _) as [old|]; [|done].
  destruct (_ || _) eqn:E; [done|]. intros [<-|[]]. exists old. cbn.
  rewrite !orb_false_iff, negb_false_iff in E. destruct_and! E. by str_bool.
Qed.

(** A scope of a plan: its client keeps its address, its TCP route is moved from the
    failed to the replacement outbound, and neither plan blocks it. *)
Record moves (previous next : DesiredPlan) (scope : FlowRecovery) : Prop := {
  mv_old : exists old, In old (Clients previous) /\ ClientID old = fr_ClientID scope /\
    SourceCIDR old = fr_SourceCIDR scope /\ BlockTCP old = false /\
    TCPOutbound old = FailedOutbound scope;
  mv_new : exists route, In route (Clients next) /\ ClientID route = fr_ClientID scope /\
    SourceCIDR route = fr_SourceCIDR scope /\ BlockTCP route = false /\
    TCPOutbound route = ReplacementOutbound scope;
  mv_named : FailedOutbound scope <> EmptyString /\ ReplacementOutbound scope <> EmptyString /\
    FailedOutbound scope <> ReplacementOutbound scope
}.

Lemma confirmed_recoveries_inr state next scopes scope :
  confirmedFlowRecoveries state next = inr scopes -> In scope scopes ->
  DesiredReason state = PlacementHardFailure /\ DesiredGeneration state = Generation next /\
  exists previous digest,
    decodePersistedPlan (AppliedGeneration state) (st_AppliedPlan state) = inr (previous, digest) /\
    moves previous next scope.
Proof.
  unfold confirmedFlowRecoveries. destruct (_ || _) eqn:E; [by intros [= <-]|].
  rewrite !orb_false_iff, !negb_false_iff in E. destruct_and! E.
  intros Hr Hin. apply attempt_inr in Hr as ([previous digest] & Hd & [= <-]).
  str_bool. z_bool. split_and!; [done..|]. exists previous, digest. split; [done|].
  apply in_flat_map in Hin as (route & Hroute & Hs).
  apply confirmed_scope_In in Hs as (old & Hold & ? & ? & ? & ? & ? & ? & ? & ? & ? & ?).
  apply index_by_Some in Hold as [Hin Hid]. cbn [fst] in Hin. split.
  - exists old. split_and!; congruence.
  - exists route. split_and!; congruence.
  - split_and!; congruence.
Qed.

(** C18.  Sessions are reset only for confirmed failures.  Whatever the store, the
    agent and other writers answer, every flow recovery that is sent with a plan
    belongs to a plan published for a hard failure; it names a client whose TCP
    route moves, from the same address, from the outbound of the applied plan to
    that of the new plan; and this run itself has found the failure confirmed: a debt
    of the ledger for the client's move was still owed in the database that the run
    read after the plan state, or the evidence that it read next showed the candidate
    behind the failed outbound as failed hard.  A client that the same plan moves for
    another reason keeps its sessions. *)
Theorem flow_resets_are_confirmed plan encoded w r w' added p sent seen ok scope :
  plan_ok (w_db w) -> applyPlan env plan encoded w = (r, w') -> w_calls w' = w_calls w ++ added ->
  In (CallAgent p sent seen ok) added -> In scope sent ->
  p = plan /\ desired_reason (plan_state (w_db w)) = PlacementHardFailure /\
  desired_generation (plan_state (w_db w)) = Generation plan /\
  failure_confirmed w scope /\
  exists previous digest,
    decodePersistedPlan (applied_generation (plan_state (w_db w)))
      (blob (applied_plan (plan_state (w_db w)))) = inr (previous, digest) /\
    moves previous plan scope.
Proof.
  intros Hok Hr Hadded Hin Hscope. unfold applyPlan in Hr.
  assert (forall w1, follows w w1 -> w' = w1 -> False) as Hstop.
  { intros w1 (_ & _ & a & Ha & Hna) ->. rewrite Hadded in Ha. apply app_inv_head in Ha as ->.
    by eapply Hna. }
  unfold failure_confirmed. unfold bind in Hr. destruct (store_call env LoadPlanState w) as [r1 w1] eqn:E1.
  cbn [snd]. assert (forall o d, (LoadPlanState o d).2 = d) as Hsteady
    by (intros o d; unfold LoadPlanState, query; by apply steady_transaction).
  apply quiet_call_inv in E1 as [Hf1 H1']; [|intros o d; unfold same_row; by rewrite Hsteady..|done].
  destruct r1 as [e|state]; [by injection Hr as _ <-; destruct (Hstop w1)|].
  assert (state = state_of (w_db w)) as ->.
  { unfold LoadPlanState, query, transaction, get in H1'. unfold state_of. rewrite <- (intervene_row env w).
    by destruct (outcome env (w_calls w)); cbn in H1'; simplify_eq. }
  destruct (confirmedFlowRecoveries (state_of (w_db w)) plan) as [e|scopes] eqn:Ec; cbn [lift] in Hr;
    [by injection Hr as _ <-; destruct (Hstop w1)|]. cbn [ret] in Hr.
  destruct (fenceFlowRecoveries env scopes w1) as [r2 w2] eqn:E2.
  apply fence_inv in E2 as [Hf2 H2']; [|apply Hf1]. pose proof (follows_trans _ _ _ Hf1 Hf2) as Hf.
  destruct r2 as [e|final]; [by injection Hr as _ <-; destruct (Hstop w2)|].
  assert (p = plan /\ sent = if recovering_agent env then final else []) as [-> ->].
  { destruct Hf as (_ & _ & a & Ha & Hna). unfold agent_apply in Hr. cbn beta zeta in Hr.
    set (ok' := agent_ok env _ _ _) in Hr.
    set (call := CallAgent plan (if recovering_agent env then final else []) (intervene env w2) ok') in Hr.
    assert (exists rest, w_calls w' = w_calls w2 ++ call :: rest /\ no_agent rest) as (rest & Hc & Hrest).
    { destruct ok'.
      - cbn [get] in Hr. unfold store_call in Hr. destruct (MarkAppliedPlan _ _ _ _ _) as [[e|u] d3];
          injection Hr as _ <-; (eexists [CallStore _]; split;
            [destruct w2; simpl; by rewrite <- app_assoc|by intros ???? [Hc|[]]]).
      - injection Hr as _ <-. exists []. split; [by destruct w2|by intros ???? []]. }
    rewrite Hadded, Ha, <- app_assoc in Hc. apply app_inv_head in Hc. subst added.
    apply in_app_or in Hin as [Hin|[Hin|Hin]]; [by destruct (Hna _ _ _ _ Hin)| |by destruct (Hrest _ _ _ _ Hin)].
    unfold call in Hin. by simplify_eq. }
  destruct (recovering_agent env); [|done]. destruct (H2' _ Hscope) as [Hs Hconf].
  destruct (confirmed_recoveries_inr _ _ _ _ Ec Hs) as (Hreason & Hgen & previous & digest & Hd & Hm).
  split_and!; [done..| |by exists previous, digest]. destruct Hconf as [(debts & debt & Hl & Hdebt & Hof)|?]; [left|by right].
  pose proof (intervene_ok env w1 (proj1 Hf1)) as Hok1.
  destruct (PendingRouteRecoveries (outcome env (w_calls w1)) (intervene env w1)) as [x d] eqn:Ed.
  cbn in Hl. subst x. destruct (pending_debt _ _ _ _ _ (po_ledger _ Hok1) Ed Hdebt) as (applied & ? & ? & ?).
  by exists applied, debt.
Qed.
End Flows.

(** ** On the small engine *)

(** The calls of a run that starts without any. *)
Definition failure_calls : list Call :=
  w_calls (applyPlan calm_env (stored_plan 2) (stored_bytes 2) engine_failed).2.

Definition failure_scope : FlowRecovery := {|
  fr_ClientID := "alice"; fr_SourceCIDR := "10.44.0.2/32"; FailedOutbound := "cand_a";
  ReplacementOutbound := "cand_b" |}.

Definition agent_scopes (calls : list Call) : list (list FlowRecovery) :=
  flat_map (fun c => match c with CallAgent _ scopes _ _ => [scopes] | _ => [] end) calls.

Lemma agent_scopes_In scopes calls : In scopes (agent_scopes calls) ->
  exists p seen ok, In (CallAgent p scopes seen ok) calls.
Proof.
  intros (c & Hin & Hc)%in_flat_map. destruct c as [| |p s seen ok]; [done..|].
  destruct Hc as [<-|[]]. by exists p, seen, ok.
Qed.

(** The client that the failure moved, and nobody else, is reset. *)
Lemma flow_resets_are_confirmed_witness :
  agent_scopes failure_calls = [[failure_scope]] /\
  failure_confirmed calm_env engine_failed failure_scope.
Proof.
  assert (agent_scopes failure_calls = [[failure_scope]]) as Hs by (vm_compute; reflexivity).
  split; [exact Hs|].
  destruct (agent_scopes_In [failure_scope] failure_calls) as (p & seen & ok & Hin).
  { rewrite Hs. by left. }
  pose proof (@flow_resets_are_confirmed stored_json stored_codec open_vault stored_payload calm_env
    (stored_plan 2) (stored_bytes 2) engine_failed
    (applyPlan calm_env (stored_plan 2) (stored_bytes 2) engine_failed).1
    (applyPlan calm_env (stored_plan 2) (stored_bytes 2) engine_failed).2 failure_calls p
    [failure_scope] seen ok failure_scope (store_run_ok failure_ops new_database plan_ok_new)
    (surjective_pairing _) eq_refl Hin (or_introl eq_refl)) as Hf.
  exact (proj1 (proj2 (proj2 (proj2 Hf)))).
Defined.
