(* ===== verification/CandidateState.v ===== *)
(** The probe state and the health of candidates (store/candidate_state.go,
    store/health.go): what a probe result makes of a candidate, what it writes to
    the health row, and the membership of the working pool. *)
From Stdlib Require Import Floats.
From S2P Require Import Prelude Effects GoOrder GoFloat GoStrings GoSort Handlers StoreTables StoreLogic.

#[local] Open Scope Z_scope.
#[local] Open Scope effect_scope.

(** ** Data *)

Definition CandidateUnknown : string := "unknown".
Definition CandidatePreflight : string := "preflight".
Definition CandidateProbing : string := "probing".
Definition CandidateQualified : string := "qualified".
Definition CandidateBanned : string := "banned".
Definition CandidateDraining : string := "draining".

Definition defaultCandidateResetWindow : Duration := 5 * hour.

#[export] Instance CandidateProbeState_eta : Eta CandidateProbeState := fun s =>
  Build_CandidateProbeState (ps_Fingerprint s) (ps_CandidateID s) (ps_SourceID s) (ps_Status s)
    (ps_FailureStreak s) (ps_FullSuccessStreak s) (ps_WindowStartedAt s) (ps_BannedUntil s)
    (ps_LastFastProbeAt s) (ps_LastFullProbeAt s) (ps_LastSuccessAt s) (ps_LastFailureAt s)
    (ps_LastErrorCode s) (ps_LastErrorMessage s) (ps_LastScore s) (ps_ConservativeScore s)
    (ps_InWorkingPool s) (ps_Draining s) (ps_Stale s) (ps_UpdatedAt s).

#[export] Instance CandidateHealth_eta : Eta CandidateHealth := fun h =>
  Build_CandidateHealth (hl_CandidateID h) (hl_Score h) (hl_TCPQualified h) (hl_UDPQualified h)
    (hl_Available h) (hl_LatencyMS h) (hl_ThroughputMbps h) (hl_UpdatedAt h)
    (hl_ActiveObservedAt h) (hl_ActiveSuccess h) (hl_ActiveCurrent h) (hl_ActiveHardFailure h).

Record ProbeTransition := {
  pt_Fingerprint : string;
  pt_CandidateID : string;
  pt_SourceID : string;
  pt_Full : bool;
  pt_Success : bool;
  pt_InfrastructureFailure : bool;
  pt_DeferUDPDemotion : bool;
  pt_ErrorCode : string;
  pt_SafeErrorMessage : string;
  pt_Score : float;
  pt_At : Time;
  pt_ResetWindow : Duration
}.

#[export] Instance ProbeTransition_eta : Eta ProbeTransition := fun t =>
  Build_ProbeTransition (pt_Fingerprint t) (pt_CandidateID t) (pt_SourceID t) (pt_Full t)
    (pt_Success t) (pt_InfrastructureFailure t) (pt_DeferUDPDemotion t) (pt_ErrorCode t)
    (pt_SafeErrorMessage t) (pt_Score t) (pt_At t) (pt_ResetWindow t).

Record ProbeSample := {
  sm_CandidateID : string;
  sm_Success : bool;
  sm_LatencyMS : float;
  sm_ThroughputMbps : float;
  sm_PacketDropRatio : float;
  sm_CreatedAt : Time
}.

Record WorkingPoolMembership := { wp_Active : list Candidate; wp_Draining : list Candidate }.

(** ** Texts *)

(** [strings.Map] with a mapping that drops control characters: what is not
    UTF-8 becomes U+FFFD, a byte each. *)
Definition printable (s : string) : string :=
  let bytes := bytes_of s in
  string_of_bytes (flat_map (fun '(r, bytes) =>
    if (r <? 0x20) || (r =? 0x7f) then []
    else if r =? rune_error then [0xEF; 0xBF; 0xBD] else bytes)
    (chunks_loop (length bytes) bytes)).

Definition boundedSafeText (value : string) (limit : nat) : string :=
  string_of_bytes (take limit (bytes_of (trim_space (printable value)))).

Definition minFloat (left right : float) : float :=
  if PrimFloat.ltb left right then left else right.

(** The service gates whose failure a qualified route survives twice. *)
Definition soft_codes : list string :=
  ["score_too_low"; "full_probe_failed"; "liveness_failed"; "chatgpt_web_failed";
   "openai_api_failed"; "telegram_web_failed"; "telegram_mtproto_failed"; "youtube_web_failed";
   "instagram_web_failed"]%string.

Definition softFullFailureCode (code : string) : bool := existsb (str_eqb code) soft_codes.

Definition score_too_low : string := "score_too_low".
Definition active_hard_failure : string := "active_hard_failure".

(** ** A probe result *)

Definition normalizeProbeTransition (now : Time) (t : ProbeTransition) :
    StoreError + ProbeTransition :=
  if str_eqb (pt_Fingerprint t) EmptyString then inl FingerprintRequired
  else
    let t := if time_is_zero (pt_At t) then t <| pt_At := now |> else t in
    let t := if pt_ResetWindow t <=? 0 then t <| pt_ResetWindow := defaultCandidateResetWindow |>
             else t in
    inr (t <| pt_ErrorCode := boundedSafeText (pt_ErrorCode t) 64 |>
           <| pt_SafeErrorMessage := boundedSafeText (pt_SafeErrorMessage t) 256 |>).

Definition is_qualified (s : CandidateProbeState) : bool := str_eqb (ps_Status s) CandidateQualified.
Definition is_draining (s : CandidateProbeState) : bool := str_eqb (ps_Status s) CandidateDraining.

Definition resetCandidateWindow (s : CandidateProbeState) (now : Time) (window : Duration) :
    CandidateProbeState :=
  if time_is_zero (ps_WindowStartedAt s) || before now (time_add (ps_WindowStartedAt s) window)
  then s
  else
    let s := if is_qualified s then s else s <| ps_FailureStreak := 0 |> in
    let s := s <| ps_BannedUntil := zero_time |> in
    let s := if is_qualified s then s
             else s <| ps_FullSuccessStreak := 0 |> <| ps_Status := CandidateUnknown |>
                    <| ps_Stale := true |> in
    s <| ps_WindowStartedAt := now |>.

Definition fresh_probe_state (t : ProbeTransition) : CandidateProbeState := {|
  ps_Fingerprint := pt_Fingerprint t; ps_CandidateID := pt_CandidateID t;
  ps_SourceID := pt_SourceID t; ps_Status := CandidateUnknown; ps_FailureStreak := 0;
  ps_FullSuccessStreak := 0; ps_WindowStartedAt := zero_time; ps_BannedUntil := zero_time;
  ps_LastFastProbeAt := zero_time; ps_LastFullProbeAt := zero_time; ps_LastSuccessAt := zero_time;
  ps_LastFailureAt := zero_time; ps_LastErrorCode := EmptyString;
  ps_LastErrorMessage := EmptyString; ps_LastScore := 0%float; ps_ConservativeScore := 0%float;
  ps_InWorkingPool := false; ps_Draining := false; ps_Stale := true; ps_UpdatedAt := zero_time |}.

(** What precedes the outcome: identity and window. *)
Definition prepare_probe_state (t : ProbeTransition) (s : CandidateProbeState) :
    CandidateProbeState :=
  let s := if str_eqb (pt_CandidateID t) EmptyString then s
           else s <| ps_CandidateID := pt_CandidateID t |> in
  let s := if str_eqb (pt_SourceID t) EmptyString then s
           else s <| ps_SourceID := pt_SourceID t |> in
  let s := if pt_InfrastructureFailure t then s
           else resetCandidateWindow s (pt_At t) (pt_ResetWindow t) in
  if time_is_zero (ps_WindowStartedAt s) then s <| ps_WindowStartedAt := pt_At t |> else s.

Definition with_error (t : ProbeTransition) (s : CandidateProbeState) : CandidateProbeState :=
  s <| ps_LastErrorCode := pt_ErrorCode t |> <| ps_LastErrorMessage := pt_SafeErrorMessage t |>.
Definition without_error (s : CandidateProbeState) : CandidateProbeState :=
  s <| ps_LastErrorCode := EmptyString |> <| ps_LastErrorMessage := EmptyString |>.
Definition probed (t : ProbeTransition) (s : CandidateProbeState) : CandidateProbeState :=
  if pt_Full t then s <| ps_LastFullProbeAt := pt_At t |> else s <| ps_LastFastProbeAt := pt_At t |>.

(** The cases of the switch; the flag says that a soft failure was retained. *)
Definition soft_failure (t : ProbeTransition) (s : CandidateProbeState) :
    CandidateProbeState * bool :=
  let s := with_error t (s <| ps_FailureStreak := ps_FailureStreak s + 1 |>
             <| ps_LastFullProbeAt := pt_At t |> <| ps_LastFailureAt := pt_At t |>) in
  let s := if str_eqb (pt_ErrorCode t) score_too_low
           then s <| ps_LastScore := pt_Score t |>
                  <| ps_ConservativeScore := minFloat (ps_ConservativeScore s) (pt_Score t) |>
           else s in
  if ps_FailureStreak s <? 3 then (s, true)
  else (s <| ps_Status := CandidateUnknown |> <| ps_FailureStreak := 0 |>
          <| ps_FullSuccessStreak := 0 |> <| ps_Stale := true |>, false).

Definition hard_failure (t : ProbeTransition) (s : CandidateProbeState) : CandidateProbeState :=
  with_error t (s <| ps_Status := CandidatePreflight |> <| ps_FullSuccessStreak := 1 |>
    <| ps_FailureStreak := 1 |> <| ps_LastFastProbeAt := pt_At t |>
    <| ps_LastFailureAt := pt_At t |>) <| ps_Stale := true |>.

Definition ordinary_failure (t : ProbeTransition) (s : CandidateProbeState) : CandidateProbeState :=
  let s := probed t s in
  let s := if is_qualified s then s <| ps_FailureStreak := 0 |> else s in
  let s := with_error t (s <| ps_FailureStreak := ps_FailureStreak s + 1 |>
             <| ps_FullSuccessStreak := 0 |> <| ps_LastFailureAt := pt_At t |>)
             <| ps_Stale := true |> in
  if 3 <=? ps_FailureStreak s
  then s <| ps_Status := CandidateBanned |>
         <| ps_BannedUntil := time_add (ps_WindowStartedAt s) (pt_ResetWindow t) |>
  else s <| ps_Status := CandidateUnknown |>.

Definition full_success (t : ProbeTransition) (s : CandidateProbeState) : CandidateProbeState :=
  let previousScore := ps_LastScore s in
  let previousSuccesses := ps_FullSuccessStreak s in
  let s := without_error (s <| ps_FailureStreak := 0 |>
             <| ps_FullSuccessStreak := ps_FullSuccessStreak s + 1 |>
             <| ps_LastFullProbeAt := pt_At t |> <| ps_LastSuccessAt := pt_At t |>)
             <| ps_LastScore := pt_Score t |> <| ps_Stale := false |> in
  let s := if 0 <? previousSuccesses
           then s <| ps_ConservativeScore := minFloat previousScore (pt_Score t) |> else s in
  s <| ps_Status := if 2 <=? ps_FullSuccessStreak s then CandidateQualified else CandidatePreflight |>.

Definition fast_success (t : ProbeTransition) (s : CandidateProbeState) : CandidateProbeState :=
  let q := is_qualified s in
  let s := if q then s else s <| ps_FailureStreak := 0 |> in
  let s := without_error (s <| ps_LastFastProbeAt := pt_At t |>
             <| ps_LastSuccessAt := pt_At t |>) in
  if q then s else s <| ps_Status := CandidatePreflight |>.

Definition apply_transition (t : ProbeTransition) (s : CandidateProbeState) :
    CandidateProbeState * bool :=
  if pt_InfrastructureFailure t then (with_error t (probed t s), false)
  else if pt_Full t && negb (pt_Success t) && softFullFailureCode (pt_ErrorCode t) &&
          (is_qualified s || is_draining s)
  then soft_failure t s
  else if negb (pt_Success t) && str_eqb (pt_ErrorCode t) active_hard_failure && is_qualified s
  then (hard_failure t s, false)
  else if negb (pt_Success t) then (ordinary_failure t s, false)
  else if pt_Full t then (full_success t s, false)
  else (fast_success t s, false).

(** ** Writing it *)

Definition upsertCandidateProbeState (s : CandidateProbeState) (d : Database) : Database :=
  let old := candidate_probe_state d !! ps_Fingerprint s in
  d <| candidate_probe_state := <[ps_Fingerprint s := {|
    pr_candidate_id := ps_CandidateID s; pr_source_id := ps_SourceID s; pr_status := ps_Status s;
    pr_failure_streak := ps_FailureStreak s; pr_full_success_streak := ps_FullSuccessStreak s;
    pr_window_started_at := unix_or_nil (ps_WindowStartedAt s);
    pr_banned_until := unix_or_nil (ps_BannedUntil s);
    pr_last_fast_probe_at := unix_or_nil (ps_LastFastProbeAt s);
    pr_last_full_probe_at := unix_or_nil (ps_LastFullProbeAt s);
    pr_last_success_at := unix_or_nil (ps_LastSuccessAt s);
    pr_last_failure_at := unix_or_nil (ps_LastFailureAt s);
    pr_last_error_code := ps_LastErrorCode s; pr_last_error_message := ps_LastErrorMessage s;
    pr_last_score := ps_LastScore s; pr_conservative_score := ps_ConservativeScore s;
    pr_in_working_pool := ps_InWorkingPool s; pr_draining := ps_Draining s;
    pr_stale := ps_Stale s; pr_updated_at := time_unix (ps_UpdatedAt s);
    pr_fast_result_seq := from_option pr_fast_result_seq 0 old;
    pr_fast_applied_seq := from_option pr_fast_applied_seq 0 old; pr_placeholder := false |}]>
    (candidate_probe_state d) |>.

Definition new_health_row (now : Z) : HealthRow := {|
  h_score := 0%float; h_tcp_qualified := false; h_udp_qualified := false; h_available := false;
  h_latency_ms := 0%float; h_throughput_mbps := 0%float; h_updated_at := now;
  h_active_observed_at := None; h_active_success := false; h_active_result_seq := 0;
  h_active_applied_seq := 0; h_failure_generation := 0; h_active_failure_generation := 0;
  h_active_hard_failure := false; h_full_result_seq := 0; h_full_applied_seq := 0;
  h_placeholder := false |}.

(** The columns a full result writes. *)
Definition with_health (h : CandidateHealth) (r : HealthRow) : HealthRow :=
  r <| h_score := hl_Score h |> <| h_tcp_qualified := hl_TCPQualified h |>
    <| h_udp_qualified := hl_UDPQualified h |> <| h_available := hl_Available h |>
    <| h_latency_ms := hl_LatencyMS h |> <| h_throughput_mbps := hl_ThroughputMbps h |>
    <| h_updated_at := time_unix (hl_UpdatedAt h) |>.

(** An available result of a known candidate is also active evidence. *)
Definition saveCandidateHealthTx (h : CandidateHealth) (d : Database) : Database :=
  let row :=
    match candidate_health d !! hl_CandidateID h with
    | None => with_health h (new_health_row 0)
    | Some old =>
        let r := with_health h old <| h_placeholder := false |> in
        if hl_Available h
        then r <| h_active_hard_failure := false |> <| h_active_success := true |>
               <| h_active_observed_at := Some (time_unix (hl_UpdatedAt h) * 1000) |>
        else r
    end in
  d <| candidate_health := <[hl_CandidateID h := row]> (candidate_health d) |>.

Definition SaveCandidateHealth (o : Outcome) (h : CandidateHealth) : Tx unit :=
  transaction o (modify (saveCandidateHealthTx h)).

Definition appendProbeSampleTx (s : ProbeSample) (d : Database) : Database :=
  d <| probe_samples := probe_samples d ++ [{|
    sa_candidate_id := sm_CandidateID s; sa_success := sm_Success s;
    sa_latency_ms := sm_LatencyMS s; sa_throughput_mbps := sm_ThroughputMbps s;
    sa_packet_drop_ratio := sm_PacketDropRatio s; sa_created_at := time_unix (sm_CreatedAt s) |}] |>.

Definition AppendProbeSample (o : Outcome) (s : ProbeSample) : Tx unit :=
  transaction o (modify (appendProbeSampleTx s)).

Definition update_health (id : string) (f : HealthRow -> HealthRow) (d : Database) : Database :=
  d <| candidate_health := alter f id (candidate_health d) |>.

(** [fence] is the generation the caller measured under, if it gives one. *)
Definition UpdateCandidateUDPQualified (o : Outcome) (id : string) (qualified : bool)
    (fence : option Z) : Tx bool :=
  transaction o (
    row <- get (fun d => health_row d id) ;;
    let changes (r : HealthRow) :=
      xorb (h_udp_qualified r) qualified &&
      match fence with
      | Some generation => (h_failure_generation r =? generation) && h_available r
      | None => true
      end in
    if from_option changes false row
    then modify (update_health id (fun r => r <| h_udp_qualified := qualified |>)) ;;; ret true
    else ret false).

(** ** Recording a result (candidate_state.go) *)

(** One isolated UDP miss of a route that was qualified does not demote it. *)
Definition defer_udp_demotion (t : ProbeTransition) (was_qualified : bool) (h : CandidateHealth)
    (d : Database) : CandidateHealth :=
  if pt_Full t && pt_Success t && pt_DeferUDPDemotion t && was_qualified &&
     hl_TCPQualified h && negb (hl_UDPQualified h) &&
     from_option h_udp_qualified false (health_row d (hl_CandidateID h))
  then h <| hl_UDPQualified := true |> else h.

Definition record_health (t : ProbeTransition) (was_qualified retained : bool)
    (h : CandidateHealth) : Tx unit :=
  check (str_eqb (hl_CandidateID h) (pt_CandidateID t)) HealthIdentity ;;;
  h <- get (defer_udp_demotion t was_qualified h) ;;
  if retained && str_eqb (pt_ErrorCode t) score_too_low
  then
    row <- get (fun d => health_row d (hl_CandidateID h)) ;;
    check (bool_decide (is_Some row)) HealthMissing ;;;
    modify (update_health (hl_CandidateID h) (fun r =>
      r <| h_score := hl_Score h |> <| h_latency_ms := hl_LatencyMS h |>
        <| h_throughput_mbps := hl_ThroughputMbps h |>
        <| h_updated_at := time_unix (hl_UpdatedAt h) |>))
  else if retained then ret tt
  else modify (saveCandidateHealthTx h).

Definition record_sample (t : ProbeTransition) (s : ProbeSample) : Tx unit :=
  check (str_eqb (sm_CandidateID s) (pt_CandidateID t)) SampleIdentity ;;;
  modify (appendProbeSampleTx s).

Definition when_given {A : Type} (x : option A) (f : A -> Tx unit) : Tx unit :=
  match x with Some a => f a | None => ret tt end.

Definition identity_of (t : ProbeTransition) : Candidate := {|
  c_ID := pt_CandidateID t; c_SourceID := pt_SourceID t; c_Kind := EmptyString;
  c_Label := EmptyString; c_Fingerprint := pt_Fingerprint t; c_RouteKey := EmptyString;
  c_FailureDomain := EmptyString; c_Enabled := false; c_SourcePosition := 0;
  c_Lifecycle := EmptyString; c_RetiredAt := None; c_DrainAfter := None; c_CreatedAt := 0;
  c_UpdatedAt := 0 |}.

Definition check_current (b : bool) : Tx unit := check b CandidateNoLongerCurrent.

Definition check_identity (t : ProbeTransition) (allowDraining : bool) : Tx unit :=
  if str_eqb (pt_CandidateID t) EmptyString && str_eqb (pt_SourceID t) EmptyString then ret tt
  else
    check (negb (str_eqb (pt_CandidateID t) EmptyString || str_eqb (pt_SourceID t) EmptyString))
      IdentityIncomplete ;;;
    current <- (if allowDraining then candidateRoutableTx else candidateCurrentTx) (identity_of t) ;;
    check_current current.

(** The state a result is applied to. *)
Definition loaded_probe_state (t : ProbeTransition) (d : Database) : CandidateProbeState :=
  match candidate_probe_state d !! pt_Fingerprint t with
  | Some r => scanCandidateProbeState (pt_Fingerprint t) r
  | None => fresh_probe_state t
  end.

Definition recordCandidateProbeTx (t : ProbeTransition) (health : option CandidateHealth)
    (sample : option ProbeSample) (allowDraining : bool) : Tx CandidateProbeState :=
  check_identity t allowDraining ;;;
  loaded <- get (loaded_probe_state t) ;;
  let prepared := prepare_probe_state t loaded in
  let was_qualified := is_qualified prepared || is_draining prepared in
  let '(s, retained) := apply_transition t prepared in
  let s := s <| ps_UpdatedAt := pt_At t |> in
  modify (upsertCandidateProbeState s) ;;;
  when_given health (record_health t was_qualified retained) ;;;
  when_given sample (record_sample t) ;;;
  ret s.

Definition recordCandidateProbe (o : Outcome) (now : Time) (t : ProbeTransition)
    (health : option CandidateHealth) (sample : option ProbeSample) : Tx CandidateProbeState :=
  t <- lift (normalizeProbeTransition now t) ;;
  transaction o (recordCandidateProbeTx t health sample false).

Definition RecordCandidateProbe (o : Outcome) (now : Time) (t : ProbeTransition) :
    Tx CandidateProbeState := recordCandidateProbe o now t None None.
Definition RecordCandidateProbeResult (o : Outcome) (now : Time) (t : ProbeTransition)
    (health : option CandidateHealth) (sample : option ProbeSample) : Tx CandidateProbeState :=
  recordCandidateProbe o now t health sample.

Definition RecordCandidateHealthResult (o : Outcome) (c : Candidate)
    (health : option CandidateHealth) (sample : option ProbeSample) : Tx unit :=
  check (bool_decide (is_Some health) || bool_decide (is_Some sample)) HealthResultEmpty ;;;
  check (negb (existsb (fun s => str_eqb s EmptyString) [c_ID c; c_SourceID c; c_Fingerprint c]))
    IdentityIncomplete ;;;
  check (from_option (fun h => str_eqb (hl_CandidateID h) (c_ID c)) true health) HealthIdentity ;;;
  check (from_option (fun s => str_eqb (sm_CandidateID s) (c_ID c)) true sample) SampleIdentity ;;;
  transaction o (
    current <- candidateCurrentTx c ;;
    check_current current ;;;
    when_given health (fun h => modify (saveCandidateHealthTx h)) ;;;
    when_given sample (fun s => modify (appendProbeSampleTx s))).

(** ** Reading *)

Definition CandidateProbeState_ (o : Outcome) (fingerprint : string) : Tx CandidateProbeState :=
  check (negb (str_eqb fingerprint EmptyString)) FingerprintRequired ;;;
  row <- query o (fun d => candidate_probe_state d !! fingerprint) ;;
  r <- required row (NotFound "candidate probe state") ;;
  ret (scanCandidateProbeState fingerprint r).

Definition by_fingerprint (a b : CandidateProbeState) : bool :=
  str_ltb (ps_Fingerprint a) (ps_Fingerprint b).

Definition ListCandidateProbeStates (o : Outcome) : Tx (list CandidateProbeState) :=
  query o (fun d => sort_slice by_fingerprint
    (map (fun '(f, r) => scanCandidateProbeState f r)
       (List.filter (fun '(_, r) => negb (pr_placeholder r))
          (map_to_list (candidate_probe_state d))))).

Definition by_score (a b : CandidateHealth) : bool :=
  if fgt (hl_Score a) (hl_Score b) then true
  else if fgt (hl_Score b) (hl_Score a) then false
  else str_ltb (hl_CandidateID a) (hl_CandidateID b).

(** The listing shows the second of the last update as it is. *)
Definition list_health (id : string) (r : HealthRow) : CandidateHealth :=
  (scan_health id r) <| hl_UpdatedAt := of_unix (h_updated_at r) |>.

Definition ListCandidateHealth (o : Outcome) : Tx (list CandidateHealth) :=
  query o (fun d => sort_slice by_score
    (map (fun '(id, r) => list_health id r)
       (List.filter (fun '(_, r) => negb (h_placeholder r)) (map_to_list (candidate_health d))))).

(** ** The working pool *)

(** [now] is SQLite's clock in seconds. *)
Definition leave_pool (now : Z) (r : ProbeRow) : ProbeRow :=
  r <| pr_in_working_pool := false |> <| pr_draining := false |>
    <| pr_status := if str_eqb (pr_status r) CandidateDraining then CandidateQualified
                    else pr_status r |>
    <| pr_updated_at := now |>.

Definition enter_pool (now : Z) (r : ProbeRow) : ProbeRow :=
  r <| pr_in_working_pool := true |> <| pr_draining := false |> <| pr_updated_at := now |>.

Definition drain (now : Z) (r : ProbeRow) : ProbeRow :=
  r <| pr_in_working_pool := false |> <| pr_draining := true |>
    <| pr_status := CandidateDraining |> <| pr_updated_at := now |>.

Definition set_probes (f : gmap string ProbeRow -> gmap string ProbeRow) (d : Database) : Database :=
  d <| candidate_probe_state := f (candidate_probe_state d) |>.

Definition ReplaceWorkingPool (o : Outcome) (now : Z) (active draining : list string) : Tx unit :=
  transaction o (
    modify (set_probes (fmap (leave_pool now))) ;;;
    forM active (fun f => modify (set_probes (alter (enter_pool now) f))) ;;;
    forM draining (fun f => modify (set_probes (alter (drain now) f)))).

Definition of_kind (kind : string) (d : Database) (r : ProbeRow) : bool :=
  from_option (fun row => str_eqb (c_Kind (cr_candidate row)) kind) false
    (candidates d !! pr_candidate_id r).

Definition ClearWorkingPoolByKind (o : Outcome) (now : Z) (kind : string) : Tx unit :=
  check (negb (str_eqb kind EmptyString)) KindRequired ;;;
  transaction o (modify (fun d => set_probes (fmap (fun r =>
    if of_kind kind d r then leave_pool now r else r)) d)).

(** The row of exactly this candidate. *)
Definition row_of (c : Candidate) (r : ProbeRow) : bool :=
  str_eqb (pr_candidate_id r) (c_ID c) && str_eqb (pr_source_id r) (c_SourceID c).

Definition selectable (at_ : Time) (r : ProbeRow) : bool :=
  str_eqb (pr_status r) CandidateQualified && (2 <=? pr_full_success_streak r) &&
  match pr_banned_until r with Some t => t <=? time_unix at_ | None => true end.

(** An update of one row: whether it was affected. *)
Definition update_member (c : Candidate) (cond : ProbeRow -> bool) (f : ProbeRow -> ProbeRow) :
    Tx bool :=
  row <- get (fun d => candidate_probe_state d !! c_Fingerprint c) ;;
  if from_option (fun r => row_of c r && cond r) false row
  then modify (set_probes (alter f (c_Fingerprint c))) ;;; ret true
  else ret false.

(** The candidates that are current and whose row the update affects. *)
Definition update_members (cond : ProbeRow -> bool) (f : ProbeRow -> ProbeRow)
    (l : list Candidate) : Tx (list Candidate) :=
  filterM (fun c =>
    current <- candidateCurrentTx c ;;
    if current then update_member c cond f else ret false) l.

Definition replaceWorkingPoolCurrent (o : Outcome) (clock : Z) (active draining : list Candidate)
    (at_ : Time) (expectedEpoch : option Z) : Tx WorkingPoolMembership :=
  transaction o (
    epoch <- get inventory_epoch ;;
    check (from_option (Z.eqb epoch) true expectedEpoch) CandidateInventoryChanged ;;;
    modify (set_probes (fmap (leave_pool clock))) ;;;
    kept <- update_members (selectable at_) (enter_pool clock) active ;;
    drained <- update_members (fun _ => true) (drain clock) draining ;;
    ret {| wp_Active := kept; wp_Draining := drained |}).

Definition ReplaceWorkingPoolCurrent (o : Outcome) (clock : Z) (active draining : list Candidate)
    (at_ : Time) : Tx WorkingPoolMembership :=
  replaceWorkingPoolCurrent o clock active draining at_ None.

Definition ReplaceWorkingPoolCurrentAtEpoch (o : Outcome) (clock : Z)
    (active draining : list Candidate) (at_ : Time) (epoch : Z) : Tx WorkingPoolMembership :=
  replaceWorkingPoolCurrent o clock active draining at_ (Some epoch).
