(* ===== verification/Observations.v ===== *)
(** Observations of candidates (store/candidate_observation.go): a prober reserves a
    sequence number before it probes and commits its result under it, so that a
    result that comes late does not overwrite what is known since. *)
From Stdlib Require Import Floats.
From S2P Require Import Prelude Effects GoOrder GoStrings GoSort DataPlan Handlers StoreTables StoreLogic RouteRecovery CandidateState.

#[local] Open Scope Z_scope.
#[local] Open Scope effect_scope.

(** ** Data *)

Inductive ObservationStage := ObservationFast | ObservationFull | ObservationActive.

#[export] Instance ObservationStage_eq_dec : EqDecision ObservationStage.
Proof. solve_decision. Defined.
#[export] Instance ObservationStage_countable : Countable ObservationStage.
Proof.
  refine (inj_countable' (fun s => match s with
      ObservationFast => 0 | ObservationFull => 1 | ObservationActive => 2 end)
    (fun z => if z =? 0 then ObservationFast else if z =? 1 then ObservationFull
              else ObservationActive) _).
  by intros [].
Defined.

Record ObservationReservation := {
  re_CandidateID : string;
  re_Stage : ObservationStage;
  re_Sequence : Z;
  re_FailureGeneration : Z
}.

Record ObservationRequest := { rq_Candidate : Candidate; rq_Stage : ObservationStage }.

Record ObservationCommitResult := { Accepted : bool; BecameProofEligible : bool }.

Record ActiveObservationOutcome := {
  ao_Available : bool;
  ao_ProofSuccess : bool;
  ao_RetainPreviousProof : bool;
  ao_ProofFreshAfter : Time
}.

Definition refused : ObservationCommitResult := {| Accepted := false; BecameProofEligible := false |}.
Definition taken (eligible : bool) : ObservationCommitResult :=
  {| Accepted := true; BecameProofEligible := eligible |}.

(** ** Reserving *)

Definition complete (c : Candidate) : bool :=
  negb (existsb (fun s => str_eqb s EmptyString) [c_ID c; c_SourceID c; c_Fingerprint c]).

(** A candidate that drains is still observed while a client is assigned to it
    (candidate_state.go, [candidateReferencedRoutableTx]). *)
Definition candidateReferencedRoutableTx (c : Candidate) : Tx bool :=
  check (complete c) IdentityIncomplete ;;;
  get (fun d =>
    match candidates d !! c_ID c with
    | Some row =>
        let current := cr_candidate row in
        str_eqb (c_SourceID current) (c_SourceID c) &&
        str_eqb (c_Fingerprint current) (c_Fingerprint c) && c_Enabled current &&
        from_option so_enabled false (sources d !! c_SourceID current) &&
        (str_eqb (c_Lifecycle current) CandidateLifecycleActive ||
         str_eqb (c_Lifecycle current) CandidateLifecycleDraining &&
         existsb (fun '(_, a) => str_eqb (ar_tcp_outbound a) (c_ID c) ||
                                 str_eqb (ar_udp_outbound a) (c_ID c))
           (map_to_list (assignments d)))
    | None => false
    end).

(** The check of the batch before the transaction: one identity for an id, and no
    stage twice. *)
Definition validate_batch (requests : list ObservationRequest) : StoreError + unit :=
  fold_attempt (fun (_ : unit) x => x) tt
    (imap (fun i q =>
      let c := rq_Candidate q in
      let before := take i requests in
      if negb (complete c) then inl IdentityIncomplete
      else if existsb (fun p => str_eqb (c_ID (rq_Candidate p)) (c_ID c) &&
                negb (str_eqb (c_SourceID (rq_Candidate p)) (c_SourceID c) &&
                      str_eqb (c_Fingerprint (rq_Candidate p)) (c_Fingerprint c))) before
      then inl BatchIdentity
      else if existsb (fun p => str_eqb (c_ID (rq_Candidate p)) (c_ID c) &&
                bool_decide (rq_Stage p = rq_Stage q)) before
      then inl BatchDuplicate
      else inr tt) requests).

Definition placeholder_probe (now : Z) (c : Candidate) : ProbeRow := {|
  pr_candidate_id := c_ID c; pr_source_id := c_SourceID c; pr_status := CandidateUnknown;
  pr_failure_streak := 0; pr_full_success_streak := 0; pr_window_started_at := None;
  pr_banned_until := None; pr_last_fast_probe_at := None; pr_last_full_probe_at := None;
  pr_last_success_at := None; pr_last_failure_at := None; pr_last_error_code := EmptyString;
  pr_last_error_message := EmptyString; pr_last_score := 0%float;
  pr_conservative_score := 0%float; pr_in_working_pool := false; pr_draining := false;
  pr_stale := true; pr_updated_at := now; pr_fast_result_seq := 1; pr_fast_applied_seq := 0;
  pr_placeholder := true |}.

Definition set_health (f : gmap string HealthRow -> gmap string HealthRow) (d : Database) : Database :=
  d <| candidate_health := f (candidate_health d) |>.

Definition reservation (c : Candidate) (stage : ObservationStage) (sequence generation : Z) :
    ObservationReservation :=
  {| re_CandidateID := c_ID c; re_Stage := stage; re_Sequence := sequence;
     re_FailureGeneration := generation |}.

(** The statement returns the sequence it has written. *)
Definition reserve_health (now : Z) (next : HealthRow -> HealthRow) (sequence : HealthRow -> Z)
    (c : Candidate) (stage : ObservationStage) : Tx ObservationReservation :=
  row <- get (fun d => candidate_health d !! c_ID c) ;;
  let row := next (default ((new_health_row now) <| h_placeholder := true |>) row) in
  modify (set_health <[c_ID c := row]>) ;;;
  ret (reservation c stage (sequence row) (h_failure_generation row)).

Definition reserveCandidateObservationTx (now : Z) (c : Candidate) (stage : ObservationStage) :
    Tx ObservationReservation :=
  match stage with
  | ObservationFast =>
      row <- get (fun d => candidate_probe_state d !! c_Fingerprint c) ;;
      let row := match row with
                 | Some r => r <| pr_candidate_id := c_ID c |> <| pr_source_id := c_SourceID c |>
                               <| pr_fast_result_seq := pr_fast_result_seq r + 1 |>
                 | None => placeholder_probe now c
                 end in
      modify (set_probes <[c_Fingerprint c := row]>) ;;;
      ret (reservation c stage (pr_fast_result_seq row) 0)
  | ObservationFull =>
      reserve_health now (fun r => r <| h_full_result_seq := h_full_result_seq r + 1 |>)
        h_full_result_seq c stage
  | ObservationActive =>
      reserve_health now (fun r => r <| h_active_result_seq := h_active_result_seq r + 1 |>)
        h_active_result_seq c stage
  end.

Definition observable (stage : ObservationStage) : Candidate -> Tx bool :=
  if decide (stage = ObservationActive) then candidateReferencedRoutableTx else candidateCurrentTx.

Definition ReserveCandidateObservations (o : Outcome) (now : Z)
    (requests : list ObservationRequest) : Tx (list ObservationReservation) :=
  _ <- lift (validate_batch requests) ;;
  match requests with
  | [] => ret []
  | _ =>
      transaction o (
        forM requests (fun q =>
          current <- observable (rq_Stage q) (rq_Candidate q) ;;
          check_current current) ;;;
        foldM (fun granted q =>
          r <- reserveCandidateObservationTx now (rq_Candidate q) (rq_Stage q) ;;
          ret (granted ++ [r])) [] requests)
  end.

Definition ReserveCandidateObservation (o : Outcome) (now : Z) (c : Candidate)
    (stage : ObservationStage) : Tx ObservationReservation :=
  (* One request is granted one reservation. *)
  granted <- ReserveCandidateObservations o now [{| rq_Candidate := c; rq_Stage := stage |}] ;;
  match granted with
  | r :: _ => ret r
  | [] => raise SqlFailed
  end.

(** ** The fence *)

Definition validateObservationReservation (c : Candidate) (r : ObservationReservation) :
    StoreError + unit :=
  if str_eqb (c_ID c) EmptyString || negb (str_eqb (re_CandidateID r) (c_ID c))
  then inl ReservationIdentity
  else if re_Sequence r <=? 0 then inl ReservationInvalid
  else inr tt.

Definition in_turn (sequence allocated applied : Z) : bool :=
  (sequence <=? allocated) && (applied <? sequence).

(** The probe row of exactly this candidate. *)
Definition probe_of (d : Database) (c : Candidate) : option ProbeRow :=
  match candidate_probe_state d !! c_Fingerprint c with
  | Some r => if row_of c r then Some r else None
  | None => None
  end.

Definition observationReservationCurrentTx (c : Candidate) (r : ObservationReservation) : Tx bool :=
  get (fun d =>
    match re_Stage r with
    | ObservationFast =>
        from_option (fun p => in_turn (re_Sequence r) (pr_fast_result_seq p)
                                (pr_fast_applied_seq p)) false (probe_of d c)
    | ObservationFull =>
        from_option (fun h => in_turn (re_Sequence r) (h_full_result_seq h) (h_full_applied_seq h) &&
                              (h_failure_generation h =? re_FailureGeneration r)) false
          (candidate_health d !! c_ID c)
    | ObservationActive =>
        from_option (fun h => in_turn (re_Sequence r) (h_active_result_seq h)
                                (h_active_applied_seq h)) false (candidate_health d !! c_ID c)
    end).

Definition activeSuccessGenerationCurrentTx (id : string) (generation : Z) : Tx bool :=
  get (fun d => from_option (fun h => h_failure_generation h =? generation) false
                  (candidate_health d !! id)).

(** An update of the health row under a condition that has to hold. *)
Definition update_health_if (id : string) (cond : HealthRow -> bool) (f : HealthRow -> HealthRow)
    (e : StoreError) : Tx unit :=
  row <- get (fun d => candidate_health d !! id) ;;
  check (from_option cond false row) e ;;;
  modify (update_health id f).

Definition active_in_turn (r : ObservationReservation) (h : HealthRow) : bool :=
  in_turn (re_Sequence r) (h_active_result_seq h) (h_active_applied_seq h).
Definition full_in_turn (r : ObservationReservation) (h : HealthRow) : bool :=
  in_turn (re_Sequence r) (h_full_result_seq h) (h_full_applied_seq h).

Definition applyObservationReservationTx (c : Candidate) (r : ObservationReservation) : Tx unit :=
  match re_Stage r with
  | ObservationFast =>
      row <- get (fun d => probe_of d c) ;;
      check (from_option (fun p => in_turn (re_Sequence r) (pr_fast_result_seq p)
                                     (pr_fast_applied_seq p)) false row) FenceChanged ;;;
      modify (set_probes (alter (fun p => p <| pr_fast_applied_seq := re_Sequence r |>)
                            (c_Fingerprint c)))
  | ObservationFull =>
      update_health_if (c_ID c) (full_in_turn r)
        (fun h => h <| h_full_applied_seq := re_Sequence r |>) FenceChanged
  | ObservationActive =>
      update_health_if (c_ID c) (active_in_turn r)
        (fun h => h <| h_active_applied_seq := re_Sequence r |>) FenceChanged
  end.

(** ** Committing *)

Section Committing.
Context `{PlanCodec}.

Definition validateProbeObservationPayload (c : Candidate) (t : ProbeTransition)
    (health : option CandidateHealth) (sample : option ProbeSample) : StoreError + unit :=
  if negb (str_eqb (pt_CandidateID t) (c_ID c) && str_eqb (pt_SourceID t) (c_SourceID c) &&
           str_eqb (pt_Fingerprint t) (c_Fingerprint c))
  then inl TransitionIdentity
  else if negb (from_option (fun h => str_eqb (hl_CandidateID h) (c_ID c)) true health)
  then inl HealthIdentity
  else if negb (from_option (fun s => str_eqb (sm_CandidateID s) (c_ID c)) true sample)
  then inl SampleIdentity
  else inr tt.

Definition next_generation (h : HealthRow) : HealthRow :=
  h <| h_failure_generation := h_failure_generation h + 1 |>.

(** A failure makes what is under way obsolete; a soft one that left the route
    qualified does not. *)
Definition fence_failure (c : Candidate) (r : ObservationReservation) (t : ProbeTransition)
    (s : CandidateProbeState) : Tx unit :=
  if pt_Success t || pt_InfrastructureFailure t then ret tt
  else
    match re_Stage r with
    | ObservationFast => modify (update_health (c_ID c) next_generation)
    | _ =>
        if softFullFailureCode (pt_ErrorCode t) && (is_qualified s || is_draining s) then ret tt
        else update_health_if (c_ID c)
               (fun h => full_in_turn r h && (h_failure_generation h =? re_FailureGeneration r))
               next_generation FenceChanged
    end.

Definition commit_probe (c : Candidate) (r : ObservationReservation) (t : ProbeTransition)
    (health : option CandidateHealth) (sample : option ProbeSample) :
    Tx (option CandidateProbeState) :=
  current <- candidateCurrentTx c ;;
  check_current current ;;;
  accepted <- observationReservationCurrentTx c r ;;
  if negb accepted then ret None
  else
    s <- recordCandidateProbeTx t health sample false ;;
    fence_failure c r t s ;;;
    applyObservationReservationTx c r ;;;
    (if bool_decide (re_Stage r = ObservationFull) && pt_Success t &&
        negb (pt_InfrastructureFailure t) && from_option hl_Available false health
     then clearRecoveredRouteDebtTx c else ret tt) ;;;
    ret (Some s).

(** None: the result was refused and nothing is written. *)
Definition CommitCandidateProbeObservation (o : Outcome) (now : Time) (c : Candidate)
    (r : ObservationReservation) (t : ProbeTransition) (health : option CandidateHealth)
    (sample : option ProbeSample) : Tx (option CandidateProbeState) :=
  _ <- lift (validateObservationReservation c r) ;;
  check (negb (bool_decide (re_Stage r = ObservationActive))) ReservationStage ;;;
  check (Bool.eqb (bool_decide (re_Stage r = ObservationFull)) (pt_Full t)) ReservationStage ;;;
  _ <- lift (validateProbeObservationPayload c t health sample) ;;
  t <- lift (normalizeProbeTransition now t) ;;
  transaction o (commit_probe c r t health sample).

(** *** Active observations *)

Definition previous_proof_fresh (outcome : ActiveObservationOutcome) (h : HealthRow) : bool :=
  h_active_success h && (h_active_failure_generation h =? h_failure_generation h) &&
  (0 <? h_active_applied_seq h) &&
  match h_active_observed_at h with
  | Some ms => time_is_zero (ao_ProofFreshAfter outcome) ||
               negb (before (of_unix_milli ms) (ao_ProofFreshAfter outcome))
  | None => false
  end.

Definition with_outcome (outcome : ActiveObservationOutcome) (retain : bool) (at_ : Time)
    (h : HealthRow) : HealthRow :=
  h <| h_available := ao_Available outcome |> <| h_updated_at := time_unix at_ |>
    <| h_active_observed_at := if retain then h_active_observed_at h
                               else Some (time_unix_milli at_) |>
    <| h_active_success := if retain then h_active_success h else ao_ProofSuccess outcome |>
    <| h_active_failure_generation := h_failure_generation h |>
    <| h_active_hard_failure := if ao_Available outcome then false else h_active_hard_failure h |>
    <| h_placeholder := false |>.

Definition commit_active (c : Candidate) (r : ObservationReservation)
    (outcome : ActiveObservationOutcome) (at_ : Time) : Tx ObservationCommitResult :=
  current <- candidateReferencedRoutableTx c ;;
  check_current current ;;;
  accepted <- observationReservationCurrentTx c r ;;
  if negb accepted then ret refused
  else
    same <- activeSuccessGenerationCurrentTx (c_ID c) (re_FailureGeneration r) ;;
    if negb same then ret refused
    else
      row <- get (fun d => candidate_health d !! c_ID c) ;;
      h <- required row SqlFailed ;;
      let fresh := previous_proof_fresh outcome h in
      let retain := ao_RetainPreviousProof outcome && fresh in
      if (re_Sequence r <? h_active_result_seq h) && negb (ao_ProofSuccess outcome) && fresh
      then ret refused
      else
        update_health_if (c_ID c) (active_in_turn r) (with_outcome outcome retain at_)
          HealthMissing ;;;
        applyObservationReservationTx c r ;;;
        (if ao_ProofSuccess outcome then clearRecoveredRouteDebtTx c else ret tt) ;;;
        ret (taken (ao_ProofSuccess outcome && negb fresh)).

Definition check_active (c : Candidate) (r : ObservationReservation) : Tx unit :=
  _ <- lift (validateObservationReservation c r) ;;
  check (bool_decide (re_Stage r = ObservationActive)) ReservationStage.

Definition CommitCandidateActiveOutcome (o : Outcome) (now : Time) (c : Candidate)
    (r : ObservationReservation) (outcome : ActiveObservationOutcome) (at_ : Time) :
    Tx ObservationCommitResult :=
  check_active c r ;;;
  transaction o (commit_active c r outcome (if time_is_zero at_ then now else at_)).

Definition CommitCandidateActiveObservation (o : Outcome) (now : Time) (c : Candidate)
    (r : ObservationReservation) (available : bool) (at_ : Time) : Tx ObservationCommitResult :=
  CommitCandidateActiveOutcome o now c r
    {| ao_Available := available; ao_ProofSuccess := available; ao_RetainPreviousProof := false;
       ao_ProofFreshAfter := zero_time |} at_.

(** *** Confirmed failures *)

Definition hard_failure_transition (c : Candidate) (at_ : Time) : ProbeTransition := {|
  pt_Fingerprint := c_Fingerprint c; pt_CandidateID := c_ID c; pt_SourceID := c_SourceID c;
  pt_Full := false; pt_Success := false; pt_InfrastructureFailure := false;
  pt_DeferUDPDemotion := false; pt_ErrorCode := active_hard_failure;
  pt_SafeErrorMessage := "primary and confirmation liveness checks failed";
  pt_Score := 0%float; pt_At := at_; pt_ResetWindow := 0 |}.

Definition failed_row (at_ : Time) (h : HealthRow) : HealthRow :=
  h <| h_available := false |> <| h_updated_at := time_unix at_ |>
    <| h_active_observed_at := Some (time_unix_milli at_) |> <| h_active_success := false |>
    <| h_active_hard_failure := true |>
    <| h_failure_generation := h_failure_generation h + 1 |>
    <| h_active_failure_generation := h_failure_generation h + 1 |> <| h_placeholder := false |>.

(** What both commits of a confirmed failure do once it is accepted. *)
Definition record_hard_failure (c : Candidate) (r : ObservationReservation) (t : ProbeTransition)
    (at_ : Time) : Tx CandidateProbeState :=
  s <- recordCandidateProbeTx t None None true ;;
  update_health_if (c_ID c) (active_in_turn r) (failed_row at_) HealthMissing ;;;
  applyObservationReservationTx c r ;;;
  recordRouteRecoveriesTx c at_ ;;;
  ret s.

Definition commit_hard_failure (c : Candidate) (r : ObservationReservation) (t : ProbeTransition)
    (at_ : Time) : Tx (option CandidateProbeState) :=
  current <- candidateReferencedRoutableTx c ;;
  check_current current ;;;
  accepted <- observationReservationCurrentTx c r ;;
  if negb accepted then ret None
  else s <- record_hard_failure c r t at_ ;; ret (Some s).

Definition CommitCandidateActiveHardFailureObservation (o : Outcome) (now : Time) (c : Candidate)
    (r : ObservationReservation) (at_ : Time) : Tx (option CandidateProbeState) :=
  check_active c r ;;;
  check (negb (time_is_zero at_)) ObservationTimeRequired ;;;
  t <- lift (normalizeProbeTransition now (hard_failure_transition c at_)) ;;
  transaction o (commit_hard_failure c r t at_).
End Committing.

(** * Failure domains

    The circuit of a failure domain (store/failure_domain.go): candidates behind one
    provider that fail together open a circuit, and one of them is the canary that
    is still probed. *)

Definition failureDomainWindow : Duration := 5 * minute.
Definition failureDomainOpenDuration : Duration := 10 * minute.

(** Events happen at whole seconds. *)
Definition failureDomainEventTime (t : Time) : Time := of_unix (time_unix t).
Definition unixSeconds (t : Time) : Z := if time_is_zero t then 0 else time_unix t.

Definition zero_domain (domain : string) : FailureDomainState := {|
  fd_Domain := domain; fd_FailureCount := 0; fd_WindowStartedAt := zero_time;
  fd_OpenUntil := zero_time; fd_CanaryCandidate := EmptyString; fd_UpdatedAt := zero_time |}.

#[export] Instance FailureDomainState_eta : Eta FailureDomainState := fun s =>
  Build_FailureDomainState (fd_Domain s) (fd_FailureCount s) (fd_WindowStartedAt s)
    (fd_OpenUntil s) (fd_CanaryCandidate s) (fd_UpdatedAt s).

Definition loadFailureDomainState (domain : string) (d : Database) : option FailureDomainState :=
  scanFailureDomainState domain <$> failure_domain_state d !! domain.

Definition set_domains (f : gmap string FailureDomainRow -> gmap string FailureDomainRow)
    (d : Database) : Database :=
  d <| failure_domain_state := f (failure_domain_state d) |>.
Definition set_evidence (f : gmap (string * string) Z -> gmap (string * string) Z)
    (d : Database) : Database :=
  d <| failure_domain_evidence := f (failure_domain_evidence d) |>.

(** *** Evidence: the last failure of each candidate of a domain *)

Definition clear_evidence (domain : string) : Database -> Database :=
  set_evidence (filter (fun '((dom, _), _) => dom <> domain)).

Definition prune_evidence (domain : string) (oldest : Z) : Database -> Database :=
  set_evidence (filter (fun '((dom, _), failed) => ~ (dom = domain /\ failed < oldest))).

Definition add_evidence (domain candidate : string) (at_ : Z) (d : Database) : Database :=
  let last := match failure_domain_evidence d !! (domain, candidate) with
              | Some t => Z.max t at_ | None => at_ end in
  set_evidence <[(domain, candidate) := last]> d.

Definition evidence_of (domain : string) (d : Database) : list (string * Z) :=
  omap (fun '((dom, candidate), failed) =>
    if str_eqb dom domain then Some (candidate, failed) else None)
    (map_to_list (failure_domain_evidence d)).

Definition minimum_of {A : Type} (less : A -> A -> bool) (l : list A) : option A :=
  match l with
  | [] => None
  | x :: l => Some (fold_left (fun m y => if less y m then y else m) l x)
  end.

(** [count(STAR), min(last_failed_at), min(candidate_id)]. *)
Definition summarize (domain : string) (d : Database) : Z * Z * string :=
  let rows := evidence_of domain d in
  (Z.of_nat (length rows), default 0 (minimum_of Z.ltb (map snd rows)),
   default EmptyString (minimum_of str_ltb (map fst rows))).

(** ** Failures *)

(** A row for a domain without one. *)
Definition ensure_domain (domain : string) (eventAt : Time) (d : Database) : Database :=
  match failure_domain_state d !! domain with
  | Some _ => d
  | None => set_domains <[domain := {| fr_failure_count := 0; fr_window_started_at := 0;
              fr_open_until := 0; fr_canary_candidate := EmptyString;
              fr_updated_at := time_unix eventAt |}]> d
  end.

(** The state after a failure at [eventAt]: three candidates open the circuit. *)
Definition next_domain (domain : string) (eventAt : Time) (summary : Z * Z * string) :
    FailureDomainState :=
  let '(count, start, canary) := summary in
  let s := {| fd_Domain := domain; fd_FailureCount := count;
              fd_WindowStartedAt := timeFromUnix start; fd_OpenUntil := zero_time;
              fd_CanaryCandidate := EmptyString; fd_UpdatedAt := eventAt |} in
  if 3 <=? count
  then s <| fd_OpenUntil := time_add eventAt failureDomainOpenDuration |>
         <| fd_CanaryCandidate := canary |>
  else s.

Definition write_domain (s : FailureDomainState) (r : FailureDomainRow) : FailureDomainRow :=
  r <| fr_failure_count := fd_FailureCount s |>
    <| fr_window_started_at := unixSeconds (fd_WindowStartedAt s) |>
    <| fr_open_until := unixSeconds (fd_OpenUntil s) |>
    <| fr_canary_candidate := fd_CanaryCandidate s |>
    <| fr_updated_at := time_unix (fd_UpdatedAt s) |>.

(** The state, and whether the event was taken; an older event is not. *)
Definition recordFailureDomainFailureTx (domain candidate : string) (now : Time) :
    Tx (FailureDomainState * bool) :=
  state <- get (loadFailureDomainState domain) ;;
  let eventAt := failureDomainEventTime now in
  let exists_ := bool_decide (is_Some state) in
  let old := default (zero_domain domain) state in
  if exists_ && before eventAt (fd_UpdatedAt old) then ret (old, false)
  else if exists_ && after (fd_OpenUntil old) eventAt then
    if negb (str_eqb candidate (fd_CanaryCandidate old)) then ret (old, true)
    else
      let s := old <| fd_OpenUntil := time_add eventAt failureDomainOpenDuration |>
                   <| fd_UpdatedAt := eventAt |> in
      modify (set_domains (alter (fun r =>
        r <| fr_open_until := time_unix (fd_OpenUntil s) |>
          <| fr_updated_at := time_unix (fd_UpdatedAt s) |>) domain)) ;;;
      ret (s, true)
  else
    modify (ensure_domain domain eventAt) ;;;
    (if exists_ && negb (time_is_zero (fd_OpenUntil old)) then modify (clear_evidence domain)
     else ret tt) ;;;
    modify (prune_evidence domain (time_unix (time_add eventAt (- failureDomainWindow)))) ;;;
    modify (add_evidence domain candidate (time_unix eventAt)) ;;;
    summary <- get (summarize domain) ;;
    let s := next_domain domain eventAt summary in
    modify (set_domains (alter (write_domain s) domain)) ;;;
    ret (s, true).

Definition RecordFailureDomainFailure (o : Outcome) (domain candidate : string) (now : Time) :
    Tx FailureDomainState :=
  check (negb (str_eqb domain EmptyString || str_eqb candidate EmptyString)) DomainRequired ;;;
  result <- transaction o (recordFailureDomainFailureTx domain candidate now) ;;
  ret result.1.

(** ** Successes *)

(** A success closes only evidence strictly older than itself. *)
Definition reset_domain (domain : string) (now : Time) : Tx bool :=
  state <- get (loadFailureDomainState domain) ;;
  let eventAt := failureDomainEventTime now in
  match state with
  | None => ret false
  | Some s =>
      if negb (after eventAt (fd_UpdatedAt s)) then ret false
      else
        modify (set_domains (alter (fun r =>
          r <| fr_failure_count := 0 |> <| fr_window_started_at := 0 |> <| fr_open_until := 0 |>
            <| fr_canary_candidate := EmptyString |> <| fr_updated_at := time_unix eventAt |>)
          domain)) ;;;
        modify (clear_evidence domain) ;;;
        ret (negb (fd_FailureCount s =? 0) || negb (time_is_zero (fd_WindowStartedAt s)) ||
             negb (time_is_zero (fd_OpenUntil s)) ||
             negb (str_eqb (fd_CanaryCandidate s) EmptyString))
  end.

Definition ResetFailureDomainOnSuccess (o : Outcome) (domain : string) (now : Time) : Tx bool :=
  check (negb (str_eqb domain EmptyString)) DomainRequired ;;;
  transaction o (reset_domain domain now).

Definition RecordFailureDomainSuccess (o : Outcome) (domain : string) (now : Time) : Tx unit :=
  _ <- ResetFailureDomainOnSuccess o domain now ;; ret tt.

(** ** The canary *)

Definition ElectFailureDomainCanary (o : Outcome) (domain : string) (ids : list string)
    (now : Time) : Tx FailureDomainState :=
  check (negb (str_eqb domain EmptyString)) DomainRequired ;;;
  selected <- required (minimum_of str_ltb ids) DomainRequired ;;
  check (negb (existsb (fun id => str_eqb id EmptyString) ids)) DomainRequired ;;;
  transaction o (
    state <- get (loadFailureDomainState domain) ;;
    s <- required state DomainNotOpen ;;
    check (after (fd_OpenUntil s) (failureDomainEventTime now)) DomainNotOpen ;;;
    modify (set_domains (alter (fun r => r <| fr_canary_candidate := selected |>) domain)) ;;;
    ret (s <| fd_CanaryCandidate := selected |>)).

Definition by_domain (a b : FailureDomainState) : bool := str_ltb (fd_Domain a) (fd_Domain b).

Definition ListFailureDomainStates (o : Outcome) : Tx (list FailureDomainState) :=
  query o (fun d => sort_slice by_domain
    (map (fun '(domain, r) => scanFailureDomainState domain r) (map_to_list (failure_domain_state d)))).

(** ** Confirmed failures of a candidate in a domain *)

Section Failures.
Context `{PlanCodec}.

Definition commit_domain_failure (c : Candidate) (r : ObservationReservation) (t : ProbeTransition)
    (eventAt : Time) : Tx (FailureDomainState * bool) :=
  current <- candidateReferencedRoutableTx c ;;
  check_current current ;;;
  accepted <- observationReservationCurrentTx c r ;;
  if negb accepted then ret (zero_domain EmptyString, false)
  else
    result <- recordFailureDomainFailureTx (c_FailureDomain c) (c_ID c) eventAt ;;
    let '(domain, accepted) := result in
    if negb accepted then ret (domain, false)
    else
      record_hard_failure c r t eventAt ;;;
      ret (domain, true).

Definition CommitActiveVLESSHardFailureObservation (o : Outcome) (now : Time) (c : Candidate)
    (r : ObservationReservation) (at_ : Time) : Tx (FailureDomainState * bool) :=
  check (str_eqb (c_Kind c) KindVLESS && negb (str_eqb (c_FailureDomain c) EmptyString))
    DomainRequired ;;;
  check_active c r ;;;
  check (negb (time_is_zero at_)) ObservationTimeRequired ;;;
  let eventAt := failureDomainEventTime at_ in
  t <- lift (normalizeProbeTransition now (hard_failure_transition c eventAt)) ;;
  transaction o (commit_domain_failure c r t eventAt).

Definition RecordActiveVLESSHardFailure (o1 o2 : Outcome) (clock : Z) (now : Time) (c : Candidate)
    (health : CandidateHealth) (at_ : Time) : Tx FailureDomainState :=
  check (str_eqb (hl_CandidateID health) (c_ID c)) HealthIdentity ;;;
  r <- ReserveCandidateObservation o1 clock c ObservationActive ;;
  result <- CommitActiveVLESSHardFailureObservation o2 now c r at_ ;;
  ret result.1.
End Failures.
