(* ===== verification/Inventory.v ===== *)
(** The inventory of routes (store/sources.go, store/candidates.go): sources that were
    imported, and the candidates that their refreshes brought.

    A candidate is active while its source lists it, then draining until a deadline,
    then retired until nothing refers to it (Retirement.v).  Every change of what can
    be routed advances the epoch of the inventory. *)
From Stdlib Require Import Floats.
From S2P Require Import Prelude Effects GoOrder GoStrings GoSort Sha256 QoE DataPlan Handlers StoreTables StoreLogic RoutingSnapshot.

#[local] Open Scope Z_scope.
#[local] Open Scope effect_scope.

#[export] Instance Candidate_eta : Eta Candidate := fun c =>
  Build_Candidate (c_ID c) (c_SourceID c) (c_Kind c) (c_Label c) (c_Fingerprint c) (c_RouteKey c)
    (c_FailureDomain c) (c_Enabled c) (c_SourcePosition c) (c_Lifecycle c) (c_RetiredAt c)
    (c_DrainAfter c) (c_CreatedAt c) (c_UpdatedAt c).
#[export] Instance CandidateRow_eta : Eta CandidateRow := fun r =>
  Build_CandidateRow (cr_candidate r) (cr_encrypted r).

(** ** Data *)

Record PreviewItem := {
  pv_Line : Z;
  pv_Kind : string;
  pv_Display : string;
  pv_Fingerprint : string;
  pv_Payload : string;
  pv_Duplicate : bool;
  pv_Error : string
}.

Record ImportResult := { Imported : Z; Restored : Z; Skipped : Z }.

#[export] Instance ImportResult_eta : Eta ImportResult := fun r =>
  Build_ImportResult (Imported r) (Restored r) (Skipped r).

Record CandidateInput := {
  ci_Kind : string;
  ci_Label : string;
  ci_Fingerprint : string;
  ci_Payload : string;
  ci_RouteKey : string;
  ci_FailureDomain : string
}.

Record Source := { sr_ID : string; sr_row : SourceRow }.

Record CandidatePayloadSnapshot := { py_Candidate : Candidate; py_Payload : string }.

Record CandidateSummary := { su_ID : string; su_Kind : string; su_Label : string }.

(** ** Statements *)

(** [UPDATE ... WHERE] on a table, and the number of rows it affects. *)
Definition update_where {A : Type} (cond : string -> A -> bool) (f : A -> A) (m : gmap string A) :
    gmap string A :=
  map_imap (fun k x => Some (if cond k x then f x else x)) m.
Definition affected {A : Type} (cond : string -> A -> bool) (m : gmap string A) : nat :=
  length (List.filter (fun '(k, x) => cond k x) (map_to_list m)).

Definition set_candidates (f : gmap string CandidateRow -> gmap string CandidateRow) (d : Database) :
    Database := d <| candidates := f (candidates d) |>.
Definition set_sources (f : gmap string SourceRow -> gmap string SourceRow) (d : Database) :
    Database := d <| sources := f (sources d) |>.

Definition incrementInventoryEpochTx : Tx unit :=
  modify (fun d => d <| inventory_epoch := inventory_epoch d + 1 |>).

(** ** Sources *)

(** What the secret box answers to its calls: it seals with a fresh nonce, so the
    answer depends on the call. *)
Definition Seals : Type := nat -> string -> string -> option string.

Definition importable (item : PreviewItem) : bool :=
  str_eqb (pv_Error item) EmptyString && negb (pv_Duplicate item) &&
  negb (str_eqb (pv_Fingerprint item) EmptyString) && negb (str_eqb (pv_Payload item) EmptyString).

Definition source_id (item : PreviewItem) : string := "src_" ++ pv_Fingerprint item.

Definition source_label (item : PreviewItem) : string :=
  if str_eqb (pv_Display item) EmptyString then pv_Kind item else pv_Display item.

(** A source that waits for its deletion is taken back. *)
Definition restorable (item : PreviewItem) (_ : string) (s : SourceRow) : bool :=
  str_eqb (so_fingerprint s) (pv_Fingerprint item) && so_pending_delete s.

Definition restored_source (now : Z) (item : PreviewItem) (encrypted : string) (s : SourceRow) :
    SourceRow :=
  s <| so_kind := pv_Kind item |> <| so_label := source_label item |>
    <| so_encrypted := encrypted |> <| so_enabled := true |> <| so_pending_delete := false |>
    <| so_candidate_count := 0 |> <| so_last_refresh_error := EmptyString |>
    <| so_updated_at := now |>.

Definition new_source (now : Z) (item : PreviewItem) (encrypted : string) : SourceRow := {|
  so_kind := pv_Kind item; so_label := source_label item; so_fingerprint := pv_Fingerprint item;
  so_encrypted := encrypted; so_enabled := true; so_pending_delete := false; so_created_at := now;
  so_updated_at := now; so_last_refresh_at := None; so_last_refresh_error := EmptyString;
  so_candidate_count := 0 |}.

Definition same_fingerprint (item : PreviewItem) (_ : string) (s : SourceRow) : bool :=
  str_eqb (so_fingerprint s) (pv_Fingerprint item).

Definition import_item (seal : Seals) (now : Z) (result : ImportResult) (x : nat * PreviewItem) :
    Tx ImportResult :=
  let (i, item) := x in
  let skip := ret (result <| Skipped := Skipped result + 1 |>) in
  if negb (importable item) then skip
  else
    let id := source_id item in
    encrypted <- required (seal i id (pv_Payload item)) (EncryptFailed id) ;;
    rows <- get (fun d => affected (restorable item) (sources d)) ;;
    modify (set_sources (update_where (restorable item) (restored_source now item encrypted))) ;;;
    if Nat.eqb rows 1 then ret (result <| Restored := Restored result + 1 |>)
    else
      conflict <- get (fun d => affected (same_fingerprint item) (sources d)) ;;
      if Nat.eqb conflict 0 then
        taken <- get (fun d => sources d !! id) ;;
        check (bool_decide (taken = None)) ConstraintFailed ;;;
        modify (set_sources <[id := new_source now item encrypted]>) ;;;
        ret (result <| Imported := Imported result + 1 |>)
      else skip.

Definition import_items (seal : Seals) (now : Z) (items : list PreviewItem) : Tx ImportResult :=
  result <- foldM (import_item seal now) {| Imported := 0; Restored := 0; Skipped := 0 |}
              (zip (seq 0 (length items)) items) ;;
  (if 0 <? Restored result then incrementInventoryEpochTx else ret tt) ;;;
  ret result.

Definition ImportSources (o : Outcome) (seal : Seals) (now : Time) (items : list PreviewItem) :
    Tx ImportResult :=
  transaction o (import_items seal (time_unix now) items).

Definition source_less (a b : Source) : bool :=
  if so_created_at (sr_row a) =? so_created_at (sr_row b) then str_ltb (sr_ID a) (sr_ID b)
  else so_created_at (sr_row a) <? so_created_at (sr_row b).

Definition ListSources (o : Outcome) : Tx (list Source) :=
  query o (fun d => sort_slice source_less
    (map (fun '(id, s) => {| sr_ID := id; sr_row := s |}) (map_to_list (sources d)))).

Definition update_source (id : string) (cond : SourceRow -> bool) (f : SourceRow -> SourceRow) :
    Tx unit :=
  row <- get (fun d => sources d !! id) ;;
  s <- requireAffected row "source" ;;
  check (cond s) (NotFound "source") ;;;
  modify (set_sources <[id := f s]>).

Definition UpdateSource (o : Outcome) (now : Time) (id label : string) (enabled : bool) : Tx unit :=
  check (negb (str_eqb label EmptyString)) LabelRequired ;;;
  transaction o (
    update_source id (fun s => negb (so_pending_delete s)) (fun s =>
      s <| so_label := label |> <| so_enabled := enabled |> <| so_updated_at := time_unix now |>) ;;;
    incrementInventoryEpochTx).

Definition default_grace : Duration := 15 * minute.
Definition retirement_grace (grace : option Duration) : Duration :=
  match grace with Some g => if 0 <? g then g else default_grace | None => default_grace end.

Definition of_source (id : string) (r : CandidateRow) : bool := str_eqb (c_SourceID (cr_candidate r)) id.
Definition has_lifecycle (lifecycle : string) (r : CandidateRow) : bool :=
  str_eqb (c_Lifecycle (cr_candidate r)) lifecycle.

Definition set_candidate (f : Candidate -> Candidate) (r : CandidateRow) : CandidateRow :=
  r <| cr_candidate := f (cr_candidate r) |>.

(** A candidate that is not listed any more drains until the end of its grace. *)
Definition start_drain (now : Z) (grace : Duration) (c : Candidate) : Candidate :=
  c <| c_Lifecycle := CandidateLifecycleDraining |>
    <| c_DrainAfter := match c_DrainAfter c with Some t => Some t
                       | None => Some (now + Z.quot grace second) end |>
    <| c_RetiredAt := None |> <| c_UpdatedAt := now |>.

Definition drain_source (now : Z) (grace : Duration) (id : string) (kept : list string) :
    Database -> Database :=
  set_candidates (update_where
    (fun cid r => of_source id r && negb (existsb (str_eqb cid) kept) &&
                  has_lifecycle CandidateLifecycleActive r)
    (set_candidate (start_drain now grace))).

Definition pending_source (now : Z) (s : SourceRow) : SourceRow :=
  s <| so_enabled := false |> <| so_pending_delete := true |> <| so_updated_at := now |>.

(** A source with candidates is kept until the last of them is retired. *)
Definition delete_source (now : Z) (grace : Duration) (id : string) : Tx unit :=
  count <- get (fun d => affected (fun _ => of_source id) (candidates d)) ;;
  row <- get (fun d => sources d !! id) ;;
  (if Nat.eqb count 0 then modify (set_sources (delete id))
   else
     modify (set_sources (alter (pending_source now) id)) ;;;
     modify (drain_source now grace id [])) ;;;
  _ <- requireAffected row "source" ;;
  incrementInventoryEpochTx.

Definition DeleteSource (o : Outcome) (now : Time) (id : string) (grace : option Duration) : Tx unit :=
  transaction o (delete_source (time_unix now) (retirement_grace grace) id).

Definition RecordRefreshFailure (o : Outcome) (now : Time) (id message : string) : Tx unit :=
  transaction o (update_source id (fun _ => true) (fun s =>
    s <| so_last_refresh_at := Some (time_unix now) |> <| so_last_refresh_error := message |>
      <| so_updated_at := time_unix now |>)).

(** ** Candidates *)

(** The identifier of a candidate: of its source and its fingerprint. *)
Definition candidate_id (source fingerprint : string) : string :=
  "cand_" ++ hex_encode (take 8 (sha256 (bytes_of (source ++ ":" ++ fingerprint)))).

Definition routed_kind (input : CandidateInput) : bool := str_eqb (ci_Kind input) KindVLESS.

Definition listed_candidate (now : Z) (source id : string) (position : nat) (input : CandidateInput)
    (old : option Candidate) : Candidate := {|
  c_ID := id; c_SourceID := match old with Some c => c_SourceID c | None => source end;
  c_Kind := ci_Kind input; c_Label := ci_Label input; c_Fingerprint := ci_Fingerprint input;
  c_RouteKey := if routed_kind input then ci_RouteKey input else EmptyString;
  c_FailureDomain := if routed_kind input then ci_FailureDomain input else EmptyString;
  c_Enabled := true; c_SourcePosition := Z.of_nat position;
  c_Lifecycle := CandidateLifecycleActive; c_RetiredAt := None; c_DrainAfter := None;
  c_CreatedAt := match old with Some c => c_CreatedAt c | None => now end;
  c_UpdatedAt := now |}.

(** [UNIQUE(source_id, fingerprint)]. *)
Definition collides (c : Candidate) (id : string) (r : CandidateRow) : bool :=
  negb (str_eqb id (c_ID c)) && of_source (c_SourceID c) r &&
  str_eqb (c_Fingerprint (cr_candidate r)) (c_Fingerprint c).

Definition replace_one (seal : Seals) (now : Z) (source : string) (seen : list string)
    (x : nat * CandidateInput) : Tx (list string) :=
  let (position, input) := x in
  check (negb (str_eqb (ci_Fingerprint input) EmptyString || str_eqb (ci_Payload input) EmptyString))
    InputIncomplete ;;;
  let id := candidate_id source (ci_Fingerprint input) in
  check (negb (existsb (str_eqb id) seen)) InputDuplicate ;;;
  encrypted <- required (seal position id (ci_Payload input)) (EncryptFailed id) ;;
  old <- get (fun d => candidates d !! id) ;;
  let c := listed_candidate now source id position input (cr_candidate <$> old) in
  collisions <- get (fun d => affected (collides c) (candidates d)) ;;
  check (Nat.eqb collisions 0) ConstraintFailed ;;;
  modify (set_candidates <[id := {| cr_candidate := c; cr_encrypted := encrypted |}]>) ;;;
  ret (seen ++ [id]).

Definition refreshed_source (now : Z) (count : nat) (s : SourceRow) : SourceRow :=
  s <| so_candidate_count := Z.of_nat count |> <| so_last_refresh_at := Some now |>
    <| so_last_refresh_error := EmptyString |> <| so_updated_at := now |>.

Definition replace_candidates (seal : Seals) (now : Z) (grace : Duration) (source : string)
    (inputs : list CandidateInput) : Tx unit :=
  row <- get (fun d => sources d !! source) ;;
  s <- required row NoRows ;;
  check (negb (so_pending_delete s)) SourcePending ;;;
  listed <- foldM (replace_one seal now source) [] (zip (seq 0 (length inputs)) inputs) ;;
  modify (drain_source now grace source listed) ;;;
  modify (set_sources (alter (refreshed_source now (length inputs)) source)) ;;;
  incrementInventoryEpochTx.

Definition ReplaceCandidates (o : Outcome) (seal : Seals) (now : Time) (source : string)
    (inputs : list CandidateInput) (grace : option Duration) : Tx unit :=
  check (negb (Nat.eqb (length inputs) 0)) RefreshEmpty ;;;
  transaction o (replace_candidates seal (time_unix now) (retirement_grace grace) source inputs).

Definition InventoryEpoch (o : Outcome) : Tx Z := query o inventory_epoch.

(** ** Listings *)

Definition listed (source : string) (refs : list string) (j : JoinedRow) : bool :=
  let c := jr_candidate j in
  c_Enabled c && so_enabled (jr_source j) &&
  (str_eqb source EmptyString || str_eqb (c_SourceID c) source) &&
  (str_eqb (c_Lifecycle c) CandidateLifecycleActive ||
   str_eqb (c_Lifecycle c) CandidateLifecycleDraining && referenced refs c).

(** Of the active candidates of all sources the first of a fingerprint is listed. *)
Fixpoint first_of_fingerprint (source : string) (seen : gset string) (l : list Candidate) :
    list Candidate :=
  match l with
  | [] => []
  | c :: l =>
      let active := str_eqb (c_Lifecycle c) CandidateLifecycleActive in
      if str_eqb source EmptyString && active && bool_decide (c_Fingerprint c ∈ seen)
      then first_of_fingerprint source seen l
      else c :: first_of_fingerprint source
                  (if active then {[c_Fingerprint c]} ∪ seen else seen) l
  end.

Definition listCandidates (source : string) (refs : list string) (d : Database) : list Candidate :=
  first_of_fingerprint source ∅
    (map jr_candidate (sort_slice joined_less (List.filter (listed source refs) (joined d)))).

Definition ListCandidates (o : Outcome) (source : string) : Tx (list Candidate) :=
  query o (listCandidates source []).
Definition ListRoutableCandidates (o : Outcome) (refs : list string) : Tx (list Candidate) :=
  query o (listCandidates EmptyString refs).
Definition ListRoutableCandidatesSnapshot (o : Outcome) (refs : list string) :
    Tx (list Candidate * Z) :=
  query o (fun d => (listCandidates EmptyString refs d, inventory_epoch d)).

(** ** Payloads *)

Section Payloads.
Context `{Vault}.

Definition SourcePayload (o : Outcome) (id : string) : Tx string :=
  transaction o (
    row <- get (fun d => sources d !! id) ;;
    s <- required row NoRows ;;
    required (open_payload id (so_encrypted s)) (DecryptFailed id)).

Definition CandidatePayload (o : Outcome) (id : string) : Tx string :=
  transaction o (
    row <- get (fun d => candidates d !! id) ;;
    r <- required row NoRows ;;
    required (open_payload id (cr_encrypted r)) (DecryptFailed id)).

(** The candidate is still the same, enabled and active. *)
Definition still_active (c : Candidate) (d : Database) : option CandidateRow :=
  match candidates d !! c_ID c with
  | Some r =>
      if of_source (c_SourceID c) r && str_eqb (c_Fingerprint (cr_candidate r)) (c_Fingerprint c) &&
         c_Enabled (cr_candidate r) && has_lifecycle CandidateLifecycleActive r &&
         from_option so_enabled false (sources d !! c_SourceID (cr_candidate r))
      then Some r else None
  | None => None
  end.

Definition payload_of (result : list CandidatePayloadSnapshot) (c : Candidate) :
    Tx (list CandidatePayloadSnapshot) :=
  check (negb (existsb (fun s => str_eqb s EmptyString) [c_ID c; c_SourceID c; c_Fingerprint c]))
    IdentityIncomplete ;;;
  row <- get (still_active c) ;;
  match row with
  | None => ret result
  | Some r =>
      payload <- required (open_payload (c_ID c) (cr_encrypted r)) (DecryptFailed (c_ID c)) ;;
      ret (result ++ [{| py_Candidate := c; py_Payload := payload |}])
  end.

Definition ActiveCandidatePayloadsSnapshot (o : Outcome) (l : list Candidate) :
    Tx (list CandidatePayloadSnapshot * Z) :=
  transaction o (
    epoch <- get inventory_epoch ;;
    result <- foldM payload_of [] l ;;
    ret (result, epoch)).
End Payloads.

Definition CandidateSummaries (o : Outcome) (ids : list string) : Tx (gmap string CandidateSummary) :=
  if Nat.eqb (length ids) 0 then ret ∅
  else query o (fun d =>
    (fun r => {| su_ID := c_ID (cr_candidate r); su_Kind := c_Kind (cr_candidate r);
                 su_Label := c_Label (cr_candidate r) |}) <$>
    filter (fun '(id, _) => id ∈ ids) (candidates d)).
