(* ===== verification/TorProfiles.v ===== *)
(** What still refers to a candidate (loadCandidateRetirementReferencesTx of
    store/retirement.go), and the bridges that the Tor pool has to keep
    (store/tor_profiles.go). *)
From Stdlib Require Import Floats.
From S2P Require Import Prelude Effects GoOrder GoStrings GoSort Sha256 QoE DataPlan Gateway Handlers StoreTables StoreLogic RouteRecovery PlanStore RoutingSnapshot CandidateState Inventory.

#[local] Open Scope Z_scope.
#[local] Open Scope effect_scope.

(** A persisted plan as the strict decoder reads it: the fields that are not null. *)
Record PersistedPlan := {
  pp_Generation : option Z;
  pp_Outbounds : option (list Outbound);
  pp_Clients : option (list ClientRoute);
  pp_DirectSuffixes : option (list string);
  pp_DirectDomains : option (list string);
  pp_FailClosed : option bool
}.

Record TorProfileCandidate := {
  tp_Candidate : Candidate;
  tp_Payload : string;
  tp_ConservativeScore : float;
  tp_Assigned : bool;
  tp_Draining : bool;
  tp_Referenced : bool;
  tp_Qualified : bool;
  tp_SourceEnabled : bool;
  tp_Mandatory : bool
}.

Record TorProfileSetRequest := {
  rq_Active : list Candidate;
  rq_Draining : list Candidate;
  rq_ForceCandidateIDs : list string;
  rq_ExcludeCandidateID : string;
  rq_ExcludeCandidateIDs : list string;
  rq_UsePersistedWorkingPool : bool
}.

Record TorProfileSetSnapshot := {
  tor_Candidates : list TorProfileCandidate;
  tor_MandatoryCandidateIDs : list string;
  tor_DesiredGeneration : Z;
  tor_AppliedGeneration : Z;
  tor_InventoryEpoch : Z;
  tor_SemanticDigest : string
}.

(** What the digest of the bridges covers. *)
Record semanticCandidate := {
  sc_ID : string;
  sc_SourceID : string;
  sc_Fingerprint : string;
  sc_Lifecycle : string;
  sc_Enabled : bool;
  sc_SourceEnabled : bool;
  sc_ConservativeScore : float;
  sc_Assigned : bool;
  sc_Draining : bool;
  sc_Referenced : bool;
  sc_Qualified : bool
}.

(** What these files use of [encoding/json]: none is an error. *)
Class RetirementCodec : Type := {
  decode_persisted : string -> option PersistedPlan;
  marshal_tor : list semanticCandidate -> option string
}.

Section Profiles.
Context `{Json} `{Vault} `{RetirementCodec}.

(** ** References *)

Definition complete_plan (p : PersistedPlan) : option DesiredPlan :=
  match pp_Generation p, pp_Outbounds p, pp_Clients p, pp_DirectSuffixes p, pp_FailClosed p with
  | Some generation, Some outbounds, Some clients, Some suffixes, Some fail_closed =>
      Some {| Generation := generation; Outbounds := outbounds; Clients := clients;
              DirectSuffixes := suffixes; DirectDomains := default [] (pp_DirectDomains p);
              FailClosed := fail_closed |}
  | _, _, _, _, _ => None
  end.

Definition outbound_candidate (o : Outbound) : option (string * string) :=
  if str_eqb (Protocol o) ProtocolVLESS || str_eqb (Protocol o) ProtocolTor then
    let id := normalizePersistedCandidateID (ID o) in
    if str_eqb id EmptyString then None else Some (ID o, id)
  else None.

Definition outbound_candidates (plan : DesiredPlan) : gmap string string :=
  fold_left (fun m '(outbound, id) => <[outbound := id]> m)
    (omap outbound_candidate (Outbounds plan)) ∅.

Definition route_outbounds (r : ClientRoute) : list string :=
  [TCPOutbound r; UDPOutbound r; TCPReserveOutbound r; UDPReserveOutbound r].

Definition plan_references (plan : DesiredPlan) : gset string :=
  list_to_set (map snd (omap outbound_candidate (Outbounds plan))) ∪
  list_to_set (omap (fun o => outbound_candidates plan !! o)
                 (flat_map route_outbounds (Clients plan))).

Definition persistedPlanCandidateReferences (encoded : string) (expected : Z) :
    StoreError + gset string :=
  if (expected =? 0) && str_eqb (trim_space encoded) EmptyString then inr ∅
  else
    match decode_persisted encoded with
    | None => inl PersistedPlanInvalid
    | Some persisted =>
        match complete_plan persisted with
        | None => inl PersistedPlanInvalid
        | Some plan =>
            if (Generation plan =? expected) && bool_decide (Validate plan = None)
            then inr (plan_references plan) else inl PersistedPlanInvalid
        end
    end.

(** The columns of the union: assignments, reserves of both stages, the pool. *)
Definition mapped_candidates (m : RouteReserveMapping) : list string :=
  [TCPPrimaryCandidateID m; TCPReserveCandidateID m; UDPPrimaryCandidateID m;
   UDPReserveCandidateID m].

Definition referring_columns (d : Database) : list string :=
  List.filter (fun s => negb (str_eqb s EmptyString))
    (flat_map (fun '(_, a) => [ar_tcp_outbound a; ar_udp_outbound a]) (map_to_list (assignments d)) ++
     flat_map (fun '(_, r) => mapped_candidates r.2) (map_to_list (desired_reserves d)) ++
     flat_map (fun '(_, r) => mapped_candidates r.2) (map_to_list (applied_reserves d)) ++
     flat_map (fun '(_, r) => if pr_in_working_pool r || pr_draining r then [pr_candidate_id r] else [])
       (map_to_list (candidate_probe_state d))).

Definition references_of (d : Database) : StoreError + gset string :=
  let p := plan_state d in
  desired <~ persistedPlanCandidateReferences (blob (desired_plan p)) (desired_generation p) ;;
  applied <~ persistedPlanCandidateReferences (blob (applied_plan p)) (applied_generation p) ;;
  inr (desired ∪ applied ∪
       list_to_set (map normalizePersistedCandidateID (referring_columns d))).

Definition loadCandidateRetirementReferencesTx : Tx (gset string) :=
  fun d => (references_of d, d).

(** ** Bridges *)

Definition candidateIdentityByID (l : list Candidate) : gmap string Candidate :=
  index_by c_ID (List.filter (fun c => negb (str_eqb (c_ID c) EmptyString)) l).

Definition candidateIdentityMatches (expected : option Candidate) (current : Candidate) : bool :=
  match expected with
  | Some e => negb (str_eqb (c_ID e) EmptyString) && str_eqb (c_ID e) (c_ID current) &&
              str_eqb (c_SourceID e) (c_SourceID current) &&
              str_eqb (c_Fingerprint e) (c_Fingerprint current)
  | None => false
  end.

Definition excluded (request : TorProfileSetRequest) (id : string) : bool :=
  negb (str_eqb id EmptyString) &&
  (str_eqb (rq_ExcludeCandidateID request) id || existsb (str_eqb id) (rq_ExcludeCandidateIDs request)).

Definition forced (request : TorProfileSetRequest) (id : string) : bool :=
  negb (str_eqb id EmptyString) && existsb (str_eqb id) (rq_ForceCandidateIDs request).

(** The probe row that is joined to a candidate. *)
Definition joined_probe (d : Database) (c : Candidate) : option ProbeRow :=
  match candidate_probe_state d !! c_Fingerprint c with
  | Some r => if str_eqb (pr_candidate_id r) (c_ID c) && str_eqb (pr_source_id r) (c_SourceID c) &&
                 negb (pr_placeholder r) then Some r else None
  | None => None
  end.

Definition is_assigned (d : Database) (id : string) : bool :=
  existsb (fun '(_, a) => str_eqb (ar_tcp_outbound a) id || str_eqb (ar_udp_outbound a) id)
    (map_to_list (assignments d)).

Definition proven (probe : option ProbeRow) : bool :=
  (2 <=? from_option pr_full_success_streak 0 probe) &&
  (str_eqb (from_option pr_status EmptyString probe) CandidateQualified ||
   str_eqb (from_option pr_status EmptyString probe) CandidateDraining).

(** Whether the pool keeps a bridge: it is asked for, or it is proven and in the
    pool, or a plan goes over it while it leaves. *)
Definition kept_bridge (request : TorProfileSetRequest) (references : gset string) (d : Database)
    (j : JoinedRow) : bool :=
  let c := jr_candidate j in
  let probe := joined_probe d c in
  let requested := candidateIdentityMatches (candidateIdentityByID (rq_Active request) !! c_ID c) c ||
                   candidateIdentityMatches (candidateIdentityByID (rq_Draining request) !! c_ID c) c in
  let pool := rq_UsePersistedWorkingPool request &&
              (from_option pr_in_working_pool false probe || from_option pr_draining false probe) in
  let continuity := bool_decide (c_ID c ∈ references) &&
    (str_eqb (c_Lifecycle c) CandidateLifecycleDraining || negb (c_Enabled c) ||
     negb (so_enabled (jr_source j))) in
  negb (excluded request (c_ID c)) &&
  (forced request (c_ID c) || (requested || pool) && proven probe || continuity).

Definition bridge_row (request : TorProfileSetRequest) (references : gset string) (d : Database)
    (j : JoinedRow) (payload : string) : TorProfileCandidate :=
  let c := jr_candidate j in
  let probe := joined_probe d c in {|
    tp_Candidate := c; tp_Payload := payload;
    tp_ConservativeScore := from_option pr_conservative_score 0%float probe;
    tp_Assigned := is_assigned d (c_ID c);
    tp_Draining :=
      candidateIdentityMatches (candidateIdentityByID (rq_Draining request) !! c_ID c) c ||
      from_option pr_draining false probe ||
      str_eqb (c_Lifecycle c) CandidateLifecycleDraining || negb (c_Enabled c) ||
      negb (so_enabled (jr_source j));
    tp_Referenced := bool_decide (c_ID c ∈ references); tp_Qualified := proven probe;
    tp_SourceEnabled := so_enabled (jr_source j); tp_Mandatory := forced request (c_ID c) |}.

Definition by_id (a b : JoinedRow) : bool := str_ltb (c_ID (jr_candidate a)) (c_ID (jr_candidate b)).

Definition bridges (d : Database) : list JoinedRow :=
  sort_slice by_id
    (List.filter (fun j => str_eqb (c_Kind (jr_candidate j)) KindTorBridge) (joined d)).

Definition take_bridge (request : TorProfileSetRequest) (references : gset string) (d : Database)
    (result : list TorProfileCandidate) (j : JoinedRow) : StoreError + list TorProfileCandidate :=
  if kept_bridge request references d j then
    match open_payload (c_ID (jr_candidate j)) (cr_encrypted (jr_row j)) with
    | Some payload => inr (result ++ [bridge_row request references d j payload])
    | None => inl (DecryptFailed (c_ID (jr_candidate j)))
    end
  else inr result.

Definition loadTorProfileSetSnapshotTx (request : TorProfileSetRequest) (references : gset string) :
    Tx (list TorProfileCandidate) :=
  fun d => (fold_attempt (take_bridge request references d) [] (bridges d), d).

Definition semantic_of (t : TorProfileCandidate) : semanticCandidate :=
  let c := tp_Candidate t in {|
    sc_ID := c_ID c; sc_SourceID := c_SourceID c; sc_Fingerprint := c_Fingerprint c;
    sc_Lifecycle := c_Lifecycle c; sc_Enabled := c_Enabled c;
    sc_SourceEnabled := tp_SourceEnabled t; sc_ConservativeScore := tp_ConservativeScore t;
    sc_Assigned := tp_Assigned t; sc_Draining := tp_Draining t; sc_Referenced := tp_Referenced t;
    sc_Qualified := tp_Qualified t |}.

Definition semantic_less (a b : semanticCandidate) : bool := str_ltb (sc_ID a) (sc_ID b).

Definition torProfileSemanticDigest (items : list TorProfileCandidate) : StoreError + string :=
  match marshal_tor (sort_slice semantic_less (map semantic_of items)) with
  | Some encoded => inr (hex_encode (sha256 (bytes_of encoded)))
  | None => inl DigestFailed
  end.

(** ** Snapshots *)

Definition tor_snapshot (request : TorProfileSetRequest) (mandatory : list string)
    (references : gset string) : Tx TorProfileSetSnapshot :=
  plan <- get plan_state ;;
  epoch <- get inventory_epoch ;;
  items <- loadTorProfileSetSnapshotTx request references ;;
  digest <- lift (torProfileSemanticDigest items) ;;
  ret {| tor_Candidates := items; tor_MandatoryCandidateIDs := mandatory;
         tor_DesiredGeneration := desired_generation plan;
         tor_AppliedGeneration := applied_generation plan; tor_InventoryEpoch := epoch;
         tor_SemanticDigest := digest |}.

Definition LoadTorProfileSetSnapshot (o : Outcome) (request : TorProfileSetRequest) :
    Tx TorProfileSetSnapshot :=
  transaction o (
    references <- loadCandidateRetirementReferencesTx ;;
    tor_snapshot request [] references).

(** The targets that must have a profile again: active bridges and those in use. *)
Fixpoint mandatory_targets (d : Database) (references : gset string) (seen : list string)
    (ids : list string) : list string :=
  match ids with
  | [] => []
  | id :: ids =>
      if str_eqb id EmptyString || existsb (str_eqb id) seen
      then mandatory_targets d references seen ids
      else
        let rest := mandatory_targets d references (id :: seen) ids in
        match candidates d !! id with
        | Some r =>
            if str_eqb (c_Kind (cr_candidate r)) KindTorBridge &&
               (has_lifecycle CandidateLifecycleActive r || bool_decide (id ∈ references))
            then id :: rest else rest
        | None => rest
        end
  end.

Definition batch_size (n : nat) : bool := negb (Nat.eqb n 0) && (n <=? 64)%nat.

Definition force_request (ids : list string) : TorProfileSetRequest := {|
  rq_Active := []; rq_Draining := []; rq_ForceCandidateIDs := ids;
  rq_ExcludeCandidateID := EmptyString; rq_ExcludeCandidateIDs := [];
  rq_UsePersistedWorkingPool := true |}.

Definition exclude_request (id : string) (ids : list string) : TorProfileSetRequest := {|
  rq_Active := []; rq_Draining := []; rq_ForceCandidateIDs := [];
  rq_ExcludeCandidateID := id; rq_ExcludeCandidateIDs := ids;
  rq_UsePersistedWorkingPool := true |}.

Definition LoadTorCompensationSnapshot (o : Outcome) (targets : list string) :
    Tx TorProfileSetSnapshot :=
  check (batch_size (length targets)) RetirementBatch ;;;
  transaction o (
    references <- loadCandidateRetirementReferencesTx ;;
    mandatory <- get (fun d => sort_slice str_ltb (mandatory_targets d references [] targets)) ;;
    tor_snapshot (force_request mandatory) mandatory references).
End Profiles.
