(* ===== verification/Retirement.v ===== *)
(** Retiring candidates (store/retirement.go, controller/candidate_retirement.go): a
    drained candidate is retired, and a candidate that was retired long enough is
    deleted with its rows, when nothing refers to it and nothing changed since the
    decision. *)
From Stdlib Require Import Floats.
From S2P Require Import Prelude Effects GoOrder GoStrings GoSort Sha256 QoE DataPlan Gateway Handlers StoreTables StoreLogic RouteRecovery PlanStore RoutingSnapshot CandidateState Observations Inventory TorProfiles.

#[local] Open Scope Z_scope.
#[local] Open Scope effect_scope.

Record CandidateRetirementSnapshot := {
  rt_Candidate : Candidate;
  rt_DesiredGeneration : Z;
  rt_AppliedGeneration : Z;
  rt_InventoryEpoch : Z;
  rt_Referenced : bool;
  rt_TorCandidates : list TorProfileCandidate;
  rt_TorSemanticDigest : string
}.

Record CandidateRetirementBatchSnapshot := {
  rb_Candidates : list Candidate;
  rb_DesiredGeneration : Z;
  rb_AppliedGeneration : Z;
  rb_InventoryEpoch : Z;
  rb_TorCandidates : list TorProfileCandidate;
  rb_TorSemanticDigest : string
}.

Record CandidateRetirementResult := { rr_Changed : bool; rr_Lifecycle : string }.
Record CandidateRetirementBatchResult := { rr_ChangedCount : nat }.

Section Retirement.
Context `{Json} `{Vault} `{RetirementCodec}.

(** ** What is due *)

Definition retention_deadline (now : Time) (retention : Duration) : Z :=
  time_unix (time_add now (- retention)).

Definition candidateRetirementDue (now : Time) (retention : Duration) (c : Candidate) : bool :=
  if str_eqb (c_Lifecycle c) CandidateLifecycleDraining then
    match c_DrainAfter c with Some t => t <=? time_unix now | None => false end
  else if str_eqb (c_Lifecycle c) CandidateLifecycleRetired then
    match c_RetiredAt c with Some t => t <=? retention_deadline now retention | None => false end
  else false.

Definition candidateRetirementIdentityMatches (expected current : Candidate) : bool :=
  negb (str_eqb (c_ID expected) EmptyString) && str_eqb (c_ID expected) (c_ID current) &&
  str_eqb (c_SourceID expected) (c_SourceID current) &&
  str_eqb (c_Fingerprint expected) (c_Fingerprint current) &&
  str_eqb (c_Lifecycle expected) (c_Lifecycle current).

Definition candidate_less (a b : Candidate) : bool := str_ltb (c_ID a) (c_ID b).

Definition select_candidates (cond : Candidate -> bool) (d : Database) : list Candidate :=
  sort_slice candidate_less
    (List.filter cond (map (fun '(_, r) => cr_candidate r) (map_to_list (candidates d)))).

Definition CandidateForRetirement (o : Outcome) (id : string) : Tx Candidate :=
  transaction o (
    row <- get (fun d => candidates d !! id) ;;
    r <- requireAffected row "candidate" ;;
    ret (cr_candidate r)).

Definition check_times (now : Time) (retention : Duration) : Tx unit :=
  check (negb (time_is_zero now)) RetirementTime ;;;
  check (0 <? retention) RetirementRetention.

Definition ListCandidatesDueRetirement (o : Outcome) (now : Time) (retention : Duration) :
    Tx (list Candidate) :=
  check_times now retention ;;;
  query o (select_candidates (candidateRetirementDue now retention)).

Definition ListCandidatesDueRetirementPage (o : Outcome) (now : Time) (retention : Duration)
    (afterID : string) (limit : Z) : Tx (list Candidate) :=
  check_times now retention ;;;
  check ((0 <? limit) && (limit <=? 64)) RetirementPage ;;;
  query o (fun d => take (Z.to_nat limit)
    (select_candidates (fun c => str_ltb afterID (c_ID c) && candidateRetirementDue now retention c) d)).

(** ** Snapshots *)

Definition tor_ids (l : list Candidate) : list string :=
  map c_ID (List.filter (fun c => str_eqb (c_Kind c) KindTorBridge) l).

Definition batch_snapshot (ids : list string) (now : Time) (retention : Duration) :
    Tx CandidateRetirementBatchSnapshot :=
  plan <- get plan_state ;;
  epoch <- get inventory_epoch ;;
  references <- loadCandidateRetirementReferencesTx ;;
  due <- get (select_candidates (fun c => existsb (str_eqb (c_ID c)) ids &&
           negb (bool_decide (c_ID c ∈ references)) && candidateRetirementDue now retention c)) ;;
  tor <- loadTorProfileSetSnapshotTx (exclude_request EmptyString (tor_ids due)) references ;;
  digest <- lift (torProfileSemanticDigest tor) ;;
  ret {| rb_Candidates := due; rb_DesiredGeneration := desired_generation plan;
         rb_AppliedGeneration := applied_generation plan; rb_InventoryEpoch := epoch;
         rb_TorCandidates := tor; rb_TorSemanticDigest := digest |}.

Definition LoadCandidateRetirementBatchSnapshot (o : Outcome) (ids : list string) (now : Time)
    (retention : Duration) : Tx CandidateRetirementBatchSnapshot :=
  check (batch_size (length ids)) RetirementBatch ;;;
  check (negb (time_is_zero now) && (0 <? retention)) RetirementTime ;;;
  transaction o (batch_snapshot ids now retention).

Definition LoadCandidateRetirementSnapshot (o : Outcome) (id : string) :
    Tx CandidateRetirementSnapshot :=
  transaction o (
    row <- get (fun d => candidates d !! id) ;;
    r <- requireAffected row "candidate" ;;
    plan <- get plan_state ;;
    epoch <- get inventory_epoch ;;
    references <- loadCandidateRetirementReferencesTx ;;
    tor <- loadTorProfileSetSnapshotTx (exclude_request id []) references ;;
    digest <- lift (torProfileSemanticDigest tor) ;;
    ret {| rt_Candidate := cr_candidate r; rt_DesiredGeneration := desired_generation plan;
           rt_AppliedGeneration := applied_generation plan; rt_InventoryEpoch := epoch;
           rt_Referenced := bool_decide (id ∈ references); rt_TorCandidates := tor;
           rt_TorSemanticDigest := digest |}).

(** ** Advancing *)

(** [clock] is the clock of the database engine. *)
Definition deleteCandidateRetirementStateTx (clock : Z) (c : Candidate) : Tx unit :=
  let id := c_ID c in
  modify (fun d => d <| candidate_health := delete id (candidate_health d) |>
    <| probe_samples := List.filter (fun s => negb (str_eqb (sa_candidate_id s) id)) (probe_samples d) |>
    <| failure_domain_evidence :=
         filter (fun '((_, candidate), _) => candidate <> id) (failure_domain_evidence d) |>
    <| candidate_probe_state :=
         filter (fun '(_, r) => pr_candidate_id r <> id) (candidate_probe_state d) |>
    <| failure_domain_state := (fun r =>
         if str_eqb (fr_canary_candidate r) id
         then r <| fr_canary_candidate := EmptyString |> <| fr_updated_at := clock |> else r) <$>
         failure_domain_state d |>) ;;;
  row <- get (fun d => candidates d !! id) ;;
  r <- requireAffected row "retired candidate" ;;
  check (has_lifecycle CandidateLifecycleRetired r) (NotFound "retired candidate") ;;;
  modify (fun d => d <| candidates := delete id (candidates d) |>
    <| candidate_qoe_state := delete id (candidate_qoe_state d) |>) ;;;
  modify (fun d =>
    match sources d !! c_SourceID c with
    | Some s => if so_pending_delete s &&
                   Nat.eqb (affected (fun _ => of_source (c_SourceID c)) (candidates d)) 0
                then set_sources (delete (c_SourceID c)) d else d
    | None => d
    end).

Definition retire (now : Time) (c : Candidate) : Candidate :=
  c <| c_Lifecycle := CandidateLifecycleRetired |> <| c_RetiredAt := Some (time_unix now) |>
    <| c_UpdatedAt := time_unix now |>.

Definition retire_candidate (now : Time) (id : string) : Tx unit :=
  row <- get (fun d => candidates d !! id) ;;
  r <- requireAffected row "draining candidate" ;;
  check (has_lifecycle CandidateLifecycleDraining r &&
         match c_DrainAfter (cr_candidate r) with Some t => t <=? time_unix now | None => false end)
    (NotFound "draining candidate") ;;;
  modify (set_candidates <[id := set_candidate (retire now) r]>).

(** One step of a candidate; false: it is in no lifecycle that advances. *)
Definition advance_candidate (clock : Z) (now : Time) (c : Candidate) : Tx bool :=
  if str_eqb (c_Lifecycle c) CandidateLifecycleDraining then
    retire_candidate now (c_ID c) ;;; ret true
  else if str_eqb (c_Lifecycle c) CandidateLifecycleRetired then
    deleteCandidateRetirementStateTx clock c ;;; ret true
  else ret false.

Definition unchanged_since (generation epoch : Z) (d : Database) : bool :=
  (desired_generation (plan_state d) =? generation) &&
  (applied_generation (plan_state d) =? generation) && (inventory_epoch d =? epoch).

Definition digest_matches (expected current : string) : bool :=
  negb (str_eqb expected EmptyString) && str_eqb current expected.

Definition advance_body (clock : Z) (id : string) (generation epoch : Z) (torDigest : string)
    (now : Time) (retention : Duration) : Tx CandidateRetirementResult :=
  let nothing := {| rr_Changed := false; rr_Lifecycle := EmptyString |} in
  same <- get (unchanged_since generation epoch) ;;
  if negb same then ret nothing
  else
    references <- loadCandidateRetirementReferencesTx ;;
    row <- get (fun d => candidates d !! id) ;;
    match row with
    | None => ret nothing
    | Some r =>
        let c := cr_candidate r in
        let kept := {| rr_Changed := false; rr_Lifecycle := c_Lifecycle c |} in
        if bool_decide (id ∈ references) then ret kept
        else
          tor <- loadTorProfileSetSnapshotTx (exclude_request id []) references ;;
          digest <- lift (torProfileSemanticDigest tor) ;;
          if negb (digest_matches torDigest digest) then ret kept
          else if negb (candidateRetirementDue now retention c) then ret kept
          else
            _ <- advance_candidate clock now c ;;
            incrementInventoryEpochTx ;;;
            ret {| rr_Changed := true;
                   rr_Lifecycle := if has_lifecycle CandidateLifecycleDraining r
                                   then CandidateLifecycleRetired else EmptyString |}
    end.

Definition AdvanceCandidateRetirement (o : Outcome) (clock : Z) (id : string) (generation epoch : Z)
    (torDigest : string) (now : Time) (retention : Duration) : Tx CandidateRetirementResult :=
  check (negb (str_eqb id EmptyString)) RetirementIdentity ;;;
  check (0 <=? generation) RetirementGeneration ;;;
  check_times now retention ;;;
  transaction o (advance_body clock id generation epoch torDigest now retention).

(** The candidates of a batch as they are now; none when one of them is not what was
    expected, is in use, or is not due. *)
Definition current_candidate (references : gset string) (now : Time) (retention : Duration)
    (d : Database) (expected : Candidate) : option Candidate :=
  match candidates d !! c_ID expected with
  | Some r =>
      let c := cr_candidate r in
      if candidateRetirementIdentityMatches expected c && negb (bool_decide (c_ID c ∈ references)) &&
         candidateRetirementDue now retention c
      then Some c else None
  | None => None
  end.

(** The switch over the batch; it stops at a candidate that does not advance. *)
Fixpoint advance_all (clock : Z) (now : Time) (l : list Candidate) : Tx bool :=
  match l with
  | [] => ret true
  | c :: l =>
      advanced <- advance_candidate clock now c ;;
      if advanced then advance_all clock now l else ret false
  end.

Definition advance_batch (clock : Z) (expected : list Candidate) (generation epoch : Z)
    (torDigest : string) (now : Time) (retention : Duration) : Tx CandidateRetirementBatchResult :=
  let nothing := {| rr_ChangedCount := 0 |} in
  same <- get (unchanged_since generation epoch) ;;
  if negb same then ret nothing
  else
    references <- loadCandidateRetirementReferencesTx ;;
    current <- get (fun d => mapM (current_candidate references now retention d) expected) ;;
    match current with
    | None => ret nothing
    | Some current =>
        tor <- loadTorProfileSetSnapshotTx (exclude_request EmptyString (tor_ids current)) references ;;
        digest <- lift (torProfileSemanticDigest tor) ;;
        if negb (digest_matches torDigest digest) then ret nothing
        else
          advanced <- advance_all clock now current ;;
          if negb advanced then ret nothing
          else
            incrementInventoryEpochTx ;;;
            ret {| rr_ChangedCount := length current |}
    end.

Definition AdvanceCandidateRetirementBatch (o : Outcome) (clock : Z) (expected : list Candidate)
    (generation epoch : Z) (torDigest : string) (now : Time) (retention : Duration) :
    Tx CandidateRetirementBatchResult :=
  check (batch_size (length expected)) RetirementBatch ;;;
  check (0 <=? generation) RetirementGeneration ;;;
  check_times now retention ;;;
  check (bool_decide (NoDup (map c_ID expected)) &&
         negb (existsb (fun c => str_eqb (c_ID c) EmptyString) expected)) RetirementIdentity ;;;
  transaction o (advance_batch clock expected generation epoch torDigest now retention).
End Retirement.
