(* ===== verification/RetirementRun.v ===== *)
(** The collector that retires candidates (controller/candidate_retirement.go): a page
    of due candidates, a snapshot of the store, the Tor pool without the bridges that
    leave, and the advance of the batch; what the pool gave up is brought back when
    the batch does not advance.

    The store is shared with other writers, and the Tor pool answers what it likes:
    an environment decides from the calls so far. *)
From Stdlib Require Import Floats.
From S2P Require Import Prelude Effects GoOrder GoStrings GoSort QoE DataPlan Handlers StoreTables StoreLogic RoutingSnapshot Inventory TorProfiles Retirement Sha256 Gateway RouteRecovery PlanStore CandidateState.

#[local] Open Scope Z_scope.
#[local] Open Scope effect_scope.

(** What the pool is asked for, and what it answers. *)
Record PoolCandidate := {
  pc_ID : string;
  pc_Bridge : string;
  pc_Score : float;
  pc_Qualified : bool;
  pc_Draining : bool;
  pc_Assigned : bool
}.

Record PoolProfile := {
  pf_Slot : Z;
  pf_Role : string;
  pf_CandidateID : string;
  pf_SocksAddr : string;
  pf_DataDir : string;
  pf_Retiring : bool
}.

Inductive AckError :=
  | AckEmpty | AckRetained (id : string) | AckUnexpected (id : string) | AckMissing (id : string).

Inductive CollectorError :=
  | CollectorStore (e : StoreError) | TorReconcile | TorAck (e : AckError)
  | InventoryChanged | RetentionInvalid | TimeRequired
  | Joined (e : CollectorError) (compensation : option CollectorError).

(** The calls that leave the collector. *)
Inductive CollectorCall :=
  | Queried (ok : bool) (seen : Database)
  | Reconciled (requested : list PoolCandidate) (answer : option (list PoolProfile))
  | Listed (answer : list PoolProfile)
  | Advanced (batch : list Candidate) (result : StoreError + CandidateRetirementBatchResult)
      (seen : Database).

Record CollectorEnv := {
  co_outcome : list CollectorCall -> Outcome;
  co_others : list CollectorCall -> Database -> Database;
  co_reconcile : list CollectorCall -> list PoolCandidate -> option (list PoolProfile);
  co_profiles : list CollectorCall -> list PoolProfile;
  co_clock : list CollectorCall -> Z
}.

Record CollectorWorld := { cw_db : Database; cw_cursor : string; cw_calls : list CollectorCall }.

#[export] Instance CollectorWorld_eta : Eta CollectorWorld := fun w =>
  Build_CollectorWorld (cw_db w) (cw_cursor w) (cw_calls w).

Abbreviation Collector A := (Prog CollectorWorld CollectorError A).

(** ** What the pool acknowledges *)

Definition retirementTorCandidateIDs (l : list TorProfileCandidate) : list string :=
  sort_slice str_ltb (map (fun t => c_ID (tp_Candidate t)) l).

Definition torCandidatesFromStore (l : list TorProfileCandidate) : list PoolCandidate :=
  map (fun t => {| pc_ID := c_ID (tp_Candidate t); pc_Bridge := tp_Payload t;
                   pc_Score := tp_ConservativeScore t; pc_Qualified := true;
                   pc_Draining := tp_Draining t;
                   pc_Assigned := tp_Assigned t || tp_Mandatory t |}) l.

Definition check_profile (excludedIDs expectedIDs : list string) (p : PoolProfile) : option AckError :=
  let id := pf_CandidateID p in
  if str_eqb id EmptyString then Some AckEmpty
  else if existsb (str_eqb id) excludedIDs then Some (AckRetained id)
  else if negb (existsb (str_eqb id) expectedIDs) then Some (AckUnexpected id)
  else None.

Fixpoint first_error {A E : Type} (f : A -> option E) (l : list A) : option E :=
  match l with
  | [] => None
  | x :: l => match f x with Some e => Some e | None => first_error f l end
  end.

Definition validateTorProfileBatchAcknowledgement (excludedIDs expectedIDs mandatoryIDs : list string)
    (profiles : list PoolProfile) : option AckError :=
  match first_error (check_profile excludedIDs expectedIDs) profiles with
  | Some e => Some e
  | None =>
      first_error (fun id =>
        if str_eqb id EmptyString || negb (existsb (fun p => str_eqb (pf_CandidateID p) id) profiles)
        then Some (AckMissing id) else None) mandatoryIDs
  end.

Definition validateTorProfileAcknowledgement (excludedID : string)
    (expectedIDs mandatoryIDs : list string) (profiles : list PoolProfile) : option AckError :=
  validateTorProfileBatchAcknowledgement
    (if str_eqb excludedID EmptyString then [] else [excludedID]) expectedIDs mandatoryIDs profiles.

Definition validateRetirementTorBatchAcknowledgement (excludedIDs expectedIDs : list string)
    (profiles : list PoolProfile) : option AckError :=
  validateTorProfileBatchAcknowledgement excludedIDs expectedIDs [] profiles.

Definition candidateRetirementSnapshotDue (now : Time) (retention : Duration)
    (listed : option Candidate) (current : Candidate) : bool :=
  match listed with
  | Some c => candidateRetirementIdentityMatches c current && candidateRetirementDue now retention current
  | None => false
  end.

Definition candidateRetirementBatchSize : Z := 32.

(** [reflect.DeepEqual]: a score that is not a number is not equal to itself. *)
#[export] Instance Candidate_eq_dec : EqDecision Candidate.
Proof. solve_decision. Defined.

Definition profile_candidate_eq (a b : TorProfileCandidate) : bool :=
  bool_decide (tp_Candidate a = tp_Candidate b) && str_eqb (tp_Payload a) (tp_Payload b) &&
  (tp_ConservativeScore a =? tp_ConservativeScore b)%float &&
  Bool.eqb (tp_Assigned a) (tp_Assigned b) && Bool.eqb (tp_Draining a) (tp_Draining b) &&
  Bool.eqb (tp_Referenced a) (tp_Referenced b) && Bool.eqb (tp_Qualified a) (tp_Qualified b) &&
  Bool.eqb (tp_SourceEnabled a) (tp_SourceEnabled b) && Bool.eqb (tp_Mandatory a) (tp_Mandatory b).

Fixpoint list_eqb {A : Type} (eqb : A -> A -> bool) (l k : list A) : bool :=
  match l, k with
  | [], [] => true
  | x :: l, y :: k => eqb x y && list_eqb eqb l k
  | _, _ => false
  end.

Definition snapshot_eq (a b : TorProfileSetSnapshot) : bool :=
  list_eqb profile_candidate_eq (tor_Candidates a) (tor_Candidates b) &&
  bool_decide (tor_MandatoryCandidateIDs a = tor_MandatoryCandidateIDs b) &&
  (tor_DesiredGeneration a =? tor_DesiredGeneration b) &&
  (tor_AppliedGeneration a =? tor_AppliedGeneration b) &&
  (tor_InventoryEpoch a =? tor_InventoryEpoch b) &&
  str_eqb (tor_SemanticDigest a) (tor_SemanticDigest b).

(** ** The collector *)

Section Collector.
Context `{JS : Json} `{VA : Vault} `{RC : RetirementCodec} (env : CollectorEnv).

(** A query of the store, after what others did in between. *)
Definition ask {A : Type} (m : Outcome -> Tx A) : Collector A := fun w =>
  let d := co_others env (cw_calls w) (cw_db w) in
  match m (co_outcome env (cw_calls w)) d with
  | (inl e, d') => (inl (CollectorStore e),
      w <| cw_db := d' |> <| cw_calls := cw_calls w ++ [Queried false d] |>)
  | (inr a, d') => (inr a, w <| cw_db := d' |> <| cw_calls := cw_calls w ++ [Queried true d] |>)
  end.

Definition reconcile (requested : list PoolCandidate) : Collector (list PoolProfile) := fun w =>
  let answer := co_reconcile env (cw_calls w) requested in
  (match answer with Some l => inr l | None => inl TorReconcile end,
   w <| cw_calls := cw_calls w ++ [Reconciled requested answer] |>).

Definition pool_profiles : Collector (list PoolProfile) := fun w =>
  let answer := co_profiles env (cw_calls w) in
  (inr answer, w <| cw_calls := cw_calls w ++ [Listed answer] |>).

Definition advance (batch : list Candidate) (s : CandidateRetirementBatchSnapshot) (now : Time)
    (retention : Duration) : Collector (StoreError + CandidateRetirementBatchResult) := fun w =>
  let d := co_others env (cw_calls w) (cw_db w) in
  let (result, d') := AdvanceCandidateRetirementBatch (co_outcome env (cw_calls w))
    (co_clock env (cw_calls w)) batch (rb_DesiredGeneration s) (rb_InventoryEpoch s)
    (rb_TorSemanticDigest s) now retention d in
  (inr result, w <| cw_db := d' |> <| cw_calls := cw_calls w ++ [Advanced batch result d] |>).

Definition acknowledged (e : option AckError) : Collector unit :=
  match e with Some e => raise (TorAck e) | None => ret tt end.

(** At most three attempts, until the store says the same after as before. *)
Fixpoint compensate_attempts (n : nat) (ids : list string) : Collector unit :=
  match n with
  | O => raise InventoryChanged
  | S n =>
      snapshot <- ask (fun o => LoadTorCompensationSnapshot o ids) ;;
      profiles <- reconcile (torCandidatesFromStore (tor_Candidates snapshot)) ;;
      acknowledged (validateTorProfileAcknowledgement EmptyString
        (retirementTorCandidateIDs (tor_Candidates snapshot)) (tor_MandatoryCandidateIDs snapshot)
        profiles) ;;;
      current <- ask (fun o => LoadTorCompensationSnapshot o ids) ;;
      if snapshot_eq snapshot current then ret tt else compensate_attempts n ids
  end.

Definition compensateTorRemovals (ids : list string) : Collector unit := compensate_attempts 3 ids.

(** The outcome of a step as a value; a failed step of this world keeps what it did. *)
Definition tried {A : Type} (m : Collector A) : Collector (CollectorError + A) := fun w =>
  let (x, w') := m w in (inr x, w').

Definition or_compensate {A : Type} (ids : list string) (m : Collector A) : Collector A :=
  x <- tried m ;;
  match x with
  | inr a => ret a
  | inl e =>
      c <- tried (compensateTorRemovals ids) ;;
      raise (Joined e (match c with inl e' => Some e' | inr _ => None end))
  end.

Definition due_page (now : Time) (retention : Duration) : Collector (list Candidate) :=
  cursor <- get cw_cursor ;;
  let page after := ask (fun o =>
    ListCandidatesDueRetirementPage o now retention after candidateRetirementBatchSize) in
  due <- page cursor ;;
  if Nat.eqb (length due) 0 && negb (str_eqb cursor EmptyString) then
    modify (fun w => w <| cw_cursor := EmptyString |>) ;;;
    page EmptyString
  else ret due.

(** The pool without the bridges that leave. *)
Definition release_bridges (targets : list string) (s : CandidateRetirementBatchSnapshot) :
    Collector unit :=
  or_compensate targets (
    profiles <- reconcile (torCandidatesFromStore (rb_TorCandidates s)) ;;
    acknowledged (validateRetirementTorBatchAcknowledgement targets
      (retirementTorCandidateIDs (rb_TorCandidates s)) profiles)) ;;;
  or_compensate targets (
    profiles <- pool_profiles ;;
    acknowledged (validateRetirementTorBatchAcknowledgement targets
      (retirementTorCandidateIDs (rb_TorCandidates s)) profiles)).

Definition finalize (targets : list string) (eligible : list Candidate)
    (s : CandidateRetirementBatchSnapshot) (now : Time) (retention : Duration) : Collector unit :=
  result <- advance eligible s now retention ;;
  let changed := match result with inr r => Nat.eqb (rr_ChangedCount r) (length eligible)
                 | inl _ => false end in
  if changed then ret tt
  else
    c <- tried (if Nat.eqb (length targets) 0 then ret tt else compensateTorRemovals targets) ;;
    match result, c with
    | inl e, inl e' => raise (Joined (CollectorStore e) (Some e'))
    | inl e, inr _ => raise (Joined (CollectorStore e) None)
    | inr _, inl e' => raise e'
    | inr _, inr _ => ret tt
    end.

Definition Run (now : Time) (retention : Duration) : Collector unit :=
  check (0 <? retention) RetentionInvalid ;;;
  check (negb (time_is_zero now)) TimeRequired ;;;
  due <- due_page now retention ;;
  match last due with
  | None => ret tt
  | Some c =>
      modify (fun w => w <| cw_cursor := c_ID c |>) ;;;
      snapshot <- ask (fun o => LoadCandidateRetirementBatchSnapshot o (map c_ID due) now retention) ;;
      if negb (rb_DesiredGeneration snapshot =? rb_AppliedGeneration snapshot) then ret tt
      else
        let eligible := List.filter (fun c =>
          candidateRetirementSnapshotDue now retention (index_by c_ID due !! c_ID c) c)
          (rb_Candidates snapshot) in
        let targets := tor_ids eligible in
        if Nat.eqb (length eligible) 0 then ret tt
        else
          (if Nat.eqb (length targets) 0 then ret tt else release_bridges targets snapshot) ;;;
          finalize targets eligible snapshot now retention
  end.
End Collector.

(** * Handing bridges over

    The collector and the Tor pool (RetirementRun.v): a bridge is advanced only after
    the pool let it go, and is brought back when the batch did not advance. *)

Section Handover.
Context `{JS : Json} `{VA : Vault} `{RC : RetirementCodec}.
Implicit Types (w : CollectorWorld) (targets : list string).

Definition advances (c : CollectorCall) : bool := match c with Advanced _ _ _ => true | _ => false end.

(** The pool was asked to keep other bridges only, and answers, at once and again
    before the advance, that it has no profile but those. *)
Definition released targets (calls : list CollectorCall) : Prop :=
  targets = [] \/ exists pre requested answer profiles,
    calls = pre ++ [Reconciled requested (Some answer); Listed profiles] /\
    (forall q, In q requested -> ~ In (pc_ID q) targets) /\
    forall p, In p (answer ++ profiles) -> ~ In (pf_CandidateID p) targets /\
      In (pf_CandidateID p) (map pc_ID requested).

(** A target that the pool must have: a bridge that is active or in use. *)
Definition must_return (d : Database) (id : string) : Prop :=
  id <> EmptyString /\ exists r, candidates d !! id = Some r /\ c_Kind (cr_candidate r) = KindTorBridge /\
    (c_Lifecycle (cr_candidate r) = CandidateLifecycleActive \/
     exists refs, references_of d = inr refs /\ id ∈ refs).

(** What a database shows of the targets and of the bridges to keep. *)
Definition shows_profiles targets (d : Database) (s : TorProfileSetSnapshot) : Prop :=
  exists d', LoadTorCompensationSnapshot Commits targets d = (inr s, d').

(** The last request is for the bridges that the store showed before it; the store was
    read again after the answer and shows the same; and the pool has a profile for every
    target that must return. *)
Definition brought_back targets (calls : list CollectorCall) : Prop :=
  targets = [] \/ exists pre before requested answer after s1 s2,
    calls = pre ++ [Queried true before; Reconciled requested (Some answer); Queried true after] /\
    shows_profiles targets before s1 /\ requested = torCandidatesFromStore (tor_Candidates s1) /\
    shows_profiles targets after s2 /\ snapshot_eq s1 s2 = true /\
    forall id, In id targets -> must_return before id ->
      exists p, In p answer /\ pf_CandidateID p = id.

(** A part of a run that advances nothing. *)
Definition quietly {A : Type} (m : Collector A) : Prop :=
  forall w x w', m w = (x, w') -> exists l, cw_calls w' = cw_calls w ++ l /\ existsb advances l = false.

Lemma calls_bind {A B : Type} (m : Collector A) (k : A -> Collector B) :
  quietly m -> (forall a, quietly (k a)) -> quietly (bind m k).
Proof.
  intros Hm Hk w x w'. unfold bind. destruct (m w) as [[e|a] w1] eqn:E; intros Hr.
  - injection Hr as <- <-. by eapply Hm.
  - destruct (Hm _ _ _ E) as (l1 & H1 & N1). destruct (Hk a _ _ _ Hr) as (l2 & H2 & N2).
    exists (l1 ++ l2). rewrite H2, H1, app_assoc, existsb_app, N1, N2. done.
Qed.

Lemma calls_still {A : Type} (m : Collector A) : (forall w, cw_calls (m w).2 = cw_calls w) -> quietly m.
Proof.
  intros Hm w x w' Hr. exists []. rewrite app_nil_r. split; [|done]. by rewrite <- (Hm w), Hr.
Qed.

Lemma calls_ret {A : Type} (a : A) : quietly (ret a).
Proof. by apply calls_still. Qed.
Lemma calls_raise {A : Type} e : quietly (A := A) (raise e).
Proof. by apply calls_still. Qed.
Lemma calls_check b e : quietly (check b e).
Proof. apply calls_still. by destruct b. Qed.
Lemma calls_get {A : Type} (f : CollectorWorld -> A) : quietly (get f).
Proof. by apply calls_still. Qed.
Lemma calls_cursor s : quietly (modify (fun w => w <| cw_cursor := s |>)).
Proof. apply calls_still. by intros []. Qed.
Lemma calls_ack e : quietly (acknowledged e).
Proof. apply calls_still. by destruct e. Qed.

Lemma calls_ask {A : Type} env (m : Outcome -> Tx A) : quietly (ask env m).
Proof.
  intros w x w'. unfold ask. destruct (m _ _) as [[e|a] d]; intros [= <- <-]; eexists;
    (split; [by destruct w|done]).
Qed.
Lemma calls_reconcile env l : quietly (reconcile env l).
Proof. intros w x w' [= <- <-]. eexists. split; [by destruct w|done]. Qed.
Lemma calls_profiles env : quietly (pool_profiles env).
Proof. intros w x w' [= <- <-]. eexists. split; [by destruct w|done]. Qed.
Lemma calls_tried {A : Type} (m : Collector A) : quietly m -> quietly (tried m).
Proof.
  intros Hm w x w'. unfold tried. destruct (m w) as [y w1] eqn:E. intros [= <- <-]. by eapply Hm.
Qed.

Create HintDb quiet_calls.
#[local] Hint Resolve calls_ret calls_raise calls_check calls_get calls_cursor calls_ack
  calls_ask calls_reconcile calls_profiles calls_tried calls_bind : quiet_calls.

Lemma calls_if {A : Type} (b : bool) (m k : Collector A) : quietly m -> quietly k -> quietly (if b then m else k).
Proof. by destruct b. Qed.
#[local] Hint Resolve calls_if : quiet_calls.

Lemma calls_compensate env n ids : quietly (compensate_attempts env n ids).
Proof. induction n as [|n IH]; cbn [compensate_attempts]; eauto 10 with quiet_calls. Qed.
#[local] Hint Resolve calls_compensate : quiet_calls.

Lemma calls_or {A : Type} env ids (m : Collector A) : quietly m -> quietly (or_compensate env ids m).
Proof.
  intros Hm. unfold or_compensate, compensateTorRemovals.
  apply calls_bind; [eauto with quiet_calls|]. intros []; eauto with quiet_calls.
Qed.
#[local] Hint Resolve calls_or : quiet_calls.

Lemma calls_release env targets s : quietly (release_bridges env targets s).
Proof. unfold release_bridges. eauto 10 with quiet_calls. Qed.

Lemma calls_page env now retention : quietly (due_page env now retention).
Proof. unfold due_page. eauto 10 with quiet_calls. Qed.

(** ** Runs that return *)

Lemma ask_run {A : Type} env (m : Outcome -> Tx A) w a w' : ask env m w = (inr a, w') ->
  exists o d, cw_calls w' = cw_calls w ++ [Queried true d] /\ m o d = (inr a, cw_db w').
Proof.
  unfold ask. destruct (m _ _) as [[e|x] d'] eqn:E; [done|]. intros [= <- <-].
  eexists _, _. split; [by destruct w|]. rewrite E. by destruct w.
Qed.

Lemma reconcile_run env l w a w' : reconcile env l w = (inr a, w') ->
  cw_calls w' = cw_calls w ++ [Reconciled l (Some a)].
Proof. unfold reconcile. destruct (co_reconcile _ _ _) as [x|]; intros [= <- <-]. by destruct w. Qed.

Lemma ack_run e w a w' : acknowledged e w = (inr a, w') -> e = None /\ w' = w.
Proof. destruct e; [done|]. by intros [= <- <-]. Qed.

Lemma or_compensate_run {A : Type} env ids (m : Collector A) w a w' :
  or_compensate env ids m w = (inr a, w') -> m w = (inr a, w').
Proof.
  unfold or_compensate, tried, bind. destruct (m w) as [[e|x] w1]; [|by intros [= <- <-]].
  destruct (compensateTorRemovals env ids w1) as [y w2]. done.
Qed.

Lemma first_error_None {A F : Type} (f : A -> option F) l : first_error f l = None ->
  forall x, In x l -> f x = None.
Proof.
  induction l as [|y l IH]; [by intros _ x []|]. cbn [first_error]. destruct (f y) eqn:E; [done|].
  intros Hl x [<-|Hx]; [done|by apply IH].
Qed.

(** What an acknowledgement tells. *)
Lemma batch_ack_None excludedIDs expectedIDs mandatoryIDs profiles :
  validateTorProfileBatchAcknowledgement excludedIDs expectedIDs mandatoryIDs profiles = None ->
  (forall p, In p profiles -> ~ In (pf_CandidateID p) excludedIDs /\ In (pf_CandidateID p) expectedIDs) /\
  forall id, In id mandatoryIDs -> exists p, In p profiles /\ pf_CandidateID p = id.
Proof.
  unfold validateTorProfileBatchAcknowledgement. destruct (first_error (check_profile _ _) _) eqn:E1; [done|].
  intros E2. split.
  - intros p Hp. pose proof (first_error_None _ _ E1 p Hp) as Hc. unfold check_profile in Hc.
    destruct (str_eqb _ _); [done|]. destruct (existsb _ excludedIDs) eqn:Ex; [done|].
    destruct (existsb _ expectedIDs) eqn:Ee; [|done]. split.
    + intros Hin. rewrite <- not_true_iff_false in Ex. apply Ex, existsb_exists.
      eexists. split; [exact Hin|apply str_eqb_refl].
    + apply existsb_exists in Ee as (x & Hx & He). apply str_eqb_eq in He. by subst.
  - intros id Hid. pose proof (first_error_None _ _ E2 id Hid) as Hc. cbn beta in Hc.
    destruct (str_eqb id EmptyString || _) eqn:E; [done|]. apply orb_false_iff in E as [_ E].
    apply negb_false_iff, existsb_exists in E as (p & Hp & He). apply str_eqb_eq in He. eauto.
Qed.

Lemma expected_requested l id : In id (retirementTorCandidateIDs l) ->
  In id (map pc_ID (torCandidatesFromStore l)).
Proof.
  unfold retirementTorCandidateIDs, torCandidatesFromStore. rewrite sort_slice_In, map_map. done.
Qed.

Lemma release_run env targets s w a w' : release_bridges env targets s w = (inr a, w') ->
  (forall t, In t (rb_TorCandidates s) -> ~ In (c_ID (tp_Candidate t)) targets) ->
  exists l, cw_calls w' = cw_calls w ++ l /\ released targets l.
Proof.
  intros Hr Hfree. unfold release_bridges in Hr. apply prog_bind_inr in Hr as (u & w1 & H1 & H2).
  apply or_compensate_run, prog_bind_inr in H1 as (answer & w2 & H1 & H3).
  apply reconcile_run in H1. apply ack_run in H3 as [A1 ->].
  apply or_compensate_run, prog_bind_inr in H2 as (profiles & w3 & [= <- <-] & H4).
  apply ack_run in H4 as [A2 ->]. cbn [cw_calls]. rewrite H1 in A2 |- *. rewrite <- app_assoc. eexists. split; [reflexivity|].
  apply batch_ack_None in A1 as [A1 _]. apply batch_ack_None in A2 as [A2 _].
  right. eexists [], _, _, _. split; [reflexivity|]. split.
  - intros q (t & <- & Ht)%in_map_iff. by apply Hfree.
  - intros p Hp. apply in_app_iff in Hp as [Hp|Hp]; [apply A1 in Hp as [? ?]|apply A2 in Hp as [? ?]];
      (split; [done|by apply expected_requested]).
Qed.

Lemma mandatory_In d refs id ids : references_of d = inr refs -> must_return d id ->
  forall seen, In id ids -> ~ In id seen -> In id (mandatory_targets d refs seen ids).
Proof.
  intros Href (Hne & r & Hr & Hkind & Hlife).
  assert (str_eqb (c_Kind (cr_candidate r)) KindTorBridge &&
    (has_lifecycle CandidateLifecycleActive r || bool_decide (id ∈ refs)) = true) as Hc.
  { rewrite Hkind, str_eqb_refl. cbn [andb]. unfold has_lifecycle. apply orb_true_iff.
    destruct Hlife as [->|(refs' & Hrefs & Hin)]; [by left|right].
    rewrite Href in Hrefs. injection Hrefs as <-. by apply bool_decide_eq_true. }
  induction ids as [|x ids IH]; intros seen Hin Hseen; [by destruct Hin|]. cbn [mandatory_targets].
  destruct (decide (x = id)) as [->|Hx].
  - destruct (str_eqb id EmptyString) eqn:E0; [apply str_eqb_eq in E0; done|].
    destruct (existsb (str_eqb id) seen) eqn:E1.
    { apply existsb_exists in E1 as (y & Hy & He). apply str_eqb_eq in He. by subst. }
    cbn [orb]. rewrite Hr, Hc. by left.
  - destruct Hin as [->|Hin]; [done|].
    destruct (str_eqb x EmptyString || existsb (str_eqb x) seen); [by apply IH|].
    assert (In id (mandatory_targets d refs (x :: seen) ids)) as Hrest
      by (apply IH; [done|intros [?|?]; contradiction]).
    destruct (candidates d !! x) as [rx|]; [|done].
    destruct (str_eqb (c_Kind (cr_candidate rx)) KindTorBridge && _); [by right|done].
Qed.

Lemma compensation_mandatory o ids d s d' : LoadTorCompensationSnapshot o ids d = (inr s, d') ->
  forall id, In id ids -> must_return d id -> In id (tor_MandatoryCandidateIDs s).
Proof.
  intros Hr id Hin Hm. unfold LoadTorCompensationSnapshot in Hr. run_in Hr.
  apply transaction_inr in Hr. apply bind_inr in Hr as (refs & d1 & Href & Hr). injection Href as Href <-.
  run_in Hr. unfold tor_snapshot in Hr. run_in Hr. run_in Hr.
  apply bind_inr in Hr as (items & d1 & Hi & Hr). injection Hi as _ <-. run_in Hr.
  apply ret_inr in Hr as [<- _]. cbn. apply sort_slice_In. apply mandatory_In; [done..|intros []].
Qed.

Lemma brought_back_app ids l1 l2 : brought_back ids l2 -> brought_back ids (l1 ++ l2).
Proof.
  intros [?|(pre & b & rq & an & af & s1 & s2 & -> & H)]; [by left|right].
  exists (l1 ++ pre), b, rq, an, af, s1, s2. by rewrite app_assoc.
Qed.

Lemma compensation_shown o ids d s d' : LoadTorCompensationSnapshot o ids d = (inr s, d') ->
  shows_profiles ids d s.
Proof.
  intros H. destruct o; [by exists d'|exfalso; revert H..]; unfold LoadTorCompensationSnapshot, bind, transaction;
    destruct (check _ _ d) as [[e|u] d1]; try done;
    by match goal with |- context [match ?m with _ => _ end] => destruct m as [[e|a] d2] end.
Qed.

Lemma compensate_run env ids n : forall w a w', compensate_attempts env n ids w = (inr a, w') ->
  exists l, cw_calls w' = cw_calls w ++ l /\ brought_back ids l.
Proof.
  induction n as [|n IH]; intros w a w' Hr; cbn [compensate_attempts] in Hr; [done|].
  apply prog_bind_inr in Hr as (s & w1 & H1 & Hr). apply ask_run in H1 as (o1 & d1 & C1 & H1).
  apply prog_bind_inr in Hr as (answer & w2 & H2 & Hr). apply reconcile_run in H2 as C2.
  apply prog_bind_inr in Hr as (u & w3 & H3 & Hr). apply ack_run in H3 as [A1 ->].
  apply prog_bind_inr in Hr as (s2 & w4 & H4 & Hr). apply ask_run in H4 as (o2 & d2 & C4 & H4).
  set (round := [Queried true d1; Reconciled (torCandidatesFromStore (tor_Candidates s)) (Some answer);
    Queried true d2]).
  assert (cw_calls w4 = cw_calls w ++ round) as C.
  { rewrite C4, C2, C1, <- !app_assoc. done. }
  destruct (snapshot_eq s s2) eqn:Esame.
  - injection Hr as <- <-. exists round. split; [done|]. right. eexists [], _, _, _, _, s, s2.
    split_and!; [reflexivity|by eapply compensation_shown|done|by eapply compensation_shown|done|].
    intros id Hid Hm. apply batch_ack_None in A1 as [_ A1]. apply A1.
    by eapply compensation_mandatory.
  - apply IH in Hr as (l & Cl & Hl). exists (round ++ l). split; [by rewrite Cl, C, app_assoc|].
    by apply brought_back_app.
Qed.

(** The bridges of a snapshot are not those that leave. *)
Lemma take_bridges request refs d js : forall acc result,
  fold_attempt (take_bridge request refs d) acc js = inr result ->
  (forall t, In t acc -> excluded request (c_ID (tp_Candidate t)) = false) ->
  forall t, In t result -> excluded request (c_ID (tp_Candidate t)) = false.
Proof.
  induction js as [|j js IH]; intros acc result Hr Hacc; cbn [fold_attempt] in Hr.
  { injection Hr as <-. done. }
  apply attempt_inr in Hr as (acc1 & Ht & Hr). eapply IH; [exact Hr|]. unfold take_bridge in Ht.
  destruct (kept_bridge request refs d j) eqn:E; [|injection Ht as <-; done].
  destruct (open_payload _ _); [|done]. injection Ht as <-. intros t [Hin|[<-|[]]]%in_app_iff; [by apply Hacc|].
  cbn. unfold kept_bridge in E. by apply andb_true_iff in E as [E%negb_true_iff _].
Qed.

Lemma snapshot_excludes o ids now retention d s d' :
  LoadCandidateRetirementBatchSnapshot o ids now retention d = (inr s, d') ->
  forall t, In t (rb_TorCandidates s) -> ~ In (c_ID (tp_Candidate t)) (tor_ids (rb_Candidates s)) \/
    c_ID (tp_Candidate t) = EmptyString.
Proof.
  intros Hr t Ht. unfold LoadCandidateRetirementBatchSnapshot in Hr. run_in Hr. run_in Hr.
  apply transaction_inr in Hr. unfold batch_snapshot in Hr. run_in Hr. run_in Hr.
  apply bind_inr in Hr as (refs & d2 & Href & Hr). injection Href as _ <-. run_in Hr.
  apply bind_inr in Hr as (tor & d2 & Htor & Hr). injection Htor as Htor <-.
  run_in Hr. apply ret_inr in Hr as [<- _]. cbn in Ht |- *. apply take_bridges with (t := t) in Htor; [|done..].
  unfold excluded in Htor. destruct (str_eqb (c_ID _) EmptyString) eqn:E; [right; by apply str_eqb_eq|left].
  intros Hin. cbn in Htor. apply orb_false_iff in Htor as [_ Htor]. rewrite <- not_true_iff_false in Htor.
  apply Htor, existsb_exists. eexists. split; [exact Hin|apply str_eqb_refl].
Qed.

Lemma eligible_nonempty now retention due l c :
  In c (List.filter (fun c => candidateRetirementSnapshotDue now retention (index_by c_ID due !! c_ID c) c) l) ->
  In c l /\ c_ID c <> EmptyString.
Proof.
  intros [Hin Hdue]%filter_In. split; [done|]. intros He. unfold candidateRetirementSnapshotDue in Hdue.
  destruct (_ !! _) as [x|]; [|done]. unfold candidateRetirementIdentityMatches in Hdue.
  rewrite He in Hdue. destruct (str_eqb (c_ID x) EmptyString); done.
Qed.

(** The batch was taken in full. *)
Definition in_full (batch : list Candidate) (result : StoreError + CandidateRetirementBatchResult) : bool :=
  match result with inr r => Nat.eqb (rr_ChangedCount r) (length batch) | inl _ => false end.

(** What a run has done to the calls. *)
Inductive handover (calls : list CollectorCall) (failed : bool) : Prop :=
  | nothing_advanced : existsb advances calls = false -> handover calls failed
  | batch_advanced pre batch result seen post :
      calls = pre ++ Advanced batch result seen :: post ->
      existsb advances (pre ++ post) = false -> released (tor_ids batch) pre ->
      (in_full batch result = false -> failed = false -> brought_back (tor_ids batch) post) ->
      handover calls failed.

Definition failed_run {A : Type} (x : CollectorError + A) : bool := match x with inl _ => true | inr _ => false end.

Lemma tried_run {A : Type} (m : Collector A) w x w' : tried m w = (x, w') ->
  exists y, x = inr y /\ m w = (y, w').
Proof. unfold tried. destruct (m w) as [y w1]. intros [= <- <-]. eauto. Qed.

Lemma finalize_run env eligible s now retention w x w' :
  finalize env (tor_ids eligible) eligible s now retention w = (x, w') ->
  exists result seen post, cw_calls w' = cw_calls w ++ Advanced eligible result seen :: post /\
    existsb advances post = false /\
    (in_full eligible result = false -> failed_run x = false -> brought_back (tor_ids eligible) post).
Proof.
  unfold finalize, advance. intros Hr. unfold bind at 1 in Hr.
  destruct (AdvanceCandidateRetirementBatch _ _ _ _ _ _ _ _ _) as [result d']. cbn zeta in Hr.
  fold (in_full eligible result) in Hr. set (w1 := w <| cw_db := _ |> <| cw_calls := _ |>) in Hr.
  assert (cw_calls w1 = cw_calls w ++ [Advanced eligible result (co_others env (cw_calls w) (cw_db w))]) as C1
    by by destruct w.
  clearbody w1. destruct (in_full eligible result) eqn:Efull.
  { injection Hr as <- <-. eexists _, _, []. split; [exact C1|]. split; [done|]. congruence. }
  unfold bind in Hr. destruct (tried _ w1) as [y w2] eqn:Et in Hr.
  destruct (tried_run _ _ _ _ Et) as (c & -> & Hc). destruct (Nat.eqb (length (tor_ids eligible)) 0) eqn:E0.
  - injection Hc as <- <-. eexists _, _, []. rewrite <- C1. split_and!; [|done|].
    + destruct result; by injection Hr as _ <-.
    + intros _ _. left. by destruct (tor_ids eligible).
  - destruct (calls_compensate env 3 (tor_ids eligible) _ _ _ Hc) as (l & Cl & Nl).
    eexists _, _, l. rewrite cons_middle, app_assoc, <- C1, <- Cl.
    split_and!; [|done|].
    + destruct result, c; by injection Hr as _ <-.
    + intros _ Hx. destruct c as [e|u].
      { destruct result; injection Hr as <- _; done. }
      apply compensate_run in Hc as (l' & Cl' & Hb). rewrite Cl in Cl'. apply app_inv_head in Cl'. by subst.
Qed.

Lemma collect_run env due s now retention w x w' o d d1 :
  LoadCandidateRetirementBatchSnapshot o (map c_ID due) now retention d = (inr s, d1) ->
  let eligible := List.filter (fun c =>
    candidateRetirementSnapshotDue now retention (index_by c_ID due !! c_ID c) c) (rb_Candidates s) in
  let targets := tor_ids eligible in
  ((if Nat.eqb (length targets) 0 then ret tt else release_bridges env targets s) ;;;
   finalize env targets eligible s now retention) w = (x, w') ->
  exists l, cw_calls w' = cw_calls w ++ l /\ handover l (failed_run x).
Proof.
  intros Hs eligible targets Hr. unfold bind in Hr.
  set (m := if Nat.eqb (length targets) 0 then ret tt else release_bridges env targets s) in Hr.
  assert (quietly m) as Hq by (apply calls_if; [apply calls_ret|apply calls_release]).
  destruct (m w) as [r w1] eqn:E1.
  destruct (Hq _ _ _ E1) as (pre & C1 & N1). destruct r as [e|u].
  { injection Hr as <- <-. exists pre. split; [done|by constructor]. }
  apply finalize_run in Hr as (result & seen & post & C2 & N2 & Hback).
  exists (pre ++ Advanced eligible result seen :: post). split; [by rewrite C2, C1, app_assoc|].
  eapply batch_advanced; [reflexivity|by rewrite existsb_app, N1, N2| |exact Hback].
  unfold m in E1. destruct (Nat.eqb (length targets) 0) eqn:E0 in E1;
    [left; apply Nat.eqb_eq, length_zero_iff_nil in E0; exact E0|].
  apply release_run in E1 as (l & Cl & Hl).
  - rewrite C1 in Cl. apply app_inv_head in Cl. by subst.
  - intros t Ht Hin. pose proof Hin as (c & Hc & Hin')%in_map_iff. apply filter_In in Hin' as [Hin' Hkind].
    apply eligible_nonempty in Hin' as [Hsel Hne].
    destruct (snapshot_excludes _ _ _ _ _ _ _ Hs t Ht) as [Hn|He]; [|congruence].
    apply Hn. rewrite <- Hc. apply in_map, filter_In. done.
Qed.

Lemma run_steps {A B : Type} (m : Collector A) (k : A -> Collector B) w x w' : quietly m ->
  bind m k w = (x, w') ->
  exists l, existsb advances l = false /\
    ((exists w1, cw_calls w1 = cw_calls w ++ l /\ exists a, m w = (inr a, w1) /\ k a w1 = (x, w')) \/
     cw_calls w' = cw_calls w ++ l /\ failed_run x = true).
Proof.
  intros Hm Hr. unfold bind in Hr. destruct (m w) as [[e|a] w1] eqn:E; destruct (Hm _ _ _ E) as (l & C & N);
    exists l; (split; [done|]).
  - right. by injection Hr as <- <-.
  - left. eauto 8.
Qed.

Lemma handover_after calls l failed : existsb advances l = false ->
  handover calls failed -> handover (l ++ calls) failed.
Proof.
  intros N [N2|pre batch result seen post -> N2 Hrel Hback].
  - apply nothing_advanced. by rewrite existsb_app, N.
  - eapply batch_advanced; [by rewrite app_assoc|by rewrite <- app_assoc, existsb_app, N| |exact Hback].
    destruct Hrel as [?|(pre1 & rq & an & pf & -> & H)]; [by left|right].
    exists (l ++ pre1), rq, an, pf. by rewrite app_assoc.
Qed.

(** C27.  Bridges are handed over.  Whatever the store, its other writers and the Tor pool
    answer, a run of the collector advances at most one batch.  When bridges are in it,
    the pool was asked before for other bridges only and answered twice that it has no
    profile of a bridge that leaves and none that it was not asked for.  When the batch
    was not advanced in full and the run reports no error, the pool was asked since for the
    bridges that the store then had to keep, has answered with a profile for each of those
    of the batch that is still active or in use, and a second reading of the store after
    that answer showed the same bridges, obligations, plan generations, inventory epoch
    and digest as the reading before the request. *)
Theorem bridges_are_handed_over env now retention w :
  exists calls, cw_calls (Run env now retention w).2 = cw_calls w ++ calls /\
    handover calls (failed_run (Run env now retention w).1).
Proof.
  destruct (Run env now retention w) as [x w'] eqn:Hr. cbn [fst snd]. unfold Run in Hr.
  assert (forall (A : Type) (m : Collector A) (k : A -> Collector unit) w1, quietly m ->
    bind m k w1 = (x, w') ->
    (forall a w2, m w1 = (inr a, w2) -> k a w2 = (x, w') ->
       exists calls, cw_calls w' = cw_calls w2 ++ calls /\ handover calls (failed_run x)) ->
    exists calls, cw_calls w' = cw_calls w1 ++ calls /\ handover calls (failed_run x)) as step.
  { intros A m k w1 Hm Hb Hk. destruct (run_steps _ _ _ _ _ Hm Hb) as
      (l & N & [(w2 & C & a & E & Ha)|[C _]]); [|exists l; split; [done|by constructor]].
    destruct (Hk a w2 E Ha) as (calls & Cc & Hh). exists (l ++ calls).
    split; [by rewrite Cc, C, app_assoc|by apply handover_after]. }
  eapply step; [apply calls_check|exact Hr|clear Hr; intros u w1 _ Hr].
  eapply step; [apply calls_check|exact Hr|clear Hr; intros u2 w2 _ Hr].
  eapply step; [apply calls_page|exact Hr|clear Hr; intros due w3 _ Hr].
  cbn beta in Hr. destruct (last due) as [c|] in Hr; [|injection Hr as <- <-; exists []; rewrite app_nil_r; split; [done|by constructor]].
  eapply step; [apply calls_cursor|exact Hr|clear Hr; intros u4 w4 _ Hr].
  eapply step; [apply calls_ask|exact Hr|clear Hr; intros s w5 Hs Hr].
  apply ask_run in Hs as (o & d & _ & Hs).
  cbn beta in Hr. destruct (negb _) in Hr;
    [injection Hr as <- <-; exists []; rewrite app_nil_r; split; [done|by constructor]|].
  cbn zeta in Hr. destruct (Nat.eqb (length (List.filter _ _)) 0) in Hr;
    [injection Hr as <- <-; exists []; rewrite app_nil_r; split; [done|by constructor]|].
  by eapply collect_run.
Qed.
End Handover.
