(* ===== verification/InventoryRuns.v ===== *)
(** Runs of the inventory (Inventory.v, Retirement.v): what one operation does to one
    candidate, and what stays true of all of them. *)
From Stdlib Require Import Floats.
From S2P Require Import Prelude Effects GoOrder GoStrings GoSort Sha256 QoE DataPlan Gateway Handlers StoreTables StoreLogic RouteRecovery PlanStore RoutingSnapshot CandidateState Observations Inventory TorProfiles Retirement.

#[local] Open Scope Z_scope.
#[local] Open Scope effect_scope.

(** ** Operations *)

Inductive InventoryOp :=
  | InvImport (seal : Seals) (now : Time) (items : list PreviewItem)
  | InvUpdate (now : Time) (id label : string) (enabled : bool)
  | InvDelete (now : Time) (id : string) (grace : option Duration)
  | InvFailure (now : Time) (id message : string)
  | InvReplace (seal : Seals) (now : Time) (source : string) (inputs : list CandidateInput)
      (grace : option Duration)
  | InvRetire (clock : Z) (id : string) (generation epoch : Z) (digest : string) (now : Time)
      (retention : Duration)
  | InvRetireBatch (clock : Z) (expected : list Candidate) (generation epoch : Z) (digest : string)
      (now : Time) (retention : Duration)
  | InvElsewhere (f : Database -> Database).

(** What is done elsewhere: plans, assignments and observations come and go, the
    inventory stays. *)
Definition off_inventory (f : Database -> Database) (d : Database) : Database :=
  (f d) <| candidates := candidates d |> <| sources := sources d |>
        <| inventory_epoch := inventory_epoch d |>.

Section Steps.
Context `{JS : Json} `{VA : Vault} `{RC : RetirementCodec}.

Definition inv_step (o : Outcome) (op : InventoryOp) (d : Database) : Database :=
  match op with
  | InvImport seal now items => (ImportSources o seal now items d).2
  | InvUpdate now id label enabled => (UpdateSource o now id label enabled d).2
  | InvDelete now id grace => (DeleteSource o now id grace d).2
  | InvFailure now id message => (RecordRefreshFailure o now id message d).2
  | InvReplace seal now source inputs grace => (ReplaceCandidates o seal now source inputs grace d).2
  | InvRetire clock id generation epoch digest now retention =>
      (AdvanceCandidateRetirement o clock id generation epoch digest now retention d).2
  | InvRetireBatch clock expected generation epoch digest now retention =>
      (AdvanceCandidateRetirementBatch o clock expected generation epoch digest now retention d).2
  | InvElsewhere f => off_inventory f d
  end.

Fixpoint inv_run (ops : list (Outcome * InventoryOp)) (d : Database) : Database :=
  match ops with
  | [] => d
  | (o, op) :: ops => inv_run ops (inv_step o op d)
  end.

(** ** One statement on one row *)

Lemma lookup_update_where {A : Type} cond (f : A -> A) m k :
  update_where cond f m !! k = (fun x => if cond k x then f x else x) <$> m !! k.
Proof. unfold update_where. rewrite map_lookup_imap. by destruct (m !! k). Qed.

Lemma affected_zero {A : Type} cond (m : gmap string A) : affected cond m = 0%nat <->
  forall k x, m !! k = Some x -> cond k x = false.
Proof.
  unfold affected. split.
  - intros Hl k x Hk. apply nil_length_inv in Hl. rewrite filter_none in Hl.
    apply (Hl (k, x)). by apply list_elem_of_In, elem_of_map_to_list.
  - intros Hn. rewrite (proj2 (filter_none _ _)); [done|]. intros [k x] Hin.
    apply list_elem_of_In, elem_of_map_to_list in Hin. by apply Hn.
Qed.

(** ** Listing the candidates of a source *)

Lemma replace_one_run seal now source seen position input d seen' d' :
  replace_one seal now source seen (position, input) d = (inr seen', d') ->
  let id := candidate_id source (ci_Fingerprint input) in
  id ∉ seen /\ seen' = seen ++ [id] /\
  exists encrypted c, c = listed_candidate now source id position input
                            (cr_candidate <$> candidates d !! id) /\
    (forall k r, candidates d !! k = Some r -> collides c k r = false) /\
    d' = set_candidates <[id := {| cr_candidate := c; cr_encrypted := encrypted |}]> d.
Proof.
  cbn zeta. intros Hr. unfold replace_one in Hr. run_all Hr.
  split; [intros Hin|]; [|split; [done|]].
  - apply negb_true_iff in Hcheck0. rewrite <- not_true_iff_false in Hcheck0. apply Hcheck0.
    apply existsb_exists. eexists. split; [by apply list_elem_of_In|apply str_eqb_refl].
  - eexists _, _. split_and!; [done| |done]. apply Nat.eqb_eq in Hcheck1. by apply affected_zero.
Qed.

(** A row as a refresh writes it. *)
Definition relisted (now : Z) (source id : string) (old : option CandidateRow) (r : CandidateRow) :
    Prop :=
  exists position input encrypted, id = candidate_id source (ci_Fingerprint input) /\
    r = {| cr_candidate := listed_candidate now source id position input (cr_candidate <$> old);
           cr_encrypted := encrypted |}.

Lemma listed_run seal now source l : forall seen d seen' d',
  foldM (replace_one seal now source) seen l d = (inr seen', d') ->
  exists ids, seen' = seen ++ ids /\ d' = set_candidates (fun _ => candidates d') d /\
    (forall k, k ∈ ids -> k ∉ seen) /\
    (forall k, k ∉ ids -> candidates d' !! k = candidates d !! k) /\
    (forall k, k ∈ ids -> exists r, candidates d' !! k = Some r /\
       relisted now source k (candidates d !! k) r).
Proof.
  induction l as [|[position input] l IH]; intros seen d seen' d' Hr; cbn [foldM] in Hr.
  { apply ret_inr in Hr as [<- ->]. exists []. rewrite app_nil_r. split_and!; try set_solver.
    by destruct d. }
  apply bind_inr in Hr as (seen1 & d1 & H1 & Hr).
  apply replace_one_run in H1 as (Hn & -> & encrypted & c & Hc & Hcol & ->).
  set (id := candidate_id source (ci_Fingerprint input)) in *.
  apply IH in Hr as (ids & -> & Hd & Hfresh & Hkeep & Hnew).
  exists (id :: ids). split_and!.
  - by rewrite <- app_assoc.
  - rewrite Hd at 1. by destruct d.
  - intros k [->|Hk]%elem_of_cons; [done|]. specialize (Hfresh k Hk). set_solver.
  - intros k Hk. apply not_elem_of_cons in Hk as [Hk1 Hk2]. rewrite Hkeep by done.
    destruct d; simpl. by apply lookup_insert_ne.
  - intros k [->|Hk]%elem_of_cons.
    + destruct (decide (id ∈ ids)) as [Hin|Hin]; [specialize (Hfresh id Hin); set_solver|].
      rewrite Hkeep by done. eexists. split; [destruct d; apply lookup_insert_eq|].
      exists position, input, encrypted. by rewrite Hc.
    + destruct (decide (k = id)) as [->|Hne]; [specialize (Hfresh id Hk); set_solver|].
      destruct (Hnew k Hk) as (r & Hr1 & Hr2). exists r. split; [done|].
      assert (candidates (set_candidates <[id:={| cr_candidate := c; cr_encrypted := encrypted |}]> d) !! k =
        candidates d !! k) as <- by (destruct d; by apply lookup_insert_ne). done.
Qed.

(** What a refresh leaves of a candidate. *)
Lemma replace_run seal now grace source inputs d u d' :
  replace_candidates seal now grace source inputs d = (inr u, d') ->
  exists ids : list string, (forall k, k ∈ ids -> exists r, candidates d' !! k = Some r /\
                 relisted now source k (candidates d !! k) r) /\
    (forall k, k ∉ ids -> candidates d' !! k =
       (fun r => if of_source source r && has_lifecycle CandidateLifecycleActive r
                 then set_candidate (start_drain now grace) r else r) <$> candidates d !! k) /\
    (exists s, sources d !! source = Some s /\ so_pending_delete s = false) /\
    sources d' = alter (refreshed_source now (length inputs)) source (sources d) /\
    inventory_epoch d' = inventory_epoch d + 1.
Proof.
  intros Hr. unfold replace_candidates in Hr. run_in Hr. run_in Hr. run_in Hr.
  apply bind_inr in Hr as (seen & d1 & Hl & Hr). apply listed_run in Hl as (ids & -> & Hd & _ & Hkeep & Hnew).
  cbn [app] in Hr. unfold incrementInventoryEpochTx in Hr. run_all Hr. exists ids.
  set (f := refreshed_source now (length inputs)).
  assert (forall k : string, k ∈ ids <-> existsb (str_eqb k) ids = true) as Hids.
  { intros k. rewrite existsb_exists. split.
    - intros Hk. exists k. split; [by apply list_elem_of_In|apply str_eqb_refl].
    - intros (x & Hx & E). str_bool. subst. by apply list_elem_of_In. }
  assert (forall k : string, candidates (set_sources (alter f source) (drain_source now grace source ids d1)) !! k =
    (fun r => if of_source source r && negb (existsb (str_eqb k) ids) && has_lifecycle CandidateLifecycleActive r
              then set_candidate (start_drain now grace) r else r) <$> candidates d1 !! k) as Hcand.
  { intros k. destruct d1; simpl. apply lookup_update_where. }
  split_and!.
  - intros k Hk. destruct (Hnew k Hk) as (r & Hr1 & Hr2). exists r. split; [|done].
    etransitivity; [apply Hcand|]. rewrite Hr1. simpl. rewrite (proj1 (Hids k) Hk). cbn [negb].
    by rewrite andb_false_r.
  - intros k Hk. etransitivity; [apply Hcand|]. rewrite Hkeep by done.
    destruct (candidates d !! k) as [r|]; [|done]. simpl.
    destruct (existsb (str_eqb k) ids) eqn:E; [by apply Hids in E|]. cbn [negb]. by rewrite andb_true_r.
  - exists a. split; [done|]. by apply negb_true_iff.
  - rewrite Hd. by destruct d.
  - rewrite Hd. by destruct d.
Qed.

(** ** Sources *)

(** The sources after an import: none is lost, and what is not taken back stays. *)
Record imported (d d' : Database) (restored : Z) : Prop := {
  im_candidates : candidates d' = candidates d;
  im_epoch : inventory_epoch d' = inventory_epoch d;
  im_kept : forall id s, sources d !! id = Some s -> exists s', sources d' !! id = Some s' /\
    (s' = s \/ so_pending_delete s = true /\ so_pending_delete s' = false /\
               so_created_at s' = so_created_at s);
  im_new : forall id s', sources d' !! id = Some s' -> is_Some (sources d !! id) \/
    so_pending_delete s' = false;
  im_pending : restored = 0 -> forall id s, sources d !! id = Some s -> sources d' !! id = Some s
}.

Lemma imported_refl d : imported d d 0.
Proof. split; try done; eauto. Qed.

Lemma imported_trans d1 d2 d3 r1 r2 : 0 <= r1 -> 0 <= r2 -> imported d1 d2 r1 -> imported d2 d3 r2 ->
  imported d1 d3 (r1 + r2).
Proof.
  intros P1 P2 [A1 A2 A3 A4 A5] [B1 B2 B3 B4 B5]. split; try congruence.
  - intros id s Hs. destruct (A3 id s Hs) as (s1 & H1 & E1). destruct (B3 id s1 H1) as (s2 & H2 & E2).
    exists s2. split; [done|]. destruct E1 as [->|(? & ? & ?)], E2 as [->|(? & ? & ?)]; auto; right;
      split_and!; congruence.
  - intros id s' Hs'. destruct (B4 id s' Hs') as [[s1 H1]|?]; [|by right].
    destruct (A4 id s1 H1) as [?|Hp]; [by left|]. destruct (B3 id s1 H1) as (s2 & H2 & E2).
    rewrite Hs' in H2. injection H2 as <-. right. destruct E2 as [->|(? & ? & ?)]; congruence.
  - intros Hr id s Hs. apply B5; [lia|]. apply A5; [lia|done].
Qed.

Definition fingerprints_unique (d : Database) : Prop :=
  forall i j s t, sources d !! i = Some s -> sources d !! j = Some t ->
    so_fingerprint s = so_fingerprint t -> i = j.

Lemma affected_one {A : Type} cond (m : gmap string A) :
  (forall i j x y, m !! i = Some x -> m !! j = Some y -> cond i x = true -> cond j y = true -> i = j) ->
  (affected cond m <= 1)%nat.
Proof.
  intros Hu. unfold affected. pose proof (NoDup_fst_map_to_list m) as Hnd.
  assert (forall k x, (k, x) ∈ map_to_list m -> m !! k = Some x) as Hm
    by (intros k x; apply elem_of_map_to_list).
  revert Hnd Hm. generalize (map_to_list m). intros l.
  induction l as [|[k x] l IH]; intros Hnd Hm; simpl; [lia|].
  apply NoDup_cons in Hnd as [Hn Hnd].
  destruct (cond k x) eqn:E; [|apply IH; [done|]; intros; apply Hm; by right]. simpl.
  rewrite (proj2 (filter_none _ _)); [done|]. intros [k' x'] Hin. apply list_elem_of_In in Hin.
  destruct (cond k' x') eqn:E'; [|done]. exfalso. apply Hn.
  assert (k = k') as ->.
  { eapply Hu; [apply Hm; by left|apply Hm; right; exact Hin|done|done]. }
  apply list_elem_of_fmap. by exists (k', x').
Qed.

Lemma restored_once item d : fingerprints_unique d ->
  (affected (restorable item) (sources d) <= 1)%nat.
Proof.
  intros Hu. apply affected_one. intros i j s t Hs Ht Ei Ej. unfold restorable in *.
  split_bool. str_bool. eapply Hu; [done..|congruence].
Qed.

Lemma restored_run now item encrypted d :
  let d' := set_sources (update_where (restorable item) (restored_source now item encrypted)) d in
  (fingerprints_unique d -> fingerprints_unique d') /\ imported d d' 1.
Proof.
  cbn zeta. set (d' := set_sources _ d).
  assert (forall k, sources d' !! k = (fun s => if restorable item k s
    then restored_source now item encrypted s else s) <$> sources d !! k) as Hl
    by (intros k; unfold d'; destruct d; simpl; apply lookup_update_where).
  split; [|split; try by destruct d].
  - intros Hu i j s t. rewrite !Hl. intros Hs Ht Hf.
    apply fmap_Some in Hs as (s0 & Hs & ->). apply fmap_Some in Ht as (t0 & Ht & ->).
    apply (Hu i j s0 t0); [done..|]. revert Hf. by do 2 case_match; destruct s0, t0.
  - intros k s Hs. rewrite Hl, Hs. eexists. split; [reflexivity|].
    unfold restorable. destruct (str_eqb _ _); [|by left]. cbn [andb].
    destruct (so_pending_delete s) eqn:E; [|by left]. right. by destruct s.
  - intros k s'. rewrite Hl. intros (s & Hs & _)%fmap_Some. left. by exists s.
Qed.

Lemma inserted_run id s d : sources d !! id = None -> so_pending_delete s = false ->
  (forall k t, sources d !! k = Some t -> so_fingerprint t <> so_fingerprint s) ->
  let d' := set_sources <[id := s]> d in
  (fingerprints_unique d -> fingerprints_unique d') /\ imported d d' 0.
Proof.
  intros Hid Hp Hf. cbn zeta. split.
  - intros Hu i j x y. destruct d; simpl in *. rewrite !lookup_insert_Some.
    intros [[<- <-]|[Hi Hx]] [[<- <-]|[Hj Hy]] He; [done| | |by eapply Hu].
    + by destruct (Hf _ _ Hy).
    + by destruct (Hf _ _ Hx).
  - split; try by destruct d.
    + intros k t Ht. assert (id <> k) by congruence. exists t. split; [|by left].
      destruct d; simpl in *. by rewrite lookup_insert_ne.
    + intros k t. destruct d; simpl in *. rewrite lookup_insert_Some. intros [[<- <-]|[_ Ht]]; [by right|].
      left. by exists t.
    + intros _ k t Ht. destruct d; simpl in *. rewrite lookup_insert_ne by congruence. done.
Qed.

Lemma set_sources_same f d : f (sources d) = sources d -> set_sources f d = d.
Proof. intros Hf. unfold set_sources. destruct d; simpl in *. by rewrite Hf. Qed.

Lemma import_item_run seal now result x d result' d' : fingerprints_unique d ->
  import_item seal now result x d = (inr result', d') ->
  fingerprints_unique d' /\ Restored result <= Restored result' /\
  imported d d' (Restored result' - Restored result).
Proof.
  intros Hu Hr. destruct x as [i item]. unfold import_item in Hr.
  assert (imported d d (Restored (result <| Skipped := Skipped result + 1 |>) - Restored result)) as Hskip
    by (destruct result; cbn; rewrite Z.sub_diag; apply imported_refl).
  destruct (importable item); cbn [negb] in Hr;
    [|apply ret_inr in Hr as [<- ->]; split_and!; [done|by destruct result|done]].
  set (id := source_id item) in *. run_in Hr. run_in Hr. run_in Hr.
  pose proof (restored_once item d Hu) as Hone.
  set (update := update_where _ _) in Hr.
  destruct (Nat.eqb (affected (restorable item) (sources d)) 1) eqn:E1; cbn [negb] in Hr.
  - apply ret_inr in Hr as [<- ->]. destruct (restored_run now item a d) as [H1 H2].
    split_and!; [by apply H1|destruct result; simpl; lia|].
    replace (_ - _) with 1 by (destruct result; simpl; lia). exact H2.
  - apply Nat.eqb_neq in E1.
    assert (set_sources update d = d) as Hsame.
    { assert (affected (restorable item) (sources d) = 0%nat) as Hz by lia.
      apply set_sources_same, map_eq. intros k. unfold update. rewrite lookup_update_where.
      destruct (sources d !! k) as [s|] eqn:E; [|done]. simpl.
      by rewrite (proj1 (affected_zero _ _) Hz k s E). }
    rewrite Hsame in Hr. run_in Hr.
    destruct (Nat.eqb _ 0) eqn:E0 in Hr;
      [|apply ret_inr in Hr as [<- ->]; split_and!; [done|by destruct result|done]].
    apply Nat.eqb_eq in E0. run_all Hr. rewrite bool_decide_eq_true in Hcheck.
    destruct (inserted_run id (new_source now item a) d) as [H1 H2]; [done..| |].
    { intros k t Ht Hf. pose proof (proj1 (affected_zero _ _) E0 k t Ht) as Hn.
      unfold same_fingerprint in Hn. str_bool. by apply Hn. }
    split_and!; [by apply H1|by destruct result|].
    replace (_ - _) with 0 by (destruct result; simpl; lia). exact H2.
Qed.

Lemma import_items_run seal now l : forall result d result' d', fingerprints_unique d ->
  foldM (import_item seal now) result l d = (inr result', d') ->
  fingerprints_unique d' /\ Restored result <= Restored result' /\ imported d d' (Restored result' - Restored result).
Proof.
  induction l as [|x l IH]; intros result d result' d' Hu Hr; cbn [foldM] in Hr.
  { apply ret_inr in Hr as [<- ->]. rewrite Z.sub_diag. split_and!; [done|lia|apply imported_refl]. }
  apply bind_inr in Hr as (r1 & d1 & H1 & Hr). apply import_item_run in H1 as (U1 & L1 & I1); [|done].
  apply IH in Hr as (U2 & L2 & I2); [|done]. split_and!; [done|lia|].
  replace (Restored result' - Restored result) with
    ((Restored r1 - Restored result) + (Restored result' - Restored r1)) by lia.
  eapply imported_trans; [lia|lia|done..].
Qed.

Lemma import_candidates seal now items d a d' : import_items seal now items d = (inr a, d') ->
  candidates d' = candidates d.
Proof.
  assert (PreOrder (fun d d' : Database => candidates d' = candidates d)) as Hpre.
  { split; [done|]. intros x y z -> ->. done. }
  revert d a d'. change (leaves (fun d d' : Database => candidates d' = candidates d)
    (import_items seal now items)).
  unfold import_items, incrementInventoryEpochTx. leaves; try (by destruct d).
  unfold import_item. leaves; by destruct d.
Qed.

Lemma update_source_run id cond f d u d' : update_source id cond f d = (inr u, d') ->
  exists s, sources d !! id = Some s /\ cond s = true /\ d' = set_sources <[id := f s]> d.
Proof. intros Hr. unfold update_source, requireAffected in Hr. run_all Hr. eauto. Qed.

Lemma set_sources_candidates f d : candidates (set_sources f d) = candidates d.
Proof. by destruct d. Qed.
Lemma epoch_candidates d e : candidates (d <| inventory_epoch := e |>) = candidates d.
Proof. by destruct d. Qed.

(** ** Advancing a candidate *)

(** The deadlines of a row have passed. *)
Definition drained (now : Time) (r : CandidateRow) : Prop :=
  c_Lifecycle (cr_candidate r) = CandidateLifecycleDraining /\
  exists t, c_DrainAfter (cr_candidate r) = Some t /\ t <= time_unix now.
Definition expired (now : Time) (retention : Duration) (r : CandidateRow) : Prop :=
  c_Lifecycle (cr_candidate r) = CandidateLifecycleRetired /\
  exists t, c_RetiredAt (cr_candidate r) = Some t /\ t <= retention_deadline now retention.

Lemma due_iff now retention r : candidateRetirementDue now retention (cr_candidate r) = true <->
  drained now r \/ expired now retention r.
Proof.
  unfold candidateRetirementDue, drained, expired.
  destruct (str_eqb (c_Lifecycle _) CandidateLifecycleDraining) eqn:E1; str_bool.
  - rewrite E1. split.
    + destruct (c_DrainAfter _) as [t|]; [|done]. intros Ht%Z.leb_le. left. eauto.
    + intros [[_ (t & -> & Ht)]|[? _]]; [by apply Z.leb_le|done].
  - destruct (str_eqb (c_Lifecycle _) CandidateLifecycleRetired) eqn:E2; str_bool.
    + split.
      * destruct (c_RetiredAt _) as [t|]; [|done]. intros Ht%Z.leb_le. right. eauto.
      * intros [[? _]|[_ (t & -> & Ht)]]; [done|by apply Z.leb_le].
    + split; [done|]. by intros [[? _]|[? _]].
Qed.

Lemma retire_run now id d u d' : retire_candidate now id d = (inr u, d') ->
  exists r, candidates d !! id = Some r /\ drained now r /\
    d' = set_candidates <[id := set_candidate (retire now) r]> d.
Proof.
  intros Hr. unfold retire_candidate, requireAffected in Hr. run_all Hr. exists a.
  split_and!; [done| |done]. split_bool. unfold has_lifecycle in *. str_bool. split; [done|].
  destruct (c_DrainAfter _) as [t|]; [|done]. exists t. split; [done|]. by apply Z.leb_le.
Qed.

(** What deleting a candidate leaves of its source. *)
Definition source_after (c : Candidate) (d d' : Database) : Prop :=
  (forall k, k <> c_SourceID c -> sources d' !! k = sources d !! k) /\
  (sources d' !! c_SourceID c = sources d !! c_SourceID c /\
   (from_option so_pending_delete false (sources d !! c_SourceID c) = true ->
    exists k r, candidates d' !! k = Some r /\ c_SourceID (cr_candidate r) = c_SourceID c) \/
   sources d' !! c_SourceID c = None /\
   from_option so_pending_delete false (sources d !! c_SourceID c) = true /\
   forall k r, candidates d' !! k = Some r -> c_SourceID (cr_candidate r) <> c_SourceID c).

Lemma affected_some {A : Type} cond (m : gmap string A) : affected cond m <> 0%nat ->
  exists k x, m !! k = Some x /\ cond k x = true.
Proof.
  intros Hn. unfold affected in Hn. destruct (List.filter _ _) as [|[k x] l] eqn:E; [done|].
  assert (In (k, x) (List.filter (fun '(k, x) => cond k x) (map_to_list m))) as Hin
    by (rewrite E; by left).
  apply filter_In in Hin as [Hin Hc]. exists k, x. split; [|done].
  by apply elem_of_map_to_list, list_elem_of_In.
Qed.

Lemma delete_run clock c d u d' : deleteCandidateRetirementStateTx clock c d = (inr u, d') ->
  exists r, candidates d !! c_ID c = Some r /\
    c_Lifecycle (cr_candidate r) = CandidateLifecycleRetired /\
    candidates d' = delete (c_ID c) (candidates d) /\ inventory_epoch d' = inventory_epoch d /\
    source_after c d d'.
Proof.
  intros Hr. unfold deleteCandidateRetirementStateTx, requireAffected in Hr. cbn zeta in Hr.
  run_in Hr. run_in Hr. run_in Hr. run_in Hr. run_in Hr. apply modify_inr in Hr. subst d'.
  set (d1 := _ <| candidate_qoe_state := _ |>).
  exists a0. split; [by destruct d|]. unfold has_lifecycle in *. str_bool. split; [done|].
  assert (candidates d1 = delete (c_ID c) (candidates d)) as Hc by (unfold d1; by destruct d).
  assert (sources d1 = sources d) as Hs by (unfold d1; by destruct d).
  assert (inventory_epoch d1 = inventory_epoch d) as He by (unfold d1; by destruct d).
  clearbody d1. unfold source_after. rewrite Hs. destruct (sources d !! c_SourceID c) as [s|] eqn:E.
  2:{ split_and!; try done; [by intros; rewrite Hs|]. left. by rewrite Hs. }
  cbn [from_option]. destruct (so_pending_delete s) eqn:Ep; cbn [andb].
  2:{ split_and!; try done; [by intros; rewrite Hs|]. left. by rewrite Hs. }
  destruct (Nat.eqb _ 0) eqn:E0; split_and!; try (by destruct d1); try (intros; by rewrite Hs).
  - intros k Hk. destruct d1; simpl in *. rewrite Hs. by apply lookup_delete_ne.
  - right. apply Nat.eqb_eq in E0. split_and!; [destruct d1; apply lookup_delete_eq|done|].
    intros k r Hk. assert (candidates d1 !! k = Some r) as Hk' by by destruct d1.
    pose proof (proj1 (affected_zero _ _) E0 k r Hk') as Hn. unfold of_source in Hn. by str_bool.
  - left. rewrite Hs. split; [done|]. intros _. apply Nat.eqb_neq, affected_some in E0 as (k & r & Hk & Hf).
    exists k, r. unfold of_source in Hf. by str_bool.
Qed.
End Steps.
