(* ===== verification/RetirementSafety.v ===== *)
(** The life of a candidate (InventoryRuns.v): it drains when its source does not list
    it any more, is retired after its grace, deleted after its retention, and neither
    while a plan, an assignment, a reserve or the working pool names it. *)
From Stdlib Require Import Floats.
From S2P Require Import Prelude Effects GoOrder GoStrings GoSort Sha256 QoE DataPlan Gateway Handlers StoreTables StoreLogic RouteRecovery PlanStore RoutingSnapshot CandidateState Observations Inventory TorProfiles Retirement InventoryRuns.

#[local] Open Scope Z_scope.
#[local] Open Scope effect_scope.

Section Life.
Context `{JS : Json} `{VA : Vault} `{RC : RetirementCodec}.

(** ** What is in use *)

(** A plan that is stored, under its generation. *)
Definition stored_plan (d : Database) (p : DesiredPlan) : Prop :=
  exists encoded generation persisted,
    ((encoded, generation) = (blob (desired_plan (plan_state d)), desired_generation (plan_state d)) \/
     (encoded, generation) = (blob (applied_plan (plan_state d)), applied_generation (plan_state d))) /\
    0 < generation /\ decode_persisted encoded = Some persisted /\ complete_plan persisted = Some p.

Inductive in_use (d : Database) (id : string) : Prop :=
  | used_by_plan p o : stored_plan d p -> In o (Outbounds p) -> outbound_candidate o = Some (ID o, id) ->
      in_use d id
  | used_by_assignment k a : assignments d !! k = Some a -> id <> EmptyString ->
      ar_tcp_outbound a = id \/ ar_udp_outbound a = id -> in_use d id
  | used_by_reserve k r : desired_reserves d !! k = Some r \/ applied_reserves d !! k = Some r ->
      id <> EmptyString -> In id (mapped_candidates r.2) -> in_use d id
  | used_by_pool k r : candidate_probe_state d !! k = Some r -> pr_in_working_pool r || pr_draining r = true ->
      id <> EmptyString -> pr_candidate_id r = id -> in_use d id.

(** The identifier is its own normal form: it carries no suffix of a handler. *)
Definition plain (id : string) : Prop := normalizePersistedCandidateID id = id.

Lemma referring_In d s : In s (referring_columns d) <-> s <> EmptyString /\
  ((exists k a, assignments d !! k = Some a /\ (ar_tcp_outbound a = s \/ ar_udp_outbound a = s)) \/
   (exists k r, desired_reserves d !! k = Some r /\ In s (mapped_candidates r.2)) \/
   (exists k r, applied_reserves d !! k = Some r /\ In s (mapped_candidates r.2)) \/
   (exists k r, candidate_probe_state d !! k = Some r /\ pr_in_working_pool r || pr_draining r = true /\
      pr_candidate_id r = s)).
Proof.
  assert (forall (A B : Type) (m : gmap string A) (f : A -> list B) x,
    In x (flat_map (fun '(_, a) => f a) (map_to_list m)) <-> exists k a, m !! k = Some a /\ In x (f a)) as Hm.
  { intros A B m f x. rewrite in_flat_map. split.
    - intros ([k a] & Hin & Hx). exists k, a. split; [|done].
      by apply elem_of_map_to_list, list_elem_of_In.
    - intros (k & a & Hk & Hx). exists (k, a). split; [|done].
      by apply list_elem_of_In, elem_of_map_to_list. }
  unfold referring_columns. rewrite filter_In, negb_true_iff, str_eqb_neq, !in_app_iff.
  rewrite (Hm _ _ _ (fun a => [ar_tcp_outbound a; ar_udp_outbound a])).
  rewrite (Hm _ _ (desired_reserves d) (fun r => mapped_candidates r.2)).
  rewrite (Hm _ _ (applied_reserves d) (fun r => mapped_candidates r.2)).
  rewrite (Hm _ _ (candidate_probe_state d)
    (fun r => if pr_in_working_pool r || pr_draining r then [pr_candidate_id r] else [])).
  assert (forall k r, candidate_probe_state d !! k = Some r ->
    (In s (if pr_in_working_pool r || pr_draining r then [pr_candidate_id r] else []) <->
     pr_in_working_pool r || pr_draining r = true /\ pr_candidate_id r = s)) as Hp.
  { intros k r _. destruct (_ || _); simpl; naive_solver. }
  simpl. split.
  - intros [Hy Hx]. split; [done|]. destruct Hy as [Hy|[Hy|[Hy|Hy]]]; auto.
    + left. naive_solver.
    + right. right. right. destruct Hy as (k & r & Hk & Hr). exists k, r.
      split; [done|]. by apply (Hp k).
  - intros [Hx Hy]. split; [|done]. destruct Hy as [Hy|[Hy|[Hy|Hy]]]; auto.
    + left. naive_solver.
    + right. right. right. destruct Hy as (k & r & Hk & Hr). exists k, r.
      split; [done|]. by apply (Hp k).
Qed.

(** What is in use is among the references. *)
Lemma references_used d refs id : references_of d = inr refs -> in_use d id -> plain id -> id ∈ refs.
Proof.
  intros Hr Hu Hplain. unfold references_of in Hr.
  apply attempt_inr in Hr as (desired & Hd & Hr). apply attempt_inr in Hr as (applied & Ha & [= <-]).
  assert (forall b g refs p, persistedPlanCandidateReferences b g = inr refs -> 0 < g ->
    forall persisted, decode_persisted b = Some persisted -> complete_plan persisted = Some p ->
    refs = plan_references p) as Hplan.
  { intros b g refs' p Hp Hg persisted Hdec Hcomp. unfold persistedPlanCandidateReferences in Hp.
    destruct (g =? 0) eqn:E0; z_bool; [lia|]. cbn [andb] in Hp. rewrite Hdec, Hcomp in Hp.
    destruct (_ && _) in Hp; [congruence|done]. }
  assert (forall s, In s (referring_columns d) -> normalizePersistedCandidateID s = id ->
    id ∈ desired ∪ applied ∪ list_to_set (map normalizePersistedCandidateID (referring_columns d))) as Hcol.
  { intros s Hs Hn. apply elem_of_union. right. apply elem_of_list_to_set, list_elem_of_In, in_map_iff.
    by exists s. }
  destruct Hu as [p o (b & g & persisted & Hin & Hg & Hdec & Hcomp) Ho Hc|k a Hk Hne Hid|k r Hk Hne Hid|
    k r Hk Hp Hne Hid].
  - assert (id ∈ plan_references p) as Hi.
    { unfold plan_references. apply elem_of_union. left. apply elem_of_list_to_set, list_elem_of_In.
      apply in_map_iff. exists (ID o, id). split; [done|]. apply list_elem_of_In, list_elem_of_omap.
      exists o. split; [by apply list_elem_of_In|done]. }
    destruct Hin as [[= -> ->]|[= -> ->]].
    + rewrite (Hplan _ _ _ _ Hd Hg _ Hdec Hcomp). set_solver.
    + rewrite (Hplan _ _ _ _ Ha Hg _ Hdec Hcomp). set_solver.
  - apply (Hcol id); [|done]. apply referring_In. split; [done|]. left. naive_solver.
  - apply (Hcol id); [|done]. apply referring_In. split; [done|]. destruct Hk; naive_solver.
  - apply (Hcol id); [|done]. apply referring_In. split; [done|]. right. right. right. naive_solver.
Qed.

(** ** The steps of a life *)

(** Nothing names the candidate, and what is desired is applied. *)
Definition idle (d : Database) (id : string) : Prop :=
  (plain id -> ~ in_use d id) /\
  desired_generation (plan_state d) = applied_generation (plan_state d).

(** The collector asks, in this operation, to advance the candidate at [now], and the
    generation and the epoch that it has read are still those of the database. *)
Definition collects (op : InventoryOp) (d : Database) (id : string) (now : Time) (retention : Duration) : Prop :=
  0 < retention /\ exists clock generation epoch digest, unchanged_since generation epoch d = true /\
    (op = InvRetire clock id generation epoch digest now retention \/
     exists expected, op = InvRetireBatch clock expected generation epoch digest now retention /\
       id ∈ map c_ID expected).

Inductive lifecycle_edge (op : InventoryOp) (d : Database) (id : string) :
    option CandidateRow -> option CandidateRow -> Prop :=
  | edge_stays x : lifecycle_edge op d id x x
  | edge_listed seal now source inputs grace old r :
      op = InvReplace seal now source inputs grace -> relisted (time_unix now) source id old r ->
      lifecycle_edge op d id old (Some r)
  | edge_drains now grace r : c_Lifecycle (cr_candidate r) = CandidateLifecycleActive ->
      (op = InvDelete now (c_SourceID (cr_candidate r)) grace \/
       exists seal inputs, op = InvReplace seal now (c_SourceID (cr_candidate r)) inputs grace) ->
      lifecycle_edge op d id (Some r)
        (Some (set_candidate (start_drain (time_unix now) (retirement_grace grace)) r))
  | edge_retires now retention r : collects op d id now retention -> drained now r -> idle d id ->
      lifecycle_edge op d id (Some r) (Some (set_candidate (retire now) r))
  | edge_deleted now retention r : collects op d id now retention -> expired now retention r -> idle d id ->
      lifecycle_edge op d id (Some r) None.

(** The rows after a batch has advanced. *)
Definition advanced_row (now : Time) (r : CandidateRow) : option CandidateRow :=
  if has_lifecycle CandidateLifecycleDraining r then Some (set_candidate (retire now) r) else None.

Lemma advance_run clock now c d b d' : advance_candidate clock now c d = (inr b, d') ->
  (forall k, k <> c_ID c -> candidates d' !! k = candidates d !! k) /\
  (b = true -> forall r, candidates d !! c_ID c = Some r -> cr_candidate r = c ->
     candidates d' !! c_ID c = advanced_row now r) /\
  (b = false -> d' = d /\ c_Lifecycle c <> CandidateLifecycleDraining /\
                c_Lifecycle c <> CandidateLifecycleRetired).
Proof.
  intros Hr. unfold advance_candidate in Hr.
  destruct (str_eqb (c_Lifecycle c) CandidateLifecycleDraining) eqn:E1; [|destruct (str_eqb _ _) eqn:E2 in Hr].
  - apply bind_inr in Hr as (u & d1 & H1 & Hr). apply ret_inr in Hr as [<- ->].
    apply retire_run in H1 as (r & Hr & Hd & ->). split_and!; [|intros _ r' Hr' <-|done].
    + intros k Hk. destruct d; simpl. by apply lookup_insert_ne.
    + unfold advanced_row, has_lifecycle. rewrite E1. rewrite Hr in Hr'. injection Hr' as ->.
      destruct d; simpl. apply lookup_insert_eq.
  - apply bind_inr in Hr as (u & d1 & H1 & Hr). apply ret_inr in Hr as [<- ->].
    apply delete_run in H1 as (r & Hr & Hl & Hc & _). split_and!; [|intros _ r' Hr' <-|done].
    + intros k Hk. rewrite Hc. by apply lookup_delete_ne.
    + unfold advanced_row, has_lifecycle. rewrite E1, Hc. apply lookup_delete_eq.
  - apply ret_inr in Hr as [<- ->]. str_bool. by split_and!.
Qed.

Lemma advance_all_run clock now l : forall d b d', NoDup (map c_ID l) ->
  advance_all clock now l d = (inr b, d') ->
  (forall k, k ∉ map c_ID l -> candidates d' !! k = candidates d !! k) /\
  ((forall c, c ∈ l -> exists r, candidates d !! c_ID c = Some r /\ cr_candidate r = c) ->
   (forall c, c ∈ l -> c_Lifecycle c = CandidateLifecycleDraining \/ c_Lifecycle c = CandidateLifecycleRetired) ->
   b = true /\ forall c r, c ∈ l -> candidates d !! c_ID c = Some r ->
     candidates d' !! c_ID c = advanced_row now r).
Proof.
  induction l as [|c l IH]; intros d b d' Hnd Hr; cbn [advance_all] in Hr.
  { apply ret_inr in Hr as [<- ->]. split; [done|]. intros _ _. split; [done|]. by intros c r ?%elem_of_nil. }
  apply NoDup_cons in Hnd as [Hn Hnd]. apply bind_inr in Hr as (b1 & d1 & H1 & Hr).
  apply advance_run in H1 as (Hkeep & Hdone & Hstop). destruct b1.
  - destruct (IH _ _ _ Hnd Hr) as [Hkeep2 Hall]. split.
    + intros k Hk. apply not_elem_of_cons in Hk as [Hk1 Hk2]. rewrite Hkeep2, Hkeep by done. done.
    + intros Hrows Hlife. destruct Hall as [-> Hall].
      * intros c' Hc'. destruct (Hrows c' ltac:(by right)) as (r & Hr' & He). exists r. split; [|done].
        rewrite Hkeep; [done|]. intros Heq. apply Hn. rewrite <- Heq. by apply list_elem_of_fmap_2.
      * intros c' Hc'. apply Hlife. by right.
      * split; [done|]. intros c' r [->|Hc']%elem_of_cons Hr'.
        -- rewrite Hkeep2 by done. apply Hdone; [done..|].
           destruct (Hrows c ltac:(by left)) as (r0 & Hr0 & He). congruence.
        -- apply Hall; [done|]. rewrite Hkeep; [done|]. intros Heq. apply Hn. rewrite <- Heq.
           by apply list_elem_of_fmap_2.
  - apply ret_inr in Hr as [<- ->]. destruct (Hstop eq_refl) as (-> & H1 & H2). split; [done|].
    intros _ Hlife. destruct (Hlife c ltac:(by left)); congruence.
Qed.

Lemma unchanged_generations generation epoch d : unchanged_since generation epoch d = true ->
  desired_generation (plan_state d) = applied_generation (plan_state d) /\
  desired_generation (plan_state d) = generation /\ inventory_epoch d = epoch.
Proof. unfold unchanged_since. intros Hs. split_bool. z_bool. lia. Qed.

Lemma idle_unreferenced d refs id : references_of d = inr refs -> id ∉ refs ->
  desired_generation (plan_state d) = applied_generation (plan_state d) -> idle d id.
Proof. intros Hr Hn Hg. split; [|done]. intros Hp Hu. by apply Hn, (references_used d). Qed.

Lemma current_candidate_Some references now retention d e c :
  current_candidate references now retention d e = Some c ->
  c_ID c = c_ID e /\ c_ID c ∉ references /\ exists r, candidates d !! c_ID e = Some r /\
    cr_candidate r = c /\ candidateRetirementDue now retention c = true.
Proof.
  unfold current_candidate. destruct (candidates d !! c_ID e) as [r|]; [|done].
  destruct (_ && _) eqn:E; [|done]. intros [= <-]. split_bool.
  unfold candidateRetirementIdentityMatches in *. split_bool. str_bool.
  split; [done|]. split; [|by exists r].
  match goal with Hn : bool_decide _ = false |- _ => by rewrite bool_decide_eq_false in Hn end.
Qed.

(** What a batch found. *)
Lemma current_rows refs now retention d expected current :
  mapM (current_candidate refs now retention d) expected = Some current ->
  map c_ID current = map c_ID expected /\
  forall c, c ∈ current -> c_ID c ∉ refs /\ exists r, candidates d !! c_ID c = Some r /\
    cr_candidate r = c /\ candidateRetirementDue now retention c = true.
Proof.
  intros Em. apply mapM_Some in Em. split.
  - induction Em as [|e c l l' He _ IH]; [done|]. cbn [map]. rewrite IH. f_equal.
    by apply current_candidate_Some in He as [? _].
  - intros c Hc. apply list_elem_of_lookup in Hc as [i Hc].
    destruct (Forall2_lookup_r _ _ _ _ _ Em Hc) as (e & _ & He).
    apply current_candidate_Some in He as (-> & Hn & r & Hr' & ? & ?). split; [done|]. by exists r.
Qed.

(** The edge of a candidate that a batch advances. *)
Lemma advanced_edge op d id now retention r : collects op d id now retention ->
  candidateRetirementDue now retention (cr_candidate r) = true -> idle d id ->
  lifecycle_edge op d id (Some r) (advanced_row now r).
Proof.
  intros Hret Hdue Hidle. unfold advanced_row, has_lifecycle. apply due_iff in Hdue as [Hd|He].
  - rewrite (proj1 Hd), str_eqb_refl. by eapply edge_retires.
  - rewrite (proj1 He). by eapply edge_deleted.
Qed.

Lemma batch_edges op clock expected generation epoch digest now retention d a d' id : 0 < retention ->
  op = InvRetireBatch clock expected generation epoch digest now retention -> NoDup (map c_ID expected) ->
  advance_batch clock expected generation epoch digest now retention d = (inr a, d') ->
  lifecycle_edge op d id (candidates d !! id) (candidates d' !! id).
Proof.
  intros Hret Hop Hnd Hr. unfold advance_batch in Hr. cbn zeta in Hr. run_in Hr.
  destruct (unchanged_since generation epoch d) eqn:Eu; cbn [negb] in Hr;
    [|apply ret_inr in Hr as [_ ->]; constructor].
  apply unchanged_generations in Eu as Eg. destruct Eg as (Hgen & _ & _).
  apply bind_inr in Hr as (refs & d1 & Href & Hr). injection Href as Href <-. run_in Hr.
  destruct (mapM _ expected) as [current|] eqn:Em; [|apply ret_inr in Hr as [_ ->]; constructor].
  apply bind_inr in Hr as (tor & d1 & Htor & Hr). injection Htor as _ <-. run_in Hr.
  destruct (digest_matches _ _) in Hr; cbn [negb] in Hr; [|apply ret_inr in Hr as [_ ->]; constructor].
  apply bind_inr in Hr as (b & d1 & Hadv & Hr). apply current_rows in Em as (Hids & Hcur).
  apply advance_all_run in Hadv as [Hkeep Hall]; [|by rewrite Hids].
  destruct Hall as [-> Hall].
  { intros c Hc. destruct (Hcur c Hc) as (_ & r & ? & ? & _). by exists r. }
  { intros c Hc. destruct (Hcur c Hc) as (_ & r & _ & <- & Hdue). apply due_iff in Hdue as [[? _]|[? _]]; auto. }
  cbn [negb] in Hr. unfold incrementInventoryEpochTx in Hr. run_all Hr.
  assert (candidates (d1 <| inventory_epoch := inventory_epoch d1 + 1 |>) = candidates d1) as -> by by destruct d1.
  destruct (decide (id ∈ map c_ID current)) as [Hin|Hin]; [|rewrite Hkeep by done; constructor].
  apply list_elem_of_fmap in Hin as (c & -> & Hc). destruct (Hcur c Hc) as (Hn & r & Hr' & He & Hdue).
  rewrite (Hall c r Hc Hr'), Hr'. eapply advanced_edge; [|by rewrite He|by eapply idle_unreferenced].
  split; [done|]. exists clock, generation, epoch, digest. split; [done|right]. exists expected.
  split; [done|]. rewrite <- Hids. by apply list_elem_of_fmap_2.
Qed.

Lemma single_edges op clock id0 generation epoch digest now retention d a d' id : 0 < retention ->
  op = InvRetire clock id0 generation epoch digest now retention ->
  (forall k r, candidates d !! k = Some r -> c_ID (cr_candidate r) = k) ->
  advance_body clock id0 generation epoch digest now retention d = (inr a, d') ->
  lifecycle_edge op d id (candidates d !! id) (candidates d' !! id).
Proof.
  intros Hret Hop Hkeyed Hr. unfold advance_body in Hr. cbn zeta in Hr. run_in Hr.
  destruct (unchanged_since generation epoch d) eqn:Eu; cbn [negb] in Hr;
    [|apply ret_inr in Hr as [_ ->]; constructor].
  apply unchanged_generations in Eu as Eg. destruct Eg as (Hgen & _ & _).
  apply bind_inr in Hr as (refs & d1 & Href & Hr). injection Href as Href <-. run_in Hr.
  destruct (candidates d !! id0) as [r|] eqn:Er; [|apply ret_inr in Hr as [_ ->]; constructor].
  destruct (bool_decide_reflect (id0 ∈ refs)) as [Hin|Hn]; [apply ret_inr in Hr as [_ ->]; constructor|].
  apply bind_inr in Hr as (tor & d1 & Htor & Hr). injection Htor as _ <-. run_in Hr.
  destruct (digest_matches _ _) in Hr; cbn [negb] in Hr; [|apply ret_inr in Hr as [_ ->]; constructor].
  destruct (candidateRetirementDue now retention (cr_candidate r)) eqn:Edue; cbn [negb] in Hr;
    [|apply ret_inr in Hr as [_ ->]; constructor].
  apply bind_inr in Hr as (b & d1 & Hadv & Hr). unfold incrementInventoryEpochTx in Hr. run_all Hr.
  assert (candidates (d1 <| inventory_epoch := inventory_epoch d1 + 1 |>) = candidates d1) as -> by by destruct d1.
  apply advance_run in Hadv as (Hkeep & Hdone & Hstop). rewrite (Hkeyed _ _ Er) in *.
  destruct b.
  - destruct (decide (id = id0)) as [->|Hne]; [|rewrite Hkeep by done; constructor].
    rewrite (Hdone eq_refl r Er eq_refl), Er.
    eapply advanced_edge; [|done|by eapply idle_unreferenced].
    split; [done|]. exists clock, generation, epoch, digest. split; [done|by left].
  - destruct (Hstop eq_refl) as (-> & _). constructor.
Qed.

Lemma replace_edges op seal now grace source inputs d u d' id :
  op = InvReplace seal now source inputs grace ->
  replace_candidates seal (time_unix now) (retirement_grace grace) source inputs d = (inr u, d') ->
  lifecycle_edge op d id (candidates d !! id) (candidates d' !! id).
Proof.
  intros -> Hr. apply replace_run in Hr as (ids & Hnew & Hkeep & _).
  destruct (decide (id ∈ ids)) as [Hin|Hin].
  - destruct (Hnew id Hin) as (r & -> & Hrel). by eapply edge_listed.
  - rewrite Hkeep by done. destruct (candidates d !! id) as [r|]; [|constructor]. simpl.
    destruct (of_source source r && has_lifecycle CandidateLifecycleActive r) eqn:E; [|constructor].
    unfold of_source, has_lifecycle in E. split_bool. str_bool. eapply edge_drains; [done|].
    right. eexists _, _. by subst.
Qed.

Lemma delete_edges op now grace source d u d' id : op = InvDelete now source grace ->
  delete_source (time_unix now) (retirement_grace grace) source d = (inr u, d') ->
  lifecycle_edge op d id (candidates d !! id) (candidates d' !! id).
Proof.
  intros -> Hr. unfold delete_source in Hr. run_in Hr. run_in Hr.
  apply bind_inr in Hr as ([] & d1 & H1 & Hr). unfold requireAffected, incrementInventoryEpochTx in Hr.
  run_all Hr.
  assert (candidates (d1 <| inventory_epoch := inventory_epoch d1 + 1 |>) = candidates d1) as -> by by destruct d1.
  destruct (Nat.eqb _ 0) in H1.
  - apply modify_inr in H1 as ->.
    assert (candidates (set_sources (delete source) d) = candidates d) as -> by by destruct d. constructor.
  - run_all H1. set (d0 := set_sources _ d).
    assert (candidates d0 = candidates d) as Hc by by destruct d.
    assert (candidates (drain_source (time_unix now) (retirement_grace grace) source [] d0) !! id =
      (fun r => if of_source source r && true && has_lifecycle CandidateLifecycleActive r
        then set_candidate (start_drain (time_unix now) (retirement_grace grace)) r else r) <$>
      candidates d !! id) as ->.
    { rewrite <- Hc. destruct d0; simpl. apply lookup_update_where. }
    destruct (candidates d !! id) as [r|]; [|constructor]. simpl. rewrite andb_true_r.
    destruct (of_source source r && has_lifecycle CandidateLifecycleActive r) eqn:E; [|constructor].
    unfold of_source, has_lifecycle in E. split_bool. str_bool. eapply edge_drains; [done|].
    left. by subst.
Qed.

Lemma check_times_cases {A : Type} now retention (m : Tx A) d :
  ((check_times now retention ;;; m) d).2 = d \/
  0 < retention /\ ((check_times now retention ;;; m) d).2 = (m d).2.
Proof.
  unfold check_times. destruct (negb (time_is_zero now)); [|by left].
  destruct (0 <? retention) eqn:E; [|by left]. z_bool. by right.
Qed.

(** One step into an operation that checks its arguments and then is a transaction. *)
Ltac use_checks := repeat match goal with
  | |- context [((check ?b ?e ;;; ?m) ?d).2] =>
      let Hc := fresh "Hcheck" in
      destruct (check_cases b e m d) as [->|[Hc ->]]; [constructor|]
  | |- context [((check_times ?now ?retention ;;; ?m) ?d).2] =>
      let Hc := fresh "Hcheck" in
      destruct (check_times_cases now retention m d) as [->|[Hc ->]]; [constructor|]
  end.
Ltac use_transaction Hr := match goal with
  | |- context [(transaction ?o ?m ?d).2] =>
      destruct (transaction_cases o m d) as [->|(? & ? & Hr & ->)]; [constructor|]
  end.

(** One operation on one candidate. *)
Lemma step_edge o op d id :
  (forall k r, candidates d !! k = Some r -> c_ID (cr_candidate r) = k) ->
  lifecycle_edge op d id (candidates d !! id) (candidates (inv_step o op d) !! id).
Proof.
  intros Hkeyed. destruct op as [seal now items|now source label enabled|now source grace|
    now source message|seal now source inputs grace|clock id0 generation epoch digest now retention|
    clock expected generation epoch digest now retention|f]; cbn [inv_step].
  - unfold ImportSources. destruct (transaction_cases o (import_items seal (time_unix now) items) d)
      as [->|(a & d' & Hr & ->)]; [constructor|].
    rewrite (import_candidates _ _ _ _ _ _ Hr). constructor.
  - unfold UpdateSource. use_checks. use_transaction Hr.
    apply bind_inr in Hr as (u & d1 & Hs & Hr). apply update_source_run in Hs as (s & _ & _ & ->).
    injection Hr as _ <-. rewrite epoch_candidates, set_sources_candidates. constructor.
  - unfold DeleteSource. use_transaction Hr. by eapply delete_edges.
  - unfold RecordRefreshFailure. use_transaction Hr. apply update_source_run in Hr as (s & _ & _ & ->).
    rewrite set_sources_candidates. constructor.
  - unfold ReplaceCandidates. use_checks. use_transaction Hr. by eapply replace_edges.
  - unfold AdvanceCandidateRetirement. use_checks. use_transaction Hr. z_bool.
    by eapply single_edges.
  - unfold AdvanceCandidateRetirementBatch. use_checks. use_transaction Hr. z_bool.
    eapply batch_edges; [done|done| |done]. split_bool.
    match goal with Hn : bool_decide _ = true |- _ => by rewrite bool_decide_eq_true in Hn end.
  - assert (candidates (off_inventory f d) = candidates d) as -> by (unfold off_inventory; by destruct (f d)).
    constructor.
Qed.
End Life.
