(* ===== verification/InventorySafety.v ===== *)
(** What stays true of the inventory (InventoryRuns.v, RetirementSafety.v): its rows are
    well formed, sources that wait for their deletion are out of service and have a
    candidate left, and the epoch tells every change of what can be routed. *)
From Stdlib Require Import Floats.
From S2P Require Import Prelude Effects GoOrder GoStrings GoSort Sha256 QoE DataPlan Gateway Handlers StoreTables StoreLogic RouteRecovery PlanStore RoutingSnapshot CandidateState Observations Inventory TorProfiles Retirement InventoryRuns RetirementSafety StoreSample EngineSample.

#[local] Open Scope Z_scope.
#[local] Open Scope effect_scope.

Section Inventory.
Context `{JS : Json} `{VA : Vault} `{RC : RetirementCodec}.

(** ** Well-formed rows *)

Definition life_ok (c : Candidate) : Prop :=
  c_Lifecycle c = CandidateLifecycleActive /\ c_RetiredAt c = None /\ c_DrainAfter c = None \/
  c_Lifecycle c = CandidateLifecycleDraining /\ c_RetiredAt c = None /\ is_Some (c_DrainAfter c) \/
  c_Lifecycle c = CandidateLifecycleRetired /\ is_Some (c_RetiredAt c) /\ is_Some (c_DrainAfter c).

(** A source that waits for its deletion is disabled, and a candidate of it is left. *)
Definition pending_ok (d : Database) (id : string) (s : SourceRow) : Prop :=
  so_pending_delete s = true -> so_enabled s = false /\
  exists k r, candidates d !! k = Some r /\ c_SourceID (cr_candidate r) = id.

Record inventory_ok (d : Database) : Prop := {
  io_keyed : forall k r, candidates d !! k = Some r -> c_ID (cr_candidate r) = k;
  io_source : forall k r, candidates d !! k = Some r -> is_Some (sources d !! c_SourceID (cr_candidate r));
  io_life : forall k r, candidates d !! k = Some r -> life_ok (cr_candidate r);
  io_fingerprints : fingerprints_unique d;
  io_pending : forall id s, sources d !! id = Some s -> pending_ok d id s
}.

(** What can be routed is the same. *)
Record same_routes (d d' : Database) : Prop := {
  sm_candidates : candidates d' = candidates d;
  sm_sources : forall id s, sources d !! id = Some s -> exists s', sources d' !! id = Some s' /\
    so_enabled s' = so_enabled s /\ so_created_at s' = so_created_at s
}.

(** What an operation leaves: a well-formed inventory, and a new epoch unless the same
    can be routed. *)
Definition kept_or_moved (d d' : Database) : Prop :=
  inventory_ok d -> inventory_ok d' /\
  (inventory_epoch d' = inventory_epoch d /\ same_routes d d' \/
   inventory_epoch d < inventory_epoch d').

#[local] Instance same_routes_preorder : PreOrder same_routes.
Proof.
  split.
  - intros d. split; [done|]. eauto.
  - intros d1 d2 d3 [A1 A2] [B1 B2]. split; [congruence|]. intros id s Hs.
    destruct (A2 id s Hs) as (s1 & H1 & E1 & F1). destruct (B2 id s1 H1) as (s2 & H2 & E2 & F2).
    exists s2. split_and!; congruence.
Qed.

#[local] Instance kept_or_moved_preorder : PreOrder kept_or_moved.
Proof.
  split.
  - intros d Hok. split; [done|]. left. split; [done|reflexivity].
  - intros d1 d2 d3 H12 H23 Hok. destruct (H12 Hok) as [Hok2 H2]. destruct (H23 Hok2) as [Hok3 H3].
    split; [done|]. destruct H2 as [[E2 S2]|E2], H3 as [[E3 S3]|E3]; [left|right; lia..].
    split; [lia|by transitivity d2].
Qed.

(** Sources change, candidates do not. *)
Lemma sources_ok d d' : candidates d' = candidates d ->
  (forall id, is_Some (sources d !! id) -> is_Some (sources d' !! id)) ->
  fingerprints_unique d' ->
  (forall id s', sources d' !! id = Some s' -> so_pending_delete s' = true ->
     exists s, sources d !! id = Some s /\ so_pending_delete s = true /\ so_enabled s' = so_enabled s) ->
  inventory_ok d -> inventory_ok d'.
Proof.
  intros Hc Hs Hf Hp [H1 H2 H3 H4 H5]. split; rewrite ?Hc; auto.
  - intros k r Hk. apply Hs. by eapply H2.
  - intros id s' Hs' Hpend. destruct (Hp id s' Hs' Hpend) as (s & Hs0 & Hps & Hen).
    destruct (H5 id s Hs0 Hps) as [He Hr]. split; [congruence|]. by rewrite Hc.
Qed.

Lemma import_ok seal now items d a d' : import_items seal now items d = (inr a, d') ->
  kept_or_moved d d'.
Proof.
  intros Hr Hok. unfold import_items in Hr. apply bind_inr in Hr as (result & d1 & Hi & Hr).
  apply import_items_run in Hi as (Hu & Hle & [Hc He Hkept Hnew Hsame]); [|by destruct Hok].
  cbn [Restored] in *. rewrite Z.sub_0_r in Hsame.
  assert (inventory_ok d1) as Hok1.
  { eapply (sources_ok d); [done| |done| |done].
    - intros id [s Hs]. destruct (Hkept id s Hs) as (s' & ? & _). by exists s'.
    - intros id s' Hs' Hp. destruct (Hnew id s' Hs') as [[s Hs]|]; [|congruence].
      destruct (Hkept id s Hs) as (s2 & Hs2 & [->|(_ & Hn & _)]); [|congruence].
      exists s. split_and!; congruence. }
  apply bind_inr in Hr as (u & d2 & He2 & Hr). apply ret_inr in Hr as [_ ->].
  destruct (0 <? Restored result) eqn:E; z_bool.
  - unfold incrementInventoryEpochTx in He2. apply modify_inr in He2 as ->.
    split; [|right; destruct d1; simpl in *; lia]. destruct Hok1. by split; destruct d1.
  - apply ret_inr in He2 as [_ ->]. split; [done|]. left. split; [done|]. split; [done|].
    intros id s Hs. exists s. split; [|done]. apply Hsame; [lia|done].
Qed.

Lemma epoch_ok e d : inventory_ok d -> inventory_ok (d <| inventory_epoch := e |>).
Proof. intros []. by split; destruct d. Qed.

Lemma insert_source_ok id s s' d : sources d !! id = Some s -> so_fingerprint s' = so_fingerprint s ->
  (so_pending_delete s' = true -> so_pending_delete s = true /\ so_enabled s' = so_enabled s) ->
  inventory_ok d -> inventory_ok (set_sources <[id := s']> d).
Proof.
  intros Hs Hf Hp Hok.
  assert (forall k t, sources (set_sources <[id := s']> d) !! k = Some t ->
    exists t0, sources d !! k = Some t0 /\ so_fingerprint t = so_fingerprint t0 /\
      (so_pending_delete t = true -> so_pending_delete t0 = true /\ so_enabled t = so_enabled t0)) as Hl.
  { intros k t Ht. destruct d; simpl in *. apply lookup_insert_Some in Ht as [[<- <-]|[_ Ht]]; eauto. }
  eapply (sources_ok d); [by destruct d| | | |done].
  - intros k Hk. destruct d; simpl in *. destruct (decide (id = k)) as [<-|Hn];
      [rewrite lookup_insert_eq|rewrite lookup_insert_ne by done]; eauto.
  - intros i j x y Hx Hy He. destruct (Hl i x Hx) as (x0 & Hx0 & Ex & _).
    destruct (Hl j y Hy) as (y0 & Hy0 & Ey & _). eapply (io_fingerprints d Hok); [done..|congruence].
  - intros k t Ht Hpend. destruct (Hl k t Ht) as (t0 & Ht0 & _ & He). destruct (He Hpend). eauto.
Qed.

Lemma alter_sources id f s d : sources d !! id = Some s ->
  set_sources (alter f id) d = set_sources <[id := f s]> d.
Proof. intros Hs. unfold set_sources. by rewrite (alter_insert_Some _ _ _ s). Qed.

(** A change of candidates that keeps their sources. *)
Lemma candidates_ok d d' : sources d' = sources d ->
  (forall k r', candidates d' !! k = Some r' -> c_ID (cr_candidate r') = k /\
     life_ok (cr_candidate r') /\ is_Some (sources d !! c_SourceID (cr_candidate r'))) ->
  (forall k r, candidates d !! k = Some r -> exists r', candidates d' !! k = Some r' /\
     c_SourceID (cr_candidate r') = c_SourceID (cr_candidate r)) ->
  inventory_ok d -> inventory_ok d'.
Proof.
  intros Hs Hnew Hkeep [H1 H2 H3 H4 H5]. split; unfold fingerprints_unique; rewrite ?Hs; try done.
  - intros k r' Hr'. by apply Hnew in Hr' as (? & _ & _).
  - intros k r' Hr'. by apply Hnew in Hr' as (_ & _ & ?).
  - intros k r' Hr'. by apply Hnew in Hr' as (_ & ? & _).
  - intros id s Hs0 Hp. destruct (H5 id s Hs0 Hp) as (He & k & r & Hk & Hid). split; [done|].
    destruct (Hkeep k r Hk) as (r' & Hr' & Hid'). exists k, r'. split; [done|congruence].
Qed.

Lemma relisted_ok now source id old r : relisted now source id old r ->
  life_ok (cr_candidate r) /\ c_ID (cr_candidate r) = id /\
  c_SourceID (cr_candidate r) = match old with Some r0 => c_SourceID (cr_candidate r0) | None => source end.
Proof. intros (position & input & encrypted & Hid & ->). split; [by left|]. by destruct old. Qed.

Lemma drained_ok now grace c : c_Lifecycle c = CandidateLifecycleActive -> life_ok c ->
  life_ok (start_drain now grace c).
Proof.
  intros Ha [(_ & Hr & Hd)|[(Hl & _)|(Hl & _)]]; [|rewrite Ha in Hl; discriminate..].
  right. left. destruct c; simpl in *. rewrite Hd. eauto.
Qed.

Lemma drain_ok now grace source kept d : inventory_ok d ->
  inventory_ok (drain_source now grace source kept d).
Proof.
  intros Hok.
  assert (forall k, candidates (drain_source now grace source kept d) !! k = (fun r =>
    if of_source source r && negb (existsb (str_eqb k) kept) && has_lifecycle CandidateLifecycleActive r
    then set_candidate (start_drain now grace) r else r) <$> candidates d !! k) as Hl
    by (intros k; destruct d; simpl; apply lookup_update_where).
  eapply (candidates_ok d); [by destruct d| | |done].
  - intros k r'. rewrite Hl. intros (r & Hr & ->)%fmap_Some.
    pose proof (io_keyed d Hok k r Hr). pose proof (io_life d Hok k r Hr). pose proof (io_source d Hok k r Hr).
    destruct (_ && _) eqn:E; [|done]. split_bool. unfold has_lifecycle in *. str_bool.
    split_and!; [by destruct r as [[]]|destruct r; by apply drained_ok|by destruct r as [[]]].
  - intros k r Hr. rewrite Hl, Hr. eexists. split; [reflexivity|]. by destruct (_ && _), r as [[]].
Qed.

Lemma refresh_ok seal now grace source inputs d u d' :
  replace_candidates seal now grace source inputs d = (inr u, d') -> kept_or_moved d d'.
Proof.
  intros Hr Hok. apply replace_run in Hr as (ids & Hnew & Hkeep & (s & Hs & Hp) & Hsrc & He).
  split; [|right; lia]. rewrite (alter_insert_Some _ _ _ s) in Hsrc by done.
  set (d1 := d' <| sources := sources d |> <| inventory_epoch := inventory_epoch d |>).
  assert (forall k r', candidates d' !! k = Some r' -> c_ID (cr_candidate r') = k /\
    life_ok (cr_candidate r') /\ is_Some (sources d !! c_SourceID (cr_candidate r'))) as Hrows.
  { intros k r' Hr'. destruct (decide (k ∈ ids)) as [Hin|Hin].
    - destruct (Hnew k Hin) as (r & Hr1 & Hr2). rewrite Hr' in Hr1. injection Hr1 as <-.
      apply relisted_ok in Hr2 as (? & ? & Hsid). split_and!; [done..|]. rewrite Hsid.
      destruct (candidates d !! k) as [r0|] eqn:E; [by eapply (io_source d Hok)|by exists s].
    - rewrite Hkeep in Hr' by done. apply fmap_Some in Hr' as (r & Hr & ->).
      pose proof (io_keyed d Hok k r Hr). pose proof (io_life d Hok k r Hr). pose proof (io_source d Hok k r Hr).
      destruct (_ && _) eqn:E; [|done]. split_bool. unfold has_lifecycle in *. str_bool.
      split_and!; [by destruct r as [[]]|destruct r; by apply drained_ok|by destruct r as [[]]]. }
  assert (inventory_ok d1) as Hok1.
  { eapply (candidates_ok d); [by destruct d'|by destruct d'| |done].
    intros k r Hk. assert (candidates d1 = candidates d') as -> by by destruct d'.
    destruct (decide (k ∈ ids)) as [Hin|Hin].
    - destruct (Hnew k Hin) as (r' & Hr1 & Hr2). exists r'. split; [done|].
      apply relisted_ok in Hr2 as (_ & _ & ->). by rewrite Hk.
    - rewrite Hkeep, Hk by done. eexists. split; [reflexivity|]. by destruct (_ && _), r as [[]]. }
  apply (insert_source_ok source s (refreshed_source now (length inputs) s)) in Hok1;
    [|by destruct d'|done|by destruct s; simpl in *; congruence].
  apply (epoch_ok (inventory_epoch d')) in Hok1.
  assert (d' = set_sources <[source := refreshed_source now (length inputs) s]> d1
    <| inventory_epoch := inventory_epoch d' |>) as ->; [|done].
  unfold d1. destruct d'; simpl in *. by rewrite Hsrc.
Qed.

Lemma delete_ok now grace id d u d' : delete_source now grace id d = (inr u, d') -> kept_or_moved d d'.
Proof.
  intros Hr Hok. unfold delete_source in Hr. run_in Hr. run_in Hr.
  apply bind_inr in Hr as ([] & d1 & H1 & Hr). unfold requireAffected, incrementInventoryEpochTx in Hr.
  run_all Hr. assert (inventory_ok d1 /\ inventory_epoch d1 = inventory_epoch d) as [Hok1 He].
  2:{ split; [by apply epoch_ok|]. right. destruct d1; simpl in *. lia. }
  destruct (Nat.eqb _ 0) eqn:E0 in H1.
  - apply modify_inr in H1 as ->. split; [|by destruct d]. apply Nat.eqb_eq in E0.
    assert (forall k r, candidates d !! k = Some r -> c_SourceID (cr_candidate r) <> id) as Hno.
    { intros k r Hk Hid. pose proof (proj1 (affected_zero _ _) E0 k r Hk) as Hn.
      unfold of_source in Hn. by str_bool. }
    destruct Hok as [A1 A2 A3 A4 A5]. split; unfold fingerprints_unique, pending_ok in *; destruct d; simpl in *; try done.
    + intros k r Hk. rewrite lookup_delete_ne by (intros ->; by eapply Hno). by eapply A2.
    + intros i j x y [? Hx]%lookup_delete_Some [? Hy]%lookup_delete_Some. by eapply A4.
    + intros k s [? Hk]%lookup_delete_Some. by eapply A5.
  - run_all H1. match goal with H : _ !! id = Some ?x |- _ => rename H into Hs; set (s := x) in * end.
    split; [|by destruct d]. apply drain_ok.
    rewrite (alter_sources id _ s) by done. apply Nat.eqb_neq, affected_some in E0 as (k & r & Hk & Hf).
    unfold of_source in Hf. str_bool. destruct Hok as [A1 A2 A3 A4 A5].
    assert (forall j t, sources (set_sources <[id := pending_source now s]> d) !! j = Some t ->
      j = id /\ t = pending_source now s \/ sources d !! j = Some t) as Hl.
    { intros j t Ht. destruct d; simpl in *. apply lookup_insert_Some in Ht as [[<- <-]|[_ Ht]]; auto. }
    assert (candidates (set_sources <[id := pending_source now s]> d) = candidates d) as Hc by by destruct d.
    split; rewrite ?Hc; try done.
    + intros k' r' Hk'. specialize (A2 k' r' Hk') as [t Ht]. destruct d; simpl in *.
      destruct (decide (id = c_SourceID (cr_candidate r'))) as [<-|Hn];
        [rewrite lookup_insert_eq|rewrite lookup_insert_ne by done]; eauto.
    + intros i j x y Hx Hy. assert (so_fingerprint (pending_source now s) = so_fingerprint s) by by destruct s.
      destruct (Hl i x Hx) as [[-> ->]|Hx'], (Hl j y Hy) as [[-> ->]|Hy']; intros He; try done;
        eapply A4; eauto; congruence.
    + intros j t Ht Hp. rewrite Hc. destruct (Hl j t Ht) as [[-> ->]|Ht']; [|by eapply A5].
      split; [by destruct s|]. eauto.
Qed.

Lemma retire_ok now id d u d' : retire_candidate now id d = (inr u, d') ->
  inventory_ok d -> inventory_ok d' /\ inventory_epoch d' = inventory_epoch d.
Proof.
  intros Hr Hok. apply retire_run in Hr as (r & Hr & [Hl (t & Ht & _)] & ->). split; [|by destruct d].
  pose proof (io_keyed d Hok id r Hr). pose proof (io_source d Hok id r Hr).
  eapply (candidates_ok d); [by destruct d| | |done].
  - intros k r' Hr'. destruct d; simpl in *. apply lookup_insert_Some in Hr' as [[<- <-]|[_ Hr']].
    + split_and!; [by destruct r as [[]]| |by destruct r as [[]]]. right. right.
      destruct r as [[]]; simpl in *. subst. eauto.
    + split_and!; [by eapply (io_keyed _ Hok)|by eapply (io_life _ Hok)|by eapply (io_source _ Hok)].
  - intros k r0 Hk. destruct d; simpl in *. destruct (decide (id = k)) as [<-|Hn];
      [rewrite lookup_insert_eq|rewrite lookup_insert_ne by done; eauto].
    eexists. split; [reflexivity|]. rewrite Hr in Hk. injection Hk as <-. by destruct r as [[]].
Qed.

Lemma removed_ok clock c d u d' : deleteCandidateRetirementStateTx clock c d = (inr u, d') ->
  from_option (fun r => c_SourceID (cr_candidate r)) (c_SourceID c) (candidates d !! c_ID c) = c_SourceID c ->
  inventory_ok d -> inventory_ok d' /\ inventory_epoch d' = inventory_epoch d.
Proof.
  intros Hr Hsame Hok. apply delete_run in Hr as (r & Hr & _ & Hc & He & Hother & Hsrc). split; [|done].
  rewrite Hr in Hsame. cbn [from_option] in Hsame. destruct Hok as [A1 A2 A3 A4 A5].
  assert (forall k r', candidates d' !! k = Some r' -> k <> c_ID c /\ candidates d !! k = Some r') as Hrow.
  { intros k r'. rewrite Hc. intros [? ?]%lookup_delete_Some. auto. }
  assert (forall k s, sources d' !! k = Some s -> sources d !! k = Some s) as Hl.
  { intros k s Hk. destruct (decide (k = c_SourceID c)) as [->|Hn]; [|by rewrite <- Hother].
    destruct Hsrc as [[Hs _]|(Hs & _)]; congruence. }
  split.
  - intros k r' Hk. apply Hrow in Hk as [_ Hk]. by apply A1.
  - intros k r' Hk. pose proof Hk as Hk'. apply Hrow in Hk as [_ Hk]. destruct (A2 k r' Hk) as [s Hs].
    destruct (decide (c_SourceID (cr_candidate r') = c_SourceID c)) as [Hx|Hn];
      [|exists s; by rewrite Hother].
    destruct Hsrc as [[Hs' _]|(_ & _ & Hnone)]; [exists s; congruence|by destruct (Hnone k r' Hk')].
  - intros k r' Hk. apply Hrow in Hk as [_ Hk]. by eapply A3.
  - intros i j x y Hx%Hl Hy%Hl. by eapply A4.
  - intros k s Hk Hp. pose proof (Hl k s Hk) as Hk'. destruct (A5 k s Hk' Hp) as (Hen & k1 & r1 & Hk1 & Hid).
    split; [done|]. destruct (decide (k = c_SourceID c)) as [->|Hn].
    + destruct Hsrc as [[_ Hleft]|(Hnone & _)]; [|congruence]. rewrite Hk' in Hleft. by apply Hleft.
    + exists k1, r1. split; [|done]. rewrite Hc, lookup_delete_ne; [done|]. intros Heq. subst k1.
      rewrite Hr in Hk1. injection Hk1 as <-. congruence.
Qed.

Definition is_row (d : Database) (c : Candidate) : Prop :=
  exists r, candidates d !! c_ID c = Some r /\ cr_candidate r = c.

Lemma advance_ok clock now c d b d' : is_row d c -> advance_candidate clock now c d = (inr b, d') ->
  inventory_ok d -> inventory_ok d' /\ inventory_epoch d' = inventory_epoch d.
Proof.
  intros (r & Hrow & Hc) Hr. unfold advance_candidate in Hr.
  destruct (str_eqb _ _) in Hr; [|destruct (str_eqb _ _) in Hr].
  - apply bind_inr in Hr as (u & d1 & H1 & Hr). apply ret_inr in Hr as [_ ->].
    intros Hok. by eapply retire_ok.
  - apply bind_inr in Hr as (u & d1 & H1 & Hr). apply ret_inr in Hr as [_ ->].
    intros Hok. eapply removed_ok; [exact H1| |done]. rewrite Hrow. simpl. by rewrite Hc.
  - apply ret_inr in Hr as [_ ->]. done.
Qed.

Lemma advance_all_ok clock now l : forall d b d', NoDup (map c_ID l) -> (forall c, c ∈ l -> is_row d c) ->
  advance_all clock now l d = (inr b, d') ->
  inventory_ok d -> inventory_ok d' /\ inventory_epoch d' = inventory_epoch d.
Proof.
  induction l as [|c l IH]; intros d b d' Hnd Hrows Hr Hok; cbn [advance_all] in Hr.
  { apply ret_inr in Hr as [_ ->]. done. }
  apply NoDup_cons in Hnd as [Hn Hnd]. apply bind_inr in Hr as (b1 & d1 & H1 & Hr).
  pose proof (proj1 (advance_run _ _ _ _ _ _ H1)) as Hkeep.
  destruct (advance_ok _ _ _ _ _ _ (Hrows c ltac:(by left)) H1 Hok) as [Hok1 He1].
  destruct b1; [|apply ret_inr in Hr as [_ ->]; done].
  assert (forall c', c' ∈ l -> is_row d1 c') as Hrows1.
  { intros c' Hc'. destruct (Hrows c' ltac:(by right)) as (r & Hr' & He). exists r. split; [|done].
    rewrite Hkeep; [done|]. intros Heq. apply Hn. rewrite <- Heq. by apply list_elem_of_fmap_2. }
  destruct (IH d1 b d' Hnd Hrows1 Hr Hok1) as [Hok2 He2]. split; [done|congruence].
Qed.

Lemma kept_refl d : kept_or_moved d d.
Proof. reflexivity. Qed.

Lemma moved_by_one d d1 : (inventory_ok d -> inventory_ok d1 /\ inventory_epoch d1 = inventory_epoch d) ->
  kept_or_moved d (d1 <| inventory_epoch := inventory_epoch d1 + 1 |>).
Proof.
  intros H Hok. destruct (H Hok) as [Hok1 He]. split; [by apply epoch_ok|]. right.
  destruct d1; simpl in *. lia.
Qed.

Lemma single_ok clock id generation epoch digest now retention d a d' :
  advance_body clock id generation epoch digest now retention d = (inr a, d') -> kept_or_moved d d'.
Proof.
  intros Hr Hok. revert Hok. unfold advance_body in Hr. cbn zeta in Hr. run_in Hr.
  destruct (negb _) in Hr; [apply ret_inr in Hr as [_ ->]; apply kept_refl|].
  apply bind_inr in Hr as (refs & d1 & Href & Hr). injection Href as _ <-. run_in Hr.
  destruct (candidates d !! id) as [r|] eqn:Er; [|apply ret_inr in Hr as [_ ->]; apply kept_refl].
  destruct (bool_decide _) in Hr; [apply ret_inr in Hr as [_ ->]; apply kept_refl|].
  apply bind_inr in Hr as (tor & d1 & Htor & Hr). injection Htor as _ <-. run_in Hr.
  do 2 (destruct (negb _) in Hr; [apply ret_inr in Hr as [_ ->]; apply kept_refl|]).
  apply bind_inr in Hr as (b & d1 & Hadv & Hr). unfold incrementInventoryEpochTx in Hr. run_all Hr.
  apply moved_by_one. intros Hok. eapply advance_ok; [|exact Hadv|done].
  exists r. by rewrite (io_keyed d Hok id r Er).
Qed.

Lemma batch_ok clock expected generation epoch digest now retention d a d' :
  NoDup (map c_ID expected) ->
  advance_batch clock expected generation epoch digest now retention d = (inr a, d') -> kept_or_moved d d'.
Proof.
  intros Hnd Hr Hok. revert Hok. unfold advance_batch in Hr. cbn zeta in Hr. run_in Hr.
  destruct (negb _) in Hr; [apply ret_inr in Hr as [_ ->]; apply kept_refl|].
  apply bind_inr in Hr as (refs & d1 & Href & Hr). injection Href as _ <-. run_in Hr.
  destruct (mapM _ expected) as [current|] eqn:Em; [|apply ret_inr in Hr as [_ ->]; apply kept_refl].
  apply bind_inr in Hr as (tor & d1 & Htor & Hr). injection Htor as _ <-. run_in Hr.
  destruct (negb _) in Hr; [apply ret_inr in Hr as [_ ->]; apply kept_refl|].
  apply bind_inr in Hr as (b & d1 & Hadv & Hr).
  apply current_rows in Em as (Hids & Hcur). rewrite <- Hids in Hnd.
  assert (forall c, c ∈ current -> is_row d c) as Hrows.
  { intros c Hc. destruct (Hcur c Hc) as (_ & r & ? & ? & _). by exists r. }
  pose proof (advance_all_run _ _ _ _ _ _ Hnd Hadv) as [_ Hall]. destruct Hall as [-> _].
  { intros c Hc. by apply Hrows. }
  { intros c Hc. destruct (Hcur c Hc) as (_ & r & _ & <- & Hdue). apply due_iff in Hdue as [[? _]|[? _]]; auto. }
  cbn [negb] in Hr. unfold incrementInventoryEpochTx in Hr. run_all Hr. apply moved_by_one.
  intros Hok. by eapply advance_all_ok.
Qed.

Lemma source_step_ok id cond f d u d' : update_source id cond f d = (inr u, d') ->
  (forall s, sources d !! id = Some s -> cond s = true -> so_fingerprint (f s) = so_fingerprint s /\
     (so_pending_delete (f s) = true -> so_pending_delete s = true /\ so_enabled (f s) = so_enabled s)) ->
  inventory_ok d -> inventory_ok d' /\ inventory_epoch d' = inventory_epoch d.
Proof.
  intros Hr Hf Hok. apply update_source_run in Hr as (s & Hs & Hc & ->). destruct (Hf s Hs Hc) as [F1 F2].
  split; [by eapply insert_source_ok|by destruct d].
Qed.

Lemma failure_step now message id d u d' :
  update_source id (fun _ => true) (fun s => s <| so_last_refresh_at := Some now |>
    <| so_last_refresh_error := message |> <| so_updated_at := now |>) d = (inr u, d') ->
  kept_or_moved d d'.
Proof.
  intros Hr Hok. pose proof Hr as Hr'. apply source_step_ok in Hr as [Hok' He]; [|by intros []|done].
  split; [done|]. left. split; [done|]. apply update_source_run in Hr' as (s & Hs & _ & ->).
  split; [by destruct d|]. intros k t Ht. destruct d; simpl in *.
  destruct (decide (id = k)) as [<-|Hn];
    [rewrite lookup_insert_eq|rewrite lookup_insert_ne by done; by exists t].
  eexists. split; [reflexivity|]. rewrite Hs in Ht. injection Ht as <-. by destruct s.
Qed.

Ltac use_cases Hr := repeat match goal with
  | |- kept_or_moved ?d ((check ?b ?e ;;; ?m) ?d).2 =>
      let Hc := fresh "Hcheck" in
      destruct (check_cases b e m d) as [->|[Hc ->]]; [apply kept_refl|]
  | |- kept_or_moved ?d ((check_times ?now ?retention ;;; ?m) ?d).2 =>
      let Hc := fresh "Hcheck" in
      destruct (check_times_cases now retention m d) as [->|[Hc ->]]; [apply kept_refl|]
  | |- kept_or_moved ?d (transaction ?o ?m ?d).2 =>
      destruct (transaction_cases o m d) as [->|(? & ? & Hr & ->)]; [apply kept_refl|]
  end.

Lemma step_kept o op d : kept_or_moved d (inv_step o op d).
Proof.
  destruct op as [seal now items|now id label enabled|now id grace|
    now id message|seal now source inputs grace|clock id0 generation epoch digest now retention|
    clock expected generation epoch digest now retention|f]; cbn [inv_step].
  - unfold ImportSources. use_cases Hr. by eapply import_ok.
  - unfold UpdateSource. use_cases Hr. apply bind_inr in Hr as (u & d1 & Hs & Hr). injection Hr as _ <-.
    apply moved_by_one. intros Hok. eapply source_step_ok; [exact Hs| |done].
    intros s Hs' Hp. apply negb_true_iff in Hp. destruct s; simpl in *. split; [done|congruence].
  - unfold DeleteSource. use_cases Hr. by eapply delete_ok.
  - unfold RecordRefreshFailure. use_cases Hr. by eapply failure_step.
  - unfold ReplaceCandidates. use_cases Hr. by eapply refresh_ok.
  - unfold AdvanceCandidateRetirement. use_cases Hr. by eapply single_ok.
  - unfold AdvanceCandidateRetirementBatch. use_cases Hr. eapply batch_ok; [|exact Hr]. split_bool.
    match goal with Hn : bool_decide _ = true |- _ => by rewrite bool_decide_eq_true in Hn end.
  - intros Hok. assert (candidates (off_inventory f d) = candidates d /\ sources (off_inventory f d) = sources d /\
      inventory_epoch (off_inventory f d) = inventory_epoch d) as (Hc & Hs & He)
      by (unfold off_inventory; by destruct (f d)).
    split.
    + destruct Hok as [A1 A2 A3 A4 A5]. split; unfold fingerprints_unique, pending_ok in *; rewrite ?Hc, ?Hs; done.
    + left. split; [done|]. split; [done|]. rewrite Hs. eauto.
Qed.

Lemma run_kept ops d : kept_or_moved d (inv_run ops d).
Proof.
  revert d. induction ops as [|[o op] ops IH]; intros d; cbn [inv_run]; [apply kept_refl|].
  etransitivity; [apply step_kept|apply IH].
Qed.

(** ** The epoch *)

(** Rows of the join that list alike. *)
Definition same_row (j j' : JoinedRow) : Prop :=
  jr_row j = jr_row j' /\ so_enabled (jr_source j) = so_enabled (jr_source j') /\
  so_created_at (jr_source j) = so_created_at (jr_source j').

Lemma joined_same d d' : inventory_ok d -> same_routes d d' -> Forall2 same_row (joined d) (joined d').
Proof.
  intros Hok [Hc Hs]. unfold joined. rewrite Hc.
  assert (forall k r, (k, r) ∈ map_to_list (candidates d) -> is_Some (sources d !! c_SourceID (cr_candidate r)))
    as Hfk by (intros k r Hin; apply elem_of_map_to_list in Hin; by eapply (io_source d Hok)).
  revert Hfk. generalize (map_to_list (candidates d)). intros l.
  induction l as [|[k r] l IH]; intros Hfk; cbn [omap list_omap]; [constructor|].
  destruct (Hfk k r ltac:(by left)) as [s Es]. destruct (Hs _ _ Es) as (s' & Es' & He & Hcr).
  rewrite Es, Es'. cbn [fmap option_fmap option_map]. constructor.
  - split_and!; simpl; congruence.
  - apply IH. intros k' r' Hin. apply (Hfk k' r'). by right.
Qed.

Lemma Forall2_filter_bool {A B : Type} (R : A -> B -> Prop) f g l k :
  (forall x y, R x y -> f x = g y) -> Forall2 R l k ->
  Forall2 R (List.filter f l) (List.filter g k).
Proof.
  intros Hfg. induction 1 as [|x y l k Hx Hl IH]; simpl; [constructor|].
  rewrite (Hfg x y Hx). destruct (g y); [by constructor|done].
Qed.

Lemma listing_same d d' source refs : inventory_ok d -> same_routes d d' ->
  listCandidates source refs d' = listCandidates source refs d.
Proof.
  intros Hok Hs. unfold listCandidates. f_equal.
  assert (Forall2 same_row
    (sort_slice joined_less (List.filter (listed source refs) (joined d)))
    (sort_slice joined_less (List.filter (listed source refs) (joined d')))) as HF.
  { apply sort_slice_Forall2.
    - intros j1 j2 j1' j2' (E1 & _ & C1) (E2 & _ & C2). unfold joined_less, jr_candidate.
      by rewrite E1, E2, C1, C2.
    - apply Forall2_filter_bool; [|by apply joined_same]. intros j j' (E & En & _).
      unfold listed, jr_candidate. by rewrite E, En. }
  induction HF as [|j j' l l' (E & _) _ IH]; [done|]. cbn [map]. unfold jr_candidate at 1 3.
  by rewrite IH, E.
Qed.

Lemma active_same c d d' : inventory_ok d -> same_routes d d' -> still_active c d' = still_active c d.
Proof.
  intros Hok [Hc Hs]. unfold still_active. rewrite Hc.
  destruct (candidates d !! c_ID c) as [r|] eqn:E; [|done].
  destruct (io_source d Hok _ r E) as [s Es]. destruct (Hs _ _ Es) as (s' & Es' & He & _).
  rewrite Es, Es'. simpl. by rewrite He.
Qed.

Lemma new_inventory_ok : inventory_ok new_database.
Proof. split; try (intros k r; done). Qed.

Lemma inventory_well_formed_run ops : inventory_ok (inv_run ops new_database).
Proof. apply run_kept, new_inventory_ok. Qed.

(** Every inventory that can be reached is well formed.  From an empty database, after
    any operations with any failures of commits and any other writers of the store in
    between: each candidate lies under its identifier and belongs to a source that
    exists; an active one has no deadline, a draining one has the end of its grace, a
    retired one the time of its retirement; no fingerprint has two sources; and a
    source that waits for its deletion is out of service and has a candidate left, so
    that the deletion of its last candidate deletes it. *)
Theorem inventory_well_formed ops : inventory_ok (inv_run ops new_database).
Proof. apply inventory_well_formed_run. Qed.

(** C25.  The epoch of the inventory tells its changes.  Along any run the epoch never
    decreases, and while it stays the same, every listing of candidates, of any source
    and for any candidates in use, and every candidate whose payload would be handed
    out, are the same: what was decided under an epoch is decided on what can still be
    routed under that epoch. *)
Theorem epoch_tells_routes ops ops' :
  let d := inv_run ops new_database in
  let d' := inv_run ops' d in
  inventory_epoch d <= inventory_epoch d' /\
  (inventory_epoch d' = inventory_epoch d ->
     (forall source refs, listCandidates source refs d' = listCandidates source refs d) /\
     forall c, still_active c d' = still_active c d).
Proof.
  cbn zeta. pose proof (proj1 (run_kept ops new_database new_inventory_ok)) as Hok.
  destruct (run_kept ops' _ Hok) as [_ [[He Hs]|He]]; (split; [lia|]); intros Heq; [|lia].
  split; intros; [by apply listing_same|by apply active_same].
Qed.

(** C24.  The life of a candidate.  In every inventory that can be reached one more
    operation, whatever becomes of its commit, does to each candidate one of five things:
    it leaves it as it is; a refresh lists it, active and without deadlines, whatever it
    was; a refresh or the deletion of its source starts its draining, with the end of the
    grace as its deadline unless it has one; the collector, asked to advance this
    candidate at a time and with a retention, retires it when it drains and its deadline
    has come by that time; or the collector deletes it when it was retired at least that
    retention before that time.  The last two happen only when the database still has the
    plan generation and the inventory epoch that the collector has read, when the desired
    plan is the applied one, and when neither of them, nor an assignment, nor a reserve,
    nor the working pool names the candidate (one whose identifier carries no suffix of a
    handler). *)
Theorem candidate_life ops o op id :
  let d := inv_run ops new_database in
  lifecycle_edge op d id (candidates d !! id) (candidates (inv_step o op d) !! id).
Proof. apply step_edge, io_keyed, inventory_well_formed_run. Qed.
End Inventory.

(** * Due candidates advance

    The collector makes progress (Retirement.v): what a snapshot of due candidates
    found is advanced when nothing has changed since. *)

Section Progress.
Context `{JS : Json} `{VA : Vault} `{RC : RetirementCodec}.

Lemma sha_text_nonempty b : str_eqb (hex_encode (sha256 b)) EmptyString = false.
Proof.
  pose proof (sha256_length b) as Hl. destruct (sha256 b) as [|x l]; [done|].
  by apply str_eqb_neq.
Qed.

Lemma torProfileSemanticDigest_ok items digest : torProfileSemanticDigest items = inr digest ->
  digest_matches digest digest = true.
Proof.
  unfold torProfileSemanticDigest. destruct (marshal_tor _); [|done]. intros [= <-].
  unfold digest_matches. by rewrite sha_text_nonempty, str_eqb_refl.
Qed.

Definition keyed (d : Database) : Prop :=
  (forall k r, candidates d !! k = Some r -> c_ID (cr_candidate r) = k) /\
  candidates d !! EmptyString = None.

Lemma select_In cond d c : keyed d -> In c (select_candidates cond d) <->
  exists r, candidates d !! c_ID c = Some r /\ cr_candidate r = c /\ cond c = true.
Proof.
  intros [Hk _]. unfold select_candidates. rewrite sort_slice_In, filter_In, in_map_iff. split.
  - intros [([k r] & <- & Hin) Hc]. apply list_elem_of_In, elem_of_map_to_list in Hin.
    exists r. by rewrite (Hk _ _ Hin).
  - intros (r & Hr & <- & Hc). split; [|done]. exists (c_ID (cr_candidate r), r). split; [done|].
    by apply list_elem_of_In, elem_of_map_to_list.
Qed.

Lemma select_NoDup cond d : keyed d -> NoDup (map c_ID (select_candidates cond d)).
Proof.
  intros [Hk _]. unfold select_candidates.
  rewrite (Permutation_map c_ID (sort_slice_Permutation candidate_less _)).
  pose proof (NoDup_fst_map_to_list (candidates d)) as Hnd.
  assert (forall k r, (k, r) ∈ map_to_list (candidates d) -> c_ID (cr_candidate r) = k) as Hm
    by (intros k r Hin; apply elem_of_map_to_list in Hin; by apply Hk).
  revert Hnd Hm. generalize (map_to_list (candidates d)). intros l.
  induction l as [|[k r] l IH]; intros Hnd Hm; [constructor|]. apply NoDup_cons in Hnd as [Hn Hnd].
  cbn [map List.filter]. assert (NoDup (map c_ID (List.filter cond (map (fun '(_, r) => cr_candidate r) l)))) as IH'
    by (apply IH; [done|]; intros; apply Hm; by right).
  destruct (cond _); [|done]. cbn [map]. apply NoDup_cons. split; [|done]. intros Hin. apply Hn.
  rewrite (Hm k r) in Hin by by left.
  apply list_elem_of_In, in_map_iff in Hin as (c & Hc & Hin). apply filter_In in Hin as [Hin _].
  apply in_map_iff in Hin as ([k' r'] & <- & Hin). apply list_elem_of_In in Hin.
  rewrite (Hm k' r') in Hc by by right. subst k'. apply list_elem_of_fmap. by exists (k, r').
Qed.

Lemma retire_runs now d c r : candidates d !! c_ID c = Some r -> cr_candidate r = c -> drained now r ->
  exists d', retire_candidate now (c_ID c) d = (inr tt, d').
Proof.
  intros Hr Hc [Hl (t & Ht & Hle)]. unfold retire_candidate, bind, get, requireAffected, required.
  rewrite Hr. cbn [ret]. unfold has_lifecycle. rewrite Hl, Ht. cbn [str_eqb].
  rewrite str_eqb_refl, (proj2 (Z.leb_le _ _) Hle). cbn. eauto.
Qed.

Lemma delete_runs clock now retention d c r : candidates d !! c_ID c = Some r -> cr_candidate r = c ->
  expired now retention r -> exists d', deleteCandidateRetirementStateTx clock c d = (inr tt, d').
Proof.
  intros Hr Hc [Hl _]. unfold deleteCandidateRetirementStateTx, bind at 1, modify at 1. cbn zeta.
  set (d1 := _ <| failure_domain_state := _ |>).
  assert (candidates d1 = candidates d) as Hd by by destruct d. clearbody d1.
  unfold bind, get, requireAffected, required. rewrite Hd, Hr. cbn [ret]. unfold has_lifecycle.
  rewrite Hl, str_eqb_refl. cbn. eauto.
Qed.

Lemma advance_all_runs clock now retention l : forall d, NoDup (map c_ID l) ->
  (forall c, c ∈ l -> is_row d c /\ candidateRetirementDue now retention c = true) ->
  exists d', advance_all clock now l d = (inr true, d').
Proof.
  induction l as [|c l IH]; intros d Hnd Hall; [by eexists|]. apply NoDup_cons in Hnd as [Hn Hnd].
  destruct (Hall c ltac:(by left)) as [(r & Hr & <-) Hdue].
  assert (exists d1, advance_candidate clock now (cr_candidate r) d = (inr true, d1)) as [d1 H1].
  { unfold advance_candidate, bind. apply due_iff in Hdue as [Hd|He].
    - rewrite (proj1 Hd), str_eqb_refl.
      destruct (retire_runs now d _ r Hr eq_refl Hd) as [d1 ->]. by eexists.
    - rewrite (proj1 He), str_eqb_refl.
      replace (str_eqb CandidateLifecycleRetired CandidateLifecycleDraining) with false by reflexivity.
      destruct (delete_runs clock now retention d _ r Hr eq_refl He) as [d1 ->]. by eexists. }
  cbn [advance_all]. unfold bind. rewrite H1. apply IH; [done|]. intros c' Hc'.
  destruct (Hall c' ltac:(by right)) as [(r' & Hr' & He') Hdue']. split; [|done]. exists r'. split; [|done].
  rewrite (proj1 (advance_run _ _ _ _ _ _ H1)); [done|]. intros Heq. apply Hn. rewrite <- Heq.
  by apply list_elem_of_fmap_2.
Qed.

Lemma snapshot_run ids now retention d s d1 :
  LoadCandidateRetirementBatchSnapshot Commits ids now retention d = (inr s, d1) ->
  batch_size (length ids) = true /\ negb (time_is_zero now) && (0 <? retention) = true /\ d1 = d /\
  exists refs tor, references_of d = inr refs /\
    rb_Candidates s = select_candidates (fun c => existsb (str_eqb (c_ID c)) ids &&
      negb (bool_decide (c_ID c ∈ refs)) && candidateRetirementDue now retention c) d /\
    rb_DesiredGeneration s = desired_generation (plan_state d) /\
    rb_InventoryEpoch s = inventory_epoch d /\
    loadTorProfileSetSnapshotTx (exclude_request EmptyString (tor_ids (rb_Candidates s))) refs d = (inr tor, d) /\
    torProfileSemanticDigest tor = inr (rb_TorSemanticDigest s).
Proof.
  intros Hr. unfold LoadCandidateRetirementBatchSnapshot in Hr. run_in Hr. run_in Hr.
  apply transaction_inr in Hr. unfold batch_snapshot in Hr. run_in Hr. run_in Hr.
  apply bind_inr in Hr as (refs & d2 & Href & Hr). injection Href as Href <-. run_in Hr.
  apply bind_inr in Hr as (tor & d2 & Htor & Hr). pose proof Htor as Htor'. injection Htor' as _ <-.
  run_in Hr. apply ret_inr in Hr as [<- ->]. split_and!; [done..|]. exists refs, tor. by split_and!.
Qed.

Lemma identity_refl c : c_ID c <> EmptyString -> candidateRetirementIdentityMatches c c = true.
Proof.
  intros Hn. unfold candidateRetirementIdentityMatches. apply str_eqb_neq in Hn. by rewrite Hn, !str_eqb_refl.
Qed.

Lemma selected_nonempty cond d c : keyed d -> In c (select_candidates cond d) -> c_ID c <> EmptyString.
Proof.
  intros Hk Hin He. apply select_In in Hin as (r & Hr & _); [|done]. rewrite He in Hr.
  by rewrite (proj2 Hk) in Hr.
Qed.

Lemma current_of_selected refs now retention d cond c : keyed d -> In c (select_candidates cond d) ->
  c_ID c ∉ refs -> candidateRetirementDue now retention c = true ->
  current_candidate refs now retention d c = Some c.
Proof.
  intros Hk Hin Hn Hdue. pose proof (selected_nonempty _ _ _ Hk Hin) as Hne.
  apply (select_In _ _ _ Hk) in Hin as (r & Hr & <- & _).
  unfold current_candidate. by rewrite Hr, Hdue, bool_decide_eq_false_2, identity_refl by done.
Qed.

Lemma mapM_same {A : Type} (f : A -> option A) l : (forall x, In x l -> f x = Some x) -> mapM f l = Some l.
Proof.
  intros Hf. apply mapM_Some. induction l as [|x l IH]; constructor; [apply Hf; by left|].
  apply IH. intros y Hy. apply Hf. by right.
Qed.

Lemma selected_batch_size cond ids d : keyed d -> batch_size (length ids) = true ->
  select_candidates cond d <> [] ->
  (forall c, cond c = true -> existsb (str_eqb (c_ID c)) ids = true) ->
  batch_size (length (select_candidates cond d)) = true.
Proof.
  intros Hk Hb Hne Hin. set (l := select_candidates cond d) in *.
  assert (length l <= length ids)%nat as Hle.
  { rewrite <- (length_map c_ID l). apply NoDup_incl_length; [by apply NoDup_ListNoDup, select_NoDup|].
    intros id (c & <- & Hc)%in_map_iff. apply select_In in Hc as (_ & _ & _ & Hc); [|done].
    apply Hin, existsb_exists in Hc as (x & Hx & He). apply str_eqb_eq in He. by subst. }
  unfold batch_size in *. apply andb_true_iff in Hb as [_ Hb%Nat.leb_le]. apply andb_true_iff.
  split; [by destruct l|]. apply Nat.leb_le. lia.
Qed.

Lemma advance_checks cond d expected : keyed d -> expected = select_candidates cond d ->
  bool_decide (NoDup (map c_ID expected)) &&
  negb (existsb (fun c => str_eqb (c_ID c) EmptyString) expected) = true.
Proof.
  intros Hk ->. rewrite bool_decide_eq_true_2 by by apply select_NoDup.
  destruct (existsb _ _) eqn:E; [|done]. apply existsb_exists in E as (c & Hc & He). str_bool.
  by apply selected_nonempty in Hc.
Qed.

Lemma advance_batch_runs clock now retention d l generation epoch digest refs tor d2 :
  unchanged_since generation epoch d = true -> references_of d = inr refs ->
  (forall c, In c l -> current_candidate refs now retention d c = Some c) ->
  loadTorProfileSetSnapshotTx (exclude_request EmptyString (tor_ids l)) refs d = (inr tor, d) ->
  torProfileSemanticDigest tor = inr digest -> advance_all clock now l d = (inr true, d2) ->
  advance_batch clock l generation epoch digest now retention d =
    (inr {| rr_ChangedCount := length l |}, d2 <| inventory_epoch := inventory_epoch d2 + 1 |>).
Proof.
  intros Hu Href Hcur Htor Hdig Hadv. unfold advance_batch, bind, get. cbn zeta. rewrite Hu. cbn [negb].
  unfold loadCandidateRetirementReferencesTx. rewrite Href, (mapM_same _ l Hcur), Htor.
  unfold lift. rewrite Hdig. cbn [ret]. rewrite (torProfileSemanticDigest_ok _ _ Hdig). cbn [negb]. by rewrite Hadv.
Qed.

(** C26.  Due candidates leave.  On an inventory whose identifiers are in
    order, take a snapshot of a batch of them while the desired plan is the applied one.
    When it found any, advancing what it found, with the generation, the epoch and the
    digest it gave and nothing changed since, answers that all of them advanced: every
    listed candidate that no plan, assignment, reserve or pool refers to and that is
    due is retired, or deleted when it was retired, and the epoch moves. *)
Theorem due_candidates_advance clock ids now retention d s d1 refs :
  inventory_ok d -> candidates d !! EmptyString = None ->
  LoadCandidateRetirementBatchSnapshot Commits ids now retention d = (inr s, d1) ->
  0 <= rb_DesiredGeneration s -> applied_generation (plan_state d) = rb_DesiredGeneration s ->
  rb_Candidates s <> [] -> references_of d = inr refs ->
  exists d', AdvanceCandidateRetirementBatch Commits clock (rb_Candidates s) (rb_DesiredGeneration s)
      (rb_InventoryEpoch s) (rb_TorSemanticDigest s) now retention d =
      (inr {| rr_ChangedCount := length (rb_Candidates s) |}, d') /\
    inventory_epoch d' = inventory_epoch d + 1 /\
    forall id r, In id ids -> candidates d !! id = Some r -> id ∉ refs ->
      candidateRetirementDue now retention (cr_candidate r) = true ->
      candidates d' !! id = advanced_row now r.
Proof.
  intros Hok Hempty Hs Hgen Happ Hne Href. pose proof (conj (io_keyed d Hok) Hempty : keyed d) as Hk.
  apply snapshot_run in Hs as (Hb & Ht & _ & refs' & tor & Href' & Hc & Hg & He & Htor & Hdig).
  rewrite Href in Href'. injection Href' as <-. set (l := rb_Candidates s) in *.
  assert (batch_size (length l) = true) as Hsize.
  { rewrite Hc in Hne |- *. apply (selected_batch_size _ ids); [done..|]. intros c ?. by split_bool. }
  assert (forall c, c ∈ l -> is_row d c /\ c_ID c ∉ refs /\ candidateRetirementDue now retention c = true) as Hrow.
  { intros c Hin. rewrite Hc in Hin. apply list_elem_of_In, select_In in Hin as (r & Hr & Hrc & Hcond); [|done].
    split_bool. match goal with Hn : bool_decide _ = false |- _ => rewrite bool_decide_eq_false in Hn end.
    split_and!; [by exists r|done|done]. }
  assert (NoDup (map c_ID l)) as Hnd by (rewrite Hc; by apply select_NoDup).
  destruct (advance_all_runs clock now retention l d Hnd) as [d2 H2].
  { intros c Hin. by destruct (Hrow c Hin) as (? & _ & ?). }
  exists (d2 <| inventory_epoch := inventory_epoch d2 + 1 |>). split_and!.
  - apply andb_true_iff in Ht as [Hz Hret]. unfold AdvanceCandidateRetirementBatch, check_times.
    rewrite Hsize, Hz, Hret, (proj2 (Z.leb_le _ _) Hgen), (advance_checks _ _ _ Hk Hc).
    cbn [check bind ret]. rewrite transaction_Commits.
    erewrite advance_batch_runs; [done| |exact Href| |exact Htor|exact Hdig|exact H2].
    + unfold unchanged_since. by rewrite He, Happ, <- Hg, !Z.eqb_refl.
    + intros c Hin. rewrite Hc in Hin. eapply current_of_selected; [done|exact Hin|..].
      all: apply Hrow; rewrite Hc; by apply list_elem_of_In.
  - destruct (advance_all_ok _ _ _ _ _ _ Hnd (fun c Hin => proj1 (Hrow c Hin)) H2 Hok) as [_ He2].
    destruct d2; simpl in *. congruence.
  - intros id r Hin Hr Hn Hdue. apply advance_all_run in H2 as [_ Hall]; [|done].
    assert (candidates (d2 <| inventory_epoch := inventory_epoch d2 + 1 |>) = candidates d2) as -> by by destruct d2.
    pose proof (proj1 Hk _ _ Hr) as Hid.
    assert (cr_candidate r ∈ l) as Hl.
    { rewrite Hc. apply list_elem_of_In, select_In; [done|]. exists r. rewrite Hid. split_and!; [done..|].
      rewrite Hdue, bool_decide_eq_false_2 by done. rewrite andb_true_r. cbn. rewrite andb_true_r.
      apply existsb_exists. exists id. split; [done|apply str_eqb_refl]. }
    rewrite <- Hid. apply Hall; [| |done|by rewrite Hid].
    + intros c Hin'. by apply Hrow.
    + intros c Hin'. destruct (Hrow c Hin') as ((r' & _ & <-) & _ & Hdue').
      apply due_iff in Hdue' as [[? _]|[? _]]; auto.
Qed.
End Progress.

(** A bridge-free inventory: a candidate whose grace is over and one that was retired
    an hour ago, and no plan yet. *)
#[local] Instance leaving_codec : RetirementCodec := {|
  decode_persisted := fun _ => None; marshal_tor := fun _ => Some "[]"%string |}.

Definition leaving (id lifecycle : string) (drain retired : option Z) : CandidateRow :=
  {| cr_candidate := (stored_candidate id) <| c_Lifecycle := lifecycle |> <| c_DrainAfter := drain |>
       <| c_RetiredAt := retired |>; cr_encrypted := "vless://" |}.

Definition leaving_database : Database :=
  new_database
    <| candidates := {["cand_a"%string := leaving "cand_a" CandidateLifecycleDraining (Some 50) None;
                       "cand_b"%string := leaving "cand_b" CandidateLifecycleRetired (Some 50) (Some 60)]} |>
    <| sources := {["s"%string := stored_source]} |>.

Lemma leaving_ok : inventory_ok leaving_database.
Proof.
  assert (forall k r, candidates leaving_database !! k = Some r ->
    k = "cand_a"%string /\ r = leaving "cand_a" CandidateLifecycleDraining (Some 50) None \/
    k = "cand_b"%string /\ r = leaving "cand_b" CandidateLifecycleRetired (Some 50) (Some 60)) as Hrows.
  { intros k r. cbn. rewrite lookup_insert_Some, lookup_singleton_Some. naive_solver. }
  assert (forall k s, sources leaving_database !! k = Some s -> k = "s"%string /\ s = stored_source) as Hsrc.
  { intros k s. cbn. rewrite lookup_singleton_Some. naive_solver. }
  split.
  - intros k r [[-> ->]|[-> ->]]%Hrows; reflexivity.
  - intros k r [[_ ->]|[_ ->]]%Hrows; by exists stored_source.
  - intros k r [[_ ->]|[_ ->]]%Hrows; [right; left|right; right]; cbn; eauto.
  - intros i j x y [-> ->]%Hsrc [-> ->]%Hsrc. done.
  - intros k s [-> ->]%Hsrc. done.
Qed.

Lemma due_candidates_advance_witness : exists s d',
    AdvanceCandidateRetirementBatch Commits 100 (rb_Candidates s) (rb_DesiredGeneration s)
      (rb_InventoryEpoch s) (rb_TorSemanticDigest s) (of_unix 100) 30 leaving_database =
      (inr {| rr_ChangedCount := 2 |}, d') /\
    inventory_epoch d' = 1 /\ candidates d' !! "cand_b"%string = None.
Proof.
  destruct (LoadCandidateRetirementBatchSnapshot Commits ["cand_a"; "cand_b"]%string (of_unix 100) 30
    leaving_database) as [[e|s] d1] eqn:Es; [vm_compute in Es; discriminate|].
  pose proof Es as Hs. vm_compute in Es. injection Es as Es _.
  destruct (due_candidates_advance 100 ["cand_a"; "cand_b"]%string (of_unix 100) 30 leaving_database s d1 ∅
    leaving_ok eq_refl Hs) as (d' & Hr & He & Hrow); [by subst s..|vm_compute; reflexivity|].
  exists s, d'. split; [by rewrite Hr; subst s|]. split; [exact He|].
  transitivity (advanced_row (of_unix 100) (leaving "cand_b" CandidateLifecycleRetired (Some 50) (Some 60)));
    [|vm_compute; reflexivity].
  apply Hrow; [by right; left|vm_compute; reflexivity|apply not_elem_of_empty|vm_compute; reflexivity].
Defined.
