(* ===== verification/XrayConfig.v ===== *)
(** What a link of a subscription becomes: the configuration of an outbound and the
    identity of its route (internal/xrayconfig). *)
From Stdlib Require Import String Ascii.
From S2P Require Import Prelude Effects GoOrder GoStrings GoNet Sha256.

#[local] Open Scope Z_scope.
#[local] Open Scope effect_scope.

(** ** The standard library *)

(** A parsed link: [net/url]. *)
Record URL := {
  u_Scheme : string;
  u_User : option string;
  u_Hostname : string;
  u_Port : string;
  u_RawQuery : string
}.

Abbreviation Values := (gmap string (list string)) (only parsing).

(** What the code asks of an address ([net/netip]): whether it is an IPv6 address, its
    zone, and after [Unmap] again the kind and the text. *)
Record IP := { ip_is6 : bool; ip_zone : string; ip_unmapped6 : bool; ip_text : string }.

Class NetLib : Type := {
  parse_url : string -> option URL;
  (** the pairs of a query, and whether all of it was well formed *)
  parse_query : string -> Values * bool;
  parse_ip : string -> option IP
}.

Definition query_get (query : Values) (key : string) : string :=
  match query !! key with Some (value :: _) => value | _ => EmptyString end.

Definition max_int : Z := 2 ^ 63 - 1.

(** [strconv.Atoi]: the number, and whether there is no error; out of range it is the
    nearest one. *)
Definition atoi (s : string) : Z * bool :=
  let '(negative, digits) := match s with
    | String c rest => if Ascii.eqb c "-" then (true, rest)
                       else if Ascii.eqb c "+" then (false, rest) else (false, s)
    | EmptyString => (false, s)
    end in
  if str_eqb digits EmptyString || negb (all_digits digits) then (0, false)
  else
    let value := if negative : bool then - digits_value digits 0 else digits_value digits 0 in
    if value <? - max_int - 1 then (- max_int - 1, false)
    else if max_int <? value then (max_int, false) else (value, true).

Definition index_last (c : ascii) (s : string) : option (string * string) :=
  match reverse (split_at c s) with
  | after :: before =>
      if bool_decide (before = []) then None
      else Some (join (String c EmptyString) (reverse before), after)
  | [] => None
  end.

(** [net.SplitHostPort]: none is an error. *)
Definition split_host_port (s : string) : option (string * string) :=
  match index_last ":" s with
  | None => None
  | Some (before, port) =>
      if has_prefix "[" s then
        match cut "]" s with
        | None => None
        | Some (opened, rest) =>
            if negb (str_eqb rest (String ":" port)) then None
            else
              let host := str_drop 1 opened in
              if contains_char "[" host || contains_char "[" rest || contains_char "]" rest then None
              else Some (host, port)
        end
      else if contains_char ":" before || contains_char "[" s || contains_char "]" s then None
      else Some (before, port)
  end.

(** [crypto/hmac] with SHA-256. *)
Definition hmac_sha256 (key message : list Z) : list Z :=
  let key := if (64 <? length key)%nat then sha256 key else key in
  let block := key ++ repeat 0 (64 - length key) in
  sha256 (map (Z.lxor 0x5C) block ++ sha256 (map (Z.lxor 0x36) block ++ message)).

Definition base64_alphabet : list ascii :=
  list_ascii_of_string "ABCDEFGHIJKLMNOPQRSTUVWXYZabcdefghijklmnopqrstuvwxyz0123456789-_".
Definition base64_digit (n : Z) : ascii := nth (Z.to_nat n) base64_alphabet "A"%char.

(** [base64.RawURLEncoding]. *)
Fixpoint base64_url (bytes : list Z) : list ascii :=
  match bytes with
  | a :: b :: c :: rest =>
      base64_digit (a / 4) :: base64_digit (a `mod` 4 * 16 + b / 16) ::
      base64_digit (b `mod` 16 * 4 + c / 64) :: base64_digit (c `mod` 64) :: base64_url rest
  | [a; b] => [base64_digit (a / 4); base64_digit (a `mod` 4 * 16 + b / 16);
               base64_digit (b `mod` 16 * 4)]
  | [a] => [base64_digit (a / 4); base64_digit (a `mod` 4 * 16)]
  | [] => []
  end.

Example standard_values :
  hex_encode (hmac_sha256 (bytes_of "Jefe") (bytes_of "what do ya want for nothing?")) =
    "5bdcc146bf60754e6a042426089575c75a003f089d2739839dec58b964ec3843"%string /\
  map (fun s => string_of_list_ascii (base64_url (bytes_of s))) ["foobar"; "fooba"; "foob"]%string =
    ["Zm9vYmFy"; "Zm9vYmE"; "Zm9vYg"]%string /\
  map atoi ["443"; "0443"; "-1"; "+7"; "x"; EmptyString; "9223372036854775808"]%string =
    [(443, true); (443, true); (-1, true); (7, true); (0, false); (0, false); (max_int, false)] /\
  map split_host_port ["127.0.0.1:9050"; "[::1]:80"; "::1"; "host"; "[::1]"; "a[b:1"]%string =
    [Some ("127.0.0.1", "9050"); Some ("::1", "80"); None; None; None; None]%string.
Proof. vm_compute. auto. Qed.

(** ** Configurations *)

(** An [any] made of maps, slices, strings, numbers and raw JSON. *)
Inductive Value :=
  | VString (s : string)
  | VNumber (n : Z)
  | VObject (fields : list (string * Value))
  | VList (items : list Value)
  | VRaw (json : string).

Inductive LinkError :=
  | InvalidLink | InvalidPort | InvalidQuery | InvalidHost | InvalidServerName
  | InvalidFrontingHost | AmbiguousQuery | UnsupportedTransport (name : string)
  | UnsupportedSecurity (name : string) | PublicKeyRequired.

(** The strict reading of an [extra] object: its mode and padding. *)
Class ExtraCodec : Type := decode_extra : string -> option (string * string).

Definition first (query : Values) (key fallback : string) : string :=
  let value := trim_space (query_get query key) in
  if str_eqb value EmptyString then fallback else value.

(** The field that [optional] adds, if it adds one. *)
Definition optional (key value : string) : list (string * Value) :=
  if str_eqb value EmptyString then [] else [(key, VString value)].

Definition xhttpExtra `{ExtraCodec} (value : string) : string * string * option string :=
  let value := trim_space value in
  if negb (has_prefix "{" value) then (EmptyString, EmptyString, None)
  else match decode_extra value with
       | Some (mode, padding) => (trim_space mode, trim_space padding, Some value)
       | None => (EmptyString, EmptyString, None)
       end.

Definition known_transport (transport : string) : bool :=
  existsb (str_eqb transport) ["tcp"; "raw"; "xhttp"; "ws"; "grpc"]%string.
Definition known_security (security : string) : bool :=
  existsb (str_eqb security) [EmptyString; "none"; "reality"; "tls"]%string.

Definition rename_transport (transport : string) : string :=
  if str_eqb transport "websocket" then "ws"%string else transport.

(** The parts of a link that must be there. *)
Definition accepted_link `{NetLib} (link : string) : LinkError + (URL * string * Z) :=
  match parse_url (trim_space link) with
  | None => inl InvalidLink
  | Some parsed =>
      match u_User parsed with
      | None => inl InvalidLink
      | Some user =>
          if negb (str_eqb (u_Scheme parsed) "vless") || str_eqb user EmptyString ||
             str_eqb (u_Hostname parsed) EmptyString || str_eqb (u_Port parsed) EmptyString
          then inl InvalidLink
          else
            let '(port, ok) := atoi (u_Port parsed) in
            if negb ok || (port <? 1) || (65535 <? port) then inl InvalidPort
            else inr (parsed, user, port)
      end
  end.

Definition vless_user (id : string) (query : Values) : Value :=
  VObject ([("id", VString id); ("encryption", VString (first query "encryption" "none"))]%string ++
           optional "flow" (first query "flow" EmptyString)).

(** The settings of the transport, with the name of their field. *)
Definition transport_settings `{ExtraCodec} (transport : string) (query : Values) :
    list (string * Value) :=
  let path := ("path"%string, VString (first query "path" "/")) in
  if str_eqb transport "tcp" then [("tcpSettings"%string, VObject [])]
  else if str_eqb transport "raw" then [("rawSettings"%string, VObject [])]
  else if str_eqb transport "xhttp" then
    let '(extraMode, extraPadding, extra) := xhttpExtra (query_get query "extra") in
    [("xhttpSettings"%string, VObject ([path] ++
       optional "mode" (first query "mode" extraMode) ++
       optional "host" (first query "host" EmptyString) ++
       optional "xPaddingBytes" (first query "x_padding_bytes"
                                   (first query "xPaddingBytes" extraPadding)) ++
       match extra with Some raw => [("extra"%string, VRaw raw)] | None => [] end))]
  else if str_eqb transport "ws" then
    let host := first query "host" EmptyString in
    [("wsSettings"%string, VObject ([path] ++
       if str_eqb host EmptyString then []
       else [("headers"%string, VObject [("Host"%string, VString host)])]))]
  else [("grpcSettings"%string, VObject [("serviceName"%string,
          VString (first query "serviceName" (first query "path" EmptyString)))])].

Definition security_settings (security hostname : string) (query : Values) :
    LinkError + list (string * Value) :=
  let common := [("serverName", VString (first query "sni" hostname));
                 ("fingerprint", VString (first query "fp" "chrome"))]%string in
  if str_eqb security "reality" then
    let publicKey := first query "pbk" EmptyString in
    if str_eqb publicKey EmptyString then inl PublicKeyRequired
    else inr [("security"%string, VString "reality");
              ("realitySettings"%string, VObject (common ++ [("password"%string, VString publicKey)] ++
                 optional "shortId" (first query "sid" EmptyString) ++
                 optional "spiderX" (first query "spx" EmptyString) ++
                 optional "mldsa65Verify" (first query "pqv" EmptyString)))]
  else if str_eqb security "tls" then
    inr [("security"%string, VString "tls"); ("tlsSettings"%string, VObject common)]
  else inr [].

Definition VLESSOutbound `{NetLib} `{ExtraCodec} (link tag : string) : LinkError + Value :=
  match accepted_link link with
  | inl e => inl e
  | inr (parsed, user, port) =>
      let query := (parse_query (u_RawQuery parsed)).1 in
      let transport := rename_transport (first query "type" "tcp") in
      if negb (known_transport transport) then inl (UnsupportedTransport transport)
      else
        let security := first query "security" EmptyString in
        if negb (known_security security) then inl (UnsupportedSecurity security)
        else match security_settings security (u_Hostname parsed) query with
             | inl e => inl e
             | inr secured =>
                 inr (VObject [
                   ("tag", VString tag); ("protocol", VString "vless");
                   ("settings", VObject [("vnext", VList [VObject [
                      ("address", VString (u_Hostname parsed)); ("port", VNumber port);
                      ("users", VList [vless_user user query])]])]);
                   ("streamSettings", VObject (("network", VString transport) ::
                      transport_settings transport query ++ secured))]%string)
             end
  end.

(** The name and the password that keep the circuits of a client apart. *)
Definition tor_user (clientID : string) : string := ("hydrat-" ++ clientID)%string.
Definition tor_password (secret : list Z) (clientID : string) : string :=
  string_of_list_ascii (base64_url (take 18 (hmac_sha256 secret (bytes_of clientID)))).

Definition TorOutbound (socksAddress tag clientID : string) (secret : list Z) : Value :=
  let '(host, portText) := default ("127.0.0.1", "9050")%string (split_host_port socksAddress) in
  VObject [
    ("tag", VString tag); ("protocol", VString "socks");
    ("settings", VObject [("servers", VList [VObject [
       ("address", VString host); ("port", VNumber (atoi portText).1);
       ("users", VList [VObject [("user", VString (tor_user clientID));
                                 ("pass", VString (tor_password secret clientID))]])]])])]%string.

(** ** Identities *)

Record Identity := { RouteKey : string; FailureDomain : string }.

Definition containsIdentityControl (value : string) : bool :=
  existsb (fun c => let n := N_of_ascii c in (n <? 0x20)%N || (n =? 0x7F)%N)
    (list_ascii_of_string value).

Definition in_range (low high c : ascii) : bool :=
  (N_of_ascii low <=? N_of_ascii c)%N && (N_of_ascii c <=? N_of_ascii high)%N.

Definition isIdentityHostnameCharacter (c : ascii) : bool :=
  in_range "a" "z" c || in_range "A" "Z" c || in_range "0" "9" c || Ascii.eqb c "-".

(** [strings.ToLower] of ASCII text. *)
Definition lower_char (c : ascii) : ascii :=
  if in_range "A" "Z" c then ascii_of_N (N_of_ascii c + 32) else c.
Definition lower (s : string) : string :=
  string_of_list_ascii (map lower_char (list_ascii_of_string s)).

Definition label_ok (label : string) : bool :=
  let chars := list_ascii_of_string label in
  (0 <? length chars)%nat && (length chars <=? 63)%nat &&
  negb (bool_decide (head chars = Some "-"%char)) &&
  negb (bool_decide (last chars = Some "-"%char)) &&
  forallb isIdentityHostnameCharacter chars.

Section Identity.
Context `{NetLib}.

Definition normalizeIdentityHost (value : string) : option string :=
  let value := trim_suffix "." (trim_space value) in
  if str_eqb value EmptyString || contains_char "|" value || containsIdentityControl value then None
  else match parse_ip value with
       | Some address => Some (ip_text address)
       | None =>
           if contains_char ":" value || (253 <? String.length value)%nat then None
           else
             let labels := split_at "." value in
             if negb (forallb label_ok labels) then None
             else if Nat.eqb (length labels) 4 && forallb all_digits labels then None
             else Some (lower value)
       end.

Definition normalizeIdentityPort (value : string) : option string :=
  if str_eqb value EmptyString || negb (all_digits value) then None
  else let '(port, ok) := atoi value in
       if negb ok || (port <? 1) || (65535 <? port) then None else Some (decimal port).

Definition normalizeBracketedIdentityFrontingHost (value : string) : option string :=
  match cut "]" value with
  | None => None
  | Some (opened, suffix) =>
      match parse_ip (str_drop 1 opened) with
      | None => None
      | Some address =>
          if negb (ip_is6 address) || negb (str_eqb (ip_zone address) EmptyString) then None
          else
            let host := if ip_unmapped6 address then ("[" ++ ip_text address ++ "]")%string
                        else ip_text address in
            if str_eqb suffix EmptyString then Some host
            else if negb (has_prefix ":" suffix) then None
            else (fun port => (host ++ ":" ++ port)%string) <$>
                 normalizeIdentityPort (str_drop 1 suffix)
      end
  end.

Definition count_char (c : ascii) (s : string) : nat :=
  length (List.filter (Ascii.eqb c) (list_ascii_of_string s)).

Definition normalizeIdentityFrontingHost (value : string) : option string :=
  let value := trim_space value in
  if str_eqb value EmptyString then None
  else if has_prefix "[" value then normalizeBracketedIdentityFrontingHost value
  else match count_char ":" value with
       | O => normalizeIdentityHost value
       | 1%nat =>
           match split_host_port value with
           | None => None
           | Some (host, portText) =>
               host ← normalizeIdentityHost host;
               port ← normalizeIdentityPort portText;
               Some (host ++ ":" ++ port)%string
           end
       | _ => None
       end.

(** None is an ambiguous query. *)
Definition unambiguousIdentityValue (query : Values) (key fallback : string) : option string :=
  match query !! key with
  | None => Some fallback
  | Some [value] =>
      let value := trim_space value in
      Some (if str_eqb value EmptyString then fallback else value)
  | Some _ => None
  end.

Definition prefixedIdentityDigest (prefix canonical : string) : string :=
  (prefix ++ hex_encode (sha256 (bytes_of canonical)))%string.

Definition or_error {A : Type} (e : LinkError) (o : option A) : LinkError + A :=
  match o with Some a => inr a | None => inl e end.

(** Reality needs its public key. *)
Definition key_present (security : string) (query : Values) : LinkError + unit :=
  if str_eqb security "reality" then
    key <~ or_error AmbiguousQuery (unambiguousIdentityValue query "pbk" EmptyString) ;;
    if str_eqb key EmptyString then inl PublicKeyRequired else inr tt
  else inr tt.

Definition identity_server (security host : string) (query : Values) : LinkError + string :=
  if str_eqb security "tls" || str_eqb security "reality" then
    sni <~ or_error AmbiguousQuery (unambiguousIdentityValue query "sni" host) ;;
    or_error InvalidServerName (normalizeIdentityHost sni)
  else inr EmptyString.

Definition identity_fronting (transport : string) (query : Values) : LinkError + string :=
  if str_eqb transport "ws" || str_eqb transport "xhttp" then
    fronting <~ or_error AmbiguousQuery (unambiguousIdentityValue query "host" EmptyString) ;;
    if str_eqb fronting EmptyString then inr EmptyString
    else or_error InvalidFrontingHost (normalizeIdentityFrontingHost fronting)
  else inr EmptyString.

Definition identity_transport (query : Values) : LinkError + string :=
  transport <~ or_error AmbiguousQuery (unambiguousIdentityValue query "type" "tcp") ;;
  let transport := rename_transport transport in
  if known_transport transport then inr transport else inl (UnsupportedTransport transport).

Definition identity_security (query : Values) : LinkError + string :=
  security <~ or_error AmbiguousQuery (unambiguousIdentityValue query "security" "none") ;;
  if known_security security
  then inr (if str_eqb security EmptyString then "none"%string else security)
  else inl (UnsupportedSecurity security).

(** The host of a link is read before its port. *)
Definition identity_host (link : string) : LinkError + (URL * string * Z) :=
  match accepted_link link with
  | inl InvalidPort =>
      match parse_url (trim_space link) with
      | Some parsed =>
          host <~ or_error InvalidHost (normalizeIdentityHost (u_Hostname parsed)) ;; inl InvalidPort
      | None => inl InvalidLink
      end
  | inl e => inl e
  | inr (parsed, _, port) =>
      host <~ or_error InvalidHost (normalizeIdentityHost (u_Hostname parsed)) ;;
      inr (parsed, host, port)
  end.

(** The host, port, transport, security, server name and fronting host of a link. *)
Definition identity_parts (link : string) :
    LinkError + (string * string * string * string * string * string) :=
  parsed <~ identity_host link ;;
  let '(parsed, host, port) := parsed in
  let '(query, clean) := parse_query (u_RawQuery parsed) in
  if negb clean then inl InvalidQuery
  else
    transport <~ identity_transport query ;;
    security <~ identity_security query ;;
    checked <~ key_present security query ;;
    serverName <~ identity_server security host query ;;
    frontingHost <~ identity_fronting transport query ;;
    inr (host, decimal port, transport, security, serverName, frontingHost).

Definition failure_canonical (host port : string) : string := join "|" ["v1"%string; host; port].
Definition route_canonical (host port transport security serverName frontingHost : string) : string :=
  join "|" ["v1"%string; host; port; transport; security; serverName; frontingHost].

Definition VLESSIdentity (link : string) : LinkError + Identity :=
  match identity_parts link with
  | inl e => inl e
  | inr (host, port, transport, security, serverName, frontingHost) => inr {|
      RouteKey := prefixedIdentityDigest "route-v1-"
                    (route_canonical host port transport security serverName frontingHost);
      FailureDomain := prefixedIdentityDigest "domain-v1-" (failure_canonical host port) |}
  end.
End Identity.

(** ** Identified links render *)

Section Render.
Context `{NetLib} `{ExtraCodec}.

Lemma unambiguous_first query key fallback value other :
  unambiguousIdentityValue query key fallback = Some value ->
  first query key other = value \/ first query key other = other /\ value = fallback.
Proof.
  unfold unambiguousIdentityValue, first, query_get.
  destruct (query !! key) as [[|v [|]]|]; intros [= <-]; [|by right].
  destruct (str_eqb (trim_space v) EmptyString); auto.
Qed.

(** What an identity tells of its link. *)
Lemma identity_parts_inr link host port transport security server fronting :
  identity_parts link = inr (host, port, transport, security, server, fronting) ->
  exists parsed user number query,
    accepted_link link = inr (parsed, user, number) /\ port = decimal number /\
    normalizeIdentityHost (u_Hostname parsed) = Some host /\
    parse_query (u_RawQuery parsed) = (query, true) /\
    identity_transport query = inr transport /\ identity_security query = inr security /\
    key_present security query = inr tt /\ identity_server security host query = inr server /\
    identity_fronting transport query = inr fronting.
Proof.
  unfold identity_parts, identity_host, or_error.
  destruct (accepted_link link) as [[]|[[parsed user] number]]; try discriminate.
  { destruct (parse_url _) as [u|]; [|discriminate]. by destruct (normalizeIdentityHost _). }
  destruct (normalizeIdentityHost (u_Hostname parsed)) as [h|] eqn:Eh; [|discriminate].
  cbn [attempt]. destruct (parse_query _) as [query []] eqn:Eq; [|discriminate]. cbn [negb].
  destruct (identity_transport query) as [|t] eqn:Et; [discriminate|]. cbn [attempt].
  destruct (identity_security query) as [|s] eqn:Es; [discriminate|].
  cbn [attempt]. destruct (key_present s query) as [|[]] eqn:Ek; [discriminate|].
  cbn [attempt]. destruct (identity_server s h query) as [|n] eqn:En; [discriminate|].
  cbn [attempt]. destruct (identity_fronting t query) as [|f] eqn:Ef; [discriminate|].
  intros [= <- <- <- <- <- <-]. exists parsed, user, number, query. split_and!; done.
Qed.

Lemma identity_transport_first query transport : identity_transport query = inr transport ->
  rename_transport (first query "type" "tcp") = transport /\ known_transport transport = true.
Proof.
  unfold identity_transport, or_error.
  destruct (unambiguousIdentityValue _ _ _) as [t|] eqn:E; [|discriminate]. cbn [attempt].
  destruct (known_transport (rename_transport t)) eqn:Ek; [|discriminate]. intros [= <-].
  by destruct (unambiguous_first _ _ _ _ "tcp" E) as [->|[-> ->]].
Qed.

Lemma identity_security_first query security : identity_security query = inr security ->
  known_security security = true /\ known_security (first query "security" EmptyString) = true /\
  (first query "security" EmptyString = "reality"%string -> security = "reality"%string).
Proof.
  unfold identity_security, or_error.
  destruct (unambiguousIdentityValue _ _ _) as [s|] eqn:E; [|discriminate]. cbn [attempt].
  destruct (known_security s) eqn:Ek; [|discriminate]. intros [= <-].
  destruct (unambiguous_first _ _ _ _ EmptyString E) as [->|[-> ->]]; [|done].
  destruct (str_eqb s EmptyString) eqn:Ee; [|done]. str_bool. by subst.
Qed.

Lemma key_present_first query : key_present "reality" query = inr tt ->
  str_eqb (first query "pbk" EmptyString) EmptyString = false.
Proof.
  unfold key_present, or_error. cbn.
  destruct (unambiguousIdentityValue _ _ _) as [k|] eqn:E; [|discriminate]. cbn [attempt].
  destruct (str_eqb k EmptyString) eqn:Ek; [discriminate|]. intros _.
  destruct (unambiguous_first _ _ _ _ EmptyString E) as [->|[_ ->]]; done.
Qed.
End Render.

(** a link that was given an identity renders as an outbound: planning never meets
    an identified candidate whose configuration cannot be built. *)
Theorem identified_links_render `{NetLib} `{ExtraCodec} link tag i :
  VLESSIdentity link = inr i -> exists config, VLESSOutbound link tag = inr config.
Proof.
  unfold VLESSIdentity.
  destruct (identity_parts link) as [|[[[[[host port] transport] security] server] fronting]] eqn:E;
    [discriminate|]. intros _.
  apply identity_parts_inr in E
    as (parsed & user & number & query & Ea & _ & _ & Eq & Et & Es & Ek & _).
  apply identity_transport_first in Et as [Et Hkt].
  apply identity_security_first in Es as (_ & Hks & Hre).
  unfold VLESSOutbound. rewrite Ea, Eq. cbn [fst]. rewrite Et, Hkt, Hks. cbn [negb].
  unfold security_settings.
  destruct (str_eqb (first query "security" _) "reality") eqn:Erl.
  - str_bool. rewrite (Hre Erl) in Ek. rewrite (key_present_first _ Ek). eauto.
  - destruct (str_eqb _ "tls"); eauto.
Qed.

(** ** Identities name routes *)

Section Names.
Context `{NetLib}.

(** The text of an address has no bar unless its zone brings one. *)
Definition plain_addresses : Prop := forall s ip, parse_ip s = Some ip ->
  contains_char "|" s = false \/ ip_zone ip = EmptyString -> contains_char "|" (ip_text ip) = false.

Context (Hplain : plain_addresses).

Abbreviation barless s := (contains_char "|"%char s = false).

Lemma barless_digits s : all_digits s = true -> barless s.
Proof.
  induction s as [|c s IH]; [done|]. cbn [all_digits]. intros [Hc Hs]%andb_true_iff.
  unfold contains_char. cbn [list_ascii_of_string existsb]. apply orb_false_iff.
  split; [|by apply IH]. destruct (Ascii.eqb_spec "|" c) as [<-|]; [discriminate|done].
Qed.

Lemma barless_decimal n : 1 <= n -> barless (decimal n).
Proof. intros Hn. apply barless_digits, decimal_spec. lia. Qed.

(** Lower case neither makes nor removes a bar. *)
Lemma lower_char_bar c : Ascii.eqb "|" (lower_char c) = Ascii.eqb "|" c.
Proof. by destruct c as [[] [] [] [] [] [] [] []]. Qed.

Lemma barless_lower s : barless s -> barless (lower s).
Proof.
  unfold contains_char, lower. rewrite list_ascii_of_string_of_list_ascii.
  induction (list_ascii_of_string s) as [|c l IH]; [done|]. cbn [map existsb].
  rewrite lower_char_bar, !orb_false_iff. intuition.
Qed.

Lemma barless_host value host : normalizeIdentityHost value = Some host -> barless host.
Proof.
  unfold normalizeIdentityHost. set (v := trim_suffix _ _).
  destruct (str_eqb v _ || _ || _) eqn:Eg; [discriminate|].
  rewrite !orb_false_iff in Eg. destruct Eg as [[_ Hv] _].
  destruct (parse_ip v) as [ip|] eqn:Eip.
  - intros [= <-]. eapply Hplain; eauto.
  - destruct (_ || _); [discriminate|]. destruct (negb _); [discriminate|].
    destruct (_ && _); [discriminate|]. intros [= <-]. by apply barless_lower.
Qed.

Lemma barless_port value port : normalizeIdentityPort value = Some port -> barless port.
Proof.
  unfold normalizeIdentityPort. destruct (_ || _); [discriminate|].
  destruct (atoi value) as [n ok]. destruct (_ || _) eqn:E; [discriminate|].
  rewrite !orb_false_iff in E. intros [= <-]. apply barless_decimal. lia.
Qed.

Lemma barless_fronting value host : normalizeIdentityFrontingHost value = Some host -> barless host.
Proof.
  unfold normalizeIdentityFrontingHost. set (v := trim_space value).
  destruct (str_eqb v _); [discriminate|]. destruct (has_prefix "[" v).
  - unfold normalizeBracketedIdentityFrontingHost.
    destruct (cut "]" v) as [[opened suffix]|]; [|discriminate].
    destruct (parse_ip _) as [ip|] eqn:Eip; [|discriminate].
    destruct (negb (ip_is6 ip) || _) eqn:Ez; [discriminate|].
    apply orb_false_iff in Ez as [_ Ez]. apply negb_false_iff in Ez. str_bool.
    pose proof (Hplain _ _ Eip (or_intror Ez)) as Hip. set (h := if ip_unmapped6 ip then _ else _).
    assert (barless h) as Hh.
    { subst h. destruct (ip_unmapped6 ip); [|done]. by rewrite !contains_char_app, Hip. }
    destruct (str_eqb suffix _); [by intros [= <-]|]. destruct (negb _); [discriminate|].
    intros (port & Hp%barless_port & ->)%fmap_Some.
    by rewrite !contains_char_app, Hh, Hp.
  - destruct (count_char _ _) as [|[|]]; [apply barless_host| |discriminate].
    destruct (split_host_port v) as [[h p]|]; [|discriminate].
    intros (host' & Hh%barless_host & (port & Hp%barless_port & [= <-])%bind_Some)%bind_Some.
    by rewrite !contains_char_app, Hh, Hp.
Qed.

Lemma barless_transport t : known_transport t = true -> barless t.
Proof.
  unfold known_transport. cbn [existsb]. rewrite !orb_true_iff.
  intros Ht. repeat destruct Ht as [Ht|Ht]; try discriminate; str_bool; by subst.
Qed.

Lemma barless_security t : known_security t = true -> barless t.
Proof.
  unfold known_security. cbn [existsb]. rewrite !orb_true_iff.
  intros Ht. repeat destruct Ht as [Ht|Ht]; try discriminate; str_bool; by subst.
Qed.

Definition parts_list (p : string * string * string * string * string * string) : list string :=
  let '(host, port, transport, security, serverName, frontingHost) := p in
  [host; port; transport; security; serverName; frontingHost].

Lemma accepted_port link parsed user port :
  accepted_link link = inr (parsed, user, port) -> 1 <= port <= 65535.
Proof.
  unfold accepted_link. destruct (parse_url _) as [u|]; [|done].
  destruct (u_User u); [|done]. destruct (_ || _); [done|]. destruct (atoi _) as [n ok].
  destruct (_ || _) eqn:E; [done|]. rewrite !orb_false_iff in E. intros [= _ _ <-]. lia.
Qed.

Lemma barless_server security host query server : barless host ->
  identity_server security host query = inr server -> barless server.
Proof.
  intros Hh. unfold identity_server, or_error. destruct (_ || _); [|by intros [= <-]].
  destruct (unambiguousIdentityValue _ _ _) as [sni|]; [|discriminate]. cbn [attempt].
  destruct (normalizeIdentityHost sni) as [s|] eqn:E; [|discriminate].
  intros [= <-]. by eapply barless_host.
Qed.

Lemma barless_front transport query fronting :
  identity_fronting transport query = inr fronting -> barless fronting.
Proof.
  unfold identity_fronting, or_error. destruct (_ || _); [|by intros [= <-]].
  destruct (unambiguousIdentityValue _ _ _) as [f|]; [|discriminate]. cbn [attempt].
  destruct (str_eqb f _); [by intros [= <-]|].
  destruct (normalizeIdentityFrontingHost f) as [h|] eqn:E; [|discriminate].
  intros [= <-]. by eapply barless_fronting.
Qed.

(** No part of an identity holds the separator. *)
Lemma identity_parts_barless link p : identity_parts link = inr p ->
  Forall (fun s => barless s) (parts_list p).
Proof.
  destruct p as [[[[[host port] transport] security] server] fronting].
  intros (parsed & user & number & query & Ea & -> & Eh%barless_host & _ & Et & Es & _ & En & Ef)
    %identity_parts_inr.
  apply identity_transport_first in Et as [_ Et]. apply identity_security_first in Es as [Es _].
  apply accepted_port in Ea.
  repeat constructor; eauto using barless_decimal, barless_transport, barless_security,
    barless_server, barless_front with lia.
Qed.

Lemma split_join_bar parts : parts <> [] -> Forall (fun s => barless s) parts ->
  split_at "|" (join "|" parts) = parts.
Proof.
  intros Hne Hp. induction Hp as [|p parts Hp Hps IH]; [done|].
  destruct parts as [|q parts]; [by apply split_at_none|].
  rewrite join_cons2. change ("|" ++ ?s)%string with (String "|" s).
  rewrite split_at_app by done. by rewrite IH.
Qed.
(** ** What an identity names *)

(** The route that a link describes, in its normal form. *)
Record LinkRoute := {
  lr_Host : string;
  lr_Port : Z;
  lr_Transport : string;
  lr_Security : string;
  lr_ServerName : string;
  lr_FrontingHost : string
}.

(** A parameter of the query occurs at most once; a blank one counts as left out. *)
Definition parameter (query : Values) (key fallback value : string) : Prop :=
  query !! key = None /\ value = fallback \/
  exists given, query !! key = Some [given] /\
    value = if str_eqb (trim_space given) EmptyString then fallback else trim_space given.

(** What it takes for a parsed link with this query to describe a route. *)
Record describes (url : URL) (query : Values) (r : LinkRoute) : Prop := {
  ds_scheme : u_Scheme url = "vless"%string;
  ds_user : exists user, u_User url = Some user /\ user <> EmptyString;
  ds_present : u_Hostname url <> EmptyString /\ u_Port url <> EmptyString;
  ds_host : normalizeIdentityHost (u_Hostname url) = Some (lr_Host r);
  ds_port : atoi (u_Port url) = (lr_Port r, true) /\ 1 <= lr_Port r <= 65535;
  ds_transport : exists given, parameter query "type" "tcp" given /\
    lr_Transport r = (if decide (given = "websocket"%string) then "ws"%string else given) /\
    In (lr_Transport r) ["tcp"; "raw"; "xhttp"; "ws"; "grpc"]%string;
  ds_security : parameter query "security" "none" (lr_Security r) /\
    In (lr_Security r) ["none"; "reality"; "tls"]%string;
  ds_key : lr_Security r = "reality"%string ->
    exists key, parameter query "pbk" EmptyString key /\ key <> EmptyString;
  ds_server : if decide (lr_Security r = "none"%string) then lr_ServerName r = EmptyString
    else exists sni, parameter query "sni" (lr_Host r) sni /\
      normalizeIdentityHost sni = Some (lr_ServerName r);
  ds_fronting : if decide (lr_Transport r = "ws"%string \/ lr_Transport r = "xhttp"%string)
    then exists host, parameter query "host" EmptyString host /\
      if decide (host = EmptyString) then lr_FrontingHost r = EmptyString
      else normalizeIdentityFrontingHost host = Some (lr_FrontingHost r)
    else lr_FrontingHost r = EmptyString
}.

Definition names_route (link : string) (r : LinkRoute) : Prop :=
  exists url query, parse_url (trim_space link) = Some url /\
    parse_query (u_RawQuery url) = (query, true) /\ describes url query r.

Definition route_parts (r : LinkRoute) : string * string * string * string * string * string :=
  (lr_Host r, decimal (lr_Port r), lr_Transport r, lr_Security r, lr_ServerName r, lr_FrontingHost r).

Lemma parameter_spec query key fallback value :
  parameter query key fallback value <-> unambiguousIdentityValue query key fallback = Some value.
Proof.
  unfold parameter, unambiguousIdentityValue. destruct (query !! key) as [[|given [|x l]]|]; split.
  - intros [[? _]|(g & [=] & _)]; done.
  - done.
  - intros [[? _]|(g & [= ->] & ->)]; [done|]. reflexivity.
  - intros [= <-]. right. by exists given.
  - intros [[? _]|(g & [=] & _)]; done.
  - done.
  - intros [[_ ->]|(g & [=] & _)]. done.
  - intros [= <-]. by left.
Qed.

Lemma str_eqb_spec s u : reflect (s = u) (str_eqb s u).
Proof. apply iff_reflect. by rewrite str_eqb_eq. Qed.

Lemma existsb_str s l : existsb (str_eqb s) l = true <-> In s l.
Proof.
  rewrite existsb_exists. split; [intros (x & Hx & E); str_bool; by subst|]. intros Hs. exists s.
  split; [done|apply str_eqb_refl].
Qed.

Lemma accepted_link_spec link parsed user number : accepted_link link = inr (parsed, user, number) <->
  parse_url (trim_space link) = Some parsed /\ u_Scheme parsed = "vless"%string /\
  u_User parsed = Some user /\ user <> EmptyString /\ u_Hostname parsed <> EmptyString /\
  u_Port parsed <> EmptyString /\ atoi (u_Port parsed) = (number, true) /\ 1 <= number <= 65535.
Proof.
  unfold accepted_link. destruct (parse_url _) as [u|]; [|naive_solver].
  destruct (u_User u) as [us|] eqn:Eu; [|split; [done|intros ([= ->] & _ & E & _); congruence]].
  destruct (_ || _) eqn:E1.
  { split; [done|]. intros ([= ->] & Hs & Hus & Hn & Hh & Hp & _). rewrite Eu in Hus. injection Hus as ->.
    rewrite Hs, !orb_true_iff, !str_eqb_eq in E1. by destruct E1 as [[[?|?]|?]|?]. }
  rewrite !orb_false_iff, negb_false_iff in E1. destruct E1 as [[[E1 E2] E3] E4]. str_bool.
  destruct (atoi (u_Port u)) as [n ok] eqn:Ea. destruct (_ || _) eqn:E5.
  - split; [done|]. intros ([= ->] & _ & _ & _ & _ & _ & Hn & Hr). rewrite Ea in Hn. injection Hn as -> ->.
    cbn in E5. apply orb_true_iff in E5 as [?|?]; z_bool; lia.
  - rewrite !orb_false_iff, negb_false_iff in E5. destruct E5 as [[-> E5] E6]. z_bool. split.
    + intros [= <- <- <-]. by split_and!.
    + intros ([= ->] & _ & Hus & _ & _ & _ & Hn & _). rewrite Ea in Hn. rewrite Eu in Hus. congruence.
Qed.

(** An identity is made of the parts of the route that the link describes. *)
Lemma names_route_parts link r : names_route link r -> identity_parts link = inr (route_parts r).
Proof.
  intros (url & query & Hu & Hq & [Hs (user & Hus & Hne) [Hh Hp] Hhost [Ha [Hlow Hhigh]] (given & Ht & Et & Kt)
    [Hsec Ksec] Hkey Hserver Hfront]).
  unfold identity_parts, identity_host.
  rewrite (proj2 (accepted_link_spec link url user (lr_Port r))) by by split_and!.
  rewrite Hhost. cbn [or_error attempt]. rewrite Hq. cbn [negb].
  unfold identity_transport. rewrite (proj1 (parameter_spec _ _ _ _) Ht). cbn [or_error attempt].
  assert (rename_transport given = lr_Transport r) as ->.
  { rewrite Et. unfold rename_transport. destruct (decide (given = "websocket"%string)) as [Hw|Hw]; [by rewrite Hw|]. by rewrite (proj2 (str_eqb_neq _ _) Hw). }
  unfold known_transport. rewrite (proj2 (existsb_str _ _) Kt). cbn [attempt].
  unfold identity_security. rewrite (proj1 (parameter_spec _ _ _ _) Hsec). cbn [or_error attempt].
  unfold known_security.
  rewrite (proj2 (existsb_str (lr_Security r) [EmptyString; "none"; "reality"; "tls"]%string)) by (by right).
  assert (str_eqb (lr_Security r) EmptyString = false) as ->.
  { simpl in Ksec. destruct Ksec as [<-|[<-|[<-|[]]]]; done. }
  cbn [attempt].
  assert (key_present (lr_Security r) query = inr tt) as ->.
  { unfold key_present. destruct (str_eqb_spec (lr_Security r) "reality") as [E|]; [|done].
    destruct (Hkey E) as (key & Hk & Hkne). rewrite (proj1 (parameter_spec _ _ _ _) Hk). cbn [or_error attempt].
    by rewrite (proj2 (str_eqb_neq _ _) Hkne). }
  cbn [attempt].
  assert (identity_server (lr_Security r) (lr_Host r) query = inr (lr_ServerName r)) as ->.
  { unfold identity_server. simpl in Ksec. destruct Ksec as [E|[E|[E|[]]]]; rewrite <- E in Hserver |- *; cbn in Hserver |- *;
      [by rewrite Hserver|..]; destruct Hserver as (sni & Hn & Hv);
      rewrite (proj1 (parameter_spec _ _ _ _) Hn); cbn [or_error attempt]; by rewrite Hv. }
  cbn [attempt].
  assert (identity_fronting (lr_Transport r) query = inr (lr_FrontingHost r)) as ->; [|done].
  unfold identity_fronting. destruct (decide _) as [[-> | ->]|Hn] in Hfront; cbn [str_eqb orb].
  3: { rewrite (proj2 (str_eqb_neq _ _)) by tauto. rewrite (proj2 (str_eqb_neq _ _)) by tauto. by rewrite Hfront. }
  all: rewrite str_eqb_refl, ?orb_true_r; cbn [orb]; destruct Hfront as (host & Hho & Hfront);
    rewrite (proj1 (parameter_spec _ _ _ _) Hho); cbn [or_error attempt];
    destruct (decide (host = EmptyString)) as [->|He]; [by rewrite Hfront|];
    rewrite (proj2 (str_eqb_neq _ _) He); by rewrite Hfront.
Qed.

Lemma parts_name_route link p : identity_parts link = inr p ->
  exists r, names_route link r /\ p = route_parts r.
Proof.
  destruct p as [[[[[host port] transport] security] server] fronting].
  intros (parsed & user & number & query & Ha & -> & Hhost & Hq & Ht & Hs & Hk & Hsrv & Hf)%identity_parts_inr.
  apply accepted_link_spec in Ha as (Hu & Hsch & Hus & Hne & Hh & Hp & Hn & Hr).
  exists {| lr_Host := host; lr_Port := number; lr_Transport := transport; lr_Security := security;
            lr_ServerName := server; lr_FrontingHost := fronting |}.
  split; [|done]. exists parsed, query. split_and!; [done..|].
  unfold identity_transport, identity_security in Ht, Hs.
  destruct (unambiguousIdentityValue query "type" "tcp") as [given|] eqn:Et; [|done]. cbn [or_error attempt] in Ht.
  destruct (known_transport _) eqn:Kt; [|done]. injection Ht as <-.
  destruct (unambiguousIdentityValue query "security" "none") as [sec|] eqn:Es; [|done]. cbn [or_error attempt] in Hs.
  destruct (known_security sec) eqn:Ks; [|done].
  assert (sec <> EmptyString) as Hsec.
  { apply parameter_spec in Es as [[_ ->]|(g & _ & ->)]; [done|]. by destruct (str_eqb_spec (trim_space g) EmptyString). }
  rewrite (proj2 (str_eqb_neq _ _) Hsec) in Hs. injection Hs as <-.
  apply existsb_str in Kt. apply existsb_str in Ks as [E|Ks]; [by symmetry in E|].
  apply parameter_spec in Et, Es. split; cbn; [done|by exists user|done|done|done| |done| | |].
  - exists given. split_and!; [done| |done]. unfold rename_transport.
    destruct (decide (given = "websocket"%string)) as [Hw|Hw]; [by rewrite Hw|]. by rewrite (proj2 (str_eqb_neq _ _) Hw).
  - intros ->. unfold key_present in Hk. cbn in Hk.
    destruct (unambiguousIdentityValue query "pbk" EmptyString) as [key|] eqn:Ek; [|done]. cbn [or_error attempt] in Hk.
    destruct (str_eqb_spec key EmptyString); [done|]. exists key. by rewrite parameter_spec.
  - unfold identity_server in Hsrv.
    destruct Ks as [<-|[<-|[<-|[]]]]; cbn in Hsrv |- *; [by injection Hsrv as <-|..];
      (destruct (unambiguousIdentityValue query "sni" host) as [sni|] eqn:En; [|done]; cbn [or_error attempt] in Hsrv;
       destruct (normalizeIdentityHost sni) as [name|] eqn:Ename; [|done]; injection Hsrv as <-;
       exists sni; by rewrite parameter_spec).
  - unfold identity_fronting in Hf. case_decide as Hd.
    + assert (str_eqb (rename_transport given) "ws" || str_eqb (rename_transport given) "xhttp" = true) as E
        by (apply orb_true_iff; rewrite !str_eqb_eq; done). rewrite E in Hf.
      destruct (unambiguousIdentityValue query "host" EmptyString) as [h|] eqn:Eh; [|done]. cbn [or_error attempt] in Hf.
      exists h. rewrite parameter_spec. split; [done|].
      destruct (str_eqb_spec h EmptyString) as [->|Hhne]; [by injection Hf as <-|]. rewrite decide_False by done.
      destruct (normalizeIdentityFrontingHost h) as [f|]; [|done]. by injection Hf as <-.
    + rewrite (proj2 (str_eqb_neq _ _)) in Hf by tauto. rewrite (proj2 (str_eqb_neq _ _)) in Hf by tauto.
      by injection Hf as <-.
Qed.

Lemma named_route link r : 0 <= lr_Port r -> identity_parts link = inr (route_parts r) -> names_route link r.
Proof.
  intros Hp (r' & Hr & E)%parts_name_route. assert (r = r') as ->; [|done].
  destruct Hr as (? & ? & _ & _ & D). destruct (ds_port _ _ _ D) as [_ P]. unfold route_parts in E.
  injection E as E1 E2 E3 E4 E5 E6. apply decimal_inj in E2; [|lia..]. destruct r, r'; cbn in *; congruence.
Qed.

Lemma route_parts_inj link1 link2 r1 r2 : names_route link1 r1 -> names_route link2 r2 ->
  route_parts r1 = route_parts r2 -> r1 = r2.
Proof.
  intros (? & ? & _ & _ & H1) (? & ? & _ & _ & H2). destruct (ds_port _ _ _ H1) as [_ P1], (ds_port _ _ _ H2) as [_ P2].
  unfold route_parts. intros [= E1 E2 E3 E4 E5 E6]. apply decimal_inj in E2; [|lia..].
  destruct r1, r2; cbn in *; congruence.
Qed.
End Names.

Lemma hex_digit_inj a b : 0 <= a < 16 -> 0 <= b < 16 -> hex_digit a = hex_digit b -> a = b.
Proof.
  intros Ha Hb. assert (forall n, 0 <= n < 16 -> In n (map Z.of_nat (seq 0 16))) as Hin.
  { intros n Hn. apply in_map_iff. exists (Z.to_nat n). split; [lia|]. apply in_seq. lia. }
  apply Hin in Ha, Hb. cbn in Ha, Hb. destruct_or? Ha; destruct_or? Hb; subst; done.
Qed.

Lemma hex_encode_inj l m : Forall (fun b => 0 <= b < 256) l -> Forall (fun b => 0 <= b < 256) m ->
  hex_encode l = hex_encode m -> l = m.
Proof.
  unfold hex_encode. intros Hl Hm E.
  apply (f_equal list_ascii_of_string) in E. rewrite !list_ascii_of_string_of_list_ascii in E.
  revert m Hm E. induction Hl as [|a l Ha Hl IH]; intros [|b m] Hm E; try done.
  inversion Hm; subst. cbn [flat_map app] in E. injection E as E1 E2 E.
  apply hex_digit_inj in E1, E2; try (split; [apply Z.div_pos|apply Z.div_lt_upper_bound]; lia);
    try (apply Z.mod_pos_bound; lia).
  f_equal; [|by apply IH]. rewrite (Z.div_mod a 16), (Z.div_mod b 16) by lia. lia.
Qed.

(** The texts whose digests name a route and its server. *)
Definition route_text (r : LinkRoute) : string := join "|" ["v1"%string; lr_Host r; decimal (lr_Port r);
  lr_Transport r; lr_Security r; lr_ServerName r; lr_FrontingHost r].
Definition server_text (r : LinkRoute) : string := join "|" ["v1"%string; lr_Host r; decimal (lr_Port r)].

Lemma digest_name prefix a b : tells_apart [bytes_of a; bytes_of b] ->
  prefixedIdentityDigest prefix a = prefixedIdentityDigest prefix b -> a = b.
Proof.
  intros Hapart E. apply bytes_of_inj, Hapart; [left|right; left|]. unfold prefixedIdentityDigest in E.
  apply (inj (String.append prefix)) in E. by apply hex_encode_inj in E; try apply sha256_range.
Qed.

(** C28.  Identities name routes.  A link gets an identity exactly when it describes a
    route: an accepted link with a host, a port, a transport and a security of the known
    ones, each parameter at most once, a key when it is Reality, and a server name and a
    fronting host that are hosts.  Two such links get the same route key exactly when
    host, port, transport, security, server name and fronting host agree after
    normalisation, and the same failure domain exactly when host and port do, whatever
    their credentials, paths and labels.  It is assumed that SHA-256 tells the texts of
    these two routes apart, and that the text of an address holds no bar. *)
Theorem route_keys_name_routes `{NetLib} (Hplain : plain_addresses) :
  (forall l, (exists i, VLESSIdentity l = inr i) <-> exists r, names_route l r) /\
  forall l1 l2 r1 r2 i1 i2,
    names_route l1 r1 -> names_route l2 r2 -> VLESSIdentity l1 = inr i1 -> VLESSIdentity l2 = inr i2 ->
    (tells_apart [bytes_of (route_text r1); bytes_of (route_text r2)] ->
       (RouteKey i1 = RouteKey i2 <-> r1 = r2)) /\
    (tells_apart [bytes_of (server_text r1); bytes_of (server_text r2)] ->
       (FailureDomain i1 = FailureDomain i2 <-> lr_Host r1 = lr_Host r2 /\ lr_Port r1 = lr_Port r2)).
Proof.
  unfold VLESSIdentity. split.
  { intros l. split.
    - intros [i Hi]. destruct (identity_parts l) as [e|p] eqn:E; [done|].
      apply parts_name_route in E as (r & Hr & _). by exists r.
    - intros [r Hr%names_route_parts]. rewrite Hr. cbn. by eexists. }
  intros l1 l2 r1 r2 i1 i2 N1 N2. pose proof (names_route_parts _ _ N1) as E1.
  pose proof (names_route_parts _ _ N2) as E2.
  pose proof (identity_parts_barless Hplain _ _ E1) as B1. pose proof (identity_parts_barless Hplain _ _ E2) as B2.
  rewrite E1, E2. cbn [route_parts]. intros [= <-] [= <-]. cbn [RouteKey FailureDomain parts_list route_parts] in *.
  split; intros Hapart; (split; [|try by intros ->]).
  - intros E. apply digest_name in E; [|exact Hapart]. apply (f_equal (split_at "|")) in E.
    unfold route_canonical in E. rewrite !split_join_bar in E by (done || by constructor).
    apply (route_parts_inj _ _ _ _ N1 N2). unfold route_parts. by injection E as -> -> -> -> -> ->.
  - intros E. apply digest_name in E; [|exact Hapart]. apply (f_equal (split_at "|")) in E.
    inversion_clear B1 as [|? ? H1 H1']. inversion_clear H1' as [|? ? H2 _].
    inversion_clear B2 as [|? ? H3 H3']. inversion_clear H3' as [|? ? H4 _].
    unfold failure_canonical in E. rewrite !split_join_bar in E by (done || by repeat constructor).
    injection E as Eh Ep. split; [done|].
    destruct N1 as (? & ? & _ & _ & D1), N2 as (? & ? & _ & _ & D2).
    destruct (ds_port _ _ _ D1) as [_ P1], (ds_port _ _ _ D2) as [_ P2]. apply decimal_inj in Ep; lia.
  - by intros [-> ->].
Qed.

(** ** A concrete instance *)

(** Two links to one server, of different users, and one that shows another name to it. *)
Definition ada_link : string := "vless://ada@EXAMPLE.org.:0443?security=reality&pbk=k#Ada".
Definition bob_link : string := "vless://bob@example.org:443?security=reality&pbk=q&sni=example.org#Bob".
Definition carol_link : string := "vless://carol@example.org:443?security=reality&pbk=k&sni=other.org#Carol".

#[local] Instance sample_net : NetLib := {|
  parse_url := fun s =>
    if str_eqb s ada_link then
      Some {| u_Scheme := "vless"; u_User := Some "ada"%string; u_Hostname := "EXAMPLE.org.";
              u_Port := "0443"; u_RawQuery := "ada" |}
    else if str_eqb s bob_link then
      Some {| u_Scheme := "vless"; u_User := Some "bob"%string; u_Hostname := "example.org";
              u_Port := "443"; u_RawQuery := "bob" |}
    else if str_eqb s carol_link then
      Some {| u_Scheme := "vless"; u_User := Some "carol"%string; u_Hostname := "example.org";
              u_Port := "443"; u_RawQuery := "carol" |}
    else None;
  parse_query := fun s =>
    if str_eqb s "ada" then (list_to_map [("security", ["reality"]); ("pbk", ["k"])], true)%string
    else if str_eqb s "carol" then
      (list_to_map [("security", ["reality"]); ("pbk", ["k"]); ("sni", ["other.org"])], true)%string
    else (list_to_map [("security", ["reality"]); ("pbk", ["q"]); ("sni", ["example.org"])], true)%string;
  parse_ip := fun s => (fun a => {| ip_is6 := false; ip_zone := EmptyString; ip_unmapped6 := false;
                                    ip_text := addr_string a |}) <$> parse_addr4 s |}.
#[local] Instance sample_extra : ExtraCodec := fun _ => None.

Lemma sample_plain : plain_addresses.
Proof.
  intros s ip E _. cbn in E. apply fmap_Some in E as (a & Ea & ->). cbn [ip_text].
  apply parse_addr4_spec in Ea as [[Ha [Hb [Hc Hd]]] _]. unfold addr_string.
  assert (forall n, octet n -> contains_char "|" (decimal n) = false) as Hn.
  { intros n [Hn _]. by apply barless_digits, decimal_spec. }
  rewrite !contains_char_app, !Hn by done. done.
Qed.

Lemma identified_links_render_witness : exists config, VLESSOutbound ada_link "cand_a" = inr config.
Proof.
  eapply (identified_links_render ada_link "cand_a"). vm_compute. reflexivity.
Defined.

Definition sample_route (serverName : string) : LinkRoute := {|
  lr_Host := "example.org"; lr_Port := 443; lr_Transport := "tcp"; lr_Security := "reality";
  lr_ServerName := serverName; lr_FrontingHost := EmptyString |}.
Definition sample_identity (serverName : string) : Identity := {|
  RouteKey := prefixedIdentityDigest "route-v1-" ("v1|example.org|443|tcp|reality|" ++ serverName ++ "|");
  FailureDomain := prefixedIdentityDigest "domain-v1-" "v1|example.org|443" |}.

(** The users of one route share its key; another server name makes another route in the
    same failure domain. *)
Lemma route_keys_name_routes_witness :
  (exists i, VLESSIdentity bob_link = inr i) /\
  RouteKey (sample_identity "example.org") = RouteKey (sample_identity "example.org") /\
  RouteKey (sample_identity "example.org") <> RouteKey (sample_identity "other.org") /\
  FailureDomain (sample_identity "example.org") = FailureDomain (sample_identity "other.org").
Proof.
  destruct (route_keys_name_routes sample_plain) as [Hid Hkeys].
  assert (names_route ada_link (sample_route "example.org")) as Na
    by (apply named_route; [done|vm_compute; reflexivity]).
  assert (names_route bob_link (sample_route "example.org")) as Nb
    by (apply named_route; [done|vm_compute; reflexivity]).
  assert (names_route carol_link (sample_route "other.org")) as Nc
    by (apply named_route; [done|vm_compute; reflexivity]).
  assert (VLESSIdentity ada_link = inr (sample_identity "example.org")) as Ia by (vm_compute; reflexivity).
  assert (VLESSIdentity bob_link = inr (sample_identity "example.org")) as Ib by (vm_compute; reflexivity).
  assert (VLESSIdentity carol_link = inr (sample_identity "other.org")) as Ic by (vm_compute; reflexivity).
  assert (tells_apart [bytes_of (route_text (sample_route "example.org")); bytes_of (route_text (sample_route "other.org"))])
    as Hr by (apply tells_apartb_spec; vm_compute; reflexivity).
  assert (tells_apart [bytes_of (route_text (sample_route "example.org")); bytes_of (route_text (sample_route "example.org"))])
    as Hs by (apply tells_apartb_spec; vm_compute; reflexivity).
  assert (tells_apart [bytes_of (server_text (sample_route "example.org")); bytes_of (server_text (sample_route "other.org"))])
    as Hd by (apply tells_apartb_spec; vm_compute; reflexivity).
  split_and!.
  - apply Hid. by exists (sample_route "example.org").
  - exact (proj2 (proj1 (Hkeys _ _ _ _ _ _ Na Nb Ia Ib) Hs) eq_refl).
  - intros E. pose proof (proj1 (proj1 (Hkeys _ _ _ _ _ _ Na Nc Ia Ic) Hr) E) as Hroute. discriminate Hroute.
  - exact (proj2 (proj2 (Hkeys _ _ _ _ _ _ Na Nc Ia Ic) Hd) (conj eq_refl eq_refl)).
Defined.
