(* ===== verification/RouteCandidates.v ===== *)
(** The candidates of a cycle (controller/engine_candidates.go): how the evidence of
    the store, the profiles of the Tor pool and the clock become the routes that the
    scheduler sees, and which of them may take new work. *)
From Stdlib Require Import Floats.
From S2P Require Import Prelude Effects GoOrder GoFloat GoStrings GoSort SchedLoad QoE DataPlan Handlers StoreTables CandidateState RoutingSnapshot.

#[local] Open Scope Z_scope.

(** The options of an engine. *)
Record EngineOptions := {
  clientReservations : bool;
  qoeEnabled : bool;
  qoePromotionWindow : Z;
  dnsResolvers : list string;
  reserveActiveFreshness : Duration;
  activeHardFailureFreshness : Duration;
  directSuffixes : list string;
  directDomains : list string;
  disallowRUEgress : bool
}.

Record RouteCandidateSnapshot := {
  allByID : gmap string SchedLoad.Candidate;
  placementCandidates : list SchedLoad.Candidate;
  rowsByID : gmap string Candidate;
  healthByID : gmap string CandidateHealth;
  profilesByCandidate : gmap string Profile;
  payloadByCandidate : gmap string string;
  evidenceByCandidate : gmap string string;
  inventoryEpoch : Z
}.

(** ** Freshness (controller/engine.go) *)

Definition activeObservationFresh (now observedAt : Time) (freshness : Duration) : bool :=
  (0 <? freshness) && negb (time_is_zero observedAt) && negb (after observedAt now) &&
  (time_sub now observedAt <=? freshness).

Definition promotionQoEReady (now : Time) (state : QoE.State) (window : Z) : bool :=
  (0 <? window) && bool_decide (status state = StatusHealthy) &&
  (window <=? WindowValid state) && (WindowBad state =? 0) &&
  activeObservationFresh now (LastValidAt state) EvidenceMaxAge &&
  activeObservationFresh now (WindowStartedAt state) EvidenceMaxAge &&
  negb (after (WindowStartedAt state) (LastValidAt state)).

Definition max_duration : Duration := 2 ^ 63 - 1.

Definition WithActiveProbeInterval (interval : Duration) (o : EngineOptions) : EngineOptions :=
  let freshness := if (interval <=? 0) || (max_duration / 2 <? interval) then 0 else 2 * interval in
  {| clientReservations := clientReservations o; qoeEnabled := qoeEnabled o;
     qoePromotionWindow := qoePromotionWindow o; dnsResolvers := dnsResolvers o;
     reserveActiveFreshness := freshness; activeHardFailureFreshness := freshness;
     directSuffixes := directSuffixes o; directDomains := directDomains o;
     disallowRUEgress := disallowRUEgress o |}.

(** ** What a snapshot of evidence tells *)

Definition zero_qoe : QoE.State := {|
  CandidateID := EmptyString; status := StatusUnset; BaselineTTFB := 0;
  BaselineThroughputMbps := 0%float; BaselineSamples := 0; CurrentTTFB := 0;
  CurrentThroughputMbps := 0%float; WindowValid := 0; WindowBad := 0;
  WindowStartedAt := zero_time; WindowMaxGap := 0; MedianEffectiveTime := 0; MedianTTFB := 0;
  MedianThroughputMbps := 0%float; LastValidAt := zero_time; LastReason := EmptyString;
  DegradedAt := zero_time; RecoveredAt := zero_time; UpdatedAt := zero_time |}.

(** A map built by a loop that stores a value only where there is one. *)
Definition index_some {A B : Type} (key : A -> string) (value : A -> option B) (l : list A) :
    gmap string B :=
  fold_left (fun m x => match value x with Some v => <[key x := v]> m | None => m end) l ∅.

Definition evidence_id (e : CandidateRoutingEvidence) : string := c_ID (e_Candidate e).

Definition rows_of (l : list CandidateRoutingEvidence) : gmap string Candidate :=
  index_some evidence_id (fun e => Some (e_Candidate e)) l.
Definition payloads_of (l : list CandidateRoutingEvidence) : gmap string string :=
  index_some evidence_id (fun e => Some (e_Payload e)) l.
Definition digests_of (l : list CandidateRoutingEvidence) : gmap string string :=
  index_some evidence_id (fun e => Some (e_Digest e)) l.
Definition healths_of (l : list CandidateRoutingEvidence) : gmap string CandidateHealth :=
  index_some evidence_id e_Health l.
Definition probes_of (l : list CandidateRoutingEvidence) : gmap string CandidateProbeState :=
  index_some evidence_id e_Probe l.
Definition qoes_of (enabled : bool) (l : list CandidateRoutingEvidence) : gmap string QoE.State :=
  if enabled then index_some evidence_id e_QoE l else ∅.

(** Candidates with a probe that satisfies [p]. *)
Definition marked (p : CandidateProbeState -> bool) (l : list CandidateRoutingEvidence) : gset string :=
  list_to_set (map evidence_id (List.filter (fun e => from_option p false (e_Probe e)) l)).

Definition workingCandidateIDs (l : list CandidateRoutingEvidence) : gset string :=
  marked (fun p => ps_InWorkingPool p || ps_Draining p) l.
Definition drainingCandidateIDs (l : list CandidateRoutingEvidence) : gset string :=
  marked ps_Draining l.

Definition openDomains (now : Time) (l : list CandidateRoutingEvidence) : gset string :=
  list_to_set (omap (fun e =>
    match e_FailureDomain e with
    | Some fd => if after (fd_OpenUntil fd) now then Some (fd_Domain fd) else None
    | None => None
    end) l).

Definition warm_profiles (profiles : list Profile) : gmap string Profile :=
  index_by p_CandidateID (List.filter (fun p => str_eqb (p_Role p) "warm") profiles).

Section Candidates.
Context `{TextLib} (options : EngineOptions).

(** ** One route *)

Section Route.
Context (now : Time) (evidence : list CandidateRoutingEvidence) (profiles : list Profile).

(** Whether the route may serve, by protocol: qualified for TCP and UDP, warm,
    retiring, and the name of its profile. *)
Record Served := {
  sv_proto : SchedLoad.Protocol;
  sv_tcp : bool;
  sv_udp : bool;
  sv_warm : bool;
  sv_retiring : bool;
  sv_profile : string
}.

Definition served (candidate : Candidate) (health : CandidateHealth) : Served :=
  let retiring := bool_decide (c_ID candidate ∈ drainingCandidateIDs evidence) ||
                  str_eqb (c_Lifecycle candidate) CandidateLifecycleDraining in
  if str_eqb (c_Kind candidate) KindTorBridge then
    let profile := warm_profiles profiles !! c_ID candidate in
    let warm := match profile with Some p => negb (p_Retiring p) | None => false end in
    {| sv_proto := SchedLoad.ProtocolTor; sv_tcp := hl_TCPQualified health && warm; sv_udp := false;
       sv_warm := warm; sv_retiring := retiring || from_option p_Retiring false profile;
       sv_profile := match profile with
                     | Some p => ("tor-profile-" ++ decimal (p_Slot p))%string
                     | None => EmptyString
                     end |}
  else
    {| sv_proto := SchedLoad.ProtocolVLESS; sv_tcp := hl_TCPQualified health;
       sv_udp := hl_UDPQualified health; sv_warm := false; sv_retiring := retiring;
       sv_profile := EmptyString |}.

Definition forbidden_egress (candidate : Candidate) : bool :=
  disallowRUEgress options &&
  IsRussianEgress (c_Label candidate)
    (default EmptyString (payloads_of evidence !! c_ID candidate)).

Definition qoe_fresh (state : QoE.State) : bool :=
  negb (time_is_zero (LastValidAt state)) && negb (after (LastValidAt state) now) &&
  (time_sub now (LastValidAt state) <=? EvidenceMaxAge).

Definition after_failure (probe : option CandidateProbeState) (state : QoE.State) : bool :=
  let failed := from_option ps_LastFailureAt zero_time probe in
  time_is_zero failed || after (WindowStartedAt state) failed.

Definition reserve_eligible (candidate : Candidate) (health : CandidateHealth)
    (probe : option CandidateProbeState) : bool :=
  hl_Available health &&
  match probe with
  | Some p => str_eqb (ps_Status p) CandidateQualified && ps_InWorkingPool p && negb (ps_Stale p) &&
              negb (ps_Draining p)
  | None => false
  end && str_eqb (c_Lifecycle candidate) CandidateLifecycleActive.

Definition route_candidate (candidate : Candidate) (health : CandidateHealth) : SchedLoad.Candidate :=
  let s := served candidate health in
  let state := default zero_qoe (qoes_of (qoeEnabled options) evidence !! c_ID candidate) in
  let probe := probes_of evidence !! c_ID candidate in
  let barred := forbidden_egress candidate in {|
    SchedLoad.ID := c_ID candidate; SchedLoad.proto := sv_proto s;
    SchedLoad.RouteKey := c_RouteKey candidate; SchedLoad.ProfileID := sv_profile s;
    SchedLoad.Score := hl_Score health;
    SchedLoad.TCPQualified := sv_tcp s && negb barred;
    SchedLoad.UDPQualified := sv_udp s && negb barred;
    SchedLoad.ReserveEligible := reserve_eligible candidate health probe && negb barred;
    SchedLoad.ActiveEligible := hl_ActiveSuccess health && hl_ActiveCurrent health;
    SchedLoad.ActiveFresh :=
      activeObservationFresh now (hl_ActiveObservedAt health) (reserveActiveFreshness options);
    SchedLoad.Warm := sv_warm s; SchedLoad.Retiring := sv_retiring s; SchedLoad.ServingOnly := false;
    SchedLoad.FailureDomain := c_FailureDomain candidate;
    SchedLoad.CircuitOpen := bool_decide (c_FailureDomain candidate ∈ openDomains now evidence);
    SchedLoad.QoEStatus := status state; SchedLoad.QoEEffective := MedianEffectiveTime state;
    SchedLoad.QoEQuality := Quality state;
    SchedLoad.QoEFresh := qoe_fresh state && after_failure probe state;
    SchedLoad.QoEReason := LastReason state; SchedLoad.QoETracked := qoeEnabled options;
    SchedLoad.QoEPromotionReady :=
      after_failure probe state && promotionQoEReady now state (qoePromotionWindow options) |}.

(** Stores without any probe state place by health alone. *)
Definition placement_eligible (candidate : Candidate) (health : CandidateHealth) : bool :=
  hl_Available health && negb (forbidden_egress candidate) &&
  (bool_decide (probes_of evidence = ∅) ||
   match probes_of evidence !! c_ID candidate with
   | Some p => negb (ps_Stale p) && bool_decide (c_ID candidate ∈ workingCandidateIDs evidence) &&
               (str_eqb (ps_Status p) CandidateQualified || str_eqb (ps_Status p) CandidateDraining)
   | None => false
   end).
End Route.

(** ** The snapshot *)

(** The healths in the order in which a range over their map meets them, each with
    the row of its candidate. *)
Definition ranged_rows (evidence : list CandidateRoutingEvidence)
    (ranged : list (string * CandidateHealth)) : list (Candidate * CandidateHealth) :=
  omap (fun '(_, health) =>
    (fun row => (row, health)) <$> rows_of evidence !! hl_CandidateID health) ranged.

Definition take_routes (now : Time) (snapshot : RoutingEvidenceSnapshot) (profiles : list Profile)
    (range : list (string * CandidateHealth) -> list (string * CandidateHealth)) :
    RouteCandidateSnapshot :=
  let evidence := rs_Candidates snapshot in
  let rows := ranged_rows evidence (range (map_to_list (healths_of evidence))) in
  let route := route_candidate now evidence profiles in {|
    allByID := fold_left (fun m '(c, h) => <[c_ID c := route c h]> m) rows ∅;
    placementCandidates :=
      map (fun '(c, h) => route c h)
        (List.filter (fun '(c, h) => placement_eligible evidence c h) rows);
    rowsByID := rows_of evidence; healthByID := healths_of evidence;
    profilesByCandidate := warm_profiles profiles; payloadByCandidate := payloads_of evidence;
    evidenceByCandidate := digests_of evidence; inventoryEpoch := rs_InventoryEpoch snapshot |}.
End Candidates.
