(* ===== verification/PlanRendering.v ===== *)
(** Rendering a placement as a plan (the second half of [cycleOnce] in
    controller/engine.go, [outbound] and [dnsResolverForCandidate] of
    controller/engine_plan.go, [BuildDNSOutbound] of dataplane/reconciler.go):
    the routes of the clients, the outbounds they need, the assignments and
    reserves that are stored with the plan, and what is expected of the candidates. *)
From Stdlib Require Import String Ascii.
From S2P Require Import Prelude Effects GoOrder GoStrings GoSort Sha256 XrayConfig SchedLoad.
From S2P Require Import DataPlan DataChange Handlers StoreTables PlanStore RouteCandidates.

#[local] Open Scope Z_scope.
#[local] Open Scope effect_scope.

(** ** The standard library *)

(** The order in which the [n]-th range of a function meets a map. *)
Class MapRange : Type := map_range : forall {A : Type}, nat -> gmap string A -> list (string * A).
Class MapRangeLaws `{MapRange} : Prop :=
  map_range_perm : forall (A : Type) n (m : gmap string A), map_range n m ≡ₚ map_to_list m.

(** [json.Marshal] of a [dnsConfig] and of an [any]. *)
Class DNSCodec : Type := encode_dns : dnsConfig -> option string.
Class ConfigCodec : Type := encode_config : Value -> option string.

(** What is encoded is decoded again. *)
Class DNSCodecLaws `{Json} `{DNSCodec} : Prop :=
  dns_codec : forall c s, encode_dns c = Some s ->
    decode_dns s = Some (c, false) /\ trim_space s <> EmptyString.

(** [VLESSHandlerID] reads the flow of a link. *)
#[export] Instance net_links `{NetLib} : Links := fun payload =>
  (fun url => query_get (parse_query (u_RawQuery url)).1 "flow") <$> parse_url payload.

(** ** DNS handlers *)

Inductive RenderError :=
  | ClientRequired | TargetRequired | TargetNotTCP | ResolverNotPublic | TargetConfig | EncodeDNS
  | CandidateNotFound (id : string) | EvidenceMissing | LinkRejected (e : LinkError)
  | TorProfileUnavailable (id : string) | UnsupportedKind (kind : string)
  | ResolverFailed (e : PlanError) | InventoryMissing.

Definition digest_field (value : list Z) : list Z :=
  to_big_endian 8 (Z.of_nat (length value)) ++ value.

Section Rendering.
Context `{Json} `{DNSCodec} `{ConfigCodec} `{NetLib} `{ExtraCodec}.

Definition target_digest (target : Outbound) (canonical : string) : list Z :=
  sha256 (digest_field (bytes_of (ID target)) ++ digest_field (bytes_of (Protocol target)) ++
          digest_field (bytes_of canonical)).

Definition dns_tag (clientID : string) (targetDigest : list Z) (resolver : string) : string :=
  ("hydrat-dns-" ++ hex_encode (sha256 (
     digest_field (bytes_of "streamSettings.sockopt.dialerProxy/v1") ++
     digest_field (bytes_of clientID) ++ digest_field targetDigest ++
     digest_field (bytes_of resolver))))%string.

Definition dns_config (resolver proxy : string) : dnsConfig := {|
  dns_Protocol := ProtocolDNS;
  Settings := Some {| RewriteNetwork := "tcp"; RewriteAddress := resolver; RewritePort := 53 |};
  StreamSettings := Some (Some proxy); ProxySettings := None |}.

Definition BuildDNSOutbound (clientID : string) (target : Outbound) (resolver : string) :
    RenderError + Outbound :=
  if str_eqb clientID EmptyString then inl ClientRequired
  else if str_eqb (ID target) EmptyString then inl TargetRequired
  else if negb (tcp_capable target) then inl TargetNotTCP
  else match ValidatePublicDNSResolver resolver with
       | Some _ => inl ResolverNotPublic
       | None =>
           match canonicalOutboundJSON (Config target) with
           | None => inl TargetConfig
           | Some canonical =>
               match encode_dns (dns_config resolver (ID target)) with
               | None => inl EncodeDNS
               | Some config => inr {|
                   ID := dns_tag clientID (target_digest target canonical) resolver;
                   Protocol := ProtocolDNS; Config := config |}
               end
           end
       end.

(** ** Outbounds *)

Section Routes.
Context (options : EngineOptions) (torSecret : list Z) (now : Time)
  (rows : gmap string Candidate) (payloads : gmap string string) (profiles : gmap string Profile)
  (clientByID : gmap string ClientRecord).

Definition dnsResolverForCandidate (candidateID : string) : RenderError + string :=
  match SelectDNSResolver candidateID (dnsResolvers options) with
  | inl e => inl (ResolverFailed e)
  | inr resolver => inr resolver
  end.

Definition outbound (clientID candidateID : string) (outbounds : gmap string Outbound) :
    RenderError + (string * gmap string Outbound) :=
  match rows !! candidateID, payloads !! candidateID with
  | None, _ => inl (CandidateNotFound candidateID)
  | Some _, None => inl EvidenceMissing
  | Some candidate, Some payload =>
      if str_eqb (c_Kind candidate) KindVLESS then
        let id := VLESSHandlerID candidateID payload in
        match outbounds !! id with
        | Some _ => inr (id, outbounds)
        | None =>
            match VLESSOutbound payload id with
            | inl e => inl (LinkRejected e)
            | inr config => inr (id, <[id := {| ID := id; Protocol := ProtocolVLESS;
                                     Config := default EmptyString (encode_config config) |}]> outbounds)
            end
        end
      else if str_eqb (c_Kind candidate) KindTorBridge then
        match profiles !! candidateID with
        | None => inl (TorProfileUnavailable candidateID)
        | Some profile =>
            let id := torProfileOutboundID candidateID profile clientID in
            match outbounds !! id with
            | Some _ => inr (id, outbounds)
            | None =>
                let config := TorOutbound (p_SocksAddr profile) id clientID torSecret in
                inr (id, <[id := {| ID := id; Protocol := ProtocolTor;
                                    Config := default EmptyString (encode_config config) |}]> outbounds)
            end
        end
      else inl (UnsupportedKind (c_Kind candidate))
  end.

Definition zero_outbound : Outbound :=
  {| ID := EmptyString; Protocol := EmptyString; Config := EmptyString |}.

(** A TCP route with the DNS handler that dials through it; a UDP route. *)
Definition render_dns (clientID candidateID id : string) (outbounds : gmap string Outbound) :
    RenderError + (string * gmap string Outbound) :=
  resolver <~ dnsResolverForCandidate candidateID ;;
  dns <~ BuildDNSOutbound clientID (default zero_outbound (outbounds !! id)) resolver ;;
  inr (ID dns, <[ID dns := dns]> outbounds).

Definition render_tcp (clientID candidateID : string) (outbounds : gmap string Outbound) :
    RenderError + (string * string * gmap string Outbound) :=
  if str_eqb candidateID EmptyString then inr (EmptyString, EmptyString, outbounds)
  else
    route <~ outbound clientID candidateID outbounds ;;
    dns <~ render_dns clientID candidateID route.1 route.2 ;;
    inr (route.1, dns.1, dns.2).

Definition render_udp (clientID candidateID : string) (outbounds : gmap string Outbound) :
    RenderError + (string * gmap string Outbound) :=
  if str_eqb candidateID EmptyString then inr (EmptyString, outbounds)
  else outbound clientID candidateID outbounds.

(** ** Clients *)

Record Rendered := {
  rd_outbounds : gmap string Outbound;
  rd_routes : list ClientRoute;
  rd_updates : list AssignmentRecord;
  rd_mappings : list RouteReserveMapping
}.

Definition reserve_mapping (client : string) (a : Assignment) (r : ReserveSelection) :
    list RouteReserveMapping :=
  let tcp := negb (str_eqb (rs_TCP r) EmptyString) in
  let udp := negb (str_eqb (rs_UDP r) EmptyString) in
  if tcp || udp then [{|
    rm_ClientID := client;
    TCPPrimaryCandidateID := if tcp then TCP a else EmptyString;
    TCPReserveCandidateID := rs_TCP r;
    UDPPrimaryCandidateID := if udp then UDP a else EmptyString;
    UDPReserveCandidateID := rs_UDP r |}]
  else [].

Definition client_address (client : string) : string :=
  from_option (fun c => cl_address (cli_row c)) EmptyString (clientByID !! client).
Definition client_reserved (client : string) : bool :=
  from_option (RouteReserved now) false (clientByID !! client).

Definition render_client (r : Rendered) (placed : string * Assignment * ReserveSelection) :
    RenderError + Rendered :=
  let '(client, a, reserves) := placed in
  tcp <~ render_tcp client (TCP a) (rd_outbounds r) ;;
  udp <~ render_udp client (UDP a) tcp.2 ;;
  tcpReserve <~ render_tcp client (rs_TCP reserves) udp.2 ;;
  udpReserve <~ render_udp client (rs_UDP reserves) tcpReserve.2 ;;
  inr {|
    rd_outbounds := udpReserve.2;
    rd_routes := rd_routes r ++ [{|
      Dormant := clientReservations options && negb (client_reserved client);
      ClientID := client; SourceCIDR := client_address client;
      TCPOutbound := tcp.1.1; UDPOutbound := udp.1; DNSOutbound := tcp.1.2;
      TCPReserveOutbound := tcpReserve.1.1; UDPReserveOutbound := udpReserve.1;
      BlockTCP := str_eqb (TCP a) EmptyString; BlockUDP := str_eqb (UDP a) EmptyString |}];
    rd_updates := rd_updates r ++ [{|
      as_ClientID := client; as_TCPOutbound := TCP a; as_UDPOutbound := UDP a;
      as_TCPSince := TCPSince a; as_UDPSince := UDPSince a; as_UpdatedAt := now |}];
    rd_mappings := rd_mappings r ++ reserve_mapping client a reserves |}.

Definition render_clients (placed : list (string * Assignment * ReserveSelection)) :
    RenderError + Rendered :=
  fold_attempt render_client
    {| rd_outbounds := ∅; rd_routes := []; rd_updates := []; rd_mappings := [] |} placed.

(** A paused client holds no route. *)
Definition paused_update (client : ClientRecord) : list AssignmentRecord :=
  if cl_paused (cli_row client) then [{|
    as_ClientID := cli_ID client; as_TCPOutbound := EmptyString; as_UDPOutbound := EmptyString;
    as_TCPSince := now; as_UDPSince := now; as_UpdatedAt := now |}]
  else [].

Definition plan_suffixes : list string :=
  match directSuffixes options with [] => [".ru"%string] | suffixes => suffixes end.

(** The plan before it has a generation. *)
Definition rendered_plan (outbounds : list Outbound) (r : Rendered) : DesiredPlan := {|
  Generation := 0; Outbounds := outbounds; Clients := rd_routes r;
  DirectSuffixes := plan_suffixes; DirectDomains := directDomains options; FailClosed := true |}.

(** ** Expectations *)

Definition placed_candidates (placed : string * Assignment * ReserveSelection) : list string :=
  let '(_, a, r) := placed in
  List.filter (fun id => negb (str_eqb id EmptyString)) [TCP a; UDP a; rs_TCP r; rs_UDP r].

Definition expect_candidate (digests : gmap string string) (referenced : gset string)
    (m : gmap string CandidatePlanExpectation) (id : string) :
    RenderError + gmap string CandidatePlanExpectation :=
  match rows !! id with
  | None => inl InventoryMissing
  | Some candidate => inr (<[id := {|
      x_Candidate := candidate; x_AllowDraining := bool_decide (id ∈ referenced);
      x_EvidenceDigest := default EmptyString (digests !! id) |}]> m)
  end.

Definition expect_candidates (digests : gmap string string) (referenced : gset string)
    (placed : list (string * Assignment * ReserveSelection)) :
    RenderError + gmap string CandidatePlanExpectation :=
  fold_attempt (expect_candidate digests referenced) ∅ (flat_map placed_candidates placed).
End Routes.
End Rendering.
