(* ===== verification/RenderingSafety.v ===== *)
(** A rendered plan is well formed: what PlanRendering.v produces for a sound
    placement passes the validation of the gateway. *)
From Stdlib Require Import String Ascii Floats.
From S2P Require Import Prelude Effects GoOrder GoStrings GoSort GoNet Sha256 XrayConfig SchedLoad.
From S2P Require Import DataPlan DataChange Handlers StoreTables StoreLogic PlanStore RouteCandidates PlanRendering.

#[local] Open Scope Z_scope.
#[local] Open Scope effect_scope.

(** ** Digests of fields *)

Definition byte_list (l : list Z) : Prop := Forall (fun b => 0 <= b < 256) l.

Lemma byte_list_app a b : byte_list a -> byte_list b -> byte_list (a ++ b).
Proof. intros Ha Hb. by apply Forall_app. Qed.

Lemma bytes_of_range s : byte_list (bytes_of s).
Proof.
  apply Forall_forall. unfold bytes_of. intros z Hz. apply list_elem_of_In, in_map_iff in Hz as (c & <- & _).
  pose proof (N_ascii_bounded c). lia.
Qed.

Lemma to_big_endian_mod n z : big_endian (to_big_endian n z) = z `mod` 256 ^ Z.of_nat n.
Proof.
  induction n as [|n IH]; cbn [to_big_endian big_endian]; [by rewrite Z.mod_1_r|].
  rewrite IH, to_big_endian_length, Nat2Z.inj_succ, Z.pow_succ_r by lia.
  rewrite (Z.mul_comm 256), Z.rem_mul_r by (try apply Z.pow_nonzero; lia). lia.
Qed.

Lemma digest_field_range l : byte_list l -> byte_list (digest_field l).
Proof. intros Hl. apply Forall_app. split; [apply to_big_endian_range|done]. Qed.

(** A field is found again when lengths that agree modulo 2^64 agree. *)
Lemma digest_field_inj a b x y : digest_field a ++ x = digest_field b ++ y ->
  (Z.of_nat (length a) `mod` 2 ^ 64 = Z.of_nat (length b) `mod` 2 ^ 64 -> length a = length b) ->
  a = b /\ x = y.
Proof.
  unfold digest_field. intros E Hl. rewrite <- !app_assoc in E.
  apply app_inj_1 in E as [E1 E]; [|by rewrite !to_big_endian_length].
  apply (f_equal big_endian) in E1. rewrite !to_big_endian_mod in E1.
  apply app_inj_1 in E; [done|]. by apply Hl.
Qed.

Lemma digest_field_length l : length (digest_field l) = (8 + length l)%nat.
Proof. unfold digest_field. by rewrite length_app, to_big_endian_length. Qed.

Lemma short_fields a b : Z.of_nat (length a) < 2 ^ 64 -> Z.of_nat (length b) < 2 ^ 64 ->
  Z.of_nat (@length Z a) `mod` 2 ^ 64 = Z.of_nat (@length Z b) `mod` 2 ^ 64 -> length a = length b.
Proof. intros Ha Hb. rewrite !Z.mod_small by lia. lia. Qed.

#[local] Opaque digest_field.

(** ** Names of handlers *)

Definition dashless (s : string) : Prop := contains_char "-" s = false /\ s <> EmptyString.

(** Texts below four gigabytes; what is made of a few of them keeps its length in
    eight bytes. *)
Definition bounded (s : string) : Prop := Z.of_nat (String.length s) < 2 ^ 32.
Definition short (s : string) : Prop := Z.of_nat (String.length s) < 2 ^ 64.

Lemma digits_loop_length fuel z acc n : 0 <= z < 10 ^ Z.of_nat (S n) ->
  (String.length (digits_loop fuel z acc) <= S n + String.length acc)%nat.
Proof.
  revert z acc n. induction fuel as [|fuel IH]; intros z acc n Hz; cbn [digits_loop]; [lia|].
  destruct (z <? 10) eqn:E; cbn [String.length]; [lia|]. z_bool.
  destruct n as [|n]; [rewrite Z.pow_1_r in Hz; lia|].
  specialize (IH (z / 10) (String (ascii_of_N (Z.to_N (48 + z mod 10))) acc) n).
  cbn [String.length] in IH. etransitivity; [apply IH|lia].
  rewrite (Nat2Z.inj_succ (S n)), Z.pow_succ_r in Hz by lia.
  split; [apply Z.div_pos; lia|apply Z.div_lt_upper_bound; lia].
Qed.

Lemma decimal_length z : 0 <= z < 2 ^ 31 -> (String.length (decimal z) <= 10)%nat.
Proof.
  intros Hz. unfold decimal. destruct (z <? 0) eqn:E; z_bool; [lia|].
  rewrite Z.abs_eq by done.
  pose proof (digits_loop_length (S (Z.to_nat (Z.log2 z))) z EmptyString 9) as H.
  cbn [String.length] in H. change (10 ^ Z.of_nat 10) with 10000000000 in H. lia.
Qed.

Section Safety.
Context `{JS : Json} `{DC : DNSCodec} `{CC : ConfigCodec} `{NL : NetLib} `{XC : ExtraCodec}
  `{DL : !DNSCodecLaws}.

Lemma link_candidate candidate payload : dashless candidate ->
  recoveryCandidateID (VLESSHandlerID candidate payload) = candidate.
Proof.
  intros [Hc _]. unfold recoveryCandidateID.
  destruct (vless_handler_parts candidate payload Hc) as [H1 ->]. done.
Qed.

Lemma tor_candidate candidate profile client : dashless candidate ->
  recoveryCandidateID (torProfileOutboundID candidate profile client) = candidate.
Proof.
  intros [Hc _]. unfold recoveryCandidateID, torProfileOutboundID. by rewrite cut_profile.
Qed.

(** ** Equal tags *)

Lemma decimal_octet_length n : octet n -> (String.length (decimal n) <= 3)%nat.
Proof.
  intros Hn%octets_spec. assert (forallb (fun n => String.length (decimal n) <=? 3)%nat octets = true)
    as H by (vm_compute; reflexivity).
  rewrite forallb_forall in H. apply Nat.leb_le. auto.
Qed.

Lemma public_length r : public_resolver r -> (String.length r <= 15)%nat.
Proof.
  intros (a & (H1 & H2 & H3 & H4) & -> & _). unfold addr_string. cbn [map join].
  rewrite !str_length_app. apply decimal_octet_length in H1, H2, H3, H4. cbn [String.length]. lia.
Qed.

(** What is hashed for a handler: of its target, and of it. *)
Definition target_input (target : Outbound) (canonical : string) : list Z :=
  digest_field (bytes_of (ID target)) ++ digest_field (bytes_of (Protocol target)) ++
  digest_field (bytes_of canonical).
Definition tag_input (client : string) (digest : list Z) (resolver : string) : list Z :=
  digest_field (bytes_of "streamSettings.sockopt.dialerProxy/v1") ++
  digest_field (bytes_of client) ++ digest_field digest ++ digest_field (bytes_of resolver).

(** Everything that may be hashed for the handlers of these clients and resolvers, over
    the outbounds that serve TCP. *)
Definition hashed_inputs (clients resolvers : list string) (outbounds : list Outbound) : list (list Z) :=
  flat_map (fun o => match canonicalOutboundJSON (Config o) with
    | None => []
    | Some canonical => target_input o canonical ::
        flat_map (fun client => map (tag_input client (target_digest o canonical)) resolvers) clients
    end) (List.filter tcp_capable outbounds).

Lemma hashed_target clients resolvers outbounds o canonical : In o outbounds -> tcp_capable o = true ->
  canonicalOutboundJSON (Config o) = Some canonical ->
  target_input o canonical ∈ hashed_inputs clients resolvers outbounds.
Proof.
  intros Ho Hc Hj. apply list_elem_of_In, in_flat_map. exists o. rewrite Hj.
  split; [by apply filter_In|by left].
Qed.

Lemma hashed_tag clients resolvers outbounds o canonical client resolver : In o outbounds ->
  tcp_capable o = true -> canonicalOutboundJSON (Config o) = Some canonical ->
  In client clients -> In resolver resolvers ->
  tag_input client (target_digest o canonical) resolver ∈ hashed_inputs clients resolvers outbounds.
Proof.
  intros Ho Hc Hj Hcl Hr. apply list_elem_of_In, in_flat_map. exists o. rewrite Hj.
  split; [by apply filter_In|]. right. apply in_flat_map. exists client. split; [done|]. by apply in_map.
Qed.

Lemma tag_input_inj c1 c2 d1 d2 r1 r2 : length d1 = length d2 ->
  public_resolver r1 -> public_resolver r2 ->
  tag_input c1 d1 r1 = tag_input c2 d2 r2 -> c1 = c2 /\ d1 = d2 /\ r1 = r2.
Proof.
  intros Hd Hr1%public_length Hr2%public_length E. unfold tag_input in E. apply app_inv_head in E.
  pose proof (f_equal length E) as El.
  rewrite !length_app, !digest_field_length, !bytes_of_length in El.
  apply digest_field_inj in E as [Ec E].
  2: { rewrite !bytes_of_length. change (2 ^ 64) with 18446744073709551616. intros Em.
       pose proof (Z.div_mod (Z.of_nat (String.length c1)) 18446744073709551616 ltac:(lia)).
       pose proof (Z.div_mod (Z.of_nat (String.length c2)) 18446744073709551616 ltac:(lia)).
       lia. }
  apply digest_field_inj in E as [Ed E]; [|done].
  split_and!; [by apply bytes_of_inj|done|]. apply bytes_of_inj.
  rewrite <- (app_nil_r (digest_field (bytes_of r1))), <- (app_nil_r (digest_field (bytes_of r2))) in E.
  apply digest_field_inj in E as [? _]; [done|]. apply short_fields; rewrite bytes_of_length; lia.
Qed.

Lemma dns_tag_digest c1 c2 d1 d2 r1 r2 : dns_tag c1 d1 r1 = dns_tag c2 d2 r2 ->
  sha256 (tag_input c1 d1 r1) = sha256 (tag_input c2 d2 r2).
Proof.
  intros E. unfold dns_tag in E. cbn [String.append] in E. injection E as E.
  by apply hex_encode_inj in E; try apply sha256_range.
Qed.

Lemma target_input_inj t1 t2 c1 c2 : short (ID t1) -> short (ID t2) ->
  target_input t1 c1 = target_input t2 c2 -> ID t1 = ID t2.
Proof.
  intros H1 H2 E. apply digest_field_inj in E as [E _]; [by apply bytes_of_inj|].
  apply short_fields; by rewrite bytes_of_length.
Qed.

Lemma build_inr client target resolver o : BuildDNSOutbound client target resolver = inr o ->
  tcp_capable target = true /\ ID target <> EmptyString /\ public_resolver resolver /\
  exists canonical config, canonicalOutboundJSON (Config target) = Some canonical /\ encode_dns (dns_config resolver (ID target)) = Some config /\
    o = {| ID := dns_tag client (target_digest target canonical) resolver;
           Protocol := ProtocolDNS; Config := config |}.
Proof.
  unfold BuildDNSOutbound. destruct (str_eqb client _); [discriminate|].
  destruct (str_eqb (ID target) _) eqn:Ei; [discriminate|].
  destruct (tcp_capable target); [|discriminate]. cbn [negb].
  destruct (ValidatePublicDNSResolver resolver) eqn:Ev; [discriminate|].
  destruct (canonicalOutboundJSON _) as [canonical|] eqn:Ej; [|discriminate].
  destruct (encode_dns _) as [config|] eqn:Ec; [|discriminate]. intros [= <-]. str_bool.
  split_and!; [done|done|by apply public_resolver_accepts|]. eauto.
Qed.

(** A handler dials through its target. *)
Lemma build_dials client target resolver o : BuildDNSOutbound client target resolver = inr o ->
  dials_through (ID target) o.
Proof.
  intros (_ & Hne & Hr & canonical & config & _ & He & ->)%build_inr. split; [done|].
  cbn [Config]. destruct (dns_codec _ _ He) as [Hd Ht].
  unfold validateDNSOutboundConfig. rewrite (proj2 (str_eqb_neq _ _) Ht), Hd. cbn.
  apply public_resolver_accepts in Hr. rewrite Hr.
  by rewrite (proj2 (str_eqb_neq _ _) Hne).
Qed.

(** Two DNS handlers with one tag are one handler. *)
Lemma build_inj clients resolvers outbounds c1 t1 r1 o1 c2 t2 r2 o2 :
  tells_apart (hashed_inputs clients resolvers outbounds) ->
  In c1 clients -> In c2 clients -> In r1 resolvers -> In r2 resolvers -> In t1 outbounds -> In t2 outbounds ->
  BuildDNSOutbound c1 t1 r1 = inr o1 -> BuildDNSOutbound c2 t2 r2 = inr o2 ->
  short (ID t1) -> short (ID t2) -> ID o1 = ID o2 -> o1 = o2.
Proof.
  intros Hapart Hc1 Hc2 Hr1 Hr2 Ht1 Ht2 (T1 & _ & P1 & k1 & g1 & J1 & E1 & ->)%build_inr
    (T2 & _ & P2 & k2 & g2 & J2 & E2 & ->)%build_inr.
  intros H1 H2 E. cbn [ID] in E. pose proof E as E'. apply dns_tag_digest, Hapart in E; [|by apply hashed_tag..].
  apply tag_input_inj in E as (-> & Hd & ->); [|unfold target_digest; by rewrite !sha256_length|done..].
  apply (Hapart (target_input t1 k1) (target_input t2 k2)), target_input_inj in Hd; [|done|done|by apply hashed_target..].
  rewrite Hd, E2 in E1. injection E1 as ->. f_equal. done.
Qed.

(** ** Which name is whose *)

Definition link_name (k : string) : Prop :=
  exists candidate payload, dashless candidate /\ k = VLESSHandlerID candidate payload.
Definition tor_name (k : string) : Prop :=
  exists candidate profile client, dashless candidate /\ k = torProfileOutboundID candidate profile client.
Definition tag_name (k : string) : Prop := exists client digest resolver, k = dns_tag client digest resolver.

Lemma cut_dash candidate t : dashless candidate ->
  cut "-" (candidate ++ String "-" t) = Some (candidate, t).
Proof.
  intros [Hc _]. rewrite (cut_skip "-" EmptyString candidate _ Hc).
  change (String "-" t) with ("-" ++ t)%string. rewrite cut_here. cbn [option_map].
  by rewrite str_app_nil_r.
Qed.

Lemma cut_tag k : tag_name k -> exists t, cut "-" k = Some ("hydrat"%string, String "d" t).
Proof. intros (client & digest & resolver & ->). unfold dns_tag. cbn. eauto. Qed.

Lemma link_cut k : link_name k ->
  cut "-" k = None \/ exists c t, cut "-" k = Some (c, String "v" t).
Proof.
  intros (c & payload & Hc & ->). unfold VLESSHandlerID.
  assert (cut "-" c = None) as Hn.
  { rewrite <- (str_app_nil_r c) at 1. by rewrite (cut_skip "-" EmptyString c _ (proj1 Hc)). }
  destruct (flow_of payload) as [flow|]; [|by left].
  destruct (str_eqb _ _); [right|by left]. exists c. eexists.
  unfold visionStandardHandlerSuffix. by rewrite cut_dash.
Qed.

Lemma tor_cut k : tor_name k -> exists c t, cut "-" k = Some (c, String "p" t).
Proof.
  intros (c & profile & client & Hc & ->). exists c. eexists. unfold torProfileOutboundID.
  change ("-profile-" ++ ?u)%string with (String "-" (String "p" ("rofile-" ++ u))).
  by rewrite cut_dash.
Qed.

Lemma names_apart k : (link_name k -> ~ tag_name k) /\ (tor_name k -> ~ tag_name k) /\
  (link_name k -> ~ tor_name k).
Proof.
  split_and!.
  - intros Hl Ht. apply cut_tag in Ht as [t Ht]. apply link_cut in Hl as [Hl|(c & t' & Hl)]; congruence.
  - intros Hl Ht. apply cut_tag in Ht as [t Ht]. apply tor_cut in Hl as (c & t' & Hl); congruence.
  - intros Hl Ht. apply tor_cut in Ht as (c & t & Ht). apply link_cut in Hl as [Hl|(c' & t' & Hl)]; congruence.
Qed.

Lemma link_nonempty k : link_name k -> k <> EmptyString.
Proof.
  intros (c & payload & Hc & ->) E. pose proof (link_candidate c payload Hc) as H.
  rewrite E in H. by destruct Hc as [_ []].
Qed.

Lemma tor_nonempty k : tor_name k -> k <> EmptyString.
Proof. intros (c & t & Hk)%tor_cut ->. discriminate. Qed.

Lemma link_short candidate payload : bounded candidate -> short (VLESSHandlerID candidate payload).
Proof.
  unfold bounded, short, VLESSHandlerID. intros Hc.
  destruct (flow_of payload); [destruct (str_eqb _ _)|]; try lia.
  rewrite str_length_app. cbn [String.length visionStandardHandlerSuffix]. lia.
Qed.

Lemma tor_short candidate profile client :
  bounded candidate -> bounded client -> 0 <= p_Slot profile < 2 ^ 31 ->
  short (torProfileOutboundID candidate profile client).
Proof.
  unfold bounded, short, torProfileOutboundID. intros Hc Hl Hs%decimal_length.
  set (identity := sha256 _).
  assert (Forall (fun b => 0 <= b < 256) (take 6 identity)) as Hr by apply Forall_take, sha256_range.
  destruct (hex_text "-" _ ltac:(simpl; auto) Hr) as [_ Hlen].
  rewrite length_take in Hlen. rewrite !str_length_app, Hlen. cbn [String.length]. lia.
Qed.

(** ** The outbounds of a plan under construction *)

Section Routes.
Context (options : EngineOptions) (torSecret : list Z) (now : Time)
  (rows : gmap string Candidate) (payloads : gmap string string) (profiles : gmap string Profile)
  (clientByID : gmap string ClientRecord) (clients : list string).

Definition entry_ok (m : gmap string Outbound) (k : string) (o : Outbound) : Prop :=
  ID o = k /\ (tcp_capable o = true -> short k) /\
  (link_name k /\ Protocol o = ProtocolVLESS \/ tor_name k /\ Protocol o = ProtocolTor \/
   exists client target resolver, BuildDNSOutbound client target resolver = inr o /\
     m !! ID target = Some target /\ In client clients /\ In resolver (dnsResolvers options)).

Definition outbounds_ok (m : gmap string Outbound) : Prop := map_Forall (entry_ok m) m.

Lemma entry_extends m m' k o : m ⊆ m' -> entry_ok m k o -> entry_ok m' k o.
Proof.
  intros Hm (Hk & Hs & Ho). split_and!; [done..|]. destruct Ho as [?|[?|(c & t & r & Hb & Ht & Hcr)]]; [auto..|].
  right; right. exists c, t, r. split_and!; [done| |by destruct Hcr..]. by eapply lookup_weaken.
Qed.

Lemma outbounds_insert m k o : outbounds_ok m -> m !! k = None ->
  entry_ok (<[k := o]> m) k o -> outbounds_ok (<[k := o]> m) /\ m ⊆ <[k := o]> m.
Proof.
  intros Hm Hk Ho. assert (m ⊆ <[k := o]> m) as Hsub by by apply insert_subseteq.
  split; [|done]. apply map_Forall_insert_2; [done|].
  intros k' o' Hk'. eapply entry_extends; eauto.
Qed.

(** An outbound that carries the traffic of a candidate. *)
Definition carries (m : gmap string Outbound) (udp : bool) (candidate id : string) : Prop :=
  recoveryCandidateID id = candidate /\ id <> EmptyString /\
  exists o, m !! id = Some o /\ ID o = id /\ (if udp then is_vless o else tcp_capable o) = true.

Lemma carries_extends m m' udp candidate id : m ⊆ m' -> carries m udp candidate id -> carries m' udp candidate id.
Proof.
  intros Hm (H1 & H2 & o & Ho & H3). split_and!; [done|done|]. exists o. split; [|done].
  by eapply lookup_weaken.
Qed.

Abbreviation outbound_ := (outbound torSecret rows payloads profiles).

Context (Hslots : forall id profile, profiles !! id = Some profile -> 0 <= p_Slot profile < 2 ^ 31).

Definition plain (s : string) : Prop := dashless s /\ bounded s.

Lemma outbound_spec client candidate m id m' : outbounds_ok m -> plain candidate -> bounded client ->
  outbound_ client candidate m = inr (id, m') ->
  outbounds_ok m' /\ m ⊆ m' /\ carries m' false candidate id /\
  (from_option c_Kind EmptyString (rows !! candidate) = KindVLESS -> carries m' true candidate id).
Proof.
  intros Hm [Hc Hb] Hcl. unfold outbound.
  destruct (rows !! candidate) as [row|]; [|discriminate].
  destruct (payloads !! candidate) as [payload|]; [|discriminate].
  destruct (str_eqb (c_Kind row) KindVLESS) eqn:Ek.
  - assert (link_name (VLESSHandlerID candidate payload)) as Hl by by exists candidate, payload.
    pose proof (link_short candidate payload Hb) as Hsh.
    pose proof (link_candidate candidate payload Hc) as Hr.
    pose proof (link_nonempty _ Hl) as Hne.
    set (id0 := VLESSHandlerID candidate payload) in *.
    assert (forall m' o, m' !! id0 = Some o -> ID o = id0 -> Protocol o = ProtocolVLESS ->
      carries m' false candidate id0 /\ carries m' true candidate id0) as Hcar.
    { intros m1 o Ho Hi Hp. split; (split_and!; [done|done|]); exists o; split_and!; try done;
        unfold tcp_capable, is_vless; by rewrite Hp. }
    destruct (m !! id0) as [o|] eqn:Eo.
    + intros [= <- <-]. destruct (Hm _ _ Eo) as (Hi & _ & Ho).
      destruct Ho as [[_ Hp]|[[Ht _]|(c & t & r & Hd & _)]].
      * destruct (Hcar _ _ Eo Hi Hp). auto.
      * by destruct (names_apart id0) as (_ & _ & []).
      * destruct (names_apart id0) as ([] & _); [done|].
        apply build_inr in Hd as (_ & _ & _ & k & g & _ & _ & ->). rewrite <- Hi. by do 3 eexists.
    + destruct (VLESSOutbound payload id0) as [|config]; [discriminate|]. intros [= <- <-].
      match goal with |- context [<[id0 := ?o]> m] => set (o0 := o) end.
      destruct (outbounds_insert m id0 o0 Hm Eo) as [? ?]; [split_and!; [done|done|by left]|].
      destruct (Hcar (<[id0 := o0]> m) o0) as [? ?]; [by rewrite lookup_insert_eq|done|done|]. auto.
  - destruct (str_eqb (c_Kind row) KindTorBridge) eqn:Et; [|discriminate].
    destruct (profiles !! candidate) as [profile|] eqn:Ep; [|discriminate].
    pose proof (tor_short candidate profile client Hb Hcl (Hslots _ _ Ep)) as Hsh.
    assert (tor_name (torProfileOutboundID candidate profile client)) as Hl by by exists candidate, profile, client.
    pose proof (tor_candidate candidate profile client Hc) as Hr.
    pose proof (tor_nonempty _ Hl) as Hne.
    set (id0 := torProfileOutboundID candidate profile client) in *.
    assert (forall m' o, m' !! id0 = Some o -> ID o = id0 -> Protocol o = ProtocolTor ->
      carries m' false candidate id0) as Hcar.
    { intros m1 o Ho Hi Hp. split_and!; [done|done|]. exists o; split_and!; try done.
      unfold tcp_capable. by rewrite Hp. }
    assert (from_option c_Kind EmptyString (Some row) = KindVLESS -> False) as Hno.
    { cbn. intros E. by rewrite E in Ek. }
    destruct (m !! id0) as [o|] eqn:Eo.
    + intros [= <- <-]. destruct (Hm _ _ Eo) as (Hi & _ & Ho).
      destruct Ho as [[Hn _]|[[_ Hp]|(c & t & r & Hd & _)]].
      * by destruct (names_apart id0) as (_ & _ & []).
      * split_and!; eauto. by intros ?%Hno.
      * destruct (names_apart id0) as (_ & [] & _); [done|].
        apply build_inr in Hd as (_ & _ & _ & k & g & _ & _ & ->). rewrite <- Hi. by do 3 eexists.
    + intros [= <- <-]. match goal with |- context [<[id0 := ?o]> m] => set (o0 := o) end.
      destruct (outbounds_insert m id0 o0 Hm Eo) as [? ?]; [split_and!; [done|done|right; by left]|].
      split_and!; [done|done| |by intros ?%Hno].
      apply (Hcar _ o0); [by rewrite lookup_insert_eq|done|done].
Qed.

(** Tags name DNS handlers only. *)
Lemma tag_entry m k o : entry_ok m k o -> tag_name k -> exists client target resolver,
  BuildDNSOutbound client target resolver = inr o /\ m !! ID target = Some target /\
  In client clients /\ In resolver (dnsResolvers options).
Proof.
  intros (_ & _ & Ho) Ht. destruct (names_apart k) as (N1 & N2 & _).
  destruct Ho as [[Hl _]|[[Hl _]|Ho]]; [by destruct N1|by destruct N2|done].
Qed.

Definition resolves (m : gmap string Outbound) (id dns : string) : Prop :=
  dns <> EmptyString /\ exists o, m !! dns = Some o /\ ID o = dns /\ dials_through id o.

Lemma resolves_extends m m' id dns : m ⊆ m' -> resolves m id dns -> resolves m' id dns.
Proof.
  intros Hm (Hne & o & Ho & H). split; [done|]. exists o. split; [|done]. by eapply lookup_weaken.
Qed.

(** Outbounds that serve TCP stay: no handler takes their place. *)
Definition keyed (m : gmap string Outbound) : Prop :=
  map_Forall (fun k o => tcp_capable o = true -> ~ tag_name k) m.
Definition later (m m' : gmap string Outbound) : Prop :=
  forall k o, m !! k = Some o -> tcp_capable o = true -> m' !! k = Some o.

Lemma later_trans m1 m2 m3 : later m1 m2 -> later m2 m3 -> later m1 m3.
Proof. unfold later. eauto. Qed.

Lemma later_refl m : later m m.
Proof. by intros k o. Qed.

Lemma ok_keyed m : outbounds_ok m -> keyed m.
Proof.
  intros Hm k o Ho Hcap Ht. destruct (tag_entry _ _ _ (Hm _ _ Ho) Ht) as (c & t & r & Hb & _).
  apply build_inr in Hb as (_ & _ & _ & x & y & _ & _ & ->). done.
Qed.

Lemma keyed_insert m k o : keyed m -> m !! k = None -> ~ tag_name k ->
  keyed (<[k := o]> m) /\ later m (<[k := o]> m).
Proof.
  intros Hm Hk Ht. split; [by apply map_Forall_insert_2|]. intros k' o' Hk' _.
  rewrite lookup_insert_ne; [done|congruence].
Qed.

Lemma outbound_later client candidate m id m' : keyed m -> dashless candidate ->
  outbound_ client candidate m = inr (id, m') -> keyed m' /\ later m m'.
Proof.
  intros Hm Hc. unfold outbound. destruct (rows !! candidate) as [row|]; [|discriminate].
  destruct (payloads !! candidate) as [payload|]; [|discriminate]. destruct (str_eqb _ _).
  - destruct (m !! _) eqn:Eo; [intros [= <- <-]; split; [done|apply later_refl]|].
    destruct (VLESSOutbound _ _) as [|config]; [discriminate|]. intros [= <- <-].
    apply keyed_insert; [done..|]. apply (proj1 (names_apart _)). by exists candidate, payload.
  - destruct (str_eqb _ _); [|discriminate]. destruct (profiles !! candidate) as [profile|]; [|discriminate].
    destruct (m !! _) eqn:Eo; intros [= <- <-]; [split; [done|apply later_refl]|].
    apply keyed_insert; [done..|]. apply (proj1 (proj2 (names_apart _))). by exists candidate, profile, client.
Qed.

Lemma dns_later client candidate id m dns m' : keyed m ->
  render_dns options client candidate id m = inr (dns, m') -> keyed m' /\ later m m'.
Proof.
  intros Hm. unfold render_dns. intros (resolver & _ & Hr)%attempt_inr.
  apply attempt_inr in Hr as (o & Ho & [= <- <-]).
  apply build_inr in Ho as (_ & _ & _ & k & g & _ & _ & ->). cbn [ID]. split.
  - by apply map_Forall_insert_2.
  - intros k' o' Hk' Hcap. rewrite lookup_insert_ne; [done|]. intros <-.
    apply (Hm _ _ Hk' Hcap). by do 3 eexists.
Qed.

Lemma resolver_listed candidate resolver : dnsResolverForCandidate options candidate = inr resolver ->
  In resolver (dnsResolvers options).
Proof.
  unfold dnsResolverForCandidate. destruct (SelectDNSResolver _ _) as [|r] eqn:E; [done|]. intros [= <-].
  by apply (proj2 (proj2 (proj2 (resolver_selection _)) _)) in E.
Qed.

(** ** Handlers, when nothing that is hashed collides *)

(** The outbounds at the end of the rendering, and what may be hashed for them. *)
Context (final : gmap string Outbound)
  (Hapart : tells_apart (hashed_inputs clients (dnsResolvers options) (map snd (map_to_list final)))).

Lemma later_final m k o : later m final -> m !! k = Some o -> tcp_capable o = true ->
  In o (map snd (map_to_list final)).
Proof.
  intros Hm Ho Hcap. apply in_map_iff. exists (k, o). split; [done|].
  apply list_elem_of_In, elem_of_map_to_list. by apply Hm.
Qed.

Lemma dns_spec client candidate id m dns m' : outbounds_ok m -> In client clients ->
  carries m false candidate id -> render_dns options client candidate id m = inr (dns, m') ->
  later m' final -> outbounds_ok m' /\ m ⊆ m' /\ resolves m' id dns.
Proof.
  intros Hm Hclient (_ & _ & target & Ht & Hi & Hcap) Hr Hlater.
  assert (later m final) as Hfinal.
  { eapply later_trans; [|exact Hlater]. by eapply dns_later; [apply ok_keyed|]. }
  revert Hr. unfold render_dns.
  intros (resolver & Hresolver%resolver_listed & Hr)%attempt_inr. apply attempt_inr in Hr as (o & Ho & [= <- <-]).
  rewrite Ht in Ho. change (default zero_outbound (Some target)) with target in Ho.
  pose proof (build_dials _ _ _ _ Ho) as Hd. rewrite Hi in Hd.
  pose proof (build_inr _ _ _ _ Ho) as (_ & _ & _ & k & g & _ & _ & Eo).
  assert (tag_name (ID o)) as Htag by (rewrite Eo; by do 3 eexists).
  assert (ID o <> EmptyString) as Hne.
  { intros E. apply cut_tag in Htag as [t Htag]. rewrite E in Htag. discriminate. }
  assert (tcp_capable o = true -> short (ID o)) as Hsh by by rewrite Eo.
  assert (resolves (<[ID o := o]> m) id (ID o)) as Hres.
  { split; [done|]. exists o. by rewrite lookup_insert_eq. }
  rewrite <- Hi in Ht.
  destruct (m !! ID o) as [old|] eqn:Em.
  - pose proof (Hm _ _ Em) as Hold. destruct (tag_entry _ _ _ Hold Htag) as (c & t & r & Hb & Hmt & Hc & Hr).
    pose proof (build_inr _ _ _ _ Hb) as (Hct & _).
    assert (o = old) as <-; [|rewrite insert_id in Hres |- * by done; by split_and!].
    eapply (build_inj _ _ _ _ _ _ _ _ _ _ _ Hapart Hclient Hc Hresolver Hr _ _ Ho Hb).
    + by apply (Hm _ _ Ht).
    + by apply (Hm _ _ Hmt).
    + by destruct Hold as [-> _].
  - destruct (outbounds_insert m (ID o) o Hm Em) as [H1 H2]; [|by split_and!].
    split_and!; [done|done|]. right; right. exists client, target, resolver. split_and!; [done| |done..].
    rewrite lookup_insert_ne; [done|]. intros E. rewrite <- E, Em in Ht. discriminate.
    Unshelve. all: by eapply later_final.
Qed.

Abbreviation render_tcp_ := (render_tcp options torSecret rows payloads profiles).
Abbreviation render_udp_ := (render_udp torSecret rows payloads profiles).

Definition routed (m : gmap string Outbound) (udp : bool) (candidate id : string) : Prop :=
  if str_eqb candidate EmptyString then id = EmptyString else carries m udp candidate id.

Lemma routed_extends m m' udp candidate id : m ⊆ m' -> routed m udp candidate id -> routed m' udp candidate id.
Proof. unfold routed. destruct (str_eqb _ _); [done|]. apply carries_extends. Qed.

Lemma tcp_later client candidate m id dns m' : keyed m -> (candidate <> EmptyString -> plain candidate) ->
  render_tcp_ client candidate m = inr (id, dns, m') -> keyed m' /\ later m m'.
Proof.
  intros Hm Hc. unfold render_tcp. destruct (str_eqb candidate EmptyString) eqn:E.
  { intros [= <- <- <-]. split; [done|apply later_refl]. }
  str_bool. intros ([id1 m1] & Ho & Hr)%attempt_inr. apply attempt_inr in Hr as ([dns1 m2] & Hd & [= <- <- <-]).
  destruct (outbound_later _ _ _ _ _ Hm (proj1 (Hc E)) Ho) as [H1 H2].
  destruct (dns_later _ _ _ _ _ _ H1 Hd) as [H3 H4]. split; [done|by eapply later_trans].
Qed.

Lemma udp_later client candidate m id m' : keyed m -> (candidate <> EmptyString -> plain candidate) ->
  render_udp_ client candidate m = inr (id, m') -> keyed m' /\ later m m'.
Proof.
  intros Hm Hc. unfold render_udp. destruct (str_eqb candidate EmptyString) eqn:E.
  { intros [= <- <-]. split; [done|apply later_refl]. }
  str_bool. by apply outbound_later, Hc.
Qed.

Lemma tcp_spec client candidate m id dns m' : outbounds_ok m -> In client clients ->
  (candidate <> EmptyString -> plain candidate) -> bounded client ->
  render_tcp_ client candidate m = inr (id, dns, m') -> later m' final ->
  outbounds_ok m' /\ m ⊆ m' /\ routed m' false candidate id /\ (dns <> EmptyString -> resolves m' id dns).
Proof.
  intros Hm Hclient Hc Hcl. unfold render_tcp, routed. destruct (str_eqb candidate EmptyString) eqn:E.
  { intros [= <- <- <-] _. by split_and!. }
  str_bool. intros ([id1 m1] & Ho & Hr)%attempt_inr. cbn [fst snd] in Hr.
  apply attempt_inr in Hr as ([dns1 m2] & Hd & [= <- <- <-]). intros Hlater.
  destruct (outbound_spec _ _ _ _ _ Hm (Hc E) Hcl Ho) as (H1 & H2 & H3 & _).
  destruct (dns_spec _ _ _ _ _ _ H1 Hclient H3 Hd Hlater) as (H4 & H5 & H6). cbn.
  split_and!; [done|by etransitivity|by eapply carries_extends|done].
Qed.

Lemma udp_spec client candidate m id m' : outbounds_ok m ->
  (candidate <> EmptyString -> plain candidate /\
     from_option c_Kind EmptyString (rows !! candidate) = KindVLESS) -> bounded client ->
  render_udp_ client candidate m = inr (id, m') ->
  outbounds_ok m' /\ m ⊆ m' /\ routed m' true candidate id.
Proof.
  intros Hm Hc Hcl. unfold render_udp, routed. destruct (str_eqb candidate EmptyString) eqn:E.
  { intros [= <- <-]. by split_and!. }
  str_bool. intros Ho. destruct (Hc E) as [Hp Hk].
  destruct (outbound_spec _ _ _ _ _ Hm Hp Hcl Ho) as (H1 & H2 & _ & H4). auto.
Qed.

(** ** Clients *)

Definition kind_of (id : string) : string := from_option c_Kind EmptyString (rows !! id).

(** What a placement of the scheduler promises of one client. *)
Record placement_ok (client : string) (a : Assignment) (r : ReserveSelection) : Prop := {
  po_client : client <> EmptyString /\ bounded client;
  po_plain : forall id, In id [TCP a; UDP a; rs_TCP r; rs_UDP r] -> id <> EmptyString -> plain id;
  po_udp : forall id, In id [UDP a; rs_UDP r] -> id <> EmptyString -> kind_of id = KindVLESS;
  po_tcp_reserve : rs_TCP r <> EmptyString -> TCP a <> EmptyString /\ rs_TCP r <> TCP a;
  po_udp_reserve : rs_UDP r <> EmptyString -> UDP a <> EmptyString /\ rs_UDP r <> UDP a
}.

Definition placed_ok (p : string * Assignment * ReserveSelection) : Prop :=
  placement_ok p.1.1 p.1.2 p.2.

Record route_in (m : gmap string Outbound) (p : string * Assignment * ReserveSelection)
    (route : ClientRoute) : Prop := {
  ri_client : ClientID route = p.1.1;
  ri_block_tcp : BlockTCP route = str_eqb (TCP p.1.2) EmptyString;
  ri_block_udp : BlockUDP route = str_eqb (UDP p.1.2) EmptyString;
  ri_tcp : routed m false (TCP p.1.2) (TCPOutbound route);
  ri_udp : routed m true (UDP p.1.2) (UDPOutbound route);
  ri_dns : DNSOutbound route <> EmptyString -> resolves m (TCPOutbound route) (DNSOutbound route);
  ri_tcp_reserve : routed m false (rs_TCP p.2) (TCPReserveOutbound route);
  ri_udp_reserve : routed m true (rs_UDP p.2) (UDPReserveOutbound route)
}.

Lemma route_in_extends m m' p route : m ⊆ m' -> route_in m p route -> route_in m' p route.
Proof. intros Hm []. split; eauto using routed_extends, resolves_extends. Qed.

Abbreviation render_client_ := (render_client options torSecret now rows payloads profiles clientByID).

Lemma placed_links client a reserves : placement_ok client a reserves ->
  forall id, In id [UDP a; rs_UDP reserves] -> id <> EmptyString -> plain id /\ kind_of id = KindVLESS.
Proof.
  intros [_ Hplain Hudp _ _] id Hin Hne. split; [apply Hplain; [simpl in *; tauto|done]|by apply Hudp].
Qed.

(** The four parts of a client's route, one after the other. *)
Lemma client_parts r client a reserves r' : render_client_ r (client, a, reserves) = inr r' ->
  exists t d m1 u m2 rt rd m3 ru,
    render_tcp_ client (TCP a) (rd_outbounds r) = inr (t, d, m1) /\
    render_udp_ client (UDP a) m1 = inr (u, m2) /\
    render_tcp_ client (rs_TCP reserves) m2 = inr (rt, rd, m3) /\
    render_udp_ client (rs_UDP reserves) m3 = inr (ru, rd_outbounds r') /\
    exists route, rd_routes r' = rd_routes r ++ [route] /\
      ClientID route = client /\ BlockTCP route = str_eqb (TCP a) EmptyString /\
      BlockUDP route = str_eqb (UDP a) EmptyString /\ TCPOutbound route = t /\ UDPOutbound route = u /\
      DNSOutbound route = d /\ TCPReserveOutbound route = rt /\ UDPReserveOutbound route = ru.
Proof.
  unfold render_client. intros ([[t d] m1] & Ht & Hr)%attempt_inr. cbn [fst snd] in Hr.
  apply attempt_inr in Hr as ([u m2] & Hu & Hr). cbn [fst snd] in Hr.
  apply attempt_inr in Hr as ([[rt rd] m3] & Hrt & Hr). cbn [fst snd] in Hr.
  apply attempt_inr in Hr as ([ru m4] & Hru & [= <-]). exists t, d, m1, u, m2, rt, rd, m3, ru.
  split_and!; [done..|]. eexists. by split_and!.
Qed.

Lemma client_later r p r' : keyed (rd_outbounds r) -> placed_ok p -> render_client_ r p = inr r' ->
  keyed (rd_outbounds r') /\ later (rd_outbounds r) (rd_outbounds r').
Proof.
  destruct p as [[client a] reserves]. intros Hm Hp Hr. cbn [fst snd] in *.
  destruct Hp as [_ Hplain _ _ _]. cbn [fst snd] in *.
  apply client_parts in Hr as (t & d & m1 & u & m2 & rt & rd & m3 & ru & Ht & Hu & Hrt & Hru & _).
  destruct (tcp_later _ _ _ _ _ _ Hm (Hplain (TCP a) ltac:(simpl; auto)) Ht) as [K1 L1].
  destruct (udp_later _ _ _ _ _ K1 (Hplain (UDP a) ltac:(simpl; auto)) Hu) as [K2 L2].
  destruct (tcp_later _ _ _ _ _ _ K2 (Hplain (rs_TCP reserves) ltac:(simpl; auto)) Hrt) as [K3 L3].
  destruct (udp_later _ _ _ _ _ K3 (Hplain (rs_UDP reserves) ltac:(simpl; auto)) Hru) as [K4 L4].
  split; [done|]. eauto using later_trans.
Qed.

Lemma clients_later placed r r' : keyed (rd_outbounds r) -> Forall placed_ok placed ->
  fold_attempt render_client_ r placed = inr r' -> later (rd_outbounds r) (rd_outbounds r').
Proof.
  intros Hm Hp. revert r Hm. induction Hp as [|p placed Hp _ IH]; intros r Hm; cbn [fold_attempt].
  { intros [= <-]. apply later_refl. }
  intros (r1 & H1 & Hr)%attempt_inr. destruct (client_later _ _ _ Hm Hp H1) as [K1 L1].
  eapply later_trans; [exact L1|by apply IH].
Qed.

Lemma client_spec r p r' : outbounds_ok (rd_outbounds r) -> In p.1.1 clients -> placed_ok p ->
  render_client_ r p = inr r' -> later (rd_outbounds r') final ->
  outbounds_ok (rd_outbounds r') /\ rd_outbounds r ⊆ rd_outbounds r' /\
  exists route, rd_routes r' = rd_routes r ++ [route] /\ route_in (rd_outbounds r') p route.
Proof.
  destruct p as [[client a] reserves]. intros Hm Hclient Hp Hr Hlater. cbn [fst snd] in *.
  pose proof (placed_links _ _ _ Hp) as Hlink. destruct Hp as [[_ Hcl] Hplain _ _ _]. cbn [fst snd] in *.
  apply client_parts in Hr as (t & d & m1 & u & m2 & rt & rd & m3 & ru & Ht & Hu & Hrt & Hru & Hroute).
  assert (forall m, keyed m -> forall c id m', In c [UDP a; rs_UDP reserves] ->
    render_udp_ client c m = inr (id, m') -> later m m') as Hul.
  { intros m Hk c id m' Hin H. eapply udp_later; [exact Hk| |exact H]. intros Hne. by apply Hlink. }
  pose proof (proj1 (tcp_later _ _ _ _ _ _ (ok_keyed _ Hm) (Hplain (TCP a) ltac:(simpl; auto)) Ht)) as K1.
  pose proof (udp_later _ _ _ _ _ K1 (Hplain (UDP a) ltac:(simpl; auto)) Hu) as [K2 L2].
  pose proof (tcp_later _ _ _ _ _ _ K2 (Hplain (rs_TCP reserves) ltac:(simpl; auto)) Hrt) as [K3 L3].
  pose proof (later_trans _ _ _ (Hul _ K3 _ _ _ ltac:(simpl; auto) Hru) Hlater) as F3.
  pose proof (later_trans _ _ _ L3 F3) as F2. pose proof (later_trans _ _ _ L2 F2) as F1.
  destruct (tcp_spec _ _ _ _ _ _ Hm Hclient (Hplain (TCP a) ltac:(simpl; auto)) Hcl Ht F1) as (O1 & S1 & R1 & D1).
  destruct (udp_spec _ _ _ _ _ O1 (Hlink (UDP a) ltac:(simpl; auto)) Hcl Hu) as (O2 & S2 & R2).
  destruct (tcp_spec _ _ _ _ _ _ O2 Hclient (Hplain (rs_TCP reserves) ltac:(simpl; auto)) Hcl Hrt F3)
    as (O3 & S3 & R3 & _).
  destruct (udp_spec _ _ _ _ _ O3 (Hlink (rs_UDP reserves) ltac:(simpl; auto)) Hcl Hru) as (O4 & S4 & R4).
  destruct Hroute as (route & Er & E1 & E2 & E3 & <- & <- & <- & <- & <-).
  assert (m2 ⊆ rd_outbounds r') as S24 by by etransitivity.
  assert (m1 ⊆ rd_outbounds r') as S14 by by etransitivity.
  split_and!; [done|by etransitivity|]. exists route. split; [done|].
  split; cbn; eauto using routed_extends, resolves_extends.
Qed.

Lemma clients_spec placed r r' done_ : outbounds_ok (rd_outbounds r) ->
  Forall2 (route_in (rd_outbounds r)) done_ (rd_routes r) -> Forall placed_ok placed ->
  Forall (fun p => In p.1.1 clients) placed ->
  fold_attempt render_client_ r placed = inr r' -> later (rd_outbounds r') final ->
  outbounds_ok (rd_outbounds r') /\ Forall2 (route_in (rd_outbounds r')) (done_ ++ placed) (rd_routes r').
Proof.
  intros Hm Hd Hp Hin. revert r done_ Hm Hd.
  induction Hp as [|p placed Hp Hps IH]; intros r done_ Hm Hd; cbn [fold_attempt].
  { intros [= <-] _. by rewrite app_nil_r. }
  intros (r1 & H1 & Hr)%attempt_inr Hlater. apply Forall_cons in Hin as [Hc Hin].
  pose proof (proj1 (client_later _ _ _ (ok_keyed _ Hm) Hp H1)) as K1.
  pose proof (later_trans _ _ _ (clients_later _ _ _ K1 Hps Hr) Hlater) as F1.
  destruct (client_spec _ _ _ Hm Hc Hp H1 F1) as (O1 & S1 & route & Er & Hroute).
  apply (IH Hin _ (done_ ++ [p]) O1) in Hr as [O2 F2]; [|clear Hr|done].
  - by rewrite <- app_assoc in F2.
  - rewrite Er. apply Forall2_app; [|constructor; [exact Hroute|constructor]].
    eapply Forall2_impl; [exact Hd|]. intros. by eapply route_in_extends.
Qed.

(** The plan holds every outbound that was rendered. *)
Lemma carries_names (m : gmap string Outbound) plan udp candidate id :
  (forall k o, m !! k = Some o -> In o (Outbounds plan)) -> carries m udp candidate id ->
  names plan id (if udp then serves_udp else serves_tcp).
Proof.
  intros Hin (_ & _ & o & Ho & Hi & Hc). exists o. split_and!; [by eapply Hin|done|]. by destruct udp.
Qed.

Lemma route_in_ok m plan p route :
  (forall k o, m !! k = Some o -> In o (Outbounds plan)) -> placed_ok p -> route_in m p route ->
  route_ok plan route.
Proof.
  intros Hin [[Hcl _] _ _ Htr Hur] [Ec Ebt Ebu Rt Ru Rd Rtr Rur].
  unfold routed in Rt, Ru, Rtr, Rur. split.
  - by rewrite Ec.
  - rewrite Ebt. destruct (str_eqb (TCP p.1.2) _); [done|]. by destruct Rt as (_ & ? & _).
  - rewrite Ebu. destruct (str_eqb (UDP p.1.2) _); [done|]. by destruct Ru as (_ & ? & _).
  - rewrite Ebt. intros E. rewrite E in Rt. by apply (carries_names m plan false) in Rt.
  - rewrite Ebu. intros E. rewrite E in Ru. by apply (carries_names m plan true) in Ru.
  - intros Hne. destruct (Rd Hne) as (_ & o & Ho & Hi & Hd). exists o. split_and!; eauto.
  - intros Hne. destruct (str_eqb (rs_TCP p.2) _) eqn:E; [done|]. str_bool.
    destruct (Htr E) as [Hp Hd]. apply str_eqb_neq in Hp. rewrite Hp in Ebt, Rt.
    split_and!; [done| |by apply (carries_names m plan false) in Rtr].
    intros Eo. destruct Rt as (Et & _), Rtr as (Er & _). congruence.
  - intros Hne. destruct (str_eqb (rs_UDP p.2) _) eqn:E; [done|]. str_bool.
    destruct (Hur E) as [Hp Hd]. apply str_eqb_neq in Hp. rewrite Hp in Ebu, Ru.
    split_and!; [done| |by apply (carries_names m plan true) in Rur].
    intros Eo. destruct Ru as (Et & _), Rur as (Er & _). congruence.
Qed.

(** The options hold what the configuration checks at the start. *)
Definition direct_ok : Prop :=
  Forall (fun s => check_suffix s = None) (directSuffixes options) /\
  Forall (fun d => check_domain d = None) (directDomains options).
End Routes.

Lemma outbounds_ids options clients (m : gmap string Outbound) l : outbounds_ok options clients m -> l ≡ₚ map_to_list m ->
  map ID (map snd l) = map fst l /\ NoDup (map fst l).
Proof.
  intros Hm Hl. split.
  - rewrite map_map. apply map_ext_in. intros [k o] Hin. cbn.
    apply list_elem_of_In in Hin. rewrite Hl in Hin. apply elem_of_map_to_list in Hin.
    by apply Hm in Hin as [-> _].
  - change (map fst l) with (l.*1). rewrite Hl. apply NoDup_fst_map_to_list.
Qed.

(** C6.  A rendered plan is accepted.  When every client was placed once, on candidates
    with plain names, with UDP only on links and reserves that differ from their primary,
    and the configured direct suffixes and domains are clean, then whatever payloads,
    profiles, resolvers and map orders the rendering met: if it answers with a plan at
    all, the gateway's validation finds no fault in it, at any positive generation.  The
    names of DNS handlers are digests; SHA-256 is assumed to tell apart the finitely many
    texts that may be hashed for the clients, resolvers and outbounds of this plan. *)
Theorem rendered_plan_accepted `{MR : MapRange} `{ML : !MapRangeLaws} options torSecret now rows payloads
    profiles clientByID placed r n g :
  (forall id profile, profiles !! id = Some profile -> 0 <= p_Slot profile < 2 ^ 31) ->
  direct_ok options -> 0 < g -> NoDup (map (fun p => p.1.1) placed) ->
  Forall (placed_ok rows) placed ->
  render_clients options torSecret now rows payloads profiles clientByID placed = inr r ->
  tells_apart (hashed_inputs (map (fun p => p.1.1) placed) (dnsResolvers options)
                 (map snd (map_to_list (rd_outbounds r)))) ->
  Validate ((rendered_plan options (map snd (map_range n (rd_outbounds r))) r)
              <| Generation := g |>) = None.
Proof.
  intros Hslots [Hsuf Hdom] Hg Hnd Hp Hr Hapart.
  apply (clients_spec options torSecret now rows payloads profiles clientByID
    (map (fun p => p.1.1) placed) Hslots _ Hapart _ _ _ [])
    in Hr as [Hm Hf]; [|by apply map_Forall_empty|by constructor|done| |apply later_refl].
  2: { apply Forall_forall. intros p Hin. apply in_map_iff. exists p. split; [done|by apply list_elem_of_In]. }
  apply Validate_none. cbn [app] in Hf. set (plan := rendered_plan _ _ _).
  pose proof (map_range_perm _ n (rd_outbounds r)) as Hperm.
  destruct (outbounds_ids _ _ _ _ Hm Hperm) as [Hids Hnodup].
  assert (forall k o, rd_outbounds r !! k = Some o <-> In (k, o) (map_range n (rd_outbounds r))) as Hin.
  { intros k o. rewrite <- list_elem_of_In, Hperm. by rewrite elem_of_map_to_list. }
  assert (forall k o, rd_outbounds r !! k = Some o -> In o (map snd (map_range n (rd_outbounds r)))) as Hin'.
  { intros k o Ho%Hin. apply in_map_iff. by exists (k, o). }
  assert (forall o, In o (map snd (map_range n (rd_outbounds r))) -> exists k, rd_outbounds r !! k = Some o) as Hin''.
  { intros o ([k o'] & <- & Ho)%in_map_iff. exists k. by apply Hin. }
  assert (plan_suffixes options <> [] /\
    Forall (fun s => check_suffix s = None) (plan_suffixes options)) as [Hne Hsuf'].
  { unfold plan_suffixes. destruct (directSuffixes options); [|done].
    split; [done|]. by repeat constructor. }
  rewrite Forall_forall in Hsuf', Hdom. subst plan. split; cbn.
  - done.
  - done.
  - done.
  - intros s Hs. apply check_suffix_none, Hsuf'. by apply list_elem_of_In.
  - intros d Hd. apply check_domain_none, Hdom. by apply list_elem_of_In.
  - by rewrite Hids.
  - intros o (k & Hk)%Hin''. destruct (Hm _ _ Hk) as (<- & _ & Ho).
    destruct Ho as [[Hl Hpr]|[[Hl Hpr]|(c & t & res & Hb & _)]].
    + split; [by apply link_nonempty|]. unfold tcp_capable. by rewrite Hpr.
    + split; [by apply tor_nonempty|]. unfold tcp_capable. by rewrite Hpr.
    + apply build_inr in Hb as (_ & _ & _ & x & y & _ & _ & ->). split; [discriminate|done].
  - intros o (k & Hk)%Hin'' Hd. destruct (Hm _ _ Hk) as (_ & _ & Ho).
    destruct Ho as [[_ Hpr]|[[_ Hpr]|(c & t & res & Hb & Ht & _)]].
    + unfold is_dns in Hd. by rewrite Hpr in Hd.
    + unfold is_dns in Hd. by rewrite Hpr in Hd.
    + exists (ID t). pose proof (build_inr _ _ _ _ Hb) as (Hcap & _).
      split; [by apply (build_dials _ _ _ _ Hb)|]. exists t. split_and!; eauto.
  - assert (map ClientID (rd_routes r) = map (fun p => p.1.1) placed) as ->; [|done].
    clear -Hf. induction Hf as [|p route placed routes [Ec] _ IH]; [done|]. cbn. by rewrite Ec, IH.
  - intros route Hr%list_elem_of_In. apply list_elem_of_lookup in Hr as [i Hi].
    destruct (Forall2_lookup_r _ _ _ _ _ Hf Hi) as (p & Hpl & Hri).
    eapply route_in_ok; eauto. by eapply Forall_lookup_1.
Qed.
End Safety.

(** ** A concrete rendering *)

#[export] Instance dnsConfig_eq_dec : EqDecision dnsConfig.
Proof. unfold EqDecision, Decision. repeat decide equality. Defined.

(** Two clients on a link and a bridge that are each other's reserves. *)
Section Sample.
#[local] Existing Instance sample_json.
#[local] Existing Instance sample_net.
#[local] Existing Instance sample_extra.

#[local] Instance sample_range : MapRange := fun A _ m => map_to_list m.
#[local] Instance sample_range_laws : MapRangeLaws.
Proof. by intros A n m. Qed.

#[local] Instance sample_dns_codec : DNSCodec := fun c =>
  match StreamSettings c with
  | Some (Some proxy) =>
      let s := ("dns:" ++ proxy)%string in
      if bool_decide (sample_decode s = Some (c, false)) && negb (str_eqb (trim_space s) EmptyString)
      then Some s else None
  | _ => None
  end.
#[local] Instance sample_dns_laws : DNSCodecLaws.
Proof.
  intros c s. unfold encode_dns, sample_dns_codec.
  destruct (StreamSettings c) as [[proxy|]|]; try done.
  destruct (bool_decide _ && _) eqn:E; [|done]. intros [= <-].
  apply andb_true_iff in E as [E1 E2]. apply bool_decide_eq_true in E1.
  apply negb_true_iff in E2. str_bool. done.
Qed.
#[local] Instance sample_config_codec : ConfigCodec := fun _ => Some "{}"%string.

Definition rendering_candidate (id kind : string) : Candidate := {|
  c_ID := id; c_SourceID := "s"; c_Kind := kind; c_Label := id; c_Fingerprint := id;
  c_RouteKey := id; c_FailureDomain := id; c_Enabled := true; c_SourcePosition := 0;
  c_Lifecycle := CandidateLifecycleActive; c_RetiredAt := None; c_DrainAfter := None;
  c_CreatedAt := 0; c_UpdatedAt := 0 |}.

Definition rendering_rows : gmap string Candidate := list_to_map
  (map (fun c => (c_ID c, c)) [rendering_candidate "cand_a" KindVLESS; rendering_candidate "cand_b" KindTorBridge]).
Definition rendering_payloads : gmap string string :=
  list_to_map [("cand_a", ada_link); ("cand_b", "bridge")]%string.
Definition rendering_profiles : gmap string Profile := list_to_map [("cand_b"%string, sample_profile)].

Definition rendering_options : EngineOptions := {|
  clientReservations := false; qoeEnabled := true; qoePromotionWindow := 5;
  dnsResolvers := ["1.1.1.1"%string]; reserveActiveFreshness := 60 * second;
  activeHardFailureFreshness := 60 * second; directSuffixes := []; directDomains := [];
  disallowRUEgress := false |}.

Definition rendering_placed : list (string * Assignment * ReserveSelection) :=
  [("alice", {| TCP := "cand_a"; UDP := "cand_a"; TCPSince := 0; UDPSince := 0 |},
    {| rs_TCP := "cand_b"; rs_UDP := EmptyString |});
   ("bob", {| TCP := "cand_b"; UDP := "cand_a"; TCPSince := 0; UDPSince := 0 |},
    {| rs_TCP := "cand_a"; rs_UDP := EmptyString |})]%string.

Definition sample_rendering : RenderError + Rendered :=
  render_clients rendering_options [1; 2; 3] 0 rendering_rows rendering_payloads rendering_profiles ∅
    rendering_placed.

(** A link, a profile per client, and two DNS handlers per client. *)
Example sample_rendering_size :
  match sample_rendering with
  | inr r => Nat.eqb (size (rd_outbounds r)) 7 && Nat.eqb (length (rd_mappings r)) 2
  | inl _ => false
  end = true.
Proof. vm_compute. reflexivity. Qed.

Example sample_rendering_apart :
  match sample_rendering with
  | inr r => tells_apartb (hashed_inputs ["alice"; "bob"]%string ["1.1.1.1"%string]
                             (map snd (map_to_list (rd_outbounds r))))
  | inl _ => false
  end = true.
Proof. vm_compute. reflexivity. Qed.

Lemma rendered_plan_accepted_witness :
  match sample_rendering with
  | inr r => Validate ((rendered_plan rendering_options (map snd (map_range 6 (rd_outbounds r))) r)
                         <| Generation := 1 |>) = None
  | inl _ => False
  end.
Proof.
  pose proof sample_rendering_apart as Hapart.
  destruct sample_rendering as [e|r] eqn:E; [discriminate|]. apply tells_apartb_spec in Hapart.
  apply (rendered_plan_accepted rendering_options [1; 2; 3] 0 rendering_rows rendering_payloads
           rendering_profiles ∅ rendering_placed); [| |lia| | |exact E|exact Hapart]; clear E.
  - intros id profile H. apply elem_of_list_to_map_2 in H. cbn in H.
    apply list_elem_of_In in H as [[= <- <-]|[]]. cbn. lia.
  - by repeat constructor.
  - apply (bool_decide_unpack _). vm_compute. reflexivity.
  - assert (plain "cand_a" /\ plain "cand_b" /\ kind_of rendering_rows "cand_a" = KindVLESS)
      as (Ha & Hb & Hk) by (split_and!; [split; [split|]..|]; vm_compute; congruence).
    assert (forall id, In id ["cand_a"; "cand_a"; "cand_b"; EmptyString]%string \/
                       In id ["cand_b"; "cand_a"; "cand_a"; EmptyString]%string ->
                       id <> EmptyString -> plain id) as Hplain.
    { intros id Hin Hne. simpl in Hin. by destruct_or? Hin; subst. }
    assert (forall id, In id ["cand_a"; EmptyString]%string -> id <> EmptyString ->
                       kind_of rendering_rows id = KindVLESS) as Hkind.
    { intros id Hin Hne. simpl in Hin. by destruct_or? Hin; subst. }
    apply Forall_cons. split; [|apply Forall_cons; split; [|apply Forall_nil; exact I]].
    + split; [split; [done|vm_compute; congruence]|eauto|exact Hkind|done|done].
    + split; [split; [done|vm_compute; congruence]|eauto|exact Hkind|done|done].
Defined.
End Sample.
