(* ===== verification/Reservations.v ===== *)
(** What a cycle knows of its clients before it places them
    (controller/client_reservations.go, controller/serving_primaries.go,
    controller/engine_degraded.go): who is idle and shares one bootstrap route, what
    a returning client keeps, which primaries go on serving, and when a cycle may go
    on without a complete cover. *)
From Stdlib Require Import Floats.
From S2P Require Import Prelude Effects GoOrder GoFloat GoStrings GoSort QoE DataPlan Handlers PlacementQueue StoreTables RouteRecovery PlanStore RoutingSnapshot RouteCandidates.
From S2P Require Import SchedLoad SchedState SchedReserves Coverage.

#[local] Open Scope Z_scope.
#[local] Open Scope effect_scope.

#[export] Instance Client_eta : Eta Client := fun c =>
  Build_Client (Dormant c) (PreserveTCP c) (PreserveUDP c) (AppliedReserve c) (clientID c)
    (LastTraffic c) (assignment c).

(** ** Idle clients *)

(** Who was dormant in the applied plan; none when it does not decode. *)
Definition dormantClients `{PlanCodec} (state : PlanState) : option (gmap string bool) :=
  if str_eqb (st_AppliedPlan state) EmptyString then Some ∅
  else
    (fun plan => fold_left (fun m r => <[ClientID r := DataPlan.Dormant r]> m) (Clients plan) ∅) <$>
    unmarshal_plan (st_AppliedPlan state).

Definition client_less (a b : Client) : bool := str_ltb (clientID a) (clientID b).

(** One idle client stands for all; the others are its aliases. *)
Record Collapse := {
  co_clients : list Client;
  co_aliases : gmap string string;
  co_representative : string
}.

Definition collapse_step (acc : Collapse) (client : Client) : Collapse :=
  if negb (Dormant client) then
    {| co_clients := co_clients acc ++ [client]; co_aliases := co_aliases acc;
       co_representative := co_representative acc |}
  else if str_eqb (co_representative acc) EmptyString then
    {| co_clients := co_clients acc ++ [client]; co_aliases := co_aliases acc;
       co_representative := clientID client |}
  else
    {| co_clients := co_clients acc;
       co_aliases := <[clientID client := co_representative acc]> (co_aliases acc);
       co_representative := co_representative acc |}.

Definition collapseDormantClients (clients : list Client) : list Client * gmap string string :=
  let r := fold_left collapse_step (sort_slice client_less clients)
             {| co_clients := []; co_aliases := ∅; co_representative := EmptyString |} in
  (co_clients r, co_aliases r).

Definition record_less (a b : ClientRecord) : bool := str_ltb (cli_ID a) (cli_ID b).

(** The clients that count for probing: those with a reservation and the first idle
    one. *)
Fixpoint reserved_records (now : Time) (bootstrap : bool) (clients : list ClientRecord) :
    list ClientRecord :=
  match clients with
  | [] => []
  | client :: rest =>
      if cl_paused (cli_row client) then reserved_records now bootstrap rest
      else if RouteReserved now client then client :: reserved_records now bootstrap rest
      else if negb bootstrap then client :: reserved_records now true rest
      else reserved_records now bootstrap rest
  end.

Definition reservationRecords (options : EngineOptions) (clients : list ClientRecord) (now : Time) :
    list ClientRecord :=
  if negb (clientReservations options) then clients
  else reserved_records now false (sort_slice record_less clients).

(** Whether a client fell idle or came back since the applied plan. *)
Definition reservation_changed (now : Time) (previous : gmap string bool) (client : ClientRecord) :
    bool :=
  negb (cl_paused (cli_row client)) &&
  match previous !! cli_ID client with
  | Some wasDormant => Bool.eqb wasDormant (RouteReserved now client)
  | None => true
  end.

(** ** A returning client *)

Definition route_key (byID : gmap string Candidate) (id : string) : string :=
  let key := RouteKey (get_candidate byID id) in
  if str_eqb key EmptyString then id else key.

(** Another client with traffic whose route shares the identity of [id]. *)
Definition shares_route (now : Time) (byID : gmap string Candidate) (id : string) (other : Client) :
    bool :=
  let on route := negb (str_eqb route EmptyString) &&
                  str_eqb (route_key byID route) (route_key byID id) in
  negb (time_is_zero (LastTraffic other)) && negb (after (LastTraffic other) now) &&
  (time_sub now (LastTraffic other) <? ClientInactiveAfter) &&
  (on (TCP (assignment other)) || on (UDP (assignment other))).

Definition route_load (now : Time) (byID : gmap string Candidate) (clients : list Client)
    (client id : string) : Z :=
  Z.of_nat (length (List.filter (fun other =>
    negb (str_eqb (clientID other) client) && shares_route now byID id other) clients)).

Definition keep_returning (now : Time) (byID : gmap string Candidate) (clients : list Client)
    (client id network : string) : bool :=
  match byID !! id with
  | Some c =>
      ReserveEligible c && ActiveEligible c && ActiveFresh c && negb (Retiring c) &&
      negb (CircuitOpen c) && negb (degraded c) && qualified network c &&
      (route_load now byID clients client id <? 2)
  | None => false
  end.

Definition returningAssignment (now : Time) (client : Client) (clients : list Client)
    (candidates : list Candidate) : Assignment :=
  let byID := index_by_id candidates in
  let a := assignment client in
  let keep := keep_returning now byID clients (clientID client) in
  let a := if keep (TCP a) tcp then a
           else a <| TCP := EmptyString |> <| TCPSince := zero_time |> in
  if keep (UDP a) udp then a else a <| UDP := EmptyString |> <| UDPSince := zero_time |>.

(** ** Serving primaries *)

(** The routes of a cycle under construction, with the place of each identifier. *)
Record Serving := { se_candidates : list Candidate; se_indices : gmap string nat }.

Definition index_places (candidates : list Candidate) : gmap string nat :=
  fold_left (fun m '(i, c) => <[ID c := i]> m) (zip (seq 0 (length candidates)) candidates) ∅.

Definition serving_ids (clients : list Client) : gset string :=
  list_to_set (List.filter (fun id => negb (str_eqb id EmptyString))
    (flat_map (fun c => [TCP (assignment c); UDP (assignment c)]) clients)).

(** A route that serves is kept among the candidates, for its clients only when it
    is not in the pool or leaves it. *)
Definition keep_serving (c : Candidate) (s : Serving) : Serving :=
  match se_indices s !! ID c with
  | Some i =>
      if Retiring c then
        {| se_candidates := <[i := c <| ServingOnly := true |> <| Retiring := false |>]> (se_candidates s);
           se_indices := se_indices s |}
      else s
  | None =>
      {| se_candidates := se_candidates s ++ [c <| ServingOnly := true |> <| Retiring := false |>];
         se_indices := <[ID c := length (se_candidates s)]> (se_indices s) |}
  end.

Definition urgent (c : Candidate) : bool := degraded c && RequiresEvacuation (QoEReason c).

Section Primaries.
Context (limit : Z) (now : Time) (reason : string)
  (snapshot : RouteCandidateSnapshot).

(** The primary may go on: it is qualified, known to be healthy, and active. *)
Definition may_serve (network id : string) (c : Candidate) : bool :=
  qualified network c &&
  from_option hl_Available false (healthByID snapshot !! id) &&
  negb (from_option hl_ActiveHardFailure false (healthByID snapshot !! id)) &&
  negb (CircuitOpen c) &&
  str_eqb (from_option c_Lifecycle EmptyString (rowsByID snapshot !! id)) CandidateLifecycleActive.

(** One transport of a client: the new flag, if it is set at all. *)
Definition serve_transport (repairing : bool) (client network id : string) (since : Time)
    (s : Serving) : M (option bool * Serving) :=
  match allByID snapshot !! id with
  | None => ret (None, s)
  | Some c =>
      if negb (may_serve network id c) then ret (None, s)
      else
        barred <- excludedM now client id ;;
        if barred then ret (None, s)
        else
          dwell <- get (fun w => MinimumDwell (policy (sched w))) ;;
          ret (Some (negb (urgent c) &&
                     (negb (str_eqb reason PlacementPeriodic) || repairing ||
                      (time_sub now since <? dwell))),
               keep_serving c s)
  end.

Definition serve_client (admission : list Candidate) (acc : list Client * Serving) (client : Client) :
    M (list Client * Serving) :=
  let (done, s) := acc in
  if Dormant client then ret (done ++ [client], s)
  else
    let a := assignment client in
    repairing <-
      (if str_eqb reason PlacementPeriodic && (0 <? limit) then
         v <- ValidateReserveSelectionContext now (clientID client) a (AppliedReserve client) admission ;;
         ret (negb (rv_TCP v) || negb (rv_UDP v))
       else ret false) ;;
    t <- serve_transport repairing (clientID client) tcp (TCP a) (TCPSince a) s ;;
    u <- serve_transport repairing (clientID client) udp (UDP a) (UDPSince a) t.2 ;;
    ret (done ++ [client <| PreserveTCP := default (PreserveTCP client) t.1 |>
                         <| PreserveUDP := default (PreserveUDP client) u.1 |>], u.2).

(** [admission] is the range over all routes of the snapshot. *)
Definition servingPrimaries (admission : list Candidate) (clients : list Client) :
    M (list Client * list Candidate) :=
  let candidates := placementCandidates snapshot in
  if (0 <? limit) && (limit <? Z.of_nat (size (serving_ids clients))) then ret (clients, candidates)
  else
    r <- foldM (serve_client admission) ([], {| se_candidates := candidates;
                                                 se_indices := index_places candidates |}) clients ;;
    ret (r.1, se_candidates r.2).
End Primaries.

Definition reservesForMapping (m : RouteReserveMapping) : ReserveSelection :=
  {| rs_TCP := TCPReserveCandidateID m; rs_UDP := UDPReserveCandidateID m |}.

(** ** Without a complete cover *)

Definition manual_replacement (id network : string) (c : Candidate) : bool :=
  negb (str_eqb (ID c) id) && qualified network c && ReserveEligible c && negb (CircuitOpen c) &&
  negb (Retiring c) &&
  (negb (QoETracked c) || bool_decide (QoEStatus c = StatusHealthy) && QoEFresh c) &&
  ActiveEligible c && ActiveFresh c.

Fixpoint has_replacement (now : Time) (client id network : string) (candidates : list Candidate) :
    M bool :=
  match candidates with
  | [] => ret false
  | c :: rest =>
      if manual_replacement id network c then
        barred <- excludedM now client (ID c) ;;
        if barred then has_replacement now client id network rest else ret true
      else has_replacement now client id network rest
  end.

(** The transports of all clients, with the client, the network and the route. *)
Definition transports (clients : list Client) : list (string * string * string) :=
  flat_map (fun c => [(clientID c, tcp, TCP (assignment c)); (clientID c, udp, UDP (assignment c))])
    clients.

Fixpoint manual_loop (now : Time) (candidates : list Candidate) (found : bool)
    (l : list (string * string * string)) : M bool :=
  match l with
  | [] => ret found
  | (client, network, id) :: rest =>
      if str_eqb id EmptyString then manual_loop now candidates found rest
      else
        barred <- excludedM now client id ;;
        if negb barred then manual_loop now candidates found rest
        else
          replaced <- has_replacement now client id network candidates ;;
          if replaced then manual_loop now candidates true rest else ret false
  end.

Definition canRecoverManualAssignedTransport (now : Time) (clients : list Client)
    (candidates : list Candidate) : M bool :=
  manual_loop now candidates false (transports clients).

Definition canRecoverStaticallyBlockedAppliedTransport `{PlanCodec} (state : PlanState)
    (clients : list Client) (candidates : list Candidate) (limit : Z) : bool :=
  if (limit <=? 0) || (AppliedGeneration state <=? 0) || str_eqb (st_AppliedPlan state) EmptyString
  then false
  else match unmarshal_plan (st_AppliedPlan state) with
       | None => false
       | Some applied =>
           let missing := existsb (fun c =>
             negb (existsb (fun r => str_eqb (ClientID r) (clientID c)) (Clients applied))) clients in
           let blockedTCP := existsb BlockTCP (Clients applied) || missing in
           let blockedUDP := existsb BlockUDP (Clients applied) || missing in
           (blockedTCP && existsb (qualified tcp) candidates ||
            blockedUDP && existsb (qualified udp) candidates) &&
           bool_decide (is_Some (staticallyImpossibleCriticalCoverage clients candidates limit false))
       end.

Definition degraded_replacement (id network : string) (c : Candidate) : bool :=
  negb (str_eqb (ID c) id) && negb (Retiring c) && negb (CircuitOpen c) &&
  bool_decide (QoEStatus c = StatusHealthy) && QoEFresh c && (0 <? QoEEffective c) &&
  qualified network c.

Definition can_replace (byID : gmap string Candidate) (candidates : list Candidate)
    (network id : string) : bool :=
  match byID !! id with
  | Some current => urgent current && existsb (degraded_replacement id network) candidates
  | None => false
  end.

Definition canRecoverDegradedAssignedTransport (clients : list Client) (candidates : list Candidate) :
    bool :=
  let byID := index_by_id candidates in
  existsb (fun c => can_replace byID candidates tcp (TCP (assignment c)) ||
                    can_replace byID candidates udp (UDP (assignment c))) clients.

(** The order in which routes fill a plan without a complete cover. *)
Definition transportCount (c : Candidate) : Z :=
  (if qualified tcp c then 1 else 0) + (if qualified udp c then 1 else 0).

Definition availability_less (current : gset string) (left right : Candidate) : bool :=
  let serves c := bool_decide (ID c ∈ current) in
  if negb (Bool.eqb (serves left) (serves right)) then serves left
  else if negb (transportCount left =? transportCount right)
  then transportCount right <? transportCount left
  else if negb (Bool.eqb (CircuitOpen left) (CircuitOpen right)) then negb (CircuitOpen left)
  else if negb (Bool.eqb (Retiring left) (Retiring right)) then negb (Retiring left)
  else if negb (PrimFloat.eqb (Score left) (Score right)) then fgt (Score left) (Score right)
  else str_ltb (ID left) (ID right).

Definition boundedDegradedAvailabilityCandidates (clients : list Client) (candidates : list Candidate)
    (limit : Z) : list Candidate :=
  if limit <=? 0 then candidates
  else take (Z.to_nat limit)
         (sort_slice (availability_less (serving_ids clients))
            (List.filter (fun c => qualified tcp c || qualified udp c) candidates)).
