(* ===== verification/RouteSafety.v ===== *)
(** What the scheduler is offered: every placement candidate of RouteCandidates.v is
    proven by the evidence, the serving primaries of Reservations.v add only routes
    that are marked as such, and idle clients share one route. *)
From Stdlib Require Import Floats String.
From S2P Require Import Prelude Effects GoOrder GoFloat GoStrings GoSort QoE DataPlan Handlers PlacementQueue StoreTables CandidateState RoutingSnapshot RouteCandidates.
From S2P Require Import SchedLoad SchedState SchedReserves Scheduling Coverage Reservations PlanningKey CoverageSearch CoveragePlan CoveragePlanSafety.

#[local] Open Scope Z_scope.
#[local] Open Scope effect_scope.

(** ** Maps built by loops *)

Lemma index_some_lookup {A B : Type} (key : A -> string) (value : A -> option B) l k v :
  index_some key value l !! k = Some v -> exists x, In x l /\ key x = k /\ value x = Some v.
Proof.
  unfold index_some.
  assert (forall l (m : gmap string B) (P : string -> B -> Prop),
    (forall k v, m !! k = Some v -> P k v) ->
    (forall x v, In x l -> value x = Some v -> P (key x) v) ->
    forall k v, fold_left (fun m x => match value x with Some v => <[key x := v]> m | None => m end) l m
      !! k = Some v -> P k v) as H.
  { clear. induction l as [|x l IH]; intros m P Hm Hl k v; cbn [fold_left]; [apply Hm|].
    apply IH; [|intros y w Hy; apply Hl; by right].
    destruct (value x) as [b|] eqn:E; [|done]. intros k' v'.
    rewrite lookup_insert_Some. intros [[<- <-]|[_ ?]]; [apply Hl; [by left|done]|by apply Hm]. }
  intros Hk. eapply (H l ∅ (fun k v => exists x, In x l /\ key x = k /\ value x = Some v)); [|
    intros x b Hx Hb; by exists x|exact Hk]. by intros ? ? ?%lookup_empty_Some.
Qed.

(** ** Proven routes *)

(** Evidence as the store hands it out: distinct named candidates, each health its own. *)
Record evidence_ok (evidence : list CandidateRoutingEvidence) : Prop := {
  ev_distinct : NoDup (map evidence_id evidence);
  ev_named : forall e, In e evidence -> evidence_id e <> EmptyString;
  ev_health : forall e h, In e evidence -> e_Health e = Some h -> hl_CandidateID h = evidence_id e
}.

Section Proven.
Context `{TX : TextLib} (options : EngineOptions).
Context (now : Time) (evidence : list CandidateRoutingEvidence) (profiles : list Profile).

(** The evidence that a route may take new work on a transport. *)
Record proven (network id : string) : Prop := {
  pv_named : id <> EmptyString;
  pv_evidence : exists row health,
    rows_of evidence !! id = Some row /\ healths_of evidence !! id = Some health /\
    c_ID row = id /\ hl_Available health = true /\
    (network = tcp -> hl_TCPQualified health = true) /\
    (network = udp -> hl_UDPQualified health = true /\ c_Kind row <> KindTorBridge) /\
    (** a bridge has a warm profile *)
    (c_Kind row = KindTorBridge -> exists p, warm_profiles profiles !! id = Some p /\ p_Retiring p = false) /\
    (** it stays: neither it nor its source drains *)
    id ∉ drainingCandidateIDs evidence /\ c_Lifecycle row <> CandidateLifecycleDraining /\
    forbidden_egress options evidence row = false;
  (** once there are probe states, it qualified in the working pool and is not stale *)
  pv_pool : probes_of evidence = ∅ \/ exists p, probes_of evidence !! id = Some p /\
    ps_Stale p = false /\ (ps_InWorkingPool p = true \/ ps_Draining p = true) /\
    (ps_Status p = CandidateQualified \/ ps_Status p = CandidateDraining)
}.

Hypothesis Hev : evidence_ok evidence.

Lemma rows_of_id id row : rows_of evidence !! id = Some row -> c_ID row = id /\ id <> EmptyString.
Proof.
  intros (e & He & <- & [= <-])%index_some_lookup. split; [done|]. by apply (ev_named _ Hev).
Qed.

Lemma healths_of_id id health : healths_of evidence !! id = Some health -> hl_CandidateID health = id.
Proof. intros (e & He & <- & Hh)%index_some_lookup. by apply (ev_health _ Hev). Qed.

Context (range : list (string * CandidateHealth) -> list (string * CandidateHealth)).
Hypothesis Hrange : range (map_to_list (healths_of evidence)) ≡ₚ map_to_list (healths_of evidence).

Abbreviation rows := (ranged_rows evidence (range (map_to_list (healths_of evidence)))).

Lemma ranged_rows_spec row health : In (row, health) rows ->
  rows_of evidence !! c_ID row = Some row /\ healths_of evidence !! c_ID row = Some health /\
  c_ID row <> EmptyString.
Proof.
  unfold ranged_rows. intros Hin%list_elem_of_In.
  apply list_elem_of_omap in Hin as ([id h] & Hin & E). rewrite Hrange in Hin.
  apply elem_of_map_to_list in Hin. pose proof (healths_of_id _ _ Hin) as Hid.
  apply fmap_Some in E as (r & Hr & [= -> ->]). rewrite Hid in Hr.
  pose proof (rows_of_id _ _ Hr) as [-> Hne]. done.
Qed.

Lemma ranged_rows_distinct : NoDup (map (fun x => c_ID x.1) rows).
Proof.
  assert (forall l : list (string * CandidateHealth),
    NoDup (map fst l) -> (forall id h, In (id, h) l -> hl_CandidateID h = id) ->
    NoDup (map (fun x => c_ID x.1) (ranged_rows evidence l)) /\
    (forall x, In x (ranged_rows evidence l) -> In (c_ID x.1) (map fst l))) as H.
  { induction l as [|[id h] l IH]; cbn [map fst]; [split; [constructor|done]|].
    intros [Hn Hnd]%NoDup_cons Hl. rewrite list_elem_of_In in Hn.
    destruct (IH Hnd) as [IH1 IH2]; [intros ? ? ?; apply Hl; by right|].
    unfold ranged_rows. cbn [omap list_omap]. rewrite (Hl id h) by (by left).
    destruct (rows_of evidence !! id) as [row|] eqn:E; cbn [fmap option_fmap option_map].
    - pose proof (rows_of_id _ _ E) as [Hid _]. cbn [map fst]. rewrite Hid. split.
      + apply NoDup_cons. split; [|exact IH1]. rewrite list_elem_of_In, in_map_iff.
        intros (x & Hx & Hin). apply Hn. rewrite <- Hx. by apply IH2.
      + intros x [<-|Hx]; [by left|right; by apply IH2].
    - split; [exact IH1|]. intros x Hx. right. by apply IH2. }
  apply H.
  - change (map fst ?l) with (l.*1). rewrite Hrange. apply NoDup_fst_map_to_list.
  - intros id h Hin%list_elem_of_In. rewrite Hrange in Hin. apply elem_of_map_to_list in Hin.
    by apply healths_of_id.
Qed.

Abbreviation snapshot epoch :=
  (take_routes options now {| rs_Candidates := evidence; rs_InventoryEpoch := epoch |} profiles range).

Lemma placement_candidate epoch c : In c (placementCandidates (snapshot epoch)) ->
  exists row health, In (row, health) rows /\ placement_eligible options evidence row health = true /\
    c = route_candidate options now evidence profiles row health.
Proof.
  cbn [placementCandidates take_routes]. intros ([row health] & <- & Hin)%in_map_iff.
  apply filter_In in Hin as [Hin He]. by exists row, health.
Qed.

(** Candidates have distinct names. *)
Lemma placement_identified epoch : NoDup (map ID (placementCandidates (snapshot epoch))) /\
  forall c, In c (placementCandidates (snapshot epoch)) -> ID c <> EmptyString.
Proof.
  split.
  - cbn [placementCandidates take_routes]. rewrite map_map.
    pose proof ranged_rows_distinct as Hnd. cbn [rs_Candidates].
    induction rows as [|[row health] l IH]; cbn [List.filter map] in *; [constructor|].
    apply NoDup_cons in Hnd as [Hn Hnd]. cbn [fst] in Hn.
    destruct (placement_eligible options evidence row health); [|by apply IH].
    cbn [map]. apply NoDup_cons. split; [|by apply IH].
    intros Hin. apply Hn. rewrite list_elem_of_In, in_map_iff in Hin |- *.
    destruct Hin as ([row' health'] & Hid & Hin). apply filter_In in Hin as [Hin _].
    exists (row', health'). split; [exact Hid|done].
  - intros c (row & health & Hin & _ & ->)%placement_candidate.
    by apply ranged_rows_spec in Hin as (_ & _ & ?).
Qed.

Lemma marked_In p id : id ∈ marked p evidence -> exists e probe, In e evidence /\ evidence_id e = id /\
  e_Probe e = Some probe /\ p probe = true.
Proof.
  unfold marked. rewrite elem_of_list_to_set, list_elem_of_In, in_map_iff.
  intros (e & <- & [He Hp]%filter_In). destruct (e_Probe e) as [probe|] eqn:E; [|done].
  by exists e, probe.
Qed.

(** With one row per candidate, a mark is a fact of its own probe. *)
Lemma index_some_In {B : Type} (value : CandidateRoutingEvidence -> option B) e b :
  In e evidence -> value e = Some b -> index_some evidence_id value evidence !! evidence_id e = Some b.
Proof.
  intros He Hb. destruct (index_some evidence_id value evidence !! evidence_id e) as [b'|] eqn:E.
  - apply index_some_lookup in E as (e' & He' & Hid & Hb').
    assert (e = e') as ->; [|congruence].
    pose proof (ev_distinct _ Hev) as Hnd. clear -He He' Hid Hnd.
    induction evidence as [|x l IH]; [done|]. cbn [map] in Hnd.
    apply NoDup_cons in Hnd as [Hn Hnd]. rewrite list_elem_of_In, in_map_iff in Hn.
    destruct He as [->|He], He' as [->|He']; [done|exfalso; apply Hn; eauto..|by apply IH].
  - exfalso. unfold index_some in E.
    assert (forall l (m : gmap string B), is_Some (m !! evidence_id e) \/ In e l ->
      is_Some (fold_left (fun m x => match value x with Some v => <[evidence_id x := v]> m | None => m end)
        l m !! evidence_id e)) as H.
    { clear -Hb. induction l as [|x l IH]; intros m; cbn [fold_left]; [by intros [?|[]]|].
      intros Hm. apply IH. destruct Hm as [Hm|[->|Hin]]; [left|left|by right].
      - destruct (value x); [|done]. rewrite lookup_insert_is_Some'. by right.
      - rewrite Hb, lookup_insert_eq. by eexists. }
    destruct (H evidence ∅ (or_intror He)) as [b' Hb']. congruence.
Qed.

Lemma marked_probe p id probe : id ∈ marked p evidence -> probes_of evidence !! id = Some probe ->
  p probe = true.
Proof.
  intros (e & q & He & <- & Hq & Hp)%marked_In Hl. unfold probes_of in Hl.
  rewrite (index_some_In e_Probe e q He Hq) in Hl. by injection Hl as <-.
Qed.

Lemma placement_proven epoch network c : In c (placementCandidates (snapshot epoch)) ->
  Retiring c = false -> qualified network c = true -> network = tcp \/ network = udp ->
  proven network (ID c).
Proof.
  intros (row & health & Hin & He & ->)%placement_candidate Hr Hq Hnet.
  apply ranged_rows_spec in Hin as (Hrow & Hhealth & Hne).
  unfold placement_eligible in He. apply andb_true_iff in He as [[Ha Hf]%andb_true_iff Hp].
  apply negb_true_iff in Hf. unfold qualified, is_vless in Hq.
  unfold route_candidate in Hr, Hq |- *. rewrite Hf in Hq.
  cbn [ID Retiring TCPQualified UDPQualified proto] in Hr, Hq |- *. rewrite !andb_true_r in Hq.
  split; [done| |].
  - exists row, health. unfold served in Hr, Hq.
    destruct (str_eqb (c_Kind row) KindTorBridge) eqn:Ek; cbn in Hr, Hq.
    + apply orb_false_iff in Hr as [[Hd1%bool_decide_eq_false Hd2]%orb_false_iff Hr].
      str_bool. destruct Hnet as [-> | ->]; [|discriminate]. cbn in Hq.
      apply andb_true_iff in Hq as [Ht Hw].
      destruct (warm_profiles profiles !! c_ID row) as [p|] eqn:Ep; [|discriminate].
      split_and!; try done. intros _. exists p. by apply negb_true_iff in Hw.
    + apply orb_false_iff in Hr as [Hd1%bool_decide_eq_false Hd2]. str_bool.
      split_and!; try done; intros ->; cbn in Hq; [done|split; [|done]].
      by apply andb_true_iff in Hq as [_ ?].
  - apply orb_true_iff in Hp as [Hp|Hp]; [left; by apply bool_decide_eq_true in Hp|right].
    destruct (probes_of evidence !! c_ID row) as [p|] eqn:Ep; [|done]. exists p.
    rewrite !andb_true_iff, orb_true_iff, negb_true_iff in Hp.
    destruct Hp as [[Hstale Hwork] Hst]. apply bool_decide_eq_true in Hwork.
    apply (marked_probe _ _ _ Hwork) in Ep. apply orb_true_iff in Ep.
    split_and!; [done|done|done|]. destruct Hst; str_bool; auto.
Qed.
End Proven.

(** ** Serving primaries *)

Lemma index_places_spec l id i : NoDup (map ID l) ->
  index_places l !! id = Some i <-> map ID l !! i = Some id.
Proof.
  unfold index_places. intros Hnd.
  assert (forall l n (m : gmap string nat), NoDup (map ID l) ->
    (forall c, In c l -> m !! ID c = None) ->
    forall id i, fold_left (fun m '(i, c) => <[ID c := i]> m) (zip (seq n (length l)) l) m !! id = Some i <->
      m !! id = Some i \/ exists j, i = (n + j)%nat /\ map ID l !! j = Some id) as H.
  { clear. induction l as [|c l IH]; intros n m Hnd Hm id i.
    { cbn. split; [by left|]. intros [?|(j & _ & Hj)]; [done|]. by rewrite lookup_nil in Hj. }
    cbn [map] in Hnd. apply NoDup_cons in Hnd as [Hn Hnd].
    cbn [length seq zip_with fold_left map]. rewrite IH; [|done|].
    - rewrite lookup_insert_Some. split.
      + intros [[[<- <-]|[Hne Hi]]|(j & -> & Hj)]; [right; exists O; split; [lia|done]|by left|].
        right. exists (S j). split; [lia|done].
      + intros [Hi|(j & -> & Hj)].
        * left; right. split; [|done]. intros <-. rewrite Hm in Hi; [done|by left].
        * destruct j as [|j]; cbn in Hj.
          -- injection Hj as <-. left; left. split; [done|lia].
          -- right. exists j. split; [lia|done].
    - intros d Hd. rewrite lookup_insert_ne; [apply Hm; by right|].
      intros E. apply Hn. rewrite list_elem_of_In, in_map_iff. by exists d. }
  rewrite (H l O ∅ Hnd) by (intros; by rewrite lookup_empty). rewrite lookup_empty.
  split; [intros [?|(j & -> & ?)]; [done|by rewrite Nat.add_0_l]|]. intros Hi. right. by exists i.
Qed.

(** The routes of a snapshot go by their names. *)
Record routes_ok (s : RouteCandidateSnapshot) : Prop := {
  ro_distinct : NoDup (map ID (placementCandidates s));
  ro_named : forall c, In c (placementCandidates s) -> ID c <> EmptyString;
  ro_keyed : forall id c, allByID s !! id = Some c -> ID c = id /\ id <> EmptyString;
  ro_fresh : forall c, In c (placementCandidates s) -> ServingOnly c = false
}.

Lemma take_routes_ok `{TextLib} options now evidence profiles range epoch : evidence_ok evidence ->
  range (map_to_list (healths_of evidence)) ≡ₚ map_to_list (healths_of evidence) ->
  routes_ok (take_routes options now {| rs_Candidates := evidence; rs_InventoryEpoch := epoch |}
               profiles range).
Proof.
  intros Hev Hrange.
  destruct (placement_identified options now evidence profiles Hev range Hrange epoch) as [H1 H2].
  split; [done|done| |].
  - cbn [allByID take_routes rs_Candidates].
    pose proof (ranged_rows_spec evidence Hev range Hrange) as Hrows.
    set (rows := ranged_rows _ _) in *. set (route := route_candidate options now evidence profiles).
    assert (forall l (m : gmap string Candidate), incl l rows ->
      (forall id c, m !! id = Some c -> ID c = id /\ id <> EmptyString) ->
      forall id c, fold_left (fun m '(c, h) => <[c_ID c := route c h]> m) l m !! id = Some c ->
        ID c = id /\ id <> EmptyString) as Hfold.
    { induction l as [|[row health] l IH]; intros m Hl Hm; cbn [fold_left]; [done|].
      apply IH; [intros x Hx; apply Hl; by right|]. intros id c.
      rewrite lookup_insert_Some. intros [[<- <-]|[_ Hc]]; [|by apply Hm].
      split; [done|]. by destruct (Hrows row health (Hl _ (or_introl eq_refl))) as (_ & _ & ?). }
    apply (Hfold rows ∅); [apply incl_refl|]. by intros ? ? ?%lookup_empty_Some.
  - intros c (row & health & _ & _ & ->)%placement_candidate; done.
Qed.

Section Primaries.
Context (limit : Z) (now : Time) (reason : PlacementReason) (s : RouteCandidateSnapshot).
Hypothesis Hs : routes_ok s.

Record serving_ok (sv : Serving) : Prop := {
  so_distinct : NoDup (map ID (se_candidates sv));
  so_named : forall c, In c (se_candidates sv) -> ID c <> EmptyString;
  so_known : forall id i, se_indices sv !! id = Some i -> map ID (se_candidates sv) !! i = Some id;
  so_unknown : forall c, In c (se_candidates sv) -> is_Some (se_indices sv !! ID c);
  so_new : forall c, In c (se_candidates sv) -> ServingOnly c = false -> In c (placementCandidates s)
}.

Lemma serving_start : serving_ok {| se_candidates := placementCandidates s;
                                    se_indices := index_places (placementCandidates s) |}.
Proof.
  destruct Hs as [H1 H2 _ _]. split; cbn; try done.
  - intros id i. by rewrite index_places_spec.
  - intros c Hc. apply (in_map ID) in Hc. apply list_elem_of_In, list_elem_of_lookup in Hc as [i Hi].
    apply index_places_spec in Hi; [|done]. by eexists.
Qed.

(** The route, kept for its clients only. *)
Definition served_only (c : Candidate) : Candidate := c <| ServingOnly := true |> <| Retiring := false |>.

Lemma keep_serving_ok c sv : ID c <> EmptyString -> serving_ok sv -> serving_ok (keep_serving c sv).
Proof.
  intros Hne [H1 H2 H3 H4 H5]. unfold keep_serving. fold (served_only c).
  assert (ID (served_only c) = ID c) as Hid by done.
  destruct (se_indices sv !! ID c) as [i|] eqn:Ei; [destruct (Retiring c)|]; [| |]; cbn.
  - pose proof (H3 _ _ Ei) as Hi.
    assert (map ID (<[i := served_only c]> (se_candidates sv)) = map ID (se_candidates sv)) as Hmap.
    { rewrite list_fmap_insert, Hid. by apply list_insert_id. }
    assert (forall x, In x (<[i := served_only c]> (se_candidates sv)) ->
      x = served_only c \/ In x (se_candidates sv)) as Hin.
    { intros x Hx%list_elem_of_In. apply list_elem_of_lookup in Hx as [j Hj].
      apply list_lookup_insert_Some in Hj as [(_ & <- & _)|[_ Hj]]; [by left|right].
      apply list_elem_of_In, list_elem_of_lookup. by exists j. }
    split; cbn; rewrite ?Hmap; try done.
    + intros x [->|Hx]%Hin; [done|by apply H2].
    + intros x [->|Hx]%Hin; [by rewrite Hid, Ei|by apply H4].
    + intros x [->|Hx]%Hin; [done|by apply H5].
  - done.
  - assert (~ In (ID c) (map ID (se_candidates sv))) as Hn.
    { intros (x & Hx & Hin)%in_map_iff. apply H4 in Hin. rewrite Hx, Ei in Hin. by destruct Hin. }
    split; cbn.
    + rewrite map_app. apply NoDup_app. split_and!; [done| |apply NoDup_singleton].
      intros x Hx Hx'. apply list_elem_of_In in Hx'. destruct Hx' as [<-|[]].
      by apply Hn, list_elem_of_In.
    + intros x [Hx|[<-|[]]]%in_app_iff; [by apply H2|done].
    + intros id i. rewrite map_app, lookup_insert_Some. intros [[<- <-]|[_ Hi]].
      * rewrite lookup_app_r by (by rewrite length_map). by rewrite length_map, Nat.sub_diag.
      * by apply lookup_app_l_Some, H3.
    + intros x [Hx|[<-|[]]]%in_app_iff.
      * destruct (H4 x Hx) as [i Hi]. rewrite lookup_insert_ne; [by exists i|].
        intros E. by rewrite <- E, Ei in Hi.
      * rewrite Hid, lookup_insert_eq. by eexists.
    + intros x [Hx|[<-|[]]]%in_app_iff; [by apply H5|done].
Qed.

(** The scheduler changes as it does when it only looks. *)
Definition looked (s0 : Scheduler) (w : World) : Prop := kept now s0 (sched w).

Lemma careful_triple {A : Type} s0 (m : M A) : careful now m ->
  triple (looked s0) m (fun _ => looked s0) (fun _ => looked s0).
Proof.
  intros Hm w Hw. destruct (Hm w) as [Hk _].
  destruct (m w) as [[e|a] w']; cbn in Hk; by eapply kept_trans.
Qed.

Lemma careful_validate client a applied candidates :
  careful now (ValidateReserveSelectionContext now client a applied candidates).
Proof. unfold ValidateReserveSelectionContext, eligibleReserveCandidates, check_each. careful. Qed.

(** A client whose routes may have been pinned. *)
Definition pinned (c c' : Client) : Prop :=
  exists t u, c' = c <| PreserveTCP := t |> <| PreserveUDP := u |>.

Lemma serve_transport_ok s0 repairing client network id since sv : serving_ok sv ->
  triple (looked s0) (serve_transport now reason s repairing client network id since sv)
    (fun r w => looked s0 w /\ serving_ok r.2) (fun _ => looked s0).
Proof.
  intros Hsv. unfold serve_transport. destruct (allByID s !! id) as [c|] eqn:Ec; [|by intros w Hw].
  apply triple_if; intros _; [by intros w Hw|].
  eapply triple_bind; [apply careful_triple, careful_excluded|]. intros [|]; [by intros w Hw|].
  apply triple_bind_get. intros dwell w [Hw _]. split; [done|].
  apply keep_serving_ok; [|done]. by destruct (ro_keyed _ Hs _ _ Ec) as [-> ?].
Qed.

Lemma serve_client_ok s0 admission visited acc client : Forall2 pinned visited acc.1 -> serving_ok acc.2 ->
  triple (looked s0) (serve_client limit now reason s admission acc client)
    (fun r w => looked s0 w /\ Forall2 pinned (visited ++ [client]) r.1 /\ serving_ok r.2)
    (fun _ => looked s0).
Proof.
  destruct acc as [done_ sv]. cbn [fst snd]. intros Hp Hsv. unfold serve_client.
  assert (forall c', pinned client c' -> Forall2 pinned (visited ++ [client]) (done_ ++ [c'])) as Happ.
  { intros c' Hc. apply Forall2_app; [done|constructor; [done|constructor]]. }
  destruct (Dormant client).
  { intros w Hw. cbn. split_and!; [done| |done]. apply Happ.
    exists (PreserveTCP client), (PreserveUDP client). by destruct client. }
  cbv zeta. eapply triple_bind with (S := fun _ => looked s0).
  { apply triple_if; intros _; [|by intros w Hw]. eapply triple_bind; [apply careful_triple, careful_validate|].
    intros v. by intros w Hw. }
  intros repairing. eapply triple_bind; [by apply serve_transport_ok|]. intros t.
  eapply triple_fact; [by intros w [_ Ht]; exact Ht|]. intros Ht.
  eapply triple_pre; [|by intros w [Hw _]; exact Hw].
  eapply triple_bind; [by apply serve_transport_ok|]. intros u.
  intros w [Hw Hu]. cbn. split_and!; [done| |done]. apply Happ. by do 2 eexists.
Qed.

(** The clients are the same up to pins, and the routes that take new work are those of
    the snapshot. *)
Lemma serving_primaries_ok s0 admission clients :
  triple (looked s0) (servingPrimaries limit now reason s admission clients)
    (fun r w => looked s0 w /\ Forall2 pinned clients r.1 /\ NoDup (map ID r.2) /\
       (forall c, In c r.2 -> ID c <> EmptyString) /\
       (forall c, In c r.2 -> ServingOnly c = false -> In c (placementCandidates s)))
    (fun _ => looked s0).
Proof.
  unfold servingPrimaries. cbv zeta. apply triple_if; intros _.
  { intros w Hw. cbn. destruct Hs. split_and!; try done.
    induction clients as [|c l IH]; constructor; [|done].
    exists (PreserveTCP c), (PreserveUDP c). by destruct c. }
  eapply triple_bind.
  { eapply triple_pre; [apply (triple_foldM _
      (fun visited acc w => looked s0 w /\ Forall2 pinned visited acc.1 /\ serving_ok acc.2))|].
    2: { intros w Hw. split_and!; [done|constructor|apply serving_start]. }
    intros visited x todo acc _. eapply triple_fact; [by intros w (_ & H); exact H|].
    intros [H1 H2]. eapply triple_pre; [by apply serve_client_ok|by intros w [Hw _]]. }
  intros r. eapply triple_pre with (P' := fun w => looked s0 w /\ Forall2 pinned clients r.1 /\ serving_ok r.2).
  - intros w (Hw & Hp & [H1 H2 _ _ H3]). cbn. by split_and!.
  - done.
Qed.
End Primaries.

(** ** Idle clients *)

Section Idle.

Definition stays (representative : string) (c : Client) : bool :=
  negb (Dormant c) || str_eqb (clientID c) representative.

Record collapsed (seen : list Client) (r : Collapse) : Prop := {
  cp_clients : co_clients r = List.filter (stays (co_representative r)) seen;
  cp_none : co_representative r = EmptyString -> forall c, In c seen -> Dormant c = false;
  cp_some : co_representative r <> EmptyString ->
    exists c, In c seen /\ Dormant c = true /\ clientID c = co_representative r;
  cp_aliases : forall id x, co_aliases r !! id = Some x <->
    x = co_representative r /\ id <> x /\ exists c, In c seen /\ Dormant c = true /\ clientID c = id
}.

Lemma collapse_step_ok seen r client :
  NoDup (map clientID (seen ++ [client])) -> clientID client <> EmptyString ->
  collapsed seen r -> collapsed (seen ++ [client]) (collapse_step r client).
Proof.
  intros Hnd Hne [H1 H2 H3 H4]. unfold collapse_step.
  assert (forall c, In c seen -> clientID c <> clientID client) as Hnew.
  { intros c Hc E. rewrite map_app in Hnd. apply NoDup_app in Hnd as (_ & Hnd & _).
    apply (Hnd (clientID c)); [apply list_elem_of_In, in_map, Hc|]. rewrite E. by left. }
  destruct (Dormant client) eqn:Ed; cbn [negb].
  - destruct (str_eqb (co_representative r) EmptyString) eqn:Er; str_bool; cbn.
    + assert (forall c, In c seen -> Dormant c = false) as Hawake by auto.
      split; cbn.
      * rewrite H1, Er, List.filter_app. cbn. unfold stays at 3. rewrite str_eqb_refl, orb_true_r. f_equal.
        apply filter_ext_in. intros c Hc. unfold stays. by rewrite (Hawake c Hc).
      * done.
      * intros _. exists client. rewrite in_app_iff. cbn. auto.
      * intros id x. rewrite H4, Er. split.
        -- intros (_ & _ & c & Hc & Hd & _). by rewrite (Hawake c Hc) in Hd.
        -- intros (-> & Hid & c & [Hc|[<-|[]]]%in_app_iff & Hd & Hid').
           ++ by rewrite (Hawake c Hc) in Hd.
           ++ done.
    + assert (clientID client <> co_representative r) as Hrep.
      { destruct (H3 Er) as (c & Hc & _ & E). rewrite <- E. intros E'. by apply (Hnew c Hc). }
      split; cbn; try done.
      * rewrite List.filter_app, <- H1. cbn. unfold stays. rewrite Ed. cbn.
        rewrite (proj2 (str_eqb_neq _ _) Hrep). by rewrite app_nil_r.
      * intros _. destruct (H3 Er) as (c & Hc & ?). exists c. rewrite in_app_iff. auto.
      * intros id x. rewrite lookup_insert_Some, H4. setoid_rewrite in_app_iff. cbn. split.
        -- intros [[<- <-]|(Hid & -> & Hx & c & Hc & Hd & E)].
           ++ split_and!; [done|done|]. exists client. auto.
           ++ split_and!; [done|done|]. exists c. auto.
        -- intros (-> & Hx & c & [Hc|[<-|[]]] & Hd & E).
           ++ right. split; [|split_and!; [done|done|by exists c]]. intros E'. subst id.
              by apply (Hnew c Hc).
           ++ left. by subst.
  - split; cbn.
    + rewrite List.filter_app, <- H1. cbn. unfold stays. by rewrite Ed.
    + intros Er c [Hc|[<-|[]]]%in_app_iff; auto.
    + intros Er. destruct (H3 Er) as (c & Hc & ?). exists c. rewrite in_app_iff. auto.
    + intros id x. rewrite H4. setoid_rewrite in_app_iff. cbn. split.
      * intros (-> & Hx & c & Hc & ?). split_and!; [done|done|]. exists c. auto.
      * intros (-> & Hx & c & [Hc|[<-|[]]] & Hd & E); [|congruence].
        split_and!; [done|done|]. by exists c.
Qed.

Lemma collapse_ok clients : NoDup (map clientID clients) ->
  (forall c, In c clients -> clientID c <> EmptyString) ->
  exists r, collapsed (sort_slice client_less clients) r /\
    collapseDormantClients clients = (co_clients r, co_aliases r).
Proof.
  intros Hnd Hne. unfold collapseDormantClients. set (l := sort_slice client_less clients).
  assert (l ≡ₚ clients) as Hp by apply sort_slice_Permutation.
  assert (NoDup (map clientID l)) as Hnd' by by rewrite Hp.
  assert (forall c, In c l -> clientID c <> EmptyString) as Hne'.
  { intros c Hc. apply Hne. apply list_elem_of_In. rewrite <- Hp. by apply list_elem_of_In. }
  clearbody l. clear clients Hnd Hne Hp. eexists. split; [|reflexivity].
  assert (forall todo seen r, l = seen ++ todo -> collapsed seen r ->
    collapsed l (fold_left collapse_step todo r)) as H.
  { induction todo as [|c todo IH]; intros seen r E Hr; cbn [fold_left].
    - by rewrite E, app_nil_r.
    - apply (IH (seen ++ [c])); [by rewrite <- app_assoc|]. apply collapse_step_ok; [| |done].
      + rewrite E in Hnd'. rewrite cons_middle, app_assoc, map_app in Hnd'.
        by apply NoDup_app in Hnd' as (? & _).
      + apply Hne'. rewrite E, in_app_iff. right. by left. }
  apply (H l []); [done|]. split; cbn; try done.
  intros id x. rewrite lookup_empty. split; [done|]. by intros (_ & _ & c & [] & _).
Qed.
End Idle.

(** What the collapse leaves: every client with a reservation, one idle client if there
    is any, and the other idle clients as its aliases. *)
Record one_idle (clients kept : list Client) (aliases : gmap string string) : Prop := {
  oi_distinct : NoDup (map clientID kept);
  oi_incl : incl kept clients;
  oi_awake : forall c, In c clients -> Dormant c = false -> In c kept;
  oi_one : forall c d, In c kept -> In d kept -> Dormant c = true -> Dormant d = true -> c = d;
  oi_alias : forall c, In c clients -> Dormant c = true -> ~ In c kept -> exists r,
    In r kept /\ Dormant r = true /\ aliases !! clientID c = Some (clientID r);
  oi_apart : forall id r, aliases !! id = Some r -> ~ In id (map clientID kept) /\
    (exists c, In c clients /\ Dormant c = true /\ clientID c = id) /\
    exists c, In c kept /\ Dormant c = true /\ clientID c = r
}.

Lemma collapse_one_idle clients kept aliases :
  NoDup (map clientID clients) -> (forall c, In c clients -> clientID c <> EmptyString) ->
  collapseDormantClients clients = (kept, aliases) -> one_idle clients kept aliases.
Proof.
  intros Hnd Hne Hk. destruct (collapse_ok clients Hnd Hne) as (r & [H1 H2 H3 H4] & E).
  rewrite E in Hk. injection Hk as <- <-.
  pose proof (sort_slice_Permutation client_less clients) as Hp.
  set (l := sort_slice client_less clients) in *.
  assert (forall c, In c l <-> In c clients) as Hin.
  { intros c. rewrite <- !list_elem_of_In. by rewrite Hp. }
  assert (forall c d, In c clients -> In d clients -> clientID c = clientID d -> c = d) as Hinj.
  { clear -Hnd. induction clients as [|x l IH]; [done|]. cbn [map] in Hnd.
    apply NoDup_cons in Hnd as [Hx Hnd]. rewrite list_elem_of_In, in_map_iff in Hx.
    intros c d [->|Hc] [->|Hd] Heq; eauto; exfalso; apply Hx; eauto. }
  assert (forall c, In c (co_clients r) <-> In c clients /\ stays (co_representative r) c = true) as Hkept.
  { intros c. by rewrite H1, filter_In, Hin. }
  assert (forall c, In c (co_clients r) -> Dormant c = true -> clientID c = co_representative r) as Hrep.
  { intros c [_ Hc]%Hkept Hd. unfold stays in Hc. rewrite Hd in Hc. cbn in Hc. by str_bool. }
  split.
  - rewrite H1. assert (NoDup (map clientID l)) as Hl by by rewrite Hp.
    clear -Hl. induction l as [|x l IH]; cbn [List.filter map] in *; [constructor|].
    apply NoDup_cons in Hl as [Hx Hl]. destruct (stays _ x); [|by apply IH].
    cbn [map]. apply NoDup_cons. split; [|by apply IH]. intros Hm. apply Hx.
    rewrite list_elem_of_In, in_map_iff in Hm |- *. destruct Hm as (c & ? & [? _]%filter_In). eauto.
  - by intros c [? _]%Hkept.
  - intros c Hc Hd. apply Hkept. split; [done|]. unfold stays. by rewrite Hd.
  - intros c d Hc Hd Ec Ed. apply Hinj; [by apply Hkept..|]. rewrite (Hrep c), (Hrep d); done.
  - intros c Hc Hd Hn. assert (clientID c <> co_representative r) as Hcr.
    { intros Ec. apply Hn, Hkept. split; [done|]. unfold stays. by rewrite Ec, str_eqb_refl, orb_true_r. }
    destruct (decide (co_representative r = EmptyString)) as [Er|Er].
    { by rewrite (H2 Er c) in Hd by by apply Hin. }
    destruct (H3 Er) as (d & Hd1 & Hd2 & Hd3). exists d. split_and!; [|done|].
    + apply Hkept. split; [by apply Hin|]. unfold stays. by rewrite Hd3, str_eqb_refl, orb_true_r.
    + apply H4. rewrite Hd3. split_and!; [done|done|]. exists c. by rewrite Hin.
  - intros id x (-> & Hid & c & Hc & Hd & Ec)%H4. split.
    + intros (k & Ek & Hkk)%in_map_iff. apply Hkept in Hkk as [Hkc Hst].
      assert (k = c) as -> by (apply Hinj; [done|by apply Hin|congruence]).
      unfold stays in Hst. rewrite Hd in Hst. cbn in Hst. str_bool. congruence.
    + split; [exists c; split_and!; [by apply Hin|done|done]|].
      destruct (decide (co_representative r = EmptyString)) as [Er|Er].
      { by rewrite (H2 Er c Hc) in Hd. }
      destruct (H3 Er) as (d & Hd1 & Hd2 & Hd3). exists d. split_and!; [|done|done].
      apply Hkept. split; [by apply Hin|]. unfold stays. by rewrite Hd3, str_eqb_refl, orb_true_r.
Qed.

(** Idle clients share one bootstrap route: after the collapse every client with a
    reservation is placed, one idle client is placed if there is any, and every other idle
    client is an alias of that one; nobody is placed twice or placed and an alias. *)
Theorem idle_clients_share_one_route clients kept aliases :
  NoDup (map clientID clients) -> (forall c, In c clients -> clientID c <> EmptyString) ->
  collapseDormantClients clients = (kept, aliases) -> one_idle clients kept aliases.
Proof. apply collapse_one_idle. Qed.

Definition idle_client (id : string) (idle : bool) : Client :=
  (sample_client id EmptyString) <| Dormant := idle |>.
Definition idle_sample : list Client :=
  [idle_client "carol" true; idle_client "alice" false; idle_client "bob" true].

Lemma idle_clients_share_one_route_witness :
  one_idle idle_sample [idle_client "alice" false; idle_client "bob" true] {["carol" := "bob"]}%string.
Proof.
  apply (idle_clients_share_one_route idle_sample).
  - apply (bool_decide_unpack _). vm_compute. reflexivity.
  - intros c [<-|[<-|[<-|[]]]]; discriminate.
  - vm_compute. reflexivity.
Defined.

(** * Candidates of a cycle

    The coverage planner answers with listed candidates only and changes the scheduler
    as reading does, whatever searches it retained: what the cycle needs of
    CoveragePlan.v without its invariants. *)

(** Two schedulers exclude the same named candidates at [now]. *)
Record alike (now : Time) (s s' : Scheduler) : Prop := {
  al_policy : policy s' = policy s;
  al_version : version s' = version s;
  al_excluded : forall client id, id <> EmptyString ->
    (client, id) ∈ excl_set now s' <-> (client, id) ∈ excl_set now s
}.

Lemma alike_refl now s : alike now s s.
Proof. done. Qed.

Lemma alike_trans now s1 s2 s3 : alike now s1 s2 -> alike now s2 s3 -> alike now s1 s3.
Proof.
  intros [P1 V1 E1] [P2 V2 E2]. split; [congruence|congruence|].
  intros client id Hid. by rewrite E2, E1.
Qed.

Lemma kept_alike now s s' : kept now s s' -> alike now s s'.
Proof. intros [? ? E]. split; [done..|]. intros client id _. by rewrite E. Qed.

Lemma compacted_alike now s : alike now s (compactExclusionsLocked s now).
Proof.
  split; [done..|]. intros client id Hid.
  rewrite !elem_of_excl_set, compactExclusionsLocked_seen; [done|done|lia].
Qed.

Section Listed.
Context `{Enc : Encoding}.
Context (coverageEvaluate bootstrapCoverageEvaluate : option Evaluate).
Context (now : Time) (clients : list Client) (candidates : list Candidate) (s0 : Scheduler).

Definition as_before (e : Engine) : Prop := alike now s0 (en_placement e).

(** [yields m Q]: the answer of [m] satisfies [Q], and the scheduler stays alike. *)
Definition yields {A : Type} (m : E_ A) (Q : A -> Prop) : Prop :=
  triple as_before m (fun a e => as_before e /\ Q a) (fun _ => as_before).

Abbreviation anything := (fun _ => True) (only parsing).

Lemma yields_weaken {A : Type} (m : E_ A) (Q Q' : A -> Prop) :
  yields m Q -> (forall a, Q a -> Q' a) -> yields m Q'.
Proof. intros Hm HQ. eapply triple_conseq; [exact Hm|done| |done]. intros a e [? ?]. auto. Qed.

Lemma yields_ret {A : Type} (a : A) (Q : A -> Prop) : Q a -> yields (ret a) Q.
Proof. intros Ha e He. by split. Qed.

Lemma yields_raise {A : Type} err (Q : A -> Prop) : yields (raise err) Q.
Proof. by intros e He. Qed.

Lemma yields_bind {A B : Type} (m : E_ A) (k : A -> E_ B) (S : A -> Prop) (Q : B -> Prop) :
  yields m S -> (forall a, S a -> yields (k a) Q) -> yields (bind m k) Q.
Proof.
  intros Hm Hk e He. unfold bind. specialize (Hm e He).
  destruct (m e) as [[err|a] e1]; [done|]. destruct Hm as [He1 Ha]. by apply Hk.
Qed.

Lemma yields_if {A : Type} (b : bool) (m n : E_ A) (Q : A -> Prop) :
  yields m Q -> yields n Q -> yields (if b then m else n) Q.
Proof. by destruct b. Qed.

Lemma yields_get {A : Type} (f : Engine -> A) : yields (get f) anything.
Proof. by intros e He. Qed.

Lemma yields_modify f : (forall e, en_placement (f e) = en_placement e) -> yields (modify f) anything.
Proof. intros Hf e He. cbn. unfold as_before in *. by rewrite Hf. Qed.

Lemma set_slot_placement slot o e : en_placement (set_slot slot o e) = en_placement e.
Proof. by destruct slot. Qed.

Lemma yields_moment : yields next_moment anything.
Proof. by intros e He. Qed.

Lemma yields_key l : yields (planning_key now l candidates) anything.
Proof.
  intros e He. unfold planning_key.
  assert ((criticalCoveragePlanningKey now (en_placement e) l candidates (activeCriticalRouteLimit e)).2 =
    compactExclusionsLocked (en_placement e) now) as E by reflexivity.
  destruct (criticalCoveragePlanningKey _ _ _ _ _) as [key p]. cbn in E. subst p. split; [|done].
  eapply alike_trans; [exact He|apply compacted_alike].
Qed.

Lemma yields_fail e : yields (fail_if e) anything.
Proof. destruct e; [apply yields_raise|by apply yields_ret]. Qed.

Lemma yields_or_drop {A : Type} slot (m : E_ A) Q : yields m Q -> yields (or_drop slot m) Q.
Proof.
  intros Hm e He. unfold or_drop. specialize (Hm e He). destruct (m e) as [[err|a] e1]; [|done].
  unfold as_before in *. by rewrite set_slot_placement.
Qed.

Lemma yields_slice {A : Type} limit n (m : E_ A) Q : yields m Q -> yields (slice_error limit n m) Q.
Proof.
  intros Hm e He. unfold slice_error. specialize (Hm e He). by destruct (m e) as [[err|a] e1].
Qed.
End Listed.

(** [yields] follows the program's structure. *)
Ltac yields := cbv zeta; repeat first
  [ apply yields_raise | apply yields_fail | apply yields_moment | apply yields_get
  | apply yields_key
  | apply yields_modify; intros; first [reflexivity|apply set_slot_placement]
  | apply yields_if
  | apply yields_or_drop
  | apply yields_slice
  | (eapply yields_bind; [|intros ? ?; cbv zeta])
  | apply yields_ret; solve [auto]
  | case_match; subst ].

Section Subset.
Context `{Enc : Encoding}.
Context (coverageEvaluate bootstrapCoverageEvaluate : option Evaluate).
Context (now : Time) (clients : list Client) (candidates : list Candidate) (s0 : Scheduler).

Abbreviation yields_ m Q := (yields now s0 m Q).
Abbreviation anything := (fun _ => True) (only parsing).
Definition listed (pool : list Candidate) : Prop := incl pool candidates.
Definition maybe_listed (pool : option (list Candidate)) : Prop := forall l, pool = Some l -> listed l.

Lemma yields_evaluate evaluate pool required :
  yields_ (evaluate_in evaluate now clients pool required) anything.
Proof. unfold evaluate_in. yields. Qed.

Lemma yields_revalidate evaluate required found :
  yields_ (revalidate evaluate now clients candidates required found) listed.
Proof.
  unfold revalidate. eapply yields_bind; [apply yields_get|]. intros limit _.
  destruct (by_ids candidates (map ID found)) as [current|] eqn:E; [|apply yields_raise]. cbv zeta.
  eapply yields_bind; [apply yields_evaluate|]. intros covered _. apply yields_if; [|apply yields_raise].
  apply yields_ret. by apply by_ids_spec in E as [? _].
Qed.

Lemma yields_search_slice slot evaluate retain s :
  yields_ (search_slice slot evaluate now clients candidates retain s) listed.
Proof.
  unfold search_slice. eapply yields_bind; [apply yields_get|]. intros limit _.
  eapply yields_bind; [apply yields_get|]. intros placement _.
  eapply yields_bind; [apply yields_moment|]. intros m _.
  destruct (resumeCriticalCoveragePlanner _ _) as [[err|[found|]] w].
  - yields.
  - eapply yields_bind; [apply yields_or_drop, yields_revalidate|]. intros pool Hp.
    eapply yields_bind with (S := anything); [yields|]. intros _ _. by apply yields_ret.
  - yields.
Qed.

Lemma yields_capped slot evaluate retain full :
  yields_ (cappedCriticalCandidates slot evaluate now clients candidates retain full) listed.
Proof.
  unfold cappedCriticalCandidates. eapply yields_bind with (S := anything); [unfold check_ctx; yields|].
  intros _ _. eapply yields_bind; [apply yields_get|]. intros limit _. apply yields_if.
  { eapply yields_bind with (S := anything); [yields|]. intros _ _. apply yields_ret, incl_refl. }
  eapply yields_bind; [apply yields_key|]. intros key _.
  eapply yields_bind; [apply yields_get|]. intros session _. cbv zeta.
  eapply yields_bind with (S := anything); [yields|]. intros _ _. apply yields_if.
  - apply yields_or_drop. destruct (by_ids _ _); [apply yields_revalidate|apply yields_raise].
  - apply yields_search_slice.
Qed.

Lemma yields_budget limit n evaluate pool required :
  yields_ (budget_evaluate limit n evaluate now clients pool required) anything.
Proof. unfold budget_evaluate. yields. Qed.

Definition pass_listed (r : list Candidate + Pass) : Prop :=
  match r with
  | inl trial => listed trial
  | inr p => forall c e, ps_best p = Some (c, e) -> In c candidates
  end.

Lemma yields_pass limit evaluate required ids incumbent rest p :
  listed incumbent -> listed rest -> (forall c e, ps_best p = Some (c, e) -> In c candidates) ->
  yields_ (incumbent_pass limit evaluate now clients required ids incumbent rest p) pass_listed.
Proof.
  intros Hi. revert p. induction rest as [|c rest IH]; intros p Hr Hp; cbn [incumbent_pass].
  { by apply yields_ret. }
  assert (listed rest) as Hr' by (intros x Hx; apply Hr; by right).
  apply yields_if; [by apply IH|]. cbv zeta.
  eapply yields_bind; [apply yields_budget|]. intros e _. apply yields_if.
  - apply yields_ret. intros x [Hx|[<-|[]]]%in_app_iff; [by apply Hi|apply Hr; by left].
  - apply IH; [done|]. intros d g. case_if; cbn; [|by apply Hp].
    intros [= <- _]. apply Hr. by left.
Qed.

Lemma yields_loop limit evaluate required ordered_ fuel ids incumbent covered n :
  listed incumbent -> listed ordered_ ->
  yields_ (incumbent_loop fuel limit evaluate now clients required ordered_ ids incumbent covered n)
    maybe_listed.
Proof.
  intros Hi Ho. revert ids incumbent covered n Hi.
  induction fuel as [|fuel IH]; intros ids incumbent covered n Hi; cbn [incumbent_loop];
    (apply yields_if; [by apply yields_ret|]); [apply yields_raise|].
  eapply yields_bind; [by apply yields_pass|]. intros [trial|p] Hp.
  - apply yields_ret. by intros l [= <-].
  - destruct (ps_best p) as [[c e]|] eqn:E; [|by apply yields_ret].
    apply IH. intros x [Hx|[<-|[]]]%in_app_iff; [by apply Hi|by eapply Hp].
Qed.

Lemma yields_incumbent required limit evaluate :
  yields_ (incumbentPlusReserveCoverage now clients candidates required limit evaluate) maybe_listed.
Proof.
  unfold incumbentPlusReserveCoverage. cbv zeta. apply yields_if; [by apply yields_ret|].
  set (incumbent := List.filter _ _).
  assert (listed incumbent) as Hi.
  { intros x [Hx _]%filter_In. by apply ordered_incl in Hx. }
  eapply yields_bind; [apply yields_budget|]. intros covered _. apply yields_if.
  - apply yields_ret. by intros l [= <-].
  - apply yields_loop; [done|apply ordered_incl].
Qed.

Lemma yields_cached :
  yields_ (cachedBootstrapCoverageCandidates now clients candidates) maybe_listed.
Proof.
  unfold cachedBootstrapCoverageCandidates. eapply yields_bind; [apply yields_get|]. intros limit _.
  apply yields_if; [by apply yields_ret|]. eapply yields_bind; [apply yields_key|]. intros key _.
  eapply yields_bind; [apply yields_get|]. intros [s|] _; [|by apply yields_ret].
  apply yields_if; apply yields_ret; [done|]. intros l E. by apply by_ids_spec in E as [? _].
Qed.

Lemma yields_narrow evaluate preferred coverage required : listed preferred ->
  yields_ (narrow_to_witness evaluate now clients preferred coverage required) listed.
Proof.
  intros Hp. unfold narrow_to_witness. cbv zeta. set (witness := List.filter _ _).
  destruct (_ && _); [|by apply yields_ret]. intros e He.
  pose proof (yields_evaluate evaluate witness required e He) as Hev.
  destruct (evaluate_in _ _ _ _ _ _) as [[err|covered] e1]; cbn; [by split|].
  split; [apply Hev|]. case_if; [|done]. intros x [Hx _]%filter_In. by apply Hp.
Qed.

Lemma yields_retain pool : yields_ (retainProspectiveCoverage now clients candidates pool) anything.
Proof. unfold retainProspectiveCoverage, retainCompletedCoverage. yields. Qed.

Lemma yields_static slot replaced limit :
  yields_ (static_check slot replaced clients candidates limit) anything.
Proof. unfold static_check, resetCriticalCoverageSession. yields. Qed.

Lemma yields_prospective_search limit :
  yields_ (prospective_search bootstrapCoverageEvaluate now clients candidates limit) listed.
Proof.
  unfold prospective_search. cbv zeta. set (preferred := if _ <? _ then _ else _).
  assert (listed preferred) as Hp.
  { subst preferred. intros x Hx. apply (ordered_incl clients candidates).
    destruct (_ <? _); [|done]. apply list_elem_of_In in Hx. apply list_elem_of_In.
    by eapply elem_of_take in Hx as (? & ? & ?); eapply list_elem_of_lookup_2. }
  eapply yields_bind; [apply yields_moment|]. intros m _.
  eapply yields_bind; [apply yields_get|]. intros placement _.
  destruct (bootstrap_evaluate _ _ _ _ _ _ _) as [err|coverage].
  { destruct (m_kind m), (m_after m); first [apply yields_raise|apply yields_capped]. }
  apply yields_if.
  - eapply yields_bind; [by apply yields_narrow|]. intros pool Hpool.
    eapply yields_bind; [apply yields_retain|]. intros _ _. by apply yields_ret.
  - eapply yields_bind; [apply yields_incumbent|]. intros [pool|] Hpool; [|apply yields_capped].
    eapply yields_bind; [apply yields_retain|]. intros _ _. apply yields_ret. by apply Hpool.
Qed.

Lemma yields_prospective :
  yields_ (cappedProspectiveScheduleCandidates bootstrapCoverageEvaluate now clients candidates) listed.
Proof.
  unfold cappedProspectiveScheduleCandidates. eapply yields_bind; [apply yields_get|]. intros limit _.
  cbv zeta. eapply yields_bind with (S := anything).
  { apply yields_if; [apply yields_static|by apply yields_ret]. }
  intros _ _. eapply yields_bind; [apply yields_cached|]. intros cached Hc.
  assert (yields_ (session <- get bootstrapCoverageSearch ;;
    if match session with Some s => negb (cs_completed s) | None => false end
    then cappedCriticalCandidates Bootstrap (bootstrap_evaluate bootstrapCoverageEvaluate) now clients
           candidates true None
    else prospective_search bootstrapCoverageEvaluate now clients candidates limit) listed) as Hrest.
  { eapply yields_bind; [apply yields_get|]. intros session _.
    apply yields_if; [apply yields_capped|apply yields_prospective_search]. }
  destruct cached as [cached|]; [|done].
  eapply yields_bind; [apply yields_evaluate|]. intros covered _. apply yields_if.
  - apply yields_ret. by apply Hc.
  - eapply yields_bind with (S := anything); [unfold resetCriticalCoverageSession; yields|]. by intros _ _.
Qed.

Lemma yields_with_full full :
  yields_ (cappedScheduleCandidatesWithFull coverageEvaluate now clients candidates full) listed.
Proof.
  unfold cappedScheduleCandidatesWithFull. eapply yields_bind; [apply yields_get|]. intros limit _.
  cbv zeta. eapply yields_bind with (S := anything).
  { apply yields_if; [apply yields_static|by apply yields_ret]. }
  intros _ _. eapply yields_bind; [apply yields_cached|]. intros [cached|] Hc; [|apply yields_capped].
  eapply yields_bind; [apply yields_evaluate|]. intros covered _.
  apply yields_if; [|apply yields_capped]. apply yields_ret. by apply Hc.
Qed.

Lemma yields_smaller limit full :
  yields_ (plan_smaller coverageEvaluate bootstrapCoverageEvaluate now clients candidates limit full) listed.
Proof.
  unfold plan_smaller. cbv zeta. eapply yields_bind; [apply yields_incumbent|].
  intros [pool|] Hp; [apply yields_ret; by apply Hp|]. apply yields_if; [|apply yields_with_full].
  eapply yields_bind; [apply yields_prospective|]. intros pool Hpool.
  eapply yields_bind; [apply yields_evaluate|]. intros covered _.
  apply yields_if; [by apply yields_ret|apply yields_raise].
Qed.

Lemma yields_use_cached cached limit full : listed cached ->
  yields_ (use_cached coverageEvaluate bootstrapCoverageEvaluate now clients candidates cached limit full)
    listed.
Proof.
  intros Hc. unfold use_cached. cbv zeta. eapply yields_bind; [apply yields_evaluate|].
  intros covered _. apply yields_if; [by apply yields_ret|].
  eapply yields_bind; [apply yields_evaluate|]. intros prospective _. apply yields_if; [apply yields_raise|].
  eapply yields_bind with (S := anything); [unfold resetCriticalCoverageSession; yields|].
  intros _ _. apply yields_smaller.
Qed.

(** Whatever the retained searches hold, a cycle schedules on listed candidates. *)
Lemma yields_cycle :
  yields_ (scheduleCandidatesForCycle coverageEvaluate bootstrapCoverageEvaluate now clients candidates)
    listed.
Proof.
  unfold scheduleCandidatesForCycle. eapply yields_bind; [apply yields_get|]. intros limit _.
  apply yields_if; [apply yields_ret, incl_refl|].
  eapply yields_bind; [apply yields_static|]. intros _ _.
  eapply yields_bind with (S := maybe_listed).
  { unfold resumeScheduleCoverageSession. eapply yields_bind; [apply yields_key|]. intros key _.
    eapply yields_bind; [apply yields_get|]. intros session _. apply yields_if; [|by apply yields_ret].
    eapply yields_bind; [apply yields_capped|]. intros pool Hp. apply yields_ret. by intros l [= <-]. }
  intros [found|] Hf; [apply yields_ret; by apply Hf|]. cbv zeta.
  eapply yields_bind; [apply yields_evaluate|]. intros full _.
  apply yields_if; [apply yields_ret, incl_refl|].
  eapply yields_bind; [apply yields_cached|]. intros [cached|] Hc.
  - apply yields_use_cached. by apply Hc.
  - apply yields_smaller.
Qed.
End Subset.
