(* ===== verification/EngineCycle.v ===== *)
(** One ordinary cycle of the controller's engine (controller/engine.go [cycleOnce],
    [CycleForReason]; controller/engine_plan.go [updateActivity],
    [preserveLastKnownGoodWithoutReplacement], [capturePlanProfiles]): it reads
    activity, clients, plan and evidence, places the clients on a preview of the
    scheduler, renders the placement, and publishes it.

    The world of a cycle holds the world of the publication (EnginePublish.v), the
    retained coverage searches with what the planner's context decides
    (CoveragePlan.v), and the preview.  Steps of those components run on their part
    of it. *)
From Stdlib Require Import Floats.
From S2P Require Import Prelude Effects GoOrder GoFloat GoStrings GoSort QoE DataPlan DataChange Gateway Handlers XrayConfig PlacementQueue StoreTables RouteRecovery PlanStore RoutingSnapshot PlanStoreRuns.
From S2P Require EnginePublish CoveragePlan.
From S2P Require Import RouteCandidates PlanRendering SchedLoad SchedState SchedReserves Scheduling PlanningKey Coverage CoverageSearch Reservations.

#[local] Open Scope Z_scope.
#[local] Open Scope effect_scope.

(** ** The world of a cycle *)

Inductive CycleError :=
  | Publishing (e : EnginePublish.EngineError)
  | Covering (e : CoverError)
  | Placing (e : SchedState.Error)
  | Rendering_ (e : RenderError)
  | DormantPlan.

Record CycleEnv := {
  ce_publish : EnginePublish.Env;
  ce_active : option CoveragePlan.Evaluate;
  ce_bootstrap : option CoveragePlan.Evaluate;
  (** the agent's answer to [Activity]; none is an error *)
  activity : list EnginePublish.Call -> option (list PeerActivity);
  (** how long reading the evidence took *)
  elapsed : list EnginePublish.Call -> Duration
}.

Record CycleWorld := {
  cy_publish : EnginePublish.World;
  cy_active : option Session;
  cy_bootstrap : option Session;
  cy_moments : list CoveragePlan.Moment;
  cy_preview : Preview
}.

#[export] Instance CycleWorld_eta : Eta CycleWorld := fun w =>
  Build_CycleWorld (cy_publish w) (cy_active w) (cy_bootstrap w) (cy_moments w) (cy_preview w).

Abbreviation Cycle A := (Prog CycleWorld CycleError A).

(** ** Pure parts *)

(** What is known before the clients are placed. *)
Record CycleInputs := {
  ci_clients : list ClientRecord;
  ci_assignments : list AssignmentRecord;
  ci_state : PlanState;
  ci_reserves : gmap string ReserveSelection;
  ci_applied : gmap string (string * string);
  ci_referenced : gset string;
  ci_snapshot : RouteCandidateSnapshot
}.

Definition named (id : string) : bool := negb (str_eqb id EmptyString).

Definition assigned_candidates (assignments : list AssignmentRecord) : list string :=
  List.filter named (flat_map (fun a => [as_TCPOutbound a; as_UDPOutbound a]) assignments).

Definition applied_reserves_of (mappings : list RouteReserveMapping) : gmap string ReserveSelection :=
  reservesForMapping <$> index_by rm_ClientID mappings.

Definition zero_record : AssignmentRecord := {|
  as_ClientID := EmptyString; as_TCPOutbound := EmptyString; as_UDPOutbound := EmptyString;
  as_TCPSince := zero_time; as_UDPSince := zero_time; as_UpdatedAt := zero_time |}.
Definition zero_reserve : ReserveSelection := {| rs_TCP := EmptyString; rs_UDP := EmptyString |}.

Section Inputs.
Context (i : CycleInputs).

Definition client_by_id : gmap string ClientRecord := index_by cli_ID (ci_clients i).

(** Bridges without a warm profile. *)
Definition unavailable_tor (id : string) : bool :=
  match rowsByID (ci_snapshot i) !! id with
  | Some row => str_eqb (c_Kind row) KindTorBridge &&
                negb (bool_decide (is_Some (profilesByCandidate (ci_snapshot i) !! id)))
  | None => false
  end.

Definition schedule_client (client : ClientRecord) : Client :=
  let a := default zero_record (index_by as_ClientID (ci_assignments i) !! cli_ID client) in {|
    SchedLoad.Dormant := false; PreserveTCP := false; PreserveUDP := false;
    AppliedReserve := default zero_reserve (ci_reserves i !! cli_ID client);
    clientID := cli_ID client;
    LastTraffic := nullable_time (cl_last_traffic_at (cli_row client));
    assignment := {| TCP := as_TCPOutbound a; UDP := as_UDPOutbound a;
                     TCPSince := as_TCPSince a; UDPSince := as_UDPSince a |} |}.

Definition schedule_clients : list Client :=
  map schedule_client (List.filter (fun c => negb (cl_paused (cli_row c))) (ci_clients i)).

(** Who is idle, and what a client that returns keeps; the flag says that some client
    is or was idle.  The loop changes the list that it reads. *)
Fixpoint wake_clients (now : Time) (previous : gmap string bool) (candidates : list Candidate)
    (done_ rest : list Client) (recovery : bool) : list Client * bool :=
  match rest with
  | [] => (done_, recovery)
  | client :: rest =>
      let reserved := from_option (RouteReserved now) false (client_by_id !! clientID client) in
      let was := default false (previous !! clientID client) in
      let client := client <| SchedLoad.Dormant := negb reserved |> in
      let client :=
        if reserved && was
        then client <| assignment := returningAssignment now client (done_ ++ client :: rest) candidates |>
        else client in
      wake_clients now previous candidates (done_ ++ [client]) rest (recovery || negb reserved || was)
  end.

(** A client whose bridge has no warm profile and who would lose TCP. *)
Definition cold_client (placed : gmap string Assignment) (client : Client) : option string :=
  let id := TCP (assignment client) in
  if unavailable_tor id &&
     str_eqb (TCP (default no_assignment (placed !! clientID client))) EmptyString
  then Some id else None.

(** The data plane still has the route, but its candidate is gone. *)
Definition vanished (placed : string * Assignment) : bool :=
  let (client, a) := placed in
  let gone id applied := named id && negb (bool_decide (is_Some (rowsByID (ci_snapshot i) !! id))) &&
                         str_eqb id applied in
  let applied := default (EmptyString, EmptyString) (ci_applied i !! client) in
  gone (TCP a) applied.1 || gone (UDP a) applied.2.

(** [preserveLastKnownGoodWithoutReplacement]. *)
Definition preserve_client (placed : gmap string Assignment) (client : Client) :
    gmap string Assignment :=
  if SchedLoad.Dormant client then placed
  else match placed !! clientID client with
       | None => placed
       | Some planned =>
           let lastApplied := default (EmptyString, EmptyString) (ci_applied i !! clientID client) in
           let current := assignment client in
           let planned :=
             if negb (named (TCP planned)) && named (TCP current) &&
                negb (unavailable_tor (TCP current)) && str_eqb (TCP current) lastApplied.1
             then planned <| TCP := TCP current |> <| TCPSince := TCPSince current |> else planned in
           let planned :=
             if negb (named (UDP planned)) && named (UDP current) && str_eqb (UDP current) lastApplied.2
             then planned <| UDP := UDP current |> <| UDPSince := UDPSince current |> else planned in
           <[clientID client := planned]> placed
       end.

Definition preserveLastKnownGoodWithoutReplacement (clients : list Client)
    (placed : gmap string Assignment) : gmap string Assignment :=
  fold_left preserve_client clients placed.
End Inputs.

(** Aliases get what their representative got. *)
Definition spread {A : Type} (zero : A) (aliases : list (string * string)) (m : gmap string A) :
    gmap string A :=
  fold_left (fun m '(client, representative) =>
    <[client := default zero (m !! representative)]> m) aliases m.

(** ** Steps *)

Section Cycle.
Context `{JS : Json} `{PC : PlanCodec} `{VT : Vault} `{YC : EnginePublish.PayloadCodec}
  `{EN : Encoding} `{TX : TextLib} `{DC : DNSCodec} `{CC : ConfigCodec} `{NL : NetLib}
  `{XC : ExtraCodec} `{MR : MapRange}.
Context (env : CycleEnv) (options : EngineOptions) (torSecret : list Z).

Definition critical_limit : Z := EnginePublish.activeCriticalRouteLimit (ce_publish env).

Definition publishing {A : Type} (m : EnginePublish.Engine A) : Cycle A := fun w =>
  match m (cy_publish w) with
  | (inl e, p) => (inl (Publishing e), w <| cy_publish := p |>)
  | (inr a, p) => (inr a, w <| cy_publish := p |>)
  end.

Definition store {A : Type} (m : Outcome -> Tx A) : Cycle A :=
  publishing (EnginePublish.store_call (ce_publish env) m).

(** The planner sees the limit, the retained searches and the preview's scheduler. *)
Definition covering {A : Type} (m : CoveragePlan.E_ A) : Cycle A := fun w =>
  let '(r, e) := m {|
    CoveragePlan.activeCriticalRouteLimit := critical_limit;
    CoveragePlan.coverageSearch := cy_active w; CoveragePlan.bootstrapCoverageSearch := cy_bootstrap w;
    CoveragePlan.en_placement := p_scheduler (cy_preview w);
    CoveragePlan.moments := cy_moments w |} in
  let w := w <| cy_active := CoveragePlan.coverageSearch e |>
             <| cy_bootstrap := CoveragePlan.bootstrapCoverageSearch e |>
             <| cy_moments := CoveragePlan.moments e |>
             <| cy_preview := (cy_preview w) <| p_scheduler := CoveragePlan.en_placement e |> |> in
  match r with inl e => (inl (Covering e), w) | inr a => (inr a, w) end.

(** The preview's scheduler works; [budget] is how many checks pass before the context
    ends. *)
Definition placing {A : Type} (budget : option nat) (m : M A) : Cycle A := fun w =>
  let '(r, s) := m {| sched := p_scheduler (cy_preview w); budget := budget |} in
  let w := w <| cy_preview := (cy_preview w) <| p_scheduler := sched s |> |> in
  match r with inl e => (inl (Placing e), w) | inr a => (inr a, w) end.

Definition placing_in_context {A : Type} (m : M A) : Cycle A :=
  moment <- covering CoveragePlan.next_moment ;;
  placing (CoveragePlan.m_checks moment) m.

Definition rendering {A : Type} (x : RenderError + A) : Cycle A :=
  match x with inl e => raise (Rendering_ e) | inr a => ret a end.

Definition store_failed (e : StoreError) : CycleError := Publishing (EnginePublish.StoreFailed e).

(** ** Reading *)

(** The gate and the deadline of the caller come first. *)
Definition updateActivity (now : Time) : Cycle unit :=
  covering CoveragePlan.check_ctx ;;;
  covering CoveragePlan.check_ctx ;;;
  answer <- get (fun w => activity env (EnginePublish.w_calls (cy_publish w))) ;;
  peers <- required answer (Publishing EnginePublish.AgentFailed) ;;
  clients <- store ListClients ;;
  let byKey := index_by (fun c => cl_public_key (cli_row c)) clients in
  forM peers (fun peer =>
    match byKey !! pe_PublicKey peer with
    | None => ret tt
    | Some client => store (fun o => RecordPeerActivity o (cli_ID client) now peer)
    end).

(** The evidence is judged at the time at which it was read. *)
Definition loadRouteCandidateSnapshot (now : Time) (referenced : list string) (profiles : list Profile) :
    Cycle RouteCandidateSnapshot :=
  evidence <- store (fun o => LoadRoutingEvidenceSnapshot o referenced) ;;
  spent <- get (fun w => elapsed env (EnginePublish.w_calls (cy_publish w))) ;;
  ret (take_routes options (now + spent) evidence profiles
         (fun _ => map_range 0 (healths_of (rs_Candidates evidence)))).

Definition read_inputs (now : Time) (profiles : list Profile) : Cycle CycleInputs :=
  store RebaseUnsafeDesiredPlan ;;;
  updateActivity now ;;;
  clients <- store ListClients ;;
  assignments <- store ListAssignments ;;
  state <- store LoadPlanState ;;
  mappings <- store ListAppliedReserveMappings ;;
  applied <- publishing (StoreTables.lift (EnginePublish.appliedPrimaryAssignments state)) ;;
  let referenced : gset string := list_to_set (assigned_candidates assignments ++
    EnginePublish.candidateReferencesFromPlan (st_DesiredPlan state) ++
    EnginePublish.candidateReferencesFromPlan (st_AppliedPlan state)) in
  snapshot <- loadRouteCandidateSnapshot now (elements referenced) profiles ;;
  ret {| ci_clients := clients; ci_assignments := assignments; ci_state := state;
         ci_reserves := applied_reserves_of mappings.2; ci_applied := applied;
         ci_referenced := referenced; ci_snapshot := snapshot |}.

(** ** Placing *)

(** The clients to place, the aliases of the idle ones, and whether some client is or
    was idle. *)
Definition reserve_clients (now : Time) (i : CycleInputs) :
    Cycle (list Client * gmap string string * bool) :=
  if negb (clientReservations options) then ret (schedule_clients i, ∅, false)
  else
    previous <- required (dormantClients (ci_state i)) DormantPlan ;;
    let (clients, recovery) := wake_clients i now previous
      (placementCandidates (ci_snapshot i)) [] (schedule_clients i) false in
    let (clients, aliases) := collapseDormantClients clients in
    ret (clients, aliases, recovery).

(** Whether a plan without a complete cover may be published. *)
Definition may_degrade (now : Time) (reason : PlacementReason) (i : CycleInputs) (recovery : bool)
    (clients : list Client) (candidates : list Candidate) : Cycle bool :=
  if recovery ||
     canRecoverStaticallyBlockedAppliedTransport (ci_state i) clients candidates critical_limit ||
     canRecoverDegradedAssignedTransport clients candidates
  then ret true
  else if str_eqb reason PlacementManual
  then placing None (canRecoverManualAssignedTransport now clients candidates)
  else ret false.

(** [isActiveCriticalCoverageError]. *)
Definition isActiveCriticalCoverageError (e : CycleError) : bool :=
  match e with Covering (Incomplete _) => true | _ => false end.

Definition scheduled_candidates (now : Time) (degraded_ : bool) (clients : list Client)
    (candidates : list Candidate) : Cycle (list Candidate) := fun w =>
  match covering (CoveragePlan.scheduleCandidatesForCycle (ce_active env) (ce_bootstrap env)
                    now clients candidates) w with
  | (inl e, w) =>
      if degraded_ && isActiveCriticalCoverageError e
      then (inr (boundedDegradedAvailabilityCandidates clients candidates critical_limit), w)
      else (inl e, w)
  | r => r
  end.

Definition select_reserves (now : Time) (i : CycleInputs) (candidates : list Candidate)
    (placed : list (string * Assignment)) : Cycle (gmap string ReserveSelection) :=
  foldM (fun m '(client, a) =>
    selected <- placing_in_context (SelectReservesContext now client a candidates
                  (default zero_reserve (ci_reserves i !! client))) ;;
    ret (<[client := selected]> m)) ∅ placed.

Definition check_capacity (now : Time) (degraded_ : bool) (clients : list Client)
    (candidates : list Candidate) (placed : gmap string Assignment)
    (reserves : gmap string ReserveSelection) : Cycle unit :=
  if critical_limit <=? 0 then ret tt
  else
    missing <- placing_in_context (validateScheduledCriticalCapacity now critical_limit clients
                 candidates placed reserves) ;;
    match missing with
    | Some e => if degraded_ then ret tt else raise (Covering (Incomplete e))
    | None => ret tt
    end.

(** A placement, with the reserves of the clients; none when an applied route cannot be
    rebuilt and the applied generation stays. *)
Definition place_clients (now : Time) (reason : PlacementReason) (i : CycleInputs) :
    Cycle (option (gmap string Assignment * gmap string ReserveSelection)) :=
  reserved <- reserve_clients now i ;;
  let '(clients, aliases, recovery) := reserved in
  serving <- placing_in_context (servingPrimaries critical_limit now reason (ci_snapshot i)
               (map snd (map_range 1 (allByID (ci_snapshot i)))) clients) ;;
  let (clients, candidates) := serving in
  degraded_ <- may_degrade now reason i recovery clients candidates ;;
  candidates <- scheduled_candidates now degraded_ clients candidates ;;
  placement <- placing None (ScheduleContextWithOptions now clients candidates
                 {| SuppressQualityMoves := negb (str_eqb reason PlacementPeriodic) |}) ;;
  let placed := preserveLastKnownGoodWithoutReplacement i clients (Assignments placement) in
  match omap (cold_client i placed) clients with
  | id :: _ => raise (Rendering_ (TorProfileUnavailable id))
  | [] =>
      if existsb (vanished i) (map_range 2 placed) then ret None
      else
        reserves <- select_reserves now i candidates (map_range 3 placed) ;;
        check_capacity now degraded_ clients candidates placed reserves ;;;
        let aliases := map_range 4 aliases in
        ret (Some (spread no_assignment aliases placed, spread zero_reserve aliases reserves))
  end.

(** ** Rendering and publishing *)

Definition placed_list (n : nat) (placed : gmap string Assignment)
    (reserves : gmap string ReserveSelection) : list (string * Assignment * ReserveSelection) :=
  map (fun '(client, a) => (client, a, default zero_reserve (reserves !! client))) (map_range n placed).

Definition publish_placement (now : Time) (reason : PlacementReason) (i : CycleInputs)
    (fence : option EnginePublish.planProfileFence) (placed : gmap string Assignment)
    (reserves : gmap string ReserveSelection) : Cycle unit :=
  let s := ci_snapshot i in
  expected <- rendering (expect_candidates (rowsByID s) (evidenceByCandidate s) (ci_referenced i)
                (placed_list 5 placed reserves)) ;;
  rendered <- rendering (render_clients options torSecret now (rowsByID s) (payloadByCandidate s)
                (profilesByCandidate s) (client_by_id i) (placed_list 6 placed reserves)) ;;
  let plan := rendered_plan options (map snd (map_range 7 (rd_outbounds rendered))) rendered in
  preview <- get cy_preview ;;
  publishing (EnginePublish.publish_cycle (ce_publish env) plan (ci_state i) reason
    (rd_updates rendered ++ flat_map (paused_update now) (ci_clients i)) (inventoryEpoch s)
    (map snd (map_range 8 expected)) (rd_mappings rendered) preview fence).

Definition cycleOnce (now : Time) (reason : PlacementReason) (profiles : list Profile)
    (fence : option EnginePublish.planProfileFence) : Cycle unit :=
  i <- read_inputs now profiles ;;
  placement <- place_clients now reason i ;;
  match placement with
  | None => ret tt
  | Some (placed, reserves) => publish_placement now reason i fence placed reserves
  end.

(** ** Attempts *)

(** The inventory, the evidence or the scheduler changed under the cycle. *)
Definition overtaken (e : CycleError) : bool :=
  match e with
  | Publishing (EnginePublish.StoreFailed CandidateInventoryChanged)
  | Publishing (EnginePublish.StoreFailed (CandidateEvidenceChanged _))
  | Publishing EnginePublish.ProfilesChanged
  | Publishing (EnginePublish.PreviewFailed ErrPreviewChanged)
  | Rendering_ EvidenceMissing | Rendering_ InventoryMissing => true
  | _ => false
  end.

(** What ends the attempts: the cycle is done, or a confirmed failure takes over. *)
Inductive Attempted := CycleDone | FailurePending.

(** Every attempt works on a new preview; the last one answers with its error. *)
Fixpoint cycle_attempts (n : nat) (now : Time) (reason : PlacementReason) (profiles : list Profile)
    (fence : option EnginePublish.planProfileFence) (reconcileRecovery : bool) : Cycle Attempted :=
  match n with
  | O => ret CycleDone
  | S n =>
      pending <- store PendingRouteRecoveries ;;
      if negb (bool_decide (pending = [])) && negb reconcileRecovery then ret FailurePending
      else
        modify (fun w => w <| cy_preview := BeginPreview (EnginePublish.w_sched (cy_publish w)) |>) ;;;
        (fun w =>
           match cycleOnce now reason profiles fence w with
           | (inl e, w) =>
               if overtaken e && negb (Nat.eqb n 0)
               then cycle_attempts n now reason profiles fence reconcileRecovery w
               else (inl e, w)
           | (inr _, w) => (inr CycleDone, w)
           end)
  end.

Definition maxInventoryAttempts : nat := 3.
End Cycle.
