(* ===== verification/EngineCycleSafety.v ===== *)
(** What a cycle places (EngineCycle.v): whatever the retained searches hold and
    whenever the contexts end, each client stays where it is, loses its route, or moves
    to a route that the evidence of this very cycle proves; an idle client that is not
    placed itself gets the route of the one idle client that is. *)
From Stdlib Require Import String Floats.
From S2P Require Import Prelude Effects GoOrder GoStrings GoSort QoE DataPlan DataChange Gateway Handlers XrayConfig PlacementQueue StoreTables StoreSample RouteRecovery PlanStore RoutingSnapshot CandidateState.
From S2P Require EnginePublish EngineSample CoveragePlan.
From S2P Require Import RouteCandidates PlanRendering SchedLoad SchedState SchedReserves Scheduling PlanningKey Coverage CoverageSearch Reservations RouteSafety EngineCycle.

#[local] Open Scope Z_scope.
#[local] Open Scope effect_scope.

(** ** Maps and lists *)

Lemma NoDup_key_eq {A : Type} (key : A -> string) l x y :
  NoDup (map key l) -> In x l -> In y l -> key x = key y -> x = y.
Proof.
  induction l as [|z l IH]; [done|]. cbn [map]. intros [Hz Hnd]%NoDup_cons.
  rewrite list_elem_of_In, in_map_iff in Hz.
  intros [->|Hx] [->|Hy] E; eauto; exfalso; apply Hz; eauto.
Qed.

(** An alias gets what its representative got; nobody else changes. *)
Lemma spread_lookup {A : Type} (zero : A) aliases m id :
  NoDup (map fst aliases) -> (forall c r, In (c, r) aliases -> ~ In r (map fst aliases)) ->
  (~ In id (map fst aliases) -> spread zero aliases m !! id = m !! id) /\
  forall r, In (id, r) aliases -> spread zero aliases m !! id = Some (default zero (m !! r)).
Proof.
  unfold spread. intros Hnd Happ.
  assert (forall m : gmap string A, (forall c r, In (c, r) aliases -> ~ In r (map fst aliases)) ->
    (~ In id (map fst aliases) -> fold_left (fun m '(client, representative) =>
       <[client := default zero (m !! representative)]> m) aliases m !! id = m !! id) /\
    forall r, In (id, r) aliases -> fold_left (fun m '(client, representative) =>
       <[client := default zero (m !! representative)]> m) aliases m !! id =
       Some (default zero (m !! r))) as H; [|by apply H].
  clear m Happ. induction aliases as [|[c r] l IH]; intros m Happ; [by split|].
  cbn [map fst] in Hnd. apply NoDup_cons in Hnd as [Hc Hnd]. rewrite list_elem_of_In in Hc.
  cbn [map fst fold_left In].
  assert (forall c' r', In (c', r') l -> ~ In r' (map fst l)) as Hl.
  { intros c' r' Hin Hr. apply (Happ c' r'); [by right|by right]. }
  destruct (IH Hnd (<[c := default zero (m !! r)]> m) Hl) as [H1 H2]. split.
  - intros Hn. rewrite H1 by tauto. rewrite lookup_insert_ne; [done|tauto].
  - intros r' [[= -> ->]|Hin].
    + rewrite H1 by done. by rewrite lookup_insert_eq.
    + rewrite (H2 _ Hin). rewrite lookup_insert_ne; [done|]. intros <-.
      apply (Happ id c); [by right|by left].
Qed.

(** ** Steps of a cycle *)

Section Steps.
Context (now : Time) (s0 : Scheduler).

(** The preview excludes what [s0] excludes. *)
Definition previewing (w : CycleWorld) : Prop := alike now s0 (p_scheduler (cy_preview w)).

(** [finds m Q]: the answer of [m] satisfies [Q], and the preview stays alike, also when
    [m] fails. *)
Definition finds {A : Type} (m : Cycle A) (Q : A -> Prop) : Prop :=
  triple previewing m (fun a w => previewing w /\ Q a) (fun _ => previewing).

Abbreviation anything := (fun _ => True) (only parsing).

Lemma finds_ret {A : Type} (a : A) (Q : A -> Prop) : Q a -> finds (ret a) Q.
Proof. by intros Ha w Hw. Qed.

Lemma finds_bind {A B : Type} (m : Cycle A) (k : A -> Cycle B) (S : A -> Prop) (Q : B -> Prop) :
  finds m S -> (forall a, S a -> finds (k a) Q) -> finds (bind m k) Q.
Proof.
  intros Hm Hk. eapply triple_bind; [exact Hm|]. intros a w [Hw Ha]. by apply Hk.
Qed.

Lemma finds_required {A : Type} (o : option A) e : finds (required o e) (fun a => o = Some a).
Proof. intros w Hw. by destruct o. Qed.

Lemma finds_covering {A : Type} (m : CoveragePlan.E_ A) (Q : A -> Prop) env :
  (forall s, yields now s m Q) -> finds (covering env m) Q.
Proof.
  intros Hm w Hw. unfold covering.
  set (e0 := {| CoveragePlan.activeCriticalRouteLimit := _ |}).
  specialize (Hm s0 e0 Hw). destruct (m e0) as [[e|a] e1]; [done|].
  destruct Hm as [He Ha]. by split.
Qed.

Lemma finds_placing {A : Type} budget (m : M A) (Q : A -> Prop) :
  (forall s, triple (looked now s) m (fun a w => looked now s w /\ Q a) (fun _ => looked now s)) ->
  finds (placing budget m) Q.
Proof.
  intros Hm w Hw. unfold placing.
  set (w1 := {| sched := p_scheduler (cy_preview w) |}).
  specialize (Hm (p_scheduler (cy_preview w)) w1).
  assert (forall w2 : World, looked now (p_scheduler (cy_preview w)) w2 ->
    alike now s0 (sched w2)) as Hk.
  { intros w2 Hw2. eapply alike_trans; [exact Hw|]. by apply kept_alike. }
  destruct (m w1) as [[e|a] w2]; [by apply Hk, Hm|]. destruct Hm as [Hm Ha]; [done|].
  split; [by apply Hk|done].
Qed.

Lemma finds_careful {A : Type} budget (m : M A) : careful now m -> finds (placing budget m) anything.
Proof.
  intros Hm. apply finds_placing. intros s.
  eapply triple_conseq; [by apply careful_triple|done|by intros|done].
Qed.

Lemma finds_in_context {A : Type} env (m : M A) (Q : A -> Prop) :
  (forall s, triple (looked now s) m (fun a w => looked now s w /\ Q a) (fun _ => looked now s)) ->
  finds (placing_in_context env m) Q.
Proof.
  intros Hm. unfold placing_in_context. eapply finds_bind with (S := anything).
  - apply finds_covering. intros s. apply yields_moment.
  - intros moment _. by apply finds_placing.
Qed.
End Steps.

(** ** Clients on their way through a cycle *)

(** The same client, with less of its routes. *)
Definition lessened (c c' : Client) : Prop :=
  clientID c' = clientID c /\
  (TCP (assignment c') = EmptyString \/ TCP (assignment c') = TCP (assignment c)) /\
  (UDP (assignment c') = EmptyString \/ UDP (assignment c') = UDP (assignment c)).

Lemma returning_lessened now client clients candidates :
  let a := returningAssignment now client clients candidates in
  (TCP a = EmptyString \/ TCP a = TCP (assignment client)) /\
  (UDP a = EmptyString \/ UDP a = UDP (assignment client)).
Proof. unfold returningAssignment. cbv zeta. repeat case_match; cbn; auto. Qed.

Section Woken.
Context (i : CycleInputs) (now : Time).

(** Idle exactly when its record holds no reservation. *)
Definition woken (c c' : Client) : Prop :=
  lessened c c' /\
  Dormant c' = negb (from_option (RouteReserved now) false (client_by_id i !! clientID c)).

Lemma wake_clients_woken previous candidates rest done_ recovery :
  exists l, (wake_clients i now previous candidates done_ rest recovery).1 = done_ ++ l /\
    Forall2 woken rest l.
Proof.
  revert done_ recovery. induction rest as [|c rest IH]; intros done_ recovery; cbn [wake_clients].
  { exists []. by rewrite app_nil_r. }
  match goal with |- context [wake_clients _ _ _ _ (done_ ++ [?c']) rest ?r] =>
    set (client := c'); destruct (IH (done_ ++ [client]) r) as (l & E & Hl) end.
  exists (client :: l). rewrite E, <- app_assoc. split; [done|]. constructor; [|done].
  subst client. set (reserved := from_option _ _ _).
  destruct (reserved && _); cbn.
  - pose proof (returning_lessened now (c <| Dormant := negb reserved |>)
      (done_ ++ c <| Dormant := negb reserved |> :: rest) candidates) as [H1 H2].
    split; [split_and!; [done|exact H1|exact H2]|done].
  - split; [split_and!; auto|done].
Qed.
End Woken.

Lemma pinned_ids l l' : Forall2 pinned l l' -> map clientID l' = map clientID l.
Proof. induction 1 as [|c c' ? ? (t & u & ->) _ IH]; [done|]. cbn [map]. by rewrite IH. Qed.

(** The last good route is a current route. *)
Lemma preserve_invariant i clients placed (P : string -> Assignment -> Prop) :
  (forall c t u a, In c clients -> P (clientID c) a ->
     (t = TCP a \/ t = TCP (assignment c)) -> (u = UDP a \/ u = UDP (assignment c)) ->
     forall a', TCP a' = t -> UDP a' = u -> P (clientID c) a') ->
  (forall id a, placed !! id = Some a -> P id a) ->
  let placed' := preserveLastKnownGoodWithoutReplacement i clients placed in
  (forall id, is_Some (placed' !! id) <-> is_Some (placed !! id)) /\
  (forall id a, placed' !! id = Some a -> P id a).
Proof.
  unfold preserveLastKnownGoodWithoutReplacement. intros HP. cbv zeta. revert placed.
  induction clients as [|c l IH]; intros placed Hpl; cbn [fold_left]; [done|].
  assert ((forall id, is_Some (preserve_client i placed c !! id) <-> is_Some (placed !! id)) /\
          (forall id a, preserve_client i placed c !! id = Some a -> P id a)) as [H1 H2].
  { unfold preserve_client. destruct (Dormant c); [done|].
    destruct (placed !! clientID c) as [planned|] eqn:E; [|done]. cbv zeta.
    match goal with |- context [<[clientID c := ?a]> placed] => set (a' := a) end. split.
    - intros id. rewrite lookup_insert_is_Some'. split; [|by right]. intros [<-|?]; [|done]. by rewrite E.
    - intros id a. rewrite lookup_insert_Some. intros [[<- <-]|[_ Ha]]; [|by apply Hpl].
      eapply HP; [by left|by apply Hpl| | |reflexivity|reflexivity]; subst a'; repeat case_match; cbn; auto. }
  destruct (IH (fun c t u a Hc => HP c t u a (or_intror Hc)) _ H2) as [H3 H4].
  split; [|done]. intros id. by rewrite H3.
Qed.

Lemma careful_manual now clients candidates :
  careful now (canRecoverManualAssignedTransport now clients candidates).
Proof.
  assert (forall client id network l, careful now (has_replacement now client id network l)) as Hr.
  { intros client id network l. induction l as [|c l IH]; cbn [has_replacement]; careful; done. }
  unfold canRecoverManualAssignedTransport. generalize false.
  induction (transports clients) as [|[[client network] id] l IH]; intros found; cbn [manual_loop];
    [careful|].
  apply careful_if; [done|]. apply careful_bind; [apply careful_excluded|]. intros barred.
  apply careful_if; [done|]. apply careful_bind; [done|]. intros replaced.
  apply careful_if; [done|careful].
Qed.

(** Steps whose effect no longer matters. *)
Lemma triple_whatever {A : Type} (m : Cycle A) : triple (fun _ => True) m (fun _ _ => True) (fun _ _ => True).
Proof. intros w _. by destruct (m w) as [[e|a] w']. Qed.

(** ** A placement *)

(** What a cycle has read: clients by distinct names, and routes taken from evidence. *)
Record inputs_ok `{TextLib} (options : EngineOptions) (read : Time)
    (evidence : list CandidateRoutingEvidence) (profiles : list Profile) (i : CycleInputs) : Prop := {
  io_distinct : NoDup (map cli_ID (ci_clients i));
  io_named : forall r, In r (ci_clients i) -> cli_ID r <> EmptyString;
  io_evidence : evidence_ok evidence;
  io_snapshot : exists epoch range,
    range (map_to_list (healths_of evidence)) ≡ₚ map_to_list (healths_of evidence) /\
    ci_snapshot i = take_routes options read
      {| rs_Candidates := evidence; rs_InventoryEpoch := epoch |} profiles range
}.

Section Placement.
Context `{PC : PlanCodec} `{EN : Encoding} `{TX : TextLib} `{MR : MapRange} `{ML : !MapRangeLaws}.
Context (env : CycleEnv) (options : EngineOptions) (now : Time) (reason : PlacementReason) (i : CycleInputs).
Context (read : Time) (evidence : list CandidateRoutingEvidence) (profiles : list Profile).
Hypothesis Hi : inputs_ok options read evidence profiles i.

(** The routes that the store holds for a client. *)
Definition stored (r : ClientRecord) : AssignmentRecord :=
  default zero_record (index_by as_ClientID (ci_assignments i) !! cli_ID r).

Definition playing (r : ClientRecord) : Prop := In r (ci_clients i) /\ cl_paused (cli_row r) = false.

(** A route that the evidence proves and that is not excluded for the client. *)
Definition admissible (s : Scheduler) (r : ClientRecord) (network id : string) : Prop :=
  proven options evidence profiles network id /\ (cli_ID r, id) ∉ excl_set now s.

(** A transport stays, ends, or moves to an admissible route; TCP may also join the
    UDP route of its client. *)
Record moves_soundly (s : Scheduler) (r : ClientRecord) (a : Assignment) : Prop := {
  ms_tcp : TCP a = EmptyString \/ TCP a = as_TCPOutbound (stored r) \/
           TCP a = as_UDPOutbound (stored r) \/ admissible s r tcp (TCP a);
  ms_udp : UDP a = EmptyString \/ UDP a = as_UDPOutbound (stored r) \/ admissible s r udp (UDP a)
}.

(** Exactly the clients that are not paused are placed; an idle one may have the route
    of another idle one. *)
Record placement_ok (s : Scheduler) (placed : gmap string Assignment) : Prop := {
  po_who : forall id, is_Some (placed !! id) <-> exists r, playing r /\ cli_ID r = id;
  po_moves : forall r, playing r -> exists a d, placed !! cli_ID r = Some a /\ playing d /\
    (d = r \/ RouteReserved now r = false /\ RouteReserved now d = false) /\ moves_soundly s d a
}.

Lemma scheduled c : In c (schedule_clients i) <-> exists r, playing r /\ c = schedule_client i r.
Proof.
  unfold schedule_clients, playing. rewrite in_map_iff. setoid_rewrite filter_In.
  setoid_rewrite negb_true_iff. naive_solver.
Qed.

Lemma scheduled_distinct : NoDup (map clientID (schedule_clients i)).
Proof.
  unfold schedule_clients. rewrite map_map. cbn [clientID schedule_client].
  pose proof (io_distinct _ _ _ _ _ Hi) as Hnd. revert Hnd. generalize (ci_clients i).
  induction l as [|r l IH]; cbn [map List.filter]; [done|]. intros [Hn Hnd]%NoDup_cons.
  destruct (negb _); [|by apply IH]. cbn [map]. apply NoDup_cons. split; [|by apply IH].
  rewrite list_elem_of_In, in_map_iff in *. intros (c & ? & [? _]%filter_In). apply Hn. eauto.
Qed.

Lemma record_of r : In r (ci_clients i) -> client_by_id i !! cli_ID r = Some r.
Proof.
  intros Hr. apply index_by_unique; [apply (io_distinct _ _ _ _ _ Hi)|done].
Qed.

(** A client that is placed, seen as one that was scheduled. *)
Definition roused (c c' : Client) : Prop :=
  lessened c c' /\
  (Dormant c' = true -> from_option (RouteReserved now) false (client_by_id i !! clientID c) = false).

Definition reserved_ok (kept : list Client) (aliases : gmap string string) : Prop :=
  exists l, Forall2 roused (schedule_clients i) l /\ one_idle l kept aliases.

Lemma reserve_clients_ok s0 : finds now s0 (reserve_clients options now i)
  (fun r => reserved_ok r.1.1 r.1.2).
Proof.
  unfold reserve_clients. apply triple_if; intros _.
  - apply finds_ret. cbn. exists (schedule_clients i). split.
    + apply Forall2_same_length_lookup. split; [done|]. intros n c c' Hc Hc'.
      assert (c' = c) as -> by congruence. split; [split_and!; auto|].
      apply list_elem_of_lookup_2, list_elem_of_In, scheduled in Hc as (r & _ & ->). done.
    + assert (forall c, In c (schedule_clients i) -> Dormant c = false) as Hd.
      { intros c (r & _ & ->)%scheduled. done. }
      split; [apply scheduled_distinct|apply incl_refl|done| | |].
      * intros c d Hc _ E. by rewrite Hd in E.
      * intros c Hc E. by rewrite Hd in E.
      * intros id r. by rewrite lookup_empty.
  - eapply finds_bind; [apply finds_required|]. intros previous _.
    destruct (wake_clients _ _ _ _ _ _ _) as [clients recovery] eqn:Ew.
    destruct (wake_clients_woken i now previous (placementCandidates (ci_snapshot i))
      (schedule_clients i) [] false) as (l & El & Hl). rewrite Ew in El. cbn in El. subst l.
    destruct (collapseDormantClients clients) as [kept aliases] eqn:Ec.
    apply finds_ret. cbn. exists clients. split.
    + eapply Forall2_impl; [exact Hl|]. intros c c' [Hless Hd]. split; [done|].
      rewrite Hd. by rewrite negb_true_iff.
    + assert (map clientID clients = map clientID (schedule_clients i)) as Hids.
      { clear -Hl. induction Hl as [|c c' l l' [(E & _) _] _ IH]; [done|]. cbn [map]. by rewrite E, IH. }
      apply collapse_one_idle; [|intros c Hc|done]; [by rewrite Hids; apply scheduled_distinct|].
      apply (in_map clientID) in Hc. rewrite Hids in Hc. apply in_map_iff in Hc as (c' & <- & Hc').
      apply scheduled in Hc' as (r & [Hr _] & ->). by apply (io_named _ _ _ _ _ Hi).
Qed.

Lemma serving_ok_here s0 limit admission clients budget : finds now s0
  (placing budget (servingPrimaries limit now reason (ci_snapshot i) admission clients))
  (fun r => Forall2 pinned clients r.1 /\ identified r.2 /\
     forall c, In c r.2 -> ServingOnly c = false -> In c (placementCandidates (ci_snapshot i))).
Proof.
  apply finds_placing. intros s.
  destruct (io_snapshot _ _ _ _ _ Hi) as (epoch & range & Hrange & E).
  eapply triple_conseq; [apply serving_primaries_ok|done| |done].
  - rewrite E. apply take_routes_ok; [apply (io_evidence _ _ _ _ _ Hi)|done].
  - intros r w (Hw & Hp & Hnd & Hne & Hf). split; [done|]. split_and!; [done| |done].
    by apply well_identified_identified.
Qed.

Lemma may_degrade_ok s0 recovery clients candidates :
  finds now s0 (may_degrade env now reason i recovery clients candidates) (fun _ => True).
Proof.
  unfold may_degrade. apply triple_if; intros _; [by apply finds_ret|].
  apply triple_if; intros _; [|by apply finds_ret]. apply finds_careful, careful_manual.
Qed.

Lemma scheduled_candidates_ok s0 degraded_ clients candidates :
  finds now s0 (scheduled_candidates env now degraded_ clients candidates) (fun l => incl l candidates).
Proof.
  intros w Hw. unfold scheduled_candidates.
  set (planner := covering env _).
  assert (finds now s0 planner (fun l => incl l candidates)) as Hp
    by (apply finds_covering; intros s; apply yields_cycle).
  specialize (Hp w Hw). destruct (planner w) as [[e|l] w'] eqn:E; [|done].
  destruct (_ && _); [|done]. split; [done|].
  unfold boundedDegradedAvailabilityCandidates. destruct (_ <=? 0); [apply incl_refl|].
  intros c Hc%list_elem_of_In%elem_of_take. destruct Hc as (n & Hn & _).
  apply list_elem_of_lookup_2 in Hn. rewrite sort_slice_Permutation in Hn.
  by apply list_elem_of_In, filter_In in Hn as [? _].
Qed.

Lemma admitted_alike s0 s c network (route : SchedLoad.Candidate) : alike now s0 s -> ID route <> EmptyString ->
  admitted (excl_set now s) c network route -> admitted (excl_set now s0) c network route.
Proof. intros Ha Hne (H1 & H2 & H3 & H4). split_and!; [done..|]. by rewrite <- (al_excluded _ _ _ Ha). Qed.

Lemma schedule_ok s0 clients candidates opts : NoDup (map clientID clients) -> Scheduling.identified candidates ->
  triple (previewing now s0) (placing None (ScheduleContextWithOptions now clients candidates opts))
    (fun result _ => (forall id, is_Some (Assignments result !! id) <-> In id (map clientID clients)) /\
       forall c, In c clients -> exists a, Assignments result !! clientID c = Some a /\
         tcp_ok (excl_set now s0) candidates c (TCP a) /\ udp_ok (excl_set now s0) candidates c (UDP a))
    (fun _ _ => True).
Proof.
  intros Hnd Hc w Hw. unfold placing. set (w1 := {| sched := p_scheduler (cy_preview w) |}).
  destruct (entry_returns now opts clients candidates (sched w1) Hnd Hc w1 eq_refl eq_refl)
    as (result & w2 & E & rd & HA & _ & [H1 H2 _]).
  rewrite E, HA. split; [done|]. intros c Hin. destruct (H2 c Hin) as (a & Ha & [Ht Hu _ _] & _).
  exists a. split; [done|]. split.
  - destruct Ht as [?|[?|(x & Hx & Hid & Hadm & Hs)]]; [by left|right; by left|]. right; right.
    exists x. split_and!; [done|done| |done]. eapply admitted_alike; [exact Hw|by apply Hc|done].
  - destruct Hu as [?|[?|(x & Hx & Hid & Hadm & Hs)]]; [by left|right; by left|]. right; right.
    exists x. split_and!; [done|done| |done]. eapply admitted_alike; [exact Hw|by apply Hc|done].
Qed.

(** A client on its way, and its record. *)
Record follows (r : ClientRecord) (c : Client) : Prop := {
  fo_id : clientID c = cli_ID r;
  fo_tcp : TCP (assignment c) = EmptyString \/ TCP (assignment c) = as_TCPOutbound (stored r);
  fo_udp : UDP (assignment c) = EmptyString \/ UDP (assignment c) = as_UDPOutbound (stored r);
  fo_idle : Dormant c = true -> RouteReserved now r = false
}.

Lemma roused_follows r c : playing r -> roused (schedule_client i r) c -> follows r c.
Proof.
  intros [Hr _] [(Hid & Ht & Hu) Hd]. split; [done|exact Ht|exact Hu|].
  intros E. specialize (Hd E). cbn [clientID schedule_client] in Hd. by rewrite record_of in Hd.
Qed.

Lemma pinned_follows r c c' : pinned c c' -> follows r c -> follows r c'.
Proof. intros (t & u & ->) [H1 H2 H3 H4]. by split. Qed.

Lemma moves_from s0 r c candidates a : follows r c -> Scheduling.identified candidates ->
  (forall x, In x candidates -> ServingOnly x = false -> In x (placementCandidates (ci_snapshot i))) ->
  tcp_ok (excl_set now s0) candidates c (TCP a) -> udp_ok (excl_set now s0) candidates c (UDP a) ->
  moves_soundly s0 r a.
Proof.
  intros [Hid Ht Hu _] Hcand Hfresh Hmt Hmu.
  destruct (io_snapshot _ _ _ _ _ Hi) as (epoch & range & Hrange & Esn).
  assert (forall network x, network = tcp \/ network = udp -> In x candidates -> ServingOnly x = false ->
    admitted (excl_set now s0) c network x -> admissible s0 r network (ID x)) as Hadm.
  { intros network x Hnet Hx Hs (Hret & _ & Hq & Hex). split; [|by rewrite <- Hid].
    specialize (Hfresh x Hx Hs). rewrite Esn in Hfresh.
    by eapply placement_proven; [apply (io_evidence _ _ _ _ _ Hi)|exact Hrange|exact Hfresh|..]. }
  split.
  - destruct Hmt as [->|[->|(x & Hx & <- & Ha & Hs)]]; [tauto|by left|].
    destruct (ServingOnly x) eqn:E; [rewrite (Hs eq_refl); tauto|].
    right; right; right. apply Hadm; auto.
  - destruct Hmu as [->|[->|(x & Hx & <- & Ha & Hs)]]; [tauto|by left|].
    right; right. apply Hadm; auto.
Qed.

(** What the scheduler and the last good routes answer for the clients they get. *)
Record round_placed (s0 : Scheduler) (clients : list Client) (placed : gmap string Assignment) : Prop := {
  rp_who : forall id, is_Some (placed !! id) <-> In id (map clientID clients);
  rp_moves : forall c r a, In c clients -> follows r c -> placed !! clientID c = Some a ->
    moves_soundly s0 r a
}.

Lemma preserved_round s0 clients candidates placed :
  NoDup (map clientID clients) -> Scheduling.identified candidates ->
  (forall x, In x candidates -> ServingOnly x = false -> In x (placementCandidates (ci_snapshot i))) ->
  (forall id, is_Some (placed !! id) <-> In id (map clientID clients)) ->
  (forall c, In c clients -> exists a, placed !! clientID c = Some a /\
     tcp_ok (excl_set now s0) candidates c (TCP a) /\ udp_ok (excl_set now s0) candidates c (UDP a)) ->
  round_placed s0 clients (preserveLastKnownGoodWithoutReplacement i clients placed).
Proof.
  intros Hnd Hcand Hfresh Hwho Hmoves.
  destruct (preserve_invariant i clients placed (fun id a => forall c, In c clients -> clientID c = id ->
    tcp_ok (excl_set now s0) candidates c (TCP a) /\ udp_ok (excl_set now s0) candidates c (UDP a)))
    as [H1 H2].
  - intros c t u a Hc HP Ht Hu a' <- <- c' Hc' E.
    destruct (HP c' Hc' E) as [Hpt Hpu].
    assert (c' = c) as -> by (by eapply NoDup_key_eq with (key := clientID)).
    split; [destruct Ht as [->| ->]; [done|by left]|destruct Hu as [->| ->]; [done|by left]].
  - intros id a Ha c Hc <-. destruct (Hmoves c Hc) as (a' & Ha' & ?). by simplify_eq.
  - split; [intros id; by rewrite H1|]. intros c r a Hc Hf Ha.
    destruct (H2 _ _ Ha c Hc eq_refl) as [Ht Hu]. by eapply moves_from.
Qed.

(** ** Representatives and aliases *)

Section Spread.
Context (s0 : Scheduler) (kept clients : list Client) (aliases : gmap string string)
  (placed : gmap string Assignment) (n : nat).
Hypothesis (Hkept : reserved_ok kept aliases) (Hpinned : Forall2 pinned kept clients).
Hypothesis Hplaced : round_placed s0 clients placed.

Abbreviation spread_ := (spread no_assignment (map_range n aliases) placed).

Lemma ranged_aliases c r : In (c, r) (map_range n aliases) <-> aliases !! c = Some r.
Proof. rewrite <- list_elem_of_In, map_range_perm. apply elem_of_map_to_list. Qed.

Lemma alias_keys c : In c (map fst (map_range n aliases)) <-> is_Some (aliases !! c).
Proof.
  rewrite in_map_iff. split.
  - intros ([x r] & <- & Hx%ranged_aliases). by exists r.
  - intros [r Hr%ranged_aliases]. by exists (c, r).
Qed.

Lemma alias_apart c r : aliases !! c = Some r -> ~ In c (map clientID kept).
Proof. destruct Hkept as (l & _ & Hone). by intros [? _]%(oi_apart _ _ _ Hone). Qed.

Lemma alias_pairs : NoDup (map fst (map_range n aliases)) /\
  forall c r, In (c, r) (map_range n aliases) -> ~ In r (map fst (map_range n aliases)).
Proof.
  split.
  - change (map fst ?l) with (l.*1). rewrite map_range_perm. apply NoDup_fst_map_to_list.
  - intros c r Hr%ranged_aliases [r' Hr']%alias_keys. destruct Hkept as (l & _ & Hone).
    apply (oi_apart _ _ _ Hone) in Hr as (_ & _ & d & Hd & _ & <-).
    by apply (alias_apart _ _ Hr'), in_map.
Qed.

Lemma kept_record c : In c kept -> exists r, playing r /\ follows r c.
Proof.
  destruct Hkept as (l & Hl & Hone). intros Hc%(oi_incl _ _ _ Hone).
  destruct (Forall2_In_r _ _ _ _ Hl Hc) as (c0 & (r & Hr & ->)%scheduled & Hro).
  exists r. split; [done|]. by apply roused_follows.
Qed.

Lemma kept_ids : map clientID clients = map clientID kept.
Proof. by apply pinned_ids. Qed.

(** A representative has what the round gave it. *)
Lemma spread_kept c r : In c kept -> follows r c -> exists a, placed !! clientID c = Some a /\
  spread_ !! clientID c = Some a /\ moves_soundly s0 r a.
Proof.
  intros Hc Hf. assert (is_Some (placed !! clientID c)) as [a Ha]
    by (apply (rp_who _ _ _ Hplaced); rewrite kept_ids; by apply in_map).
  exists a. split; [done|]. destruct alias_pairs as [Hnd Hsep]. split.
  - rewrite <- Ha. apply spread_lookup; [done..|]. intros [r' Hr']%alias_keys.
    by apply (alias_apart _ _ Hr'), in_map.
  - destruct (Forall2_In_l _ _ _ _ Hpinned Hc) as (c' & Hc' & Hpin).
    apply (rp_moves _ _ _ Hplaced c' r a); [done|by eapply pinned_follows|].
    by destruct Hpin as (t & u & ->).
Qed.

(** An alias has what its representative has. *)
Lemma spread_alias id d : In d kept -> aliases !! id = Some (clientID d) ->
  spread_ !! id = placed !! clientID d.
Proof.
  intros Hd Hr. destruct (kept_record d Hd) as (r & _ & Hf).
  destruct (spread_kept d r Hd Hf) as (a & Ha & _ & _). rewrite Ha.
  destruct alias_pairs as [Hnd Hsep].
  rewrite (proj2 (spread_lookup no_assignment _ placed id Hnd Hsep) (clientID d)) by by apply ranged_aliases.
  by rewrite Ha.
Qed.

Lemma spread_moves r : playing r -> exists a d, spread_ !! cli_ID r = Some a /\ playing d /\
  (d = r \/ RouteReserved now r = false /\ RouteReserved now d = false) /\ moves_soundly s0 d a.
Proof.
  intros Hr. destruct (in_dec String.string_dec (cli_ID r) (map clientID kept)) as [Hin|Hn].
  - apply in_map_iff in Hin as (c & Hid & Hc). destruct (kept_record c Hc) as (r' & Hr' & Hf).
    assert (r' = r) as ->.
    { eapply NoDup_key_eq with (key := cli_ID); [apply (io_distinct _ _ _ _ _ Hi)|apply Hr'|apply Hr|].
      by rewrite <- (fo_id _ _ Hf). }
    destruct (spread_kept c r Hc Hf) as (a & _ & Ha & Hm). rewrite Hid in Ha.
    exists a, r. auto.
  - destruct Hkept as (l & Hl & Hone).
    destruct (Forall2_In_l _ _ _ (schedule_client i r) Hl) as (c & Hc & Hro); [apply scheduled; eauto|].
    pose proof (roused_follows r c Hr Hro) as Hf.
    assert (~ In c kept) as Hnk by (intros Hk; apply Hn; rewrite <- (fo_id _ _ Hf); by apply in_map).
    assert (Dormant c = true) as Hd.
    { destruct (Dormant c) eqn:E; [done|]. exfalso. by apply Hnk, (oi_awake _ _ _ Hone). }
    destruct (oi_alias _ _ _ Hone c Hc Hd Hnk) as (d & Hdk & Hdd & Hal).
    destruct (kept_record d Hdk) as (rd & Hrd & Hfd).
    destruct (spread_kept d rd Hdk Hfd) as (a & Ha & _ & Hm). exists a, rd.
    rewrite <- (fo_id _ _ Hf), (spread_alias _ d Hdk Hal). split_and!; [done|done| |done].
    right. split; [by apply (fo_idle _ _ Hf)|by apply (fo_idle _ _ Hfd)].
Qed.

Lemma spread_placement : placement_ok s0 spread_.
Proof.
  split; [|apply spread_moves]. intros id. split.
  - intros [a Ha]. destruct (in_dec String.string_dec id (map fst (map_range n aliases))) as [Hin|Hn].
    + apply alias_keys in Hin as [x Hx]. destruct Hkept as (l & Hl & Hone).
      destruct (oi_apart _ _ _ Hone _ _ Hx) as (_ & (c & Hc & _ & <-) & _).
      destruct (Forall2_In_r _ _ _ _ Hl Hc) as (c0 & (r & Hr & ->)%scheduled & (Hid & _) & _).
      exists r. by split.
    + destruct alias_pairs as [Hnd Hsep].
      rewrite (proj1 (spread_lookup no_assignment _ placed id Hnd Hsep) Hn) in Ha.
      assert (In id (map clientID kept)) as (c & <- & Hc)%in_map_iff
        by (rewrite <- kept_ids; apply (rp_who _ _ _ Hplaced); by exists a).
      destruct (kept_record c Hc) as (r & Hr & Hf). exists r. split; [done|]. by rewrite (fo_id _ _ Hf).
  - intros (r & Hr & <-). destruct (spread_moves r Hr) as (a & d & Ha & _). by exists a.
Qed.
End Spread.

(** ** The placement of a cycle *)

Lemma identified_fresh_incl candidates l : Scheduling.identified candidates /\
    (forall c, In c candidates -> ServingOnly c = false -> In c (placementCandidates (ci_snapshot i))) ->
  incl l candidates -> Scheduling.identified l /\
    (forall c, In c l -> ServingOnly c = false -> In c (placementCandidates (ci_snapshot i))).
Proof. intros [H1 H2] Hl. split; [by eapply identified_incl|]. intros c Hc. by apply H2, Hl. Qed.

Lemma finds_then {A B : Type} s0 (m : Cycle A) (S : A -> Prop) (k : A -> Cycle B) (Q : B -> CycleWorld -> Prop) :
  finds now s0 m S -> (forall a, S a -> triple (previewing now s0) (k a) Q (fun _ _ => True)) ->
  triple (previewing now s0) (bind m k) Q (fun _ _ => True).
Proof.
  intros Hm Hk w Hw. unfold bind. specialize (Hm w Hw).
  destruct (m w) as [[e|a] w']; [done|]. destruct Hm as [Hw' Ha]. by apply Hk.
Qed.

Lemma then_whatever {A B : Type} P (m : Cycle A) (k : A -> Cycle B) (Q : B -> CycleWorld -> Prop) :
  (forall a, triple (fun _ => True) (k a) Q (fun _ _ => True)) ->
  triple P (bind m k) Q (fun _ _ => True).
Proof. intros Hk w _. unfold bind. destruct (m w) as [[e|a] w']; [done|]. by apply Hk. Qed.

Lemma place_clients_ok s0 : triple (previewing now s0) (place_clients env options now reason i)
  (fun r _ => forall placed reserves, r = Some (placed, reserves) -> placement_ok s0 placed)
  (fun _ _ => True).
Proof.
  unfold place_clients. eapply finds_then; [apply reserve_clients_ok|].
  intros [[kept aliases] recovery] Hkept. cbn in Hkept.
  eapply finds_then with (S := fun r => Forall2 pinned kept r.1 /\ Scheduling.identified r.2 /\
    forall c, In c r.2 -> ServingOnly c = false -> In c (placementCandidates (ci_snapshot i))).
  { unfold placing_in_context. eapply finds_bind with (S := fun _ => True);
      [apply finds_covering; intros s; apply yields_moment|]. intros moment _. apply serving_ok_here. }
  intros [clients candidates] (Hp & Hcand). cbn [fst snd] in Hp, Hcand.
  eapply finds_then; [apply may_degrade_ok|]. intros degraded_ _.
  eapply finds_then; [apply scheduled_candidates_ok|]. intros l Hl.
  destruct (identified_fresh_incl _ _ Hcand Hl) as [Hid Hfresh].
  assert (NoDup (map clientID clients)) as Hnd.
  { rewrite (pinned_ids _ _ Hp). destruct Hkept as (k & _ & Hone). apply Hone. }
  eapply triple_bind; [by apply schedule_ok|]. intros result.
  eapply triple_fact; [by intros w [H1 H2]; exact (conj H1 H2)|]. intros [Hwho Hmoves]. cbv zeta.
  pose proof (preserved_round s0 _ _ _ Hnd Hid Hfresh Hwho Hmoves) as Hround.
  set (placed := preserveLastKnownGoodWithoutReplacement _ _ _) in *.
  destruct (omap _ clients) as [|id ids]; [|by intros w _].
  apply triple_if; intros _; [by intros w _|].
  apply then_whatever. intros reserves. apply then_whatever. intros _ w _ ? ? [= <- _].
  by eapply spread_placement.
Qed.

(** C1.  A cycle moves traffic to proven routes only.  Whatever the retained coverage
    searches hold, whenever the contexts end, with or without a complete cover: the
    clients that are placed are exactly those that are not paused, and each transport
    stays on the client's stored route, ends, or moves to a route that the evidence read
    in this cycle proves - available, qualified for the transport, in the working pool,
    not draining, not forbidden, a bridge with a warm profile - and that is not excluded
    for the client.  TCP may also join the UDP route of its client.  A client without a
    reservation may instead have all that one other such client has. *)
Theorem cycle_places_on_proven_routes w placed reserves w' :
  place_clients env options now reason i w = (inr (Some (placed, reserves)), w') ->
  placement_ok (p_scheduler (cy_preview w)) placed.
Proof.
  intros E. pose proof (place_clients_ok (p_scheduler (cy_preview w)) w (alike_refl _ _)) as H.
  rewrite E in H. by eapply H.
Qed.
End Placement.

(** ** On a small engine *)

#[local] Existing Instance sample_encoding.
#[local] Instance map_list_range : MapRange := fun A _ m => map_to_list m.
#[local] Instance map_list_range_laws : MapRangeLaws.
Proof. by intros A n m. Qed.
#[local] Instance plain_text : TextLib :=
  {| to_lower := fun s => s; without_sni := fun s => s; hostname := fun _ => None |}.

Definition cycle_now : Time := of_unix 1000.

Definition cycle_health (id : string) : CandidateHealth := {|
  hl_CandidateID := id; hl_Score := 1; hl_TCPQualified := true; hl_UDPQualified := true;
  hl_Available := true; hl_LatencyMS := 10; hl_ThroughputMbps := 50; hl_UpdatedAt := of_unix 990;
  hl_ActiveObservedAt := of_unix 990; hl_ActiveSuccess := true; hl_ActiveCurrent := true;
  hl_ActiveHardFailure := false |}.

Definition cycle_probe (id : string) : CandidateProbeState := {|
  ps_Fingerprint := id; ps_CandidateID := id; ps_SourceID := "s"; ps_Status := CandidateQualified;
  ps_FailureStreak := 0; ps_FullSuccessStreak := 3; ps_WindowStartedAt := of_unix 900;
  ps_BannedUntil := zero_time; ps_LastFastProbeAt := of_unix 990; ps_LastFullProbeAt := of_unix 990;
  ps_LastSuccessAt := of_unix 990; ps_LastFailureAt := zero_time; ps_LastErrorCode := EmptyString;
  ps_LastErrorMessage := EmptyString; ps_LastScore := 1; ps_ConservativeScore := 1;
  ps_InWorkingPool := true; ps_Draining := false; ps_Stale := false; ps_UpdatedAt := of_unix 990 |}%string.

Definition cycle_evidence (id : string) : CandidateRoutingEvidence := {|
  e_Candidate := {| c_ID := id; c_SourceID := "s"; c_Kind := KindVLESS; c_Label := id;
    c_Fingerprint := id; c_RouteKey := id; c_FailureDomain := id; c_Enabled := true;
    c_SourcePosition := 0; c_Lifecycle := CandidateLifecycleActive; c_RetiredAt := None;
    c_DrainAfter := None; c_CreatedAt := 0; c_UpdatedAt := 0 |};
  e_Payload := id; e_SourceEnabled := true; e_Health := Some (cycle_health id);
  e_ActiveResultSequence := 1; e_ActiveAppliedSequence := 1; e_FailureGeneration := 0;
  e_ActiveFailureGeneration := 0; e_Probe := Some (cycle_probe id); e_FailureDomain := None;
  e_QoE := None; e_Digest := id |}%string.

Definition cycle_routes : list CandidateRoutingEvidence := map cycle_evidence ["cand_a"; "cand_b"]%string.

Definition cycle_client (id : string) (traffic : option Z) : ClientRecord := {|
  cli_ID := id; cli_row := {| cl_name := id; cl_address := "10.44.0.2/32"; cl_public_key := id;
    cl_encrypted_config := "sealed"; cl_paused := false; cl_created_at := 10; cl_updated_at := 10;
    cl_last_traffic_at := traffic; cl_activity_seen := true; cl_rx_bytes := 1; cl_tx_bytes := 1;
    cl_latest_handshake := None |} |}%string.

Definition cycle_options : EngineOptions := {|
  clientReservations := true; qoeEnabled := false; qoePromotionWindow := 5;
  dnsResolvers := ["1.1.1.1"%string]; reserveActiveFreshness := 60 * second;
  activeHardFailureFreshness := 60 * second; directSuffixes := []; directDomains := [];
  disallowRUEgress := false |}.

(** Alice sends traffic; Bob and Carol are idle. *)
Definition cycle_inputs : CycleInputs := {|
  ci_clients := [cycle_client "alice" (Some 990); cycle_client "bob" None; cycle_client "carol" None]%string;
  ci_assignments := []; ci_state := {| DesiredGeneration := 0; AppliedGeneration := 0;
    InvalidatedGeneration := 0; DesiredReason := EmptyString; st_DesiredPlan := EmptyString;
    st_AppliedPlan := EmptyString |};
  ci_reserves := ∅; ci_applied := ∅; ci_referenced := ∅;
  ci_snapshot := take_routes cycle_options cycle_now
    {| rs_Candidates := cycle_routes; rs_InventoryEpoch := 1 |} [] (fun l => l) |}.

Definition cycle_env : CycleEnv := {|
  ce_publish := EngineSample.calm_env; ce_active := None; ce_bootstrap := None;
  activity := fun _ => Some []; elapsed := fun _ => second |}.

Definition cycle_start : CycleWorld := {|
  cy_publish := EngineSample.engine_start; cy_active := None; cy_bootstrap := None;
  cy_moments := []; cy_preview := BeginPreview sample_scheduler |}.

Definition cycle_placed : option (gmap string Assignment * gmap string ReserveSelection) :=
  match (place_clients cycle_env cycle_options cycle_now "periodic" cycle_inputs cycle_start).1 with
  | inr r => r | inl _ => None end.

Lemma cycle_inputs_ok : inputs_ok cycle_options cycle_now cycle_routes [] cycle_inputs.
Proof.
  split.
  - apply (bool_decide_unpack _). by vm_compute.
  - intros r [<-|[<-|[<-|[]]]]; discriminate.
  - split.
    + apply (bool_decide_unpack _). by vm_compute.
    + intros e [<-|[<-|[]]]; discriminate.
    + intros e h [<-|[<-|[]]] [= <-]; reflexivity.
  - exists 1, (fun l => l). split; reflexivity.
Qed.

Lemma cycle_places_on_proven_routes_witness :
  exists placed reserves w',
    place_clients cycle_env cycle_options cycle_now "periodic" cycle_inputs cycle_start =
      (inr (Some (placed, reserves)), w') /\
    TCP <$> placed !! "alice"%string = Some "cand_a"%string /\
    TCP <$> placed !! "bob"%string = Some "cand_b"%string /\
    TCP <$> placed !! "carol"%string = Some "cand_b"%string /\
    placement_ok cycle_options cycle_now cycle_inputs cycle_routes []
      (p_scheduler (cy_preview cycle_start)) placed.
Proof.
  assert (match cycle_placed with
          | Some (placed, _) => bool_decide (TCP <$> placed !! "alice" = Some "cand_a" /\
              TCP <$> placed !! "bob" = Some "cand_b" /\ TCP <$> placed !! "carol" = Some "cand_b")%string
          | None => false
          end = true) as Hp by (vm_compute; reflexivity).
  unfold cycle_placed in Hp.
  destruct (place_clients cycle_env cycle_options cycle_now "periodic" cycle_inputs cycle_start)
    as [[e|[[placed reserves]|]] w'] eqn:E; [discriminate Hp| |discriminate Hp].
  apply bool_decide_eq_true in Hp as (H1 & H2 & H3). exists placed, reserves, w'.
  split; [reflexivity|]. split; [exact H1|]. split; [exact H2|]. split; [exact H3|].
  exact (cycle_places_on_proven_routes cycle_env cycle_options cycle_now "periodic" cycle_inputs
    cycle_now cycle_routes [] cycle_inputs_ok cycle_start placed reserves w' E).
Defined.
