(* ===== verification/EngineCycleDurable.v ===== *)
(** A whole cycle and the plans it hands over (EngineCycle.v over EnginePublishSafety.v):
    reading and placing make no call on the agent and keep what is stored of plans, but
    for the rebase that starts a cycle, and the publication starts from the state that
    was read. *)
From Stdlib Require Import Floats.
From S2P Require Import Prelude Effects GoOrder GoStrings GoSort QoE DataPlan DataChange Gateway Handlers XrayConfig PlacementQueue StoreTables StoreSample RouteRecovery PlanStore StoreLogic PlanStoreSafety RoutingSnapshot PlanStoreRuns.
From S2P Require CandidateState CoveragePlan RenderingSafety EngineCycleSafety.
From S2P Require Import EnginePublish EngineSample EnginePublishSafety.
From S2P Require Import RouteCandidates PlanRendering SchedLoad SchedState SchedReserves Scheduling PlanningKey Coverage CoverageSearch Reservations EngineCycle.

#[local] Open Scope Z_scope.
#[local] Open Scope effect_scope.

Section Durable.
Context `{JS : Json} `{PC : PlanCodec} `{VT : Vault} `{YC : PayloadCodec}
  `{EN : Encoding} `{TX : TextLib} `{DC : DNSCodec} `{CC : ConfigCodec} `{NL : NetLib}
  `{XC : ExtraCodec} `{MR : MapRange}.
Context (env : CycleEnv) (options : EngineOptions) (torSecret : list Z).
(** ** Since a moment *)

(** Since [w0] no plan was handed over and none was marked, and the highest generation
    did not go back. *)
Record quiet_since (w0 w : EnginePublish.World) : Prop := {
  qs_ok : plan_ok (w_db w);
  qs_high : high_water (w_db w0) <= high_water (w_db w);
  qs_applied : applied_generation (plan_state (w_db w)) = applied_generation (plan_state (w_db w0));
  qs_calls : exists added, w_calls w = w_calls w0 ++ added /\
    forall p scopes seen ok, ~ In (CallAgent p scopes seen ok) added
}.

Lemma quiet_since_refl w : plan_ok (w_db w) -> quiet_since w w.
Proof.
  intros Hok. split; [done|lia|done|]. exists []. rewrite app_nil_r. split; [done|]. by intros ? ? ? ? [].
Qed.

Context (w0 : EnginePublish.World).

(** A call of the store that leaves the plan row alone. *)
Definition mild {A : Type} (m : Outcome -> Tx A) : Prop := forall o d,
  (m o d).2 = d \/ exists o' op, writes_plan op = false /\ (m o d).2 = perform o' op d.

(** The row as it was read. *)
Definition reads (state : option PlanState) (w : EnginePublish.World) : Prop :=
  quiet_since w0 w /\ forall s, state = Some s -> s = state_of (w_db w).

Definition rests (state : option PlanState) (w : CycleWorld) : Prop := reads state (cy_publish w).

Lemma reads_call state w d ok : reads state w -> plan_ok d -> plan_state d = plan_state (w_db w) ->
  reads state (w <| w_db := d |> <| w_calls := w_calls w ++ [CallStore ok] |>).
Proof.
  intros ([Hok Hhigh Happ (added & Hc & Hn)] & Hst) Hd Hrow. destruct w as [d0 sch calls]. cbn in *. split.
  - split; cbn; [done|..].
    + unfold high_water in *. by rewrite Hrow.
    + by rewrite Hrow.
    + exists (added ++ [CallStore ok]). rewrite Hc, app_assoc. split; [done|].
      intros p scopes seen ok' [Hin|[[=]|[]]]%in_app_iff. by apply (Hn p scopes seen ok').
  - intros s Hs. rewrite (Hst s Hs). unfold state_of. cbn. by rewrite Hrow.
Qed.

Lemma store_mild {A : Type} (m : Outcome -> Tx A) state : mild m ->
  triple (rests state) (store env m) (fun _ => rests state) (fun _ => rests state).
Proof.
  intros Hm w Hw. unfold store, publishing, store_call.
  set (o := outcome (ce_publish env) _). set (d0 := intervene (ce_publish env) (cy_publish w)).
  assert (plan_ok d0) as Hok by apply intervene_ok, (qs_ok _ _ (proj1 Hw)).
  assert (plan_state d0 = plan_state (w_db (cy_publish w))) as Hrow by apply intervene_row.
  assert (plan_ok (m o d0).2 /\ plan_state (m o d0).2 = plan_state (w_db (cy_publish w))) as [Hok' Hrow'].
  { destruct (Hm o d0) as [->|(o' & op & Hop & ->)]; [done|].
    split; [by apply perform_ok|]. by rewrite perform_row. }
  destruct (m o d0) as [[e|a] d]; cbn in Hok', Hrow'; by apply reads_call.
Qed.

Lemma mild_steady {A : Type} (m : Tx A) : StoreLogic.steady m -> mild (fun o => transaction o m).
Proof. intros Hm o d. left. by apply steady_transaction. Qed.

Lemma mild_query {A : Type} (f : Database -> A) : mild (fun o => query o f).
Proof. apply mild_steady. by intros d. Qed.

Lemma mild_activity id now peer : mild (fun o => RecordPeerActivity o id now peer).
Proof. intros o d. right. by exists o, (OpPeerActivity id now peer). Qed.

Lemma mild_evidence references : mild (fun o => LoadRoutingEvidenceSnapshot o references).
Proof.
  unfold LoadRoutingEvidenceSnapshot, loadRoutingEvidenceSnapshot. apply mild_steady. by intros d.
Qed.

Lemma mild_mappings : mild ListAppliedReserveMappings.
Proof.
  unfold ListAppliedReserveMappings. apply mild_steady. intros d. unfold bind, get. rewrite tx_check.
  by destruct (bool_decide _).
Qed.

(** Steps that stay out of the store and of the agent. *)
Definition aside {A : Type} (m : Cycle A) : Prop := forall w, cy_publish (m w).2 = cy_publish w.

Lemma aside_ret {A : Type} (a : A) : aside (ret a).
Proof. by intros w. Qed.

Lemma aside_raise {A : Type} e : aside (A := A) (raise e).
Proof. by intros w. Qed.

Lemma aside_bind {A B : Type} (m : Cycle A) (k : A -> Cycle B) :
  aside m -> (forall a, aside (k a)) -> aside (bind m k).
Proof.
  intros Hm Hk w. unfold bind. specialize (Hm w). destruct (m w) as [[e|a] w']; [done|].
  cbn in Hm. rewrite <- Hm. apply Hk.
Qed.

Lemma aside_if {A : Type} (b : bool) (m n : Cycle A) : aside m -> aside n -> aside (if b then m else n).
Proof. by destruct b. Qed.

Lemma aside_required {A : Type} (o : option A) e : aside (required o e).
Proof. by destruct o. Qed.

Lemma aside_rendering {A : Type} (x : RenderError + A) : aside (rendering x).
Proof. by destruct x. Qed.

Lemma aside_covering {A : Type} (m : CoveragePlan.E_ A) : aside (covering env m).
Proof. intros w. unfold covering. by destruct (m _) as [[e|a] e']. Qed.

Lemma aside_placing {A : Type} budget (m : M A) : aside (placing budget m).
Proof. intros w. unfold placing. by destruct (m _) as [[e|a] s]. Qed.

Lemma aside_in_context {A : Type} (m : M A) : aside (placing_in_context env m).
Proof. apply aside_bind; [apply aside_covering|intros ?; apply aside_placing]. Qed.

Lemma aside_foldM {A B : Type} (f : B -> A -> Cycle B) l b :
  (forall b x, aside (f b x)) -> aside (foldM f b l).
Proof.
  intros Hf. revert b. induction l as [|x l IH]; intros b; cbn [foldM]; [apply aside_ret|].
  by apply aside_bind.
Qed.

Lemma aside_place_clients now reason i : aside (place_clients env options now reason i).
Proof.
  unfold place_clients. apply aside_bind.
  { unfold reserve_clients. apply aside_if; [apply aside_ret|].
    apply aside_bind; [apply aside_required|]. intros previous. by repeat case_match. }
  intros [[clients aliases] recovery]. apply aside_bind; [apply aside_in_context|].
  intros [served candidates]. apply aside_bind.
  { unfold may_degrade. repeat apply aside_if; try apply aside_ret. apply aside_placing. }
  intros degraded_. apply aside_bind.
  { intros w. unfold scheduled_candidates. set (m := covering env _).
    pose proof (aside_covering (CoveragePlan.scheduleCandidatesForCycle (ce_active env)
      (ce_bootstrap env) now served candidates) w) as Hc. fold m in Hc.
    destruct (m w) as [[e|l] w']; [|done]. by destruct (_ && _). }
  intros l. apply aside_bind; [apply aside_placing|]. intros result. cbv zeta.
  destruct (omap _ served); [|apply aside_raise]. apply aside_if; [apply aside_ret|].
  apply aside_bind; [|intros reserves; apply aside_bind; [|intros _; apply aside_ret]].
  - unfold select_reserves. apply aside_foldM. intros m [client a].
    apply aside_bind; [apply aside_in_context|intros ?; apply aside_ret].
  - unfold check_capacity. apply aside_if; [apply aside_ret|].
    apply aside_bind; [apply aside_in_context|]. intros [e|]; [|apply aside_ret].
    apply aside_if; [apply aside_ret|apply aside_raise].
Qed.

Lemma rests_aside {A : Type} (m : Cycle A) state : aside m ->
  triple (rests state) m (fun _ => rests state) (fun _ => rests state).
Proof.
  intros Hm w Hw. specialize (Hm w). unfold rests in *.
  destruct (m w) as [[e|a] w']; cbn in Hm; by rewrite Hm.
Qed.

Lemma rests_any state w : rests state w -> rests None w.
Proof. intros [Hq _]. by split. Qed.

(** A step after which the row is as it was read. *)
Lemma rests_then {A B : Type} (m : Cycle A) (k : A -> Cycle B) state (Q : B -> CycleWorld -> Prop) :
  triple (rests state) m (fun _ => rests state) (fun _ => rests state) ->
  (forall a, triple (rests state) (k a) Q (fun _ => rests None)) ->
  triple (rests state) (bind m k) Q (fun _ => rests None).
Proof.
  intros Hm Hk. eapply triple_bind; [|exact Hk].
  eapply triple_conseq; [exact Hm|done|done|]. intros e w Hw. exact (rests_any _ _ Hw).
Qed.

(** The rebase at the start may give up a plan that was never applied. *)
Lemma rebase_rests :
  triple (rests None) (store env RebaseUnsafeDesiredPlan) (fun _ => rests None) (fun _ => rests None).
Proof.
  intros w [[Hok Hhigh Happ (added & Hc & Hn)] _]. unfold store, publishing, store_call.
  set (o := outcome (ce_publish env) _). set (d0 := intervene (ce_publish env) (cy_publish w)).
  assert (plan_ok d0) as Hok0 by by apply intervene_ok.
  assert (plan_state d0 = plan_state (w_db (cy_publish w))) as Hrow by apply intervene_row.
  assert (forall ok, rests None (w <| cy_publish := (cy_publish w) <| w_db := (RebaseUnsafeDesiredPlan o d0).2 |>
    <| w_calls := w_calls (cy_publish w) ++ [CallStore ok] |> |>)) as Hr.
  { intros ok. split; [|done]. split; cbn.
    - apply (perform_ok o (OpRebase false) d0 Hok0).
    - destruct (perform_progress o (OpRebase false) d0) as [Hp _].
      change (perform o (OpRebase false) d0) with (RebaseUnsafeDesiredPlan o d0).2 in Hp.
      assert (high_water d0 = high_water (w_db (cy_publish w))) by (unfold high_water; by rewrite Hrow).
      lia.
    - rewrite <- Happ, <- Hrow. unfold RebaseUnsafeDesiredPlan.
      apply (transaction_relates (fun d d' =>
        applied_generation (plan_state d') = applied_generation (plan_state d))); [done|].
      by intros u d1 [->|(_ & _ & ? & _)]%rebase_inr.
    - exists (added ++ [CallStore ok]). rewrite Hc, app_assoc. split; [done|].
      intros p scopes seen ok' [Hin|[[=]|[]]]%in_app_iff. by apply (Hn p scopes seen ok'). }
  destruct (RebaseUnsafeDesiredPlan o d0) as [[e|a] d]; apply Hr.
Qed.

Lemma state_rests : triple (rests None) (store env LoadPlanState) (fun s => rests (Some s)) (fun _ => rests None).
Proof.
  intros w Hw. pose proof (store_mild LoadPlanState None (mild_query _) w Hw) as Hs.
  unfold store, publishing, store_call in *.
  set (o := outcome (ce_publish env) _) in *. set (d0 := intervene (ce_publish env) (cy_publish w)) in *.
  destruct (LoadPlanState o d0) as [[e|a] d] eqn:E; [done|]. split; [apply Hs|].
  intros s [= <-]. cbn. unfold LoadPlanState, query, transaction, get in E.
  by destruct o; simplify_eq.
Qed.

Lemma activity_rests now state :
  triple (rests state) (updateActivity env now) (fun _ => rests state) (fun _ => rests None).
Proof.
  unfold updateActivity. apply rests_then; [apply rests_aside, aside_covering|]. intros _.
  apply rests_then; [apply rests_aside, aside_covering|]. intros _.
  apply rests_then; [apply rests_aside; by intros w|]. intros answer.
  apply rests_then; [apply rests_aside, aside_required|]. intros peers.
  apply rests_then; [apply store_mild, mild_query|]. intros clients. cbv zeta.
  eapply triple_conseq; [apply (triple_forM _ (fun _ => rests state) (fun _ => rests state))| | |]; try done.
  - intros visited peer todo _. destruct (_ !! _); [|by intros w Hw]. apply store_mild, mild_activity.
  - intros e w. apply rests_any.
Qed.

Lemma read_inputs_rests now torProfiles :
  triple (rests None) (read_inputs env options now torProfiles) (fun i => rests (Some (ci_state i)))
    (fun _ => rests None).
Proof.
  unfold read_inputs. apply rests_then; [apply rebase_rests|]. intros _.
  eapply triple_bind; [apply activity_rests|]. intros [].
  apply rests_then; [apply store_mild, mild_query|]. intros clients.
  apply rests_then; [apply store_mild, mild_query|]. intros assignments.
  eapply triple_bind; [apply state_rests|]. intros state.
  apply rests_then; [apply store_mild, mild_mappings|]. intros mappings.
  apply rests_then.
  { apply rests_aside. intros w. unfold publishing, lift.
    by destruct (appliedPrimaryAssignments state) as [e|m]; destruct w. }
  intros applied. cbv zeta. unfold loadRouteCandidateSnapshot. apply rests_then.
  { eapply triple_bind with (S := fun _ => rests (Some state)).
    - apply store_mild, mild_evidence.
    - intros evidence. by intros w Hw. }
  intros snapshot. by intros w Hw.
Qed.
End Durable.

Section Whole.
Context `{JS : Json} `{PC : PlanCodec} `{VT : Vault} `{YC : PayloadCodec} `{PL : !PayloadLaws}
  `{EN : Encoding} `{TX : TextLib} `{DC : DNSCodec} `{CC : ConfigCodec} `{NL : NetLib}
  `{XC : ExtraCodec} `{MR : MapRange}.
Context (env : CycleEnv) (options : EngineOptions) (torSecret : list Z).

(** ** One attempt *)

(** From [w0] on, only valid plans that were durable at that moment went to the agent,
    and what is marked is what the agent took. *)
Record durably (w0 w : EnginePublish.World) : Prop := {
  du_ok : plan_ok (w_db w);
  du_calls : exists added, w_calls w = w_calls w0 ++ added /\
    (forall p scopes seen ok, In (CallAgent p scopes seen ok) added ->
       Validate p = None /\ exists encoded, handed p encoded seen) /\
    (applied_generation (plan_state (w_db w)) <> applied_generation (plan_state (w_db w0)) ->
       exists p scopes seen, In (CallAgent p scopes seen true) added /\
         applied_generation (plan_state (w_db w)) = Generation p)
}.

Lemma quiet_durably w0 w : quiet_since w0 w -> durably w0 w.
Proof.
  intros [Hok _ Happ (added & Hc & Hn)]. split; [done|]. exists added. split; [done|]. split; [|done].
  intros p scopes seen ok Hin. by destruct (Hn p scopes seen ok).
Qed.

Lemma published_durably rendered w0 w : cycle_sound (ce_publish env) rendered w0 w -> durably w0 w.
Proof.
  intros (Hok & added & Hc & Ha & Hm). split; [done|]. exists added. split; [done|]. split; [|done].
  intros p scopes seen ok Hin. destruct (Ha p scopes seen ok Hin) as (encoded & Hh & Hv & _).
  split; [done|]. by exists encoded.
Qed.

Lemma durably_trans w0 w1 w2 : durably w0 w1 -> durably w1 w2 -> durably w0 w2.
Proof.
  intros [_ (a1 & C1 & H1 & M1)] [Hok (a2 & C2 & H2 & M2)]. split; [done|].
  exists (a1 ++ a2). rewrite C2, C1, app_assoc. split; [done|]. split.
  - intros p scopes seen ok [Hin|Hin]%in_app_iff; eauto.
  - intros Hne. destruct (decide (applied_generation (plan_state (w_db w2)) =
      applied_generation (plan_state (w_db w1)))) as [E|Hn].
    + rewrite E in Hne. destruct (M1 Hne) as (p & scopes & seen & Hin & Hp).
      exists p, scopes, seen. rewrite in_app_iff, E. auto.
    + destruct (M2 Hn) as (p & scopes & seen & Hin & Hp). exists p, scopes, seen.
      rewrite in_app_iff. auto.
Qed.

(** When a cycle is done, what it published is applied, or it published nothing. *)
Definition settled_since (w0 w : EnginePublish.World) : Prop :=
  quiet_since w0 w \/
  applied_generation (plan_state (w_db w)) = desired_generation (plan_state (w_db w)).

Lemma publish_placement_ok w0 now reason i fence placed reserves :
  triple (rests w0 (Some (ci_state i)))
    (publish_placement env options torSecret now reason i fence placed reserves)
    (fun _ w => durably w0 (cy_publish w) /\ settled_since w0 (cy_publish w))
    (fun _ w => durably w0 (cy_publish w)).
Proof.
  unfold publish_placement. cbv zeta.
  assert (forall w, rests w0 (Some (ci_state i)) w -> durably w0 (cy_publish w)) as Hstop
    by (intros w [Hq _]; by apply quiet_durably).
  eapply triple_bind with (S := fun _ => rests w0 (Some (ci_state i))).
  { eapply triple_conseq; [apply rests_aside, aside_rendering|done|done|by intros e w Hw; apply Hstop]. }
  intros expected. eapply triple_bind with (S := fun _ => rests w0 (Some (ci_state i))).
  { eapply triple_conseq; [apply rests_aside, aside_rendering|done|done|by intros e w Hw; apply Hstop]. }
  intros rendered. apply triple_bind_get. intros preview w [[Hq Hst] _].
  unfold publishing. rewrite (Hst _ eq_refl).
  destruct (publish_cycle _ _ _ _ _ _ _ _ _ _ (cy_publish w)) as [r p] eqn:E.
  destruct (publish_cycle_sound (ce_publish env) _ _ _ _ _ _ _ _ _ _ _ (qs_ok _ _ Hq) E) as [Hs Hd].
  assert (durably w0 p) as Hp.
  { eapply durably_trans; [by apply quiet_durably|]. by eapply published_durably. }
  destruct r as [e|[]]; [done|]. split; [done|]. right. by apply Hd.
Qed.

Lemma cycle_once_ok w0 now reason torProfiles fence :
  triple (fun w => quiet_since w0 (cy_publish w)) (cycleOnce env options torSecret now reason torProfiles fence)
    (fun _ w => durably w0 (cy_publish w) /\ settled_since w0 (cy_publish w))
    (fun _ w => durably w0 (cy_publish w)).
Proof.
  unfold cycleOnce.
  assert (forall state w, rests w0 state w -> durably w0 (cy_publish w)) as Hstop
    by (intros state w [Hq _]; by apply quiet_durably).
  eapply triple_bind.
  { eapply triple_conseq; [apply (read_inputs_rests env options w0 now torProfiles)| | |].
    - intros w Hw. split; [exact Hw|done].
    - done.
    - intros e w Hw. exact (Hstop _ _ Hw). }
  intros i. eapply triple_bind with (S := fun _ => rests w0 (Some (ci_state i))).
  { eapply triple_conseq; [apply rests_aside, aside_place_clients|done|done|].
    intros e w Hw. exact (Hstop _ _ Hw). }
  intros [[placed reserves]|]; [apply publish_placement_ok|].
  intros w Hw. split; [exact (Hstop _ _ Hw)|]. left. apply Hw.
Qed.

(** ** All attempts *)

(** The last attempt began at a moment until which all was durable, it was a whole
    cycle, and it left nothing of its own to be applied. *)
Definition finished (now : Time) (reason : PlacementReason) (torProfiles : list Profile)
    (fence : option planProfileFence) (w0 w : CycleWorld) : Prop :=
  exists start, durably (cy_publish w0) (cy_publish start) /\
    cycleOnce env options torSecret now reason torProfiles fence start = (inr tt, w) /\
    settled_since (cy_publish start) (cy_publish w).

Lemma attempts_ok n now reason torProfiles fence reconcile w0 : plan_ok (w_db (cy_publish w0)) ->
  triple (fun w => cy_publish w = cy_publish w0)
    (cycle_attempts env options torSecret n now reason torProfiles fence reconcile)
    (fun a w => durably (cy_publish w0) (cy_publish w) /\
       (n <> O -> a = CycleDone -> finished now reason torProfiles fence w0 w))
    (fun _ w => durably (cy_publish w0) (cy_publish w)).
Proof.
  revert w0. induction n as [|n IH]; intros w0 Hok; cbn [cycle_attempts].
  { intros w Hw. cbn. rewrite Hw. split; [|by intros []]. by apply quiet_durably, quiet_since_refl. }
  eapply triple_bind with (S := fun _ w => quiet_since (cy_publish w0) (cy_publish w)).
  { eapply triple_conseq; [apply (store_mild env (cy_publish w0) PendingRouteRecoveries None)| | |].
    - intros o d. right. by exists o, OpPending.
    - intros w Hw. split; [|done]. rewrite Hw. by apply quiet_since_refl.
    - by intros a w [Hq _].
    - intros e w [Hq _]. by apply quiet_durably. }
  intros pending. apply triple_if; intros _.
  { intros w Hq. split; [by apply quiet_durably|done]. }
  apply triple_bind_modify with (P' := fun w => quiet_since (cy_publish w0) (cy_publish w)); [done|].
  intros w Hq.
  pose proof (cycle_once_ok (cy_publish w) now reason torProfiles fence w
    (quiet_since_refl _ (qs_ok _ _ Hq))) as Hone.
  apply quiet_durably in Hq. destruct (cycleOnce _ _ _ _ _ _ _ w) as [[e|[]] w1] eqn:E.
  - assert (durably (cy_publish w0) (cy_publish w1)) as Hw1 by (eapply durably_trans; [exact Hq|exact Hone]).
    destruct (_ && negb (n =? 0)%nat) eqn:Eretry; [|done].
    apply andb_true_iff in Eretry as [_ Hn]. apply negb_true_iff, Nat.eqb_neq in Hn.
    specialize (IH w1 (du_ok _ _ Hone) w1 eq_refl).
    destruct (cycle_attempts _ _ _ _ _ _ _ _ _ w1) as [[e'|a] w2]; [by eapply durably_trans|].
    destruct IH as [Hd Hf]. split; [by eapply durably_trans|]. intros _ Ha.
    destruct (Hf Hn Ha) as (start & Hs & Hrun & Hset). exists start.
    split; [by eapply durably_trans|done].
  - destruct Hone as [Hd Hs]. split; [by eapply durably_trans|]. intros _ _. by exists w.
Qed.

(** Whole cycles publish durably.  From a database that the store's operations have
    built, a run of the attempts of a cycle - rebase, activity, reading, placing on a
    preview, rendering, publishing, and again from the start when the inventory, the
    evidence, the profiles or the scheduler changed underneath - hands the agent only
    valid plans that are the desired plan of a well-formed database at that moment,
    newer than the applied one; the applied generation changes only to that of a plan
    that the agent took; and when the run is done, then its last attempt was a whole
    cycle that published nothing, or what is desired after it is applied. *)
Theorem cycle_publishes_durably ops n now reason torProfiles fence reconcile w r w' :
  w_db (cy_publish w) = PlanStoreRuns.run ops new_database ->
  cycle_attempts env options torSecret n now reason torProfiles fence reconcile w = (r, w') ->
  durably (cy_publish w) (cy_publish w') /\
  (n <> O -> r = inr CycleDone -> finished now reason torProfiles fence w w').
Proof.
  intros Hw E. assert (plan_ok (w_db (cy_publish w))) as Hok
    by (rewrite Hw; apply store_run_ok, plan_ok_new).
  pose proof (attempts_ok n now reason torProfiles fence reconcile w Hok w eq_refl) as H.
  rewrite E in H. destruct r as [e|a]; [by split|]. destruct H as [Hd Hm].
  split; [done|]. intros Hn [= ->]. by apply Hm.
Qed.
End Whole.

(** ** On the small engine *)

#[local] Existing Instances sample_encoding XrayConfig.sample_net XrayConfig.sample_extra
  RenderingSafety.sample_range RenderingSafety.sample_dns_codec RenderingSafety.sample_config_codec
  EngineCycleSafety.plain_text.

Definition probed (id : string) : ProbeRow := {|
  pr_candidate_id := id; pr_source_id := "s"; pr_status := CandidateState.CandidateQualified; pr_failure_streak := 0;
  pr_full_success_streak := 3; pr_window_started_at := Some 40; pr_banned_until := None;
  pr_last_fast_probe_at := Some 90; pr_last_full_probe_at := Some 90; pr_last_success_at := Some 90;
  pr_last_failure_at := None; pr_last_error_code := EmptyString; pr_last_error_message := EmptyString;
  pr_last_score := 1; pr_conservative_score := 1; pr_in_working_pool := true; pr_draining := false;
  pr_stale := false; pr_updated_at := 90; pr_fast_result_seq := 1; pr_fast_applied_seq := 1;
  pr_placeholder := false |}%string.

(** Two routes, both probed and healthy. *)
Definition ready_inventory : Inventory := {|
  iv_candidates := (fun row => {| cr_candidate := cr_candidate row; cr_encrypted := XrayConfig.ada_link |}) <$>
                     candidates (stored_database false);
  iv_sources := sources (stored_database false);
  iv_health := {["cand_a" := stored_health false; "cand_b" := stored_health false]}%string;
  iv_probes := {["fp-cand_a" := probed "cand_a"; "fp-cand_b" := probed "cand_b"]}%string; iv_samples := [];
  iv_domains := ∅; iv_evidence := ∅; iv_qoe := ∅; iv_epoch := 0 |}.

Definition ready_ops : list (Outcome * StoreOp) :=
  [(Commits, OpPutClient (of_unix 10) (Some "sealed"%string) "alice" "Alice" "10.44.0.2/32" "key"
               false "config");
   (Commits, OpInventory ready_inventory)].

Definition ready_options : EngineOptions := {|
  clientReservations := false; qoeEnabled := false; qoePromotionWindow := 5;
  dnsResolvers := ["1.1.1.1"%string]; reserveActiveFreshness := 60 * second;
  activeHardFailureFreshness := 60 * second; directSuffixes := []; directDomains := [];
  disallowRUEgress := false |}.

Definition ready_env : CycleEnv := {|
  ce_publish := calm_env; ce_active := None; ce_bootstrap := None;
  activity := fun _ => Some []; elapsed := fun _ => 0 |}.

Definition ready_start : CycleWorld := {|
  cy_publish := {| w_db := PlanStoreRuns.run ready_ops new_database; w_sched := sample_scheduler; w_calls := [] |};
  cy_active := None; cy_bootstrap := None; cy_moments := []; cy_preview := BeginPreview sample_scheduler |}.

Definition ready_cycle : (CycleError + Attempted) * CycleWorld :=
  cycle_attempts ready_env ready_options [1; 2; 3] maxInventoryAttempts (of_unix 100) "periodic" [] None
    false ready_start.

(** Alice is placed on one route with the other in reserve; the agent takes the plan. *)
Lemma cycle_publishes_durably_witness :
  ready_cycle.1 = inr CycleDone /\
  applied_generation (plan_state (w_db (cy_publish ready_cycle.2))) = 1 /\
  durably (cy_publish ready_start) (cy_publish ready_cycle.2) /\
  finished ready_env ready_options [1; 2; 3] (of_unix 100) "periodic" [] None ready_start ready_cycle.2.
Proof.
  assert (ready_cycle.1 = inr CycleDone) as Hr by (vm_compute; reflexivity).
  split; [exact Hr|]. split; [vm_compute; reflexivity|].
  destruct (@cycle_publishes_durably stored_json stored_codec open_vault stored_payload
    stored_payload_laws sample_encoding EngineCycleSafety.plain_text RenderingSafety.sample_dns_codec
    RenderingSafety.sample_config_codec XrayConfig.sample_net XrayConfig.sample_extra
    RenderingSafety.sample_range ready_env ready_options [1; 2; 3] ready_ops maxInventoryAttempts
    (of_unix 100) "periodic"%string [] None false ready_start ready_cycle.1 ready_cycle.2 eq_refl
    (surjective_pairing ready_cycle)) as [Hd Hs].
  split; [exact Hd|]. apply Hs; [discriminate|exact Hr].
Defined.
