(* ===== verification/HardFailure.v ===== *)
(** Confirmed failures of routes (controller/engine_hard_failure.go and the rest of
    [CycleForReason] in controller/engine.go, [ActiveCardinalityReady] of
    controller/engine_capacity.go): a client whose applied route has failed moves to
    the reserve of the applied plan while that is still good, and otherwise to an
    emergency choice; everything else in the applied plan stays.

    The program runs in the world of a cycle (EngineCycle.v).  It has no preview: the
    scheduler that it asks is the engine's own, which others use at the same time. *)
From Stdlib Require Import Floats String.
From S2P Require Import Prelude Effects GoOrder GoFloat GoStrings GoSort QoE SchedLoad SchedState SchedReserves.
From S2P Require Import DataPlan DataChange Gateway Handlers XrayConfig StoreTables RouteRecovery PlanStore RoutingSnapshot PlanStoreRuns.
From S2P Require EnginePublish CoveragePlan.
From S2P Require Import RouteCandidates PlanRendering PlacementQueue PlanningKey EngineCycle.

#[local] Open Scope Z_scope.
#[local] Open Scope effect_scope.

(** ** Data *)

(** The errors of a cycle, the one that asks for a whole cycle ([errRecoverySkeletonChanged])
    and the one that asks for another attempt later ([routeRecoveryRetryError]). *)
Inductive RecoveryError :=
  | CycleFailed (e : CycleError)
  | RecoverySkeletonChanged
  | RouteRecoveryRetry.

Record RecoveryEnv := {
  re_cycle : CycleEnv;
  (** the five seconds of an attempt are over, and the caller's context is not *)
  attempt_over : list EnginePublish.Call -> bool
}.

#[export] Instance ClientRoute_eta : Eta ClientRoute := fun r =>
  Build_ClientRoute (DataPlan.Dormant r) (ClientID r) (SourceCIDR r) (TCPOutbound r) (UDPOutbound r)
    (DNSOutbound r) (TCPReserveOutbound r) (UDPReserveOutbound r) (BlockTCP r) (BlockUDP r).

#[export] Instance AssignmentRecord_eta : Eta AssignmentRecord := fun a =>
  Build_AssignmentRecord (as_ClientID a) (as_TCPOutbound a) (as_UDPOutbound a) (as_TCPSince a)
    (as_UDPSince a) (as_UpdatedAt a).

Abbreviation Recovery A := (Prog CycleWorld RecoveryError A).

Record hardFailureCandidateState := {
  hardFailed : bool;
  fs_candidate : SchedLoad.Candidate
}.

Abbreviation States := (gmap string hardFailureCandidateState) (only parsing).

Definition zero_state : hardFailureCandidateState :=
  {| hardFailed := false; fs_candidate := zero_candidate |}.

(** [json.Unmarshal] of the configuration of a DNS handler into three of its fields;
    a field that is missing is empty. *)
Record DNSFields := { df_rewriteAddress : string; df_dialerProxy : string; df_tag : string }.
Class DNSReader : Type := read_dns : string -> option DNSFields.

Definition transport_key (client : string) (t : RouteTransport) : string :=
  (client ++ ":" ++ match t with RouteTransportTCP => tcp | RouteTransportUDP => udp end)%string.

(** ** Candidates of a plan *)

Definition failure_state (states : States) (id : string) : hardFailureCandidateState :=
  default zero_state (states !! id).
Definition candidate_of (states : States) (id : string) : SchedLoad.Candidate :=
  fs_candidate (failure_state states id).

(** In the order of their first outbounds. *)
Definition uniqueCandidateReferences (outbounds : list Outbound) : list string :=
  fold_left (fun references o =>
    if negb (str_eqb (Protocol o) ProtocolVLESS) && negb (str_eqb (Protocol o) ProtocolTor)
    then references
    else let id := candidateIDFromHandler (ID o) EmptyString in
         if named id && negb (bool_decide (id ∈ references)) then references ++ [id] else references)
    outbounds [].

Definition hardFailureEmergencyCandidates (failedCandidateID : string)
    (snapshot : RouteCandidateSnapshot) : list SchedLoad.Candidate :=
  let candidates := placementCandidates snapshot in
  if existsb (fun c => str_eqb (SchedLoad.ID c) failedCandidateID) candidates then candidates
  else match allByID snapshot !! failedCandidateID with
       | Some failed => candidates ++ [failed]
       | None => candidates
       end.

(** The emergency candidates are kept for the known candidates that failed, and for
    all known ones when some recovery is pending. *)
Definition emergency_candidates (snapshot : RouteCandidateSnapshot) (states : States)
    (indebted : bool) (id : string) : list SchedLoad.Candidate :=
  match states !! id with
  | Some state => if hardFailed state || indebted then hardFailureEmergencyCandidates id snapshot else []
  | None => []
  end.

(** ** Loads *)

Definition hardFailureDomain (candidateID : string) (states : States) : string :=
  let domain := SchedLoad.FailureDomain (candidate_of states candidateID) in
  if str_eqb domain EmptyString then candidateID else domain.

Definition count_each (keys : list string) (load : Load) : Load :=
  fold_left (fun load key => add_at key 1 load) (remove_dups keys) load.

(** A client counts once for a candidate and once for a domain. *)
Definition hardFailureLoads (assignments : list AssignmentRecord) (states : States) : Load * Load :=
  fold_left (fun '(load, domainLoad) a =>
    let held := List.filter named [as_TCPOutbound a; as_UDPOutbound a] in
    (count_each held load,
     count_each (map (fun id => hardFailureDomain id states) held) domainLoad)) assignments (∅, ∅).

Definition hardFailureOtherClientLoads (reservations : bool) (now : Time) (clients : list ClientRecord)
    (assignments : gmap string AssignmentRecord) (excludedID : string) (states : States) :
    Load * Load :=
  hardFailureLoads
    (map (fun c => default zero_record (assignments !! cli_ID c))
       (List.filter (fun c => negb (str_eqb (cli_ID c) excludedID || cl_paused (cli_row c) ||
                                    (reservations && negb (RouteReserved now c)))) clients))
    states.

(** ** The plan *)

(** New outbounds follow the old ones, by identifier. *)
Definition appendNewPlanOutbounds (existing : list Outbound) (all : gmap string Outbound) :
    list Outbound :=
  let ids := sort_strings (List.filter (fun id => negb (existsb (fun o => str_eqb (ID o) id) existing))
                             (map fst (map_to_list all))) in
  existing ++ omap (fun id => all !! id) ids.

Definition hard_mapping (assignments : gmap string AssignmentRecord) (route : ClientRoute) :
    list RouteReserveMapping :=
  let a := default zero_record (assignments !! ClientID route) in
  let has_tcp := named (TCPReserveOutbound route) in
  let has_udp := named (UDPReserveOutbound route) in
  let reserve handler := candidateIDFromHandler handler (ClientID route) in
  let mapping := {|
    rm_ClientID := ClientID route;
    TCPPrimaryCandidateID := if has_tcp then as_TCPOutbound a else EmptyString;
    TCPReserveCandidateID := if has_tcp then reserve (TCPReserveOutbound route) else EmptyString;
    UDPPrimaryCandidateID := if has_udp then as_UDPOutbound a else EmptyString;
    UDPReserveCandidateID := if has_udp then reserve (UDPReserveOutbound route) else EmptyString |} in
  if named (TCPReserveCandidateID mapping) || named (UDPReserveCandidateID mapping)
  then [mapping] else [].

Definition hardPlanReserveMappings (plan : DesiredPlan) (assignments : gmap string AssignmentRecord) :
    list RouteReserveMapping :=
  flat_map (hard_mapping assignments) (Clients plan).

Section Handlers.
Context `{JS : Json} `{DC : DNSCodec} `{CC : ConfigCodec} `{DR : DNSReader} (torSecret : list Z).

Definition semanticJSONEqual (left right : string) : bool :=
  match unmarshal left, unmarshal right with
  | Some l, Some r => bool_decide (l = r)
  | _, _ => false
  end.

Definition find_outbound (id : string) (outbounds : list Outbound) : option Outbound :=
  match List.find (fun o => str_eqb (ID o) id) outbounds with
  | Some o => if str_eqb (ID o) EmptyString then None else Some o
  | None => None
  end.

(** Whether the installed handler of a reserve is what would be built for it now. *)
Definition mappedReserveHandlerMatchesCurrentProfile (clientID candidateID handlerID : string)
    (outbounds : list Outbound) (rows : gmap string Candidate) (profiles : list Profile) : bool :=
  match rows !! candidateID with
  | None => false
  | Some candidate =>
      if negb (str_eqb (c_Kind candidate) KindTorBridge) then str_eqb handlerID candidateID
      else
        match List.filter (fun p => str_eqb (p_CandidateID p) candidateID && str_eqb (p_Role p) "warm" &&
                                    negb (p_Retiring p)) profiles with
        | [profile] =>
            let expectedID := torProfileOutboundID candidateID profile clientID in
            str_eqb handlerID expectedID &&
            match find_outbound handlerID outbounds with
            | None => false
            | Some actual =>
                str_eqb (Protocol actual) ProtocolTor &&
                match encode_config (TorOutbound (p_SocksAddr profile) expectedID clientID torSecret) with
                | None => false
                | Some expected => semanticJSONEqual (Config actual) expected
                end
            end
        | _ => false
        end
  end.

(** A DNS handler of the plan that dials through [target] for the client. *)
Definition dns_serves (clientID : string) (target o : Outbound) : bool :=
  str_eqb (Protocol o) ProtocolDNS &&
  match read_dns (Config o) with
  | None => false
  | Some fields =>
      let proxy := if named (df_dialerProxy fields) then df_dialerProxy fields else df_tag fields in
      str_eqb proxy (ID target) &&
      match BuildDNSOutbound clientID target (df_rewriteAddress fields) with
      | inr expected => str_eqb (ID expected) (ID o)
      | inl _ => false
      end
  end.

Definition dnsHandlerForClientTarget (clientID targetID : string) (outbounds : list Outbound) : string :=
  match find_outbound targetID outbounds with
  | None => EmptyString
  | Some target => from_option ID EmptyString (List.find (dns_serves clientID target) outbounds)
  end.
End Handlers.

(** ** The recovery *)

(** What one client has while its transports are repaired. *)
Record ClientRepair := {
  cr_assignment : AssignmentRecord;
  cr_route : ClientRoute;
  cr_outbounds : gmap string Outbound;
  cr_changed : bool;
  (** whether a Tor route was chosen for TCP *)
  cr_fence : bool
}.

(** What the loop over the clients changes. *)
Record Repair := {
  rp_assignments : gmap string AssignmentRecord;
  rp_routes : list ClientRoute;
  rp_outbounds : gmap string Outbound;
  rp_changed : bool;
  rp_fence : bool
}.

(** What the loop reads. *)
Record RepairInputs := {
  ri_plan : DesiredPlan;
  ri_snapshot : RouteCandidateSnapshot;
  ri_states : States;
  (** the routes with a pending recovery, and whether there are any *)
  ri_debts : gset string;
  ri_indebted : bool;
  ri_clients : list ClientRecord;
  ri_removed : bool
}.

Section Recovery.
Context `{JS : Json} `{PC : PlanCodec} `{VT : Vault} `{YC : EnginePublish.PayloadCodec}
  `{EN : Encoding} `{TX : TextLib} `{DC : DNSCodec} `{CC : ConfigCodec} `{NL : NetLib}
  `{XC : ExtraCodec} `{MR : MapRange} `{DR : DNSReader}.
Context (renv : RecoveryEnv) (options : EngineOptions) (torSecret : list Z).

Definition env : CycleEnv := re_cycle renv.

Definition cycling {A : Type} (m : Cycle A) : Recovery A := fun w =>
  match m w with
  | (inl e, w) => (inl (CycleFailed e), w)
  | (inr a, w) => (inr a, w)
  end.

Definition stored {A : Type} (m : Outcome -> Tx A) : Recovery A := cycling (store env m).
Definition engine {A : Type} (m : EnginePublish.Engine A) : Recovery A := cycling (publishing m).

(** The engine's own scheduler answers. *)
Definition asking {A : Type} (budget : option nat) (m : M A) : Recovery A := fun w =>
  let p := cy_publish w in
  let owner := EnginePublish.owner_now (ce_publish env) (EnginePublish.w_calls p) (EnginePublish.w_sched p) in
  let '(r, s) := m {| sched := owner; budget := budget |} in
  let w := w <| cy_publish := {| EnginePublish.w_db := EnginePublish.w_db p;
    EnginePublish.w_sched := sched s; EnginePublish.w_calls := EnginePublish.w_calls p |} |> in
  match r with inl e => (inl (CycleFailed (Placing e)), w) | inr a => (inr a, w) end.

Definition asking_in_context {A : Type} (m : M A) : Recovery A :=
  moment <- cycling (covering env CoveragePlan.next_moment) ;;
  asking (CoveragePlan.m_checks moment) m.

(** Without a context nothing fails. *)
Definition SelectReserves (now : Time) (client : string) (a : Assignment)
    (candidates : list SchedLoad.Candidate) : M ReserveSelection := fun w =>
  match SelectReservesContext now client a candidates zero_reserve w with
  | (inl _, w) => (inr zero_reserve, w)
  | r => r
  end.

(** [routeCandidateSnapshot] of the references alone. *)
Definition reference_snapshot (now : Time) (references : list string) (profiles : list Profile) :
    Recovery RouteCandidateSnapshot :=
  evidence <- stored (fun o => LoadRoutingReferencesSnapshot o references) ;;
  spent <- get (fun w => elapsed env (EnginePublish.w_calls (cy_publish w))) ;;
  ret (take_routes options (now + spent) evidence profiles
         (fun _ => map_range 0 (healths_of (rs_Candidates evidence)))).

(** *** A plan that was saved but not yet applied *)

Definition primary_current (snapshot : RouteCandidateSnapshot) (usable : SchedLoad.Candidate -> bool)
    (id : string) : bool :=
  negb (named id) ||
  match allByID snapshot !! id, healthByID snapshot !! id with
  | Some c, Some health => hl_Available health && usable c && negb (CircuitOpen c)
  | _, _ => false
  end.

Definition primaries_current (snapshot : RouteCandidateSnapshot) (route : ClientRoute) : bool :=
  primary_current snapshot TCPQualified (candidateIDFromHandler (TCPOutbound route) (ClientID route)) &&
  primary_current snapshot (fun c => SchedReserves.is_vless c && UDPQualified c)
    (candidateIDFromHandler (UDPOutbound route) (ClientID route)).

Definition pendingHardPlanPrimariesCurrent (now : Time) (plan : DesiredPlan) (profiles : list Profile) :
    Recovery bool :=
  let referenced : gset string := list_to_set (List.filter named
    (flat_map (fun r => map (fun h => candidateIDFromHandler h (ClientID r)) [TCPOutbound r; UDPOutbound r])
       (Clients plan))) in
  snapshot <- reference_snapshot now (elements referenced) profiles ;;
  ret (forallb (primaries_current snapshot) (Clients plan)).

Definition settlePendingAppliedPlan (now : Time) (profiles : list Profile)
    (fence : option EnginePublish.planProfileFence) : Recovery PlanState :=
  state <- stored LoadPlanState ;;
  desired <- engine (StoreTables.lift (EnginePublish.validatePersistedPlanState state)) ;;
  match desired with
  | Some (plan, _) =>
      if (AppliedGeneration state <? DesiredGeneration state) &&
         str_eqb (DesiredReason state) PlacementHardFailure
      then
        ceiling <-
          (if 0 <? AppliedGeneration state
           then applied <- engine (StoreTables.lift (EnginePublish.decodePersistedPlan
                             (AppliedGeneration state) (st_AppliedPlan state))) ;;
                ret (EnginePublish.activeCriticalPlanCandidateCount applied.1)
           else ret 0) ;;
        engine (StoreTables.lift (EnginePublish.validateActiveCriticalRouteCapacity
          (critical_limit env) plan (Some ceiling))) ;;;
        current <- pendingHardPlanPrimariesCurrent now plan profiles ;;
        if negb current then ret state
        else
          engine (EnginePublish.acquireTorPlanFence (ce_publish env) plan fence) ;;;
          engine (EnginePublish.applyPlan (ce_publish env) plan (st_DesiredPlan state)) ;;;
          state <- stored LoadPlanState ;;
          engine (StoreTables.lift (EnginePublish.validatePersistedPlanState state)) ;;;
          ret state
      else ret state
  | None => ret state
  end.

(** *** The states of the candidates *)

Definition physical_key (snapshot : RouteCandidateSnapshot) (id : string) : string :=
  let key := SchedLoad.RouteKey (get_candidate (allByID snapshot) id) in
  if named key then key else id.

(** The load that moving [from] to [reserve] would leave. *)
Definition project (snapshot : RouteCandidateSnapshot) (moves : bool) (from reserve : string)
    (load : Load) : Load :=
  if moves && named reserve
  then add_at (physical_key snapshot reserve) 1 (add_at (physical_key snapshot from) (-1) load)
  else load.

Definition crowded (snapshot : RouteCandidateSnapshot) (moves : bool) (reserve : string) (load : Load) :
    bool :=
  moves && named reserve && (2 <? at_key load (physical_key snapshot reserve)).

Definition primary_loads (snapshot : RouteCandidateSnapshot) (routes : list ClientRoute) : Load * Load :=
  let awake := List.filter (fun r => negb (Dormant r)) routes in
  let count handler load r :=
    add_at (physical_key snapshot (candidateIDFromHandler (handler r) (ClientID r))) 1 load in
  (fold_left (count TCPOutbound) awake ∅, fold_left (count UDPOutbound) awake ∅).

Definition actively_failing (snapshot : RouteCandidateSnapshot) (id : string) : bool :=
  from_option hl_ActiveHardFailure false (healthByID snapshot !! id).

(** Whether some reserve that would be needed is crowded or no longer good. *)
Fixpoint needs_emergency (now : Time) (snapshot : RouteCandidateSnapshot) (pending : gset string)
    (outbounds : list Outbound) (profiles : list Profile) (routes : list ClientRoute)
    (tcpLoad udpLoad : Load) : Recovery bool :=
  match routes with
  | [] => ret false
  | route :: rest =>
      let client := ClientID route in
      let handled h := candidateIDFromHandler h client in
      let tcp_id := handled (TCPOutbound route) in
      let udp_id := handled (UDPOutbound route) in
      let failedTCP := named tcp_id && (actively_failing snapshot tcp_id ||
        bool_decide (transport_key client RouteTransportTCP ∈ pending)) in
      let failedUDP := named udp_id && (actively_failing snapshot udp_id ||
        bool_decide (transport_key client RouteTransportUDP ∈ pending)) in
      if Dormant route || negb (failedTCP || failedUDP)
      then needs_emergency now snapshot pending outbounds profiles rest tcpLoad udpLoad
      else
        let reserveTCP := handled (TCPReserveOutbound route) in
        let reserveUDP := handled (UDPReserveOutbound route) in
        let tcpLoad := project snapshot failedTCP tcp_id reserveTCP tcpLoad in
        let udpLoad := project snapshot failedUDP udp_id reserveUDP udpLoad in
        if crowded snapshot failedTCP reserveTCP tcpLoad || crowded snapshot failedUDP reserveUDP udpLoad
        then ret true
        else
          admission <- asking_in_context (ValidateReserveSelectionContext now client
            (no_assignment <| TCP := tcp_id |> <| UDP := udp_id |>)
            {| rs_TCP := reserveTCP; rs_UDP := reserveUDP |}
            (map (get_candidate (allByID snapshot)) [tcp_id; udp_id; reserveTCP; reserveUDP])) ;;
          if (failedTCP &&
              (negb (rv_TCP admission) ||
               str_eqb (dnsHandlerForClientTarget client (TCPReserveOutbound route) outbounds) EmptyString ||
               negb (mappedReserveHandlerMatchesCurrentProfile torSecret client reserveTCP
                       (TCPReserveOutbound route) outbounds (rowsByID snapshot) profiles))) ||
             (failedUDP && negb (rv_UDP admission))
          then ret true
          else needs_emergency now snapshot pending outbounds profiles rest tcpLoad udpLoad
  end.

Definition hard_failed (now : Time) (includeStale : bool) (health : CandidateHealth) : bool :=
  hl_ActiveCurrent health &&
  ((includeStale && negb (hl_Available health)) ||
   activeObservationFresh now (hl_ActiveObservedAt health) (activeHardFailureFreshness options)) &&
  hl_ActiveHardFailure health.

Definition states_of (now : Time) (includeStale : bool) (snapshot : RouteCandidateSnapshot) : States :=
  map_imap (fun id c => Some {|
    hardFailed := from_option (hard_failed now includeStale) false (healthByID snapshot !! id);
    fs_candidate := c |}) (allByID snapshot).

Definition hardFailureCandidateStates (now : Time) (plan : DesiredPlan) (profiles : list Profile)
    (includeStale : bool) : Recovery (States * RouteCandidateSnapshot) :=
  let references := uniqueCandidateReferences (Outbounds plan) in
  snapshot <- reference_snapshot now references profiles ;;
  debt <- stored PendingRouteRecoveries ;;
  let pending : gset string :=
    list_to_set (map (fun d => transport_key (de_ClientID d) (de_Transport d)) debt) in
  let loads := primary_loads snapshot (Clients plan) in
  emergency <- needs_emergency now snapshot pending (Outbounds plan) profiles (Clients plan)
                 loads.1 loads.2 ;;
  snapshot <- (if emergency : bool
               then cycling (loadRouteCandidateSnapshot env options now references profiles)
               else ret snapshot) ;;
  ret (states_of now includeStale snapshot, snapshot).

(** *** One client *)

Section Clients.
Context (now : Time) (profiles : list Profile) (i : RepairInputs).

Definition emergency_of (id : string) : list SchedLoad.Candidate :=
  emergency_candidates (ri_snapshot i) (ri_states i) (ri_indebted i) id.

(** Whether the transport of the client needs another route. *)
Definition must_move (client : string) (t : RouteTransport) (assigned : string) : bool :=
  named assigned && (hardFailed (failure_state (ri_states i) assigned) ||
                     bool_decide (transport_key client t ∈ ri_debts i)).

(** A route for this client among the emergency candidates. *)
Definition emergency_route (client network failed : string) (load domainLoad : Load) : Recovery string :=
  asking None (SelectEmergency now client network failed (emergency_of failed) load domainLoad).

(** A reserve that two clients use already gives way to a comparable route with room. *)
Definition gives_way (client network failed reserve : string) (load domainLoad : Load) : Recovery bool :=
  let room id := RouteLoad (candidate_of (ri_states i) id) (emergency_of failed) load <? 2 in
  if room reserve then ret false
  else
    alternative <- emergency_route client network failed load domainLoad ;;
    ret (named alternative && room alternative &&
         ComparableQuality (candidate_of (ri_states i) alternative) (candidate_of (ri_states i) reserve)).

(** The applied reserve, while the scheduler would still select it. *)
Definition selected_reserve (client : string) (t : RouteTransport) (failed handler : string) :
    Recovery (option string) :=
  answer <- stored (fun o => AppliedReserveForFailure o client t failed) ;;
  let reserve := default EmptyString answer in
  selection <- asking None (SelectReserves now client
    (match t with
     | RouteTransportTCP => no_assignment <| TCP := failed |>
     | RouteTransportUDP => no_assignment <| UDP := failed |> end)
    (map (candidate_of (ri_states i)) [failed; reserve])) ;;
  let chosen := match t with RouteTransportTCP => rs_TCP selection | RouteTransportUDP => rs_UDP selection end in
  ret (match answer with
       | Some reserve => if str_eqb chosen reserve && str_eqb (candidateIDFromHandler handler client) reserve
                         then Some reserve else None
       | None => None
       end).

Definition is_tor (id : string) : bool :=
  bool_decide (proto (candidate_of (ri_states i) id) = SchedLoad.ProtocolTor).

Definition move_tcp (c : ClientRepair) (id handler dns : string) (outbounds : gmap string Outbound) :
    ClientRepair := {|
  cr_assignment := (cr_assignment c) <| as_TCPOutbound := id |> <| as_TCPSince := now |>;
  cr_route := (cr_route c) <| TCPOutbound := handler |> <| DNSOutbound := dns |> <| BlockTCP := false |>
                <| TCPReserveOutbound := EmptyString |>;
  cr_outbounds := outbounds; cr_changed := true; cr_fence := cr_fence c || is_tor id |}.

Definition move_udp (c : ClientRepair) (id handler : string) (outbounds : gmap string Outbound) :
    ClientRepair := {|
  cr_assignment := (cr_assignment c) <| as_UDPOutbound := id |> <| as_UDPSince := now |>;
  cr_route := (cr_route c) <| UDPOutbound := handler |> <| BlockUDP := false |>
                <| UDPReserveOutbound := EmptyString |>;
  cr_outbounds := outbounds; cr_changed := true; cr_fence := cr_fence c |}.

Definition candidate_outbound (client id : string) (outbounds : gmap string Outbound) :
    RenderError + (string * gmap string Outbound) :=
  let s := ri_snapshot i in
  outbound torSecret (rowsByID s) (payloadByCandidate s) (profilesByCandidate s) client id outbounds.

Definition render_failed (e : RenderError) : CycleError := Rendering_ e.

Definition repair_tcp (client : string) (load domainLoad : Load) (c : ClientRepair) :
    Recovery ClientRepair :=
  let failed := as_TCPOutbound (cr_assignment c) in
  if negb (must_move client RouteTransportTCP failed) then ret c
  else
    let handler := TCPReserveOutbound (cr_route c) in
    let outbounds := Outbounds (ri_plan i) in
    selected <- selected_reserve client RouteTransportTCP failed handler ;;
    let installed := match selected with
      | Some reserve =>
          if mappedReserveHandlerMatchesCurrentProfile torSecret client reserve handler outbounds
               (rowsByID (ri_snapshot i)) profiles then Some reserve else None
      | None => None
      end in
    crowded <- match installed with
               | Some reserve => gives_way client tcp failed reserve load domainLoad
               | None => ret false
               end ;;
    let dns := dnsHandlerForClientTarget client handler outbounds in
    match installed, negb crowded && named dns with
    | Some reserve, true => ret (move_tcp c reserve handler dns (cr_outbounds c))
    | _, _ =>
        fallback <- emergency_route client tcp failed load domainLoad ;;
        if negb (named fallback) then ret c
        else
          route <- cycling (rendering (candidate_outbound client fallback (cr_outbounds c))) ;;
          dns <- cycling (rendering (render_dns options client fallback route.1 route.2)) ;;
          ret (move_tcp c fallback route.1 dns.1 dns.2)
    end.

Definition repair_udp (client : string) (load domainLoad : Load) (c : ClientRepair) :
    Recovery ClientRepair :=
  let failed := as_UDPOutbound (cr_assignment c) in
  if negb (must_move client RouteTransportUDP failed) then ret c
  else
    let handler := UDPReserveOutbound (cr_route c) in
    selected <- selected_reserve client RouteTransportUDP failed handler ;;
    crowded <- match selected with
               | Some reserve => gives_way client udp failed reserve load domainLoad
               | None => ret false
               end ;;
    match selected, negb crowded with
    | Some reserve, true => ret (move_udp c reserve handler (cr_outbounds c))
    | _, _ =>
        fallback <- emergency_route client udp failed load domainLoad ;;
        if negb (named fallback) then ret c
        else
          route <- cycling (rendering (candidate_outbound client fallback (cr_outbounds c))) ;;
          ret (move_udp c fallback route.1 route.2)
    end.

(** The clients that are paused or have no route are left alone; a later route of the
    same client hides an earlier one. *)
Definition paused_client (client : string) : bool :=
  from_option (fun c => cl_paused (cli_row c)) false (index_by cli_ID (ri_clients i) !! client).

Definition route_index (routes : list ClientRoute) : gmap string nat :=
  fold_left (fun m '(n, r) => <[ClientID r := n]> m) (imap pair routes) ∅.

Definition repair_client (r : Repair) (client : string) : Recovery Repair :=
  let a := default zero_record (rp_assignments r !! client) in
  match (if paused_client client then None else route_index (rp_routes r) !! client) with
  | None => ret r
  | Some n =>
      match rp_routes r !! n with
      | None => ret r
      | Some route =>
          let loads := hardFailureOtherClientLoads (clientReservations options) now (ri_clients i)
                         (rp_assignments r) client (ri_states i) in
          c <- repair_tcp client loads.1 loads.2 {|
                 cr_assignment := a; cr_route := route; cr_outbounds := rp_outbounds r;
                 cr_changed := false; cr_fence := rp_fence r |} ;;
          c <- repair_udp client loads.1 loads.2 c ;;
          ret {|
            rp_assignments := if cr_changed c
                              then <[client := (cr_assignment c) <| as_UpdatedAt := now |>]> (rp_assignments r)
                              else rp_assignments r;
            rp_routes := <[n := cr_route c]> (rp_routes r);
            rp_outbounds := cr_outbounds c;
            rp_changed := rp_changed r || cr_changed c;
            rp_fence := cr_fence c |}
      end
  end.

Definition repair_clients (r : Repair) : Recovery Repair :=
  foldM repair_client r (sort_strings (map fst (map_to_list (rp_assignments r)))).
End Clients.

(** *** The cycle *)

(** The applied routes have to be those of the present clients. *)
Definition skeleton_holds (routes : gmap string ClientRoute) (client : ClientRecord) : bool :=
  let paused := cl_paused (cli_row client) in
  match routes !! cli_ID client with
  | None => paused
  | Some route =>
      str_eqb (SourceCIDR route) (cl_address (cli_row client)) &&
      negb (paused && (negb (BlockTCP route) || negb (BlockUDP route)))
  end.

Definition debt_routes (snapshot : RouteCandidateSnapshot) (debt : list RouteRecovery) : gset string :=
  list_to_set (omap (fun d =>
    match rowsByID snapshot !! de_CandidateID d with
    | Some row => if str_eqb (c_Fingerprint row) (de_Fingerprint d)
                  then Some (transport_key (de_ClientID d) (de_Transport d)) else None
    | None => None
    end) debt).

(** What a recovery starts from: the inputs, the assignments, the generations, and the
    number of candidates that the applied plan needs; none when nothing is applied. *)
Definition read_failures (now : Time) (profiles : list Profile)
    (fence : option EnginePublish.planProfileFence) :
    Recovery (option (RepairInputs * list AssignmentRecord * PlanState * Z)) :=
  state <- settlePendingAppliedPlan now profiles fence ;;
  if AppliedGeneration state =? 0 then ret None
  else
    let includeStale := (AppliedGeneration state <? DesiredGeneration state) &&
                        str_eqb (DesiredReason state) PlacementHardFailure in
    applied <- engine (StoreTables.lift (EnginePublish.decodePersistedPlan (AppliedGeneration state)
                 (st_AppliedPlan state))) ;;
    let plan := applied.1 in
    states <- hardFailureCandidateStates now plan profiles includeStale ;;
    debt <- stored PendingRouteRecoveries ;;
    clients <- stored ListClients ;;
    let routes := index_by ClientID (Clients plan) in
    if negb (forallb (skeleton_holds routes) clients) then raise RecoverySkeletonChanged
    else
      assignments <- stored ListAssignments ;;
      let current : gset string := list_to_set (map cli_ID clients) in
      let remaining := List.filter (fun r => bool_decide (ClientID r ∈ current)) (Clients plan) in
      ret (Some ({|
        ri_plan := plan <| Clients := remaining |>; ri_snapshot := states.2; ri_states := states.1;
        ri_debts := debt_routes states.2 debt; ri_indebted := negb (bool_decide (debt = []));
        ri_clients := clients;
        ri_removed := negb (forallb (fun r => bool_decide (ClientID r ∈ current)) (Clients plan)) |},
        assignments, state, EnginePublish.activeCriticalPlanCandidateCount plan)).

Definition repair_start (i : RepairInputs) (assignments : list AssignmentRecord) : Repair := {|
  rp_assignments := index_by as_ClientID assignments; rp_routes := Clients (ri_plan i);
  rp_outbounds := index_by ID (Outbounds (ri_plan i)); rp_changed := ri_removed i;
  rp_fence := false |}.

(** The plan of a repair. *)
Definition repaired_plan (i : RepairInputs) (state : PlanState) (r : Repair) : DesiredPlan :=
  let plan := ri_plan i in
  plan <| Clients := rp_routes r |>
       <| Outbounds := if Nat.eqb (size (rp_outbounds r)) (size (rp_outbounds (repair_start i [])))
                       then Outbounds plan
                       else appendNewPlanOutbounds (Outbounds plan) (rp_outbounds r) |>
       <| Generation := Z.max (DesiredGeneration state) (InvalidatedGeneration state) + 1 |>.

Definition hard_expectation (s : RouteCandidateSnapshot) (id : string) : option CandidatePlanExpectation :=
  (fun row => {| x_Candidate := row; x_AllowDraining := true;
                 x_EvidenceDigest := default EmptyString (evidenceByCandidate s !! id) |}) <$> rowsByID s !! id.

Definition hard_update (now : Time) (assignments : gmap string AssignmentRecord) (client : ClientRecord) :
    AssignmentRecord :=
  let a := default zero_record (assignments !! cli_ID client) in
  if str_eqb (as_ClientID a) EmptyString
  then zero_record <| as_ClientID := cli_ID client |> <| as_TCPSince := now |> <| as_UDPSince := now |>
  else a.

Definition publish_repair (now : Time) (fence : option EnginePublish.planProfileFence) (i : RepairInputs)
    (state : PlanState) (ceiling : Z) (r : Repair) : Recovery unit :=
  let plan := repaired_plan i state r in
  let expectations := map (hard_expectation (ri_snapshot i)) (uniqueCandidateReferences (Outbounds plan)) in
  if existsb (fun e => negb (bool_decide (is_Some e))) expectations then raise RecoverySkeletonChanged
  else
    engine (EnginePublish.saveApplyAndMark (ce_publish env) plan PlacementHardFailure
      (map (hard_update now (rp_assignments r)) (ri_clients i)) (inventoryEpoch (ri_snapshot i))
      (omap id expectations) (hardPlanReserveMappings plan (rp_assignments r)) None
      (if rp_fence r then fence else None) (Some ceiling)).

Definition hardFailureCycle (now : Time) (profiles : list Profile)
    (fence : option EnginePublish.planProfileFence) : Recovery unit :=
  read <- read_failures now profiles fence ;;
  match read with
  | None => ret tt
  | Some (i, assignments, state, ceiling) =>
      r <- repair_clients now profiles i (repair_start i assignments) ;;
      let mustSupersedePending := (AppliedGeneration state <? DesiredGeneration state) ||
                                  negb (InvalidatedGeneration state =? 0) in
      if negb (rp_changed r) && negb mustSupersedePending then ret tt
      else publish_repair now fence i state ceiling r
  end.

(** *** Attempts *)

(** The inventory or the evidence changed underneath. *)
Definition store_overtaken (e : CycleError) : bool :=
  match e with
  | Publishing (EnginePublish.PreviewFailed _) => false
  | e => overtaken e
  end.

Fixpoint recover_attempts (n : nat) (now : Time) (profiles : list Profile)
    (fence : option EnginePublish.planProfileFence) (bounded : bool) : Recovery unit :=
  match n with
  | O => raise (CycleFailed (store_failed CandidateInventoryChanged))
  | S n => fun w =>
      match hardFailureCycle now profiles fence w with
      | (inr _, w) => (inr tt, w)
      | (inl e, w) =>
          if bounded && attempt_over renv (EnginePublish.w_calls (cy_publish w))
          then (inl RouteRecoveryRetry, w)
          else match e with
               | CycleFailed failure =>
                   if store_overtaken failure then recover_attempts n now profiles fence bounded w
                   else (inl e, w)
               | _ => (inl e, w)
               end
      end
  end.

Definition recoverHardFailure (now : Time) (profiles : list Profile)
    (fence : option EnginePublish.planProfileFence) (bounded : bool) : Recovery unit :=
  recover_attempts maxInventoryAttempts now profiles fence bounded.

(** *** A whole cycle *)

Definition ActiveCardinalityReady : Cycle unit :=
  let limit := critical_limit env in
  if limit <=? 0 then ret tt
  else
    state <- store env LoadPlanState ;;
    desired <- publishing (StoreTables.lift (EnginePublish.validatePersistedPlanState state)) ;;
    let planned := from_option (fun p => EnginePublish.activeCriticalPlanCandidateCount p.1) 0 desired in
    planned <-
      (if 0 <? AppliedGeneration state
       then applied <- publishing (StoreTables.lift (EnginePublish.decodePersistedPlan
                         (AppliedGeneration state) (st_AppliedPlan state))) ;;
            ret (Z.max planned (EnginePublish.activeCriticalPlanCandidateCount applied.1))
       else ret planned) ;;
    if planned <=? limit then ret tt
    else raise (Publishing (EnginePublish.ActiveCriticalRouteLimitError planned limit)).

(** After a normal cycle at startup that left the plans within the limit the search for
    a first cover is forgotten. *)
Definition forget_bootstrap : Recovery unit := fun w =>
  match ActiveCardinalityReady w with
  | (inr _, w) => cycling (covering env CoveragePlan.clearBootstrapCoverageCache) w
  | (inl _, w) => (inr tt, w)
  end.

Definition ordinary_attempts (now : Time) (reason : PlacementReason) (profiles : list Profile)
    (fence : option EnginePublish.planProfileFence) (reconcileRecovery : bool) : Recovery unit :=
  attempted <- (fun w =>
    match cycling (cycle_attempts env options torSecret maxInventoryAttempts now reason profiles fence
                     reconcileRecovery) w with
    | (inl e, w) =>
        if reconcileRecovery && attempt_over renv (EnginePublish.w_calls (cy_publish w))
        then (inl RouteRecoveryRetry, w) else (inl e, w)
    | r => r
    end) ;;
  match attempted with
  | FailurePending => recoverHardFailure now profiles fence true
  | CycleDone => if str_eqb reason PlacementStartupNormalization then forget_bootstrap else ret tt
  end.

(** Under the gate of the cycles.  An open recovery makes every cycle one for a
    failure. *)
Definition CycleForReason (now : Time) (reason : PlacementReason) (profiles : list Profile)
    (fence : option EnginePublish.planProfileFence) : Recovery unit :=
  debt <- stored PendingRouteRecoveries ;;
  let indebted := negb (bool_decide (debt = [])) in
  let reason := if indebted then PlacementHardFailure else reason in
  if str_eqb reason PlacementHardFailure
  then fun w =>
    match recoverHardFailure now profiles fence indebted w with
    | (inl RecoverySkeletonChanged, w) => ordinary_attempts now reason profiles fence true w
    | r => r
    end
  else ordinary_attempts now reason profiles fence false.
End Recovery.
