(* ===== verification/HardFailureDurable.v ===== *)
(** A whole cycle, confirmed failures included, and the plans that it hands over
    (HardFailure.v over EngineCycleDurable.v): what [CycleForReason] publishes is
    durable first, whichever of its ways it takes. *)
From Stdlib Require Import Floats.
From S2P Require Import Prelude Effects GoOrder GoStrings GoSort QoE DataPlan DataChange Gateway Handlers XrayConfig PlacementQueue StoreTables StoreSample RouteRecovery PlanStore StoreLogic PlanStoreSafety RoutingSnapshot PlanStoreRuns.
From S2P Require CandidateState CoveragePlan RenderingSafety EngineCycleSafety.
From S2P Require Import EnginePublish EngineSample EnginePublishSafety.
From S2P Require Import RouteCandidates PlanRendering SchedLoad SchedState SchedReserves Scheduling PlanningKey Coverage CoverageSearch Reservations EngineCycle EngineCycleDurable.
From S2P Require Import HardFailure.

#[local] Open Scope Z_scope.
#[local] Open Scope effect_scope.

(** A precondition that holds for some value. *)
Lemma triple_exists {W E A B : Type} (P : B -> W -> Prop) (m : Prog W E A) Q R :
  (forall b, triple (P b) m Q R) -> triple (fun w => exists b, P b w) m Q R.
Proof. intros Hm w [b Hb]. by apply (Hm b). Qed.

Section Still.
Context `{JS : Json} `{PC : PlanCodec} `{VT : Vault} `{YC : PayloadCodec}
  `{EN : Encoding} `{TX : TextLib} `{DC : DNSCodec} `{CC : ConfigCodec} `{NL : NetLib}
  `{XC : ExtraCodec} `{MR : MapRange} `{DR : DNSReader}.
Context (renv : RecoveryEnv) (options : EngineOptions) (torSecret : list Z) (w0 : EnginePublish.World).

Abbreviation env := (HardFailure.env renv).

(** ** Steps that leave the plans alone *)

(** What is known of the row stays known, in every outcome; only the loop over the
    attempts asks for another one later. *)
Definition still {A : Type} (m : Recovery A) : Prop := forall state,
  triple (rests w0 state) m (fun _ => rests w0 state)
    (fun e w => e <> RouteRecoveryRetry /\ rests w0 state w).

Lemma still_ret {A : Type} (a : A) : still (ret a).
Proof. by intros state w Hw. Qed.

Lemma still_bind {A B : Type} (m : Recovery A) (k : A -> Recovery B) :
  still m -> (forall a, still (k a)) -> still (bind m k).
Proof. intros Hm Hk state. eapply triple_bind; [apply Hm|]. intros a. apply Hk. Qed.

Lemma still_if {A : Type} (b : bool) (m n : Recovery A) : still m -> still n -> still (if b then m else n).
Proof. by destruct b. Qed.

Lemma still_get {A : Type} (f : CycleWorld -> A) : still (get f).
Proof. by intros state w Hw. Qed.

Lemma still_foldM {A B : Type} (f : B -> A -> Recovery B) l b :
  (forall b x, still (f b x)) -> still (foldM f b l).
Proof.
  intros Hf. revert b. induction l as [|x l IH]; intros b; cbn [foldM]; [apply still_ret|].
  by apply still_bind.
Qed.

Lemma still_cycling {A : Type} (m : Cycle A) :
  (forall state, triple (rests w0 state) m (fun _ => rests w0 state) (fun _ => rests w0 state)) ->
  still (cycling m).
Proof.
  intros Hm state w Hw. specialize (Hm state w Hw). unfold cycling.
  by destruct (m w) as [[e|a] w'].
Qed.

Lemma still_aside {A : Type} (m : Cycle A) : aside m -> still (cycling m).
Proof. intros Hm. apply still_cycling. intros state. by apply rests_aside. Qed.

Lemma still_stored {A : Type} (m : Outcome -> Tx A) : mild m -> still (stored renv m).
Proof. intros Hm. apply still_cycling. intros state. by apply store_mild. Qed.

Lemma still_asking {A : Type} budget (m : M A) : still (asking renv budget m).
Proof.
  intros state w [[Hok Hhigh Happ Hcalls] Hst]. unfold asking.
  destruct (m _) as [[e|a] s]; [split; [done|]|]; (split; [split|]; done).
Qed.

Lemma still_asking_in_context {A : Type} (m : M A) : still (asking_in_context renv m).
Proof.
  apply still_bind; [apply still_aside, aside_covering|]. intros moment. apply still_asking.
Qed.

Lemma still_lift {A : Type} (x : EngineError + A) : still (engine (StoreTables.lift x)).
Proof.
  apply still_aside. intros w. unfold publishing, lift. by destruct x, w.
Qed.

Lemma mild_references references : mild (fun o => LoadRoutingReferencesSnapshot o references).
Proof.
  unfold LoadRoutingReferencesSnapshot, loadRoutingEvidenceSnapshot. apply mild_steady. by intros d.
Qed.

Lemma mild_pending : mild PendingRouteRecoveries.
Proof. intros o d. right. by exists o, OpPending. Qed.

Lemma mild_reserve client t primary : mild (fun o => AppliedReserveForFailure o client t primary).
Proof. intros o d. left. unfold AppliedReserveForFailure. case_if; [done|]. by apply steady_transaction. Qed.

Lemma still_reference_snapshot now references torProfiles :
  still (reference_snapshot renv options now references torProfiles).
Proof.
  apply still_bind; [apply still_stored, mild_references|]. intros evidence.
  apply still_bind; [apply still_get|]. intros spent. apply still_ret.
Qed.

Lemma still_load_snapshot now references torProfiles :
  still (cycling (loadRouteCandidateSnapshot env options now references torProfiles)).
Proof.
  apply still_cycling. intros state. unfold loadRouteCandidateSnapshot.
  eapply triple_bind; [apply store_mild, mild_evidence|]. intros evidence. by intros w Hw.
Qed.

Lemma still_needs now snapshot pending outbounds torProfiles routes tcpLoad udpLoad :
  still (needs_emergency renv torSecret now snapshot pending outbounds torProfiles routes tcpLoad udpLoad).
Proof.
  revert tcpLoad udpLoad. induction routes as [|route routes IH]; intros tcpLoad udpLoad;
    cbn [needs_emergency]; [apply still_ret|]. apply still_if; [apply IH|]. cbv zeta.
  apply still_if; [apply still_ret|]. apply still_bind; [apply still_asking_in_context|].
  intros admission. apply still_if; [apply still_ret|apply IH].
Qed.

Lemma still_states now plan torProfiles includeStale :
  still (hardFailureCandidateStates renv options torSecret now plan torProfiles includeStale).
Proof.
  unfold hardFailureCandidateStates. cbv zeta. apply still_bind; [apply still_reference_snapshot|].
  intros snapshot. apply still_bind; [apply still_stored, mild_pending|]. intros debt.
  apply still_bind; [apply still_needs|]. intros emergency.
  apply still_bind; [apply still_if; [apply still_load_snapshot|apply still_ret]|].
  intros routes. apply still_ret.
Qed.

Lemma still_current now plan torProfiles :
  still (pendingHardPlanPrimariesCurrent renv options now plan torProfiles).
Proof. apply still_bind; [apply still_reference_snapshot|]. intros snapshot. apply still_ret. Qed.

(** ** Repairing *)

Lemma still_emergency now i client network failed load domainLoad :
  still (emergency_route renv now i client network failed load domainLoad).
Proof. apply still_asking. Qed.

Lemma still_gives_way now i client network failed reserve load domainLoad :
  still (gives_way renv now i client network failed reserve load domainLoad).
Proof.
  unfold gives_way. cbv zeta. apply still_if; [apply still_ret|].
  apply still_bind; [apply still_emergency|]. intros alternative. apply still_ret.
Qed.

Lemma still_selected now i client t failed handler :
  still (selected_reserve renv now i client t failed handler).
Proof.
  unfold selected_reserve. apply still_bind; [apply still_stored, mild_reserve|]. intros answer. cbv zeta.
  apply still_bind; [apply still_asking|]. intros selection. apply still_ret.
Qed.

Lemma still_rendered {A : Type} (x : RenderError + A) : still (cycling (rendering x)).
Proof. apply still_aside, aside_rendering. Qed.

Lemma still_tcp now torProfiles i client load domainLoad c :
  still (repair_tcp renv options torSecret now torProfiles i client load domainLoad c).
Proof.
  unfold repair_tcp. cbv zeta. apply still_if; [apply still_ret|].
  apply still_bind; [apply still_selected|]. intros selected.
  apply still_bind; [case_match; [apply still_gives_way|apply still_ret]|]. intros crowded.
  assert (still (fallback <- emergency_route renv now i client tcp (as_TCPOutbound (cr_assignment c))
                   load domainLoad ;;
    if negb (named fallback) then ret c
    else
      route <- cycling (rendering (candidate_outbound torSecret i client fallback (cr_outbounds c))) ;;
      dns <- cycling (rendering (render_dns options client fallback route.1 route.2)) ;;
      ret (move_tcp now i c fallback route.1 dns.1 dns.2))) as Hfallback.
  { apply still_bind; [apply still_emergency|]. intros fallback. apply still_if; [apply still_ret|].
    apply still_bind; [apply still_rendered|]. intros route.
    apply still_bind; [apply still_rendered|]. intros dns. apply still_ret. }
  repeat case_match; first [apply still_ret|exact Hfallback].
Qed.

Lemma still_udp now i client load domainLoad c :
  still (repair_udp renv torSecret now i client load domainLoad c).
Proof.
  unfold repair_udp. cbv zeta. apply still_if; [apply still_ret|].
  apply still_bind; [apply still_selected|]. intros selected.
  apply still_bind; [case_match; [apply still_gives_way|apply still_ret]|]. intros crowded.
  assert (still (fallback <- emergency_route renv now i client udp (as_UDPOutbound (cr_assignment c))
                   load domainLoad ;;
    if negb (named fallback) then ret c
    else
      route <- cycling (rendering (candidate_outbound torSecret i client fallback (cr_outbounds c))) ;;
      ret (move_udp now c fallback route.1 route.2))) as Hfallback.
  { apply still_bind; [apply still_emergency|]. intros fallback. apply still_if; [apply still_ret|].
    apply still_bind; [apply still_rendered|]. intros route. apply still_ret. }
  repeat case_match; first [apply still_ret|exact Hfallback].
Qed.

Lemma still_repair now torProfiles i r :
  still (repair_clients renv options torSecret now torProfiles i r).
Proof.
  apply still_foldM. intros r' client. unfold repair_client. cbv zeta.
  destruct (if paused_client i client then None else _) as [n|]; [|apply still_ret].
  destruct (rp_routes r' !! n) as [route|]; [|apply still_ret].
  apply still_bind; [apply still_tcp|]. intros c.
  apply still_bind; [apply still_udp|]. intros c'. apply still_ret.
Qed.
End Still.

(** ** What a recovery publishes *)

Section Whole.
Context `{JS : Json} `{PC : PlanCodec} `{VT : Vault} `{YC : PayloadCodec} `{PL : !PayloadLaws}
  `{EN : Encoding} `{TX : TextLib} `{DC : DNSCodec} `{CC : ConfigCodec} `{NL : NetLib}
  `{XC : ExtraCodec} `{MR : MapRange} `{DR : DNSReader}.
Context (renv : RecoveryEnv) (options : EngineOptions) (torSecret : list Z).

Abbreviation env := (HardFailure.env renv).

(** So far all was durable, and the row is as it was read. *)
Definition known (w0 : EnginePublish.World) (state : option PlanState) (w : CycleWorld) : Prop :=
  exists m, durably w0 m /\ rests m state w.

Definition lasting (w0 : EnginePublish.World) (w : CycleWorld) : Prop := durably w0 (cy_publish w).

(** How a step of a recovery fails. *)
Definition failed (w0 : EnginePublish.World) (e : RecoveryError) (w : CycleWorld) : Prop :=
  e <> RouteRecoveryRetry /\ lasting w0 w.

Lemma known_lasting w0 state w : known w0 state w -> lasting w0 w.
Proof. intros (m & Hm & Hq & _). eapply durably_trans; [exact Hm|]. by apply quiet_durably. Qed.

Lemma rests_known w0 state w : rests w0 state w -> known w0 state w.
Proof.
  intros [Hq Hst]. exists (cy_publish w). split; [by apply quiet_durably|].
  split; [|exact Hst]. apply quiet_since_refl, Hq.
Qed.

Lemma known_any w0 state w : known w0 state w -> known w0 None w.
Proof. intros (m & Hm & Hr). exists m. split; [done|]. exact (rests_any _ _ _ Hr). Qed.

Lemma known_still {A : Type} w0 state (m : Recovery A) : (forall m0, still m0 m) ->
  triple (known w0 state) m (fun _ => known w0 state) (failed w0).
Proof.
  intros Hm. apply triple_exists. intros m0 w [Hd Hw]. specialize (Hm m0 state w Hw).
  destruct (m w) as [[e|a] w']; [|by exists m0]. destruct Hm as [He Hm]. split; [done|].
  apply (known_lasting w0 state). by exists m0.
Qed.

(** A still step, then the rest. *)
Lemma known_then {A B : Type} w0 state (m : Recovery A) (k : A -> Recovery B) Q :
  (forall m0, still m0 m) ->
  (forall a, triple (known w0 state) (k a) Q (failed w0)) ->
  triple (known w0 state) (bind m k) Q (failed w0).
Proof. intros Hm Hk. eapply triple_bind; [by apply known_still|exact Hk]. Qed.

Lemma known_state w0 :
  triple (known w0 None) (stored renv LoadPlanState) (fun s => known w0 (Some s)) (failed w0).
Proof.
  apply triple_exists. intros m0 w [Hd Hw]. pose proof (state_rests env m0 w Hw) as Hs.
  unfold stored, cycling. destruct (store env LoadPlanState w) as [[e|s] w'].
  - split; [done|]. apply (known_lasting w0 None). by exists m0.
  - by exists m0.
Qed.

Lemma sound_durably p encoded w w' : Validate p = None -> sound p encoded w w' -> durably w w'.
Proof.
  intros Hv [Hok (added & Hc & Ho & Ha)]. split; [done|]. exists added. split; [done|]. split.
  - intros q scopes seen ok Hin. destruct (Ho _ _ _ _ Hin) as [-> Hh]. split; [done|by exists encoded].
  - intros Hne. destruct (Ha Hne) as (Hg & scopes & seen & Hin). by exists p, scopes, seen.
Qed.

(** What holds of a world and of a moment until which all was durable. *)
Definition over (w0 : EnginePublish.World) (Q : EnginePublish.World -> EnginePublish.World -> Prop)
    (w : CycleWorld) : Prop :=
  exists m, durably w0 m /\ Q m (cy_publish w).

Lemma engine_over {A : Type} p encoded w0 (Q Q' : EnginePublish.World -> EnginePublish.World -> Prop)
    (m : EnginePublish.Engine A) :
  Validate p = None ->
  (forall b, triple (Q b) m (fun _ => Q' b) (fun _ => sound p encoded b)) ->
  triple (over w0 Q) (engine m) (fun _ => over w0 Q') (failed w0).
Proof.
  intros Hv Hm w (b & Hb & Hw). unfold engine, cycling, publishing. specialize (Hm b _ Hw).
  destruct (m (cy_publish w)) as [[e|a] v]; [|by exists b].
  split; [done|]. eapply durably_trans; [exact Hb|]. by eapply sound_durably.
Qed.

(** A plan that was saved is handed over and marked. *)
Definition on_its_way (p : DesiredPlan) (encoded : string) (b v : EnginePublish.World) : Prop :=
  stage p encoded b (durable p encoded b) false v.
Definition arrived (p : DesiredPlan) (encoded : string) (b v : EnginePublish.World) : Prop :=
  sound p encoded b v /\ EnginePublishSafety.marked p (plan_state (w_db v)).

Lemma arrived_lasting p encoded w0 w : Validate p = None -> over w0 (arrived p encoded) w ->
  lasting w0 w /\ EnginePublishSafety.marked p (plan_state (w_db (cy_publish w))).
Proof.
  intros Hv (b & Hb & Hs & Hm). split; [|done]. eapply durably_trans; [exact Hb|]. by eapply sound_durably.
Qed.

Lemma settle_ok w0 now torProfiles fence :
  triple (known w0 None) (settlePendingAppliedPlan renv options now torProfiles fence)
    (fun state => known w0 (Some state)) (failed w0).
Proof.
  unfold settlePendingAppliedPlan. eapply triple_bind; [apply known_state|]. intros state.
  eapply triple_bind with (S := fun desired w => known w0 (Some state) w /\
    validatePersistedPlanState state = inr desired).
  { intros w Hw. unfold engine, cycling, publishing, lift. destruct (validatePersistedPlanState state);
      [split; [done|exact (known_lasting _ _ _ Hw)]|]. destruct w. by split. }
  intros desired. apply triple_fact with (phi := validatePersistedPlanState state = inr desired);
    [by intros w [_ H]|]. intros Hdesired.
  eapply triple_pre with (P' := known w0 (Some state)); [|by intros w [H _]].
  destruct desired as [[plan digest]|]; [|by intros w Hw].
  destruct ((AppliedGeneration state <? DesiredGeneration state) && _) eqn:Epending; [|by intros w Hw].
  apply known_then.
  { intros m0. apply still_if; [|apply still_ret]. apply still_bind; [apply still_lift|].
    intros applied. apply still_ret. }
  intros ceiling. apply known_then; [intros m0; apply still_lift|]. intros _.
  apply known_then; [intros m0; apply still_current|]. intros current.
  destruct (negb current); [by intros w Hw|].
  apply andb_true_iff in Epending as [Hlt _]. z_bool.
  assert (forall w, known w0 (Some state) w -> exists bytes, st_DesiredPlan state = bytes /\
    Validate plan = None /\ durable plan bytes (cy_publish w) (plan_state (w_db (cy_publish w)))) as Hready.
  { intros w (m0 & _ & Hq & Hst). specialize (Hst state eq_refl). subst state.
    pose proof (qs_ok _ _ Hq) as Hok. destruct (plan_ok_validates _ Hok) as (r & Hr & Hd).
    rewrite Hdesired in Hr. injection Hr as <-. destruct Hd as (Hne & _ & Hdec).
    destruct (stage_some _ _ _ (po_desired _ Hok) Hne) as (bytes & q & h & ms & Hb & Hp & _).
    cbn [state_of st_DesiredPlan AppliedGeneration DesiredGeneration] in *. rewrite Hb in *. cbn in Hdec.
    rewrite (pub_decode _ _ _ _ _ Hp) in Hdec. injection Hdec as ->.
    exists bytes. split; [done|]. split; [apply Hp|].
    pose proof (pub_generation _ _ _ _ _ Hp) as Hgen. split_and!; [done|by rewrite Hgen|done|lia]. }
  intros w Hw. destruct (Hready w Hw) as (bytes & Hb & Hv & Hdur). rewrite Hb.
  assert (over w0 (on_its_way plan bytes) w) as Hway.
  { exists (cy_publish w). split; [exact (known_lasting _ _ _ Hw)|].
    apply stage_start; [apply (known_lasting _ _ _ Hw)|exact Hdur]. }
  clear Hw Hdur. revert w Hway. change (triple (over w0 (on_its_way plan bytes))
    (engine (acquireTorPlanFence (ce_publish env) plan fence) ;;;
     engine (applyPlan (ce_publish env) plan bytes) ;;;
     state <- stored renv LoadPlanState ;;
     engine (StoreTables.lift (validatePersistedPlanState state)) ;;; ret state)
    (fun s => known w0 (Some s)) (failed w0)).
  eapply triple_bind.
  { apply (engine_over plan bytes w0 _ (on_its_way plan bytes) _ Hv). intros b. apply triple_fence. }
  intros []. eapply triple_bind.
  { apply (engine_over plan bytes w0 _ (arrived plan bytes) _ Hv). intros b.
    eapply triple_conseq; [apply apply_ok|done| |done]. by intros [] v (? & ? & _). }
  intros []. eapply triple_bind.
  { eapply triple_pre; [apply known_state|]. intros w Hw. destruct (arrived_lasting _ _ _ _ Hv Hw) as [Hl _].
    exists (cy_publish w). split; [done|]. split; [apply quiet_since_refl, Hl|done]. }
  intros s. apply known_then; [intros m0; apply still_lift|]. by intros _ w' Hw'.
Qed.

(** Once some plan was applied, nothing is left to be applied.  While none ever was
    ([AppliedGeneration] is zero) a recovery publishes nothing, and a first plan that was
    saved for an ordinary reason may still be waiting. *)
Definition settled_once_applied (w : EnginePublish.World) : Prop :=
  applied_generation (plan_state (w_db w)) = 0 \/
  applied_generation (plan_state (w_db w)) = desired_generation (plan_state (w_db w)).

Lemma publish_repair_ok w0 now fence i state ceiling r :
  triple (lasting w0) (publish_repair renv now fence i state ceiling r)
    (fun _ w => lasting w0 w /\ settled_once_applied (cy_publish w)) (failed w0).
Proof.
  unfold publish_repair. cbv zeta. apply triple_if; intros _; [by intros w Hw; split|].
  set (fence' := if rp_fence r then fence else None). set (plan := repaired_plan i state r).
  intros w Hw. unfold engine, cycling, publishing.
  destruct (saveApplyAndMark _ _ _ _ _ _ _ _ _ _ (cy_publish w)) as [res v] eqn:E.
  destruct (save_checks _ _ _ _ _ _ _ _ _ _ _ _ _ E) as [[-> Hne]|(_ & Hv & encoded & He)].
  { destruct res as [e|[]]; [by split|by destruct Hne]. }
  pose proof (triple_run _ _ _ _ _ _ _ (save_ok (ce_publish env) plan encoded (cy_publish w) _ _ _ _ _
    None fence' _ He) (stage_start plan encoded (cy_publish w) (unmarked (cy_publish w))
      (du_ok _ _ Hw) eq_refl) E) as Hs.
  assert (forall v', sound plan encoded (cy_publish w) v' -> durably w0 v') as Hd.
  { intros v' Hv'. eapply durably_trans; [exact Hw|]. by eapply sound_durably. }
  destruct res as [e|[]]; [by split; [|apply Hd]|]. destruct Hs as (Hs & [H1 H2] & _). split; [by apply Hd|].
  right. etrans; [exact H1|symmetry; exact H2].
Qed.

Lemma read_failures_ok w0 now torProfiles fence :
  triple (known w0 None) (read_failures renv options torSecret now torProfiles fence)
    (fun read w => match read with
       | None => lasting w0 w /\ settled_once_applied (cy_publish w)
       | Some (_, _, state, _) => known w0 (Some state) w
       end) (failed w0).
Proof.
  unfold read_failures. eapply triple_bind; [apply settle_ok|]. intros state.
  destruct (Z.eqb_spec (AppliedGeneration state) 0) as [Hz|_].
  { intros w Hw. split; [exact (known_lasting _ _ _ Hw)|]. left.
    destruct Hw as (m & _ & _ & Hst). by rewrite (Hst state eq_refl) in Hz. }
  cbv zeta. apply known_then; [intros m0; apply still_lift|]. intros applied.
  apply known_then; [intros m0; apply still_states|]. intros states.
  apply known_then; [intros m0; apply still_stored, mild_pending|]. intros debt.
  apply known_then; [intros m0; apply still_stored, mild_query|]. intros clients.
  apply triple_if; intros _; [intros w Hw; split; [done|]; exact (known_lasting _ _ _ Hw)|].
  apply known_then; [intros m0; apply still_stored, mild_query|]. intros assignments. by intros w Hw.
Qed.

Lemma hard_cycle_ok w0 now torProfiles fence :
  triple (known w0 None) (hardFailureCycle renv options torSecret now torProfiles fence)
    (fun _ w => lasting w0 w /\ settled_once_applied (cy_publish w)) (failed w0).
Proof.
  unfold hardFailureCycle. eapply triple_bind; [apply read_failures_ok|].
  intros [[[[i assignments] state] ceiling]|]; [|by intros w Hw].
  apply known_then; [intros m0; apply still_repair|]. intros r. cbv zeta.
  apply triple_if; intros Hidle.
  - intros w Hw. split; [exact (known_lasting _ _ _ Hw)|]. right.
    destruct Hw as (m & _ & Hq & Hst). specialize (Hst state eq_refl). subst state.
    apply andb_true_iff in Hidle as [_ Hidle]. rewrite negb_true_iff, orb_false_iff in Hidle.
    destruct Hidle as [Hlt _]. z_bool. cbn [EnginePublishSafety.state_of DesiredGeneration AppliedGeneration] in Hlt.
    pose proof (po_range _ (qs_ok _ _ Hq)). lia.
  - eapply triple_pre; [apply publish_repair_ok|]. intros w Hw. exact (known_lasting _ _ _ Hw).
Qed.

(** ** All attempts *)

Lemma lasting_known w0 w : lasting w0 w -> known w0 None w.
Proof. intros Hw. exists (cy_publish w). split; [done|]. split; [apply quiet_since_refl, Hw|done]. Qed.

(** Cycles that were overtaken, one after the other, while there was time. *)
Inductive overtaken_times (now : Time) (torProfiles : list Profile) (fence : option planProfileFence)
    (bounded : bool) : nat -> CycleWorld -> CycleWorld -> Prop :=
  | no_attempt w : overtaken_times now torProfiles fence bounded 0 w w
  | one_more n w w1 w' e :
      hardFailureCycle renv options torSecret now torProfiles fence w = (inl (CycleFailed e), w1) ->
      store_overtaken e = true -> bounded && attempt_over renv (w_calls (cy_publish w1)) = false ->
      overtaken_times now torProfiles fence bounded n w1 w' ->
      overtaken_times now torProfiles fence bounded (S n) w w'.

(** How at most [n] attempts from [w] end: after [k] overtaken ones. *)
Definition ended (now : Time) (torProfiles : list Profile) (fence : option planProfileFence)
    (bounded : bool) (n : nat) (w w' : CycleWorld) (r : RecoveryError + unit) : Prop :=
  exists k start, overtaken_times now torProfiles fence bounded k w start /\
    let last := hardFailureCycle renv options torSecret now torProfiles fence start in
    match r with
    | inr tt => (k < n)%nat /\ last = (inr tt, w')
    | inl RecoverySkeletonChanged => (k < n)%nat /\ last = (inl RecoverySkeletonChanged, w')
    | inl RouteRecoveryRetry =>
        (k < n)%nat /\ bounded = true /\ attempt_over renv (w_calls (cy_publish w')) = true /\
        exists e, last = (inl e, w')
    | inl (CycleFailed e) =>
        (k = n /\ start = w' /\ e = store_failed CandidateInventoryChanged) \/
        (k < n)%nat /\ store_overtaken e = false /\ last = (inl (CycleFailed e), w')
    end.

Lemma ended_later now torProfiles fence bounded n w w1 w' r e :
  hardFailureCycle renv options torSecret now torProfiles fence w = (inl (CycleFailed e), w1) ->
  store_overtaken e = true -> bounded && attempt_over renv (w_calls (cy_publish w1)) = false ->
  ended now torProfiles fence bounded n w1 w' r -> ended now torProfiles fence bounded (S n) w w' r.
Proof.
  intros H1 H2 H3 (k & start & Hk & Hr). exists (S k), start. split; [by eapply one_more|].
  destruct r as [[f| |]|[]]; cbn in *; intuition lia.
Qed.

Lemma recover_ok w0 n now torProfiles fence bounded w r w' : lasting w0 w ->
  recover_attempts renv options torSecret n now torProfiles fence bounded w = (r, w') ->
  lasting w0 w' /\ (r = inr tt -> settled_once_applied (cy_publish w')) /\
  ended now torProfiles fence bounded n w w' r.
Proof.
  revert w. induction n as [|n IH]; intros w Hw; cbn [recover_attempts].
  { intros [= <- <-]. split; [done|]. split; [done|]. exists O, w. split; [constructor|by left]. }
  pose proof (hard_cycle_ok w0 now torProfiles fence w (lasting_known _ _ Hw)) as H.
  destruct (hardFailureCycle _ _ _ _ _ _ w) as [[e|[]] w1] eqn:E.
  - destruct H as [He Hl]. destruct (bounded && _) eqn:Eover.
    { intros [= <- <-]. apply andb_true_iff in Eover as [Hb Ho]. split; [done|]. split; [done|].
      exists O, w. split; [constructor|]. split_and!; [lia|done..|by exists e]. }
    destruct e as [f| |]; [|intros [= <- <-]|done].
    + destruct (store_overtaken f) eqn:Ef; intros Hr.
      * destruct (IH w1 Hl Hr) as (H1 & H2 & H3). split_and!; [done..|]. by eapply ended_later.
      * injection Hr as <- <-. split; [done|]. split; [done|]. exists O, w. split; [constructor|].
        right. split_and!; [lia|done..].
    + split; [done|]. split; [done|]. exists O, w. split; [constructor|]. split; [lia|done].
  - intros [= <- <-]. destruct H as [Hl Hn]. split; [done|]. split; [done|]. exists O, w.
    split; [constructor|]. split; [lia|done].
Qed.

Lemma ready_quiet w0 : triple (fun w => quiet_since w0 (cy_publish w)) (ActiveCardinalityReady renv)
  (fun _ w => quiet_since w0 (cy_publish w)) (fun _ w => quiet_since w0 (cy_publish w)).
Proof.
  assert (forall (A : Type) (x : EngineError + A), aside (publishing (StoreTables.lift x))) as Hlift
    by (intros A x w; unfold publishing, StoreTables.lift; by destruct x, w).
  assert (triple (rests w0 None) (ActiveCardinalityReady renv) (fun _ => rests w0 None)
    (fun _ => rests w0 None)) as H.
  { unfold ActiveCardinalityReady. cbv zeta. apply triple_if; intros _; [by intros w Hw|].
    eapply triple_bind; [apply store_mild, mild_query|]. intros state.
    eapply triple_bind; [apply rests_aside, Hlift|]. intros desired.
    eapply triple_bind.
    { apply rests_aside. apply aside_if; [|apply aside_ret]. apply aside_bind; [apply Hlift|].
      intros applied. apply aside_ret. }
    intros planned. apply rests_aside, aside_if; [apply aside_ret|apply aside_raise]. }
  eapply triple_conseq; [exact H|by intros w Hw|by intros a w [Hq _]|by intros e w [Hq _]].
Qed.

Lemma forget_quiet w : plan_ok (w_db (cy_publish w)) ->
  exists w', forget_bootstrap renv w = (inr tt, w') /\ quiet_since (cy_publish w) (cy_publish w').
Proof.
  intros Hok. unfold forget_bootstrap.
  pose proof (ready_quiet (cy_publish w) w (quiet_since_refl _ Hok)) as H.
  destruct (ActiveCardinalityReady renv w) as [[e|[]] w1]; eexists; (split; [reflexivity|]); exact H.
Qed.

(** *** Whole cycles *)

Lemma cycle_attempts_reconcile n now reason torProfiles fence w w' :
  cycle_attempts env options torSecret n now reason torProfiles fence true w <> (inr FailurePending, w').
Proof.
  revert w. induction n as [|n IH]; intros w; cbn [cycle_attempts]; [done|].
  unfold bind at 1. destruct (store env PendingRouteRecoveries w) as [[e|pending] w1]; [done|].
  rewrite andb_false_r. unfold bind at 1. cbn [modify]. destruct (cycleOnce _ _ _ _ _ _ _ _) as [[e|[]] w2]; [|done].
  destruct (_ && _); [apply IH|done].
Qed.

(** A cycle is over: after a recovery nothing is left to be applied, once some plan was
    applied; after ordinary attempts, perhaps followed by readings, the last one was a
    whole cycle. *)
Definition concluded (now : Time) (torProfiles : list Profile) (fence : option planProfileFence)
    (w w' : CycleWorld) : Prop :=
  settled_once_applied (cy_publish w') \/
  exists reason middle, finished env options torSecret now reason torProfiles fence w middle /\
    quiet_since (cy_publish middle) (cy_publish w').

Lemma ordinary_ok w0 now reason torProfiles fence reconcile w r w' : lasting w0 w ->
  ordinary_attempts renv options torSecret now reason torProfiles fence reconcile w = (r, w') ->
  durably (cy_publish w) (cy_publish w') /\
  (r = inr tt -> concluded now torProfiles fence w w') /\
  (r = inl RouteRecoveryRetry -> attempt_over renv (w_calls (cy_publish w')) = true) /\
  (r = inl RecoverySkeletonChanged -> reconcile = false).
Proof.
  intros Hw. unfold ordinary_attempts, bind, cycling.
  pose proof (attempts_ok env options torSecret maxInventoryAttempts now reason torProfiles fence reconcile
    w (du_ok _ _ Hw) w eq_refl) as H.
  destruct (cycle_attempts _ _ _ _ _ _ _ _ _ w) as [[e|a] w1] eqn:E.
  { destruct (reconcile && _) eqn:Eover; intros [= <- <-]; split_and!; try done.
    by apply andb_true_iff in Eover as [_ ?]. }
  destruct H as [Hd Hf]. destruct a.
  - specialize (Hf ltac:(done) eq_refl). case_if.
    + destruct (forget_quiet w1 (du_ok _ _ Hd)) as (w2 & Hr & Hq). rewrite Hr. intros [= <- <-].
      split_and!; [|intros _|done..].
      * eapply durably_trans; [exact Hd|]. by apply quiet_durably.
      * right. by exists reason, w1.
    + intros [= <- <-]. split_and!; [done|intros _|done..]. right. exists reason, w1.
      split; [done|]. apply quiet_since_refl, Hd.
  - intros Hr. destruct (recover_ok (cy_publish w) maxInventoryAttempts now torProfiles fence true w1 r w'
      Hd Hr) as (H1 & H2 & k & start & _ & H3). split_and!; [done| | |].
    + intros Hok. left. by apply H2.
    + intros ->. by destruct H3 as (_ & _ & ? & _).
    + intros _. destruct reconcile; [|done]. by apply cycle_attempts_reconcile in E.
Qed.

Lemma pending_quiet w r w' : plan_ok (w_db (cy_publish w)) ->
  stored renv PendingRouteRecoveries w = (r, w') ->
  quiet_since (cy_publish w) (cy_publish w') /\ (forall e, r = inl e -> exists f, e = CycleFailed f).
Proof.
  intros Hok Hr. unfold stored, cycling in Hr.
  assert (rests (cy_publish w) None w) as Hw by (split; [by apply quiet_since_refl|done]).
  pose proof (store_mild env (cy_publish w) PendingRouteRecoveries None mild_pending w Hw) as H.
  destruct (store env PendingRouteRecoveries w) as [[e|a] w1]; injection Hr as <- <-;
    (split; [apply H|]); [|done]. intros e' [= <-]. by exists e.
Qed.

Lemma for_reason_ok now reason torProfiles fence w r w' : plan_ok (w_db (cy_publish w)) ->
  CycleForReason renv options torSecret now reason torProfiles fence w = (r, w') ->
  durably (cy_publish w) (cy_publish w') /\
  (r = inr tt -> exists start, durably (cy_publish w) (cy_publish start) /\
     concluded now torProfiles fence start w') /\
  (r = inl RouteRecoveryRetry -> attempt_over renv (w_calls (cy_publish w')) = true) /\
  (r = inl RecoverySkeletonChanged ->
     reason <> PlacementHardFailure /\ exists w1, stored renv PendingRouteRecoveries w = (inr [], w1)).
Proof.
  intros Hok. unfold CycleForReason. unfold bind at 1.
  destruct (stored renv PendingRouteRecoveries w) as [[e|debt] w1] eqn:E.
  { destruct (pending_quiet _ _ _ Hok E) as [Hq He]. destruct (He e eq_refl) as [f ->].
    intros [= <- <-]. split_and!; [by apply quiet_durably|done..]. }
  destruct (pending_quiet _ _ _ Hok E) as [Hq _]. apply quiet_durably in Hq. cbv zeta.
  destruct (bool_decide (debt = [])) eqn:Edebt; cbn [negb].
  - apply bool_decide_eq_true in Edebt. subst debt. destruct (str_eqb reason _) eqn:Ereason; str_bool.
    + destruct (recoverHardFailure _ _ _ _ _ _ _ w1) as [r1 w2] eqn:Er.
      destruct (recover_ok _ _ _ _ _ _ _ _ _ Hq Er) as (H1 & H2 & k & start & _ & H3).
      destruct r1 as [[f| |]|[]].
      * intros [= <- <-]. by split_and!.
      * intros Hr. destruct (ordinary_ok _ _ _ _ _ _ _ _ _ H1 Hr) as (G1 & G2 & G3 & G4).
        split_and!; [by eapply durably_trans|intros Hok2; exists w2; auto|done|intros Hs; discriminate (G4 Hs)].
      * by destruct H3 as (_ & ? & _).
      * intros [= <- <-]. split_and!; [done| |done..]. intros _. exists w1. split; [done|left; by apply H2].
    + intros Hr. destruct (ordinary_ok _ _ _ _ _ _ _ _ _ Hq Hr) as (G1 & G2 & G3 & G4).
      split_and!; [by eapply durably_trans|intros Hok1; exists w1; auto|done|].
      intros _. split; [done|by exists w1].
  - rewrite str_eqb_refl. destruct (recoverHardFailure _ _ _ _ _ _ _ w1) as [r1 w2] eqn:Er.
    destruct (recover_ok _ _ _ _ _ _ _ _ _ Hq Er) as (H1 & H2 & k & start & _ & H3).
    destruct r1 as [[f| |]|[]].
    * intros [= <- <-]. by split_and!.
    * intros Hr. destruct (ordinary_ok _ _ _ _ _ _ _ _ _ H1 Hr) as (G1 & G2 & G3 & G4).
      split_and!; [by eapply durably_trans|intros Hok2; exists w2; auto|done|intros Hs; discriminate (G4 Hs)].
    * destruct H3 as (_ & _ & ? & _). intros [= <- <-]. by split_and!.
    * intros [= <- <-]. split_and!; [done| |done..]. intros _. exists w1. split; [done|left; by apply H2].
Qed.

(** C4.  The whole cycle publishes durably, confirmed failures included.  From a database
    that the store's operations have built, whichever way [CycleForReason] takes - a
    plan of a failure that was saved and is now handed over, the repair of the applied
    plan, its repetitions, the ordinary attempts when the applied skeleton no longer
    fits, a failure that arrives between them - the agent gets only valid plans that
    are the desired plan of a well-formed database at that moment, newer than the
    applied one, and the applied generation changes only to that of a plan that the
    agent took.  On success the last attempt was a whole ordinary cycle that published nothing
    or whose plan is applied, or, after a recovery, nothing is left to be applied; the
    exception is a recovery while no plan was ever applied (the applied generation is
    zero): it stops before it repairs anything, and a first plan saved for an ordinary
    reason may still be pending. *)
Theorem recovery_publishes_durably ops now reason torProfiles fence w r w' :
  w_db (cy_publish w) = PlanStoreRuns.run ops new_database ->
  CycleForReason renv options torSecret now reason torProfiles fence w = (r, w') ->
  durably (cy_publish w) (cy_publish w') /\
  (r = inr tt -> exists start, durably (cy_publish w) (cy_publish start) /\
     concluded now torProfiles fence start w').
Proof.
  intros Hw E. assert (plan_ok (w_db (cy_publish w))) as Hok
    by (rewrite Hw; apply store_run_ok, plan_ok_new).
  destruct (for_reason_ok _ _ _ _ _ _ _ Hok E) as (H1 & H2 & _). by split.
Qed.

(** C5.  What a recovery answers.  Of its three attempts some are overtaken, each by a
    change of the inventory or the evidence and while there was time; then comes the
    last one, whose answer is passed on when it succeeds, when it asks for a whole
    cycle, or when it fails for another reason; "later" is answered only when an attempt
    failed and the time of a bounded recovery is over; and when all are overtaken the
    answer is that the inventory changed.  After a success nothing is left to be
    applied, unless no plan was ever applied: then the recovery stops before it repairs
    anything, and a first plan saved for an ordinary reason may still be pending. *)
Theorem recovery_ends_in_order ops now torProfiles fence bounded w r w' :
  w_db (cy_publish w) = PlanStoreRuns.run ops new_database ->
  recoverHardFailure renv options torSecret now torProfiles fence bounded w = (r, w') ->
  ended now torProfiles fence bounded maxInventoryAttempts w w' r /\
  (r = inr tt -> settled_once_applied (cy_publish w')).
Proof.
  intros Hw E. assert (plan_ok (w_db (cy_publish w))) as Hok
    by (rewrite Hw; apply store_run_ok, plan_ok_new).
  assert (lasting (cy_publish w) w) as Hl by (by apply quiet_durably, quiet_since_refl).
  destruct (recover_ok _ _ _ _ _ _ _ _ _ Hl E) as (_ & H2 & H3). by split.
Qed.

(** The two answers of a cycle that speak of recoveries.  [CycleForReason] asks for
    another attempt later only when the time for the recovery is over; and that the
    applied skeleton changed it reports only of a failure that arrived during an
    ordinary cycle: one that began as a recovery, by its reason or because of an open
    debt, goes on to reconcile. *)
Theorem skeleton_change_is_reconciled ops now reason torProfiles fence w r w' :
  w_db (cy_publish w) = PlanStoreRuns.run ops new_database ->
  CycleForReason renv options torSecret now reason torProfiles fence w = (r, w') ->
  (r = inl RouteRecoveryRetry -> attempt_over renv (w_calls (cy_publish w')) = true) /\
  (r = inl RecoverySkeletonChanged ->
     reason <> PlacementHardFailure /\ exists w1, stored renv PendingRouteRecoveries w = (inr [], w1)).
Proof.
  intros Hw E. assert (plan_ok (w_db (cy_publish w))) as Hok
    by (rewrite Hw; apply store_run_ok, plan_ok_new).
  by destruct (for_reason_ok _ _ _ _ _ _ _ Hok E) as (_ & _ & H3).
Qed.
End Whole.

(** ** On the small engine *)

#[local] Existing Instances sample_encoding XrayConfig.sample_net XrayConfig.sample_extra
  RenderingSafety.sample_range RenderingSafety.sample_dns_codec RenderingSafety.sample_config_codec
  EngineCycleSafety.plain_text.

#[local] Instance sample_dns_reader : DNSReader := fun s =>
  (fun '(c, _) => {|
     df_rewriteAddress := from_option RewriteAddress EmptyString (Settings c);
     df_dialerProxy := default EmptyString (default None (StreamSettings c));
     df_tag := EmptyString |}) <$> sample_decode s.

(** Alice's applied route goes over [cand_a], which fails; [cand_b] is well. *)
Definition failing_inventory : Inventory := {|
  iv_candidates := iv_candidates ready_inventory; iv_sources := iv_sources ready_inventory;
  iv_health := {["cand_a" := stored_health true; "cand_b" := stored_health false]}%string;
  iv_probes := iv_probes ready_inventory; iv_samples := [];
  iv_domains := ∅; iv_evidence := ∅; iv_qoe := ∅; iv_epoch := 0 |}.

Definition failing_ops : list (Outcome * StoreOp) :=
  stored_ops ++ [(Commits, OpInventory failing_inventory);
                 (Commits, OpFailure (stored_candidate "cand_a") (of_unix 90))].

Definition failing_env : RecoveryEnv := {| re_cycle := ready_env; attempt_over := fun _ => false |}.

Definition failing_start : CycleWorld := {|
  cy_publish := {| w_db := PlanStoreRuns.run failing_ops new_database; w_sched := sample_scheduler; w_calls := [] |};
  cy_active := None; cy_bootstrap := None; cy_moments := []; cy_preview := BeginPreview sample_scheduler |}.

Lemma failing_start_stored :
  w_db (cy_publish failing_start) = PlanStoreRuns.run failing_ops new_database.
Proof. cbv beta iota delta [failing_start cy_publish w_db]. reflexivity. Qed.

Definition recovered : (RecoveryError + unit) * CycleWorld :=
  CycleForReason failing_env ready_options [1; 2; 3] (of_unix 100) "periodic" [] None failing_start.

(** Alice moves to the other route, her flows are handed over, and the debts are paid. *)
Example recovered_state :
  recovered.1 = inr tt /\
  applied_generation (plan_state (w_db (cy_publish recovered.2))) = 2 /\
  size (route_recovery (w_db (cy_publish failing_start))) = 2%nat /\
  route_recovery (w_db (cy_publish recovered.2)) = ∅.
Proof. vm_compute. repeat split. Qed.

Lemma recovery_publishes_durably_witness :
  recovered.1 = inr tt /\
  durably (cy_publish failing_start) (cy_publish recovered.2) /\
  exists start, durably (cy_publish failing_start) (cy_publish start) /\
    concluded failing_env ready_options [1; 2; 3] (of_unix 100) [] None start recovered.2.
Proof.
  assert (recovered.1 = inr tt) as Hr by (vm_compute; reflexivity). split; [exact Hr|].
  destruct (@recovery_publishes_durably stored_json stored_codec open_vault stored_payload
    stored_payload_laws sample_encoding EngineCycleSafety.plain_text RenderingSafety.sample_dns_codec
    RenderingSafety.sample_config_codec XrayConfig.sample_net XrayConfig.sample_extra
    RenderingSafety.sample_range sample_dns_reader failing_env ready_options [1; 2; 3] failing_ops
    (of_unix 100) "periodic"%string [] None failing_start recovered.1 recovered.2 failing_start_stored
    (surjective_pairing recovered)) as [Hd Hs].
  split; [exact Hd|exact (Hs Hr)].
Defined.

Definition recovered_alone : (RecoveryError + unit) * CycleWorld :=
  recoverHardFailure failing_env ready_options [1; 2; 3] (of_unix 100) [] None true failing_start.

Lemma recovered_alone_run :
  recoverHardFailure failing_env ready_options [1; 2; 3] (of_unix 100) [] None true failing_start =
  (recovered_alone.1, recovered_alone.2).
Proof. unfold recovered_alone. apply surjective_pairing. Qed.

Lemma recovery_ends_in_order_witness :
  recovered_alone.1 = inr tt /\ settled_once_applied (cy_publish recovered_alone.2) /\
  ended failing_env ready_options [1; 2; 3] (of_unix 100) [] None true maxInventoryAttempts failing_start
    recovered_alone.2 recovered_alone.1.
Proof.
  assert (recovered_alone.1 = inr tt) as Hr by (vm_compute; reflexivity). split; [exact Hr|].
  destruct (@recovery_ends_in_order stored_json stored_codec open_vault stored_payload
    stored_payload_laws EngineCycleSafety.plain_text RenderingSafety.sample_dns_codec
    RenderingSafety.sample_config_codec XrayConfig.sample_net XrayConfig.sample_extra
    RenderingSafety.sample_range sample_dns_reader failing_env ready_options [1; 2; 3] failing_ops
    (of_unix 100) [] None true failing_start recovered_alone.1 recovered_alone.2 failing_start_stored
    recovered_alone_run) as [He Hn].
  split; [exact (Hn Hr)|exact He].
Defined.

(** With no time left and a store that is interrupted, the cycle asks for another try. *)
Definition late_env : RecoveryEnv := {|
  re_cycle := {|
    ce_publish := {|
      activeCriticalRouteLimit := 2; recovering_agent := true;
      outcome := fun calls => if (3 <=? Z.of_nat (length calls)) then Interrupted else Commits;
      others := fun _ => []; owner_now := fun _ s => s; fence_free := fun _ _ => true;
      agent_ok := fun _ _ _ => true; clock := fun _ => of_unix 400 |};
    ce_active := None; ce_bootstrap := None; activity := fun _ => Some []; elapsed := fun _ => 0 |};
  attempt_over := fun _ => true |}.

Definition late_recovery : (RecoveryError + unit) * CycleWorld :=
  CycleForReason late_env ready_options [1; 2; 3] (of_unix 100) "periodic" [] None failing_start.

Lemma skeleton_change_is_reconciled_witness :
  late_recovery.1 = inl RouteRecoveryRetry /\
  attempt_over late_env (w_calls (cy_publish late_recovery.2)) = true.
Proof.
  assert (late_recovery.1 = inl RouteRecoveryRetry) as Hr by (vm_compute; reflexivity). split; [exact Hr|].
  destruct (@skeleton_change_is_reconciled stored_json stored_codec open_vault stored_payload
    stored_payload_laws sample_encoding EngineCycleSafety.plain_text RenderingSafety.sample_dns_codec
    RenderingSafety.sample_config_codec XrayConfig.sample_net XrayConfig.sample_extra
    RenderingSafety.sample_range sample_dns_reader late_env ready_options [1; 2; 3] failing_ops
    (of_unix 100) "periodic"%string [] None failing_start late_recovery.1 late_recovery.2 failing_start_stored
    (surjective_pairing late_recovery)) as [Hl _].
  exact (Hl Hr).
Defined.
