(* ===== verification/HardFailureSafety.v ===== *)
(** Which routes a confirmed failure moves and where to (HardFailure.v): only failed or
    indebted transports, onto the reserve that the applied plan names while that is
    still good, or onto an emergency choice; and none is left that could be moved. *)
From Stdlib Require Import Floats String.
From S2P Require Import Prelude Effects GoOrder GoFloat GoStrings GoSort QoE SchedLoad SchedState SchedReserves.
From S2P Require Import DataPlan DataChange Gateway Handlers XrayConfig StoreTables RouteRecovery PlanStore RoutingSnapshot PlanStoreRuns.
From S2P Require EnginePublish CoveragePlan RouteSafety StoreSample EngineSample RenderingSafety EngineCycleSafety EngineCycleDurable HardFailureDurable.
From S2P Require Import RouteCandidates PlanRendering PlacementQueue PlanningKey EngineCycle HardFailure.

#[local] Open Scope Z_scope.
#[local] Open Scope effect_scope.

(** Programs whose failures do not matter here. *)
Definition gives {W E A : Type} (m : Prog W E A) (Q : A -> Prop) : Prop :=
  forall w a w', m w = (inr a, w') -> Q a.

Lemma gives_ret {W E A : Type} (a : A) (Q : A -> Prop) : Q a -> gives (W := W) (E := E) (ret a) Q.
Proof. by intros Ha w a' w' [= <- _]. Qed.

Lemma gives_bind {W E A B : Type} (m : Prog W E A) (k : A -> Prog W E B) (S : A -> Prop) (Q : B -> Prop) :
  gives m S -> (forall a, S a -> gives (k a) Q) -> gives (bind m k) Q.
Proof.
  intros Hm Hk w b w'. unfold bind. destruct (m w) as [[e|a] w1] eqn:E1; [done|].
  apply (Hk a). by eapply Hm.
Qed.

Lemma gives_any {W E A : Type} (m : Prog W E A) : gives m (fun _ => True).
Proof. by intros w a w' _. Qed.

Section Safety.
Context `{JS : Json} `{PC : PlanCodec} `{VT : Vault} `{YC : EnginePublish.PayloadCodec}
  `{EN : Encoding} `{TX : TextLib} `{DC : DNSCodec} `{CC : ConfigCodec} `{NL : NetLib}
  `{XC : ExtraCodec} `{MR : MapRange} `{DR : DNSReader}.
Context (renv : RecoveryEnv) (options : EngineOptions) (torSecret : list Z).
Context (now : Time) (profiles : list Profile) (i : RepairInputs).

(** ** What the repair starts from *)

(** The snapshot is taken of well-formed evidence, the states are of this snapshot, and
    the plan is valid. *)
Record inputs_ok : Prop := {
  io_snapshot : RouteSafety.routes_ok (ri_snapshot i);
  io_states : exists includeStale, ri_states i = states_of options now includeStale (ri_snapshot i);
  io_clients : NoDup (map ClientID (Clients (ri_plan i)))
}.

Hypothesis Hok : inputs_ok.

Lemma states_known id st : ri_states i !! id = Some st ->
  allByID (ri_snapshot i) !! id = Some (fs_candidate st) /\
  (hardFailed st = true -> exists health, healthByID (ri_snapshot i) !! id = Some health /\
     hl_ActiveCurrent health = true /\ hl_ActiveHardFailure health = true).
Proof.
  destruct (io_states Hok) as [stale ->]. unfold states_of. rewrite map_lookup_imap.
  destruct (allByID _ !! id) as [c|]; [|done]. intros [= <-]. split; [done|]. cbn.
  destruct (healthByID _ !! id) as [health|]; [|done]. cbn. unfold hard_failed.
  rewrite !andb_true_iff. intros [[H1 _] H3]. by exists health.
Qed.

(** A known candidate goes by its name; the others have none. *)
Lemma candidate_named id : SchedLoad.ID (candidate_of (ri_states i) id) = id \/
  candidate_of (ri_states i) id = zero_candidate.
Proof.
  unfold candidate_of, failure_state. destruct (ri_states i !! id) as [st|] eqn:E; [left|by right].
  apply states_known in E as [E _]. by apply (RouteSafety.ro_keyed _ (io_snapshot Hok)) in E as [? _].
Qed.

Lemma emergency_named id c : In c (emergency_of i id) -> SchedLoad.ID c <> EmptyString.
Proof.
  unfold emergency_of, emergency_candidates. destruct (ri_states i !! id) as [st|]; [|done].
  case_if; [|done]. unfold hardFailureEmergencyCandidates.
  pose proof (RouteSafety.ro_named _ (io_snapshot Hok)) as Hn. case_if; [apply Hn|].
  destruct (allByID _ !! id) as [f|] eqn:Ef; [|apply Hn].
  intros [Hc|[<-|[]]]%in_app_iff; [by apply Hn|].
  by apply (RouteSafety.ro_keyed _ (io_snapshot Hok)) in Ef as [-> ?].
Qed.

(** ** What the scheduler answers *)

(** The engine's scheduler as it was at some moment. *)
Definition asked (s : Scheduler) : Prop :=
  exists calls s0, s = EnginePublish.owner_now (ce_publish (re_cycle renv)) calls s0.

(** May take over from [failed] in an emergency. *)
Definition emergency_fit (s : Scheduler) (client network failed : string) (c : SchedLoad.Candidate) : Prop :=
  In c (emergency_of i failed) /\ open_for_work c /\ SchedLoad.ID c <> failed /\
  distinct_route (get_candidate (index_by_id (emergency_of i failed)) failed) c /\
  seen now s client (SchedLoad.ID c) = false /\ carries network c.

(** None may. *)
Definition stranded (client network failed : string) : Prop :=
  exists s, asked s /\ forall c, ~ emergency_fit s client network failed c.

Definition emergency_answer (client network failed id : string) : Prop :=
  (id = EmptyString -> stranded client network failed) /\
  (id <> EmptyString -> exists s c, asked s /\ SchedLoad.ID c = id /\
     emergency_fit s client network failed c).

Lemma emergency_gives client network failed load domainLoad :
  gives (emergency_route renv now i client network failed load domainLoad)
    (emergency_answer client network failed).
Proof.
  intros w id w'. unfold emergency_route, asking.
  set (owner := EnginePublish.owner_now _ _ _).
  destruct (emergency_run now client network failed (emergency_of i failed) load domainLoad
    {| sched := owner; budget := None |} eq_refl (emergency_named failed)) as (id' & s & -> & _ & Hn & Hs).
  intros [= <- _]. assert (asked owner) as Ha by (eexists _, _; reflexivity). cbn [sched] in Hn, Hs. split.
  - intros Hid. exists owner. split; [done|]. intros c (Hc & Hf). by apply (Hn Hid c).
  - intros Hid. destruct (Hs Hid) as (c & Hc & Hcid & Hf). exists owner, c. by split_and!.
Qed.

Definition network_of (t : RouteTransport) : string :=
  match t with RouteTransportTCP => tcp | RouteTransportUDP => udp end.

(** The reserve in the handler, which the scheduler would select for the failed route. *)
Definition reserve_answer (client : string) (t : RouteTransport) (failed handler : string)
    (answer : option string) : Prop :=
  forall id, answer = Some id -> id <> EmptyString /\ candidateIDFromHandler handler client = id /\
    exists s, asked s /\ reserve_fit now s client (network_of t) (candidate_of (ri_states i) failed) true
      (candidate_of (ri_states i) id).

Lemma two_candidates failed id (primary c : SchedLoad.Candidate) s client network :
  id <> EmptyString -> failed <> EmptyString ->
  index_by_id (map (candidate_of (ri_states i)) [failed; id]) !! failed = Some primary ->
  In c (map (candidate_of (ri_states i)) [failed; id]) -> SchedLoad.ID c = id ->
  reserve_fit now s client network primary true c ->
  primary = candidate_of (ri_states i) failed /\ c = candidate_of (ri_states i) id.
Proof.
  intros Hid Hfailed Hp Hc Hcid Hfit. pose proof Hfit as (_ & (Hne & _) & _).
  apply index_by_Some in Hp as [Hpin Hpid].
  assert (failed <> id) as Hdiff by congruence.
  assert (forall x y, In x (map (candidate_of (ri_states i)) [failed; id]) -> SchedLoad.ID x = y ->
    y <> EmptyString -> (y = failed -> x = candidate_of (ri_states i) failed) /\
                        (y = id -> x = candidate_of (ri_states i) id)) as Hpick.
  { intros x y [<-|[<-|[]]] Hx Hy; split; intros ->; try done.
    - destruct (candidate_named failed) as [E|E]; [congruence|]. rewrite E in Hx. by rewrite <- Hx in Hid.
    - destruct (candidate_named id) as [E|E]; [congruence|]. rewrite E in Hx. by rewrite <- Hx in Hfailed. }
  split; [by apply (Hpick primary failed)|by apply (Hpick c id)].
Qed.

Lemma select_run client a candidates w : budget w = None ->
  exists r s, SelectReserves now client a candidates w = (inr r, w <| sched := s |>) /\
    let choice network primary := reserve_choice (policy (sched w)) (excl_set now (sched w)) client network
      primary candidates (index_by_id candidates) true EmptyString in
    r = {| rs_TCP := choice tcp (TCP a); rs_UDP := choice udp (UDP a) |}.
Proof.
  intros Hb. unfold SelectReserves, SelectReservesContext.
  destruct (selectReserves_run now client a candidates true zero_reserve w Hb) as (s & _ & ->).
  by eexists _, _.
Qed.

(** The store answers with a reserve or with none, never with an empty one. *)
Lemma stored_reserve client t failed :
  gives (stored renv (fun o => AppliedReserveForFailure o client t failed))
    (fun answer => answer <> Some EmptyString).
Proof.
  intros w answer w'. unfold stored, cycling, store, publishing, EnginePublish.store_call.
  set (d := EnginePublish.intervene _ _). set (o := EnginePublish.outcome _ _).
  destruct (AppliedReserveForFailure o client t failed d) as [[e|r] d'] eqn:E; [done|].
  intros [= <- _] ->. unfold AppliedReserveForFailure in E. case_if; [done|].
  unfold query, transaction, get in E. destruct o; try discriminate E. injection E as E _.
  unfold applied_reserve in E. destruct (applied_reserves d !! client) as [[g m]|]; [|done].
  destruct (assignments d !! client) as [row|]; [|done].
  destruct (_ && _) eqn:Eb in E; [|done]. injection E as E.
  rewrite !andb_true_iff, negb_true_iff in Eb. destruct Eb as [[_ Hne] _]. str_bool. done.
Qed.

Lemma selected_gives client t failed handler : failed <> EmptyString ->
  gives (selected_reserve renv now i client t failed handler) (reserve_answer client t failed handler).
Proof.
  intros Hfailed. unfold selected_reserve. eapply gives_bind; [apply stored_reserve|]. intros answer Hstored. cbv zeta.
  intros w r w'. unfold bind at 1, asking. set (owner := EnginePublish.owner_now _ _ _).
  set (candidates := map _ _). set (a := match t with RouteTransportTCP => _ | RouteTransportUDP => _ end).
  destruct (select_run client a candidates {| sched := owner; budget := None |} eq_refl) as (sel & s & -> & Hsel).
  intros [= <- _] id. destruct answer as [reserve|]; [|done]. destruct (_ && _) eqn:E; [|done].
  intros [= <-]. apply andb_true_iff in E as [E1 E2]. str_bool.
  assert (reserve_choice (policy owner) (excl_set now owner) client (network_of t) failed candidates
    (index_by_id candidates) true EmptyString = reserve) as Hr by (rewrite <- E1, Hsel; by destruct t).
  destruct (reserve_choice_sound (policy owner) now owner client (network_of t) failed candidates
    (index_by_id candidates) true EmptyString) as [Hs _]. rewrite Hr in Hs.
  assert (reserve <> EmptyString) as Hne by congruence.
  split; [done|]. split; [done|]. destruct (Hs Hne) as (primary & c & Hp & Hc & Hid & Hf).
  destruct (two_candidates failed reserve primary c owner client (network_of t) Hne Hfailed Hp Hc Hid Hf)
    as [-> ->]. exists owner. split; [by eexists _, _|done].
Qed.

(** ** One transport *)

Abbreviation failed_tcp a := (as_TCPOutbound a) (only parsing).
Abbreviation failed_udp a := (as_UDPOutbound a) (only parsing).

Definition same_tcp (a a' : AssignmentRecord) (r r' : ClientRoute) : Prop :=
  as_TCPOutbound a' = as_TCPOutbound a /\ as_TCPSince a' = as_TCPSince a /\
  TCPOutbound r' = TCPOutbound r /\ DNSOutbound r' = DNSOutbound r /\ BlockTCP r' = BlockTCP r /\
  TCPReserveOutbound r' = TCPReserveOutbound r.

Definition same_udp (a a' : AssignmentRecord) (r r' : ClientRoute) : Prop :=
  as_UDPOutbound a' = as_UDPOutbound a /\ as_UDPSince a' = as_UDPSince a /\
  UDPOutbound r' = UDPOutbound r /\ BlockUDP r' = BlockUDP r /\
  UDPReserveOutbound r' = UDPReserveOutbound r.

Definition same_client (a a' : AssignmentRecord) (r r' : ClientRoute) : Prop :=
  as_ClientID a' = as_ClientID a /\ ClientID r' = ClientID r /\ SourceCIDR r' = SourceCIDR r /\
  DataPlan.Dormant r' = DataPlan.Dormant r.

(** The reserve that the applied route names, which may take over. *)
Definition installed_reserve (client : string) (t : RouteTransport) (failed handler id : string) : Prop :=
  candidateIDFromHandler handler client = id /\
  exists s, asked s /\ reserve_fit now s client (network_of t) (candidate_of (ri_states i) failed) true
    (candidate_of (ri_states i) id).

Definition emergency_pick (client : string) (t : RouteTransport) (failed id : string) : Prop :=
  exists s c, asked s /\ SchedLoad.ID c = id /\ emergency_fit s client (network_of t) failed c.

Definition tcp_onto (client failed id : string) (r r' : ClientRoute) : Prop :=
  (TCPOutbound r' = TCPReserveOutbound r /\
   installed_reserve client RouteTransportTCP failed (TCPReserveOutbound r) id /\
   mappedReserveHandlerMatchesCurrentProfile torSecret client id (TCPReserveOutbound r)
     (Outbounds (ri_plan i)) (rowsByID (ri_snapshot i)) profiles = true /\
   DNSOutbound r' = dnsHandlerForClientTarget client (TCPReserveOutbound r) (Outbounds (ri_plan i)) /\
   DNSOutbound r' <> EmptyString) \/
  (emergency_pick client RouteTransportTCP failed id /\ exists before between after_,
   candidate_outbound torSecret i client id before = inr (TCPOutbound r', between) /\
   render_dns options client id (TCPOutbound r') between = inr (DNSOutbound r', after_)).

Definition udp_onto (client failed id : string) (r r' : ClientRoute) : Prop :=
  (UDPOutbound r' = UDPReserveOutbound r /\
   installed_reserve client RouteTransportUDP failed (UDPReserveOutbound r) id) \/
  (emergency_pick client RouteTransportUDP failed id /\ exists before after_,
   candidate_outbound torSecret i client id before = inr (UDPOutbound r', after_)).

Definition tcp_moved (client : string) (a a' : AssignmentRecord) (r r' : ClientRoute) : Prop :=
  as_TCPOutbound a' <> EmptyString /\ as_TCPSince a' = now /\ BlockTCP r' = false /\
  TCPReserveOutbound r' = EmptyString /\ tcp_onto client (failed_tcp a) (as_TCPOutbound a') r r'.

Definition udp_moved (client : string) (a a' : AssignmentRecord) (r r' : ClientRoute) : Prop :=
  as_UDPOutbound a' <> EmptyString /\ as_UDPSince a' = now /\ BlockUDP r' = false /\
  UDPReserveOutbound r' = EmptyString /\ udp_onto client (failed_udp a) (as_UDPOutbound a') r r'.

(** The assigned candidate is known to fail hard, or a recovery of the route is due. *)
Definition broken (client : string) (t : RouteTransport) (assigned : string) : Prop :=
  assigned <> EmptyString /\
  ((exists st, ri_states i !! assigned = Some st /\ hardFailed st = true) \/
   transport_key client t ∈ ri_debts i).

(** Only a broken transport moves, and it stays only when nothing may take over. *)
Definition tcp_repaired (client : string) (a a' : AssignmentRecord) (r r' : ClientRoute) : Prop :=
  (broken client RouteTransportTCP (failed_tcp a) /\ tcp_moved client a a' r r') \/
  (same_tcp a a' r r' /\ (broken client RouteTransportTCP (failed_tcp a) -> stranded client tcp (failed_tcp a))).

Definition udp_repaired (client : string) (a a' : AssignmentRecord) (r r' : ClientRoute) : Prop :=
  (broken client RouteTransportUDP (failed_udp a) /\ udp_moved client a a' r r') \/
  (same_udp a a' r r' /\ (broken client RouteTransportUDP (failed_udp a) -> stranded client udp (failed_udp a))).

(** Only a change is stored. *)
Definition flagged (c c' : ClientRepair) : Prop :=
  (cr_changed c = true -> cr_changed c' = true) /\
  (cr_changed c' = false -> cr_assignment c' = cr_assignment c).

Lemma must_move_broken client t assigned : must_move i client t assigned = true <-> broken client t assigned.
Proof.
  unfold must_move, broken, named. rewrite andb_true_iff, negb_true_iff, orb_true_iff, bool_decide_eq_true, str_eqb_neq.
  unfold failure_state. destruct (ri_states i !! assigned) as [st|]; cbn; [|naive_solver].
  split; intros [H1 [H2|H2]]; eauto 6. destruct H2 as (st' & [= <-] & H2). auto.
Qed.

(** Moving to an emergency choice, or staying for want of one. *)
Lemma fallback_gives client network failed load domainLoad (c : ClientRepair)
    (move : string -> Recovery ClientRepair) (Q : ClientRepair -> Prop) :
  (stranded client network failed -> Q c) ->
  (forall id, id <> EmptyString ->
     (exists s c, asked s /\ SchedLoad.ID c = id /\ emergency_fit s client network failed c) ->
     gives (move id) Q) ->
  gives (fallback <- emergency_route renv now i client network failed load domainLoad ;;
         if negb (named fallback) then ret c else move fallback) Q.
Proof.
  intros Hstay Hmove. eapply gives_bind; [apply emergency_gives|]. intros id [Hn Hs].
  unfold named. destruct (str_eqb id EmptyString) eqn:E; cbn [negb]; str_bool.
  - apply gives_ret. auto.
  - apply Hmove; auto.
Qed.

Lemma gives_rendering {A : Type} (x : RenderError + A) : gives (cycling (rendering x)) (fun a => x = inr a).
Proof. intros w a w'. destruct x; [done|]. by intros [= <- _]. Qed.

Lemma tcp_gives client load domainLoad c :
  gives (repair_tcp renv options torSecret now profiles i client load domainLoad c) (fun c' =>
    tcp_repaired client (cr_assignment c) (cr_assignment c') (cr_route c) (cr_route c') /\
    same_udp (cr_assignment c) (cr_assignment c') (cr_route c) (cr_route c') /\
    same_client (cr_assignment c) (cr_assignment c') (cr_route c) (cr_route c') /\ flagged c c').
Proof.
  unfold repair_tcp, tcp_repaired. cbv zeta. set (failed := as_TCPOutbound (cr_assignment c)).
  destruct (must_move i client RouteTransportTCP failed) eqn:Emove; cbn [negb].
  2: { apply gives_ret. split; [right; split; [by split_and!|]|by split_and!].
       rewrite <- must_move_broken. fold failed. by rewrite Emove. }
  apply must_move_broken in Emove. pose proof Emove as [Hfailed _]. set (outbounds := Outbounds (ri_plan i)).
  set (handler := TCPReserveOutbound (cr_route c)).
  eapply gives_bind; [by apply selected_gives|]. intros selected Hsel.
  eapply gives_bind; [apply gives_any|]. intros crowded _.
  set (installed := match selected with Some _ => _ | None => None end).
  set (Q := fun c' : ClientRepair => _). assert (gives (fallback <-
    emergency_route renv now i client tcp failed load domainLoad ;;
    if negb (named fallback) then ret c
    else
      route <- cycling (rendering (candidate_outbound torSecret i client fallback (cr_outbounds c))) ;;
      dns <- cycling (rendering (render_dns options client fallback route.1 route.2)) ;;
      ret (move_tcp now i c fallback route.1 dns.1 dns.2)) Q) as Hfallback.
  { apply fallback_gives; [intros Hs; split; [right; by split_and!|by split_and!]|]. intros id Hid Hpick.
    eapply gives_bind; [apply gives_rendering|]. intros [h between] Hr.
    eapply gives_bind; [apply gives_rendering|]. intros [dns after_] Hdns. apply gives_ret.
    split; [left; split; [done|]|by split_and!]. split_and!; try done. right. split; [exact Hpick|].
    by exists (cr_outbounds c), between, after_. }
  destruct installed as [reserve|] eqn:Einst; [|exact Hfallback].
  destruct (negb crowded && named (dnsHandlerForClientTarget client handler outbounds)) eqn:Eb; [|exact Hfallback].
  apply gives_ret. apply andb_true_iff in Eb as [_ Edns]. unfold named in Edns.
  apply negb_true_iff in Edns. str_bool. unfold installed in Einst. destruct selected as [r|]; [|done].
  destruct (mappedReserveHandlerMatchesCurrentProfile _ _ _ _ _ _ _) eqn:Emap; [|done].
  injection Einst as ->. destruct (Hsel reserve eq_refl) as (Hne & Hname & Hs).
  split; [left; split; [done|]|by split_and!]. split_and!; try done. left. by split_and!.
Qed.

Lemma udp_gives client load domainLoad c :
  gives (repair_udp renv torSecret now i client load domainLoad c) (fun c' =>
    udp_repaired client (cr_assignment c) (cr_assignment c') (cr_route c) (cr_route c') /\
    same_tcp (cr_assignment c) (cr_assignment c') (cr_route c) (cr_route c') /\
    same_client (cr_assignment c) (cr_assignment c') (cr_route c) (cr_route c') /\ flagged c c').
Proof.
  unfold repair_udp, udp_repaired. cbv zeta. set (failed := as_UDPOutbound (cr_assignment c)).
  destruct (must_move i client RouteTransportUDP failed) eqn:Emove; cbn [negb].
  2: { apply gives_ret. split; [right; split; [by split_and!|]|by split_and!].
       rewrite <- must_move_broken. fold failed. by rewrite Emove. }
  apply must_move_broken in Emove. pose proof Emove as [Hfailed _]. set (handler := UDPReserveOutbound (cr_route c)).
  eapply gives_bind; [by apply selected_gives|]. intros selected Hsel.
  eapply gives_bind; [apply gives_any|]. intros crowded _.
  set (Q := fun c' : ClientRepair => _). assert (gives (fallback <-
    emergency_route renv now i client udp failed load domainLoad ;;
    if negb (named fallback) then ret c
    else
      route <- cycling (rendering (candidate_outbound torSecret i client fallback (cr_outbounds c))) ;;
      ret (move_udp now c fallback route.1 route.2)) Q) as Hfallback.
  { apply fallback_gives; [intros Hs; split; [right; by split_and!|by split_and!]|]. intros id Hid Hpick.
    eapply gives_bind; [apply gives_rendering|]. intros [h after_] Hr. apply gives_ret.
    split; [left; split; [done|]|by split_and!]. split_and!; try done. right. split; [exact Hpick|].
    by exists (cr_outbounds c), after_. }
  destruct selected as [reserve|]; [|exact Hfallback]. destruct (negb crowded); [|exact Hfallback].
  apply gives_ret. destruct (Hsel reserve eq_refl) as (Hne & Hname & Hs).
  split; [left; split; [done|]|by split_and!]. split_and!; try done. left. by split_and!.
Qed.

(** ** One client *)

Definition client_repaired (client : string) (a a' : AssignmentRecord) (r r' : ClientRoute) : Prop :=
  same_client a a' r r' /\ tcp_repaired client a a' r r' /\ udp_repaired client a a' r r'.

Definition assigned_in (m : gmap string AssignmentRecord) (client : string) : AssignmentRecord :=
  default zero_record (m !! client).

(** What the repair of a transport says depends on its own fields alone. *)
Lemma tcp_after_udp client a a1 a2 r r1 r2 :
  tcp_repaired client a a1 r r1 -> same_tcp a1 a2 r1 r2 -> tcp_repaired client a a2 r r2.
Proof.
  unfold tcp_repaired, tcp_moved, same_tcp, tcp_onto. intros H (E1 & E2 & E3 & E4 & E5 & E6).
  rewrite E1, E2, E3, E4, E5, E6. exact H.
Qed.

Lemma udp_after_tcp client a a1 a2 r r1 r2 :
  same_udp a a1 r r1 -> udp_repaired client a1 a2 r1 r2 -> udp_repaired client a a2 r r2.
Proof.
  unfold udp_repaired, udp_moved, same_udp, udp_onto. intros (E1 & E2 & E3 & E4 & E5).
  rewrite E1, E2, E3, E4, E5. done.
Qed.

Lemma client_gives client load domainLoad c :
  gives (c1 <- repair_tcp renv options torSecret now profiles i client load domainLoad c ;;
         repair_udp renv torSecret now i client load domainLoad c1) (fun c' =>
    client_repaired client (cr_assignment c) (cr_assignment c') (cr_route c) (cr_route c') /\ flagged c c').
Proof.
  eapply gives_bind; [apply tcp_gives|]. intros c1 (H1 & H2 & H3 & [F1 F2]) w c' w' E.
  destruct (udp_gives client load domainLoad c1 w c' w' E) as (G1 & G2 & G3 & [F3 F4]). split; [split_and!|].
  - destruct H3 as (? & ? & ? & ?), G3 as (? & ? & ? & ?). split_and!; congruence.
  - by eapply tcp_after_udp.
  - by eapply udp_after_tcp.
  - split; [auto|]. intros Hn. rewrite (F4 Hn). apply F2.
    destruct (cr_changed c1) eqn:E1; [|done]. by rewrite (F3 eq_refl) in Hn.
Qed.

Lemma gives_assoc {A B C : Type} (m : Recovery A) (k : A -> Recovery B) (j : B -> Recovery C) Q :
  gives (bind (bind m k) j) Q -> gives (bind m (fun a => bind (k a) j)) Q.
Proof.
  intros H w c w' E. apply (H w c w'). revert E. unfold bind. by destruct (m w) as [[e|a] w1].
Qed.

Lemma route_index_spec routes client n : NoDup (map ClientID routes) ->
  route_index routes !! client = Some n <-> exists r, routes !! n = Some r /\ ClientID r = client.
Proof.
  unfold route_index. revert n. induction routes as [|r routes IH] using rev_ind; intros n Hnd.
  { cbn. rewrite lookup_empty. split; [done|]. intros (r & Hr & _). by rewrite lookup_nil in Hr. }
  rewrite map_app in Hnd. apply NoDup_app in Hnd as (Hnd & Hnew & _).
  rewrite imap_app, fold_left_app. cbn [imap fold_left]. rewrite Nat.add_0_r, lookup_insert_Some, IH by done.
  split.
  - intros [[<- <-]|[Hne (x & Hx & Hxc)]]; [exists r; by rewrite list_lookup_middle|].
    exists x. split; [by apply lookup_app_l_Some|done].
  - intros (x & Hx & Hxc). apply lookup_app_Some in Hx as [Hx|[Hle Hx]].
    + right. split; [|by exists x]. intros Hr. apply (Hnew (ClientID r)); [|by left].
      rewrite Hr, <- Hxc. apply list_elem_of_In, in_map, list_elem_of_In. by eapply list_elem_of_lookup_2.
    + left. destruct (n - length routes)%nat eqn:En; [|done]. cbn in Hx. injection Hx as ->.
      split; [done|lia].
Qed.

Lemma repair_client_gives r client : NoDup (map ClientID (rp_routes r)) ->
  gives (repair_client renv options torSecret now profiles i r client) (fun r' =>
    (forall other, other <> client -> rp_assignments r' !! other = rp_assignments r !! other) /\
    (r' = r /\ (paused_client i client = true \/ forall n x, rp_routes r !! n = Some x -> ClientID x <> client) \/
     paused_client i client = false /\ exists n route route',
       rp_routes r !! n = Some route /\ ClientID route = client /\
       rp_routes r' = <[n := route']> (rp_routes r) /\
       client_repaired client (assigned_in (rp_assignments r) client)
         (assigned_in (rp_assignments r') client) route route')).
Proof.
  intros Hnd. unfold repair_client. cbv zeta.
  destruct (paused_client i client) eqn:Epaused.
  { apply gives_ret. split; [done|]. left. auto. }
  pose proof (route_index_spec (rp_routes r) client) as Hspec.
  destruct (route_index (rp_routes r) !! client) as [n|] eqn:En.
  2: { apply gives_ret. split; [done|]. left. split; [done|]. right. intros n x Hx Hxc.
       assert (@None nat = Some n) as H by (apply Hspec; [done|by exists x]). discriminate H. }
  destruct (proj1 (Hspec n Hnd) eq_refl) as (route & Hroute & Hclient). rewrite Hroute.
  apply gives_assoc. eapply gives_bind; [apply client_gives|]. cbn [cr_assignment cr_route].
  intros c [Hc [_ Hflag]]. cbn [cr_changed cr_assignment] in Hflag. apply gives_ret.
  assert (cr_changed c = false -> cr_assignment c = assigned_in (rp_assignments r) client) as Hsame by done.
  cbn [rp_assignments rp_routes]. split.
  - intros other Hne. destruct (cr_changed c); [|done]. by rewrite lookup_insert_ne.
  - right. split; [done|]. exists n, route, (cr_route c). split_and!; try done.
    destruct (cr_changed c) eqn:Ech.
    + unfold assigned_in at 2. rewrite lookup_insert_eq. exact Hc.
    + by rewrite <- Hsame at 2.
Qed.

Lemma gives_foldM {A B : Type} (f : B -> A -> Recovery B) (I : list A -> B -> Prop) l b :
  (forall visited x todo b, l = visited ++ x :: todo -> I visited b -> gives (f b x) (I (visited ++ [x]))) ->
  I [] b -> gives (foldM f b l) (I l).
Proof.
  intros Hstep.
  assert (forall todo visited b, l = visited ++ todo -> I visited b -> gives (foldM f b todo) (I l)) as H;
    [|by apply (H l [])].
  induction todo as [|x todo IH]; intros visited b' Hl Hb; cbn [foldM].
  - apply gives_ret. rewrite app_nil_r in Hl. by subst.
  - eapply gives_bind; [by eapply Hstep|]. intros b1 Hb1. apply (IH (visited ++ [x])); [|done].
    by rewrite <- app_assoc.
Qed.

(** ** All clients *)

Section Loop.
Context (assignments : gmap string AssignmentRecord).

Abbreviation routes := (Clients (ri_plan i)).

(** A route before and after, once its client had its turn or not. *)
Definition route_after (turn : bool) (r : Repair) (route route' : ClientRoute) : Prop :=
  let client := ClientID route in
  let a := assigned_in assignments client in
  let a' := assigned_in (rp_assignments r) client in
  if turn && negb (paused_client i client) then client_repaired client a a' route route'
  else route' = route /\ a' = a.

Lemma route_after_client turn r route route' : route_after turn r route route' ->
  ClientID route' = ClientID route.
Proof. unfold route_after. case_if; [by intros [(_ & ? & _) _]|by intros [-> _]]. Qed.

Definition loop (visited : list string) (r : Repair) : Prop :=
  Forall2 (fun route => route_after (bool_decide (ClientID route ∈ visited)) r route) routes (rp_routes r) /\
  (forall client, client ∉ visited \/ (forall route, In route routes -> ClientID route <> client) ->
     rp_assignments r !! client = assignments !! client).

Lemma loop_clients visited r : loop visited r -> map ClientID (rp_routes r) = map ClientID routes.
Proof.
  intros [H _]. induction H as [|route route' l k Hr _ IH]; [done|]. cbn. rewrite IH.
  f_equal. by eapply route_after_client.
Qed.

Lemma loop_other visited client r r' route route' : client ∉ visited -> ClientID route <> client ->
  (forall other, other <> client -> rp_assignments r' !! other = rp_assignments r !! other) ->
  route_after (bool_decide (ClientID route ∈ visited)) r route route' ->
  route_after (bool_decide (ClientID route ∈ visited ++ [client])) r' route route'.
Proof.
  intros Hnew Hne Hother. unfold route_after, assigned_in. rewrite (Hother _ Hne).
  assert (bool_decide (ClientID route ∈ visited ++ [client]) = bool_decide (ClientID route ∈ visited)) as ->;
    [|done].
  apply bool_decide_ext. rewrite elem_of_app, list_elem_of_singleton. tauto.
Qed.

Lemma loop_step visited client r : client ∉ visited -> loop visited r ->
  gives (repair_client renv options torSecret now profiles i r client) (loop (visited ++ [client])).
Proof.
  intros Hnew Hloop w r' w' E. pose proof (loop_clients _ _ Hloop) as Hmap. destruct Hloop as [Hroutes Hkeep].
  assert (NoDup (map ClientID (rp_routes r))) as Hnd by (rewrite Hmap; apply Hok).
  destruct (repair_client_gives r client Hnd w r' w' E) as [Hother Hcase].
  assert (forall other, other ∉ visited ++ [client] -> other <> client /\ other ∉ visited) as Hout
    by (intros other; rewrite elem_of_app, list_elem_of_singleton; tauto).
  destruct Hcase as [[-> Hwhy]|(Hp & n & route & route' & Hroute & Hclient & Hnew_routes & Hrep)].
  - split; [|intros other [H%Hout|H]; apply Hkeep; tauto].
    apply Forall2_lookup. intros n. rewrite Forall2_lookup in Hroutes. specialize (Hroutes n).
    destruct (routes !! n) as [x|] eqn:Ex, (rp_routes r !! n) as [x'|] eqn:Ex'; inversion Hroutes;
      subst; constructor.
    destruct (decide (ClientID x = client)) as [<-|Hne]; [|by apply (loop_other visited client r)].
    destruct Hwhy as [Hpaused|Hnone].
    + revert H1. unfold route_after. rewrite Hpaused, !andb_false_r. done.
    + exfalso. apply (Hnone n x' Ex'). by eapply route_after_client.
  - assert (exists before, routes !! n = Some before /\ before = route /\
      assigned_in (rp_assignments r) client = assigned_in assignments client) as (_ & Hbefore & -> & Ha).
    { rewrite Forall2_lookup in Hroutes. specialize (Hroutes n). rewrite Hroute in Hroutes.
      inversion Hroutes as [x y Hxy Hx Hy|]; subst. exists x. split; [done|].
      assert (ClientID x = ClientID route) as Hid by (symmetry; by eapply route_after_client).
      revert Hxy. unfold route_after. rewrite Hid, bool_decide_false by done. cbn. by intros [-> ->]. }
    split.
    + rewrite Hnew_routes. apply Forall2_lookup. intros m. rewrite Forall2_lookup in Hroutes.
      specialize (Hroutes m). destruct (decide (m = n)) as [->|Hmn].
      * rewrite Hbefore, list_lookup_insert_eq by (by eapply lookup_lt_Some). constructor.
        unfold route_after. rewrite Hclient, Hp, bool_decide_true, <- Ha;
          [done|rewrite elem_of_app, list_elem_of_singleton; by right].
      * rewrite list_lookup_insert_ne by done.
        destruct (routes !! m) as [x|] eqn:Ex, (rp_routes r !! m) as [x'|] eqn:Ex'; inversion Hroutes;
          subst; constructor.
        apply (loop_other visited (ClientID route) r); try done. intros Hxc. apply Hmn.
        eapply NoDup_lookup; [apply (io_clients Hok)| |]; rewrite list_lookup_fmap.
        -- by rewrite Ex.
        -- rewrite Hbefore. cbn. by rewrite Hxc.
    + intros other [[Hne Hout']%Hout|Hunrouted]; [rewrite Hother by done; apply Hkeep; by left|].
      rewrite Hother; [apply Hkeep; by right|]. intros ->. apply (Hunrouted route); [|done].
      apply list_elem_of_In. by eapply list_elem_of_lookup_2.
Qed.
End Loop.

(** All clients, from the assignments that were read. *)
Lemma repair_sound assignments w r w' :
  repair_clients renv options torSecret now profiles i (repair_start i assignments) w = (inr r, w') ->
  let before := index_by as_ClientID assignments in
  Forall2 (fun route => route_after before (bool_decide (is_Some (before !! ClientID route))) r route)
    (Clients (ri_plan i)) (rp_routes r) /\
  (forall client, (forall route, In route (Clients (ri_plan i)) -> ClientID route <> client) ->
     rp_assignments r !! client = before !! client).
Proof.
  intros E before. set (keys := sort_strings (map fst (map_to_list before))).
  assert (NoDup keys) as Hnd.
  { unfold keys. rewrite sort_strings_Permutation. apply NoDup_fst_map_to_list. }
  assert (gives (repair_clients renv options torSecret now profiles i (repair_start i assignments))
    (loop before keys)) as Hloop.
  { unfold repair_clients. cbn [repair_start rp_assignments]. fold before keys.
    apply (gives_foldM _ (loop before)).
    - intros visited client todo b Hkeys Hb. apply loop_step; [|done].
      rewrite Hkeys in Hnd. apply NoDup_app in Hnd as (_ & Hd & _). intros Hin. by apply (Hd client Hin); left.
    - split; [|done]. cbn [rp_routes repair_start]. apply Forall2_lookup. intros n.
      destruct (Clients (ri_plan i) !! n); constructor. unfold route_after. by rewrite bool_decide_false by set_solver. }
  destruct (Hloop _ _ _ E) as [Hroutes Hkeep]. split; [|intros client Hc; apply Hkeep; by right].
  eapply Forall2_impl; [exact Hroutes|]. intros route route'. cbv beta.
  assert (bool_decide (ClientID route ∈ keys) = bool_decide (is_Some (before !! ClientID route))) as ->; [|done].
  apply bool_decide_ext. unfold keys.
  rewrite list_elem_of_In, sort_strings_In, in_map_iff. split.
  - intros ([k a] & Hk & Hin). cbn in Hk. subst k. apply list_elem_of_In, elem_of_map_to_list in Hin. by exists a.
  - intros [a Ha]. exists (ClientID route, a). split; [done|]. by apply list_elem_of_In, elem_of_map_to_list.
Qed.
End Safety.

(** ** What a recovery reads *)

Section Read.
Context `{JS : Json} `{PC : PlanCodec} `{VT : Vault} `{YC : EnginePublish.PayloadCodec}
  `{EN : Encoding} `{TX : TextLib} `{DC : DNSCodec} `{CC : ConfigCodec} `{NL : NetLib}
  `{XC : ExtraCodec} `{MR : MapRange} `{DR : DNSReader}.
Context (renv : RecoveryEnv) (options : EngineOptions) (torSecret : list Z).

Lemma NoDup_filter_map {A B : Type} (f : A -> B) (p : A -> bool) l :
  NoDup (map f l) -> NoDup (map f (List.filter p l)).
Proof.
  induction l as [|x l IH]; [done|]. cbn [map List.filter]. intros [Hx Hl]%NoDup_cons.
  destruct (p x); [|by apply IH]. cbn [map]. apply NoDup_cons. split; [|by apply IH].
  intros Hin. apply Hx. apply list_elem_of_In, in_map_iff in Hin as (y & Hy & Hin).
  apply list_elem_of_In, in_map_iff. exists y. split; [done|]. by apply filter_incl in Hin.
Qed.

(** The routes are those of a valid plan, and the states are of the snapshot. *)
Lemma read_failures_inputs now profiles fence :
  gives (read_failures renv options torSecret now profiles fence) (fun read =>
    forall i assignments state ceiling, read = Some (i, assignments, state, ceiling) ->
      RouteSafety.routes_ok (ri_snapshot i) -> inputs_ok options now i).
Proof.
  unfold read_failures. eapply gives_bind; [apply gives_any|]. intros state _.
  destruct (AppliedGeneration state =? 0); [by apply gives_ret|]. cbv zeta.
  apply gives_bind with (S := fun applied => NoDup (map ClientID (Clients (applied.1 : DesiredPlan)))).
  { intros w applied w'. unfold engine, cycling, publishing, StoreTables.lift.
    destruct (EnginePublish.decodePersistedPlan _ _) as [e|q] eqn:E; [done|]. intros [= <- _].
    unfold EnginePublish.decodePersistedPlan in E. destruct (str_eqb _ _); [done|].
    destruct (EnginePublish.decode_payload _) as [plan|]; [|done]. destruct (negb _); [done|].
    destruct (Validate plan) eqn:Ev; [done|]. destruct (SemanticDigest plan); [done|]. injection E as <-.
    apply Validate_none in Ev. apply Ev. }
  intros applied Hnd.
  apply gives_bind with (S := fun states => exists stale, states.1 = states_of options now stale states.2).
  { unfold hardFailureCandidateStates. cbv zeta. do 4 (eapply gives_bind; [apply gives_any|]; intros ? _).
    apply gives_ret. by eexists. }
  intros states Hstates. do 2 (eapply gives_bind; [apply gives_any|]; intros ? _). case_if; [done|].
  eapply gives_bind; [apply gives_any|]. intros assignments _. apply gives_ret.
  intros i l st ceiling [= <- _ _ _] Hs. split; [exact Hs|exact Hstates|].
  cbn [ri_plan Clients]. by apply NoDup_filter_map.
Qed.

(** C2.  A confirmed failure moves what failed, soundly, and leaves nothing that could be
    moved.  From what a recovery reads, with a snapshot of well-formed
    evidence, whatever the scheduler and the store answer and others do meanwhile, the routes after the
    repair correspond one to one to those before.  The route and the assignment of a
    client that is paused or has no assignment are as they were.  For the others, client,
    address and dormancy are kept, and each transport stays exactly as it was unless its
    assigned candidate is known to fail hard or has an open debt; then it moves, with
    its assignment, either onto the reserve in the applied route - named by its handler,
    still to be selected by the scheduler in place of the failed one, for TCP built as it
    would be built now and with its own DNS handler in the plan - or onto an emergency
    candidate that is open, qualified for the network, not excluded and another route
    than the failed one, with handlers rendered for it; it is unblocked and its reserve is
    cleared.  It stays only when no emergency candidate may take over.  Assignments of
    clients without a route are not touched. *)
Theorem hard_failure_moves_what_failed now profiles fence w0 i assignments state ceiling w r w' :
  read_failures renv options torSecret now profiles fence w0 =
    (inr (Some (i, assignments, state, ceiling)), w) ->
  RouteSafety.routes_ok (ri_snapshot i) ->
  repair_clients renv options torSecret now profiles i (repair_start i assignments) w = (inr r, w') ->
  let before := index_by as_ClientID assignments in
  Forall2 (fun route => route_after renv options torSecret now profiles i before
             (bool_decide (is_Some (before !! ClientID route))) r route)
    (Clients (ri_plan i)) (rp_routes r) /\
  (forall client, (forall route, In route (Clients (ri_plan i)) -> ClientID route <> client) ->
     rp_assignments r !! client = before !! client).
Proof.
  intros Hread Hs. apply repair_sound. by apply (read_failures_inputs now profiles fence _ _ _ Hread _ _ _ _ eq_refl).
Qed.
End Read.

(** The installed reserve of a link with the Vision flow is not recognised: its handler
    carries a suffix, and it is compared with the bare candidate. *)
Lemma vision_reserve_never_matches `{JS : Json} `{CC : ConfigCodec} `{NL : NetLib} torSecret client candidate
    payload flow outbounds (rows : gmap string Candidate) profiles row :
  rows !! candidate = Some row -> c_Kind row = KindVLESS ->
  flow_of payload = Some flow -> trim_space flow = "xtls-rprx-vision"%string ->
  mappedReserveHandlerMatchesCurrentProfile torSecret client candidate (VLESSHandlerID candidate payload)
    outbounds rows profiles = false.
Proof.
  intros Hrow Hkind Hflow Hvision. unfold mappedReserveHandlerMatchesCurrentProfile, VLESSHandlerID.
  rewrite Hrow, Hkind, Hflow, Hvision. cbn [negb]. replace (str_eqb KindVLESS KindTorBridge) with false by done.
  cbn [negb]. rewrite str_eqb_refl. apply str_eqb_neq. intros E. apply (f_equal String.length) in E.
  revert E. generalize candidate. induction candidate0 as [|c s IH]; [done|]. cbn. intros [= E]. by apply IH.
Qed.

(** ** On the small engine *)

Import StoreSample EngineSample EngineCycleDurable HardFailureDurable.

#[local] Existing Instances sample_encoding XrayConfig.sample_net XrayConfig.sample_extra
  RenderingSafety.sample_range RenderingSafety.sample_dns_codec RenderingSafety.sample_config_codec
  EngineCycleSafety.plain_text sample_dns_reader.

Definition routes_checked (s : RouteCandidateSnapshot) : bool :=
  bool_decide (NoDup (map SchedLoad.ID (placementCandidates s))) &&
  forallb (fun c => named (SchedLoad.ID c) && negb (ServingOnly c)) (placementCandidates s) &&
  forallb (fun '(id, c) => str_eqb (SchedLoad.ID c) id && named id) (map_to_list (allByID s)).

Lemma routes_checked_ok s : routes_checked s = true -> RouteSafety.routes_ok s.
Proof.
  unfold routes_checked, named. rewrite !andb_true_iff, !forallb_forall. intros [[H1 H2] H3].
  apply bool_decide_eq_true in H1. split; [done| | |].
  - intros c Hc. specialize (H2 c Hc). apply andb_true_iff in H2 as [H2 _].
    apply negb_true_iff in H2. by str_bool.
  - intros id c Hc. specialize (H3 (id, c)). cbn in H3.
    apply elem_of_map_to_list, list_elem_of_In in Hc. apply H3, andb_true_iff in Hc as [E1 E2].
    apply negb_true_iff in E2. by str_bool.
  - intros c Hc. specialize (H2 c Hc). apply andb_true_iff in H2 as [_ H2]. by apply negb_true_iff in H2.
Qed.

Definition failing_read : (RecoveryError + option (RepairInputs * list AssignmentRecord * PlanState * Z)) *
    CycleWorld :=
  read_failures failing_env ready_options [1; 2; 3] (of_unix 100) [] None failing_start.

Definition repair_of (i : RepairInputs) (assignments : list AssignmentRecord) (w : CycleWorld) :
    (RecoveryError + Repair) * CycleWorld :=
  repair_clients failing_env ready_options [1; 2; 3] (of_unix 100) [] i (repair_start i assignments) w.

Lemma failing_read_run :
  read_failures failing_env ready_options [1; 2; 3] (of_unix 100) [] None failing_start = failing_read.
Proof. unfold failing_read. reflexivity. Qed.

Lemma repair_of_run i assignments w :
  repair_clients failing_env ready_options [1; 2; 3] (of_unix 100) [] i (repair_start i assignments) w =
  repair_of i assignments w.
Proof. unfold repair_of. reflexivity. Qed.

(** Alice's failed route moves, on both transports. *)
Lemma hard_failure_moves_what_failed_witness :
  exists i assignments state ceiling w r w',
    failing_read = (inr (Some (i, assignments, state, ceiling)), w) /\
    repair_of i assignments w = (inr r, w') /\
    map TCPOutbound (Clients (ri_plan i)) = ["cand_a"%string] /\
    map TCPOutbound (rp_routes r) = ["cand_b"%string] /\ map UDPOutbound (rp_routes r) = ["cand_b"%string] /\
    Forall2 (fun route => route_after failing_env ready_options [1; 2; 3] (of_unix 100) [] i
               (index_by as_ClientID assignments)
               (bool_decide (is_Some (index_by as_ClientID assignments !! ClientID route))) r route)
      (Clients (ri_plan i)) (rp_routes r).
Proof.
  assert (match failing_read with
          | (inr (Some (i, assignments, _, _)), w) =>
              routes_checked (ri_snapshot i) &&
              match repair_of i assignments w with
              | (inr r, _) => bool_decide (map TCPOutbound (Clients (ri_plan i)) = ["cand_a"%string] /\
                  map TCPOutbound (rp_routes r) = ["cand_b"%string] /\
                  map UDPOutbound (rp_routes r) = ["cand_b"%string])
              | _ => false
              end
          | _ => false
          end = true) as H by (vm_compute; reflexivity).
  pose proof failing_read_run as Hread.
  destruct failing_read as [[e|[[[[i assignments] state] ceiling]|]] w]; try discriminate H.
  apply andb_true_iff in H as [Hs H]. pose proof (repair_of_run i assignments w) as Hrep.
  destruct (repair_of i assignments w) as [[e|r] w'] eqn:Erep; [discriminate H|].
  apply bool_decide_eq_true in H as (H1 & H2 & H3).
  exists i, assignments, state, ceiling, w, r, w'. do 5 (split; [first [assumption|reflexivity]|]).
  exact (proj1 (hard_failure_moves_what_failed failing_env ready_options [1; 2; 3] (of_unix 100) [] None
    failing_start i assignments state ceiling w r w' Hread (routes_checked_ok _ Hs) Hrep)).
Defined.
