(* ===== verification/ObservationRuns.v ===== *)
(** Runs of the observation store: results are applied in the order in which they were
    reserved, each at most once; a failure that is confirmed makes what was reserved
    before it obsolete; and a route that failed comes back on later evidence only. *)
From Stdlib Require Import Floats.
From S2P Require Import Prelude Effects GoOrder GoFloat GoStrings GoSort QoE DataPlan Handlers StoreTables StoreLogic StoreSample RouteRecovery CandidateState Observations.

#[local] Open Scope Z_scope.
#[local] Open Scope effect_scope.

(** ** Clocks

    A clock counts the reservations of one stage: by fingerprint for fast probes,
    by candidate for the others. *)

Definition Clock : Type := ObservationStage * string.

Definition clock_of (c : Candidate) (stage : ObservationStage) : Clock :=
  (stage, match stage with ObservationFast => c_Fingerprint c | _ => c_ID c end).

(** The last sequence that was reserved, and the last that was applied. *)
Definition clocks (d : Database) (k : Clock) : Z * Z :=
  match k.1 with
  | ObservationFast =>
      from_option (fun p => (pr_fast_result_seq p, pr_fast_applied_seq p)) (0, 0)
        (candidate_probe_state d !! k.2)
  | ObservationFull =>
      from_option (fun h => (h_full_result_seq h, h_full_applied_seq h)) (0, 0)
        (candidate_health d !! k.2)
  | ObservationActive =>
      from_option (fun h => (h_active_result_seq h, h_active_applied_seq h)) (0, 0)
        (candidate_health d !! k.2)
  end.

(** The failures of a candidate so far; -1 before it has a row. *)
Definition generation (id : string) (d : Database) : Z :=
  from_option h_failure_generation (-1) (candidate_health d !! id).

(** The abstract clock: tickets are handed out in sequence, and a ticket is used when
    it was handed out and no later one has been used. *)
Inductive Tick := Granted (sequence : Z) | Applied (sequence : Z).

Definition tick (state : Z * Z) (t : Tick) : option (Z * Z) :=
  let '(last, used) := state in
  match t with
  | Granted n => if n =? last + 1 then Some (n, used) else None
  | Applied n => if in_turn n last used then Some (last, n) else None
  end.

Fixpoint tick_all (state : Z * Z) (l : list Tick) : option (Z * Z) :=
  match l with
  | [] => Some state
  | t :: l => match tick state t with Some state => tick_all state l | None => None end
  end.

Lemma tick_all_app state l1 l2 state' : tick_all state l1 = Some state' ->
  tick_all state (l1 ++ l2) = tick_all state' l2.
Proof.
  revert state. induction l1 as [|t l1 IH]; intros state; simpl; [by intros [= ->]|].
  destruct (tick state t); [|done]. apply IH.
Qed.

Definition granted_of (l : list Tick) : list Z :=
  omap (fun t => match t with Granted n => Some n | _ => None end) l.
Definition applied_of (l : list Tick) : list Z :=
  omap (fun t => match t with Applied n => Some n | _ => None end) l.

(** What the abstract clock promises. *)
Lemma tick_all_granted state l state' : tick_all state l = Some state' ->
  granted_of l = seqZ (state.1 + 1) (state'.1 - state.1) /\ state.1 <= state'.1.
Proof.
  revert state. induction l as [|[n|n] l IH]; intros [last used]; cbn [tick_all tick].
  - intros [= <-]. simpl. by rewrite Z.sub_diag.
  - destruct (n =? last + 1) eqn:E; [|done]. z_bool. subst n. intros [IH1 IH2]%IH.
    cbn [fst] in *. unfold granted_of in *. cbn [omap list_omap]. rewrite IH1.
    split; [|lia]. rewrite (seqZ_cons (last + 1) (state'.1 - last)) by lia.
    f_equal. f_equal; lia.
  - destruct (in_turn n last used); [|done]. intros [IH1 IH2]%IH. by split.
Qed.

Lemma tick_all_applied state l state' : tick_all state l = Some state' ->
  StronglySorted Z.lt (applied_of l) /\ Forall (fun n => state.2 < n <= state'.2) (applied_of l) /\
  state.2 <= state'.2.
Proof.
  revert state. induction l as [|[n|n] l IH]; intros [last used]; cbn [tick_all tick].
  - intros [= <-]. split_and!; [constructor..|done].
  - destruct (n =? last + 1); [|done]. by intros H%IH.
  - destruct (in_turn n last used) eqn:E; [|done]. unfold in_turn in E. split_bool. z_bool.
    intros (IH1 & IH2 & IH3)%IH. cbn [snd] in *. unfold applied_of in *. cbn [omap list_omap].
    split_and!; [constructor; [done|]|constructor; [lia|]|lia].
    + eapply Forall_impl; [exact IH2|]. cbn beta. lia.
    + eapply Forall_impl; [exact IH2|]. cbn beta. lia.
Qed.

(** ** Changes that move no clock *)

Definition quiet (d d' : Database) : Prop :=
  (forall k, clocks d' k = clocks d k) /\ (forall id, generation id d <= generation id d').

#[export] Instance quiet_preorder : PreOrder quiet.
Proof.
  split; [by intros d; split|]. intros d1 d2 d3 [A1 B1] [A2 B2]. split; intros.
  - by rewrite A2, A1.
  - etransitivity; [apply B1|apply B2].
Qed.

Lemma quiet_rows d d' : candidate_health d' = candidate_health d ->
  candidate_probe_state d' = candidate_probe_state d -> quiet d d'.
Proof. intros Hh Hp. unfold quiet, clocks, generation. rewrite Hh, Hp. by split. Qed.

(** The columns of a row that its clocks are. *)
Definition probe_clock (r : ProbeRow) : Z * Z := (pr_fast_result_seq r, pr_fast_applied_seq r).
Definition health_clock (h : HealthRow) : Z * Z * (Z * Z) :=
  ((h_full_result_seq h, h_full_applied_seq h), (h_active_result_seq h, h_active_applied_seq h)).

Lemma quiet_probes d f :
  (forall fp, from_option probe_clock (0, 0) (f (candidate_probe_state d) !! fp) =
              from_option probe_clock (0, 0) (candidate_probe_state d !! fp)) ->
  quiet d (set_probes f d).
Proof.
  intros Hf. split; [|intros id; unfold generation; by destruct d].
  intros [[| |] key]; destruct d; simpl in *; try done. apply Hf.
Qed.

Lemma quiet_health d f :
  (forall id, from_option health_clock ((0, 0), (0, 0)) (f (candidate_health d) !! id) =
              from_option health_clock ((0, 0), (0, 0)) (candidate_health d !! id)) ->
  (forall id, from_option h_failure_generation (-1) (candidate_health d !! id) <=
              from_option h_failure_generation (-1) (f (candidate_health d) !! id)) ->
  quiet d (set_health f d).
Proof.
  intros Hf Hg. split; [|intros id; unfold generation; destruct d; simpl; apply Hg].
  intros [stage key]. specialize (Hf key). unfold clocks, health_clock in *. destruct d; simpl in *.
  destruct stage; [done| |]; destruct (f _ !! key), (candidate_health !! key); simpl in *; congruence.
Qed.

Lemma quiet_update_health id f d : (forall h, health_clock (f h) = health_clock h) ->
  (forall h, h_failure_generation h <= h_failure_generation (f h)) ->
  quiet d (update_health id f d).
Proof.
  intros Hf Hg. apply (quiet_health d (alter f id)); intros key;
    (destruct (decide (id = key)) as [<-|Hn];
      [rewrite lookup_alter_eq|by rewrite lookup_alter_ne]);
    destruct (candidate_health d !! id); simpl; auto; lia.
Qed.

Lemma quiet_upsert s d : quiet d (upsertCandidateProbeState s d).
Proof.
  apply (quiet_probes d (fun m => <[ps_Fingerprint s := _]> m)). intros fp. cbn beta.
  destruct (decide (ps_Fingerprint s = fp)) as [<-|Hn];
    [rewrite lookup_insert_eq|by rewrite lookup_insert_ne].
  unfold probe_clock. by destruct (candidate_probe_state d !! ps_Fingerprint s).
Qed.

Lemma quiet_save h d : quiet d (saveCandidateHealthTx h d).
Proof.
  apply (quiet_health d (fun m => <[hl_CandidateID h := _]> m)); intros id; cbn beta;
    (destruct (decide (hl_CandidateID h = id)) as [<-|Hn];
      [rewrite lookup_insert_eq|by rewrite lookup_insert_ne]);
    (destruct (candidate_health d !! hl_CandidateID h) as [r|]; [destruct (hl_Available h)|]);
    try destruct r; simpl; (done || lia).
Qed.

Lemma quiet_sample s d : quiet d (appendProbeSampleTx s d).
Proof. apply quiet_rows; by destruct d. Qed.

Lemma quiet_recover c d d' :
  clearRecoveredRouteDebtTx c d = (inr tt, d') -> quiet d d'.
Proof. intros [= <-]. apply quiet_rows; by destruct d. Qed.

(** Transactions that move no clock. *)
Abbreviation hushed := (leaves quiet).

Lemma hushed_update_health id cond f e : (forall h, health_clock (f h) = health_clock h) ->
  (forall h, h_failure_generation h <= h_failure_generation (f h)) ->
  hushed (update_health_if id cond f e).
Proof. intros Hf Hg. unfold update_health_if. leaves. by apply quiet_update_health. Qed.

#[local] Hint Resolve quiet_upsert quiet_save quiet_sample : hydrat.

Lemma steady_identity lifecycles c : steady (candidateIdentityCurrentTx lifecycles c).
Proof. unfold candidateIdentityCurrentTx. steady. Qed.
Lemma steady_current_candidate c : steady (candidateCurrentTx c).
Proof. apply steady_identity. Qed.
Lemma steady_routable c : steady (candidateRoutableTx c).
Proof. apply steady_identity. Qed.
Lemma steady_referenced c : steady (candidateReferencedRoutableTx c).
Proof. unfold candidateReferencedRoutableTx. steady. Qed.
Lemma steady_check_current b : steady (check_current b).
Proof. apply steady_check. Qed.
Lemma steady_reservation c r : steady (observationReservationCurrentTx c r).
Proof. done. Qed.
#[export] Hint Resolve steady_identity steady_current_candidate steady_routable steady_referenced
  steady_check_current steady_reservation : hydrat.

Lemma steady_check_identity t b : steady (check_identity t b).
Proof.
  unfold check_identity. apply steady_if; [done|]. apply steady_bind; [apply steady_check|].
  intros _. apply steady_bind; [destruct b; auto with hydrat|]. auto with hydrat.
Qed.
#[export] Hint Resolve steady_check_identity : hydrat.

Lemma hushed_record_health t w b h : hushed (record_health t w b h).
Proof.
  unfold record_health. leaves. apply quiet_update_health; intros []; simpl; [done|lia].
Qed.
#[local] Hint Resolve hushed_record_health : hydrat.

Lemma hushed_record t health sample b : hushed (recordCandidateProbeTx t health sample b).
Proof.
  unfold recordCandidateProbeTx, when_given, record_sample. leaves.
Qed.
#[local] Hint Resolve hushed_record : hydrat.

Lemma hushed_recoveries `{PlanCodec} c at_ : hushed (recordRouteRecoveriesTx c at_).
Proof.
  intros d u d' Hr%recoveries_frame. rewrite Hr. apply quiet_rows; by destruct d.
Qed.

(** ** Operations *)

Inductive ObservationOp :=
  | OpReserve (now : Z) (requests : list ObservationRequest)
  | OpCommitProbe (now : Time) (c : Candidate) (r : ObservationReservation) (t : ProbeTransition)
      (health : option CandidateHealth) (sample : option ProbeSample)
  | OpCommitActive (now : Time) (c : Candidate) (r : ObservationReservation)
      (outcome : ActiveObservationOutcome) (at_ : Time)
  | OpHardFailure (now : Time) (c : Candidate) (r : ObservationReservation) (at_ : Time)
  | OpDomainFailure (now : Time) (c : Candidate) (r : ObservationReservation) (at_ : Time)
  | OpHealthResult (c : Candidate) (health : option CandidateHealth) (sample : option ProbeSample)
  | OpUDPQualified (id : string) (qualified : bool) (fence : option Z)
  | OpDomainReset (domain : string) (now : Time)
  | OpDomainEvent (domain candidate : string) (now : Time)
  | OpCanary (domain : string) (ids : list string) (now : Time)
  | OpReplacePool (clock : Z) (active draining : list Candidate) (at_ : Time) (epoch : option Z)
  | OpClearPool (now : Z) (kind : string)
  | OpElsewhere (f : Database -> Database).

(** What is done elsewhere leaves the rows of observations and circuits alone. *)
Definition elsewhere (f : Database -> Database) (d : Database) : Database :=
  (f d) <| candidate_health := candidate_health d |>
        <| candidate_probe_state := candidate_probe_state d |>
        <| failure_domain_state := failure_domain_state d |>
        <| failure_domain_evidence := failure_domain_evidence d |>.

Section Runs.
Context `{PlanCodec}.

(** What an operation answers that matters here, and what it leaves. *)
Inductive Answer :=
  | Reserved (requests : list ObservationRequest) (granted : list ObservationReservation)
  | Taken (c : Candidate) (r : ObservationReservation)
  | Other.

Definition answer {A : Type} (f : A -> Answer) (x : (StoreError + A) * Database) : Answer * Database :=
  (match x.1 with inr a => f a | inl _ => Other end, x.2).

Definition taken_if (c : Candidate) (r : ObservationReservation) (b : bool) : Answer :=
  if b then Taken c r else Other.

Definition step (o : Outcome) (op : ObservationOp) (d : Database) : Answer * Database :=
  match op with
  | OpReserve now requests =>
      answer (Reserved requests) (ReserveCandidateObservations o now requests d)
  | OpCommitProbe now c r t health sample =>
      answer (fun s => taken_if c r (bool_decide (is_Some s)))
        (CommitCandidateProbeObservation o now c r t health sample d)
  | OpCommitActive now c r outcome at_ =>
      answer (fun a => taken_if c r (Accepted a)) (CommitCandidateActiveOutcome o now c r outcome at_ d)
  | OpHardFailure now c r at_ =>
      answer (fun s => taken_if c r (bool_decide (is_Some s)))
        (CommitCandidateActiveHardFailureObservation o now c r at_ d)
  | OpDomainFailure now c r at_ =>
      answer (fun a => taken_if c r a.2) (CommitActiveVLESSHardFailureObservation o now c r at_ d)
  | OpHealthResult c health sample =>
      answer (fun _ => Other) (RecordCandidateHealthResult o c health sample d)
  | OpUDPQualified id qualified fence =>
      answer (fun _ => Other) (UpdateCandidateUDPQualified o id qualified fence d)
  | OpDomainReset domain now => answer (fun _ => Other) (ResetFailureDomainOnSuccess o domain now d)
  | OpDomainEvent domain candidate now =>
      answer (fun _ => Other) (RecordFailureDomainFailure o domain candidate now d)
  | OpCanary domain ids now => answer (fun _ => Other) (ElectFailureDomainCanary o domain ids now d)
  | OpReplacePool clock active draining at_ epoch =>
      answer (fun _ => Other) (replaceWorkingPoolCurrent o clock active draining at_ epoch d)
  | OpClearPool now kind => answer (fun _ => Other) (ClearWorkingPoolByKind o now kind d)
  | OpElsewhere f => (Other, elsewhere f d)
  end.

(** What happened to a clock: the answer an operation gives when its commit is
    reported, if what it wrote is durable. *)
Definition ticks_of (k : Clock) (a : Answer) : list Tick :=
  match a with
  | Reserved requests granted =>
      omap (fun '(q, r) => if decide (clock_of (rq_Candidate q) (rq_Stage q) = k)
                           then Some (Granted (re_Sequence r)) else None) (zip requests granted)
  | Taken c r => if decide (clock_of c (re_Stage r) = k) then [Applied (re_Sequence r)] else []
  | Other => []
  end.

Definition effect (o : Outcome) (op : ObservationOp) (d : Database) : Answer :=
  if durable o then (step Commits op d).1 else Other.

Fixpoint observe (ops : list (Outcome * ObservationOp)) (d : Database) : Database :=
  match ops with
  | [] => d
  | (o, op) :: ops => observe ops (step o op d).2
  end.

Fixpoint ticks (k : Clock) (ops : list (Outcome * ObservationOp)) (d : Database) : list Tick :=
  match ops with
  | [] => []
  | (o, op) :: ops => ticks_of k (effect o op d) ++ ticks k ops (step o op d).2
  end.

(** An operation whose only transaction comes after checks of its arguments. *)
Definition obeys {A : Type} (m : Outcome -> Tx A) : Prop :=
  forall o d, (m o d).2 = if durable o then (m Commits d).2 else d.

Lemma obeys_transaction {A : Type} (body : Tx A) : obeys (fun o => transaction o body).
Proof. intros o d. apply transaction_db. Qed.
Lemma obeys_ret {A : Type} (a : A) : obeys (fun _ => ret a).
Proof. by intros [] d. Qed.
Lemma obeys_lift {A B : Type} (x : StoreError + A) (k : A -> Outcome -> Tx B) :
  (forall a, obeys (k a)) -> obeys (fun o => bind (lift x) (fun a => k a o)).
Proof. intros Hk o d. destruct x as [e|a]; [by destruct o|apply Hk]. Qed.
Lemma obeys_required {A B : Type} (x : option A) e (k : A -> Outcome -> Tx B) :
  (forall a, obeys (k a)) -> obeys (fun o => bind (required x e) (fun a => k a o)).
Proof. intros Hk o d. destruct x as [a|]; [apply Hk|by destruct o]. Qed.
Lemma obeys_check {B : Type} b e (k : Outcome -> Tx B) :
  obeys k -> obeys (fun o => bind (check b e) (fun _ => k o)).
Proof. intros Hk o d. destruct b; [apply Hk|by destruct o]. Qed.
Lemma obeys_return {A B : Type} (m : Outcome -> Tx A) (f : A -> B) :
  obeys m -> obeys (fun o => bind (m o) (fun a => ret (f a))).
Proof.
  intros Hm o d. specialize (Hm o d). unfold bind, ret. destruct (m o d) as [[e|a] d1];
    destruct (m Commits d) as [[e'|a'] d2]; done.
Qed.

Lemma obeys_assoc {A B C : Type} (m : Tx A) (k : A -> Tx B) (j : Outcome -> B -> Tx C) :
  obeys (fun o => bind m (fun a => bind (k a) (j o))) -> obeys (fun o => bind (bind m k) (j o)).
Proof.
  intros Hm o d. specialize (Hm o d). unfold bind in *. by destruct (m d) as [[e|a] d'].
Qed.

Ltac obeys := repeat lazymatch goal with
  | |- obeys (fun o => bind (bind _ _) _) => apply obeys_assoc
  | |- obeys (fun o => transaction o _) => apply obeys_transaction
  | |- obeys (fun o => bind (lift _) _) => apply obeys_lift; intros
  | |- obeys (fun o => bind (check _ _) _) => apply obeys_check
  | |- obeys (fun o => bind (required _ _) _) => apply obeys_required; intros
  | |- obeys (fun o => match ?x with _ => _ end) => destruct x
  | |- obeys (fun o => ret _) => apply obeys_ret
  end.

Lemma obeys_reserve now requests : obeys (fun o => ReserveCandidateObservations o now requests).
Proof. unfold ReserveCandidateObservations. obeys. Qed.
Lemma obeys_probe now c r t health sample :
  obeys (fun o => CommitCandidateProbeObservation o now c r t health sample).
Proof. unfold CommitCandidateProbeObservation. obeys. Qed.
Lemma obeys_active now c r outcome at_ :
  obeys (fun o => CommitCandidateActiveOutcome o now c r outcome at_).
Proof.
  unfold CommitCandidateActiveOutcome, check_active. obeys.
Qed.
Lemma obeys_hard now c r at_ :
  obeys (fun o => CommitCandidateActiveHardFailureObservation o now c r at_).
Proof.
  unfold CommitCandidateActiveHardFailureObservation, check_active. obeys.
Qed.
Lemma obeys_domain now c r at_ : obeys (fun o => CommitActiveVLESSHardFailureObservation o now c r at_).
Proof.
  unfold CommitActiveVLESSHardFailureObservation, check_active. cbn zeta. obeys.
Qed.
Lemma obeys_result c health sample : obeys (fun o => RecordCandidateHealthResult o c health sample).
Proof. unfold RecordCandidateHealthResult. obeys. Qed.
Lemma obeys_reset domain now : obeys (fun o => ResetFailureDomainOnSuccess o domain now).
Proof. unfold ResetFailureDomainOnSuccess. obeys. Qed.
Lemma obeys_event domain candidate now :
  obeys (fun o => RecordFailureDomainFailure o domain candidate now).
Proof.
  unfold RecordFailureDomainFailure. obeys. apply (obeys_return _ fst). obeys.
Qed.
Lemma obeys_canary domain ids now : obeys (fun o => ElectFailureDomainCanary o domain ids now).
Proof. unfold ElectFailureDomainCanary. obeys. Qed.
Lemma obeys_clear now kind : obeys (fun o => ClearWorkingPoolByKind o now kind).
Proof. unfold ClearWorkingPoolByKind. obeys. Qed.

Definition is_elsewhere (op : ObservationOp) : bool :=
  match op with OpElsewhere _ => true | _ => false end.

Lemma step_db o op d : is_elsewhere op = false ->
  (step o op d).2 = if durable o then (step Commits op d).2 else d.
Proof.
  destruct op as [now requests|now c r t health sample|now c r outcome at_|now c r at_|now c r at_|
    c health sample|id q fence|domain now|domain candidate now|domain ids now|
    clock active draining at_ epoch|now kind|f]; intros He; unfold step, answer; cbn [snd];
    [..|done].
  - by apply (obeys_reserve now requests).
  - by apply (obeys_probe now c r t health sample).
  - by apply (obeys_active now c r outcome at_).
  - by apply (obeys_hard now c r at_).
  - by apply (obeys_domain now c r at_).
  - by apply (obeys_result c health sample).
  - by apply (transaction_db o).
  - by apply (obeys_reset domain now).
  - by apply (obeys_event domain candidate now).
  - by apply (obeys_canary domain ids now).
  - by apply (transaction_db o).
  - by apply (obeys_clear now kind).
Qed.

(** ** Every operation is ticks of its clocks *)

(** The clock [k] alone moves. *)
Definition moves (k : Clock) (d d' : Database) (now : Z * Z) : Prop :=
  clocks d' k = now /\ (forall k', k' <> k -> clocks d' k' = clocks d k') /\
  (forall id, generation id d <= generation id d').

Lemma clock_set_health d m stage id : stage <> ObservationFast ->
  clocks (set_health (fun _ => m) d) (stage, id) =
    from_option (fun h => match stage with
      | ObservationFull => (h_full_result_seq h, h_full_applied_seq h)
      | _ => (h_active_result_seq h, h_active_applied_seq h) end) (0, 0) (m !! id).
Proof. destruct d, stage; done. Qed.

Lemma moves_health d id (row : HealthRow) stage now : stage <> ObservationFast ->
  from_option health_clock ((0, 0), (0, 0)) (candidate_health d !! id) =
    (let '(full, active) := health_clock row in
     match stage with
     | ObservationFull => (clocks d (stage, id), active) | _ => (full, clocks d (stage, id)) end) ->
  now = match stage with ObservationFull => (health_clock row).1 | _ => (health_clock row).2 end ->
  generation id d <= h_failure_generation row ->
  moves (stage, id) d (set_health <[id := row]> d) now.
Proof.
  intros Hs Hold -> Hg. split_and!.
  - unfold clocks. destruct d; simpl. by destruct stage; rewrite ?lookup_insert_eq.
  - intros [stage' id'] Hk. unfold clocks, health_clock in *. destruct d; simpl in *.
    destruct (decide (id = id')) as [<-|Hn]; [|by rewrite lookup_insert_ne].
    rewrite lookup_insert_eq. destruct (candidate_health !! id) as [old|]; simpl in *;
      destruct stage, stage'; simpl in *; congruence.
  - intros id'. unfold generation in *. destruct d; simpl in *.
    destruct (decide (id = id')) as [<-|Hn]; [by rewrite lookup_insert_eq|by rewrite lookup_insert_ne].
Qed.

Lemma moves_probe d fp (row : ProbeRow) now : probe_clock row = now ->
  moves (ObservationFast, fp) d (set_probes <[fp := row]> d) now.
Proof.
  intros <-. split_and!; [|intros [stage' fp'] Hk|intros id; unfold generation; by destruct d].
  - unfold clocks. destruct d; simpl. by rewrite lookup_insert_eq.
  - unfold clocks. destruct d; simpl. destruct stage'; simpl; [|done..].
    rewrite lookup_insert_ne; [done|congruence].
Qed.

Lemma reserve_one now c stage d r d' :
  reserveCandidateObservationTx now c stage d = (inr r, d') ->
  let k := clock_of c stage in
  r = reservation c stage ((clocks d k).1 + 1)
        (match stage with ObservationFast => 0 | _ => generation (c_ID c) d' end) /\
  moves k d d' ((clocks d k).1 + 1, (clocks d k).2).
Proof.
  destruct stage; cbn zeta; unfold reserveCandidateObservationTx, reserve_health, bind, get, modify,
    ret; intros [= <- <-]; (split; [|first [apply moves_probe|apply moves_health; [done|..]]]);
    unfold clocks, clock_of, generation, probe_clock, health_clock, reservation; destruct d;
    simpl; rewrite ?lookup_insert_eq; destruct (_ !! _) as [row|]; simpl; done || lia.
Qed.

Definition later (d d' : Database) : Prop := forall id, generation id d <= generation id d'.

Lemma reserve_all now requests granted d all_granted d' :
  foldM (fun granted q =>
    r <- reserveCandidateObservationTx now (rq_Candidate q) (rq_Stage q) ;;
    ret (granted ++ [r])) granted requests d = (inr all_granted, d') ->
  exists rs, all_granted = granted ++ rs /\ length rs = length requests /\
    later d d' /\
    forall k, tick_all (clocks d k) (ticks_of k (Reserved requests rs)) = Some (clocks d' k).
Proof.
  revert granted d. induction requests as [|q requests IH]; intros granted d; cbn [foldM].
  - intros (<- & ->)%ret_inr. exists []. rewrite app_nil_r. split_and!; try done. by intros id.
  - intros Hr. apply bind_inr in Hr as (g & d1 & Hq & Hr).
    apply bind_inr in Hq as (r & d2 & Hq & Hret). apply ret_inr in Hret as (<- & ->).
    apply reserve_one in Hq as [-> (Hk & Hother & Hgen)].
    apply IH in Hr as (rs & -> & Hlen & Hsame & Hticks).
    eexists (_ :: rs). rewrite <- app_assoc. split_and!; [done|by simpl; rewrite Hlen| |].
    { intros id. specialize (Hsame id). specialize (Hgen id). lia. }
    intros k. specialize (Hticks k). unfold ticks_of in *. cbn [zip zip_with omap list_omap].
    destruct (decide (clock_of (rq_Candidate q) (rq_Stage q) = k)) as [<-|Hne]; cbn [fst snd].
    + rewrite Hk in Hticks. destruct (clocks d _) as [last used].
      cbn [tick_all tick reservation re_Sequence fst snd] in *. by rewrite Z.eqb_refl.
    + rewrite Hother in Hticks by done. done.
Qed.

(** *** Applying *)

Lemma apply_ticks c r d u d' : applyObservationReservationTx c r d = (inr u, d') ->
  let k := clock_of c (re_Stage r) in
  in_turn (re_Sequence r) (clocks d k).1 (clocks d k).2 = true /\
  moves k d d' ((clocks d k).1, re_Sequence r).
Proof.
  unfold applyObservationReservationTx, update_health_if, clock_of. cbn zeta.
  destruct (re_Stage r) eqn:Es; intros Hr; run_all Hr.
  - unfold probe_of in Hcheck. unfold clocks. cbn [fst snd].
    destruct (candidate_probe_state d !! c_Fingerprint c) as [p|] eqn:Ep; [|done].
    destruct (row_of c p); [|done]. split; [done|].
    assert (set_probes (alter (fun p => p <| pr_fast_applied_seq := re_Sequence r |>)
              (c_Fingerprint c)) d = set_probes <[c_Fingerprint c :=
              p <| pr_fast_applied_seq := re_Sequence r |>]> d) as ->
      by (unfold set_probes; by rewrite (alter_insert_Some _ _ _ p)).
    by apply moves_probe.
  - unfold clocks. cbn [fst snd]. destruct (candidate_health d !! c_ID c) as [h|] eqn:Eh; [|done].
    split; [done|]. unfold update_health.
    rewrite (alter_insert_Some _ _ _ h) by done.
    apply (moves_health d _ _ ObservationFull); [done|..]; rewrite ?Eh; unfold generation, clocks; cbn [fst snd]; rewrite ?Eh; by destruct h.
  - unfold clocks. cbn [fst snd]. destruct (candidate_health d !! c_ID c) as [h|] eqn:Eh; [|done].
    split; [done|]. unfold update_health.
    rewrite (alter_insert_Some _ _ _ h) by done.
    apply (moves_health d _ _ ObservationActive); [done|..]; rewrite ?Eh; unfold generation, clocks; cbn [fst snd]; rewrite ?Eh; by destruct h.
Qed.

(** *** The operations *)

Definition ticked (a : Answer) (d d' : Database) : Prop :=
  (forall k, tick_all (clocks d k) (ticks_of k a) = Some (clocks d' k)) /\
  (forall id, generation id d <= generation id d').

Lemma quiet_ticked d d' : quiet d d' -> ticked Other d d'.
Proof. intros [Hk Hg]. split; [|done]. intros k. cbn [ticks_of tick_all]. by rewrite Hk. Qed.

Lemma reserve_ticked now requests d granted d' :
  (forM requests (fun q =>
     current <- observable (rq_Stage q) (rq_Candidate q) ;;
     check_current current) ;;;
   foldM (fun granted q =>
     r <- reserveCandidateObservationTx now (rq_Candidate q) (rq_Stage q) ;;
     ret (granted ++ [r])) [] requests) d = (inr granted, d') ->
  ticked (Reserved requests granted) d d'.
Proof.
  intros Hr. apply bind_inr in Hr as (u & d1 & Hchecks & Hr).
  apply steady_inr in Hchecks as ->.
  2: { unfold forM, observable. steady. case_decide; auto with hydrat. }
  apply reserve_all in Hr as (rs & -> & _ & Hg & Hticks). split; [exact Hticks|].
  exact Hg.
Qed.

Lemma commit_ticked c r d d1 u d2 d' : quiet d d1 ->
  applyObservationReservationTx c r d1 = (inr u, d2) -> quiet d2 d' -> ticked (Taken c r) d d'.
Proof.
  intros [Hk1 Hg1] Ha [Hk2 Hg2]. apply apply_ticks in Ha as [Hin (Hk & Hother & Hg)]. split.
  - intros k. cbn [ticks_of]. rewrite Hk2. case_decide as Hc.
    + subst k. rewrite Hk. rewrite Hk1 in *. destruct (clocks d _) as [last used].
      cbn [tick_all tick fst snd] in *. by rewrite Hin.
    + cbn [tick_all]. rewrite Hother by congruence. by rewrite Hk1.
  - intros id. specialize (Hg1 id). specialize (Hg2 id). specialize (Hg id). lia.
Qed.

Lemma hushed_fence c r t s : hushed (fence_failure c r t s).
Proof.
  unfold fence_failure. leaves.
  all: first [apply quiet_update_health; intros []; simpl; lia || done
             |apply hushed_update_health; intros []; simpl; lia || done].
Qed.

Lemma hushed_clear c : hushed (clearRecoveredRouteDebtTx c).
Proof. intros d [] d' Hr. by eapply quiet_recover. Qed.
#[local] Hint Resolve hushed_fence hushed_clear hushed_recoveries : hydrat.

Lemma commit_probe_ticked c r t health sample d s d' :
  commit_probe c r t health sample d = (inr s, d') ->
  ticked (taken_if c r (bool_decide (is_Some s))) d d'.
Proof.
  intros Hr. unfold commit_probe in Hr. run_in Hr. run_in Hr. run_in Hr.
  destruct a1; cbn [negb] in Hr; [|run_in Hr; by apply quiet_ticked].
  apply bind_inr in Hr as (st & d3 & Hrec & Hr). apply bind_inr in Hr as (u & d4 & Hf & Hr).
  apply bind_inr in Hr as (u' & d5 & Ha & Hr). apply bind_inr in Hr as (u'' & d6 & Hc & Hr).
  apply ret_inr in Hr as [<- ->]. cbn [taken_if]. rewrite bool_decide_true by done.
  eapply commit_ticked; [|exact Ha|].
  - transitivity d3; [by eapply hushed_record|by eapply hushed_fence].
  - revert Hc. destruct (_ && _); [apply hushed_clear|]. by intros (_ & ->)%ret_inr.
Qed.

Lemma commit_active_ticked c r outcome at_ d a d' :
  commit_active c r outcome at_ d = (inr a, d') -> ticked (taken_if c r (Accepted a)) d d'.
Proof.
  intros Hr. unfold commit_active in Hr. run_in Hr. run_in Hr. run_in Hr.
  destruct a2; cbn [negb] in Hr; [|run_in Hr; by apply quiet_ticked].
  apply bind_inr in Hr as (same & d3 & Hs & Hr). apply get_inr in Hs as [-> ->].
  destruct (from_option _ _ _); cbn [negb] in Hr; [|run_in Hr; by apply quiet_ticked].
  run_in Hr. run_in Hr. destruct (_ && _ && _); [run_in Hr; by apply quiet_ticked|].
  apply bind_inr in Hr as (u & d4 & Hf & Hr). apply bind_inr in Hr as (u' & d5 & Ha & Hr).
  apply bind_inr in Hr as (u'' & d6 & Hc & Hr). apply ret_inr in Hr as [<- ->].
  cbn [taken taken_if Accepted]. eapply commit_ticked; [|exact Ha|].
  - revert Hf. apply hushed_update_health; intros []; simpl; done || lia.
  - revert Hc. destruct (ao_ProofSuccess outcome); [apply hushed_clear|]. by intros (_ & ->)%ret_inr.
Qed.

Lemma hard_failure_ticked c r t at_ d s d' :
  record_hard_failure c r t at_ d = (inr s, d') -> ticked (Taken c r) d d'.
Proof.
  intros Hr. unfold record_hard_failure in Hr.
  apply bind_inr in Hr as (st & d1 & Hrec & Hr). apply bind_inr in Hr as (u & d2 & Hf & Hr).
  apply bind_inr in Hr as (u' & d3 & Ha & Hr). apply bind_inr in Hr as (u'' & d4 & Hc & Hr).
  apply ret_inr in Hr as [<- ->]. eapply commit_ticked; [|exact Ha|by eapply hushed_recoveries].
  transitivity d1; [by eapply hushed_record|].
  revert Hf. apply hushed_update_health; intros []; simpl; done || lia.
Qed.

Lemma commit_hard_ticked c r t at_ d s d' : commit_hard_failure c r t at_ d = (inr s, d') ->
  ticked (taken_if c r (bool_decide (is_Some s))) d d'.
Proof.
  intros Hr. unfold commit_hard_failure in Hr. run_in Hr. run_in Hr. run_in Hr.
  destruct a1; cbn [negb] in Hr; [|run_in Hr; by apply quiet_ticked].
  apply bind_inr in Hr as (st & d3 & Hrec & Hr). apply ret_inr in Hr as [<- ->].
  rewrite bool_decide_true by done. by eapply hard_failure_ticked.
Qed.

Lemma hushed_domain domain candidate now : hushed (recordFailureDomainFailureTx domain candidate now).
Proof.
  unfold recordFailureDomainFailureTx. cbn zeta. leaves; try (apply quiet_rows; by destruct d).
  unfold ensure_domain. destruct (failure_domain_state d !! domain); [done|]. apply quiet_rows; by destruct d.
Qed.
#[local] Hint Resolve hushed_domain : hydrat.

Lemma commit_domain_ticked c r t at_ d a d' : commit_domain_failure c r t at_ d = (inr a, d') ->
  ticked (taken_if c r a.2) d d'.
Proof.
  intros Hr. unfold commit_domain_failure in Hr. run_in Hr. run_in Hr. run_in Hr.
  destruct a2; cbn [negb] in Hr; [|run_in Hr; by apply quiet_ticked].
  apply bind_inr in Hr as ([dom accepted] & d3 & Hrec & Hr). apply hushed_domain in Hrec.
  destruct accepted; cbn [negb] in Hr; [|run_in Hr; by apply quiet_ticked].
  apply bind_inr in Hr as (st & d4 & Hf & Hr). apply ret_inr in Hr as [<- ->]. cbn [snd taken_if].
  apply hard_failure_ticked in Hf as [Hk Hg]. destruct Hrec as [Hk' Hg']. split.
  - intros k. by rewrite <- Hk, Hk'.
  - intros id. etransitivity; [apply Hg'|apply Hg].
Qed.

(** Every answer of an operation is ticks of the clocks. *)
Definition truthful {A : Type} (m : Tx A) (f : A -> Answer) : Prop :=
  forall d, ticked (answer f (m d)).1 d (m d).2.

Lemma ticked_refl d : ticked Other d d.
Proof. by apply quiet_ticked. Qed.

Lemma truthful_transaction {A : Type} (m : Tx A) f :
  (forall d a d', m d = (inr a, d') -> ticked (f a) d d') -> truthful (transaction Commits m) f.
Proof.
  intros Hm d. unfold transaction. destruct (m d) as [[e|a] d'] eqn:E; simpl.
  - apply ticked_refl.
  - by apply Hm.
Qed.
Lemma truthful_hushed {A : Type} (m : Tx A) :
  hushed m -> truthful (transaction Commits m) (fun _ => Other).
Proof. intros Hm. apply truthful_transaction. intros d a d' Hr. eapply quiet_ticked, Hm, Hr. Qed.
Lemma truthful_steady {A B : Type} (m : Tx A) (k : A -> Tx B) f :
  steady m -> (forall a, truthful (k a) f) -> truthful (bind m k) f.
Proof.
  intros Hm Hk d. specialize (Hm d). unfold bind. destruct (m d) as [[e|a] d1]; simpl in Hm; subst.
  - apply ticked_refl.
  - apply Hk.
Qed.
Lemma truthful_return {A B : Type} (m : Tx A) (g : A -> B) :
  truthful m (fun _ => Other) -> truthful (bind m (fun a => ret (g a))) (fun _ => Other).
Proof. intros Hm d. specialize (Hm d). unfold bind. destruct (m d) as [[e|a] d1]; done. Qed.

Ltac truthful := repeat lazymatch goal with
  | |- truthful (bind (bind _ _) _) _ => apply truthful_steady; [steady|intros]
  | |- truthful (bind (lift _) _) _ => apply truthful_steady; [auto with hydrat|intros]
  | |- truthful (bind (check _ _) _) _ => apply truthful_steady; [auto with hydrat|intros]
  | |- truthful (bind (required _ _) _) _ => apply truthful_steady; [auto with hydrat|intros]
  | |- truthful (transaction _ _) (fun _ => Other) => apply truthful_hushed; leaves
  | |- truthful (transaction _ _) _ => apply truthful_transaction
  end.

Lemma hushed_members cond f l : (forall r, probe_clock (f r) = probe_clock r) ->
  hushed (update_members cond f l).
Proof.
  intros Hf. unfold update_members, update_member. leaves.
  apply quiet_probes. intros fp. destruct (decide (c_Fingerprint x = fp)) as [<-|Hn];
    [rewrite lookup_alter_eq|by rewrite lookup_alter_ne].
  destruct (candidate_probe_state _ !! _); simpl; auto.
Qed.

Lemma quiet_fmap f d : (forall r, probe_clock (f r) = probe_clock r) ->
  quiet d (set_probes (fmap f) d).
Proof.
  intros Hf. apply quiet_probes. intros fp. rewrite lookup_fmap.
  destruct (candidate_probe_state d !! fp); simpl; auto.
Qed.

Lemma steady_active_check c r : steady (check_active c r).
Proof. unfold check_active. steady. Qed.
#[local] Hint Resolve steady_active_check : hydrat.

Lemma probe_clock_pool now r :
  probe_clock (leave_pool now r) = probe_clock r /\ probe_clock (enter_pool now r) = probe_clock r /\
  probe_clock (drain now r) = probe_clock r.
Proof. done. Qed.

Lemma hushed_replace clock active draining at_ epoch :
  hushed (epoch' <- get inventory_epoch ;;
    check (from_option (Z.eqb epoch') true epoch) CandidateInventoryChanged ;;;
    modify (set_probes (fmap (leave_pool clock))) ;;;
    kept <- update_members (selectable at_) (enter_pool clock) active ;;
    drained <- update_members (fun _ => true) (drain clock) draining ;;
    ret {| wp_Active := kept; wp_Draining := drained |}).
Proof.
  leaves; try (apply quiet_fmap; apply probe_clock_pool); apply hushed_members; apply probe_clock_pool.
Qed.

Lemma step_ticked op d : ticked (step Commits op d).1 d (step Commits op d).2.
Proof.
  destruct op as [now requests|now c r t health sample|now c r outcome at_|now c r at_|now c r at_|
    c health sample|id q fence|domain now|domain candidate now|domain ids now|
    clock active draining at_ epoch|now kind|f]; cbn [step].
  - assert (truthful (ReserveCandidateObservations Commits now requests) (Reserved requests)) as Ht;
      [|apply Ht].
    unfold ReserveCandidateObservations. truthful. destruct requests as [|q requests].
    + intros d0. by apply quiet_ticked.
    + apply truthful_transaction. intros d0 g d'. apply reserve_ticked.
  - assert (truthful (CommitCandidateProbeObservation Commits now c r t health sample)
      (fun s => taken_if c r (bool_decide (is_Some s)))) as Ht; [|apply Ht].
    unfold CommitCandidateProbeObservation. truthful. apply commit_probe_ticked.
  - assert (truthful (CommitCandidateActiveOutcome Commits now c r outcome at_)
      (fun a => taken_if c r (Accepted a))) as Ht; [|apply Ht].
    unfold CommitCandidateActiveOutcome. apply truthful_steady; [auto with hydrat|intros _].
    truthful. apply commit_active_ticked.
  - assert (truthful (CommitCandidateActiveHardFailureObservation Commits now c r at_)
      (fun s => taken_if c r (bool_decide (is_Some s)))) as Ht; [|apply Ht].
    unfold CommitCandidateActiveHardFailureObservation.
    apply truthful_steady; [auto with hydrat|intros _]. truthful. apply commit_hard_ticked.
  - assert (truthful (CommitActiveVLESSHardFailureObservation Commits now c r at_)
      (fun a => taken_if c r a.2)) as Ht; [|apply Ht].
    unfold CommitActiveVLESSHardFailureObservation. cbn zeta. truthful.
    apply truthful_steady; [auto with hydrat|intros _]. truthful. apply commit_domain_ticked.
  - assert (truthful (RecordCandidateHealthResult Commits c health sample) (fun _ => Other)) as Ht;
      [|apply Ht].
    unfold RecordCandidateHealthResult, when_given. truthful.
  - assert (truthful (UpdateCandidateUDPQualified Commits id q fence) (fun _ => Other)) as Ht;
      [|apply Ht].
    unfold UpdateCandidateUDPQualified. truthful. apply quiet_update_health; intros []; simpl; done || lia.
  - assert (truthful (ResetFailureDomainOnSuccess Commits domain now) (fun _ => Other)) as Ht;
      [|apply Ht].
    unfold ResetFailureDomainOnSuccess, reset_domain. truthful; apply quiet_rows; by destruct d0.
  - assert (truthful (RecordFailureDomainFailure Commits domain candidate now) (fun _ => Other)) as Ht;
      [|apply Ht].
    unfold RecordFailureDomainFailure. truthful. apply (truthful_return _ fst). truthful.
  - assert (truthful (ElectFailureDomainCanary Commits domain ids now) (fun _ => Other)) as Ht;
      [|apply Ht].
    unfold ElectFailureDomainCanary. truthful; apply quiet_rows; by destruct d0.
  - assert (truthful (replaceWorkingPoolCurrent Commits clock active draining at_ epoch)
      (fun _ => Other)) as Ht; [|apply Ht].
    apply truthful_hushed, hushed_replace.
  - assert (truthful (ClearWorkingPoolByKind Commits now kind) (fun _ => Other)) as Ht; [|apply Ht].
    unfold ClearWorkingPoolByKind. truthful. apply quiet_fmap. intros r. by destruct (of_kind _ _ _).
  - apply quiet_ticked, quiet_rows; unfold elsewhere; by destruct (f d).
Qed.
End Runs.
