(* ===== verification/ObservationSafety.v ===== *)
(** What runs of observations guarantee (ObservationRuns.v): order, the fence of a
    confirmed failure, and the return of a failed route. *)
From Stdlib Require Import Floats.
From S2P Require Import Prelude Effects GoOrder GoFloat GoStrings GoSort QoE DataPlan Handlers StoreTables StoreLogic StoreSample RouteRecovery CandidateState Observations ObservationRuns.

#[local] Open Scope Z_scope.
#[local] Open Scope effect_scope.

Section Order.
Context `{PlanCodec}.
#[local] Hint Resolve steady_active_check : hydrat.

Lemma step_effect o op d :
  (forall k, tick_all (clocks d k) (ticks_of k (effect o op d)) = Some (clocks (step o op d).2 k)) /\
  (forall id, generation id d <= generation id (step o op d).2).
Proof.
  destruct (is_elsewhere op) eqn:Ee.
  - destruct op; try done. unfold effect. cbn [step snd fst].
    destruct (step_ticked (OpElsewhere f) d) as [Hk Hg]. cbn [step snd fst] in *.
    destruct (durable o); by split.
  - rewrite (step_db o op d Ee). unfold effect. destruct (durable o); [apply step_ticked|].
    by split.
Qed.

Lemma observe_app ops1 ops2 d : observe (ops1 ++ ops2) d = observe ops2 (observe ops1 d).
Proof. revert d. induction ops1 as [|[o op] ops1 IH]; intros d; simpl; [done|apply IH]. Qed.

Lemma observe_later ops d id : generation id d <= generation id (observe ops d).
Proof.
  revert d. induction ops as [|[o op] ops IH]; intros d; cbn [observe]; [done|].
  etransitivity; [apply (proj2 (step_effect o op d))|apply IH].
Qed.

(** C20.  Results are applied in the order of their reservations.  In any run of
    operations on the store, with any failures of commits and any other writers in
    between, the clock of every stage of every candidate behaves as a dispenser of
    tickets: reservations hand out consecutive numbers, a result is taken only under
    a number that was handed out and is later than every result taken before, so each
    is taken at most once and never over a newer one. *)
Theorem observations_in_order ops d k :
  let l := ticks k ops d in
  let d' := observe ops d in
  tick_all (clocks d k) l = Some (clocks d' k) /\
  granted_of l = seqZ ((clocks d k).1 + 1) ((clocks d' k).1 - (clocks d k).1) /\
  StronglySorted Z.lt (applied_of l) /\
  Forall (fun n => (clocks d k).2 < n <= (clocks d' k).2) (applied_of l).
Proof.
  cbn zeta.
  assert (tick_all (clocks d k) (ticks k ops d) = Some (clocks (observe ops d) k)) as Ht.
  { revert d. induction ops as [|[o op] ops IH]; intros d; cbn [ticks observe]; [done|].
    rewrite (tick_all_app _ _ _ (clocks (step o op d).2 k)); [apply IH|].
    apply (proj1 (step_effect o op d)). }
  split; [done|]. split; [by apply tick_all_granted|]. by apply tick_all_applied in Ht as (? & ? & _).
Qed.

(** ** Confirmed failures *)

(** The candidate whose failure a commit confirms: an outage, a failed fast probe, or
    a full probe that failed at more than one of the service gates. *)
Definition failure_of (op : ObservationOp) : option string :=
  match op with
  | OpHardFailure _ c _ _ | OpDomainFailure _ c _ _ => Some (c_ID c)
  | OpCommitProbe now c r t _ _ =>
      match normalizeProbeTransition now t with
      | inr t =>
          if pt_Success t || pt_InfrastructureFailure t ||
             bool_decide (re_Stage r <> ObservationFast) && softFullFailureCode (pt_ErrorCode t)
          then None else Some (c_ID c)
      | inl _ => None
      end
  | _ => None
  end.

Lemma generation_update id f d : 0 <= generation id d ->
  (forall h, h_failure_generation (f h) = h_failure_generation h + 1) ->
  generation id (update_health id f d) = generation id d + 1.
Proof.
  unfold generation, update_health. intros Hg Hf. destruct d; simpl in *. rewrite lookup_alter_eq.
  destruct (candidate_health !! id); simpl in *; [apply Hf|lia].
Qed.

Lemma update_health_if_run id cond f e d u d' : update_health_if id cond f e d = (inr u, d') ->
  exists h, candidate_health d !! id = Some h /\ cond h = true /\ d' = update_health id f d.
Proof.
  intros Hr. unfold update_health_if in Hr. run_all Hr.
  destruct (candidate_health d !! id) as [h|]; [|done]. by exists h.
Qed.

Lemma apply_later c r d u d' : applyObservationReservationTx c r d = (inr u, d') ->
  forall id, generation id d <= generation id d'.
Proof. intros Ha. apply apply_ticks in Ha as [_ (_ & _ & Hg)]. exact Hg. Qed.

Lemma record_hard_bumps c r t at_ d s d' : record_hard_failure c r t at_ d = (inr s, d') ->
  generation (c_ID c) d < generation (c_ID c) d' .
Proof.
  intros Hr. unfold record_hard_failure in Hr.
  apply bind_inr in Hr as (st & d1 & Hrec & Hr). apply bind_inr in Hr as (u & d2 & Hf & Hr).
  apply bind_inr in Hr as (u' & d3 & Ha & Hr). apply bind_inr in Hr as (u'' & d4 & Hc & Hr).
  apply ret_inr in Hr as [_ ->]. apply hushed_record in Hrec as [_ H1].
  apply hushed_recoveries in Hc as [_ H4]. apply update_health_if_run in Hf as (h & Hh & _ & ->).
  pose proof (apply_later _ _ _ _ _ Ha (c_ID c)) as H3.
  specialize (H1 (c_ID c)). specialize (H4 (c_ID c)).
  unfold generation in *. unfold update_health in *. destruct d1; simpl in *.
  rewrite lookup_alter_eq, Hh in H3. rewrite Hh in H1. simpl in *. lia.
Qed.

Lemma commit_probe_bumps c r t health sample d s d' :
  commit_probe c r t health sample d = (inr (Some s), d') ->
  pt_Success t = false -> pt_InfrastructureFailure t = false ->
  (re_Stage r = ObservationFast \/ softFullFailureCode (pt_ErrorCode t) = false) ->
  0 <= generation (c_ID c) d -> generation (c_ID c) d < generation (c_ID c) d'.
Proof.
  intros Hr Hs Hi Hsoft Hg. unfold commit_probe in Hr. run_in Hr. run_in Hr. run_in Hr.
  destruct a1; cbn [negb] in Hr; [|by apply ret_inr in Hr as [? _]].
  apply bind_inr in Hr as (st & d3 & Hrec & Hr). apply bind_inr in Hr as (u & d4 & Hf & Hr).
  apply bind_inr in Hr as (u' & d5 & Ha & Hr). apply bind_inr in Hr as (u'' & d6 & Hc & Hr).
  apply ret_inr in Hr as [_ ->]. apply hushed_record in Hrec as [_ H1].
  specialize (H1 (c_ID c)). pose proof (apply_later _ _ _ _ _ Ha (c_ID c)) as H3.
  assert (generation (c_ID c) d5 <= generation (c_ID c) d6) as H4.
  { revert Hc. destruct (_ && _); [intros Hc; by apply hushed_clear in Hc as [_ ?]|].
    by intros (_ & ->)%ret_inr. }
  assert (generation (c_ID c) d4 = generation (c_ID c) d3 + 1) as H2; [|lia].
  unfold fence_failure in Hf. rewrite Hs, Hi in Hf. cbn [orb] in Hf.
  destruct (re_Stage r) eqn:Es.
  - apply modify_inr in Hf as ->. apply generation_update; [lia|]. by intros [].
  - destruct Hsoft as [?|Hsoft]; [done|]. rewrite Hsoft in Hf. cbn [andb] in Hf.
    apply update_health_if_run in Hf as (h & _ & _ & ->). apply generation_update; [lia|]. by intros [].
  - destruct Hsoft as [?|Hsoft]; [done|]. rewrite Hsoft in Hf. cbn [andb] in Hf.
    apply update_health_if_run in Hf as (h & _ & _ & ->). apply generation_update; [lia|]. by intros [].
Qed.

Lemma failure_bumps o op d c r : durable o = true -> effect o op d = Taken c r ->
  failure_of op = Some (c_ID c) -> 0 <= generation (c_ID c) d ->
  generation (c_ID c) d < generation (c_ID c) (step o op d).2.
Proof.
  intros Ho Ha Hf Hg. unfold effect in Ha. rewrite Ho in Ha.
  rewrite (step_db o op d) by by destruct op. rewrite Ho. clear Ho o.
  destruct op as [now requests|now c' r' t health sample|now c' r' outcome at_|
    now c' r' at_|now c' r' at_|c' health sample|id q fence|domain now|domain candidate now|
    domain ids now|clock active draining at_ epoch|now kind|f]; try discriminate;
    cbn [step failure_of] in *; unfold answer in *;
    match type of Ha with (match (?m d).1 with _ => _ end, _).1 = _ =>
      destruct (m d) as [[e|s] d'] eqn:E; cbn [fst snd] in *; [discriminate Ha|] end.
  - unfold CommitCandidateProbeObservation in E. run_in E. run_in E. run_in E. run_in E. run_in E.
    rewrite Hget1 in Hf. apply transaction_inr in E.
    destruct s as [s|]; [|by rewrite bool_decide_false in Ha by (by intros [])].
    rewrite bool_decide_true in Ha by done. injection Ha as -> ->.
    destruct (_ || _) eqn:Eb; [done|]. rewrite !orb_false_iff, andb_false_iff, bool_decide_eq_false in Eb.
    destruct Eb as [[Es Ei] Hsoft]. eapply commit_probe_bumps; eauto.
    destruct Hsoft as [Hst|]; [left|by right]. by destruct (decide (re_Stage r = ObservationFast)).
  - unfold CommitCandidateActiveHardFailureObservation in E. run_in E. run_in E. run_in E.
    apply transaction_inr in E. unfold commit_hard_failure in E. run_in E. run_in E. run_in E.
    destruct s as [s|]; [|by rewrite bool_decide_false in Ha by (by intros [])].
    rewrite bool_decide_true in Ha by done. injection Ha as -> ->.
    destruct a4; cbn [negb] in E; [|by apply ret_inr in E as [? _]].
    apply bind_inr in E as (st & d3 & Hrec & E). apply ret_inr in E as [_ ->].
    by apply record_hard_bumps in Hrec.
  - unfold CommitActiveVLESSHardFailureObservation in E. run_in E. run_in E. run_in E. run_in E.
    apply transaction_inr in E. unfold commit_domain_failure in E. run_in E. run_in E. run_in E.
    destruct s as [dom []]; cbn [snd taken_if] in Ha; [|done]. injection Ha as -> ->.
    destruct a5; cbn [negb] in E; [|by apply ret_inr in E as [? _]].
    apply bind_inr in E as ([dom' accepted] & d3 & Hrec & E). apply hushed_domain in Hrec as [_ H1].
    destruct accepted; cbn [negb] in E; [|by apply ret_inr in E as [? _]].
    apply bind_inr in E as (st & d4 & Hr & E). apply ret_inr in E as [_ ->].
    apply record_hard_bumps in Hr. specialize (H1 (c_ID c)). lia.
Qed.

(** What a transaction leaves when its body changes nothing. *)
Lemma transaction_still {A : Type} (P : A -> Prop) o (m : Tx A) d :
  (forall a d', m d = (inr a, d') -> P a /\ d' = d) ->
  match transaction o m d with (inl _, d') => d' = d | (inr a, d') => P a /\ d' = d end.
Proof.
  intros Hm. unfold transaction. destruct (m d) as [[e|a] d'] eqn:E; destruct o; try done;
    destruct (Hm a d' eq_refl) as [? ->]; done.
Qed.

Definition untouched {A : Type} (P : A -> Prop) (d : Database) (x : (StoreError + A) * Database) : Prop :=
  match x with (inl _, d') => d' = d | (inr a, d') => P a /\ d' = d end.

Lemma untouched_steady {A B : Type} (P : B -> Prop) (m : Tx A) (k : A -> Tx B) d :
  steady m -> (forall a, untouched P d (k a d)) -> untouched P d (bind m k d).
Proof.
  intros Hm Hk. specialize (Hm d). unfold bind. destruct (m d) as [[e|a] d1]; simpl in *; subst; [done|].
  apply Hk.
Qed.

Lemma active_refused c r outcome at_ d a d' : re_Stage r = ObservationActive ->
  generation (c_ID c) d <> re_FailureGeneration r ->
  commit_active c r outcome at_ d = (inr a, d') -> Accepted a = false /\ d' = d.
Proof.
  intros Hs Hg Hr. unfold commit_active in Hr. run_in Hr. run_in Hr. run_in Hr.
  destruct a2; cbn [negb] in Hr; [|by apply ret_inr in Hr as [<- ->]].
  apply bind_inr in Hr as (same & d3 & E & Hr). apply get_inr in E as [-> ->].
  unfold generation in Hg. destruct (candidate_health d !! c_ID c) as [h|]; cbn [from_option] in *;
    [|by apply ret_inr in Hr as [<- ->]].
  rewrite (proj2 (Z.eqb_neq _ _) Hg) in Hr. by apply ret_inr in Hr as [<- ->].
Qed.

Lemma full_refused c r t health sample d a d' : re_Stage r = ObservationFull ->
  generation (c_ID c) d <> re_FailureGeneration r ->
  commit_probe c r t health sample d = (inr a, d') -> a = None /\ d' = d.
Proof.
  intros Hs Hg Hr. unfold commit_probe in Hr. run_in Hr. run_in Hr.
  apply bind_inr in Hr as (accepted & d3 & E & Hr). unfold observationReservationCurrentTx in E.
  rewrite Hs in E. apply get_inr in E as [-> ->]. unfold generation in Hg.
  destruct (candidate_health d !! c_ID c) as [h|]; cbn [from_option] in *;
    [|by apply ret_inr in Hr as [<- ->]].
  rewrite (proj2 (Z.eqb_neq _ _) Hg), andb_false_r in Hr. by apply ret_inr in Hr as [<- ->].
Qed.

(** Evidence from before a failure does not count after it.  Let [r] be a
    reservation made for a candidate at its current failure generation, and let one of
    the operations that follow confirm a failure of that candidate: an outage of the
    route, a failed fast probe, or a full probe that failed more than a service gate.
    Then, whatever else happened before and after, committing a result under [r], of an
    active or of a full probe, successful or not, is refused or fails, and leaves the
    database exactly as it is: it neither marks the route available again nor clears
    what its clients are owed. *)
Theorem late_evidence_is_refused pre o op post d c r rf :
  0 <= re_FailureGeneration r -> generation (c_ID c) d = re_FailureGeneration r ->
  durable o = true -> effect o op (observe pre d) = Taken c rf -> failure_of op = Some (c_ID c) ->
  let d' := observe (pre ++ (o, op) :: post) d in
  forall c', c_ID c' = c_ID c ->
  (re_Stage r = ObservationActive -> forall o' now outcome at_,
     untouched (fun a => Accepted a = false) d'
       (CommitCandidateActiveOutcome o' now c' r outcome at_ d')) /\
  (re_Stage r = ObservationFull -> forall o' now t health sample,
     untouched (fun a => a = None) d'
       (CommitCandidateProbeObservation o' now c' r t health sample d')).
Proof.
  cbn zeta. intros Hpos Hgen Ho Ht Hf c' Hc. rewrite observe_app. cbn [observe].
  set (d1 := observe pre d) in *. set (d' := observe post (step o op d1).2).
  assert (generation (c_ID c') d' <> re_FailureGeneration r) as Hne.
  { rewrite Hc. pose proof (observe_later pre d (c_ID c)) as H1. fold d1 in H1.
    pose proof (failure_bumps o op d1 c rf Ho Ht Hf ltac:(lia)) as H2.
    pose proof (observe_later post (step o op d1).2 (c_ID c)) as H3. fold d' in H3. lia. }
  split; intros Hs o' now; intros.
  - unfold CommitCandidateActiveOutcome. apply untouched_steady; [auto with hydrat|intros _].
    apply transaction_still. intros a d''. by apply active_refused.
  - unfold CommitCandidateProbeObservation.
    repeat (apply untouched_steady; [auto with hydrat|intros ?]).
    apply transaction_still. intros a' d''. by apply full_refused.
Qed.
End Order.

(** ** On the small database *)

(** [cand_a] has an active and a full probe under way. *)
Definition observed_candidate : Candidate := stored_candidate "cand_a".
Definition observed_requests : list ObservationRequest :=
  [{| rq_Candidate := observed_candidate; rq_Stage := ObservationActive |};
   {| rq_Candidate := observed_candidate; rq_Stage := ObservationFull |}].
Definition observed_start : Database :=
  (ReserveCandidateObservations Commits 100 observed_requests (stored_database false)).2.
Definition observed_active : ObservationReservation :=
  reservation observed_candidate ObservationActive 3 1.
Definition observed_full (sequence generation : Z) : ObservationReservation :=
  reservation observed_candidate ObservationFull sequence generation.
Definition observed_success (at_ : Z) : ProbeTransition := {|
  pt_Fingerprint := c_Fingerprint observed_candidate; pt_CandidateID := "cand_a";
  pt_SourceID := "s"; pt_Full := true; pt_Success := true; pt_InfrastructureFailure := false;
  pt_DeferUDPDemotion := false; pt_ErrorCode := EmptyString; pt_SafeErrorMessage := EmptyString;
  pt_Score := 0.8; pt_At := of_unix at_; pt_ResetWindow := 0 |}.
Definition observed_outage : ObservationOp :=
  OpHardFailure zero_time observed_candidate observed_active (of_unix 300).

Example observed_reservations :
  (ReserveCandidateObservations Commits 100 observed_requests (stored_database false)).1 =
  inr [observed_active; observed_full 2 1].
Proof. vm_compute. reflexivity. Qed.

Lemma late_evidence_is_refused_witness :
  untouched (fun a => a = None) (observe [(Commits, observed_outage)] observed_start)
    (CommitCandidateProbeObservation Commits zero_time observed_candidate (observed_full 2 1)
       (observed_success 310) None None (observe [(Commits, observed_outage)] observed_start)).
Proof.
  refine (proj2 (late_evidence_is_refused [] Commits observed_outage [] observed_start
    observed_candidate (observed_full 2 1) observed_active _ _ eq_refl _ eq_refl
    observed_candidate eq_refl) eq_refl Commits zero_time (observed_success 310) None None).
  - discriminate.
  - vm_compute. reflexivity.
  - vm_compute. reflexivity.
Defined.
