(* ===== verification/FailedRoutes.v ===== *)
(** The return of a failed route (ObservationRuns.v): once an outage is confirmed, a
    candidate is out of the working pool until full probes that were started after
    the outage have succeeded. *)
From Stdlib Require Import Floats.
From S2P Require Import Prelude Effects GoOrder GoFloat GoStrings GoSort QoE DataPlan Handlers StoreTables StoreLogic StoreSample RouteRecovery CandidateState Observations ObservationRuns ObservationSafety.

#[local] Open Scope Z_scope.
#[local] Open Scope effect_scope.

(** ** The streak of full successes *)

Definition streak (fp : string) (d : Database) : Z :=
  from_option pr_full_success_streak 0 (candidate_probe_state d !! fp).

(** At most one success counts. *)
Definition low (fp : string) (d d' : Database) : Prop := streak fp d <= 1 -> streak fp d' <= 1.

#[export] Instance low_preorder fp : PreOrder (low fp).
Proof. split; [by intros d Hd|]. intros d1 d2 d3 H1 H2 Hd. by apply H2, H1. Qed.

Lemma low_rows fp d d' : candidate_probe_state d' = candidate_probe_state d -> low fp d d'.
Proof. unfold low, streak. by intros ->. Qed.

Lemma low_probes fp d f :
  (streak fp d <= 1 ->
   from_option pr_full_success_streak 0 (f (candidate_probe_state d) !! fp) <= 1) ->
  low fp d (set_probes f d).
Proof. intros Hf Hd. unfold streak. destruct d; simpl. by apply Hf. Qed.

Lemma low_alter fp d key f :
  (forall r, pr_full_success_streak (f r) = pr_full_success_streak r) ->
  low fp d (set_probes (alter f key) d).
Proof.
  intros Hf. apply low_probes. unfold streak. intros Hd.
  destruct (decide (key = fp)) as [<-|Hn]; [rewrite lookup_alter_eq|by rewrite lookup_alter_ne].
  destruct (candidate_probe_state d !! key); simpl in *; [by rewrite Hf|done].
Qed.

Lemma low_fmap fp d f : (forall r, pr_full_success_streak (f r) = pr_full_success_streak r) ->
  low fp d (set_probes (fmap f) d).
Proof.
  intros Hf. apply low_probes. unfold streak. intros Hd. rewrite lookup_fmap.
  destruct (candidate_probe_state d !! fp); simpl in *; [by rewrite Hf|done].
Qed.

(** *** Probe results *)

Definition is_full_success (t : ProbeTransition) : bool :=
  pt_Full t && pt_Success t && negb (pt_InfrastructureFailure t).

Lemma reset_streak s now w : 
  ps_FullSuccessStreak (resetCandidateWindow s now w) <= Z.max 0 (ps_FullSuccessStreak s) /\
  ps_Fingerprint (resetCandidateWindow s now w) = ps_Fingerprint s.
Proof.
  unfold resetCandidateWindow. destruct (_ || _); [split; lia || done|]. cbn zeta.
  destruct (is_qualified s) eqn:E; destruct s; simpl in *; unfold is_qualified in *; simpl in *;
    rewrite E; simpl; split; lia || done.
Qed.

Lemma prepare_streak t s :
  ps_FullSuccessStreak (prepare_probe_state t s) <= Z.max 0 (ps_FullSuccessStreak s) /\
  ps_Fingerprint (prepare_probe_state t s) = ps_Fingerprint s.
Proof.
  unfold prepare_probe_state. cbn zeta.
  set (s1 := if str_eqb (pt_CandidateID t) EmptyString then s else _).
  assert (ps_FullSuccessStreak s1 = ps_FullSuccessStreak s /\ ps_Fingerprint s1 = ps_Fingerprint s)
    as [E1 F1] by (unfold s1; by destruct (str_eqb _ _), s).
  set (s2 := if str_eqb (pt_SourceID t) EmptyString then s1 else _).
  assert (ps_FullSuccessStreak s2 = ps_FullSuccessStreak s /\ ps_Fingerprint s2 = ps_Fingerprint s)
    as [E2 F2] by (rewrite <- E1, <- F1; unfold s2; by destruct (str_eqb (pt_SourceID t) _), s1).
  set (s3 := if pt_InfrastructureFailure t then s2 else _).
  assert (ps_FullSuccessStreak s3 <= Z.max 0 (ps_FullSuccessStreak s) /\
          ps_Fingerprint s3 = ps_Fingerprint s) as [E3 F3].
  { rewrite <- E2, <- F2. unfold s3. destruct (pt_InfrastructureFailure t); [split; lia || done|].
    apply reset_streak. }
  destruct (time_is_zero _); [|done]. by destruct s3.
Qed.

Lemma apply_streak t s : is_full_success t = false ->
  ps_FullSuccessStreak (apply_transition t s).1 <= Z.max 1 (ps_FullSuccessStreak s).
Proof.
  unfold is_full_success, apply_transition. intros Ht.
  destruct (pt_InfrastructureFailure t).
  { unfold probed. by destruct (pt_Full t), s; simpl; lia. }
  destruct (pt_Full t && negb (pt_Success t) && _ && _).
  { unfold soft_failure. cbn zeta. by destruct (str_eqb _ _), s; simpl; case_if; simpl; lia. }
  destruct (negb (pt_Success t) && _ && _); [by destruct s; simpl; lia|].
  destruct (pt_Success t) eqn:Es; cbn [negb].
  - rewrite !andb_true_r in Ht. rewrite Ht. unfold fast_success. cbn zeta.
    by destruct (is_qualified s), s; simpl; lia.
  - unfold ordinary_failure, probed. cbn zeta.
    by destruct (pt_Full t), s; simpl; unfold is_qualified; simpl; repeat case_if; simpl; lia.
Qed.

Lemma apply_fingerprint t s : ps_Fingerprint (apply_transition t s).1 = ps_Fingerprint s.
Proof.
  unfold apply_transition. destruct (pt_InfrastructureFailure t).
  { unfold probed. by destruct (pt_Full t), s. }
  destruct (pt_Full t && negb (pt_Success t) && _ && _).
  { unfold soft_failure. cbn zeta. by destruct (str_eqb _ _), s; simpl; case_if. }
  destruct (negb (pt_Success t) && _ && _); [by destruct s|].
  destruct (negb (pt_Success t)).
  - unfold ordinary_failure, probed. cbn zeta.
    by destruct (pt_Full t), s; simpl; unfold is_qualified; simpl; repeat case_if.
  - destruct (pt_Full t); [unfold full_success|unfold fast_success]; cbn zeta.
    + destruct s; simpl. by repeat case_if.
    + by destruct (is_qualified s), s.
Qed.

(** What a recorded result leaves of the row it is about. *)
Lemma record_probe_row t health sample b d s d' :
  recordCandidateProbeTx t health sample b d = (inr s, d') ->
  let prepared := prepare_probe_state t (loaded_probe_state t d) in
  candidate_probe_state d' = candidate_probe_state (upsertCandidateProbeState s d) /\
  s = (apply_transition t prepared).1 <| ps_UpdatedAt := pt_At t |> /\
  ps_Fingerprint s = pt_Fingerprint t /\ (forall id, id <> pt_CandidateID t ->
    candidate_health d' !! id = candidate_health d !! id).
Proof.
  cbn zeta. intros Hr. unfold recordCandidateProbeTx in Hr. run_in Hr. run_in Hr.
  set (prepared := prepare_probe_state t (loaded_probe_state t d)) in *.
  destruct (apply_transition t prepared) as [s0 retained] eqn:Es.
  run_in Hr. apply bind_inr in Hr as (u & d1 & Hh & Hr). apply bind_inr in Hr as (u' & d2 & Hs & Hr).
  apply ret_inr in Hr as [<- ->].
  set (s1 := s0 <| ps_UpdatedAt := pt_At t |>) in *.
  assert (candidate_probe_state d1 = candidate_probe_state (upsertCandidateProbeState s1 d) /\
    forall id, id <> pt_CandidateID t -> candidate_health d1 !! id =
      candidate_health (upsertCandidateProbeState s1 d) !! id) as [Hp1 Hh1].
  { destruct health as [h|]; cbn [when_given] in Hh; [|by run_in Hh]. unfold record_health in Hh.
    run_in Hh. run_in Hh. str_bool.
    set (h' := defer_udp_demotion t _ h _) in *.
    assert (hl_CandidateID h' = pt_CandidateID t) as Hid.
    { unfold h', defer_udp_demotion. case_if; [by destruct h|done]. }
    destruct (retained && str_eqb (pt_ErrorCode t) score_too_low); [|destruct retained]; run_all Hh; [|done|].
    - split; [by destruct d|]. intros id Hn. unfold update_health. destruct d; simpl.
      rewrite lookup_alter_ne by congruence. done.
    - split; [by destruct d|]. intros id Hn. unfold saveCandidateHealthTx. destruct d; simpl.
      rewrite lookup_insert_ne by congruence. done. }
  assert (candidate_probe_state d2 = candidate_probe_state d1 /\
          candidate_health d2 = candidate_health d1) as [Hp2 Hh2].
  { destruct sample as [x|]; cbn [when_given] in Hs; [unfold record_sample in Hs|]; run_all Hs;
      [by destruct d1|done]. }
  split_and!.
  - by rewrite Hp2.
  - done.
  - pose proof (apply_fingerprint t prepared) as Hf. rewrite Es in Hf. cbn [fst] in Hf.
    assert (ps_Fingerprint s1 = ps_Fingerprint s0) as -> by (unfold s1; by destruct s0).
    rewrite Hf. unfold prepared. rewrite (proj2 (prepare_streak _ _)). unfold loaded_probe_state.
    by destruct (candidate_probe_state d !! pt_Fingerprint t).
  - intros id Hn. rewrite Hh2, Hh1 by done. by destruct d.
Qed.

Lemma upsert_streak fp s d : streak fp (upsertCandidateProbeState s d) =
  if decide (ps_Fingerprint s = fp) then ps_FullSuccessStreak s else streak fp d.
Proof.
  unfold streak, upsertCandidateProbeState. destruct d; simpl. case_decide as Hf.
  - by rewrite Hf, lookup_insert_eq.
  - by rewrite lookup_insert_ne.
Qed.

Lemma upsert_lookup s d : exists p,
  candidate_probe_state (upsertCandidateProbeState s d) !! ps_Fingerprint s = Some p /\
  pr_status p = ps_Status s /\ pr_stale p = ps_Stale s /\
  pr_full_success_streak p = ps_FullSuccessStreak s.
Proof.
  unfold upsertCandidateProbeState. destruct d; simpl. rewrite lookup_insert_eq.
  eexists. split; [reflexivity|done].
Qed.

Lemma loaded_streak t d : ps_FullSuccessStreak (loaded_probe_state t d) = streak (pt_Fingerprint t) d.
Proof. unfold loaded_probe_state, streak. by destruct (candidate_probe_state d !! _). Qed.

Lemma record_low fp t health sample b :
  (is_full_success t = true -> pt_Fingerprint t <> fp) ->
  leaves (low fp) (recordCandidateProbeTx t health sample b).
Proof.
  intros Ht d s d' Hr Hd. apply record_probe_row in Hr as (Hp & Hs & Hf & _).
  unfold streak in *. rewrite Hp. fold (streak fp (upsertCandidateProbeState s d)).
  rewrite upsert_streak. case_decide as Hfp; [|exact Hd].
  destruct (is_full_success t) eqn:Et; [exfalso; apply Ht; [done|congruence]|].
  pose proof (apply_streak t (prepare_probe_state t (loaded_probe_state t d)) Et) as Ha.
  pose proof (proj1 (prepare_streak t (loaded_probe_state t d))) as Hprep.
  rewrite loaded_streak in Hprep. subst s.
  assert (streak (pt_Fingerprint t) d <= 1) by (rewrite <- Hf, Hfp; exact Hd).
  destruct (apply_transition t _).1; simpl in *. lia.
Qed.

Lemma low_update_health fp id cond f e : leaves (low fp) (update_health_if id cond f e).
Proof. unfold update_health_if. leaves. by apply low_rows; destruct d. Qed.

Lemma apply_low fp c r : leaves (low fp) (applyObservationReservationTx c r).
Proof.
  unfold applyObservationReservationTx. destruct (re_Stage r); [|apply low_update_health..].
  leaves. apply low_alter. by intros [].
Qed.

Lemma clear_low fp c : leaves (low fp) (clearRecoveredRouteDebtTx c).
Proof. unfold clearRecoveredRouteDebtTx. leaves. by apply low_rows; destruct d. Qed.

Lemma fence_low fp c r t s : leaves (low fp) (fence_failure c r t s).
Proof.
  unfold fence_failure. leaves; first [apply low_update_health|by apply low_rows; destruct d].
Qed.

Lemma recoveries_rows `{PlanCodec} c at_ d u d' : recordRouteRecoveriesTx c at_ d = (inr u, d') ->
  candidate_probe_state d' = candidate_probe_state d /\ candidate_health d' = candidate_health d.
Proof.
  intros Hr%recoveries_frame. rewrite Hr. by destruct d.
Qed.

Lemma recoveries_low `{PlanCodec} fp c at_ : leaves (low fp) (recordRouteRecoveriesTx c at_).
Proof. intros d u d' Hr. apply recoveries_rows in Hr as [Hp _]. by apply low_rows. Qed.

Lemma domain_rows domain candidate now d a d' :
  recordFailureDomainFailureTx domain candidate now d = (inr a, d') ->
  candidate_probe_state d' = candidate_probe_state d /\ candidate_health d' = candidate_health d.
Proof.
  assert (PreOrder (fun d d' : Database => candidate_probe_state d' = candidate_probe_state d /\
    candidate_health d' = candidate_health d)) as Hpre.
  { split; [done|]. intros x y z [-> ->] [-> ->]. done. }
  revert d a d'. change (leaves (fun d d' => candidate_probe_state d' = candidate_probe_state d /\
    candidate_health d' = candidate_health d) (recordFailureDomainFailureTx domain candidate now)).
  unfold recordFailureDomainFailureTx. cbn zeta. leaves; try (by destruct d).
  unfold ensure_domain. destruct (failure_domain_state d !! domain); [done|by destruct d].
Qed.

(** ** Operations *)

Section Return.
Context `{PlanCodec}.
#[local] Hint Resolve steady_active_check apply_low clear_low fence_low recoveries_low
  low_update_health : hydrat.

Lemma hard_low fp c r t at_ : is_full_success t = false ->
  leaves (low fp) (record_hard_failure c r t at_).
Proof.
  intros Ht. unfold record_hard_failure. leaves. by apply record_low; rewrite Ht.
Qed.

Lemma domain_low fp domain candidate now :
  leaves (low fp) (recordFailureDomainFailureTx domain candidate now).
Proof. intros d a d' Hr. apply domain_rows in Hr as [Hp _]. by apply low_rows. Qed.

Lemma normalized now t t' : normalizeProbeTransition now t = inr t' ->
  is_full_success t' = is_full_success t /\ pt_Fingerprint t' = pt_Fingerprint t.
Proof.
  unfold normalizeProbeTransition. destruct (str_eqb _ _); [done|]. intros [= <-].
  by destruct (time_is_zero _), t; simpl; destruct (_ <=? 0).
Qed.

Lemma reserve_low fp now c stage : leaves (low fp) (reserveCandidateObservationTx now c stage).
Proof.
  intros d r d' Hr. unfold reserveCandidateObservationTx, reserve_health in Hr.
  destruct stage; run_all Hr; [|by apply low_rows; destruct d..].
  apply low_probes. unfold streak. intros Hd. destruct (decide (c_Fingerprint c = fp)) as [<-|Hn];
    [rewrite lookup_insert_eq|by rewrite lookup_insert_ne].
  destruct (candidate_probe_state d !! c_Fingerprint c) as [p|]; [by destruct p|simpl; lia].
Qed.
#[local] Hint Resolve reserve_low hard_low domain_low : hydrat.

(** A full success of this fingerprint that was taken. *)
Definition comeback (fp : string) (op : ObservationOp) : bool :=
  match op with
  | OpCommitProbe _ _ _ t _ _ => is_full_success t && str_eqb (pt_Fingerprint t) fp
  | _ => false
  end.

Lemma commit_low fp c r t health sample :
  (is_full_success t = true -> pt_Fingerprint t <> fp) ->
  leaves (low fp) (commit_probe c r t health sample).
Proof.
  intros Ht. unfold commit_probe. leaves. by apply record_low.
Qed.

Lemma members_low fp cond f l : (forall r, pr_full_success_streak (f r) = pr_full_success_streak r) ->
  leaves (low fp) (update_members cond f l).
Proof. intros Hf. unfold update_members, update_member. leaves. by apply low_alter. Qed.

Ltac use_normalized Hs Hf := match goal with Hn : normalizeProbeTransition _ _ = _ |- _ =>
  apply normalized in Hn as [Hs Hf] end.

Lemma step_low fp o op d : comeback fp op = false -> low fp d (step o op d).2.
Proof.
  assert (forall A (m : Tx A), lands (low fp) m -> low fp d (m d).2) as Hgo by done.
  intros Hc. destruct op as [now requests|now c r t health sample|now c r outcome at_|now c r at_|
    now c r at_|c health sample|id q fence|domain now|domain candidate now|domain ids now|
    clock active draining at_ epoch|now kind|f]; cbn [step answer snd]; [apply Hgo..|].
  - unfold ReserveCandidateObservations. lands. leaves. unfold forM, observable. leaves.
    case_decide; leaves.
  - unfold CommitCandidateProbeObservation. lands. apply commit_low.
    use_normalized Hs Hf.
    rewrite Hs, Hf. cbn [comeback] in Hc. intros Ht. rewrite Ht in Hc. by apply str_eqb_neq.
  - unfold CommitCandidateActiveOutcome. lands. unfold commit_active, activeSuccessGenerationCurrentTx.
    leaves.
  - unfold CommitCandidateActiveHardFailureObservation. lands. unfold commit_hard_failure. leaves.
    apply hard_low. use_normalized Hs Hf. by rewrite Hs.
  - unfold CommitActiveVLESSHardFailureObservation. cbn zeta. lands. unfold commit_domain_failure.
    leaves. apply hard_low. use_normalized Hs Hf. by rewrite Hs.
  - unfold RecordCandidateHealthResult, when_given. lands. leaves; by apply low_rows; destruct d0.
  - unfold UpdateCandidateUDPQualified. lands. leaves. by apply low_rows; destruct d0.
  - unfold ResetFailureDomainOnSuccess, reset_domain. lands. leaves; by apply low_rows; destruct d0.
  - unfold RecordFailureDomainFailure. lands. leaves.
  - unfold ElectFailureDomainCanary. lands. leaves. by apply low_rows; destruct d0.
  - unfold replaceWorkingPoolCurrent. lands. leaves; try (by apply low_fmap; intros []);
      by apply members_low; intros [].
  - unfold ClearWorkingPoolByKind. lands. leaves. apply low_fmap. intros []. by destruct (of_kind _ _ _).
  - apply low_rows. unfold elsewhere. by destruct (f d).
Qed.

(** ** What a confirmed outage leaves *)

Lemma outage_transition now c at_ t : normalizeProbeTransition now (hard_failure_transition c at_) = inr t ->
  pt_ErrorCode t = active_hard_failure /\ pt_Success t = false /\ pt_Full t = false /\
  pt_InfrastructureFailure t = false /\ pt_Fingerprint t = c_Fingerprint c /\
  pt_CandidateID t = c_ID c.
Proof.
  unfold normalizeProbeTransition. destruct (str_eqb _ _); [done|]. intros [= <-].
  unfold hard_failure_transition. destruct (time_is_zero _); simpl; (split; [vm_compute; reflexivity|done]).
Qed.

Lemma outage_state t s : pt_ErrorCode t = active_hard_failure -> pt_Success t = false ->
  pt_Full t = false -> pt_InfrastructureFailure t = false ->
  let s' := (apply_transition t s).1 in
  ps_FullSuccessStreak s' <= 1 /\ is_qualified s' = false /\ is_draining s' = false /\
  ps_Stale s' = true.
Proof.
  intros He Hs Hf Hi. cbn zeta. unfold apply_transition. rewrite He, Hs, Hf, Hi. cbn [andb negb].
  replace (str_eqb active_hard_failure active_hard_failure) with true by reflexivity. cbn [andb].
  destruct (is_qualified s) eqn:Eq; cbn [fst].
  - by destruct s.
  - unfold ordinary_failure, probed. rewrite Hf. destruct s; unfold is_qualified in *; simpl in *.
    rewrite Eq. simpl. case_if; simpl; (split; [lia|done]).
Qed.

(** The columns of a candidate whose route is out. *)
Record is_out (c : Candidate) (d : Database) : Prop := {
  out_health : exists h, candidate_health d !! c_ID c = Some h /\ h_available h = false /\
    h_active_hard_failure h = true /\ active_current h = true /\ h_placeholder h = false /\
    forall t, recovered t h = false;
  out_probe : exists p, candidate_probe_state d !! c_Fingerprint c = Some p /\
    pr_status p <> CandidateQualified /\ pr_status p <> CandidateDraining /\ pr_stale p = true /\
    pr_full_success_streak p <= 1
}.

Lemma update_health_lookup id f d :
  candidate_health (update_health id f d) !! id = f <$> candidate_health d !! id.
Proof. unfold update_health. destruct d; simpl. apply lookup_alter_eq. Qed.

Lemma record_hard_out now c r at_ t d s d' :
  normalizeProbeTransition now (hard_failure_transition c at_) = inr t ->
  re_Stage r = ObservationActive -> 0 < re_Sequence r ->
  record_hard_failure c r t at_ d = (inr s, d') ->
  is_out c d'.
Proof.
  intros Ht Hst Hseq Hr. apply outage_transition in Ht as (He & Hsu & Hfu & Hi & Hfp & Hid).
  unfold record_hard_failure in Hr.
  apply bind_inr in Hr as (st & d1 & Hrec & Hr). apply bind_inr in Hr as (u & d2 & Hf & Hr).
  apply bind_inr in Hr as (u' & d3 & Ha & Hr). apply bind_inr in Hr as (u'' & d4 & Hc & Hr).
  apply ret_inr in Hr as [_ ->]. apply recoveries_rows in Hc as [Hp4 Hh4].
  apply record_probe_row in Hrec as (Hp1 & Hst1 & Hfp1 & _).
  apply update_health_if_run in Hf as (h & Hh & _ & ->).
  unfold applyObservationReservationTx in Ha. rewrite Hst in Ha.
  apply update_health_if_run in Ha as (h2 & Hh2 & _ & ->).
  assert (h2 = failed_row at_ h) as ->.
  { rewrite update_health_lookup, Hh in Hh2. by injection Hh2. }
  split.
  - exists ((failed_row at_ h) <| h_active_applied_seq := re_Sequence r |>). split_and!.
    + rewrite Hh4, update_health_lookup, Hh2. reflexivity.
    + by destruct h.
    + by destruct h.
    + destruct h. unfold active_current. simpl. rewrite Z.eqb_refl, andb_true_r. by apply Z.ltb_lt.
    + by destruct h.
    + intros tr. by destruct h, tr.
  - pose proof (outage_state t (prepare_probe_state t (loaded_probe_state t d)) He Hsu Hfu Hi) as Hout.
    cbn zeta in Hout. rewrite Hfp in Hfp1. destruct Hout as (O1 & O2 & O3 & O4).
    assert (candidate_probe_state d4 = candidate_probe_state (upsertCandidateProbeState st d)) as Hp.
    { rewrite Hp4, <- Hp1. unfold update_health. by destruct d1. }
    rewrite Hp, <- Hfp1. destruct (upsert_lookup st d) as (p & -> & P1 & P2 & P3).
    exists p. rewrite P1, P2, P3. subst st. unfold is_qualified, is_draining in *.
    destruct (apply_transition t _).1. simpl in *. by str_bool.
Qed.

Definition is_outage (op : ObservationOp) : bool :=
  match op with OpHardFailure _ _ _ _ | OpDomainFailure _ _ _ _ => true | _ => false end.

Lemma check_active_inr c r d u d' : check_active c r d = (inr u, d') ->
  re_Stage r = ObservationActive /\ 0 < re_Sequence r /\ d' = d.
Proof.
  intros Hr. unfold check_active in Hr. run_all Hr. rewrite bool_decide_eq_true in Hcheck.
  split; [done|]. split; [|done]. revert Hget. unfold validateObservationReservation.
  destruct (_ || _); [done|]. destruct (_ <=? 0) eqn:E; [done|]. z_bool. lia.
Qed.

Lemma outage_is_out o op d c r : durable o = true -> is_outage op = true ->
  effect o op d = Taken c r -> is_out c (step o op d).2.
Proof.
  intros Ho Hop Ha. unfold effect in Ha. rewrite Ho in Ha.
  rewrite (step_db o op d) by by destruct op. rewrite Ho. clear Ho o.
  destruct op as [now requests|now c' r' t health sample|now c' r' outcome at_|
    now c' r' at_|now c' r' at_|c' health sample|id q fence|domain now|domain candidate now|
    domain ids now|clock active draining at_ epoch|now kind|f]; try discriminate;
    cbn [step] in *; unfold answer in *;
    match type of Ha with (match (?m d).1 with _ => _ end, _).1 = _ =>
      destruct (m d) as [[e|s] d'] eqn:E; cbn [fst snd] in *; [discriminate Ha|] end.
  - unfold CommitCandidateActiveHardFailureObservation in E.
    apply bind_inr in E as (u & d1 & Hck & E). apply check_active_inr in Hck as (Hst & Hseq & ->).
    run_in E. run_in E. apply transaction_inr in E. unfold commit_hard_failure in E.
    run_in E. run_in E. run_in E.
    destruct s as [s|]; [|by rewrite bool_decide_false in Ha by (by intros [])].
    rewrite bool_decide_true in Ha by done. injection Ha as -> ->.
    destruct a3; cbn [negb] in E; [|by apply ret_inr in E as [? _]].
    apply bind_inr in E as (st & d3 & Hrec & E). apply ret_inr in E as [_ ->].
    by eapply record_hard_out.
  - unfold CommitActiveVLESSHardFailureObservation in E. run_in E.
    apply bind_inr in E as (u & d1 & Hck & E). apply check_active_inr in Hck as (Hst & Hseq & ->).
    run_in E. run_in E. apply transaction_inr in E. unfold commit_domain_failure in E.
    run_in E. run_in E. run_in E.
    destruct s as [dom []]; cbn [snd taken_if] in Ha; [|done]. injection Ha as -> ->.
    destruct a4; cbn [negb] in E; [|by apply ret_inr in E as [? _]].
    apply bind_inr in E as ([dom' accepted] & d3 & Hrec & E).
    destruct accepted; cbn [negb] in E; [|by apply ret_inr in E as [? _]].
    apply bind_inr in E as (st & d4 & Hr & E). apply ret_inr in E as [_ ->].
    by eapply record_hard_out.
Qed.

(** A full success that is taken was reserved at the generation it is taken in. *)
Lemma comeback_taken o op d fp : streak fp d <= 1 -> 1 < streak fp (step o op d).2 ->
  exists now c r t health sample,
    op = OpCommitProbe now c r t health sample /\ durable o = true /\ effect o op d = Taken c r /\
    is_full_success t = true /\ c_Fingerprint c = fp /\ re_Stage r = ObservationFull /\
    generation (c_ID c) d = re_FailureGeneration r.
Proof.
  intros Hlow Hhigh.
  destruct (comeback fp op) eqn:Ec; [|pose proof (step_low fp o op d Ec Hlow); lia].
  destruct op as [|now c r t health sample| | | | | | | | | | |]; try done. cbn [comeback] in Ec.
  split_bool. str_bool. exists now, c, r, t, health, sample.
  rewrite (step_db o _ d) in Hhigh by done. unfold effect. destruct (durable o); [|lia].
  cbn [step] in *. unfold answer in *. cbn [fst snd] in *.
  destruct (CommitCandidateProbeObservation Commits now c r t health sample d) as [[e|s] d'] eqn:E;
    cbn [fst snd] in *.
  { exfalso. assert (d' = d) as ->; [|lia]. revert E.
    assert (clean (CommitCandidateProbeObservation Commits now c r t health sample)) as Hclean
      by (unfold CommitCandidateProbeObservation; clean). apply Hclean. }
  unfold CommitCandidateProbeObservation in E. run_in E. run_in E. run_in E. run_in E. run_in E.
  match goal with Hn : normalizeProbeTransition _ _ = _ |- _ => apply normalized in Hn as [Hfull Hfp] end.
  apply transaction_inr in E.
  match goal with Ht : is_full_success t = true |- _ => rename Ht into Hsucc end.
  assert (re_Stage r = ObservationFull) as Hst.
  { pose proof Hsucc as Hs. unfold is_full_success in Hs. split_bool. apply eqb_prop in Hcheck0.
    apply (bool_decide_eq_true (re_Stage r = ObservationFull)). congruence. }
  assert (c_Fingerprint c = fp) as Hc.
  { unfold validateProbeObservationPayload in Hget0. destruct (negb _) eqn:En in Hget0; [done|].
    split_bool. str_bool. congruence. }
  unfold commit_probe in E. run_in E. run_in E.
  apply bind_inr in E as (accepted & d3 & Eacc & E). unfold observationReservationCurrentTx in Eacc.
  rewrite Hst in Eacc. apply get_inr in Eacc as [-> ->]. unfold generation.
  destruct (candidate_health d !! c_ID c) as [h|] eqn:Eh; cbn [from_option] in *;
    [|apply ret_inr in E as [_ ->]; lia].
  destruct (in_turn _ _ _ && _) eqn:Eturn; cbn [negb] in E; [|apply ret_inr in E as [_ ->]; lia].
  split_bool. z_bool. apply bind_inr in E as (st & d4 & _ & E).
  apply bind_inr in E as (u1 & d5 & _ & E). apply bind_inr in E as (u2 & d6 & _ & E).
  apply bind_inr in E as (u3 & d7 & _ & E). apply ret_inr in E as [<- _].
  rewrite bool_decide_true by done. done.
Qed.

(** C21.  A route that failed stays out of the working pool until new evidence is in.
    When an outage of a candidate is confirmed, its health shows the failure at once:
    unavailable, hard failed, current, and neither transport recovered; and its probe
    row is neither qualified nor draining.  If, in any run of operations after that, the
    row of its fingerprint can be selected for the working pool again, then a full probe
    that succeeded was taken meanwhile, and if it was a probe of this candidate, it was
    reserved after the outage. *)
Theorem failed_route_returns_on_new_evidence o op ops d c r :
  durable o = true -> is_outage op = true -> effect o op d = Taken c r ->
  let d1 := (step o op d).2 in
  is_out c d1 /\
  forall at_ p, candidate_probe_state (observe ops d1) !! c_Fingerprint c = Some p ->
    selectable at_ p = true ->
    exists pre o' now c' r' t health sample post,
      ops = pre ++ (o', OpCommitProbe now c' r' t health sample) :: post /\
      durable o' = true /\
      effect o' (OpCommitProbe now c' r' t health sample) (observe pre d1) = Taken c' r' /\
      is_full_success t = true /\ c_Fingerprint c' = c_Fingerprint c /\
      re_Stage r' = ObservationFull /\
      (c_ID c' = c_ID c -> generation (c_ID c) d1 <= re_FailureGeneration r').
Proof.
  cbn zeta. intros Ho Hop Ha. pose proof (outage_is_out o op d c r Ho Hop Ha) as Hout.
  set (d1 := (step o op d).2) in *. split; [done|]. intros at_ p Hp Hsel.
  assert (streak (c_Fingerprint c) d1 <= 1) as Hlow.
  { destruct Hout as [_ (p1 & Hp1 & _ & _ & _ & Hs)]. unfold streak. by rewrite Hp1. }
  assert (1 < streak (c_Fingerprint c) (observe ops d1)) as Hhigh.
  { unfold streak, selectable in *. rewrite Hp. simpl. split_bool. z_bool. lia. }
  clear Hp Hsel p at_ Hout Ha Hop Ho. clearbody d1. revert d1 Hlow Hhigh.
  induction ops as [|[o1 op1] ops IH]; intros d1 Hlow Hhigh; cbn [observe] in Hhigh; [lia|].
  destruct (Z.le_gt_cases (streak (c_Fingerprint c) (step o1 op1 d1).2) 1) as [Hle|Hgt].
  - destruct (IH _ Hle Hhigh) as (pre & o' & now & c' & r' & t & health & sample & post & -> & E1 &
      E2 & E3 & E4 & E5 & E6).
    exists ((o1, op1) :: pre), o', now, c', r', t, health, sample, post. split_and!; try done.
    intros Hc. specialize (E6 Hc). pose proof (proj2 (step_effect o1 op1 d1) (c_ID c)). lia.
  - destruct (comeback_taken o1 op1 d1 _ Hlow Hgt) as (now & c' & r' & t & health & sample & -> & E1 &
      E2 & E3 & E4 & E5 & E6).
    exists [], o1, now, c', r', t, health, sample, ops. split_and!; try done.
    intros Hc. cbn [observe]. rewrite <- E6, Hc. lia.
Qed.
End Return.

(** ** On the small database *)

(** After its outage [cand_a] passes two full probes. *)
Definition recovering : list (Outcome * ObservationOp) :=
  [(Commits, OpReserve 320 [{| rq_Candidate := observed_candidate; rq_Stage := ObservationFull |}]);
   (Commits, OpCommitProbe zero_time observed_candidate (observed_full 3 2) (observed_success 330)
      None None);
   (CommitUnreported,
    OpReserve 340 [{| rq_Candidate := observed_candidate; rq_Stage := ObservationFull |}]);
   (Commits, OpCommitProbe zero_time observed_candidate (observed_full 4 2) (observed_success 350)
      None None)].
Definition outage_database : Database := (step Commits observed_outage observed_start).2.

Example recovering_route_selectable :
  selectable (of_unix 400) <$>
    candidate_probe_state (observe recovering outage_database) !! c_Fingerprint observed_candidate =
  Some true.
Proof. vm_compute. reflexivity. Qed.

Lemma failed_route_returns_on_new_evidence_witness :
  is_out observed_candidate outage_database /\
  exists r' t, is_full_success t = true /\ re_Stage r' = ObservationFull /\
    exists pre o' now c' health sample post,
      recovering = pre ++ (o', OpCommitProbe now c' r' t health sample) :: post.
Proof.
  assert (effect Commits observed_outage observed_start = Taken observed_candidate observed_active)
    as Ha by (vm_compute; reflexivity).
  destruct (failed_route_returns_on_new_evidence Commits observed_outage recovering observed_start
    observed_candidate observed_active eq_refl eq_refl Ha) as [Hout Hback].
  split; [exact Hout|].
  destruct (candidate_probe_state (observe recovering outage_database) !!
              c_Fingerprint observed_candidate) as [p|] eqn:Ep;
    pose proof recovering_route_selectable as Hs; rewrite Ep in Hs; [|discriminate Hs].
  injection Hs as Hs. destruct (Hback _ p Ep Hs) as (pre & o' & now & c' & r' & t & health & sample &
    post & E1 & _ & _ & E2 & _ & E3 & _).
  exists r', t. split; [exact E2|]. split; [exact E3|]. by exists pre, o', now, c', health, sample, post.
Defined.

(** * The working pool

    The membership of the working pool in the database (store/candidate_state.go,
    [replaceWorkingPoolCurrent]): what is asked for, what is granted, and which rows
    show it. *)

(** ** Current candidates *)

(** The query of [candidateCurrentTx]. *)
Definition is_current (d : Database) (c : Candidate) : bool :=
  match candidates d !! c_ID c with
  | Some row =>
      let current := cr_candidate row in
      str_eqb (c_SourceID current) (c_SourceID c) &&
      str_eqb (c_Fingerprint current) (c_Fingerprint c) && c_Enabled current &&
      from_option so_enabled false (sources d !! c_SourceID current) &&
      existsb (str_eqb (c_Lifecycle current)) [CandidateLifecycleActive]
  | None => false
  end.

Lemma current_run c d : candidateCurrentTx c d =
  (if complete c then inr (is_current d c) else inl IdentityIncomplete, d).
Proof.
  unfold candidateCurrentTx, candidateIdentityCurrentTx, bind. rewrite tx_check. fold (complete c).
  by destruct (complete c).
Qed.

Definition member (fp : string) (l : list Candidate) : bool :=
  existsb (fun c => str_eqb (c_Fingerprint c) fp) l.

(** The candidates an update of members reaches. *)
Definition reached (cond : ProbeRow -> bool) (d : Database) (c : Candidate) : bool :=
  is_current d c &&
  from_option (fun r => row_of c r && cond r) false (candidate_probe_state d !! c_Fingerprint c).

Section Members.
Context (cond : ProbeRow -> bool) (f : ProbeRow -> ProbeRow).
Context (cond_kept : forall r, cond (f r) = cond r).
Context (row_kept : forall c r, row_of c (f r) = row_of c r).
Context (idempotent : forall r, f (f r) = f r).

(** Rows changed by [f] for the members of [l]. *)
Definition changed (l : list Candidate) (d d' : Database) : Prop :=
  d' = set_probes (fun _ => candidate_probe_state d') d /\
  forall fp, candidate_probe_state d' !! fp =
    (if member fp l then f else id) <$> candidate_probe_state d !! fp.

Lemma changed_reached l d d' c : changed l d d' -> reached cond d' c = reached cond d c.
Proof.
  intros [Hd Hp]. unfold reached. rewrite Hp. f_equal.
  - rewrite Hd. by destruct d.
  - destruct (candidate_probe_state d !! c_Fingerprint c) as [r|]; [|done]. simpl.
    destruct (member _ _); [|done]. by rewrite cond_kept, row_kept.
Qed.

Lemma update_member_run c d b d' : update_member c cond f d = (inr b, d') ->
  b = from_option (fun r => row_of c r && cond r) false
        (candidate_probe_state d !! c_Fingerprint c) /\
  d' = if b then set_probes (alter f (c_Fingerprint c)) d else d.
Proof.
  intros Hr. unfold update_member in Hr. run_in Hr.
  destruct (from_option _ _ _); run_all Hr; done.
Qed.

Lemma update_members_run l d kept d' : update_members cond f l d = (inr kept, d') ->
  Forall (fun c => complete c = true) l /\ kept = List.filter (reached cond d) l /\
  changed kept d d'.
Proof.
  revert d kept. induction l as [|c l IH]; intros d kept Hr; cbn [update_members filterM] in Hr.
  - apply ret_inr in Hr as [<- ->]. split_and!; [constructor|done|]. split; [by destruct d|].
    intros fp. by rewrite option_fmap_id.
  - apply bind_inr in Hr as (b & d1 & Hb & Hr). apply bind_inr in Hr as (rest & d2 & Hl & Hr).
    apply ret_inr in Hr as [<- ->].
    apply bind_inr in Hb as (current & d3 & Hc & Hb). rewrite current_run in Hc.
    destruct (complete c) eqn:Ecomp; [|done]. injection Hc as <- <-.
    assert (b = reached cond d c /\ d1 = if b then set_probes (alter f (c_Fingerprint c)) d else d)
      as [-> Hd1].
    { unfold reached. destruct (is_current d c); cbn [andb].
      - by apply update_member_run in Hb as [-> ->].
      - by apply ret_inr in Hb as [<- ->]. }
    assert (changed (if reached cond d c then [c] else []) d d1) as Hch.
    { subst d1. destruct (reached cond d c); split.
      - by destruct d.
      - intros fp. unfold member. cbn [existsb]. rewrite orb_false_r. destruct d; simpl.
        destruct (str_eqb (c_Fingerprint c) fp) eqn:Efp; str_bool.
        + subst fp. apply lookup_alter_eq.
        + rewrite lookup_alter_ne by done. by rewrite option_fmap_id.
      - by destruct d.
      - intros fp. by rewrite option_fmap_id. }
    destruct (IH d1 rest Hl) as (Hcomp & Hkept & [Hd2 Hp2]). split; [by constructor|].
    assert (rest = List.filter (reached cond d) l) as Hrest.
    { rewrite Hkept. apply filter_ext_In. intros x _. by eapply changed_reached. }
    split; [cbn [List.filter]; rewrite <- Hrest; by destruct (reached cond d c)|].
    destruct Hch as [Hd Hp]. split.
    + rewrite Hd2. rewrite Hd. by destruct d.
    + intros fp. rewrite Hp2, Hp, <- option_fmap_compose. unfold member.
      destruct (reached cond d c); cbn [existsb].
      * rewrite orb_false_r. destruct (str_eqb (c_Fingerprint c) fp), (existsb _ rest); cbn [orb];
          destruct (candidate_probe_state d !! fp); simpl; by rewrite ?idempotent.
      * destruct (existsb _ rest), (candidate_probe_state d !! fp); done.
Qed.
End Members.

(** ** Replacing the pool *)

(** What a row records besides the membership. *)
Definition evidence_columns (r : ProbeRow) :=
  (pr_candidate_id r, pr_source_id r, pr_failure_streak r, pr_full_success_streak r,
   pr_window_started_at r, pr_banned_until r, (pr_last_fast_probe_at r, pr_last_full_probe_at r),
   (pr_last_success_at r, pr_last_failure_at r),
   (pr_last_error_code r, pr_last_error_message r, pr_last_score r, pr_conservative_score r),
   (pr_stale r, pr_fast_result_seq r, pr_fast_applied_seq r, pr_placeholder r)).

Definition rested_status (r : ProbeRow) : string :=
  if str_eqb (pr_status r) CandidateDraining then CandidateQualified else pr_status r.

(** The row [p'] after the replacement, from the row [p] before. *)
Definition replaced (fp : string) (m : WorkingPoolMembership) (p p' : ProbeRow) : Prop :=
  pr_in_working_pool p' = member fp (wp_Active m) && negb (member fp (wp_Draining m)) /\
  pr_draining p' = member fp (wp_Draining m) /\
  pr_status p' = (if member fp (wp_Draining m) then CandidateDraining else rested_status p) /\
  evidence_columns p' = evidence_columns p.

(** Qualified, twice proven and not banned, and current in the inventory. *)
Definition deserving (d : Database) (at_ : Time) (c : Candidate) : Prop :=
  is_current d c = true /\
  exists p, candidate_probe_state d !! c_Fingerprint c = Some p /\ row_of c p = true /\
    rested_status p = CandidateQualified /\ 2 <= pr_full_success_streak p /\
    (forall t, pr_banned_until p = Some t -> t <= time_unix at_).

Lemma selectable_iff at_ r : selectable at_ r = true <->
  pr_status r = CandidateQualified /\ 2 <= pr_full_success_streak r /\
  (forall t, pr_banned_until r = Some t -> t <= time_unix at_).
Proof.
  unfold selectable. rewrite !andb_true_iff, str_eqb_eq, Z.leb_le.
  destruct (pr_banned_until r) as [t|]; [rewrite Z.leb_le|]; naive_solver.
Qed.

(** The working pool in the database is what the replacement answers.  If the
    transaction is reported done, the inventory was at the expected epoch; the active
    members are exactly the requested candidates that are current, qualified by two full
    successes and not banned; the draining ones are exactly the requested candidates that
    are current and have a row; every row is in the pool, or drains, just when a member
    of that fingerprint does, draining winning over membership; and nothing else a row
    has recorded changes.  If the operation fails, nothing changes, unless its commit was done
    and only the answer lost. *)
Theorem working_pool_replaced o clock active draining at_ epoch d :
  match replaceWorkingPoolCurrent o clock active draining at_ epoch d with
  | (inr m, d') =>
      (forall e, epoch = Some e -> inventory_epoch d = e) /\
      (forall c, In c (wp_Active m) <-> In c active /\ deserving d at_ c) /\
      (forall c, In c (wp_Draining m) <-> In c draining /\ is_current d c = true /\
         exists p, candidate_probe_state d !! c_Fingerprint c = Some p /\ row_of c p = true) /\
      (forall fp, match candidate_probe_state d !! fp, candidate_probe_state d' !! fp with
                  | Some p, Some p' => replaced fp m p p' | None, None => True | _, _ => False end) /\
      d' = set_probes (fun _ => candidate_probe_state d') d
  | (inl _, d') => o <> CommitUnreported -> d' = d
  end.
Proof.
  unfold replaceWorkingPoolCurrent.
  match goal with |- context [transaction o ?m d] => set (body := m) end.
  destruct (transaction o body d) as [[e|m] d'] eqn:E.
  { intros Ho. revert E. unfold transaction. destruct (body d) as [[e'|a] d1], o; by intros [= _ ->]. }
  apply transaction_inr in E. unfold body in E. clear body.
  run_in E. run_in E. run_in E.
  set (d1 := set_probes (fmap (leave_pool clock)) d) in *.
  apply bind_inr in E as (kept & d2 & Ha & E). apply bind_inr in E as (drained & d3 & Hd & E).
  apply ret_inr in E as [<- ->]. cbn [wp_Active wp_Draining].
  apply (update_members_run (selectable at_) (enter_pool clock)) in Ha as (_ & Hkept & Ha); [|done..].
  apply (update_members_run (fun _ => true) (drain clock)) in Hd as (_ & Hdrained & Hd); [|done..].
  assert (forall fp, candidate_probe_state d1 !! fp = leave_pool clock <$> candidate_probe_state d !! fp)
    as Hd1 by (intros fp; unfold d1; destruct d; simpl; apply lookup_fmap).
  assert (forall c, is_current d1 c = is_current d c) as Hcur by (intros c; unfold d1; by destruct d).
  split_and!.
  - intros e ->. simpl in Hcheck. by z_bool.
  - intros c. rewrite Hkept, filter_In. apply and_iff_compat_l. unfold reached, deserving.
    rewrite andb_true_iff, Hcur, Hd1. apply and_iff_compat_l.
    destruct (candidate_probe_state d !! c_Fingerprint c) as [p|]; simpl; [|naive_solver].
    rewrite andb_true_iff, selectable_iff. destruct p; simpl. naive_solver.
  - intros c. rewrite Hdrained, filter_In. apply and_iff_compat_l.
    assert (reached (fun _ => true) d2 c = reached (fun _ => true) d1 c) as ->
      by (eapply (changed_reached _ (enter_pool clock)); [done..|exact Ha]).
    unfold reached. rewrite andb_true_iff, Hcur, Hd1. apply and_iff_compat_l.
    destruct (candidate_probe_state d !! c_Fingerprint c) as [p|]; simpl; [|naive_solver].
    rewrite andb_true_r. destruct p; simpl. naive_solver.
  - intros fp. rewrite (proj2 Hd), (proj2 Ha), Hd1.
    destruct (candidate_probe_state d !! fp) as [p|]; simpl; [|done].
    unfold replaced, rested_status, evidence_columns. cbn [wp_Active wp_Draining].
    destruct (member fp kept), (member fp drained); destruct p; simpl; done.
  - rewrite (proj1 Hd), (proj1 Ha). unfold d1. by destruct d.
Qed.
