(* ===== verification/FailureDomainSafety.v ===== *)
(** When the circuit of a failure domain opens (Observations.v): only when three
    candidates of the domain have failed within five minutes, and none of these
    failures is older than the last success. *)
From Stdlib Require Import Floats.
From S2P Require Import Prelude Effects GoOrder GoStrings GoSort QoE DataPlan Handlers StoreTables StoreLogic StoreSample RouteRecovery CandidateState Observations ObservationRuns ObservationSafety FailedRoutes.

#[local] Open Scope Z_scope.
#[local] Open Scope effect_scope.

(** ** Evidence *)

Lemma of_domain_elem domain d c s : (c, s) ∈ evidence_of domain d <->
  failure_domain_evidence d !! (domain, c) = Some s.
Proof.
  unfold evidence_of. rewrite list_elem_of_omap. split.
  - intros ([[dom c'] s'] & Hin & Hx). apply elem_of_map_to_list in Hin.
    destruct (str_eqb dom domain) eqn:E; [|done]. str_bool. by simplify_eq.
  - intros Hl. exists ((domain, c), s). split; [by apply elem_of_map_to_list|].
    by rewrite str_eqb_refl.
Qed.

Lemma of_domain_NoDup domain d : NoDup (map fst (evidence_of domain d)).
Proof.
  unfold evidence_of. pose proof (NoDup_fst_map_to_list (failure_domain_evidence d)) as Hnd.
  revert Hnd. generalize (map_to_list (failure_domain_evidence d)). intros l.
  induction l as [|[[dom c] s] l IH]; [constructor|]. cbn [fmap list_fmap omap list_omap fst].
  intros [Hn Hnd]%NoDup_cons. destruct (str_eqb dom domain) eqn:E; [|by apply IH]. str_bool. subst.
  cbn [map fst]. apply NoDup_cons. split; [|by apply IH]. intros Hin. apply Hn.
  apply list_elem_of_In, in_map_iff in Hin as ([c' s'] & Hc & Hin). cbn [fst] in Hc. subst c'.
  apply list_elem_of_In, list_elem_of_omap in Hin as ([[dom' c'] s''] & Hin & Hx).
  destruct (str_eqb dom' domain) eqn:E; [|done]. str_bool. simplify_eq.
  apply list_elem_of_fmap. by exists ((domain, c), s').
Qed.

(** Three different candidates with failures at most five minutes apart. *)
Definition three_within (holds : string -> Z -> Prop) : Prop :=
  exists c1 c2 c3 s1 s2 s3, NoDup [c1; c2; c3] /\ holds c1 s1 /\ holds c2 s2 /\ holds c3 s3 /\
    Z.max s1 (Z.max s2 s3) - Z.min s1 (Z.min s2 s3) <= failureDomainWindow / second.

Lemma three_of_count domain d low high : 3 <= Z.of_nat (length (evidence_of domain d)) ->
  (forall c s, failure_domain_evidence d !! (domain, c) = Some s -> low <= s <= high) ->
  high - low <= failureDomainWindow / second ->
  three_within (fun c s => failure_domain_evidence d !! (domain, c) = Some s).
Proof.
  intros Hlen Hrange Hspan. pose proof (of_domain_NoDup domain d) as Hnd.
  pose proof (of_domain_elem domain d) as Hin.
  destruct (evidence_of domain d) as [|[c1 s1] [|[c2 s2] [|[c3 s3] l]]]; simpl in Hlen; try lia.
  exists c1, c2, c3, s1, s2, s3.
  assert (failure_domain_evidence d !! (domain, c1) = Some s1) as H1 by (apply Hin; by left).
  assert (failure_domain_evidence d !! (domain, c2) = Some s2) as H2 by (apply Hin; right; by left).
  assert (failure_domain_evidence d !! (domain, c3) = Some s3) as H3
    by (apply Hin; right; right; by left).
  split_and!; try done.
  - cbn [map fst] in Hnd. eapply NoDup_app with (k := map fst l). exact Hnd.
  - pose proof (Hrange _ _ H1). pose proof (Hrange _ _ H2). pose proof (Hrange _ _ H3). lia.
Qed.

(** ** One failure *)

(** What taking a failure does to the tables of circuits. *)
Inductive failure_effect (domain candidate : string) (at_ : Z) (d d' : Database) : Prop :=
  | effect_none : failure_domain_state d' = failure_domain_state d ->
      failure_domain_evidence d' = failure_domain_evidence d -> failure_effect domain candidate at_ d d'
  | effect_extend r : failure_domain_state d !! domain = Some r -> fr_updated_at r <= at_ \/ fr_updated_at r = 0 ->
      failure_domain_state d' = <[domain := r <| fr_open_until := time_unix (time_add (of_unix at_) failureDomainOpenDuration) |>
        <| fr_updated_at := at_ |>]> (failure_domain_state d) ->
      fr_open_until r <> 0 ->
      failure_domain_evidence d' = failure_domain_evidence d -> failure_effect domain candidate at_ d d'
  | effect_count r' : (forall r, failure_domain_state d !! domain = Some r -> fr_updated_at r <= at_ \/ fr_updated_at r = 0) ->
      failure_domain_state d' = <[domain := r']> (failure_domain_state d) ->
      fr_updated_at r' = at_ ->
      (fr_open_until r' <> 0 -> 3 <= Z.of_nat (length (evidence_of domain d'))) ->
      (forall dom c, dom <> domain -> failure_domain_evidence d' !! (dom, c) = failure_domain_evidence d !! (dom, c)) ->
      (forall c s, failure_domain_evidence d' !! (domain, c) = Some s ->
         at_ - failureDomainWindow / second <= s /\
         (s = at_ /\ c = candidate \/ failure_domain_evidence d !! (domain, c) = Some s)) ->
      failure_effect domain candidate at_ d d'.

Lemma of_unix_lt s s' : of_unix s < of_unix s' <-> s < s'.
Proof. unfold of_unix. pose proof (eq_refl : second = 1000000000). nia. Qed.

Lemma time_unix_back s : time_unix (time_add (of_unix s) (- failureDomainWindow)) =
  s - failureDomainWindow / second.
Proof.
  unfold time_unix, time_add, of_unix.
  replace ((s + unix_epoch) * second + - failureDomainWindow)
    with ((s + unix_epoch - failureDomainWindow / second) * second)
    by (change failureDomainWindow with (300 * second); change (300 * second / second) with 300; lia).
  rewrite Z.div_mul by done. lia.
Qed.

Lemma event_seconds now : time_unix (failureDomainEventTime now) = time_unix now.
Proof. apply time_unix_of_unix. Qed.

(** What the statements that precede the count leave. *)
Lemma counted_evidence domain candidate (clear : bool) at_ d dom c :
  let d1 := if clear then clear_evidence domain d else d in
  failure_domain_evidence (add_evidence domain candidate at_
    (prune_evidence domain (at_ - failureDomainWindow / second) d1)) !! (dom, c) =
  if decide (dom = domain) then
    match (if clear then None else failure_domain_evidence d !! (dom, c)) with
    | Some s =>
        if s <? at_ - failureDomainWindow / second
        then if decide (c = candidate) then Some at_ else None
        else if decide (c = candidate) then Some (Z.max s at_) else Some s
    | None => if decide (c = candidate) then Some at_ else None
    end
  else failure_domain_evidence d !! (dom, c).
Proof.
  cbn zeta. set (low := at_ - failureDomainWindow / second).
  set (d1 := if clear then clear_evidence domain d else d).
  assert (failure_domain_evidence d1 !! (dom, c) =
    if clear && bool_decide (dom = domain) then None else failure_domain_evidence d !! (dom, c)) as H1.
  { unfold d1, clear_evidence. destruct clear; [|done]. destruct d; simpl.
    destruct (bool_decide_reflect (dom = domain)) as [->|Hn].
    - apply map_lookup_filter_None. right. intros s _ Hd. by apply Hd.
    - apply option_eq. intros s. rewrite map_lookup_filter_Some. naive_solver. }
  assert (failure_domain_evidence (prune_evidence domain low d1) !! (dom, c) =
    match failure_domain_evidence d1 !! (dom, c) with
    | Some s => if bool_decide (dom = domain) && (s <? low) then None else Some s | None => None end) as H2.
  { unfold prune_evidence. destruct d1; simpl. apply option_eq. intros s.
    rewrite map_lookup_filter_Some. destruct (_ !! (dom, c)) as [s'|]; [|naive_solver].
    destruct (bool_decide_reflect (dom = domain)) as [->|Hn]; cbn [andb];
      destruct (s' <? low) eqn:E; z_bool; split; try naive_solver lia. }
  unfold add_evidence. set (d2 := prune_evidence domain low d1) in *.
  assert (failure_domain_evidence (set_evidence <[(domain, candidate) :=
    match failure_domain_evidence d2 !! (domain, candidate) with Some t => Z.max t at_ | None => at_ end]> d2)
    !! (dom, c) = if decide ((domain, candidate) = (dom, c))
      then Some (match failure_domain_evidence d2 !! (dom, c) with Some t => Z.max t at_ | None => at_ end)
      else failure_domain_evidence d2 !! (dom, c)) as ->.
  { destruct (decide ((domain, candidate) = (dom, c))) as [Hk|Hk]; destruct d2; simpl;
      [rewrite Hk; apply lookup_insert_eq|by apply lookup_insert_ne]. }
  rewrite H2, H1. destruct (decide (dom = domain)) as [->|Hn].
  - rewrite bool_decide_true by done. rewrite andb_true_r. cbn [andb].
    destruct (decide (c = candidate)) as [->|Hc].
    + rewrite decide_True by done. destruct clear; [done|].
      destruct (failure_domain_evidence d !! _) as [s|]; [|done]. by destruct (s <? low).
    + rewrite decide_False by congruence. destruct clear; [done|].
      destruct (failure_domain_evidence d !! _) as [s|]; [|done]. by destruct (s <? low).
  - rewrite bool_decide_false by done. rewrite andb_false_r, decide_False by congruence. cbn [andb].
    by destruct (failure_domain_evidence d !! _).
Qed.

(** The counting branch as one function of the tables. *)
Definition count_failure (domain candidate : string) (eventAt : Time) (clear : bool) (d : Database) :
    Database :=
  let d := ensure_domain domain eventAt d in
  let d := if clear then clear_evidence domain d else d in
  let d := prune_evidence domain (time_unix (time_add eventAt (- failureDomainWindow))) d in
  let d := add_evidence domain candidate (time_unix eventAt) d in
  set_domains (alter (write_domain (next_domain domain eventAt (summarize domain d))) domain) d.

Lemma counted_tables domain candidate eventAt clear d :
  eventAt = of_unix (time_unix eventAt) ->
  exists r', failure_domain_state (count_failure domain candidate eventAt clear d) =
      <[domain := r']> (failure_domain_state d) /\
    fr_updated_at r' = time_unix eventAt /\
    (fr_open_until r' <> 0 ->
     3 <= Z.of_nat (length (evidence_of domain (count_failure domain candidate eventAt clear d)))).
Proof.
  intros Hev. unfold count_failure. set (low := time_unix _).
  set (d0 := ensure_domain domain eventAt d).
  set (d1 := if clear then clear_evidence domain d0 else d0).
  set (d2 := add_evidence _ _ _ _).
  assert (failure_domain_state d2 = failure_domain_state d0) as Hs
    by (unfold d2, d1; destruct clear; by destruct d0).
  assert (exists r, failure_domain_state d0 !! domain = Some r /\
    forall r', <[domain := r']> (failure_domain_state d0) = <[domain := r']> (failure_domain_state d))
    as (r & Hr & Hins).
  { unfold d0, ensure_domain. destruct (failure_domain_state d !! domain) as [r|] eqn:Er; [by exists r|].
    destruct d; simpl. eexists. split; [apply lookup_insert_eq|]. intros r'. apply insert_insert_eq. }
  exists (write_domain (next_domain domain eventAt (summarize domain d2)) r). split_and!.
  - rewrite <- Hins, <- Hs. rewrite <- Hs in Hr. destruct d2; simpl in *.
    by rewrite (alter_insert_Some _ _ _ r).
  - unfold next_domain. destruct (summarize domain d2) as [[count start] canary].
    by destruct (3 <=? count).
  - change (evidence_of domain (set_domains _ d2)) with (evidence_of domain d2).
    unfold summarize, next_domain. destruct (3 <=? Z.of_nat _) eqn:E; z_bool; [done|].
    intros Hn. exfalso. by apply Hn.
Qed.

Lemma counted_evidence_from domain candidate eventAt clear d dom c :
  eventAt = of_unix (time_unix eventAt) ->
  failure_domain_evidence (count_failure domain candidate eventAt clear d) !! (dom, c) =
  if decide (dom = domain) then
    match (if clear then None else failure_domain_evidence d !! (dom, c)) with
    | Some s =>
        if s <? time_unix eventAt - failureDomainWindow / second
        then if decide (c = candidate) then Some (time_unix eventAt) else None
        else if decide (c = candidate) then Some (Z.max s (time_unix eventAt)) else Some s
    | None => if decide (c = candidate) then Some (time_unix eventAt) else None
    end
  else failure_domain_evidence d !! (dom, c).
Proof.
  intros Hev. unfold count_failure.
  assert (time_unix (time_add eventAt (- failureDomainWindow)) =
    time_unix eventAt - failureDomainWindow / second) as -> by (rewrite Hev at 1; apply time_unix_back).
  set (d0 := ensure_domain domain eventAt d).
  assert (failure_domain_evidence d0 = failure_domain_evidence d) as Hd
    by (unfold d0, ensure_domain; destruct (_ !! domain); by destruct d).
  rewrite <- Hd. exact (counted_evidence domain candidate clear (time_unix eventAt) d0 dom c).
Qed.

Lemma counted_effect domain candidate eventAt clear d :
  eventAt = of_unix (time_unix eventAt) ->
  (forall r, failure_domain_state d !! domain = Some r ->
    fr_updated_at r <= time_unix eventAt \/ fr_updated_at r = 0) ->
  failure_effect domain candidate (time_unix eventAt) d (count_failure domain candidate eventAt clear d).
Proof.
  intros Hev Hup.
  destruct (counted_tables domain candidate eventAt clear d Hev) as (r' & Hs & Hu & Hopen).
  apply (effect_count _ _ _ _ _ r'); try done.
  - intros dom c Hd. by rewrite counted_evidence_from, decide_False by done.
  - intros c s. rewrite counted_evidence_from, decide_True by done.
    pose proof (eq_refl : failureDomainWindow / second = 300) as Hw. rewrite Hw.
    destruct clear; cbn [failure_domain_evidence].
    + case_decide; [|done]. intros [= <-]. split; [lia|by left].
    + destruct (failure_domain_evidence d !! (domain, c)) as [s0|].
      * destruct (s0 <? _) eqn:E; z_bool; case_decide; intros [= <-]; split; try lia; try (by left);
          [|by right].
        destruct (Z.max_spec s0 (time_unix eventAt)) as [[_ ->]|[_ ->]]; [by left|by right].
      * case_decide; [|done]. intros [= <-]. split; [lia|by left].
Qed.

Lemma record_effect domain candidate now a d d' : 0 < time_unix now ->
  recordFailureDomainFailureTx domain candidate now d = (inr a, d') ->
  failure_effect domain candidate (time_unix now) d d'.
Proof.
  intros Hpos Hr. unfold recordFailureDomainFailureTx in Hr. cbn zeta in Hr. run_in Hr.
  rewrite <- (event_seconds now) in *. set (eventAt := failureDomainEventTime now) in *.
  assert (eventAt = of_unix (time_unix eventAt)) as Hev by (unfold eventAt; by rewrite event_seconds).
  unfold loadFailureDomainState in Hr.
  assert (forall r, before eventAt (timeFromUnix (fr_updated_at r)) = false ->
    fr_updated_at r <= time_unix eventAt \/ fr_updated_at r = 0) as Hup.
  { intros r Hb. unfold before, timeFromUnix in Hb. destruct (fr_updated_at r =? 0) eqn:E0; z_bool; [by right|].
    left. rewrite Hev in Hb. apply Z.nlt_ge. rewrite <- of_unix_lt. lia. }
  destruct (failure_domain_state d !! domain) as [r|] eqn:Er;
    cbn [fmap option_fmap option_map default from_option] in Hr.
  - rewrite bool_decide_true in Hr by done. cbn [andb] in Hr.
    destruct (before eventAt _) eqn:Eb in Hr; [apply ret_inr in Hr as [_ ->]; by apply effect_none|].
    destruct (after _ eventAt) eqn:Eo in Hr.
    + destruct (negb _) in Hr; [apply ret_inr in Hr as [_ ->]; by apply effect_none|].
      run_all Hr. eapply (effect_extend _ _ _ _ _ r); [done|by apply Hup| |..].
      * unfold set_domains. rewrite (alter_insert_Some _ _ _ r) by done. destruct d; simpl in *.
        do 2 f_equal. rewrite <- Hev. by destruct r.
      * intros H0. unfold after, scanFailureDomainState in Eo. cbn [fd_OpenUntil] in Eo.
        rewrite H0 in Eo. z_bool. revert Eo. rewrite Hev.
        pose proof (proj2 (of_unix_lt (-62135596800) (time_unix eventAt)) ltac:(lia)) as Hl.
        change (of_unix (-62135596800)) with 0 in Hl. change (timeFromUnix 0) with 0. unfold id. cbn [fd_OpenUntil]. lia.
      * by destruct d.
    + set (clear := negb _) in Hr.
      assert (d' = count_failure domain candidate eventAt clear d) as -> by (destruct clear; run_all Hr; done).
      apply counted_effect; [done|].
      intros r0 Hr0. rewrite Er in Hr0. simplify_eq. by apply Hup.
  - rewrite bool_decide_false in Hr by (intros [? ?]; done). cbn [andb] in Hr.
    assert (d' = count_failure domain candidate eventAt false d) as -> by (run_all Hr; done).
    apply counted_effect; [done|]. intros r; congruence.
Qed.

(** ** Operations *)

(** The tables of circuits stay as they are. *)
Definition same_circuits (d d' : Database) : Prop :=
  failure_domain_state d' = failure_domain_state d /\
  failure_domain_evidence d' = failure_domain_evidence d.

#[export] Instance same_circuits_preorder : PreOrder same_circuits.
Proof. split; [done|]. intros d1 d2 d3 [A1 B1] [A2 B2]. split; congruence. Qed.

Lemma same_update_health id cond f e : leaves same_circuits (update_health_if id cond f e).
Proof. unfold update_health_if. leaves. by destruct d. Qed.
#[local] Hint Resolve same_update_health : hydrat.
Lemma same_record t health sample b : leaves same_circuits (recordCandidateProbeTx t health sample b).
Proof.
  unfold recordCandidateProbeTx, when_given, record_health, record_sample. leaves; by destruct d.
Qed.
Lemma same_apply c r : leaves same_circuits (applyObservationReservationTx c r).
Proof.
  unfold applyObservationReservationTx. destruct (re_Stage r); leaves. by destruct d.
Qed.
Lemma same_clear c : leaves same_circuits (clearRecoveredRouteDebtTx c).
Proof. unfold clearRecoveredRouteDebtTx. leaves. by destruct d. Qed.
#[local] Hint Resolve same_record same_apply same_clear : hydrat.
Lemma same_fence c r t s : leaves same_circuits (fence_failure c r t s).
Proof. unfold fence_failure. leaves; by destruct d. Qed.
Lemma same_reserve now c stage : leaves same_circuits (reserveCandidateObservationTx now c stage).
Proof.
  unfold reserveCandidateObservationTx, reserve_health, required. destruct stage; leaves; by destruct d.
Qed.
Lemma same_members cond f l : leaves same_circuits (update_members cond f l).
Proof. unfold update_members, update_member. leaves. by destruct d. Qed.
#[local] Hint Resolve same_fence same_reserve same_members steady_active_check : hydrat.

Section Circuit.
Context `{PlanCodec}.

Lemma same_recoveries c at_ : leaves same_circuits (recordRouteRecoveriesTx c at_).
Proof.
  intros d u d' Hr%recoveries_frame. rewrite Hr. by destruct d.
Qed.
#[local] Hint Resolve same_recoveries : hydrat.

Lemma same_hard c r t at_ : leaves same_circuits (record_hard_failure c r t at_).
Proof. unfold record_hard_failure. leaves. Qed.
#[local] Hint Resolve same_hard : hydrat.

(** The operations that write a circuit. *)
Definition on_circuit (op : ObservationOp) : bool :=
  match op with
  | OpDomainReset _ _ | OpDomainEvent _ _ _ | OpDomainFailure _ _ _ _ | OpCanary _ _ _ => true
  | _ => false
  end.

Lemma step_same o op d : on_circuit op = false -> same_circuits d (step o op d).2.
Proof.
  assert (forall A (m : Tx A), lands same_circuits m -> same_circuits d (m d).2) as Hgo by done.
  intros Hc. destruct op as [now requests|now c r t health sample|now c r outcome at_|now c r at_|
    now c r at_|c health sample|id q fence|domain now|domain candidate now|domain ids now|
    clock active draining at_ epoch|now kind|f]; try discriminate; cbn [step answer snd];
    [apply Hgo..|].
  - unfold ReserveCandidateObservations. lands. leaves. unfold forM, observable. leaves.
    case_decide; leaves.
  - unfold CommitCandidateProbeObservation, commit_probe. lands. leaves.
  - unfold CommitCandidateActiveOutcome. lands. unfold commit_active, activeSuccessGenerationCurrentTx.
    leaves.
  - unfold CommitCandidateActiveHardFailureObservation. lands. unfold commit_hard_failure. leaves.
  - unfold RecordCandidateHealthResult, when_given. lands. leaves; by destruct d0.
  - unfold UpdateCandidateUDPQualified. lands. leaves. by destruct d0.
  - unfold replaceWorkingPoolCurrent. lands. leaves; by destruct d0.
  - unfold ClearWorkingPoolByKind. lands. leaves. by destruct d0.
  - unfold elsewhere. by destruct (f d).
Qed.

(** The failures that were confirmed and stored, with their times. *)
Definition failed_in (domain : string) (o : Outcome) (op : ObservationOp) (d : Database) :
    list (string * Z) :=
  match op with
  | OpDomainEvent dom candidate now =>
      if durable o && str_eqb dom domain then [(candidate, time_unix now)] else []
  | OpDomainFailure _ _ _ at_ =>
      match effect o op d with
      | Taken c _ => if str_eqb (c_FailureDomain c) domain then [(c_ID c, time_unix at_)] else []
      | _ => []
      end
  | _ => []
  end.

(** A success that is newer than all the circuit has seen. *)
Definition succeeds (domain : string) (o : Outcome) (op : ObservationOp) (d : Database) : bool :=
  match op with
  | OpDomainReset dom now => durable o && str_eqb dom domain && negb (str_eqb dom EmptyString) &&
      match loadFailureDomainState domain d with
      | Some s => after (failureDomainEventTime now) (fd_UpdatedAt s)
      | None => false
      end
  | _ => false
  end.

(** The failures of a run since the last such success. *)
Fixpoint failures_since (domain : string) (ops : list (Outcome * ObservationOp)) (d : Database)
    (log : list (string * Z)) : list (string * Z) :=
  match ops with
  | [] => log
  | (o, op) :: ops =>
      failures_since domain ops (step o op d).2
        (if succeeds domain o op d then [] else failed_in domain o op d ++ log)
  end.

(** Events carry times after 1970. *)
Definition dated (op : ObservationOp) : Prop :=
  match op with
  | OpDomainEvent _ _ now | OpDomainReset _ now => 0 < time_unix now
  | OpDomainFailure _ _ _ at_ => 0 < time_unix at_
  | _ => True
  end.

Definition is_open (domain : string) (d : Database) : Prop :=
  exists r, failure_domain_state d !! domain = Some r /\ fr_open_until r <> 0.

Record circuit_ok (domain : string) (d : Database) (log : list (string * Z)) : Prop := {
  ok_dated : forall r, failure_domain_state d !! domain = Some r -> 0 < fr_updated_at r;
  ok_evidence : forall c s, failure_domain_evidence d !! (domain, c) = Some s -> (c, s) ∈ log /\
    exists r, failure_domain_state d !! domain = Some r /\ s <= fr_updated_at r;
  ok_open : is_open domain d -> three_within (fun c s => (c, s) ∈ log)
}.

Lemma three_more (P Q : string -> Z -> Prop) : (forall c s, P c s -> Q c s) ->
  three_within P -> three_within Q.
Proof.
  intros Hpq (c1 & c2 & c3 & s1 & s2 & s3 & Hnd & H1 & H2 & H3 & Hw).
  exists c1, c2, c3, s1, s2, s3. auto 10.
Qed.

Lemma circuit_same domain d d' log : same_circuits d d' -> circuit_ok domain d log ->
  circuit_ok domain d' log.
Proof. intros [Hs He] [H1 H2 H3]. split; unfold is_open in *; rewrite ?Hs, ?He; done. Qed.

Lemma circuit_more domain d l log : circuit_ok domain d log -> circuit_ok domain d (l ++ log).
Proof.
  intros [H1 H2 H3]. split; [done| |].
  - intros c s Hc. destruct (H2 c s Hc). split; [|done]. apply elem_of_app. by right.
  - intros Ho. eapply three_more; [|exact (H3 Ho)]. cbn beta. intros c s Hc.
    apply elem_of_app. by right.
Qed.

Lemma circuit_failure domain candidate at_ dom d d' log : 0 < at_ ->
  failure_effect dom candidate at_ d d' -> circuit_ok domain d log ->
  circuit_ok domain d' ((if str_eqb dom domain then [(candidate, at_)] else []) ++ log).
Proof.
  intros Hpos He Hok. pose proof (circuit_more _ _ (if str_eqb dom domain then [(candidate, at_)] else [])
    _ Hok) as Hok'.
  destruct Hok as [H1 H2 H3]. destruct Hok' as [K1 K2 K3].
  destruct He as [Es Ee|r Hr Hup Es Hopen Ee|r' Hup Es Hu Hopen Eo Ee].
  - by apply (circuit_same _ d).
  - destruct (decide (dom = domain)) as [->|Hn].
    + split; unfold is_open in *; rewrite Es, ?Ee, ?lookup_insert_eq.
      * intros r0 [= <-]. by destruct r.
      * intros c s Hc. destruct (K2 c s Hc) as [Hin (r0 & Hr0 & Hle)]. split; [done|].
        eexists. split; [reflexivity|]. simplify_eq. pose proof (K1 _ Hr). destruct r; simpl in *. lia.
      * intros _. apply K3. by exists r.
    + split; unfold is_open in *; rewrite Es, ?Ee, lookup_insert_ne by done; auto.
  - destruct (str_eqb dom domain) eqn:Ed; str_bool.
    + subst dom. assert (forall c s, failure_domain_evidence d' !! (domain, c) = Some s ->
        (c, s) ∈ (candidate, at_) :: log /\ at_ - 300 <= s <= at_) as Hev.
      { intros c s Hc. change 300 with (failureDomainWindow / second).
        apply Ee in Hc as [Hlow [[-> ->]|Hc]]; [split; [by left|lia]|].
        destruct (H2 c s Hc) as [Hin (r0 & Hr0 & Hle)]. split; [by right|].
        specialize (Hup _ Hr0). specialize (H1 _ Hr0). lia. }
      split; unfold is_open; rewrite Es, ?lookup_insert_eq.
      * intros r0 [= <-]. lia.
      * intros c s Hc. destruct (Hev c s Hc). split; [done|]. exists r'. split; [done|lia].
      * intros (r0 & [= <-] & Ho). eapply three_more; [|apply (three_of_count domain d' (at_ - 300) at_)].
        -- intros c s Hc. exact (proj1 (Hev c s Hc)).
        -- by apply Hopen.
        -- intros c s Hc. exact (proj2 (Hev c s Hc)).
        -- change (failureDomainWindow / second) with 300. lia.
    + split; unfold is_open in *; rewrite Es, ?lookup_insert_ne by done; [done| |auto].
      intros c s. rewrite Eo by done. apply K2.
Qed.

Lemma reset_domain_runs domain now d : exists a d', reset_domain domain now d = (inr a, d').
Proof.
  unfold reset_domain, bind, get, modify, ret. destruct (loadFailureDomainState domain d); [|eauto].
  destruct (negb _); eauto.
Qed.

Lemma circuit_reset domain dom now d d' a log : 0 < time_unix now ->
  reset_domain dom now d = (inr a, d') -> circuit_ok domain d log ->
  circuit_ok domain d' (if str_eqb dom domain && match loadFailureDomainState domain d with
                             | Some s => after (failureDomainEventTime now) (fd_UpdatedAt s)
                             | None => false
                             end then [] else log).
Proof.
  intros Hpos Hr Hok. unfold reset_domain in Hr. cbn zeta in Hr. run_in Hr.
  destruct (str_eqb dom domain) eqn:Ed; cbn [andb]; str_bool.
  - subst dom. unfold loadFailureDomainState in *.
    destruct (failure_domain_state d !! domain) as [r|] eqn:Er; cbn [fmap option_fmap option_map] in *;
      [|by apply ret_inr in Hr as [_ ->]].
    destruct (after _ _) eqn:Ea; cbn [negb] in Hr; [|by apply ret_inr in Hr as [_ ->]].
    run_all Hr. unfold set_domains. rewrite (alter_insert_Some _ _ _ r) by (by destruct d).
    split; unfold is_open; destruct d; simpl in *; rewrite ?lookup_insert_eq.
    + intros r0 [= <-]. destruct r; simpl. by rewrite event_seconds.
    + intros c s Hc. by apply map_lookup_filter_Some in Hc as [_ Hc].
    + intros (r0 & [= <-] & Ho). by destruct r.
  - assert (failure_domain_state d' !! domain = failure_domain_state d !! domain /\
      forall c, failure_domain_evidence d' !! (domain, c) = failure_domain_evidence d !! (domain, c))
      as [Hs He].
    { destruct (loadFailureDomainState dom d); [|by apply ret_inr in Hr as [_ ->]].
      destruct (negb _) in Hr; [by apply ret_inr in Hr as [_ ->]|]. run_all Hr. destruct d; simpl.
      split; [by rewrite lookup_alter_ne|]. intros c. apply option_eq. intros s.
      rewrite map_lookup_filter_Some. split; [by intros [? _]|]. intros ?. split; [done|].
      intros ?. congruence. }
    destruct Hok as [H1 H2 H3]. split; unfold is_open in *; rewrite ?Hs; [done| |done].
    intros c s. rewrite He. apply H2.
Qed.

Lemma circuit_marked domain dom x d log : circuit_ok domain d log ->
  circuit_ok domain (set_domains (alter (fun r => r <| fr_canary_candidate := x |>) dom) d) log.
Proof.
  intros [H1 H2 H3]. set (d' := set_domains _ d).
  assert (forall r, failure_domain_state d !! domain = Some r ->
    exists r', failure_domain_state d' !! domain = Some r' /\ fr_updated_at r' = fr_updated_at r) as Hto.
  { intros r Hr. destruct d; simpl in *. destruct (decide (dom = domain)) as [->|Hn].
    - rewrite lookup_alter_eq, Hr. eexists. split; [reflexivity|]. by destruct r.
    - rewrite lookup_alter_ne by done. by exists r. }
  assert (forall r', failure_domain_state d' !! domain = Some r' ->
    exists r, failure_domain_state d !! domain = Some r /\ fr_updated_at r' = fr_updated_at r /\
      fr_open_until r' = fr_open_until r) as Hfrom.
  { intros r' Hr'. destruct d; simpl in *. destruct (decide (dom = domain)) as [->|Hn].
    - rewrite lookup_alter_eq in Hr'. apply fmap_Some in Hr' as (r & Hr & ->). exists r. by destruct r.
    - rewrite lookup_alter_ne in Hr' by done. by exists r'. }
  split.
  - intros r' (r & Hr & -> & _)%Hfrom. by apply H1.
  - intros c s Hc. assert (failure_domain_evidence d !! (domain, c) = Some s) as [Hin (r & Hr & Hle)]%H2
      by by destruct d. split; [done|]. destruct (Hto r Hr) as (r' & Hr' & Hu). exists r'. split; [done|lia].
  - intros (r' & (r & Hr & _ & Ho)%Hfrom & Hne). apply H3. exists r. split; [done|congruence].
Qed.

Lemma circuit_canary domain dom ids o now d log : circuit_ok domain d log ->
  circuit_ok domain (ElectFailureDomainCanary o dom ids now d).2 log.
Proof.
  revert d. assert (PreOrder (fun d d' => circuit_ok domain d log -> circuit_ok domain d' log)) as Hpre.
  { split; [intros d1 Hd; exact Hd|intros d1 d2 d3; auto]. }
  change (lands (fun d d' => circuit_ok domain d log -> circuit_ok domain d' log)
    (ElectFailureDomainCanary o dom ids now)).
  unfold ElectFailureDomainCanary. lands. leaves. by apply circuit_marked.
Qed.

Lemma record_refused domain candidate now d s d' :
  recordFailureDomainFailureTx domain candidate now d = (inr (s, false), d') -> d' = d.
Proof.
  intros Hr. unfold recordFailureDomainFailureTx in Hr. cbn zeta in Hr. run_in Hr.
  destruct (_ && _) in Hr; [by apply ret_inr in Hr as [_ ->]|].
  destruct (_ && _) in Hr;
    [destruct (negb _) in Hr; [by apply ret_inr in Hr as [_ ->]|by run_all Hr]|].
  destruct (_ && _) in Hr; by run_all Hr.
Qed.

Lemma circuit_taken domain c r t eventAt d a d' log : 0 < time_unix eventAt ->
  commit_domain_failure c r t eventAt d = (inr a, d') -> circuit_ok domain d log ->
  circuit_ok domain d' ((if a.2 && str_eqb (c_FailureDomain c) domain
                         then [(c_ID c, time_unix eventAt)] else []) ++ log).
Proof.
  intros Hpos Hr Hok. unfold commit_domain_failure in Hr. run_in Hr. run_in Hr. run_in Hr.
  destruct a2; cbn [negb] in Hr; [|by apply ret_inr in Hr as [<- ->]].
  apply bind_inr in Hr as ([dom accepted] & d3 & Hrec & Hr).
  destruct accepted; cbn [negb] in Hr.
  - apply bind_inr in Hr as (st & d4 & Hf & Hr). apply ret_inr in Hr as [<- ->]. cbn [snd andb].
    apply record_effect in Hrec; [|done].
    eapply circuit_same; [by eapply same_hard|]. by eapply circuit_failure.
  - apply ret_inr in Hr as [<- ->]. by apply record_refused in Hrec as ->.
Qed.

Lemma step_circuit domain o op d log : dated op -> circuit_ok domain d log ->
  circuit_ok domain (step o op d).2
    (if succeeds domain o op d then [] else failed_in domain o op d ++ log).
Proof.
  intros Hd Hok. destruct (on_circuit op) eqn:Eon.
  2:{ assert (succeeds domain o op d = false /\ failed_in domain o op d = []) as [-> ->]
        by by destruct op.
      eapply circuit_same; [by apply step_same|done]. }
  destruct (is_elsewhere op) eqn:Ee; [by destruct op|]. rewrite step_db by done.
  destruct (durable o) eqn:Ed.
  2:{ assert (succeeds domain o op d = false /\ failed_in domain o op d = []) as [-> ->]; [|done].
      destruct op; unfold succeeds, failed_in, effect; rewrite ?Ed; done. }
  destruct op as [| | | |now c r at_| | |dom now|dom candidate now|dom ids now| | |]; try discriminate;
    cbn [step answer snd dated succeeds failed_in] in *; unfold effect; rewrite ?Ed; cbn [andb].
  - cbn [step]. unfold answer.
    destruct (CommitActiveVLESSHardFailureObservation Commits now c r at_ d) as [[e|a] d'] eqn:E;
      cbn [fst snd].
    + assert (d' = d) as ->; [|done]. revert E.
      unfold CommitActiveVLESSHardFailureObservation. cbn zeta. generalize d e d'.
      change (clean (CommitActiveVLESSHardFailureObservation Commits now c r at_)).
      unfold CommitActiveVLESSHardFailureObservation. cbn zeta. clean.
    + unfold CommitActiveVLESSHardFailureObservation in E. run_in E.
      apply bind_inr in E as (u & d1 & Hck & E). apply check_active_inr in Hck as (Hst & Hseq & ->).
      run_in E. run_in E. apply transaction_inr in E.
      rewrite <- (event_seconds at_). eapply circuit_taken in E; [|by rewrite event_seconds|exact Hok].
      destruct a as [s []]; cbn [snd taken_if andb] in *; [|exact E].
      by destruct (str_eqb _ _).
  - unfold ResetFailureDomainOnSuccess. destruct (str_eqb dom EmptyString) eqn:E0; cbn [negb andb].
    + by rewrite andb_false_r.
    + rewrite andb_true_r. cbn [app]. destruct (reset_domain_runs dom now d) as (a & d' & Hr).
      change ((check true DomainRequired ;;; transaction Commits (reset_domain dom now)) d)
        with (transaction Commits (reset_domain dom now) d).
      unfold transaction. rewrite Hr. cbn [snd]. by eapply circuit_reset.
  - unfold RecordFailureDomainFailure. unfold bind at 1, check.
    destruct (negb _); cbn [ret]; [|by apply circuit_more].
    unfold bind, transaction. destruct (recordFailureDomainFailureTx dom candidate now d) as [[e|a] d'] eqn:E;
      cbn [snd ret]; [by apply circuit_more|]. apply record_effect in E; [|done]. by eapply circuit_failure.
  - by apply circuit_canary.
Qed.

Lemma run_circuit domain ops d log : Forall (fun x => dated x.2) ops -> circuit_ok domain d log ->
  circuit_ok domain (observe ops d) (failures_since domain ops d log).
Proof.
  revert d log. induction ops as [|[o op] ops IH]; intros d log Hd Hok; cbn [observe failures_since]; [done|].
  apply Forall_cons in Hd as [Hop Hd]. apply IH; [done|]. by apply step_circuit.
Qed.

(** C22.  The circuit of a failure domain opens on three failures only.  Start with the
    circuit closed and without evidence, and run operations on the store in any order,
    with any failures of commits, events that arrive late, and any other writers.  When
    the circuit is open at the end, three different candidates of that domain failed,
    in confirmed and stored events, at most five minutes apart, and since then no
    success was recorded that is newer than what the circuit had seen: one candidate
    that fails many times, or three that fail far apart, do not close a provider. *)
Theorem circuit_opens_on_three domain ops d :
  (forall r, failure_domain_state d !! domain = Some r -> 0 < fr_updated_at r /\ fr_open_until r = 0) ->
  (forall c, failure_domain_evidence d !! (domain, c) = None) ->
  Forall (fun x => dated x.2) ops ->
  is_open domain (observe ops d) ->
  three_within (fun c s => (c, s) ∈ failures_since domain ops d []).
Proof.
  intros Hclosed Hnone Hd Hopen.
  assert (circuit_ok domain d []) as Hok.
  { split; [intros r Hr; by apply Hclosed|intros c s Hc; by rewrite Hnone in Hc|].
    intros (r & Hr & Ho). by destruct (Hclosed r Hr). }
  exact (ok_open _ _ _ (run_circuit domain ops d [] Hd Hok) Hopen).
Qed.
End Circuit.

(** Two failures of one candidate and one each of two others; a success of the same
    second as a failure does not count. *)
Definition circuit_events : list (Outcome * ObservationOp) :=
  [(Commits, OpDomainEvent "provider" "a" (of_unix 1000));
   (Commits, OpDomainEvent "provider" "a" (of_unix 1010));
   (CommitFails, OpDomainEvent "provider" "b" (of_unix 1020));
   (Commits, OpDomainEvent "provider" "b" (of_unix 1100));
   (Commits, OpDomainReset "provider" (of_unix 1100));
   (Commits, OpDomainEvent "provider" "c" (of_unix 1310))].

Example circuit_stays_closed :
  failure_domain_state (observe (take 5 circuit_events) (stored_database false)) !! "provider"%string =
  Some {| fr_failure_count := 2; fr_window_started_at := 1010; fr_open_until := 0;
          fr_canary_candidate := EmptyString; fr_updated_at := 1100 |}.
Proof. vm_compute. reflexivity. Qed.

Lemma circuit_opens_on_three_witness :
  three_within (fun c s => (c, s) ∈
    failures_since "provider" circuit_events (stored_database false) []).
Proof.
  apply (circuit_opens_on_three "provider" circuit_events (stored_database false)).
  - vm_compute. discriminate.
  - intros c. reflexivity.
  - repeat (apply Forall_cons; split; [vm_compute; reflexivity|]). by apply Forall_nil.
  - eexists. split; [vm_compute; reflexivity|]. vm_compute. discriminate.
Defined.
