(* ===== verification/ActiveMonitor.v ===== *)
(** The monitor of routes that serve (controller/active_observations.go,
    controller/hard_failure_event.go and the results of [ActiveMonitor.Run] in
    controller/active_monitor.go): what one observation of a route does to the store
    and to the monitor, when a failure counts as confirmed, and the mailbox in which
    confirmed failures wait for the controller.

    The store is shared with other writers: an environment decides from the calls so
    far what they do before the next call, and what becomes of the call itself. *)
From Stdlib Require Import Floats.
From S2P Require Health QoE.
From S2P Require Import Prelude Effects GoOrder GoFloat GoStrings GoSort DataPlan Handlers StoreTables StoreLogic RouteRecovery CandidateState Observations ObservationRuns.

#[local] Open Scope Z_scope.
#[local] Open Scope effect_scope.

(** ** The mailbox (controller/hard_failure_event.go) *)

Record HardFailureEvent := {
  hf_CandidateID : string;
  hf_ProbeStartedAt : Time;
  hf_DetectedAt : Time;
  hf_Deadline : Time
}.

Inductive EventError := CandidateIDRequired | TimestampsInvalid | BudgetRequired | DetectedTooLate.

Definition NewHardFailureEvent (candidateID : string) (probeStartedAt detectedAt : Time)
    (deadlineFromProbeStart : Duration) : EventError + HardFailureEvent :=
  if str_eqb (trim_space candidateID) EmptyString then inl CandidateIDRequired
  else if time_is_zero probeStartedAt || time_is_zero detectedAt || before detectedAt probeStartedAt
  then inl TimestampsInvalid
  else if deadlineFromProbeStart <=? 0 then inl BudgetRequired
  else
    let deadline := time_add probeStartedAt deadlineFromProbeStart in
    if negb (after deadline detectedAt) then inl DetectedTooLate
    else inr {| hf_CandidateID := candidateID; hf_ProbeStartedAt := probeStartedAt;
                hf_DetectedAt := detectedAt; hf_Deadline := deadline |}.

(** The event that waits, and whether the channel that wakes the reader is full. *)
Record HardFailureMailbox := { pending : option HardFailureEvent; wake : bool }.

Definition NewHardFailureMailbox : HardFailureMailbox := {| pending := None; wake := false |}.

Definition Publish (event : HardFailureEvent) (m : HardFailureMailbox) : HardFailureMailbox :=
  if time_is_zero (hf_Deadline event) then m
  else
    {| pending := match pending m with
                  | Some p => if before (hf_Deadline event) (hf_Deadline p) then Some event else Some p
                  | None => Some event
                  end;
       wake := true |}.

Definition Pop (m : HardFailureMailbox) : option HardFailureEvent * HardFailureMailbox :=
  match pending m with
  | None => (None, m)
  | Some event => (Some event, {| pending := None; wake := wake m |})
  end.

(** A receive from [Wake]: it succeeds when the channel is full. *)
Definition Woken (m : HardFailureMailbox) : bool * HardFailureMailbox :=
  (wake m, {| pending := pending m; wake := false |}).

(** ** Data of the monitor *)

Record availabilityFailureState := { af_count : Z; af_lastSequence : Z; af_lastCompletedAt : Time }.

Record activeObservation := {
  ob_observation : Health.Observation;
  ob_availability : option QoE.Observation;
  ob_reservation : ObservationReservation;
  ob_probeStartedAt : Time;
  ob_completedAt : Time;
  ob_promoteOnSuccess : bool;
  ob_proofFreshAfter : Time
}.

(** The fields that are set once; a channel or mailbox is there or not. *)
Record MonitorOptions := {
  ProofFreshness : Duration;
  HardFailureDeadline : Duration;
  ConfirmCompleteFailureInCycle : bool;
  AvailabilityFailureThreshold : Z;
  AvailabilityFailureFreshness : Duration;
  has_trigger : bool;
  has_hardFailures : bool;
  has_promotions : bool;
  has_capacityChanges : bool
}.

Record ActiveMonitor := {
  trackers : gmap string Health.Tracker;
  hardFailureSuspects : gmap string Time;
  availabilityFailures : gmap string availabilityFailureState
}.

Definition new_monitor : ActiveMonitor :=
  {| trackers := ∅; hardFailureSuspects := ∅; availabilityFailures := ∅ |}.

Record Event := { ev_Kind : string; ev_CandidateID : string; ev_Message : string; ev_CreatedAt : Time }.

Inductive MonitorError :=
  | MonitorStore (e : StoreError)
  | HardFailureEventInvalid (e : EventError)
  | ProbeFailed.

(** What the monitor asks of others, with the observation that made it ask. *)
Inductive MonitorCall :=
  | HealthListed (answer : StoreError + list CandidateHealth)
  | ProbeStateRead (fingerprint : string)
  | SuspectCommitted (c : Candidate) (x : activeObservation) (at_ : Time)
      (answer : StoreError + ObservationCommitResult)
  | OutcomeCommitted (c : Candidate) (x : activeObservation) (outcome : ActiveObservationOutcome)
      (at_ : Time) (answer : StoreError + ObservationCommitResult)
  | FailureCommitted (c : Candidate) (x : activeObservation) (at_ : Time) (answer : StoreError + bool)
  | DomainReset (domain : string) (answer : StoreError + bool)
  | EventAppended (event : Event)
  | FailurePublished (event : HardFailureEvent)
  | PlacementTriggered | PromotionSignalled | CapacitySignalled.

Record MonitorEnv := {
  mo_outcome : list MonitorCall -> Outcome;
  mo_others : list MonitorCall -> list (Outcome * ObservationOp);
  (** what the reader of the mailbox has done with it *)
  mo_mail : list MonitorCall -> HardFailureMailbox -> HardFailureMailbox;
  mo_clock : list MonitorCall -> Time
}.

(** [mw_capacity] is the variable of a pass that its deferred function reads. *)
Record MonitorWorld := {
  mw_db : Database;
  mw_monitor : ActiveMonitor;
  mw_mail : HardFailureMailbox;
  mw_capacity : bool;
  mw_calls : list MonitorCall
}.

#[export] Instance ActiveMonitor_eta : Eta ActiveMonitor := fun m =>
  Build_ActiveMonitor (trackers m) (hardFailureSuspects m) (availabilityFailures m).
#[export] Instance MonitorWorld_eta : Eta MonitorWorld := fun w =>
  Build_MonitorWorld (mw_db w) (mw_monitor w) (mw_mail w) (mw_capacity w) (mw_calls w).

Abbreviation Monitor A := (Prog MonitorWorld MonitorError A).

(** ** Pure parts *)

Definition proofSuccess (o : Health.Observation) : bool :=
  Health.PrimaryOK o && Health.ConfirmationOK o.
Definition completeFailure (o : Health.Observation) : bool :=
  negb (Health.PrimaryOK o) && negb (Health.ConfirmationOK o).

Definition safeLivenessFailureCode (code : string) : string :=
  if existsb (str_eqb code) ["timeout"; "request_error"; "network_error"; "body_error"]%string
  then code
  else
    let status := str_drop 5 code in
    (* Of three characters only digits denote a number of at least 100. *)
    if has_prefix "http_" code && Nat.eqb (String.length code) 8 && all_digits status &&
       (100 <=? digits_value status 0) && (digits_value status 0 <=? 599)
    then code else "unknown".

Definition bounded_ms (elapsed : Z) : string := decimal (Z.min 30000 (Z.max 0 elapsed)).

Definition safeLivenessFailureSummary (o : Health.Observation) : string :=
  if str_eqb (Health.PrimaryFailure o) EmptyString && str_eqb (Health.ConfirmationFailure o) EmptyString
  then EmptyString
  else
    ("primary=" ++ safeLivenessFailureCode (Health.PrimaryFailure o) ++ "/" ++
     bounded_ms (Health.PrimaryElapsedMS o) ++ "ms confirmation=" ++
     safeLivenessFailureCode (Health.ConfirmationFailure o) ++ "/" ++
     bounded_ms (Health.ConfirmationElapsedMS o) ++ "ms")%string.

Definition with_details (message : string) (o : Health.Observation) : string :=
  let details := safeLivenessFailureSummary o in
  if str_eqb details EmptyString then message else (message ++ "; " ++ details)%string.

Definition clearCandidateActiveStateLocked (id : string) (m : ActiveMonitor) : ActiveMonitor :=
  {| trackers := delete id (trackers m); hardFailureSuspects := delete id (hardFailureSuspects m);
     availabilityFailures := delete id (availabilityFailures m) |}.

Definition zero_failures : availabilityFailureState :=
  {| af_count := 0; af_lastSequence := 0; af_lastCompletedAt := zero_time |}.

Definition dns_failure (x : activeObservation) : bool :=
  match ob_availability x with
  | Some a => negb (QoE.o_Infrastructure a) && str_eqb (QoE.o_ErrorCode a) QoE.ReasonDNSRoute
  | None => false
  end.

Section Pure.
Context (options : MonitorOptions).

Definition availabilityFailureThreshold : Z :=
  if 0 <? AvailabilityFailureThreshold options then AvailabilityFailureThreshold options else 2.

(** An observation that comes in no later sequence is ignored. *)
Definition next_failures (x : activeObservation) (s : availabilityFailureState) :
    option availabilityFailureState :=
  let sequence := re_Sequence (ob_reservation x) in
  if (sequence <=? 0) || (sequence <=? af_lastSequence s) then None
  else
    let at_ := ob_completedAt x in
    let consecutive :=
      (0 <? af_count s) && (sequence =? af_lastSequence s + 1) &&
      negb (time_is_zero (af_lastCompletedAt s)) && negb (before at_ (af_lastCompletedAt s)) in
    let consecutive :=
      if (0 <? AvailabilityFailureFreshness options) && consecutive
      then time_sub at_ (af_lastCompletedAt s) <=? AvailabilityFailureFreshness options
      else consecutive in
    Some {| af_count := if dns_failure x then if consecutive then af_count s + 1 else 1 else 0;
            af_lastSequence := sequence; af_lastCompletedAt := at_ |}.

Definition observeAvailabilityLocked (id : string) (x : activeObservation) (m : ActiveMonitor) :
    bool * ActiveMonitor :=
  match next_failures x (default zero_failures (availabilityFailures m !! id)) with
  | None => (false, m)
  | Some s => (availabilityFailureThreshold <=? af_count s,
               m <| availabilityFailures := <[id := s]> (availabilityFailures m) |>)
  end.

(** Since when a proof counts, for an observation that completed at [at_]. *)
Definition proof_since (x : activeObservation) (at_ : Time) : Time :=
  if 0 <? ProofFreshness options then time_add at_ (- ProofFreshness options)
  else ob_proofFreshAfter x.

Definition proof_eligible (row : CandidateHealth) (since : Time) : bool :=
  hl_ActiveSuccess row && hl_ActiveCurrent row &&
  (time_is_zero since || negb (before (hl_ActiveObservedAt row) since)).

(** A suspect that is too old for the probe is forgotten. *)
Definition suspected_at (id : string) (x : activeObservation) (m : ActiveMonitor) :
    option Time * ActiveMonitor :=
  match hardFailureSuspects m !! id with
  | None => (None, m)
  | Some t =>
      if (0 <? ProofFreshness options) &&
         after (ob_probeStartedAt x) (time_add t (ProofFreshness options))
      then (None, m <| hardFailureSuspects := delete id (hardFailureSuspects m) |>)
      else (Some t, m)
  end.

(** Whether a complete failure has to be confirmed by another one. *)
Definition needs_confirmation (x : activeObservation) : bool :=
  completeFailure (ob_observation x) && negb (ConfirmCompleteFailureInCycle options) &&
  negb (time_is_zero (ob_probeStartedAt x)).

Definition failure_message (x : activeObservation) (dns : bool) : string :=
  with_details
    (if dns
     then ("routed DNS failed in " ++ decimal availabilityFailureThreshold ++
           " consecutive active cycles")%string
     else "primary and confirmation liveness checks failed"%string) (ob_observation x).
End Pure.

(** ** One observation *)

Section Monitor.
Context `{PlanCodec} (env : MonitorEnv) (options : MonitorOptions).

Definition called (call : MonitorCall) (w : MonitorWorld) : MonitorWorld :=
  w <| mw_calls := mw_calls w ++ [call] |>.

(** The others come first; the answer is written down. *)
Definition monitor_call {A : Type} (label : StoreError + A -> MonitorCall)
    (m : Outcome -> Time -> Tx A) : Monitor A := fun w =>
  let calls := mw_calls w in
  let '(r, d) := m (mo_outcome env calls) (mo_clock env calls)
                   (ObservationRuns.observe (mo_others env calls) (mw_db w)) in
  (match r with inl e => inl (MonitorStore e) | inr a => inr a end,
   called (label r) (w <| mw_db := d |>)).

Definition in_monitor {A : Type} (f : ActiveMonitor -> A * ActiveMonitor) : Monitor A := fun w =>
  let '(a, m) := f (mw_monitor w) in (inr a, w <| mw_monitor := m |>).

Definition change (f : ActiveMonitor -> ActiveMonitor) : Monitor unit :=
  modify (fun w => w <| mw_monitor := f (mw_monitor w) |>).

Definition clear (id : string) : Monitor unit := change (clearCandidateActiveStateLocked id).

Definition set_tracker (id : string) (tracker : Health.Tracker) (m : ActiveMonitor) : ActiveMonitor :=
  m <| trackers := <[id := tracker]> (trackers m) |>.
Definition forget_suspect (id : string) (m : ActiveMonitor) : ActiveMonitor :=
  m <| hardFailureSuspects := delete id (hardFailureSuspects m) |>.
Definition forget_availability (id : string) (m : ActiveMonitor) : ActiveMonitor :=
  m <| availabilityFailures := delete id (availabilityFailures m) |>.

(** A commit for a candidate that is no longer current clears its state; none then. *)
Definition unless_gone {A : Type} (id : string) (m : Monitor A) : Monitor (option A) := fun w =>
  match m w with
  | (inl (MonitorStore CandidateNoLongerCurrent), w) => (clear id ;;; ret None) w
  | (inl e, w) => (inl e, w)
  | (inr a, w) => (inr (Some a), w)
  end.

Definition note (call : MonitorCall) : Monitor unit := modify (called call).

(** A send that does not wait, to a channel that may not be there. *)
Definition signal (there : bool) (call : MonitorCall) : Monitor unit :=
  if there then note call else ret tt.

Definition append_event (kind id message : string) (at_ : Time) : Monitor unit :=
  note (EventAppended {| ev_Kind := kind; ev_CandidateID := id; ev_Message := message;
                         ev_CreatedAt := at_ |}).

Definition new_tracker : Health.Tracker := Health.NewTracker (5 * minute) 3.

(** The route is down in the store, and something else than an active failure is the
    last that is known of it. *)
Definition superseded (c : Candidate) (row : CandidateHealth) (tracker : option Health.Tracker) :
    Monitor bool :=
  match tracker with
  | Some _ =>
      if hl_Available row then ret false
      else
        state <- monitor_call (fun _ => ProbeStateRead (c_Fingerprint c))
                   (fun o _ => CandidateProbeState_ o (c_Fingerprint c)) ;;
        ret (negb (str_eqb (ps_LastErrorCode state) active_hard_failure))
  | None => ret false
  end.

(** A newer full qualification overrules the monitor's own quarantine.  Asking the
    tracker refreshes it. *)
Definition current_tracker (id : string) (row : CandidateHealth) (at_ : Time)
    (tracker : option Health.Tracker) : Monitor (option Health.Tracker) :=
  match tracker with
  | Some t =>
      if hl_Available row && negb (hl_ActiveHardFailure row) then
        let '(state, t) := Health.ReadState t at_ in
        change (set_tracker id t) ;;;
        ret (Some (if Health.Available state then t else new_tracker))
      else ret (Some t)
  | None => ret None
  end.

(** The first complete failure, and every one that does not confirm it: the route
    stays as available as it is. *)
Definition suspect_failure (id : string) (c : Candidate) (row : CandidateHealth)
    (x : activeObservation) (since at_ : Time) (suspected : bool) : Monitor unit :=
  let outcome := {| ao_Available := hl_Available row; ao_ProofSuccess := false;
                    ao_RetainPreviousProof := proof_eligible row since;
                    ao_ProofFreshAfter := since |} in
  commit <- unless_gone id (monitor_call (SuspectCommitted c x at_)
              (fun o now => CommitCandidateActiveOutcome o now c (ob_reservation x) outcome at_)) ;;
  match commit with
  | Some r =>
      if Accepted r && negb suspected then
        change (fun m => m <| hardFailureSuspects := <[id := at_]> (hardFailureSuspects m) |>) ;;;
        append_event "candidate_liveness_suspect" id
          (with_details "first complete liveness failure; awaiting confirmation" (ob_observation x)) at_
      else ret tt
  | None => ret tt
  end.

Definition publish_failure (id : string) (x : activeObservation) (at_ : Time) : Monitor unit :=
  if negb (has_hardFailures options) then ret tt
  else
    let started := if time_is_zero (ob_probeStartedAt x) then at_ else ob_probeStartedAt x in
    match NewHardFailureEvent id started at_ (HardFailureDeadline options) with
    | inl e => raise (HardFailureEventInvalid e)
    | inr event =>
        modify (fun w => w <| mw_mail := Publish event (mo_mail env (mw_calls w) (mw_mail w)) |>) ;;;
        note (FailurePublished event)
    end.

Definition commit_failure (c : Candidate) (x : activeObservation) (at_ : Time) : Monitor bool :=
  monitor_call (FailureCommitted c x at_) (fun o now =>
    if str_eqb (c_Kind c) KindVLESS && negb (str_eqb (c_FailureDomain c) EmptyString)
    then result <- CommitActiveVLESSHardFailureObservation o now c (ob_reservation x) at_ ;;
         ret result.2
    else result <- CommitCandidateActiveHardFailureObservation o now c (ob_reservation x) at_ ;;
         ret (bool_decide (is_Some result))).

(** The route was up and is down. *)
Definition confirm_failure (id : string) (c : Candidate) (x : activeObservation) (at_ : Time)
    (preview : Health.Tracker) (dns : bool) : Monitor unit :=
  commit <- unless_gone id (commit_failure c x at_) ;;
  match commit with
  | Some true =>
      change (fun m => forget_suspect id (set_tracker id preview m)) ;;;
      (if dns then change (forget_availability id) else ret tt) ;;;
      append_event "candidate_hard_failure" id (failure_message options x dns) at_ ;;;
      publish_failure id x at_ ;;;
      signal (has_trigger options) PlacementTriggered
  | _ => ret tt
  end.

(** A proof of a route closes the circuit of its failure domain. *)
Definition recover_domain (c : Candidate) (proven : bool) (at_ : Time) : Monitor bool :=
  if proven && str_eqb (c_Kind c) KindVLESS && negb (str_eqb (c_FailureDomain c) EmptyString)
  then monitor_call (DomainReset (c_FailureDomain c))
         (fun o _ => ResetFailureDomainOnSuccess o (c_FailureDomain c) at_)
  else ret false.

Definition record_outcome (id : string) (c : Candidate) (row : CandidateHealth)
    (x : activeObservation) (since at_ : Time) (preview : Health.Tracker) (state : Health.State) :
    Monitor unit :=
  let proof := proofSuccess (ob_observation x) in
  let wasProofEligible := proof_eligible row since in
  let retain := Health.Degraded state && Health.Available state && wasProofEligible in
  let outcome := {| ao_Available := Health.Available state; ao_ProofSuccess := proof;
                    ao_RetainPreviousProof := retain; ao_ProofFreshAfter := since |} in
  commit <- unless_gone id (monitor_call (OutcomeCommitted c x outcome at_)
              (fun o now => CommitCandidateActiveOutcome o now c (ob_reservation x) outcome at_)) ;;
  match commit with
  | None => ret tt
  | Some r =>
      if negb (Accepted r) then ret tt
      else
        change (set_tracker id preview) ;;;
        (if completeFailure (ob_observation x) then ret tt else change (forget_suspect id)) ;;;
        let isProofEligible := retain || proof && (time_is_zero since || negb (before at_ since)) in
        recovered <- recover_domain c (Health.Available state && proof && isProofEligible) at_ ;;
        (if negb (Bool.eqb (hl_Available row) (Health.Available state)) ||
            negb (Bool.eqb wasProofEligible isProofEligible) || recovered
         then modify (fun w => w <| mw_capacity := true |>) else ret tt) ;;;
        signal (ob_promoteOnSuccess x && BecameProofEligible r && has_promotions options)
          PromotionSignalled
  end.

(** [tracker.Observe] works on a copy, which is kept when the commit is accepted. *)
Definition conclude (id : string) (c : Candidate) (row : CandidateHealth) (x : activeObservation)
    (since at_ : Time) (tracker : Health.Tracker) (dns : bool) : Monitor unit :=
  let '(state, preview) :=
    Health.ReadState (Health.Observe tracker at_ (ob_observation x)) at_ in
  if hl_Available row && negb (Health.Available state)
  then confirm_failure id c x at_ preview dns
  else record_outcome id c row x since at_ preview state.

Definition judge (id : string) (c : Candidate) (row : CandidateHealth) (x : activeObservation)
    (at_ : Time) (tracker : Health.Tracker) : Monitor unit :=
  let since := proof_since options x at_ in
  dns <- in_monitor (observeAvailabilityLocked options id x) ;;
  if needs_confirmation options x then
    suspected <- in_monitor (suspected_at options id x) ;;
    match suspected with
    | Some t =>
        if before (ob_probeStartedAt x) t
        then suspect_failure id c row x since at_ true
        else conclude id c row x since at_ tracker dns
    | None => suspect_failure id c row x since at_ false
    end
  else conclude id c row x since at_ tracker dns.

Definition observe_one (now : Time) (rows : gmap string CandidateHealth)
    (candidates : gmap string Candidate) (id : string) (x : activeObservation) : Monitor unit :=
  let at_ := if time_is_zero (ob_completedAt x) then now else ob_completedAt x in
  match rows !! id, candidates !! id with
  | Some row, Some c =>
      tracker <- get (fun w => trackers (mw_monitor w) !! id) ;;
      overruled <- superseded c row tracker ;;
      if overruled then clear id
      else
        tracker <- current_tracker id row at_ tracker ;;
        match tracker with
        | None =>
            if hl_Available row then judge id c row x at_ new_tracker
            else change (fun m => forget_availability id (forget_suspect id m))
        | Some t => judge id c row x at_ t
        end
  | _, _ => clear id
  end.

(** ** A pass *)

(** The observations in the order in which the range over their map meets them. *)
Definition apply_all (now : Time) (observations : list (string * activeObservation))
    (candidates : gmap string Candidate) : Monitor unit :=
  rows <- monitor_call HealthListed (fun o _ => ListCandidateHealth o) ;;
  forM observations (fun '(id, x) =>
    observe_one now (index_by hl_CandidateID rows) candidates id x).

(** Once for the whole pass, failed or not. *)
Definition applyReservedObservations (now : Time)
    (observations : list (string * activeObservation)) (candidates : gmap string Candidate) :
    Monitor unit := fun w =>
  let '(r, w) := apply_all now observations candidates (w <| mw_capacity := false |>) in
  (r, if mw_capacity w && has_capacityChanges options then called CapacitySignalled w else w).

(** What a probe of the agent brings back; its error tells whether the candidate is
    gone. *)
Inductive ProbeError := ProbeCandidateGone | ProbeUnreachable.

Record activeProbeResult := {
  ar_candidateID : string;
  ar_error : option ProbeError;
  ar_infrastructure : bool;
  ar_observed : activeObservation
}.

(** One result of [Run]; the first error is kept and the others go on. *)
Definition take_result (now : Time) (candidates : gmap string Candidate)
    (first : option MonitorError) (item : activeProbeResult) : Monitor (option MonitorError) :=
  let id := ar_candidateID item in
  let x := ar_observed item in
  let reserved := 0 <? re_Sequence (ob_reservation x) in
  let keep e := match first with Some e => Some e | None => Some e end in
  let missed :=
    if reserved then
      _ <- in_monitor (observeAvailabilityLocked options id
             {| ob_observation := ob_observation x; ob_availability := None;
                ob_reservation := ob_reservation x; ob_probeStartedAt := zero_time;
                ob_completedAt := ob_completedAt x; ob_promoteOnSuccess := false;
                ob_proofFreshAfter := zero_time |}) ;;
      ret first
    else ret first in
  match ar_error item with
  | Some ProbeCandidateGone => clear id ;;; ret first
  | Some ProbeUnreachable =>
      if re_Sequence (ob_reservation x) =? 0 then ret (keep ProbeFailed) else missed
  | None =>
      if ar_infrastructure item then missed
      else fun w =>
        match applyReservedObservations now [(id, x)] candidates w with
        | (inl e, w) => (inr (keep e), w)
        | (inr _, w) => (inr first, w)
        end
  end.

Definition take_results (now : Time) (candidates : gmap string Candidate)
    (items : list activeProbeResult) : Monitor unit :=
  first <- foldM (take_result now candidates) None items ;;
  match first with Some e => raise e | None => ret tt end.

(** The end of a run: the agent brings the results one by one, the local probes all
    together. *)
Record Pass := {
  pa_now : Time;
  pa_candidates : list Candidate;
  pa_results : list activeProbeResult + list (string * activeObservation)
}.

Definition finish_run (p : Pass) : Monitor unit :=
  let candidates := index_by c_ID (pa_candidates p) in
  match pa_results p with
  | inl items => take_results (pa_now p) candidates items
  | inr observations => applyReservedObservations (pa_now p) observations candidates
  end.

(** Runs of one monitor, one after the other, whatever they answer. *)
Definition runs (passes : list Pass) (w : MonitorWorld) : MonitorWorld :=
  fold_left (fun w p => (finish_run p w).2) passes w.
End Monitor.

Definition started_monitor (d : Database) : MonitorWorld :=
  {| mw_db := d; mw_monitor := new_monitor; mw_mail := NewHardFailureMailbox; mw_capacity := false;
     mw_calls := [] |}.
