(* ===== verification/ActiveMonitorSafety.v ===== *)
(** When a failure counts as confirmed: the route was down in the observation itself,
    and in an earlier one that had ended before this one began, with no sign of life
    in between.  And the mailbox of confirmed failures keeps the most urgent one. *)
From Stdlib Require Import Floats.
From S2P Require Health QoE.
From S2P Require Import Prelude Effects GoOrder GoFloat GoStrings GoSort DataPlan Handlers StoreTables StoreLogic StoreSample RouteRecovery CandidateState Observations ObservationRuns ObservationSafety FailedRoutes ActiveMonitor.

#[local] Open Scope Z_scope.
#[local] Open Scope effect_scope.

(** ** Rows that are available have no failure *)

Definition sound_row (h : HealthRow) : Prop := h_available h = true -> h_active_hard_failure h = false.

Definition settled (d : Database) : Prop := map_Forall (fun _ h => sound_row h) (candidate_health d).

Definition settles (d d' : Database) : Prop := settled d -> settled d'.

#[export] Instance settles_preorder : PreOrder settles.
Proof. unfold settles. split; [by intros d|]. intros x y z; naive_solver. Qed.

Lemma settles_rows d d' : candidate_health d' = candidate_health d -> settles d d'.
Proof. unfold settles, settled. by intros ->. Qed.

Lemma settles_health d f :
  (map_Forall (fun _ h => sound_row h) (candidate_health d) ->
   map_Forall (fun _ h => sound_row h) (f (candidate_health d))) ->
  settles d (set_health f d).
Proof. unfold settles, settled. by destruct d. Qed.

Lemma settles_alter id f d : (forall h, sound_row h -> sound_row (f h)) ->
  settles d (update_health id f d).
Proof.
  intros Hf. apply (settles_health d (alter f id)). intros Hd key h.
  rewrite lookup_alter_Some. intros [(<- & h0 & H0 & ->)|[_ H0]]; [apply Hf|]; by eapply Hd.
Qed.

Lemma settles_save h d : settles d (saveCandidateHealthTx h d).
Proof.
  apply (settles_health d (fun m => <[hl_CandidateID h := _]> m)). intros Hd. cbn beta.
  apply map_Forall_insert_2; [|done]. unfold sound_row.
  destruct (candidate_health d !! hl_CandidateID h) as [r|] eqn:E; [|by unfold with_health].
  destruct (hl_Available h) eqn:Ha; [done|]. unfold with_health. destruct r; simpl. by rewrite Ha.
Qed.

Lemma settles_upsert s d : settles d (upsertCandidateProbeState s d).
Proof. apply settles_rows. by destruct d. Qed.
Lemma settles_sample s d : settles d (appendProbeSampleTx s d).
Proof. apply settles_rows. by destruct d. Qed.

#[local] Hint Resolve settles_save settles_upsert settles_sample : hydrat.

Lemma settles_update_if id cond f e : (forall h, sound_row h -> sound_row (f h)) ->
  leaves settles (update_health_if id cond f e).
Proof. intros Hf. unfold update_health_if. leaves. by apply settles_alter. Qed.

Lemma settles_record_health t w b h : leaves settles (record_health t w b h).
Proof. unfold record_health. leaves. apply settles_alter. by intros []. Qed.
#[local] Hint Resolve settles_record_health : hydrat.

Lemma settles_record t health sample b : leaves settles (recordCandidateProbeTx t health sample b).
Proof. unfold recordCandidateProbeTx, when_given, record_sample. leaves. Qed.

Lemma settles_apply c r : leaves settles (applyObservationReservationTx c r).
Proof.
  unfold applyObservationReservationTx. destruct (re_Stage r);
    [leaves; apply settles_rows; by destruct d|apply settles_update_if; by intros []..].
Qed.

Lemma settles_clear c : leaves settles (clearRecoveredRouteDebtTx c).
Proof. unfold clearRecoveredRouteDebtTx. leaves. apply settles_rows. by destruct d. Qed.

Lemma settles_fence c r t s : leaves settles (fence_failure c r t s).
Proof.
  unfold fence_failure. leaves;
    first [apply settles_update_if; by intros []|apply settles_alter; by intros []].
Qed.

Lemma settles_recoveries `{PlanCodec} c at_ : leaves settles (recordRouteRecoveriesTx c at_).
Proof. intros d u d' Hr. apply recoveries_rows in Hr as [_ Hh]. by apply settles_rows. Qed.

Lemma settles_domain domain candidate now :
  leaves settles (recordFailureDomainFailureTx domain candidate now).
Proof. intros d a d' Hr. apply domain_rows in Hr as [_ Hh]. by apply settles_rows. Qed.

Lemma settles_reserve now c stage : leaves settles (reserveCandidateObservationTx now c stage).
Proof.
  intros d r d' Hr. unfold reserveCandidateObservationTx, reserve_health in Hr.
  assert (forall f : HealthRow -> HealthRow, (forall h, h_available (f h) = h_available h /\
    h_active_hard_failure (f h) = h_active_hard_failure h) ->
    settles d (set_health <[c_ID c := f (default ((new_health_row now) <| h_placeholder := true |>)
                                           (candidate_health d !! c_ID c))]> d)) as Hnew.
  { intros f Hf. apply settles_health. intros Hd. apply map_Forall_insert_2; [|done].
    unfold sound_row. destruct (Hf (default (set_field h_placeholder (fun _ => true) (new_health_row now))
      (candidate_health d !! c_ID c))) as [-> ->].
    destruct (candidate_health d !! c_ID c) as [h|] eqn:E; [by apply (Hd _ _ E)|done]. }
  destruct stage; run_all Hr; [apply settles_rows; by destruct d|apply Hnew; by intros []..].
Qed.
#[local] Hint Resolve steady_active_check settles_record settles_apply settles_clear settles_fence
  settles_recoveries settles_domain settles_reserve : hydrat.

Section Settled.
Context `{PlanCodec}.

Lemma settles_hard c r t at_ : leaves settles (record_hard_failure c r t at_).
Proof. unfold record_hard_failure. leaves. by apply settles_update_if. Qed.

Lemma settles_active c r outcome at_ : leaves settles (commit_active c r outcome at_).
Proof.
  unfold commit_active, activeSuccessGenerationCurrentTx. leaves. apply settles_update_if.
  intros h _. unfold sound_row, with_outcome. destruct h; simpl. by intros ->.
Qed.
#[local] Hint Resolve settles_hard settles_active : hydrat.

Lemma settles_commit_active o now c r outcome at_ :
  lands settles (CommitCandidateActiveOutcome o now c r outcome at_).
Proof. unfold CommitCandidateActiveOutcome. lands. leaves. Qed.
Lemma settles_commit_hard o now c r at_ :
  lands settles (CommitCandidateActiveHardFailureObservation o now c r at_).
Proof. unfold CommitCandidateActiveHardFailureObservation. lands. unfold commit_hard_failure. leaves. Qed.
Lemma settles_commit_domain o now c r at_ :
  lands settles (CommitActiveVLESSHardFailureObservation o now c r at_).
Proof.
  unfold CommitActiveVLESSHardFailureObservation. cbn zeta. lands. unfold commit_domain_failure. leaves.
Qed.
Lemma settles_reset o domain now : lands settles (ResetFailureDomainOnSuccess o domain now).
Proof.
  unfold ResetFailureDomainOnSuccess, reset_domain. lands. leaves; by apply settles_rows; destruct d.
Qed.

Lemma settles_step o op d : settles d (step o op d).2.
Proof.
  assert (forall A (m : Tx A), lands settles m -> settles d (m d).2) as Hgo by done.
  destruct op as [now requests|now c r t health sample|now c r outcome at_|now c r at_|
    now c r at_|c health sample|id q fence|domain now|domain candidate now|domain ids now|
    clock active draining at_ epoch|now kind|f]; cbn [step answer snd]; [apply Hgo..|].
  - unfold ReserveCandidateObservations. lands. leaves. unfold forM, observable. leaves.
    case_decide; leaves.
  - unfold CommitCandidateProbeObservation. lands. unfold commit_probe. leaves.
  - apply settles_commit_active.
  - apply settles_commit_hard.
  - apply settles_commit_domain.
  - unfold RecordCandidateHealthResult, when_given. lands. leaves.
  - unfold UpdateCandidateUDPQualified. lands. leaves. apply settles_alter. by intros [].
  - apply settles_reset.
  - unfold RecordFailureDomainFailure. lands. leaves.
  - unfold ElectFailureDomainCanary. lands. leaves. by apply settles_rows; destruct d0.
  - unfold replaceWorkingPoolCurrent. lands. unfold update_members, update_member.
    leaves; by apply settles_rows; destruct d0.
  - unfold ClearWorkingPoolByKind. lands. leaves. by apply settles_rows; destruct d0.
  - apply settles_rows. unfold elsewhere. by destruct (f d).
Qed.

Lemma settles_observe ops d : settles d (ObservationRuns.observe ops d).
Proof.
  revert d. induction ops as [|[o op] ops IH]; intros d; cbn [ObservationRuns.observe]; [done|].
  etransitivity; [apply settles_step|apply IH].
Qed.
End Settled.

(** ** What has to be true of the calls *)

Section Each.
Context {A : Type} (P : list A -> A -> Prop).

(** Every element stands in [P] to those before it. *)
Definition each (l : list A) : Prop := forall earlier x later, l = earlier ++ x :: later -> P earlier x.

Lemma each_nil : each [].
Proof. intros earlier x later H. by destruct earlier. Qed.

Lemma each_snoc l x : each l -> P l x -> each (l ++ [x]).
Proof.
  intros Hl Hx earlier y later H. destruct later as [|z later _] using rev_ind.
  - by apply app_inj_tail in H as [-> ->].
  - rewrite app_comm_cons, app_assoc in H. apply app_inj_tail in H as [H _]. by eapply Hl.
Qed.
End Each.

(** The observation of a candidate that the store has taken. *)
Definition taken_from (id : string) (call : MonitorCall) : option activeObservation :=
  match call with
  | SuspectCommitted c x _ (inr r) | OutcomeCommitted c x _ _ (inr r) =>
      if Accepted r && str_eqb (c_ID c) id then Some x else None
  | FailureCommitted c x _ (inr true) => if str_eqb (c_ID c) id then Some x else None
  | _ => None
  end.

Definition lifeless (id : string) (call : MonitorCall) : Prop :=
  forall x, taken_from id call = Some x -> completeFailure (ob_observation x) = true.

(** The store took the observation [y] of a complete failure that ended at [t], and
    nothing since that shows the candidate alive. *)
Definition suspected_by (id : string) (calls : list MonitorCall) (y : activeObservation) (t : Time) :
    Prop :=
  exists earlier c r between,
    calls = earlier ++ SuspectCommitted c y t (inr r) :: between /\ c_ID c = id /\
    Accepted r = true /\ completeFailure (ob_observation y) = true /\ Forall (lifeless id) between.

Section Confirmation.
Context `{PlanCodec} (env : MonitorEnv) (options : MonitorOptions).

(** An earlier failure of the candidate [id] that the one of [x] confirms: it had
    ended before, and not too long before, the probe of [x] began. *)
Definition has_suspect (id : string) (x : activeObservation) (calls : list MonitorCall) : Prop :=
  exists y t, suspected_by id calls y t /\ t <= ob_probeStartedAt x /\
    (0 < ProofFreshness options -> ob_probeStartedAt x <= t + ProofFreshness options).

Definition confirmed (calls : list MonitorCall) (c : Candidate) (x : activeObservation) : Prop :=
  completeFailure (ob_observation x) = true /\
  (needs_confirmation options x = true -> has_suspect (c_ID c) x calls).

Definition started (x : activeObservation) (at_ : Time) : Time :=
  if time_is_zero (ob_probeStartedAt x) then at_ else ob_probeStartedAt x.

(** The last two calls told the store of the failure of [x] and wrote an event. *)
Definition just_failed (calls : list MonitorCall) (c : Candidate) (x : activeObservation) (at_ : Time) :
    Prop :=
  exists before event, calls = before ++ [FailureCommitted c x at_ (inr true); EventAppended event].

Definition published (calls : list MonitorCall) (event : HardFailureEvent) : Prop :=
  exists c x at_, just_failed calls c x at_ /\ hf_CandidateID event = c_ID c /\
    hf_DetectedAt event = at_ /\ hf_ProbeStartedAt event = started x at_ /\
    hf_Deadline event = started x at_ + HardFailureDeadline options /\
    started x at_ <= at_ < hf_Deadline event.

(** The trigger follows the failure, or its publication. *)
Definition triggered (calls : list MonitorCall) : Prop :=
  exists c x at_, just_failed calls c x at_ \/
    exists before event, calls = before ++ [FailurePublished event] /\ just_failed before c x at_.

Definition justified (calls : list MonitorCall) (call : MonitorCall) : Prop :=
  match call with
  | FailureCommitted c x _ (inr true) => confirmed calls c x
  | FailurePublished event => published calls event
  | PlacementTriggered => triggered calls
  | _ => True
  end.

(** The invariant, but for the suspects of [X]. *)
Definition Watch (X : gset string) (w : MonitorWorld) : Prop :=
  settled (mw_db w) /\ each justified (mw_calls w) /\
  forall id t, id ∉ X -> hardFailureSuspects (mw_monitor w) !! id = Some t ->
    exists y, suspected_by id (mw_calls w) y t.

Lemma suspected_snoc id calls y t call : suspected_by id calls y t -> lifeless id call ->
  suspected_by id (calls ++ [call]) y t.
Proof.
  intros (earlier & c & r & between & -> & Hc & Hr & Hy & Hb) Hl.
  exists earlier, c, r, (between ++ [call]). rewrite <- app_assoc. cbn [app].
  split_and!; try done. apply Forall_app. by split; [|apply Forall_singleton].
Qed.

Lemma Watch_call X call w : Watch X w -> justified (mw_calls w) call ->
  (forall id, id ∉ X -> lifeless id call) -> Watch X (called call w).
Proof.
  intros (Hd & Hj & Hs) Hcall Hl. split_and!.
  - done.
  - by apply each_snoc.
  - intros id t Hid Ht. destruct (Hs id t Hid Ht) as [y Hy]. exists y.
    apply suspected_snoc; auto.
Qed.

Lemma Watch_weaken X Y w : X ⊆ Y -> Watch X w -> Watch Y w.
Proof. intros HXY (Hd & Hj & Hs). split_and!; [done..|]. intros id t Hid. apply Hs. set_solver. Qed.

(** A change of the monitor that adds no suspects. *)
Definition drops (f : ActiveMonitor -> ActiveMonitor) : Prop :=
  forall m, hardFailureSuspects (f m) ⊆ hardFailureSuspects m.

Lemma Watch_drop X f w : drops f -> Watch X w -> Watch X (w <| mw_monitor := f (mw_monitor w) |>).
Proof.
  intros Hf (Hd & Hj & Hs). split_and!; [done..|]. intros id t Hid Ht. apply Hs; [done|].
  eapply lookup_weaken; [exact Ht|apply Hf].
Qed.

Lemma drops_clear id : drops (clearCandidateActiveStateLocked id).
Proof. intros m. unfold clearCandidateActiveStateLocked, forget_suspect. simpl. apply delete_subseteq. Qed.
Lemma drops_forget id : drops (forget_suspect id).
Proof. intros m. unfold clearCandidateActiveStateLocked, forget_suspect. simpl. apply delete_subseteq. Qed.
Lemma drops_tracker id t : drops (set_tracker id t).
Proof. intros m. unfold set_tracker, forget_availability. simpl. reflexivity. Qed.
Lemma drops_availability id : drops (forget_availability id).
Proof. intros m. unfold set_tracker, forget_availability. simpl. reflexivity. Qed.
Lemma drops_compose f g : drops f -> drops g -> drops (fun m => f (g m)).
Proof. intros Hf Hg m. etransitivity; [apply Hf|apply Hg]. Qed.
#[local] Hint Resolve drops_clear drops_forget drops_tracker drops_availability drops_compose : hydrat.

(** Forgetting a suspect pays for a sign of life. *)
Lemma Watch_forget id w : Watch {[id]} w ->
  Watch ∅ (w <| mw_monitor := forget_suspect id (mw_monitor w) |>).
Proof.
  intros (Hd & Hj & Hs). split_and!; [done..|]. intros key t _ Ht. cbn in Ht.
  destruct (decide (key = id)) as [->|Hn]; [by rewrite lookup_delete_eq in Ht|].
  rewrite lookup_delete_ne in Ht by done. apply Hs; [set_solver|done].
Qed.

(** ** Programs keep the invariant *)

Abbreviation kept := (fun (_ : MonitorError) w => Watch ∅ w).
Abbreviation keeps m := (triple (Watch ∅) m (fun _ w => Watch ∅ w) kept).

Lemma keeps_bind {A B : Type} P (m : Prog MonitorWorld MonitorError A)
    (k : A -> Prog MonitorWorld MonitorError B) (S : A -> MonitorWorld -> Prop) :
  triple P m S kept -> (forall a, triple (S a) (k a) (fun _ w => Watch ∅ w) kept) ->
  triple P (bind m k) (fun _ w => Watch ∅ w) kept.
Proof. apply triple_bind. Qed.

Lemma keeps_ret {A : Type} (a : A) : keeps (ret a).
Proof. by intros w Hw. Qed.

Lemma keeps_if {A : Type} P (b : bool) (m n : Prog MonitorWorld MonitorError A) Q :
  triple P m Q kept -> triple P n Q kept -> triple P (if b then m else n) Q kept.
Proof. by destruct b. Qed.

Lemma keeps_change f : drops f -> keeps (change f).
Proof. intros Hf w Hw. by apply Watch_drop. Qed.

Lemma keeps_note call : (forall calls, justified calls call) -> (forall id, taken_from id call = None) ->
  keeps (note call).
Proof.
  intros Hj Hl w Hw. apply Watch_call; [done|apply Hj|]. intros id _ x Hx. by rewrite Hl in Hx.
Qed.

Lemma keeps_signal there call : (forall calls, justified calls call) ->
  (forall id, taken_from id call = None) -> keeps (signal there call).
Proof. intros Hj Hl. apply keeps_if; [by apply keeps_note|apply keeps_ret]. Qed.

(** A call: the invariant breaks at most for the candidates that [X] names, and never
    when the call fails. *)
Lemma call_keeps {A : Type} (label : StoreError + A -> MonitorCall) (m : Outcome -> Time -> Tx A)
    (X : A -> gset string) (P : list MonitorCall -> ActiveMonitor -> Prop) :
  (forall o now, lands settles (m o now)) ->
  (forall calls mon answer, P calls mon -> justified calls (label answer)) ->
  (forall e id, taken_from id (label (inl e)) = None) ->
  (forall a id, id ∉ X a -> lifeless id (label (inr a))) ->
  triple (fun w => Watch ∅ w /\ P (mw_calls w) (mw_monitor w)) (monitor_call env label m)
    (fun a w => Watch (X a) w /\
                exists calls, mw_calls w = calls ++ [label (inr a)] /\ P calls (mw_monitor w)) kept.
Proof.
  intros Hm Hj He Ha w [Hw HP]. unfold monitor_call.
  pose proof (Hm (mo_outcome env (mw_calls w)) (mo_clock env (mw_calls w))
    (ObservationRuns.observe (mo_others env (mw_calls w)) (mw_db w))) as Hd.
  destruct (m _ _ _) as [r d] eqn:E. cbn [snd] in Hd.
  assert (forall X, Watch X (w <| mw_db := d |>)) as Hwd.
  { intros Y. apply (Watch_weaken ∅); [set_solver|]. destruct Hw as (Hs & Hrest).
    split; [|done]. apply Hd, settles_observe, Hs. }
  destruct r as [e|a].
  - apply Watch_call; [apply Hwd|by eapply Hj|]. intros id _ x Hx. by rewrite He in Hx.
  - split; [apply Watch_call; [apply Hwd|by eapply Hj|by apply Ha]|].
    exists (mw_calls w). by split.
Qed.

(** A call that reads. *)
Lemma read_keeps {A : Type} (label : StoreError + A -> MonitorCall) (m : Outcome -> Time -> Tx A) :
  (forall o now, lands settles (m o now)) -> (forall calls answer, justified calls (label answer)) ->
  (forall answer id, taken_from id (label answer) = None) -> keeps (monitor_call env label m).
Proof.
  intros Hm Hj Hl. eapply triple_conseq.
  - apply (call_keeps label m (fun _ => ∅) (fun _ _ => True)); auto.
    intros a id _ x Hx. by rewrite Hl in Hx.
  - by intros w Hw.
  - by intros a w [Hw _].
  - done.
Qed.

Lemma gone_keeps {A : Type} id P (m : Prog MonitorWorld MonitorError A) Q :
  triple P m Q kept ->
  triple P (unless_gone id m) (fun a w => match a with Some a => Q a w | None => Watch ∅ w end) kept.
Proof.
  intros Hm w Hw. specialize (Hm w Hw). unfold unless_gone.
  destruct (m w) as [[[[]| |]|a] w'] eqn:E; try done.
  apply Watch_drop; [apply drops_clear|done].
Qed.

Lemma suspect_keeps id c row x since at_ suspected :
  c_ID c = id -> completeFailure (ob_observation x) = true ->
  keeps (suspect_failure env id c row x since at_ suspected).
Proof.
  intros Hc Hx. unfold suspect_failure. cbn zeta.
  eapply keeps_bind.
  - eapply (gone_keeps id), triple_pre.
    + apply (call_keeps _ _ (fun _ => ∅) (fun _ _ => True)); [intros; apply settles_commit_active|done..|].
      intros a key _ y. simpl. by destruct (Accepted a && _); intros [= <-].
    + by intros w Hw.
  - intros [r|]; [|apply keeps_ret].
    intros w [Hw (calls & Hcalls & _)]. destruct (Accepted r && negb suspected) eqn:E; [|done].
    split_bool. unfold bind, change, modify, append_event, note.
    apply Watch_call; [|done|by intros key _ y]. destruct Hw as (Hd & Hj & Hs).
    split_and!; [done..|]. intros key t _. cbn. destruct (decide (key = id)) as [->|Hn].
    + rewrite lookup_insert_eq. intros [= <-]. exists x, calls, c, r, []. by split_and!.
    + rewrite lookup_insert_ne by done. apply Hs. set_solver.
Qed.

Lemma new_event_facts id s at_ budget event : NewHardFailureEvent id s at_ budget = inr event ->
  hf_CandidateID event = id /\ hf_DetectedAt event = at_ /\ hf_ProbeStartedAt event = s /\
  hf_Deadline event = s + budget /\ s <= at_ < hf_Deadline event.
Proof.
  unfold NewHardFailureEvent, before, after, time_add. intros Hn.
  repeat case_match; simplify_eq. simpl. split_bool. z_bool. split_and!; try done; lia.
Qed.

(** What comes after the event of a confirmed failure. *)
Lemma publish_keeps c x at_ :
  triple (fun w => Watch ∅ w /\ just_failed (mw_calls w) c x at_) (publish_failure env options (c_ID c) x at_)
    (fun _ w => Watch ∅ w /\ (just_failed (mw_calls w) c x at_ \/
       exists before event, mw_calls w = before ++ [FailurePublished event] /\ just_failed before c x at_))
    kept.
Proof.
  unfold publish_failure. apply triple_if; intros _; [intros w [Hw Hf]; split; [done|by left]|].
  cbn zeta. fold (started x at_). destruct (NewHardFailureEvent _ _ _ _) as [e|event] eqn:E.
  - by intros w [Hw _].
  - apply new_event_facts in E as (H1 & H2 & H3 & H4 & H5).
    intros w [Hw Hf]. unfold bind, modify, note. split.
    + apply Watch_call; [done| |by intros id _ y]. exists c, x, at_. destruct H5. by split_and!.
    + right. exists (mw_calls w), event. by split.
Qed.

Lemma confirm_keeps c x at_ preview dns : completeFailure (ob_observation x) = true ->
  triple (fun w => Watch ∅ w /\ confirmed (mw_calls w) c x)
    (confirm_failure env options (c_ID c) c x at_ preview dns) (fun _ w => Watch ∅ w) kept.
Proof.
  intros Hx. unfold confirm_failure, commit_failure.
  eapply keeps_bind.
  - eapply (gone_keeps (c_ID c)), triple_pre.
    + apply (call_keeps _ _ (fun _ => ∅) (fun calls _ => confirmed calls c x)).
      * intros o now. destruct (str_eqb (c_Kind c) KindVLESS && _); apply lands_return;
          [apply settles_commit_domain|apply settles_commit_hard].
      * by intros calls mon [e|[]] Hc.
      * done.
      * intros [] id _ y; simpl; [|done]. by destruct (str_eqb _ _); intros [= <-].
    + by intros w Hw.
  - intros [[]|]; [|by intros w [Hw _]|apply keeps_ret].
    intros w [Hw (calls & Hcalls & _)]. revert w Hw Hcalls.
    assert (triple (fun w => Watch ∅ w /\ mw_calls w = calls ++ [FailureCommitted c x at_ (inr true)])
      (change (fun m => forget_suspect (c_ID c) (set_tracker (c_ID c) preview m)) ;;;
       (if dns then change (forget_availability (c_ID c)) else ret tt) ;;;
       append_event "candidate_hard_failure" (c_ID c) (failure_message options x dns) at_ ;;;
       publish_failure env options (c_ID c) x at_ ;;; signal (has_trigger options) PlacementTriggered)
      (fun _ w => Watch ∅ w) kept) as Ht; [|by intros w Hw Hcalls; apply (Ht w)].
    set (told := fun (_ : unit) w => Watch ∅ w /\ mw_calls w = calls ++ [FailureCommitted c x at_ (inr true)]).
    apply (triple_bind _ _ _ told); [|intros []; apply (triple_bind _ _ _ told); [|intros [];
      apply (triple_bind _ _ _ (fun _ w => Watch ∅ w /\ just_failed (mw_calls w) c x at_)); [|intros [];
        eapply triple_bind; [apply publish_keeps|intros []]]]].
    + intros w [Hw Hcalls]. split; [|exact Hcalls].
      apply (Watch_drop ∅ (fun m => forget_suspect _ (set_tracker _ preview m)) w); [|exact Hw].
      auto with hydrat.
    + destruct dns; intros w [Hw Hcalls]; [|exact (conj Hw Hcalls)].
      split; [|exact Hcalls]. by apply (Watch_drop ∅ (forget_availability _) w); [auto with hydrat|].
    + intros w [Hw Hcalls]. split; [apply Watch_call; [done..|by intros id _ y]|].
      eexists calls, _. unfold called. simpl. rewrite Hcalls, <- app_assoc. reflexivity.
    + unfold signal. apply triple_if; intros _; [|by intros w [Hw _]].
      intros w [Hw Hf]. apply Watch_call; [done| |by intros id _ y]. by exists c, x, at_.
Qed.

Lemma recover_keeps c proven at_ : keeps (recover_domain env c proven at_).
Proof.
  apply keeps_if; [|apply keeps_ret]. apply read_keeps; [|done..].
  intros o now. apply settles_reset.
Qed.

Lemma record_keeps id c row x since at_ preview state : c_ID c = id ->
  keeps (record_outcome env options id c row x since at_ preview state).
Proof.
  intros Hc. unfold record_outcome. cbn zeta. set (failed := completeFailure (ob_observation x)).
  eapply keeps_bind.
  - eapply (gone_keeps id), triple_pre.
    + apply (call_keeps _ _ (fun r => if Accepted r && negb failed then {[id]} else ∅) (fun _ _ => True));
        [intros; apply settles_commit_active|done..|].
      intros r key Hkey y. simpl. destruct (Accepted r); [|done]. simpl in *.
      destruct (str_eqb (c_ID c) key) eqn:Ek; [|done]. apply str_eqb_eq in Ek. intros [= <-].
      fold failed. destruct failed; [done|]. set_solver.
    + by intros w Hw.
  - intros [r|]; [|apply keeps_ret]. destruct (Accepted r); [|by intros w [Hw _]]. cbn [andb negb].
    eapply (keeps_bind _ _ _ (fun _ => Watch (if negb failed then {[id]} else ∅))).
    { intros w [Hw _]. apply (Watch_drop _ (set_tracker id preview) w); [apply drops_tracker|exact Hw]. }
    intros []. eapply (keeps_bind _ _ _ (fun _ => Watch ∅)).
    { destruct failed; [apply keeps_ret|]. intros w Hw. by apply Watch_forget. }
    intros []. eapply keeps_bind; [apply recover_keeps|intros recovered].
    apply (keeps_bind _ _ _ (fun _ => Watch ∅)); [|intros []; by apply keeps_signal].
    apply keeps_if; [by intros w Hw|apply keeps_ret].
Qed.

(** ** The tracker *)

Lemma observe_available t at_ o : Health.Available (Health.state t) = true ->
  completeFailure o = false ->
  Health.Available (Health.ReadState (Health.Observe t at_ o) at_).1 = true.
Proof.
  unfold completeFailure. intros Ht Ho. unfold Health.ReadState, Health.Observe. rewrite Ho.
  unfold Health.refreshAvailability.
  destruct (Health.PrimaryOK o && Health.ConfirmationOK o);
    repeat (case_match; simpl in *; try done).
Qed.

(** What the monitor judges a route by: a tracker that is available when the route
    is. *)
Definition fits (row : CandidateHealth) (t : Health.Tracker) : Prop :=
  hl_Available row = true -> Health.Available (Health.state t) = true.

Lemma conclude_keeps id c row x since at_ t dns : c_ID c = id -> fits row t ->
  triple (fun w => Watch ∅ w /\ (needs_confirmation options x = true -> has_suspect id x (mw_calls w)))
    (conclude env options id c row x since at_ t dns) (fun _ w => Watch ∅ w) kept.
Proof.
  intros Hc Hfit. unfold conclude.
  pose proof (observe_available t at_ (ob_observation x)) as Ho.
  destruct (Health.ReadState _ _) as [state preview]. cbn [fst] in Ho. apply triple_if; intros E.
  - split_bool. specialize (Ho (Hfit ltac:(done))).
    destruct (completeFailure (ob_observation x)) eqn:Ex; [|by rewrite Ho in *]. subst id.
    eapply triple_pre; [by apply confirm_keeps|]. intros w [Hw Hs]. by split.
  - eapply triple_pre; [by apply record_keeps|]. by intros w [Hw _].
Qed.

Lemma judge_keeps id c row x at_ t : c_ID c = id -> fits row t ->
  keeps (judge env options id c row x at_ t).
Proof.
  intros Hc Hfit. unfold judge. cbn zeta.
  eapply (keeps_bind _ _ _ (fun _ => Watch ∅)).
  { intros w Hw. unfold in_monitor, observeAvailabilityLocked.
    destruct (next_failures _ _ _); [|exact Hw].
    apply (Watch_drop ∅ (fun m => set_field availabilityFailures _ m) w); [by intros m|exact Hw]. }
  intros dns. apply triple_if; intros Hn; [|].
  - assert (completeFailure (ob_observation x) = true) as Hx by (unfold needs_confirmation in Hn; by split_bool).
    eapply (keeps_bind _ _ _ (fun s w => Watch ∅ w /\
      match s with
      | Some t => (exists y, suspected_by id (mw_calls w) y t) /\
                  (0 < ProofFreshness options -> ob_probeStartedAt x <= t + ProofFreshness options)
      | None => True
      end)).
    { intros w Hw. unfold in_monitor, suspected_at.
      destruct (hardFailureSuspects (mw_monitor w) !! id) as [s|] eqn:Es; [|split; [exact Hw|done]].
      unfold after, time_add. destruct ((0 <? _) && _) eqn:Ef.
      - split; [|done]. apply (Watch_drop ∅ (forget_suspect id) w); [apply drops_forget|exact Hw].
      - split; [exact Hw|]. split; [by apply Hw|]. intros Hp. destruct (_ <? _) eqn:E1 in Ef; z_bool; [|lia].
        destruct (_ <? _) eqn:E2 in Ef; [done|]. z_bool. lia. }
    intros [s|]; [|eapply triple_pre; [by apply suspect_keeps|by intros w [Hw _]]].
    unfold before. apply triple_if; intros Hs; z_bool.
    + eapply triple_pre; [by apply suspect_keeps|by intros w [Hw _]].
    + eapply triple_pre; [by apply conclude_keeps|]. intros w (Hw & [y Hy] & Hp). split; [done|].
      intros _. exists y, s. split_and!; [done|lia|done].
  - eapply triple_pre; [by apply conclude_keeps|]. intros w Hw. split; [done|]. by rewrite Hn.
Qed.

(** ** Passes *)

Definition sound_listing (row : CandidateHealth) : Prop :=
  hl_Available row = true -> hl_ActiveHardFailure row = false.

Lemma list_sound o d rows d' : settled d -> ListCandidateHealth o d = (inr rows, d') ->
  Forall sound_listing rows.
Proof.
  intros Hd Hr. unfold ListCandidateHealth, query in Hr. apply transaction_inr in Hr as [= <- _].
  apply Forall_forall. intros row. rewrite sort_slice_Permutation, list_elem_of_fmap.
  intros ([id h] & -> & Hin). apply list_elem_of_In, filter_In in Hin as [Hin _].
  apply list_elem_of_In, elem_of_map_to_list in Hin. exact (Hd _ _ Hin).
Qed.

Lemma superseded_keeps c row t : keeps (superseded env c row t).
Proof.
  unfold superseded. destruct t as [t|]; [|apply keeps_ret]. apply keeps_if; [apply keeps_ret|].
  eapply keeps_bind; [|intros s; apply keeps_ret].
  apply read_keeps; [|done..]. intros o now d Hd.
  assert (steady (CandidateProbeState_ o (c_Fingerprint c))) as Hs; [|by rewrite Hs].
  unfold CandidateProbeState_, query. steady. by destruct o.
Qed.

Lemma tracker_keeps id row at_ t : sound_listing row ->
  triple (Watch ∅) (current_tracker id row at_ t)
    (fun t' w => Watch ∅ w /\ match t' with Some t' => fits row t' | None => True end) kept.
Proof.
  intros Hrow. unfold current_tracker. destruct t as [t|]; [|by intros w Hw].
  apply triple_if; intros E.
  - destruct (Health.ReadState t at_) as [state t'] eqn:Et. intros w Hw.
    unfold change, modify, bind. split.
    + apply (Watch_drop ∅ (set_tracker id t') w); [apply drops_tracker|exact Hw].
    + intros _. destruct (Health.Available state) eqn:Ea; [|done].
      unfold Health.ReadState in Et. by injection Et as <- <-.
  - intros w Hw. split; [exact Hw|]. intros Ha. specialize (Hrow Ha). rewrite Ha, Hrow in E. done.
Qed.

Lemma observe_keeps now rows candidates id x : map_Forall (fun _ => sound_listing) rows ->
  (forall id c, candidates !! id = Some c -> c_ID c = id) ->
  keeps (observe_one env options now rows candidates id x).
Proof.
  intros Hrows Hids. unfold observe_one. cbn zeta.
  destruct (rows !! id) as [row|] eqn:Er; [|by apply keeps_change, drops_clear].
  destruct (candidates !! id) as [c|] eqn:Ec; [|by apply keeps_change, drops_clear].
  apply Hids in Ec. pose proof (Hrows _ _ Er) as Hrow.
  apply (keeps_bind _ _ _ (fun _ => Watch ∅)); [by intros w Hw|intros t].
  apply (keeps_bind _ _ _ (fun _ => Watch ∅)); [apply superseded_keeps|intros overruled].
  apply keeps_if; [by apply keeps_change, drops_clear|].
  eapply keeps_bind; [by apply tracker_keeps|]. intros [t'|].
  - apply (triple_fact _ (fits row t')); [by intros w [_ Hf]|]. intros Hf.
    eapply triple_pre; [by apply judge_keeps|by intros w [Hw _]].
  - apply (triple_pre _ (Watch ∅)); [|by intros w [Hw _]]. apply keeps_if.
    + by apply judge_keeps.
    + apply keeps_change. apply drops_compose; [apply drops_availability|apply drops_forget].
Qed.

Lemma apply_keeps now observations candidates :
  (forall id c, candidates !! id = Some c -> c_ID c = id) ->
  keeps (applyReservedObservations env options now observations candidates).
Proof.
  intros Hids w Hw. unfold applyReservedObservations.
  assert (keeps (apply_all env options now observations candidates)) as Ht.
  { unfold apply_all. apply (keeps_bind _ _ _ (fun rows w => Watch ∅ w /\ Forall sound_listing rows)).
    - intros v Hv. assert (keeps (monitor_call env HealthListed (fun o _ => ListCandidateHealth o))) as Hk.
      { apply read_keeps; [|by intros calls []|by intros []]. intros o now'.
        apply lands_transaction; [typeclasses eauto|]. apply leaves_steady; [typeclasses eauto|done]. }
      specialize (Hk v Hv). unfold monitor_call in *. destruct (ListCandidateHealth _ _) as [[e|rows] d] eqn:E;
        [done|]. split; [done|]. eapply list_sound; [|exact E]. by apply settles_observe, Hv.
    - intros rows. apply (triple_fact _ (Forall sound_listing rows)); [by intros v [_ Hr]|]. intros Hrows.
      apply (triple_pre _ (Watch ∅)); [|by intros v [Hv _]].
      apply (triple_forM _ (fun _ => Watch ∅)). intros visited [id x] todo _.
      apply observe_keeps; [|done]. intros key row Hrow. apply index_by_Some in Hrow as [Hrow _].
      apply list_elem_of_In in Hrow. by eapply Forall_forall in Hrows. }
  match goal with |- context [apply_all _ _ _ _ _ ?v] => specialize (Ht v Hw) end.
  destruct (apply_all _ _ _ _ _ _) as [r w'].
  assert (Watch ∅ w') as Hw' by (by destruct r as [e|[]]).
  assert (Watch ∅ (if mw_capacity w' && has_capacityChanges options
                   then called CapacitySignalled w' else w')) as Hend.
  { destruct (_ && _); [|done]. by apply Watch_call. }
  destruct r as [e|[]]; exact Hend.
Qed.

Lemma result_keeps now candidates first item :
  (forall id c, candidates !! id = Some c -> c_ID c = id) ->
  keeps (take_result env options now candidates first item).
Proof.
  intros Hids. unfold take_result. cbn zeta.
  assert (forall x, keeps (in_monitor (observeAvailabilityLocked options (ar_candidateID item) x))) as Hin.
  { intros x w Hw. unfold in_monitor, observeAvailabilityLocked.
    destruct (next_failures _ _ _); [|exact Hw].
    apply (Watch_drop ∅ (fun m => set_field availabilityFailures _ m) w); [by intros m|exact Hw]. }
  destruct (ar_error item) as [[|]|].
  - eapply keeps_bind; [by apply keeps_change, drops_clear|intros []; apply keeps_ret].
  - apply keeps_if; [apply keeps_ret|]. apply keeps_if; [|apply keeps_ret].
    eapply keeps_bind; [apply Hin|intros b; apply keeps_ret].
  - apply keeps_if; [apply keeps_if; [|apply keeps_ret];
      eapply keeps_bind; [apply Hin|intros b; apply keeps_ret]|].
    intros w Hw. pose proof (apply_keeps now [(ar_candidateID item, ar_observed item)] candidates Hids w Hw) as Ha.
    by destruct (applyReservedObservations _ _ _ _ _ _) as [[e|[]] w'].
Qed.

Lemma index_by_ids (l : list Candidate) id c : index_by c_ID l !! id = Some c -> c_ID c = id.
Proof. by intros [_ Hid]%index_by_Some. Qed.

Lemma finish_keeps p w : Watch ∅ w -> Watch ∅ (finish_run env options p w).2.
Proof.
  intros Hw. assert (keeps (finish_run env options p)) as Hk.
  { unfold finish_run. cbn zeta. destruct (pa_results p) as [items|observations];
      [|apply apply_keeps, index_by_ids].
    unfold take_results. apply (keeps_bind _ _ _ (fun _ => Watch ∅)).
    - apply (triple_foldM _ (fun _ _ => Watch ∅)). intros visited item todo first _.
      apply result_keeps, index_by_ids.
    - intros [e|]; [by intros v Hv|apply keeps_ret]. }
  specialize (Hk w Hw). by destruct (finish_run _ _ _ _) as [[e|[]] w'].
Qed.

Lemma runs_keep passes w : Watch ∅ w -> Watch ∅ (runs env options passes w).
Proof.
  revert w. induction passes as [|p passes IH]; intros w Hw; [done|].
  apply IH, finish_keeps, Hw.
Qed.

(** C3.  A route is declared failed on confirmed failures only.  Over any runs of a monitor
    on any database that the store's operations have built, whatever the other writers
    do and becomes of its commits, and with any results of its probes: when the store
    takes a hard failure of a candidate, both checks of the observation had failed, and
    unless the monitor is told to confirm at once (or the start of the probe is not
    known), the store had taken an earlier observation of the candidate in which both
    had failed too, which was over when this probe began and not older than a proof may
    be, and it has taken none since in which a check succeeded.  And the controller
    hears of nothing else: an event in its mailbox tells the candidate, the times and
    the deadline of the failure that the store has just taken, before that deadline,
    and a placement is triggered only then. *)
Theorem hard_failure_is_confirmed passes history :
  let calls := mw_calls (runs env options passes
                 (started_monitor (ObservationRuns.observe history new_database))) in
  (forall earlier c x at_ later, calls = earlier ++ FailureCommitted c x at_ (inr true) :: later ->
     completeFailure (ob_observation x) = true /\
     (needs_confirmation options x = true -> has_suspect (c_ID c) x earlier)) /\
  (forall earlier event later, calls = earlier ++ FailurePublished event :: later ->
     published earlier event) /\
  (forall earlier later, calls = earlier ++ PlacementTriggered :: later -> triggered earlier).
Proof.
  intros calls.
  assert (Watch ∅ (runs env options passes
    (started_monitor (ObservationRuns.observe history new_database)))) as (_ & Hj & _).
  { apply runs_keep. split_and!; [by apply settles_observe|apply each_nil|].
    intros id t _ Ht. cbn in Ht. by rewrite lookup_empty in Ht. }
  split_and!.
  - intros earlier c x at_ later Hc. exact (Hj _ _ _ Hc).
  - intros earlier event later Hc. exact (Hj _ _ _ Hc).
  - intros earlier later Hc. exact (Hj _ _ _ Hc).
Qed.

(** ** What follows a confirmed failure *)

(** The calls that have to come at once. *)
Definition announcement (c : Candidate) (x : activeObservation) (at_ : Time) : list MonitorCall :=
  let trigger := if has_trigger options then [PlacementTriggered] else [] in
  if negb (has_hardFailures options) then trigger
  else match NewHardFailureEvent (c_ID c) (started x at_) at_ (HardFailureDeadline options) with
       | inl _ => []
       | inr event => FailurePublished event :: trigger
       end.

Definition announced (later : list MonitorCall) (c : Candidate) (x : activeObservation) (at_ : Time) :
    Prop :=
  exists message rest,
    later = EventAppended {| ev_Kind := "candidate_hard_failure"; ev_CandidateID := c_ID c;
                             ev_Message := message; ev_CreatedAt := at_ |} ::
            announcement c x at_ ++ rest.

Definition all_announced (calls : list MonitorCall) : Prop :=
  forall earlier c x at_ later, calls = earlier ++ FailureCommitted c x at_ (inr true) :: later ->
    announced later c x at_.

Lemma all_announced_app calls more : all_announced calls -> all_announced more ->
  all_announced (calls ++ more).
Proof.
  intros H1 H2 earlier c x at_ later Hc. apply app_eq_app in Hc as [l [[-> Hl]|[-> Hl]]].
  - destruct l as [|k l]; [by apply (H2 []); simpl in *|]. injection Hl as <- ->.
    destruct (H1 earlier c x at_ l eq_refl) as (message & rest & ->). exists message, (rest ++ more).
    cbn [app]. by rewrite <- app_assoc.
  - by eapply H2.
Qed.

(** A program that leaves no confirmed failure without what follows it. *)
Definition announces {A : Type} (m : Prog MonitorWorld MonitorError A) : Prop :=
  forall w, exists calls, mw_calls (m w).2 = mw_calls w ++ calls /\ all_announced calls.

Lemma announced_nil : all_announced [].
Proof. intros earlier c x at_ later Hc. by destruct earlier. Qed.

Lemma announced_one call : (forall c x at_, call <> FailureCommitted c x at_ (inr true)) ->
  all_announced [call].
Proof.
  intros Hn earlier c x at_ later Hc. exfalso. destruct earlier as [|k [|]]; [|discriminate..].
  injection Hc as Hc _. by eapply Hn.
Qed.

Lemma announces_quiet {A : Type} (m : Prog MonitorWorld MonitorError A) :
  (forall w, mw_calls (m w).2 = mw_calls w) -> announces m.
Proof. intros Hm w. exists []. rewrite app_nil_r. split; [apply Hm|apply announced_nil]. Qed.

Lemma announces_bind {A B : Type} (m : Prog MonitorWorld MonitorError A)
    (k : A -> Prog MonitorWorld MonitorError B) :
  announces m -> (forall a, announces (k a)) -> announces (bind m k).
Proof.
  intros Hm Hk w. destruct (Hm w) as (calls & H1 & H2). unfold bind.
  destruct (m w) as [[e|a] w1]; [by exists calls|]. destruct (Hk a w1) as (more & H3 & H4).
  exists (calls ++ more). cbn [snd] in *. rewrite H3, H1, <- app_assoc. split; [done|].
  by apply all_announced_app.
Qed.

Lemma announces_if {A : Type} (b : bool) (m n : Prog MonitorWorld MonitorError A) :
  announces m -> announces n -> announces (if b then m else n).
Proof. by destruct b. Qed.

Lemma announces_call {A : Type} (label : StoreError + A -> MonitorCall) (m : Outcome -> Time -> Tx A) :
  (forall answer c x at_, label answer <> FailureCommitted c x at_ (inr true)) ->
  announces (monitor_call env label m).
Proof.
  intros Hl w. exists [label (m (mo_outcome env (mw_calls w)) (mo_clock env (mw_calls w))
    (ObservationRuns.observe (mo_others env (mw_calls w)) (mw_db w))).1].
  split; [|by apply announced_one]. unfold monitor_call. by destruct (m _ _ _) as [[e|a] d].
Qed.

Lemma monitor_call_run {A : Type} (label : StoreError + A -> MonitorCall) (m : Outcome -> Time -> Tx A) w :
  exists r d, monitor_call env label m w =
    (match r with inl e => inl (MonitorStore e) | inr a => inr a end,
     called (label r) (w <| mw_db := d |>)).
Proof. unfold monitor_call. destruct (m _ _ _) as [r d]. by exists r, d. Qed.

Lemma announces_note call : (forall c x at_, call <> FailureCommitted c x at_ (inr true)) ->
  announces (note call).
Proof. intros Hn w. exists [call]. split; [done|by apply announced_one]. Qed.

Lemma announces_gone {A : Type} id (m : Prog MonitorWorld MonitorError A) :
  announces m -> announces (unless_gone id m).
Proof.
  intros Hm w. destruct (Hm w) as (calls & H1 & H2). exists calls. split; [|done].
  unfold unless_gone. destruct (m w) as [[[[]| |]|a] w']; exact H1.
Qed.

Lemma announces_fold {A B : Type} (f : B -> A -> Prog MonitorWorld MonitorError B) b l :
  (forall b x, announces (f b x)) -> announces (foldM f b l).
Proof.
  intros Hf. revert b. induction l as [|x l IH]; intros b; cbn [foldM]; [by apply announces_quiet|].
  apply announces_bind; [apply Hf|done].
Qed.

#[local] Hint Extern 1 (_ <> FailureCommitted _ _ _ _) => discriminate : hydrat.
Ltac announces := repeat first
  [ progress intros
  | solve [apply announces_quiet; intros; first [reflexivity|unfold change, clear, modify; reflexivity]]
  | solve [apply announces_note; auto with hydrat]
  | solve [apply announces_call; intros; auto with hydrat]
  | solve [auto with hydrat]
  | apply announces_gone
  | apply announces_fold
  | apply announces_bind
  | apply announces_if
  | match goal with |- announces (match ?x with _ => _ end) => destruct x end ].

Lemma announces_monitor {A : Type} (f : ActiveMonitor -> A * ActiveMonitor) : announces (in_monitor f).
Proof. apply announces_quiet. intros w. unfold in_monitor. by destruct (f _). Qed.
#[local] Hint Resolve announces_monitor : hydrat.

Lemma announces_signal there call : (forall c x at_, call <> FailureCommitted c x at_ (inr true)) ->
  announces (signal there call).
Proof. intros Hc. unfold signal. announces. Qed.

Lemma announces_confirm c x at_ preview dns :
  announces (confirm_failure env options (c_ID c) c x at_ preview dns).
Proof.
  intros w. unfold confirm_failure, unless_gone, commit_failure. unfold bind at 1.
  lazymatch goal with |- context [monitor_call env ?label ?m w] =>
    destruct (monitor_call_run label m w) as (r & d & E) end.
  rewrite E. destruct r as [e|b];
    [destruct e; (eexists [_]; split; [reflexivity|by apply announced_one])|].
  destruct b; [|eexists [_]; split; [reflexivity|by apply announced_one]].
  set (event := {| ev_Kind := "candidate_hard_failure"; ev_CandidateID := c_ID c;
                   ev_Message := failure_message options x dns; ev_CreatedAt := at_ |}).
  exists (FailureCommitted c x at_ (inr true) :: EventAppended event :: announcement c x at_). split.
  - unfold announcement, publish_failure, signal, append_event, change, started.
    destruct dns, (negb (has_hardFailures options)), (has_trigger options);
      try destruct (NewHardFailureEvent _ _ _ _) as [e|ev];
      cbn; unfold called; cbn; by rewrite <- ?app_assoc.
  - intros earlier c' x' t later Hc. destruct earlier as [|k [|k' earlier]].
    + injection Hc as <- <- <- <-. exists (failure_message options x dns), []. by rewrite app_nil_r.
    + by injection Hc.
    + injection Hc as _ _ Hc. exfalso. revert Hc. unfold announcement.
      destruct (has_hardFailures options), (has_trigger options), (NewHardFailureEvent _ _ _ _);
        cbn; by destruct earlier as [|? [|? []]].
Qed.
#[local] Hint Resolve announces_signal : hydrat.

Lemma announces_conclude id c row x since at_ t dns : c_ID c = id ->
  announces (conclude env options id c row x since at_ t dns).
Proof.
  intros <-. unfold conclude. destruct (Health.ReadState _ _) as [state preview].
  apply announces_if; [apply announces_confirm|].
  unfold record_outcome, recover_domain. cbn zeta. announces.
Qed.

Lemma announces_judge id c row x at_ t : c_ID c = id -> announces (judge env options id c row x at_ t).
Proof.
  intros Hc. pose proof (fun since dns => announces_conclude id c row x since at_ t dns Hc) as Hconclude.
  unfold judge, suspect_failure, append_event. cbn zeta. announces.
Qed.

Lemma announces_one now rows candidates id x :
  (forall id c, candidates !! id = Some c -> c_ID c = id) ->
  announces (observe_one env options now rows candidates id x).
Proof.
  intros Hids. unfold observe_one, clear. cbn zeta. destruct (rows !! id) as [row|]; [|announces].
  destruct (candidates !! id) as [c|] eqn:Ec; [|announces]. apply Hids in Ec.
  pose proof (fun at_ t => announces_judge id c row x at_ t Ec) as Hjudge.
  unfold superseded, current_tracker. announces.
Qed.

Lemma announces_apply now observations candidates :
  (forall id c, candidates !! id = Some c -> c_ID c = id) ->
  announces (applyReservedObservations env options now observations candidates).
Proof.
  intros Hids w0. unfold applyReservedObservations.
  assert (announces (apply_all env options now observations candidates)) as Ha.
  { unfold apply_all, forM. announces. by apply announces_one. }
  match goal with |- context [apply_all _ _ _ _ _ ?v] => destruct (Ha v) as (calls & H1 & H2) end.
  destruct (apply_all _ _ _ _ _ _) as [r w']. cbn [snd] in *. cbn [mw_calls] in H1.
  destruct (mw_capacity w' && has_capacityChanges options); [|by exists calls].
  exists (calls ++ [CapacitySignalled]). unfold called. cbn. rewrite H1, <- app_assoc. split; [done|].
  apply all_announced_app; [done|by apply announced_one].
Qed.

Lemma announces_run p : announces (finish_run env options p).
Proof.
  unfold finish_run. cbn zeta. destruct (pa_results p) as [items|observations];
    [|apply announces_apply, index_by_ids].
  unfold take_results. apply announces_bind; [|intros []; by announces].
  apply announces_fold. intros first item. unfold take_result. cbn zeta.
  destruct (ar_error item) as [[|]|]; [unfold clear; announces..|].
  apply announces_if; [announces|]. intros w.
  destruct (announces_apply (pa_now p) [(ar_candidateID item, ar_observed item)]
    (index_by c_ID (pa_candidates p)) (index_by_ids _) w) as (calls & H1 & H2).
  exists calls. destruct (applyReservedObservations _ _ _ _ _ _) as [[e|[]] w']; by split.
Qed.

Lemma runs_announce passes w : all_announced (mw_calls w) ->
  all_announced (mw_calls (runs env options passes w)).
Proof.
  revert w. induction passes as [|p passes IH]; intros w Hw; [done|]. apply IH.
  destruct (announces_run p w) as (calls & -> & Ha). by apply all_announced_app.
Qed.

(** C10.  A confirmed failure is announced at once.  Whenever, over any runs from any world,
    the store takes a hard failure of a candidate, the very next call writes the event
    that tells it; then, when the monitor has a mailbox and the deadline of the failure
    has not passed yet, the failure is published to the controller; and then a
    placement is triggered (a failure that is found after its deadline ends the run
    with an error instead). *)
Theorem confirmed_failure_is_announced passes d mail earlier c x at_ later :
  mw_calls (runs env options passes {| mw_db := d; mw_monitor := new_monitor; mw_mail := mail;
                                       mw_capacity := false; mw_calls := [] |}) =
    earlier ++ FailureCommitted c x at_ (inr true) :: later ->
  announced later c x at_.
Proof.
  intros Hc. eapply (runs_announce passes); [|exact Hc]. apply announced_nil.
Qed.
End Confirmation.
