(* ===== verification/ActiveMonitorRuns.v ===== *)
(** A failure on the small database, from the first suspicion to the event in the
    mailbox; the mailbox (controller/hard_failure_event.go) as a queue of which the
    most urgent event is kept; and the latch that tells whether the controller is ready
    (controller/readiness.go). *)
From Stdlib Require Import Floats.
From S2P Require Health QoE.
From S2P Require Import Prelude Effects GoOrder GoFloat GoStrings GoSort DataPlan Handlers StoreTables StoreLogic StoreSample RouteRecovery CandidateState Observations ObservationRuns ObservationSafety FailedRoutes ActiveMonitor ActiveMonitorSafety.

#[local] Open Scope Z_scope.
#[local] Open Scope effect_scope.

(** ** On the small database *)

(** [cand_a] is known, assigned to the client and qualified. *)
Definition known_history : list (Outcome * ObservationOp) :=
  [(Commits, OpElsewhere (fun _ => stored_database false));
   (Commits, OpHealthResult observed_candidate (Some (zero_health <| hl_CandidateID := "cand_a"%string |>
      <| hl_TCPQualified := true |> <| hl_UDPQualified := true |> <| hl_Available := true |>
      <| hl_UpdatedAt := of_unix 90 |>)) None)].

Definition reserve_cand_a (now : Z) : list (Outcome * ObservationOp) :=
  [(Commits, OpReserve now [{| rq_Candidate := observed_candidate; rq_Stage := ObservationActive |}])].

(** A probe is reserved before either run. *)
Definition small_monitor_env : MonitorEnv := {|
  mo_outcome := fun _ => Commits;
  mo_others := fun calls => match length calls with
                            | 0%nat => reserve_cand_a 100
                            | 3%nat => reserve_cand_a 102
                            | _ => []
                            end;
  mo_mail := fun _ m => m;
  mo_clock := fun _ => of_unix 103 |}.

Definition small_monitor_options : MonitorOptions := {|
  ProofFreshness := 5 * second; HardFailureDeadline := 3 * second;
  ConfirmCompleteFailureInCycle := false; AvailabilityFailureThreshold := 2;
  AvailabilityFailureFreshness := 6 * second; has_trigger := true; has_hardFailures := true;
  has_promotions := true; has_capacityChanges := true |}.

Definition dead : Health.Observation := {|
  Health.PrimaryOK := false; Health.ConfirmationOK := false; Health.PrimaryFailure := "timeout";
  Health.ConfirmationFailure := "http_503"; Health.PrimaryElapsedMS := 900;
  Health.ConfirmationElapsedMS := 40 |}.

Definition dead_at (sequence at_ : Z) : activeObservation := {|
  ob_observation := dead; ob_availability := None;
  ob_reservation := reservation observed_candidate ObservationActive sequence 0;
  ob_probeStartedAt := of_unix at_; ob_completedAt := of_unix (at_ + 1);
  ob_promoteOnSuccess := false; ob_proofFreshAfter := zero_time |}.

Definition dead_run (sequence at_ : Z) : Pass := {|
  pa_now := of_unix at_; pa_candidates := [observed_candidate];
  pa_results := inl [{| ar_candidateID := "cand_a"; ar_error := None; ar_infrastructure := false;
                        ar_observed := dead_at sequence at_ |}] |}.

Definition small_monitor_run : MonitorWorld :=
  runs small_monitor_env small_monitor_options [dead_run 1 100; dead_run 2 102]
    (started_monitor (ObservationRuns.observe known_history new_database)).

Definition small_event : HardFailureEvent := {|
  hf_CandidateID := "cand_a"; hf_ProbeStartedAt := of_unix 102; hf_DetectedAt := of_unix 103;
  hf_Deadline := of_unix 105 |}.

Definition failure_event : Event := {|
  ev_Kind := "candidate_hard_failure"; ev_CandidateID := "cand_a";
  ev_Message := "primary and confirmation liveness checks failed; primary=timeout/900ms confirmation=http_503/40ms";
  ev_CreatedAt := of_unix 103 |}.

(** The calls of the second run, after those of the first. *)
Example small_monitor_calls :
  drop 4 (mw_calls small_monitor_run) =
    [FailureCommitted observed_candidate (dead_at 2 102) (of_unix 103) (inr true);
     EventAppended failure_event; FailurePublished small_event; PlacementTriggered] /\
  pending (mw_mail small_monitor_run) = Some small_event /\
  hardFailureSuspects (mw_monitor small_monitor_run) = ∅.
Proof. vm_compute. split_and!; reflexivity. Qed.

Definition small_first_calls : list MonitorCall := take 4 (mw_calls small_monitor_run).

Lemma small_monitor_failure :
  mw_calls small_monitor_run = small_first_calls ++
    FailureCommitted observed_candidate (dead_at 2 102) (of_unix 103) (inr true) ::
    [EventAppended failure_event; FailurePublished small_event; PlacementTriggered].
Proof.
  unfold small_first_calls. rewrite <- (take_drop 4 (mw_calls small_monitor_run)) at 1.
  by rewrite (proj1 small_monitor_calls).
Qed.

Lemma hard_failure_is_confirmed_witness :
  has_suspect small_monitor_options "cand_a" (dead_at 2 102) small_first_calls.
Proof.
  destruct (hard_failure_is_confirmed small_monitor_env small_monitor_options
    [dead_run 1 100; dead_run 2 102] known_history) as [Hc _].
  destruct (Hc _ _ _ _ _ small_monitor_failure) as [_ Hs]. apply Hs. reflexivity.
Defined.

Lemma confirmed_failure_is_announced_witness :
  announced small_monitor_options [EventAppended failure_event; FailurePublished small_event; PlacementTriggered]
    observed_candidate (dead_at 2 102) (of_unix 103).
Proof.
  apply (confirmed_failure_is_announced small_monitor_env small_monitor_options
    [dead_run 1 100; dead_run 2 102] (ObservationRuns.observe known_history new_database)
    NewHardFailureMailbox small_first_calls).
  exact small_monitor_failure.
Defined.

(** ** The mailbox *)

Inductive MailOp :=
  | MailPublish (event : HardFailureEvent)
  (** the reader waits on [Wake] and then takes what is there *)
  | MailReceive.

(** What a receive hands over, when the channel is full. *)
Definition receive (m : HardFailureMailbox) : option HardFailureEvent * HardFailureMailbox :=
  let '(woken, m) := Woken m in if woken then Pop m else (None, m).

Definition mail_step (op : MailOp) (m : HardFailureMailbox) :
    option HardFailureEvent * HardFailureMailbox :=
  match op with
  | MailPublish event => (None, Publish event m)
  | MailReceive => receive m
  end.

Fixpoint mail_run (ops : list MailOp) (m : HardFailureMailbox) :
    list (option HardFailureEvent) * HardFailureMailbox :=
  match ops with
  | [] => ([], m)
  | op :: ops =>
      let '(answer, m) := mail_step op m in
      let '(answers, m) := mail_run ops m in (answer :: answers, m)
  end.

(** The reference: all events that wait, in the order of their publication; a receive
    takes them all and answers with the most urgent one, the first of them. *)
Definition most_urgent (waiting : list HardFailureEvent) : option HardFailureEvent :=
  fold_left (fun best event =>
    match best with
    | Some b => if before (hf_Deadline event) (hf_Deadline b) then Some event else best
    | None => Some event
    end) waiting None.

Definition queue_step (op : MailOp) (waiting : list HardFailureEvent) :
    option HardFailureEvent * list HardFailureEvent :=
  match op with
  | MailPublish event => (None, if time_is_zero (hf_Deadline event) then waiting else waiting ++ [event])
  | MailReceive => (most_urgent waiting, [])
  end.

Fixpoint queue_run (ops : list MailOp) (waiting : list HardFailureEvent) :
    list (option HardFailureEvent) * list HardFailureEvent :=
  match ops with
  | [] => ([], waiting)
  | op :: ops =>
      let '(answer, waiting) := queue_step op waiting in
      let '(answers, waiting) := queue_run ops waiting in (answer :: answers, waiting)
  end.

Lemma most_urgent_snoc waiting event :
  most_urgent (waiting ++ [event]) =
    match most_urgent waiting with
    | Some b => if before (hf_Deadline event) (hf_Deadline b) then Some event else Some b
    | None => Some event
    end.
Proof. unfold most_urgent. rewrite fold_left_app. cbn. by destruct (fold_left _ _ _). Qed.

Lemma most_urgent_spec waiting :
  match most_urgent waiting with
  | None => waiting = []
  | Some e => exists earlier later, waiting = earlier ++ e :: later /\
      Forall (fun x => hf_Deadline e < hf_Deadline x) earlier /\
      Forall (fun x => hf_Deadline e <= hf_Deadline x) later
  end.
Proof.
  induction waiting as [|x waiting IH] using rev_ind; [done|]. rewrite most_urgent_snoc.
  destruct (most_urgent waiting) as [e|]; [|subst; by exists [], []].
  destruct IH as (earlier & later & -> & H1 & H2). unfold before.
  destruct (hf_Deadline x <? hf_Deadline e) eqn:E; z_bool.
  - exists (earlier ++ e :: later), []. split_and!; [done| |done]. apply Forall_app. split.
    + eapply Forall_impl; [exact H1|]. cbn beta. lia.
    + constructor; [done|]. eapply Forall_impl; [exact H2|]. cbn beta. lia.
  - exists earlier, (later ++ [x]). rewrite <- app_assoc. split_and!; [done..|].
    apply Forall_app. by split; [|repeat constructor].
Qed.

(** The mailbox stands for the events that wait: it holds the most urgent one, and when
    there is one, the reader will be woken. *)
Definition holds (m : HardFailureMailbox) (waiting : list HardFailureEvent) : Prop :=
  pending m = most_urgent waiting /\ (wake m = false -> waiting = []).

Lemma mail_refines op m waiting : holds m waiting ->
  (mail_step op m).1 = (queue_step op waiting).1 /\
  holds (mail_step op m).2 (queue_step op waiting).2.
Proof.
  intros [Hp Hw]. destruct op as [event|]; cbn.
  - unfold Publish. destruct (time_is_zero _); [by split|]. split; [done|]. split; [|done]. cbn.
    by rewrite most_urgent_snoc, Hp.
  - unfold receive, Woken, Pop. destruct (wake m) eqn:E; cbn.
    + destruct (pending m) as [e|] eqn:Ep; cbn; by rewrite <- Hp.
    + specialize (Hw eq_refl). subst waiting. split; [done|]. split; [exact Hp|done].
Qed.

(** The mailbox coalesces failures without losing urgency.  For every sequence of
    publications and receives it answers as the queue would from which a receive takes
    everything and keeps the event with the earliest deadline, the first published of
    these; what waits at the end is held in the same sense, and as long as something
    waits the reader finds the channel full: no wake-up is lost. *)
Theorem mailbox_keeps_most_urgent ops :
  (mail_run ops NewHardFailureMailbox).1 = (queue_run ops []).1 /\
  let m := (mail_run ops NewHardFailureMailbox).2 in
  let waiting := (queue_run ops []).2 in
  (wake m = false -> waiting = []) /\
  match pending m with
  | None => waiting = []
  | Some e => exists earlier later, waiting = earlier ++ e :: later /\
      Forall (fun x => hf_Deadline e < hf_Deadline x) earlier /\
      Forall (fun x => hf_Deadline e <= hf_Deadline x) later
  end.
Proof.
  assert (forall m waiting, holds m waiting ->
    (mail_run ops m).1 = (queue_run ops waiting).1 /\
    holds (mail_run ops m).2 (queue_run ops waiting).2) as H.
  { induction ops as [|op ops IH]; intros m waiting Hm; [by split|]. cbn [mail_run queue_run].
    destruct (mail_refines op m waiting Hm) as [H1 H2].
    destruct (mail_step op m) as [a m1], (queue_step op waiting) as [b waiting1]. cbn [fst snd] in *.
    subst b. destruct (IH m1 waiting1 H2) as [H3 H4].
    destruct (mail_run ops m1), (queue_run ops waiting1). cbn [fst snd] in *. by rewrite H3. }
  destruct (H NewHardFailureMailbox [] ltac:(by split)) as [H1 [H2 H3]].
  cbn zeta. split_and!; [done..|]. rewrite H2. apply most_urgent_spec.
Qed.

(** ** Readiness *)

Inductive ReadinessReason := ControllerStarting | OtherReason (reason : string).

(** The sequence is a 64-bit counter. *)
Record ReadinessLatch := {
  rl_err : option ReadinessReason;
  rl_unreadySince : Time;
  rl_sequence : Z
}.

Definition NewReadinessLatch (now : Time) : ReadinessLatch :=
  {| rl_err := Some ControllerStarting; rl_unreadySince := now; rl_sequence := 0 |}.

Definition next_sequence (n : Z) : Z := (n + 1) `mod` 2 ^ 64.

(** No error stands for the start. *)
Definition Unready (now : Time) (err : option ReadinessReason) (l : ReadinessLatch) : ReadinessLatch :=
  let err := default ControllerStarting err in
  match rl_err l with
  | None => {| rl_err := Some err; rl_unreadySince := now; rl_sequence := next_sequence (rl_sequence l) |}
  | Some _ => {| rl_err := Some err; rl_unreadySince := rl_unreadySince l; rl_sequence := rl_sequence l |}
  end.

Definition Ready (l : ReadinessLatch) : ReadinessLatch :=
  {| rl_err := None; rl_unreadySince := rl_unreadySince l;
     rl_sequence := match rl_err l with
                    | Some _ => next_sequence (rl_sequence l)
                    | None => rl_sequence l
                    end |}.

(** [Health]: the caller's own error comes first. *)
Definition latch_health (ctx : option ReadinessReason) (l : ReadinessLatch) : option ReadinessReason :=
  match ctx with Some e => Some e | None => rl_err l end.

Inductive LatchOp := LatchUnready (now : Time) (err : option ReadinessReason) | LatchReady.

Definition latch_step (l : ReadinessLatch) (op : LatchOp) : ReadinessLatch :=
  match op with LatchUnready now err => Unready now err l | LatchReady => Ready l end.

(** Since when the controller is not ready: the first report of the outage. *)
Fixpoint outage_since (start : Time) (down : bool) (ops : list LatchOp) : option Time :=
  match ops with
  | [] => if down then Some start else None
  | LatchReady :: ops => outage_since start false ops
  | LatchUnready now _ :: ops => outage_since (if down then start else now) true ops
  end.

(** The latch is down since [start], or up. *)
Definition latch_is (down : bool) (start : Time) (l : ReadinessLatch) : Prop :=
  (if down then rl_unreadySince l = start /\ is_Some (rl_err l) else rl_err l = None) /\
  Z.even (rl_sequence l) = down /\ 0 <= rl_sequence l < 2 ^ 64.

Lemma next_sequence_ok n : Z.even (next_sequence n) = negb (Z.even n) /\ 0 <= next_sequence n < 2 ^ 64.
Proof.
  split; [|by apply Z.mod_pos_bound]. unfold next_sequence. rewrite (Z.mod_eq _ (2 ^ 64)) by lia.
  rewrite Z.even_sub, Z.even_mul, Z.even_add. cbn. by destruct (Z.even n).
Qed.

Lemma latch_step_ok op l down start : latch_is down start l ->
  match op with
  | LatchUnready now _ => latch_is true (if down then start else now) (latch_step l op)
  | LatchReady => latch_is false start (latch_step l op)
  end.
Proof.
  intros (Hl & He & Hb). destruct (next_sequence_ok (rl_sequence l)) as [Hn Hr].
  destruct down; [destruct Hl as [Hs [e Hl]]|]; destruct op as [now err|]; cbn [latch_step];
    unfold Unready, Ready, latch_is; rewrite Hl; cbn; rewrite ?Hn, ?He; split_and!; try (done || lia); eauto.
Qed.

(** What the latch tells is what it was last told, since the first report of the
    outage; its sequence is even exactly while it is down. *)
Lemma latch_since ops l down start : latch_is down start l ->
  exists down' start', latch_is down' start' (fold_left latch_step ops l) /\
    outage_since start down ops = if down' then Some start' else None.
Proof.
  revert l down start. induction ops as [|op ops IH]; intros l down start Hl; [by exists down, start|].
  apply (latch_step_ok op) in Hl. destruct op as [now err|]; exact (IH _ _ _ Hl).
Qed.

Theorem latch_tells_outages started_at ops :
  let l := fold_left latch_step ops (NewReadinessLatch started_at) in
  outage_since started_at true ops =
    (if latch_health None l then Some (rl_unreadySince l) else None) /\
  (Z.even (rl_sequence l) = true <-> latch_health None l <> None).
Proof.
  cbn zeta. destruct (latch_since ops (NewReadinessLatch started_at) true started_at)
    as (down & start & (Hl & He & _) & Ho); [by split_and!; eauto|].
  unfold latch_health. rewrite Ho, He. destruct down; [destruct Hl as [<- [e ->]]|rewrite Hl]; naive_solver.
Qed.
