(* ===== verification/ActiveTargets.v ===== *)
(** Which routes the active monitor probes (controller/engine_candidates.go
    [ActiveTargets], [bootstrapActiveTargets], [qualityChallengers]), and whether a
    failure waits for the controller ([HasFreshAssignedHardFailure],
    [HasStartupHardFailure]).

    The programs run in the world of a cycle (EngineCycle.v); the read view of the
    scheduler takes the place of the preview. *)
From Stdlib Require Import Floats.
From S2P Require Import Prelude Effects GoOrder GoFloat GoStrings GoSort QoE DataPlan DataChange Gateway Handlers XrayConfig PlacementQueue StoreTables RouteRecovery CandidateState PlanStore RoutingSnapshot PlanStoreRuns.
From S2P Require EnginePublish CoveragePlan.
From S2P Require Import RouteCandidates PlanRendering SchedLoad SchedState SchedReserves Scheduling PlanningKey Coverage CoverageSearch Reservations EngineCycle HardFailure.

#[local] Open Scope Z_scope.
#[local] Open Scope effect_scope.

(** ** Data *)

(** [RoleUnset] is the empty string of a target that was not filled in. *)
Inductive ActiveTargetRole := RoleUnset | ActiveTargetCritical | ActiveTargetProspective.

#[export] Instance ActiveTargetRole_eq_dec : EqDecision ActiveTargetRole.
Proof. solve_decision. Defined.

Record ActiveTarget := {
  at_Candidate : StoreTables.Candidate;
  at_Role : ActiveTargetRole;
  at_TriggerPlacementOnSuccess : bool;
  at_ProofFreshAfter : Time
}.

#[export] Instance ActiveTarget_eta : Eta ActiveTarget := fun t =>
  Build_ActiveTarget (at_Candidate t) (at_Role t) (at_TriggerPlacementOnSuccess t) (at_ProofFreshAfter t).

Abbreviation Targets := (gmap string ActiveTarget) (only parsing).

Definition mergeActiveTargetRole (current incoming : ActiveTargetRole) : ActiveTargetRole :=
  match current, incoming with
  | ActiveTargetCritical, _ | _, ActiveTargetCritical => ActiveTargetCritical
  | _, RoleUnset => current
  | _, _ => incoming
  end.

(** What the engine reads before it looks at routes. *)
Record TargetInputs := {
  ti_clients : list ClientRecord;
  ti_assignments : list AssignmentRecord;
  ti_mappings : list RouteReserveMapping
}.

Section Inputs.
Context (options : EngineOptions) (i : TargetInputs).

Definition ti_client_by_id : gmap string ClientRecord := index_by cli_ID (ti_clients i).
Definition ti_assignment_by_client : gmap string AssignmentRecord :=
  index_by as_ClientID (ti_assignments i).
Definition ti_mapping_by_client : gmap string RouteReserveMapping := index_by rm_ClientID (ti_mappings i).

Definition mapping_candidates (m : RouteReserveMapping) : list string :=
  List.filter named [TCPPrimaryCandidateID m; TCPReserveCandidateID m; UDPPrimaryCandidateID m;
                     UDPReserveCandidateID m].

Definition references : gset string :=
  list_to_set (assigned_candidates (ti_assignments i) ++ flat_map mapping_candidates (ti_mappings i)).

Definition unassigned (client : ClientRecord) : bool :=
  match ti_assignment_by_client !! cli_ID client with
  | Some a => negb (named (as_TCPOutbound a)) || negb (named (as_UDPOutbound a))
  | None => true
  end.

Definition without_failover (client : ClientRecord) : bool :=
  match ti_mapping_by_client !! cli_ID client with
  | Some m =>
      negb (named (TCPPrimaryCandidateID m)) || negb (named (UDPPrimaryCandidateID m)) ||
      negb (named (TCPReserveCandidateID m)) || negb (named (UDPReserveCandidateID m)) ||
      str_eqb (TCPPrimaryCandidateID m) (TCPReserveCandidateID m) ||
      str_eqb (UDPPrimaryCandidateID m) (UDPReserveCandidateID m)
  | None => true
  end.

(** The loop ends at the first client without an assignment: is there one, and has an
    earlier client no complete failover? *)
Fixpoint scan_clients (incomplete : bool) (clients : list ClientRecord) : bool * bool :=
  match clients with
  | [] => (false, incomplete)
  | client :: rest =>
      if cl_paused (cli_row client) then scan_clients incomplete rest
      else if unassigned client then (true, incomplete)
      else scan_clients (incomplete || without_failover client) rest
  end.
End Inputs.

(** ** Targets *)

Definition zero_store_candidate : StoreTables.Candidate := {|
  c_ID := EmptyString; c_SourceID := EmptyString; c_Kind := EmptyString; c_Label := EmptyString;
  c_Fingerprint := EmptyString; c_RouteKey := EmptyString; c_FailureDomain := EmptyString;
  c_Enabled := false; c_SourcePosition := 0; c_Lifecycle := EmptyString; c_RetiredAt := None;
  c_DrainAfter := None; c_CreatedAt := 0; c_UpdatedAt := 0 |}.
Definition zero_target : ActiveTarget := {|
  at_Candidate := zero_store_candidate; at_Role := RoleUnset; at_TriggerPlacementOnSuccess := false;
  at_ProofFreshAfter := zero_time |}.

Section Targets.
Context (options : EngineOptions) (now : Time) (snapshot : RouteCandidateSnapshot).

(** An unknown candidate is no target. *)
Definition addTarget (id : string) (role : ActiveTargetRole) (promote : bool) (targets : Targets) :
    Targets :=
  match rowsByID snapshot !! id with
  | None => targets
  | Some row =>
      let t := default zero_target (targets !! id) in
      <[id := {| at_Candidate := row; at_Role := mergeActiveTargetRole (at_Role t) role;
                 at_TriggerPlacementOnSuccess := at_TriggerPlacementOnSuccess t || promote;
                 at_ProofFreshAfter :=
                   if 0 <? reserveActiveFreshness options
                   then time_add now (- reserveActiveFreshness options)
                   else at_ProofFreshAfter t |}]> targets
  end.

(** The routes that serve, and the applied reserves of the clients. *)
Definition critical_targets (i : TargetInputs) : Targets :=
  let targets := fold_left (fun targets a =>
    addTarget (as_UDPOutbound a) ActiveTargetCritical false
      (addTarget (as_TCPOutbound a) ActiveTargetCritical false targets)) (ti_assignments i) ∅ in
  fold_left (fun targets m =>
    if clientReservations options && negb (bool_decide (is_Some (ti_client_by_id i !! rm_ClientID m)))
    then targets
    else addTarget (UDPReserveCandidateID m) ActiveTargetCritical false
           (addTarget (TCPReserveCandidateID m) ActiveTargetCritical false targets)) (ti_mappings i) targets.

(** The candidates that may become a client's reserve: its own routes are among them. *)
Definition reserve_candidates (a : AssignmentRecord) : list Candidate :=
  fold_left (fun l id =>
    match allByID snapshot !! id with
    | Some c => if existsb (fun x => str_eqb (ID x) id) l then l else l ++ [c]
    | None => l
    end) [as_TCPOutbound a; as_UDPOutbound a] (placementCandidates snapshot).

Definition add_prospective (targets : Targets) (selected : ReserveSelection) : Targets :=
  fold_left (fun targets id =>
    match allByID snapshot !! id with
    | Some c => addTarget id ActiveTargetProspective (negb (ActiveEligible c) || negb (ActiveFresh c)) targets
    | None => targets
    end) [rs_TCP selected; rs_UDP selected] targets.

(** A clean window of quality is behind it. *)
Definition challenger (c : Candidate) : bool :=
  bool_decide (proto c = ProtocolVLESS) && TCPQualified c && negb (Retiring c) && negb (CircuitOpen c) &&
  bool_decide (QoEStatus c = StatusHealthy) && QoEFresh c && QoEPromotionReady c.

Definition challenger_less (a b : Candidate) : bool :=
  if negb (PrimFloat.eqb (QoEQuality a) (QoEQuality b)) then fgt (QoEQuality a) (QoEQuality b)
  else str_ltb (ID a) (ID b).

Definition qualityChallengers (candidates : list Candidate) (targets : Targets) (limit : Z) :
    list string :=
  let available := Z.min 2 (Z.max 0 (limit - Z.of_nat (size targets))) in
  map ID (take (Z.to_nat available) (sort_slice challenger_less
    (List.filter (fun c => negb (bool_decide (is_Some (targets !! ID c))) && challenger c) candidates))).

Definition sorted_targets (targets : Targets) : list ActiveTarget :=
  omap (fun id => targets !! id) (sort_strings (map fst (map_to_list targets))).
End Targets.

(** ** The engine *)

Section Engine.
Context `{JS : Json} `{PC : PlanCodec} `{VT : Vault} `{YC : EnginePublish.PayloadCodec}
  `{EN : Encoding} `{TX : TextLib} `{DC : DNSCodec} `{CC : ConfigCodec} `{NL : NetLib}
  `{XC : ExtraCodec} `{MR : MapRange}.
Context (env : CycleEnv) (options : EngineOptions).

Abbreviation limit := (critical_limit env).

Definition read_targets (now : Time) : Cycle TargetInputs :=
  clients <- store env ListClients ;;
  let clients := reservationRecords options clients now in
  assignments <- store env ListAssignments ;;
  mappings <- store env ListAppliedReserveMappings ;;
  let known a := bool_decide (is_Some (index_by cli_ID clients !! as_ClientID a)) in
  ret {| ti_clients := clients;
         ti_assignments := if clientReservations options then List.filter known assignments
                           else assignments;
         ti_mappings := mappings.2 |}.

Definition bootstrap_client (now : Time) (i : TargetInputs) (client : ClientRecord) : Client :=
  let a := default zero_record (ti_assignment_by_client i !! cli_ID client) in {|
    SchedLoad.Dormant := clientReservations options && negb (RouteReserved now client);
    PreserveTCP := false; PreserveUDP := false;
    AppliedReserve := from_option reservesForMapping zero_reserve (ti_mapping_by_client i !! cli_ID client);
    clientID := cli_ID client;
    LastTraffic := nullable_time (cl_last_traffic_at (cli_row client));
    assignment := {| TCP := as_TCPOutbound a; UDP := as_UDPOutbound a;
                     TCPSince := as_TCPSince a; UDPSince := as_UDPSince a |} |}.

(** The routes of a plan that would serve all clients: all of them are critical. *)
Definition bootstrapActiveTargets (now : Time) (i : TargetInputs) (snapshot : RouteCandidateSnapshot) :
    Cycle (list ActiveTarget) :=
  let clients := map (bootstrap_client now i)
                   (List.filter (fun c => negb (cl_paused (cli_row c))) (ti_clients i)) in
  serving <- placing_in_context env (servingPrimaries limit now PlacementPromotion snapshot
               (map snd (map_range 9 (allByID snapshot))) clients) ;;
  let (clients, candidates) := serving in
  pool <- covering env (CoveragePlan.cappedProspectiveScheduleCandidates (ce_bootstrap env)
            now clients candidates) ;;
  placement <- placing_in_context env (ScheduleContext now clients pool) ;;
  reserves <- foldM (fun m client =>
    selected <- placing_in_context env (SelectProspectiveReservesContext now (clientID client)
      (default no_assignment (Assignments placement !! clientID client)) pool (AppliedReserve client)) ;;
    ret (<[clientID client := selected]> m)) ∅ clients ;;
  missing <- placing_in_context env (validateProspectiveScheduledCriticalCapacity now limit clients pool
               (Assignments placement) reserves) ;;
  match missing with
  | Some e => raise (Covering (Incomplete e))
  | None =>
      foldM (fun targets id =>
        row <- required (rowsByID snapshot !! id) (store_failed CandidateInventoryChanged) ;;
        ret (targets ++ [{| at_Candidate := row; at_Role := ActiveTargetCritical;
          at_TriggerPlacementOnSuccess := false;
          at_ProofFreshAfter := if 0 <? reserveActiveFreshness options
                                then time_add now (- reserveActiveFreshness options) else zero_time |}]))
        [] (sort_strings (remove_dups (map ID pool)))
  end.

(** A cover that cannot exist does not keep the routes in use from being probed; a
    search that gave up does, when some client has no route. *)
Definition bootstrap_decides (blocked : bool) (e : CycleError) : bool :=
  blocked &&
  match e with
  | Covering (Incomplete e) => e_SearchExhausted e && (0 <? e_Evaluations e)
  | _ => true
  end.

Definition select_prospective (now : Time) (i : TargetInputs) (snapshot : RouteCandidateSnapshot)
    (targets : gmap string ActiveTarget) : Cycle (gmap string ActiveTarget) :=
  foldM (fun targets '(client, a) =>
    match ti_client_by_id i !! client with
    | None => ret targets
    | Some record =>
        if cl_paused (cli_row record) then ret targets
        else
          selected <- placing_in_context env (SelectProspectiveReservesContext now client
            {| TCP := as_TCPOutbound a; UDP := as_UDPOutbound a; TCPSince := zero_time;
               UDPSince := zero_time |}
            (reserve_candidates snapshot a)
            (from_option reservesForMapping zero_reserve (ti_mapping_by_client i !! client))) ;;
          ret (add_prospective options now snapshot targets selected)
    end) targets (map_range 10 (ti_assignment_by_client i)).

(** The routes in use, what may replace them, and what may challenge them. *)
Definition ordinary_targets (now : Time) (i : TargetInputs) (snapshot : RouteCandidateSnapshot) :
    Cycle (list ActiveTarget) :=
  targets <- select_prospective now i snapshot (critical_targets options now snapshot i) ;;
  let targets :=
    if 0 <? limit
    then fold_left (fun targets id => addTarget options now snapshot id ActiveTargetProspective true targets)
           (qualityChallengers (placementCandidates snapshot) targets limit) targets
    else targets in
  ret (sorted_targets targets).

Definition ActiveTargets_ (now : Time) (profiles : list Profile) : Cycle (list ActiveTarget) :=
  modify (fun w => w <| cy_preview := BeginPreview (EnginePublish.w_sched (cy_publish w)) |>) ;;;
  i <- read_targets now ;;
  let '(blocked, incomplete) := scan_clients i false (ti_clients i) in
  snapshot <- loadRouteCandidateSnapshot env options now (elements (references i)) profiles ;;
  if (0 <? limit) && (limit <? Z.of_nat (size (references i)))
  then bootstrapActiveTargets now i snapshot
  else if (0 <? limit) && (blocked || incomplete) then fun w =>
    match bootstrapActiveTargets now i snapshot w with
    | (inr targets, w) => (inr targets, w)
    | (inl e, w) => if bootstrap_decides blocked e then (inl e, w) else ordinary_targets now i snapshot w
    end
  else ordinary_targets now i snapshot.

(** ** Failures that wait *)

Definition HasFreshAssignedHardFailure (now : Time) : Cycle bool :=
  assignments <- store env ListAssignments ;;
  let assigned := assigned_candidates assignments in
  match assigned with
  | [] => ret false
  | _ =>
      rows <- store env ListCandidateHealth ;;
      ret (existsb (fun h => bool_decide (hl_CandidateID h ∈ assigned) && hl_ActiveCurrent h &&
             hl_ActiveHardFailure h &&
             activeObservationFresh now (hl_ActiveObservedAt h) (activeHardFailureFreshness options)) rows)
  end.

Definition HasStartupHardFailure (now : Time) : Cycle bool :=
  state <- store env LoadPlanState ;;
  if (AppliedGeneration state <? DesiredGeneration state) &&
     str_eqb (DesiredReason state) PlacementHardFailure
  then ret true
  else HasFreshAssignedHardFailure now.
End Engine.
