(* ===== verification/MonitorTargets.v ===== *)
(** The targets that a monitor holds (controller/active_targets.go): how they are
    planned and checked, how a snapshot follows the applied plan, and the cache that the
    runs of the monitor share.

    Planning reads the store and asks the engine in the world of a cycle; the cache is
    a state machine: its steps are what any number of runs do under its mutex at the
    same time, the plans and the reconciliations that they make of the store in between,
    and what every other writer does to that store. *)
From Stdlib Require Import Floats.
From S2P Require Import Prelude Effects GoOrder GoFloat GoStrings GoSort QoE DataPlan DataChange Gateway Handlers XrayConfig PlacementQueue StoreTables RouteRecovery CandidateState PlanStore RoutingSnapshot PlanStoreRuns.
From S2P Require EnginePublish CoveragePlan Inventory.
From S2P Require Import RouteCandidates PlanRendering SchedLoad SchedState SchedReserves Scheduling PlanningKey Coverage CoverageSearch Reservations EngineCycle HardFailure ActiveTargets.

#[local] Open Scope Z_scope.
#[local] Open Scope effect_scope.

(** ** Data *)

Record activeTargetSnapshot := { ts_targets : list ActiveTarget; ts_appliedGeneration : Z }.

Inductive TargetsError :=
  | TargetsFailed (e : CycleError)
  | CriticalCoverageExceeded (critical limit : Z)
  | RunCanceled.

(** ** Checks *)

Definition target_id (t : ActiveTarget) : string := c_ID (at_Candidate t).

(** A target without a role is critical, unless a success of it triggers a
    placement. *)
Definition role_of (t : ActiveTarget) : ActiveTargetRole :=
  match at_Role t with
  | RoleUnset => if at_TriggerPlacementOnSuccess t then ActiveTargetProspective else ActiveTargetCritical
  | role => role
  end.

Definition roles_of (targets : list ActiveTarget) : gmap string ActiveTargetRole :=
  fold_left (fun roles t =>
    let id := target_id t in
    if named id
    then <[id := mergeActiveTargetRole (default RoleUnset (roles !! id)) (role_of t)]> roles
    else roles) targets ∅.

Definition critical_count (targets : list ActiveTarget) : Z :=
  Z.of_nat (length (List.filter (fun '(_, role) => bool_decide (role = ActiveTargetCritical))
                      (map_to_list (roles_of targets)))).

Definition validateActiveTargets (limit : Z) (targets : list ActiveTarget) : option TargetsError :=
  if limit <=? 0 then None
  else
    let critical := critical_count targets in
    if limit <? critical then Some (CriticalCoverageExceeded critical limit) else None.

(** ** Following the applied plan *)

Definition mapped_candidates (assignments : list AssignmentRecord) (mappings : list RouteReserveMapping) :
    gset string :=
  list_to_set (assigned_candidates assignments ++ flat_map mapping_candidates mappings).

(** Routes of the plan become critical; those that left it, and those without a role,
    become prospective. *)
Definition follow_plan (critical : gset string) (t : ActiveTarget) : ActiveTarget :=
  let id := target_id t in
  if negb (named id) then t
  else if bool_decide (id ∈ critical)
  then t <| at_Role := ActiveTargetCritical |> <| at_TriggerPlacementOnSuccess := false |>
  else match at_Role t with
       | ActiveTargetProspective => t
       | _ => t <| at_Role := ActiveTargetProspective |>
       end.

Definition missing_targets (critical : gset string) (targets : list ActiveTarget) : gset string :=
  critical ∖ list_to_set (map target_id targets).

Definition new_target (c : StoreTables.Candidate) : ActiveTarget := {|
  at_Candidate := c; at_Role := ActiveTargetCritical; at_TriggerPlacementOnSuccess := false;
  at_ProofFreshAfter := zero_time |}.

(** The routes of the plan that were missing; none when one cannot be found. *)
Definition add_missing (critical : gset string) (targets : list ActiveTarget)
    (found : list StoreTables.Candidate) : option (list ActiveTarget) :=
  let added := List.filter (fun c => bool_decide (c_ID c ∈ critical)) found in
  if bool_decide (missing_targets critical targets ⊆ list_to_set (map c_ID added))
  then Some (targets ++ map new_target added) else None.

Section Planning.
Context `{JS : Json} `{PC : PlanCodec} `{VT : Vault} `{YC : EnginePublish.PayloadCodec}
  `{EN : Encoding} `{TX : TextLib} `{DC : DNSCodec} `{CC : ConfigCodec} `{NL : NetLib}
  `{XC : ExtraCodec} `{MR : MapRange}.
Context (env : CycleEnv) (criticalLimit : Z).
(** the provider of targets: the engine's [ActiveTargets] in production *)
Context (provider : Time -> Cycle (list ActiveTarget)).

Abbreviation Planning A := (Prog CycleWorld TargetsError A).

Definition engine {A : Type} (m : Cycle A) : Planning A := fun w =>
  match m w with
  | (inl e, w) => (inl (TargetsFailed e), w)
  | (inr a, w) => (inr a, w)
  end.

(** The monitor does not hold the gate of the cycles: any writer of the store may come
    before a query of it, the one that applies plans too. *)
Definition ask_store {A : Type} (m : Outcome -> Tx A) : Planning A := fun w =>
  let p := cy_publish w in
  let d := PlanStoreRuns.run (EnginePublish.others (ce_publish env) (EnginePublish.w_calls p)) (EnginePublish.w_db p) in
  let '(r, d) := m (EnginePublish.outcome (ce_publish env) (EnginePublish.w_calls p)) d in
  let called ok := {| EnginePublish.w_db := d; EnginePublish.w_sched := EnginePublish.w_sched p;
                      EnginePublish.w_calls := EnginePublish.w_calls p ++ [EnginePublish.CallStore ok] |} in
  match r with
  | inl e => (inl (TargetsFailed (store_failed e)), w <| cy_publish := called false |>)
  | inr a => (inr a, w <| cy_publish := called true |>)
  end.

Definition changed : TargetsError := TargetsFailed (store_failed CandidateInventoryChanged).

Definition validated (targets : list ActiveTarget) : Planning unit :=
  match validateActiveTargets criticalLimit targets with
  | Some e => raise e
  | None => ret tt
  end.

(** Both states are read, whatever the provider answers; its error counts first. *)
Definition planActiveTargets (now : Time) : Planning activeTargetSnapshot :=
  before <- ask_store LoadPlanState ;;
  fun w =>
    let '(targets, w) := engine (provider now) w in
    let '(after, w) := ask_store LoadPlanState w in
    (targets <- StoreTables.lift targets ;;
     after <- StoreTables.lift after ;;
     check (AppliedGeneration before =? AppliedGeneration after) changed ;;;
     validated targets ;;;
     ret {| ts_targets := targets; ts_appliedGeneration := AppliedGeneration after |}) w.

Definition appliedCriticalTargets : Planning (Z * gset string) :=
  before <- ask_store LoadPlanState ;;
  assignments <- ask_store ListAssignments ;;
  mappings <- ask_store ListAppliedReserveMappings ;;
  after <- ask_store LoadPlanState ;;
  check ((AppliedGeneration before =? AppliedGeneration after) &&
         (mappings.1 =? AppliedGeneration after)) changed ;;;
  ret (AppliedGeneration after, mapped_candidates assignments mappings.2).

(** The snapshot after the plan that is applied now; none when that is still its plan. *)
Definition follow_applied (s : activeTargetSnapshot) : Planning (option activeTargetSnapshot) :=
  state <- ask_store LoadPlanState ;;
  if AppliedGeneration state =? ts_appliedGeneration s then ret None
  else
    applied <- appliedCriticalTargets ;;
    let '(generation, critical) := applied in
    let targets := map (follow_plan critical) (ts_targets s) in
    let missing := missing_targets critical targets in
    targets <- (if bool_decide (missing = ∅) then ret targets
                else
                  found <- ask_store (fun o => Inventory.ListRoutableCandidates o (elements missing)) ;;
                  required (add_missing critical targets found) changed) ;;
    validated targets ;;;
    ret (Some {| ts_targets := targets; ts_appliedGeneration := generation |}).

(** What a run works with. *)
Definition reconcile_snapshot (s : activeTargetSnapshot) : Planning activeTargetSnapshot :=
  followed <- follow_applied s ;; ret (default s followed).
End Planning.

(** ** The cache *)

(** [tc_done] is the channel that the planner will close. *)
Record TargetCache := {
  tc_ready : bool;
  tc_snapshot : activeTargetSnapshot;
  tc_planning : bool;
  tc_done : option nat;
  tc_err : option TargetsError
}.

Definition empty_cache : TargetCache := {|
  tc_ready := false; tc_snapshot := {| ts_targets := []; ts_appliedGeneration := 0 |};
  tc_planning := false; tc_done := None; tc_err := None |}.

#[export] Instance TargetCache_eta : Eta TargetCache := fun c =>
  Build_TargetCache (tc_ready c) (tc_snapshot c) (tc_planning c) (tc_done c) (tc_err c).

(** What a run finds when it asks for targets: a snapshot, and whether it has to refresh
    it; a plan of somebody else to wait for; or that it has to plan first. *)
Inductive Entry :=
  | UseCached (s : activeTargetSnapshot) (refresh : bool)
  | WaitFor (channel : nat)
  | PlanFirst.

(** [fresh] is the channel that is made. *)
Definition enter (fresh : nat) (c : TargetCache) : Entry * TargetCache :=
  let plan := c <| tc_planning := true |> <| tc_done := Some fresh |> in
  if tc_ready c then
    if tc_planning c then (UseCached (tc_snapshot c) false, c) else (UseCached (tc_snapshot c) true, plan)
  else if tc_planning c then
    (* Planning has a channel. *)
    match tc_done c with Some channel => (WaitFor channel, c) | None => (PlanFirst, c) end
  else (PlanFirst, plan).

(** The channel to close; closing none or one twice panics. *)
Definition finishTargetPlanning (result : TargetsError + activeTargetSnapshot) (c : TargetCache) :
    option nat * TargetCache :=
  let c := match result with
           | inr s =>
               if negb (tc_ready c) || (ts_appliedGeneration (tc_snapshot c) <=? ts_appliedGeneration s)
               then c <| tc_snapshot := s |> <| tc_ready := true |> else c
           | inl _ => c
           end in
  (tc_done c, c <| tc_err := match result with inl e => Some e | inr _ => None end |>
                <| tc_planning := false |> <| tc_done := None |>).

(** A waiter that was woken. *)
Definition awake (c : TargetCache) : option TargetsError + activeTargetSnapshot :=
  if tc_ready c then inr (tc_snapshot c) else inl (tc_err c).

(** A snapshot that followed the plan takes the place of the one it was made from. *)
Definition keep_reconciled (old new : activeTargetSnapshot) (c : TargetCache) : TargetCache :=
  if tc_ready c && (ts_appliedGeneration (tc_snapshot c) =? ts_appliedGeneration old)
  then c <| tc_snapshot := new |> else c.

(** ** Runs at the same time *)

(** A run of the monitor: it waits for a first plan, makes that plan, holds a snapshot
    that it has yet to reconcile, has one that followed the plan and is not in the cache
    yet, probes, or is over.  While it has a snapshot its own refresh may be under way,
    for which it waits at its end. *)
Inductive RunState :=
  | Waiting (channel : nat)
  | PlanningFirst
  | Holding (s : activeTargetSnapshot) (refreshing : bool)
  | Following (old new : activeTargetSnapshot) (refreshing : bool)
  | Probing (s : activeTargetSnapshot) (refreshing : bool)
  | Ending
  | Over.

(** The store and the engine, the cache, the runs, the plans that were made and are not
    finished, the channels that were closed and the number of those that were made. *)
Record System := {
  sy_world : CycleWorld;
  sy_cache : TargetCache;
  sy_runs : gmap nat RunState;
  sy_planned : gmap nat (TargetsError + activeTargetSnapshot);
  sy_closed : gset nat;
  sy_next : nat
}.

#[export] Instance System_eta : Eta System := fun sy =>
  Build_System (sy_world sy) (sy_cache sy) (sy_runs sy) (sy_planned sy) (sy_closed sy) (sy_next sy).

Definition idle_system (w : CycleWorld) : System :=
  {| sy_world := w; sy_cache := empty_cache; sy_runs := ∅; sy_planned := ∅; sy_closed := ∅; sy_next := 0 |}.

(** The run has a plan to make. *)
Definition plans (state : RunState) : bool :=
  match state with
  | PlanningFirst | Holding _ true | Following _ _ true | Probing _ true | Ending => true
  | _ => false
  end.

Definition after_entry (e : Entry) : RunState :=
  match e with
  | UseCached s refresh => Holding s refresh
  | WaitFor channel => Waiting channel
  | PlanFirst => PlanningFirst
  end.

(** The plan of a run is finished: a first plan is what the run works with. *)
Definition after_plan (result : TargetsError + activeTargetSnapshot) (state : RunState) : RunState :=
  match state with
  | PlanningFirst => match result with inr s => Holding s false | inl _ => Over end
  | Holding s _ => Holding s false
  | Following old new _ => Following old new false
  | Probing s _ => Probing s false
  | Ending => Over
  | state => state
  end.

Definition after_wait (c : TargetCache) : RunState :=
  match awake c with inr s => Holding s false | inl _ => Over end.

(** What a run makes of the answer of [follow_applied]. *)
Definition after_reconcile (s : activeTargetSnapshot) (refreshing : bool)
    (answer : TargetsError + option activeTargetSnapshot) : RunState :=
  match answer with
  | inr None => Probing s refreshing
  | inr (Some new) => Following s new refreshing
  | inl _ => if refreshing then Ending else Over
  end.

Definition close (channel : option nat) (closed : gset nat) : gset nat :=
  match channel with Some k => {[k]} ∪ closed | None => closed end.

Definition set_run (r : nat) (state : RunState) (sy : System) : System :=
  sy <| sy_runs := <[r := state]> (sy_runs sy) |>.

Section Steps.
Context `{JS : Json} `{PC : PlanCodec} `{VT : Vault} `{YC : EnginePublish.PayloadCodec}
  `{EN : Encoding} `{TX : TextLib} `{DC : DNSCodec} `{CC : ConfigCodec} `{NL : NetLib}
  `{XC : ExtraCodec} `{MR : MapRange}.
Context (env : CycleEnv) (options : EngineOptions) (limit : Z).

Definition after_writers (ops : list (Outcome * StoreOp)) (w : CycleWorld) : CycleWorld :=
  let p := cy_publish w in
  w <| cy_publish := {| EnginePublish.w_db := PlanStoreRuns.run ops (EnginePublish.w_db p);
                        EnginePublish.w_sched := EnginePublish.w_sched p;
                        EnginePublish.w_calls := EnginePublish.w_calls p |} |>.

(** One thing that happens: under the mutex, in a plan or a reconciliation of a run, or
    in the store by somebody else. *)
Inductive system_step : System -> System -> Prop :=
  | step_write sy ops :
      system_step sy (sy <| sy_world := after_writers ops (sy_world sy) |>)
  | step_enter sy r e cache :
      sy_runs sy !! r = None -> enter (sy_next sy) (sy_cache sy) = (e, cache) ->
      system_step sy (set_run r (after_entry e) (sy <| sy_cache := cache |> <| sy_next := S (sy_next sy) |>))
  | step_plan sy r state now profiles result w :
      sy_runs sy !! r = Some state -> plans state = true -> sy_planned sy !! r = None ->
      planActiveTargets env limit (fun now => ActiveTargets_ env options now profiles) now (sy_world sy) =
        (result, w) ->
      system_step sy (sy <| sy_world := w |> <| sy_planned := <[r := result]> (sy_planned sy) |>)
  | step_finish sy r state result channel cache :
      sy_runs sy !! r = Some state -> plans state = true -> sy_planned sy !! r = Some result ->
      finishTargetPlanning result (sy_cache sy) = (channel, cache) ->
      system_step sy (set_run r (after_plan result state)
        (sy <| sy_cache := cache |> <| sy_planned := delete r (sy_planned sy) |>
            <| sy_closed := close channel (sy_closed sy) |>))
  | step_wake sy r channel :
      sy_runs sy !! r = Some (Waiting channel) -> channel ∈ sy_closed sy ->
      system_step sy (set_run r (after_wait (sy_cache sy)) sy)
  | step_cancel sy r channel :
      sy_runs sy !! r = Some (Waiting channel) -> system_step sy (set_run r Over sy)
  | step_reconcile sy r s refreshing answer w :
      sy_runs sy !! r = Some (Holding s refreshing) ->
      follow_applied env limit s (sy_world sy) = (answer, w) ->
      system_step sy (set_run r (after_reconcile s refreshing answer) (sy <| sy_world := w |>))
  | step_keep sy r old new refreshing :
      sy_runs sy !! r = Some (Following old new refreshing) ->
      system_step sy (set_run r (Probing new refreshing)
        (sy <| sy_cache := keep_reconciled old new (sy_cache sy) |>))
  | step_leave sy r s :
      sy_runs sy !! r = Some (Probing s false) -> system_step sy (set_run r Over sy).

(** From any world, before the first run. *)
Definition reachable_system (sy : System) : Prop := exists w, rtc system_step (idle_system w) sy.
End Steps.

(** * The probes of a run

    The probes of one run of the active monitor (controller/active_monitor.go): which
    candidates are probed in which role, and in which order the lanes take them.  The
    cursors that rotate the jobs outlive the run, so that runs that are cut short
    together still reach every route. *)

(** ** What a run probes *)

Record ProbePlan := {
  pp_roles : gmap string ActiveTargetRole;
  pp_promoteOnSuccess : gmap string bool;
  pp_proofFreshAfter : gmap string Time;
  pp_candidates : list StoreTables.Candidate
}.

Definition empty_probe_plan : ProbePlan :=
  {| pp_roles := ∅; pp_promoteOnSuccess := ∅; pp_proofFreshAfter := ∅; pp_candidates := [] |}.

(** Targets of one candidate are merged: critical wins, any of them may promote, and the
    latest bound on the age of a proof counts. *)
Definition plan_target (p : ProbePlan) (t : ActiveTarget) : ProbePlan :=
  let id := target_id t in
  if negb (named id) then p
  else
    let fresh := default zero_time (pp_proofFreshAfter p !! id) in {|
      pp_roles := <[id := mergeActiveTargetRole (default RoleUnset (pp_roles p !! id)) (role_of t)]> (pp_roles p);
      pp_promoteOnSuccess :=
        <[id := default false (pp_promoteOnSuccess p !! id) || at_TriggerPlacementOnSuccess t]>
          (pp_promoteOnSuccess p);
      pp_proofFreshAfter := if after (at_ProofFreshAfter t) fresh
                            then <[id := at_ProofFreshAfter t]> (pp_proofFreshAfter p)
                            else pp_proofFreshAfter p;
      pp_candidates := if bool_decide (is_Some (pp_roles p !! id)) then pp_candidates p
                       else pp_candidates p ++ [at_Candidate t] |}.

Definition plan_probes (targets : list ActiveTarget) : ProbePlan :=
  fold_left plan_target targets empty_probe_plan.

(** The check before any probe: none is an error. *)
Definition admit_probes (limit : Z) (targets : list ActiveTarget) : option ProbePlan :=
  let p := plan_probes targets in
  let critical := List.filter (fun '(_, role) => bool_decide (role = ActiveTargetCritical))
                    (map_to_list (pp_roles p)) in
  if (0 <? limit) && (limit <? Z.of_nat (length critical)) then None else Some p.

Record activeProbeJob := {
  jb_candidate : StoreTables.Candidate;
  jb_role : ActiveTargetRole;
  jb_promoteOnSuccess : bool;
  jb_proofFreshAfter : Time
}.

Definition job_of (p : ProbePlan) (c : StoreTables.Candidate) : activeProbeJob := {|
  jb_candidate := c; jb_role := default RoleUnset (pp_roles p !! c_ID c);
  jb_promoteOnSuccess := default false (pp_promoteOnSuccess p !! c_ID c);
  jb_proofFreshAfter := default zero_time (pp_proofFreshAfter p !! c_ID c) |}.

Definition is_prospective (job : activeProbeJob) : bool :=
  bool_decide (jb_role job = ActiveTargetProspective).

(** Candidates without a row of health are skipped. *)
Definition probe_jobs (p : ProbePlan) (healths : gmap string CandidateHealth) :
    list activeProbeJob * list activeProbeJob :=
  let jobs := map (job_of p)
                (List.filter (fun c => bool_decide (is_Some (healths !! c_ID c))) (pp_candidates p)) in
  (List.filter (fun j => negb (is_prospective j)) jobs, List.filter is_prospective jobs).

(** ** The lanes *)

Section Lanes.
Context {A : Type}.

Definition rotateActiveProbeJobs (jobs : list A) (cursor : nat) : list A :=
  match jobs with
  | [] => []
  | _ => let start := (cursor mod length jobs)%nat in drop start jobs ++ take start jobs
  end.

(** What waits, and the cursors of the monitor. *)
Record Queues := {
  qu_critical : list A;
  qu_prospective : list A;
  qu_criticalNext : nat;
  qu_prospectiveNext : nat
}.

(** A lane takes from the queue that it prefers, or else from the other one. *)
Definition pop_critical (q : Queues) : option (A * Queues) :=
  match qu_critical q with
  | job :: rest => Some (job, {| qu_critical := rest; qu_prospective := qu_prospective q;
                                 qu_criticalNext := S (qu_criticalNext q);
                                 qu_prospectiveNext := qu_prospectiveNext q |})
  | [] => None
  end.
Definition pop_prospective (q : Queues) : option (A * Queues) :=
  match qu_prospective q with
  | job :: rest => Some (job, {| qu_critical := qu_critical q; qu_prospective := rest;
                                 qu_criticalNext := qu_criticalNext q;
                                 qu_prospectiveNext := S (qu_prospectiveNext q) |})
  | [] => None
  end.

Definition pop (preferred : ActiveTargetRole) (q : Queues) : option (A * Queues) :=
  let or_else a b := match a with Some r => Some r | None => b end in
  match preferred with
  | ActiveTargetProspective => or_else (pop_prospective q) (pop_critical q)
  | _ => or_else (pop_critical q) (pop_prospective q)
  end.

(** The queues of a run; without the lock of the prospective probes there are none. *)
Definition run_queues (critical prospective : list A) (owns : bool) (criticalNext prospectiveNext : nat) :
    Queues := {|
  qu_critical := rotateActiveProbeJobs critical criticalNext;
  qu_prospective := if owns then rotateActiveProbeJobs prospective prospectiveNext else [];
  qu_criticalNext := criticalNext; qu_prospectiveNext := prospectiveNext |}.

(** The lanes of a run, in any order: what they take, and what is left when the context
    ends. *)
Fixpoint drain (lanes : list ActiveTargetRole) (q : Queues) : list A * Queues :=
  match lanes with
  | [] => ([], q)
  | preferred :: lanes =>
      match pop preferred q with
      | Some (job, q) => let '(jobs, q) := drain lanes q in (job :: jobs, q)
      | None => drain lanes q
      end
  end.

(** Runs over the same jobs, each with its lanes; the critical jobs that were taken, in
    order. *)
Fixpoint critical_runs (critical prospective : list A) (runs : list (bool * list ActiveTargetRole))
    (criticalNext prospectiveNext : nat) : list A :=
  match runs with
  | [] => []
  | (owns, lanes) :: runs =>
      let q := run_queues critical prospective owns criticalNext prospectiveNext in
      let '(_, q') := drain lanes q in
      take (length (qu_critical q) - length (qu_critical q')) (qu_critical q) ++
      critical_runs critical prospective runs (qu_criticalNext q') (qu_prospectiveNext q')
  end.
End Lanes.
Arguments Queues : clear implicits.

(** ** Properties *)

Section Fair.
Context {A : Type}.
Implicit Types (jobs : list A) (q : Queues A).

Lemma rotate_permutes jobs cursor : rotateActiveProbeJobs jobs cursor ≡ₚ jobs.
Proof.
  destruct jobs as [|a jobs]; [done|]. unfold rotateActiveProbeJobs. cbn zeta.
  rewrite Permutation_app_comm. by rewrite take_drop.
Qed.

Lemma rotate_lookup jobs cursor j : (j < length jobs)%nat ->
  rotateActiveProbeJobs jobs cursor !! j = jobs !! ((cursor + j) mod length jobs)%nat.
Proof.
  intros Hj. destruct jobs as [|a jobs]; [cbn in Hj; lia|]. unfold rotateActiveProbeJobs.
  set (l := a :: jobs) in *. set (n := length l) in *. assert (n <> 0)%nat as Hn by (subst n l; cbn; lia).
  cbn zeta. set (s := (cursor mod n)%nat). assert (s < n)%nat by (by apply Nat.mod_upper_bound).
  replace ((cursor + j) mod n)%nat with ((s + j) mod n)%nat
    by (subst s; by rewrite Nat.Div0.add_mod_idemp_l).
  destruct (Nat.lt_ge_cases (s + j) n) as [Hlt|Hge].
  - rewrite lookup_app_l by (rewrite length_drop; fold n; lia).
    rewrite lookup_drop, Nat.mod_small by done. done.
  - rewrite lookup_app_r by (rewrite length_drop; fold n; lia). rewrite length_drop. fold n.
    replace ((s + j) mod n)%nat with (s + j - n)%nat.
    + rewrite lookup_take_lt by lia. f_equal. lia.
    + symmetry. rewrite <- (Nat.mod_small (s + j - n) n) by lia.
      replace (s + j)%nat with (s + j - n + 1 * n)%nat at 1 by lia. by rewrite Nat.Div0.mod_add.
Qed.

(** A pop takes the head of one queue and moves its cursor. *)
Lemma pop_spec preferred q job q' : pop preferred q = Some (job, q') ->
  (qu_critical q = job :: qu_critical q' /\ qu_prospective q' = qu_prospective q /\
   qu_criticalNext q' = S (qu_criticalNext q) /\ qu_prospectiveNext q' = qu_prospectiveNext q) \/
  (qu_prospective q = job :: qu_prospective q' /\ qu_critical q' = qu_critical q /\
   qu_prospectiveNext q' = S (qu_prospectiveNext q) /\ qu_criticalNext q' = qu_criticalNext q).
Proof.
  unfold pop, pop_critical, pop_prospective.
  destruct preferred, (qu_critical q) eqn:Ec, (qu_prospective q) eqn:Ep; intros [= <- <-]; cbn; rewrite ?Ec, ?Ep; tauto.
Qed.

Lemma pop_none preferred q : pop preferred q = None -> qu_critical q = [] /\ qu_prospective q = [].
Proof.
  unfold pop, pop_critical, pop_prospective.
  by destruct preferred, (qu_critical q), (qu_prospective q).
Qed.

(** The lanes take a part of either queue, from its front, each job once. *)
Lemma drain_spec lanes q taken q' : drain lanes q = (taken, q') ->
  exists c p, taken ≡ₚ c ++ p /\ qu_critical q = c ++ qu_critical q' /\
    qu_prospective q = p ++ qu_prospective q' /\
    qu_criticalNext q' = (qu_criticalNext q + length c)%nat /\
    qu_prospectiveNext q' = (qu_prospectiveNext q + length p)%nat.
Proof.
  revert q taken. induction lanes as [|lane lanes IH]; intros q taken; cbn [drain].
  - intros [= <- <-]. exists [], []. cbn. split_and!; [done..|lia|lia].
  - destruct (pop lane q) as [[job q1]|] eqn:Ep; [|apply IH].
    destruct (drain lanes q1) as [rest q2] eqn:Ed. intros [= <- <-].
    destruct (IH _ _ Ed) as (c & p & H1 & H2 & H3 & H4 & H5).
    apply pop_spec in Ep as [(E1 & E2 & E3 & E4)|(E1 & E2 & E3 & E4)].
    + exists (job :: c), p. rewrite H1, E1, H2, <- E2, H3, H4, H5, E3, E4. cbn. split_and!; [done..|lia|lia].
    + exists c, (job :: p). rewrite E1, H3, <- E2, H2, H4, H5, E3, E4. cbn.
      split_and!; [by rewrite H1, Permutation_middle|done..|lia|lia].
Qed.

(** Every job gets its turn.  However many runs there are, whoever owns the prospective
    probes, in whatever order the lanes come and wherever the context cuts a run short:
    the critical jobs that the lanes of all runs take go round the list, each run from
    where the last one stopped.  So of any [n] jobs taken in a row, [n] being their
    number, every job is one. *)
Theorem probes_go_round (critical prospective : list A) runs criticalNext prospectiveNext :
  let taken := critical_runs critical prospective runs criticalNext prospectiveNext in
  forall k job, taken !! k = Some job ->
    critical !! ((criticalNext + k) mod length critical)%nat = Some job.
Proof.
  cbn zeta. revert criticalNext prospectiveNext.
  induction runs as [|[owns lanes] runs IH]; intros c p k job; cbn [critical_runs]; [done|].
  destruct (drain lanes _) as [taken q'] eqn:Ed.
  destruct (drain_spec _ _ _ _ Ed) as (done_ & rest & _ & Hc & _ & Hnext & _). cbn in Hc, Hnext.
  cbn [run_queues qu_critical]. rewrite Hc at 1 2. rewrite length_app.
  replace (length done_ + length (qu_critical q') - length (qu_critical q'))%nat with (length done_) by lia.
  rewrite take_app_length. intros Hk. apply lookup_app_Some in Hk as [Hk|[Hge Hk]].
  - assert (k < length critical)%nat as Hlt.
    { apply lookup_lt_Some in Hk. rewrite <- (rotate_permutes critical c), Hc, length_app. lia. }
    rewrite <- rotate_lookup by done. rewrite Hc. by apply lookup_app_l_Some.
  - apply IH in Hk. rewrite Hnext in Hk. rewrite <- Hk. f_equal. f_equal. lia.
Qed.
End Fair.

(** The roles of a run are those that the targets were checked with, and each candidate
    is probed once. *)
Lemma plan_probes_ok targets :
  pp_roles (plan_probes targets) = roles_of targets /\
  NoDup (map c_ID (pp_candidates (plan_probes targets))) /\
  forall id, is_Some (roles_of targets !! id) <-> id ∈ map c_ID (pp_candidates (plan_probes targets)).
Proof.
  unfold plan_probes, roles_of.
  assert (forall l p roles, pp_roles p = roles -> NoDup (map c_ID (pp_candidates p)) ->
    (forall id, is_Some (roles !! id) <-> id ∈ map c_ID (pp_candidates p)) ->
    let p' := fold_left plan_target l p in
    let roles' := fold_left (fun roles t =>
      let id := target_id t in
      if named id then <[id := mergeActiveTargetRole (default RoleUnset (roles !! id)) (role_of t)]> roles
      else roles) l roles in
    pp_roles p' = roles' /\ NoDup (map c_ID (pp_candidates p')) /\
    forall id, is_Some (roles' !! id) <-> id ∈ map c_ID (pp_candidates p')) as H.
  { intros l. induction l as [|t l IH]; intros p roles Hr Hn Hi; [done|]. cbn [fold_left]. apply IH.
    - unfold plan_target. destruct (named (target_id t)); cbn; [by rewrite Hr|done].
    - unfold plan_target. destruct (named (target_id t)) eqn:En; cbn; [|done].
      case_bool_decide as Hs; [done|]. rewrite map_app. apply NoDup_app. split; [done|]. split; [|apply NoDup_singleton].
      intros id Hid. cbn. rewrite list_elem_of_singleton. intros ->. apply Hs. rewrite Hr. by apply Hi.
    - unfold plan_target. destruct (named (target_id t)) eqn:En; cbn; [|done]. rewrite Hr. intros id.
      destruct (decide (id = target_id t)) as [->|Hid].
      + rewrite lookup_insert_eq. split; [intros _|by eexists].
        case_bool_decide as Hs; [by apply Hi|]. rewrite map_app. apply elem_of_app. right. cbn.
        by apply list_elem_of_singleton.
      + rewrite lookup_insert_ne by done. rewrite Hi. case_bool_decide as Hs; [done|].
        rewrite map_app, elem_of_app. cbn. rewrite list_elem_of_singleton. naive_solver. }
  apply H; [done|constructor|]. intros id. rewrite lookup_empty. cbn. split; [by intros [? ?]|].
  intros Hin. by apply elem_of_nil in Hin.
Qed.

(** Only what passes the check of targets is probed. *)
Lemma admit_probes_iff limit targets :
  is_Some (admit_probes limit targets) <-> validateActiveTargets limit targets = None.
Proof.
  unfold admit_probes, validateActiveTargets, critical_count. cbn zeta.
  rewrite (proj1 (plan_probes_ok targets)).
  destruct (limit <=? 0) eqn:E1, (0 <? limit) eqn:E2; z_bool; try lia; cbn [andb].
  - by split.
  - destruct (limit <? _); by split.
Qed.
