(* ===== verification/MonitorTargetsSafety.v ===== *)
(** The cache of targets is planned by one run at a time, nobody waits in vain, and what
    is probed is within the limit and follows the applied plan; the engine's targets
    are the routes in use and at most a few more. *)
From Stdlib Require Import Floats.
From S2P Require Import Prelude Effects GoOrder GoFloat GoStrings GoSort QoE DataPlan DataChange Gateway Handlers XrayConfig PlacementQueue StoreTables RouteRecovery CandidateState PlanStore RoutingSnapshot PlanStoreRuns.
From S2P Require EnginePublish EnginePublishSafety CoveragePlan Inventory RenderingSafety EngineCycleSafety.
From S2P Require Import RouteCandidates PlanRendering SchedLoad SchedState SchedReserves Scheduling PlanningKey Coverage CoverageSearch RouteSafety Reservations EngineCycle HardFailure HardFailureSafety ActiveTargets MonitorTargets StoreSample EngineSample EngineCycleDurable.

#[local] Open Scope Z_scope.
#[local] Open Scope effect_scope.

(** ** Runs of the monitor's programs *)

Lemma check_passed {W E B : Type} (b : bool) (e : E) (k : unit -> Prog W E B) w r w' :
  bind (check b e) k w = (inr r, w') -> b = true /\ k tt w = (inr r, w').
Proof. by destruct b. Qed.

Lemma engine_inr {A : Type} (m : Cycle A) w a w' : engine m w = (inr a, w') -> m w = (inr a, w').
Proof. unfold engine. destruct (m w) as [[e|x] v]; [done|]. by intros [= -> ->]. Qed.

Lemma validated_inr limit targets w u w' : validated limit targets w = (inr u, w') ->
  w' = w /\ (0 < limit -> critical_count targets <= limit).
Proof.
  unfold validated, validateActiveTargets. destruct (limit <=? 0) eqn:E; z_bool; [intros [= _ <-]; split; [done|lia]|].
  destruct (limit <? critical_count targets) eqn:E2; z_bool; [done|]. intros [= _ <-]. by split.
Qed.

(** ** The applied plan goes forward *)

Section Forward.
Context `{JS : Json} `{PC : PlanCodec} `{VT : Vault} `{YC : EnginePublish.PayloadCodec}
  `{EN : Encoding} `{TX : TextLib} `{DC : DNSCodec} `{CC : ConfigCodec} `{NL : NetLib}
  `{XC : ExtraCodec} `{MR : MapRange}.
Context (env : CycleEnv) (options : EngineOptions) (limit : Z).

Definition applied (w : CycleWorld) : Z :=
  applied_generation (plan_state (EnginePublish.w_db (cy_publish w))).

(** A program after which the applied generation is not smaller. *)
Definition forward {E A : Type} (m : Prog CycleWorld E A) : Prop := forall w, applied w <= applied (m w).2.

Lemma forward_ret {E A : Type} (a : A) : forward (E := E) (ret a).
Proof. intros w. cbn. lia. Qed.


Lemma forward_bind {E A B : Type} (m : Prog CycleWorld E A) (k : A -> Prog CycleWorld E B) :
  forward m -> (forall a, forward (k a)) -> forward (bind m k).
Proof.
  intros Hm Hk w. unfold bind. specialize (Hm w). destruct (m w) as [[e|a] w1]; [done|].
  cbn in Hm. etrans; [exact Hm|apply Hk].
Qed.


Lemma forward_foldM {A B : Type} (f : B -> A -> Cycle B) l b :
  (forall b x, forward (f b x)) -> forward (foldM f b l).
Proof.
  intros Hf. revert b. induction l as [|x l IH]; intros b; cbn [foldM]; [apply forward_ret|].
  by apply forward_bind.
Qed.

















End Forward.

(** ** The cache *)

Section Cache.
Context `{JS : Json} `{PC : PlanCodec} `{VT : Vault} `{YC : EnginePublish.PayloadCodec}
  `{EN : Encoding} `{TX : TextLib} `{DC : DNSCodec} `{CC : ConfigCodec} `{NL : NetLib}
  `{XC : ExtraCodec} `{MR : MapRange}.
Context (env : CycleEnv) (options : EngineOptions) (limit : Z).

















End Cache.

(** ** Following the applied plan *)

Section Follow.
Context (critical : gset string).

(** A target that follows the plan: critical exactly when the plan uses it. *)
Definition follows (t : ActiveTarget) : Prop :=
  named (target_id t) = true ->
  (role_of t = ActiveTargetCritical <-> target_id t ∈ critical).

Lemma follow_plan_ok t : target_id (follow_plan critical t) = target_id t /\ follows (follow_plan critical t).
Proof.
  unfold follow_plan, follows. destruct (negb (named (target_id t))) eqn:En.
  - split; [done|]. apply negb_true_iff in En. by rewrite En.
  - destruct (bool_decide (target_id t ∈ critical)) eqn:Ec.
    + apply bool_decide_eq_true in Ec. by split.
    + apply bool_decide_eq_false in Ec. destruct (at_Role t) eqn:Er; (split; [done|]); intros _; unfold role_of;
        cbn; rewrite ?Er; by split.
Qed.

Lemma add_missing_ok targets found all : add_missing critical targets found = Some all ->
  Forall follows targets ->
  exists added, all = targets ++ added /\ Forall follows added /\
    forall id, id ∈ critical -> id ∈ map target_id all.
Proof.
  unfold add_missing. cbn zeta. set (added := List.filter _ found).
  case_bool_decide as Hm; [|done]. intros [= <-] Ht. exists (map new_target added). split_and!; [done| |].
  - apply Forall_forall. intros t (c & -> & Hc)%list_elem_of_fmap. intros _.
    apply list_elem_of_In, filter_In in Hc as [_ Hc]. apply bool_decide_eq_true in Hc. by split.
  - intros id Hid. rewrite map_app. apply elem_of_app.
    destruct (decide (id ∈ map target_id targets)) as [H|H]; [by left|right].
    assert (id ∈ missing_targets critical targets) as Hmiss.
    { unfold missing_targets. rewrite elem_of_difference, elem_of_list_to_set. done. }
    apply Hm in Hmiss. rewrite elem_of_list_to_set in Hmiss.
    apply list_elem_of_fmap in Hmiss as (c & -> & Hc). apply list_elem_of_fmap.
    exists (new_target c). split; [done|]. apply list_elem_of_fmap. by exists c.
Qed.

Lemma nothing_missing targets id : missing_targets critical targets = ∅ -> id ∈ critical ->
  id ∈ map target_id targets.
Proof.
  unfold missing_targets. intros Hm Hid. destruct (decide (id ∈ map target_id targets)) as [H|H]; [done|].
  assert (id ∈ critical ∖ list_to_set (map target_id targets)) as Hin
    by (rewrite elem_of_difference, elem_of_list_to_set; done).
  rewrite Hm in Hin. set_solver.
Qed.
End Follow.

Section Reconcile.
Context `{JS : Json} `{PC : PlanCodec} `{VT : Vault} `{YC : EnginePublish.PayloadCodec}
  `{EN : Encoding} `{TX : TextLib} `{DC : DNSCodec} `{CC : ConfigCodec} `{NL : NetLib}
  `{XC : ExtraCodec} `{MR : MapRange}.
Context (env : CycleEnv) (limit : Z).

(** What the store answered from [w1] on, one query after the other, whatever writers came
    in between: the applied generation [g], the assignments, the mappings of [g], and [g]
    again. *)
Definition told (w1 : CycleWorld) (g : Z) (assignments : list AssignmentRecord)
    (mappings : list RouteReserveMapping) : Prop :=
  exists before after w2 w3 w4 w5,
    ask_store env LoadPlanState w1 = (inr before, w2) /\ AppliedGeneration before = g /\
    ask_store env ListAssignments w2 = (inr assignments, w3) /\
    ask_store env ListAppliedReserveMappings w3 = (inr (g, mappings), w4) /\
    ask_store env LoadPlanState w4 = (inr after, w5) /\ AppliedGeneration after = g.

Lemma applied_targets_told w g critical w' : appliedCriticalTargets env w = (inr (g, critical), w') ->
  exists assignments mappings, told w g assignments mappings /\
    critical = mapped_candidates assignments mappings.
Proof.
  unfold appliedCriticalTargets. intros H.
  apply prog_bind_inr in H as (before & w1 & Hb & H).
  apply prog_bind_inr in H as (assignments & w2 & Ha & H).
  apply prog_bind_inr in H as ([g' mappings] & w3 & Hm & H).
  apply prog_bind_inr in H as (after & w4 & Haf & H).
  apply check_passed in H as [Hg H]. injection H as <- <- _. cbn [fst snd] in *.
  split_bool. z_bool. subst g'. exists assignments, mappings. split; [|done].
  exists before, after, w1, w2, w3, w4. by split_and!.
Qed.

(** C13.  The targets follow the applied plan.  A reconciliation reads which plan is
    applied.  While that is the plan of the snapshot, the snapshot stays.  Otherwise the
    answer is for one applied generation, which the store gave before and after it gave
    the assignments and the mappings of that generation: every route that is assigned or
    mapped as a primary or a reserve there is a target, a named target is critical
    exactly when it is one of these, no target is lost, and the critical ones are within
    the limit. *)
Theorem reconciled_targets_follow_plan s w s' w' :
  reconcile_snapshot env limit s w = (inr s', w') ->
  exists state w1, ask_store env LoadPlanState w = (inr state, w1) /\
    if AppliedGeneration state =? ts_appliedGeneration s then s' = s
    else exists assignments mappings, told w1 (ts_appliedGeneration s') assignments mappings /\
      let critical := mapped_candidates assignments mappings in
      (exists added, map target_id (ts_targets s') = map target_id (ts_targets s) ++ added) /\
      (forall id, id ∈ critical -> id ∈ map target_id (ts_targets s')) /\
      (forall t, t ∈ ts_targets s' -> named (target_id t) = true ->
         (role_of t = ActiveTargetCritical <-> target_id t ∈ critical)) /\
      (0 < limit -> critical_count (ts_targets s') <= limit).
Proof.
  unfold reconcile_snapshot. intros H. apply prog_bind_inr in H as (answer & w0 & H & Hs). injection Hs as <- _.
  unfold follow_applied in H. apply prog_bind_inr in H as (state & w1 & Hstate & H).
  exists state, w1. split; [exact Hstate|].
  destruct (_ =? _); [by injection H as <- _|].
  apply prog_bind_inr in H as ([g critical] & w2 & Ha & H).
  apply applied_targets_told in Ha as (assignments & mappings & Htold & ->).
  set (critical := mapped_candidates assignments mappings) in *. cbn zeta in H.
  set (kept := map (follow_plan critical) (ts_targets s)) in *.
  assert (map target_id kept = map target_id (ts_targets s)) as Hids.
  { subst kept. rewrite map_map. apply map_ext. intros t. apply follow_plan_ok. }
  assert (Forall (follows critical) kept) as Hkept.
  { subst kept. apply Forall_fmap, Forall_true. intros t. apply follow_plan_ok. }
  apply prog_bind_inr in H as (targets & w3 & Ht & H).
  assert (exists added, targets = kept ++ added /\ Forall (follows critical) added /\
    forall id, id ∈ critical -> id ∈ map target_id targets) as (added & -> & Hadded & Hall).
  { case_bool_decide as Hm.
    - injection Ht as <- _. exists []. rewrite app_nil_r. split_and!; [done|constructor|].
      intros id. by apply nothing_missing.
    - apply prog_bind_inr in Ht as (found & w4 & _ & Ht).
      destruct (add_missing critical kept found) as [all|] eqn:E; [|done]. injection Ht as <- _.
      by apply (add_missing_ok critical kept found). }
  apply prog_bind_inr in H as (u & w5 & Hv & H). apply validated_inr in Hv as [-> Hv].
  injection H as <- _. exists assignments, mappings. cbn [from_option]. unfold id. cbn [ts_targets ts_appliedGeneration]. split; [done|]. split_and!.
  - exists (map target_id added). by rewrite map_app, Hids.
  - done.
  - intros t Ht' Hn. assert (Forall (follows critical) (kept ++ added)) as Hf by (by apply Forall_app).
    rewrite Forall_forall in Hf. by apply Hf.
  - done.
Qed.
End Reconcile.

(** ** The engine's targets *)

Section Serving.
Context `{JS : Json} `{PC : PlanCodec} `{VT : Vault} `{YC : EnginePublish.PayloadCodec}
  `{EN : Encoding} `{TX : TextLib} `{DC : DNSCodec} `{CC : ConfigCodec} `{NL : NetLib}
  `{XC : ExtraCodec} `{MR : MapRange} `{ML : !MapRangeLaws}.
Context (env : CycleEnv) (options : EngineOptions) (now : Time) (i : TargetInputs).
Context (snapshot : RouteCandidateSnapshot).
Hypothesis snapshot_keyed : map_Forall (fun id row => c_ID row = id) (rowsByID snapshot).

Abbreviation add := (addTarget options now snapshot).

(** The routes that serve, and the applied reserves of the clients that count. *)
Definition mapping_serves (m : RouteReserveMapping) : list string :=
  if clientReservations options && negb (bool_decide (is_Some (ti_client_by_id i !! rm_ClientID m)))
  then [] else [TCPReserveCandidateID m; UDPReserveCandidateID m].
Definition in_use : gset string :=
  list_to_set (flat_map (fun a => [as_TCPOutbound a; as_UDPOutbound a]) (ti_assignments i) ++
               flat_map mapping_serves (ti_mappings i)).

(** Targets of which [used] are the routes in use. *)
Record probing (used : gset string) (targets : gmap string ActiveTarget) : Prop := {
  pb_known : forall id t, targets !! id = Some t -> rowsByID snapshot !! id = Some (at_Candidate t);
  pb_role : forall id t, targets !! id = Some t ->
    at_Role t <> RoleUnset /\ (at_Role t = ActiveTargetCritical <-> id ∈ used);
  pb_all : forall id, id ∈ used -> is_Some (rowsByID snapshot !! id) -> is_Some (targets !! id)
}.

Lemma probing_empty : probing ∅ ∅.
Proof. split; intros id; [by rewrite lookup_empty..|set_solver]. Qed.

Lemma probing_used used used' targets : used ≡ used' -> probing used targets -> probing used' targets.
Proof.
  intros Hu [H1 H2 H3]. split; [done| |].
  - intros id t Ht. destruct (H2 id t Ht). split; [done|]. by rewrite <- Hu.
  - intros id Hid. apply H3. by rewrite Hu.
Qed.

Lemma add_critical used targets id b : probing used targets ->
  probing ({[id]} ∪ used) (add id ActiveTargetCritical b targets).
Proof.
  intros [H1 H2 H3]. unfold addTarget. destruct (rowsByID snapshot !! id) as [row|] eqn:Er.
  - split.
    + intros key t. rewrite lookup_insert_Some. intros [[<- <-]|[_ Ht]]; [done|by apply H1].
    + intros key t. rewrite lookup_insert_Some. intros [[<- <-]|[Hn Ht]]; cbn.
      * split; [by destruct (at_Role _)|]. split; [set_solver|]. by destruct (at_Role _).
      * destruct (H2 key t Ht). split; [done|]. set_solver.
    + intros key Hkey Hrow. destruct (decide (id = key)) as [<-|Hn];
        [by rewrite lookup_insert_eq|rewrite lookup_insert_ne by done]. apply H3; [set_solver|done].
  - assert (targets !! id = None) as Hid.
    { destruct (targets !! id) as [t|] eqn:Et; [|done]. by rewrite (H1 _ _ Et) in Er. }
    split; [done| |].
    + intros key t Ht. destruct (H2 key t Ht). split; [done|].
      assert (key <> id) by congruence. set_solver.
    + intros key Hkey Hrow. apply H3; [|done]. assert (key <> id) by (intros ->; by rewrite Er in Hrow; destruct Hrow).
      set_solver.
Qed.

Lemma add_other used targets id b : probing used targets -> probing used (add id ActiveTargetProspective b targets).
Proof.
  intros [H1 H2 H3]. unfold addTarget. destruct (rowsByID snapshot !! id) as [row|] eqn:Er; [|by split].
  split.
  - intros key t. rewrite lookup_insert_Some. intros [[<- <-]|[_ Ht]]; [done|by apply H1].
  - intros key t. rewrite lookup_insert_Some. intros [[<- <-]|[Hn Ht]]; [|by apply H2]. cbn.
    destruct (targets !! id) as [t|] eqn:Et; cbn.
    + destruct (H2 id t Et) as [Ha Hb]. destruct (at_Role t); [done|by split|by split].
    + split; [done|]. split; [done|]. intros Hid. destruct (H3 id Hid ltac:(by rewrite Er)) as [t Ht].
      by rewrite Et in Ht.
  - intros key Hkey Hrow. destruct (decide (id = key)) as [<-|Hn];
      [by rewrite lookup_insert_eq|rewrite lookup_insert_ne by done]. by apply H3.
Qed.

Lemma add_size id role b targets : (size (add id role b targets) <= S (size targets))%nat.
Proof.
  unfold addTarget. destruct (rowsByID snapshot !! id); [|lia]. rewrite map_size_insert.
  destruct (targets !! id); cbn; lia.
Qed.

(** Only routes in use so far. *)
Definition tight (used : gset string) (targets : gmap string ActiveTarget) : Prop :=
  probing used targets /\ dom targets ⊆ used.

Lemma tight_used used used' targets : used ≡ used' -> tight used targets -> tight used' targets.
Proof. intros Hu [H1 H2]. split; [by eapply probing_used|]. by rewrite <- Hu. Qed.

Lemma tight_critical used targets id b : tight used targets ->
  tight ({[id]} ∪ used) (add id ActiveTargetCritical b targets).
Proof.
  intros [H1 H2]. split; [by apply add_critical|]. unfold addTarget.
  destruct (rowsByID snapshot !! id); [rewrite dom_insert_L|]; set_solver.
Qed.

Lemma critical_tight : tight in_use (critical_targets options now snapshot i).
Proof.
  unfold critical_targets. cbn zeta.
  assert (forall l used targets, tight used targets ->
    tight (used ∪ list_to_set (flat_map (fun a => [as_TCPOutbound a; as_UDPOutbound a]) l))
      (fold_left (fun targets a => add (as_UDPOutbound a) ActiveTargetCritical false
        (add (as_TCPOutbound a) ActiveTargetCritical false targets)) l targets)) as Ha.
  { intros l. induction l as [|a l IH]; intros used targets Hp.
    - eapply tight_used; [|exact Hp]. set_solver.
    - eapply tight_used; [|apply IH, tight_critical, tight_critical, Hp]. cbn. set_solver. }
  assert (forall l used targets, tight used targets ->
    tight (used ∪ list_to_set (flat_map mapping_serves l))
      (fold_left (fun targets m =>
        if clientReservations options && negb (bool_decide (is_Some (ti_client_by_id i !! rm_ClientID m)))
        then targets
        else add (UDPReserveCandidateID m) ActiveTargetCritical false
               (add (TCPReserveCandidateID m) ActiveTargetCritical false targets)) l targets)) as Hm.
  { intros l. induction l as [|m l IH]; intros used targets Hp; [eapply tight_used; [|exact Hp]; set_solver|].
    cbn [fold_left flat_map]. unfold mapping_serves at 1. destruct (_ && _).
    - eapply tight_used; [|apply IH, Hp]. cbn. set_solver.
    - eapply tight_used; [|apply IH, tight_critical, tight_critical, Hp]. cbn. set_solver. }
  eapply tight_used; [|apply Hm, Ha; split; [apply probing_empty|set_solver]]. unfold in_use. set_solver.
Qed.

(** Some targets more, none in use. *)
Definition grown (n : nat) (targets targets' : gmap string ActiveTarget) : Prop :=
  (forall used, probing used targets -> probing used targets') /\ (size targets' <= size targets + n)%nat.

Lemma grown_refl n targets : grown n targets targets.
Proof. split; [done|lia]. Qed.
Lemma grown_trans n m a b c : grown n a b -> grown m b c -> grown (n + m) a c.
Proof. intros [H1 H2] [H3 H4]. split; [auto|lia]. Qed.
Lemma grown_add id b targets : grown 1 targets (add id ActiveTargetProspective b targets).
Proof. split; [intros used; apply add_other|]. pose proof (add_size id ActiveTargetProspective b targets). lia. Qed.

Lemma grown_prospective targets selected : grown 2 targets (add_prospective options now snapshot targets selected).
Proof.
  unfold add_prospective. cbn [fold_left].
  assert (forall id t, grown 1 t (match allByID snapshot !! id with
    | Some c => add id ActiveTargetProspective (negb (ActiveEligible c) || negb (ActiveFresh c)) t
    | None => t end)) as H.
  { intros id t. destruct (allByID snapshot !! id); [apply grown_add|apply grown_refl]. }
  apply (grown_trans 1 1 _ (match allByID snapshot !! rs_TCP selected with
    | Some c => add (rs_TCP selected) ActiveTargetProspective (negb (ActiveEligible c) || negb (ActiveFresh c)) targets
    | None => targets end)); apply H.
Qed.

Lemma grown_select targets w targets' w' :
  select_prospective env options now i snapshot targets w = (inr targets', w') ->
  grown (2 * size (ti_assignment_by_client i)) targets targets'.
Proof.
  unfold select_prospective.
  assert (length (map_range 10 (ti_assignment_by_client i)) = size (ti_assignment_by_client i)) as <-.
  { rewrite (map_range_perm _ 10 (ti_assignment_by_client i)). apply length_map_to_list. }
  generalize (map_range 10 (ti_assignment_by_client i)) as l. intros l. revert targets w.
  induction l as [|[client a] l IH]; intros targets w; cbn [foldM length].
  - intros [= <- _]. apply grown_refl.
  - intros (t1 & w1 & H1 & H2)%prog_bind_inr. apply IH in H2.
    replace (2 * S (length l))%nat with (2 + 2 * length l)%nat by lia.
    eapply grown_trans; [|exact H2].
    destruct (ti_client_by_id i !! client) as [record|]; [|injection H1 as <- _; apply grown_refl].
    destruct (cl_paused (cli_row record)); [injection H1 as <- _; apply grown_refl|].
    apply prog_bind_inr in H1 as (selected & w2 & _ & H1). injection H1 as <- _.
    apply grown_prospective.
Qed.

Lemma grown_challengers ids targets :
  grown (length ids) targets (fold_left (fun targets id => add id ActiveTargetProspective true targets) ids targets).
Proof.
  revert targets. induction ids as [|id ids IH]; intros targets; [apply grown_refl|]. cbn [fold_left length].
  apply (grown_trans 1 (length ids) _ (add id ActiveTargetProspective true targets)); [apply grown_add|apply IH].
Qed.

Lemma challengers_bounded candidates targets limit :
  Z.of_nat (length (qualityChallengers candidates targets limit)) <=
  Z.min 2 (Z.max 0 (limit - Z.of_nat (size targets))).
Proof.
  unfold qualityChallengers. cbn zeta. rewrite length_map, length_take. lia.
Qed.

(** ** The list *)

Lemma sorted_targets_elem targets t : t ∈ sorted_targets targets <-> exists id, targets !! id = Some t.
Proof.
  unfold sorted_targets. rewrite list_elem_of_omap. split; [naive_solver|]. intros [id Ht].
  exists id. split; [|done]. rewrite sort_strings_Permutation. apply list_elem_of_fmap.
  exists (id, t). split; [done|]. by apply elem_of_map_to_list.
Qed.

Lemma sorted_targets_ids targets : (forall id t, targets !! id = Some t -> target_id t = id) ->
  map target_id (sorted_targets targets) = sort_strings (map fst (map_to_list targets)).
Proof.
  intros Hk. unfold sorted_targets.
  assert (forall id, id ∈ sort_strings (map fst (map_to_list targets)) -> is_Some (targets !! id)) as Hin.
  { intros id. rewrite sort_strings_Permutation, list_elem_of_fmap. intros ([key t] & -> & H).
    apply elem_of_map_to_list in H. by exists t. }
  revert Hin. generalize (sort_strings (map fst (map_to_list targets))) as l. intros l.
  induction l as [|id l IH]; intros Hin; [done|]. cbn [omap list_omap].
  destruct (Hin id ltac:(left)) as [t Ht]. unfold omap in IH. rewrite Ht. cbn [map].
  rewrite (Hk id t Ht). f_equal. apply IH. intros key Hkey. apply Hin. by right.
Qed.

Lemma roles_critical targets id : roles_of targets !! id = Some ActiveTargetCritical ->
  named id = true /\ exists t, t ∈ targets /\ target_id t = id /\ role_of t = ActiveTargetCritical.
Proof.
  unfold roles_of.
  assert (forall l (roles : gmap string ActiveTargetRole), fold_left (fun roles t =>
      let id := target_id t in
      if named id then <[id := mergeActiveTargetRole (default RoleUnset (roles !! id)) (role_of t)]> roles
      else roles) l roles !! id = Some ActiveTargetCritical ->
    roles !! id = Some ActiveTargetCritical \/
    named id = true /\ exists t, t ∈ l /\ target_id t = id /\ role_of t = ActiveTargetCritical) as H.
  { intros l. induction l as [|t l IH]; intros roles; [by left|]. cbn [fold_left]. intros [Hr|(Hn & u & Hu & Hrest)]%IH.
    - cbn zeta in Hr. destruct (named (target_id t)) eqn:En; [|by left].
      apply lookup_insert_Some in Hr as [[<- Hr]|[_ Hr]]; [|by left].
      destruct (role_of t) eqn:Et.
      + unfold role_of in Et. destruct (at_Role t); [destruct (at_TriggerPlacementOnSuccess t)| |]; done.
      + right. split; [done|]. exists t. split_and!; [by left|done|done].
      + left. destruct (roles !! target_id t) as [[]|]; cbn in Hr; congruence.
    - right. split; [done|]. exists u. split; [by right|done]. }
  intros Hr. destruct (H targets ∅ Hr) as [H0|H0]; [by rewrite lookup_empty in H0|exact H0].
Qed.

Lemma critical_count_le targets (known : gset string) :
  (forall t, t ∈ targets -> named (target_id t) = true -> role_of t = ActiveTargetCritical ->
     target_id t ∈ known) ->
  critical_count targets <= Z.of_nat (size known).
Proof.
  intros Hk. unfold critical_count. set (l := List.filter _ _).
  assert (NoDup l.*1) as Hnd.
  { apply (NoDup_filter_map fst), NoDup_fst_map_to_list. }
  rewrite <- (length_fmap fst l). rewrite <- (size_list_to_set (C := gset string) (l.*1) Hnd).
  apply inj_le, subseteq_size. intros id. rewrite elem_of_list_to_set, list_elem_of_fmap.
  intros ([key role] & -> & Hin). subst l. apply list_elem_of_In, filter_In in Hin as [Hin Hr].
  apply bool_decide_eq_true in Hr. subst role. apply list_elem_of_In, elem_of_map_to_list in Hin.
  destruct (roles_critical _ _ Hin) as (Hn & t & Ht & <- & Hr). by apply Hk.
Qed.

Lemma in_use_referenced id : named id = true -> id ∈ in_use -> id ∈ references i.
Proof.
  intros Hn. unfold in_use, references. rewrite !elem_of_list_to_set, !elem_of_app.
  intros [H|H]; [left|right].
  - unfold assigned_candidates. apply list_elem_of_In, filter_In. split; [by apply list_elem_of_In|done].
  - apply list_elem_of_In, in_flat_map in H as (m & Hm & H). apply list_elem_of_In, in_flat_map.
    exists m. split; [done|]. unfold mapping_serves in H. destruct (_ && _); [done|].
    apply filter_In. split; [|done]. destruct H as [<-|[<-|[]]]; simpl; tauto.
Qed.

(** The theorem below, for any snapshot whose rows are filed under their names. *)
Lemma ordinary_targets_probe w targets w' :
  ordinary_targets env options now i snapshot w = (inr targets, w') ->
  (StronglySorted (ordered str_ltb) (map target_id targets) /\ NoDup (map target_id targets)) /\
  (forall t, t ∈ targets -> rowsByID snapshot !! target_id t = Some (at_Candidate t) /\
     (role_of t = ActiveTargetCritical <-> target_id t ∈ in_use)) /\
  (forall id, id ∈ in_use -> is_Some (rowsByID snapshot !! id) -> id ∈ map target_id targets) /\
  (Z.of_nat (size (references i)) <= critical_limit env ->
     validateActiveTargets (critical_limit env) targets = None) /\
  Z.of_nat (length targets) <=
    Z.max (critical_limit env) (Z.of_nat (size in_use + 2 * size (ti_assignment_by_client i))).
Proof.
  unfold ordinary_targets. intros (t1 & w1 & H1 & H2)%prog_bind_inr. injection H2 as Ht _.
  destruct critical_tight as [Hcrit Hdom]. destruct (grown_select _ _ _ _ H1) as [Hg Hs].
  assert (size (critical_targets options now snapshot i) <= size in_use)%nat as Hsize.
  { rewrite <- size_dom. by apply subseteq_size. }
  match type of Ht with sorted_targets ?x = _ => set (final := x) in Ht end.
  assert (probing in_use final) as Hp.
  { subst final. destruct (0 <? _); [|by apply Hg]. by apply grown_challengers, Hg. }
  assert (Z.of_nat (size final) <= Z.max (critical_limit env)
    (Z.of_nat (size in_use + 2 * size (ti_assignment_by_client i)))) as Hbound.
  { subst final. pose proof (challengers_bounded (placementCandidates snapshot) t1 (critical_limit env)).
    destruct (0 <? _) eqn:E; z_bool; [|lia].
    destruct (grown_challengers (qualityChallengers (placementCandidates snapshot) t1 (critical_limit env)) t1)
      as [_ Hc]. lia. }
  clearbody final. clear H1 Hg Hs Hsize Hcrit Hdom.
  assert (forall id t, final !! id = Some t -> target_id t = id) as Hid.
  { intros id t Hft. by apply (snapshot_keyed id), (pb_known _ _ Hp). }
  pose proof (sorted_targets_ids final Hid) as Hids. rewrite Ht in Hids.
  assert (forall t, t ∈ targets <-> exists id, final !! id = Some t) as Helem
    by (intros t; rewrite <- Ht; apply sorted_targets_elem).
  assert (forall t, t ∈ targets -> rowsByID snapshot !! target_id t = Some (at_Candidate t) /\
    (role_of t = ActiveTargetCritical <-> target_id t ∈ in_use)) as Hall.
  { intros t [id Hft]%Helem. pose proof (Hid _ _ Hft) as <-. split; [by apply (pb_known _ _ Hp)|].
    destruct (pb_role _ _ Hp _ _ Hft) as [Hn <-]. unfold role_of. by destruct (at_Role t). }
  split; [|split; [exact Hall|split_and!]].
  - rewrite Hids. split; [apply sort_strings_sorted|].
    rewrite sort_strings_Permutation. apply NoDup_fst_map_to_list.
  - intros id Huse Hrow. destruct (pb_all _ _ Hp id Huse Hrow) as [t Hft].
    apply list_elem_of_fmap. exists t. split; [symmetry; by apply Hid|]. apply Helem. by exists id.
  - intros Href. unfold validateActiveTargets. destruct (_ <=? 0); [done|].
    assert (critical_count targets <= Z.of_nat (size (references i))) as Hc.
    { apply critical_count_le. intros t Htt Hn Hr. apply in_use_referenced; [done|]. by apply Hall. }
    destruct (_ <? _) eqn:E; [|done]. z_bool. lia.
  - assert (length targets = size final) as ->; [|exact Hbound].
    rewrite <- (length_map target_id), Hids, sort_strings_Permutation, length_map.
    apply length_map_to_list.
Qed.
End Serving.

Lemma take_routes_keyed `{TextLib} options at_ evidence profiles range :
  map_Forall (fun id row => c_ID row = id) (rowsByID (take_routes options at_ evidence profiles range)).
Proof.
  intros id row Hrow. cbn [take_routes rowsByID] in Hrow. unfold rows_of in Hrow.
  apply index_some_lookup in Hrow as (e & _ & <- & [= <-]). done.
Qed.

(** C7.  Every route in use is probed.  From any world, with a snapshot of the routes
    that any evidence shows: the targets that the engine names when it needs no new
    plan come once each, sorted; each is the store's row of a known candidate; it is
    critical exactly when it serves a client or is the applied reserve of one; and no
    such route that is known is left out.  When the routes that the plan refers to are
    within the limit, the monitor accepts the list.  And the cost of probing is bounded:
    besides the routes in use there are at most two prospective reserves for each
    assigned client, and then challengers only as far as the limit allows. *)
Theorem routes_in_use_are_probed `{JS : Json} `{PC : PlanCodec} `{VT : Vault}
    `{YC : EnginePublish.PayloadCodec} `{EN : Encoding} `{TX : TextLib} `{DC : DNSCodec}
    `{CC : ConfigCodec} `{NL : NetLib} `{XC : ExtraCodec} `{MR : MapRange} `{ML : !MapRangeLaws}
    env options now i at_ evidence profiles range w targets w' :
  let snapshot := take_routes options at_ evidence profiles range in
  ordinary_targets env options now i snapshot w = (inr targets, w') ->
  (StronglySorted (ordered str_ltb) (map target_id targets) /\ NoDup (map target_id targets)) /\
  (forall t, t ∈ targets -> rowsByID snapshot !! target_id t = Some (at_Candidate t) /\
     (role_of t = ActiveTargetCritical <-> target_id t ∈ in_use options i)) /\
  (forall id, id ∈ in_use options i -> is_Some (rowsByID snapshot !! id) -> id ∈ map target_id targets) /\
  (Z.of_nat (size (references i)) <= critical_limit env ->
     validateActiveTargets (critical_limit env) targets = None) /\
  Z.of_nat (length targets) <=
    Z.max (critical_limit env) (Z.of_nat (size (in_use options i) + 2 * size (ti_assignment_by_client i))).
Proof.
  intros snapshot Hrun. eapply ordinary_targets_probe; [|exact Hrun]. apply take_routes_keyed.
Qed.

(** * Evaluations and witnesses

    Targets on the small engine: what is probed once a plan is applied, a snapshot that
    follows the plan, and two runs that share the first plan of targets. *)

#[local] Existing Instances sample_encoding XrayConfig.sample_net XrayConfig.sample_extra
  RenderingSafety.sample_range RenderingSafety.sample_dns_codec RenderingSafety.sample_config_codec
  EngineCycleSafety.plain_text.

(** ** The engine's targets *)

(** Alice goes over [cand_a], with [cand_b] in reserve. *)
Definition served_inputs : TargetInputs := {|
  ti_clients := [EngineCycleSafety.cycle_client "alice" (Some 990)];
  ti_assignments := stored_assignments; ti_mappings := [stored_mapping] |}.

Definition served_evidence : RoutingEvidenceSnapshot := {|
  rs_Candidates := map EngineCycleSafety.cycle_evidence ["cand_a"; "cand_b"; "cand_c"]%string;
  rs_InventoryEpoch := 1 |}.

Definition served_snapshot : RouteCandidateSnapshot :=
  take_routes EngineCycleSafety.cycle_options EngineCycleSafety.cycle_now served_evidence [] (fun l => l).

Definition served_targets : (CycleError + list ActiveTarget) * CycleWorld :=
  ordinary_targets EngineCycleSafety.cycle_env EngineCycleSafety.cycle_options EngineCycleSafety.cycle_now
    served_inputs served_snapshot EngineCycleSafety.cycle_start.

Definition served_list : list ActiveTarget := match served_targets.1 with inr l => l | inl _ => [] end.

Example served_roles :
  map (fun t => (target_id t, at_Role t)) served_list =
  [("cand_a", ActiveTargetCritical); ("cand_b", ActiveTargetCritical)]%string.
Proof. vm_compute. reflexivity. Qed.

Lemma served_targets_run : served_targets = (inr served_list, served_targets.2).
Proof.
  assert (bool_decide (is_Some (match served_targets.1 with inr l => Some l | inl _ => None end)) = true)
    as H by (vm_compute; reflexivity).
  apply bool_decide_eq_true in H. unfold served_list. destruct served_targets as [[e|l] w]; [|reflexivity].
  destruct H as [? H]. discriminate H.
Qed.

Lemma routes_in_use_are_probed_witness :
  map target_id served_list = ["cand_a"; "cand_b"]%string /\
  validateActiveTargets 2 served_list = None /\
  (forall t, t ∈ served_list -> role_of t = ActiveTargetCritical <->
     target_id t ∈ in_use EngineCycleSafety.cycle_options served_inputs).
Proof.
  destruct (@routes_in_use_are_probed stored_json stored_codec open_vault stored_payload sample_encoding
    EngineCycleSafety.plain_text RenderingSafety.sample_dns_codec RenderingSafety.sample_config_codec
    XrayConfig.sample_net XrayConfig.sample_extra RenderingSafety.sample_range
    RenderingSafety.sample_range_laws EngineCycleSafety.cycle_env EngineCycleSafety.cycle_options
    EngineCycleSafety.cycle_now served_inputs EngineCycleSafety.cycle_now served_evidence [] (fun l => l)
    EngineCycleSafety.cycle_start served_list served_targets.2 served_targets_run)
    as (_ & Hrole & _ & Hlimit & _).
  split; [vm_compute; reflexivity|]. split.
  - apply Hlimit. vm_compute. discriminate.
  - intros t Ht. apply (Hrole t Ht).
Defined.

(** The whole program, after the cycle that applied the first plan. *)
Definition after_cycle : (CycleError + list ActiveTarget) * CycleWorld :=
  ActiveTargets_ ready_env ready_options (of_unix 120) [] ready_cycle.2.

Definition answered {E A : Type} (r : E + A) : option A :=
  match r with inr a => Some a | inl _ => None end.
Definition roles_listed (targets : list ActiveTarget) : list (string * ActiveTargetRole) :=
  map (fun t => (target_id t, at_Role t)) targets.

Example applied_plan_is_probed :
  roles_listed <$> answered after_cycle.1 = Some [("cand_a", ActiveTargetCritical); ("cand_b", ActiveTargetCritical)]%string.
Proof. vm_compute. reflexivity. Qed.

(** ** Following the plan *)

(** Before the plan was applied, [cand_a] and [cand_c] were probed as reserves. *)
Definition stale_snapshot : activeTargetSnapshot := {|
  ts_targets := map (fun id => {| at_Candidate := stored_candidate id; at_Role := ActiveTargetProspective;
                                  at_TriggerPlacementOnSuccess := true; at_ProofFreshAfter := zero_time |})
                  ["cand_a"; "cand_c"]%string;
  ts_appliedGeneration := 0 |}.

Definition followed : (TargetsError + activeTargetSnapshot) * CycleWorld :=
  reconcile_snapshot ready_env 2 stale_snapshot ready_cycle.2.

Definition followed_snapshot : activeTargetSnapshot := default stale_snapshot (answered followed.1).

(** Once a route is missing all routes of the plan that can be listed are added, those
    that are targets already a second time. *)
Example followed_roles :
  (fun s => (ts_appliedGeneration s, roles_listed (ts_targets s))) <$> answered followed.1 =
  Some (1, [("cand_a", ActiveTargetCritical); ("cand_c", ActiveTargetProspective);
            ("cand_a", ActiveTargetCritical); ("cand_b", ActiveTargetCritical)]%string).
Proof. vm_compute. reflexivity. Qed.

Lemma followed_run :
  ts_appliedGeneration followed_snapshot = 1 /\ followed = (inr followed_snapshot, followed.2).
Proof.
  pose proof followed_roles as H. unfold followed_snapshot. destruct followed as [[e|s] w]; [discriminate H|].
  cbn [answered fst snd default fmap option_fmap option_map] in *. injection H as H _.
  split; [exact H|reflexivity].
Qed.

Lemma followed_equation : reconcile_snapshot ready_env 2 stale_snapshot ready_cycle.2 = followed.
Proof. unfold followed. reflexivity. Qed.

Lemma reconciled_targets_follow_plan_witness :
  exists w1 assignments mappings,
    told ready_env w1 1 assignments mappings /\
    (forall id, id ∈ mapped_candidates assignments mappings -> id ∈ map target_id (ts_targets followed_snapshot)) /\
    (0 < 2 -> critical_count (ts_targets followed_snapshot) <= 2).
Proof.
  destruct (reconciled_targets_follow_plan ready_env 2 stale_snapshot ready_cycle.2 followed_snapshot followed.2
    (eq_trans followed_equation (proj2 followed_run))) as (state & w1 & _ & H).
  destruct (_ =? _).
  - exfalso. pose proof (proj1 followed_run) as Hg. rewrite H in Hg. discriminate Hg.
  - destruct H as (assignments & mappings & Htold & _ & Hall & _ & Hlimit). rewrite (proj1 followed_run) in Htold.
    exists w1, assignments, mappings. split; [exact Htold|]. split; [exact Hall|exact Hlimit].
Defined.

(** ** Two runs and one plan *)











