(* ===== verification/QualityComparison.v ===== *)
(** Comparing the quality of routes (qoe/http_diagnostics.go,
    controller/qoe_comparison.go): the safe form of HTTP checks, the measurements that
    are kept to compare with, when the checks of another route confirm a failure, and
    which routes are asked to serve as controls. *)
From Stdlib Require Import Floats.
From S2P Require Import Prelude Effects GoOrder GoFloat GoStrings GoSort QoE DataPlan Handlers StoreTables RouteRecovery CandidateState.
From S2P Require Import PlanRendering.

#[local] Open Scope Z_scope.

(** ** Safe checks (qoe/http_diagnostics.go) *)

Definition one_of (known : list string) (fallback value : string) : string :=
  if existsb (str_eqb value) known then value else fallback.

Definition known_services : list string :=
  ["youtube"; "chatgpt"; "openai"; "telegram"; "telegram_obfuscated"; "telegram_padded";
   "instagram"; "qoe_endpoint"]%string.
Definition known_phases : list string :=
  ["request"; "dns"; "connect"; "tls"; "headers"; "body"; "status"]%string.
Definition known_codes : list string :=
  ["ok"; "timeout"; "budget_exhausted"; "canceled"; "dns"; "tls"; "transport"; "body"; "http_status";
   "invalid_request"]%string.

Definition safe_check (c : HTTPCheck) : HTTPCheck := {|
  QoE.h_Service := one_of known_services "custom" (QoE.h_Service c);
  QoE.h_Path := one_of ["route"; "control"]%string "unknown" (QoE.h_Path c);
  QoE.h_Phase := one_of known_phases "request" (QoE.h_Phase c);
  QoE.h_Code := one_of known_codes "transport" (QoE.h_Code c);
  QoE.h_Status := if (QoE.h_Status c <? 100) || (599 <? QoE.h_Status c) then 0 else QoE.h_Status c;
  QoE.h_ElapsedMS := Z.min 600000 (Z.max 0 (QoE.h_ElapsedMS c));
  QoE.h_OK := QoE.h_OK c |}.

Definition path_index (path : string) : nat :=
  if str_eqb path "route" then 1 else if str_eqb path "control" then 2 else 0.

(** At most sixteen checks of a path are kept; [perPath] counts them. *)
Fixpoint keep_safe (perPath : list nat) (checks : list HTTPCheck) : list HTTPCheck :=
  match checks with
  | [] => []
  | check :: rest =>
      let c := safe_check check in
      let i := path_index (QoE.h_Path c) in
      let n := default 0%nat (perPath !! i) in
      if Nat.eqb n 16 then keep_safe perPath rest else c :: keep_safe (<[i := S n]> perPath) rest
  end.

Definition check_less (a b : HTTPCheck) : bool :=
  str_ltb (QoE.h_Path a ++ QoE.h_Service a)%string (QoE.h_Path b ++ QoE.h_Service b)%string.

Definition SafeHTTPChecks (checks : list HTTPCheck) : list HTTPCheck :=
  sort_slice check_less (keep_safe [0; 0; 0]%nat (take 32 checks)).

Definition check_field (c : HTTPCheck) : string :=
  (QoE.h_Path c ++ "/" ++ QoE.h_Service c ++ ":" ++ QoE.h_Phase c ++ ":" ++ QoE.h_Code c ++ ":http_" ++
   decimal (QoE.h_Status c) ++ ":" ++ decimal (QoE.h_ElapsedMS c) ++ "ms")%string.

Definition HTTPFailureSummary (checks : list HTTPCheck) : string :=
  let safe := SafeHTTPChecks checks in
  let failed := List.filter (fun c => negb (QoE.h_OK c)) safe in
  let count path l := decimal (Z.of_nat (length (List.filter (fun c => str_eqb (QoE.h_Path c) path) l))) in
  match failed with
  | [] => EmptyString
  | _ => (" route_failed=" ++ count "route" failed ++ "/" ++ count "route" safe ++
          " control_failed=" ++ count "control" failed ++ "/" ++ count "control" safe ++
          " checks=" ++ String.concat "," (map check_field failed))%string
  end.

(** ** Independent routes *)

Definition differ (a b : string) : bool :=
  negb (str_eqb a EmptyString) && negb (str_eqb b EmptyString) && negb (str_eqb a b).

(** Unknown identities are not independent. *)
Definition independentQoERoutes (a b : Candidate) : bool :=
  negb (str_eqb (c_ID a) (c_ID b)) && differ (c_Fingerprint a) (c_Fingerprint b) &&
  differ (c_RouteKey a) (c_RouteKey b) && differ (c_FailureDomain a) (c_FailureDomain b).

(** ** What is kept to compare with *)

Definition qoeComparisonMaxAge : Duration := 30 * second.
Definition qoeComparisonEntries : Z := 64.

Record qoeComparison := {
  cmp_candidate : Candidate;
  cmp_generation : Z;
  cmp_at : Time;
  cmp_policy : string;
  cmp_checks : list HTTPCheck;
  cmp_version : Z
}.

Record Comparisons := {
  comparisons : gmap string qoeComparison;
  controlRequests : gmap string Time;
  comparisonVersion : Z
}.

#[export] Instance Comparisons_eta : Eta Comparisons := fun c =>
  Build_Comparisons (comparisons c) (controlRequests c) (comparisonVersion c).

Definition no_comparisons : Comparisons :=
  {| comparisons := ∅; controlRequests := ∅; comparisonVersion := 0 |}.

Definition forgetComparison (id : string) (s : Comparisons) : Comparisons :=
  s <| comparisons := delete id (comparisons s) |>.

(** The oldest entry, the first that is met of those of one time. *)
Definition oldest_entry (l : list (string * qoeComparison)) : string :=
  (fold_left (fun '(oldestID, oldest) '(id, entry) =>
     if str_eqb oldestID EmptyString || before (cmp_at entry) oldest then (id, cmp_at entry)
     else (oldestID, oldest)) l (EmptyString, zero_time)).1.

Definition comparable_policy (policy : string) : bool :=
  negb (str_eqb policy EmptyString) && (Z.of_nat (String.length policy) <=? 64).

Definition route_checks (checks : list HTTPCheck) : list HTTPCheck :=
  take 16 (List.filter (fun c => str_eqb (QoE.h_Path c) "route") (SafeHTTPChecks checks)).

(** [range] is the order in which the range over the map meets the entries. *)
Definition make_room (range : gmap string qoeComparison -> list (string * qoeComparison))
    (m : gmap string qoeComparison) : gmap string qoeComparison :=
  if qoeComparisonEntries <=? Z.of_nat (size m) then delete (oldest_entry (range m)) m else m.

Definition rememberComparison (range : gmap string qoeComparison -> list (string * qoeComparison))
    (candidate : Candidate) (generation : Z) (observation : Observation) (at_ : Time)
    (s : Comparisons) : Comparisons :=
  let id := c_ID candidate in
  let kept := delete id (comparisons s) in
  if negb (comparable_policy (o_ComparisonPolicy observation)) ||
     Nat.eqb (length (o_ApplicationChecks observation)) 0
  then s <| comparisons := kept |>
  else
    let version := (comparisonVersion s + 1) `mod` 2 ^ 64 in {|
      comparisons :=
        <[id := {| cmp_candidate := candidate; cmp_generation := generation; cmp_at := at_;
                   cmp_policy := o_ComparisonPolicy observation;
                   cmp_checks := route_checks (o_ApplicationChecks observation);
                   cmp_version := version |}]> (make_room range kept);
      controlRequests := if o_Success observation then delete id (controlRequests s) else controlRequests s;
      comparisonVersion := version |}.

(** ** When the checks of another route confirm a failure *)

(** A service that is checked twice is reached only when both checks succeed. *)
Definition routedQoEOutcomes (checks : list HTTPCheck) : gmap string bool :=
  fold_left (fun result c =>
    if negb (str_eqb (QoE.h_Path c) "route") then result
    else <[QoE.h_Service c := QoE.h_OK c && default true (result !! QoE.h_Service c)]> result) checks ∅.

Definition failure_codes : list string :=
  ["timeout"; "dns"; "tls"; "transport"; "body"; "http_status"]%string.

(** All checks of the service on the route failed on the way, and there is one. *)
Definition route_failure (target : Observation) (service : string) : bool :=
  let mine := List.filter (fun c => str_eqb (QoE.h_Path c) "route" && str_eqb (QoE.h_Service c) service)
                (o_ApplicationChecks target) in
  negb (Nat.eqb (length mine) 0) &&
  forallb (fun c => negb (QoE.h_OK c) && existsb (str_eqb (QoE.h_Code c)) failure_codes) mine.

Definition confirmsHTTPFailure (target : Observation) (checks : list HTTPCheck) : bool :=
  let failed := routedQoEOutcomes (o_ApplicationChecks target) in
  let peer := routedQoEOutcomes checks in
  let works service := default false (peer !! service) in
  if negb (str_eqb (o_ErrorCode target) ReasonApplicationGates)
  then route_failure target "qoe_endpoint" && works "qoe_endpoint"%string
  else if existsb (fun service => route_failure target service && works service)
            ["youtube"; "telegram"; "telegram_obfuscated"; "telegram_padded"]%string
  then true
  else
    let fails service := negb (default false (failed !! service)) in
    fails "chatgpt"%string && fails "openai"%string &&
    bool_decide (is_Some (failed !! "chatgpt"%string)) && bool_decide (is_Some (failed !! "openai"%string)) &&
    route_failure target "chatgpt" && route_failure target "openai" &&
    (works "chatgpt"%string || works "openai"%string).

Definition comparableHTTPFailure (observation : Observation) : bool :=
  o_UnconfirmedHTTP observation && negb (o_Success observation) &&
  comparable_policy (o_ComparisonPolicy observation) &&
  existsb (str_eqb (o_ErrorCode observation))
    [ReasonRouteTimeout; ReasonRouteTLS; ReasonRouteTransport; ReasonApplicationGates;
     "qoe_endpoint_http"; "qoe_endpoint_size"]%string.

(** Entries that may be compared with, the latest first. *)
Definition comparison_eligible (candidate : Candidate) (observation : Observation) (now : Time)
    (entry : qoeComparison) : bool :=
  str_eqb (cmp_policy entry) (o_ComparisonPolicy observation) && negb (after (cmp_at entry) now) &&
  (time_sub now (cmp_at entry) <=? qoeComparisonMaxAge) &&
  independentQoERoutes candidate (cmp_candidate entry).

Definition comparison_less (a b : qoeComparison) : bool :=
  if time_equal (cmp_at a) (cmp_at b) then str_ltb (c_ID (cmp_candidate a)) (c_ID (cmp_candidate b))
  else after (cmp_at a) (cmp_at b).

Definition comparison_entries (candidate : Candidate) (observation : Observation) (now : Time)
    (m : gmap string qoeComparison) : list qoeComparison :=
  sort_slice comparison_less
    (List.filter (comparison_eligible candidate observation now) (map snd (map_to_list m))).

(** The store still shows the route that was measured, healthy and in use. *)
Definition control_current (now : Time) (entry : qoeComparison) (row : CandidateRoutingEvidence) : bool :=
  let c := e_Candidate row in
  let measured := cmp_candidate entry in
  str_eqb (c_Fingerprint c) (c_Fingerprint measured) && str_eqb (c_RouteKey c) (c_RouteKey measured) &&
  str_eqb (c_FailureDomain c) (c_FailureDomain measured) &&
  (e_FailureGeneration row =? cmp_generation entry) &&
  match e_Health row with
  | Some h => hl_Available h && negb (hl_ActiveHardFailure h) && hl_TCPQualified h
  | None => false
  end &&
  match e_Probe row with
  | Some p => str_eqb (ps_Status p) CandidateQualified && negb (ps_Stale p) && ps_InWorkingPool p &&
              negb (ps_Draining p)
  | None => false
  end &&
  match e_QoE row with Some s => negb (bool_decide (QoE.status s = StatusDegraded)) | None => true end &&
  match e_FailureDomain row with Some f => negb (after (fd_OpenUntil f) now) | None => true end.

(** A Tor bridge serves as a control only while its profile is warm. *)
Definition control_ready (warm : string -> bool) (c : Candidate) : bool :=
  negb (str_eqb (c_Kind c) KindTorBridge) || warm (c_ID c).

Definition independent_of (c : Candidate) (others : list Candidate) : bool :=
  forallb (independentQoERoutes c) others.

(** ** Asking for controls *)

Definition requestQoEControl (candidate : Candidate) (at_ : Time) (s : Comparisons) : Comparisons :=
  if Z.of_nat (size (controlRequests s)) <? qoeComparisonEntries
  then s <| controlRequests := <[c_ID candidate := at_]> (controlRequests s) |>
  else s.

Definition request_current (now at_ : Time) : bool :=
  negb (after at_ now || (minute <? time_sub now at_)).

Definition expire_requests (now : Time) (s : Comparisons) : Comparisons :=
  s <| controlRequests := filter (fun '(_, at_) => request_current now at_ = true) (controlRequests s) |>.

(** The first controls in order that a target can be compared with, two at most over all
    targets. *)
Fixpoint controls_for (admissible : Candidate -> bool) (target : Candidate) (pool routes : list Candidate) :
    list Candidate :=
  match pool with
  | [] => routes
  | control :: rest =>
      if admissible control && independentQoERoutes target control && independent_of control routes
      then
        let routes := routes ++ [control] in
        if Nat.eqb (length routes) 2 then routes else controls_for admissible target rest routes
      else controls_for admissible target rest routes
  end.

Fixpoint controls_of (admissible : Candidate -> bool) (targets pool routes : list Candidate) :
    list Candidate :=
  match targets with
  | [] => routes
  | target :: rest =>
      let routes := controls_for admissible target pool routes in
      if Nat.eqb (length routes) 2 then routes else controls_of admissible rest pool routes
  end.

Definition requested_controls (requests : gmap string Time) (candidates : gmap string Candidate)
    (qualified warm : string -> bool) : list Candidate :=
  let targets := omap (fun id => candidates !! id) (sort_strings (map fst (map_to_list requests))) in
  let pool := omap (fun id => candidates !! id) (sort_strings (map fst (map_to_list candidates))) in
  controls_of (fun c => qualified (c_ID c) && control_ready warm c) targets pool [].
