(* ===== verification/QualityMonitor.v ===== *)
(** The monitor of quality (controller/qoe_monitor.go, store/qoe.go): one probe of a
    route, what the store makes of its measurement, the signals of UDP, the windows of
    diagnostics, and the comparison with controls ([compareHTTPFailure] of
    controller/qoe_comparison.go).

    Workers share the state of the monitor.  It is kept as the history of what happened
    to it under its mutex, by this worker and by the others; an environment decides from
    the calls so far what the others do before the next step. *)
From Stdlib Require Import Floats.
From S2P Require Import Prelude Effects GoOrder GoFloat GoStrings GoSort QoE DataPlan Handlers StoreTables RouteRecovery CandidateState Observations RoutingSnapshot.
From S2P Require Inventory ActiveMonitor.
From S2P Require Import PlanRendering QualityComparison.

#[local] Open Scope Z_scope.
#[local] Open Scope effect_scope.

(** ** The tables of quality (store/qoe.go) *)

(** Durations are kept as milliseconds in a float. *)
Record QoESampleRow := {
  qs_id : Z;
  qs_candidate_id : string;
  qs_success : bool;
  qs_bad : bool;
  qs_reason : string;
  qs_ttfb_ms : float;
  qs_transfer_ms : float;
  qs_bytes : Z;
  qs_throughput_mbps : float;
  qs_effective_ms : float;
  qs_created_at : Z
}.

(** A row of [events] that this part writes; the text of a transition is kept as what it
    is made of. *)
Inductive QualityEvent :=
  | MessageEvent (event : ActiveMonitor.Event)
  | TransitionEvent (kind id reason : string) (ttfb : Duration) (throughput : float)
      (bad valid : Z) (at_ : Time).

Record QualityStore := {
  qd_db : Database;
  qd_samples : list QoESampleRow;
  qd_events : list QualityEvent
}.

#[export] Instance QualityStore_eta : Eta QualityStore := fun d =>
  Build_QualityStore (qd_db d) (qd_samples d) (qd_events d).

Inductive QualityError :=
  | QualityStoreFailed (e : StoreError)
  | WindowSizeInvalid | AvailabilityWindowInvalid | AvailabilityFailuresInvalid
  | ObservationSuperseded
  | QualityCanceled.

Abbreviation QTx A := (Prog QualityStore QualityError A).

(** As in StoreTables.v, over the tables of this part too. *)
Definition quality_transaction {A : Type} (o : Outcome) (body : QTx A) : QTx A := fun d =>
  match o with
  | Interrupted => (inl (QualityStoreFailed SqlFailed), d)
  | _ =>
      match body d with
      | (inl e, _) => (inl e, d)
      | (inr a, d') =>
          match o with
          | Commits => (inr a, d')
          | CommitUnreported => (inl (QualityStoreFailed SqlFailed), d')
          | _ => (inl (QualityStoreFailed SqlFailed), d)
          end
      end
  end.

Definition in_db {A : Type} (m : Tx A) : QTx A := fun d =>
  match m (qd_db d) with
  | (inl e, db) => (inl (QualityStoreFailed e), d <| qd_db := db |>)
  | (inr a, db) => (inr a, d <| qd_db := db |>)
  end.

Definition milliseconds (d : Duration) : float := (float_of_Z d / float_of_Z 1000000)%float.
Definition durationFromMilliseconds (v : float) : Duration := int64_of_float (v * float_of_Z 1000000)%float.

(** A duration, and an instant, as they come back from the table. *)
Definition kept_ms (d : Duration) : Duration := durationFromMilliseconds (milliseconds d).
Definition kept_time (t : Time) : Time := nullable_time (unix_or_nil t).

(** A row of [candidate_qoe_state] is what reading it gives. *)
Definition saved_state (s : State) : State := {|
  CandidateID := CandidateID s; status := status s; BaselineTTFB := kept_ms (BaselineTTFB s);
  BaselineThroughputMbps := BaselineThroughputMbps s; BaselineSamples := BaselineSamples s;
  CurrentTTFB := kept_ms (CurrentTTFB s); CurrentThroughputMbps := CurrentThroughputMbps s;
  WindowValid := WindowValid s; WindowBad := WindowBad s; WindowStartedAt := kept_time (WindowStartedAt s);
  WindowMaxGap := kept_ms (WindowMaxGap s); MedianEffectiveTime := kept_ms (MedianEffectiveTime s);
  MedianTTFB := kept_ms (MedianTTFB s); MedianThroughputMbps := MedianThroughputMbps s;
  LastValidAt := kept_time (LastValidAt s); LastReason := LastReason s;
  DegradedAt := kept_time (DegradedAt s); RecoveredAt := kept_time (RecoveredAt s);
  UpdatedAt := of_unix (time_unix (UpdatedAt s)) |}.

Definition new_state (id : string) : State := {|
  CandidateID := id; status := StatusLearning; BaselineTTFB := 0; BaselineThroughputMbps := 0;
  BaselineSamples := 0; CurrentTTFB := 0; CurrentThroughputMbps := 0; WindowValid := 0; WindowBad := 0;
  WindowStartedAt := zero_time; WindowMaxGap := 0; MedianEffectiveTime := 0; MedianTTFB := 0;
  MedianThroughputMbps := 0; LastValidAt := zero_time; LastReason := EmptyString;
  DegradedAt := zero_time; RecoveredAt := zero_time; UpdatedAt := zero_time |}.

Definition loadCandidateQoEStateTx (id : string) (d : QualityStore) : State :=
  default (new_state id) (candidate_qoe_state (qd_db d) !! id).

Definition scanCandidateQoESample (r : QoESampleRow) : Sample := {|
  m_At := of_unix (qs_created_at r); m_Valid := true; m_Success := qs_success r; m_Bad := qs_bad r;
  m_Reason := qs_reason r; m_TTFB := durationFromMilliseconds (qs_ttfb_ms r);
  m_TransferDuration := durationFromMilliseconds (qs_transfer_ms r); m_Bytes := qs_bytes r;
  m_ThroughputMbps := qs_throughput_mbps r;
  m_EffectiveTime := durationFromMilliseconds (qs_effective_ms r) |}.

(** Rows stand in the order of their numbers, so that this is by time and number. *)
Definition by_created (a b : QoESampleRow) : bool := qs_created_at a <? qs_created_at b.

Definition sample_rows (id : string) (successesOnly : bool) (d : QualityStore) : list QoESampleRow :=
  sort_slice by_created
    (List.filter (fun r => str_eqb (qs_candidate_id r) id && (negb successesOnly || qs_success r))
       (qd_samples d)).

(** The latest samples, oldest first. *)
Definition loadCandidateQoESamplesTx (id : string) (successesOnly : bool) (limit : Z) (d : QualityStore) :
    list Sample :=
  map scanCandidateQoESample (last_n (Z.to_nat limit) (sample_rows id successesOnly d)).

Definition next_sample_id (l : list QoESampleRow) : Z := 1 + fold_left (fun n r => Z.max n (qs_id r)) l 0.

Definition appendCandidateQoESampleTx (id : string) (s : Sample) (d : QualityStore) : QualityStore :=
  d <| qd_samples := qd_samples d ++ [{|
    qs_id := next_sample_id (qd_samples d); qs_candidate_id := id; qs_success := m_Success s;
    qs_bad := m_Bad s; qs_reason := m_Reason s; qs_ttfb_ms := milliseconds (m_TTFB s);
    qs_transfer_ms := milliseconds (m_TransferDuration s); qs_bytes := m_Bytes s;
    qs_throughput_mbps := m_ThroughputMbps s; qs_effective_ms := milliseconds (m_EffectiveTime s);
    qs_created_at := time_unix (m_At s) |}] |>.

Definition upsertCandidateQoEStateTx (s : State) (d : QualityStore) : QualityStore :=
  d <| qd_db := (qd_db d) <| candidate_qoe_state :=
         <[CandidateID s := saved_state s]> (candidate_qoe_state (qd_db d)) |> |>.

Definition candidateQoETransitionEvent (s : State) (t : Transition) : option QualityEvent :=
  if negb (Changed t) then None
  else
    let event kind := Some (TransitionEvent kind (CandidateID s) (LastReason s) (CurrentTTFB s)
                              (CurrentThroughputMbps s) (WindowBad s) (WindowValid s) (UpdatedAt s)) in
    if decide (To t = StatusDegraded) then event "candidate_qoe_degraded"%string
    else if decide (From_ t = StatusDegraded) then event "candidate_qoe_recovered"%string
    else None.

(** The last failure over all rows of the candidate. *)
Definition last_failure (id : string) (d : QualityStore) : option Z :=
  fold_left (fun last '(_, r) =>
    if negb (str_eqb (pr_candidate_id r) id) then last
    else match last, pr_last_failure_at r with
         | Some a, Some b => Some (Z.max a b)
         | None, b => b
         | a, None => a
         end) (map_to_list (candidate_probe_state (qd_db d))) None.

(** Samples that are neither too old, nor later than the measurement, nor from before
    the last failure. *)
Definition current_sample (at_ : Time) (failure : option Z) (s : Sample) : bool :=
  negb (time_is_zero (m_At s)) && negb (before (m_At s) (time_add at_ (- EvidenceMaxAge))) &&
  negb (after (m_At s) at_) &&
  match failure with Some t => t <? time_unix (m_At s) | None => true end.

Definition failure_generation (id : string) (d : QualityStore) : Z :=
  match candidate_health (qd_db d) !! id with Some r => h_failure_generation r | None => 0 end.

Definition CandidateQoEGeneration (o : Outcome) (id : string) : QTx Z :=
  quality_transaction o (get (failure_generation id)).

Definition check_policy (p : Policy) : QTx unit :=
  check (negb ((WindowSize p <? 1) || (MaxWindowSize <? WindowSize p))) WindowSizeInvalid ;;;
  check (negb ((AvailabilityWindow p <? 1) || (MaxWindowSize <? AvailabilityWindow p)))
    AvailabilityWindowInvalid ;;;
  check (negb ((AvailabilityFailures p <? 1) || (AvailabilityWindow p <? AvailabilityFailures p)))
    AvailabilityFailuresInvalid.

(** What the rules of quality decide on the current evidence, as it is written down. *)
Definition quality_decision (p : Policy) (c : Candidate) (x : Observation) (d : QualityStore) : Decision :=
  let id := c_ID c in
  let current := List.filter (current_sample (o_At x) (last_failure id d)) in
  let recent := current (loadCandidateQoESamplesTx id false (Z.max (WindowSize p) (AvailabilityWindow p)) d) in
  let successes := current (loadCandidateQoESamplesTx id true (WindowSize p) d) in
  let decision := Apply p (loadCandidateQoEStateTx id d) recent successes x in
  let state := d_State decision in {|
    d_State := state <| CandidateID := id |> <| LastReason := boundedSafeText (LastReason state) 64 |>;
    d_Sample := match d_Sample decision with
                | Some s => Some (s <| m_Reason := boundedSafeText (m_Reason s) 64 |>)
                | None => None
                end;
    d_Transition := d_Transition decision |}.

Definition write_decision (id : string) (decision : Decision) (d : QualityStore) : QualityStore :=
  let d := match d_Sample decision with Some s => appendCandidateQoESampleTx id s d | None => d end in
  let d := upsertCandidateQoEStateTx (d_State decision) d in
  match candidateQoETransitionEvent (d_State decision) (d_Transition decision) with
  | Some event => d <| qd_events := qd_events d ++ [event] |>
  | None => d
  end.

(** [generation] is the failure generation that was read before the measurement. *)
Definition recordCandidateQoE (o : Outcome) (c : Candidate) (x : Observation) (p : Policy)
    (generation : option Z) : QTx (State * Transition) :=
  check_policy p ;;;
  quality_transaction o (
    current <- in_db (candidateReferencedRoutableTx c) ;;
    check current (QualityStoreFailed CandidateNoLongerCurrent) ;;;
    now <- get (failure_generation (c_ID c)) ;;
    check (from_option (Z.eqb now) true generation) ObservationSuperseded ;;;
    decision <- get (quality_decision p c x) ;;
    modify (write_decision (c_ID c) decision) ;;;
    ret (d_State decision, d_Transition decision)).

Definition RecordCandidateQoE (o : Outcome) (c : Candidate) (x : Observation) (p : Policy) :=
  recordCandidateQoE o c x p None.
Definition RecordCandidateQoEObserved (o : Outcome) (c : Candidate) (x : Observation) (p : Policy)
    (generation : Z) := recordCandidateQoE o c x p (Some generation).

Definition ListCandidateQoEStates (o : Outcome) : QTx (list State) :=
  quality_transaction o (get (fun d =>
    sort_slice (fun a b => str_ltb (CandidateID a) (CandidateID b))
      (map snd (map_to_list (candidate_qoe_state (qd_db d)))))).

(** The latest first. *)
Definition ListCandidateQoESamples (o : Outcome) (id : string) (limit : Z) : QTx (list Sample) :=
  if limit <=? 0 then ret []
  else quality_transaction o (get (fun d => rev (loadCandidateQoESamplesTx id false limit d))).

(** The oldest rows go first, at most a batch of them. *)
Definition PruneCandidateQoESamples (o : Outcome) (olderThan : Time) (batch : Z) : QTx Z :=
  if batch <=? 0 then ret 0
  else quality_transaction o (
    victims <- get (fun d => map qs_id (take (Z.to_nat batch) (sort_slice by_created
                 (List.filter (fun r => qs_created_at r <? time_unix olderThan) (qd_samples d))))) ;;
    modify (fun d => d <| qd_samples :=
      List.filter (fun r => negb (bool_decide (qs_id r ∈ victims))) (qd_samples d) |>) ;;;
    ret (Z.of_nat (length victims))).

(** ** Answers of the agent (agentapi/probe_failure.go) *)

Inductive FailureClass := FailureNone | FailureCandidate | FailureInfrastructure.

#[export] Instance FailureClass_eq_dec : EqDecision FailureClass.
Proof. solve_decision. Defined.

Record ProbeDiagnostics := {
  pd_Phase : string; pd_QueueMS : Z; pd_ElapsedMS : Z; pd_RuntimeStatus : string; pd_RuntimeEpoch : Z
}.

Record ProbeResponse := {
  re_Diagnostics : option ProbeDiagnostics;
  re_CandidateID : string;
  re_FailureClass : FailureClass;
  re_ErrorCode : string;
  re_QoE : option Observation
}.

#[export] Instance ProbeResponse_eta : Eta ProbeResponse := fun r =>
  Build_ProbeResponse (re_Diagnostics r) (re_CandidateID r) (re_FailureClass r) (re_ErrorCode r) (re_QoE r).

Inductive AgentError := AgentProbeError (code phase : string) | AgentCanceled | AgentDeadline | AgentOther.

Definition infrastructure_codes : list string :=
  ["agent_unavailable"; "agent_transport"; "agent_deadline"; "agent_canceled"; "agent_response_invalid";
   "agent_http_error"; "worker_timeout"; "probe_runtime_unavailable"; "probe_runtime_interrupted";
   "probe_setup_failed"; "probe_cleanup_failed"; "probe_infrastructure"; "probe_timeout"; "probe_canceled";
   "tor_profile_unavailable"; "qoe_endpoint_unavailable"; "qoe_endpoint_http"; "qoe_endpoint_size";
   "qoe_endpoint_malformed"; "qoe_dns_unavailable"; "qoe_application_gates_unavailable";
   "qoe_measurement_canceled"; "qoe_proxy_unavailable"]%string.

Definition safeInfrastructureCode : string -> string := one_of infrastructure_codes "probe_infrastructure".
Definition IsProbeInfrastructureCode (code : string) : bool :=
  negb (str_eqb code EmptyString) && str_eqb (safeInfrastructureCode code) code.
Definition safeProbePhase : string -> string :=
  one_of ["admission"; "queue"; "runtime"; "configure"; "measure"; "cleanup"; "transport"; "response"]%string
    "measure".
Definition safeRuntimeStatus : string -> string :=
  one_of ["ready"; "draining"; "starting"; "restarting"; "closed"; "not_started"]%string "unknown".

Definition sanitize (d : ProbeDiagnostics) : ProbeDiagnostics := {|
  pd_Phase := safeProbePhase (pd_Phase d); pd_QueueMS := Z.min 600000 (Z.max 0 (pd_QueueMS d));
  pd_ElapsedMS := Z.min 600000 (Z.max 0 (pd_ElapsedMS d));
  pd_RuntimeStatus := safeRuntimeStatus (pd_RuntimeStatus d); pd_RuntimeEpoch := pd_RuntimeEpoch d |}.

Definition ProbeFailureDetails (response : ProbeResponse) (err : option AgentError) : string * string :=
  let '(code, phase) :=
    match err with
    | None => (safeInfrastructureCode (re_ErrorCode response), "measure"%string)
    | Some (AgentProbeError code phase) => (safeInfrastructureCode code, safeProbePhase phase)
    | Some AgentCanceled => ("agent_canceled", "transport")%string
    | Some AgentDeadline => ("agent_deadline", "transport")%string
    | Some AgentOther => ("agent_transport", "transport")%string
    end in
  let d := sanitize (default {| pd_Phase := phase; pd_QueueMS := 0; pd_ElapsedMS := 0;
                                pd_RuntimeStatus := EmptyString; pd_RuntimeEpoch := 0 |}
                       (re_Diagnostics response)) in
  (code,
   ("phase=" ++ pd_Phase d ++ " queue_ms=" ++ decimal (pd_QueueMS d) ++ " elapsed_ms=" ++
    decimal (pd_ElapsedMS d) ++ " runtime=" ++ pd_RuntimeStatus d ++ " epoch=" ++
    decimal (pd_RuntimeEpoch d) ++
    match re_QoE response with Some x => HTTPFailureSummary (o_ApplicationChecks x) | None => EmptyString end)%string).

(** ** The state that workers share *)

Definition udpFailureThreshold : Z := 2.
Definition udpRecoveryThreshold : Z := 3.

Record udpSignalState := { us_failures : Z; us_successes : Z; us_generation : Z }.
Record qoeDiagnosticWindow := { dw_last : Time; dw_suppressed : Z }.

Record QoEMonitor := {
  inFlight : gset string;
  lastAttempt : gmap string Time;
  lastPrune : Time;
  udpSignals : gmap string udpSignalState;
  infraLast : gmap string qoeDiagnosticWindow;
  compared : Comparisons
}.

#[export] Instance QoEMonitor_eta : Eta QoEMonitor := fun m =>
  Build_QoEMonitor (inFlight m) (lastAttempt m) (lastPrune m) (udpSignals m) (infraLast m) (compared m).

Definition new_quality_monitor : QoEMonitor :=
  {| inFlight := ∅; lastAttempt := ∅; lastPrune := zero_time; udpSignals := ∅; infraLast := ∅;
     compared := no_comparisons |}.

(** The later of the last valid measurement and the last attempt, of those that are not
    in the future. *)
Definition latestQoEAttempt (lastValid attempt now : Time) : Time :=
  let lastValid := if after lastValid now then zero_time else lastValid in
  if negb (after attempt now) && after attempt lastValid then attempt else lastValid.

Definition lastAttemptAt (id : string) (lastValid now : Time) (m : QoEMonitor) : Time :=
  latestQoEAttempt lastValid (default zero_time (lastAttempt m !! id)) now.

Definition due (id : string) (now : Time) (interval : Duration) (lastValid : Time) (m : QoEMonitor) : bool :=
  let last := lastAttemptAt id lastValid now m in
  time_is_zero last || negb (before now (time_add last interval)).

Definition reserve (id : string) (now : Time) (interval : Duration) (lastValid : Time) (m : QoEMonitor) :
    bool * QoEMonitor :=
  if bool_decide (id ∈ inFlight m) then (false, m)
  else if due id now interval lastValid m then (true, m <| inFlight := {[id]} ∪ inFlight m |>)
  else (false, m).

Definition markAttempt (id : string) (at_ : Time) (m : QoEMonitor) : QoEMonitor :=
  m <| lastAttempt := <[id := at_]> (lastAttempt m) |>.
Definition release (id : string) (m : QoEMonitor) : QoEMonitor := m <| inFlight := inFlight m ∖ {[id]} |>.

(** A report of another generation than the last starts anew.  (The generation is a
    variadic argument; the monitor always gives one.) *)
Definition next_udp (reachable : bool) (generation : Z) (s : udpSignalState) : udpSignalState :=
  let s := if us_generation s =? generation then s
           else {| us_failures := 0; us_successes := 0; us_generation := generation |} in
  if reachable
  then {| us_failures := 0;
          us_successes := if us_successes s <? udpRecoveryThreshold then us_successes s + 1
                          else us_successes s;
          us_generation := us_generation s |}
  else {| us_failures := if us_failures s <? udpFailureThreshold then us_failures s + 1 else us_failures s;
          us_successes := 0; us_generation := us_generation s |}.

Definition no_udp : udpSignalState := {| us_failures := 0; us_successes := 0; us_generation := 0 |}.
Definition udp_of (id : string) (m : QoEMonitor) : udpSignalState := default no_udp (udpSignals m !! id).
Definition udp_ready (reachable : bool) (s : udpSignalState) : bool :=
  if reachable then udpRecoveryThreshold <=? us_successes s else udpFailureThreshold <=? us_failures s.

Definition observe_udp (id : string) (reachable : bool) (generation : Z) (m : QoEMonitor) : QoEMonitor :=
  m <| udpSignals := <[id := next_udp reachable generation (udp_of id m)]> (udpSignals m) |>.

(** The window in which a diagnostic is counted, and whether it is written down now. *)
Definition diagnostic_key (key : string) (m : QoEMonitor) : string :=
  if negb (bool_decide (is_Some (infraLast m !! key))) && (63 <=? Z.of_nat (size (infraLast m)))
  then "overflow"%string else key.
Definition no_window : qoeDiagnosticWindow := {| dw_last := zero_time; dw_suppressed := 0 |}.
Definition window_of (key : string) (m : QoEMonitor) : qoeDiagnosticWindow :=
  default no_window (infraLast m !! diagnostic_key key m).
Definition diagnostic_due (key : string) (now : Time) (m : QoEMonitor) : bool :=
  let w := window_of key m in
  time_is_zero (dw_last w) || negb (before now (time_add (dw_last w) minute)).

Definition record_window (key : string) (now : Time) (stored : bool) (m : QoEMonitor) : QoEMonitor :=
  let w := window_of key m in
  let put w := m <| infraLast := <[diagnostic_key key m := w]> (infraLast m) |> in
  if diagnostic_due key now m
  then if stored then put {| dw_last := now; dw_suppressed := 0 |} else m
  else put {| dw_last := dw_last w; dw_suppressed := (dw_suppressed w + 1) `mod` 2 ^ 64 |}.

(** What happens under the mutex of the monitor. *)
Inductive MonitorOp :=
  | OpForget (id : string)
  | OpRemember (range : nat) (candidate : Candidate) (generation : Z) (x : Observation) (at_ : Time)
  | OpRequest (candidate : Candidate) (at_ : Time)
  | OpDropRequest (id : string)
  | OpExpireRequests (now : Time)
  | OpReserve (id : string) (now : Time) (interval : Duration) (lastValid : Time)
  | OpAttempt (id : string) (at_ : Time)
  | OpRelease (id : string)
  | OpUDP (id : string) (reachable : bool) (generation : Z)
  | OpDiagnostic (key : string) (now : Time) (stored : bool)
  | OpPruned (now : Time).

Section Monitor.
Context `{PC : PlanCodec} `{VT : Vault} `{JS : Json} `{MR : MapRange}.

Definition in_comparisons (f : Comparisons -> Comparisons) (m : QoEMonitor) : QoEMonitor :=
  m <| compared := f (compared m) |>.

Definition drop_request (id : string) (s : Comparisons) : Comparisons :=
  s <| controlRequests := delete id (controlRequests s) |>.

Definition monitor_step (m : QoEMonitor) (op : MonitorOp) : QoEMonitor :=
  match op with
  | OpForget id => in_comparisons (forgetComparison id) m
  | OpRemember n c generation x at_ => in_comparisons (rememberComparison (map_range n) c generation x at_) m
  | OpRequest c at_ => in_comparisons (requestQoEControl c at_) m
  | OpDropRequest id => in_comparisons (drop_request id) m
  | OpExpireRequests now => in_comparisons (expire_requests now) m
  | OpReserve id now interval lastValid => (reserve id now interval lastValid m).2
  | OpAttempt id at_ => markAttempt id at_ m
  | OpRelease id => release id m
  | OpUDP id reachable generation => observe_udp id reachable generation m
  | OpDiagnostic key now stored => record_window key now stored m
  | OpPruned now => m <| lastPrune := now |>
  end.

Definition monitor_after (history : list MonitorOp) : QoEMonitor :=
  fold_left monitor_step history new_quality_monitor.

(** ** The world of a worker *)

(** What a worker asks of others, with the answers. *)
Inductive QualityCall :=
  | PayloadRead (id : string)
  | GenerationRead (id : string) (answer : QualityError + Z)
  | RouteProbed (id : string) (answer : ProbeResponse) (err : option AgentError)
  | ReferencesRead (ids : list string) (answer : QualityError + RoutingEvidenceSnapshot)
  | QualityRecorded (c : Candidate) (x : Observation) (generation : Z)
      (answer : QualityError + State * Transition)
  | UDPUpdated (id : string) (qualified : bool) (generation : Z) (answer : QualityError + bool)
  | DiagnosticWritten (event : ActiveMonitor.Event) (answer : QualityError + unit)
  | SamplesPruned (olderThan : Time) (answer : QualityError + Z)
  | PlanningTriggered.

Record QualityEnv := {
  qe_outcome : list QualityCall -> Outcome;
  (** what the other writers of the store do, and the other workers under the mutex *)
  qe_store : list QualityCall -> QualityStore -> QualityStore;
  qe_workers : list QualityCall -> list MonitorOp -> list MonitorOp;
  qe_agent : list QualityCall -> ProbeResponse * option AgentError;
  qe_clock : list QualityCall -> Time;
  qe_canceled : list QualityCall -> bool;
  (** the profiles that are warm and stay *)
  qe_warm : list QualityCall -> string -> bool
}.

Record QualityWorld := {
  qw_store : QualityStore;
  qw_history : list MonitorOp;
  qw_calls : list QualityCall
}.

#[export] Instance QualityWorld_eta : Eta QualityWorld := fun w =>
  Build_QualityWorld (qw_store w) (qw_history w) (qw_calls w).

Abbreviation QualityWork A := (Prog QualityWorld QualityError A).

(** Settings of the monitor. *)
Record QualityOptions := {
  qo_Policy : Policy;
  qo_ActiveInterval : Duration;
  qo_IdleInterval : Duration;
  qo_DegradedInterval : Duration;
  qo_Retention : Duration;
  qo_Workers : Z;
  qo_StandbyCandidates : Z;
  qo_has_trigger : bool
}.

Definition policy (o : QualityOptions) : Policy :=
  if WindowSize (qo_Policy o) <=? 0 then DefaultPolicy else qo_Policy o.
Definition or_default (value fallback : Z) : Z := if 0 <? value then value else fallback.
Definition activeInterval (o : QualityOptions) : Duration := or_default (qo_ActiveInterval o) (30 * second).
Definition idleInterval (o : QualityOptions) : Duration := or_default (qo_IdleInterval o) (5 * minute).
Definition degradedInterval (o : QualityOptions) : Duration := or_default (qo_DegradedInterval o) minute.
Definition retention (o : QualityOptions) : Duration := or_default (qo_Retention o) (7 * 24 * hour).
Definition workerCount (o : QualityOptions) : Z := Z.min 4 (or_default (qo_Workers o) 4).
Definition standbyCandidates (o : QualityOptions) : Z := or_default (qo_StandbyCandidates o) 3.

Section Worker.
Context (env : QualityEnv) (options : QualityOptions).

Definition qcalled (call : QualityCall) (w : QualityWorld) : QualityWorld :=
  w <| qw_calls := qw_calls w ++ [call] |>.

(** The others come first; the answer is written down. *)
Definition quality_call {A : Type} (label : QualityError + A -> QualityCall) (m : Outcome -> QTx A) :
    QualityWork A := fun w =>
  let calls := qw_calls w in
  let '(r, d) := m (qe_outcome env calls) (qe_store env calls (qw_store w)) in
  (r, qcalled (label r) (w <| qw_store := d |>)).

(** The other workers come first, then this one. *)
Definition others_act (w : QualityWorld) : QualityWorld :=
  w <| qw_history := qw_history w ++ qe_workers env (qw_calls w) (qw_history w) |>.
Definition act (op : MonitorOp) : QualityWork unit := modify (fun w =>
  let w := others_act w in w <| qw_history := qw_history w ++ [op] |>).
Definition look {A : Type} (f : QoEMonitor -> A) : QualityWork A := fun w =>
  let w := others_act w in (inr (f (monitor_after (qw_history w))), w).

Definition remember (c : Candidate) (generation : Z) (x : Observation) (at_ : Time) : QualityWork unit := fun w =>
  act (OpRemember (length (qw_history w)) c generation x at_) w.

Definition signalPlanning : QualityWork unit :=
  if qo_has_trigger options then modify (qcalled PlanningTriggered) else ret tt.

(** ** Comparing a failure with controls *)

Definition relabel_control (c : HTTPCheck) : HTTPCheck := {|
  QoE.h_Service := QoE.h_Service c; QoE.h_Path := "control"; QoE.h_Phase := QoE.h_Phase c;
  QoE.h_Code := QoE.h_Code c; QoE.h_Status := QoE.h_Status c; QoE.h_ElapsedMS := QoE.h_ElapsedMS c;
  QoE.h_OK := QoE.h_OK c |}.

(** The controls in turn, two at most that count; the entry must still be the one that
    was read before the store was asked. *)
Fixpoint try_controls (x : Observation) (now : Time) (rows : gmap string CandidateRoutingEvidence)
    (selected : list Candidate) (checks : list HTTPCheck) (entries : list qoeComparison) :
    QualityWork (bool * list HTTPCheck) :=
  match entries with
  | [] => ret (false, checks)
  | entry :: rest =>
      let next := try_controls x now rows selected checks rest in
      match rows !! c_ID (cmp_candidate entry) with
      | None => next
      | Some row =>
          if negb (control_current now entry row) then next
          else fun w =>
            if negb (control_ready (qe_warm env (qw_calls w)) (e_Candidate row)) ||
               negb (independent_of (e_Candidate row) selected)
            then next w
            else
              (latest <- look (fun m => comparisons (compared m) !! c_ID (cmp_candidate entry)) ;;
               if negb (from_option (fun l => cmp_version l =? cmp_version entry) false latest) then next
               else
                 let checks := map relabel_control (cmp_checks entry) in
                 if confirmsHTTPFailure x (cmp_checks entry) then ret (true, checks)
                 else if Nat.eqb (length selected) 1 then ret (false, checks)
                 else try_controls x now rows (selected ++ [e_Candidate row]) checks rest) w
      end
  end.

Definition compareHTTPFailure (c : Candidate) (x : Observation) (now : Time) :
    QualityWork (bool * list HTTPCheck) :=
  if negb (comparableHTTPFailure x) then ret (false, [])
  else
    entries <- look (fun m => comparison_entries c x now (comparisons (compared m))) ;;
    match entries with
    | [] => ret (false, [])
    | _ =>
        let ids := map (fun e => c_ID (cmp_candidate e)) entries in
        snapshot <- quality_call (ReferencesRead ids) (fun o => in_db (LoadRoutingReferencesSnapshot o ids)) ;;
        try_controls x now (index_by (fun r => c_ID (e_Candidate r)) (rs_Candidates snapshot)) [] [] entries
    end.

(** ** Diagnostics *)

Definition append_quality_event (o : Outcome) (event : ActiveMonitor.Event) : QTx unit :=
  quality_transaction o (modify (fun d => d <| qd_events := qd_events d ++ [MessageEvent event] |>)).

Definition untimed (c : HTTPCheck) : HTTPCheck := {|
  QoE.h_Service := QoE.h_Service c; QoE.h_Path := QoE.h_Path c; QoE.h_Phase := QoE.h_Phase c;
  QoE.h_Code := QoE.h_Code c; QoE.h_Status := QoE.h_Status c; QoE.h_ElapsedMS := 0;
  QoE.h_OK := QoE.h_OK c |}.

Definition diagnostic_message (code details : string) (suppressed : Z) : string :=
  ("stage=qoe code=" ++ code ++ " " ++ details ++ " suppressed=" ++ decimal suppressed)%string.

(** One step under the mutex, the write included. *)
Definition recordDiagnostic (id kind code details : string) (checks : list HTTPCheck) (now : Time) :
    QualityWork unit := fun w =>
  let w := others_act w in
  let m := monitor_after (qw_history w) in
  let key := (code ++ HTTPFailureSummary (map untimed (SafeHTTPChecks checks)))%string in
  let counted stored w := w <| qw_history := qw_history w ++ [OpDiagnostic key now stored] |> in
  if negb (diagnostic_due key now m) then (inr tt, counted false w)
  else
    let event := {| ActiveMonitor.ev_Kind := kind; ActiveMonitor.ev_CandidateID := id;
      ActiveMonitor.ev_Message := diagnostic_message code details (dw_suppressed (window_of key m));
      ActiveMonitor.ev_CreatedAt := now |} in
    match quality_call (DiagnosticWritten event) (fun o => append_quality_event o event) w with
    | (inr _, w) => (inr tt, counted true w)
    | (inl e, w) => (inl e, counted false w)
    end.

Definition recordInfrastructure (id : string) (response : ProbeResponse) (err : option AgentError)
    (now : Time) : QualityWork unit :=
  let '(code, details) := ProbeFailureDetails response err in
  recordDiagnostic id "probe_infrastructure" code details
    (from_option o_ApplicationChecks [] (re_QoE response)) now.

(** ** One probe *)

Definition applyUDPObservation (id : string) (reachable : bool) (generation : Z) : QualityWork bool :=
  act (OpUDP id reachable generation) ;;;
  s <- get (fun w => udp_of id (monitor_after (qw_history w))) ;;
  if negb (udp_ready reachable s) then ret false
  else
    changed <- quality_call (UDPUpdated id reachable generation)
                 (fun o => in_db (UpdateCandidateUDPQualified o id reachable (Some generation))) ;;
    (if changed then signalPlanning else ret tt) ;;;
    ret changed.

(** Seconds since the sweep began, on its clock; time does not run back. *)
Definition probeTime (sweepAt clockStartedAt : Time) : QualityWork Time := fun w =>
  let elapsed := Z.max 0 (time_sub (qe_clock env (qw_calls w)) clockStartedAt) in
  let t := time_add sweepAt elapsed in
  (inr (t - t `mod` second), w).

(** What a failure of the candidate without a measurement amounts to. *)
Definition failed_with (code : string) : Observation := {|
  o_At := zero_time; o_Success := false; o_Infrastructure := false; o_ErrorCode := code;
  o_TTFB := 0; o_TransferDuration := 0; o_Bytes := 0; o_ThroughputMbps := 0;
  o_ApplicationChecks := []; o_UnconfirmedHTTP := false; o_ComparisonPolicy := EmptyString;
  o_UDPReachable := None |}.

Definition judged (infrastructure : bool) (checks : list HTTPCheck) (x : Observation) : Observation := {|
  o_At := o_At x; o_Success := o_Success x; o_Infrastructure := infrastructure;
  o_ErrorCode := o_ErrorCode x; o_TTFB := o_TTFB x; o_TransferDuration := o_TransferDuration x;
  o_Bytes := o_Bytes x; o_ThroughputMbps := o_ThroughputMbps x;
  o_ApplicationChecks := o_ApplicationChecks x ++ checks; o_UnconfirmedHTTP := o_UnconfirmedHTTP x;
  o_ComparisonPolicy := o_ComparisonPolicy x; o_UDPReachable := o_UDPReachable x |}.

Definition observed_at (at_ : Time) (x : Observation) : Observation := {|
  o_At := at_; o_Success := o_Success x; o_Infrastructure := o_Infrastructure x;
  o_ErrorCode := o_ErrorCode x; o_TTFB := o_TTFB x; o_TransferDuration := o_TransferDuration x;
  o_Bytes := o_Bytes x; o_ThroughputMbps := o_ThroughputMbps x;
  o_ApplicationChecks := o_ApplicationChecks x; o_UnconfirmedHTTP := o_UnconfirmedHTTP x;
  o_ComparisonPolicy := o_ComparisonPolicy x; o_UDPReachable := o_UDPReachable x |}.

(** A failure over HTTP alone counts only when a control confirms it. *)
Definition judge_failure (c : Candidate) (control : bool) (at_ : Time) (x : Observation) : QualityWork Observation :=
  if negb (o_UnconfirmedHTTP x) then ret x
  else
    answer <- compareHTTPFailure c x at_ ;;
    let '(confirmed, checks) := answer in
    (if confirmed then act (OpDropRequest (c_ID c))
     else if control then ret tt
     else act (OpRequest c at_)) ;;;
    ret (judged (negb confirmed) checks x).

Definition diagnose_route (c : Candidate) (kind code : string) (x : Observation) (at_ : Time) : QualityWork unit :=
  recordDiagnostic (c_ID c) kind code (HTTPFailureSummary (o_ApplicationChecks x)) (o_ApplicationChecks x) at_.

(** The measurement is in the store. *)
Definition after_record (c : Candidate) (generation : Z) (x : Observation) (t : Transition) (at_ : Time) :
    QualityWork unit :=
  remember c generation x at_ ;;;
  if o_Infrastructure x
  then diagnose_route c "qoe_comparison_unknown" "qoe_comparison_unknown" x at_
  else
    match o_UDPReachable x with
    | Some reachable => _ <- applyUDPObservation (c_ID c) reachable generation ;; ret tt
    | None => ret tt
    end ;;;
    (if Changed t && bool_decide (To t = StatusDegraded) then signalPlanning else ret tt) ;;;
    (if o_UnconfirmedHTTP x
     then ignore (diagnose_route c "qoe_comparison_confirmed" (o_ErrorCode x) x at_)
     else if str_eqb (o_ErrorCode x) ReasonApplicationGates &&
             negb (Nat.eqb (length (o_ApplicationChecks x)) 0)
     then ignore (diagnose_route c "qoe_application_failure" ReasonApplicationGates x at_)
     else ret tt).

(** Nothing happens when the candidate went away or failed since. *)
Definition record_quality (c : Candidate) (generation : Z) (x : Observation) (at_ : Time) : QualityWork unit :=
  fun w =>
  match quality_call (QualityRecorded c x generation)
          (fun o => RecordCandidateQoEObserved o c x (policy options) generation) w with
  | (inl (QualityStoreFailed CandidateNoLongerCurrent), w) => (inr tt, w)
  | (inl ObservationSuperseded, w) => (inr tt, w)
  | (inl e, w) => (inl e, w)
  | (inr (_, t), w) => after_record c generation x t at_ w
  end.

(** An answer of the agent that is about the route. *)
Definition take_answer (c : Candidate) (control : bool) (generation : Z) (at_ : Time)
    (response : ProbeResponse) : QualityWork unit :=
  if negb (str_eqb (re_CandidateID response) EmptyString) &&
     negb (str_eqb (re_CandidateID response) (c_ID c))
  then ret tt
  else
    let measured :=
      match re_QoE response with
      | Some x => Some x
      | None => if decide (re_FailureClass response = FailureCandidate)
                then Some (failed_with (re_ErrorCode response))
                else None
      end in
    match measured with
    | None => ret tt
    | Some x =>
        x <- judge_failure c control at_ x ;;
        if o_Infrastructure x && negb (o_UnconfirmedHTTP x)
        then act (OpForget (c_ID c)) ;;;
             recordInfrastructure (c_ID c) (response <| re_ErrorCode := o_ErrorCode x |>) None at_
        else record_quality c generation (observed_at at_ x) at_
    end.

Definition unconfirmed (response : ProbeResponse) : bool :=
  match re_QoE response with
  | Some x => o_UnconfirmedHTTP x && negb (o_Success x) && negb (str_eqb (o_ComparisonPolicy x) EmptyString)
  | None => false
  end.

Definition ask_agent (id : string) : QualityWork (ProbeResponse * option AgentError) := fun w =>
  let answer := qe_agent env (qw_calls w) in (inr answer, qcalled (RouteProbed id answer.1 answer.2) w).

(** The attempt counts from its start, and again from its end. *)
Definition ask_route (c : Candidate) (control : bool) (sweepAt clockStartedAt : Time) (generation : Z) :
    QualityWork unit :=
  startedAt <- probeTime sweepAt clockStartedAt ;;
  act (OpAttempt (c_ID c) startedAt) ;;;
  answer <- ask_agent (c_ID c) ;;
  let '(response, err) := answer in
  completedAt <- probeTime sweepAt clockStartedAt ;;
  act (OpAttempt (c_ID c) completedAt) ;;;
  if bool_decide (is_Some err) ||
     bool_decide (re_FailureClass response = FailureInfrastructure) && negb (unconfirmed response)
  then act (OpForget (c_ID c)) ;;;
       canceled <- get (fun w => qe_canceled env (qw_calls w)) ;;
       if canceled : bool then ret tt else recordInfrastructure (c_ID c) response err completedAt
  else take_answer c control generation completedAt response.

Definition measure_route (c : Candidate) (control : bool) (sweepAt clockStartedAt : Time) : QualityWork unit :=
  generation <- quality_call (GenerationRead (c_ID c)) (fun o => CandidateQoEGeneration o (c_ID c)) ;;
  ask_route c control sweepAt clockStartedAt generation.

(** A candidate without a payload is gone. *)
Definition probe (c : Candidate) (control : bool) (sweepAt clockStartedAt : Time) : QualityWork unit := fun w =>
  match quality_call (fun _ => PayloadRead (c_ID c)) (fun o => in_db (Inventory.CandidatePayload o (c_ID c))) w with
  | (inl (QualityStoreFailed NoRows), w) => (inr tt, w)
  | (inl e, w) => (inl e, w)
  | (inr _, w) => measure_route c control sweepAt clockStartedAt w
  end.

(** ** Retention *)

Definition prune (now : Time) : QualityWork unit :=
  last <- look lastPrune ;;
  if negb (time_is_zero last || negb (before now (time_add last hour))) then ret tt
  else
    let olderThan := time_add now (- retention options) in
    _ <- quality_call (SamplesPruned olderThan) (fun o => PruneCandidateQoESamples o olderThan 1000) ;;
    act (OpPruned now).

(** ** What a worker does with its jobs *)

(** The errors of all jobs are kept; every candidate is released. *)
Definition work (sweepAt clockStartedAt : Time) (jobs : list (Candidate * bool)) :
    QualityWork (list QualityError) :=
  foldM (fun errors '(c, control) => fun w =>
    let '(r, w) := probe c control sweepAt clockStartedAt w in
    (act (OpRelease (c_ID c)) ;;;
     ret (match r with inl e => errors ++ [e] | inr _ => errors end)) w) [] jobs.
End Worker.
End Monitor.

(** ** Which routes a sweep measures ([Run]) *)

(** What a sweep reads; [si_warm] are the candidates of warm profiles. *)
Record SweepInputs := {
  si_healths : list CandidateHealth;
  si_probes : list CandidateProbeState;
  si_assignments : list AssignmentRecord;
  si_reserves : list RouteReserveMapping;
  si_clients : list ClientRecord;
  si_states : list State;
  si_candidates : list Candidate;
  si_warm : list string
}.

(** What only sweeps change, one at a time. *)
Record SweepState := {
  standbyRotation : Z;
  standbySamples : gmap string Z;
  standbyExploring : string;
  dispatchCursor : nat;
  backgroundCursor : nat
}.

#[export] Instance SweepState_eta : Eta SweepState := fun s =>
  Build_SweepState (standbyRotation s) (standbySamples s) (standbyExploring s) (dispatchCursor s)
    (backgroundCursor s).

(** Routes in use, and whether a client used them lately; applied reserves count as if
    one had. *)
Definition use_route (is_active : bool) (id : string) (m : gmap string bool) : gmap string bool :=
  if str_eqb id EmptyString then m else <[id := default false (m !! id) || is_active]> m.

Section Sweep.
Context (options : QualityOptions) (now : Time) (i : SweepInputs) (m : QoEMonitor).

Definition si_client (id : string) : option ClientRecord := index_by cli_ID (si_clients i) !! id.
Definition si_health (id : string) : option CandidateHealth := index_by hl_CandidateID (si_healths i) !! id.
Definition si_probe (id : string) : option CandidateProbeState := index_by ps_CandidateID (si_probes i) !! id.
Definition si_state (id : string) : option State := index_by CandidateID (si_states i) !! id.
Definition si_candidate (id : string) : option Candidate := index_by c_ID (si_candidates i) !! id.

Definition is_degraded (id : string) : bool :=
  from_option (fun s => bool_decide (status s = StatusDegraded)) false (si_state id).
Definition last_valid (id : string) : Time := from_option LastValidAt zero_time (si_state id).

Definition assigned_routes : gmap string bool :=
  let used := fold_left (fun m a =>
    match si_client (as_ClientID a) with
    | Some c =>
        if cl_paused (cli_row c) then m
        else
          let is_active := match cl_last_traffic_at (cli_row c) with
                           | Some t => negb (before (of_unix t) (time_add now (- (2 * minute))))
                           | None => false
                           end in
          use_route is_active (as_UDPOutbound a) (use_route is_active (as_TCPOutbound a) m)
    | None => m
    end) (si_assignments i) ∅ in
  fold_left (fun m r =>
    match si_client (rm_ClientID r) with
    | Some c =>
        if cl_paused (cli_row c) then m
        else use_route true (UDPReserveCandidateID r) (use_route true (TCPReserveCandidateID r) m)
    | None => m
    end) (si_reserves i) used.

Definition route_assigned (id : string) : bool := bool_decide (is_Some (assigned_routes !! id)).

Definition qualified_route (id : string) : bool :=
  match si_health id with
  | Some h =>
      hl_Available h && (hl_TCPQualified h || hl_UDPQualified h) &&
      match si_probes i with
      | [] => true
      | _ => match si_probe id with Some p => ps_InWorkingPool p || ps_Draining p | None => false end
      end
  | None => false
  end.

Definition shortestPositiveDuration (values : list Duration) : Duration :=
  fold_left (fun shortest v => if (0 <? v) && ((shortest =? 0) || (v <? shortest)) then v else shortest)
    values 0.

(** Admission is tried at least every second. *)
Definition QoEWakeInterval (active idle degraded : Duration) : Duration :=
  let interval := shortestPositiveDuration [active; idle; degraded] in
  if interval <=? 0 then second else Z.min interval second.

(** The candidates that were selected, with the interval they are due after. *)
Record SelectedRoutes := { se_selected : list Candidate; se_interval : gmap string Duration }.

Definition select_candidate (id : string) (interval : Duration) (s : SelectedRoutes) : SelectedRoutes :=
  if bool_decide (is_Some (se_interval s !! id)) then s
  else match si_candidate id with
       | Some c =>
           if due id now interval (last_valid id) m
           then {| se_selected := se_selected s ++ [c]; se_interval := <[id := interval]> (se_interval s) |}
           else s
       | None => s
       end.

Definition select_assigned (s : SelectedRoutes) : SelectedRoutes :=
  fold_left (fun s id =>
    let interval := if default false (assigned_routes !! id) then activeInterval options
                    else idleInterval options in
    let interval := if is_degraded id
                    then shortestPositiveDuration [interval; degradedInterval options] else interval in
    select_candidate id interval s) (sort_strings (map fst (map_to_list assigned_routes))) s.

Definition select_degraded (s : SelectedRoutes) : SelectedRoutes :=
  let ids := List.filter (fun id =>
    negb (route_assigned id) && is_degraded id &&
    match si_candidate id with
    | Some c => negb (str_eqb (c_Kind c) KindTorBridge) || bool_decide (id ∈ si_warm i)
    | None => false
    end) (map fst (map_to_list (index_by CandidateID (si_states i)))) in
  fold_left (fun s id => select_candidate id (degradedInterval options) s) (sort_strings ids) s.

(** Candidates that could serve, the best score first. *)
Definition standby_less (a b : CandidateHealth) : bool :=
  if PrimFloat.eqb (hl_Score a) (hl_Score b) then str_ltb (hl_CandidateID a) (hl_CandidateID b)
  else fgt (hl_Score a) (hl_Score b).

Definition standby : list CandidateHealth :=
  sort_slice standby_less (List.filter (fun h =>
    let id := hl_CandidateID h in
    match si_candidate id with
    | Some c => str_eqb (c_Kind c) KindVLESS && negb (route_assigned id) && negb (is_degraded id) && qualified_route id
    | None => false
    end) (si_healths i)).

(** How far the ranking has come for one transport. *)
Record Quota := { qt_rank : Z; qt_selected : Z }.

(** All but the last place go by rank; the last one rotates over the others. *)
Definition quota_eligible (limit rotation total : Z) (holds : bool) (q : Quota) : bool :=
  holds && (qt_selected q <? limit) &&
  ((qt_rank q <? limit - 1) ||
   (qt_rank q =? limit - 1 + rotation `mod` Z.max 1 (total - limit + 1))).
Definition quota_next (holds eligible : bool) (q : Quota) : Quota :=
  {| qt_rank := if holds then qt_rank q + 1 else qt_rank q;
     qt_selected := if eligible then qt_selected q + 1 else qt_selected q |}.

(** The standby routes to measure, each with whether it holds a rotating place. *)
Fixpoint pick_standby (limit rotation tcpTotal udpTotal : Z) (tcp udp : Quota) (l : list CandidateHealth) :
    list (string * bool) :=
  match l with
  | [] => []
  | h :: rest =>
      let eligibleTCP := quota_eligible limit rotation tcpTotal (hl_TCPQualified h) tcp in
      let eligibleUDP := quota_eligible limit rotation udpTotal (hl_UDPQualified h) udp in
      let tcp := quota_next (hl_TCPQualified h) eligibleTCP tcp in
      let udp := quota_next (hl_UDPQualified h) eligibleUDP udp in
      if negb eligibleTCP && negb eligibleUDP
      then pick_standby limit rotation tcpTotal udpTotal tcp udp rest
      else
        let exploring := eligibleTCP && (limit <=? qt_rank tcp) || eligibleUDP && (limit <=? qt_rank udp) in
        (hl_CandidateID h, exploring) ::
        (if (limit <=? qt_selected tcp) && (limit <=? qt_selected udp) then []
         else pick_standby limit rotation tcpTotal udpTotal tcp udp rest)
  end.

Definition standby_picks (rotation : Z) : list (string * bool) :=
  let total (f : CandidateHealth -> bool) := Z.of_nat (length (List.filter f standby)) in
  let start := {| qt_rank := 0; qt_selected := 0 |} in
  pick_standby (standbyCandidates options) rotation (total hl_TCPQualified) (total hl_UDPQualified)
    start start standby.

Definition select_standby (rotation : Z) (s : SelectedRoutes) : SelectedRoutes :=
  fold_left (fun s '(id, _) => select_candidate id (activeInterval options) s) (standby_picks rotation) s.

Definition select_warm (s : SelectedRoutes) : SelectedRoutes :=
  fold_left (fun s id =>
    match si_candidate id with
    | Some c => if str_eqb (c_Kind c) KindTorBridge then select_candidate id (activeInterval options) s else s
    | None => s
    end)
    (sort_strings (List.filter (fun id => negb (route_assigned id)) (remove_dups (si_warm i)))) s.

Definition control_qualified (id : string) : bool :=
  match si_candidate id, si_health id, si_probe id with
  | Some c, Some h, Some p =>
      qualified_route id && hl_TCPQualified h && negb (hl_ActiveHardFailure h) &&
      str_eqb (c_Lifecycle c) CandidateLifecycleActive && str_eqb (ps_Status p) CandidateQualified &&
      negb (ps_Stale p) && negb (ps_Draining p) && negb (is_degraded id)
  | _, _, _ => false
  end.

(** Controls are wanted soon.  [ready] are the warm profiles that are not retiring. *)
Definition select_controls (ready : string -> bool) (s : SelectedRoutes) : list string * SelectedRoutes :=
  let requests := filter (fun '(_, at_) => request_current now at_ = true) (controlRequests (compared m)) in
  let controls := map c_ID (requested_controls requests (index_by c_ID (si_candidates i))
                              control_qualified ready) in
  (controls, fold_left (fun s id =>
    match se_interval s !! id with
    | Some interval => {| se_selected := se_selected s;
                          se_interval := <[id := Z.min interval (10 * second)]> (se_interval s) |}
    | None => select_candidate id (10 * second) s
    end) controls s).

Definition selection (ready : string -> bool) (rotation : Z) : list string * SelectedRoutes :=
  select_controls ready (select_warm (select_standby rotation (select_degraded (select_assigned
    {| se_selected := []; se_interval := ∅ |})))).

(** ** Dispatch *)

(** Routes in use come first; standby, degraded and Tor routes are the background. *)
Definition group_of (c : Candidate) : nat :=
  if route_assigned (c_ID c) then 0
  else if str_eqb (c_Kind c) KindTorBridge then 3
  else if is_degraded (c_ID c) then 2 else 1.

Definition attempt_less (a b : Candidate) : bool :=
  let at_ c := lastAttemptAt (c_ID c) (last_valid (c_ID c)) now m in
  if time_equal (at_ a) (at_ b) then str_ltb (c_ID a) (c_ID b) else before (at_ a) (at_ b).

Definition group (l : list Candidate) (n : nat) : list Candidate :=
  sort_slice attempt_less (List.filter (fun c => Nat.eqb (group_of c) n) l).
End Sweep.

Record Lanes := {
  la_critical : list Candidate;
  la_background : list (list Candidate);
  la_dispatch : nat;
  la_cursor : nat
}.

#[export] Instance Lanes_eta : Eta Lanes := fun l =>
  Build_Lanes (la_critical l) (la_background l) (la_dispatch l) (la_cursor l).

(** The first class in turn that has a candidate; the turn moves on with every class that
    is asked. *)
Fixpoint pop_background (tries : nat) (l : Lanes) : option Candidate * Lanes :=
  match tries with
  | O => (None, l)
  | S tries =>
      let class := (la_cursor l mod 3)%nat in
      let l := l <| la_cursor := ((la_cursor l + 1) mod 3)%nat |> in
      match la_background l !! class with
      | Some (c :: rest) => (Some c, l <| la_background := <[class := rest]> (la_background l) |>)
      | _ => pop_background tries l
      end
  end.

(** Every fourth launch is for the background, and those that the routes in use leave. *)
Definition next_pick (l : Lanes) : option Candidate * Lanes :=
  let turn := Nat.eqb (la_dispatch l mod 4) 3 || Nat.eqb (length (la_critical l)) 0 in
  let '(first, l) := if turn then pop_background 3 l else (None, l) in
  let '(c, l) :=
    match first, la_critical l with
    | Some c, _ => (Some c, l)
    | None, c :: rest => (Some c, l <| la_critical := rest |>)
    | None, [] => pop_background 3 l
    end in
  match c with
  | Some c => (Some c, l <| la_dispatch := ((la_dispatch l + 1) mod 4)%nat |>)
  | None => (None, l)
  end.

Definition waiting (l : Lanes) : list Candidate := la_critical l ++ concat (la_background l).

Section Dispatch.
Context (now : Time) (interval : string -> Duration) (valid : string -> Time).

Definition reserve_op (c : Candidate) : MonitorOp :=
  OpReserve (c_ID c) now (interval (c_ID c)) (valid (c_ID c)).

(** As many as there are workers, of those that can be reserved; the reservations that
    were tried come with them. *)
Fixpoint dispatch (fuel workers : nat) (l : Lanes) (m : QoEMonitor) (picked : list Candidate)
    (tried : list MonitorOp) : list Candidate * list MonitorOp * Lanes :=
  match fuel with
  | O => (picked, tried, l)
  | S fuel =>
      if Nat.leb workers (length picked) then (picked, tried, l)
      else match next_pick l with
           | (None, l) => (picked, tried, l)
           | (Some c, l) =>
               let '(ok, m) := reserve (c_ID c) now (interval (c_ID c)) (valid (c_ID c)) m in
               dispatch fuel workers l m (if ok then picked ++ [c] else picked) (tried ++ [reserve_op c])
           end
  end.
End Dispatch.

(** ** A whole sweep *)

Definition exploration_key (ids : list string) : string :=
  String.concat EmptyString (map (fun id => (id ++ String Ascii.zero EmptyString)%string) ids).

(** When every exploring route has its window of samples, the rotation goes on. *)
Definition count_samples (window : Z) (exploring seen : list string) (s : SweepState) : SweepState :=
  let key := exploration_key exploring in
  let s := if str_eqb key (standbyExploring s) then s
           else s <| standbyExploring := key |> <| standbySamples := ∅ |> in
  let samples := fold_left (fun samples id =>
    if bool_decide (id ∈ seen) then <[id := default 0 (samples !! id) + 1]> samples else samples)
    exploring (standbySamples s) in
  if negb (Nat.eqb (length exploring) 0) &&
     forallb (fun id => window <=? default 0 (samples !! id)) exploring
  then s <| standbyRotation := standbyRotation s + 1 |> <| standbySamples := ∅ |>
         <| standbyExploring := EmptyString |>
  else s <| standbySamples := samples |>.

Record Sweep := {
  sw_jobs : list (Candidate * bool);
  sw_ops : list MonitorOp;
  sw_state : SweepState
}.

Definition sweep (options : QualityOptions) (now : Time) (i : SweepInputs) (ready : string -> bool)
    (m : QoEMonitor) (s : SweepState) : Sweep :=
  let '(controls, selected) := selection options now i m ready (standbyRotation s) in
  let l := {| la_critical := group now i m (se_selected selected) 0;
              la_background := [group now i m (se_selected selected) 1;
                                group now i m (se_selected selected) 2;
                                group now i m (se_selected selected) 3];
              la_dispatch := dispatchCursor s; la_cursor := backgroundCursor s |} in
  let '(picked, tried, l) :=
    dispatch now (fun id => default 0 (se_interval selected !! id)) (last_valid i)
      (S (length (waiting l))) (Z.to_nat (workerCount options)) l
      (in_comparisons (expire_requests now) m) [] [] in
  let exploring := map fst (List.filter snd (standby_picks options now i (standbyRotation s))) in {|
    sw_jobs := map (fun c => (c, bool_decide (c_ID c ∈ controls))) picked;
    sw_ops := OpExpireRequests now :: tried;
    sw_state := count_samples (WindowSize (policy options)) exploring (map c_ID picked)
                  (s <| dispatchCursor := la_dispatch l |> <| backgroundCursor := la_cursor l |>) |}.
