(* ===== verification/QualitySafety.v ===== *)
(** What the monitor of quality guarantees (QualityMonitor.v): a failure over HTTP alone
    counts against a route only when the check of an independent, healthy route
    confirms it; UDP moves on streaks of reports; and what is kept in memory is
    bounded. *)
From Stdlib Require Import Floats.
From S2P Require Import Prelude Effects GoOrder GoFloat GoStrings GoSort QoE DataPlan Handlers StoreTables StoreSample RouteRecovery CandidateState Observations RoutingSnapshot.
From S2P Require Inventory ActiveMonitor RenderingSafety.
From S2P Require Import PlanRendering QualityComparison QualityMonitor.

#[local] Open Scope Z_scope.
#[local] Open Scope effect_scope.

(** ** The entries that were made *)

Section Entries.
Context `{MR : MapRange}.

(** The entry that an operation makes, when it makes one, as the one after [n] others. *)
Definition entry_made (op : MonitorOp) (n : nat) : option qoeComparison :=
  match op with
  | OpRemember _ c generation x at_ =>
      if negb (comparable_policy (o_ComparisonPolicy x)) || Nat.eqb (length (o_ApplicationChecks x)) 0
      then None
      else Some {| cmp_candidate := c; cmp_generation := generation; cmp_at := at_;
                   cmp_policy := o_ComparisonPolicy x; cmp_checks := route_checks (o_ApplicationChecks x);
                   cmp_version := (Z.of_nat n + 1) `mod` 2 ^ 64 |}
  | _ => None
  end.

Definition made_step (made : list qoeComparison) (op : MonitorOp) : list qoeComparison :=
  match entry_made op (length made) with Some e => made ++ [e] | None => made end.

Definition made (history : list MonitorOp) : list qoeComparison := fold_left made_step history [].

(** An entry is the measurement of a route that a worker remembered. *)
Definition remembered (history : list MonitorOp) (e : qoeComparison) : Prop :=
  exists n x, OpRemember n (cmp_candidate e) (cmp_generation e) x (cmp_at e) ∈ history /\
    comparable_policy (o_ComparisonPolicy x) = true /\ cmp_policy e = o_ComparisonPolicy x /\
    cmp_checks e = route_checks (o_ApplicationChecks x).

Lemma made_app h1 h2 : made (h1 ++ h2) = fold_left made_step h2 (made h1).
Proof. apply fold_left_app. Qed.

Lemma made_grows h2 l : l `prefix_of` fold_left made_step h2 l.
Proof.
  revert l. induction h2 as [|op h2 IH]; intros l; cbn; [done|]. etrans; [|apply IH].
  unfold made_step. destruct (entry_made op _); [by apply prefix_app_r|done].
Qed.

Lemma made_prefix h1 h2 : h1 `prefix_of` h2 -> made h1 `prefix_of` made h2.
Proof. intros [rest ->]. rewrite made_app. apply made_grows. Qed.

Lemma made_length h : (length (made h) <= length h)%nat.
Proof.
  induction h as [|op h IH] using rev_ind; [done|]. rewrite made_app, length_app. cbn.
  unfold made_step. destruct (entry_made op _); [rewrite length_app|]; cbn; lia.
Qed.

Lemma made_version h i e : made h !! i = Some e -> cmp_version e = (Z.of_nat i + 1) `mod` 2 ^ 64.
Proof.
  induction h as [|op h IH] using rev_ind; [done|]. rewrite made_app. cbn. unfold made_step.
  destruct (entry_made op _) as [e'|] eqn:E; [|exact IH].
  intros [H|[Hi H]]%lookup_app_Some; [by apply IH|].
  apply list_lookup_singleton_Some in H as [Hz <-].
  destruct op; try done. cbn in E. destruct (_ || _); [done|]. injection E as <-. cbn.
  do 2 f_equal. lia.
Qed.

Lemma made_remembered h e : e ∈ made h -> remembered h e.
Proof.
  induction h as [|op h IH] using rev_ind; [by intros ?%elem_of_nil|]. rewrite made_app. cbn. unfold made_step.
  assert (remembered h e -> remembered (h ++ [op]) e) as Hmono.
  { intros (n & x & Hin & H). exists n, x. split; [|done]. apply elem_of_app. by left. }
  destruct (entry_made op _) as [e'|] eqn:E; [|by intros ?%IH%Hmono].
  intros [H|H]%elem_of_app; [by apply Hmono, IH|]. apply list_elem_of_singleton in H as ->.
  destruct op; try done. cbn in E. destruct (_ || _) eqn:Eo; [done|]. injection E as <-. cbn.
  apply orb_false_iff in Eo as [Ep _]. apply negb_false_iff in Ep.
  exists range, x. split_and!; [|done..]. apply elem_of_app. right. by apply list_elem_of_singleton.
Qed.

(** What is kept was made, lies under its candidate, and is bounded. *)
Record comparisons_ok (entries : list qoeComparison) (s : Comparisons) : Prop := {
  co_version : comparisonVersion s = Z.of_nat (length entries) `mod` 2 ^ 64;
  co_made id e : comparisons s !! id = Some e -> e ∈ entries /\ c_ID (cmp_candidate e) = id;
  co_size : Z.of_nat (size (comparisons s)) <= qoeComparisonEntries;
  co_requests : Z.of_nat (size (controlRequests s)) <= qoeComparisonEntries
}.

Lemma size_delete_le {A : Type} (m : gmap string A) k : (size (delete k m) <= size m)%nat.
Proof. rewrite map_size_delete. destruct (m !! k); cbn; lia. Qed.

Lemma oldest_entry_In l : l <> [] -> oldest_entry l ∈ map fst l.
Proof.
  unfold oldest_entry. match goal with |- context [fold_left ?g l _] => set (f := g) end.
  assert (forall l id t, (fold_left f l (id, t)).1 = id \/ (fold_left f l (id, t)).1 ∈ map fst l) as H.
  { intros l'. induction l' as [|[k e] l' IH]; intros id t; cbn; [by left|].
    destruct (_ || _); [destruct (IH k (cmp_at e)) as [->|H]|destruct (IH id t) as [->|H]];
      rewrite ?elem_of_cons; auto. }
  destruct l as [|[k e] l]; [done|]. intros _. cbn. rewrite elem_of_cons.
  destruct (H l k (cmp_at e)); auto.
Qed.

Lemma make_room_ok `{!MapRangeLaws} n m :
  make_room (map_range n) m ⊆ m /\
  (Z.of_nat (size m) <= qoeComparisonEntries ->
   Z.of_nat (size (make_room (map_range n) m)) <= qoeComparisonEntries - 1).
Proof.
  unfold make_room. destruct (_ <=? _) eqn:E; z_bool; [|split; [done|unfold qoeComparisonEntries in *; lia]].
  split; [apply delete_subseteq|]. intros Hm.
  assert (is_Some (m !! oldest_entry (map_range n m))) as [e He].
  { assert (oldest_entry (map_range n m) ∈ map fst (map_range n m)) as Hin.
    { apply oldest_entry_In. intros Hn. pose proof (map_range_perm _ n m) as Hp. rewrite Hn in Hp.
      apply Permutation_nil, map_to_list_empty_iff in Hp. subst m.
      rewrite map_size_empty in E. unfold qoeComparisonEntries in E. lia. }
    apply list_elem_of_fmap in Hin as ([k e] & -> & Hin). rewrite map_range_perm in Hin.
    apply elem_of_map_to_list in Hin. by eexists. }
  rewrite map_size_delete, He. cbn. unfold qoeComparisonEntries in *. lia.
Qed.

Lemma compared_step m op :
  compared (monitor_step m op) =
    match op with
    | OpForget id => forgetComparison id (compared m)
    | OpRemember n c generation x at_ => rememberComparison (map_range n) c generation x at_ (compared m)
    | OpRequest c at_ => requestQoEControl c at_ (compared m)
    | OpDropRequest id => drop_request id (compared m)
    | OpExpireRequests now => expire_requests now (compared m)
    | _ => compared m
    end.
Proof.
  destruct op; cbn; try done.
  - unfold reserve. by repeat case_match.
  - unfold record_window. by repeat case_match.
Qed.

Lemma comparisons_step `{!MapRangeLaws} entries m op : comparisons_ok entries (compared m) ->
  comparisons_ok (made_step entries op) (compared (monitor_step m op)).
Proof.
  intros [Hv Hm Hs Hr]. rewrite compared_step. unfold made_step.
  assert (forall s, comparisonVersion s = comparisonVersion (compared m) ->
    comparisons s ⊆ comparisons (compared m) ->
    Z.of_nat (size (controlRequests s)) <= qoeComparisonEntries -> comparisons_ok entries s) as Hsub.
  { intros s Hvs Hms Hrs. split; [by rewrite Hvs|intros id e He; by eapply Hm, lookup_weaken| |done].
    etrans; [|exact Hs]. apply Nat2Z.inj_le, map_subseteq_size, Hms. }
  destruct op as [id|n c generation x at_|c at_|id|now| | | | | |]; cbn [entry_made];
    try by split.
  - apply Hsub; [done|apply delete_subseteq|done].
  - unfold rememberComparison. destruct (_ || _).
    + apply Hsub; [done|apply delete_subseteq|done].
    + destruct (make_room_ok n (delete (c_ID c) (comparisons (compared m)))) as [Hroom Hsize].
      split; cbn.
      * rewrite Hv, length_app. cbn. rewrite Zplus_mod_idemp_l. f_equal. lia.
      * intros id e He. rewrite elem_of_app, list_elem_of_singleton.
        apply lookup_insert_Some in He as [[<- <-]|[Hne He]].
        -- split; [right|done]. f_equal. rewrite Hv, Zplus_mod_idemp_l. done.
        -- assert (comparisons (compared m) !! id = Some e) as Hold.
           { eapply lookup_weaken; [|apply (delete_subseteq _ (c_ID c))]. by eapply lookup_weaken. }
           destruct (Hm _ _ Hold). auto.
      * rewrite map_size_insert. pose proof (size_delete_le (comparisons (compared m)) (c_ID c)).
        specialize (Hsize ltac:(lia)). destruct (_ !! _); cbn; lia.
      * destruct (o_Success x); [|done].
        pose proof (size_delete_le (controlRequests (compared m)) (c_ID c)). lia.
  - unfold requestQoEControl. destruct (_ <? _) eqn:E; [|by apply Hsub]. z_bool.
    apply Hsub; cbn; [done..|]. rewrite map_size_insert. destruct (_ !! _); cbn; lia.
  - apply Hsub; cbn; [done..|]. pose proof (size_delete_le (controlRequests (compared m)) id). lia.
  - apply Hsub; cbn; [done..|]. etrans; [|exact Hr]. apply Nat2Z.inj_le, map_subseteq_size, map_filter_subseteq.
Qed.

Lemma comparisons_after `{!MapRangeLaws} h : comparisons_ok (made h) (compared (monitor_after h)).
Proof.
  induction h as [|op h IH] using rev_ind.
  - split; cbn; [done|by intros ? ? ?%lookup_empty_Some| |]; by rewrite map_size_empty.
  - unfold monitor_after, made. rewrite !fold_left_app. by apply comparisons_step.
Qed.

(** Two moments that show one version show one entry, as long as the counter does not go
    round. *)
Lemma same_version `{!MapRangeLaws} h1 h2 id1 id2 e1 e2 : h1 `prefix_of` h2 ->
  Z.of_nat (length h2) < 2 ^ 64 ->
  comparisons (compared (monitor_after h1)) !! id1 = Some e1 ->
  comparisons (compared (monitor_after h2)) !! id2 = Some e2 ->
  cmp_version e1 = cmp_version e2 -> e1 = e2.
Proof.
  intros Hp Hl H1 H2 Hv.
  destruct (co_made _ _ (comparisons_after h1) _ _ H1) as [M1 _].
  destruct (co_made _ _ (comparisons_after h2) _ _ H2) as [M2 _].
  apply list_elem_of_lookup_1 in M1 as [i M1], M2 as [j M2].
  eapply prefix_lookup_Some in M1; [|by apply made_prefix].
  rewrite (made_version _ _ _ M1), (made_version _ _ _ M2) in Hv.
  apply lookup_lt_Some in M1 as L1. apply lookup_lt_Some in M2 as L2. pose proof (made_length h2).
  destruct (decide (i = j)) as [->|Hij]; [congruence|].
  destruct (decide (Z.of_nat i + 1 = 2 ^ 64)) as [E1|E1], (decide (Z.of_nat j + 1 = 2 ^ 64)) as [E2|E2];
    [lia|..]; rewrite ?E1, ?E2, ?Z_mod_same_full in Hv; rewrite !Z.mod_small in Hv by lia; lia.
Qed.
End Entries.

(** ** Programs of a worker *)

Section Worker.
Context `{PC : PlanCodec} `{VT : Vault} `{JS : Json} `{MR : MapRange} `{ML : !MapRangeLaws}.
Context (env : QualityEnv) (options : QualityOptions).

Abbreviation QualityWork A := (Prog QualityWorld QualityError A).

(** What a program adds: calls that [P] allows, and history. *)
Definition adds (P : QualityCall -> Prop) (w w' : QualityWorld) : Prop :=
  exists calls, qw_calls w' = qw_calls w ++ calls /\ Forall P calls /\ qw_history w `prefix_of` qw_history w'.

Definition worker_moves {A : Type} (P : QualityCall -> Prop) (m : QualityWork A) : Prop := forall w, adds P w (m w).2.

Lemma adds_refl P w : adds P w w.
Proof. exists []. by rewrite app_nil_r. Qed.

Lemma adds_trans P w1 w2 w3 : adds P w1 w2 -> adds P w2 w3 -> adds P w1 w3.
Proof.
  intros (c1 & E1 & F1 & H1) (c2 & E2 & F2 & H2). exists (c1 ++ c2). split_and!.
  - by rewrite E2, E1, <- app_assoc.
  - by apply Forall_app.
  - by etrans.
Qed.

Lemma moves_ret {A : Type} P (a : A) : worker_moves P (ret a).
Proof. intros w. apply adds_refl. Qed.

Lemma moves_bind {A B : Type} P (m : QualityWork A) (k : A -> QualityWork B) :
  worker_moves P m -> (forall a, worker_moves P (k a)) -> worker_moves P (bind m k).
Proof.
  intros Hm Hk w. unfold bind. pose proof (Hm w) as Ha. destruct (m w) as [[e|a] w1]; [done|].
  eapply adds_trans; [exact Ha|apply Hk].
Qed.

Lemma moves_if {A : Type} P (b : bool) (m n : QualityWork A) : worker_moves P m -> worker_moves P n -> worker_moves P (if b then m else n).
Proof. by destruct b. Qed.

Lemma moves_ignore P (m : QualityWork unit) : worker_moves P m -> worker_moves P (ignore m).
Proof. intros Hm w. apply Hm. Qed.

Lemma moves_call {A : Type} P label (m : Outcome -> QTx A) :
  (forall r, P (label r)) -> worker_moves P (quality_call env label m).
Proof.
  intros HP w. unfold quality_call. destruct (m _ _) as [r d]. exists [label r]. cbn.
  split_and!; [done|by repeat constructor|done].
Qed.

Lemma adds_others P w : adds P w (others_act env w).
Proof. exists []. rewrite app_nil_r. split_and!; [done..|]. cbn. by apply prefix_app_r. Qed.

Lemma moves_act P op : worker_moves P (act env op).
Proof.
  intros w. eapply adds_trans; [apply (adds_others P w)|]. exists []. rewrite app_nil_r.
  split_and!; [done..|]. cbn. by apply prefix_app_r.
Qed.

Lemma moves_look {A : Type} P (f : QoEMonitor -> A) : worker_moves P (look env f).
Proof. intros w. apply adds_others. Qed.

Lemma moves_get {A : Type} P (f : QualityWorld -> A) : worker_moves P (get f).
Proof. intros w. apply adds_refl. Qed.

Lemma moves_signal P : P PlanningTriggered -> worker_moves P (signalPlanning options).
Proof.
  intros HP w. unfold signalPlanning. destruct (qo_has_trigger options); [|apply adds_refl].
  exists [PlanningTriggered]. split_and!; [done|by repeat constructor|done].
Qed.

Lemma moves_diagnostic P id kind code details checks now :
  (forall event answer, P (DiagnosticWritten event answer)) ->
  worker_moves P (recordDiagnostic env id kind code details checks now).
Proof.
  intros HP w. unfold recordDiagnostic. eapply adds_trans; [apply (adds_others P w)|].
  set (w1 := others_act env w). destruct (negb (diagnostic_due _ _ _)).
  - exists []. rewrite app_nil_r. split_and!; [done..|]. cbn. by apply prefix_app_r.
  - unfold quality_call. destruct (append_quality_event _ _ _) as [[e|a] d]; cbn;
      eexists [_]; (split_and!; [reflexivity|by repeat constructor|cbn; by apply prefix_app_r]).
Qed.

(** A measurement is recorded once in a probe, so that most parts record none. *)
Definition records_none (call : QualityCall) : Prop :=
  match call with QualityRecorded _ _ _ _ => False | _ => True end.

Lemma moves_udp id reachable generation :
  worker_moves records_none (applyUDPObservation env options id reachable generation).
Proof.
  apply moves_bind; [apply moves_act|]. intros _. apply moves_bind; [apply moves_get|]. intros s.
  apply moves_if; [apply moves_ret|]. apply moves_bind; [by apply moves_call|]. intros changed.
  apply moves_bind; [apply moves_if; [by apply moves_signal|apply moves_ret]|]. intros _. apply moves_ret.
Qed.

Lemma moves_try_controls x now rows selected checks entries :
  worker_moves records_none (try_controls env x now rows selected checks entries).
Proof.
  revert selected checks. induction entries as [|e entries IH]; intros selected checks; cbn [try_controls];
    [apply moves_ret|].
  destruct (rows !! _) as [row|]; [|apply IH]. apply moves_if; [apply IH|]. intros w.
  destruct (_ || _); [apply IH|].
  apply (moves_bind _ (look env _)); [apply moves_look|]. intros latest. apply moves_if; [apply IH|]. cbn zeta.
  apply moves_if; [apply moves_ret|]. apply moves_if; [apply moves_ret|apply IH].
Qed.

Lemma moves_compare c x now : worker_moves records_none (compareHTTPFailure env c x now).
Proof.
  unfold compareHTTPFailure. apply moves_if; [apply moves_ret|]. apply moves_bind; [apply moves_look|].
  intros [|e entries]; [apply moves_ret|]. apply moves_bind; [by apply moves_call|]. intros snapshot.
  apply moves_try_controls.
Qed.

Lemma moves_judge c control at_ x : worker_moves records_none (judge_failure env c control at_ x).
Proof.
  unfold judge_failure. apply moves_if; [apply moves_ret|]. apply moves_bind; [apply moves_compare|].
  intros [confirmed checks]. apply moves_bind; [|intros _; apply moves_ret].
  apply moves_if; [apply moves_act|]. apply moves_if; [apply moves_ret|apply moves_act].
Qed.

Lemma moves_after_record c generation x t at_ :
  worker_moves records_none (after_record env options c generation x t at_).
Proof.
  unfold after_record. apply moves_bind; [intros w; apply moves_act|]. intros _.
  apply moves_if; [by apply moves_diagnostic|]. apply moves_bind.
  { destruct (o_UDPReachable x); [|apply moves_ret].
    apply moves_bind; [apply moves_udp|]. intros _. apply moves_ret. }
  intros _. apply moves_bind; [apply moves_if; [by apply moves_signal|apply moves_ret]|]. intros _.
  apply moves_if; [by apply moves_ignore, moves_diagnostic|].
  apply moves_if; [by apply moves_ignore, moves_diagnostic|apply moves_ret].
Qed.

(** ** Controls *)

Definition is_control (c : HTTPCheck) : Prop := QoE.h_Path c = "control"%string.

Lemma relabel_controls checks : Forall is_control (map relabel_control checks).
Proof. induction checks; by constructor. Qed.

Lemma routed_controls l checks : Forall is_control checks ->
  routedQoEOutcomes (l ++ checks) = routedQoEOutcomes l.
Proof.
  intros Hc. unfold routedQoEOutcomes. rewrite fold_left_app. revert Hc.
  generalize (fold_left (fun result c => if negb (str_eqb (QoE.h_Path c) "route") then result
    else <[QoE.h_Service c := QoE.h_OK c && default true (result !! QoE.h_Service c)]> result) l
    (∅ : gmap string bool)).
  intros m Hc. revert m. induction Hc as [|c checks Hp _ IH]; intros m; cbn; [done|].
  rewrite Hp. apply IH.
Qed.

Lemma route_failure_controls b checks x service : Forall is_control checks ->
  route_failure (judged b checks x) service = route_failure x service.
Proof.
  intros Hc. unfold route_failure, judged. cbn [o_ApplicationChecks]. rewrite List.filter_app.
  assert (List.filter (fun c => str_eqb (QoE.h_Path c) "route" && str_eqb (QoE.h_Service c) service) checks
    = []) as ->; [|by rewrite app_nil_r].
  induction Hc as [|c checks Hp _ IH]; [done|]. cbn. by rewrite Hp, IH.
Qed.

(** The checks of the control say nothing of the target. *)
Lemma confirms_judged b at_ checks x peer : Forall is_control checks ->
  confirmsHTTPFailure (observed_at at_ (judged b checks x)) peer = confirmsHTTPFailure x peer.
Proof.
  intros Hc. unfold confirmsHTTPFailure. cbn [o_ErrorCode o_ApplicationChecks observed_at judged].
  rewrite routed_controls by done.
  assert (forall service, route_failure (observed_at at_ (judged b checks x)) service = route_failure x service)
    as Hf by (intros service; by apply route_failure_controls).
  cbn [existsb]. by rewrite !Hf.
Qed.

(** The entry [e] of the history [between] is what [row] still shows, and confirms. *)
Definition confirmed_by (c : Candidate) (x : Observation) (at_ : Time) (e : qoeComparison)
    (row : CandidateRoutingEvidence) : Prop :=
  comparison_eligible c x at_ e = true /\ control_current at_ e row = true /\
  c_ID (e_Candidate row) = c_ID (cmp_candidate e) /\ confirmsHTTPFailure x (cmp_checks e) = true.

Definition shows (history : list MonitorOp) (e : qoeComparison) : Prop :=
  comparisons (compared (monitor_after history)) !! c_ID (cmp_candidate e) = Some e.

Lemma look_run {A : Type} (f : QoEMonitor -> A) w :
  look env f w = (inr (f (monitor_after (qw_history (others_act env w)))), others_act env w).
Proof. done. Qed.

Lemma try_controls_answer x now rows selected checks entries w b checks' w' :
  Forall is_control checks ->
  try_controls env x now rows selected checks entries w = (inr (b, checks'), w') ->
  Forall is_control checks' /\
  (b = true -> exists e row latest, e ∈ entries /\ rows !! c_ID (cmp_candidate e) = Some row /\
     control_current now e row = true /\ confirmsHTTPFailure x (cmp_checks e) = true /\
     comparisons (compared (monitor_after (qw_history w'))) !! c_ID (cmp_candidate e) = Some latest /\
     cmp_version latest = cmp_version e).
Proof.
  revert selected checks w. induction entries as [|e entries IH]; intros selected checks w Hc; cbn [try_controls].
  { by intros [= <- <- <-]. }
  assert (forall selected checks w, Forall is_control checks ->
    try_controls env x now rows selected checks entries w = (inr (b, checks'), w') ->
    Forall is_control checks' /\
    (b = true -> exists e0 row latest, e0 ∈ e :: entries /\ rows !! c_ID (cmp_candidate e0) = Some row /\
       control_current now e0 row = true /\ confirmsHTTPFailure x (cmp_checks e0) = true /\
       comparisons (compared (monitor_after (qw_history w'))) !! c_ID (cmp_candidate e0) = Some latest /\
       cmp_version latest = cmp_version e0)) as Hnext.
  { intros selected0 checks0 w0 Hc0 H0. destruct (IH _ _ _ Hc0 H0) as [H1 H2]. split; [exact H1|].
    intros Hb. destruct (H2 Hb) as (e0 & row & latest & Hin & H3). exists e0, row, latest.
    split; [by right|done]. }
  destruct (rows !! _) as [row|] eqn:Erow; [|by apply Hnext].
  destruct (control_current now e row) eqn:Ecur; cbn [negb]; [|by apply Hnext].
  destruct (_ || _); [by apply Hnext|]. unfold bind at 1. rewrite look_run. cbn beta iota.
  set (w1 := others_act env w).
  destruct (comparisons _ !! _) as [latest|] eqn:El; cbn [from_option negb]; [|by apply Hnext].
  destruct (cmp_version latest =? cmp_version e) eqn:Ev; cbn [negb]; [|by apply Hnext]. z_bool.
  destruct (confirmsHTTPFailure x (cmp_checks e)) eqn:Econf.
  { intros [= <- <- <-]. split; [apply relabel_controls|]. intros _. exists e, row, latest.
    split; [left|done]. }
  destruct (Nat.eqb _ _); [|apply Hnext, relabel_controls].
  intros [= <- <- <-]. split; [apply relabel_controls|done].
Qed.

Lemma compare_answer c x now w b checks w' :
  compareHTTPFailure env c x now w = (inr (b, checks), w') -> Z.of_nat (length (qw_history w')) < 2 ^ 64 ->
  Forall is_control checks /\
  (b = true -> exists e row ids snapshot calls, qw_calls w' = qw_calls w ++ calls /\
     ReferencesRead ids (inr snapshot) ∈ calls /\ row ∈ rs_Candidates snapshot /\
     confirmed_by c x now e row /\ shows (qw_history w') e).
Proof.
  unfold compareHTTPFailure. destruct (comparableHTTPFailure x); cbn [negb]; [|by intros [= <- <- <-] _].
  unfold bind at 1. rewrite look_run. cbn beta iota. set (w1 := others_act env w).
  destruct (comparison_entries _ _ _ _) as [|e0 entries0] eqn:Ee; [by intros [= <- <- <-] _|].
  rewrite <- Ee. clear e0 entries0 Ee. set (entries := comparison_entries _ _ _ _).
  set (ids := map _ entries). unfold bind, quality_call.
  destruct (in_db _ _) as [[err|snapshot] d] eqn:Es; [done|].
  set (w2 := qcalled _ _). intros Ht Hl.
  pose proof (try_controls_answer _ _ _ _ _ _ _ _ _ _ (Forall_nil_2 _) Ht) as [Hc Hb].
  split; [done|]. intros ->. destruct (Hb eq_refl) as (e & row & latest & Hin & Hrow & Hcur & Hconf & Hlatest & Hv).
  pose proof (moves_try_controls x now (index_by (fun r => c_ID (e_Candidate r)) (rs_Candidates snapshot))
    [] [] entries w2) as (calls & Hcalls & _ & Hpre). rewrite Ht in Hcalls, Hpre. cbn in Hcalls, Hpre.
  apply index_by_Some in Hrow as [Hrow Hid]. apply list_elem_of_In in Hrow.
  unfold entries, comparison_entries in Hin. apply list_elem_of_In, sort_slice_In, filter_In in Hin as [Hin Hel].
  apply list_elem_of_In, list_elem_of_fmap in Hin as ([k e'] & [= <-] & Hin). apply elem_of_map_to_list in Hin.
  destruct (co_made _ _ (comparisons_after (qw_history w1)) _ _ Hin) as [_ Hk]. cbn in Hk. subst k.
  assert (latest = e) as ->.
  { symmetry. eapply same_version; [exact Hpre|exact Hl|exact Hin|exact Hlatest|done]. }
  exists e, row, ids, snapshot, ([ReferencesRead ids (inr snapshot)] ++ calls).
  rewrite Hcalls. split_and!; [by rewrite app_assoc|left|done|done|done].
Qed.

(** What corroborates a failure: the store was asked and still shows, as healthy and in
    use, an independent route whose entry was there all along; the entry is a measurement
    that a worker remembered. *)
Definition corroborated (c : Candidate) (x : Observation) (earlier : list QualityCall)
    (h h' : list MonitorOp) : Prop :=
  exists e row ids snapshot between,
    ReferencesRead ids (inr snapshot) ∈ earlier /\ row ∈ rs_Candidates snapshot /\
    confirmed_by c x (o_At x) e row /\ h `prefix_of` between /\ between `prefix_of` h' /\
    shows between e /\ remembered between e.

Lemma shows_remembered h e : shows h e -> remembered h e.
Proof. intros H. by apply made_remembered, (co_made _ _ (comparisons_after h) _ _ H). Qed.

Lemma judge_answer c control at_ x w x' w' : judge_failure env c control at_ x w = (inr x', w') ->
  Z.of_nat (length (qw_history w')) < 2 ^ 64 ->
  o_UnconfirmedHTTP x' = true -> o_Infrastructure x' = false ->
  exists calls, qw_calls w' = qw_calls w ++ calls /\
    corroborated c (observed_at at_ x') calls (qw_history w) (qw_history w').
Proof.
  unfold judge_failure. destruct (o_UnconfirmedHTTP x) eqn:Eu; cbn [negb]; [|intros [= <- <-]; congruence].
  intros H Hl _ Hi. pose proof (moves_compare c x at_ w) as (calls & Hcalls & _ & Hpre).
  apply prog_bind_inr in H as ([confirmed checks] & w1 & Hc & H). rewrite Hc in Hcalls, Hpre.
  apply prog_bind_inr in H as (u & w2 & Ha & H). injection H as <- <-.
  cbn [o_Infrastructure judged] in Hi. destruct confirmed; [|done].
  pose proof (moves_act records_none (OpDropRequest (c_ID c)) w1) as (calls2 & Hcalls2 & _ & Hpre2).
  rewrite Ha in Hcalls2, Hpre2. cbn in Hcalls, Hpre, Hcalls2, Hpre2.
  destruct (compare_answer _ _ _ _ _ _ _ Hc) as (Hk & Hb).
  { apply prefix_length in Hpre2. lia. }
  destruct (Hb eq_refl) as (e & row & ids & snapshot & calls3 & Hcalls3 & Hread & Hrow & Hconf & Hshow).
  exists (calls3 ++ calls2). split; [by rewrite Hcalls2, Hcalls3, app_assoc|].
  exists e, row, ids, snapshot, (qw_history w1). split_and!.
  - apply elem_of_app. by left.
  - done.
  - destruct Hconf as (H1 & H2 & H3 & H4). split_and!; [exact H1|exact H2|done|].
    by rewrite confirms_judged.
  - done.
  - done.
  - done.
  - by apply shows_remembered.
Qed.

Lemma corroborated_grows c x calls calls' h h' h0 h0' : corroborated c x calls h h' ->
  calls ⊆ calls' -> h0 `prefix_of` h -> h' `prefix_of` h0' -> corroborated c x calls' h0 h0'.
Proof.
  intros (e & row & ids & snapshot & between & H1 & H2 & H3 & H4 & H5 & H6 & H7) Hs Hp Hp'.
  exists e, row, ids, snapshot, between. split_and!; [by apply Hs|done|done|by etrans|by etrans|done|done].
Qed.

(** The calls of a probe that has read the generation [g]: a measurement that is recorded
    is of this route and generation, and corroborated when it has to be. *)
Definition soundly (c : Candidate) (g : Z) (w w' : QualityWorld) : Prop :=
  exists calls, qw_calls w' = qw_calls w ++ calls /\ qw_history w `prefix_of` qw_history w' /\
    (Z.of_nat (length (qw_history w')) < 2 ^ 64 ->
     forall earlier c' x g' answer later, calls = earlier ++ QualityRecorded c' x g' answer :: later ->
       c' = c /\ g' = g /\ Forall records_none earlier /\
       (o_UnconfirmedHTTP x = true -> o_Infrastructure x = false ->
        corroborated c x earlier (qw_history w) (qw_history w'))).

Lemma none_recorded calls earlier c x g answer later : Forall records_none calls ->
  calls <> earlier ++ QualityRecorded c x g answer :: later.
Proof. intros H ->. rewrite Forall_app, Forall_cons in H. by destruct H as [_ [[] _]]. Qed.

Lemma soundly_none c g w w' : adds records_none w w' -> soundly c g w w'.
Proof.
  intros (calls & Hc & Hn & Hp). exists calls. split_and!; [done..|].
  intros _ earlier c' x g' answer later H. by eapply none_recorded in H.
Qed.

Lemma soundly_after c g w w1 w2 : adds records_none w w1 -> soundly c g w1 w2 -> soundly c g w w2.
Proof.
  intros (calls & Hc & Hn & Hp) (calls2 & Hc2 & Hp2 & Hs). exists (calls ++ calls2).
  split_and!; [by rewrite Hc2, Hc, app_assoc|by etrans|].
  intros Hl earlier c' x g' answer later H.
  assert (exists earlier2, earlier = calls ++ earlier2 /\
    calls2 = earlier2 ++ QualityRecorded c' x g' answer :: later) as (earlier2 & -> & H2).
  { apply app_eq_inv in H as [(k & -> & H)|(k & -> & H)]; [|by exists k].
    destruct k as [|call k]; [exists []; rewrite !app_nil_r; by split|].
    injection H as <- H. exfalso. rewrite Forall_app, Forall_cons in Hn. by destruct Hn as [_ [[] _]]. }
  destruct (Hs Hl _ _ _ _ _ _ H2) as (-> & -> & Hn2 & Hcor).
  split_and!; [done..|by apply Forall_app|]. intros Hu Hi.
  eapply corroborated_grows; [by apply Hcor|set_solver|done|done].
Qed.

Lemma only_record calls c x g answer calls2 earlier c' x' g' answer' later :
  Forall records_none calls -> Forall records_none calls2 ->
  calls ++ QualityRecorded c x g answer :: calls2 = earlier ++ QualityRecorded c' x' g' answer' :: later ->
  earlier = calls /\ c' = c /\ x' = x /\ g' = g.
Proof.
  intros Hn Hn2. revert earlier. induction Hn as [|call calls Hcall Hn IH]; intros [|call' earlier]; cbn.
  - by intros [= -> -> -> _].
  - intros [= <- H]. by eapply none_recorded in H.
  - intros [= -> _]. done.
  - intros [= <- H]. destruct (IH _ H) as [-> H']. by split.
Qed.

Lemma record_sound c g x at_ w : exists answer calls,
  let w' := (record_quality env options c g x at_ w).2 in
  qw_calls w' = qw_calls w ++ QualityRecorded c x g answer :: calls /\ Forall records_none calls /\
  qw_history w `prefix_of` qw_history w'.
Proof.
  unfold record_quality, quality_call.
  destruct (RecordCandidateQoEObserved _ _ _ _ _ _) as [[e|[s t]] d]; cbn zeta.
  - exists (inl e), []. destruct e as [[]| | | | |]; cbn; by split_and!.
  - pose proof (moves_after_record c g x t at_
      (qcalled (QualityRecorded c x g (inr (s, t))) (w <| qw_store := d |>))) as (calls & Hc & Hn & Hp).
    exists (inr (s, t)), calls. split_and!; [|done|exact Hp]. cbn beta iota.
    rewrite Hc. cbn. by rewrite <- app_assoc.
Qed.

Lemma take_answer_sound c control g at_ response w :
  soundly c g w (take_answer env options c control g at_ response w).2.
Proof.
  unfold take_answer. destruct (_ && _); [apply soundly_none, adds_refl|]. cbn zeta.
  destruct (match re_QoE response with Some x => Some x | None => _ end) as [x|];
    [|apply soundly_none, adds_refl].
  unfold bind at 1. pose proof (moves_judge c control at_ x w) as Hadds.
  destruct (judge_failure env c control at_ x w) as [[e|x'] w1] eqn:Ej; [by apply soundly_none|].
  destruct (o_Infrastructure x' && negb (o_UnconfirmedHTTP x')).
  { apply soundly_none. eapply adds_trans; [exact Hadds|]. apply moves_bind; [apply moves_act|].
    intros _. unfold recordInfrastructure. destruct (ProbeFailureDetails _ _). by apply moves_diagnostic. }
  destruct (record_sound c g (observed_at at_ x') at_ w1) as (answer & calls2 & Hc2 & Hn2 & Hp2).
  destruct Hadds as (calls & Hc & Hn & Hp). cbn [snd] in Hc, Hp.
  exists (calls ++ QualityRecorded c (observed_at at_ x') g answer :: calls2).
  split_and!; [by rewrite Hc2, Hc, app_assoc|by etrans|].
  intros Hl earlier c' y g' answer' later H. apply only_record in H as (-> & -> & -> & ->); [|done..].
  split_and!; [done..|]. intros Hu Hi.
  destruct (judge_answer _ _ _ _ _ _ _ Ej) as (calls' & Hc' & Hcor); [|done|done|].
  { apply prefix_length in Hp2. lia. }
  rewrite Hc' in Hc. apply app_inv_head in Hc as ->. by eapply corroborated_grows.
Qed.

Lemma soundly_bind {A : Type} c g (m : QualityWork A) (k : A -> QualityWork unit) w :
  worker_moves records_none m -> (forall a w, soundly c g w (k a w).2) -> soundly c g w (bind m k w).2.
Proof.
  intros Hm Hk. unfold bind. pose proof (Hm w) as Hw. destruct (m w) as [[e|a] w1]; [by apply soundly_none|].
  by eapply soundly_after.
Qed.

(** The agent is asked first of all; what follows takes its answer. *)
Lemma ask_route_sound c control sweepAt clockStartedAt g w : exists response err w1,
  qw_calls w1 = qw_calls w ++ [RouteProbed (c_ID c) response err] /\
  qw_history w `prefix_of` qw_history w1 /\
  soundly c g w1 (ask_route env options c control sweepAt clockStartedAt g w).2.
Proof.
  unfold ask_route, bind at 1 2 3, probeTime at 1, act at 1, modify, ask_agent. cbv beta iota zeta.
  set (w1 := _ <| qw_history := _ |>). destruct (qe_agent env (qw_calls w1)) as [response err].
  cbn [fst snd]. exists response, err, (qcalled (RouteProbed (c_ID c) response err) w1).
  split_and!; [done|cbn; rewrite <- app_assoc; by apply prefix_app_r|].
  apply soundly_bind; [intros w0; apply adds_refl|]. clear w w1. intros completedAt w.
  apply soundly_bind; [apply moves_act|]. clear w. intros _ w.
  destruct (_ || _); [|apply take_answer_sound]. apply soundly_none.
  apply moves_bind; [apply moves_act|]. intros _. apply moves_bind; [apply moves_get|]. intros canceled.
  apply moves_if; [apply moves_ret|]. unfold recordInfrastructure. destruct (ProbeFailureDetails _ _).
  by apply moves_diagnostic.
Qed.

(** C11.  A route is not blamed alone.  Whatever other workers and writers of the store do
    around one probe of a route, and whatever the agent answers: a measurement that
    reaches the store is of this route and carries the failure generation that was read
    from the store after the payload and before the agent was asked, so that evidence from
    before a confirmed failure is fenced; and when
    it is a failure over HTTP alone that is held against the route, another route
    corroborates it.  That route has another identity, key and failure domain; its own
    measurement under the same policy was remembered by a worker, is at most thirty seconds
    old and is the one that is kept for it at a moment of this probe; the store, asked
    before the measurement is recorded, shows that route unchanged, available, qualified,
    in the working pool, not degraded and with a closed circuit; and the services that
    failed here work there. *)
Theorem quality_failure_is_corroborated c control sweepAt clockStartedAt w :
  let w' := (probe env options c control sweepAt clockStartedAt w).2 in
  exists calls, qw_calls w' = qw_calls w ++ calls /\
    (Z.of_nat (length (qw_history w')) < 2 ^ 64 ->
     forall earlier c' x g answer later, calls = earlier ++ QualityRecorded c' x g answer :: later ->
       c' = c /\
       (exists response err reads, earlier =
          [PayloadRead (c_ID c); GenerationRead (c_ID c) (inr g); RouteProbed (c_ID c) response err] ++ reads /\
          Forall records_none reads) /\
       (o_UnconfirmedHTTP x = true -> o_Infrastructure x = false ->
        corroborated c x earlier (qw_history w) (qw_history w'))).
Proof.
  cbn zeta. unfold probe, quality_call. destruct (in_db _ _) as [[e|payload] d].
  { exists [PayloadRead (c_ID c)]. split; [by destruct e as [[]| | | | |]|]. intros _ earlier c' x g answer later H.
    eapply none_recorded in H; [done|]. by repeat constructor. }
  unfold measure_route, bind, quality_call. destruct (CandidateQoEGeneration _ _ _) as [[e|g] d'].
  { exists [PayloadRead (c_ID c); GenerationRead (c_ID c) (inl e)]. split; [cbn; by rewrite <- app_assoc|].
    intros _ earlier c' x g answer later H. eapply none_recorded in H; [done|]. by repeat constructor. }
  set (w1 := qcalled (GenerationRead _ _) _).
  destruct (ask_route_sound c control sweepAt clockStartedAt g w1)
    as (response & err & w2 & Hc2 & Hp2 & calls & Hc & Hp & Hs).
  set (first := [PayloadRead (c_ID c); GenerationRead (c_ID c) (inr g); RouteProbed (c_ID c) response err]).
  exists (first ++ calls). split; [rewrite Hc, Hc2; cbn; by rewrite <- !app_assoc|].
  intros Hl earlier c' x g' answer later H.
  destruct earlier as [|a1 [|a2 [|a3 earlier]]]; [done..|]. injection H as <- <- <- H.
  destruct (Hs Hl _ _ _ _ _ _ H) as (-> & -> & Hn & Hcor).
  split_and!; [done|exists response, err, earlier; by split|].
  intros Hu Hi. eapply corroborated_grows; [by apply Hcor|set_solver|exact Hp2|done].
Qed.

(** ** Signals of UDP *)

(** The reports of a candidate, with the failure generations they were measured under. *)
Definition udp_trail (id : string) (history : list MonitorOp) : list (bool * Z) :=
  omap (fun op => match op with
                  | OpUDP id' reachable g => if str_eqb id' id then Some (reachable, g) else None
                  | _ => None
                  end) history.

Definition udp_after (trail : list (bool * Z)) : udpSignalState :=
  fold_left (fun s '(reachable, g) => next_udp reachable g s) trail no_udp.

Lemma udp_of_history id h : udp_of id (monitor_after h) = udp_after (udp_trail id h).
Proof.
  induction h as [|op h IH] using rev_ind; [done|].
  unfold monitor_after, udp_trail. rewrite fold_left_app, omap_app. cbn [fold_left].
  fold (monitor_after h). fold (udp_trail id h). unfold udp_after. rewrite fold_left_app. fold (udp_after (udp_trail id h)).
  assert (forall m, udpSignals m = udpSignals (monitor_after h) -> udp_of id m = udp_after (udp_trail id h)) as Hsame.
  { intros m Hm. unfold udp_of in *. by rewrite Hm. }
  destruct op; cbn; try by apply Hsame.
  - apply Hsame. unfold reserve. by repeat case_match.
  - unfold udp_of at 1.
    change (udpSignals (observe_udp id0 reachable generation (monitor_after h))) with
      (<[id0 := next_udp reachable generation (udp_of id0 (monitor_after h))]> (udpSignals (monitor_after h))).
    destruct (str_eqb id0 id) eqn:Eid; str_bool.
    + subst id0. rewrite lookup_insert_eq, IH. done.
    + rewrite lookup_insert_ne by done. exact IH.
  - apply Hsame. unfold record_window. by repeat case_match.
Qed.

Definition udp_needed (reachable : bool) : nat := if reachable then 3 else 2.

Definition udp_count (reachable : bool) (s : udpSignalState) : Z :=
  if reachable then us_successes s else us_failures s.

Lemma next_udp_count r r0 g0 s : udp_count r s <= Z.of_nat (udp_needed r) ->
  us_generation (next_udp r0 g0 s) = g0 /\
  udp_count r (next_udp r0 g0 s) =
    if Bool.eqb r r0
    then Z.min (Z.of_nat (udp_needed r)) ((if us_generation s =? g0 then udp_count r s else 0) + 1)
    else 0.
Proof.
  unfold next_udp, udp_count, udpRecoveryThreshold, udpFailureThreshold.
  destruct r, r0, (us_generation s =? g0) eqn:Eg; z_bool; cbn;
    repeat match goal with |- context [if ?b then _ else _] => destruct b eqn:? end; z_bool; cbn; lia.
Qed.

(** The counters hold the lengths of the last streak, as far as they are asked for. *)
Lemma streak_counted trail r g n : (1 <= n <= udp_needed r)%nat ->
  0 <= udp_count r (udp_after trail) <= Z.of_nat (udp_needed r) /\
  (Z.of_nat n <= udp_count r (udp_after trail) /\ us_generation (udp_after trail) = g <->
   exists t, trail = t ++ repeat (r, g) n).
Proof.
  revert n. induction trail as [|[r0 g0] trail IH] using rev_ind; intros n Hn.
  { split; [destruct r; cbn; lia|]. split; [destruct r; cbn; lia|]. intros [t Ht].
    destruct n; [lia|]. by destruct t. }
  unfold udp_after. rewrite fold_left_app. cbn [fold_left]. fold (udp_after trail).
  set (s := udp_after trail) in *.
  destruct (IH 1%nat ltac:(destruct r; cbn; lia)) as [Hb _].
  destruct (next_udp_count r r0 g0 s (proj2 Hb)) as [-> ->].
  split; [repeat case_match; lia|]. destruct n as [|m]; [lia|].
  assert ((exists t, trail ++ [(r0, g0)] = t ++ repeat (r, g) (S m)) <->
    r = r0 /\ g = g0 /\ exists t, trail = t ++ repeat (r, g) m) as ->.
  { cbn [repeat]. rewrite repeat_cons. split.
    - intros [t Ht]. rewrite app_assoc in Ht. apply app_inj_tail in Ht as [-> [= -> ->]]. eauto.
    - intros (-> & -> & t & ->). exists t. by rewrite app_assoc. }
  destruct (Bool.eqb_spec r r0) as [<-|Hr]; [|split; [lia|by intros [? _]]].
  destruct (decide (g = g0)) as [<-|Hg]; [|split; intros ?; destruct_and?; congruence].
  destruct (decide (m = 0%nat)) as [->|Hm].
  { split; [intros _; split_and!; [done..|]|].
    - exists trail. by rewrite app_nil_r.
    - intros _. destruct (_ =? _); split; [|done| |done]; destruct r; cbn in *; lia. }
  destruct (IH m ltac:(lia)) as [_ <-]. fold s.
  destruct (us_generation s =? g) eqn:Eg; z_bool; [|split; intros ?; destruct_and?; [lia|congruence]].
  split; intros ?; destruct_and?; split_and!; try done; lia.
Qed.

Definition reported (id : string) (reachable : bool) (g : Z) (w : QualityWorld) : QualityWorld :=
  (others_act env w) <| qw_history := qw_history (others_act env w) ++ [OpUDP id reachable g] |>.

Lemma udp_run id reachable g w :
  applyUDPObservation env options id reachable g w =
    let w1 := reported id reachable g w in
    (if negb (udp_ready reachable (udp_of id (monitor_after (qw_history w1)))) then ret false
     else
       changed <- quality_call env (UDPUpdated id reachable g)
                    (fun o => in_db (UpdateCandidateUDPQualified o id reachable (Some g))) ;;
       (if changed then signalPlanning options else ret tt) ;;;
       ret changed) w1.
Proof. done. Qed.

(** C23.  UDP is granted and withdrawn on streaks.  Whatever the other workers do: the
    store is asked to change the UDP qualification of a route exactly when the last
    reports of this route, in the order in which the workers made them under the mutex,
    say the same and were measured under the same failure generation, two of them to
    withdraw it and three to grant it; it is then asked for that, fenced by that
    generation, and a placement is triggered exactly when this changed something. *)
Theorem udp_moves_on_streaks id reachable g w :
  let w' := (applyUDPObservation env options id reachable g w).2 in
  qw_calls w' = qw_calls w /\
    ~ (exists t, udp_trail id (qw_history w') = t ++ repeat (reachable, g) (udp_needed reachable)) \/
  (exists t, udp_trail id (qw_history w') = t ++ repeat (reachable, g) (udp_needed reachable)) /\
    exists answer, qw_calls w' = qw_calls w ++ UDPUpdated id reachable g answer ::
      if match answer with inr changed => changed | inl _ => false end && qo_has_trigger options
      then [PlanningTriggered] else [].
Proof.
  rewrite udp_run. cbn zeta. change (qw_calls w) with (qw_calls (reported id reachable g w)).
  set (w1 := reported id reachable g w).
  pose proof (streak_counted (udp_trail id (qw_history w1)) reachable g (udp_needed reachable)
    ltac:(destruct reachable; cbn; lia)) as [_ Hs].
  rewrite <- udp_of_history in Hs.
  assert (us_generation (udp_of id (monitor_after (qw_history w1))) = g) as Hg.
  { rewrite udp_of_history. unfold w1, reported, udp_trail. cbn. rewrite omap_app. cbn. rewrite str_eqb_refl.
    unfold udp_after. rewrite fold_left_app. cbn.
    set (s := fold_left _ _ _). unfold next_udp. destruct (us_generation s =? g) eqn:E; z_bool; by destruct reachable. }
  destruct (udp_ready reachable _) eqn:Er; cbn [negb].
  2: { left. split; [done|]. intros [Ht _]%Hs. revert Er Ht. destruct reachable; cbn; intros Er Ht;
       z_bool; unfold udp_count in Ht; unfold udpRecoveryThreshold, udpFailureThreshold in *; lia. }
  right.
  assert (exists t, udp_trail id (qw_history w1) = t ++ repeat (reachable, g) (udp_needed reachable)) as Hstreak.
  { apply Hs. split; [|done]. revert Er. unfold udp_ready, udpRecoveryThreshold, udpFailureThreshold.
    destruct reachable; cbn; intros Er; z_bool; lia. }
  unfold bind, quality_call. destruct (in_db _ _) as [[e|changed] d]; cbn.
  - split; [exact Hstreak|]. by exists (inl e).
  - destruct changed; cbn; [|split; [exact Hstreak|by exists (inr false)]].
    unfold signalPlanning. destruct (qo_has_trigger options); cbn; (split; [exact Hstreak|]);
      exists (inr true); cbn; by rewrite <- ?app_assoc.
Qed.
End Worker.

(** ** The launches of a sweep *)

Section Selection.
Context (options : QualityOptions) (now : Time) (i : SweepInputs) (m : QoEMonitor).

(** How often a route is to be measured.  A route in use: every active or idle interval,
    or the degraded one when that is sooner; any other route: every active interval, or
    every degraded one when it is degraded. *)
Definition route_interval (id : string) (d : Duration) : Prop :=
  if route_assigned now i id then
    let base := if default false (assigned_routes now i !! id) then activeInterval options
                else idleInterval options in
    d = (if is_degraded i id then Z.min base (degradedInterval options) else base)
  else d = activeInterval options \/ is_degraded i id = true /\ d = degradedInterval options.

(** A control may come sooner, after ten seconds. *)
Definition probed_every (control : bool) (id : string) (d : Duration) : Prop :=
  route_interval id d \/
  control = true /\ (d = 10 * second \/ exists base, route_interval id base /\ d = Z.min base (10 * second)).

(** The last measurement and the last attempt, of those that are not in the future, are
    as long ago, when there were any. *)
Definition rested (id : string) (d : Duration) : Prop :=
  forall t, t <= now -> t = last_valid i id \/ lastAttempt m !! id = Some t ->
  t <= zero_time \/ t + d <= now.

Lemma due_rested id d : due id now d (last_valid i id) m = true -> rested id d.
Proof.
  unfold due, lastAttemptAt, latestQoEAttempt, time_is_zero, before, after, time_add, zero_time.
  intros H t Ht Hl. set (a := default 0 (lastAttempt m !! id)) in H.
  assert (t = last_valid i id \/ a = t) as Hl'.
  { destruct Hl as [->|Hl]; [by left|right; unfold a; by rewrite Hl]. }
  clearbody a. clear Hl. revert H Hl'. generalize (last_valid i id). intros v H Hl.
  destruct (Z.ltb_spec now v), (Z.ltb_spec now a); cbn [negb andb] in H;
    repeat match type of H with context [if ?b then _ else _] => destruct b eqn:? end;
    (apply orb_true_iff in H as [H|H]; [|apply negb_true_iff in H]); z_bool; unfold zero_time; lia.
Qed.

Lemma probed_every_positive control id d : probed_every control id d -> 0 < d.
Proof.
  assert (forall v f, 0 < f -> 0 < or_default v f) as Hd.
  { intros v f Hf. unfold or_default. destruct (0 <? v) eqn:E; [by z_bool|done]. }
  pose proof (Hd (qo_ActiveInterval options) (30 * second) ltac:(done)) as H1.
  pose proof (Hd (qo_IdleInterval options) (5 * minute) ltac:(done)) as H2.
  pose proof (Hd (qo_DegradedInterval options) minute ltac:(done)) as H3.
  assert (forall d, route_interval id d -> 0 < d) as Hr.
  { intros d0. unfold route_interval, activeInterval, idleInterval, degradedInterval in *.
    repeat case_match; lia. }
  intros [H|(_ & [->|(base & H & ->)])]; [by apply Hr|done|]. specialize (Hr _ H).
  apply Z.min_glb_lt; [done|done].
Qed.

(** What is selected comes once, is known, and is due after an interval that [every]
    allows. *)
Record selected_ok (every : string -> Duration -> Prop) (s : SelectedRoutes) : Prop := {
  sk_once : NoDup (map c_ID (se_selected s));
  sk_listed id : is_Some (se_interval s !! id) -> id ∈ map c_ID (se_selected s);
  sk_due c : c ∈ se_selected s -> si_candidate i (c_ID c) = Some c /\
    exists interval, se_interval s !! c_ID c = Some interval /\ every (c_ID c) interval /\
      due (c_ID c) now interval (last_valid i (c_ID c)) m = true
}.

Lemma selected_mono every every' s : (forall id d, every id d -> every' id d) ->
  selected_ok every s -> selected_ok every' s.
Proof.
  intros Hm [Hn Hl Hd]. split; [done..|]. intros c Hc. destruct (Hd _ Hc) as (H1 & d & H2 & H3 & H4). eauto 6.
Qed.

Lemma due_sooner id interval interval' valid : interval' <= interval ->
  due id now interval valid m = true -> due id now interval' valid m = true.
Proof.
  unfold due, before, time_add. intros Hi. rewrite !orb_true_iff, !negb_true_iff, !Z.ltb_ge.
  intros [H|H]; [by left|right; lia].
Qed.

Lemma select_candidate_ok every id interval s : every id interval ->
  selected_ok every s -> selected_ok every (select_candidate now i m id interval s).
Proof.
  intros He [Hn Hl Hd]. unfold select_candidate. case_bool_decide as Hs; [by split|].
  destruct (si_candidate i id) as [c|] eqn:Ec; [|by split].
  destruct (due id now interval _ m) eqn:Ed; [|by split].
  assert (c_ID c = id) as Hid by (by apply index_by_Some in Ec as [_ ?]).
  assert (id ∉ map c_ID (se_selected s)) as Hfresh.
  { intros Hin. apply list_elem_of_fmap in Hin as (c' & -> & Hin). destruct (Hd _ Hin) as (_ & ? & ? & _ & _).
    apply Hs. by eexists. }
  split; cbn.
  - rewrite map_app. cbn. rewrite Hid. apply NoDup_app. split; [done|]. split; [|apply NoDup_singleton].
    intros k Hk Hk'. apply list_elem_of_singleton in Hk' as ->. done.
  - intros k Hk. rewrite map_app, elem_of_app. cbn. rewrite Hid. destruct (decide (k = id)) as [->|Hne].
    + right. by apply list_elem_of_singleton.
    + left. apply Hl. by rewrite lookup_insert_ne in Hk.
  - intros c' [Hc'|Hc']%elem_of_app.
    + destruct (Hd _ Hc') as (H1 & interval' & H2 & H3). split; [done|]. exists interval'. split; [|done].
      rewrite lookup_insert_ne; [done|]. intros Hk. apply Hfresh. apply list_elem_of_fmap. by exists c'.
    + apply list_elem_of_singleton in Hc' as ->. rewrite Hid. split; [done|]. exists interval.
      by rewrite lookup_insert_eq.
Qed.

Lemma fold_ok {A : Type} every (f : SelectedRoutes -> A -> SelectedRoutes) l s :
  (forall s x, x ∈ l -> selected_ok every s -> selected_ok every (f s x)) ->
  selected_ok every s -> selected_ok every (fold_left f l s).
Proof.
  revert s. induction l as [|x l IH]; intros s Hf Hs; [done|]. cbn. apply IH; [|apply Hf; [left|done]].
  intros s' y Hy. apply Hf. by right.
Qed.

Lemma sooner_ok every id interval interval' s : selected_ok every s -> se_interval s !! id = Some interval ->
  interval' <= interval -> (every id interval -> every id interval') ->
  selected_ok every {| se_selected := se_selected s; se_interval := <[id := interval']> (se_interval s) |}.
Proof.
  intros [Hn Hl Hd] Hi Hle He. split; cbn; [done| |].
  - intros k Hk. apply Hl. destruct (decide (k = id)) as [->|Hne]; [by eexists|].
    by rewrite lookup_insert_ne in Hk.
  - intros c Hc. destruct (Hd _ Hc) as (H1 & interval0 & H2 & H3 & H4). split; [done|].
    destruct (decide (c_ID c = id)) as [<-|Hne].
    + rewrite Hi in H2. injection H2 as <-. exists interval'. rewrite lookup_insert_eq.
      split_and!; [done|by apply He|]. by eapply due_sooner.
    + exists interval0. by rewrite lookup_insert_ne.
Qed.

Lemma pick_standby_listed limit rotation tcpTotal udpTotal tcp udp l id b :
  (id, b) ∈ pick_standby limit rotation tcpTotal udpTotal tcp udp l -> id ∈ map hl_CandidateID l.
Proof.
  revert tcp udp. induction l as [|h l IH]; intros tcp udp; cbn [pick_standby map]; [by intros ?%elem_of_nil|].
  cbv zeta. rewrite elem_of_cons. case_match; [eauto|].
  intros [[= -> _]|Hin]%elem_of_cons; [by left|]. case_match; [by apply elem_of_nil in Hin|eauto].
Qed.

Lemma standby_unassigned rotation id b : (id, b) ∈ standby_picks options now i rotation ->
  route_assigned now i id = false.
Proof.
  intros (h & -> & Hin)%pick_standby_listed%list_elem_of_fmap.
  apply list_elem_of_In, sort_slice_In, filter_In in Hin as [_ Hf].
  cbv zeta in Hf. destruct (si_candidate i (hl_CandidateID h)) as [c|]; [|done].
  rewrite !andb_true_iff, !negb_true_iff in Hf. by destruct Hf as [[[_ ?] _] _].
Qed.

Lemma shortest_of_two a b : 0 < a -> 0 < b -> shortestPositiveDuration [a; b] = Z.min a b.
Proof.
  intros Ha Hb. unfold shortestPositiveDuration. cbn [fold_left]. apply Z.ltb_lt in Ha as Ea, Hb as Eb.
  rewrite Ea, Eb. cbn. rewrite (proj2 (Z.eqb_neq a 0)) by lia. cbn.
  destruct (b <? a) eqn:E; z_bool; lia.
Qed.

(** Before the controls. *)
Lemma routes_selected_ok rotation : selected_ok route_interval
  (select_warm options now i m (select_standby options now i m rotation
    (select_degraded options now i m (select_assigned options now i m
       {| se_selected := []; se_interval := ∅ |})))).
Proof.
  assert (forall id, route_assigned now i id = false -> route_interval id (activeInterval options)) as Hactive.
  { intros id Hid. unfold route_interval. rewrite Hid. by left. }
  apply fold_ok.
  { intros s id Hin Hs. rewrite list_elem_of_In, sort_strings_In, filter_In in Hin. destruct Hin as [_ Hin].
    apply negb_true_iff in Hin. destruct (si_candidate i id); [|done]. destruct (str_eqb _ _); [|done].
    by apply select_candidate_ok; [apply Hactive|]. }
  apply fold_ok.
  { intros s [id b] Hin. apply select_candidate_ok, Hactive. by eapply standby_unassigned. }
  apply fold_ok.
  { intros s id Hin. rewrite list_elem_of_In, sort_strings_In, filter_In in Hin. destruct Hin as [_ Hin].
    rewrite !andb_true_iff, negb_true_iff in Hin. destruct Hin as [[H1 H2] _].
    apply select_candidate_ok. unfold route_interval. rewrite H1. by right. }
  apply fold_ok.
  { intros s id Hin. rewrite list_elem_of_In, sort_strings_In, <- list_elem_of_In in Hin.
    apply list_elem_of_fmap in Hin as ([k b] & -> & Hin). apply elem_of_map_to_list in Hin.
    apply select_candidate_ok. unfold route_interval, route_assigned. cbn [fst].
    rewrite bool_decide_eq_true_2 by (by eexists). cbv zeta. destruct (is_degraded i k); [|done].
    unfold activeInterval, idleInterval, degradedInterval.
    assert (forall v f, 0 < f -> 0 < or_default v f) as Hd.
    { intros v f Hf. unfold or_default. destruct (0 <? v) eqn:E; [by z_bool|done]. }
    apply shortest_of_two; [destruct (default _ _)|]; by apply Hd. }
  split; cbn; [constructor|intros id Hid; rewrite lookup_empty in Hid; by destruct Hid|].
  by intros c ?%elem_of_nil.
Qed.

Lemma selection_ok ready rotation : let '(controls, s) := selection options now i m ready rotation in
  selected_ok (fun id => probed_every (bool_decide (id ∈ controls)) id) s.
Proof.
  unfold selection, select_controls. set (controls := map c_ID _). apply fold_ok.
  2: { eapply selected_mono; [|apply routes_selected_ok]. intros id d Hd. by left. }
  intros s id Hin Hs. destruct (se_interval s !! id) as [interval|] eqn:E.
  - eapply sooner_ok; [done|exact E|lia|]. intros H. right. rewrite bool_decide_eq_true_2 by done.
    split; [done|]. destruct H as [H|(_ & [->|(base & H & ->)])].
    + right. by exists interval.
    + left. lia.
    + right. exists base. split; [done|]. lia.
  - apply select_candidate_ok; [|done]. right. rewrite bool_decide_eq_true_2 by done. split; [done|by left].
Qed.
End Selection.

(** ** The lanes *)

Lemma pop_background_spec tries l c l' : pop_background tries l = (c, l') ->
  la_critical l' = la_critical l /\ la_dispatch l' = la_dispatch l /\
  length (la_background l') = length (la_background l) /\
  match c with
  | Some c => concat (la_background l) ≡ₚ c :: concat (la_background l')
  | None => la_background l' = la_background l
  end.
Proof.
  revert l. induction tries as [|tries IH]; intros l; cbn; [by intros [= <- <-]|].
  destruct (la_background l !! _) as [[|c0 rest]|] eqn:E; cbn.
  - intros H. by apply IH in H.
  - intros [= <- <-]. cbn. split_and!; [done..|by rewrite length_insert|].
    rewrite <- (take_drop_middle _ _ _ E) at 1. rewrite insert_take_drop by (by eapply lookup_lt_Some).
    rewrite !concat_app. cbn. rewrite <- Permutation_middle. done.
  - intros H. by apply IH in H.
Qed.

#[local] Arguments Nat.modulo : simpl never.

Lemma pop_background_turn tries l : pop_background (S tries) l =
  pop_background (S tries) (l <| la_cursor := (la_cursor l mod 3)%nat |>).
Proof. cbn [pop_background la_cursor]. cbn. by rewrite Nat.Div0.mod_mod, Nat.Div0.add_mod_idemp_l. Qed.

Lemma pop_background_none l l' : length (la_background l) = 3%nat -> pop_background 3 l = (None, l') ->
  concat (la_background l) = [].
Proof.
  rewrite pop_background_turn. destruct l as [critical background d cursor]. cbn [la_background].
  assert (cursor mod 3 < 3)%nat as Hk by (by apply Nat.mod_upper_bound).
  intros Hl. destruct background as [|b0 [|b1 [|b2 [|? ?]]]]; try done. clear Hl.
  cbn. revert Hk. generalize (cursor mod 3)%nat. intros k Hk.
  destruct k as [|[|[|k]]]; [| | |lia]; destruct b0, b1, b2; vm_compute; done.
Qed.

Lemma next_pick_some l c l' : next_pick l = (Some c, l') ->
  waiting l ≡ₚ c :: waiting l' /\ length (la_background l') = length (la_background l).
Proof.
  unfold next_pick, waiting.
  assert (exists a l1, (if Nat.eqb (la_dispatch l mod 4) 3 || Nat.eqb (length (la_critical l)) 0
    then pop_background 3 l else (None, l)) = (a, l1) /\ la_critical l1 = la_critical l /\
    length (la_background l1) = length (la_background l) /\
    match a with
    | Some c => concat (la_background l) ≡ₚ c :: concat (la_background l1)
    | None => la_background l1 = la_background l
    end) as (a & l1 & -> & Hc & Hl & Ha).
  { destruct (_ || _); [|by eexists None, l]. destruct (pop_background 3 l) as [a l1] eqn:E.
    apply pop_background_spec in E as (H1 & _ & H2 & H3). by exists a, l1. }
  destruct a as [c1|].
  { intros [= <- <-]. cbn. rewrite Hc, Ha. by rewrite Permutation_middle. }
  rewrite <- Hc, <- Ha. destruct (la_critical l1) as [|c1 rest] eqn:Ec.
  - destruct (pop_background 3 l1) as [[c2|] l2] eqn:E; [|done]. intros [= <- <-].
    apply pop_background_spec in E as (H1 & _ & H2 & H3). cbn. rewrite H1, Ec, H3. by rewrite H2.
  - intros [= <- <-]. cbn. done.
Qed.

Lemma next_pick_none l l' : length (la_background l) = 3%nat -> next_pick l = (None, l') ->
  waiting l = [] /\ waiting l' = [].
Proof.
  intros Hl. unfold next_pick, waiting. destruct (la_critical l) as [|c rest] eqn:Ec; cbn [length Nat.eqb].
  - rewrite orb_true_r. destruct (pop_background 3 l) as [a l1] eqn:E1.
    pose proof (pop_background_spec _ _ _ _ E1) as (H1 & _ & H2 & H3). destruct a as [c|]; [done|].
    rewrite H1, Ec. destruct (pop_background 3 l1) as [[c2|] l2] eqn:E2; [done|]. intros [= <-].
    pose proof (pop_background_spec _ _ _ _ E2) as (H4 & _ & _ & H5).
    rewrite H4, H1, Ec, H5, H3. apply pop_background_none in E1; [|done]. by rewrite E1.
  - destruct (_ || _); [|rewrite Ec; intros H; by inversion H].
    destruct (pop_background 3 l) as [a l1] eqn:E1.
    pose proof (pop_background_spec _ _ _ _ E1) as (H1 & _). rewrite H1, Ec. by destruct a.
Qed.

Section Dispatch.
Context `{MR : MapRange} (now : Time) (interval : string -> Duration) (valid : string -> Time).

Abbreviation is_due m id := (due id now (interval id) (valid id) m).

Lemma reserve_spec id m ok m' : reserve id now (interval id) (valid id) m = (ok, m') ->
  lastAttempt m' = lastAttempt m /\
  inFlight m' = (if ok then {[id]} else ∅) ∪ inFlight m /\
  (if ok : bool then id ∉ inFlight m /\ is_due m id = true else id ∈ inFlight m \/ is_due m id = false).
Proof.
  unfold reserve. case_bool_decide as Hin; [intros [= <- <-]; split_and!; [done|set_solver|by left]|].
  destruct (due _ _ _ _ _) eqn:Ed; intros [= <- <-]; cbn;
    (split; [done|split; [set_solver|auto]]).
Qed.

Lemma due_same m m' id : lastAttempt m' = lastAttempt m -> is_due m' id = is_due m id.
Proof. intros H. unfold due, lastAttemptAt. by rewrite H. Qed.

Lemma dispatch_spec fuel workers l m picked tried picked' tried' l' :
  length (la_background l) = 3%nat -> (length (waiting l) < fuel)%nat -> NoDup (map c_ID (waiting l)) ->
  dispatch now interval valid fuel workers l m picked tried = (picked', tried', l') ->
  exists new refused ops, picked' = picked ++ new /\ waiting l ≡ₚ new ++ refused ++ waiting l' /\
    (length picked' <= Nat.max workers (length picked))%nat /\
    ((length picked' < workers)%nat -> waiting l' = []) /\
    Forall (fun c => c_ID c ∉ inFlight m /\ is_due m (c_ID c) = true) new /\
    Forall (fun c => c_ID c ∈ inFlight m \/ is_due m (c_ID c) = false) refused /\
    tried' = tried ++ ops /\
    inFlight (fold_left monitor_step ops m) = list_to_set (map c_ID new) ∪ inFlight m.
Proof.
  revert l m picked tried. induction fuel as [|fuel IH]; intros l m picked tried Hl Hf Hn; [lia|].
  cbn [dispatch]. destruct (Nat.leb_spec workers (length picked)) as [Hw|Hw].
  { intros [= <- <- <-]. exists [], [], []. rewrite !app_nil_r. cbn.
    split_and!; [done..|lia|lia|constructor|constructor|done|set_solver]. }
  destruct (next_pick l) as [[c|] l1] eqn:Ep.
  2: { apply next_pick_none in Ep as [H1 H2]; [|done]. intros [= <- <- <-]. exists [], [], []. rewrite !app_nil_r, H1, H2.
       cbn. split_and!; [done..|lia|done|constructor|constructor|done|set_solver]. }
  apply next_pick_some in Ep as [Hp Hl1].
  destruct (reserve _ _ _ _ m) as [ok m1] eqn:Er.
  assert (monitor_step m (reserve_op now interval valid c) = m1) as Hstep by (cbn; by rewrite Er).
  apply reserve_spec in Er as (Ha & Hfl & Hok).
  assert (NoDup (map c_ID (c :: waiting l1))) as Hn1 by (by rewrite <- Hp).
  cbn in Hn1. apply NoDup_cons in Hn1 as [Hc Hn1].
  apply Permutation_length in Hp as Hlen. cbn in Hlen.
  intros Hd. apply IH in Hd as (new & refused & ops & -> & Hw1 & Hlen1 & Hrest & Hnew & Href & -> & Hops);
    [|by rewrite Hl1|lia|done].
  assert (forall c', c' ∈ new ++ refused -> c_ID c' <> c_ID c) as Hother.
  { intros c' Hc' E. apply Hc. rewrite <- E. apply list_elem_of_fmap. exists c'. split; [done|].
    rewrite Hw1, app_assoc. apply elem_of_app. by left. }
  rewrite Forall_forall in Hnew, Href.
  exists (if ok then c :: new else new), (if ok then refused else c :: refused),
    (reserve_op now interval valid c :: ops).
  split_and!.
  - destruct ok; [by rewrite <- app_assoc|done].
  - rewrite Hp, Hw1. destruct ok; [done|]. cbn; apply Permutation_middle.
  - destruct ok; rewrite ?length_app in *; cbn in *; lia.
  - done.
  - apply Forall_forall. intros c' Hc'.
    assert (c' = c /\ ok = true \/ c' ∈ new) as [[-> ->]|Hin] by (destruct ok; set_solver); [done|].
    destruct (Hnew _ Hin) as [H1 H2]. rewrite <- (due_same m m1) by done. split; [set_solver|done].
  - apply Forall_forall. intros c' Hc'.
    assert (c' = c /\ ok = false \/ c' ∈ refused) as [[-> ->]|Hin] by (destruct ok; set_solver); [done|].
    specialize (Hother c' ltac:(set_solver)).
    destruct (Href _ Hin) as [H1|H1]; [left; destruct ok; set_solver|right; by rewrite <- (due_same m m1)].
  - by rewrite <- app_assoc.
  - cbn [fold_left]. rewrite Hstep, Hops, Hfl. destruct ok; cbn; set_solver.
Qed.
End Dispatch.

Lemma groups_partition now i m l :
  group now i m l 0 ++ concat [group now i m l 1; group now i m l 2; group now i m l 3] ≡ₚ l.
Proof.
  unfold group. rewrite !sort_slice_Permutation. cbn. rewrite !sort_slice_Permutation, app_nil_r.
  induction l as [|c l IH]; [done|]. cbn.
  assert (group_of now i c = 0 \/ group_of now i c = 1 \/ group_of now i c = 2 \/ group_of now i c = 3)%nat
    as [-> | [-> | [-> | ->]]] by (unfold group_of; repeat case_match; auto); cbn;
    (etrans; [|apply (perm_skip c), IH]).
  - done.
  - by rewrite <- Permutation_middle.
  - by rewrite <- !Permutation_middle.
  - by rewrite <- !Permutation_middle.
Qed.

(** C38.  A sweep keeps its workers busy, and no more.  From any state of the monitor and
    whatever the store shows: at most as many probes are launched as there are workers,
    and never more than four; each is of a known candidate, of another one each, that no
    worker is probing, and whose last measurement and last attempt, of those that are not
    in the future, are at least the interval of such a route ago: the active or the idle
    interval for a route in use, or the degraded one when that is sooner; the active one,
    or for a degraded route the degraded one, for any other; and for a control no more
    than ten seconds.  Exactly these are in flight in addition after the reservations.
    And when a worker stays idle, every route that was selected is being probed. *)
Theorem sweep_fills_workers `{MR : MapRange} options now i ready m s :
  let sw := sweep options now i ready m s in
  let selected := se_selected (selection options now i m ready (standbyRotation s)).2 in
  let jobs := map fst (sw_jobs sw) in
  Z.of_nat (length jobs) <= Z.max 0 (workerCount options) <= 4 /\
  NoDup (map c_ID jobs) /\
  (forall c control, (c, control) ∈ sw_jobs sw ->
     c ∈ si_candidates i /\ c ∈ selected /\ c_ID c ∉ inFlight m /\
     exists interval, 0 < interval /\ probed_every options now i control (c_ID c) interval /\
       rested now i m (c_ID c) interval) /\
  inFlight (fold_left monitor_step (sw_ops sw) m) = list_to_set (map c_ID jobs) ∪ inFlight m /\
  (Z.of_nat (length jobs) < workerCount options ->
   forall c, c ∈ selected -> c ∈ jobs \/ c_ID c ∈ inFlight m).
Proof.
  cbn zeta. unfold sweep. pose proof (selection_ok options now i m ready (standbyRotation s)) as Hok.
  destruct (selection options now i m ready (standbyRotation s)) as [controls sel]. cbn [snd] in *.
  set (l := {| la_critical := _; la_background := _; la_dispatch := _; la_cursor := _ |}).
  destruct (dispatch _ _ _ _ _ _ _ _ _) as [[picked tried] l'] eqn:Ed.
  assert (waiting l ≡ₚ se_selected sel) as Hall by apply groups_partition.
  apply dispatch_spec in Ed as (new & refused & ops & -> & Hw & Hlen & Hidle & Hnew & Href & -> & Hops);
    [|done|lia|rewrite Hall; by apply Hok].
  cbn [app sw_jobs sw_ops length] in *.
  assert (map fst (map (fun c => (c, bool_decide (c_ID c ∈ controls))) new) = new) as ->.
  { rewrite map_map. cbn. apply map_id. }
  assert (forall c, c ∈ new -> c ∈ se_selected sel) as Hsub.
  { intros c Hc. rewrite <- Hall, Hw. apply elem_of_app. by left. }
  assert (forall c, c ∈ se_selected sel -> si_candidate i (c_ID c) = Some c /\
    due (c_ID c) now (default 0 (se_interval sel !! c_ID c)) (last_valid i (c_ID c)) m = true) as Hdue.
  { intros c Hc. destruct (sk_due _ _ _ _ _ Hok _ Hc) as (H1 & interval & H2 & _ & H3). by rewrite H2. }
  rewrite Forall_forall in Hnew, Href. split_and!.
  - unfold workerCount in *. lia.
  - unfold workerCount. lia.
  - pose proof (sk_once _ _ _ _ _ Hok) as Hn. rewrite <- Hall, Hw, map_app in Hn. by apply NoDup_app in Hn as [? _].
  - intros c control Hin. apply list_elem_of_fmap in Hin as (c0 & [= -> ->] & Hc). destruct (Hnew _ Hc) as [H1 _].
    destruct (sk_due _ _ _ _ _ Hok _ (Hsub _ Hc)) as (H3 & interval & _ & H4 & H5).
    apply index_by_Some in H3 as [H3 _].
    split_and!; [by apply list_elem_of_In|by apply Hsub|done|]. exists interval.
    split_and!; [by eapply probed_every_positive|done|by apply due_rested].
  - cbn [fold_left]. change (monitor_step m (OpExpireRequests now)) with (in_comparisons (expire_requests now) m).
    exact Hops.
  - intros Hlt c Hc. rewrite Hidle, app_nil_r in Hw by lia. rewrite <- Hall, Hw in Hc.
    apply elem_of_app in Hc as [Hc|Hc]; [by left|right].
    destruct (Href _ Hc) as [H|H]; [done|].
    assert (c ∈ se_selected sel) as Hs by (rewrite <- Hall, Hw; apply elem_of_app; by right).
    destruct (Hdue _ Hs) as [_ H2].
    by pose proof (eq_trans (eq_sym H) H2).
Qed.

(** ** The order of the launches *)

(** The launches of [n] turns. *)
Fixpoint launches (n : nat) (l : Lanes) : list Candidate :=
  match n with
  | O => []
  | S n => match next_pick l with
           | (Some c, l) => c :: launches n l
           | (None, _) => []
           end
  end.

(** [perm_cons] takes the elements of a concrete list out of another one in turn. *)
Ltac perm_cons :=
  lazymatch goal with
  | |- ?k ≡ₚ [] => apply perm_nil
  | |- ?x :: ?l ≡ₚ ?k =>
      let rec find pre k := lazymatch k with
        | x :: ?rest => apply (Permutation_cons_app pre rest x)
        | ?y :: ?rest => find (pre ++ [y])%list rest
        end in find (@nil Candidate) k; cbn [app]
  end.

(** Routes in use get three launches of four, and no background class starves: whatever
    the turn is, twelve launches are nine of the routes in use, in their order, and the
    first of each class. *)
Theorem launches_are_shared l a b c standby degraded tor :
  (la_dispatch l < 4)%nat -> (la_cursor l < 3)%nat -> (9 <= length (la_critical l))%nat ->
  la_background l = [a :: standby; b :: degraded; c :: tor] ->
  launches 12 l ≡ₚ take 9 (la_critical l) ++ [a; b; c].
Proof.
  destruct l as [critical background d k]. cbn [la_critical la_background la_dispatch la_cursor].
  intros Hd Hk Hc ->.
  do 9 (destruct critical as [|? critical]; [cbn in Hc; lia|]). clear Hc.
  destruct d as [|[|[|[|d]]]]; [| | | |lia];
    (destruct k as [|[|[|k]]]; [| | |lia]); vm_compute; repeat perm_cons.
Qed.

(** ** Memory *)

Section Memory.
Context `{MR : MapRange} `{ML : !MapRangeLaws}.

(** The window of all that finds no place counts apart. *)
Lemma windows_bounded h :
  Z.of_nat (size (delete "overflow"%string (infraLast (monitor_after h)))) <= 63.
Proof.
  induction h as [|op h IH] using rev_ind; [cbn; rewrite delete_empty, map_size_empty; lia|].
  unfold monitor_after. rewrite fold_left_app. cbn [fold_left]. fold (monitor_after h).
  set (m := monitor_after h) in *.
  assert (forall m', infraLast m' = infraLast m ->
    Z.of_nat (size (delete "overflow"%string (infraLast m'))) <= 63) as Hsame by (by intros m' ->).
  destruct op; cbn; try by apply Hsame.
  - apply Hsame. unfold reserve. by repeat case_match.
  - assert (forall w, Z.of_nat (size (delete "overflow"%string
      (<[diagnostic_key key m := w]> (infraLast m)))) <= 63) as Hput.
    { intros w. destruct (decide (diagnostic_key key m = "overflow"%string)) as [->|Hne].
      { by rewrite delete_insert_eq. }
      rewrite delete_insert_ne by done. revert Hne. unfold diagnostic_key.
      case_bool_decide as Hk; cbn [negb andb].
      - intros Hne. destruct Hk as [x Hx]. rewrite map_size_insert, lookup_delete_ne, Hx by done. exact IH.
      - destruct (63 <=? _) eqn:E; [done|]. z_bool. intros _. rewrite map_size_insert.
        pose proof (size_delete_le (infraLast m) "overflow"%string). case_match; unfold id; lia. }
    unfold record_window. repeat case_match; cbn; by try apply Hput.
Qed.

(** What the monitor keeps in memory is bounded, whatever its workers do: at most sixty-four
    measurements to compare with, each under its candidate, of a known policy and with at
    most sixteen checks, all of the route itself; as many requests for controls; and as
    many windows of diagnostics. *)
Theorem quality_memory_bounded history :
  let m := monitor_after history in
  Z.of_nat (size (comparisons (compared m))) <= 64 /\
  Z.of_nat (size (controlRequests (compared m))) <= 64 /\
  Z.of_nat (size (infraLast m)) <= 64 /\
  forall id e, comparisons (compared m) !! id = Some e ->
    c_ID (cmp_candidate e) = id /\ comparable_policy (cmp_policy e) = true /\
    (length (cmp_checks e) <= 16)%nat /\ Forall (fun c => QoE.h_Path c = "route"%string) (cmp_checks e).
Proof.
  cbn zeta. destruct (comparisons_after history) as [_ Hm Hs Hr]. split_and!; [exact Hs|exact Hr| |].
  - pose proof (windows_bounded history) as Hw. rewrite map_size_delete in Hw.
    destruct (infraLast (monitor_after history) !! "overflow"%string); cbn in Hw; lia.
  - intros id e He. destruct (Hm _ _ He) as [Hmade Hid].
    apply made_remembered in Hmade as (n & x & _ & Hp & Hpolicy & Hchecks).
    rewrite Hpolicy, Hchecks. split_and!; [done|done|unfold route_checks; rewrite length_take; lia|].
    apply Forall_take, Forall_forall. intros c Hc. apply list_elem_of_In, filter_In in Hc as [_ Hc].
    by apply str_eqb_eq.
Qed.
End Memory.

(** ** A failure and its control *)

#[local] Existing Instances RenderingSafety.sample_range RenderingSafety.sample_range_laws.

Definition quality_check (ok : bool) : HTTPCheck := {|
  QoE.h_Service := "qoe_endpoint"; QoE.h_Path := "route"; QoE.h_Phase := "headers";
  QoE.h_Code := if ok then "ok" else "timeout"; QoE.h_Status := if ok then 200 else 0;
  QoE.h_ElapsedMS := 700; QoE.h_OK := ok |}.

Definition quality_observation (ok : bool) : Observation := {|
  o_At := zero_time; o_Success := ok; o_Infrastructure := false;
  o_ErrorCode := if ok then EmptyString else ReasonRouteTimeout; o_TTFB := 300 * millisecond;
  o_TransferDuration := 400 * millisecond; o_Bytes := 262144; o_ThroughputMbps := 5;
  o_ApplicationChecks := [quality_check ok]; o_UnconfirmedHTTP := negb ok;
  o_ComparisonPolicy := "policy"; o_UDPReachable := None |}.

Definition quality_probe_row : ProbeRow := {|
  pr_candidate_id := "cand_b"; pr_source_id := "s"; pr_status := CandidateQualified;
  pr_failure_streak := 0; pr_full_success_streak := 2; pr_window_started_at := None;
  pr_banned_until := None; pr_last_fast_probe_at := None; pr_last_full_probe_at := Some 90;
  pr_last_success_at := Some 90; pr_last_failure_at := None; pr_last_error_code := EmptyString;
  pr_last_error_message := EmptyString; pr_last_score := 0.9; pr_conservative_score := 0.9;
  pr_in_working_pool := true; pr_draining := false; pr_stale := false; pr_updated_at := 90;
  pr_fast_result_seq := 0; pr_fast_applied_seq := 0; pr_placeholder := false |}.

(** [cand_b] is in the pool, and was measured well ten seconds before [cand_a] is. *)
Definition quality_start : QualityWorld := {|
  qw_store := {|
    qd_db := (stored_database false)
      <| candidate_health := {["cand_a"%string := stored_health false; "cand_b"%string := stored_health false]} |>
      <| candidate_probe_state := {["fp-cand_b"%string := quality_probe_row]} |>;
    qd_samples := []; qd_events := [] |};
  qw_history := [OpRemember 0 (stored_candidate "cand_b") 1 (quality_observation true) (of_unix 100)];
  qw_calls := [] |}.

Definition quality_env : QualityEnv := {|
  qe_outcome := fun _ => Commits; qe_store := fun _ d => d; qe_workers := fun _ _ => [];
  qe_agent := fun _ => ({| re_Diagnostics := None; re_CandidateID := "cand_a"; re_FailureClass := FailureNone;
                           re_ErrorCode := EmptyString; re_QoE := Some (quality_observation false) |}, None);
  qe_clock := fun _ => of_unix 110; qe_canceled := fun _ => false; qe_warm := fun _ _ => false |}.

Definition quality_options : QualityOptions := {|
  qo_Policy := DefaultPolicy; qo_ActiveInterval := 0; qo_IdleInterval := 0; qo_DegradedInterval := 0;
  qo_Retention := 0; qo_Workers := 0; qo_StandbyCandidates := 0; qo_has_trigger := true |}.

Definition quality_end : QualityWorld :=
  (probe quality_env quality_options (stored_candidate "cand_a") false (of_unix 110) (of_unix 110)
     quality_start).2.

(** The failure, with the checks of the control. *)
Definition recorded_failure : Observation :=
  observed_at (of_unix 110)
    (judged false [relabel_control (quality_check true)] (quality_observation false)).

Lemma quality_recorded : exists answer,
  qw_calls quality_end !! 4%nat = Some (QualityRecorded (stored_candidate "cand_a") recorded_failure 1 answer).
Proof. eexists. vm_compute. reflexivity. Qed.

Lemma quality_failure_is_corroborated_witness :
  corroborated (stored_candidate "cand_a") recorded_failure (take 4 (qw_calls quality_end))
    (qw_history quality_start) (qw_history quality_end).
Proof.
  destruct (quality_failure_is_corroborated quality_env quality_options (stored_candidate "cand_a") false
    (of_unix 110) (of_unix 110) quality_start) as (calls & Hc & Hs).
  destruct quality_recorded as [answer Ha].
  apply take_drop_middle in Ha. change (qw_calls quality_end = [] ++ calls) in Hc. cbn [app] in Hc.
  rewrite Hc in *.
  destruct (Hs ltac:(vm_compute; reflexivity) _ _ _ _ _ _ (eq_sym Ha)) as (_ & _ & H).
  apply H; reflexivity.
Defined.
